(* ===== verification/_CoqProject ===== *)
-Q . S2P
Prelude.v
Cstring.v
CstringProps.v
Kmalloc.v
KmallocInv.v
KmallocProps.v
Sched.v
SchedInv.v
SchedProps.v
Pipe.v
PipeInv.v
PipeRefs.v
PipeProps.v
Alloc.v
HeapAlloc.v
Vfs.v
VfsSynth.v
VfsPath.v
VfsApi.v
VfsInv.v
VfsRefs.v
VfsDir.v
VfsOps.v
VfsTree.v
VfsFile.v
VfsFd.v
VfsWalk.v
VfsProps.v
VfsNames.v
Paging.v
PagingInv.v
PagingCopy.v
PagingHeap.v
PagingSpace.v
PagingOps.v
PagingProps.v
Elf.v
ElfProps.v
Kernel.v
Posix.v
PosixPath.v
PosixProps.v
Socket.v
NativeFd.v
Process.v
ProcInv.v
ProcFd.v
ProcOps.v
ProcLife.v
ProcProps.v
NativeApp.v
Net.v
NetInv.v
Tcp.v
TcpFrame.v
TcpOps.v
NetProps.v
Time.v
Tzif.v
Clock.v
TimeProps.v
Syscall.v
SysPath.v
Dispatch.v
SysInv.v
SysProps.v
Catfs.v
CatfsOps.v
CatfsNames.v
CatfsInv.v
CatfsTree.v
CatfsIo.v
CatfsSync.v
CatfsFree.v
CatfsMount.v
CatfsProps.v
CatfsVfs.v
Config.v
Netman.v
