(* ===== verification/Prelude.v ===== *)
(** * A verification library for the ATMKoala kernel

    ATMKoala is a kernel for x86-64 written in C (src/src).  This library models the parts
    that carry its core logic as executable functions and proves what makes them correct.

    ** The program and its parts

    The heap (kmalloc.c) hands out memory to everything else.  The scheduler (sched.c) keeps
    sixteen task slots, a circular run queue and the timer tick; tasks are created on a stack
    from the heap, terminate into zombies, and are reaped by their parents.  The virtual
    filesystem (vfs.c) keeps inodes with reference counts, mounts and descriptors.  Pipes
    (native_pipe.c) connect tasks and block and wake them.  Page tables (paging.c) and user
    copies (uaccess.c) separate user programs from the kernel, and the ELF loader (elf.c)
    fills an address space.  On top, atm_posix.c gives the filesystem paths, a working
    directory and a umask per task; native_fd.c, native_dir.c and native_socket.c give each
    task its own descriptors onto files, pipes, directory streams and sockets, which are
    released when the task dies.  Sockets are TCP connections (net_tcp.c) over the frames of a
    network card (net.c, with ARP and UDP).  The clocks (atm_time.c) combine the clock chip
    (rtc.c), the timer and a correction; zone files (tzif.c) are read through the filesystem.
    Programs are launched and replaced by native_app.c; what they ask of the kernel goes
    through the dispatcher of atm_syscall.c, which checks and copies their memory and calls
    the components.

    ** Conventions

    A C function is a function in the state monad [M] of this file: [Done] carries the
    result and the new state, [Fault] stands for what C leaves undefined or what hangs or
    halts the machine (a NULL or wild pointer, an access outside an array, a string that does
    not fit its buffer, a loop that never ends).  A theorem stated with [wp] says that the
    code returns, without fault, in a state that satisfies the postcondition.  Machine
    integers are [Z] with the wrap-around written out ([u8], [u32], [u64], [i32], [i64]);
    bytes are [byte], a C string is the list of its bytes before the terminator.  Records are
    updated with [r <| field := v |>].  Static variables of a C file are the fields of a state
    record; [zoom] runs an operation of a component on the state of a larger one, and
    [Kernel.kernel] puts all components side by side.

    ** Files

    - Prelude: integers, the monad and its weakest preconditions ([wp], [wp_step]), record
      updates, arrays, generic lemmas.
    - Cstring, CstringProps: util.c, the string and memory routines, the printf family, the
      kernel log.
    - Kmalloc, KmallocInv, KmallocProps: kmalloc.c over the words of its memory; the header
      list in memory is a list of blocks that tile the heap.  Alloc is the interface
      [Allocator] and its laws [AllocatorLaws]; HeapAlloc discharges them for Kmalloc, so the
      clients are proved against the interface.
    - Sched, RunQueue, SchedInv, SchedProps: the pool, the queue, blocking, sleeping, the tick.
    - Pipe, PipeInv, PipeRefs, PipeProps: pipes; the ring buffer as a byte queue,
      the counters as numbers of descriptors.  The interface [WakeInv] states what pipes need
      of the scheduler.
    - Vfs (inodes, ramfs), VfsSynth (device and process files), VfsPath (path resolution),
      VfsApi (the calls, the tree at boot); VfsInv and VfsRefs (invariant and
      reference counts), VfsDir, VfsOps, VfsTree, VfsFile, VfsFd, VfsWalk (each
      operation on the invariant), VfsProps (with a concrete tree), VfsNames.
    - Paging (paging.c, uaccess.c), PagingInv (translation), PagingCopy (user copies,
      changing the mapping), PagingSpace, PagingOps (the page operations as a finite map, memory as a
      program sees it), PagingHeap (the heap keeps the interface [PageLaws]), PagingProps.
    - Elf, ElfProps: elf.c.
    - Kernel: the whole state; process groups, sessions and queries of sched.c.
    - Posix, PosixPath, PosixProps: atm_posix.c; canonical paths against a reference on
      lists of components.
    - Socket: native_socket.c over the interface [Tcp].  NativeFd: native_fd.c, native_dir.c.
    - Process: creation, termination, signals and waiting of sched.c.  ProcInv (the
      scheduler while a task dies; the invariant [kernel_inv] of tasks, stacks, descriptors,
      pipes and filesystem together), ProcFd (releasing descriptors), ProcOps
      (reaping, waking the parent, orphans, dying), ProcLife (whole operations), ProcProps.
    - Net (net.c and the timer of pit.c; the card with the frames that will arrive), NetInv
      (checksums, byte order, what polling keeps).
    - Tcp (net_tcp.c, the instance of [Tcp]), TcpFrame (segments in frames), TcpOps
      (waiting for a segment, each operation, the instance of [TcpTotal]).
      NetProps has the properties of both.
    - Time (calendar and clock chip), TimeInv (years and months as stretches of days), Tzif
      (zone files), Clock (time zones and clocks), TimeProps.
    - NativeApp (native_app.c: arguments, first stack, launch, exec).  Syscall (transfers,
      poll, select), SysPath (paths, sockets, sleep, break, exec) and Dispatch (the switch)
      model atm_syscall.c for calls from user mode, with atm_uname.c; structures cross the
      boundary as bytes, a call that waits ends in [Sleeping] and goes on in [resume_call].
      SysInv (user memory under the calls, the break), ExecInv (arguments on the stack and
      from the caller), SysProps.
    - Catfs and CatfsOps: catfs.c, the filesystem on disk, its structures as bytes, over the
      interface [Disk]; CatfsVfs: catfs_vfs.c, its adapter to the virtual filesystem.
      CatfsNames (lookups as functions of the table of inodes, the chain of parents),
      CatfsInv (encodings; [DiskLaws], what a working disk promises; the logic [spec] on the
      tables in memory and the sectors on the disk), CatfsTree (the pointers of the inodes as
      [slot]s, the bitmap), CatfsIo (reading and writing), CatfsSync (the tables on the disk;
      lookup, create, rename, chmod, write, read), CatfsFree (unlink, truncate), CatfsMount
      (sync, format, mount), CatfsProps (histories of calls, a disk in memory).

    ** What the theorems show

    - Heap: first fit with disjoint blocks, merging on release, nothing lost or overlapped.
    - Scheduler: the linked queue refines a list; which task a tick or a block switches to;
      exact sleep lengths across the wrap of the tick counter; a starvation scenario.
    - Processes: over every history of creation, exit, kill, signals, waits and ticks the
      invariant holds and no call faults; an exiting child wakes its waiting parent, which
      then gets its status; every branch of waitpid; a dead task holds no descriptor.
    - Pipes: the byte stream is preserved over any interleaving; counters are exact; the
      outcome of reads, writes, close and poll; a lost wake-up with two readers.
    - Filesystem: over every history of operations the reference counts, kinds and names are
      consistent and nothing faults; resolution equals the walk through the tree; round trips
      of write and read, create and unlink; permissions; defects with concrete runs.
    - Memory: page operations refine a finite map; range checks and user copies are exact;
      a new space shares the kernel; the loader is safe on any file and loads what it says.
    - Paths: canonical paths against the reference; chdir and pread.
    - Network: frames are parsed within their bounds; segments and datagrams survive the wire;
      a receiver gets the peer's stream in order whatever the wire does; the outcomes of
      sending and of both handshakes; waiting always ends.
    - Time: dates and seconds are converted into each other without loss; local time is UTC
      plus the offset of the zone; the chip is read back as written, but for one mode; the
      zone parser is safe on any file; the conversion that leaves out the day.
    - System calls: a bad buffer is refused before anything happens; what read answers is what
      the program finds; the break grows with pages behind it; arguments survive exec; how
      long a sleep is, and which sleeps end at once; the numbers of the calls.
    - CatFS: every history of calls after a format completes; the bitmap marks exactly the
      blocks in use, each used once; a write is read back and touches no other file; a created
      path is found; a restart with nothing but the disk finds the same paths and bytes, for
      histories the journal has room for, and a run in which it has not.

    ** Bounds and fuel

    Loops that the code bounds by a constant (the walks of the run queue by [TASK_MAX], table
    scans) use that constant.  Others recurse on a fuel that the proofs show is enough: the
    walks over heap headers end within the size of the heap divided by the header size
    ([walk_bound]); [range_fuel] covers the pages of the user window; string loops take one
    more step than their region has bytes; path loops one more than the path has bytes, and
    resolution restarts at most as often as the code allows links to be followed; the search
    of the tick needs one step more than there are tasks.  Blocking loops (pipe transfers,
    waitpid) are modelled by one pass of the body: a pass returns or puts the task to sleep,
    and a woken task runs another pass.  The loops that poll the card end when the frames of
    the wire are used up and the ticks they wait for are over ([poll_until_spec]).  The year
    loop takes at most a pass per 365 days and one more, the month loop thirteen.  The loop of
    the break has a step for each page of the user window ([brk_fuel]).  CatFS transfers take
    a step for each block they touch ([io_fuel], [io_fuel_enough]), lookups one for each byte of
    the path, and the walk to the root one for each inode ([ends_bound]).

    ** Assumptions

    Interrupts are masked during kernel operations, so each is one atomic step.  The
    interfaces [Allocator], [AllocatorLaws], [PageLaws] and [WakeInv] are discharged in the
    library; so are [Tcp] and [TcpTotal], by TcpOps.  [Files] and [FilesTotal] stand for the
    filesystem the zone files are on, which may be CatFS.  The frames that arrive and when,
    what the registers of the clock chip return, what CatFS answers to a flush and what an
    uninitialised block of the heap holds are given.  The invariant of processes
    covers kernel tasks, whose [address_space] is NULL, and leaves out
    [task_discard_unstarted].  The disk under CatFS (disk.c) is the interface [Disk]; the theorems
    on CatFS take a disk that keeps [DiskLaws] (a ready drive reads what was last written to a
    sector and does not fail), which the disk in memory of CatfsProps does.  A crash is one
    between calls.

    ** Not modelled

    Device drivers, the display, the window manager and the interactive programs (port I/O
    and video memory); the shell and boot sequence (printing and glue); ext2, Btrfs, FAT32
    and disks; the discovery of the network card; functions that only print and self tests;
    system calls made by the kernel itself with kernel pointers; assembly (context switch,
    entry to user mode), of which the model records the calls.  Third-party code (stb_image.h) is left aside.

    ** What could follow

    The Linux calls of linux_abi.c over the dispatcher; native tasks with address spaces in the
    invariant of processes; the clients of the network; the consistency check of CatFS, which is
    modelled without theorems; crashes within a call. *)

From Stdlib Require Export ZArith Lia.
From Stdlib Require Export Strings.Byte.
From stdpp Require Export base gmap list strings numbers.

#[global] Set Default Goal Selector "!".
#[global] Open Scope Z_scope.

(** ** Machine integers

    Unsigned arithmetic wraps around; signed values are the two's complement
    reading of the wrapped value. *)

Definition u8 (z : Z) : Z := z mod 2 ^ 8.
Definition u16 (z : Z) : Z := z mod 2 ^ 16.
Definition u32 (z : Z) : Z := z mod 4294967296.
Definition u64 (z : Z) : Z := z mod 18446744073709551616.

Definition i32 (z : Z) : Z := if u32 z <? 2 ^ 31 then u32 z else u32 z - 2 ^ 32.
Definition i64 (z : Z) : Z := if u64 z <? 2 ^ 63 then u64 z else u64 z - 2 ^ 64.

(** [a & ~b] on unsigned words: the bits of [a] that are not set in [b]. *)
Definition andn (a b : Z) : Z := Z.ldiff a b.

(** The truth value of a C integer used as a condition. *)
Definition truth (z : Z) : bool := negb (z =? 0).

Lemma u32_small z : 0 <= z < 2 ^ 32 -> u32 z = z.
Proof. intros H. unfold u32. by apply Z.mod_small. Qed.
Lemma u64_small z : 0 <= z < 2 ^ 64 -> u64 z = z.
Proof. intros H. unfold u64. by apply Z.mod_small. Qed.
Lemma u32_range z : 0 <= u32 z < 2 ^ 32.
Proof. apply Z.mod_pos_bound. lia. Qed.
Lemma u64_range z : 0 <= u64 z < 2 ^ 64.
Proof. apply Z.mod_pos_bound. lia. Qed.
Lemma land_low a k : 0 <= k -> Z.land a (2 ^ k - 1) = a mod 2 ^ k.
Proof. intros Hk. rewrite <- Z.land_ones by done. by rewrite Z.ones_equiv, Z.sub_1_r. Qed.
Lemma lor_disjoint a b : Z.land a b = 0 -> Z.lor a b = a + b.
Proof. intros E. rewrite Z.add_nocarry_lxor by done. by rewrite Z.lxor_lor. Qed.
Lemma i64_small z : 0 <= z < 2 ^ 63 -> i64 z = z.
Proof.
  intros H. unfold i64. rewrite u64_small; [|lia].
  destruct (Z.ltb_spec z (2 ^ 63)); lia.
Qed.

(** ** C strings

    A C string is the list of its bytes before the terminating NUL. *)

Definition cstr := list byte.

Definition cs (s : string) : cstr := String.list_byte_of_string s.

#[global] Instance byte_eq_decision : EqDecision byte := Byte.byte_eq_dec.

Definition bz (b : byte) : Z := Z.of_N (Byte.to_N b).
Definition zb (z : Z) : byte :=
  match Byte.of_N (Z.to_N (u8 z)) with Some b => b | None => x00 end.

Lemma bz_range b : 0 <= bz b < 256.
Proof. unfold bz. pose proof (Byte.to_N_bounded b). lia. Qed.

Lemma bz_zb z : 0 <= z < 256 -> bz (zb z) = z.
Proof.
  intros Hz. unfold zb, u8. rewrite Z.mod_small by lia.
  destruct (Byte.of_N (Z.to_N z)) as [b|] eqn:E.
  - unfold bz. apply Byte.to_of_N in E. rewrite E. lia.
  - apply Byte.of_N_None_iff in E. lia.
Qed.

Lemma bz_zb_u8 z : bz (zb z) = u8 z.
Proof.
  assert (E : zb z = zb (u8 z)) by (unfold zb, u8; by rewrite Z.mod_mod).
  rewrite E. apply bz_zb. by apply Z.mod_pos_bound.
Qed.

Definition slash : byte := x2f.
Definition dot : byte := x2e.
Definition nul : byte := x00.

Abbreviation zlen l := (Z.of_nat (length l)).

(** ** Outcomes and the state monad of the C fragments

    [Fault] stands for what C leaves undefined and the kernel cannot survive:
    the dereference of NULL or of a freed object, an access outside an array,
    a string copied into a buffer it does not fit.  Error returns of the code
    are ordinary values. *)

Inductive outcome (A : Type) : Type :=
| Done (a : A)
| Fault.
Arguments Done {_} _.
Arguments Fault {_}.

Definition M (S A : Type) : Type := S -> outcome (A * S).

Definition ret {S A} (a : A) : M S A := fun s => Done (a, s).
Definition bind {S A B} (m : M S A) (k : A -> M S B) : M S B := fun s =>
  match m s with
  | Done (a, s') => k a s'
  | Fault => Fault
  end.
Definition fault {S A} : M S A := fun _ => Fault.
Definition gets {S A} (f : S -> A) : M S A := fun s => Done (f s, s).
Definition modify {S} (f : S -> S) : M S unit := fun s => Done (tt, f s).

(** Reading a value that may be absent: the absence is a [Fault]. *)
Definition deref {S A} (f : S -> option A) : M S A := fun s =>
  match f s with
  | Some a => Done (a, s)
  | None => Fault
  end.

(** [guard b] is a [Fault] when [b] is false. *)
Definition guard {S} (b : bool) : M S unit := if b then ret tt else fault.

Declare Scope c_scope.
Delimit Scope c_scope with c.
Notation "'let*' x ':=' m 'in' k" := (bind m (fun x => k))
  (at level 10, x name, m at level 100, k at level 200,
   format "'[v' 'let*'  x  ':='  m  'in' '/' k ']'") : c_scope.
Notation "'let*' ' p ':=' m 'in' k" := (bind m (fun x => match x with p => k end))
  (at level 10, p strict pattern, m at level 100, k at level 200) : c_scope.
Notation "'do*' m 'in' k" := (bind m (fun _ => k))
  (at level 10, m at level 100, k at level 200,
   format "'[v' 'do*'  m  'in' '/' k ']'") : c_scope.
#[global] Open Scope c_scope.

(** [for_each f l]: a C loop over the values [l], run for its effects. *)
Fixpoint for_each {S A} (f : A -> M S unit) (l : list A) : M S unit :=
  match l with
  | [] => ret tt
  | x :: l' => do* f x in for_each f l'
  end.

(** Running a fragment on a part of the state. *)
Definition zoom {S T A} (get : S -> T) (put : T -> S -> S) (m : M T A) : M S A := fun s =>
  match m (get s) with
  | Done (a, t) => Done (a, put t s)
  | Fault => Fault
  end.

(** ** Weakest preconditions

    [wp m s Q]: run from [s], the fragment [m] does not fault and [Q] holds of
    its result and its final state. *)

Definition wp {S A} (m : M S A) (s : S) (Q : A -> S -> Prop) : Prop :=
  match m s with
  | Done (a, s') => Q a s'
  | Fault => False
  end.

Section wp_lemmas.
Context {S A B : Type}.
Implicit Types (s : S) (m : M S A) (k : A -> M S B).

Lemma wp_ret (a : A) s (Q : A -> S -> Prop) : Q a s -> wp (ret a) s Q.
Proof. done. Qed.

Lemma wp_bind m k s (Q : B -> S -> Prop) :
  wp m s (fun a s' => wp (k a) s' Q) -> wp (bind m k) s Q.
Proof. unfold wp, bind. by destruct (m s) as [[a s']|]. Qed.

Lemma wp_mono m s (P Q : A -> S -> Prop) :
  wp m s P -> (forall a s', P a s' -> Q a s') -> wp m s Q.
Proof. unfold wp. destruct (m s) as [[a s']|]; [|done]. eauto. Qed.

Lemma wp_and m s (P Q : A -> S -> Prop) :
  wp m s P -> wp m s Q -> wp m s (fun a s' => P a s' /\ Q a s').
Proof. unfold wp. by destruct (m s) as [[a s']|]. Qed.

Lemma wp_gets (f : S -> A) s (Q : A -> S -> Prop) : Q (f s) s -> wp (gets f) s Q.
Proof. done. Qed.

Lemma wp_modify (f : S -> S) s (Q : unit -> S -> Prop) : Q tt (f s) -> wp (modify f) s Q.
Proof. done. Qed.

Lemma wp_deref (f : S -> option A) s a (Q : A -> S -> Prop) :
  f s = Some a -> Q a s -> wp (deref f) s Q.
Proof. unfold wp, deref. by intros ->. Qed.

Lemma wp_guard b s (Q : unit -> S -> Prop) : b = true -> Q tt s -> wp (guard b) s Q.
Proof. by intros ->. Qed.

Lemma wp_inv m s (Q : A -> S -> Prop) :
  wp m s Q -> exists a s', m s = Done (a, s') /\ Q a s'.
Proof. unfold wp. destruct (m s) as [[a s']|]; [eauto|done]. Qed.

Lemma wp_run m s a s' (Q : A -> S -> Prop) : wp m s Q -> m s = Done (a, s') -> Q a s'.
Proof. unfold wp. intros H E. by rewrite E in H. Qed.

Lemma bind_Done m k s a s' : m s = Done (a, s') -> bind m k s = k a s'.
Proof. unfold bind. by intros ->. Qed.

Lemma bind_inv m k s (r : B * S) :
  bind m k s = Done r -> exists a s', m s = Done (a, s') /\ k a s' = Done r.
Proof. unfold bind. destruct (m s) as [[a s']|]; [eauto|done]. Qed.

Lemma bind_gets (f : S -> A) k s : bind (gets f) k s = k (f s) s.
Proof. done. Qed.
Lemma bind_ret (a : A) k s : bind (ret a) k s = k a s.
Proof. done. Qed.
Lemma bind_modify (f : S -> S) (k : unit -> M S B) s : bind (modify f) k s = k tt (f s).
Proof. done. Qed.
End wp_lemmas.

Lemma wp_bind_assoc {S A B C} (m : M S A) (k : A -> M S B) (k' : B -> M S C) s Q :
  wp (bind (bind m k) k') s Q -> wp (bind m (fun a => bind (k a) k')) s Q.
Proof. unfold wp, bind. by destruct (m s) as [[a s']|]. Qed.

(** A loop with an invariant over the values done so far. *)
Lemma wp_for_each {S A} (f : A -> M S unit) (I : list A -> S -> Prop) (l : list A) s :
  I [] s -> (forall pre a s', pre ++ [a] `prefix_of` l -> I pre s' -> wp (f a) s' (fun _ s'' => I (pre ++ [a]) s'')) ->
  wp (for_each f l) s (fun _ s' => I l s').
Proof.
  intros H0 Hf. enough (Hgo : forall rest pre s', pre ++ rest = l -> I pre s' -> wp (for_each f rest) s' (fun _ s'' => I l s''))
    by (by apply (Hgo l [])).
  induction rest as [|a rest IH]; intros pre s' E HI; cbn [for_each].
  - rewrite app_nil_r in E. by subst.
  - apply wp_bind. eapply wp_mono; [apply (Hf pre a); [|done]|].
    + exists rest. by rewrite <- app_assoc.
    + cbv beta. intros u s'' HI'. apply (IH (pre ++ [a])); [by rewrite <- app_assoc|done].
Qed.

Lemma wp_zoom {S T A} (get : S -> T) (put : T -> S -> S) (m : M T A) s Q :
  wp m (get s) (fun a t => Q a (put t s)) -> wp (zoom get put m) s Q.
Proof. unfold wp, zoom. by destruct (m (get s)) as [[a t]|]. Qed.

Create HintDb wpdb.
#[export] Hint Resolve wp_ret wp_gets wp_modify : wpdb.

(** One step of symbolic execution of a fragment. *)
Ltac wp_step :=
  cbv beta;
  lazymatch goal with
  | |- wp (bind _ _) _ _ => apply wp_bind
  | |- wp (ret _) _ _ => apply wp_ret
  | |- wp (gets _) _ _ => apply wp_gets
  | |- wp (modify _) _ _ => apply wp_modify
  | |- wp (guard _) _ _ => apply wp_guard
  | |- wp (zoom _ _ _) _ _ => apply wp_zoom
  | |- wp (if ?b then _ else _) _ _ => let E := fresh "E" in destruct b eqn:E
  end.

(** ** Frames

    [keeps f m]: a run of [m] that does not fault leaves the observation [f] of
    the state as it was. *)

Definition keeps {S A X} (f : S -> X) (m : M S A) : Prop :=
  forall s a s', m s = Done (a, s') -> f s' = f s.

Section keeps_lemmas.
Context {S A B X : Type} (f : S -> X).

Lemma keeps_ret (a : A) : keeps f (ret a).
Proof. by intros s ? ? [= _ <-]. Qed.
Lemma keeps_gets (g : S -> A) : keeps f (gets g).
Proof. by intros s ? ? [= _ <-]. Qed.
Lemma keeps_fault : keeps f (@fault S A).
Proof. by intros s ? ?. Qed.
Lemma keeps_deref (g : S -> option A) : keeps f (deref g).
Proof. unfold deref. intros s ? ?. case_match; [|done]. by intros [= _ <-]. Qed.
Lemma keeps_guard b : keeps f (@guard S b).
Proof. destruct b; intros s ? ?; [by intros [= _ <-]|done]. Qed.
Lemma keeps_modify (g : S -> S) : (forall s, f (g s) = f s) -> keeps f (modify g).
Proof. by intros H s ? ? [= _ <-]. Qed.
Lemma keeps_bind (m : M S A) (k : A -> M S B) :
  keeps f m -> (forall a, keeps f (k a)) -> keeps f (bind m k).
Proof. intros Hm Hk s b s2 (a & s1 & E1 & E2)%bind_inv. by rewrite (Hk _ _ _ _ E2), (Hm _ _ _ E1). Qed.
Lemma keeps_for_each (g : A -> M S unit) l : (forall a, keeps f (g a)) -> keeps f (for_each g l).
Proof.
  intros H. induction l as [|x l IH]; simpl; [by intros s ? ? [= _ <-]|].
  intros s b s2 (a & s1 & E1 & E2)%bind_inv. by rewrite (IH _ _ _ E2), (H _ _ _ _ E1).
Qed.
Lemma wp_keeps (m : M S A) s Q : keeps f m -> wp m s Q -> wp m s (fun a s' => Q a s' /\ f s' = f s).
Proof. unfold wp, keeps. intros H. destruct (m s) as [[a s']|] eqn:E; [|done]. eauto. Qed.
End keeps_lemmas.

Create HintDb keepsdb.
#[export] Hint Resolve keeps_ret keeps_gets keeps_fault keeps_deref keeps_guard : keepsdb.

(** Proves [keeps f m] by walking through [m]; frames of the operations [m] calls come
    from the hint base. *)
Ltac keeps_tac :=
  repeat first
    [ solve [eauto with keepsdb]
    | apply keeps_modify; intros; reflexivity
    | apply keeps_bind; [|intros]
    | apply keeps_for_each; intros
    | match goal with |- keeps _ (match ?x with _ => _ end) => destruct x end ].

(** ** Record update

    [r <| f := v |>] replaces the field [f] of the record [r].  A record type
    registers its eta expansion as an instance of [Eta]; the setter of a field
    is then found by abstracting that field in the expansion. *)

Class Eta (R : Type) := eta : R -> R.
Class Setter {R E : Type} (f : R -> E) := upd : E -> R -> R.
Arguments upd {R E} f {_} _ _ /.
(** Only the instances below may answer: not any function of the same type. *)
#[export] Typeclasses Opaque Eta Setter.

Ltac solve_setter f :=
  lazymatch type of f with
  | ?R -> ?E =>
    let F := constr:(fun (v : E) (r : R) =>
      ltac:(let h := eval hnf in (_ : Eta R) in
            let t := eval cbn beta in (h r) in
            let p := eval pattern (f r) in t in
            lazymatch p with
            | ?g (f r) => let b := eval cbn beta in (g v) in exact b
            end)) in
    exact F
  end.
#[export] Hint Extern 1 (Setter ?f) => solve_setter f : typeclass_instances.

Notation "r <| f := v |>" := (upd f v r)
  (at level 1, left associativity, f at level 10, v at level 200,
   format "r  <| f  :=  v |>").

(** ** Arrays

    A C array is a list of fixed length; an index outside it is absent, and
    the code that would touch it is modelled with [deref] or [guard]. *)

Definition aget {A} (l : list A) (i : Z) : option A :=
  if i <? 0 then None else l !! Z.to_nat i.
Definition aset {A} (l : list A) (i : Z) (v : A) : list A :=
  if i <? 0 then l else <[Z.to_nat i := v]> l.

Section arrays.
Context {A : Type}.
Implicit Types (l : list A) (i j : Z) (v : A).

Lemma aget_Some_range l i v : aget l i = Some v -> 0 <= i < zlen l.
Proof.
  unfold aget. destruct (Z.ltb_spec i 0); [done|].
  intros Hl%lookup_lt_Some. lia.
Qed.
Lemma aget_is_Some l i : 0 <= i < zlen l -> is_Some (aget l i).
Proof.
  intros H. unfold aget. destruct (Z.ltb_spec i 0); [lia|].
  apply lookup_lt_is_Some. lia.
Qed.
Lemma aset_length l i v : length (aset l i v) = length l.
Proof. unfold aset. case_match; [done|]. apply length_insert. Qed.
Lemma aget_aset_eq l i v : 0 <= i < zlen l -> aget (aset l i v) i = Some v.
Proof.
  intros H. unfold aget, aset. destruct (Z.ltb_spec i 0); [lia|].
  apply list_lookup_insert_eq. lia.
Qed.
Lemma aget_aset_ne l i j v : i <> j -> aget (aset l i v) j = aget l j.
Proof.
  intros H. unfold aget, aset.
  destruct (Z.ltb_spec i 0), (Z.ltb_spec j 0); try done.
  apply list_lookup_insert_ne. lia.
Qed.
Lemma aset_same l i x : aget l i = Some x -> aset l i x = l.
Proof. unfold aget, aset. case_match; [done|]. apply list_insert_id. Qed.
Lemma aget_of_nat l (n : nat) : aget l (Z.of_nat n) = l !! n.
Proof. unfold aget. destruct (Z.ltb_spec (Z.of_nat n) 0); [lia|]. by rewrite Nat2Z.id. Qed.
Lemma aset_of_nat l (n : nat) v : aset l (Z.of_nat n) v = <[n := v]> l.
Proof. unfold aset. destruct (Z.ltb_spec (Z.of_nat n) 0); [lia|]. by rewrite Nat2Z.id. Qed.
End arrays.

Lemma filter_id {A} (P : A -> Prop) `{!forall x, Decision (P x)} (l : list A) :
  Forall P l -> filter P l = l.
Proof. induction 1; [done|]. rewrite filter_cons_True by done. by f_equal. Qed.

Lemma filter_iff_elem {A} (P Q : A -> Prop) `{!forall x, Decision (P x), !forall x, Decision (Q x)}
    (l : list A) :
  (forall x, x ∈ l -> P x <-> Q x) -> filter P l = filter Q l.
Proof.
  induction l as [|a l IH]; intros Hpq; [done|]. rewrite !filter_cons, IH by (intros; apply Hpq; by right).
  assert (P a <-> Q a) as Ha by (apply Hpq; left). repeat case_decide; tauto.
Qed.

(** ** Linear searches

    [first_idx p lo hi] is the C loop
    [for(i=lo;i<hi;i++) if(p(i)) return i;]. *)

Definition first_idx (p : Z -> bool) (lo hi : Z) : option Z :=
  find p (seqZ lo (hi - lo)).

Lemma find_first {A} (p : A -> bool) (l1 l2 : list A) x :
  Forall (fun y => p y = false) l1 -> p x = true -> find p (l1 ++ x :: l2) = Some x.
Proof.
  intros H Hx. induction H as [|y l Hy _ IH]; simpl; [by rewrite Hx|].
  by rewrite Hy.
Qed.

Lemma first_idx_Some p lo hi i :
  first_idx p lo hi = Some i <->
  lo <= i < hi /\ p i = true /\ (forall j, lo <= j < i -> p j = false).
Proof.
  unfold first_idx. split.
  - remember (hi - lo) as n eqn:Hn. revert lo Hn.
    induction (Z.lt_wf 0 n) as [n _ IH]. intros lo Hn.
    destruct (decide (0 < n)) as [Hpos|Hneg].
    + rewrite seqZ_cons; [|lia]. simpl. destruct (p lo) eqn:Hp.
      * intros [= <-]. split_and!; [lia|lia|done|]. intros. lia.
      * intros H. apply IH in H; [|lia|lia].
        destruct H as (H1 & H2 & H3). split_and!; [lia|lia|done|].
        intros j Hj. destruct (decide (j = lo)) as [->|]; [done|]. apply H3. lia.
    + rewrite seqZ_nil; [done|lia].
  - intros (Hr & Hp & Hlt).
    replace (hi - lo) with ((i - lo) + (hi - i)) by lia.
    rewrite seqZ_app; [|lia|lia].
    rewrite (seqZ_cons (lo + (i - lo))); [|lia].
    replace (lo + (i - lo)) with i by lia.
    apply find_first; [|done].
    apply list.Forall_forall. intros j Hj%elem_of_seqZ. apply Hlt. lia.
Qed.

Lemma first_idx_None p lo hi :
  first_idx p lo hi = None <-> (forall j, lo <= j < hi -> p j = false).
Proof.
  unfold first_idx. split.
  - intros H j Hj. apply (find_none _ _ H).
    apply list_elem_of_In, elem_of_seqZ. lia.
  - intros H. destruct (find p _) as [x|] eqn:E; [|done].
    apply find_some in E as [Hin Hp].
    apply list_elem_of_In, elem_of_seqZ in Hin. rewrite H in Hp; [done|lia].
Qed.
