(* ===== verification/Cstring.v ===== *)
(** * The kernel utility library (src/src/util.c, src/src/util.h)

    A memory region is the list of its bytes and a pointer is an offset in it, so
    that the effect of overlapping operands is represented.  A loop that would run
    past the region is a [Fault].  The loops advance at every step, so a fuel of one
    more than the size of the region never runs out first. *)

From S2P Require Import Prelude.

Definition mem := list byte.
Implicit Types m : mem.

Definition is_nul (c : byte) : bool := bool_decide (c = nul).

Definition rd m (p : Z) : outcome byte := match aget m p with Some c => Done c | None => Fault end.
Definition wr m (p : Z) (c : byte) : outcome mem :=
  match aget m p with Some _ => Done (aset m p c) | None => Fault end.

Definition obind {A B} (o : outcome A) (k : A -> outcome B) : outcome B :=
  match o with Done a => k a | Fault => Fault end.
Notation "'let!' x ':=' o 'in' k" := (obind o (fun x => k))
  (at level 10, x name, o at level 100, k at level 200).

(** ** Character classes *)

Definition kis_digit (c : Z) : bool := (48 <=? c) && (c <=? 57).
Definition kis_space (c : Z) : bool := (c =? 32) || (c =? 9) || (c =? 10) || (c =? 13).
Definition kis_upper (c : Z) : bool := (65 <=? c) && (c <=? 90).
Definition kis_lower (c : Z) : bool := (97 <=? c) && (c <=? 122).
Definition kto_upper (c : Z) : Z := if kis_lower c then c - 32 else c.
Definition kto_lower (c : Z) : Z := if kis_upper c then c + 32 else c.

(** ** Strings *)

Fixpoint strlen_loop (fuel : nat) m (s n : Z) : outcome Z :=
  match fuel with
  | O => Fault
  | S fuel' => let! c := rd m (s + n) in if is_nul c then Done n else strlen_loop fuel' m s (n + 1)
  end.
Definition kstrlen m (s : Z) : outcome Z := strlen_loop (S (length m)) m s 0.

Fixpoint strcmp_loop (fuel : nat) m (a b : Z) : outcome Z :=
  match fuel with
  | O => Fault
  | S fuel' =>
    let! x := rd m a in
    if is_nul x then let! y := rd m b in Done (bz x - bz y)
    else let! y := rd m b in
      if bool_decide (x = y) then strcmp_loop fuel' m (a + 1) (b + 1) else Done (bz x - bz y)
  end.
Definition kstrcmp m (a b : Z) : outcome Z := strcmp_loop (S (length m)) m a b.

Fixpoint strncmp_loop (n : nat) m (a b : Z) : outcome Z :=
  match n with
  | O => Done 0
  | S n' =>
    let! x := rd m a in
    let! y := rd m b in
    let d := bz x - bz y in
    if truth d || is_nul x then Done d else strncmp_loop n' m (a + 1) (b + 1)
  end.
Definition kstrncmp m (a b : Z) (n : nat) : outcome Z := strncmp_loop n m a b.

(** Copies up to and including the terminating NUL. *)
Fixpoint copy_loop (fuel : nat) m (dst src : Z) : outcome mem :=
  match fuel with
  | O => Fault
  | S fuel' =>
    let! c := rd m src in
    let! m' := wr m dst c in
    if is_nul c then Done m' else copy_loop fuel' m' (dst + 1) (src + 1)
  end.
Definition kstrcpy m (dst src : Z) : outcome mem := copy_loop (S (length m)) m dst src.

Fixpoint ncopy_loop (i : nat) m (dst src : Z) (pad : bool) : outcome mem :=
  match i with
  | O => Done m
  | S i' =>
    if pad then let! m' := wr m dst nul in ncopy_loop i' m' (dst + 1) src true
    else
      let! c := rd m src in
      if is_nul c then let! m' := wr m dst nul in ncopy_loop i' m' (dst + 1) src true
      else let! m' := wr m dst c in ncopy_loop i' m' (dst + 1) (src + 1) false
  end.
Definition kstrncpy m (dst src : Z) (n : nat) : outcome mem := ncopy_loop n m dst src false.

Definition kstrcat m (dst src : Z) : outcome mem :=
  let! n := kstrlen m dst in copy_loop (S (length m)) m (dst + n) src.

Fixpoint ncat_loop (n : nat) m (dst src : Z) : outcome mem :=
  match n with
  | O => wr m dst nul
  | S n' =>
    let! c := rd m src in
    if is_nul c then wr m dst nul
    else let! m' := wr m dst c in ncat_loop n' m' (dst + 1) (src + 1)
  end.
Definition kstrncat m (dst src : Z) (n : nat) : outcome mem :=
  let! len := kstrlen m dst in ncat_loop n m (dst + len) src.

Fixpoint strchr_loop (fuel : nat) m (s : Z) (c : byte) : outcome (option Z) :=
  match fuel with
  | O => Fault
  | S fuel' =>
    let! x := rd m s in
    if is_nul x then Done (if is_nul c then Some s else None)
    else if bool_decide (x = c) then Done (Some s) else strchr_loop fuel' m (s + 1) c
  end.
Definition kstrchr m (s : Z) (c : byte) : outcome (option Z) := strchr_loop (S (length m)) m s c.

Fixpoint strrchr_loop (fuel : nat) m (s : Z) (c : byte) (last : option Z) : outcome (option Z) :=
  match fuel with
  | O => Fault
  | S fuel' =>
    let! x := rd m s in
    let last' := if bool_decide (x = c) then Some s else last in
    if is_nul x then Done last' else strrchr_loop fuel' m (s + 1) c last'
  end.
Definition kstrrchr m (s : Z) (c : byte) : outcome (option Z) := strrchr_loop (S (length m)) m s c None.

Fixpoint strstr_loop (fuel : nat) m (hay needle : Z) (nl : nat) : outcome (option Z) :=
  match fuel with
  | O => Fault
  | S fuel' =>
    let! x := rd m hay in
    if is_nul x then Done None
    else let! d := kstrncmp m hay needle nl in
      if d =? 0 then Done (Some hay) else strstr_loop fuel' m (hay + 1) needle nl
  end.
Definition kstrstr m (hay needle : Z) : outcome (option Z) :=
  let! nl := kstrlen m needle in
  if nl =? 0 then Done (Some hay) else strstr_loop (S (length m)) m hay needle (Z.to_nat nl).

(** ** Memory *)

Fixpoint memset_loop (n : nat) m (p : Z) (v : byte) : outcome mem :=
  match n with O => Done m | S n' => let! m' := wr m p v in memset_loop n' m' (p + 1) v end.
Definition kmemset m (p : Z) (v : Z) (n : nat) : outcome mem := memset_loop n m p (zb v).

Fixpoint memcpy_up (n : nat) m (d s : Z) : outcome mem :=
  match n with
  | O => Done m
  | S n' => let! c := rd m s in let! m' := wr m d c in memcpy_up n' m' (d + 1) (s + 1)
  end.
Definition kmemcpy m (d s : Z) (n : nat) : outcome mem := memcpy_up n m d s.

(** [d += n; s += n; while (n--) *--d = *--s;] *)
Fixpoint memcpy_down (n : nat) m (d s : Z) : outcome mem :=
  match n with
  | O => Done m
  | S n' => let! c := rd m (s - 1) in let! m' := wr m (d - 1) c in memcpy_down n' m' (d - 1) (s - 1)
  end.
Definition kmemmove m (d s : Z) (n : nat) : outcome mem :=
  if d <? s then memcpy_up n m d s else memcpy_down n m (d + Z.of_nat n) (s + Z.of_nat n).

Fixpoint memcmp_loop (n : nat) m (a b : Z) : outcome Z :=
  match n with
  | O => Done 0
  | S n' =>
    let! x := rd m a in
    let! y := rd m b in
    if bool_decide (x = y) then memcmp_loop n' m (a + 1) (b + 1) else Done (bz x - bz y)
  end.
Definition kmemcmp m (a b : Z) (n : nat) : outcome Z := memcmp_loop n m a b.

(** ** Numbers *)

Definition digit (d : Z) : byte := zb (if d <? 10 then 48 + d else 87 + d).

(** [while (n > 0) { tmp[i++] = digs[n % base]; n /= base; }], least digit first. *)
Fixpoint digits_rev (fuel : nat) (n base : Z) : cstr :=
  match fuel with
  | O => []
  | S fuel' => if n <=? 0 then [] else digit (n mod base) :: digits_rev fuel' (n / base) base
  end.

(** The string a number formatter leaves in its buffer; 64 digits are enough for
    64 bits in any base. *)
Definition ku64toa (n base : Z) : cstr :=
  if (base <? 2) || (16 <? base) || (n =? 0) then cs "0" else rev (digits_rev 64 n base).
Definition kuitoa (n base : Z) : cstr := ku64toa n base.
Definition kitoa (n base : Z) : cstr :=
  if (base <? 2) || (16 <? base) || (n =? 0) then cs "0"
  else
    let neg := (base =? 10) && (n <? 0) in
    let un := u32 (if neg then - n else n) in
    (if neg then cs "-" else []) ++ rev (digits_rev 64 un base).

(** Readers of numbers, on the bytes of a string. *)
Fixpoint skip_space (s : cstr) : cstr :=
  match s with c :: s' => if kis_space (bz c) then skip_space s' else s | [] => [] end.

Fixpoint dec_digits (s : cstr) (n : Z) : Z :=
  match s with c :: s' => if kis_digit (bz c) then dec_digits s' (n * 10 + (bz c - 48)) else n | [] => n end.

(** Signed overflow is undefined in C; the result is then the wrapped value. *)
Definition kstrtoi (s : cstr) : Z :=
  let s1 := skip_space s in
  let '(neg, s2) := match s1 with
    | c :: r => if bz c =? 45 then (true, r) else if bz c =? 43 then (false, r) else (false, s1)
    | [] => (false, s1)
    end in
  let n := dec_digits s2 0 in
  i32 (if neg then - n else n).

Definition digit_value (c : Z) : option Z :=
  let l := kto_lower c in
  if kis_digit l then Some (l - 48) else if (97 <=? l) && (l <=? 102) then Some (l - 87) else None.

Fixpoint base_digits (s : cstr) (base n : Z) : Z :=
  match s with
  | [] => n
  | c :: s' =>
    match digit_value (bz c) with
    | Some d => if base <=? d then n else base_digits s' base (u32 (n * base + d))
    | None => n
    end
  end.

Definition kstrtou (s : cstr) (base : Z) : Z :=
  let s1 := skip_space s in
  let s2 := match s1 with
    | a :: b :: r => if (base =? 16) && (bz a =? 48) && ((bz b =? 120) || (bz b =? 88)) then r else s1
    | _ => s1
    end in
  base_digits s2 base 0.

(** ** The bounded formatter *)

Inductive vararg := VInt (n : Z) | VStr (s : option cstr).

(** [PUT(c)] with [sz] bytes of room; the output so far is the list. *)
Definition PUT (sz : Z) (out : cstr) (c : byte) : cstr := if zlen out + 1 <? sz then out ++ [c] else out.
Definition put_all (sz : Z) (out : cstr) (s : cstr) : cstr := fold_left (PUT sz) s out.

Definition pad_to (sz : Z) (out : cstr) (len width : Z) (c : byte) : cstr :=
  put_all sz out (replicate (Z.to_nat (width - len)) c).

Fixpoint read_width (fmt : cstr) (w : Z) : Z * cstr :=
  match fmt with
  | c :: r => if kis_digit (bz c) then read_width r (w * 10 + (bz c - 48)) else (w, fmt)
  | [] => (w, [])
  end.

(** One conversion: the letter, its argument, what it prints. *)
Definition convert (sz : Z) (out : cstr) (letter : Z) (zero_pad : bool) (width : Z) (ap : list vararg)
    : outcome (cstr * list vararg) :=
  let pad := if zero_pad then x30 else x20 in
  let number (nb : cstr) (ap' : list vararg) :=
    Done (put_all sz (pad_to sz out (zlen nb) width pad) nb, ap') in
  if letter =? 100 then
    match ap with VInt n :: ap' => number (kitoa (i32 n) 10) ap' | _ => Fault end
  else if letter =? 117 then
    match ap with VInt n :: ap' => number (kuitoa (u32 n) 10) ap' | _ => Fault end
  else if letter =? 120 then
    match ap with VInt n :: ap' => number (kuitoa (u32 n) 16) ap' | _ => Fault end
  else if letter =? 88 then
    match ap with
    | VInt n :: ap' => number ((fun c => zb (kto_upper (bz c))) <$> kuitoa (u32 n) 16) ap'
    | _ => Fault
    end
  else if letter =? 112 then
    match ap with VInt n :: ap' => Done (put_all sz out (cs "0x" ++ kuitoa (u32 n) 16), ap') | _ => Fault end
  else if letter =? 115 then
    match ap with VStr s :: ap' => Done (put_all sz out (default (cs "(null)") s), ap') | _ => Fault end
  else if letter =? 99 then
    match ap with VInt n :: ap' => Done (PUT sz out (zb n), ap') | _ => Fault end
  else if letter =? 37 then Done (PUT sz out x25, ap)
  else Done (out, ap).

(** A conversion at the end of the format string makes [fmt++] step over the
    terminating NUL: what is read next is outside the string. *)
Fixpoint format_loop (fuel : nat) (sz : Z) (fmt out : cstr) (ap : list vararg) : outcome cstr :=
  match fuel with
  | O => Fault
  | S fuel' =>
    match fmt with
    | [] => Done out
    | c :: r =>
      if negb (zlen out + 1 <? sz) then Done out
      else if negb (bz c =? 37) then format_loop fuel' sz r (PUT sz out c) ap
      else
        let '(zp, r1) := match r with d :: r' => if bz d =? 48 then (true, r') else (false, r) | [] => (false, []) end in
        let '(w, r2) := read_width r1 0 in
        match r2 with
        | [] => Fault
        | l :: r3 => let! p := convert sz out (bz l) zp w ap in format_loop fuel' sz r3 (fst p) (snd p)
        end
    end
  end.

(** The string [kvsnprintf] leaves in a buffer of [sz] bytes; its length is returned. *)
Definition ksnprintf (sz : Z) (fmt : cstr) (ap : list vararg) : outcome cstr :=
  if sz =? 0 then Done [] else format_loop (S (length fmt)) sz fmt [] ap.

(** ** The kernel log *)

Definition ATM_KERNEL_LOG_MAX : Z := 128.
Definition ATM_KERNEL_LOG_TEXT_MAX : Z := 160.

Record log_entry := mk_log { l_sequence : Z; l_text : cstr }.

Record klog := mk_klog { kl_logs : list log_entry; kl_head : Z; kl_count : Z; kl_sequence : Z }.

(** Trailing newlines and carriage returns are dropped. *)
Fixpoint trim_rev (s : cstr) : cstr :=
  match s with c :: s' => if (bz c =? 10) || (bz c =? 13) then trim_rev s' else s | [] => [] end.
Definition log_line (text : cstr) : cstr :=
  rev (trim_rev (rev (take (Z.to_nat (ATM_KERNEL_LOG_TEXT_MAX - 1)) text))).

Definition kernel_log_append (text : option cstr) (k : klog) : klog :=
  match text with
  | None => k
  | Some t =>
    let seq := u32 (kl_sequence k + 1) in
    mk_klog (aset (kl_logs k) (kl_head k) (mk_log seq (log_line t)))
      (u32 (kl_head k + 1) mod ATM_KERNEL_LOG_MAX)
      (if kl_count k <? ATM_KERNEL_LOG_MAX then kl_count k + 1 else kl_count k) seq
  end.

Definition kernel_log_count (k : klog) : Z := kl_count k.

Definition kernel_log_at (k : klog) (index : Z) : option log_entry :=
  if (index <? 0) || (kl_count k <=? index) then None
  else aget (kl_logs k) (u32 (kl_head k + ATM_KERNEL_LOG_MAX - kl_count k + index) mod ATM_KERNEL_LOG_MAX).

Definition klog0 : klog := mk_klog (replicate 128 (mk_log 0 [])) 0 0 0.
