(* ===== verification/CstringProps.v ===== *)
(** * Properties of the utility library *)

From S2P Require Import Prelude Cstring.

Lemma rd_some (m : mem) p : 0 <= p < zlen m -> exists c, rd m p = Done c /\ aget m p = Some c.
Proof. intros H. unfold rd. destruct (aget_is_Some m p H) as [c ->]. by exists c. Qed.

Lemma wr_some (m : mem) p c : 0 <= p < zlen m -> wr m p c = Done (aset m p c).
Proof. intros H. unfold wr. by destruct (aget_is_Some m p H) as [x ->]. Qed.

(** [m'] is [m] with the [n] bytes at [s] copied to [d]. *)
Definition copied (m m' : mem) (d s n : Z) : Prop :=
  length m' = length m /\
  forall i, aget m' i = if (d <=? i) && (i <? d + n) then aget m (s + (i - d)) else aget m i.

Lemma aget_aset (m : mem) i j c : 0 <= i < zlen m -> aget (aset m i c) j = if i =? j then Some c else aget m j.
Proof.
  intros H. destruct (Z.eqb_spec i j) as [<-|Hne]; [by apply aget_aset_eq|by apply aget_aset_ne].
Qed.

Ltac zcases := repeat match goal with
  | |- context [?a <=? ?b] => destruct (Z.leb_spec a b)
  | |- context [?a <? ?b] => destruct (Z.ltb_spec a b)
  | |- context [?a =? ?b] => destruct (Z.eqb_spec a b)
  end; simpl; try lia.

Lemma memcpy_up_spec n : forall m d s,
  0 <= d <= s -> s + Z.of_nat n <= zlen m ->
  exists m', memcpy_up n m d s = Done m' /\ copied m m' d s (Z.of_nat n).
Proof.
  unfold copied. induction n as [|n IH]; intros m d s Hd Hs; cbn [memcpy_up].
  - exists m. split_and!; [done|done|]. intros i. by zcases.
  - destruct (rd_some m s) as (c & -> & Hc); [lia|]. cbn [obind]. rewrite wr_some by lia. cbn [obind].
    destruct (IH (aset m d c) (d + 1) (s + 1)) as (m' & E & Hl & Hm); [lia|rewrite aset_length; lia|].
    exists m'. split_and!; [done|by rewrite Hl, aset_length|]. intros i. rewrite Hm.
    rewrite !aget_aset by lia. zcases; try done; first [f_equal; lia|rewrite <- Hc; f_equal; lia].
Qed.

Lemma memcpy_down_spec n : forall m d s,
  0 <= s - Z.of_nat n -> s <= d -> d <= zlen m ->
  exists m', memcpy_down n m d s = Done m' /\ copied m m' (d - Z.of_nat n) (s - Z.of_nat n) (Z.of_nat n).
Proof.
  unfold copied. induction n as [|n IH]; intros m d s Hs Hd Hl; cbn [memcpy_down].
  - exists m. split_and!; [done|done|]. intros i. by zcases.
  - destruct (rd_some m (s - 1)) as (c & -> & Hc); [lia|]. cbn [obind]. rewrite wr_some by lia. cbn [obind].
    destruct (IH (aset m (d - 1) c) (d - 1) (s - 1)) as (m' & E & Hl' & Hm); [lia|lia|rewrite aset_length; lia|].
    exists m'. split_and!; [done|by rewrite Hl', aset_length|]. intros i. rewrite Hm.
    rewrite !aget_aset by lia.
    replace (s - 1 - Z.of_nat n + (i - (d - 1 - Z.of_nat n))) with (s - Z.of_nat (S n) + (i - (d - Z.of_nat (S n)))) by lia.
    zcases; try done; rewrite <- Hc; f_equal; lia.
Qed.

(** [kmemmove] copies correctly whatever the overlap of source and destination:
    afterwards the destination holds what the source held before, and no other
    byte has changed. *)
Theorem kmemmove_correct m d s n :
  0 <= d -> 0 <= s -> d + Z.of_nat n <= zlen m -> s + Z.of_nat n <= zlen m ->
  exists m', kmemmove m d s n = Done m' /\ copied m m' d s (Z.of_nat n).
Proof.
  intros Hd Hs Hdl Hsl. unfold kmemmove. destruct (Z.ltb_spec d s).
  - apply memcpy_up_spec; lia.
  - destruct (memcpy_down_spec n m (d + Z.of_nat n) (s + Z.of_nat n)) as (m' & E & Hm); [lia..|].
    exists m'. split; [done|]. by rewrite !Z.add_simpl_r in Hm.
Qed.

Lemma kmemmove_correct_witness :
  exists m', kmemmove (cs "abcdef") 1 0 4 = Done m' /\ copied (cs "abcdef") m' 1 0 4.
Proof. apply (kmemmove_correct (cs "abcdef") 1 0 4); vm_compute; done. Defined.

(** ** Strings in memory *)

(** The string [s] lies at [p]. *)
Definition str_at (m : mem) (p : Z) (s : cstr) : Prop :=
  0 <= p /\ Forall (fun c => c <> nul) s /\
  (forall k c, s !! k = Some c -> aget m (p + Z.of_nat k) = Some c) /\ aget m (p + zlen s) = Some nul.

Lemma str_at_cons m p c s : str_at m p (c :: s) <-> aget m p = Some c /\ c <> nul /\ 0 <= p /\ str_at m (p + 1) s.
Proof.
  unfold str_at. split.
  - intros (Hp & Hf & Hk & Hn). apply list.Forall_cons in Hf as [Hc Hf]. split_and!; try done; try lia.
    + rewrite <- (Z.add_0_r p). by apply (Hk O).
    + intros k x Hx. replace (p + 1 + Z.of_nat k) with (p + Z.of_nat (S k)) by lia. by apply Hk.
    + replace (p + 1 + zlen s) with (p + zlen (c :: s)) by (simpl; lia). done.
  - intros (Hc & Hne & Hp & _ & Hf & Hk & Hn). split_and!; [done|by constructor| |].
    + intros [|k] x Hx; simpl in Hx; [simplify_eq; by rewrite Z.add_0_r|].
      replace (p + Z.of_nat (S k)) with (p + 1 + Z.of_nat k) by lia. by apply Hk.
    + by replace (p + zlen (c :: s)) with (p + 1 + zlen s) by (simpl; lia).
Qed.

Lemma str_at_nil m p : str_at m p [] <-> 0 <= p /\ aget m p = Some nul.
Proof.
  unfold str_at. simpl. rewrite Z.add_0_r. split; [by intros (? & _ & _ & ?)|].
  intros [? ?]. split_and!; [done|constructor|by intros|done].
Qed.

Lemma is_nul_ne c : c <> nul -> is_nul c = false.
Proof. intros H. unfold is_nul. by apply bool_decide_eq_false. Qed.
Lemma is_nul_nul : is_nul nul = true.
Proof. done. Qed.

Lemma str_at_length m p s : str_at m p s -> (length s < length m)%nat.
Proof. intros (Hp & _ & _ & Hn). apply aget_Some_range in Hn. lia. Qed.

Lemma kstrcmp_loop_spec : forall s t m a b fuel,
  str_at m a s -> str_at m b t -> (length s < fuel)%nat ->
  exists d, strcmp_loop fuel m a b = Done d /\ (d = 0 <-> s = t).
Proof.
  induction s as [|c s IH]; intros t m a b fuel Ha Hb Hf; (destruct fuel as [|fuel]; [simpl in Hf; lia|]);
    cbn [strcmp_loop]; unfold rd at 1.
  - apply str_at_nil in Ha as [_ ->]. cbn [obind]. rewrite is_nul_nul. unfold rd. destruct t as [|x t].
    + apply str_at_nil in Hb as [_ ->]. cbn [obind]. exists 0. done.
    + apply str_at_cons in Hb as (-> & Hx & _). cbn [obind]. eexists. split; [done|].
      split; [|done]. intros E. exfalso. apply Hx. by destruct x.
  - apply str_at_cons in Ha as (-> & Hc & _ & Ha). cbn [obind]. rewrite is_nul_ne by done. unfold rd.
    destruct t as [|x t].
    + apply str_at_nil in Hb as [_ ->]. cbn [obind]. rewrite bool_decide_false by done. eexists. split; [done|].
      split; [|done]. intros E. exfalso. apply Hc. by destruct c.
    + apply str_at_cons in Hb as (-> & Hx & _ & Hb). cbn [obind]. case_bool_decide as E.
      * subst x. destruct (IH t m _ _ fuel Ha Hb) as (d & -> & Hd); [simpl in Hf; lia|].
        exists d. split; [done|]. rewrite Hd. split; [by intros ->|by intros [= ->]].
      * eexists. split; [done|]. split; [|by intros [= ? ?]]. intros E0. exfalso. apply E.
        assert (Hz : bz c = bz x) by lia. unfold bz in Hz. apply N2Z.inj in Hz.
        apply (f_equal Byte.of_N) in Hz. rewrite !Byte.of_to_N in Hz. by simplify_eq.
Qed.

(** [kstrcmp] returns zero exactly on equal strings, and never reads past their
    terminators. *)
Theorem kstrcmp_zero_iff_equal m a b s t :
  str_at m a s -> str_at m b t -> exists d, kstrcmp m a b = Done d /\ (d = 0 <-> s = t).
Proof.
  intros Ha Hb. eapply kstrcmp_loop_spec; [done|done|]. apply str_at_length in Ha. lia.
Qed.

Lemma copy_loop_spec : forall s m dst src fuel,
  str_at m src s -> 0 <= dst -> dst + zlen s < zlen m ->
  (dst <= src \/ src + zlen s < dst) -> (length s < fuel)%nat ->
  exists m', copy_loop fuel m dst src = Done m' /\ copied m m' dst src (zlen s + 1).
Proof.
  unfold copied. induction s as [|c s IH]; intros m dst src fuel Hs Hd Hl Ho Hf; (destruct fuel as [|fuel]; [simpl in Hf; lia|]);
    cbn [copy_loop]; unfold rd.
  - apply str_at_nil in Hs as [_ Hs]. rewrite Hs. cbn [obind]. simpl in Hl. rewrite wr_some by lia.
    cbn [obind]. rewrite is_nul_nul. eexists. split; [done|]. split; [by rewrite aset_length|].
    intros i. simpl. rewrite aget_aset by lia. zcases; try done; rewrite <- Hs; f_equal; lia.
  - apply str_at_cons in Hs as (Hc & Hne & Hp & Hs). rewrite Hc. cbn [obind]. simpl in Hl, Ho, Hf.
    rewrite wr_some by lia. cbn [obind]. rewrite is_nul_ne by done.
    destruct (IH (aset m dst c) (dst + 1) (src + 1) fuel) as (m' & E & Hl' & Hm); try lia.
    + destruct Hs as (_ & Hf' & Hk & Hn). split_and!; [lia|done| |].
      * intros k x Hx. pose proof (lookup_lt_Some _ _ _ Hx). rewrite aget_aset by lia. zcases. by apply Hk.
      * rewrite aget_aset by lia. by zcases.
    + rewrite aset_length. lia.
    + exists m'. split_and!; [done|by rewrite Hl', aset_length|]. intros i. rewrite Hm.
      rewrite !aget_aset by lia. simpl. zcases; try done; first [f_equal; lia|rewrite <- Hc; f_equal; lia].
Qed.

Lemma kstrlen_spec : forall s m p n fuel,
  str_at m (p + n) s -> (length s < fuel)%nat -> strlen_loop fuel m p n = Done (n + zlen s).
Proof.
  induction s as [|c s IH]; intros m p n fuel Hs Hf; (destruct fuel as [|fuel]; [simpl in Hf; lia|]);
    cbn [strlen_loop]; unfold rd.
  - apply str_at_nil in Hs as [_ ->]. cbn [obind]. rewrite is_nul_nul. simpl. by rewrite Z.add_0_r.
  - apply str_at_cons in Hs as (-> & Hc & _ & Hs). cbn [obind]. rewrite is_nul_ne by done.
    rewrite IH; [f_equal; simpl; lia| |simpl in Hf; lia]. by rewrite Z.add_assoc.
Qed.

(** [kstrcat] appends: with room for the result and a source string outside the
    bytes that are written, the destination then holds the concatenation, the
    bytes beyond it are unchanged and nothing outside the region is touched. *)
Theorem kstrcat_appends m dst src a b :
  str_at m dst a -> str_at m src b -> dst + zlen a + zlen b < zlen m ->
  (src + zlen b < dst + zlen a \/ dst + zlen a < src) ->
  exists m', kstrcat m dst src = Done m' /\ str_at m' dst (a ++ b) /\
    forall i, i < dst + zlen a \/ dst + zlen a + zlen b < i -> aget m' i = aget m i.
Proof.
  intros Ha Hb Hl Ho. unfold kstrcat, kstrlen.
  rewrite (kstrlen_spec a m dst 0); [|by rewrite Z.add_0_r|apply str_at_length in Ha; lia].
  cbn [obind]. rewrite Z.add_0_l. pose proof Ha as (Hd0 & Hfa & Hka & _).
  destruct (copy_loop_spec b m (dst + zlen a) src (S (length m))) as (m' & E & Hl' & Hm); try done; try lia.
  exists m'. split_and!; [done| |].
  - pose proof Hb as (_ & Hfb & Hkb & Hnb). split_and!; [done|by apply Forall_app| |].
    + intros k c [Hk|[Hge Hk]]%lookup_app_Some.
      * pose proof (lookup_lt_Some _ _ _ Hk). rewrite Hm. zcases. by apply Hka.
      * pose proof (lookup_lt_Some _ _ _ Hk). rewrite Hm. zcases.
        replace (src + (dst + Z.of_nat k - (dst + zlen a))) with (src + Z.of_nat (k - length a)) by lia.
        by apply Hkb.
    + rewrite length_app, Hm. zcases.
      by replace (src + (dst + Z.of_nat (length a + length b) - (dst + zlen a))) with (src + zlen b) by lia.
  - intros i Hi. rewrite Hm. by zcases.
Qed.

(** A buffer holding two strings, for the witnesses. *)
Definition demo_mem : mem := cs "ab" ++ [nul] ++ replicate 5 nul ++ cs "xyz" ++ [nul].

Lemma str_at_check (m : mem) p s :
  0 <= p -> forallb (fun c => negb (is_nul c)) s = true ->
  forallb (fun k => bool_decide (aget m (p + Z.of_nat k) = s !! k)) (seq 0 (length s)) = true ->
  aget m (p + zlen s) = Some nul -> str_at m p s.
Proof.
  intros Hp Hs Hk Hn. split_and!; [done| | |done].
  - apply list.Forall_forall. intros c Hc. pose proof (proj1 (forallb_forall _ _) Hs c) as H.
    rewrite <- list_elem_of_In in H. specialize (H Hc). intros ->. done.
  - intros k c Hc. pose proof (lookup_lt_Some _ _ _ Hc).
    pose proof (proj1 (forallb_forall _ _) Hk k) as E. rewrite <- list_elem_of_In, elem_of_seq in E.
    specialize (E ltac:(lia)). apply bool_decide_eq_true in E. by rewrite E.
Qed.

Lemma kstrcmp_zero_iff_equal_witness :
  exists d, kstrcmp demo_mem 0 8 = Done d /\ (d = 0 <-> cs "ab" = cs "xyz").
Proof. apply kstrcmp_zero_iff_equal; (apply str_at_check; [done|by vm_compute..]). Defined.

Lemma kstrcat_appends_witness :
  exists m', kstrcat demo_mem 0 8 = Done m' /\ str_at m' 0 (cs "ab" ++ cs "xyz") /\
    forall i, i < 0 + 2 \/ 0 + 2 + 3 < i -> aget m' i = aget demo_mem i.
Proof.
  apply (kstrcat_appends demo_mem 0 8 (cs "ab") (cs "xyz")).
  - apply str_at_check; [done|by vm_compute..].
  - apply str_at_check; [done|by vm_compute..].
  - by vm_compute.
  - right. by vm_compute.
Defined.

(** ** Numbers *)

Lemma bz_digit d : 0 <= d < 10 -> bz (digit d) = 48 + d.
Proof. intros Hd. unfold digit. rewrite (proj2 (Z.ltb_lt d 10)) by lia. apply bz_zb. lia. Qed.

(** The value of a decimal numeral read from its most significant digit. *)
Lemma dec_digits_app s1 : forall s2 n,
  Forall (fun c => kis_digit (bz c) = true) s1 -> dec_digits (s1 ++ s2) n = dec_digits s2 (dec_digits s1 n).
Proof.
  induction s1 as [|c s1 IH]; intros s2 n H; [done|]. apply list.Forall_cons in H as [Hc H].
  simpl. rewrite Hc. by apply IH.
Qed.

Lemma digit_is_digit d : 0 <= d < 10 -> kis_digit (bz (digit d)) = true.
Proof. intros Hd. rewrite bz_digit by done. unfold kis_digit. zcases; done. Qed.

Lemma digits_rev_all fuel : forall n, 0 <= n -> Forall (fun c => kis_digit (bz c) = true) (digits_rev fuel n 10).
Proof.
  induction fuel as [|fuel IH]; intros n Hn; simpl; [constructor|].
  destruct (Z.leb_spec n 0); constructor.
  - apply digit_is_digit. apply Z.mod_pos_bound. lia.
  - apply IH. apply Z.div_pos; lia.
Qed.

Lemma digits_value fuel : forall n, 0 <= n < 10 ^ Z.of_nat fuel -> dec_digits (rev (digits_rev fuel n 10)) 0 = n.
Proof.
  induction fuel as [|fuel IH]; intros n Hn; cbn [digits_rev]; [simpl in *; lia|].
  destruct (Z.leb_spec n 0); [simpl; lia|]. cbn [rev].
  assert (Hdiv : 0 <= n / 10 < 10 ^ Z.of_nat fuel).
  { split; [apply Z.div_pos; lia|]. apply Z.div_lt_upper_bound; [lia|].
    replace (10 * 10 ^ Z.of_nat fuel) with (10 ^ Z.of_nat (S fuel)); [lia|].
    rewrite Nat2Z.inj_succ, Z.pow_succ_r by lia. done. }
  rewrite dec_digits_app by (apply Forall_rev, digits_rev_all; lia). rewrite IH by done. cbn [dec_digits].
  pose proof (Z.mod_pos_bound n 10 ltac:(lia)). rewrite digit_is_digit by done. rewrite bz_digit by done.
  pose proof (Z.div_mod n 10 ltac:(lia)). lia.
Qed.

Lemma digits_nonempty fuel n base : 0 < n -> (0 < fuel)%nat -> exists c s, digits_rev fuel n base = c :: s.
Proof. intros Hn Hf. destruct fuel; [lia|]. simpl. rewrite (proj2 (Z.leb_gt n 0)) by lia. eauto. Qed.

(** A numeral starts with a digit, so reading skips nothing before it. *)
Lemma numeral_head n : 0 < n < 10 ^ 64 ->
  exists c s, rev (digits_rev 64 n 10) = c :: s /\ kis_digit (bz c) = true.
Proof.
  intros Hn. destruct (rev (digits_rev 64 n 10)) as [|c s] eqn:E.
  - destruct (digits_nonempty 64 n 10) as (c & s & E'); [lia|lia|]. rewrite E' in E. simpl in E.
    by destruct (rev s).
  - exists c, s. split; [done|]. pose proof (digits_rev_all 64 n ltac:(lia)) as H.
    apply Forall_rev in H. rewrite E in H. by apply list.Forall_cons in H as [? _].
Qed.

(** Printing and reading decimal numbers are inverse: [kstrtoi] of what [kitoa]
    prints in base 10 is the number, for every 32-bit signed integer, the most
    negative one included. *)
Theorem kitoa_kstrtoi_roundtrip n :
  - 2 ^ 31 <= n < 2 ^ 31 -> kstrtoi (kitoa n 10) = n.
Proof.
  intros Hn. unfold kitoa. cbn [Z.ltb orb Z.compare Pos.compare Pos.compare_cont].
  destruct (Z.eqb_spec n 0) as [->|H0]; [by vm_compute|].
  assert (Hi32 : i32 n = n).
  { unfold i32, u32. change 4294967296 with (2 ^ 32). destruct (Z.ltb_spec (n mod 2 ^ 32) (2 ^ 31)) as [Hlt|Hge].
    - destruct (Z_lt_dec n 0); [|by rewrite Z.mod_small in * by lia].
      rewrite <- (Z_mod_plus_full n 1) in *. rewrite Z.mod_small in * by lia. lia.
    - destruct (Z_lt_dec n 0); [|rewrite Z.mod_small in Hge by lia; lia].
      rewrite <- (Z_mod_plus_full n 1) in *. rewrite Z.mod_small in * by lia. lia. }
  change (10 =? 10) with true. cbn [andb]. destruct (Z.ltb_spec n 0) as [Hneg|Hpos].
  - rewrite (u32_small (- n)) by lia.
    change (kstrtoi (cs "-" ++ rev (digits_rev 64 (- n) 10))) with (i32 (- dec_digits (rev (digits_rev 64 (- n) 10)) 0)).
    rewrite digits_value by lia. by rewrite Z.opp_involutive.
  - rewrite (u32_small n) by lia. cbn [app]. unfold kstrtoi.
    destruct (numeral_head n ltac:(lia)) as (c & s & E & Hc). rewrite E. cbn [skip_space].
    unfold kis_digit in Hc. apply andb_prop in Hc as [Hc1%Z.leb_le Hc2%Z.leb_le].
    assert (Hsp : kis_space (bz c) = false) by (unfold kis_space; zcases).
    rewrite Hsp. rewrite (proj2 (Z.eqb_neq (bz c) 45)), (proj2 (Z.eqb_neq (bz c) 43)) by lia.
    rewrite <- E, digits_value by lia. done.
Qed.

Lemma kitoa_kstrtoi_roundtrip_witness : kstrtoi (kitoa (-2147483648) 10) = -2147483648.
Proof. apply kitoa_kstrtoi_roundtrip. lia. Defined.

(** ** The formatter against a reference printer

    The reference prints the whole text, with no buffer in sight. *)

Definition spaces_to (len width : Z) (c : byte) : cstr := replicate (Z.to_nat (width - len)) c.

Definition conv_text (letter : Z) (zero_pad : bool) (width : Z) (ap : list vararg) : option (cstr * list vararg) :=
  let number (nb : cstr) := spaces_to (zlen nb) width (if zero_pad then x30 else x20) ++ nb in
  match ap with
  | VInt n :: ap' =>
    if letter =? 100 then Some (number (kitoa (i32 n) 10), ap')
    else if letter =? 117 then Some (number (kuitoa (u32 n) 10), ap')
    else if letter =? 120 then Some (number (kuitoa (u32 n) 16), ap')
    else if letter =? 88 then Some (number ((fun c => zb (kto_upper (bz c))) <$> kuitoa (u32 n) 16), ap')
    else if letter =? 112 then Some (cs "0x" ++ kuitoa (u32 n) 16, ap')
    else if letter =? 99 then Some ([zb n], ap')
    else if letter =? 37 then Some (cs "%", ap)
    else if letter =? 115 then None else Some ([], ap)
  | VStr s :: ap' =>
    if letter =? 115 then Some (default (cs "(null)") s, ap')
    else if letter =? 37 then Some (cs "%", ap)
    else if existsb (Z.eqb letter) [100; 117; 120; 88; 112; 99] then None else Some ([], ap)
  | [] =>
    if letter =? 37 then Some (cs "%", [])
    else if existsb (Z.eqb letter) [100; 117; 120; 88; 112; 99; 115] then None else Some ([], [])
  end.

Fixpoint printed (fuel : nat) (fmt : cstr) (ap : list vararg) : option cstr :=
  match fuel, fmt with
  | O, _ => None
  | S _, [] => Some []
  | S fuel', c :: r =>
    if negb (bz c =? 37) then cons c <$> printed fuel' r ap
    else
      let '(zp, r1) := match r with d :: r' => if bz d =? 48 then (true, r') else (false, r) | [] => (false, []) end in
      let '(w, r2) := read_width r1 0 in
      match r2 with
      | [] => None
      | l :: r3 => p ← conv_text (bz l) zp w ap; app (fst p) <$> printed fuel' r3 (snd p)
      end
  end.

(** What fits in a buffer of [sz] bytes. *)
Definition fits (sz : Z) (s : cstr) : cstr := take (Z.to_nat (sz - 1)) s.

Lemma PUT_fits sz s c : PUT sz (fits sz s) c = fits sz (s ++ [c]).
Proof.
  unfold PUT, fits. rewrite length_take. destruct (Z.ltb_spec (Z.of_nat (Z.to_nat (sz - 1) `min` length s) + 1) sz).
  - rewrite !take_ge; [done|rewrite length_app; simpl; lia|lia].
  - rewrite take_app_le by lia. done.
Qed.

Lemma put_all_fits sz t : forall s, put_all sz (fits sz s) t = fits sz (s ++ t).
Proof.
  unfold put_all. induction t as [|c t IH]; intros s; simpl; [by rewrite app_nil_r|].
  rewrite PUT_fits, IH. by rewrite <- app_assoc.
Qed.

Lemma fits_full sz s t : 0 < sz -> negb (zlen (fits sz s) + 1 <? sz) = true -> fits sz s = fits sz (s ++ t).
Proof.
  unfold fits. rewrite length_take. intros Hs H%negb_true_iff%Z.ltb_ge. by rewrite take_app_le by lia.
Qed.

Lemma convert_fits sz s letter zp w ap t ap' :
  conv_text letter zp w ap = Some (t, ap') -> convert sz (fits sz s) letter zp w ap = Done (fits sz (s ++ t), ap').
Proof.
  unfold conv_text, convert, pad_to. fold (spaces_to). intros H.
  destruct ap as [|[n|x] ap0]; simpl in H;
    repeat match goal with
    | H : context [letter =? ?k] |- _ => destruct (Z.eqb_spec letter k); simpl in H; [subst letter; simpl|]
    end; simplify_eq; rewrite ?PUT_fits, ?put_all_fits, ?app_assoc, ?app_nil_r;
    first [reflexivity | by rewrite <- !app_assoc
      | repeat match goal with |- context [letter =? ?k] => destruct (Z.eqb_spec letter k); [done|] end; done].
Qed.

Lemma format_loop_fits sz fuel : forall fmt ap s t,
  0 < sz -> printed fuel fmt ap = Some t -> format_loop fuel sz fmt (fits sz s) ap = Done (fits sz (s ++ t)).
Proof.
  induction fuel as [|fuel IH]; intros fmt ap s t Hsz H; [done|]. simpl in H. cbn [format_loop].
  destruct fmt as [|c r]; [simplify_eq; by rewrite app_nil_r|].
  destruct (negb (zlen (fits sz s) + 1 <? sz)) eqn:Hfull; [by rewrite <- (fits_full sz s t)|].
  destruct (negb (bz c =? 37)).
  - apply fmap_Some in H as (t' & Ht & ->). rewrite PUT_fits, (IH _ _ _ t') by done. by rewrite <- app_assoc.
  - destruct (match r with d :: r' => if bz d =? 48 then (true, r') else (false, r) | [] => (false, []) end) as [zp r1].
    destruct (read_width r1 0) as [w [|l r3]]; [done|].
    apply bind_Some in H as ([x ap'] & Hc & (t' & Ht & ->)%fmap_Some).
    rewrite (convert_fits _ _ _ _ _ _ _ _ Hc). cbn [obind fst snd]. rewrite (IH _ _ _ t') by done.
    by rewrite app_assoc.
Qed.

Lemma ksnprintf_take sz fmt ap text :
  0 < sz -> printed (S (length fmt)) fmt ap = Some text -> ksnprintf sz fmt ap = Done (take (Z.to_nat (sz - 1)) text).
Proof.
  intros Hsz H. unfold ksnprintf. rewrite (proj2 (Z.eqb_neq sz 0)) by lia.
  pose proof (format_loop_fits sz _ _ _ [] _ Hsz H) as E. unfold fits in E. simpl app in E. by rewrite take_nil in E.
Qed.

(** [ksnprintf] never writes past its buffer and prints correctly up to it: it leaves
    exactly the first [sz-1] bytes of the text that the format and its arguments
    denote, whatever widths, paddings and conversions occur. *)
Theorem ksnprintf_prints_prefix sz fmt ap text :
  0 < sz -> printed (S (length fmt)) fmt ap = Some text ->
  exists out, ksnprintf sz fmt ap = Done out /\ out = take (Z.to_nat (sz - 1)) text /\ zlen out < sz.
Proof.
  intros Hsz H. eexists. split_and!; [by apply ksnprintf_take|done|]. rewrite length_take. lia.
Qed.

Lemma ksnprintf_prints_prefix_witness :
  exists out, ksnprintf 10 (cs "pid=%04d %s") [VInt 42; VStr (Some (cs "shell"))] = Done out /\
    out = take 9 (cs "pid=0042 shell") /\ zlen out < 10.
Proof. apply (ksnprintf_prints_prefix 10); [lia|by vm_compute]. Defined.

(** ** The log ring against the history of messages *)

Definition log_all (h : list cstr) : klog := fold_left (fun k t => kernel_log_append (Some t) k) h klog0.

(** What the ring holds after the messages [h]. *)
Record log_inv (h : list cstr) (k : klog) : Prop := {
  lg_len : zlen (kl_logs k) = 128;
  lg_head : kl_head k = zlen h mod 128;
  lg_count : kl_count k = Z.min 128 (zlen h);
  lg_seq : kl_sequence k = u32 (zlen h);
  lg_at : forall (j : nat) t, zlen h - 128 <= Z.of_nat j -> h !! j = Some t ->
    aget (kl_logs k) (Z.of_nat j mod 128) = Some (mk_log (u32 (Z.of_nat j + 1)) (log_line t));
}.

Lemma mod128_apart a b : a < b -> b - a < 128 -> a mod 128 <> b mod 128.
Proof. intros H1 H2 E. pose proof (Z.div_mod a 128 ltac:(lia)). pose proof (Z.div_mod b 128 ltac:(lia)). lia. Qed.

Lemma kernel_log_append_inv h k t : log_inv h k -> log_inv (h ++ [t]) (kernel_log_append (Some t) k).
Proof.
  intros [Hl Hh Hc Hs Ha]. pose proof (Z.mod_pos_bound (zlen h) 128 ltac:(lia)) as Hb.
  assert (Hlen : zlen (h ++ [t]) = zlen h + 1) by (rewrite length_app; simpl; lia).
  split; unfold kernel_log_append, ATM_KERNEL_LOG_MAX; cbn [kl_logs kl_head kl_count kl_sequence]; rewrite ?Hlen.
  - by rewrite aset_length.
  - rewrite Hh, u32_small by lia. by rewrite Z.add_mod_idemp_l.
  - rewrite Hc. destruct (Z.ltb_spec (Z.min 128 (zlen h)) 128); lia.
  - rewrite Hs. unfold u32. by rewrite Z.add_mod_idemp_l.
  - intros j x Hj Hx. apply lookup_app_Some in Hx as [Hx|[Hge Hx]].
    + pose proof (lookup_lt_Some _ _ _ Hx). rewrite aget_aset_ne; [apply Ha; [lia|done]|].
      rewrite Hh. apply not_eq_sym, mod128_apart; lia.
    + apply list_lookup_singleton_Some in Hx as [Hj0 ->].
      replace (Z.of_nat j) with (zlen h) by lia. rewrite <- Hh, aget_aset_eq by lia.
      rewrite Hs. unfold u32. by rewrite Z.add_mod_idemp_l.
Qed.

Lemma log_all_inv h : log_inv h (log_all h).
Proof.
  unfold log_all. induction h as [|t h IH] using rev_ind.
  - split; try done.
  - rewrite fold_left_app. simpl. by apply kernel_log_append_inv.
Qed.

(** The kernel log is a ring of the last 128 messages: after any sequence of
    messages, [kernel_log_count] is the number kept and entry [i] of
    [kernel_log_at] is the [i]-th oldest of them, trimmed, under the sequence number
    it was given. *)
Theorem kernel_log_keeps_last h i t :
  0 <= i -> h !! Z.to_nat (zlen h - Z.min 128 (zlen h) + i) = Some t ->
  kernel_log_count (log_all h) = Z.min 128 (zlen h) /\
  kernel_log_at (log_all h) i =
    Some (mk_log (u32 (zlen h - Z.min 128 (zlen h) + i + 1)) (log_line t)).
Proof.
  intros Hi Ht. pose proof (lookup_lt_Some _ _ _ Ht). destruct (log_all_inv h) as [Hl Hh Hc Hs Ha].
  split; [done|]. unfold kernel_log_at, ATM_KERNEL_LOG_MAX.
  pose proof (Z.mod_pos_bound (zlen h) 128 ltac:(lia)).
  rewrite Hc, Hh. rewrite (proj2 (Z.ltb_ge i 0)), (proj2 (Z.leb_gt (Z.min 128 (zlen h)) i)) by lia. simpl.
  rewrite u32_small by lia.
  replace (zlen h mod 128 + 128 - Z.min 128 (zlen h) + i) with (zlen h mod 128 + (128 - Z.min 128 (zlen h) + i)) by lia.
  rewrite Z.add_mod_idemp_l by lia.
  replace (zlen h + (128 - Z.min 128 (zlen h) + i)) with (zlen h - Z.min 128 (zlen h) + i + 1 * 128) by lia.
  rewrite Z_mod_plus_full.
  rewrite <- (Z2Nat.id (zlen h - Z.min 128 (zlen h) + i)) by lia. apply Ha; [lia|done].
Qed.

Lemma kernel_log_keeps_last_witness :
  kernel_log_count (log_all (replicate 130 (cs "a") ++ [cs "b"])) = 128 /\
  kernel_log_at (log_all (replicate 130 (cs "a") ++ [cs "b"])) 127 = Some (mk_log (u32 131) (log_line (cs "b"))).
Proof. apply (kernel_log_keeps_last (replicate 130 (cs "a") ++ [cs "b"]) 127); [lia|by vm_compute]. Defined.
