(* ===== verification/Kmalloc.v ===== *)
(** * The kernel heap (src/src/kmalloc.c)

    A first-fit allocator over a singly linked list of headers kept in the memory
    it manages.  The memory is a map from 8-aligned addresses to 64-bit words;
    an access outside the region handed to [heap_init], or a misaligned one, is a
    [Fault].  A header is four words: magic, size, free (the low half of the
    word), next.  NULL is 0. *)

From S2P Require Import Prelude.

Definition HEAP_MAGIC : Z := 0xC4FE.
Definition MIN_SPLIT : Z := 32.
Definition HEAP_WALK_MAX : nat := Z.to_nat 65536.
Lemma HEAP_WALK_MAX_Z : Z.of_nat HEAP_WALK_MAX = 65536.
Proof. unfold HEAP_WALK_MAX. lia. Qed.
#[global] Strategy opaque [HEAP_WALK_MAX].
(** [sizeof(block_header_t)] on x86-64. *)
Definition HDR : Z := 32.
Definition PTR : Z := 8.

(** [ALIGN(n,a)] on 64-bit operands. *)
Definition ALIGN (n a : Z) : Z := Z.land (u64 (n + a - 1)) (u64 (Z.lnot (a - 1))).

Record heap := mk_heap {
  h_mem : gmap Z Z;
  ram_lo : Z; ram_hi : Z;
  heap_start : Z;
  heap_total : Z }.

#[export] Instance eta_heap : Eta heap := fun h =>
  mk_heap (h_mem h) (ram_lo h) (ram_hi h) (heap_start h) (heap_total h).

(** ** Memory accesses *)

Definition in_ram (h : heap) (a : Z) : bool :=
  (ram_lo h <=? a) && (a + 8 <=? ram_hi h) && (a mod 8 =? 0).

Definition word (h : heap) (a : Z) : Z := default 0 (h_mem h !! a).

Definition load (a : Z) : M heap Z :=
  deref (fun h => if in_ram h a then Some (word h a) else None).

Definition put (a v : Z) (h : heap) : heap := h <| h_mem := <[a := v]> (h_mem h) |>.

Definition store (a v : Z) : M heap unit := fun h =>
  if in_ram h a then Done (tt, put a v h) else Fault.

Definition hdr_magic (p : Z) : M heap Z := load p.
Definition hdr_size (p : Z) : M heap Z := load (p + 8).
Definition hdr_free (p : Z) : M heap Z := let* w := load (p + 16) in ret (u32 w).
Definition hdr_next (p : Z) : M heap Z := load (p + 24).

(** A store to the 32-bit field [free] keeps the padding beside it. *)
Definition set_free (p v : Z) : M heap unit :=
  let* w := load (p + 16) in store (p + 16) (w - u32 w + v).

(** ** The allocator *)

Definition heap_header_valid (h : heap) (hdr : Z) : bool :=
  let start := heap_start h in
  let e := u64 (start + heap_total h + HDR) in
  negb (hdr =? 0) && negb (start =? 0) && (start <=? hdr) && (hdr <=? u64 (e - HDR)) && (Z.land hdr 7 =? 0).

Definition heap_init (start_addr size : Z) : M heap unit :=
  let aligned := ALIGN start_addr 16 in
  if size <? HDR + 16 then ret tt
  else
    let size' := u64 (size - u64 (aligned - start_addr)) in
    do* modify (fun h => h <| heap_start := aligned |>) in
    do* store aligned HEAP_MAGIC in
    do* store (aligned + 8) (u64 (size' - HDR)) in
    do* set_free aligned 1 in
    do* store (aligned + 24) 0 in
    modify (fun h => h <| heap_total := u32 (u64 (size' - HDR)) |>).

(** [while (cur && cur->next && seen++<HEAP_WALK_MAX)] *)
Fixpoint coalesce_walk (fuel : nat) (cur : Z) : M heap unit :=
  if cur =? 0 then ret tt
  else
    let* nx := hdr_next cur in
    if nx =? 0 then ret tt
    else match fuel with
    | O => ret tt
    | S fuel' =>
      let* v1 := gets (fun h => heap_header_valid h cur) in
      let* v2 := gets (fun h => heap_header_valid h nx) in
      if negb v1 || negb v2 then ret tt
      else
        let* m1 := hdr_magic cur in
        let* m2 := hdr_magic nx in
        if negb (m1 =? HEAP_MAGIC) || negb (m2 =? HEAP_MAGIC) then ret tt
        else
          let* f1 := hdr_free cur in
          let* f2 := hdr_free nx in
          if truth f1 && truth f2 then
            let* s1 := hdr_size cur in
            let* s2 := hdr_size nx in
            do* store (cur + 8) (u64 (s1 + u64 (HDR + s2))) in
            let* nn := hdr_next nx in
            do* store (cur + 24) nn in
            coalesce_walk fuel' cur
          else coalesce_walk fuel' nx
    end.

Definition coalesce : M heap unit :=
  let* s := gets heap_start in coalesce_walk HEAP_WALK_MAX s.

(** Carving an allocation of [size] bytes out of the free block [cur]. *)
Definition take_block (cur size : Z) : M heap Z :=
  let* sz := hdr_size cur in
  do* (if u64 (u64 (size + HDR) + MIN_SPLIT) <=? sz then
         let newb := u64 (u64 (cur + HDR) + size) in
         do* store newb HEAP_MAGIC in
         do* store (newb + 8) (u64 (u64 (sz - size) - HDR)) in
         do* set_free newb 1 in
         let* nx := hdr_next cur in
         do* store (newb + 24) nx in
         do* store (cur + 24) newb in
         store (cur + 8) size
       else ret tt) in
  do* set_free cur 0 in
  ret (u64 (cur + HDR)).

Fixpoint kmalloc_walk (fuel : nat) (cur size : Z) : M heap Z :=
  match fuel with
  | O => ret 0
  | S fuel' =>
    if cur =? 0 then ret 0
    else
      let* v := gets (fun h => heap_header_valid h cur) in
      if negb v then ret 0
      else
        let* m := hdr_magic cur in
        if negb (m =? HEAP_MAGIC) then ret 0
        else
          let* f := hdr_free cur in
          let* sz := hdr_size cur in
          if truth f && (size <=? sz) then take_block cur size
          else
            let* nx := hdr_next cur in
            kmalloc_walk fuel' nx size
  end.

Definition kmalloc (size : Z) : M heap Z :=
  let* s := gets heap_start in
  if (s =? 0) || (size =? 0) then ret 0
  else kmalloc_walk HEAP_WALK_MAX s (ALIGN size 8).

Definition kmalloc_aligned (size align : Z) : M heap Z :=
  if align <=? 8 then kmalloc size
  else
    let total := u64 (u64 (size + align) + PTR) in
    let* raw := kmalloc total in
    if raw =? 0 then ret 0
    else
      let addr := ALIGN (u64 (raw + PTR)) align in
      do* store (addr - 8) raw in
      ret addr.

(** The tail of [kfree] once the header is found. *)
Definition kfree_hdr (hdr : Z) : M heap unit :=
  let* v := gets (fun h => heap_header_valid h hdr) in
  if negb v then ret tt
  else
    let* m := hdr_magic hdr in
    if negb (m =? HEAP_MAGIC) then ret tt
    else
      let* f := hdr_free hdr in
      if truth f then ret tt
      else do* set_free hdr 1 in coalesce.

Definition kfree (p : Z) : M heap unit :=
  let* start := gets heap_start in
  let* total := gets heap_total in
  let e := u64 (start + total + HDR) in
  if (p =? 0) || (start =? 0) then ret tt
  else if (p <? u64 (start + HDR)) || (e <=? p) then ret tt
  else
    let hdr := p - HDR in
    let* v := gets (fun h => heap_header_valid h hdr) in
    let* good := (if v then let* m := hdr_magic hdr in ret (m =? HEAP_MAGIC) else ret false) in
    if good then kfree_hdr hdr
    else if p <? u64 (start + PTR) then ret tt
    else
      let* raw := load (p - 8) in
      if (raw <? u64 (start + HDR)) || (e <=? raw) then ret tt
      else kfree_hdr (raw - HDR).

(** [while (cur)]: not bounded in the code; a fuel that runs out is an endless loop. *)
Fixpoint heap_free_walk (fuel : nat) (cur total : Z) : M heap Z :=
  if cur =? 0 then ret total
  else match fuel with
  | O => fault
  | S fuel' =>
    let* f := hdr_free cur in
    let* sz := hdr_size cur in
    let* nx := hdr_next cur in
    heap_free_walk fuel' nx (if truth f then u32 (total + sz) else total)
  end.

Definition heap_free_bytes (fuel : nat) : M heap Z :=
  let* s := gets heap_start in heap_free_walk fuel s 0.

Definition heap_used_bytes (fuel : nat) : M heap Z :=
  let* t := gets heap_total in
  let* f := heap_free_bytes fuel in
  ret (u32 (t - f)).

(** ** A small heap, for evaluation *)

Definition blank_ram (lo hi : Z) : heap := mk_heap ∅ lo hi 0 0.

Definition demo_heap : heap :=
  match heap_init 0x1008 0x1000 (blank_ram 0x1000 0x3000) with Done (_, h) => h | Fault => blank_ram 0 0 end.
