(* ===== verification/KmallocInv.v ===== *)
(** * Heap correctness

    [heap_ok h bl] says that the header list in memory is the list of blocks [bl],
    which tile the heap without gap or overlap.  Allocation and release are then
    operations on that list. *)

From S2P Require Import Prelude Kmalloc.

Record block := mk_block { b_addr : Z; b_size : Z; b_free : bool }.

Definition b_end (b : block) : Z := b_addr b + HDR + b_size b.
Definition b_payload (b : block) : Z := b_addr b + HDR.

Definition next_addr (bl : list block) : Z := match bl with [] => 0 | b :: _ => b_addr b end.

Record hdr_at (h : heap) (b : block) (next : Z) : Prop := {
  hd_magic : word h (b_addr b) = HEAP_MAGIC;
  hd_size : word h (b_addr b + 8) = b_size b;
  hd_free : u32 (word h (b_addr b + 16)) = if b_free b then 1 else 0;
  hd_next : word h (b_addr b + 24) = next }.

(** The blocks [bl] lie one after the other from [a] to [lim]. *)
Fixpoint chain (h : heap) (a : Z) (bl : list block) (lim : Z) : Prop :=
  match bl with
  | [] => a = lim
  | b :: bl' => b_addr b = a /\ 0 <= b_size b /\ (bl' <> [] -> b_size b mod 8 = 0) /\
                hdr_at h b (next_addr bl') /\ chain h (b_end b) bl' lim
  end.

Definition heap_end (h : heap) : Z := heap_start h + HDR + heap_total h.

Record heap_ok (h : heap) (bl : list block) : Prop := {
  ho_start : 0 < heap_start h;
  ho_align : heap_start h mod 8 = 0;
  ho_lo : ram_lo h <= heap_start h;
  ho_hi : heap_end h <= ram_hi h < 2 ^ 63;
  ho_total : 0 <= heap_total h < 2 ^ 32;
  ho_chain : chain h (heap_start h) bl (heap_end h) }.

(** Two heaps that differ in the contents of memory only. *)
Definition same_region (h h' : heap) : Prop :=
  ram_lo h' = ram_lo h /\ ram_hi h' = ram_hi h /\ heap_start h' = heap_start h /\ heap_total h' = heap_total h.

(** ... and there only in [[lo, hi)]. *)
Definition same_but (lo hi : Z) (h h' : heap) : Prop :=
  same_region h h' /\ forall x, x < lo \/ hi <= x -> word h' x = word h x.

Lemma same_but_refl lo hi h : same_but lo hi h h.
Proof. by split. Qed.

Lemma same_but_trans lo hi h1 h2 h3 : same_but lo hi h1 h2 -> same_but lo hi h2 h3 -> same_but lo hi h1 h3.
Proof.
  intros [(? & ? & ? & ?) Ha] [(? & ? & ? & ?) Hb]. split; [split_and!; congruence|].
  intros x Hx. by rewrite Hb, Ha.
Qed.

Lemma same_but_weaken lo hi lo' hi' h h' :
  lo' <= lo -> hi <= hi' -> same_but lo hi h h' -> same_but lo' hi' h h'.
Proof. intros ? ? [? H]. split; [done|]. intros x Hx. apply H. lia. Qed.

(** ** Chains *)

Lemma hdr_at_frame h h' b n :
  (forall k, 0 <= k < HDR -> word h' (b_addr b + k) = word h (b_addr b + k)) -> hdr_at h b n -> hdr_at h' b n.
Proof.
  intros H []. unfold HDR in H. constructor; rewrite ?H by lia; try done.
  rewrite <- (Z.add_0_r (b_addr b)), H by lia. by rewrite Z.add_0_r.
Qed.

Lemma chain_le h bl : forall a lim, chain h a bl lim -> a <= lim.
Proof.
  induction bl as [|b bl IH]; intros a lim; simpl; [lia|].
  intros (Ha & Hs & _ & _ & Hc). apply IH in Hc. unfold b_end, HDR in *. lia.
Qed.

Lemma chain_frame h h' bl : forall a lim lo hi,
  same_but lo hi h h' -> hi <= a \/ lim <= lo -> chain h a bl lim -> chain h' a bl lim.
Proof.
  induction bl as [|b bl IH]; intros a lim lo hi Hsb Hd; simpl; [done|].
  intros (Ha & Hs & Hm & Hh & Hc). pose proof (chain_le _ _ _ _ Hc). unfold b_end, HDR in *.
  split_and!; try done.
  - eapply hdr_at_frame; [|exact Hh]. intros k Hk. apply Hsb. unfold HDR in *. lia.
  - eapply IH; [done| |done]. lia.
Qed.

(** Blocks from [a] up to the block at [m]; each but the last block of the heap
    links to the address where it ends. *)
Fixpoint bseg (h : heap) (a : Z) (bl : list block) (m : Z) : Prop :=
  match bl with
  | [] => a = m
  | b :: bl' => b_addr b = a /\ 0 <= b_size b /\ b_size b mod 8 = 0 /\ hdr_at h b (b_end b) /\
                bseg h (b_end b) bl' m
  end.

Lemma bseg_le h bl : forall a m, bseg h a bl m -> a <= m.
Proof.
  induction bl as [|b bl IH]; intros a m; simpl; [lia|].
  intros (Ha & Hs & _ & _ & Hc). apply IH in Hc. unfold b_end, HDR in *. lia.
Qed.

Lemma bseg_frame h h' bl : forall a m lo hi,
  same_but lo hi h h' -> hi <= a \/ m <= lo -> bseg h a bl m -> bseg h' a bl m.
Proof.
  induction bl as [|b bl IH]; intros a m lo hi Hsb Hd; simpl; [done|].
  intros (Ha & Hs & Hm & Hh & Hc). pose proof (bseg_le _ _ _ _ Hc). unfold b_end, HDR in *.
  split_and!; try done.
  - eapply hdr_at_frame; [|exact Hh]. intros k Hk. apply Hsb. unfold HDR in *. lia.
  - eapply IH; [done| |done]. lia.
Qed.

Lemma bseg_align h bl : forall a m, bseg h a bl m -> a mod 8 = 0 -> m mod 8 = 0.
Proof.
  induction bl as [|b bl IH]; intros a m; simpl; [by intros ->|].
  intros (Ha & Hs & Hm & Hh & Hc) Hal. apply (IH _ _ Hc). unfold b_end, HDR.
  rewrite Ha, Zplus_mod, (Zplus_mod a), Hal, Hm. done.
Qed.

Lemma chain_app h l1 b l2 lim : forall a,
  chain h a (l1 ++ b :: l2) lim <-> bseg h a l1 (b_addr b) /\ chain h (b_addr b) (b :: l2) lim.
Proof.
  induction l1 as [|c l1 IH]; intros a; cbn [app bseg].
  - cbn [chain]. split; [intros (<- & H); by split; [|split]|by intros (-> & _ & H); split].
  - cbn [chain]. rewrite IH.
    assert (Hnext : bseg h (b_end c) l1 (b_addr b) -> next_addr (l1 ++ b :: l2) = b_end c).
    { destruct l1 as [|c' l1']; simpl; [done|by intros (-> & _)]. }
    split.
    + intros (Ha & Hs & Hm & Hh & Hb & Hc). rewrite Hnext in Hh by done. split; [|exact Hc].
      split_and!; try done. apply Hm. by destruct l1.
    + intros [(Ha & Hs & Hm & Hh & Hb) Hc]. rewrite Hnext by done.
      exact (conj Ha (conj Hs (conj (fun _ => Hm) (conj Hh (conj Hb Hc))))).
Qed.

Lemma bseg_app h l1 l2 : forall a m,
  bseg h a (l1 ++ l2) m <-> exists n, bseg h a l1 n /\ bseg h n l2 m.
Proof.
  induction l1 as [|c l1 IH]; intros a m; cbn [app bseg].
  - split; [by eauto|by intros (n & -> & ?)].
  - rewrite IH. naive_solver.
Qed.

(** ** Words of a block *)

Lemma wp_load a h Q : in_ram h a = true -> Q (word h a) h -> wp (load a) h Q.
Proof. intros Hr HQ. unfold load. eapply wp_deref; [by rewrite Hr|done]. Qed.

Lemma wp_store a v h Q :
  in_ram h a = true -> Q tt (put a v h) -> wp (store a v) h Q.
Proof. intros Hr HQ. unfold wp, store. by rewrite Hr. Qed.

Lemma word_store a v h x :
  word (put a v h) x = if decide (a = x) then v else word h x.
Proof. unfold word, put. simpl. case_decide; subst; [by rewrite lookup_insert_eq|by rewrite lookup_insert_ne]. Qed.

Lemma in_ram_intro h a : ram_lo h <= a -> a + 8 <= ram_hi h -> a mod 8 = 0 -> in_ram h a = true.
Proof.
  intros. unfold in_ram. rewrite !andb_true_iff, !Z.leb_le, Z.eqb_eq. lia.
Qed.

Lemma mod8_add a k : a mod 8 = 0 -> k mod 8 = 0 -> (a + k) mod 8 = 0.
Proof. intros Ha Hk. by rewrite Zplus_mod, Ha, Hk. Qed.

(** A block of the heap: its place and the words of its header. *)
Record placed (h : heap) (b : block) (next : Z) : Prop := {
  pl_lo : heap_start h <= b_addr b;
  pl_hi : b_end b <= heap_end h;
  pl_align : b_addr b mod 8 = 0;
  pl_size : 0 <= b_size b;
  pl_hdr : hdr_at h b next }.

Lemma heap_ok_split h l1 b l2 :
  heap_ok h (l1 ++ b :: l2) ->
  placed h b (next_addr l2) /\ bseg h (heap_start h) l1 (b_addr b) /\ chain h (b_end b) l2 (heap_end h) /\
  (l2 <> [] -> b_size b mod 8 = 0).
Proof.
  intros []. apply chain_app in ho_chain0 as [Hb Hc]. destruct Hc as (_ & Hs & Hm & Hh & Hc).
  split_and!; try done. constructor; try done.
  - by eapply bseg_le.
  - by eapply chain_le.
  - by eapply bseg_align.
Qed.

Lemma placed_ram h bl b n k :
  heap_ok h bl -> placed h b n -> 0 <= k <= 24 -> k mod 8 = 0 -> in_ram h (b_addr b + k) = true.
Proof.
  intros [] [] Hk Hk8. unfold b_end, HDR in *. apply in_ram_intro; [lia|lia|]. by apply mod8_add.
Qed.

Lemma land7 a : Z.land a 7 = a mod 8.
Proof. change 7 with (Z.ones 3). by rewrite Z.land_ones by lia. Qed.

Lemma placed_valid h bl b n :
  heap_ok h bl -> placed h b n -> heap_header_valid h (b_addr b) = true.
Proof.
  intros [] []. unfold heap_header_valid, heap_end, b_end, HDR in *.
  rewrite (u64_small (heap_start h + _ + 32)) by lia. rewrite u64_small by lia. rewrite land7, pl_align0.
  rewrite !andb_true_iff, !negb_true_iff, !Z.eqb_neq, !Z.leb_le. split_and!; lia || done.
Qed.

Lemma u32_low w v : 0 <= v < 2 ^ 32 -> u32 (w - u32 w + v) = v.
Proof.
  intros Hv. unfold u32. change 4294967296 with (2 ^ 32). pose proof (Z.div_mod w (2 ^ 32) ltac:(lia)) as H.
  replace (w - w mod 2 ^ 32 + v) with (v + (w / 2 ^ 32) * 2 ^ 32) by lia.
  rewrite Z_mod_plus_full. by apply Z.mod_small.
Qed.

Lemma wp_set_free p v h Q :
  in_ram h (p + 16) = true ->
  Q tt (put (p + 16) (word h (p + 16) - u32 (word h (p + 16)) + v) h) ->
  wp (set_free p v) h Q.
Proof. intros Hr HQ. unfold set_free. wp_step. apply wp_load; [done|]. by apply wp_store. Qed.

Lemma in_ram_store a v h x : in_ram (put a v h) x = in_ram h x.
Proof. done. Qed.

(** Evaluates the words of a memory after a series of stores at distinct addresses. *)
Ltac words := rewrite ?word_store; repeat (case_decide; try lia).

(** ** Allocation *)

(** A free block with [size] bytes taken from it. *)
Definition carve (size : Z) (b : block) : list block :=
  if size + HDR + MIN_SPLIT <=? b_size b
  then [mk_block (b_addr b) size false; mk_block (b_addr b + HDR + size) (b_size b - size - HDR) true]
  else [mk_block (b_addr b) (b_size b) false].

Lemma same_but_store a v h lo hi : lo <= a < hi -> same_but lo hi h (put a v h).
Proof. intros Ha. split; [done|]. intros x Hx. by words. Qed.

Lemma heap_ok_region h h' bl :
  heap_ok h bl -> same_region h h' -> chain h' (heap_start h) bl (heap_end h) ->
  heap_ok h' bl.
Proof.
  intros [] (E1 & E2 & E3 & E4) Hc. unfold heap_end in *.
  constructor; rewrite ?E1, ?E2, ?E3, ?E4; unfold heap_end; rewrite ?E3, ?E4; done.
Qed.

(** Replacing the blocks of one range of the heap by others. *)
Lemma heap_ok_replace h h' l1 b l2 c cs :
  heap_ok h (l1 ++ b :: l2) -> same_but (b_addr b) (b_end b) h h' -> b_addr c = b_addr b ->
  (chain h' (b_end b) l2 (heap_end h) -> chain h' (b_addr b) (c :: cs ++ l2) (heap_end h)) ->
  heap_ok h' (l1 ++ (c :: cs) ++ l2).
Proof.
  intros Hok Hsb Ec Hnew. destruct (heap_ok_split _ _ _ _ Hok) as (Hpl & Hl1 & Hl2 & _).
  pose proof Hok as []. cbn [app]. pose proof Hsb as [(E1 & E2 & E3 & E4) _].
  unfold heap_end in *. constructor; unfold heap_end; rewrite ?E1, ?E2, ?E3, ?E4; try done.
  apply chain_app. rewrite Ec. split.
  - eapply bseg_frame; [exact Hsb| |exact Hl1]. lia.
  - apply Hnew. eapply chain_frame; [exact Hsb| |exact Hl2]. lia.
Qed.

Lemma take_block_spec h l1 b l2 size :
  heap_ok h (l1 ++ b :: l2) -> b_free b = true -> 0 <= size <= b_size b -> size mod 8 = 0 ->
  wp (take_block (b_addr b) size) h (fun p h' =>
    p = b_payload b /\ heap_ok h' (l1 ++ carve size b ++ l2) /\ same_but (b_addr b) (b_end b) h h').
Proof.
  intros Hok Hfree Hsize Hs8. destruct (heap_ok_split _ _ _ _ Hok) as (Hpl & Hl1 & Hl2 & Hmod).
  pose proof Hok as []. pose proof Hpl as [Hlo Hhi Hal Hsz Hhdr]. pose proof Hhdr as [H0 H8 H16 H24].
  assert (Hram : forall k, 0 <= k <= 24 -> k mod 8 = 0 -> in_ram h (b_addr b + k) = true)
    by by eauto using placed_ram.
  unfold heap_end, b_end, b_payload, HDR in *.
  assert (Hu1 : u64 (b_addr b + 32) = b_addr b + 32) by (apply u64_small; lia).
  unfold take_block, hdr_size, HDR, MIN_SPLIT. wp_step. apply wp_load; [by apply Hram|]. rewrite H8, Hu1.
  rewrite (u64_small (size + 32)) by lia. rewrite (u64_small (size + 32 + 32)) by lia.
  wp_step. unfold carve, HDR, MIN_SPLIT.
  destruct (Z.leb_spec (size + 32 + 32) (b_size b)) as [Hbig|Hsmall].
  - rewrite (u64_small (b_addr b + 32 + size)) by lia.
    rewrite (u64_small (b_size b - size)) by lia. rewrite (u64_small (b_size b - size - 32)) by lia.
    set (nb := b_addr b + 32 + size).
    assert (Hnb : forall k, 0 <= k <= 24 -> k mod 8 = 0 -> in_ram h (nb + k) = true).
    { intros k Hk Hk8. apply in_ram_intro; [lia|lia|]. unfold nb. repeat apply mod8_add; done. }
    assert (Hnb0 : in_ram h nb = true) by (rewrite <- (Z.add_0_r nb); by apply Hnb).
    wp_step. apply wp_store; [done|]. wp_step. apply wp_store; [by apply Hnb|].
    wp_step. apply wp_set_free; [by apply Hnb|]. wp_step. apply wp_load; [by apply Hram|].
    wp_step. apply wp_store; [by apply Hnb|]. wp_step. apply wp_store; [by apply Hram|].
    apply wp_store; [by apply Hram|]. wp_step. apply wp_set_free; [by apply Hram|]. wp_step.
    match goal with |- _ /\ heap_ok ?x _ /\ _ => set (h' := x) end.
    assert (Hsb : same_but (b_addr b) (b_addr b + 32 + b_size b) h h').
    { unfold h'. repeat (eapply same_but_trans; [|apply same_but_store; unfold nb; lia]). apply same_but_refl. }
    split_and!; [done| |exact Hsb].
    apply (heap_ok_replace h h' l1 b l2); [done|exact Hsb|done|]. intros Hc. cbn [app chain b_addr b_size].
    unfold b_end, HDR. cbn [b_addr b_size]. split_and!; try done; try lia.
    + constructor; cbn [b_addr b_size b_free next_addr]; unfold h', nb; words; try done.
      by rewrite u32_low by lia.
    + intros Hne. specialize (Hmod Hne). apply Z.mod_divide in Hmod, Hs8; [|lia..].
      apply Z.mod_divide; [lia|]. repeat apply Z.divide_sub_r; [done|done|by exists 4].
    + constructor; cbn [b_addr b_size b_free]; unfold h', nb in *; words; try done.
      by rewrite u32_low by lia.
    + replace (nb + 32 + (b_size b - size - 32)) with (b_end b); [exact Hc|]. unfold nb, b_end, HDR. lia.
  - wp_step. wp_step. apply wp_set_free; [by apply Hram|]. wp_step.
    match goal with |- _ /\ heap_ok ?x _ /\ _ => set (h' := x) end.
    assert (Hsb : same_but (b_addr b) (b_addr b + 32 + b_size b) h h') by (apply same_but_store; lia).
    split_and!; [done| |exact Hsb].
    apply (heap_ok_replace h h' l1 b l2); [done|exact Hsb|done|]. intros Hc. cbn [app chain b_addr b_size].
    split_and!; try done. constructor; cbn [b_addr b_size b_free]; unfold h'; words; try done.
    by rewrite u32_low by lia.
Qed.

Definition fits (size : Z) (b : block) : bool := b_free b && (size <=? b_size b).

(** What a search of at most [fuel] blocks of [bl] finds. *)
Definition search (fuel : nat) (size : Z) (bl : list block) : option block :=
  List.find (fits size) (take fuel bl).

(** Reading the header of a block. *)
Lemma wp_hdr_magic h bl b n Q :
  heap_ok h bl -> placed h b n -> Q HEAP_MAGIC h -> wp (hdr_magic (b_addr b)) h Q.
Proof.
  intros Hok Hpl HQ. unfold hdr_magic. apply wp_load.
  - rewrite <- (Z.add_0_r (b_addr b)). by eapply placed_ram.
  - by rewrite (hd_magic _ _ _ (pl_hdr _ _ _ Hpl)).
Qed.
Lemma wp_hdr_size h bl b n Q :
  heap_ok h bl -> placed h b n -> Q (b_size b) h -> wp (hdr_size (b_addr b)) h Q.
Proof.
  intros Hok Hpl HQ. unfold hdr_size. apply wp_load; [by eapply placed_ram|].
  by rewrite (hd_size _ _ _ (pl_hdr _ _ _ Hpl)).
Qed.
Lemma wp_hdr_free h bl b n Q :
  heap_ok h bl -> placed h b n -> Q (if b_free b then 1 else 0) h -> wp (hdr_free (b_addr b)) h Q.
Proof.
  intros Hok Hpl HQ. unfold hdr_free. wp_step. apply wp_load; [by eapply placed_ram|]. wp_step.
  by rewrite (hd_free _ _ _ (pl_hdr _ _ _ Hpl)).
Qed.
Lemma wp_hdr_next h bl b n Q :
  heap_ok h bl -> placed h b n -> Q n h -> wp (hdr_next (b_addr b)) h Q.
Proof.
  intros Hok Hpl HQ. unfold hdr_next. apply wp_load; [by eapply placed_ram|].
  by rewrite (hd_next _ _ _ (pl_hdr _ _ _ Hpl)).
Qed.

Lemma truth_bit (c : bool) : truth (if c then 1 else 0) = c.
Proof. by destruct c. Qed.

Lemma kmalloc_walk_spec size fuel : forall h l1 l2,
  heap_ok h (l1 ++ l2) -> 0 <= size -> size mod 8 = 0 ->
  wp (kmalloc_walk fuel (next_addr l2) size) h (fun p h' =>
    match search fuel size l2 with
    | None => p = 0 /\ h' = h
    | Some b => p = b_payload b /\ same_but (b_addr b) (b_end b) h h' /\
        exists m1 m2, l1 ++ l2 = m1 ++ b :: m2 /\ heap_ok h' (m1 ++ carve size b ++ m2)
    end).
Proof.
  induction fuel as [|fuel IH]; intros h l1 l2 Hok Hs Hs8; cbn [kmalloc_walk]; [by wp_step|].
  destruct l2 as [|b l2]; cbn [next_addr]; [by wp_step|].
  destruct (heap_ok_split _ _ _ _ Hok) as (Hpl & _). pose proof Hok as [].
  rewrite (proj2 (Z.eqb_neq (b_addr b) 0)) by (destruct Hpl; lia).
  wp_step. wp_step. rewrite (placed_valid _ _ _ _ Hok Hpl). cbn [negb].
  wp_step. eapply wp_hdr_magic; [done|done|]. cbn [negb Z.eqb HEAP_MAGIC Pos.eqb].
  wp_step. eapply wp_hdr_free; [done|done|]. wp_step. eapply wp_hdr_size; [done|done|].
  rewrite truth_bit. unfold search. cbn [take List.find]. unfold fits at 1.
  destruct (b_free b && (size <=? b_size b)) eqn:Ef.
  - apply andb_prop in Ef as [Ef Hle%Z.leb_le].
    eapply wp_mono; [by apply (take_block_spec h l1 b l2); [done|done|lia|done]|]. cbv beta.
    intros p h' (-> & Hok' & Hsb). split_and!; [done|done|]. by exists l1, l2.
  - wp_step. eapply wp_hdr_next; [done|done|].
    eapply wp_mono; [apply (IH h (l1 ++ [b]) l2); [by rewrite <- app_assoc|done|done]|]. cbv beta.
    intros p h'. fold (search fuel size l2). rewrite <- (app_assoc l1 [b] l2). done.
Qed.

(** [ALIGN] to a power of two rounds up. *)
Lemma align_pow2 n k : 0 <= n -> 0 <= k < 64 -> n + 2 ^ k - 1 < 2 ^ 64 ->
  ALIGN n (2 ^ k) = (n + 2 ^ k - 1) / 2 ^ k * 2 ^ k.
Proof.
  intros Hn Hk Hlt. assert (0 < 2 ^ k) by (apply Z.pow_pos_nonneg; lia).
  unfold ALIGN. rewrite u64_small by lia. set (x := n + 2 ^ k - 1).
  replace (2 ^ k - 1) with (Z.ones k) by (rewrite Z.ones_equiv; lia).
  unfold u64. change 18446744073709551616 with (2 ^ 64). rewrite <- Z.land_ones by lia. rewrite (Z.land_comm (Z.lnot _)), Z.land_assoc.
  rewrite (Z.land_ones x) by lia. rewrite Z.mod_small by (unfold x; lia).
  rewrite <- Z.ldiff_land, Z.ldiff_ones_r by lia.
  by rewrite Z.shiftl_mul_pow2, Z.shiftr_div_pow2 by lia.
Qed.

Lemma align8 n : 0 <= n -> n + 7 < 2 ^ 64 -> ALIGN n 8 = (n + 7) / 8 * 8.
Proof. intros Hn Hlt. change 8 with (2 ^ 3) at 1. rewrite align_pow2 by lia. f_equal. f_equal. lia. Qed.

Lemma round8_bounds n : 0 <= n -> n <= (n + 7) / 8 * 8 < n + 8 /\ ((n + 7) / 8 * 8) mod 8 = 0.
Proof.
  intros Hn. pose proof (Z.div_mod (n + 7) 8 ltac:(lia)). pose proof (Z.mod_pos_bound (n + 7) 8 ltac:(lia)).
  split; [lia|]. apply Z.mod_mul. lia.
Qed.

Definition round8 (n : Z) : Z := (n + 7) / 8 * 8.

Lemma kmalloc_spec h bl size :
  heap_ok h bl -> 0 < size -> size + 7 < 2 ^ 64 ->
  wp (kmalloc size) h (fun p h' =>
    match search HEAP_WALK_MAX (round8 size) bl with
    | None => p = 0 /\ h' = h
    | Some b => p = b_payload b /\ same_but (b_addr b) (b_end b) h h' /\
        exists m1 m2, bl = m1 ++ b :: m2 /\ heap_ok h' (m1 ++ carve (round8 size) b ++ m2)
    end).
Proof.
  intros Hok Hs Hlt. pose proof Hok as []. unfold kmalloc. wp_step. wp_step.
  rewrite (proj2 (Z.eqb_neq (heap_start h) 0)), (proj2 (Z.eqb_neq size 0)) by lia. cbn [orb].
  rewrite align8 by lia. fold (round8 size). destruct (round8_bounds size) as [? ?]; [lia|].
  destruct bl as [|b bl].
  { simpl in ho_chain0. unfold heap_end, HDR in *. lia. }
  replace (heap_start h) with (next_addr (b :: bl)) by by destruct ho_chain0.
  apply (kmalloc_walk_spec _ _ h []); [done|unfold round8; lia|done].
Qed.

(** ** Release *)

Definition join (b c : block) : block := mk_block (b_addr b) (b_size b + HDR + b_size c) true.

(** The merge pass over a list of blocks, with at most [fuel] steps. *)
Fixpoint merge (fuel : nat) (bl : list block) : list block :=
  match fuel, bl with
  | S fuel', b :: ((c :: rest) as tl) =>
    if b_free b && b_free c then merge fuel' (join b c :: rest) else b :: merge fuel' tl
  | _, _ => bl
  end.

Lemma heap_ok_at h l1 b l2 : heap_ok h (l1 ++ b :: l2) -> placed h b (next_addr l2).
Proof. intros H. by destruct (heap_ok_split _ _ _ _ H) as (? & _). Qed.

(** Words of live payloads: outside headers and outside the payload of free blocks. *)
Definition live_word (bl : list block) (x : Z) : Prop :=
  exists b, b ∈ bl /\ b_free b = false /\ b_payload b <= x < b_end b.

Lemma bseg_elem h l : forall a m b, bseg h a l m -> b ∈ l -> a <= b_addr b /\ b_end b <= m.
Proof.
  induction l as [|c l IH]; intros a m b; simpl; [set_solver|].
  intros (Ha & Hs & _ & _ & Hc) [->|Hb]%elem_of_cons.
  - apply bseg_le in Hc. lia.
  - destruct (IH _ _ _ Hc Hb). unfold b_end, HDR in *. lia.
Qed.

Lemma chain_elem h l : forall a m b, chain h a l m -> b ∈ l -> a <= b_addr b /\ b_end b <= m.
Proof.
  induction l as [|c l IH]; intros a m b; simpl; [set_solver|].
  intros (Ha & Hs & _ & _ & Hc) [->|Hb]%elem_of_cons.
  - apply chain_le in Hc. lia.
  - destruct (IH _ _ _ Hc Hb). unfold b_end, HDR in *. lia.
Qed.

(** Merging two neighbours in memory. *)
Lemma join_spec h l1 b c l2 :
  heap_ok h (l1 ++ b :: c :: l2) -> b_free b = true -> b_free c = true ->
  let h' := put (b_addr b + 24) (next_addr l2) (put (b_addr b + 8) (b_size b + HDR + b_size c) h) in
  heap_ok h' (l1 ++ join b c :: l2) /\ same_but (b_addr b) (b_addr b + HDR) h h'.
Proof.
  intros Hok Hb Hc h'. destruct (heap_ok_split _ _ _ _ Hok) as (Hpl & Hl1 & Hl2 & Hmod).
  destruct Hl2 as (Ec & Hcs & Hcm & Hch & Hl2). destruct Hpl as [Hlo Hhi Hal Hsz [H0 H8 H16 H24]].
  unfold b_end, HDR in *.
  assert (Hsb : same_but (b_addr b) (b_addr b + 32) h h').
  { unfold h'. repeat (eapply same_but_trans; [|apply same_but_store; lia]). apply same_but_refl. }
  split; [|done]. pose proof Hok as []. pose proof Hsb as [(E1 & E2 & E3 & E4) _]. unfold heap_end in *.
  constructor; unfold heap_end; rewrite ?E1, ?E2, ?E3, ?E4; try done.
  apply (chain_app h' l1 (join b c) l2). cbn [join b_addr]. split.
  - eapply bseg_frame; [exact Hsb| |exact Hl1]. lia.
  - cbn [chain b_addr b_size join]. split_and!; [done|unfold HDR; lia| | |].
    + intros Hne. specialize (Hmod ltac:(done)). specialize (Hcm Hne).
      apply mod8_add; [apply mod8_add; done|done].
    + unfold h'. constructor; cbn [join b_addr b_size b_free]; words; try done. by rewrite H16, Hb.
    + replace (b_end (join b c)) with (b_addr c + 32 + b_size c) by (unfold b_end, join, HDR; simpl; lia).
      eapply chain_frame; [exact Hsb| |exact Hl2]. lia.
Qed.

Lemma live_word_disjoint h l1 b l2 x :
  heap_ok h (l1 ++ b :: l2) -> b_free b = true \/ ~ (b_payload b <= x < b_end b) ->
  live_word (l1 ++ b :: l2) x -> x < b_addr b \/ b_end b <= x.
Proof.
  intros Hok Hb (c & Hc & Hcf & Hx). destruct (heap_ok_split _ _ _ _ Hok) as (Hpl & Hl1 & Hl2 & _).
  destruct Hpl as [_ _ _ Hsz _]. unfold b_payload in *.
  apply elem_of_app in Hc as [Hc|[->|Hc]%elem_of_cons].
  - destruct (bseg_elem _ _ _ _ _ Hl1 Hc). lia.
  - destruct Hb as [Hb|Hb]; [congruence|lia].
  - destruct (chain_elem _ _ _ _ _ Hl2 Hc). unfold HDR in *. lia.
Qed.

(** What merging promises: the blocks become [bl'], live data stay. *)
Definition merged (h h' : heap) (bl bl' : list block) : Prop :=
  heap_ok h' bl' /\ same_region h h' /\ forall x, live_word bl x -> word h' x = word h x.

Lemma coalesce_walk_spec fuel : forall h l1 l2,
  heap_ok h (l1 ++ l2) ->
  wp (coalesce_walk fuel (next_addr l2)) h (fun _ h' => merged h h' (l1 ++ l2) (l1 ++ merge fuel l2)).
Proof.
  induction fuel as [|fuel IH]; intros h l1 l2 Hok; cbn [coalesce_walk].
  { assert (Hret : merged h h (l1 ++ l2) (l1 ++ merge 0 l2)) by done.
    destruct l2 as [|b l2]; cbn [next_addr]; [by wp_step|].
    rewrite (proj2 (Z.eqb_neq (b_addr b) 0)) by (destruct (heap_ok_at _ _ _ _ Hok), Hok; lia).
    wp_step. eapply wp_hdr_next; [done|by eapply heap_ok_at|]. wp_step; by wp_step. }
  destruct l2 as [|b l2]; cbn [next_addr]; [by wp_step|].
  pose proof (heap_ok_at _ _ _ _ Hok) as Hb.
  rewrite (proj2 (Z.eqb_neq (b_addr b) 0)) by (destruct Hb, Hok; lia).
  wp_step. eapply wp_hdr_next; [done|done|]. destruct l2 as [|c l2]; cbn [next_addr]; [by wp_step|].
  assert (Hokc : heap_ok h ((l1 ++ [b]) ++ c :: l2)) by by rewrite <- app_assoc.
  pose proof (heap_ok_at _ _ _ _ Hokc) as Hc.
  rewrite (proj2 (Z.eqb_neq (b_addr c) 0)) by (destruct Hc, Hok; lia).
  wp_step. wp_step. wp_step. wp_step. rewrite (placed_valid _ _ _ _ Hok Hb), (placed_valid _ _ _ _ Hokc Hc).
  cbn [negb orb]. wp_step. eapply wp_hdr_magic; [done|done|]. wp_step. eapply wp_hdr_magic; [done|done|].
  cbn [negb orb Z.eqb HEAP_MAGIC Pos.eqb].
  wp_step. eapply wp_hdr_free; [exact Hok|exact Hb|]. wp_step. eapply wp_hdr_free; [exact Hokc|exact Hc|].
  rewrite !truth_bit. cbn [merge]. destruct (b_free b && b_free c) eqn:Ef.
  - apply andb_prop in Ef as [Ebf Ecf]. wp_step. eapply wp_hdr_size; [exact Hok|exact Hb|].
    wp_step. eapply wp_hdr_size; [exact Hokc|exact Hc|].
    destruct (join_spec h l1 b c l2 Hok Ebf Ecf) as [Hok' Hsb].
    pose proof Hok as []. pose proof Hb as [? Hbe ? ? ?]. pose proof Hc as [? Hce ? ? ?].
    unfold b_end, heap_end, HDR in Hbe, Hce. unfold HDR at 1.
    rewrite (u64_small (32 + b_size c)) by (unfold heap_end, HDR in *; lia).
    rewrite (u64_small (b_size b + (32 + b_size c))) by (unfold heap_end, HDR in *; lia).
    wp_step. apply wp_store; [by eapply placed_ram|]. wp_step. unfold hdr_next. apply wp_load.
    { rewrite in_ram_store. by eapply placed_ram. }
    rewrite word_store, decide_False, (hd_next _ _ _ (pl_hdr _ _ _ Hc)).
    2: { destruct (heap_ok_split _ _ _ _ Hok) as (_ & _ & (-> & _) & _). unfold b_end, HDR. lia. }
    wp_step. apply wp_store; [rewrite in_ram_store; by eapply placed_ram|].
    replace (b_size b + (32 + b_size c)) with (b_size b + HDR + b_size c) by (unfold HDR; lia).
    set (h' := put _ _ _) in *. eapply wp_mono; [apply (IH h' l1 (join b c :: l2) Hok')|]. cbv beta.
    intros _ h2 (H2 & Hreg & Hlive). split_and!; [exact H2| |].
    + destruct Hsb as [(?&?&?&?) _], Hreg as (?&?&?&?). split_and!; congruence.
    + intros x Hx. rewrite Hlive.
      * apply Hsb. destruct (live_word_disjoint _ l1 b (c :: l2) x Hok ltac:(by left) Hx); [lia|].
        unfold b_end, HDR in *. lia.
      * destruct Hx as (d & Hd & Hdf & Hx). exists d. split_and!; try done; try lia.
        rewrite elem_of_app in *. rewrite !elem_of_cons in *. naive_solver congruence.
  - eapply wp_mono; [apply (IH h (l1 ++ [b]) (c :: l2) Hokc)|]. cbv beta. intros _ h2.
    by rewrite <- !app_assoc.
Qed.

Definition release (b : block) : block := mk_block (b_addr b) (b_size b) true.

Lemma live_app l1 b l2 x : live_word (l1 ++ l2) x -> live_word (l1 ++ b :: l2) x.
Proof. intros (c & Hc & ?). exists c. split; [|done]. rewrite elem_of_app in *. rewrite elem_of_cons. tauto. Qed.

Lemma coalesce_spec h bl :
  heap_ok h bl -> wp coalesce h (fun _ h' => merged h h' bl (merge HEAP_WALK_MAX bl)).
Proof.
  intros Hok. unfold coalesce. wp_step. wp_step. pose proof Hok as [? _ _ _ Ht Hc].
  destruct bl as [|d dl]; [simpl in Hc; unfold heap_end, HDR in *; lia|].
  replace (heap_start h) with (next_addr (d :: dl)) by (destruct Hc as (E & _); exact E).
  apply (coalesce_walk_spec HEAP_WALK_MAX h [] (d :: dl) Hok).
Qed.

(** What a release promises: the block is free and merged, the data of the others stay. *)
Definition released (h : heap) (l1 : list block) (b : block) (l2 : list block) (h' : heap) : Prop :=
  heap_ok h' (merge HEAP_WALK_MAX (l1 ++ release b :: l2)) /\ same_region h h' /\
  forall x, live_word (l1 ++ release b :: l2) x -> word h' x = word h x.

Lemma kfree_hdr_spec h l1 b l2 :
  heap_ok h (l1 ++ b :: l2) -> b_free b = false -> wp (kfree_hdr (b_addr b)) h (fun _ h' => released h l1 b l2 h').
Proof.
  intros Hok Hf. destruct (heap_ok_split _ _ _ _ Hok) as (Hpl & Hl1 & Hl2 & Hmod).
  pose proof Hok as []. pose proof Hpl as [Hlo Hhi Hal Hsz Hhdr]. unfold b_payload, b_end, heap_end, HDR in *.
  unfold kfree_hdr. wp_step. wp_step. rewrite (placed_valid _ _ _ _ Hok Hpl). cbn [negb].
  wp_step. eapply wp_hdr_magic; [done|done|]. cbn [negb Z.eqb HEAP_MAGIC Pos.eqb].
  wp_step. eapply wp_hdr_free; [done|done|]. rewrite Hf. cbn [truth negb Z.eqb]. wp_step.
  apply wp_set_free; [by eapply placed_ram|]. set (h1 := put _ _ h).
  assert (Hsb : same_but (b_addr b) (b_addr b + 32) h h1) by (apply same_but_store; lia).
  assert (Hok1 : heap_ok h1 (l1 ++ release b :: l2)).
  { apply (heap_ok_replace h h1 l1 b l2 (release b) []); [done| |done|].
    - eapply same_but_weaken; [| |exact Hsb]; unfold b_end, HDR; lia.
    - intros Hc. cbn [app chain release b_addr b_size]. split_and!; try done.
      destruct Hhdr as [E0 E8 E16 E24]. unfold h1. constructor; cbn [release b_addr b_size b_free]; words; try done.
      by rewrite u32_low by lia. }
  eapply wp_mono; [apply (coalesce_spec h1 _ Hok1)|]. intros _ h2 (H2 & Hreg & Hlive). split; [exact H2|split].
  - destruct Hsb as [(?&?&?&?) _], Hreg as (?&?&?&?). split_and!; congruence.
  - intros x Hx. rewrite Hlive by done. apply Hsb.
    destruct (live_word_disjoint _ _ _ _ _ Hok1 ltac:(by left) Hx) as [H|H]; [by left|right].
    unfold b_end, release, HDR in H. simpl in H. lia.
Qed.

Lemma kfree_spec h l1 b l2 :
  heap_ok h (l1 ++ b :: l2) -> b_free b = false -> 0 < b_size b ->
  wp (kfree (b_payload b)) h (fun _ h' => released h l1 b l2 h').
Proof.
  intros Hok Hf Hpos. destruct (heap_ok_split _ _ _ _ Hok) as (Hpl & Hl1 & Hl2 & Hmod).
  pose proof Hok as []. pose proof Hpl as [Hlo Hhi Hal Hsz Hhdr].
  unfold b_payload, b_end, heap_end, HDR in *.
  unfold kfree, HDR, PTR. wp_step. wp_step. wp_step. wp_step. rewrite (u64_small (heap_start h + 32)) by lia.
  rewrite (u64_small (heap_start h + heap_total h + 32)) by lia.
  rewrite (proj2 (Z.eqb_neq (b_addr b + 32) 0)), (proj2 (Z.eqb_neq (heap_start h) 0)) by lia.
  rewrite (proj2 (Z.ltb_ge (b_addr b + 32) _)), (proj2 (Z.leb_gt _ (b_addr b + 32))) by lia. cbn [orb].
  replace (b_addr b + 32 - 32) with (b_addr b) by lia.
  wp_step. wp_step. rewrite (placed_valid _ _ _ _ Hok Hpl). wp_step. wp_step.
  eapply wp_hdr_magic; [done|done|]. wp_step. cbn [Z.eqb HEAP_MAGIC Pos.eqb]. by apply kfree_hdr_spec.
Qed.
