(* ===== verification/KmallocProps.v ===== *)
(** * Properties of the kernel heap *)

From S2P Require Import Prelude Kmalloc KmallocInv.

(** ** The merge pass *)

(** No two neighbours are both free. *)
Fixpoint no_adjacent (bl : list block) : Prop :=
  match bl with
  | b :: ((c :: _) as tl) => ~ (b_free b = true /\ b_free c = true) /\ no_adjacent tl
  | _ => True
  end.

Lemma merge_no_adjacent fuel : forall bl, (length bl <= S fuel)%nat -> no_adjacent (merge fuel bl).
Proof.
  assert (Hhead : forall fuel b bl, exists b' bl', merge fuel (b :: bl) = b' :: bl' /\ b_free b' = b_free b).
  { induction fuel0 as [|f IH]; intros b bl; simpl; [by eauto|]. destruct bl as [|c bl]; [by eauto|].
    destruct (b_free b && b_free c) eqn:E; [|by eauto].
    destruct (IH (join b c) bl) as (b' & bl' & -> & Hf). apply andb_prop in E as [-> _]. by eauto. }
  induction fuel as [|fuel IH]; intros bl Hl; simpl.
  - destruct bl as [|b [|c bl]]; simpl in *; [done|done|lia].
  - destruct bl as [|b [|c bl]]; [done|done|]. simpl in Hl. destruct (b_free b && b_free c) eqn:E.
    + apply IH. simpl. lia.
    + pose proof (IH (c :: bl) ltac:(simpl; lia)) as H.
      destruct (Hhead fuel c bl) as (c' & bl' & Em & Hf). rewrite Em in *. split; [|done].
      rewrite Hf. intros [Hb Hc]. by rewrite Hb, Hc in E.
Qed.

Lemma merge_id fuel : forall bl, no_adjacent bl -> merge fuel bl = bl.
Proof.
  induction fuel as [|fuel IH]; intros bl H; simpl; [done|].
  destruct bl as [|b [|c bl]]; [done|done|]. destruct H as [Hn H].
  destruct (b_free b) eqn:Eb, (b_free c) eqn:Ec; simpl; try (f_equal; by apply IH). naive_solver.
Qed.

Lemma merge_prefix l1 : forall fuel b l2,
  no_adjacent (l1 ++ [b]) -> merge (length l1 + fuel) (l1 ++ b :: l2) = l1 ++ merge fuel (b :: l2).
Proof.
  induction l1 as [|a l1 IH]; intros fuel b l2 H; [done|]. cbn [length Nat.add app].
  assert (Hhd : exists c r, l1 ++ b :: l2 = c :: r /\ ~ (b_free a = true /\ b_free c = true) /\ no_adjacent (l1 ++ [b])).
  { destruct l1 as [|c l1]; simpl in *; [naive_solver|]. destruct H as [H1 H2]. eauto. }
  destruct Hhd as (c & r & Er & Hn & H'). rewrite <- (IH fuel b l2 H'), Er. cbn [merge].
  destruct (b_free a) eqn:Ea, (b_free c) eqn:Ec; simpl; try done. naive_solver.
Qed.

Lemma no_adjacent_app l1 b l2 : no_adjacent (l1 ++ b :: l2) -> no_adjacent (l1 ++ [b]) /\ no_adjacent (b :: l2).
Proof.
  induction l1 as [|a l1 IH]; intros H; [done|]. destruct l1 as [|c l1]; cbn [app no_adjacent] in *.
  - destruct H as [H1 H2]. done.
  - destruct H as [H1 H2]. destruct (IH H2). done.
Qed.

(** Releasing what was just carved out of [b] gives the block list back. *)
Lemma merge_carve l1 b l2 size d :
  no_adjacent (l1 ++ b :: l2) -> b_free b = true -> 0 < size <= b_size b ->
  (length (l1 ++ b :: l2) < HEAP_WALK_MAX)%nat ->
  carve size b = d :: tail (carve size b) ->
  merge HEAP_WALK_MAX (l1 ++ release d :: tail (carve size b) ++ l2) = l1 ++ b :: l2.
Proof.
  intros Hna Hf Hs Hlen Ed. destruct (no_adjacent_app _ _ _ Hna) as [H1 H2].
  rewrite length_app in Hlen. cbn [length] in Hlen.
  unfold carve in *. destruct (size + HDR + MIN_SPLIT <=? b_size b) eqn:E; cbn [tail] in *.
  - injection Ed as <-. unfold release. cbn [b_addr b_size].
    set (b1 := mk_block (b_addr b) size true). set (b2 := mk_block _ _ true). cbn [app].
    destruct (Nat.le_exists_sub (length l1) HEAP_WALK_MAX) as (f & Ef & _); [lia|].
    rewrite Nat.add_comm in Ef. rewrite Ef, (merge_prefix l1).
    + f_equal. destruct f as [|f]; [lia|]. cbn [merge b1 b2 b_free andb].
      replace (join b1 b2) with b; [by apply merge_id|].
      unfold join, b1, b2. destruct b as [a sz fr]. simpl in *. subst fr. f_equal. unfold HDR. lia.
    + clear -H1 Hf. induction l1 as [|a [|c l1] IH]; [done| |]; cbn [app no_adjacent] in *.
      * by rewrite Hf in H1.
      * destruct H1. split; [done|by apply IH].
  - injection Ed as <-. unfold release. cbn [b_addr b_size app].
    replace (mk_block (b_addr b) (b_size b) true) with b by (destruct b; simpl in *; by subst).
    by apply merge_id.
Qed.

(** ** Free space *)

Fixpoint free_space (bl : list block) : Z :=
  match bl with [] => 0 | b :: bl' => (if b_free b then b_size b else 0) + free_space bl' end.

Lemma chain_space h : forall bl a lim,
  chain h a bl lim -> 0 <= free_space bl /\ free_space bl + HDR * zlen bl <= lim - a.
Proof.
  induction bl as [|b bl IH]; intros a lim; simpl; [lia|].
  intros (Ha & Hs & _ & _ & Hc). apply IH in Hc. unfold b_end, HDR in *. destruct (b_free b); lia.
Qed.

Lemma free_walk_spec h : forall l2 l1 fuel acc,
  heap_ok h (l1 ++ l2) -> (length l2 <= fuel)%nat -> 0 <= acc -> acc + free_space l2 < 2 ^ 32 ->
  heap_free_walk fuel (next_addr l2) acc h = Done (acc + free_space l2, h).
Proof.
  induction l2 as [|b l2 IH]; intros l1 fuel acc Hok Hf Ha Hlt.
  - simpl. rewrite Z.add_0_r. by destruct fuel.
  - destruct fuel as [|fuel]; [simpl in Hf; lia|]. pose proof (heap_ok_at _ _ _ _ Hok) as Hpl.
    cbn [heap_free_walk next_addr].
    rewrite (proj2 (Z.eqb_neq (b_addr b) 0)) by (destruct Hpl, Hok; lia).
    assert (H16 : hdr_free (b_addr b) h = Done (if b_free b then 1 else 0, h)).
    { destruct (wp_inv _ _ _ (wp_hdr_free _ _ _ _ (fun v h' => v = (if b_free b then 1 else 0) /\ h' = h) Hok Hpl
        (conj eq_refl eq_refl))) as (v & h' & E & -> & ->). done. }
    assert (H8 : hdr_size (b_addr b) h = Done (b_size b, h)).
    { destruct (wp_inv _ _ _ (wp_hdr_size _ _ _ _ (fun v h' => v = b_size b /\ h' = h) Hok Hpl
        (conj eq_refl eq_refl))) as (v & h' & E & -> & ->). done. }
    assert (H24 : hdr_next (b_addr b) h = Done (next_addr l2, h)).
    { destruct (wp_inv _ _ _ (wp_hdr_next _ _ _ _ (fun v h' => v = next_addr l2 /\ h' = h) Hok Hpl
        (conj eq_refl eq_refl))) as (v & h' & E & -> & ->). done. }
    rewrite (bind_Done _ _ _ _ _ H16), (bind_Done _ _ _ _ _ H8), (bind_Done _ _ _ _ _ H24), truth_bit.
    pose proof (pl_size _ _ _ Hpl) as Hsz. simpl in Hlt |- *.
    destruct (heap_ok_split _ _ _ _ Hok) as (_ & _ & Hl2 & _). apply chain_space in Hl2 as [Hfs _].
    rewrite (IH (l1 ++ [b])); [|by rewrite <- app_assoc|simpl in Hf; lia| |].
    + destruct (b_free b); [rewrite u32_small by lia|]; do 2 f_equal; lia.
    + destruct (b_free b); [rewrite u32_small|]; lia.
    + destruct (b_free b); [rewrite u32_small|]; lia.
Qed.

(** ** Main properties *)

Lemma demo_heap_ok : heap_ok demo_heap [mk_block 0x1010 0xFD8 true].
Proof. by constructor; vm_compute. Qed.

(** C4: Allocation is first fit and safe: it walks the header list without an
    access outside the heap, and either no block of the first 65536 is free
    and large enough, and it returns NULL leaving memory as it was, or it
    returns the payload of the first such block.  That payload is 8-aligned,
    holds the request, lies in the heap and is disjoint from every block in
    use; only the chosen block is written, and the header list stays well
    formed with the block marked in use and its tail split off. *)
Theorem kmalloc_first_fit h bl size :
  heap_ok h bl -> 0 < size -> size + 7 < 2 ^ 64 ->
  wp (kmalloc size) h (fun p h' =>
    match search HEAP_WALK_MAX (round8 size) bl with
    | None => p = 0 /\ h' = h
    | Some b => p = b_payload b /\ p mod 8 = 0 /\ size <= b_size b /\
        heap_start h <= b_addr b /\ b_end b <= heap_end h /\
        (forall x, live_word bl x -> (x < b_addr b \/ b_end b <= x) /\ word h' x = word h x) /\
        exists m1 m2, bl = m1 ++ b :: m2 /\ heap_ok h' (m1 ++ carve (round8 size) b ++ m2)
    end).
Proof.
  intros Hok Hs Hlt. eapply wp_mono; [by apply kmalloc_spec|]. cbv beta. intros p h'.
  destruct (search HEAP_WALK_MAX (round8 size) bl) as [b|] eqn:Es; [|done].
  intros (-> & Hsb & m1 & m2 & -> & Hok'). destruct (heap_ok_at _ _ _ _ Hok) as [? ? ? ? ?].
  apply List.find_some in Es as [_ [Hfree Hfit%Z.leb_le]%andb_prop].
  destruct (round8_bounds size ltac:(lia)) as [[? _] _]. fold (round8 size) in *.
  split_and!; try done; try lia.
  - unfold b_payload. by apply mod8_add.
  - intros x Hx. pose proof (live_word_disjoint _ _ _ _ _ Hok ltac:(by left) Hx) as Hd.
    split; [done|]. by apply Hsb.
  - by exists m1, m2.
Qed.

Lemma walk_max_pos : (0 < HEAP_WALK_MAX)%nat.
Proof. pose proof HEAP_WALK_MAX_Z. lia. Qed.

Lemma search_head fuel size b bl : (0 < fuel)%nat -> fits size b = true -> search fuel size (b :: bl) = Some b.
Proof. intros Hf Hb. destruct fuel; [lia|]. unfold search. simpl. by rewrite Hb. Qed.

Lemma kmalloc_first_fit_witness :
  wp (kmalloc 100) demo_heap (fun p h' => p = 0x1030).
Proof.
  eapply wp_mono; [apply (kmalloc_first_fit demo_heap _ 100 demo_heap_ok); lia|].
  cbv beta. rewrite (search_head HEAP_WALK_MAX) by (apply walk_max_pos || done).
  by intros p h' (-> & _).
Defined.

(** Releasing an allocated block marks it free and merges neighbouring free
    blocks; the header list stays well formed, the data of all other blocks
    in use are untouched, and in a heap of at most 65536 blocks no two
    neighbouring blocks are both free afterwards. *)
Theorem kfree_merges h l1 b l2 :
  heap_ok h (l1 ++ b :: l2) -> b_free b = false -> 0 < b_size b ->
  wp (kfree (b_payload b)) h (fun _ h' =>
    exists bl', heap_ok h' bl' /\ bl' = merge HEAP_WALK_MAX (l1 ++ release b :: l2) /\
    ((length (l1 ++ b :: l2) <= HEAP_WALK_MAX)%nat -> no_adjacent bl') /\
    forall x, live_word (l1 ++ release b :: l2) x -> word h' x = word h x).
Proof.
  intros Hok Hf Hs. eapply wp_mono; [by apply kfree_spec|]. cbv beta. intros _ h' (Hok' & _ & Hl).
  eexists. split; [exact Hok'|]. split; [done|]. split; [|done]. intros Hlen. apply merge_no_adjacent.
  rewrite length_app in *. cbn [length] in *. lia.
Qed.

Definition demo_heap1 : heap :=
  match kmalloc 100 demo_heap with Done (_, h) => h | Fault => demo_heap end.

Lemma demo_heap1_ok : heap_ok demo_heap1 [mk_block 0x1010 104 false; mk_block 0x1098 0xF50 true].
Proof. by constructor; vm_compute. Qed.

Lemma kfree_merges_witness :
  wp (kfree 0x1030) demo_heap1 (fun _ h' => exists bl', heap_ok h' bl' /\
    bl' = merge HEAP_WALK_MAX ([] ++ release (mk_block 0x1010 104 false) :: [mk_block 0x1098 0xF50 true])).
Proof.
  eapply wp_mono; [apply (kfree_merges demo_heap1 [] (mk_block 0x1010 104 false) [mk_block 0x1098 0xF50 true]);
    [exact demo_heap1_ok|done|done]|].
  cbv beta. intros _ h' (bl' & ? & ? & _). by exists bl'.
Defined.

(** Allocating and releasing at once is without trace: from a heap whose free
    blocks are merged, a successful allocation followed by the release of the
    returned pointer gives the same block list back, so nothing leaks and
    nothing fragments. *)
Theorem kmalloc_kfree_roundtrip h bl size p h1 :
  heap_ok h bl -> no_adjacent bl -> (length bl < HEAP_WALK_MAX)%nat ->
  0 < size -> size + 7 < 2 ^ 64 -> kmalloc size h = Done (p, h1) -> p <> 0 ->
  wp (kfree p) h1 (fun _ h2 => heap_ok h2 bl).
Proof.
  intros Hok Hna Hlen Hs Hlt E Hp. pose proof (wp_run _ _ _ _ _ (kmalloc_spec h bl size Hok Hs Hlt) E) as H.
  destruct (search HEAP_WALK_MAX (round8 size) bl) as [b|] eqn:Es; [|by destruct H].
  destruct H as (-> & _ & m1 & m2 & -> & Hok1).
  apply List.find_some in Es as [_ [Hfree Hfit%Z.leb_le]%andb_prop].
  destruct (round8_bounds size ltac:(lia)) as [[? _] _]. fold (round8 size) in *.
  assert (Hd : exists d, carve (round8 size) b = d :: tail (carve (round8 size) b) /\ b_payload d = b_payload b /\
               b_free d = false /\ 0 < b_size d).
  { unfold carve. destruct (_ <=? _); eexists; (split; [done|]); simpl; split_and!; try done; lia. }
  destruct Hd as (d & Ed & Epay & Edf & Eds). rewrite <- Epay. rewrite Ed in Hok1. cbn [app] in Hok1.
  eapply wp_mono; [by apply kfree_spec|]. cbv beta. intros _ h2 (Hok2 & _).
  rewrite (merge_carve m1 b m2 (round8 size) d) in Hok2; try done. lia.
Qed.

Lemma kmalloc_kfree_roundtrip_witness :
  wp (kfree 0x1030) demo_heap1 (fun _ h2 => heap_ok h2 [mk_block 0x1010 0xFD8 true]).
Proof.
  apply (kmalloc_kfree_roundtrip demo_heap [mk_block 0x1010 0xFD8 true] 100 0x1030 demo_heap1 demo_heap_ok);
    [done|pose proof HEAP_WALK_MAX_Z; simpl; lia|lia|lia|by vm_compute|done].
Defined.

Lemma heap_bytes_sum h bl fuel :
  heap_ok h bl -> (length bl <= fuel)%nat ->
  heap_free_bytes fuel h = Done (free_space bl, h) /\
  heap_used_bytes fuel h = Done (heap_total h - free_space bl, h).
Proof.
  intros Hok Hf. pose proof Hok as []. pose proof (chain_space _ _ _ _ ho_chain) as [Hpos Hle].
  unfold heap_end, HDR in Hle. destruct bl as [|b bl]; [simpl in ho_chain; unfold heap_end, HDR in *; lia|].
  assert (Hlen : 1 <= zlen (b :: bl)) by (simpl; lia).
  assert (Hw : heap_free_bytes fuel h = Done (free_space (b :: bl), h)).
  { unfold heap_free_bytes. rewrite bind_gets.
    replace (heap_start h) with (next_addr (b :: bl)) by (destruct ho_chain as (E & _); exact E).
    rewrite (free_walk_spec h (b :: bl) [] fuel 0); [done|done|done|lia|lia]. }
  split; [done|]. unfold heap_used_bytes. rewrite bind_gets, (bind_Done _ _ _ _ _ Hw).
  unfold ret. by rewrite u32_small by lia.
Qed.

(** The statistics add up: in a heap, the free bytes reported are the sizes of the
    free blocks (the sum does not overflow its 32 bits), and free and used
    bytes make up the heap. *)
Theorem heap_bytes_exact h bl fuel :
  heap_ok h bl -> (length bl <= fuel)%nat ->
  heap_free_bytes fuel h = Done (free_space bl, h) /\
  heap_used_bytes fuel h = Done (heap_total h - free_space bl, h).
Proof. apply heap_bytes_sum. Qed.

Lemma heap_bytes_exact_witness :
  heap_free_bytes 5 demo_heap1 = Done (0xF50, demo_heap1) /\
  heap_used_bytes 5 demo_heap1 = Done (0xFD8 - 0xF50, demo_heap1).
Proof.
  apply (heap_bytes_exact demo_heap1 _ 5 demo_heap1_ok); vm_compute; lia.
Defined.

(** A run that frees two neighbours, allocates an aligned object over the stale
    header of the second, and releases it again. *)
Definition stale_header_run : M heap (list Z) :=
  let* a := kmalloc 48 in
  let* b := kmalloc 256 in
  do* kfree a in
  do* kfree b in
  let* before := heap_free_bytes 100 in
  let* c := kmalloc_aligned 64 128 in
  do* kfree c in
  let* after := heap_free_bytes 100 in
  ret [b; c; before; after].

(** A pointer from [kmalloc_aligned] can fail to be released: [kfree] first looks
    for a header right before the pointer, and a header left there by a merged
    block (marked free) makes it return without doing anything, so the memory
    is lost. *)
Theorem aligned_free_leaks :
  wp stale_header_run demo_heap (fun r _ =>
    exists b c before after, r = [b; c; before; after] /\ b = c /\ c <> 0 /\ after < before).
Proof. vm_compute. do 4 eexists. by split_and!. Qed.
