(* ===== verification/Sched.v ===== *)
(** * The task scheduler (src/src/sched.c, src/src/sched.h)

    The task pool, the circular run queue and the tick handler.  A task pointer
    is its index in [task_pool]; [None] is NULL.  The part of sched.c that
    creates and terminates tasks needs the descriptor layer and the heap and is
    in [Process].  [context_switch] is the assembly routine of boot.s: the model
    records each call in [switches].  Interrupt masking is not represented:
    every operation here runs with interrupts off, so it is one atomic step. *)

From S2P Require Import Prelude.

(** ** Data *)

Definition TASK_MAX : nat := 16.
Definition TASK_STACK_SIZE : Z := 4096.
Definition TASK_FD_MAX : Z := 32.
Definition ATM_NATIVE_DIR_MAX : Z := 16.
Definition TASK_NO_PARENT : Z := 0xFFFFFFFF.
Definition TASK_WAIT_ANY : Z := 0xFFFFFFFF.
Definition TASK_WAIT_NOHANG : Z := 1.
Definition TASK_ERR_ECHILD : Z := 10.
Definition TASK_ERR_EINVAL : Z := 22.
Definition QUANTUM_BASE : Z := 2.

Inductive task_state := TASK_UNUSED | TASK_READY | TASK_RUNNING | TASK_BLOCKED | TASK_ZOMBIE.

#[export] Instance task_state_eq_dec : EqDecision task_state.
Proof. solve_decision. Defined.

Record cpu_context := mk_cpu_context {
  c_r15 : Z; c_r14 : Z; c_r13 : Z; c_r12 : Z; c_rbp : Z; c_rbx : Z;
  c_rsp : Z; c_rip : Z; c_rflags : Z; c_cr3 : Z }.

Definition zero_context : cpu_context := mk_cpu_context 0 0 0 0 0 0 0 0 0 0.

Record task := mk_task {
  t_pid : Z; t_ppid : Z; t_pgid : Z; t_sid : Z; t_uid : Z; t_gid : Z;
  t_cwd : cstr; t_umask_value : Z; t_name : cstr;
  t_state : task_state; t_ctx : cpu_context;
  t_stack_base : Z; t_stack_size : Z;
  t_ticks : Z; t_created_ticks : Z; t_state_changed_ticks : Z;
  t_resident_bytes : Z; t_io_read_bytes : Z; t_io_write_bytes : Z;
  t_context_switches : Z; t_priority : Z;
  t_exit_code : Z; t_exit_signal : Z; t_pending_signal : Z;
  t_wait_target : Z; t_wait_active : Z;
  t_address_space : Z; t_user_entry : Z; t_user_stack_top : Z;
  t_user_brk_base : Z; t_user_brk : Z;
  t_linux_fs_base : Z; t_linux_clear_tid : Z;
  t_fd_map : list Z; t_socket_map : list Z; t_pipe_map : list Z;
  t_fd_flags : list Z; t_dir_map : list Z; t_fd_table_ready : Z;
  t_next : option nat }.

#[export] Instance eta_task : Eta task := fun t => mk_task
  (t_pid t) (t_ppid t) (t_pgid t) (t_sid t) (t_uid t) (t_gid t)
  (t_cwd t) (t_umask_value t) (t_name t) (t_state t) (t_ctx t)
  (t_stack_base t) (t_stack_size t) (t_ticks t) (t_created_ticks t)
  (t_state_changed_ticks t) (t_resident_bytes t) (t_io_read_bytes t)
  (t_io_write_bytes t) (t_context_switches t) (t_priority t) (t_exit_code t)
  (t_exit_signal t) (t_pending_signal t) (t_wait_target t) (t_wait_active t)
  (t_address_space t) (t_user_entry t) (t_user_stack_top t)
  (t_user_brk_base t) (t_user_brk t) (t_linux_fs_base t) (t_linux_clear_tid t)
  (t_fd_map t) (t_socket_map t) (t_pipe_map t) (t_fd_flags t) (t_dir_map t)
  (t_fd_table_ready t) (t_next t).

(** A task structure cleared by [kmemset]. *)
Definition zero_task : task := mk_task
  0 0 0 0 0 0 [] 0 [] TASK_UNUSED zero_context 0 0 0 0 0 0 0 0 0 0 0 0 0 0 0
  0 0 0 0 0 0 0 (replicate 32 0) (replicate 32 0) (replicate 32 0)
  (replicate 32 0) (replicate 16 0) 0 None.

Record sleep_meta_t := mk_sleep { sl_deadline : Z; sl_active : Z }.

Record sched := mk_sched {
  task_pool : list task;
  current_task : option nat;
  run_queue_head : option nat;
  next_pid : Z;
  uptime_ticks : Z;
  idle_ticks : Z;
  sleep_meta : list sleep_meta_t;
  quantum_counter : Z;
  msr_fs_base : Z;
  switches : list (nat * nat) }.

#[export] Instance eta_sched : Eta sched := fun s => mk_sched
  (task_pool s) (current_task s) (run_queue_head s) (next_pid s) (uptime_ticks s)
  (idle_ticks s) (sleep_meta s) (quantum_counter s) (msr_fs_base s) (switches s).

(** ** Access to the pool *)

Definition get_task (i : nat) : M sched task := deref (fun s => task_pool s !! i).

Definition mod_task (i : nat) (f : task -> task) : M sched unit := fun s =>
  match task_pool s !! i with
  | Some _ => Done (tt, s <| task_pool := alter f i (task_pool s) |>)
  | None => Fault
  end.

Definition task_state_at (s : sched) (i : nat) : task_state :=
  match task_pool s !! i with Some t => t_state t | None => TASK_UNUSED end.

(** ** Helpers of sched.c *)

Definition sleep_cancel_task (i : nat) : M sched unit :=
  modify (fun s => s <| sleep_meta := <[i := mk_sleep 0 0]> (sleep_meta s) |>).

Fixpoint queue_add_walk (seen : nat) (t tail : nat) : M sched Z :=
  match seen with
  | O => ret (-1)
  | S seen' =>
    let* tl := get_task tail in
    match t_next tl with
    | None => ret (-1)
    | Some nx =>
      let* h := gets run_queue_head in
      if decide (Some nx = h) then
        do* mod_task tail (fun x => x <| t_next := Some t |>) in
        do* mod_task t (fun x => x <| t_next := h |>) in
        ret 0
      else queue_add_walk seen' t nx
    end
  end.

Definition queue_add (t : nat) : M sched Z :=
  let* h := gets run_queue_head in
  match h with
  | None =>
    do* modify (fun s => s <| run_queue_head := Some t |>) in
    do* mod_task t (fun x => x <| t_next := Some t |>) in
    ret 0
  | Some h0 => queue_add_walk TASK_MAX t h0
  end.

Fixpoint queue_remove_walk (seen : nat) (t prev : nat) : M sched unit :=
  match seen with
  | O => ret tt
  | S seen' =>
    let* pv := get_task prev in
    match t_next pv with
    | None => ret tt
    | Some nx =>
      if decide (nx = t) then
        let* tt' := get_task t in
        do* mod_task prev (fun x => x <| t_next := t_next tt' |>) in
        let* h := gets run_queue_head in
        (* read again: prev may be t itself *)
        let* tt'' := get_task t in
        do* (if decide (h = Some t)
             then modify (fun s => s <| run_queue_head := t_next tt'' |>)
             else ret tt) in
        mod_task t (fun x => x <| t_next := None |>)
      else
        let* h := gets run_queue_head in
        if decide (Some nx = h) then ret tt else queue_remove_walk seen' t nx
    end
  end.

Definition queue_remove (t : nat) : M sched unit :=
  let* h := gets run_queue_head in
  match h with
  | None => ret tt
  | Some h0 =>
    let* x := get_task t in
    if decide (h0 = t /\ (t_next x = None \/ t_next x = Some t)) then
      do* modify (fun s => s <| run_queue_head := None |>) in
      mod_task t (fun y => y <| t_next := None |>)
    else queue_remove_walk TASK_MAX t h0
  end.

Definition task_lookup_pid (s : sched) (pid : Z) : option nat :=
  fst <$> list_find (fun t => t_state t <> TASK_UNUSED /\ t_pid t = pid) (task_pool s).

Definition sched_init (uid gid : Z) (s : sched) : sched :=
  let idle := zero_task
    <| t_uid := uid |> <| t_gid := gid |> <| t_cwd := cs "/" |>
    <| t_umask_value := 0x12 |> <| t_name := cs "idle" |>
    <| t_state := TASK_READY |> <| t_priority := 1 |> in
  mk_sched (idle :: replicate 15 zero_task) (Some O) None 1 0 0
    (replicate TASK_MAX (mk_sleep 0 0)) (quantum_counter s) (msr_fs_base s) (switches s).

(** ** Blocking, waking, switching *)

Definition task_unblock (t : nat) : M sched unit :=
  let* x := get_task t in
  if decide (t_state x = TASK_BLOCKED) then
    let* up := gets uptime_ticks in
    do* mod_task t (fun y => y <| t_state := TASK_READY |> <| t_state_changed_ticks := up |>) in
    let* r := queue_add t in
    if r <? 0
    then mod_task t (fun y => y <| t_state := TASK_BLOCKED |> <| t_state_changed_ticks := up |>)
    else ret tt
  else ret tt.

(** The common tail of a switch: [next] becomes current and running ... *)
Definition run_next (next : nat) : M sched unit :=
  do* modify (fun s => s <| current_task := Some next |>) in
  let* up := gets uptime_ticks in
  mod_task next (fun y => y <| t_state := TASK_RUNNING |> <| t_state_changed_ticks := up |>
                            <| t_context_switches := u32 (t_context_switches y + 1) |>).

(** ... its FS base is loaded and the CPU context changes from [old] to [next]. *)
Definition switch_to (old next : nat) : M sched unit :=
  do* run_next next in
  let* n := get_task next in
  do* modify (fun s => s <| msr_fs_base :=
        if t_address_space n =? 0 then 0 else t_linux_fs_base n |>) in
  modify (fun s => s <| switches := (old, next) :: switches s |>).

(** The bounded scan for a READY task used when the current one goes off. *)
Fixpoint ready_scan (seen : nat) (scan : nat) : M sched (option nat) :=
  match seen with
  | O => ret None
  | S seen' =>
    let* x := get_task scan in
    if decide (t_state x = TASK_READY) then ret (Some scan)
    else
      let* h := gets run_queue_head in
      match t_next x with
      | None => ret None
      | Some nx => if decide (Some nx = h) then ret None else ready_scan seen' nx
      end
  end.

Definition pick_successor : M sched nat :=
  let* h := gets run_queue_head in
  match h with
  | None => ret O
  | Some h0 =>
    let* r := ready_scan TASK_MAX h0 in
    ret (default O r)
  end.

Definition task_block_from_syscall : M sched unit :=
  let* cur := gets current_task in
  match cur with
  | None => ret tt
  | Some old =>
    let* o := get_task old in
    if t_pid o =? 0 then ret tt
    else
      let* up := gets uptime_ticks in
      do* mod_task old (fun y => y <| t_state := TASK_BLOCKED |> <| t_state_changed_ticks := up |>) in
      do* queue_remove old in
      let* next := pick_successor in
      switch_to old next
  end.

Definition task_sleep_ticks_from_syscall (ticks : Z) : M sched Z :=
  let* cur := gets current_task in
  match cur with
  | None => ret (-1)
  | Some slot =>
    let* t := get_task slot in
    if (t_pid t =? 0) || (t_address_space t =? 0) then ret (-1)
    else if ticks =? 0 then ret 0
    else
      let* m := deref (fun s => sleep_meta s !! slot) in
      if truth (sl_active m) then ret (-1)
      else
        let* up := gets uptime_ticks in
        do* modify (fun s => s <| sleep_meta :=
              <[slot := mk_sleep (u32 (up + ticks)) 1]> (sleep_meta s) |>) in
        do* task_block_from_syscall in
        ret 0
  end.

(** ** The tick *)

(** [(int32_t)(uptime_ticks-deadline)>=0] *)
Definition deadline_due (up deadline : Z) : bool := 0 <=? i32 (u32 (up - deadline)).

Definition wake_sleeper (i : nat) : M sched unit :=
  let* x := get_task i in
  let* m := deref (fun s => sleep_meta s !! i) in
  let* up := gets uptime_ticks in
  if truth (sl_active m) && bool_decide (t_state x = TASK_BLOCKED) && deadline_due up (sl_deadline m)
  then
    do* modify (fun s => s <| sleep_meta := <[i := mk_sleep (sl_deadline m) 0]> (sleep_meta s) |>) in
    task_unblock i
  else ret tt.

(** The [do .. while] search of [sched_tick]; it has no bound of its own, and
    a fuel that runs out is the ring-0 hang the code would be in. *)
Fixpoint tick_scan (fuel : nat) (start cur next : nat) : M sched nat :=
  match fuel with
  | O => fault
  | S fuel' =>
    let* x := get_task next in
    if decide (t_state x = TASK_READY /\ next <> cur) then ret next
    else
      match t_next x with
      | None => fault
      | Some nx => if decide (nx = start) then ret nx else tick_scan fuel' start cur nx
      end
  end.

(** The first half of [sched_tick]: time accounting and the wake-up of sleepers. *)
Definition tick_account : M sched unit :=
  do* modify (fun s => s <| uptime_ticks := u32 (uptime_ticks s + 1) |>) in
  let* cur := gets current_task in
  do* (match cur with
       | None => modify (fun s => s <| idle_ticks := u32 (idle_ticks s + 1) |>)
       | Some c =>
         do* mod_task c (fun y => y <| t_ticks := u64 (t_ticks y + 1) |>) in
         let* x := get_task c in
         if t_pid x =? 0 then modify (fun s => s <| idle_ticks := u32 (idle_ticks s + 1) |>)
         else ret tt
       end) in
  for_each wake_sleeper (seq 1 (TASK_MAX - 1)).

(** The second half: the choice of the next task once the quantum is over. *)
Definition tick_preempt (cur head : nat) : M sched unit :=
  let* c := get_task cur in
  let quantum := u32 (t_priority c * QUANTUM_BASE) in
  let* q := gets quantum_counter in
  do* modify (fun s => s <| quantum_counter := u32 (q + 1) |>) in
  if u32 (q + 1) <? quantum then ret tt
  else
    do* modify (fun s => s <| quantum_counter := 0 |>) in
    let* next := tick_scan (S TASK_MAX) head cur head in
    let* n := get_task next in
    if decide (next = cur \/ t_state n <> TASK_READY) then ret tt
    else
      let* o := get_task cur in
      do* (if decide (t_state o = TASK_RUNNING)
           then mod_task cur (fun y => y <| t_state := TASK_READY |>)
           else ret tt) in
      switch_to cur next.

Definition sched_tick : M sched unit :=
  do* tick_account in
  let* h := gets run_queue_head in
  let* cur := gets current_task in
  match h with
  | None =>
    match cur with
    | None => ret tt
    | Some old =>
      let* o := get_task old in
      if negb (t_pid o =? 0) && bool_decide (t_state o = TASK_ZOMBIE \/ t_state o = TASK_BLOCKED)
      then
        do* run_next O in
        do* modify (fun s => s <| msr_fs_base := 0 |>) in
        modify (fun s => s <| switches := (old, O) :: switches s |>)
      else ret tt
    end
  | Some head =>
    match cur with
    | None => fault (* current_task->priority with a NULL current_task *)
    | Some c => tick_preempt c head
    end
  end.

(** [task_yield] raises the PIT interrupt, whose handler is [sched_tick]. *)
Definition task_yield : M sched unit := sched_tick.

Definition task_block : M sched unit :=
  let* cur := gets current_task in
  do* (match cur with
       | None => ret tt
       | Some c =>
         let* up := gets uptime_ticks in
         do* mod_task c (fun y => y <| t_state := TASK_BLOCKED |> <| t_state_changed_ticks := up |>) in
         queue_remove c
       end) in
  task_yield.

(** [if(task->address_space) task_block_from_syscall(); else task_block();] *)
Definition task_block_current (t : nat) : M sched unit :=
  let* x := get_task t in
  if t_address_space x =? 0 then task_block else task_block_from_syscall.

(** ** Getters *)

Definition live (t : task) : bool := negb (bool_decide (t_state t = TASK_UNUSED)).

Definition sched_task_count (s : sched) : Z :=
  Z.of_nat (length (filter (fun t => live t && negb (t_pid t =? 0)) (task_pool s))).

Definition sched_total_resident_bytes (s : sched) : Z :=
  fold_left (fun acc t => if live t then u64 (acc + t_resident_bytes t) else acc) (task_pool s) 0.

Definition sched_busy_ticks (s : sched) : Z :=
  if idle_ticks s <=? uptime_ticks s then uptime_ticks s - idle_ticks s else 0.
