(* ===== verification/SchedInv.v ===== *)
(** * The run queue as a list

    [queue_add] and [queue_remove] manipulate a circular singly linked list in
    the task pool.  [ring s l] says that this structure represents the list [l];
    the lemmas show that the two bounded walks implement append and removal on
    that list and touch nothing but the links. *)

From S2P Require Import Prelude Sched.

(** ** The representation *)

Definition next_of (s : sched) (i : nat) : option nat := task_pool s !! i ≫= t_next.

Fixpoint lseg (s : sched) (l : list nat) (z : nat) : Prop :=
  match l with
  | [] => True
  | a :: l' => next_of s a = Some (default z (head l')) /\ lseg s l' z
  end.

Definition ring (s : sched) (l : list nat) : Prop :=
  run_queue_head s = head l /\ NoDup l /\ lseg s l (default O (head l)) /\
  Forall (fun i => i < length (task_pool s))%nat l.

(** A task without its queue link: what the queue operations leave unchanged. *)
Definition unlink (t : task) : task := t <| t_next := None |>.

Definition same_tasks (s s' : sched) : Prop :=
  unlink <$> task_pool s' = unlink <$> task_pool s /\
  exists p h, s' = s <| task_pool := p |> <| run_queue_head := h |>.

(** [link i n s]: the queue link of task [i] set to [n]. *)
Definition link (i : nat) (n : option nat) (s : sched) : sched :=
  s <| task_pool := alter (fun x => x <| t_next := n |>) i (task_pool s) |>.

Lemma mod_task_alter i f s :
  (i < length (task_pool s))%nat ->
  mod_task i f s = Done (tt, s <| task_pool := alter f i (task_pool s) |>).
Proof.
  intros [x Hx]%lookup_lt_is_Some. unfold mod_task. by rewrite Hx.
Qed.

Lemma mod_task_link i n s :
  (i < length (task_pool s))%nat ->
  mod_task i (fun x => x <| t_next := n |>) s = Done (tt, link i n s).
Proof. apply mod_task_alter. Qed.

Lemma next_of_link i n s j :
  (i < length (task_pool s))%nat ->
  next_of (link i n s) j = if decide (i = j) then n else next_of s j.
Proof.
  intros [x Hx]%lookup_lt_is_Some. unfold next_of, link. simpl. case_decide as E.
  - subst. by rewrite list_lookup_alter_eq, Hx.
  - by rewrite list_lookup_alter_ne.
Qed.

Lemma link_length i n s : length (task_pool (link i n s)) = length (task_pool s).
Proof. apply length_alter. Qed.

Lemma unlink_alter i n (p : list task) :
  unlink <$> alter (fun x => x <| t_next := n |>) i p = unlink <$> p.
Proof.
  apply list_eq. intros j. rewrite !list_lookup_fmap.
  destruct (decide (i = j)) as [->|]; [|by rewrite list_lookup_alter_ne].
  rewrite list_lookup_alter_eq. by destruct (p !! j).
Qed.

Lemma same_tasks_refl s : same_tasks s s.
Proof. split; [done|]. exists (task_pool s), (run_queue_head s). by destruct s. Qed.

Lemma same_tasks_trans s1 s2 s3 : same_tasks s1 s2 -> same_tasks s2 s3 -> same_tasks s1 s3.
Proof.
  intros (H1 & p1 & h1 & ->) (H2 & p2 & h2 & ->). simpl in *. split; [simpl; congruence|].
  by exists p2, h2.
Qed.

Lemma same_tasks_link i n s : same_tasks s (link i n s).
Proof.
  split; [apply unlink_alter|].
  exists (task_pool (link i n s)), (run_queue_head s). by destruct s.
Qed.

Lemma same_tasks_head s h : same_tasks s (s <| run_queue_head := h |>).
Proof. split; [done|]. exists (task_pool s), h. by destruct s. Qed.

Create HintDb schedhints.
#[export] Hint Resolve same_tasks_refl same_tasks_link same_tasks_head : schedhints.

Lemma same_tasks_length s s' : same_tasks s s' -> length (task_pool s') = length (task_pool s).
Proof.
  intros (H & _). apply (f_equal length) in H. by rewrite !length_fmap in H.
Qed.

Lemma same_tasks_lookup s s' i t :
  same_tasks s s' -> task_pool s !! i = Some t ->
  exists n, task_pool s' !! i = Some (t <| t_next := n |>).
Proof.
  intros (H & _) Ht. apply (f_equal (.!! i)) in H.
  rewrite !list_lookup_fmap, Ht in H. destruct (task_pool s' !! i) as [t'|]; [|done].
  simpl in H. injection H as H. exists (t_next t'). f_equal.
  destruct t, t'. unfold unlink in H. simpl in *. by simplify_eq.
Qed.

Lemma same_tasks_state s s' i : same_tasks s s' -> task_state_at s' i = task_state_at s i.
Proof.
  intros (H & _). apply (f_equal (.!! i)) in H. rewrite !list_lookup_fmap in H.
  unfold task_state_at.
  destruct (task_pool s' !! i) as [t'|], (task_pool s !! i) as [t|]; try done.
  simpl in H. injection H as H. destruct t, t'. unfold unlink in H. simpl in *. by simplify_eq.
Qed.

(** ** Segments *)

Lemma lseg_app s l1 l2 z :
  lseg s (l1 ++ l2) z <-> lseg s l1 (default z (head l2)) /\ lseg s l2 z.
Proof.
  induction l1 as [|a l1 IH]; simpl; [naive_solver|].
  rewrite IH. destruct l1; simpl; naive_solver.
Qed.

Lemma lseg_frame s s' l z :
  (forall i, i ∈ l -> next_of s' i = next_of s i) -> lseg s l z -> lseg s' l z.
Proof.
  induction l as [|a l IH]; simpl; [done|]. intros Hf [Ha Hl]. split.
  - rewrite Hf; [done|set_solver].
  - apply IH; [|done]. intros. apply Hf. set_solver.
Qed.

Lemma lseg_link s i n l z :
  i ∉ l -> (i < length (task_pool s))%nat -> lseg s l z -> lseg (link i n s) l z.
Proof.
  intros Hi Hlt. apply lseg_frame. intros j Hj.
  rewrite next_of_link by done. rewrite decide_False; [done|]. set_solver.
Qed.

Lemma next_of_Some s i n :
  next_of s i = Some n -> exists t, task_pool s !! i = Some t /\ t_next t = Some n.
Proof. unfold next_of. intros (t & H1 & H2)%bind_Some. eauto. Qed.

Lemma get_task_next s i n :
  next_of s i = Some n -> exists t, get_task i s = Done (t, s) /\ t_next t = Some n.
Proof.
  intros (t & H1 & H2)%next_of_Some. exists t. unfold get_task, deref. by rewrite H1.
Qed.

(** ** [queue_add] appends *)

Fixpoint last_or (d : nat) (l : list nat) : nat :=
  match l with [] => d | a :: l' => last_or a l' end.

Lemma last_or_snoc d l z : last_or d (l ++ [z]) = z.
Proof. revert d. induction l as [|a l IH]; simpl; auto. Qed.

Lemma queue_add_walk_run s t h :
  forall l2 tail fuel,
  run_queue_head s = Some h -> h ∉ l2 -> lseg s (tail :: l2) h ->
  (length l2 < fuel)%nat ->
  queue_add_walk fuel t tail s =
    (do* mod_task (last_or tail l2) (fun x => x <| t_next := Some t |>) in
     do* mod_task t (fun x => x <| t_next := Some h |>) in
     ret 0) s.
Proof.
  induction l2 as [|b l2 IH]; intros tail fuel Hh Hnin [Hn Hl] Hf;
    (destruct fuel as [|fuel]; [simpl in Hf; lia|]); simpl in Hn;
    destruct (get_task_next _ _ _ Hn) as (x & Hx & Hxn); simpl queue_add_walk;
    rewrite (bind_Done _ _ _ _ _ Hx), Hxn, bind_gets, Hh.
  - by rewrite decide_True.
  - rewrite decide_False by set_solver.
    rewrite IH; [done|done|set_solver|done|simpl in Hf; lia].
Qed.

(** The queue after an append: the old last element points to the new one,
    which points to the head. *)
Lemma queue_add_spec s l t :
  ring s l -> t ∉ l -> (t < length (task_pool s))%nat -> (length l <= TASK_MAX)%nat ->
  exists s', queue_add t s = Done (0, s') /\ ring s' (l ++ [t]) /\ same_tasks s s'.
Proof.
  intros (Hh & Hnd & Hl & Hb) Hnin Ht Hlen. unfold queue_add. rewrite bind_gets, Hh.
  destruct l as [|h l]; cbn [head]; cbv iota.
  - rewrite bind_modify. set (s1 := s <| run_queue_head := Some t |>).
    rewrite (bind_Done _ _ _ _ _ (mod_task_link t (Some t) s1 Ht)).
    eexists. split; [done|]. split.
    + split_and!; [done|apply NoDup_singleton| |by repeat constructor; rewrite link_length].
      simpl. rewrite next_of_link by done. by rewrite decide_True.
    + eapply same_tasks_trans; [apply same_tasks_head|apply same_tasks_link].
  - apply list.NoDup_cons in Hnd as [Hnh Hnd].
    rewrite (queue_add_walk_run s t h l h); [|done|done|done|simpl in Hlen; unfold TASK_MAX in *; lia].
    assert (Hsplit : exists l1 z, h :: l = l1 ++ [z] /\ last_or h l = z).
    { destruct l as [|b l] using rev_ind; [by exists [], h|].
      exists (h :: l), b. split; [done|]. apply last_or_snoc. }
    destruct Hsplit as (l1 & z & Hsp & ->).
    assert (Hz : (z < length (task_pool s))%nat).
    { rewrite Hsp in Hb. apply Forall_app in Hb as [_ Hb]. by inversion Hb. }
    rewrite (bind_Done _ _ _ _ _ (mod_task_link z (Some t) s Hz)).
    assert (Ht' : (t < length (task_pool (link z (Some t) s)))%nat) by by rewrite link_length.
    rewrite (bind_Done _ _ _ _ _ (mod_task_link t (Some h) _ Ht')).
    eexists. split; [done|]. split; [|eapply same_tasks_trans; apply same_tasks_link].
    assert (Hnd' : NoDup (h :: l)) by by constructor.
    rewrite Hsp in Hl, Hnin, Hnd', Hb |- *.
    assert (Hzl : z ∉ l1) by (apply list.NoDup_app in Hnd' as (_ & Hd & _); set_solver).
    apply lseg_app in Hl as [Hl1 _]. simpl in Hl1.
    assert (Hhd : head ((l1 ++ [z]) ++ [t]) = Some h) by by rewrite <- Hsp.
    split_and!.
    + simpl. by rewrite Hhd, Hh.
    + apply list.NoDup_app. split_and!; [done| |apply NoDup_singleton]. set_solver.
    + rewrite Hhd. simpl. rewrite <- app_assoc. apply lseg_app. split.
      * apply lseg_link; [set_solver|exact Ht'|]. by apply lseg_link.
      * split; [|split]; [| |done]; rewrite next_of_link by exact Ht'.
        -- rewrite decide_False by set_solver. rewrite next_of_link by done.
           by rewrite decide_True.
        -- by rewrite decide_True.
    + rewrite !link_length. apply Forall_app. split; [done|]. by constructor.
Qed.

(** ** [queue_remove] removes *)

(** The update made once the predecessor [p] of [t] is found. *)
Definition unlink_after (p t : nat) (s : sched) : sched :=
  let s1 := link p (next_of s t) s in
  let s2 := if decide (run_queue_head s = Some t)
            then s1 <| run_queue_head := next_of s t |> else s1 in
  link t None s2.

Lemma queue_remove_walk_run s t :
  forall m prev fuel,
  (t < length (task_pool s))%nat -> last_or prev m <> t ->
  Forall (fun x => x <> t /\ run_queue_head s <> Some x) m ->
  lseg s (prev :: m) t -> (length m < fuel)%nat ->
  queue_remove_walk fuel t prev s = Done (tt, unlink_after (last_or prev m) t s).
Proof.
  induction m as [|b m IH]; intros prev fuel Ht Hne Hm [Hn Hl] Hf;
    (destruct fuel as [|fuel]; [simpl in Hf; lia|]); simpl in Hn;
    destruct (get_task_next _ _ _ Hn) as (x & Hx & Hxn); simpl queue_remove_walk;
    rewrite (bind_Done _ _ _ _ _ Hx), Hxn.
  - rewrite decide_True by done. simpl in Hne.
    apply lookup_lt_is_Some in Ht as Hty. destruct Hty as [y Hy].
    assert (Hgy : get_task t s = Done (y, s)) by (unfold get_task, deref; by rewrite Hy).
    assert (Hnt : next_of s t = t_next y) by (unfold next_of; by rewrite Hy).
    assert (Hp : (prev < length (task_pool s))%nat).
    { apply next_of_Some in Hn as (z & Hz & _). by apply lookup_lt_Some in Hz. }
    rewrite (bind_Done _ _ _ _ _ Hgy), (bind_Done _ _ _ _ _ (mod_task_link prev (t_next y) s Hp)).
    rewrite bind_gets. set (s1 := link prev (t_next y) s).
    assert (Hgy1 : get_task t s1 = Done (y, s1)).
    { unfold get_task, deref, s1, link; simpl. by rewrite list_lookup_alter_ne, Hy. }
    rewrite (bind_Done _ _ _ _ _ Hgy1). unfold unlink_after. simpl last_or. rewrite Hnt.
    change (run_queue_head s1) with (run_queue_head s).
    case_decide; [rewrite bind_modify|rewrite bind_ret]; apply mod_task_link;
      unfold s1; simpl; by rewrite length_alter.
  - inversion Hm as [|? ? [Hb1 Hb2] Hm']; subst. rewrite decide_False by done.
    rewrite bind_gets, decide_False by congruence.
    rewrite (IH b); [done|done|done|done|done|simpl in Hf; lia].
Qed.

Lemma next_of_unlink_after p t s j :
  (p < length (task_pool s))%nat -> (t < length (task_pool s))%nat ->
  next_of (unlink_after p t s) j =
    if decide (t = j) then None else if decide (p = j) then next_of s t else next_of s j.
Proof.
  intros Hp Ht. unfold unlink_after. case_decide as Eh; rewrite next_of_link;
    try (simpl; by rewrite length_alter); by rewrite <- (next_of_link p (next_of s t) s).
Qed.

Lemma same_tasks_unlink_after p t s : same_tasks s (unlink_after p t s).
Proof.
  unfold unlink_after. eapply same_tasks_trans; [|apply same_tasks_link].
  case_decide; eauto using same_tasks_trans, same_tasks_link, same_tasks_head.
Qed.

Lemma unlink_after_head p t s :
  run_queue_head (unlink_after p t s) =
    if decide (run_queue_head s = Some t) then next_of s t else run_queue_head s.
Proof. unfold unlink_after. by case_decide. Qed.

Lemma last_or_split h l : exists m, h :: l = m ++ [last_or h l].
Proof.
  revert h. induction l as [|a l IH]; intros h; [by exists []|].
  destruct (IH a) as [m Hm]. exists (h :: m). simpl. by rewrite <- Hm.
Qed.

Lemma last_or_elem h l : last_or h l ∈ h :: l.
Proof. destruct (last_or_split h l) as [m ->]. set_solver. Qed.

Lemma lseg_unlink_after s m p t n :
  (p < length (task_pool s))%nat -> (t < length (task_pool s))%nat ->
  NoDup (m ++ [p]) -> t ∉ m ++ [p] -> next_of s t = Some n ->
  lseg s (m ++ [p]) t -> lseg (unlink_after p t s) (m ++ [p]) n.
Proof.
  intros Hp Ht Hnd Hnin Hn [Hm _]%lseg_app. apply list.NoDup_app in Hnd as (_ & Hd & _).
  apply lseg_app. split.
  - eapply lseg_frame; [|exact Hm]. intros i Hi. rewrite next_of_unlink_after by done.
    rewrite !decide_False by set_solver. done.
  - simpl. split; [|done]. rewrite next_of_unlink_after by done.
    rewrite decide_False by set_solver. by rewrite decide_True.
Qed.

Lemma lseg_unlink_after_frame s p t l z :
  (p < length (task_pool s))%nat -> (t < length (task_pool s))%nat ->
  p ∉ l -> t ∉ l -> lseg s l z -> lseg (unlink_after p t s) l z.
Proof.
  intros Hp Ht Hpl Htl. apply lseg_frame. intros i Hi.
  rewrite next_of_unlink_after by done. rewrite !decide_False by set_solver. done.
Qed.

Lemma unlink_after_length p t s : length (task_pool (unlink_after p t s)) = length (task_pool s).
Proof. apply same_tasks_length, same_tasks_unlink_after. Qed.

Lemma get_task_lt s t :
  (t < length (task_pool s))%nat ->
  exists y, get_task t s = Done (y, s) /\ next_of s t = t_next y.
Proof.
  intros [y Hy]%lookup_lt_is_Some. exists y. unfold get_task, deref, next_of. by rewrite Hy.
Qed.

(** Removing the head of a queue with other elements: the walk goes once around
    the ring to find the predecessor. *)
Lemma queue_remove_head s t b l2 :
  ring s (t :: b :: l2) -> (length (t :: b :: l2) <= TASK_MAX)%nat ->
  exists s', queue_remove t s = Done (tt, s') /\ ring s' (b :: l2) /\ same_tasks s s'.
Proof.
  intros (Hh & Hnd & Hl & Hb) Hlen. unfold queue_remove. rewrite bind_gets, Hh. cbn [head].
  apply list.NoDup_cons in Hnd as [Ht2 Hnd]. apply list.Forall_cons in Hb as [Ht Hb].
  destruct (get_task_lt s t Ht) as (y & Hy & Hyn). rewrite (bind_Done _ _ _ _ _ Hy).
  simpl in Hl. destruct Hl as [Hnx Hl].
  rewrite decide_False
    by (intros [_ [?|?]]; [congruence|assert (b = t) as -> by congruence; set_solver]).
  pose proof (last_or_elem b l2) as Hpin.
  assert (Hp := proj1 (list.Forall_forall _ _) Hb _ Hpin). simpl in Hp.
  rewrite (queue_remove_walk_run s t (b :: l2) t); simpl last_or; [|done| | | |].
  - eexists. split; [done|]. split; [|apply same_tasks_unlink_after]. split_and!.
    + rewrite unlink_after_head, decide_True by done. by rewrite Hnx.
    + done.
    + destruct (last_or_split b l2) as [m Hm]. cbn [head default].
      change (lseg s (b :: l2) t) in Hl.
      rewrite Hm in Hl, Hnd, Ht2 |- *. by apply lseg_unlink_after.
    + by rewrite unlink_after_length.
  - intros E. rewrite E in Hpin. done.
  - apply list.Forall_forall. intros z Hz. rewrite Hh. split; [|intros [= ->]]; set_solver.
  - simpl. auto.
  - unfold TASK_MAX in *. simpl in Hlen |- *. lia.
Qed.

Lemma queue_remove_inner s h l1 t l2 :
  ring s ((h :: l1) ++ t :: l2) -> (length ((h :: l1) ++ t :: l2) <= TASK_MAX)%nat ->
  exists s', queue_remove t s = Done (tt, s') /\ ring s' ((h :: l1) ++ l2) /\ same_tasks s s'.
Proof.
  intros (Hh & Hnd & Hl & Hb) Hlen. unfold queue_remove. rewrite bind_gets, Hh. cbn [head app].
  apply list.NoDup_app in Hnd as (Hnd1 & Hdis & [Ht2 Hnd2]%list.NoDup_cons).
  apply Forall_app in Hb as [Hb1 [Ht Hb2]%list.Forall_cons].
  destruct (get_task_lt s t Ht) as (y & Hy & Hyn). rewrite (bind_Done _ _ _ _ _ Hy).
  apply lseg_app in Hl as [Hl1 [Hnx Hl2]]. simpl in Hnx, Hl2. cbn [head default] in Hl1.
  rewrite decide_False by (intros [-> _]; set_solver).
  pose proof (last_or_elem h l1) as Hpin.
  assert (Hp := proj1 (list.Forall_forall _ _) Hb1 _ Hpin). simpl in Hp.
  rewrite (queue_remove_walk_run s t l1 h); [|done| | |done|].
  - eexists. split; [done|]. split; [|apply same_tasks_unlink_after]. split_and!.
    + rewrite unlink_after_head, decide_False; [by rewrite Hh|]. rewrite Hh. intros [= ->]. set_solver.
    + rewrite app_comm_cons. apply list.NoDup_app. split_and!; [done|set_solver|done].
    + destruct (last_or_split h l1) as [m Hm]. cbn [head default].
      rewrite Hm in Hl1, Hnd1, Hdis. rewrite app_comm_cons, Hm. apply lseg_app. split.
      * apply lseg_unlink_after; try done. set_solver.
      * apply lseg_unlink_after_frame; try done. set_solver.
    + rewrite unlink_after_length, app_comm_cons. by apply Forall_app.
  - intros E. rewrite E in Hpin. set_solver.
  - apply list.Forall_forall. intros z Hz. rewrite Hh.
    apply list.NoDup_cons in Hnd1 as [Hh1 _]. split; [set_solver|intros [= ->]; set_solver].
  - unfold TASK_MAX in *. simpl in Hlen. rewrite length_app in Hlen. lia.
Qed.

(** Removing an element: the remaining tasks keep their order. *)
Lemma queue_remove_spec s l1 t l2 :
  ring s (l1 ++ t :: l2) -> (length (l1 ++ t :: l2) <= TASK_MAX)%nat ->
  exists s', queue_remove t s = Done (tt, s') /\ ring s' (l1 ++ l2) /\ same_tasks s s'.
Proof.
  intros Hr Hlen. destruct l1 as [|h l1]; [|by apply queue_remove_inner].
  destruct l2 as [|b l2]; [|by apply queue_remove_head].
  destruct Hr as (Hh & _ & [Hnx _] & Hb). apply list.Forall_cons in Hb as [Ht _]. simpl in Hnx.
  unfold queue_remove. rewrite bind_gets, Hh. cbn [head app].
  destruct (get_task_lt s t Ht) as (y & Hy & Hyn). rewrite (bind_Done _ _ _ _ _ Hy).
  rewrite decide_True by (split; [done|right; congruence]). rewrite bind_modify.
  rewrite mod_task_link by exact Ht.
  eexists. split; [done|]. split; [by split_and!; [|constructor..]|].
  eapply same_tasks_trans; [apply same_tasks_head|apply same_tasks_link].
Qed.

(** A task that is not queued: nothing changes. *)
Lemma queue_remove_absent s l t :
  ring s l -> t ∉ l -> (t < length (task_pool s))%nat -> (length l <= TASK_MAX)%nat ->
  queue_remove t s = Done (tt, s).
Proof.
  intros (Hh & Hnd & Hl & Hb) Hnin Ht Hlen. unfold queue_remove. rewrite bind_gets, Hh.
  destruct l as [|h l]; [done|]. cbn [head].
  destruct (get_task_lt s t Ht) as (y & Hy & _). rewrite (bind_Done _ _ _ _ _ Hy).
  rewrite decide_False by (intros [-> _]; set_solver).
  apply list.NoDup_cons in Hnd as [Hnh Hnd]. cbn [head default] in Hl.
  assert (Hgen : forall m prev fuel, lseg s (prev :: m) h -> t ∉ m -> t <> h -> h ∉ m ->
    (length m < fuel)%nat -> queue_remove_walk fuel t prev s = Done (tt, s)).
  { clear Hl. induction m as [|b m IH]; intros prev fuel [Hn Hl] Htm Hth Hhm Hf;
      (destruct fuel as [|fuel]; [simpl in Hf; lia|]); simpl in Hn;
      destruct (get_task_next _ _ _ Hn) as (x & Hx & Hxn); simpl queue_remove_walk;
      rewrite (bind_Done _ _ _ _ _ Hx), Hxn; rewrite decide_False by set_solver; rewrite bind_gets, Hh.
    - by rewrite decide_True.
    - rewrite decide_False by set_solver. apply IH; [done|set_solver|done|set_solver|simpl in Hf; lia]. }
  apply (Hgen l); [done|set_solver|set_solver|done|unfold TASK_MAX in *; simpl in Hlen; lia].
Qed.

(** Removal in general: the queue keeps its order and loses [t]. *)
Lemma queue_remove_filter s l t :
  ring s l -> (t < length (task_pool s))%nat -> (length l <= TASK_MAX)%nat ->
  exists s', queue_remove t s = Done (tt, s') /\ ring s' (filter (fun i => i <> t) l) /\ same_tasks s s'.
Proof.
  intros Hr Ht Hlen. destruct (decide (t ∈ l)) as [Hin|Hin].
  - apply list_elem_of_split in Hin as (l1 & l2 & ->).
    destruct (queue_remove_spec s l1 t l2) as (s2 & ? & ? & ?); [done|done|].
    exists s2. split_and!; [done| |done]. destruct Hr as (_ & Hnd & _).
    apply list.NoDup_app in Hnd as (_ & Hd & [Hnt _]%list.NoDup_cons).
    rewrite list.filter_app, filter_cons_False by naive_solver.
    rewrite !filter_id; [done|apply list.Forall_forall; set_solver..].
  - exists s. split_and!; [by apply (queue_remove_absent _ l)| |apply same_tasks_refl].
    rewrite filter_id; [done|]. apply list.Forall_forall. intros i Hi ->. done.
Qed.

(** ** The scheduler invariant

    [sched_inv s l c]: the run queue is the list [l], [c] is the current task,
    the queue holds exactly the runnable tasks (the idle task, slot 0, may be
    runnable without being queued), and no task but [c] is RUNNING.  Every
    operation of [Sched] keeps it. *)

Definition runnable (st : task_state) : Prop := st = TASK_READY \/ st = TASK_RUNNING.

#[export] Instance runnable_dec st : Decision (runnable st).
Proof. unfold runnable. apply _. Defined.

Record sched_inv (s : sched) (l : list nat) (c : nat) : Prop := {
  inv_pool : length (task_pool s) = TASK_MAX;
  inv_sleep : length (sleep_meta s) = TASK_MAX;
  inv_ring : ring s l;
  inv_cur : current_task s = Some c;
  inv_cur_lt : (c < TASK_MAX)%nat;
  inv_queued : forall i, i ∈ l -> runnable (task_state_at s i);
  inv_runnable : forall i, i <> O -> runnable (task_state_at s i) -> i ∈ l;
  inv_running : forall i, task_state_at s i = TASK_RUNNING -> i = c }.

Definition sched_ok (s : sched) : Prop := exists l c, sched_inv s l c.

(** The fields the scheduler owns, erased: what its operations leave alone. *)
Definition erase_sched (t : task) : task :=
  t <| t_state := TASK_UNUSED |> <| t_state_changed_ticks := 0 |> <| t_next := None |>
    <| t_ticks := 0 |> <| t_context_switches := 0 |>.

Definition same_core (s s' : sched) : Prop :=
  erase_sched <$> task_pool s' = erase_sched <$> task_pool s /\ next_pid s' = next_pid s.

Lemma same_core_refl s : same_core s s.
Proof. done. Qed.
Lemma same_core_trans s1 s2 s3 : same_core s1 s2 -> same_core s2 s3 -> same_core s1 s3.
Proof. unfold same_core. intros [? ?] [? ?]. split; congruence. Qed.
Lemma same_core_alter i f s :
  (forall t, erase_sched (f t) = erase_sched t) ->
  same_core s (s <| task_pool := alter f i (task_pool s) |>).
Proof.
  intros Hf. split; [|done]. simpl. apply list_eq. intros j. rewrite !list_lookup_fmap.
  destruct (decide (i = j)) as [->|]; [|by rewrite list_lookup_alter_ne].
  rewrite list_lookup_alter_eq. destruct (task_pool s !! j); simpl; [by rewrite Hf|done].
Qed.
Lemma same_tasks_core s s' : same_tasks s s' -> same_core s s'.
Proof.
  intros (H & p & h & ->). split; [|done]. simpl in *.
  replace (erase_sched <$> p) with (erase_sched <$> (unlink <$> p)).
  - rewrite H, <- list_fmap_compose. by apply list_fmap_ext.
  - rewrite <- list_fmap_compose. by apply list_fmap_ext.
Qed.
Lemma same_core_lookup s s' i t :
  same_core s s' -> task_pool s !! i = Some t ->
  exists t', task_pool s' !! i = Some t' /\ erase_sched t' = erase_sched t.
Proof.
  intros [H _] Ht. apply (f_equal (.!! i)) in H. rewrite !list_lookup_fmap, Ht in H.
  destruct (task_pool s' !! i) as [t'|]; [|done]. exists t'. split; [done|].
  by apply (inj Some) in H.
Qed.

Create HintDb coredb.
#[export] Hint Resolve same_core_refl same_tasks_core : coredb.
#[export] Hint Extern 1 (same_core _ (_ <| task_pool := _ |>)) => by apply same_core_alter : coredb.

(** ** Symbolic execution of pool accesses *)

Lemma wp_mod_task i f s Q :
  (i < length (task_pool s))%nat ->
  Q tt (s <| task_pool := alter f i (task_pool s) |>) -> wp (mod_task i f) s Q.
Proof. intros H HQ. unfold wp. by rewrite mod_task_alter. Qed.

Lemma wp_get_task i s Q :
  (i < length (task_pool s))%nat ->
  (forall t, task_pool s !! i = Some t -> Q t s) -> wp (get_task i) s Q.
Proof. intros [t Ht]%lookup_lt_is_Some HQ. eapply wp_deref; eauto. Qed.

Lemma state_at_alter i f s j :
  (i < length (task_pool s))%nat ->
  task_state_at (s <| task_pool := alter f i (task_pool s) |>) j =
  if decide (i = j) then t_state (f (default zero_task (task_pool s !! i))) else task_state_at s j.
Proof.
  intros [t Ht]%lookup_lt_is_Some. unfold task_state_at. simpl. case_decide as E.
  - subst. by rewrite list_lookup_alter_eq, Ht.
  - by rewrite list_lookup_alter_ne.
Qed.

Lemma state_at_lookup s i t : task_pool s !! i = Some t -> task_state_at s i = t_state t.
Proof. unfold task_state_at. by intros ->. Qed.

Lemma next_of_alter i f s j :
  (forall t, t_next (f t) = t_next t) ->
  next_of (s <| task_pool := alter f i (task_pool s) |>) j = next_of s j.
Proof.
  intros Hf. unfold next_of. simpl. destruct (decide (i = j)) as [->|].
  - rewrite list_lookup_alter_eq. destruct (task_pool s !! j); simpl; auto.
  - by rewrite list_lookup_alter_ne.
Qed.

Lemma ring_alter i f s l :
  (forall t, t_next (f t) = t_next t) -> ring s l ->
  ring (s <| task_pool := alter f i (task_pool s) |>) l.
Proof.
  intros Hf (Hh & Hnd & Hl & Hb). split_and!; [done|done| |].
  - eapply lseg_frame; [|exact Hl]. intros j _. by apply next_of_alter.
  - simpl. by rewrite length_alter.
Qed.

Lemma ring_frame s s' l :
  task_pool s' = task_pool s -> run_queue_head s' = run_queue_head s -> ring s l -> ring s' l.
Proof.
  intros Hp Hh (? & ? & ? & ?). split_and!; [congruence|done| |by rewrite Hp].
  eapply lseg_frame; [|done]. intros i _. unfold next_of. by rewrite Hp.
Qed.

Lemma ring_length s l : length (task_pool s) = TASK_MAX -> ring s l -> (length l <= TASK_MAX)%nat.
Proof.
  intros Hlen (_ & Hnd & _ & Hb). replace TASK_MAX with (length (seq 0 TASK_MAX)) by apply length_seq.
  apply submseteq_length, NoDup_submseteq; [done|]. intros i Hi. apply elem_of_seq.
  apply (proj1 (list.Forall_forall _ _) Hb) in Hi. lia.
Qed.

(** Changes outside the pool, the queue head and the current task. *)
Lemma sched_inv_frame s s' l c :
  task_pool s' = task_pool s -> run_queue_head s' = run_queue_head s ->
  current_task s' = current_task s -> length (sleep_meta s') = length (sleep_meta s) ->
  sched_inv s l c -> sched_inv s' l c.
Proof.
  intros Hp Hh Hc Hs [].
  assert (Hst : forall i, task_state_at s' i = task_state_at s i).
  { intros i. unfold task_state_at. by rewrite Hp. }
  constructor; try congruence.
  - by apply (ring_frame s).
  - intros i. rewrite Hst. auto.
  - intros i. rewrite Hst. auto.
  - intros i. rewrite Hst. auto.
Qed.

(** An update of a task that keeps its state and its link. *)
Lemma sched_inv_neutral i f s l c :
  (forall t, t_next (f t) = t_next t) -> (forall t, t_state (f t) = t_state t) ->
  sched_inv s l c -> sched_inv (s <| task_pool := alter f i (task_pool s) |>) l c.
Proof.
  intros Hn Hf [].
  assert (Hst : forall j, task_state_at (s <| task_pool := alter f i (task_pool s) |>) j
                          = task_state_at s j).
  { intros j. unfold task_state_at. simpl. destruct (decide (i = j)) as [->|].
    - rewrite list_lookup_alter_eq. destruct (task_pool s !! j); simpl; auto.
    - by rewrite list_lookup_alter_ne. }
  constructor; try done.
  - simpl. by rewrite length_alter.
  - by apply ring_alter.
  - intros j. rewrite Hst. auto.
  - intros j. rewrite Hst. auto.
  - intros j. rewrite Hst. auto.
Qed.

(** ** Waking *)

(** A blocked task that is not queued goes to the end of the queue. *)
Lemma task_unblock_ring s l t :
  ring s l -> length (task_pool s) = TASK_MAX -> (t < TASK_MAX)%nat -> t ∉ l -> task_state_at s t = TASK_BLOCKED ->
  exists s', task_unblock t s = Done (tt, s') /\ ring s' (l ++ [t]) /\ same_core s s' /\
    (forall j, task_state_at s' j = if decide (t = j) then TASK_READY else task_state_at s j) /\
    length (task_pool s') = TASK_MAX /\
    exists p h, s' = s <| task_pool := p |> <| run_queue_head := h |>.
Proof.
  intros Hr Hlen Ht Hnin Hb. destruct (lookup_lt_is_Some_2 (task_pool s) t) as [x Hx]; [lia|].
  rewrite (state_at_lookup _ _ _ Hx) in Hb.
  set (f := fun y : task => y <| t_state := TASK_READY |> <| t_state_changed_ticks := uptime_ticks s |>).
  set (s1 := s <| task_pool := alter f t (task_pool s) |>).
  assert (Hst1 : forall j, task_state_at s1 j = if decide (t = j) then TASK_READY else task_state_at s j).
  { intros j. unfold s1. rewrite state_at_alter by lia. by repeat case_decide. }
  destruct (queue_add_spec s1 l t) as (s2 & Hq & Hr2 & Hsame); [by apply ring_alter|done| | |].
  { simpl. rewrite length_alter. lia. }
  { by eapply ring_length. }
  exists s2. split_and!.
  - unfold task_unblock, bind, get_task, deref. rewrite Hx, decide_True by done. unfold gets.
    rewrite mod_task_alter by lia. fold f. fold s1. by rewrite Hq.
  - done.
  - eapply same_core_trans; [|by apply same_tasks_core]. by apply same_core_alter.
  - intros j. by rewrite (same_tasks_state _ _ _ Hsame), Hst1.
  - rewrite (same_tasks_length _ _ Hsame). simpl. by rewrite length_alter.
  - destruct Hsame as (_ & p & h & ->). by exists p, h.
Qed.
Lemma task_unblock_noop s t x : task_pool s !! t = Some x -> t_state x <> TASK_BLOCKED -> task_unblock t s = Done (tt, s).
Proof. intros Hx Hb. unfold task_unblock, bind, get_task, deref. by rewrite Hx, decide_False. Qed.

Lemma task_unblock_spec s l c t :
  sched_inv s l c -> (t < TASK_MAX)%nat ->
  wp (task_unblock t) s (fun _ s' =>
    same_core s s' /\
    if decide (task_state_at s t = TASK_BLOCKED)
    then sched_inv s' (l ++ [t]) c /\ task_state_at s' t = TASK_READY /\
         (forall j, j <> t -> task_state_at s' j = task_state_at s j) /\
         sleep_meta s' = sleep_meta s /\ uptime_ticks s' = uptime_ticks s /\
         quantum_counter s' = quantum_counter s
    else s' = s).
Proof.
  intros Hinv Ht. pose proof Hinv as []. destruct (decide (task_state_at s t = TASK_BLOCKED)) as [Hb|Hb].
  - assert (Hnin : t ∉ l) by (intros Hin; apply inv_queued0 in Hin; rewrite Hb in Hin; by destruct Hin).
    destruct (task_unblock_ring s l t) as (s' & E & Hr & Hc & Hst & Hl & p & h & Hs'); [done..|].
    unfold wp. rewrite E. split; [done|]. split_and!; try (by rewrite Hs').
    + constructor; try done; try (by rewrite Hs').
      * intros i [Hi|Hi%list_elem_of_singleton]%elem_of_app; rewrite Hst.
        -- case_decide; [by left|auto].
        -- subst. rewrite decide_True by done. by left.
      * intros i Hi. rewrite Hst. intros Hri. apply elem_of_app. case_decide; [right; set_solver|left; auto].
      * intros i. rewrite Hst. case_decide; [done|auto].
    + rewrite Hst. by rewrite decide_True.
    + intros j Hj. rewrite Hst. by rewrite decide_False.
  - destruct (lookup_lt_is_Some_2 (task_pool s) t) as [x Hx]; [lia|].
    unfold wp. rewrite (task_unblock_noop s t x Hx); [done|]. by rewrite (state_at_lookup _ _ _ Hx) in Hb.
Qed.

(** The same fact with the case distinction forgotten. *)
Lemma task_unblock_ok s l c t :
  sched_inv s l c -> (t < TASK_MAX)%nat ->
  wp (task_unblock t) s (fun _ s' => same_core s s' /\ exists l', sched_inv s' (l ++ l') c).
Proof.
  intros Hinv Ht. eapply wp_mono; [by eapply task_unblock_spec|]. cbv beta.
  intros _ s' [Hc H]. split; [done|]. case_decide.
  - exists [t]. by destruct H.
  - subst. exists []. by rewrite app_nil_r.
Qed.

(** ** Leaving the processor *)

(** A task put in a state that is not runnable and taken off the queue. *)
Lemma park_spec s l c t f :
  sched_inv s l c -> (t < TASK_MAX)%nat ->
  (forall x, t_next (f x) = t_next x) -> (forall x, ~ runnable (t_state (f x))) ->
  wp (do* mod_task t f in queue_remove t) s (fun _ s' =>
    sched_inv s' (filter (fun i => i <> t) l) c /\
    same_tasks (s <| task_pool := alter f t (task_pool s) |>) s').
Proof.
  intros Hinv Ht Hn Hf. pose proof Hinv as []. wp_step. apply wp_mod_task; [lia|].
  set (s1 := upd task_pool _ s).
  assert (Hr1 : ring s1 l) by by apply ring_alter.
  destruct (queue_remove_filter s1 l t Hr1) as (s2 & Hq & Hr2 & Hsame).
  { simpl. rewrite length_alter. lia. }
  { by eapply ring_length. }
  unfold wp. rewrite Hq. split; [|done].
  assert (Hst2 : forall j, j <> t -> task_state_at s2 j = task_state_at s j).
  { intros j Hj. rewrite (same_tasks_state _ _ _ Hsame). unfold s1.
    rewrite state_at_alter by lia. by rewrite decide_False. }
  assert (Hstt : ~ runnable (task_state_at s2 t)).
  { rewrite (same_tasks_state _ _ _ Hsame). unfold s1.
    rewrite state_at_alter by lia. rewrite decide_True by done. apply Hf. }
  pose proof Hsame as (Hun & p & h & Hs2). constructor; try done; try (rewrite Hs2; done).
  - rewrite (same_tasks_length _ _ Hsame). simpl. by rewrite length_alter.
  - intros i [Hne Hi]%list_elem_of_filter. rewrite Hst2 by done. auto.
  - intros i Hi Hri. destruct (decide (i = t)) as [->|Hne]; [done|].
    apply list_elem_of_filter. rewrite Hst2 in Hri by done. auto.
  - intros i Hi. destruct (decide (i = t)) as [->|Hne]; [|rewrite Hst2 in Hi; auto].
    exfalso. apply Hstt. by right.
Qed.

(** ** Choosing the successor *)

Definition is_ready (s : sched) (i : nat) : bool := bool_decide (task_state_at s i = TASK_READY).

Lemma ready_scan_run s h :
  forall m a fuel, run_queue_head s = Some h -> h ∉ m -> lseg s (a :: m) h ->
  (length m < fuel)%nat -> ready_scan fuel a s = Done (List.find (is_ready s) (a :: m), s).
Proof.
  induction m as [|b m IH]; intros a fuel Hh Hnin [Hn Hl] Hf;
    (destruct fuel as [|fuel]; [simpl in Hf; lia|]); simpl in Hn;
    destruct (next_of_Some _ _ _ Hn) as (x & Hx & Hxn); simpl ready_scan;
    assert (Hgx : get_task a s = Done (x, s)) by (unfold get_task, deref; by rewrite Hx);
    rewrite (bind_Done _ _ _ _ _ Hgx); cbn [List.find];
    assert (Hra : is_ready s a = bool_decide (t_state x = TASK_READY))
      by (unfold is_ready; by rewrite (state_at_lookup _ _ _ Hx)); rewrite Hra;
    destruct (decide (t_state x = TASK_READY)) as [Hr|Hr];
    try (rewrite bool_decide_true by done; done); rewrite bool_decide_false by done;
    rewrite bind_gets, Hxn, Hh.
  - by rewrite decide_True.
  - rewrite decide_False by set_solver. apply IH; [done|set_solver|done|simpl in Hf; lia].
Qed.

Lemma pick_successor_run s l c :
  sched_inv s l c -> pick_successor s = Done (default O (List.find (is_ready s) l), s).
Proof.
  intros []. pose proof inv_ring0 as (Hh & Hnd & Hl & Hb). unfold pick_successor.
  rewrite bind_gets, Hh. destruct l as [|h l]; [done|]. cbn [head].
  apply list.NoDup_cons in Hnd as [Hnh _].
  erewrite bind_Done; [done|]. apply (ready_scan_run s h l h); [done|done|done|].
  eapply ring_length in inv_ring0; [|done]. unfold TASK_MAX in *. simpl in *. lia.
Qed.

Lemma find_ready_elem s l n : List.find (is_ready s) l = Some n -> n ∈ l /\ task_state_at s n = TASK_READY.
Proof.
  intros [Hin Hr]%List.find_some. apply list_elem_of_In in Hin.
  by apply bool_decide_eq_true in Hr.
Qed.

Lemma find_ext_in {A} (p q : A -> bool) (l : list A) :
  (forall x, x ∈ l -> p x = q x) -> List.find p l = List.find q l.
Proof.
  induction l as [|a l IH]; intros H; simpl; [done|].
  rewrite H by left. rewrite IH; [done|]. intros x Hx. apply H. by right.
Qed.

Lemma run_next_spec s l c n :
  sched_inv s l c -> task_state_at s c <> TASK_RUNNING -> n = O \/ n ∈ l ->
  wp (run_next n) s (fun _ s' =>
    sched_inv s' l n /\ task_state_at s' n = TASK_RUNNING /\ same_core s s' /\
    (forall j, j <> n -> task_state_at s' j = task_state_at s j) /\
    switches s' = switches s /\ uptime_ticks s' = uptime_ticks s).
Proof.
  intros Hinv Hcr Hn. pose proof Hinv as [].
  assert (Hlt : (n < TASK_MAX)%nat).
  { destruct Hn as [->|Hn]; [unfold TASK_MAX; lia|]. destruct inv_ring0 as (_ & _ & _ & Hb).
    apply (proj1 (list.Forall_forall _ _) Hb) in Hn. lia. }
  unfold run_next. wp_step. wp_step. wp_step. wp_step. apply wp_mod_task; [simpl; lia|].
  match goal with |- context [alter ?g n _] => set (f := g) end. set (s1 := upd task_pool _ _).
  assert (Hst1 : forall j, task_state_at s1 j = if decide (n = j) then TASK_RUNNING else task_state_at s j).
  { intros j. unfold s1. rewrite state_at_alter by (simpl; lia). by repeat case_decide. }
  split_and!; [| | |  |done|done].
  - constructor; try done.
    + simpl. by rewrite length_alter.
    + apply ring_alter; [done|]. by apply (ring_frame s).
    + intros i Hi. rewrite Hst1. case_decide; [by right|auto].
    + intros i Hi. rewrite Hst1. case_decide as E; [|auto]. subst i. by destruct Hn.
    + intros i. rewrite Hst1. case_decide as E; [done|]. intros Hr.
      apply inv_running0 in Hr as Hic. congruence.
  - rewrite Hst1. by rewrite decide_True.
  - eapply same_core_trans; [|by apply same_core_alter]. by split.
  - intros j Hj. rewrite Hst1. by rewrite decide_False.
Qed.

Lemma switch_to_spec s l c old n :
  sched_inv s l c -> task_state_at s c <> TASK_RUNNING -> n = O \/ n ∈ l ->
  wp (switch_to old n) s (fun _ s' =>
    sched_inv s' l n /\ task_state_at s' n = TASK_RUNNING /\ same_core s s' /\
    (forall j, j <> n -> task_state_at s' j = task_state_at s j) /\
    switches s' = (old, n) :: switches s /\ uptime_ticks s' = uptime_ticks s).
Proof.
  intros Hinv Hcr Hn. unfold switch_to. wp_step.
  eapply wp_mono; [by apply (run_next_spec s l c)|]. cbv beta.
  intros _ s1 (Hinv1 & Hst & Hc1 & Hj & Hsw & Hup). pose proof (inv_cur_lt _ _ _ Hinv1).
  wp_step. apply wp_get_task; [rewrite (inv_pool _ _ _ Hinv1); lia|]. intros x Hx.
  wp_step. wp_step. wp_step. split_and!; try done.
  - by apply (sched_inv_frame s1).
  - simpl. by rewrite Hsw.
Qed.

Lemma task_block_from_syscall_spec s l c x :
  sched_inv s l c -> task_pool s !! c = Some x -> t_pid x <> 0 ->
  wp task_block_from_syscall s (fun _ s' =>
    let rest := filter (fun i => i <> c) l in
    let n := default O (List.find (is_ready s) rest) in
    sched_inv s' rest n /\ same_core s s' /\ task_state_at s' n = TASK_RUNNING /\
    (c <> n -> task_state_at s' c = TASK_BLOCKED) /\
    (forall j, j <> c -> j <> n -> task_state_at s' j = task_state_at s j) /\
    switches s' = (c, n) :: switches s /\ uptime_ticks s' = uptime_ticks s).
Proof.
  intros Hinv Hx Hpid. pose proof Hinv as []. unfold task_block_from_syscall. wp_step. wp_step.
  rewrite inv_cur0. wp_step. apply wp_get_task; [lia|]. intros o Ho. simplify_eq.
  rewrite (proj2 (Z.eqb_neq _ _) Hpid).
  wp_step. wp_step. set (f := fun y : task => _).
  assert (Hpark := park_spec s l c c f Hinv inv_cur_lt0 (fun _ => eq_refl) ltac:(intros ? [?|?]; done)).
  apply wp_bind_assoc. wp_step.
  eapply wp_mono; [exact Hpark|]. cbv beta. intros _ s2 (Hinv2 & Hsame).
  assert (Hst2 : forall j, task_state_at s2 j = if decide (c = j) then TASK_BLOCKED else task_state_at s j).
  { intros j. rewrite (same_tasks_state _ _ _ Hsame), state_at_alter by lia. by repeat case_decide. }
  wp_step. unfold wp at 1. rewrite (pick_successor_run _ _ _ Hinv2).
  set (rest := filter _ l). assert (Hfind : List.find (is_ready s2) rest = List.find (is_ready s) rest).
  { apply find_ext_in. intros j [Hne _]%list_elem_of_filter. unfold is_ready. rewrite Hst2.
    by rewrite decide_False. }
  rewrite Hfind. pose proof Hsame as (_ & p & h & Hs2).
  eapply wp_mono; [eapply switch_to_spec; [exact Hinv2| |]|].
  - by rewrite Hst2, decide_True.
  - destruct (List.find (is_ready s) rest) as [n|] eqn:E; simpl; [right|by left]. by apply find_ready_elem in E as [? _].
  - cbv beta zeta. intros _ s3 (H1 & H2 & H3 & H4 & H5 & H6). split_and!; try done.
    + eapply same_core_trans; [|exact H3]. eapply same_core_trans; [|by apply same_tasks_core].
      by apply same_core_alter.
    + intros Hcn. by rewrite H4, Hst2, decide_True.
    + intros j ? ?. by rewrite H4, Hst2, decide_False.
    + by rewrite H5, Hs2.
    + by rewrite H6, Hs2.
Qed.

Lemma task_block_from_syscall_ok s l c :
  sched_inv s l c ->
  wp task_block_from_syscall s (fun _ s' => sched_ok s' /\ same_core s s').
Proof.
  intros Hinv. pose proof Hinv as []. destruct (lookup_lt_is_Some_2 (task_pool s) c) as [x Hx]; [lia|].
  destruct (decide (t_pid x = 0)) as [H0|Hpid].
  - unfold task_block_from_syscall. wp_step. wp_step. rewrite inv_cur0. wp_step.
    apply wp_get_task; [lia|]. intros o Ho. simplify_eq. rewrite H0. apply wp_ret. split; [by exists l, c|done].
  - eapply wp_mono; [by eapply task_block_from_syscall_spec|]. cbv beta zeta.
    intros _ s' (? & ? & _). split; [by eexists _, _|done].
Qed.

(** ** The tick *)

(** What the search of [sched_tick] accepts. *)
Definition preemptible (s : sched) (c i : nat) : bool :=
  bool_decide (task_state_at s i = TASK_READY /\ i <> c).

Lemma tick_scan_run s h c :
  forall m a fuel, h ∉ m -> lseg s (a :: m) h -> (length m < fuel)%nat ->
  tick_scan fuel h c a s = Done (default h (List.find (preemptible s c) (a :: m)), s).
Proof.
  induction m as [|b m IH]; intros a fuel Hnin [Hn Hl] Hf;
    (destruct fuel as [|fuel]; [simpl in Hf; lia|]); simpl in Hn;
    destruct (next_of_Some _ _ _ Hn) as (x & Hx & Hxn); simpl tick_scan;
    assert (Hgx : get_task a s = Done (x, s)) by (unfold get_task, deref; by rewrite Hx);
    rewrite (bind_Done _ _ _ _ _ Hgx); cbn [List.find];
    assert (Hra : preemptible s c a = bool_decide (t_state x = TASK_READY /\ a <> c))
      by (unfold preemptible; by rewrite (state_at_lookup _ _ _ Hx)); rewrite Hra;
    destruct (decide (t_state x = TASK_READY /\ a <> c)) as [Hr|Hr];
    try (rewrite bool_decide_true by done; done); rewrite bool_decide_false by done;
    rewrite Hxn.
  - by rewrite decide_True.
  - rewrite decide_False by set_solver. apply IH; [set_solver|done|simpl in Hf; lia].
Qed.

(** The task the tick switches to from a queue [l] with current task [c]: the
    first one of [l] that is READY and not [c]. *)
Definition tick_choice (s : sched) (l : list nat) (c : nat) : option nat :=
  List.find (preemptible s c) l.

Lemma tick_choice_elem s l c n :
  tick_choice s l c = Some n -> n ∈ l /\ task_state_at s n = TASK_READY /\ n <> c.
Proof.
  intros [Hin Hr]%List.find_some. apply list_elem_of_In in Hin.
  by apply bool_decide_eq_true in Hr as [? ?].
Qed.

Lemma tick_preempt_spec s h l c :
  sched_inv s (h :: l) c ->
  wp (tick_preempt c h) s (fun _ s' =>
    same_core s s' /\
    let expired := u32 (t_priority (default zero_task (task_pool s !! c)) * QUANTUM_BASE)
                   <=? u32 (quantum_counter s + 1) in
    match tick_choice s (h :: l) c with
    | Some n =>
      if expired then
        sched_inv s' (h :: l) n /\ task_state_at s' n = TASK_RUNNING /\
        task_state_at s' c =
          (if decide (task_state_at s c = TASK_RUNNING) then TASK_READY else task_state_at s c) /\
        (forall j, j <> n -> j <> c -> task_state_at s' j = task_state_at s j)
      else sched_inv s' (h :: l) c /\ task_pool s' = task_pool s
    | None => sched_inv s' (h :: l) c /\ task_pool s' = task_pool s
    end).
Proof.
  intros Hinv. pose proof Hinv as []. unfold tick_preempt. wp_step.
  apply wp_get_task; [lia|]. intros x Hx. wp_step. wp_step. wp_step. wp_step.
  rewrite Hx. simpl default.
  destruct (Z.ltb_spec (u32 (quantum_counter s + 1)) (u32 (t_priority x * QUANTUM_BASE))) as [Hq|Hq].
  { apply wp_ret. split; [by split|].
    rewrite (proj2 (Z.leb_gt _ _)) by lia.
    destruct (tick_choice _ _ _); (split; [by apply (sched_inv_frame s)|done]). }
  rewrite (proj2 (Z.leb_le _ _)) by lia. wp_step. wp_step. wp_step.
  set (s1 := upd quantum_counter 0 _).
  assert (Hinv1 : sched_inv s1 (h :: l) c) by by apply (sched_inv_frame s).
  pose proof (inv_ring _ _ _ Hinv1) as Hr1. destruct Hr1 as (_ & Hnd & Hl & _).
  apply list.NoDup_cons in Hnd as [Hnh _].
  unfold wp at 1. rewrite (tick_scan_run s1 h c l h); [|done|done|].
  2: { eapply ring_length in inv_ring0; [|done]. simpl in *. lia. }
  change (List.find (preemptible s1 c) (h :: l)) with (tick_choice s (h :: l) c).
  wp_step. apply wp_get_task.
  { destruct (inv_ring _ _ _ Hinv1) as (_ & _ & _ & Hb).
    apply (proj1 (list.Forall_forall _ _) Hb).
    destruct (tick_choice s (h :: l) c) eqn:E; simpl; [|left].
    by apply tick_choice_elem in E as [? _]. }
  intros y Hy. destruct (tick_choice s (h :: l) c) as [n|] eqn:E; simpl in Hy |- *.
  - apply tick_choice_elem in E as (Hin & Hrdy & Hnc).
    rewrite (state_at_lookup s n y Hy) in Hrdy.
    rewrite decide_False by (intros [?|?]; done).
    wp_step. apply wp_get_task; [simpl; lia|]. intros o Ho.
    assert (Ho' : task_state_at s c = t_state o) by exact (state_at_lookup s c o Ho).
    wp_step. rewrite Ho'. case_decide as Hrun.
    + apply wp_mod_task; [simpl; lia|]. set (s2 := upd task_pool _ s1).
      assert (Hst2 : forall j, task_state_at s2 j = if decide (c = j) then TASK_READY else task_state_at s j).
      { intros j. unfold s2. rewrite state_at_alter by (simpl; lia). by repeat case_decide. }
      assert (Hinv2 : sched_inv s2 (h :: l) c).
      { constructor; try done.
        - simpl. by rewrite length_alter.
        - apply ring_alter; [done|]. by apply (ring_frame s).
        - intros i Hi. rewrite Hst2. case_decide; [by left|auto].
        - intros i Hi. rewrite Hst2. case_decide; [|auto]. subst. intros _.
          apply inv_runnable0; [done|]. right. by rewrite Ho'.
        - intros i. rewrite Hst2. case_decide; [done|auto]. }
      eapply wp_mono; [eapply (switch_to_spec s2 (h :: l) c); [done| |by right]|].
      { rewrite Hst2. by rewrite decide_True. }
      cbv beta. intros _ s3 (? & ? & Hc3 & Hj & _). split.
      { eapply same_core_trans; [|exact Hc3]. eapply same_core_trans; [|by apply same_core_alter]. by split. }
      split_and!; [done|done| |].
      * rewrite Hj by done. rewrite Hst2. by rewrite decide_True.
      * intros j ? ?. rewrite Hj by done. rewrite Hst2. by rewrite decide_False.
    + apply wp_ret.
      eapply wp_mono; [eapply (switch_to_spec s1 (h :: l) c); [done| |by right]|].
      { intros Hr. apply Hrun. by rewrite <- Ho'. }
      cbv beta. intros _ s3 (? & ? & Hc3 & Hj & _). split; [exact Hc3|].
      split_and!; [done|done| |].
      * rewrite Hj by done. exact Ho'.
      * intros j ? ?. by rewrite Hj.
  - rewrite decide_True.
    + apply wp_ret. split; [by split|]. split; [done|done].
    + destruct (decide (h = c)) as [->|Hhc]; [by left|right]. intros Hry.
      pose proof (List.find_none _ _ E h ltac:(by left)) as Hnone.
      apply bool_decide_eq_false in Hnone. apply Hnone. split; [|done].
      by rewrite (state_at_lookup s h y Hy).
Qed.

Lemma wake_sleeper_ok s l c i :
  sched_inv s l c -> (i < TASK_MAX)%nat ->
  wp (wake_sleeper i) s (fun _ s' =>
    same_core s s' /\ (exists l', sched_inv s' (l ++ l') c) /\
    (forall j, runnable (task_state_at s j) -> task_state_at s' j = task_state_at s j) /\
    uptime_ticks s' = uptime_ticks s /\ quantum_counter s' = quantum_counter s).
Proof.
  intros Hinv Hi. pose proof Hinv as []. unfold wake_sleeper. wp_step.
  apply wp_get_task; [lia|]. intros x Hx. wp_step.
  destruct (lookup_lt_is_Some_2 (sleep_meta s) i ltac:(lia)) as [m Hm].
  eapply wp_deref; [done|]. wp_step. wp_step. wp_step.
  2: { wp_step. split_and!; try done. exists []. by rewrite app_nil_r. }
  wp_step. wp_step. set (s1 := upd sleep_meta _ s).
  assert (Hinv1 : sched_inv s1 l c).
  { apply (sched_inv_frame s); try done. simpl. by rewrite length_insert. }
  eapply wp_mono; [by eapply task_unblock_spec|]. cbv beta.
  intros _ s' [Hc H]. split; [exact Hc|].
  change (task_state_at s1 i) with (task_state_at s i) in H.
  destruct (decide (task_state_at s i = TASK_BLOCKED)) as [Hb|Hb].
  - destruct H as (? & ? & Hj & ? & ? & ?). split_and!; try done.
    + by exists [i].
    + intros j Hr. destruct (decide (j = i)) as [->|Hne]; [|exact (Hj j Hne)].
      rewrite Hb in Hr. by destruct Hr.
  - subst. split_and!; try done. exists []. by rewrite app_nil_r.
Qed.

Lemma wake_sleepers_ok idxs s l c :
  sched_inv s l c -> Forall (fun i => i < TASK_MAX)%nat idxs ->
  wp (for_each wake_sleeper idxs) s (fun _ s' =>
    same_core s s' /\ (exists l', sched_inv s' (l ++ l') c) /\
    (forall j, runnable (task_state_at s j) -> task_state_at s' j = task_state_at s j) /\
    uptime_ticks s' = uptime_ticks s /\ quantum_counter s' = quantum_counter s).
Proof.
  intros Hinv Hf. revert s l Hinv. induction Hf as [|i idxs Hi _ IH]; intros s l Hinv; simpl.
  - wp_step. split_and!; try done. exists []. by rewrite app_nil_r.
  - wp_step. eapply wp_mono; [by eapply wake_sleeper_ok|]. cbv beta.
    intros _ s1 (Hc1 & (l1 & Hinv1) & Hj1 & Hu1 & Hq1).
    eapply wp_mono; [by apply (IH s1 _ Hinv1)|]. cbv beta.
    intros _ s2 (Hc2 & (l2 & Hinv2) & Hj2 & Hu2 & Hq2). split_and!.
    + by eapply same_core_trans.
    + exists (l1 ++ l2). by rewrite app_assoc.
    + intros j Hr. rewrite Hj2; [by apply Hj1|]. by rewrite Hj1.
    + congruence.
    + congruence.
Qed.

Lemma tick_account_ok s l c :
  sched_inv s l c ->
  wp tick_account s (fun _ s' =>
    same_core s s' /\ (exists l', sched_inv s' (l ++ l') c) /\
    (forall j, runnable (task_state_at s j) -> task_state_at s' j = task_state_at s j) /\
    uptime_ticks s' = u32 (uptime_ticks s + 1) /\ quantum_counter s' = quantum_counter s).
Proof.
  intros Hinv. pose proof Hinv as []. unfold tick_account. wp_step. wp_step. wp_step. wp_step.
  set (s1 := upd uptime_ticks _ s). change (current_task s1) with (current_task s). rewrite inv_cur0.
  assert (Hinv1 : sched_inv s1 l c) by by apply (sched_inv_frame s).
  wp_step. wp_step. apply wp_mod_task; [simpl; lia|].
  match goal with |- context [alter ?g c _] => set (f := g) end.
  set (s2 := upd task_pool _ s1).
  assert (Hinv2 : sched_inv s2 l c) by by apply sched_inv_neutral.
  assert (Hst2 : forall j, task_state_at s2 j = task_state_at s j).
  { intros j. unfold s2. rewrite state_at_alter by (simpl; lia). case_decide; [|done]. subst.
    unfold task_state_at. simpl. destruct (lookup_lt_is_Some_2 (task_pool s) j ltac:(lia)) as [z Hz].
    by rewrite Hz. }
  assert (Hc2 : same_core s s2).
  { eapply same_core_trans; [|by apply same_core_alter]. by split. }
  wp_step. apply wp_get_task; [simpl; rewrite length_alter; lia|]. intros x Hx.
  assert (Hcont : forall s3, sched_inv s3 l c -> same_core s2 s3 ->
    (forall j, task_state_at s3 j = task_state_at s j) -> uptime_ticks s3 = u32 (uptime_ticks s + 1) ->
    quantum_counter s3 = quantum_counter s ->
    wp (for_each wake_sleeper (seq 1 (TASK_MAX - 1))) s3 (fun _ s' =>
      same_core s s' /\ (exists l', sched_inv s' (l ++ l') c) /\
      (forall j, runnable (task_state_at s j) -> task_state_at s' j = task_state_at s j) /\
      uptime_ticks s' = u32 (uptime_ticks s + 1) /\ quantum_counter s' = quantum_counter s)).
  { intros s3 Hinv3 Hc3 Hst3 Hu3 Hq3. eapply wp_mono; [apply (wake_sleepers_ok _ s3 l c Hinv3)|].
    - apply list.Forall_forall. intros i [_ Hi]%elem_of_seq. unfold TASK_MAX in *. lia.
    - cbv beta. intros _ s4 (Hc4 & Hl & Hj & Hu & Hq). split_and!; [|done| |congruence|congruence].
      + eauto using same_core_trans.
      + intros j. rewrite <- Hst3. apply Hj. }
  destruct (t_pid x =? 0); wp_step; apply Hcont; try done. by apply (sched_inv_frame s2).
Qed.

Lemma sched_tick_ok s l c :
  sched_inv s l c -> wp sched_tick s (fun _ s' => sched_ok s' /\ same_core s s').
Proof.
  intros Hinv. unfold sched_tick. wp_step. eapply wp_mono; [by eapply tick_account_ok|].
  cbv beta. intros _ s1 (Hc1 & (l' & Hinv1) & _). wp_step. wp_step. wp_step. wp_step.
  pose proof Hinv1 as []. rewrite inv_cur0. pose proof inv_ring0 as (Hh & _). rewrite Hh.
  destruct (l ++ l') as [|h lq]; cbn [head].
  - wp_step. apply wp_get_task; [lia|]. intros o Ho.
    destruct (_ && _) eqn:E; [|wp_step; split; [by eexists _, _|done]].
    apply andb_prop in E as [_ Hst%bool_decide_eq_true].
    wp_step. eapply wp_mono; [eapply run_next_spec; [done| |by left]|].
    + rewrite (state_at_lookup _ _ _ Ho). by destruct Hst as [->| ->].
    + cbv beta. intros _ s2 (Hinv2 & _ & ? & _). wp_step. wp_step. wp_step.
      split; [|by eapply same_core_trans]. eexists _, _. by apply (sched_inv_frame s2).
  - eapply wp_mono; [by apply (tick_preempt_spec s1 h lq)|]. cbv beta. intros _ s2 [Hc2 H].
    split; [|by eapply same_core_trans].
    cbv zeta in H. destruct (tick_choice _ _ _) as [n|]; [destruct (_ <=? _)|];
      destruct H as (H & _); by eexists _, _.
Qed.

Lemma task_block_ok s l c :
  sched_inv s l c -> wp task_block s (fun _ s' => sched_ok s' /\ same_core s s').
Proof.
  intros Hinv. pose proof Hinv as []. unfold task_block. wp_step. wp_step. rewrite inv_cur0.
  wp_step. wp_step. wp_step.
  eapply wp_mono; [apply (park_spec s l c c); [done|done|done|intros ? [?|?]; done]|].
  cbv beta. intros _ s1 (Hinv1 & Hsame).
  eapply wp_mono; [by eapply sched_tick_ok|]. cbv beta. intros _ s2 [? Hc]. split; [done|].
  eapply same_core_trans; [|exact Hc]. eapply same_core_trans; [|by apply same_tasks_core].
  by apply same_core_alter.
Qed.
