(* ===== verification/SchedProps.v ===== *)
(** * Properties of the scheduler

    What the tick and the sleep system call promise: which sleepers a tick
    wakes, which task it switches to, how long a sleep lasts, and who is never
    chosen. *)

From S2P Require Import Prelude Sched SchedInv.

(** ** Frames of the scheduler operations *)

Section frames.
Context {X : Type} (f : sched -> X).

Lemma keeps_mod_task i g : (forall p s, f (s <| task_pool := p |>) = f s) -> keeps f (mod_task i g).
Proof. intros H s ? ?. unfold mod_task. case_match; [|done]. intros [= _ <-]. apply H. Qed.

Lemma keeps_get_task i : keeps f (get_task i).
Proof. apply keeps_deref. Qed.

Lemma keeps_tick_scan start cur : forall fuel next, keeps f (tick_scan fuel start cur next).
Proof.
  induction fuel as [|fuel IH]; intros next; simpl; [apply keeps_fault|].
  apply keeps_bind; [apply keeps_get_task|]. intros x. repeat case_match; auto with keepsdb.
Qed.
End frames.
#[export] Hint Resolve keeps_get_task keeps_tick_scan : keepsdb.

Ltac keeps_sched := keeps_tac; try (apply keeps_mod_task; intros; reflexivity).

Lemma tick_preempt_keeps_sleep c h : keeps sleep_meta (tick_preempt c h).
Proof. unfold tick_preempt, switch_to, run_next. repeat keeps_sched. Qed.

Lemma queue_remove_walk_keeps_sleep t : forall fuel p, keeps sleep_meta (queue_remove_walk fuel t p).
Proof. induction fuel as [|fuel IH]; intros p; cbn [queue_remove_walk]; repeat keeps_sched; auto. Qed.

Lemma ready_scan_keeps_sleep : forall fuel p, keeps sleep_meta (ready_scan fuel p).
Proof. induction fuel as [|fuel IH]; intros p; cbn [ready_scan]; repeat keeps_sched; auto. Qed.
#[export] Hint Resolve queue_remove_walk_keeps_sleep ready_scan_keeps_sleep : keepsdb.

Lemma task_block_from_syscall_keeps_sleep : keeps sleep_meta task_block_from_syscall.
Proof.
  unfold task_block_from_syscall, queue_remove, pick_successor, switch_to, run_next. repeat keeps_sched.
Qed.

Lemma tick_preempt_keeps_uptime c h : keeps uptime_ticks (tick_preempt c h).
Proof. unfold tick_preempt, switch_to, run_next. repeat keeps_sched. Qed.

(** ** Sleepers *)

(** What the sleep machinery sees of a slot. *)
Definition sleep_view (s : sched) (i : nat) : task_state * option sleep_meta_t :=
  (task_state_at s i, sleep_meta s !! i).

(** The slot after the wake-up loop of a tick at time [up]. *)
Definition woken (up : Z) (v : task_state * option sleep_meta_t) : task_state * option sleep_meta_t :=
  match v with
  | (TASK_BLOCKED, Some m) =>
    if truth (sl_active m) && deadline_due up (sl_deadline m)
    then (TASK_READY, Some (mk_sleep (sl_deadline m) 0)) else v
  | _ => v
  end.

Lemma wake_sleeper_view s l c i :
  sched_inv s l c -> (i < TASK_MAX)%nat ->
  wp (wake_sleeper i) s (fun _ s' =>
    (exists l', sched_inv s' l' c) /\ uptime_ticks s' = uptime_ticks s /\
    forall j, sleep_view s' j = if decide (j = i) then woken (uptime_ticks s) (sleep_view s i) else sleep_view s j).
Proof.
  intros Hinv Hi. pose proof Hinv as []. unfold wake_sleeper, sleep_view. wp_step.
  apply wp_get_task; [lia|]. intros x Hx. wp_step.
  destruct (lookup_lt_is_Some_2 (sleep_meta s) i ltac:(lia)) as [m Hm].
  eapply wp_deref; [done|]. wp_step. wp_step. rewrite Hm, (state_at_lookup _ _ _ Hx).
  destruct (truth (sl_active m) && bool_decide (t_state x = TASK_BLOCKED) &&
            deadline_due (uptime_ticks s) (sl_deadline m)) eqn:E.
  - apply andb_prop in E as [[Ea Eb%bool_decide_eq_true]%andb_prop Ed].
    wp_step. wp_step. set (s1 := upd sleep_meta _ s).
    assert (Hinv1 : sched_inv s1 l c).
    { apply (sched_inv_frame s); try done. simpl. by rewrite length_insert. }
    eapply wp_mono; [by eapply task_unblock_spec|]. cbv beta. intros _ s' [_ H].
    change (task_state_at s1 i) with (task_state_at s i) in H.
    rewrite (state_at_lookup _ _ _ Hx), Eb, decide_True in H by done.
    destruct H as (? & Hst & Hj & Hsl & Hup & _). split_and!; [by eexists|done|]. intros j.
    rewrite Hsl. simpl. rewrite Eb. simpl. rewrite Ea, Ed. case_decide as Eij.
    + subst j. by rewrite Hst, list_lookup_insert_eq by lia.
    + rewrite list_lookup_insert_ne by done. by rewrite Hj.
  - wp_step. split_and!; [by eexists|done|]. intros j. destruct (decide (j = i)) as [->|Eij]; [|done].
    rewrite Hm, (state_at_lookup _ _ _ Hx). unfold woken. destruct (t_state x); try done.
    rewrite bool_decide_true, andb_true_r in E by done. by rewrite E.
Qed.

Lemma wake_sleepers_view idxs : forall s l c,
  sched_inv s l c -> NoDup idxs -> Forall (fun i => i < TASK_MAX)%nat idxs ->
  wp (for_each wake_sleeper idxs) s (fun _ s' =>
    forall j, sleep_view s' j =
      if decide (j ∈ idxs) then woken (uptime_ticks s) (sleep_view s j) else sleep_view s j).
Proof.
  induction idxs as [|i idxs IH]; intros s l c Hinv Hnd Hf; cbn [for_each].
  - wp_step. intros j. by rewrite decide_False by set_solver.
  - apply list.NoDup_cons in Hnd as [Hni Hnd]. apply list.Forall_cons in Hf as [Hi Hf].
    wp_step. eapply wp_mono; [by eapply wake_sleeper_view|]. cbv beta.
    intros _ s1 ((l1 & Hinv1) & Hu1 & Hv1). eapply wp_mono; [by eapply IH|]. cbv beta.
    intros _ s2 Hv2 j. rewrite Hv2, Hu1, Hv1. destruct (decide (j = i)) as [->|Hji].
    + rewrite decide_False by done. by rewrite decide_True by left.
    + destruct (decide (j ∈ idxs)); [by rewrite decide_True by by right|].
      rewrite decide_False; [done|]. set_solver.
Qed.

(** The accounting half of a tick wakes the sleepers that are due and no one else. *)
Lemma tick_account_view s l c :
  sched_inv s l c ->
  wp tick_account s (fun _ s' => forall j, sleep_view s' j =
    if decide (0 < j < TASK_MAX)%nat then woken (u32 (uptime_ticks s + 1)) (sleep_view s j)
    else sleep_view s j).
Proof.
  intros Hinv. pose proof Hinv as []. unfold tick_account. wp_step. wp_step. wp_step. wp_step.
  set (s1 := upd uptime_ticks _ s). change (current_task s1) with (current_task s). rewrite inv_cur.
  assert (Hinv1 : sched_inv s1 l c) by by apply (sched_inv_frame s).
  wp_step. wp_step. apply wp_mod_task; [simpl; lia|].
  match goal with |- context [alter ?g c _] => set (f := g) end.
  set (s2 := upd task_pool _ s1).
  assert (Hinv2 : sched_inv s2 l c) by by apply sched_inv_neutral.
  assert (Hv2 : forall j, sleep_view s2 j = sleep_view s j).
  { intros j. unfold sleep_view. f_equal. unfold s2. rewrite state_at_alter by (simpl; lia).
    case_decide; [|done]. subst. unfold task_state_at. simpl.
    destruct (lookup_lt_is_Some_2 (task_pool s) j ltac:(lia)) as [z Hz]. by rewrite Hz. }
  wp_step. apply wp_get_task; [simpl; rewrite length_alter; lia|]. intros x Hx.
  assert (Hcont : forall s3, sched_inv s3 l c -> (forall j, sleep_view s3 j = sleep_view s j) ->
    uptime_ticks s3 = u32 (uptime_ticks s + 1) ->
    wp (for_each wake_sleeper (seq 1 (TASK_MAX - 1))) s3 (fun _ s' => forall j, sleep_view s' j =
      if decide (0 < j < TASK_MAX)%nat then woken (u32 (uptime_ticks s + 1)) (sleep_view s j)
      else sleep_view s j)).
  { intros s3 Hinv3 Hv3 Hu3. eapply wp_mono; [eapply wake_sleepers_view; [done|apply NoDup_seq|]|].
    - apply list.Forall_forall. intros i [_ Hi]%elem_of_seq. unfold TASK_MAX in *. lia.
    - cbv beta. intros _ s4 Hv4 j. rewrite Hv4, Hu3, Hv3.
      assert (j ∈ seq 1 (TASK_MAX - 1) <-> (0 < j < TASK_MAX)%nat) as Hiff
        by (rewrite elem_of_seq; unfold TASK_MAX; lia).
      destruct (decide (0 < j < TASK_MAX)%nat);
        [by rewrite decide_True by by apply Hiff|by rewrite decide_False by by rewrite Hiff]. }
  destruct (t_pid x =? 0); wp_step; apply Hcont; try done. by apply (sched_inv_frame s2).
Qed.

(** ** A whole tick *)

(** A tick changes no state but between READY and RUNNING once sleepers are woken. *)
Definition settles (v w : task_state) : Prop :=
  (runnable v -> runnable w) /\ (~ runnable v -> w = v).

Lemma settles_refl v : settles v v.
Proof. by split. Qed.
Lemma settles_eq v w : w = v -> settles v w.
Proof. intros ->. apply settles_refl. Qed.

(** The hand-over to the idle task when the queue is empty. *)
Lemma tick_idle_spec s c :
  sched_inv s [] c ->
  wp (let* o := get_task c in
      if negb (t_pid o =? 0) && bool_decide (t_state o = TASK_ZOMBIE \/ t_state o = TASK_BLOCKED)
      then do* run_next O in
           do* modify (fun s => s <| msr_fs_base := 0 |>) in
           modify (fun s => s <| switches := (c, O) :: switches s |>)
      else ret tt) s (fun _ s' =>
    (exists n, sched_inv s' [] n) /\ uptime_ticks s' = uptime_ticks s /\ sleep_meta s' = sleep_meta s /\
    (forall j, j <> O -> task_state_at s' j = task_state_at s j) /\
    (task_state_at s' O = task_state_at s O \/ runnable (task_state_at s' O))).
Proof.
  intros Hinv. pose proof Hinv as []. apply wp_bind, wp_get_task; [lia|]. intros o Ho.
  destruct (_ && _) eqn:E; [|wp_step; split_and!; [by eexists|done..|by left]].
  apply andb_prop in E as [_ Hst%bool_decide_eq_true]. wp_step.
  eapply wp_mono; [apply (wp_keeps sleep_meta); [|eapply run_next_spec; [done| |by left]]|].
  - unfold run_next. repeat keeps_sched.
  - rewrite (state_at_lookup _ _ _ Ho). by destruct Hst as [->| ->].
  - cbv beta. intros _ s2 [(Hinv2 & Hrun & _ & Hj & _ & Hup) Hsl]. wp_step. wp_step. wp_step.
    split_and!; [|done|done|exact Hj|right; by right]. eexists. by apply (sched_inv_frame s2).
Qed.

Lemma tick_preempt_view s h l c :
  sched_inv s (h :: l) c ->
  wp (tick_preempt c h) s (fun _ s' =>
    (exists n, sched_inv s' (h :: l) n) /\ uptime_ticks s' = uptime_ticks s /\
    sleep_meta s' = sleep_meta s /\ forall j, settles (task_state_at s j) (task_state_at s' j)).
Proof.
  intros Hinv.
  eapply wp_mono; [apply (wp_keeps sleep_meta), (wp_keeps uptime_ticks), tick_preempt_spec, Hinv;
    [apply tick_preempt_keeps_sleep|apply tick_preempt_keeps_uptime]|].
  cbv beta zeta. intros _ s' [[[_ H] Hup] Hsl].
  destruct (tick_choice s (h :: l) c) as [n|] eqn:Ech; [destruct (_ <=? _)|].
  - destruct H as (Hinv' & Hn & Hc & Hj). apply tick_choice_elem in Ech as (_ & Hrdy & Hnc).
    split_and!; [by eexists|done|done|]. intros j.
    destruct (decide (j = n)) as [->|Hjn]; [rewrite Hn, Hrdy; by split; [right|intros []; left]|].
    destruct (decide (j = c)) as [->|Hjc]; [|by apply settles_eq, Hj].
    rewrite Hc. case_decide as E; [|apply settles_refl]. rewrite E. by split; [left|intros []; right].
  - destruct H as (? & Hp). split_and!; [by eexists|done|done|]. intros j. apply settles_eq.
    unfold task_state_at. by rewrite Hp.
  - destruct H as (? & Hp). split_and!; [by eexists|done|done|]. intros j. apply settles_eq.
    unfold task_state_at. by rewrite Hp.
Qed.

(** A tick as the sleepers see it. *)
Lemma sched_tick_view s l c :
  sched_inv s l c ->
  wp sched_tick s (fun _ s' =>
    (exists l' n, sched_inv s' (l ++ l') n) /\ uptime_ticks s' = u32 (uptime_ticks s + 1) /\
    (forall j, (0 < j < TASK_MAX)%nat ->
      let v := woken (u32 (uptime_ticks s + 1)) (sleep_view s j) in
      sleep_meta s' !! j = snd v /\ settles (fst v) (task_state_at s' j)) /\
    (task_state_at s' O = task_state_at s O \/ runnable (task_state_at s' O))).
Proof.
  intros Hinv. unfold sched_tick. wp_step.
  eapply wp_mono; [apply wp_and; [by eapply tick_account_ok|by eapply tick_account_view]|].
  cbv beta. intros _ s1 [(_ & (l' & Hinv1) & _ & Hup & _) Hv]. wp_step. wp_step. wp_step. wp_step.
  pose proof (inv_ring _ _ _ Hinv1) as (Hh & _). rewrite (inv_cur _ _ _ Hinv1), Hh.
  assert (Hfin : forall s2, (exists n, sched_inv s2 (l ++ l') n) ->
    uptime_ticks s2 = uptime_ticks s1 -> sleep_meta s2 = sleep_meta s1 ->
    (forall j, j <> O -> settles (task_state_at s1 j) (task_state_at s2 j)) ->
    task_state_at s2 O = task_state_at s1 O \/ runnable (task_state_at s2 O) ->
    (exists l' n, sched_inv s2 (l ++ l') n) /\ uptime_ticks s2 = u32 (uptime_ticks s + 1) /\
    (forall j, (0 < j < TASK_MAX)%nat ->
      let v := woken (u32 (uptime_ticks s + 1)) (sleep_view s j) in
      sleep_meta s2 !! j = snd v /\ settles (fst v) (task_state_at s2 j)) /\
    (task_state_at s2 O = task_state_at s O \/ runnable (task_state_at s2 O))).
  { intros s2 [n Hn] Hu Hs Hset H0. split_and!; [by eauto|congruence| |].
    - intros j Hj. cbv zeta. specialize (Hv j). rewrite decide_True in Hv by done. rewrite <- Hv, Hs. simpl.
      split; [done|]. apply Hset. lia.
    - specialize (Hv O). rewrite decide_False in Hv by lia. injection Hv as Hv0 _. by rewrite <- Hv0. }
  destruct (l ++ l') as [|h lq]; cbn [head].
  - eapply wp_mono; [by apply tick_idle_spec|]. cbv beta. intros _ s2 (? & ? & ? & Hj & H0).
    apply Hfin; try done. intros j Hj0. by apply settles_eq, Hj.
  - eapply wp_mono; [by apply tick_preempt_view|]. cbv beta. intros _ s2 (? & ? & ? & Hj).
    apply Hfin; auto. destruct (Hj O) as [Hr Hn]. destruct (decide (runnable (task_state_at s1 O))); [right|left]; auto.
Qed.

(** What the scheduler makes of a task that is there, and of one that is not. *)
Definition alive (v : task_state) : Prop := v <> TASK_UNUSED /\ v <> TASK_ZOMBIE.
Definition fate (v w : task_state) : Prop := (~ alive v -> w = v) /\ (alive v -> alive w).

Lemma fate_refl v : fate v v.
Proof. by split. Qed.
Lemma fate_trans u v w : fate u v -> fate v w -> fate u w.
Proof. intros [H1 H2] [H3 H4]. split; [|auto]. intros Hu. rewrite H3; [auto|]. by rewrite H1. Qed.
Lemma runnable_alive v : runnable v -> alive v.
Proof. by intros [-> | ->]. Qed.
Lemma fate_alive v w : alive v -> alive w -> fate v w.
Proof. by split. Qed.

Lemma sched_tick_fate s l c : sched_inv s l c -> alive (task_state_at s O) ->
  wp sched_tick s (fun _ s' => sched_ok s' /\ same_core s s' /\ forall j, fate (task_state_at s j) (task_state_at s' j)).
Proof.
  intros Hinv H0. eapply wp_mono; [apply wp_and; [by eapply sched_tick_ok|by eapply sched_tick_view]|].
  cbv beta. intros _ s' [[Hok Hc] (_ & _ & Hv & Hi)]. split_and!; [done|done|]. intros j.
  destruct (decide (j = O)) as [->|Hj0].
  { destruct Hi as [-> |Hr]; [apply fate_refl|]. by apply fate_alive, runnable_alive. }
  destruct (decide (j < TASK_MAX)%nat) as [Hj|Hj].
  - destruct (Hv j ltac:(lia)) as [_ [Hr Hn]]. unfold sleep_view, woken in Hr, Hn. destruct (task_state_at s j) eqn:E; simpl in Hr, Hn;
      try (by split; [intros _; apply Hn; intros [?|?]|intros [? ?]]); apply fate_alive; try done;
      try (apply runnable_alive, Hr; by (left + right)).
    destruct (sleep_meta s !! j) as [m|]; [|by rewrite Hn by (by intros [?|?])].
    destruct (_ && _); [by apply runnable_alive, Hr; left|]. simpl in Hn. by rewrite Hn by (by intros [?|?]).
  - destruct Hok as (l' & c' & Hinv'). unfold task_state_at.
    rewrite !lookup_ge_None_2; [apply fate_refl|rewrite (inv_pool _ _ _ Hinv'); lia|rewrite (inv_pool _ _ _ Hinv); lia].
Qed.

Lemma task_block_fate s l c : sched_inv s l c -> alive (task_state_at s c) -> alive (task_state_at s O) ->
  wp task_block s (fun _ s' => sched_ok s' /\ same_core s s' /\ forall j, fate (task_state_at s j) (task_state_at s' j)).
Proof.
  intros Hinv Hc H0. pose proof (inv_cur_lt _ _ _ Hinv) as Hlt. pose proof (inv_pool _ _ _ Hinv) as Hpool.
  unfold task_block. wp_step. wp_step. rewrite (inv_cur _ _ _ Hinv). do 3 wp_step. set (f := fun y : task => _).
  eapply wp_mono; [by apply (park_spec s l c c f); [..|intros ? [?|?]]|]. cbv beta. intros _ s1 (Hinv1 & Hsame).
  assert (Hst : forall j, task_state_at s1 j = if decide (c = j) then TASK_BLOCKED else task_state_at s j).
  { intros j. rewrite (same_tasks_state _ _ _ Hsame), state_at_alter by lia. by repeat case_decide. }
  assert (Hf : forall j, fate (task_state_at s j) (task_state_at s1 j)).
  { intros j. rewrite Hst. case_decide; [subst j; by apply fate_alive|apply fate_refl]. }
  eapply wp_mono; [eapply sched_tick_fate; [done|by apply (Hf O)]|]. cbv beta. intros _ s2 (? & Hcore & Hf2). split_and!; [done| |].
  - eapply same_core_trans; [|exact Hcore]. eapply same_core_trans; [|by apply same_tasks_core]. by apply same_core_alter.
  - intros j. by eapply fate_trans.
Qed.

(** ** How long a sleep lasts *)

Lemma deadline_due_spec now n k :
  0 <= now < 2 ^ 32 -> 0 < n <= 2 ^ 31 -> 0 <= k < 2 ^ 31 ->
  deadline_due (u32 (now + k)) (u32 (now + n)) = (n <=? k).
Proof.
  intros Hnow Hn Hk. unfold deadline_due, i32, u32. change 4294967296 with (2 ^ 32).
  rewrite Zmod_mod, <- Zminus_mod. replace (now + k - (now + n)) with (k - n) by lia.
  destruct (Z.leb_spec n k).
  - rewrite Z.mod_small by lia. destruct (Z.ltb_spec (k - n) (2 ^ 31)); [|lia]. apply Z.leb_le. lia.
  - replace ((k - n) mod 2 ^ 32) with (k - n + 2 ^ 32).
    2: { rewrite <- (Z_mod_plus_full (k - n) 1). rewrite Z.mod_small; lia. }
    destruct (Z.ltb_spec (k - n + 2 ^ 32) (2 ^ 31)); [lia|]. apply Z.leb_gt. lia.
Qed.

Fixpoint ticks (n : nat) : M sched unit :=
  match n with O => ret tt | S n' => do* ticks n' in sched_tick end.

(** The sleeping slot [c] after [k] of [n] ticks. *)
Definition asleep (up0 n : Z) (c : nat) (k : Z) (s : sched) : Prop :=
  sched_ok s /\ uptime_ticks s = u32 (up0 + k) /\
  if n <=? k then runnable (task_state_at s c)
  else task_state_at s c = TASK_BLOCKED /\ sleep_meta s !! c = Some (mk_sleep (u32 (up0 + n)) 1).

Lemma asleep_tick up0 n c k s :
  (0 < c < TASK_MAX)%nat -> 0 <= up0 < 2 ^ 32 -> 0 < n <= 2 ^ 31 -> 0 <= k -> k + 1 < 2 ^ 31 ->
  asleep up0 n c k s -> wp sched_tick s (fun _ => asleep up0 n c (k + 1)).
Proof.
  intros Hc Hup Hn Hk Hk1 ((l & r & Hinv) & Hu & Hs).
  eapply wp_mono; [by eapply sched_tick_view|]. cbv beta. intros _ s' ((l' & r' & Hinv') & Hu' & Hv & _).
  specialize (Hv c Hc). cbv zeta in Hv.
  assert (Htime : u32 (uptime_ticks s + 1) = u32 (up0 + (k + 1))).
  { rewrite Hu. unfold u32. rewrite Zplus_mod_idemp_l. f_equal. lia. }
  rewrite Htime in Hv, Hu'. unfold asleep. split_and!; [by eexists _, _|done|].
  unfold sleep_view in Hv. destruct (Z.leb_spec n k) as [Hle|Hgt].
  - rewrite (proj2 (Z.leb_le n (k + 1))) by lia. destruct Hv as [_ [Hset _]]. apply Hset.
    by destruct Hs as [-> | ->]; [left|right].
  - destruct Hs as [Hb Hm]. rewrite Hb, Hm in Hv. simpl in Hv.
    rewrite deadline_due_spec in Hv by lia.
    destruct (n <=? k + 1).
    + destruct Hv as [_ [Hset _]]. apply Hset. by left.
    + destruct Hv as [Hm' [_ Hset]]. split; [|done]. apply Hset. by intros [|].
Qed.

Lemma asleep_ticks up0 n c s k :
  (0 < c < TASK_MAX)%nat -> 0 <= up0 < 2 ^ 32 -> 0 < n <= 2 ^ 31 -> Z.of_nat k < 2 ^ 31 ->
  asleep up0 n c 0 s -> wp (ticks k) s (fun _ => asleep up0 n c (Z.of_nat k)).
Proof.
  intros Hc Hup Hn Hk H0. induction k as [|k IH]; cbn [ticks]; [done|].
  wp_step. eapply wp_mono; [apply IH; lia|]. cbv beta. intros _ s' H'.
  eapply wp_mono; [by apply (asleep_tick up0 n c (Z.of_nat k)); [..|lia|lia|]|].
  cbv beta. intros _ s2 H2. by replace (Z.of_nat (S k)) with (Z.of_nat k + 1) by lia.
Qed.

Lemma sleep_starts s l c x m n :
  sched_inv s l c -> (0 < c)%nat -> task_pool s !! c = Some x -> t_pid x <> 0 ->
  t_address_space x <> 0 -> sleep_meta s !! c = Some m -> sl_active m = 0 ->
  0 <= uptime_ticks s < 2 ^ 32 -> 0 < n ->
  wp (task_sleep_ticks_from_syscall n) s (fun r s' => r = 0 /\ asleep (uptime_ticks s) n c 0 s').
Proof.
  intros Hinv Hc Hx Hpid Has Hm Hact Hup Hn. pose proof Hinv as [].
  unfold task_sleep_ticks_from_syscall. wp_step. wp_step. rewrite inv_cur. wp_step.
  eapply wp_deref; [done|]. rewrite (proj2 (Z.eqb_neq _ _) Hpid), (proj2 (Z.eqb_neq _ _) Has). simpl orb.
  rewrite (proj2 (Z.eqb_neq n 0)) by lia. wp_step. eapply wp_deref; [done|]. rewrite Hact.
  change (truth 0) with false. cbv iota. wp_step. wp_step. wp_step. wp_step. set (s1 := upd sleep_meta _ s).
  assert (Hinv1 : sched_inv s1 l c).
  { apply (sched_inv_frame s); try done. simpl. by rewrite length_insert. }
  wp_step. eapply wp_mono.
  { apply (wp_keeps sleep_meta); [|by eapply task_block_from_syscall_spec].
    apply task_block_from_syscall_keeps_sleep. }
  cbv beta zeta. intros _ s2 [(Hinv2 & _ & _ & Hb & _ & _ & Hu) Hsl]. wp_step. split; [done|].
  split_and!; [by eexists _, _|by rewrite Hu, Z.add_0_r, u32_small|].
  rewrite (proj2 (Z.leb_gt n 0)) by lia. split.
  - apply Hb. destruct (List.find (is_ready s1) _) as [j|] eqn:E; simpl; [|lia].
    apply find_ready_elem in E as [[Hne _]%list_elem_of_filter _]. done.
  - rewrite Hsl. simpl. rewrite list_lookup_insert_eq by lia. done.
Qed.

(** ** Who is chosen *)

(** Two tasks at the front of the queue, one of them running. *)
Definition duel (a b : nat) (rest : list nat) (s : sched) : Prop :=
  exists l' c, sched_inv s (a :: b :: rest ++ l') c /\ (c = a \/ c = b) /\ task_state_at s c = TASK_RUNNING.

Lemma duel_choice s a b l c :
  sched_inv s (a :: b :: l) c -> c = a \/ c = b ->
  tick_choice s (a :: b :: l) c = Some (if decide (c = a) then b else a).
Proof.
  intros [] Hc. destruct inv_ring as (_ & Hnd & _).
  apply list.NoDup_cons in Hnd as [Ha _].
  assert (Hready : forall i, i ∈ a :: b :: l -> i <> c -> task_state_at s i = TASK_READY).
  { intros i Hi Hne. destruct (inv_queued i Hi) as [|Hr]; [done|]. by apply inv_running in Hr. }
  unfold tick_choice. cbn [List.find]. unfold preemptible.
  destruct Hc as [-> | ->].
  - rewrite bool_decide_false by naive_solver. rewrite bool_decide_true; [by rewrite decide_True|].
    split; [apply Hready; set_solver|set_solver].
  - rewrite bool_decide_true; [rewrite decide_False by set_solver; done|].
    split; [apply Hready; set_solver|set_solver].
Qed.

Lemma duel_tick a b rest s : duel a b rest s -> wp sched_tick s (fun _ => duel a b rest).
Proof.
  intros (l' & c & Hinv & Hc & Hrun). unfold sched_tick. wp_step.
  eapply wp_mono; [by eapply tick_account_ok|]. cbv beta. intros _ s1 (_ & (l2 & Hinv1) & Hst & _).
  wp_step. wp_step. wp_step. wp_step.
  pose proof (inv_ring _ _ _ Hinv1) as (Hh & _). rewrite (inv_cur _ _ _ Hinv1), Hh. cbn [app head].
  replace ((a :: b :: rest ++ l') ++ l2) with (a :: b :: rest ++ (l' ++ l2)) in Hinv1
    by (simpl; by rewrite app_assoc).
  assert (Hrun1 : task_state_at s1 c = TASK_RUNNING) by (rewrite Hst by (right; done); done).
  eapply wp_mono; [by apply tick_preempt_spec|]. cbv beta zeta. intros _ s2 [_ H].
  rewrite (duel_choice _ _ _ _ _ Hinv1 Hc) in H. case_match.
  - destruct H as (Hinv2 & Hn & _). eexists _, _. split_and!; [done| |done].
    case_decide; [by right|by left].
  - destruct H as (Hinv2 & Hp). eexists _, _. split_and!; [done|done|].
    unfold task_state_at. by rewrite Hp.
Qed.

Lemma duel_ticks a b rest k : forall s, duel a b rest s -> wp (ticks k) s (fun _ => duel a b rest).
Proof.
  induction k as [|k IH]; intros s H; cbn [ticks]; [done|]. wp_step.
  eapply wp_mono; [by apply IH|]. cbv beta. intros _ s'. apply duel_tick.
Qed.

Lemma duel_others a b rest s d :
  duel a b rest s -> d ∈ rest -> task_state_at s d = TASK_READY /\ current_task s <> Some d.
Proof.
  intros (l' & c & Hinv & Hc & Hrun) Hd. pose proof Hinv as [].
  destruct inv_ring as (_ & Hnd & _).
  assert (Hdc : d <> c).
  { apply list.NoDup_cons in Hnd as [Ha [Hb _]%list.NoDup_cons]. intros ->. set_solver. }
  split; [|congruence].
  destruct (inv_queued d) as [|Hr]; [set_solver|done|]. by apply inv_running in Hr.
Qed.

(** ** A decision procedure for the invariant on concrete states *)

Fixpoint lseg_check (s : sched) (l : list nat) (z : nat) : bool :=
  match l with
  | [] => true
  | a :: l' => bool_decide (next_of s a = Some (default z (head l'))) && lseg_check s l' z
  end.

Definition sched_check (s : sched) (l : list nat) (c : nat) : bool :=
  bool_decide (length (task_pool s) = TASK_MAX) && bool_decide (length (sleep_meta s) = TASK_MAX) &&
  bool_decide (run_queue_head s = head l) && bool_decide (NoDup l) &&
  lseg_check s l (default O (head l)) && forallb (fun i => Nat.ltb i TASK_MAX) l &&
  bool_decide (current_task s = Some c) && Nat.ltb c TASK_MAX &&
  forallb (fun i => bool_decide (runnable (task_state_at s i))) l &&
  forallb (fun i => bool_decide (i = O) || negb (bool_decide (runnable (task_state_at s i))) || bool_decide (i ∈ l))
    (seq 0 TASK_MAX) &&
  forallb (fun i => negb (bool_decide (task_state_at s i = TASK_RUNNING)) || bool_decide (i = c)) (seq 0 TASK_MAX).

Lemma lseg_check_sound s l z : lseg_check s l z = true -> lseg s l z.
Proof.
  induction l as [|a l IH]; simpl; [done|]. intros [H1 H2]%andb_prop.
  split; [by apply bool_decide_eq_true in H1|auto].
Qed.

Lemma forallb_elem {A} (p : A -> bool) l x : forallb p l = true -> x ∈ l -> p x = true.
Proof. intros H Hx%list_elem_of_In. by eapply (proj1 (forallb_forall p l)). Qed.

Lemma sched_check_sound s l c : sched_check s l c = true -> sched_inv s l c.
Proof.
  unfold sched_check. rewrite !andb_true_iff, !bool_decide_eq_true, Nat.ltb_lt.
  intros ((((((((((Hp & Hsl) & Hh) & Hnd) & Hseg) & Hb) & Hc) & Hcl) & Hq) & Hr) & Hrun).
  assert (Hout : forall i, i ∉ seq 0 TASK_MAX -> task_state_at s i = TASK_UNUSED).
  { intros i Hi. unfold task_state_at. rewrite lookup_ge_None_2; [done|].
    rewrite elem_of_seq in Hi. lia. }
  constructor; try done.
  - split_and!; [done|done|by apply lseg_check_sound|]. apply list.Forall_forall. intros i Hi.
    apply (forallb_elem _ _ _ Hb), Nat.ltb_lt in Hi. lia.
  - intros i Hi. by apply (forallb_elem _ _ _ Hq), bool_decide_eq_true in Hi.
  - intros i Hi Hri. destruct (decide (i ∈ seq 0 TASK_MAX)) as [Hin|Hin].
    + apply (forallb_elem _ _ _ Hr) in Hin. rewrite !orb_true_iff, negb_true_iff, !bool_decide_eq_true, bool_decide_eq_false in Hin.
      destruct Hin as [[?|?]|?]; done.
    + rewrite Hout in Hri by done. by destruct Hri.
  - intros i Hi. destruct (decide (i ∈ seq 0 TASK_MAX)) as [Hin|Hin].
    + apply (forallb_elem _ _ _ Hrun) in Hin. rewrite orb_true_iff, negb_true_iff, bool_decide_eq_true, bool_decide_eq_false in Hin.
      by destruct Hin.
    + by rewrite Hout in Hi.
Qed.

(** A concrete state: idle, three queued tasks of which the first runs, one blocked. *)
Definition demo_task (pid : Z) (st : task_state) (next : option nat) : task :=
  zero_task <| t_pid := pid |> <| t_state := st |> <| t_priority := 1 |> <| t_address_space := 4096 |>
            <| t_next := next |>.

Definition demo_sched : sched :=
  mk_sched ([demo_task 0 TASK_READY None; demo_task 1 TASK_RUNNING (Some 2%nat);
             demo_task 2 TASK_READY (Some 3%nat); demo_task 3 TASK_READY (Some 1%nat);
             demo_task 4 TASK_BLOCKED None] ++ replicate 11 zero_task)
    (Some 1%nat) (Some 1%nat) 5 0xFFFFFFFE 0 (replicate TASK_MAX (mk_sleep 0 0)) 0 0 [].

Lemma demo_sched_inv : sched_inv demo_sched [1; 2; 3]%nat 1%nat.
Proof. apply sched_check_sound. by vm_compute. Qed.

(** ** Main properties *)

(** C20: The circular singly linked run queue implements a list: [queue_add] of a
    task that is not queued appends it and reports success, [queue_remove]
    deletes the task and keeps the order of the others, and neither changes
    anything but queue links and the head. *)
Theorem run_queue_refines_list s l t :
  ring s l -> (t < length (task_pool s))%nat -> (length l <= TASK_MAX)%nat ->
  (t ∉ l -> exists s', queue_add t s = Done (0, s') /\ ring s' (l ++ [t]) /\ same_tasks s s') /\
  (exists s', queue_remove t s = Done (tt, s') /\ ring s' (filter (fun i => i <> t) l) /\ same_tasks s s').
Proof. intros Hr Ht Hl. split; [intros Hnin; by apply queue_add_spec|by apply queue_remove_filter]. Qed.

Lemma run_queue_refines_list_witness :
  exists s', queue_remove 2 demo_sched = Done (tt, s') /\ ring s' [1; 3]%nat /\ same_tasks demo_sched s'.
Proof.
  apply (run_queue_refines_list demo_sched [1; 2; 3]%nat 2).
  - exact (inv_ring _ _ _ demo_sched_inv).
  - by vm_compute; lia.
  - by vm_compute; lia.
Defined.





(** The tick searches from the head of the queue and never rotates it: while
    the first two queued tasks are runnable and one of them runs, no number of
    ticks ever runs a third queued task, whatever the priorities. *)
Theorem third_task_starves s a b rest c d k :
  sched_inv s (a :: b :: rest) c -> c = a \/ c = b -> task_state_at s c = TASK_RUNNING -> d ∈ rest ->
  wp (ticks k) s (fun _ s' => task_state_at s' d = TASK_READY /\ current_task s' <> Some d).
Proof.
  intros Hinv Hc Hrun Hd. eapply wp_mono; [apply (duel_ticks a b rest)|].
  - exists [], c. by rewrite app_nil_r.
  - cbv beta. intros _ s' H'. by eapply duel_others.
Qed.

Lemma third_task_starves_witness :
  wp (ticks 100) demo_sched (fun _ s' => task_state_at s' 3 = TASK_READY /\ current_task s' <> Some 3%nat).
Proof.
  apply (third_task_starves demo_sched 1 2 [3%nat] 1 3 100 demo_sched_inv); [by left|by vm_compute|set_solver].
Defined.

(** Blocking in a system call takes the current task off the queue and hands
    the processor to the first READY task left in it, else to the idle task;
    no other task changes state. *)
Theorem block_hands_over s l c x :
  sched_inv s l c -> task_pool s !! c = Some x -> t_pid x <> 0 -> c <> O ->
  wp task_block_from_syscall s (fun _ s' =>
    let rest := filter (fun i => i <> c) l in
    let n := default O (List.find (is_ready s) rest) in
    sched_inv s' rest n /\ task_state_at s' n = TASK_RUNNING /\ task_state_at s' c = TASK_BLOCKED /\
    (forall j, j <> c -> j <> n -> task_state_at s' j = task_state_at s j) /\
    switches s' = (c, n) :: switches s).
Proof.
  intros Hinv Hx Hpid Hc. eapply wp_mono; [by eapply task_block_from_syscall_spec|].
  cbv beta zeta. intros _ s' (? & _ & ? & Hb & ? & ? & _). split_and!; try done. apply Hb.
  destruct (List.find _ _) as [j|] eqn:E; simpl; [|done].
  apply find_ready_elem in E as [[Hne _]%list_elem_of_filter _]. done.
Qed.

Lemma block_hands_over_witness :
  wp task_block_from_syscall demo_sched (fun _ s' => sched_inv s' [2; 3]%nat 2%nat).
Proof.
  eapply wp_mono; [eapply (block_hands_over demo_sched [1; 2; 3]%nat 1%nat)|].
  - exact demo_sched_inv.
  - by vm_compute.
  - by vm_compute.
  - done.
  - cbv beta zeta. intros _ s' (H & _). exact H.
Defined.

(** A sleep of more than half the counter range is due long before its time. *)
Lemma long_sleep_due_early now n k :
  0 <= now < 2 ^ 32 -> 2 ^ 31 < n < 2 ^ 32 -> 0 <= k < n - 2 ^ 31 ->
  deadline_due (u32 (now + k)) (u32 (now + n)) = true.
Proof.
  intros Hnow Hn Hk. unfold deadline_due, i32, u32. change 4294967296 with (2 ^ 32).
  rewrite Zmod_mod, <- Zminus_mod. replace (now + k - (now + n)) with (k - n) by lia.
  replace ((k - n) mod 2 ^ 32) with (k - n + 2 ^ 32).
  2: { rewrite <- (Z_mod_plus_full (k - n) 1). rewrite Z.mod_small; lia. }
  destruct (Z.ltb_spec (k - n + 2 ^ 32) (2 ^ 31)); [|lia]. apply Z.leb_le. lia.
Qed.
