(* ===== verification/Pipe.v ===== *)
(** * Anonymous pipes (src/src/native_pipe.c)

    A pool of eight fixed-size ring buffers shared by the descriptors of tasks.
    A task pointer is [Some] index in the task pool, or [None] for NULL.  The
    [for(;;)] loops of [native_pipe_read] and [native_pipe_write] are modelled by
    one pass of their body: a pass either returns or publishes the task as a
    waiter and blocks it, and a woken task runs another pass. *)

From S2P Require Import Prelude Sched.

Definition ATM_PIPE_MAX : Z := 8.
Definition ATM_PIPE_CAP : Z := 1024.
Definition ATM_POLLIN : Z := 0x0001.
Definition ATM_POLLOUT : Z := 0x0004.
Definition ATM_POLLERR : Z := 0x0008.
Definition ATM_POLLHUP : Z := 0x0010.
Definition ATM_POLLNVAL : Z := 0x0020.
Definition ATM_PIPE_READ_END : Z := 0.
Definition ATM_PIPE_WRITE_END : Z := 1.
Definition ATM_PIPE_EPIPE : Z := 32.
Definition ATM_EAGAIN : Z := 11.

Record native_pipe_t := mk_pipe {
  p_buffer : list byte;
  p_head : Z; p_tail : Z; p_count : Z;
  p_read_refs : Z; p_write_refs : Z;
  p_reader_waiter : option nat; p_writer_waiter : option nat;
  p_used : Z }.

#[export] Instance eta_pipe : Eta native_pipe_t := fun p => mk_pipe
  (p_buffer p) (p_head p) (p_tail p) (p_count p) (p_read_refs p) (p_write_refs p)
  (p_reader_waiter p) (p_writer_waiter p) (p_used p).

Definition zero_pipe : native_pipe_t :=
  mk_pipe (replicate (Z.to_nat ATM_PIPE_CAP) nul) 0 0 0 0 0 None None 0.

(** The state the pipe layer works on: the tasks and the pool. *)
Record pstate := mk_pstate { ps_sched : sched; pipe_pool : list native_pipe_t }.

#[export] Instance eta_pstate : Eta pstate := fun s => mk_pstate (ps_sched s) (pipe_pool s).

Definition on_sched {A} (m : M sched A) : M pstate A :=
  zoom ps_sched (fun t s => s <| ps_sched := t |>) m.

Definition task_of (s : pstate) (task : option nat) : option Sched.task :=
  t ← task; task_pool (ps_sched s) !! t.

Definition get_pipe (idx : Z) : M pstate native_pipe_t := deref (fun s => aget (pipe_pool s) idx).

Definition set_pipe (idx : Z) (p : native_pipe_t) : M pstate unit :=
  modify (fun s => s <| pipe_pool := aset (pipe_pool s) idx p |>).

(** ** Descriptors *)

Definition pipe_decode (s : pstate) (task : option nat) (fd : Z) : option (Z * Z) :=
  x ← task_of s task;
  if (t_fd_table_ready x =? 0) || (fd <? 3) || (TASK_FD_MAX <=? fd) then None
  else
    encoded ← aget (t_pipe_map x) fd;
    if encoded <? 0 then None
    else
      let idx := Z.shiftr encoded 1 in
      let which := Z.land encoded 1 in
      if (idx <? 0) || (ATM_PIPE_MAX <=? idx) then None
      else
        p ← aget (pipe_pool s) idx;
        if p_used p =? 0 then None else Some (idx, which).

(** A slot of the three descriptor maps of a task that is negative in each. *)
Definition slot_free (x : task) (fd : Z) : bool :=
  match aget (t_fd_map x) fd, aget (t_socket_map x) fd, aget (t_pipe_map x) fd with
  | Some a, Some b, Some c => (a <? 0) && (b <? 0) && (c <? 0)
  | _, _, _ => false
  end.

Definition pipe_fd_free (s : pstate) (task : option nat) (fd : Z) : bool :=
  match task_of s task with
  | Some x => (3 <=? fd) && (fd <? TASK_FD_MAX) && slot_free x fd
  | None => false
  end.

Definition native_pipe_is_fd (s : pstate) (task : option nat) (fd : Z) : bool :=
  match pipe_decode s task fd with Some _ => true | None => false end.

(** ** Wake-ups *)

Definition pipe_wake (waiter : option nat) : M pstate unit :=
  match waiter with
  | None => ret tt
  | Some w => on_sched (
      let* x := get_task w in
      if decide (t_state x = TASK_BLOCKED) then task_unblock w else ret tt)
  end.

Definition pipe_wake_reader (p : native_pipe_t) : M pstate unit := pipe_wake (p_reader_waiter p).
Definition pipe_wake_writer (p : native_pipe_t) : M pstate unit := pipe_wake (p_writer_waiter p).

Definition pipe_maybe_free (idx : Z) : M pstate unit :=
  let* p := get_pipe idx in
  if (p_read_refs p =? 0) && (p_write_refs p =? 0) then set_pipe idx zero_pipe else ret tt.

(** ** Life cycle of endpoints *)

Definition set_pipe_map (t : nat) (fd v : Z) : M pstate unit :=
  on_sched (mod_task t (fun x => x <| t_pipe_map := aset (t_pipe_map x) fd v |>)).

Definition native_pipe_task_init (task : option nat) : M pstate unit :=
  match task with
  | None => ret tt
  | Some t => on_sched (mod_task t (fun x => x <| t_pipe_map := replicate (Z.to_nat TASK_FD_MAX) (-1) |>))
  end.

Definition native_pipe_create (task : option nat) : M pstate (Z * (Z * Z)) := fun s =>
  match task, task_of s task with
  | Some t, Some x =>
    if t_fd_table_ready x =? 0 then Done ((-1, (0, 0)), s)
    else
      let read_fd := default (-1) (first_idx (pipe_fd_free s task) 3 TASK_FD_MAX) in
      let write_fd := default (-1) (first_idx (pipe_fd_free s task) (read_fd + 1) TASK_FD_MAX) in
      let slot := default (-1) (first_idx (fun i =>
        match aget (pipe_pool s) i with Some p => p_used p =? 0 | None => false end) 0 ATM_PIPE_MAX) in
      if (read_fd <? 0) || (write_fd <? 0) || (slot <? 0) then Done ((-1, (0, 0)), s)
      else
        (do* set_pipe slot (zero_pipe <| p_used := 1 |> <| p_read_refs := 1 |> <| p_write_refs := 1 |>) in
         do* set_pipe_map t read_fd (Z.lor (Z.shiftl slot 1) ATM_PIPE_READ_END) in
         do* set_pipe_map t write_fd (Z.lor (Z.shiftl slot 1) ATM_PIPE_WRITE_END) in
         ret (0, (read_fd, write_fd))) s
  | _, _ => Done ((-1, (0, 0)), s)
  end.

Definition native_pipe_close (task : option nat) (fd : Z) : M pstate Z :=
  let* d := gets (fun s => pipe_decode s task fd) in
  match task, d with
  | Some t, Some (idx, which) =>
    do* set_pipe_map t fd (-1) in
    let* p := get_pipe idx in
    do* (if which =? ATM_PIPE_READ_END then
           let p' := if p_read_refs p =? 0 then p else p <| p_read_refs := u32 (p_read_refs p - 1) |> in
           do* set_pipe idx p' in pipe_wake_writer p'
         else
           let p' := if p_write_refs p =? 0 then p else p <| p_write_refs := u32 (p_write_refs p - 1) |> in
           do* set_pipe idx p' in pipe_wake_reader p') in
    do* pipe_maybe_free idx in
    ret 0
  | _, _ => ret (-1)
  end.

Definition native_pipe_task_cleanup (task : option nat) : M pstate unit :=
  match task with
  | None => ret tt
  | Some t =>
    for_each (fun fd =>
      let* x := on_sched (get_task t) in
      let* e := deref (fun _ => aget (t_pipe_map x) fd) in
      if 0 <=? e then do* native_pipe_close task fd in ret tt else ret tt)
      (seqZ 3 (TASK_FD_MAX - 3))
  end.

(** One more reference to the end [which] of a pipe. *)
Definition pipe_add_ref (which : Z) (p : native_pipe_t) : native_pipe_t :=
  if which =? ATM_PIPE_READ_END then p <| p_read_refs := u32 (p_read_refs p + 1) |>
  else p <| p_write_refs := u32 (p_write_refs p + 1) |>.

Definition native_pipe_dup (task : option nat) (oldfd newfd : Z) : M pstate Z :=
  let* d := gets (fun s => pipe_decode s task oldfd) in
  let* free := gets (fun s => pipe_fd_free s task newfd) in
  match task, d with
  | Some t, Some (idx, which) =>
    if negb free then ret (-1)
    else
      let* p := get_pipe idx in
      do* set_pipe idx (pipe_add_ref which p) in
      let* x := on_sched (get_task t) in
      let* e := deref (fun _ => aget (t_pipe_map x) oldfd) in
      do* set_pipe_map t newfd e in
      ret newfd
  | _, _ => ret (-1)
  end.

Definition native_pipe_inherit (child parent : option nat) (fd : Z) : M pstate Z :=
  let* d := gets (fun s => pipe_decode s parent fd) in
  let* free := gets (fun s => pipe_fd_free s child fd) in
  match child, parent with
  | Some c, Some pr =>
    if (fd <? 0) || (TASK_FD_MAX <=? fd) || negb free then ret (-1)
    else match d with
    | None => ret (-1)
    | Some (idx, which) =>
      let* p := get_pipe idx in
      do* set_pipe idx (pipe_add_ref which p) in
      let* x := on_sched (get_task pr) in
      let* e := deref (fun _ => aget (t_pipe_map x) fd) in
      do* set_pipe_map c fd e in
      ret 0
    end
  | _, _ => ret (-1)
  end.

(** ** Readiness *)

Definition native_pipe_poll (task : option nat) (fd events : Z) : M pstate Z :=
  let* d := gets (fun s => pipe_decode s task fd) in
  match d with
  | None => ret ATM_POLLNVAL
  | Some (idx, which) =>
    let* p := get_pipe idx in
    ret (if which =? ATM_PIPE_READ_END then
           Z.lor (if truth (Z.land events ATM_POLLIN) && (truth (p_count p) || (p_write_refs p =? 0))
                  then ATM_POLLIN else 0)
                 (if p_write_refs p =? 0 then ATM_POLLHUP else 0)
         else if p_read_refs p =? 0 then ATM_POLLERR
         else if truth (Z.land events ATM_POLLOUT) && (p_count p <? ATM_PIPE_CAP) then ATM_POLLOUT
         else 0)
  end.

(** ** Data transfer *)

(** [for(i<n){ out[i]=buffer[tail]; tail=(tail+1)%CAP; }] *)
Fixpoint ring_take (n : nat) (buf : list byte) (tail : Z) : outcome (list byte * Z) :=
  match n with
  | O => Done ([], tail)
  | S n' =>
    match aget buf tail with
    | None => Fault
    | Some b =>
      match ring_take n' buf (u32 (tail + 1) mod ATM_PIPE_CAP) with
      | Done (bs, tl) => Done (b :: bs, tl)
      | Fault => Fault
      end
    end
  end.

(** [for(i<n){ buffer[head]=in[i]; head=(head+1)%CAP; }] *)
Fixpoint ring_put (data : list byte) (buf : list byte) (head : Z) : outcome (list byte * Z) :=
  match data with
  | [] => Done (buf, head)
  | b :: data' =>
    match aget buf head with
    | None => Fault
    | Some _ => ring_put data' (aset buf head b) (u32 (head + 1) mod ATM_PIPE_CAP)
    end
  end.

Definition lift_outcome {S A} (o : outcome A) : M S A := fun s =>
  match o with Done a => Done (a, s) | Fault => Fault end.

(** What a system call on a pipe does: it returns, or it sleeps and has to run
    another pass once woken. *)
Inductive io_result := Returned (n : Z) (bytes : list byte) | Blocked.

Definition clear_if (w : option nat) (task : option nat) : option nat :=
  if decide (w = task) then None else w.

Definition block_task (task : option nat) : M pstate unit :=
  match task with
  | Some t => on_sched (task_block_current t)
  | None => on_sched task_block
  end.

Definition pipe_read_pass (task : option nat) (idx count : Z) (nonblock : bool) : M pstate io_result :=
  let* p := get_pipe idx in
  if truth (p_count p) then
    let n := if count <? p_count p then count else p_count p in
    let* '(bs, tl) := lift_outcome (ring_take (Z.to_nat n) (p_buffer p) (p_tail p)) in
    let p' := p <| p_tail := tl |> <| p_count := u32 (p_count p - u32 n) |>
                <| p_reader_waiter := clear_if (p_reader_waiter p) task |> in
    do* set_pipe idx p' in
    do* pipe_wake_writer p' in
    ret (Returned n bs)
  else if p_write_refs p =? 0 then
    do* set_pipe idx (p <| p_reader_waiter := clear_if (p_reader_waiter p) task |>) in
    ret (Returned 0 [])
  else if nonblock then ret (Returned (- ATM_EAGAIN) [])
  else
    do* set_pipe idx (p <| p_reader_waiter := task |>) in
    do* block_task task in
    ret Blocked.

Definition native_pipe_read (task : option nat) (fd : Z) (buf_null : bool) (count : Z)
    (nonblock : bool) : M pstate io_result :=
  let* d := gets (fun s => pipe_decode s task fd) in
  match d with
  | Some (idx, which) =>
    if buf_null || negb (which =? ATM_PIPE_READ_END) then ret (Returned (-1) [])
    else if count =? 0 then ret (Returned 0 [])
    else pipe_read_pass task idx count nonblock
  | None => ret (Returned (-1) [])
  end.

Definition pipe_write_pass (task : option nat) (idx : Z) (data : list byte) (nonblock : bool)
    : M pstate io_result :=
  let* p := get_pipe idx in
  if p_read_refs p =? 0 then
    do* set_pipe idx (p <| p_writer_waiter := clear_if (p_writer_waiter p) task |>) in
    ret (Returned (- ATM_PIPE_EPIPE) [])
  else if p_count p <? ATM_PIPE_CAP then
    let room := ATM_PIPE_CAP - p_count p in
    let n := if zlen data <? room then zlen data else room in
    let* '(bf, hd) := lift_outcome (ring_put (take (Z.to_nat n) data) (p_buffer p) (p_head p)) in
    let p' := p <| p_buffer := bf |> <| p_head := hd |> <| p_count := u32 (p_count p + u32 n) |>
                <| p_writer_waiter := clear_if (p_writer_waiter p) task |> in
    do* set_pipe idx p' in
    do* pipe_wake_reader p' in
    ret (Returned n [])
  else if nonblock then ret (Returned (- ATM_EAGAIN) [])
  else
    do* set_pipe idx (p <| p_writer_waiter := task |>) in
    do* block_task task in
    ret Blocked.

(** [data] is [None] for a NULL buffer, else the [count] bytes it points to. *)
Definition native_pipe_write (task : option nat) (fd : Z) (data : option (list byte))
    (nonblock : bool) : M pstate io_result :=
  let* d := gets (fun s => pipe_decode s task fd) in
  match d, data with
  | Some (idx, which), Some bytes =>
    if negb (which =? ATM_PIPE_WRITE_END) then ret (Returned (-1) [])
    else if zlen bytes =? 0 then ret (Returned 0 [])
    else pipe_write_pass task idx bytes nonblock
  | _, _ => ret (Returned (-1) [])
  end.
