(* ===== verification/PipeInv.v ===== *)
(** * The pipe invariant and the byte stream

    [contents p] is the queue of bytes a well-formed pipe object holds.  The copy loops of
    native_pipe.c take a prefix of it and append to it.  [pipes_ok] holds of every state the
    pipe operations reach: the scheduler invariant, well-formed ring buffers, waiters that are
    task pool indices.  The read and write passes are shown to be the dequeue and the enqueue
    of a bounded byte queue, and any interleaving of calls keeps the stream. *)

From S2P Require Import Prelude Sched Pipe SchedInv.

Record pipe_wf (p : native_pipe_t) : Prop := {
  wf_buffer : zlen (p_buffer p) = ATM_PIPE_CAP;
  wf_tail : 0 <= p_tail p < ATM_PIPE_CAP;
  wf_head : p_head p = (p_tail p + p_count p) mod ATM_PIPE_CAP;
  wf_count : 0 <= p_count p <= ATM_PIPE_CAP }.

(** The byte at the ring position [i]. *)
Definition cell (buf : list byte) (i : Z) : byte :=
  default nul (buf !! Z.to_nat (i mod ATM_PIPE_CAP)).

Definition window (buf : list byte) (i : Z) (n : nat) : list byte :=
  (fun k => cell buf (i + Z.of_nat k)) <$> seq 0 n.

Definition contents (p : native_pipe_t) : list byte :=
  window (p_buffer p) (p_tail p) (Z.to_nat (p_count p)).

Lemma window_length buf i n : length (window buf i n) = n.
Proof. unfold window. by rewrite length_fmap, length_seq. Qed.

Lemma window_ext buf buf' i i' n :
  (forall k, 0 <= k < Z.of_nat n -> cell buf (i + k) = cell buf' (i' + k)) ->
  window buf i n = window buf' i' n.
Proof.
  intros H. apply list_fmap_ext. intros j k [-> Hj]%lookup_seq. apply H. lia.
Qed.

Lemma window_app buf i n m :
  window buf i (n + m) = window buf i n ++ window buf (i + Z.of_nat n) m.
Proof.
  unfold window. rewrite seq_app, fmap_app. f_equal.
  replace (seq (0 + n) m) with (Nat.add n <$> seq 0 m) by (rewrite fmap_add_seq; f_equal; lia).
  rewrite <- list_fmap_compose. apply list_fmap_ext.
  intros j k _. simpl. f_equal. lia.
Qed.

Lemma window_cons buf i n : window buf i (S n) = cell buf i :: window buf (i + 1) n.
Proof.
  change (S n) with (1 + n)%nat. rewrite window_app. simpl.
  by rewrite Z.add_0_r.
Qed.

Lemma cell_mod buf i j : i mod ATM_PIPE_CAP = j mod ATM_PIPE_CAP -> cell buf i = cell buf j.
Proof. unfold cell. by intros ->. Qed.

Lemma step_mod i : 0 <= i < ATM_PIPE_CAP -> u32 (i + 1) mod ATM_PIPE_CAP = (i + 1) mod ATM_PIPE_CAP.
Proof. intros H. unfold ATM_PIPE_CAP in *. rewrite u32_small by lia. done. Qed.

Lemma mod_cap_range i : 0 <= i mod ATM_PIPE_CAP < ATM_PIPE_CAP.
Proof. apply Z.mod_pos_bound. done. Qed.

Lemma aget_cell buf i :
  zlen buf = ATM_PIPE_CAP -> 0 <= i < ATM_PIPE_CAP -> aget buf i = Some (cell buf i).
Proof.
  intros Hl Hi. destruct (aget_is_Some buf i) as [b Hb]; [lia|]. rewrite Hb. f_equal.
  unfold aget in Hb. unfold cell. rewrite Z.mod_small by done.
  destruct (Z.ltb_spec i 0); [lia|]. by rewrite Hb.
Qed.

Lemma cell_aset buf h b j :
  zlen buf = ATM_PIPE_CAP -> 0 <= h < ATM_PIPE_CAP ->
  cell (aset buf h b) j = if decide (j mod ATM_PIPE_CAP = h) then b else cell buf j.
Proof.
  intros Hl Hh. pose proof (mod_cap_range j). unfold cell, aset.
  destruct (Z.ltb_spec h 0); [lia|]. case_decide as E.
  - subst h. by rewrite list_lookup_insert_eq by lia.
  - rewrite list_lookup_insert_ne; [done|]. lia.
Qed.

(** ** The copy loops *)

Lemma ring_take_spec buf : zlen buf = ATM_PIPE_CAP ->
  forall n tail, 0 <= tail < ATM_PIPE_CAP ->
  ring_take n buf tail = Done (window buf tail n, (tail + Z.of_nat n) mod ATM_PIPE_CAP).
Proof.
  intros Hl n. induction n as [|n IH]; intros tail Ht.
  - simpl. by rewrite Z.add_0_r, Z.mod_small.
  - cbn [ring_take]. rewrite (aget_cell _ _ Hl Ht), step_mod by done.
    rewrite IH by apply mod_cap_range. rewrite window_cons.
    rewrite Zplus_mod_idemp_l. replace (tail + 1 + Z.of_nat n) with (tail + Z.of_nat (S n)) by lia.
    do 3 f_equal. apply window_ext. intros k _. apply cell_mod. by rewrite Zplus_mod_idemp_l.
Qed.

Lemma ring_put_spec data :
  forall buf head, zlen buf = ATM_PIPE_CAP -> 0 <= head < ATM_PIPE_CAP -> zlen data <= ATM_PIPE_CAP ->
  exists buf', ring_put data buf head = Done (buf', (head + zlen data) mod ATM_PIPE_CAP) /\
    zlen buf' = ATM_PIPE_CAP /\
    forall k, 0 <= k < ATM_PIPE_CAP ->
      cell buf' (head + k) = default (cell buf (head + k)) (data !! Z.to_nat k).
Proof.
  induction data as [|b data IH]; intros buf head Hl Hh Hd.
  - exists buf. simpl. rewrite Z.add_0_r, Z.mod_small by done. done.
  - cbn [ring_put]. rewrite (aget_cell _ _ Hl Hh), step_mod by done. simpl in Hd.
    destruct (IH (aset buf head b) ((head + 1) mod ATM_PIPE_CAP)) as (buf' & E & Hl' & Hc);
      [by rewrite aset_length|apply mod_cap_range|lia|].
    exists buf'. rewrite E. split_and!; [|done|].
    + do 2 f_equal. rewrite Zplus_mod_idemp_l. f_equal. simpl. lia.
    + intros k Hk. assert (Hcap : ATM_PIPE_CAP = 1024) by done.
      destruct (decide (k = 0)) as [->|Hk0].
      * rewrite (cell_mod _ _ ((head + 1) mod ATM_PIPE_CAP + (ATM_PIPE_CAP - 1))).
        2: { rewrite Zplus_mod_idemp_l. replace (head + 1 + (ATM_PIPE_CAP - 1)) with (head + 0 + 1 * ATM_PIPE_CAP) by lia.
             by rewrite Z.mod_add. }
        rewrite Hc by lia. rewrite lookup_ge_None_2 by lia. simpl.
        rewrite cell_aset by done. rewrite decide_True; [done|].
        rewrite Zplus_mod_idemp_l. replace (head + 1 + (ATM_PIPE_CAP - 1)) with (head + 1 * ATM_PIPE_CAP) by lia.
        rewrite Z.mod_add by done. by apply Z.mod_small.
      * rewrite (cell_mod _ _ ((head + 1) mod ATM_PIPE_CAP + (k - 1))).
        2: { rewrite Zplus_mod_idemp_l. f_equal. lia. }
        rewrite Hc by lia. replace (Z.to_nat k) with (S (Z.to_nat (k - 1))) by lia. simpl. f_equal.
        rewrite (cell_mod _ _ (head + k)) by (rewrite Zplus_mod_idemp_l; f_equal; lia).
        rewrite cell_aset by done. rewrite decide_False; [done|]. intros E2.
        pose proof (Z.div_mod (head + k) ATM_PIPE_CAP ltac:(done)) as Hdm. rewrite E2 in Hdm.
        assert (0 <= (head + k) / ATM_PIPE_CAP < 2) by
          (split; [apply Z.div_pos; lia|apply Z.div_lt_upper_bound; lia]). nia.
Qed.

Definition waiter_ok (w : option nat) : Prop := forall t, w = Some t -> (t < TASK_MAX)%nat.

Definition pipe_ok (p : native_pipe_t) : Prop :=
  pipe_wf p /\ waiter_ok (p_reader_waiter p) /\ waiter_ok (p_writer_waiter p).

Record pipes_ok (s : pstate) : Prop := {
  ok_sched : sched_ok (ps_sched s);
  ok_pool : zlen (pipe_pool s) = ATM_PIPE_MAX;
  ok_pipes : forall i p, aget (pipe_pool s) i = Some p -> pipe_ok p }.

Definition contents_at (s : pstate) (idx : Z) : list byte :=
  match aget (pipe_pool s) idx with Some p => contents p | None => [] end.

Lemma zero_pipe_ok : pipe_ok zero_pipe.
Proof. split_and!; [|done|done]. by constructor. Qed.

Lemma clear_if_ok w task : waiter_ok w -> waiter_ok (clear_if w task).
Proof. unfold clear_if. by case_decide. Qed.
#[export] Hint Resolve zero_pipe_ok clear_if_ok : coredb.

Lemma pipes_ok_set s idx p :
  pipes_ok s -> pipe_ok p -> pipes_ok (s <| pipe_pool := aset (pipe_pool s) idx p |>).
Proof.
  intros [] Hp. constructor; [done| |].
  - simpl. by rewrite aset_length.
  - simpl. intros i q. destruct (decide (idx = i)) as [->|Hne].
    + intros Hq. pose proof (aget_Some_range _ _ _ Hq) as Hr. rewrite aset_length in Hr.
      rewrite aget_aset_eq in Hq by done. by simplify_eq.
    + rewrite aget_aset_ne by done. apply ok_pipes0.
Qed.

Lemma pipes_ok_sched s t : pipes_ok s -> sched_ok t -> pipes_ok (s <| ps_sched := t |>).
Proof. intros [] ?. by constructor. Qed.

Lemma wp_get_pipe s idx p Q : aget (pipe_pool s) idx = Some p -> Q p s -> wp (get_pipe idx) s Q.
Proof. intros. by eapply wp_deref. Qed.

(** A fragment on the scheduler that keeps its invariant and the task records. *)
Lemma wp_on_sched {A} (m : M sched A) s (Q : A -> pstate -> Prop) :
  wp m (ps_sched s) (fun a t => Q a (s <| ps_sched := t |>)) -> wp (on_sched m) s Q.
Proof. apply wp_zoom. Qed.

Lemma pipe_wake_ok s w :
  pipes_ok s -> waiter_ok w ->
  wp (pipe_wake w) s (fun _ s' =>
    pipes_ok s' /\ pipe_pool s' = pipe_pool s /\ same_core (ps_sched s) (ps_sched s')).
Proof.
  intros Hok Hw. unfold pipe_wake. destruct w as [t|]; [|by wp_step].
  specialize (Hw t eq_refl). pose proof (ok_sched _ Hok) as (l & c & Hinv).
  apply wp_on_sched. wp_step. apply wp_get_task; [by rewrite (inv_pool _ _ _ Hinv)|].
  intros x Hx. case_decide; [|wp_step; by destruct s].
  eapply wp_mono; [by eapply task_unblock_ok|]. cbv beta. intros _ s' [Hc [l' Hinv']].
  split_and!; [|done|done]. apply pipes_ok_sched; [done|by eexists _, _].
Qed.

Lemma block_task_ok s task :
  pipes_ok s -> is_Some (task_of s task) ->
  wp (block_task task) s (fun _ s' =>
    pipes_ok s' /\ pipe_pool s' = pipe_pool s /\ same_core (ps_sched s) (ps_sched s')).
Proof.
  intros Hok [x Hx]. pose proof (ok_sched _ Hok) as (l & c & Hinv). unfold block_task.
  assert (Hgen : forall m : M sched unit,
    wp m (ps_sched s) (fun _ s' => sched_ok s' /\ same_core (ps_sched s) s') ->
    wp (on_sched m) s (fun _ s' =>
      pipes_ok s' /\ pipe_pool s' = pipe_pool s /\ same_core (ps_sched s) (ps_sched s'))).
  { intros m Hm. apply wp_on_sched. eapply wp_mono; [done|]. cbv beta. intros _ t [? ?].
    split_and!; [by apply pipes_ok_sched|done|done]. }
  destruct task as [t|]; [|done]. apply Hgen. unfold task_block_current. wp_step.
  unfold task_of in Hx. simpl in Hx. apply wp_get_task; [by eapply lookup_lt_Some|]. intros y _.
  destruct (_ =? 0); [by eapply task_block_ok|by eapply task_block_from_syscall_ok].
Qed.

Lemma pipe_decode_Some s task fd idx which :
  pipe_decode s task fd = Some (idx, which) ->
  is_Some (task_of s task) /\ exists p, aget (pipe_pool s) idx = Some p /\ p_used p <> 0.
Proof.
  unfold pipe_decode. intros (x & Hx & H)%bind_Some.
  repeat case_match; try done. apply bind_Some in H as (e & He & H).
  repeat case_match; try done. apply bind_Some in H as (p & Hp & H).
  case_match; [done|]. simplify_eq. split; [done|]. exists p. split; [done|]. lia.
Qed.

(** ** The passes on the byte queue *)

(** The effect of a pass on the pool: only pipe [idx] changes, into [p']. *)
Definition pipe_becomes (s s' : pstate) (idx : Z) (p' : native_pipe_t) : Prop :=
  pipe_pool s' = aset (pipe_pool s) idx p'.

Lemma pipe_becomes_contents s s' idx p p' :
  aget (pipe_pool s) idx = Some p -> pipe_becomes s s' idx p' ->
  contents_at s' idx = contents p' /\ (forall j, j <> idx -> contents_at s' j = contents_at s j).
Proof.
  unfold pipe_becomes. intros Hp Hb. unfold contents_at. rewrite Hb. split.
  - rewrite aget_aset_eq; [done|]. by eapply aget_Some_range.
  - intros j Hj. by rewrite aget_aset_ne.
Qed.

Lemma contents_take p n tl w1 w2 :
  pipe_wf p -> 0 <= n <= p_count p -> tl = (p_tail p + n) mod ATM_PIPE_CAP ->
  let p' := p <| p_tail := tl |> <| p_count := p_count p - n |>
              <| p_reader_waiter := w1 |> <| p_writer_waiter := w2 |> in
  pipe_wf p' /\ contents p = window (p_buffer p) (p_tail p) (Z.to_nat n) ++ contents p'.
Proof.
  intros [Hbuf Htl Hhd Hct] Hn -> p'. split.
  - constructor; simpl; try done; [apply mod_cap_range| |lia].
    rewrite Hhd, Zplus_mod_idemp_l. f_equal. lia.
  - unfold contents. simpl. replace (Z.to_nat (p_count p)) with (Z.to_nat n + Z.to_nat (p_count p - n))%nat by lia.
    rewrite window_app. f_equal. apply window_ext. intros k _. apply cell_mod.
    rewrite Zplus_mod_idemp_l. f_equal. lia.
Qed.

Lemma contents_put p data bf hd w1 w2 :
  pipe_wf p -> p_count p + zlen data <= ATM_PIPE_CAP ->
  ring_put data (p_buffer p) (p_head p) = Done (bf, hd) ->
  let p' := p <| p_buffer := bf |> <| p_head := hd |> <| p_count := p_count p + zlen data |>
              <| p_reader_waiter := w1 |> <| p_writer_waiter := w2 |> in
  pipe_wf p' /\ contents p' = contents p ++ data.
Proof.
  intros [Hbuf Htl Hhd Hct] Hn E p'. pose proof (mod_cap_range (p_tail p + p_count p)) as Hh.
  rewrite Hhd in E.
  destruct (ring_put_spec data (p_buffer p) _ Hbuf Hh ltac:(lia)) as (buf' & E' & Hl & Hc).
  rewrite E in E'. simplify_eq. split.
  - constructor; simpl; try done; [|lia]. rewrite Zplus_mod_idemp_l. f_equal. lia.
  - unfold contents. simpl.
    replace (Z.to_nat (p_count p + zlen data)) with (Z.to_nat (p_count p) + length data)%nat by lia.
    rewrite window_app. f_equal.
    + apply window_ext. intros k Hk.
      rewrite (cell_mod buf' _ ((p_tail p + p_count p) mod ATM_PIPE_CAP + (ATM_PIPE_CAP - p_count p + k))).
      2: { rewrite Zplus_mod_idemp_l.
           replace (p_tail p + p_count p + (ATM_PIPE_CAP - p_count p + k)) with (p_tail p + k + 1 * ATM_PIPE_CAP) by lia.
           by rewrite Z.mod_add. }
      rewrite Hc by lia. rewrite lookup_ge_None_2 by lia. simpl. apply cell_mod.
      rewrite Zplus_mod_idemp_l.
      replace (p_tail p + p_count p + (ATM_PIPE_CAP - p_count p + k)) with (p_tail p + k + 1 * ATM_PIPE_CAP) by lia.
      by rewrite Z.mod_add.
    + apply list_eq. intros i. destruct (decide (i < length data)%nat) as [Hi|Hi].
      * destruct (lookup_lt_is_Some_2 data i Hi) as [b Hb]. unfold window.
        rewrite list_lookup_fmap, lookup_seq_lt by done. simpl.
        rewrite (cell_mod buf' _ ((p_tail p + p_count p) mod ATM_PIPE_CAP + Z.of_nat i)).
        2: { rewrite Zplus_mod_idemp_l. f_equal. lia. }
        rewrite Hc by lia. by rewrite Nat2Z.id, Hb.
      * rewrite !lookup_ge_None_2; [done|lia|rewrite window_length; lia].
Qed.

(** Bytes a call put into or took out of the stream of a pipe. *)
Definition io_bytes (r : io_result) : list byte :=
  match r with Returned _ bs => bs | Blocked => [] end.
Definition io_count (r : io_result) : Z :=
  match r with Returned n _ => n | Blocked => 0 end.

Lemma pipe_read_pass_spec s task idx p count nonblock :
  pipes_ok s -> is_Some (task_of s task) -> aget (pipe_pool s) idx = Some p -> 0 < count ->
  wp (pipe_read_pass task idx count nonblock) s (fun r s' =>
    pipes_ok s' /\ same_core (ps_sched s) (ps_sched s') /\
    (exists p', pipe_becomes s s' idx p' /\ contents p = io_bytes r ++ contents p' /\
      p_read_refs p' = p_read_refs p /\ p_write_refs p' = p_write_refs p /\ p_used p' = p_used p) /\
    match r with
    | Returned n bs =>
        if p_count p =? 0
        then n = (if p_write_refs p =? 0 then 0 else - ATM_EAGAIN) /\ bs = [] /\
             (p_write_refs p <> 0 -> nonblock = true)
        else n = zlen bs /\ n = Z.min count (p_count p)
    | Blocked => p_count p = 0 /\ p_write_refs p <> 0 /\ nonblock = false
    end).
Proof.
  intros Hok Htask Hp Hcount. destruct (ok_pipes _ Hok _ _ Hp) as (Hwf & Hw1 & Hw2).
  pose proof Hwf as [Hbuf Htl Hhd Hct]. unfold pipe_read_pass, set_pipe. wp_step.
  apply (wp_get_pipe _ _ p); [done|]. unfold truth. destruct (Z.eqb_spec (p_count p) 0) as [E0|E0]; cbn [negb].
  - destruct (Z.eqb_spec (p_write_refs p) 0) as [Ew|Ew]; [|destruct nonblock].
    + wp_step. wp_step. wp_step. split_and!; [|done| |done|done|done].
      * apply pipes_ok_set; [done|]. split_and!; [by constructor|by apply clear_if_ok|done].
      * eexists. split_and!; [done|by unfold contents|done..].
    + wp_step. split_and!; [done|done| |done|done|done]. exists p. split_and!; try done.
      unfold pipe_becomes. symmetry. unfold aset, aget in *. case_match; [done|by apply list_insert_id].
    + wp_step. wp_step. set (p1 := upd p_reader_waiter task p). set (s1 := upd pipe_pool _ s). wp_step.
      eapply wp_mono; [apply block_task_ok; [|done]|].
      * apply pipes_ok_set; [done|]. split_and!; [by constructor| |done].
        intros t Et. change (task = Some t) in Et. rewrite Et in Htask. destruct Htask as [x Hx]. unfold task_of in Hx. simpl in Hx.
        destruct (ok_sched _ Hok) as (l & c & Hinv). rewrite <- (inv_pool _ _ _ Hinv).
        by eapply lookup_lt_Some.
      * cbv beta. intros _ s2 (? & Hpool & Hc). wp_step. split_and!; try done.
        exists p1. split_and!; try done.
  - set (n := if count <? p_count p then count else p_count p).
    assert (Hn : n = Z.min count (p_count p)) by (unfold n; destruct (Z.ltb_spec count (p_count p)); lia).
    assert (Hcap : ATM_PIPE_CAP = 1024) by done.
    wp_step. unfold lift_outcome. unfold wp at 1.
    rewrite (ring_take_spec _ Hbuf _ _ Htl). rewrite Z2Nat.id by lia.
    rewrite (u32_small n) by lia. rewrite (u32_small (p_count p - n)) by lia.
    destruct (contents_take p n _ (clear_if (p_reader_waiter p) task) (p_writer_waiter p) Hwf ltac:(lia) eq_refl)
      as [Hwf' Hcont].
    wp_step. wp_step. set (p1 := upd p_reader_waiter _ _). set (s1 := upd pipe_pool _ s). wp_step.
    assert (Hok1 : pipes_ok s1).
    { apply pipes_ok_set; [done|]. split_and!; [exact Hwf'|by apply clear_if_ok|done]. }
    eapply wp_mono; [by apply (pipe_wake_ok s1)|]. cbv beta. intros _ s2 (? & Hpool & Hc). wp_step.
    split_and!; try done.
    + exists p1. split_and!; [exact Hpool|exact Hcont|done..].
    + rewrite window_length. lia.
Qed.

Lemma pipe_write_pass_spec s task idx p data nonblock :
  pipes_ok s -> is_Some (task_of s task) -> aget (pipe_pool s) idx = Some p -> 0 < zlen data ->
  wp (pipe_write_pass task idx data nonblock) s (fun r s' =>
    pipes_ok s' /\ same_core (ps_sched s) (ps_sched s') /\
    (exists p', pipe_becomes s s' idx p' /\ contents p' = contents p ++ take (Z.to_nat (io_count r)) data /\
      p_read_refs p' = p_read_refs p /\ p_write_refs p' = p_write_refs p /\ p_used p' = p_used p) /\
    match r with
    | Returned n _ =>
        n = (if p_read_refs p =? 0 then - ATM_PIPE_EPIPE
            else if p_count p =? ATM_PIPE_CAP then - ATM_EAGAIN
            else Z.min (zlen data) (ATM_PIPE_CAP - p_count p)) /\
        (p_read_refs p <> 0 -> p_count p = ATM_PIPE_CAP -> nonblock = true)
    | Blocked => p_count p = ATM_PIPE_CAP /\ p_read_refs p <> 0 /\ nonblock = false
    end).
Proof.
  intros Hok Htask Hp Hcount. destruct (ok_pipes _ Hok _ _ Hp) as (Hwf & Hw1 & Hw2).
  pose proof Hwf as [Hbuf Htl Hhd Hct]. unfold pipe_write_pass, set_pipe. wp_step.
  apply (wp_get_pipe _ _ p); [done|]. destruct (Z.eqb_spec (p_read_refs p) 0) as [Er|Er].
  { wp_step. wp_step. wp_step. split_and!; [|done| |done|done].
    - apply pipes_ok_set; [done|]. split_and!; [by constructor|done|by apply clear_if_ok].
    - eexists. split_and!; [done|by simpl; rewrite app_nil_r|done..]. }
  destruct (Z.ltb_spec (p_count p) ATM_PIPE_CAP) as [Hlt|Hge].
  - set (n := if zlen data <? ATM_PIPE_CAP - p_count p then _ else _).
    assert (Hn : n = Z.min (zlen data) (ATM_PIPE_CAP - p_count p))
      by (unfold n; destruct (Z.ltb_spec (zlen data) (ATM_PIPE_CAP - p_count p)); lia).
    assert (Hcap : ATM_PIPE_CAP = 1024) by done.
    assert (Hlen : zlen (take (Z.to_nat n) data) = n) by (rewrite length_take; lia).
    pose proof (mod_cap_range (p_tail p + p_count p)) as Hh. rewrite <- Hhd in Hh.
    destruct (ring_put_spec (take (Z.to_nat n) data) (p_buffer p) (p_head p) Hbuf Hh ltac:(lia))
      as (bf & E & _). rewrite Hlen in E.
    wp_step. unfold lift_outcome. unfold wp at 1. rewrite E.
    rewrite (u32_small n) by lia. rewrite (u32_small (p_count p + n)) by lia.
    destruct (contents_put p _ _ _ (p_reader_waiter p) (clear_if (p_writer_waiter p) task) Hwf
                ltac:(rewrite Hlen; lia) E) as [Hwf' Hcont]. rewrite Hlen in Hwf', Hcont.
    wp_step. wp_step. set (p1 := upd p_writer_waiter _ _). set (s1 := upd pipe_pool _ s). wp_step.
    assert (Hok1 : pipes_ok s1).
    { apply pipes_ok_set; [done|]. split_and!; [exact Hwf'|done|by apply clear_if_ok]. }
    eapply wp_mono; [by apply (pipe_wake_ok s1)|]. cbv beta. intros _ s2 (? & Hpool & Hc). wp_step.
    split_and!; try done.
    + exists p1. split_and!; [exact Hpool|exact Hcont|done..].
    + rewrite (proj2 (Z.eqb_neq _ _)) by lia. done.
    + intros. lia.
  - rewrite (proj2 (Z.eqb_eq (p_count p) _)) by lia. destruct nonblock.
    + wp_step. split_and!; [done|done| |done|done]. exists p. simpl. rewrite app_nil_r. split_and!; try done.
      unfold pipe_becomes. symmetry. unfold aset, aget in *. case_match; [done|by apply list_insert_id].
    + wp_step. wp_step. set (p1 := upd p_writer_waiter task p). set (s1 := upd pipe_pool _ s). wp_step.
      eapply wp_mono; [apply block_task_ok; [|done]|].
      * apply pipes_ok_set; [done|]. split_and!; [by constructor|done|].
        intros t Et. change (task = Some t) in Et. rewrite Et in Htask. destruct Htask as [x Hx]. unfold task_of in Hx. simpl in Hx.
        destruct (ok_sched _ Hok) as (l & c & Hinv). rewrite <- (inv_pool _ _ _ Hinv).
        by eapply lookup_lt_Some.
      * cbv beta. intros _ s2 (? & Hpool & Hc). wp_step. split_and!; try done; try lia.
        exists p1. split_and!; [done|by simpl; rewrite app_nil_r|done..].
Qed.

(** ** System calls and the stream *)

Lemma contents_at_pool s s' : pipe_pool s' = pipe_pool s -> forall j, contents_at s' j = contents_at s j.
Proof. unfold contents_at. by intros ->. Qed.

(** The pipe an open descriptor designates. *)
Definition designates (s : pstate) (task : option nat) (fd idx : Z) : bool :=
  match pipe_decode s task fd with Some (i, _) => i =? idx | None => false end.

Lemma native_pipe_read_spec s task fd buf_null count nonblock :
  pipes_ok s -> 0 <= count ->
  wp (native_pipe_read task fd buf_null count nonblock) s (fun r s' =>
    pipes_ok s' /\ same_core (ps_sched s) (ps_sched s') /\
    forall j, contents_at s j = (if designates s task fd j then io_bytes r else []) ++ contents_at s' j).
Proof.
  intros Hok Hcount. unfold native_pipe_read, designates. wp_step. wp_step.
  destruct (pipe_decode s task fd) as [[idx which]|] eqn:E;
    [|wp_step; split_and!; [done..|]; intros j; done].
  apply pipe_decode_Some in E as (Htask & p & Hp & Hused).
  wp_step; [wp_step; split_and!; [done..|]; intros j; by case_match|].
  destruct (Z.eqb_spec count 0); [wp_step; split_and!; [done..|]; intros j; by case_match|].
  eapply wp_mono; [apply pipe_read_pass_spec; [done|done|done|lia]|]. cbv beta.
  intros r s' (Hok' & Hc & (p' & Hb & Hcont & _) & _). split_and!; [done|done|]. intros j.
  destruct (pipe_becomes_contents _ _ _ _ _ Hp Hb) as [H1 H2].
  destruct (Z.eqb_spec idx j) as [<-|Hne].
  - rewrite H1, <- Hcont. unfold contents_at. by rewrite Hp.
  - simpl. symmetry. by apply H2.
Qed.

Lemma native_pipe_write_spec s task fd data nonblock :
  pipes_ok s ->
  wp (native_pipe_write task fd (Some data) nonblock) s (fun r s' =>
    pipes_ok s' /\ same_core (ps_sched s) (ps_sched s') /\
    forall j, contents_at s' j = contents_at s j ++
      (if designates s task fd j then take (Z.to_nat (io_count r)) data else [])).
Proof.
  intros Hok. unfold native_pipe_write.
  assert (Hsame : forall n : Z, n <= 0 -> forall j : Z,
    contents_at s j = contents_at s j ++
      (if designates s task fd j then take (Z.to_nat n) data else [])).
  { intros n Hn j. replace (Z.to_nat n) with O by lia. case_match; by rewrite app_nil_r. }
  unfold designates in *. wp_step. wp_step.
  destruct (pipe_decode s task fd) as [[idx which]|] eqn:E;
    [|wp_step; split_and!; [done..|]; by apply (Hsame (-1))].
  apply pipe_decode_Some in E as (Htask & p & Hp & Hused).
  wp_step; [wp_step; split_and!; [done..|]; by apply (Hsame (-1))|].
  destruct (Z.eqb_spec (zlen data) 0); [wp_step; split_and!; [done..|]; by apply (Hsame 0)|].
  eapply wp_mono; [apply pipe_write_pass_spec; [done|done|done|lia]|]. cbv beta.
  intros r s' (Hok' & Hc & (p' & Hb & Hcont & _) & _). split_and!; [done|done|]. intros j.
  destruct (pipe_becomes_contents _ _ _ _ _ Hp Hb) as [H1 H2].
  destruct (Z.eqb_spec idx j) as [<-|Hne].
  - rewrite H1, Hcont. unfold contents_at. by rewrite Hp.
  - rewrite app_nil_r. by apply H2.
Qed.

Inductive pipe_call :=
| CallRead (task : nat) (fd count : Z) (nonblock : bool)
| CallWrite (task : nat) (fd : Z) (data : list byte) (nonblock : bool).

(** Arguments of the C types: a count is unsigned. *)
Definition call_typed (c : pipe_call) : Prop :=
  match c with CallRead _ _ count _ => 0 <= count | CallWrite _ _ _ _ => True end.

(** One call, with the bytes it put into pipe [idx] and those it delivered from it. *)
Definition pipe_call_run (idx : Z) (c : pipe_call) : M pstate (list byte * list byte) :=
  match c with
  | CallRead t fd count nb =>
    let* here := gets (fun s => designates s (Some t) fd idx) in
    let* r := native_pipe_read (Some t) fd false count nb in
    ret ([], if here then io_bytes r else [])
  | CallWrite t fd data nb =>
    let* here := gets (fun s => designates s (Some t) fd idx) in
    let* r := native_pipe_write (Some t) fd (Some data) nb in
    ret (if here then take (Z.to_nat (io_count r)) data else [], [])
  end.

Fixpoint pipe_calls_run (idx : Z) (cs : list pipe_call) : M pstate (list byte * list byte) :=
  match cs with
  | [] => ret ([], [])
  | c :: cs' =>
    let* '(w, r) := pipe_call_run idx c in
    let* '(w', r') := pipe_calls_run idx cs' in
    ret (w ++ w', r ++ r')
  end.

Lemma pipe_call_run_spec idx c s :
  pipes_ok s -> call_typed c ->
  wp (pipe_call_run idx c) s (fun wr s' =>
    pipes_ok s' /\ contents_at s idx ++ fst wr = snd wr ++ contents_at s' idx).
Proof.
  intros Hok Hty. destruct c as [t fd count nb|t fd data nb]; simpl in *; wp_step; wp_step; wp_step.
  - eapply wp_mono; [by apply native_pipe_read_spec|]. cbv beta. intros r s' (Hok' & _ & Hcont).
    wp_step. split; [done|]. simpl. by rewrite app_nil_r, (Hcont idx).
  - eapply wp_mono; [by apply native_pipe_write_spec|]. cbv beta. intros r s' (Hok' & _ & Hcont).
    wp_step. split; [done|]. simpl. by rewrite (Hcont idx).
Qed.

Lemma pipe_calls_run_spec idx cs : forall s,
  pipes_ok s -> Forall call_typed cs ->
  wp (pipe_calls_run idx cs) s (fun wr s' =>
    pipes_ok s' /\ contents_at s idx ++ fst wr = snd wr ++ contents_at s' idx).
Proof.
  induction cs as [|c cs IH]; intros s Hok Hty; simpl.
  - wp_step. split; [done|]. simpl. by rewrite app_nil_r.
  - apply list.Forall_cons in Hty as [Hc Hcs]. wp_step.
    eapply wp_mono; [by apply pipe_call_run_spec|]. cbv beta. intros [w r] s1 [Hok1 E1]. wp_step.
    eapply wp_mono; [by apply IH|]. cbv beta. intros [w' r'] s2 [Hok2 E2]. wp_step. split; [done|].
    simpl in *. by rewrite app_assoc, E1, <- !app_assoc, E2.
Qed.
