(* ===== verification/PipeRefs.v ===== *)
(** * Reference counts of pipes

    The counters of a pipe object count the open descriptors of its two ends
    over all tasks.  [ledger s d] says so up to the difference [d], which an
    operation opens and closes as it updates the descriptor maps and the pool.
    Closing an endpoint also happens while a task is being terminated, when the
    run queue still holds the dead task; the scheduler invariant is therefore a
    parameter here, an instance of [WakeInv]. *)

From S2P Require Import Prelude Sched SchedInv SchedProps Pipe PipeInv.

(** What closing a pipe endpoint needs of the scheduler. *)
Class WakeInv (SI : sched -> Prop) := {
  wi_pool s : SI s -> length (task_pool s) = TASK_MAX;
  wi_wake s t : SI s -> (t < TASK_MAX)%nat ->
    wp (task_unblock t) s (fun _ s' => SI s' /\ same_core s s');
  wi_neutral s i f : SI s ->
    (forall t, t_next (f t) = t_next t) -> (forall t, t_state (f t) = t_state t) ->
    SI (s <| task_pool := alter f i (task_pool s) |>) }.

#[export] Instance sched_ok_wake : WakeInv sched_ok.
Proof.
  constructor.
  - intros s (l & c & H). apply H.
  - intros s t (l & c & H) Ht. eapply wp_mono; [by eapply task_unblock_ok|]. cbv beta.
    intros _ s' [? [l' ?]]. split; [by eexists _, _|done].
  - intros s i f (l & c & H) Hn Hs. eexists _, _. by apply sched_inv_neutral.
Qed.

(** ** Counting descriptors *)

Definition fd_slots : list Z := seqZ 3 (TASK_FD_MAX - 3).

Definition map_refs (m : list Z) (e : Z) : nat :=
  length (filter (fun fd => aget m fd = Some e) fd_slots).

Definition task_refs (e : Z) (x : task) : nat :=
  if t_fd_table_ready x =? 0 then O else map_refs (t_pipe_map x) e.

Definition end_refs (s : sched) (e : Z) : Z := Z.of_nat (sum_list (task_refs e <$> task_pool s)).

Definition hit (a b : Z) : Z := if a =? b then 1 else 0.

Lemma count_aset (m : list Z) fd old v e l :
  NoDup l -> fd ∈ l -> aget m fd = Some old ->
  (Z.of_nat (length (filter (fun j => aget (aset m fd v) j = Some e) l)) + hit old e =
   Z.of_nat (length (filter (fun j => aget m j = Some e) l)) + hit v e)%Z.
Proof.
  intros Hnd Hin Hm. pose proof (aget_Some_range _ _ _ Hm) as Hr.
  assert (Hsame : forall l' : list Z, fd ∉ l' ->
    filter (fun j => aget (aset m fd v) j = Some e) l' = filter (fun j => aget m j = Some e) l').
  { intros l' Hni. apply filter_iff_elem. intros j Hj.
    rewrite aget_aset_ne; [done|]. by intros ->. }
  induction l as [|j l IH]; [set_solver|]. apply list.NoDup_cons in Hnd as [Hj Hnd].
  rewrite !filter_cons. destruct (decide (j = fd)) as [->|Hne].
  - rewrite aget_aset_eq, Hm, Hsame by done. unfold hit.
    destruct (Z.eqb_spec v e), (Z.eqb_spec old e); repeat case_decide; try congruence; simpl; lia.
  - rewrite aget_aset_ne by done. specialize (IH Hnd ltac:(set_solver)).
    case_decide; simpl; lia.
Qed.

Lemma sum_alter {A} (f : A -> nat) g t (l : list A) x :
  l !! t = Some x -> (sum_list (f <$> alter g t l) + f x = sum_list (f <$> l) + f (g x))%nat.
Proof.
  revert t. induction l as [|a l IH]; intros [|t] H; simpl in *; [done|done| |].
  - simplify_eq. lia.
  - apply IH in H. unfold fmap, alter in *. simpl. lia.
Qed.

Lemma end_refs_core s s' e : same_core s s' -> end_refs s' e = end_refs s e.
Proof.
  intros [H _]. unfold end_refs. do 2 f_equal.
  transitivity (task_refs e <$> (erase_sched <$> task_pool s')).
  - rewrite <- list_fmap_compose. by apply list_fmap_ext.
  - rewrite H, <- list_fmap_compose. by apply list_fmap_ext.
Qed.

Lemma end_refs_bound s e : length (task_pool s) = TASK_MAX -> 0 <= end_refs s e <= 464.
Proof.
  intros Hl. unfold end_refs. split; [lia|].
  assert (Hle : forall l : list task, (sum_list (task_refs e <$> l) <= 29 * length l)%nat).
  { induction l as [|x l IH]; simpl; [lia|].
    assert (task_refs e x <= 29)%nat; [|unfold fmap in *; lia].
    unfold task_refs. destruct (_ =? 0); [lia|]. unfold map_refs.
    etransitivity; [apply length_filter|]. done. }
  specialize (Hle (task_pool s)). rewrite Hl in Hle. unfold TASK_MAX in Hle. lia.
Qed.

(** Changing one slot of the map of an initialised table. *)
Definition put_map (t : nat) (fd v : Z) (s : sched) : sched :=
  s <| task_pool := alter (fun x => x <| t_pipe_map := aset (t_pipe_map x) fd v |>) t (task_pool s) |>.

Lemma end_refs_put s t x fd old v e :
  task_pool s !! t = Some x -> t_fd_table_ready x <> 0 -> 3 <= fd < TASK_FD_MAX ->
  aget (t_pipe_map x) fd = Some old ->
  end_refs (put_map t fd v s) e + hit old e = end_refs s e + hit v e.
Proof.
  intros Hx Hr Hfd Hold. unfold end_refs, put_map. cbn [task_pool upd].
  pose proof (sum_alter (task_refs e) (fun x => x <| t_pipe_map := aset (t_pipe_map x) fd v |>) t _ x Hx) as Hs.
  unfold task_refs at 2 4 in Hs. cbn [t_fd_table_ready t_pipe_map upd] in Hs.
  rewrite (proj2 (Z.eqb_neq _ _) Hr) in Hs. unfold map_refs in Hs.
  pose proof (count_aset (t_pipe_map x) fd old v e fd_slots (NoDup_seqZ _ _)
                ltac:(unfold fd_slots; apply elem_of_seqZ; lia) Hold) as Hc.
  simpl in *. lia.
Qed.

Lemma end_refs_pos s t x fd e :
  task_pool s !! t = Some x -> t_fd_table_ready x <> 0 -> 3 <= fd < TASK_FD_MAX ->
  aget (t_pipe_map x) fd = Some e -> 0 < end_refs s e.
Proof.
  intros Hx Hr Hfd He. pose proof (end_refs_put s t x fd e (e + 1) e Hx Hr Hfd He) as H.
  unfold hit in H. rewrite Z.eqb_refl in H. destruct (Z.eqb_spec (e + 1) e); [lia|].
  assert (0 <= end_refs (put_map t fd (e + 1) s) e) by (unfold end_refs; lia). lia.
Qed.

(** ** The ledger *)

Definition entry_ok (e : Z) : Prop := e = -1 \/ 0 <= e < 2 * ATM_PIPE_MAX.

Definition map_ok (m : list Z) : Prop :=
  zlen m = TASK_FD_MAX /\ forall fd e, 3 <= fd -> aget m fd = Some e -> entry_ok e.

Record ledger (s : pstate) (d : Z -> Z) : Prop := {
  lg_pool : zlen (pipe_pool s) = ATM_PIPE_MAX;
  lg_tasks : length (task_pool (ps_sched s)) = TASK_MAX;
  lg_maps : forall t x, task_pool (ps_sched s) !! t = Some x -> t_fd_table_ready x <> 0 -> map_ok (t_pipe_map x);
  lg_read : forall idx p, aget (pipe_pool s) idx = Some p ->
    p_read_refs p + d (2 * idx) = end_refs (ps_sched s) (2 * idx);
  lg_write : forall idx p, aget (pipe_pool s) idx = Some p ->
    p_write_refs p + d (2 * idx + 1) = end_refs (ps_sched s) (2 * idx + 1) }.

Lemma ledger_ext s d d' : (forall e, 0 <= e -> d e = d' e) -> ledger s d -> ledger s d'.
Proof.
  intros E []. constructor; try done.
  - intros idx p Hp. pose proof (aget_Some_range _ _ _ Hp). rewrite <- E by lia. auto.
  - intros idx p Hp. pose proof (aget_Some_range _ _ _ Hp). rewrite <- E by lia. auto.
Qed.

Lemma ledger_read s idx p :
  ledger s (fun _ => 0) -> aget (pipe_pool s) idx = Some p -> p_read_refs p = end_refs (ps_sched s) (2 * idx).
Proof. intros H Hp. pose proof (lg_read _ _ H _ _ Hp) as E. cbv beta in E. lia. Qed.
Lemma ledger_write s idx p :
  ledger s (fun _ => 0) -> aget (pipe_pool s) idx = Some p ->
  p_write_refs p = end_refs (ps_sched s) (2 * idx + 1).
Proof. intros H Hp. pose proof (lg_write _ _ H _ _ Hp) as E. cbv beta in E. lia. Qed.

Lemma ledger_core s s' d :
  same_core (ps_sched s) (ps_sched s') -> pipe_pool s' = pipe_pool s -> ledger s d -> ledger s' d.
Proof.
  intros Hc Hp []. pose proof Hc as [Hpool _]. constructor.
  - by rewrite Hp.
  - apply (f_equal length) in Hpool. rewrite !length_fmap in Hpool. congruence.
  - intros t x' Hx' Hr.
    assert (Hl : (erase_sched <$> task_pool (ps_sched s)) !! t = Some (erase_sched x'))
      by by rewrite <- Hpool, list_lookup_fmap, Hx'.
    rewrite list_lookup_fmap in Hl. apply fmap_Some in Hl as (x & Hx & E).
    change (map_ok (t_pipe_map (erase_sched x'))). rewrite E.
    apply (lg_maps0 t x Hx). change (t_fd_table_ready (erase_sched x) <> 0). by rewrite <- E.
  - intros idx p. rewrite Hp, (end_refs_core _ _ _ Hc). auto.
  - intros idx p. rewrite Hp, (end_refs_core _ _ _ Hc). auto.
Qed.

Lemma ledger_put s d t x fd old v :
  ledger s d -> task_pool (ps_sched s) !! t = Some x -> t_fd_table_ready x <> 0 ->
  3 <= fd < TASK_FD_MAX -> aget (t_pipe_map x) fd = Some old -> entry_ok v ->
  ledger (s <| ps_sched := put_map t fd v (ps_sched s) |>) (fun e => d e + hit v e - hit old e).
Proof.
  intros [] Hx Hr Hfd Hold Hv. constructor; try done.
  - simpl. by rewrite length_alter.
  - simpl. intros t' y Hy Hry. destruct (decide (t = t')) as [<-|Hne].
    + rewrite list_lookup_alter_eq, Hx in Hy. apply (inj Some) in Hy. subst y. simpl.
      destruct (lg_maps0 t x Hx Hr) as [Hlen Hent]. split; [by rewrite aset_length|].
      intros j e Hj. destruct (decide (fd = j)) as [<-|Hnj].
      * rewrite aget_aset_eq by (rewrite Hlen; unfold TASK_FD_MAX in *; lia). by intros [= <-].
      * rewrite aget_aset_ne by done. by apply Hent.
    + rewrite list_lookup_alter_ne in Hy by done. by eapply lg_maps0.
  - simpl. intros idx p Hp. pose proof (lg_read0 idx p Hp).
    pose proof (end_refs_put (ps_sched s) t x fd old v (2 * idx) Hx Hr Hfd Hold). lia.
  - simpl. intros idx p Hp. pose proof (lg_write0 idx p Hp).
    pose proof (end_refs_put (ps_sched s) t x fd old v (2 * idx + 1) Hx Hr Hfd Hold). lia.
Qed.

Lemma ledger_pipe s d idx p p' :
  ledger s d -> aget (pipe_pool s) idx = Some p ->
  ledger (s <| pipe_pool := aset (pipe_pool s) idx p' |>)
    (fun e => d e - (p_read_refs p' - p_read_refs p) * hit (2 * idx) e
                  - (p_write_refs p' - p_write_refs p) * hit (2 * idx + 1) e).
Proof.
  intros [] Hp. pose proof (aget_Some_range _ _ _ Hp) as Hr. constructor; try done.
  - simpl. by rewrite aset_length.
  - simpl. intros j q. unfold hit. destruct (decide (idx = j)) as [<-|Hne].
    + rewrite aget_aset_eq by done. intros [= <-]. specialize (lg_read0 _ _ Hp).
      rewrite Z.eqb_refl. rewrite (proj2 (Z.eqb_neq _ _)) by lia. lia.
    + rewrite aget_aset_ne by done. intros Hq. specialize (lg_read0 _ _ Hq).
      rewrite !(proj2 (Z.eqb_neq _ _)) by lia. lia.
  - simpl. intros j q. unfold hit. destruct (decide (idx = j)) as [<-|Hne].
    + rewrite aget_aset_eq by done. intros [= <-]. specialize (lg_write0 _ _ Hp).
      rewrite Z.eqb_refl. rewrite (proj2 (Z.eqb_neq (2 * idx) _)) by lia. lia.
    + rewrite aget_aset_ne by done. intros Hq. specialize (lg_write0 _ _ Hq).
      rewrite !(proj2 (Z.eqb_neq _ _)) by lia. lia.
Qed.

(** A pipe object is in use exactly while an end is referenced. *)
Definition used_ok (p : native_pipe_t) : Prop :=
  p_used p = if (p_read_refs p =? 0) && (p_write_refs p =? 0) then 0 else 1.

(** The invariant of the pipe layer, over a scheduler invariant. *)
Record pipes_inv (SI : sched -> Prop) (s : pstate) : Prop := {
  pi_sched : SI (ps_sched s);
  pi_pipe : forall i p, aget (pipe_pool s) i = Some p -> pipe_ok p /\ used_ok p;
  pi_ledger : ledger s (fun _ => 0) }.

Lemma pipes_inv_ok s : pipes_inv sched_ok s -> pipes_ok s.
Proof. intros [? H []]. constructor; try done. intros i p Hp. by apply (H i p Hp). Qed.

(** Decoding a descriptor, with everything the invariant says of it. *)
Record open_end (s : pstate) (t : nat) (fd idx which : Z) (x : task) (p : native_pipe_t) : Prop := {
  oe_task : task_pool (ps_sched s) !! t = Some x;
  oe_ready : t_fd_table_ready x <> 0;
  oe_fd : 3 <= fd < TASK_FD_MAX;
  oe_entry : aget (t_pipe_map x) fd = Some (2 * idx + which);
  oe_which : which = 0 \/ which = 1;
  oe_pipe : aget (pipe_pool s) idx = Some p;
  oe_used : p_used p <> 0 }.

Lemma pipe_decode_open s task fd idx which :
  pipe_decode s task fd = Some (idx, which) ->
  exists t x p, task = Some t /\ open_end s t fd idx which x p.
Proof.
  unfold pipe_decode, task_of. intros (x & Hx & H)%bind_Some.
  apply bind_Some in Hx as (t & -> & Hx).
  destruct ((t_fd_table_ready x =? 0) || (fd <? 3) || (TASK_FD_MAX <=? fd)) eqn:E; [done|].
  apply orb_false_iff in E as [[E1%Z.eqb_neq E2%Z.ltb_ge]%orb_false_iff E3%Z.leb_gt].
  apply bind_Some in H as (e & He & H). destruct (Z.ltb_spec e 0) as [|He0]; [done|].
  cbv zeta in H. destruct (_ || _); [done|]. apply bind_Some in H as (p & Hp & H).
  destruct (Z.eqb_spec (p_used p) 0); [done|]. simplify_eq.
  assert (Hw : Z.land e 1 = e mod 2) by (change 1 with (Z.ones 1); by rewrite Z.land_ones).
  assert (Hs : Z.shiftr e 1 = e / 2) by by rewrite Z.shiftr_div_pow2.
  rewrite Hs in Hp. rewrite Hw, Hs. exists t, x, p. split; [done|]. constructor; try done.
  - rewrite He. f_equal. pose proof (Z.div_mod e 2). lia.
  - pose proof (Z.mod_pos_bound e 2). lia.
Qed.

(** Conversely, under the invariant an entry that is set always decodes. *)
Lemma entry_decodes SI s t x fd e :
  pipes_inv SI s -> task_pool (ps_sched s) !! t = Some x -> t_fd_table_ready x <> 0 ->
  3 <= fd < TASK_FD_MAX -> aget (t_pipe_map x) fd = Some e -> 0 <= e ->
  pipe_decode s (Some t) fd = Some (e / 2, e mod 2).
Proof.
  intros [_ Hpipe Hlg] Hx Hr Hfd He He0.
  destruct (lg_maps _ _ Hlg t x Hx Hr) as [_ Hent]. destruct (Hent fd e ltac:(lia) He) as [|He16]; [lia|].
  unfold pipe_decode, task_of. simpl. rewrite Hx. simpl.
  rewrite (proj2 (Z.eqb_neq _ _) Hr), (proj2 (Z.ltb_ge fd 3)), (proj2 (Z.leb_gt TASK_FD_MAX fd)) by lia.
  simpl. rewrite He. simpl. rewrite (proj2 (Z.ltb_ge e 0)) by lia.
  assert (Hw : Z.land e 1 = e mod 2) by (change 1 with (Z.ones 1); by rewrite Z.land_ones).
  assert (Hs : Z.shiftr e 1 = e / 2) by by rewrite Z.shiftr_div_pow2.
  rewrite Hs, Hw. assert (0 <= e / 2 < ATM_PIPE_MAX) as Hd.
  { split; [apply Z.div_pos; lia|apply Z.div_lt_upper_bound; lia]. }
  rewrite (proj2 (Z.ltb_ge (e / 2) 0)), (proj2 (Z.leb_gt ATM_PIPE_MAX (e / 2))) by lia. simpl.
  destruct (aget_is_Some (pipe_pool s) (e / 2)) as [p Hp]; [rewrite (lg_pool _ _ Hlg); lia|].
  rewrite Hp. simpl. destruct (Hpipe _ _ Hp) as [_ Hu]. unfold used_ok in Hu.
  pose proof (end_refs_pos (ps_sched s) t x fd e Hx Hr Hfd He) as Hpos.
  pose proof (ledger_read _ _ _ Hlg Hp) as H1. pose proof (ledger_write _ _ _ Hlg Hp) as H2.
  pose proof (Z.div_mod e 2 ltac:(lia)) as Hdm. pose proof (Z.mod_pos_bound e 2 ltac:(lia)) as Hmb.
  assert (Hnz : p_used p <> 0).
  { rewrite Hu. destruct (Z.eqb_spec (p_read_refs p) 0), (Z.eqb_spec (p_write_refs p) 0); simpl; try lia.
    exfalso. assert (e mod 2 = 0 \/ e mod 2 = 1) as [Hm|Hm] by lia.
    - replace (2 * (e / 2)) with e in H1 by lia. lia.
    - replace (2 * (e / 2) + 1) with e in H2 by lia. lia. }
  by rewrite (proj2 (Z.eqb_neq _ _) Hnz).
Qed.

(** ** Life-cycle operations *)

Section operations.
Context {SI : sched -> Prop} `{!WakeInv SI}.
Implicit Types s : pstate.

Lemma wp_set_pipe_map s t fd v Q :
  (t < length (task_pool (ps_sched s)))%nat ->
  Q tt (s <| ps_sched := put_map t fd v (ps_sched s) |>) -> wp (set_pipe_map t fd v) s Q.
Proof. intros Ht HQ. apply wp_on_sched, wp_mod_task; done. Qed.

Lemma put_map_SI t fd v (s : sched) : SI s -> SI (put_map t fd v s).
Proof. intros H. by apply (wi_neutral s t). Qed.

Lemma pipe_wake_inv s w :
  SI (ps_sched s) -> waiter_ok w ->
  wp (pipe_wake w) s (fun _ s' =>
    SI (ps_sched s') /\ pipe_pool s' = pipe_pool s /\ same_core (ps_sched s) (ps_sched s')).
Proof.
  intros HS Hw. unfold pipe_wake. destruct w as [t|]; [|by wp_step].
  specialize (Hw t eq_refl). apply wp_on_sched. wp_step.
  apply wp_get_task; [by rewrite (wi_pool _ HS)|].
  intros x Hx. case_decide; [|by wp_step].
  eapply wp_mono; [by eapply wi_wake|]. cbv beta. by intros _ s' [? ?].
Qed.

Lemma pipe_maybe_free_spec s idx p :
  aget (pipe_pool s) idx = Some p ->
  wp (pipe_maybe_free idx) s (fun _ s' => s' = s <| pipe_pool := aset (pipe_pool s) idx
    (if (p_read_refs p =? 0) && (p_write_refs p =? 0) then zero_pipe else p) |>).
Proof.
  intros Hp. unfold pipe_maybe_free, set_pipe. wp_step. apply (wp_get_pipe _ _ p); [done|].
  destruct (_ && _); wp_step; [done|]. destruct s; simpl in *. f_equal.
  unfold aset, aget in *. case_match; [done|]. symmetry. by apply list_insert_id.
Qed.

(** The counter of the end [which] lowered by one. *)
Definition pipe_drop_ref (which : Z) (p : native_pipe_t) : native_pipe_t :=
  if which =? ATM_PIPE_READ_END
  then (if p_read_refs p =? 0 then p else p <| p_read_refs := u32 (p_read_refs p - 1) |>)
  else (if p_write_refs p =? 0 then p else p <| p_write_refs := u32 (p_write_refs p - 1) |>).

Lemma pipe_ok_refs p r w : pipe_ok p -> pipe_ok (p <| p_read_refs := r |> <| p_write_refs := w |>).
Proof. intros ([] & ? & ?). split_and!; [by constructor|done|done]. Qed.

Lemma pipe_drop_ref_ok which p : pipe_ok p -> pipe_ok (pipe_drop_ref which p).
Proof.
  intros H. unfold pipe_drop_ref. destruct H as ([] & ? & ?).
  repeat case_match; (split_and!; [by constructor|done|done]).
Qed.

Lemma pipe_add_ref_ok which p : pipe_ok p -> pipe_ok (pipe_add_ref which p).
Proof.
  intros H. unfold pipe_add_ref. destruct H as ([] & ? & ?).
  repeat case_match; (split_and!; [by constructor|done|done]).
Qed.

(** Everything the invariant gives about the counters of an open end. *)
Lemma open_end_refs s t fd idx which x p :
  pipes_inv SI s -> open_end s t fd idx which x p ->
  0 <= p_read_refs p <= 464 /\ 0 <= p_write_refs p <= 464 /\
  0 < (if which =? ATM_PIPE_READ_END then p_read_refs p else p_write_refs p) /\ p_used p = 1.
Proof.
  intros [HS Hpipe Hlg] []. pose proof (wi_pool _ HS) as Hlen.
  pose proof (ledger_read _ _ _ Hlg oe_pipe0) as H1. pose proof (ledger_write _ _ _ Hlg oe_pipe0) as H2.
  pose proof (end_refs_bound (ps_sched s) (2 * idx) Hlen) as B1.
  pose proof (end_refs_bound (ps_sched s) (2 * idx + 1) Hlen) as B2.
  pose proof (end_refs_pos _ _ _ _ _ oe_task0 oe_ready0 oe_fd0 oe_entry0) as Hpos.
  destruct (Hpipe _ _ oe_pipe0) as [_ Hu]. unfold used_ok in Hu. split_and!; try lia.
  - destruct oe_which0 as [-> | ->]; [change (0 =? ATM_PIPE_READ_END) with true|change (1 =? ATM_PIPE_READ_END) with false];
      cbv iota; [rewrite Z.add_0_r in Hpos|]; lia.
  - destruct (_ && _); [done|done].
Qed.

Lemma native_pipe_close_spec s task fd :
  pipes_inv SI s ->
  wp (native_pipe_close task fd) s (fun r s' =>
    match pipe_decode s task fd with
    | None => r = -1 /\ s' = s
    | Some (idx, which) => r = 0 /\ pipes_inv SI s' /\
        (exists t, task = Some t /\ same_core (put_map t fd (-1) (ps_sched s)) (ps_sched s')) /\
        forall j p', aget (pipe_pool s') j = Some p' ->
          if decide (j = idx)
          then (end_refs (ps_sched s') (2 * idx) = 0 /\ end_refs (ps_sched s') (2 * idx + 1) = 0 ->
                p' = zero_pipe)
          else aget (pipe_pool s) j = Some p'
    end).
Proof.
  intros Hinv. unfold native_pipe_close. wp_step. wp_step.
  destruct (pipe_decode s task fd) as [[idx which]|] eqn:Ed; [|destruct task; by wp_step].
  destruct (pipe_decode_open _ _ _ _ _ Ed) as (t & x & p & -> & Hoe).
  destruct (open_end_refs _ _ _ _ _ _ _ Hinv Hoe) as (Br & Bw & Hpos & Hused).
  pose proof Hoe as []. pose proof Hinv as [HS Hpipe Hlg]. pose proof (wi_pool _ HS) as Hlen.
  destruct (Hpipe _ _ oe_pipe0) as [Hpok _].
  wp_step. apply wp_set_pipe_map; [by eapply lookup_lt_Some|]. set (s1 := upd ps_sched _ s).
  assert (Hlg1 := ledger_put _ _ _ _ _ _ (-1) Hlg oe_task0 oe_ready0 oe_fd0 oe_entry0 ltac:(by left)).
  fold s1 in Hlg1. assert (HS1 : SI (ps_sched s1)) by by apply put_map_SI.
  wp_step. apply (wp_get_pipe _ _ p); [done|].
  set (p1 := pipe_drop_ref which p). set (s2 := s1 <| pipe_pool := aset (pipe_pool s1) idx p1 |>).
  assert (Hlg2 := ledger_pipe _ _ idx p p1 Hlg1 oe_pipe0). fold s2 in Hlg2.
  assert (Hlg2' : ledger s2 (fun _ => 0)).
  { eapply ledger_ext; [|exact Hlg2]. intros e He. cbv beta. unfold p1, pipe_drop_ref, hit.
    rewrite (proj2 (Z.eqb_neq (-1) e)) by lia.
    destruct oe_which0 as [-> | ->]; simpl in Hpos |- *;
      rewrite (proj2 (Z.eqb_neq _ 0)) by lia; cbn [p_read_refs p_write_refs upd];
      rewrite u32_small by lia; rewrite ?Z.add_0_r;
      repeat (destruct (Z.eqb_spec _ _)); lia. }
  assert (Hp1 : pipe_ok p1) by by apply pipe_drop_ref_ok.
  assert (Hag : aget (pipe_pool s2) idx = Some p1) by (apply aget_aset_eq; by eapply aget_Some_range).
  assert (Hwake : wp (if which =? ATM_PIPE_READ_END
     then let p' := if p_read_refs p =? 0 then p else p <| p_read_refs := u32 (p_read_refs p - 1) |> in
          do* set_pipe idx p' in pipe_wake_writer p'
     else let p' := if p_write_refs p =? 0 then p else p <| p_write_refs := u32 (p_write_refs p - 1) |> in
          do* set_pipe idx p' in pipe_wake_reader p') s1 (fun _ s' =>
    SI (ps_sched s') /\ pipe_pool s' = pipe_pool s2 /\ same_core (ps_sched s2) (ps_sched s'))).
  { unfold s2, p1, pipe_drop_ref in *. destruct (which =? ATM_PIPE_READ_END); cbv zeta; unfold set_pipe;
      (wp_step; wp_step; apply pipe_wake_inv; [done|apply Hp1]). }
  wp_step. eapply wp_mono; [exact Hwake|]. cbv beta. intros _ s3 (HS3 & Hpool3 & Hc3). wp_step.
  eapply wp_mono; [apply (pipe_maybe_free_spec s3 idx p1); by rewrite Hpool3|]. cbv beta.
  intros _ s4 ->. wp_step. split; [done|].
  assert (Hlg3 : ledger s3 (fun _ => 0)) by by eapply ledger_core.
  assert (Hag3 : aget (pipe_pool s3) idx = Some p1) by by rewrite Hpool3.
  set (pf := if (p_read_refs p1 =? 0) && (p_write_refs p1 =? 0) then zero_pipe else p1).
  assert (Hpf : p_read_refs pf = p_read_refs p1 /\ p_write_refs pf = p_write_refs p1 /\
                pipe_ok pf /\ used_ok pf).
  { assert (Hu1 : p_used p1 = 1) by (unfold p1, pipe_drop_ref; repeat case_match; exact Hused).
    unfold pf, used_ok. destruct (Z.eqb_spec (p_read_refs p1) 0) as [E1|E1];
      [destruct (Z.eqb_spec (p_write_refs p1) 0) as [E2|E2]|]; cbn [andb];
      split_and!; try done; try apply zero_pipe_ok; rewrite Hu1.
    - by rewrite E1, (proj2 (Z.eqb_neq _ 0) E2).
    - by rewrite (proj2 (Z.eqb_neq _ 0) E1). }
  destruct Hpf as (Hpf1 & Hpf2 & Hpf3 & Hpf4).
  assert (Hlg4 := ledger_pipe _ _ idx p1 pf Hlg3 Hag3).
  pose proof (aget_Some_range _ _ _ Hag3) as Hrng. split_and!.
  - constructor; [done| |].
    + intros i q. simpl. destruct (decide (idx = i)) as [<-|Hne].
      * rewrite aget_aset_eq by done. by intros [= <-].
      * rewrite aget_aset_ne by done. rewrite Hpool3. simpl. rewrite aget_aset_ne by done. apply Hpipe.
    + eapply ledger_ext; [|exact Hlg4]. intros e _. cbv beta. rewrite Hpf1, Hpf2. lia.
  - exists t. split; [done|exact Hc3].
  - intros j p'. simpl. case_decide as Ej.
    + subst j. rewrite aget_aset_eq by done. intros [= <-] [E1 E2].
      pose proof (ledger_read _ _ _ Hlg3 Hag3). pose proof (ledger_write _ _ _ Hlg3 Hag3).
      simpl in E1, E2.
      unfold pf. by rewrite (proj2 (Z.eqb_eq (p_read_refs p1) 0)), (proj2 (Z.eqb_eq (p_write_refs p1) 0)) by lia.
    + rewrite aget_aset_ne, Hpool3 by done. simpl. by rewrite aget_aset_ne.
Qed.

(** A free slot of an initialised table holds -1. *)
Lemma free_entry s t x fd :
  pipes_inv SI s -> task_pool (ps_sched s) !! t = Some x -> t_fd_table_ready x <> 0 ->
  pipe_fd_free s (Some t) fd = true -> 3 <= fd < TASK_FD_MAX /\ aget (t_pipe_map x) fd = Some (-1).
Proof.
  intros [_ _ Hlg] Hx Hr. unfold pipe_fd_free, task_of. simpl. rewrite Hx.
  intros [[H1%Z.leb_le H2%Z.ltb_lt]%andb_prop H3]%andb_prop. split; [lia|].
  unfold slot_free in H3. repeat case_match; try done.
  apply andb_prop in H3 as [_ Hneg%Z.ltb_lt].
  destruct (lg_maps _ _ Hlg t x Hx Hr) as [_ Hent].
  match goal with H : aget (t_pipe_map x) fd = Some ?e |- _ =>
    destruct (Hent fd e H1 H) as [->|]; [done|lia] end.
Qed.

(** One more descriptor of an end that is already open. *)
Lemma share_end s t fd idx which x p c y nfd :
  pipes_inv SI s -> open_end s t fd idx which x p ->
  task_pool (ps_sched s) !! c = Some y -> t_fd_table_ready y <> 0 ->
  pipe_fd_free s (Some c) nfd = true ->
  pipes_inv SI (mk_pstate (put_map c nfd (2 * idx + which) (ps_sched s))
                          (aset (pipe_pool s) idx (pipe_add_ref which p))).
Proof.
  intros Hinv Hoe Hy Hry Hfree. destruct (free_entry _ _ _ _ Hinv Hy Hry Hfree) as [Hnfd Hold].
  destruct (open_end_refs _ _ _ _ _ _ _ Hinv Hoe) as (Br & Bw & Hpos & Hused).
  pose proof Hoe as []. pose proof Hinv as [HS Hpipe Hlg]. destruct (Hpipe _ _ oe_pipe0) as [Hpok Hu].
  pose proof (aget_Some_range _ _ _ oe_pipe0) as Hrng. rewrite (lg_pool _ _ Hlg) in Hrng.
  assert (He : entry_ok (2 * idx + which)) by (right; destruct oe_which0; lia).
  assert (Hlg1 := ledger_pipe _ _ idx p (pipe_add_ref which p) Hlg oe_pipe0).
  assert (Hlg2 := ledger_put _ _ c y nfd (-1) _ Hlg1 Hy Hry Hnfd Hold He).
  constructor.
  - by apply put_map_SI.
  - intros i q. simpl. destruct (decide (idx = i)) as [<-|Hne].
    + rewrite aget_aset_eq by (rewrite (lg_pool _ _ Hlg); done). intros [= <-].
      split; [by apply pipe_add_ref_ok|]. unfold used_ok, pipe_add_ref.
      destruct oe_which0 as [-> | ->]; simpl in Hpos |- *; rewrite u32_small by lia; rewrite Hused.
      * by rewrite (proj2 (Z.eqb_neq (p_read_refs p + 1) 0)) by lia.
      * by rewrite (proj2 (Z.eqb_neq (p_write_refs p + 1) 0)), andb_false_r by lia.
    + rewrite aget_aset_ne by done. apply Hpipe.
  - eapply ledger_ext; [|exact Hlg2]. intros e He0. cbv beta. unfold hit, pipe_add_ref.
    rewrite (proj2 (Z.eqb_neq (-1) e)) by lia.
    destruct oe_which0 as [-> | ->]; simpl; rewrite u32_small by lia; rewrite ?Z.add_0_r;
      repeat (destruct (Z.eqb_spec _ _)); lia.
Qed.

Lemma native_pipe_dup_spec s task oldfd newfd :
  pipes_inv SI s ->
  wp (native_pipe_dup task oldfd newfd) s (fun r s' =>
    match pipe_decode s task oldfd with
    | Some (idx, which) =>
      if pipe_fd_free s task newfd
      then r = newfd /\ pipes_inv SI s' /\ pipe_decode s' task newfd = Some (idx, which)
      else r = -1 /\ s' = s
    | None => r = -1 /\ s' = s
    end).
Proof.
  intros Hinv. unfold native_pipe_dup. wp_step. wp_step. wp_step. wp_step.
  destruct (pipe_decode s task oldfd) as [[idx which]|] eqn:Ed; [|destruct task; by wp_step].
  destruct (pipe_decode_open _ _ _ _ _ Ed) as (t & x & p & -> & Hoe). pose proof Hoe as [].
  destruct (pipe_fd_free s (Some t) newfd) eqn:Hfree; [|by wp_step].
  cbn [negb]. wp_step. apply (wp_get_pipe _ _ p); [done|]. unfold set_pipe. wp_step. wp_step. wp_step.
  apply wp_on_sched. eapply wp_deref; [done|]. wp_step. eapply wp_deref; [done|]. wp_step.
  apply wp_set_pipe_map; [by eapply lookup_lt_Some|]. wp_step. split; [done|].
  destruct (free_entry _ _ _ _ Hinv oe_task0 oe_ready0 Hfree) as [Hnfd Hold].
  pose proof (share_end _ _ _ _ _ _ _ t x newfd Hinv Hoe oe_task0 oe_ready0 Hfree) as Hinv'.
  split; [exact Hinv'|].
  replace (idx, which) with ((2 * idx + which) / 2, (2 * idx + which) mod 2).
  2: { f_equal.
       - symmetry. apply (Z.div_unique_pos _ 2 idx which); [destruct oe_which0; lia|lia].
       - symmetry. apply (Z.mod_unique_pos _ 2 idx which); [destruct oe_which0; lia|lia]. }
  eapply entry_decodes; [exact Hinv'|simpl; by rewrite list_lookup_alter_eq, oe_task0|done|done| |].
  - simpl. apply aget_aset_eq. by eapply aget_Some_range.
  - pose proof (aget_Some_range _ _ _ oe_pipe0). destruct oe_which0; lia.
Qed.

Lemma native_pipe_inherit_spec s c parent fd :
  pipes_inv SI s ->
  (forall y, task_pool (ps_sched s) !! c = Some y -> t_fd_table_ready y <> 0) ->
  wp (native_pipe_inherit (Some c) parent fd) s (fun r s' =>
    pipes_inv SI s' /\
    if pipe_fd_free s (Some c) fd && bool_decide (is_Some (pipe_decode s parent fd))
    then r = 0 else r = -1 /\ s' = s).
Proof.
  intros Hinv Hready. unfold native_pipe_inherit. wp_step. wp_step. wp_step. wp_step.
  destruct (pipe_fd_free s (Some c) fd) eqn:Hfree.
  2: { rewrite orb_true_r. by destruct parent; wp_step. }
  assert (Hy : exists y, task_pool (ps_sched s) !! c = Some y).
  { unfold pipe_fd_free, task_of in Hfree. simpl in Hfree. destruct (_ !! c); [by eexists|done]. }
  destruct Hy as [y Hy]. specialize (Hready y Hy).
  destruct (free_entry _ _ _ _ Hinv Hy Hready Hfree) as [Hfd _].
  destruct (pipe_decode s parent fd) as [[idx which]|] eqn:Ed.
  2: { rewrite bool_decide_false by (by intros []). destruct parent; [|by wp_step].
       destruct (_ || _); by wp_step. }
  destruct (pipe_decode_open _ _ _ _ _ Ed) as (t & x & p & -> & Hoe). pose proof Hoe as [].
  rewrite bool_decide_true by by eexists.
  rewrite (proj2 (Z.ltb_ge fd 0)), (proj2 (Z.leb_gt TASK_FD_MAX fd)) by lia. cbn [orb andb negb].
  wp_step. apply (wp_get_pipe _ _ p); [done|]. unfold set_pipe. wp_step. wp_step. wp_step.
  apply wp_on_sched. eapply wp_deref; [done|]. wp_step. eapply wp_deref; [done|]. wp_step.
  apply wp_set_pipe_map; [by eapply lookup_lt_Some|]. wp_step. split; [|done].
  exact (share_end _ _ _ _ _ _ _ c y fd Hinv Hoe Hy Hready Hfree).
Qed.

Definition fresh_pipe : native_pipe_t :=
  zero_pipe <| p_used := 1 |> <| p_read_refs := 1 |> <| p_write_refs := 1 |>.

Lemma default_first p lo : default (-1) (first_idx p lo TASK_FD_MAX) <> -1 -> 0 <= lo ->
  lo <= default (-1) (first_idx p lo TASK_FD_MAX) < TASK_FD_MAX /\
  p (default (-1) (first_idx p lo TASK_FD_MAX)) = true.
Proof.
  intros H Hlo. destruct (first_idx p lo TASK_FD_MAX) as [i|] eqn:E; simpl in *; [|done].
  apply first_idx_Some in E as (? & ? & _). done.
Qed.

(** The state after the two ends of a fresh pipe are installed. *)
Lemma install_pipe s t x rfd wfd slot p0 :
  pipes_inv SI s -> task_pool (ps_sched s) !! t = Some x -> t_fd_table_ready x <> 0 ->
  pipe_fd_free s (Some t) rfd = true -> pipe_fd_free s (Some t) wfd = true -> rfd <> wfd ->
  aget (pipe_pool s) slot = Some p0 -> p_used p0 = 0 ->
  let s' := mk_pstate (put_map t wfd (2 * slot + 1) (put_map t rfd (2 * slot) (ps_sched s)))
                      (aset (pipe_pool s) slot fresh_pipe) in
  pipes_inv SI s' /\ pipe_decode s' (Some t) rfd = Some (slot, 0) /\
  pipe_decode s' (Some t) wfd = Some (slot, 1).
Proof.
  intros Hinv Hx Hr Hf1 Hf2 Hne Hp0 Hu0. pose proof Hinv as [HS Hpipe Hlg].
  destruct (free_entry _ _ _ _ Hinv Hx Hr Hf1) as [Hr1 Ho1].
  destruct (free_entry _ _ _ _ Hinv Hx Hr Hf2) as [Hr2 Ho2].
  pose proof (aget_Some_range _ _ _ Hp0) as Hrng. rewrite (lg_pool _ _ Hlg) in Hrng.
  destruct (Hpipe _ _ Hp0) as [_ Hu]. unfold used_ok in Hu. rewrite Hu0 in Hu.
  assert (H00 : p_read_refs p0 = 0 /\ p_write_refs p0 = 0).
  { destruct (Z.eqb_spec (p_read_refs p0) 0), (Z.eqb_spec (p_write_refs p0) 0); done. }
  destruct H00 as [H0r H0w].
  assert (Hlg1 := ledger_pipe _ _ slot p0 fresh_pipe Hlg Hp0).
  assert (Hlg2 := ledger_put _ _ t x rfd (-1) (2 * slot) Hlg1 Hx Hr Hr1 Ho1 ltac:(right; lia)).
  assert (Hx2 : task_pool (put_map t rfd (2 * slot) (ps_sched s)) !! t =
                Some (x <| t_pipe_map := aset (t_pipe_map x) rfd (2 * slot) |>))
    by (simpl; by rewrite list_lookup_alter_eq, Hx).
  assert (Ho2' : aget (aset (t_pipe_map x) rfd (2 * slot)) wfd = Some (-1)) by by rewrite aget_aset_ne.
  assert (Hlg3 := ledger_put _ _ t _ wfd (-1) (2 * slot + 1) Hlg2 Hx2 Hr Hr2 Ho2' ltac:(right; lia)).
  intros s'. assert (Hinv' : pipes_inv SI s').
  { constructor.
    - by apply put_map_SI, put_map_SI.
    - intros i q. simpl. destruct (decide (slot = i)) as [<-|Hni].
      + rewrite aget_aset_eq by (rewrite (lg_pool _ _ Hlg); done). intros [= <-].
        split; [|done]. split_and!; [by constructor|done|done].
      + rewrite aget_aset_ne by done. apply Hpipe.
    - eapply ledger_ext; [|exact Hlg3]. intros e He. cbv beta. rewrite H0r, H0w. unfold hit.
      rewrite (proj2 (Z.eqb_neq (-1) e)) by lia. simpl. lia. }
  assert (Hx3 : task_pool (ps_sched s') !! t = Some (x <| t_pipe_map :=
            aset (aset (t_pipe_map x) rfd (2 * slot)) wfd (2 * slot + 1) |>)).
  { unfold s'. cbn [ps_sched]. unfold put_map at 1. cbn [task_pool upd].
    by rewrite list_lookup_alter_eq, Hx2. }
  split_and!; [done| |].
  - rewrite (entry_decodes _ _ _ _ _ (2 * slot) Hinv' Hx3 Hr Hr1); [| |lia].
    + by rewrite Z.mul_comm, Z.div_mul, Z.mod_mul by lia.
    + simpl. rewrite aget_aset_ne by done. apply aget_aset_eq. by eapply aget_Some_range.
  - rewrite (entry_decodes _ _ _ _ _ (2 * slot + 1) Hinv' Hx3 Hr Hr2); [| |lia].
    + f_equal. f_equal.
      * symmetry. apply (Z.div_unique_pos _ 2 slot 1); lia.
      * symmetry. apply (Z.mod_unique_pos _ 2 slot 1); lia.
    + simpl. apply aget_aset_eq. rewrite aset_length. by eapply aget_Some_range.
Qed.

Lemma native_pipe_create_spec s task :
  pipes_inv SI s ->
  wp (native_pipe_create task) s (fun r s' =>
    r = (-1, (0, 0)) /\ s' = s \/
    exists rfd wfd slot, r = (0, (rfd, wfd)) /\ rfd < wfd /\ pipes_inv SI s' /\
      pipe_fd_free s task rfd = true /\ pipe_fd_free s task wfd = true /\
      pipe_decode s' task rfd = Some (slot, 0) /\ pipe_decode s' task wfd = Some (slot, 1) /\
      aget (pipe_pool s') slot = Some fresh_pipe).
Proof.
  intros Hinv. unfold wp, native_pipe_create.
  destruct task as [t|]; [|by left]. unfold task_of at 1. simpl mbind.
  destruct (task_pool (ps_sched s) !! t) as [x|] eqn:Hx; simpl; [|by left].
  destruct (Z.eqb_spec (t_fd_table_ready x) 0) as [|Hr]; [by left|].
  set (rfd := default (-1) (first_idx _ 3 TASK_FD_MAX)).
  set (wfd := default (-1) (first_idx _ (rfd + 1) TASK_FD_MAX)).
  set (slot := default (-1) (first_idx _ 0 ATM_PIPE_MAX)).
  destruct (Z.ltb_spec rfd 0) as [|H1]; [by left|]. destruct (Z.ltb_spec wfd 0) as [|H2]; [by left|].
  destruct (Z.ltb_spec slot 0) as [|H3]; [by left|]. simpl orb. cbv iota.
  destruct (default_first (pipe_fd_free s (Some t)) 3) as [Hr1 Hf1]; [fold rfd; lia|lia|].
  fold rfd in Hr1, Hf1.
  destruct (default_first (pipe_fd_free s (Some t)) (rfd + 1)) as [Hr2 Hf2]; [fold wfd; lia|lia|].
  fold wfd in Hr2, Hf2.
  assert (Hslot : exists p0, aget (pipe_pool s) slot = Some p0 /\ p_used p0 = 0).
  { unfold slot in *. destruct (first_idx _ 0 ATM_PIPE_MAX) as [i|] eqn:E; simpl in *; [|lia].
    apply first_idx_Some in E as (_ & E & _). destruct (aget (pipe_pool s) i) as [p0|]; [|done].
    apply Z.eqb_eq in E. by exists p0. }
  destruct Hslot as (p0 & Hp0 & Hu0).
  destruct (install_pipe s t x rfd wfd slot p0) as (Hinv' & D1 & D2); try done; [lia|].
  pose proof (lookup_lt_Some _ _ _ Hx) as Hlt.
  match goal with |- match ?m s with _ => _ end => change (wp m s (fun r s' =>
    r = (-1, (0, 0)) /\ s' = s \/
    exists rfd wfd slot, r = (0, (rfd, wfd)) /\ rfd < wfd /\ pipes_inv SI s' /\
      pipe_fd_free s (Some t) rfd = true /\ pipe_fd_free s (Some t) wfd = true /\
      pipe_decode s' (Some t) rfd = Some (slot, 0) /\ pipe_decode s' (Some t) wfd = Some (slot, 1) /\
      aget (pipe_pool s') slot = Some fresh_pipe)) end.
  unfold set_pipe. wp_step. wp_step. wp_step. apply wp_set_pipe_map; [done|]. wp_step.
  apply wp_set_pipe_map; [simpl; by rewrite length_alter|]. wp_step. right.
  exists rfd, wfd, slot. split; [done|].
  assert (Hshift : Z.lor (Z.shiftl slot 1) ATM_PIPE_READ_END = 2 * slot /\
                   Z.lor (Z.shiftl slot 1) ATM_PIPE_WRITE_END = 2 * slot + 1).
  { rewrite Z.shiftl_mul_pow2 by lia. unfold ATM_PIPE_READ_END, ATM_PIPE_WRITE_END.
    rewrite Z.lor_0_r. split; [lia|]. pose proof (Z.add_lor_land (slot * 2 ^ 1) 1) as Hal.
    assert (Hz : Z.land (slot * 2 ^ 1) 1 = 0); [|lia].
    change (Z.land (slot * 2 ^ 1) (Z.ones 1) = 0). rewrite Z.land_ones by lia. apply Z.mod_mul. lia. }
  destruct Hshift as [E1 E2]. rewrite E1, E2.
  split_and!; [lia|exact Hinv'|done|done|exact D1|exact D2|]. simpl. apply aget_aset_eq.
  by eapply aget_Some_range.
Qed.

(** ** Closing every pipe end of a task *)

(** A task with its scheduler fields and its pipe map forgotten. *)
Definition erase_pipes (x : task) : task := (erase_sched x) <| t_pipe_map := [] |>.

Record closed_fds (s s' : pstate) (t : nat) (x : task) (fds : list Z) : Prop := {
  cf_inv : pipes_inv SI s';
  cf_task : exists x', task_pool (ps_sched s') !! t = Some x' /\ erase_pipes x' = erase_pipes x /\
    forall fd, 3 <= fd < TASK_FD_MAX ->
      aget (t_pipe_map x') fd = if decide (fd ∈ fds) then Some (-1) else aget (t_pipe_map x) fd;
  cf_others : forall j, j <> t ->
    erase_sched <$> task_pool (ps_sched s') !! j = erase_sched <$> task_pool (ps_sched s) !! j }.

Lemma same_core_lookup_erase (a b : sched) i :
  same_core a b -> erase_sched <$> task_pool b !! i = erase_sched <$> task_pool a !! i.
Proof. intros [H _]. by rewrite <- !list_lookup_fmap, H. Qed.

Definition cleanup_body (t : nat) (fd : Z) : M pstate unit :=
  let* x := on_sched (get_task t) in
  let* e := deref (fun _ => aget (t_pipe_map x) fd) in
  if 0 <=? e then do* native_pipe_close (Some t) fd in ret tt else ret tt.

Lemma cleanup_body_spec s t x fd :
  pipes_inv SI s -> task_pool (ps_sched s) !! t = Some x -> t_fd_table_ready x <> 0 ->
  3 <= fd < TASK_FD_MAX ->
  wp (cleanup_body t fd) s (fun _ s' => closed_fds s s' t x [fd]).
Proof.
  intros Hinv Hx Hr Hfd. pose proof (lg_maps _ _ (pi_ledger _ _ Hinv) t x Hx Hr) as [Hlen Hent].
  destruct (aget_is_Some (t_pipe_map x) fd) as [e He]; [rewrite Hlen; lia|].
  unfold cleanup_body. wp_step. apply wp_on_sched. eapply wp_deref; [done|]. wp_step.
  eapply wp_deref; [done|]. destruct (Z.leb_spec 0 e) as [Hpos|Hneg].
  - wp_step. eapply wp_mono; [apply native_pipe_close_spec; by destruct s|]. cbv beta.
    replace (s <| ps_sched := ps_sched s |>) with s by by destruct s.
    rewrite (entry_decodes _ _ _ _ _ e Hinv Hx Hr Hfd He Hpos).
    intros _ s' (_ & Hinv' & (t' & [= <-] & Hc) & _). wp_step.
    assert (Hl := fun j => same_core_lookup_erase _ _ j Hc). constructor; [done| |].
    + specialize (Hl t). simpl in Hl. rewrite list_lookup_alter_eq, Hx in Hl.
      apply fmap_Some in Hl as (x' & Hx' & E). exists x'. split_and!; [done| |].
      * unfold erase_pipes. by rewrite <- E.
      * intros j Hj. change (t_pipe_map x') with (t_pipe_map (erase_sched x')). rewrite <- E. simpl.
        destruct (decide (j = fd)) as [->|Hne].
        -- rewrite decide_True by set_solver. apply aget_aset_eq. rewrite Hlen. lia.
        -- rewrite decide_False by set_solver. by apply aget_aset_ne.
    + intros j Hj. rewrite Hl. simpl. by rewrite list_lookup_alter_ne.
  - wp_step. replace (s <| ps_sched := ps_sched s |>) with s by by destruct s.
    destruct (Hent fd e ltac:(lia) He) as [->|]; [|lia]. constructor; [done| |done].
    exists x. split_and!; [done|done|]. intros j Hj. case_decide as Ej; [|done].
    apply list_elem_of_singleton in Ej. by subst.
Qed.

Lemma closed_fds_app s s1 s2 t x x1 l1 l2 :
  closed_fds s s1 t x l1 -> task_pool (ps_sched s1) !! t = Some x1 ->
  closed_fds s1 s2 t x1 l2 -> closed_fds s s2 t x (l1 ++ l2).
Proof.
  intros [_ (x1' & Hx1' & E1 & Hm1) Ho1] Hx1 [H2 (x2 & Hx2 & E2 & Hm2) Ho2].
  rewrite Hx1 in Hx1'. apply (inj Some) in Hx1' as <-.
  constructor; [done| |].
  - exists x2. split_and!; [done|by rewrite E2|]. intros fd Hfd. rewrite Hm2, Hm1 by done.
    destruct (decide (fd ∈ l1 ++ l2)) as [Hin|Hin], (decide (fd ∈ l2)), (decide (fd ∈ l1)); try done; set_solver.
  - intros j Hj. by rewrite Ho2, Ho1.
Qed.

Lemma cleanup_loop_spec t fds : forall s x,
  pipes_inv SI s -> task_pool (ps_sched s) !! t = Some x -> t_fd_table_ready x <> 0 ->
  Forall (fun fd => 3 <= fd < TASK_FD_MAX) fds ->
  wp (for_each (cleanup_body t) fds) s (fun _ s' => closed_fds s s' t x fds).
Proof.
  induction fds as [|fd fds IH]; intros s x Hinv Hx Hr Hf; cbn [for_each].
  - wp_step. constructor; [done| |done]. exists x. split_and!; [done|done|]. intros fd _.
    by rewrite decide_False by set_solver.
  - apply list.Forall_cons in Hf as [Hfd Hf]. wp_step.
    eapply wp_mono; [by apply cleanup_body_spec|]. cbv beta. intros _ s1 H1.
    pose proof (cf_task _ _ _ _ _ H1) as (x1 & Hx1 & E1 & _).
    eapply wp_mono; [apply (IH s1 x1); [apply H1|done| |done]|].
    + change (t_fd_table_ready (erase_pipes x1) <> 0). by rewrite E1.
    + cbv beta. intros _ s2 H2. by eapply (closed_fds_app s s1 s2 t x x1 [fd] fds).
Qed.

Lemma native_pipe_task_cleanup_spec s t x :
  pipes_inv SI s -> task_pool (ps_sched s) !! t = Some x -> t_fd_table_ready x <> 0 ->
  wp (native_pipe_task_cleanup (Some t)) s (fun _ s' => closed_fds s s' t x fd_slots).
Proof.
  intros Hinv Hx Hr. apply (cleanup_loop_spec t fd_slots s x Hinv Hx Hr).
  apply list.Forall_forall. intros fd Hfd%elem_of_seqZ. lia.
Qed.
End operations.

(** ** Data transfer keeps the ledger *)

Lemma pipes_inv_becomes s s' idx p p' :
  pipes_inv sched_ok s -> pipes_ok s' -> same_core (ps_sched s) (ps_sched s') ->
  aget (pipe_pool s) idx = Some p -> pipe_becomes s s' idx p' ->
  p_read_refs p' = p_read_refs p -> p_write_refs p' = p_write_refs p -> p_used p' = p_used p ->
  pipes_inv sched_ok s'.
Proof.
  intros [_ Hpipe Hlg] Hok' Hc Hp Hb Hr Hw Hu. unfold pipe_becomes in Hb. constructor.
  - apply Hok'.
  - intros i q Hq. split; [by apply (ok_pipes _ Hok' i)|]. rewrite Hb in Hq.
    destruct (decide (idx = i)) as [<-|Hne].
    + rewrite aget_aset_eq in Hq by (by eapply aget_Some_range). simplify_eq.
      unfold used_ok. rewrite Hr, Hw, Hu. apply (Hpipe _ _ Hp).
    + rewrite aget_aset_ne in Hq by done. by apply (Hpipe _ _ Hq).
  - apply (ledger_core (s <| pipe_pool := aset (pipe_pool s) idx p' |>)); [done|done|].
    eapply ledger_ext; [|apply (ledger_pipe _ _ _ _ p' Hlg Hp)]. intros e _. cbv beta. rewrite Hr, Hw. lia.
Qed.

Lemma native_pipe_read_inv s task fd buf_null count nonblock :
  pipes_inv sched_ok s -> 0 <= count ->
  wp (native_pipe_read task fd buf_null count nonblock) s (fun _ s' => pipes_inv sched_ok s').
Proof.
  intros Hinv Hcount. unfold native_pipe_read. wp_step. wp_step.
  destruct (pipe_decode s task fd) as [[idx which]|] eqn:E; [|by wp_step].
  apply pipe_decode_Some in E as (Htask & p & Hp & Hused).
  wp_step; [by wp_step|]. destruct (Z.eqb_spec count 0); [by wp_step|].
  eapply wp_mono; [apply pipe_read_pass_spec; [by apply pipes_inv_ok|done|done|lia]|]. cbv beta.
  intros r s' (Hok' & Hc & (p' & Hb & _ & ? & ? & ?) & _). by eapply pipes_inv_becomes.
Qed.

Lemma native_pipe_write_inv s task fd data nonblock :
  pipes_inv sched_ok s ->
  wp (native_pipe_write task fd data nonblock) s (fun _ s' => pipes_inv sched_ok s').
Proof.
  intros Hinv. unfold native_pipe_write. wp_step. wp_step.
  destruct (pipe_decode s task fd) as [[idx which]|] eqn:E; [|by wp_step].
  destruct data as [data|]; [|by wp_step].
  apply pipe_decode_Some in E as (Htask & p & Hp & Hused).
  wp_step; [by wp_step|]. destruct (Z.eqb_spec (zlen data) 0); [by wp_step|].
  eapply wp_mono; [apply pipe_write_pass_spec; [by apply pipes_inv_ok|done|done|lia]|]. cbv beta.
  intros r s' (Hok' & Hc & (p' & Hb & _ & ? & ? & ?) & _). by eapply pipes_inv_becomes.
Qed.
