(* ===== verification/PipeProps.v ===== *)
(** * Properties of pipes

    The promises of native_pipe.c to the tasks that use it, stated over
    arbitrary sequences of calls where that matters. *)

From S2P Require Import Prelude Sched SchedInv SchedProps Pipe PipeInv PipeRefs.

(** ** Sequences of operations *)

Inductive pipe_op :=
| OpCreate (t : nat)
| OpClose (t : nat) (fd : Z)
| OpDup (t : nat) (oldfd newfd : Z)
| OpInherit (child parent : nat) (fd : Z)
| OpRead (t : nat) (fd count : Z) (nonblock : bool)
| OpWrite (t : nat) (fd : Z) (data : list byte) (nonblock : bool)
| OpPoll (t : nat) (fd events : Z)
| OpTick.

Definition run_op (o : pipe_op) : M pstate unit :=
  match o with
  | OpCreate t => do* native_pipe_create (Some t) in ret tt
  | OpClose t fd => do* native_pipe_close (Some t) fd in ret tt
  | OpDup t o n => do* native_pipe_dup (Some t) o n in ret tt
  | OpInherit c p fd => do* native_pipe_inherit (Some c) (Some p) fd in ret tt
  | OpRead t fd n nb => do* native_pipe_read (Some t) fd false n nb in ret tt
  | OpWrite t fd d nb => do* native_pipe_write (Some t) fd (Some d) nb in ret tt
  | OpPoll t fd ev => do* native_pipe_poll (Some t) fd ev in ret tt
  | OpTick => on_sched sched_tick
  end.

(** Counts are unsigned, and a child inherits into an initialised table. *)
Definition op_typed (s : pstate) (o : pipe_op) : Prop :=
  match o with
  | OpRead _ _ n _ => 0 <= n
  | OpInherit c _ _ => forall y, task_pool (ps_sched s) !! c = Some y -> t_fd_table_ready y <> 0
  | _ => True
  end.

Lemma native_pipe_poll_keeps s task fd ev :
  pipes_inv sched_ok s -> wp (native_pipe_poll task fd ev) s (fun _ s' => s' = s).
Proof.
  intros Hinv. unfold native_pipe_poll. wp_step. wp_step.
  destruct (pipe_decode s task fd) as [[idx which]|] eqn:E; [|by wp_step].
  apply pipe_decode_Some in E as (_ & p & Hp & _). wp_step. apply (wp_get_pipe _ _ p); [done|]. by wp_step.
Qed.

Lemma run_op_spec o s :
  pipes_inv sched_ok s -> op_typed s o -> wp (run_op o) s (fun _ s' => pipes_inv sched_ok s').
Proof.
  intros Hinv Hty. destruct o; cbn [run_op op_typed] in *; try (apply wp_bind).
  - eapply wp_mono; [by apply native_pipe_create_spec|]. cbv beta.
    intros r s' [[_ ->]|(? & ? & ? & _ & _ & ? & _)]; by wp_step.
  - eapply wp_mono; [by apply native_pipe_close_spec|]. cbv beta. intros r s' H. wp_step.
    destruct (pipe_decode _ _ _) as [[]|]; [by destruct H as (_ & ? & _)|by destruct H as [_ ->]].
  - eapply wp_mono; [by apply native_pipe_dup_spec|]. cbv beta. intros r s' H. wp_step.
    destruct (pipe_decode _ _ _) as [[]|]; [destruct (pipe_fd_free _ _ _)|].
    + by destruct H as (_ & ? & _).
    + by destruct H as [_ ->].
    + by destruct H as [_ ->].
  - eapply wp_mono; [by apply native_pipe_inherit_spec|]. cbv beta. intros r s' [H _]. by wp_step.
  - eapply wp_mono; [by apply native_pipe_read_inv|]. cbv beta. intros _ s' H. by wp_step.
  - eapply wp_mono; [by apply native_pipe_write_inv|]. cbv beta. intros _ s' H. by wp_step.
  - eapply wp_mono; [by apply native_pipe_poll_keeps|]. cbv beta. intros _ s' ->. by wp_step.
  - destruct (pi_sched _ _ Hinv) as (l & c & Hs). apply wp_on_sched.
    eapply wp_mono; [by eapply sched_tick_ok|]. cbv beta. intros _ s' [Hok Hc]. destruct Hinv.
    constructor; [done|done|]. by eapply ledger_core.
Qed.

(** [reaches s s']: some sequence of operations leads from [s] to [s']. *)
Inductive reaches (s : pstate) : pstate -> Prop :=
| reaches_refl : reaches s s
| reaches_step s1 s2 o : reaches s s1 -> op_typed s1 o -> run_op o s1 = Done (tt, s2) -> reaches s s2.

Lemma reaches_inv s s' : pipes_inv sched_ok s -> reaches s s' -> pipes_inv sched_ok s'.
Proof.
  intros H0 H. induction H as [|s1 s2 o _ IH Hty Hrun]; [done|].
  by apply (wp_run _ _ _ _ _ (run_op_spec o s1 IH Hty) Hrun).
Qed.

(** ** A concrete state *)

Definition ready_task (x : task) : task :=
  x <| t_fd_table_ready := 1 |> <| t_fd_map := replicate 32 (-1) |> <| t_socket_map := replicate 32 (-1) |>
    <| t_pipe_map := replicate 32 (-1) |>.

Definition demo_pipes : pstate :=
  mk_pstate (demo_sched <| task_pool := ready_task <$> task_pool demo_sched |>) (replicate 8 zero_pipe).

Lemma demo_pipes_inv : pipes_inv sched_ok demo_pipes.
Proof.
  assert (Hpool : forall i p, aget (pipe_pool demo_pipes) i = Some p -> p = zero_pipe).
  { intros i p Hp. unfold aget in Hp. case_match; [done|].
    apply list_elem_of_lookup_2, elem_of_replicate in Hp. by destruct Hp. }
  constructor.
  - eexists [1; 2; 3]%nat, 1%nat. apply sched_check_sound. by vm_compute.
  - intros i p ->%Hpool. split; [apply zero_pipe_ok|done].
  - constructor; [done|done| | |].
    + intros t x Hx _. cbn [ps_sched demo_pipes task_pool upd] in Hx. rewrite list_lookup_fmap in Hx. apply fmap_Some in Hx as (y & _ & ->).
      split; [done|]. intros fd e _ He. left. unfold aget in He. simpl in He. case_match; [done|].
      apply list_elem_of_lookup_2 in He. change (e ∈ replicate 32 (-1)) in He.
      apply elem_of_replicate in He. by destruct He.
    + intros idx p Hp. pose proof (aget_Some_range _ _ _ Hp) as Hr. apply Hpool in Hp as ->.
      change (zlen (pipe_pool demo_pipes)) with 8 in Hr. simpl.
      assert (Hidx : idx = 0 \/ idx = 1 \/ idx = 2 \/ idx = 3 \/ idx = 4 \/ idx = 5 \/ idx = 6 \/ idx = 7) by lia.
      by repeat (destruct Hidx as [->|Hidx]; [by vm_compute|]); subst; vm_compute.
    + intros idx p Hp. pose proof (aget_Some_range _ _ _ Hp) as Hr. apply Hpool in Hp as ->.
      change (zlen (pipe_pool demo_pipes)) with 8 in Hr. simpl.
      assert (Hidx : idx = 0 \/ idx = 1 \/ idx = 2 \/ idx = 3 \/ idx = 4 \/ idx = 5 \/ idx = 6 \/ idx = 7) by lia.
      by repeat (destruct Hidx as [->|Hidx]; [by vm_compute|]); subst; vm_compute.
Qed.

(** ** Readiness against transfer *)

Lemma poll_read_end s task fd idx p ev :
  pipe_decode s task fd = Some (idx, 0) -> aget (pipe_pool s) idx = Some p ->
  native_pipe_poll task fd ev s = Done (
    Z.lor (if truth (Z.land ev ATM_POLLIN) && (truth (p_count p) || (p_write_refs p =? 0)) then ATM_POLLIN else 0)
          (if p_write_refs p =? 0 then ATM_POLLHUP else 0), s).
Proof.
  intros Hd Hp. unfold native_pipe_poll. rewrite bind_gets, Hd.
  assert (Hg : get_pipe idx s = Done (p, s)) by (unfold get_pipe, deref; by rewrite Hp).
  by rewrite (bind_Done _ _ _ _ _ Hg).
Qed.

Lemma poll_write_end s task fd idx p ev :
  pipe_decode s task fd = Some (idx, 1) -> aget (pipe_pool s) idx = Some p ->
  native_pipe_poll task fd ev s = Done (
    if p_read_refs p =? 0 then ATM_POLLERR
    else if truth (Z.land ev ATM_POLLOUT) && (p_count p <? ATM_PIPE_CAP) then ATM_POLLOUT else 0, s).
Proof.
  intros Hd Hp. unfold native_pipe_poll. rewrite bind_gets, Hd.
  assert (Hg : get_pipe idx s = Done (p, s)) by (unfold get_pipe, deref; by rewrite Hp).
  by rewrite (bind_Done _ _ _ _ _ Hg).
Qed.

(** ** Main properties *)

(** C18: A pipe is a lossless FIFO of bytes: over any sequence of read and write
    calls by any tasks on any descriptors, blocking or not, what the pipe
    held plus what was accepted is what was delivered plus what it still
    holds, in order. *)
Theorem pipe_stream_preserved idx cs s :
  pipes_ok s -> Forall call_typed cs ->
  wp (pipe_calls_run idx cs) s (fun wr s' =>
    contents_at s idx ++ fst wr = snd wr ++ contents_at s' idx).
Proof.
  intros Hok Hty. eapply wp_mono; [by apply pipe_calls_run_spec|]. by intros wr s' [_ ?].
Qed.

(** The demonstration state with a pipe of task 1 on descriptors 3 and 4, whose
    read end task 2 shares and whose write end task 3 shares. *)
Definition step_or (o : pipe_op) (s : pstate) : pstate :=
  match run_op o s with Done (_, s') => s' | Fault => s end.

Lemma step_or_inv o s : pipes_inv sched_ok s -> op_typed s o -> pipes_inv sched_ok (step_or o s).
Proof.
  intros Hinv Hty. destruct (wp_inv _ _ _ (run_op_spec o s Hinv Hty)) as (u & s' & E & H).
  unfold step_or. by rewrite E.
Qed.

Definition demo_open : pstate :=
  step_or (OpInherit 3 1 4) (step_or (OpInherit 2 1 3) (step_or (OpCreate 1) demo_pipes)).

Lemma all_ready s :
  forallb (fun x => negb (t_fd_table_ready x =? 0)) (task_pool (ps_sched s)) = true ->
  forall c y, task_pool (ps_sched s) !! c = Some y -> t_fd_table_ready y <> 0.
Proof.
  intros Hs c y Hy. apply list_elem_of_lookup_2 in Hy. apply (forallb_elem _ _ _ Hs) in Hy.
  by apply negb_true_iff, Z.eqb_neq in Hy.
Qed.

Lemma demo_open_inv : pipes_inv sched_ok demo_open.
Proof.
  apply step_or_inv; [apply step_or_inv; [apply step_or_inv; [exact demo_pipes_inv|done]|]|].
  - intros y. apply all_ready. by vm_compute.
  - intros y. apply all_ready. by vm_compute.
Qed.

Lemma pipe_stream_preserved_witness :
  wp (pipe_calls_run 0 [CallWrite 1 4 (cs "abc") true; CallRead 2 3 2 true]) demo_open
     (fun wr s' => contents_at demo_open 0 ++ fst wr = snd wr ++ contents_at s' 0).
Proof.
  apply pipe_stream_preserved; [apply pipes_inv_ok, demo_open_inv|].
  by repeat constructor.
Defined.

(** C3: Whatever tasks do with pipes, nothing faults and the counters stay exact:
    in every reachable state the read and write counters of each pipe are the
    numbers of descriptors open on its two ends over all tasks, every
    descriptor entry that is set leads to a pipe in use, a pipe no descriptor
    refers to is free, and the next operation again succeeds without fault. *)
Theorem pipe_counts_exact s s' o :
  pipes_inv sched_ok s -> reaches s s' -> op_typed s' o ->
  (forall idx p, aget (pipe_pool s') idx = Some p ->
     p_read_refs p = end_refs (ps_sched s') (2 * idx) /\
     p_write_refs p = end_refs (ps_sched s') (2 * idx + 1) /\
     (p_used p = 0 <-> end_refs (ps_sched s') (2 * idx) = 0 /\ end_refs (ps_sched s') (2 * idx + 1) = 0)) /\
  (forall t x fd e, task_pool (ps_sched s') !! t = Some x -> t_fd_table_ready x <> 0 ->
     3 <= fd < TASK_FD_MAX -> aget (t_pipe_map x) fd = Some e -> 0 <= e ->
     pipe_decode s' (Some t) fd = Some (e / 2, e mod 2)) /\
  exists s2, run_op o s' = Done (tt, s2) /\ reaches s s2.
Proof.
  intros H0 Hr Hty. pose proof (reaches_inv _ _ H0 Hr) as Hinv. split_and!.
  - intros idx p Hp. pose proof (pi_ledger _ _ Hinv) as Hlg.
    rewrite <- (ledger_read _ _ _ Hlg Hp), <- (ledger_write _ _ _ Hlg Hp). split_and!; [done|done|].
    destruct (pi_pipe _ _ Hinv _ _ Hp) as [_ Hu]. rewrite Hu.
    destruct (Z.eqb_spec (p_read_refs p) 0), (Z.eqb_spec (p_write_refs p) 0); simpl; intuition lia.
  - intros. by eapply entry_decodes.
  - destruct (wp_inv _ _ _ (run_op_spec o s' Hinv Hty)) as ([] & s2 & E & _).
    exists s2. split; [done|]. by eapply reaches_step.
Qed.

Lemma pipe_counts_exact_witness :
  exists s2, run_op (OpClose 1 4) demo_open = Done (tt, s2) /\ reaches demo_open s2.
Proof.
  apply (pipe_counts_exact demo_open demo_open (OpClose 1 4) demo_open_inv); [constructor|done].
Defined.

(** Closing a descriptor of a pipe lowers the count of that end by one and
    touches no other pipe; the pipe object is cleared exactly when the last
    descriptor of both ends goes. *)
Theorem pipe_close_frees_last s t fd idx which :
  pipes_inv sched_ok s -> pipe_decode s (Some t) fd = Some (idx, which) ->
  wp (native_pipe_close (Some t) fd) s (fun r s' => r = 0 /\ pipe_decode s' (Some t) fd = None /\
    (forall e, 0 <= e -> end_refs (ps_sched s') e = end_refs (ps_sched s) e - hit (2 * idx + which) e) /\
    (forall j, j <> idx -> aget (pipe_pool s') j = aget (pipe_pool s) j) /\
    (forall p', aget (pipe_pool s') idx = Some p' ->
       end_refs (ps_sched s') (2 * idx) = 0 -> end_refs (ps_sched s') (2 * idx + 1) = 0 -> p' = zero_pipe)).
Proof.
  intros Hinv Hd. eapply wp_mono; [by apply native_pipe_close_spec|]. cbv beta. rewrite Hd.
  intros r s' (-> & Hinv' & (t' & [= <-] & Hc) & Hpool).
  destruct (pipe_decode_open _ _ _ _ _ Hd) as (t' & x & p & [= <-] & []).
  pose proof (lg_pool _ _ (pi_ledger _ _ Hinv)) as L1. pose proof (lg_pool _ _ (pi_ledger _ _ Hinv')) as L2.
  split_and!; [done| | | |].
  - pose proof (same_core_lookup_erase _ _ t Hc) as Hl. simpl in Hl.
    rewrite list_lookup_alter_eq, oe_task in Hl. apply fmap_Some in Hl as (x' & Hx' & E).
    unfold pipe_decode, task_of. simpl. rewrite Hx'. simpl. destruct (_ || _); [done|].
    change (t_pipe_map x') with (t_pipe_map (erase_sched x')). rewrite <- E. simpl.
    rewrite aget_aset_eq; [done|]. by eapply aget_Some_range.
  - intros e He. rewrite (end_refs_core _ _ _ Hc).
    pose proof (end_refs_put _ _ _ _ _ (-1) e oe_task oe_ready oe_fd oe_entry) as H.
    unfold hit at 2 in H. rewrite (proj2 (Z.eqb_neq (-1) e)) in H by lia. lia.
  - intros j Hj. destruct (aget (pipe_pool s') j) as [q|] eqn:Hq.
    + specialize (Hpool j q Hq). by rewrite decide_False in Hpool by done.
    + unfold aget in *. destruct (j <? 0); [done|]. symmetry. apply lookup_ge_None.
      apply lookup_ge_None in Hq. lia.
  - intros p' Hp' E1 E2. specialize (Hpool idx p' Hp'). rewrite decide_True in Hpool by done. auto.
Qed.

Lemma pipe_close_frees_last_witness :
  wp (native_pipe_close (Some 1%nat) 3) demo_open (fun r s' => r = 0).
Proof.
  eapply wp_mono; [apply (pipe_close_frees_last demo_open 1 3 0 0 demo_open_inv)|].
  - by vm_compute.
  - by intros r s' [? _].
Defined.

(** What a read on an open read end does, on every branch: with bytes in the
    pipe it returns at once the first [min count held] of them; on an empty
    pipe it returns end-of-file when no write end is open, EAGAIN when
    non-blocking, and sleeps otherwise. *)
Theorem pipe_read_outcome s t fd idx p count nonblock :
  pipes_ok s -> pipe_decode s (Some t) fd = Some (idx, ATM_PIPE_READ_END) ->
  aget (pipe_pool s) idx = Some p -> 0 < count ->
  wp (native_pipe_read (Some t) fd false count nonblock) s (fun r s' => pipes_ok s' /\
    r = if 0 <? p_count p
        then Returned (Z.min count (p_count p)) (take (Z.to_nat (Z.min count (p_count p))) (contents p))
        else if p_write_refs p =? 0 then Returned 0 []
        else if nonblock then Returned (- ATM_EAGAIN) [] else Blocked).
Proof.
  intros Hok Hd Hp Hc. unfold native_pipe_read. wp_step. wp_step. rewrite Hd. cbn [negb orb Z.eqb ATM_PIPE_READ_END].
  rewrite (proj2 (Z.eqb_neq count 0)) by lia.
  assert (Ht : is_Some (task_of s (Some t))) by by apply pipe_decode_Some in Hd as [? _].
  eapply wp_mono; [by apply (pipe_read_pass_spec s (Some t) idx p)|]. cbv beta.
  intros r s' (Hok' & _ & (p' & _ & Hcont & _) & Hr). split; [done|].
  destruct (ok_pipes _ Hok _ _ Hp) as ([_ _ _ Hcnt] & _).
  destruct r as [n bs|].
  - destruct (Z.eqb_spec (p_count p) 0) as [E0|E0].
    + rewrite E0. simpl. destruct Hr as (-> & -> & Hnb).
      destruct (Z.eqb_spec (p_write_refs p) 0); [done|]. by rewrite Hnb.
    + rewrite (proj2 (Z.ltb_lt 0 _)) by lia. destruct Hr as [-> Hn]. rewrite <- Hn. f_equal.
      rewrite Hcont. simpl. by rewrite Nat2Z.id, take_app_length.
  - destruct Hr as (E0 & Hw & ->). rewrite E0. simpl. by rewrite (proj2 (Z.eqb_neq _ 0) Hw).
Qed.

Lemma pipe_read_outcome_witness :
  wp (native_pipe_read (Some 2%nat) 3 false 5 true) demo_open (fun r s' => r = Returned (- ATM_EAGAIN) []).
Proof.
  eapply wp_mono; [eapply (pipe_read_outcome demo_open 2 3 0 _ 5 true (pipes_inv_ok _ demo_open_inv))|].
  - by vm_compute.
  - by vm_compute.
  - lia.
  - intros r s' [_ ->]. by vm_compute.
Defined.

(** What a write on an open write end does, on every branch: EPIPE when no
    read end is open; otherwise it accepts as many bytes as fit, appended in
    order; on a full pipe it returns EAGAIN when non-blocking and sleeps
    otherwise.  It never accepts more than the pipe can hold. *)
Theorem pipe_write_outcome s t fd idx p data nonblock :
  pipes_ok s -> pipe_decode s (Some t) fd = Some (idx, ATM_PIPE_WRITE_END) ->
  aget (pipe_pool s) idx = Some p -> 0 < zlen data ->
  wp (native_pipe_write (Some t) fd (Some data) nonblock) s (fun r s' => pipes_ok s' /\
    zlen (contents_at s' idx) <= ATM_PIPE_CAP /\
    let n := Z.min (zlen data) (ATM_PIPE_CAP - p_count p) in
    (if p_read_refs p =? 0 then io_count r = - ATM_PIPE_EPIPE /\ contents_at s' idx = contents p
     else if p_count p <? ATM_PIPE_CAP then io_count r = n /\ contents_at s' idx = contents p ++ take (Z.to_nat n) data
     else (if nonblock then io_count r = - ATM_EAGAIN else r = Blocked) /\ contents_at s' idx = contents p)).
Proof.
  intros Hok Hd Hp Hc. unfold native_pipe_write. wp_step. wp_step. rewrite Hd.
  cbn [negb Z.eqb ATM_PIPE_WRITE_END Pos.eqb]. rewrite (proj2 (Z.eqb_neq (zlen data) 0)) by lia.
  assert (Ht : is_Some (task_of s (Some t))) by by apply pipe_decode_Some in Hd as [? _].
  eapply wp_mono; [by apply (pipe_write_pass_spec s (Some t) idx p)|]. cbv beta.
  intros r s' (Hok' & _ & (p' & Hb & Hcont & _) & Hr). split; [done|].
  destruct (pipe_becomes_contents _ _ _ _ _ Hp Hb) as [-> _].
  assert (Hp' : aget (pipe_pool s') idx = Some p') by (rewrite Hb; apply aget_aset_eq; by eapply aget_Some_range).
  split.
  { destruct (ok_pipes _ Hok' _ _ Hp') as ([_ _ _ Hcnt] & _). unfold contents. rewrite window_length. lia. }
  destruct (ok_pipes _ Hok _ _ Hp) as ([_ _ _ Hcnt] & _). rewrite Hcont.
  destruct r as [n bs|].
  - destruct Hr as [-> Hnb]. cbn [io_count]. destruct (Z.eqb_spec (p_read_refs p) 0) as [E|E].
    { split; [done|]. by rewrite app_nil_r. }
    destruct (Z.ltb_spec (p_count p) ATM_PIPE_CAP).
    + by rewrite (proj2 (Z.eqb_neq (p_count p) _)) by lia.
    + rewrite (proj2 (Z.eqb_eq (p_count p) ATM_PIPE_CAP)) in * by lia.
      rewrite Hnb by (done || lia). split; [done|]. by rewrite app_nil_r.
  - destruct Hr as (E0 & Hw & ->). cbn [io_count]. rewrite (proj2 (Z.eqb_neq _ 0) Hw).
    rewrite (proj2 (Z.ltb_ge _ _)) by lia. split; [done|]. by rewrite app_nil_r.
Qed.

Lemma pipe_write_outcome_witness :
  wp (native_pipe_write (Some 3%nat) 4 (Some (cs "hello")) true) demo_open (fun r s' => io_count r = 5).
Proof.
  eapply wp_mono; [eapply (pipe_write_outcome demo_open 3 4 0 _ (cs "hello") true (pipes_inv_ok _ demo_open_inv))|].
  - by vm_compute.
  - by vm_compute.
  - by vm_compute.
  - cbv beta zeta. intros r s' (_ & _ & H). vm_compute in H. by destruct H.
Defined.

(** Poll tells the truth about the read end: it reports POLLIN, when asked for
    it, exactly if a non-blocking read would not return EAGAIN, and POLLHUP
    exactly if no write end is open. *)
Theorem pipe_poll_agrees_with_read s t fd idx p ev count :
  pipes_ok s -> pipe_decode s (Some t) fd = Some (idx, ATM_PIPE_READ_END) ->
  aget (pipe_pool s) idx = Some p -> 0 < count -> Z.land ev ATM_POLLIN = ATM_POLLIN ->
  exists r s1 m, native_pipe_read (Some t) fd false count true s = Done (r, s1) /\
    native_pipe_poll (Some t) fd ev s = Done (m, s) /\
    (Z.land m ATM_POLLIN = ATM_POLLIN <-> r <> Returned (- ATM_EAGAIN) []) /\
    (Z.land m ATM_POLLHUP = ATM_POLLHUP <-> p_write_refs p = 0).
Proof.
  intros Hok Hd Hp Hc Hev.
  assert (Hw : wp (native_pipe_read (Some t) fd false count true) s (fun r _ =>
    r = Returned (- ATM_EAGAIN) [] <-> (p_count p <= 0 /\ p_write_refs p <> 0))).
  { unfold native_pipe_read. wp_step. wp_step. rewrite Hd. cbn [negb orb Z.eqb ATM_PIPE_READ_END].
    rewrite (proj2 (Z.eqb_neq count 0)) by lia.
    assert (Ht : is_Some (task_of s (Some t))) by by apply pipe_decode_Some in Hd as [? _].
    eapply wp_mono; [by apply (pipe_read_pass_spec s (Some t) idx p)|]. cbv beta.
    intros r s' (_ & _ & _ & Hr). destruct (ok_pipes _ Hok _ _ Hp) as ([_ _ _ Hcnt] & _).
    destruct r as [n bs|]; [|naive_solver].
    destruct (Z.eqb_spec (p_count p) 0) as [E0|E0].
    - destruct Hr as (-> & -> & _). destruct (Z.eqb_spec (p_write_refs p) 0); [naive_solver|].
      split; [intros _; lia|done].
    - destruct Hr as [Hn Hn2]. split; [intros [= -> ->]; unfold ATM_EAGAIN in *; lia|lia]. }
  destruct (wp_inv _ _ _ Hw) as (r & s1 & E & Hr). eexists r, s1, _.
  split; [done|]. split; [by apply (poll_read_end _ _ _ idx p)|]. rewrite Hr, Hev.
  destruct (ok_pipes _ Hok _ _ Hp) as ([_ _ _ Hcnt] & _).
  unfold truth. destruct (Z.eqb_spec (p_count p) 0), (Z.eqb_spec (p_write_refs p) 0); cbn;
    split; split; intros H; try done; try lia; exfalso; apply H; lia.
Qed.

Lemma pipe_poll_agrees_with_read_witness :
  exists r s1 m, native_pipe_read (Some 2%nat) 3 false 5 true demo_open = Done (r, s1) /\
    native_pipe_poll (Some 2%nat) 3 1 demo_open = Done (m, demo_open) /\
    (Z.land m ATM_POLLIN = ATM_POLLIN <-> r <> Returned (- ATM_EAGAIN) []) /\
    (Z.land m ATM_POLLHUP = ATM_POLLHUP <->
     p_write_refs (default zero_pipe (aget (pipe_pool demo_open) 0)) = 0).
Proof.
  apply (pipe_poll_agrees_with_read demo_open 2 3 0 _ 1 5 (pipes_inv_ok _ demo_open_inv));
    by vm_compute.
Defined.

(** Two readers, then a writer, then the reader that was woken. *)
Definition lost_wakeup_run : M pstate (list io_result) :=
  let* r1 := native_pipe_read (Some 1%nat) 3 false 1 false in
  let* r2 := native_pipe_read (Some 2%nat) 3 false 1 false in
  let* r3 := native_pipe_write (Some 3%nat) 4 (Some (cs "xy")) false in
  let* r4 := native_pipe_read (Some 2%nat) 3 false 1 false in
  ret [r1; r2; r3; r4].

(** A pipe has room for one waiting reader only, so a wake-up can be lost: tasks
    1 and 2 block in turn on the empty pipe, task 3 writes two bytes, task 2
    is woken and reads one of them.  Task 1 then stays BLOCKED although a byte
    is there, and no one is registered to be woken by a later write. *)
Theorem second_reader_loses_wakeup :
  wp lost_wakeup_run demo_open (fun rs s' =>
    rs = [Blocked; Blocked; Returned 2 []; Returned 1 (cs "x")] /\ contents_at s' 0 = cs "y" /\
    p_reader_waiter <$> aget (pipe_pool s') 0 = Some None /\
    task_state_at (ps_sched s') 1 = TASK_BLOCKED /\ task_state_at (ps_sched s') 2 = TASK_READY).
Proof. by vm_compute. Qed.
