(* ===== verification/Alloc.v ===== *)
(** * The interface of the kernel heap (src/src/kmalloc.h)

    What the other parts of the kernel ask of the heap, as an interface: their models
    take an instance of [Allocator] for the heap's state, their theorems the laws of
    [AllocatorLaws].  The heap of [Kmalloc] is the instance. *)

From S2P Require Import Prelude.

Class Allocator (H : Type) := {
  kmalloc : Z -> M H Z;
  kmalloc_aligned : Z -> Z -> M H Z;
  kfree : Z -> M H unit;
  heap_free_bytes : M H Z;
  heap_used_bytes : M H Z }.

(** [heap_live h L]: the addresses handed out and not freed are [L]. *)

Class AllocatorLaws (H : Type) {A : Allocator H} := {
  heap_live : H -> gset Z -> Prop;
  kmalloc_law h L n : heap_live h L -> 0 < n < 2 ^ 32 ->
    wp (kmalloc n) h (fun p h' =>
      (p = 0 /\ heap_live h' L) \/ (p <> 0 /\ (p ∉ L) /\ heap_live h' ({[p]} ∪ L)));
  kfree_law h L p : heap_live h L -> p ∈ L -> wp (kfree p) h (fun _ h' => heap_live h' (L ∖ {[p]}));
  free_bytes_law h L : heap_live h L -> wp heap_free_bytes h (fun n h' => 0 <= n < 2 ^ 32 /\ heap_live h' L);
  used_bytes_law h L : heap_live h L -> wp heap_used_bytes h (fun n h' => 0 <= n < 2 ^ 32 /\ heap_live h' L) }.
