(* ===== verification/HeapAlloc.v ===== *)
(** * The kernel heap keeps the promises the kernel relies on

    The instances of [Allocator] and [AllocatorLaws] for src/src/kmalloc.c: the live
    addresses are the payloads of the allocated blocks. *)

From S2P Require Import Prelude Kmalloc KmallocInv KmallocProps Alloc.

(** ** The kernel heap as the allocator *)

(** A header takes 32 bytes of the region, so the walk over the blocks ends within
    [heap_total / 32 + 2] steps. *)
Definition walk_bound (h : heap) : nat := Z.to_nat (heap_total h / 32 + 2).

#[export] Instance heap_allocator : Allocator heap := {
  Alloc.kmalloc := Kmalloc.kmalloc;
  Alloc.kmalloc_aligned := Kmalloc.kmalloc_aligned;
  Alloc.kfree := Kmalloc.kfree;
  Alloc.heap_free_bytes := fun h => Kmalloc.heap_free_bytes (walk_bound h) h;
  Alloc.heap_used_bytes := fun h => Kmalloc.heap_used_bytes (walk_bound h) h }.

(** A heap of one megabyte. *)
Definition boot_heap : heap :=
  match heap_init 0x100000 0x100000 (blank_ram 0x100000 0x200000) with Done (_, h) => h | Fault => blank_ram 0 0 end.

Definition taken (b : block) : Prop := b_free b = false.
#[export] Instance taken_dec b : Decision (taken b).
Proof. unfold taken. apply _. Defined.

Definition payloads (bl : list block) : gset Z := list_to_set (b_payload <$> filter taken bl).

Definition heap_live_of (h : heap) (L : gset Z) : Prop :=
  exists bl, heap_ok h bl /\ Forall (fun b => taken b -> 0 < b_size b) bl /\ L = payloads bl.

Lemma payloads_app l1 l2 : payloads (l1 ++ l2) = payloads l1 ∪ payloads l2.
Proof. unfold payloads. rewrite list.filter_app, fmap_app, list_to_set_app_L. done. Qed.
Lemma payloads_cons b l : payloads (b :: l) = (if b_free b then ∅ else {[b_payload b]}) ∪ payloads l.
Proof.
  unfold payloads. rewrite filter_cons. destruct (b_free b) eqn:E.
  - rewrite decide_False by (unfold taken; congruence). set_solver.
  - rewrite decide_True by done. done.
Qed.

Lemma payloads_elem p bl : p ∈ payloads bl <-> exists b, b ∈ bl /\ taken b /\ p = b_payload b.
Proof.
  unfold payloads. rewrite elem_of_list_to_set, list_elem_of_fmap. split.
  - intros (b & -> & Hb). apply list_elem_of_filter in Hb as [? ?]. by exists b.
  - intros (b & ? & ? & ->). exists b. split; [done|]. by apply list_elem_of_filter.
Qed.

(** The payloads of the other blocks differ from that of [b]. *)
Lemma payload_apart h l1 b l2 c :
  heap_ok h (l1 ++ b :: l2) -> c ∈ l1 \/ c ∈ l2 -> b_payload c <> b_payload b.
Proof.
  intros Hok Hc. destruct (heap_ok_split _ _ _ _ Hok) as (Hpl & Hl1 & Hl2 & _). destruct Hpl as [_ _ _ Hsz _].
  unfold b_payload, b_end, HDR in *. destruct Hc as [Hc|Hc].
  - assert (Hsc : 0 <= b_size c).
    { clear -Hl1 Hc. revert Hl1. generalize (heap_start h). induction l1 as [|x l1 IH]; intros s; [set_solver|].
      cbn [bseg]. intros (_ & ? & _ & _ & ?). apply elem_of_cons in Hc as [->|Hc]; [done|]. by eapply IH. }
    destruct (bseg_elem _ _ _ _ _ Hl1 Hc). unfold b_end, HDR in *. lia.
  - destruct (chain_elem _ _ _ _ _ Hl2 Hc). lia.
Qed.

Lemma merge_payloads fuel : forall bl, payloads (merge fuel bl) = payloads bl /\
  (Forall (fun b => taken b -> 0 < b_size b) bl -> Forall (fun b => taken b -> 0 < b_size b) (merge fuel bl)).
Proof.
  induction fuel as [|fuel IH]; intros bl; [by destruct bl|]. destruct bl as [|b [|c rest]]; [done|done|].
  cbn [merge]. destruct (b_free b && b_free c) eqn:E.
  - apply andb_true_iff in E as [Eb Ec]. destruct (IH (join b c :: rest)) as [Hp Hs]. split.
    + rewrite Hp, !payloads_cons, Eb, Ec. cbn [join b_free]. set_solver.
    + intros (_ & (_ & Hr)%list.Forall_cons)%list.Forall_cons. apply Hs. constructor; [|done]. by unfold taken, join.
  - destruct (IH (c :: rest)) as [Hp Hs]. split.
    + rewrite (payloads_cons b (merge _ _)), Hp. by rewrite (payloads_cons b (c :: rest)).
    + intros [Hb Hr]%list.Forall_cons. constructor; [done|]. by apply Hs.
Qed.

Lemma round8_pos n : 0 < n -> 0 < round8 n.
Proof. intros Hn. destruct (round8_bounds n) as [? _]; [lia|]. unfold round8 in *. lia. Qed.

Lemma heap_kmalloc_law h L n :
  heap_live_of h L -> 0 < n < 2 ^ 32 ->
  wp (Kmalloc.kmalloc n) h (fun p h' =>
    (p = 0 /\ heap_live_of h' L) \/ (p <> 0 /\ (p ∉ L) /\ heap_live_of h' ({[p]} ∪ L))).
Proof.
  intros (bl & Hok & Hpos & ->) Hn. eapply wp_mono; [apply (kmalloc_spec h bl n Hok); lia|].
  intros p h'. cbv beta. destruct (search HEAP_WALK_MAX (round8 n) bl) as [b|] eqn:Es.
  2: { intros [-> ->]. left. split; [done|]. by exists bl. }
  intros (-> & _ & m1 & m2 & -> & Hok'). right.
  apply find_some in Es as [_ Hfit]. apply andb_true_iff in Hfit as [Hfree Hsz%Z.leb_le].
  assert (Hcarve : payloads (carve (round8 n) b) = {[b_payload b]}).
  { unfold carve. destruct (_ <=? _); unfold payloads, b_payload; simpl; set_solver. }
  pose proof Hok as [Hst _ _ _ _ _]. destruct (heap_ok_split _ _ _ _ Hok) as ([Hlo _ _ _ _] & _).
  split_and!.
  - unfold b_payload, HDR. lia.
  - intros (c & Hc & Ht & E)%payloads_elem. apply elem_of_app in Hc as [Hc|[->|Hc]%elem_of_cons].
    + by apply (payload_apart h m1 b m2 c Hok (or_introl Hc)).
    + unfold taken in Ht. congruence.
    + by apply (payload_apart h m1 b m2 c Hok (or_intror Hc)).
  - exists (m1 ++ carve (round8 n) b ++ m2). split_and!; [done| |].
    + apply Forall_app in Hpos as [H1 [_ H2]%list.Forall_cons]. apply Forall_app; split; [done|]. apply Forall_app; split; [|done].
      pose proof (round8_pos n ltac:(lia)). unfold carve. destruct (_ <=? _); repeat constructor; simpl; intros; try lia. done.
    + rewrite !payloads_app, Hcarve, payloads_cons, Hfree. set_solver.
Qed.

Lemma heap_kfree_law h L p :
  heap_live_of h L -> p ∈ L -> wp (Kmalloc.kfree p) h (fun _ h' => heap_live_of h' (L ∖ {[p]})).
Proof.
  intros (bl & Hok & Hpos & ->) (b & Hb & Ht & ->)%payloads_elem. apply list_elem_of_split in Hb as (l1 & l2 & ->).
  pose proof (proj1 (list.Forall_forall _ _) Hpos b ltac:(set_solver) Ht) as Hsz.
  eapply wp_mono; [by apply (kfree_spec h l1 b l2)|]. intros ? h' (Hok' & _ & _). eexists. split; [exact Hok'|].
  destruct (merge_payloads HEAP_WALK_MAX (l1 ++ release b :: l2)) as [Hp Hs]. split.
  - apply Hs. apply Forall_app in Hpos as [H1 [_ H2]%list.Forall_cons]. apply Forall_app; split; [done|].
    constructor; [|done]. by unfold taken, release.
  - rewrite Hp, !payloads_app, !payloads_cons. unfold taken in Ht. rewrite Ht. cbn [release b_free].
    assert (Ha : forall c, c ∈ l1 \/ c ∈ l2 -> b_payload c <> b_payload b) by (intros c Hc; by eapply payload_apart).
    apply set_eq. intros x. rewrite elem_of_difference, !elem_of_union, elem_of_singleton, elem_of_empty.
    split.
    + intros [[Hx|[->|Hx]] Hne]; [by left|done|by right; right].
    + intros [Hx|[[]|Hx]]; (split; [tauto|]); intros ->; apply payloads_elem in Hx as (c & Hc & _ & E); by apply (Ha c); [tauto|].
Qed.

Lemma heap_bytes_law h L :
  heap_live_of h L ->
  wp (fun h => Kmalloc.heap_free_bytes (walk_bound h) h) h (fun n h' => 0 <= n < 2 ^ 32 /\ heap_live_of h' L) /\
  wp (fun h => Kmalloc.heap_used_bytes (walk_bound h) h) h (fun n h' => 0 <= n < 2 ^ 32 /\ heap_live_of h' L).
Proof.
  intros (bl & Hok & Hpos & ->). pose proof Hok as [_ _ _ _ Htot Hch]. pose proof (chain_space _ _ _ _ Hch) as [Hfs Hle].
  unfold heap_end, HDR in Hle.
  assert (Hlen : (length bl <= walk_bound h)%nat).
  { unfold walk_bound. pose proof (Z.div_mod (heap_total h) 32 ltac:(lia)). pose proof (Z.mod_pos_bound (heap_total h) 32 ltac:(lia)). lia. }
  destruct bl as [|b bl]; [simpl in Hch; unfold heap_end, HDR in *; lia|]. cbn [length] in Hle.
  destruct (heap_bytes_sum h (b :: bl) (walk_bound h) Hok Hlen) as [E1 E2].
  unfold wp. rewrite E1, E2. split; (split; [lia|]); by exists (b :: bl).
Qed.

#[export] Instance heap_laws : AllocatorLaws heap := {
  heap_live := heap_live_of;
  kmalloc_law := heap_kmalloc_law;
  kfree_law := heap_kfree_law;
  free_bytes_law h L Hl := proj1 (heap_bytes_law h L Hl);
  used_bytes_law h L Hl := proj2 (heap_bytes_law h L Hl) }.

(** The heap at boot, with nothing allocated. *)
Lemma boot_heap_live : heap_live boot_heap ∅.
Proof.
  exists [mk_block 0x100000 (0x100000 - 32) true]. split_and!; [|repeat constructor; done|done].
  constructor; vm_compute; done.
Qed.
