(* ===== verification/Vfs.v ===== *)
(** * The virtual filesystem: inodes and ramfs (src/src/vfs.c, src/src/vfs.h)

    The objects the filesystem keeps on the kernel heap are represented by their
    addresses: the inodes by a map from addresses, the private data of an inode
    (file, directory or link) inside it together with the addresses the code frees.
    The dereference of a pointer that is not in the map - NULL or an inode that was
    freed - is a [Fault], as is the use of the private data of one kind of file as
    that of another.  A directory's chain of dentries is the list of them, first
    one first.  A reference count is an unbounded integer: 2^31 references to one
    inode do not occur.

    The heap is a parameter of this component, an instance of [Allocator]. *)

From S2P Require Import Prelude Cstring Alloc.

(** ** Constants of vfs.h *)

Definition S_IFMT : Z := 0xF000.
Definition S_IFREG : Z := 0x8000.
Definition S_IFDIR : Z := 0x4000.
Definition S_IFLNK : Z := 0xA000.
Definition S_IFCHR : Z := 0x2000.
Definition S_IFBLK : Z := 0x6000.
Definition S_ISVTX : Z := 0x200.

Definition S_ISREG (m : Z) : bool := Z.land m S_IFMT =? S_IFREG.
Definition S_ISDIR (m : Z) : bool := Z.land m S_IFMT =? S_IFDIR.
Definition S_ISLNK (m : Z) : bool := Z.land m S_IFMT =? S_IFLNK.
Definition S_ISCHR (m : Z) : bool := Z.land m S_IFMT =? S_IFCHR.

(** The octal modes 0644, 0755, 0777. *)
Definition MODE_FILE : Z := Z.lor S_IFREG 0x1A4.
Definition MODE_DIR : Z := Z.lor S_IFDIR 0x1ED.
Definition MODE_LINK : Z := Z.lor S_IFLNK 0x1FF.

Definition PERM_R : Z := 4.
Definition PERM_W : Z := 2.
Definition PERM_X : Z := 1.

Definition O_RDONLY : Z := 0.
Definition O_WRONLY : Z := 1.
Definition O_RDWR : Z := 2.
Definition O_ACCMODE : Z := 3.
Definition O_CREAT : Z := 0x40.
Definition O_EXCL : Z := 0x80.
Definition O_TRUNC : Z := 0x200.
Definition O_APPEND : Z := 0x400.
Definition O_NOFOLLOW : Z := 0x800.
Definition O_CLOEXEC : Z := 0x2000.

Definition ENOENT : Z := 2.
Definition EACCES : Z := 13.
Definition EEXIST : Z := 17.
Definition ENOTDIR : Z := 20.
Definition EISDIR : Z := 21.
Definition EINVAL : Z := 22.
Definition EMFILE : Z := 24.
Definition ENOSPC : Z := 28.
Definition ENOTEMPTY : Z := 39.
Definition ELOOP : Z := 40.

Definition VFS_NAME_MAX : Z := 255.
Definition VFS_PATH_MAX : Z := 1024.
Definition FD_MAX : Z := 64.
Definition VFS_SYMLINK_MAX : Z := 8.
Definition MOUNT_MAX : Z := 32.

Definition DT_CHR : Z := 2.
Definition DT_DIR : Z := 4.
Definition DT_REG : Z := 8.
Definition DT_LNK : Z := 10.

(** Sizes of the structures on x86-64. *)
Definition sizeof_inode : Z := 112.
Definition sizeof_dentry : Z := 272.
Definition sizeof_dir : Z := 16.
Definition sizeof_file : Z := 24.
Definition sizeof_link : Z := 1024.
Definition sizeof_DIR : Z := 1032.

(** ** Data *)

Record timespec := mk_ts { ts_sec : Z; ts_nsec : Z }.

(** The operation tables defined in vfs.c. *)
Inductive fsops :=
| ramfs_ops | ramfs_dir_ops
| dev_null_ops | dev_zero_ops | dev_random_ops
| proc_synth_ops_ver | proc_synth_ops_cmd | proc_synth_ops_upt
| proc_synth_ops_mem | proc_synth_ops_cpu | proc_synth_ops_mnt.
#[export] Instance fsops_eq_dec : EqDecision fsops.
Proof. solve_decision. Defined.

Record dentry := mk_dentry { d_addr : Z; d_name : cstr; d_inode : Z }.

(** [priv]: NULL, a [ramfs_file_t], a [ramfs_dir_t] or a [ramfs_link_t]; [a] is its
    own address, [data] that of the file's buffer (0 for NULL), [bytes] the buffer. *)
Inductive priv :=
| PNull
| PFile (a data : Z) (bytes : list byte) (size capacity : Z)
| PDir (a : Z) (children : list dentry) (count : Z)
| PLink (a : Z) (target : cstr).

Record inode := mk_inode {
  i_ino : Z; i_mode : Z; i_uid : Z; i_gid : Z; i_nlink : Z; i_size : Z;
  i_atime : timespec; i_mtime : timespec; i_ctime : timespec;
  i_ops : option fsops; i_priv : priv; i_mountpoint : Z; i_refcount : Z }.

#[export] Instance eta_inode : Eta inode := fun i =>
  mk_inode (i_ino i) (i_mode i) (i_uid i) (i_gid i) (i_nlink i) (i_size i) (i_atime i) (i_mtime i) (i_ctime i)
    (i_ops i) (i_priv i) (i_mountpoint i) (i_refcount i).

Record vfs_fd := mk_fd {
  f_inode : Z; f_offset : Z; f_flags : Z; f_used : bool; f_cloexec : Z; f_path : cstr }.

#[export] Instance eta_fd : Eta vfs_fd := fun f =>
  mk_fd (f_inode f) (f_offset f) (f_flags f) (f_used f) (f_cloexec f) (f_path f).

Definition fd_zero : vfs_fd := mk_fd 0 0 0 false 0 [].

Record mount_entry := mk_mount { m_path : cstr; m_root : Z; m_used : bool }.

Record stat := mk_stat {
  st_ino : Z; st_mode : Z; st_nlink : Z; st_uid : Z; st_gid : Z; st_size : Z; st_blksize : Z; st_blocks : Z;
  st_atime : timespec; st_mtime : timespec; st_ctime : timespec;
  st_inode : Z; st_size32 : Z; st_type : Z; st_perms : Z; st_uid' : Z; st_gid' : Z }.

Record dirent := mk_dirent { de_ino : Z; de_d_type : Z; de_name : cstr; de_inode : Z; de_type : Z }.

Record dir_handle := mk_DIR { dh_path : cstr; dh_index : Z; dh_valid : bool }.

Record vfs (H : Type) := mk_vfs {
  v_heap : H;
  v_inodes : gmap Z inode;
  v_handles : gmap Z dir_handle;
  v_fds : list vfs_fd;
  v_mounts : list mount_entry;
  v_nmounts : Z;
  v_root : Z;
  v_errno : Z;
  v_uid : Z; v_gid : Z;
  v_next_ino : Z;
  v_ticks : Z;
  v_rng : Z;
  v_dirent : option dirent }.
Arguments mk_vfs {_} _ _ _ _ _ _ _ _ _ _ _ _ _ _.
Arguments v_heap {_}. Arguments v_inodes {_}. Arguments v_handles {_}. Arguments v_fds {_}.
Arguments v_mounts {_}. Arguments v_nmounts {_}. Arguments v_root {_}. Arguments v_errno {_}.
Arguments v_uid {_}. Arguments v_gid {_}. Arguments v_next_ino {_}. Arguments v_ticks {_}.
Arguments v_rng {_}. Arguments v_dirent {_}.

#[export] Instance eta_vfs H : Eta (vfs H) := fun v =>
  mk_vfs (v_heap v) (v_inodes v) (v_handles v) (v_fds v) (v_mounts v) (v_nmounts v) (v_root v) (v_errno v)
    (v_uid v) (v_gid v) (v_next_ino v) (v_ticks v) (v_rng v) (v_dirent v).

(** A result of the string library, as a step of the filesystem. *)
Definition lift {S A} (o : outcome A) : M S A := fun s => match o with Done a => Done (a, s) | Fault => Fault end.

Section Ramfs.
Context {H : Type} `{!Allocator H}.
Abbreviation V := (M (vfs H)).

(** ** Accesses *)

Definition alloc (n : Z) : V Z := zoom v_heap (fun h v => v <| v_heap := h |>) (kmalloc n).
Definition free (p : Z) : V unit := zoom v_heap (fun h v => v <| v_heap := h |>) (kfree p).

Definition inode_at (p : Z) : V inode := deref (fun v => v_inodes v !! p).
Definition put_inode (p : Z) (i : inode) : V unit := modify (fun v => v <| v_inodes := <[p := i]> (v_inodes v) |>).
Definition upd_inode (p : Z) (f : inode -> inode) : V unit :=
  let* i := inode_at p in put_inode p (f i).
Definition set_errno (e : Z) : V unit := modify (fun v => v <| v_errno := e |>).

(** [(ramfs_dir_t * )dir->priv] *)
Definition dir_of (i : inode) : option (Z * list dentry * Z) :=
  match i_priv i with PDir a ch n => Some (a, ch, n) | _ => None end.
Definition dir_at (p : Z) : V (Z * list dentry * Z) := deref (fun v => i ← v_inodes v !! p; dir_of i).

(** ** Credentials and times *)

Definition vfs_set_credentials (uid gid : Z) : V unit := modify (fun v => v <| v_uid := uid |> <| v_gid := gid |>).
Definition vfs_current_uid : V Z := gets v_uid.
Definition vfs_current_gid : V Z := gets v_gid.

Definition now : V timespec := gets (fun v => mk_ts (v_ticks v / 100) 0).
Definition inode_touch_a (p : Z) : V unit := let* t := now in upd_inode p (fun i => i <| i_atime := t |>).
Definition inode_touch_m (p : Z) : V unit :=
  let* t := now in upd_inode p (fun i => i <| i_mtime := t |> <| i_ctime := t |>).

(** The permission bits that apply to a session. *)
Definition access_bits (uid gid : Z) (i : inode) : Z :=
  if uid =? i_uid i then Z.land (Z.shiftr (i_mode i) 6) 7
  else if gid =? i_gid i then Z.land (Z.shiftr (i_mode i) 3) 7
  else Z.land (i_mode i) 7.

Definition vfs_access (p wanted : Z) : V bool :=
  if p =? 0 then ret false
  else
    let* uid := gets v_uid in
    if uid =? 0 then ret true
    else
      let* gid := gets v_gid in
      let* i := inode_at p in
      ret (Z.land (access_bits uid gid i) wanted =? wanted).

Definition vfs_require (p wanted : Z) : V Z :=
  let* ok := vfs_access p wanted in
  if ok then ret 0 else do* set_errno EACCES in ret (-1).

(** ** Inodes *)

Definition inode_alloc (ops : fsops) (mode : Z) (pv : priv) : V Z :=
  let* p := alloc sizeof_inode in
  if p =? 0 then ret 0
  else
    let* t := now in
    do* modify (fun v =>
      v <| v_inodes := <[p := mk_inode (v_next_ino v) mode (v_uid v) (v_gid v) 1 0 t t t (Some ops) pv 0 1]> (v_inodes v) |>
        <| v_next_ino := u64 (v_next_ino v + 1) |>) in
    ret p.

Definition inode_ref (p : Z) : V unit :=
  if p =? 0 then ret tt else upd_inode p (fun i => i <| i_refcount := i_refcount i + 1 |>).

(** [ramfs_destroy_file] frees the private data. *)
Definition ramfs_destroy_file (p : Z) : V unit :=
  let* i := inode_at p in
  match i_priv i with
  | PNull => ret tt
  | pv =>
    if S_ISREG (i_mode i) then
      match pv with
      | PFile a data _ _ _ => do* (if data =? 0 then ret tt else free data) in free a
      | _ => fault
      end
    else if S_ISLNK (i_mode i) then
      match pv with
      | PLink a _ => free a | PFile a _ _ _ _ => free a | PDir a _ _ => free a | PNull => ret tt
      end
    else if S_ISDIR (i_mode i) then
      match pv with
      | PDir a ch _ => do* for_each (fun e => free (d_addr e)) ch in free a
      | _ => fault
      end
    else ret tt
  end.

Definition op_destroy (o : fsops) : option (Z -> V unit) :=
  match o with ramfs_ops | ramfs_dir_ops => Some ramfs_destroy_file | _ => None end.

Definition inode_unref (p : Z) : V unit :=
  if p =? 0 then ret tt
  else
    do* upd_inode p (fun i => i <| i_refcount := i_refcount i - 1 |>) in
    let* i := inode_at p in
    if i_refcount i <=? 0 then
      do* (match i_ops i with
           | Some o => match op_destroy o with Some f => f p | None => ret tt end
           | None => ret tt
           end) in
      do* free p in
      modify (fun v => v <| v_inodes := delete p (v_inodes v) |>)
    else ret tt.

(** ** Dentries *)

Definition dentry_find (ch : list dentry) (name : cstr) : option dentry :=
  List.find (fun e => bool_decide (d_name e = name)) ch.

(** [kstrcpy] into a buffer of [n] bytes. *)
Definition fits_in (s : cstr) (n : Z) : bool := zlen s <? n.

Definition dentry_add (d : Z) (name : cstr) (ino : Z) : V Z :=
  let* x := dir_at d in
  match dentry_find (snd (fst x)) name with
  | Some _ => ret (- EEXIST)
  | None =>
    let* e := alloc sizeof_dentry in
    if e =? 0 then ret (- ENOSPC)
    else
      do* guard (fits_in name (VFS_NAME_MAX + 1)) in
      do* inode_ref ino in
      let* '(a, ch, n) := dir_at d in
      do* upd_inode d (fun i => i <| i_priv := PDir a (mk_dentry e name ino :: ch) (u32 (n + 1)) |>) in
      ret 0
  end.

(** Unlinks the first entry of that name. *)
Fixpoint drop_name (ch : list dentry) (name : cstr) : list dentry :=
  match ch with
  | [] => []
  | e :: ch' => if bool_decide (d_name e = name) then ch' else e :: drop_name ch' name
  end.

Definition dentry_remove (d : Z) (name : cstr) : V Z :=
  let* '(a, ch, n) := dir_at d in
  match dentry_find ch name with
  | None => ret (- ENOENT)
  | Some e =>
    do* upd_inode d (fun i => i <| i_priv := PDir a (drop_name ch name) n |>) in
    do* inode_unref (d_inode e) in
    do* free (d_addr e) in
    let* '(a', ch', n') := dir_at d in
    do* upd_inode d (fun i => i <| i_priv := PDir a' ch' (u32 (n' - 1)) |>) in
    ret 0
  end.

(** ** Directory operations; the result carries the pointer stored through [out],
    0 when nothing is stored. *)

Definition ramfs_lookup (dir : Z) (name : cstr) : V (Z * Z) :=
  let* x := dir_at dir in
  if bool_decide (name = cs ".") || bool_decide (name = cs "..") then
    do* inode_ref dir in ret (0, dir)
  else match dentry_find (snd (fst x)) name with
  | None => ret (- ENOENT, 0)
  | Some e => do* inode_ref (d_inode e) in ret (0, d_inode e)
  end.

Definition ramfs_create_impl (dir : Z) (name : cstr) (mode : Z) (out : bool) : V (Z * Z) :=
  let* x := dir_at dir in
  match dentry_find (snd (fst x)) name with
  | Some _ => ret (- EEXIST, 0)
  | None =>
    let* fp := alloc sizeof_file in
    if fp =? 0 then ret (- ENOSPC, 0)
    else
      let* ni := inode_alloc ramfs_ops mode (PFile fp 0 [] 0 0) in
      if ni =? 0 then do* free fp in ret (- ENOSPC, 0)
      else
        let* r := dentry_add dir name ni in
        if r <? 0 then do* inode_unref ni in ret (r, 0)
        else
          do* inode_touch_m dir in
          do* (if out then inode_ref ni else ret tt) in
          do* inode_unref ni in
          ret (0, if out then ni else 0)
  end.

Definition ramfs_mkdir_impl (dir : Z) (name : cstr) (mode : Z) (out : bool) : V (Z * Z) :=
  let* x := dir_at dir in
  match dentry_find (snd (fst x)) name with
  | Some _ => ret (- EEXIST, 0)
  | None =>
    let* nd := alloc sizeof_dir in
    if nd =? 0 then ret (- ENOSPC, 0)
    else
      let* ni := inode_alloc ramfs_dir_ops (Z.lor mode S_IFDIR) (PDir nd [] 0) in
      if ni =? 0 then do* free nd in ret (- ENOSPC, 0)
      else
        do* upd_inode ni (fun i => i <| i_nlink := 2 |>) in
        do* dentry_add ni (cs ".") ni in
        do* dentry_add ni (cs "..") dir in
        let* r := dentry_add dir name ni in
        if r <? 0 then do* inode_unref ni in ret (r, 0)
        else
          do* upd_inode dir (fun i => i <| i_nlink := u32 (i_nlink i + 1) |>) in
          do* inode_touch_m dir in
          do* (if out then inode_ref ni else ret tt) in
          do* inode_unref ni in
          ret (0, if out then ni else 0)
  end.

Definition ramfs_unlink_impl (dir : Z) (name : cstr) : V Z :=
  let* x := dir_at dir in
  match dentry_find (snd (fst x)) name with
  | None => ret (- ENOENT)
  | Some e =>
    let* t := inode_at (d_inode e) in
    if S_ISDIR (i_mode t) then ret (- EISDIR)
    else
      do* upd_inode (d_inode e) (fun i => i <| i_nlink := u32 (i_nlink i - 1) |>) in
      let* r := dentry_remove dir name in
      do* inode_touch_m dir in
      ret r
  end.

Definition ramfs_rmdir_impl (dir : Z) (name : cstr) : V Z :=
  let* x := dir_at dir in
  match dentry_find (snd (fst x)) name with
  | None => ret (- ENOENT)
  | Some e =>
    let* t := inode_at (d_inode e) in
    if negb (S_ISDIR (i_mode t)) then ret (- ENOTDIR)
    else
      let* c := dir_at (d_inode e) in
      if 2 <? snd c then ret (- ENOTEMPTY)
      else
        do* upd_inode (d_inode e) (fun i => i <| i_nlink := u32 (i_nlink i - 1) |>) in
        do* upd_inode dir (fun i => i <| i_nlink := u32 (i_nlink i - 1) |>) in
        let* r := dentry_remove dir name in
        do* inode_touch_m dir in
        ret r
  end.

Definition ramfs_link_impl (dir : Z) (name : cstr) (target : Z) : V Z :=
  let* t := inode_at target in
  if S_ISDIR (i_mode t) then ret (- EISDIR)
  else
    let* r := dentry_add dir name target in
    if r =? 0 then
      do* upd_inode target (fun i => i <| i_nlink := u32 (i_nlink i + 1) |>) in
      do* inode_touch_m dir in
      ret r
    else ret r.

Definition ramfs_symlink_impl (dir : Z) (name target : cstr) : V Z :=
  let* x := dir_at dir in
  match dentry_find (snd (fst x)) name with
  | Some _ => ret (- EEXIST)
  | None =>
    let* lp := alloc sizeof_link in
    if lp =? 0 then ret (- ENOSPC)
    else
      do* guard (fits_in target VFS_PATH_MAX) in
      let* ni := inode_alloc ramfs_ops MODE_LINK (PLink lp target) in
      if ni =? 0 then do* free lp in ret (- ENOSPC)
      else
        do* upd_inode ni (fun i => i <| i_size := zlen target |>) in
        let* r := dentry_add dir name ni in
        if r <? 0 then do* inode_unref ni in ret r
        else
          do* inode_touch_m dir in
          do* inode_unref ni in
          ret 0
  end.

(** The string left in a buffer of [sz] bytes and the length returned. *)
Definition ramfs_readlink_impl (p : Z) (sz : Z) : V (Z * cstr) :=
  let* i := inode_at p in
  if negb (S_ISLNK (i_mode i)) then ret (- EINVAL, [])
  else match i_priv i with
  | PLink _ target =>
    let n := if sz <=? zlen target then u64 (sz - 1) else zlen target in
    do* guard (n <=? zlen target) in
    ret (n, take (Z.to_nat n) target)
  | _ => fault
  end.

Definition dirent_of (e : dentry) (i : inode) : dirent :=
  mk_dirent (i_ino i)
    (if S_ISDIR (i_mode i) then DT_DIR else if S_ISLNK (i_mode i) then DT_LNK
     else if S_ISCHR (i_mode i) then DT_CHR else DT_REG)
    (d_name e) (u32 (i_ino i)) (u8 (i_mode i)).

Definition ramfs_readdir_impl (dir index : Z) : V (Z * option dirent) :=
  let* x := dir_at dir in
  match aget (snd (fst x)) index with
  | Some e => let* i := inode_at (d_inode e) in ret (0, Some (dirent_of e i))
  | None => ret (-1, None)
  end.

Definition ramfs_rename_impl (old_dir : Z) (old_name : cstr) (new_dir : Z) (new_name : cstr) : V Z :=
  let* x := dir_at old_dir in
  do* dir_at new_dir in
  match dentry_find (snd (fst x)) old_name with
  | None => ret (- ENOENT)
  | Some e =>
    let target := d_inode e in
    do* inode_ref target in
    do* dentry_remove old_dir old_name in
    let* y := dir_at new_dir in
    do* (match dentry_find (snd (fst y)) new_name with
         | Some _ => do* dentry_remove new_dir new_name in ret tt
         | None => ret tt
         end) in
    let* r := dentry_add new_dir new_name target in
    do* inode_unref target in
    do* inode_touch_m old_dir in
    do* inode_touch_m new_dir in
    ret r
  end.

(** ** File operations *)

(** [size] bytes of [src] from [off]: the loops that fill [buf]. *)
Definition slice (src : list byte) (off size : Z) : list byte := take (Z.to_nat size) (drop (Z.to_nat off) src).

Definition ramfs_read_impl (p off size : Z) : V (Z * list byte) :=
  let* i := inode_at p in
  if S_ISLNK (i_mode i) then
    match i_priv i with
    | PLink _ target =>
      let tlen := zlen target in
      if tlen <=? off then ret (0, [])
      else
        let n := if tlen - off <? size then tlen - off else size in
        ret (i64 n, slice target off n)
    | _ => fault
    end
  else match i_priv i with
  | PNull => ret (0, [])
  | PFile _ _ bytes fsize _ =>
    if fsize <=? off then ret (0, [])
    else
      let n := if fsize - off <? size then fsize - off else size in
      do* guard (off + n <=? zlen bytes) in
      do* inode_touch_a p in
      ret (i64 n, slice bytes off n)
  | _ => fault
  end.

(** [dst[off+i] = src[i]]: outside the buffer a [Fault]. *)
Definition blit (dst src : list byte) (off : Z) : option (list byte) :=
  match src with
  | [] => Some dst
  | _ => if (0 <=? off) && (off + zlen src <=? zlen dst)
         then Some (take (Z.to_nat off) dst ++ src ++ drop (Z.to_nat off + length src) dst) else None
  end.

Definition zeros (n : Z) : list byte := replicate (Z.to_nat n) nul.

(** The buffer of [cap] bytes that replaces the file's: a fresh one, zeroed, with
    the contents of the old one; [None] when there is no memory. *)
Definition grow (data : Z) (bytes : list byte) (fsize cap : Z) : V (option (Z * list byte)) :=
  let* nb := alloc (u32 cap) in
  if nb =? 0 then ret None
  else if data =? 0 then ret (Some (nb, zeros (u32 cap)))
  else
    do* guard (fsize <=? zlen bytes) in
    let* b := lift (match blit (zeros (u32 cap)) (take (Z.to_nat fsize) bytes) 0 with Some b => Done b | None => Fault end) in
    do* free data in
    ret (Some (nb, b)).

Definition ramfs_write_impl (p off : Z) (buf : list byte) : V Z :=
  let* i := inode_at p in
  match i_priv i with
  | PNull => ret (- EINVAL)
  | PFile a data bytes fsize cap =>
    let size := zlen buf in
    let need := u64 (off + size) in
    let* g := (if cap <? need then
                 let newcap := u64 (need + 512) in
                 let* o := grow data bytes fsize newcap in
                 ret (match o with Some (nb, b) => Some (nb, b, newcap) | None => None end)
               else ret (Some (data, bytes, cap))) in
    match g with
    | None => ret (- ENOSPC)
    | Some (data', bytes', cap') =>
      let* b := lift (match blit bytes' buf off with Some b => Done b | None => Fault end) in
      let fsize' := if fsize <? need then need else fsize in
      do* upd_inode p (fun i => i <| i_priv := PFile a data' b fsize' cap' |> <| i_size := fsize' |>) in
      do* inode_touch_m p in
      ret (i64 size)
    end
  | _ => fault
  end.

Definition ramfs_truncate_impl (p size : Z) : V Z :=
  let* i := inode_at p in
  match i_priv i with
  | PNull => ret (- EINVAL)
  | PFile a data bytes fsize cap =>
    let* g := (if size <? fsize then ret (Some (data, bytes, cap))
               else if cap <? size then
                 let* o := grow data bytes fsize size in
                 ret (match o with Some (nb, b) => Some (nb, b, size) | None => None end)
               else
                 let* b := lift (match blit bytes (zeros (size - fsize)) fsize with Some b => Done b | None => Fault end) in
                 ret (Some (data, b, cap))) in
    match g with
    | None => ret (- ENOSPC)
    | Some (data', bytes', cap') =>
      do* upd_inode p (fun i => i <| i_priv := PFile a data' bytes' size cap' |> <| i_size := size |>) in
      do* inode_touch_m p in
      ret 0
    end
  | _ => fault
  end.

Definition stat_of (i : inode) : stat :=
  mk_stat (i_ino i) (i_mode i) (i_nlink i) (i_uid i) (i_gid i) (i_size i) 512 (u64 (i_size i + 511) / 512)
    (i_atime i) (i_mtime i) (i_ctime i) (u32 (i_ino i)) (u32 (i_size i))
    (if S_ISREG (i_mode i) then S_IFREG else if S_ISDIR (i_mode i) then S_IFDIR
     else if S_ISLNK (i_mode i) then S_IFLNK else if S_ISCHR (i_mode i) then S_IFCHR else S_IFREG)
    (Z.land (Z.shiftr (i_mode i) 6) 7) (i_uid i) (i_gid i).

Definition ramfs_stat_impl (p : Z) : V (Z * stat) := let* i := inode_at p in ret (0, stat_of i).

(** [(mode & S_IFMT) | (new & ~S_IFMT)] *)
Definition chmod_mode (old new : Z) : Z := Z.lor (Z.land old S_IFMT) (andn new S_IFMT).

Definition ramfs_chmod_impl (p mode : Z) : V Z :=
  let* t := now in
  do* upd_inode p (fun i => i <| i_mode := chmod_mode (i_mode i) mode |> <| i_ctime := t |>) in
  ret 0.

Definition ramfs_chown_impl (p uid gid : Z) : V Z :=
  let* t := now in
  do* upd_inode p (fun i => i <| i_uid := uid |> <| i_gid := gid |> <| i_ctime := t |>) in
  ret 0.

Definition ramfs_create_root : V Z :=
  let* d := alloc sizeof_dir in
  if d =? 0 then ret 0
  else
    let* root := inode_alloc ramfs_dir_ops MODE_DIR (PDir d [] 0) in
    if root =? 0 then do* free d in ret 0
    else
      do* upd_inode root (fun i => i <| i_nlink := 2 |>) in
      do* dentry_add root (cs ".") root in
      do* dentry_add root (cs "..") root in
      ret root.
End Ramfs.
