(* ===== verification/VfsSynth.v ===== *)
(** * The virtual filesystem: operation tables, devfs, procfs, sysfs (src/src/vfs.c)

    The reads of the synthetic files of /dev and /proc, the operation tables of
    the drivers - a missing entry is a NULL pointer of the C table - and the
    constructors of the three synthetic trees. *)

From S2P Require Import Prelude Cstring Alloc Vfs.

Definition nl : cstr := [x0a].
Definition tab : cstr := [x09].
Definition quote : cstr := [x22].
(** A C literal of several lines: each ends in a newline. *)
Definition lines (l : list cstr) : cstr := concat (map (fun s => s ++ nl) l).

Section Synth.
Context {H : Type} `{!Allocator H}.
Abbreviation V := (M (vfs H)).

(** ** /dev *)

Definition devzero_read (p off size : Z) : V (Z * list byte) := ret (i64 size, zeros (u32 size)).
Definition devnull_read (p off size : Z) : V (Z * list byte) := ret (0, []).
Definition devnull_write (p off : Z) (buf : list byte) : V Z := ret (i64 (zlen buf)).

Definition rng_next (r : Z) : Z := u32 (r * 1664525 + 1013904223).
Fixpoint rng_bytes (n : nat) (r : Z) : list byte * Z :=
  match n with
  | O => ([], r)
  | S n' => let r' := rng_next r in let '(l, r'') := rng_bytes n' r' in (zb (Z.shiftr r' 16) :: l, r'')
  end.
Definition devrandom_read (p off size : Z) : V (Z * list byte) :=
  let* r := gets v_rng in
  let '(l, r') := rng_bytes (Z.to_nat size) r in
  do* modify (fun v => v <| v_rng := r' |>) in
  ret (i64 size, l).

(** ** /proc *)

(** The tail common to the reads: [n] bytes of the text from [off], at most [size]. *)
Definition text_read (s : cstr) (off size : Z) : Z * list byte :=
  if zlen s <=? off then (0, [])
  else let n := if size <? zlen s - off then size else zlen s - off in (i64 n, slice s off n).

Definition version_text : cstr := cs "atmkoala 0.5.0 x86-64 (gcc 13.3) #1 SMP" ++ nl.
Definition proc_version_read (p off size : Z) : V (Z * list byte) := ret (text_read version_text off size).

Definition proc_cmdline_read (p off size : Z) : V (Z * list byte) := ret (text_read (cs "atmkoala quiet" ++ nl) off size).

Definition proc_uptime_read (p off size : Z) : V (Z * list byte) :=
  let* ticks := gets v_ticks in
  let secs := u32 (ticks / 100) in
  let* tmp := lift (ksnprintf 32 (cs "%u.00 %u.00" ++ nl) [VInt secs; VInt secs]) in
  ret (text_read tmp off size).

Definition meminfo_format : cstr := lines
  [cs "MemTotal:     %6u kB"; cs "MemFree:      %6u kB"; cs "MemAvailable: %6u kB";
   cs "Cached:            0 kB"; cs "SwapTotal:         0 kB"; cs "SwapFree:          0 kB"].

Definition proc_meminfo_read (p off size : Z) : V (Z * list byte) :=
  let heap_get m := zoom v_heap (fun h v => v <| v_heap := h |>) m in
  let total := 256 * 1024 in
  let* fb := heap_get heap_free_bytes in
  let* ub := heap_get heap_used_bytes in
  let* tmp := lift (ksnprintf 256 meminfo_format [VInt total; VInt (fb / 1024); VInt (u32 (total - ub / 1024))]) in
  ret (text_read tmp off size).

Definition cpuinfo_text : cstr := lines
  [cs "processor" ++ tab ++ cs ": 0"; cs "vendor_id" ++ tab ++ cs ": atmkoala"; cs "cpu family" ++ tab ++ cs ": 6";
   cs "model name" ++ tab ++ cs ": atmkoala Virtual CPU x86-64"; cs "cpu MHz" ++ tab ++ tab ++ cs ": 100.000";
   cs "cache size" ++ tab ++ cs ": 256 KB"; cs "flags" ++ tab ++ tab ++ cs ": fpu pae lm pse nx"].
Definition proc_cpuinfo_read (p off size : Z) : V (Z * list byte) := ret (text_read cpuinfo_text off size).

Definition mounts_text : cstr := lines
  [cs "ramfs  /       ramfs  rw,nosuid,nodev   0 0"; cs "proc   /proc   proc   ro,nosuid,nodev   0 0";
   cs "devfs  /dev    devfs  rw,nosuid         0 0"; cs "sysfs  /sys    sysfs  ro,nosuid,nodev   0 0";
   cs "tmpfs  /tmp    tmpfs  rw,nosuid,nodev   0 0"].
Definition proc_mounts_read (p off size : Z) : V (Z * list byte) := ret (text_read mounts_text off size).

(** ** The tables *)

Definition op_lookup (o : fsops) : option (Z -> cstr -> V (Z * Z)) :=
  match o with ramfs_dir_ops => Some ramfs_lookup | _ => None end.
Definition op_create (o : fsops) : option (Z -> cstr -> Z -> bool -> V (Z * Z)) :=
  match o with ramfs_dir_ops => Some ramfs_create_impl | _ => None end.
Definition op_mkdir (o : fsops) : option (Z -> cstr -> Z -> bool -> V (Z * Z)) :=
  match o with ramfs_dir_ops => Some ramfs_mkdir_impl | _ => None end.
Definition op_unlink (o : fsops) : option (Z -> cstr -> V Z) :=
  match o with ramfs_dir_ops => Some ramfs_unlink_impl | _ => None end.
Definition op_rmdir (o : fsops) : option (Z -> cstr -> V Z) :=
  match o with ramfs_dir_ops => Some ramfs_rmdir_impl | _ => None end.
Definition op_rename (o : fsops) : option (Z -> cstr -> Z -> cstr -> V Z) :=
  match o with ramfs_dir_ops => Some ramfs_rename_impl | _ => None end.
Definition op_link (o : fsops) : option (Z -> cstr -> Z -> V Z) :=
  match o with ramfs_dir_ops => Some ramfs_link_impl | _ => None end.
Definition op_symlink (o : fsops) : option (Z -> cstr -> cstr -> V Z) :=
  match o with ramfs_dir_ops => Some ramfs_symlink_impl | _ => None end.
Definition op_readlink (o : fsops) : option (Z -> Z -> V (Z * cstr)) :=
  match o with ramfs_ops | ramfs_dir_ops => Some ramfs_readlink_impl | _ => None end.
Definition op_readdir (o : fsops) : option (Z -> Z -> V (Z * option dirent)) :=
  match o with ramfs_dir_ops => Some ramfs_readdir_impl | _ => None end.
Definition op_read (o : fsops) : option (Z -> Z -> Z -> V (Z * list byte)) :=
  match o with
  | ramfs_ops => Some ramfs_read_impl
  | ramfs_dir_ops => None
  | dev_null_ops => Some devnull_read
  | dev_zero_ops => Some devzero_read
  | dev_random_ops => Some devrandom_read
  | proc_synth_ops_ver => Some proc_version_read
  | proc_synth_ops_cmd => Some proc_cmdline_read
  | proc_synth_ops_upt => Some proc_uptime_read
  | proc_synth_ops_mem => Some proc_meminfo_read
  | proc_synth_ops_cpu => Some proc_cpuinfo_read
  | proc_synth_ops_mnt => Some proc_mounts_read
  end.
Definition op_write (o : fsops) : option (Z -> Z -> list byte -> V Z) :=
  match o with
  | ramfs_ops => Some ramfs_write_impl
  | dev_null_ops | dev_zero_ops => Some devnull_write
  | _ => None
  end.
Definition op_truncate (o : fsops) : option (Z -> Z -> V Z) :=
  match o with ramfs_ops => Some ramfs_truncate_impl | _ => None end.
(** Every table has [stat]. *)
Definition op_stat (o : fsops) : option (Z -> V (Z * stat)) := Some ramfs_stat_impl.
Definition op_chmod (o : fsops) : option (Z -> Z -> V Z) :=
  match o with ramfs_ops | ramfs_dir_ops => Some ramfs_chmod_impl | _ => None end.
Definition op_chown (o : fsops) : option (Z -> Z -> Z -> V Z) :=
  match o with ramfs_ops | ramfs_dir_ops => Some ramfs_chown_impl | _ => None end.

(** [p->ops && p->ops->f] *)
Definition op_of {A} (f : fsops -> option A) (p : Z) : V (option A) :=
  let* i := inode_at p in ret (o ← i_ops i; f o).
(** [p->ops->f], called without a test. *)
Definition op_must {A} (f : fsops -> option A) (p : Z) : V A :=
  let* o := op_of f p in match o with Some g => ret g | None => fault end.

(** ** Helpers of the constructors *)

Definition ramfs_mkdir_child (parent : Z) (name : cstr) (mode : Z) : V Z :=
  let* f := op_must op_mkdir parent in
  let* r := f parent name mode true in
  ret (snd r).

Definition ramfs_mkfile (parent : Z) (name content : cstr) : V unit :=
  let* create := op_must op_create parent in
  let* r := create parent name MODE_FILE true in
  let* f := (if fst r =? 0 then ret (snd r)
             else
               let* lookup := op_must op_lookup parent in
               let* r' := lookup parent name in ret (snd r')) in
  if f =? 0 then ret tt
  else
    let* write := op_must op_write f in
    do* write f 0 content in
    inode_unref f.

(** ** The trees *)

(** 0666, 0444, 0620, 0644, 0222 *)
Definition dev_entries : list (cstr * fsops * Z) :=
  [(cs "null", dev_null_ops, Z.lor S_IFCHR 0x1B6); (cs "zero", dev_zero_ops, Z.lor S_IFCHR 0x1B6);
   (cs "random", dev_random_ops, Z.lor S_IFCHR 0x124); (cs "urandom", dev_random_ops, Z.lor S_IFCHR 0x124);
   (cs "tty", dev_null_ops, Z.lor S_IFCHR 0x190); (cs "tty0", dev_null_ops, Z.lor S_IFCHR 0x190);
   (cs "kmsg", dev_null_ops, Z.lor S_IFCHR 0x1A4); (cs "stdin", dev_null_ops, Z.lor S_IFCHR 0x124);
   (cs "stdout", dev_null_ops, Z.lor S_IFCHR 0x92); (cs "stderr", dev_null_ops, Z.lor S_IFCHR 0x92)].

Definition mknod (root : Z) (name : cstr) (ops : fsops) (mode : Z) : V unit :=
  let* di := inode_alloc ops mode PNull in
  if di =? 0 then ret tt
  else do* ramfs_link_impl root name di in inode_unref di.

Definition devfs_create : V Z :=
  let* root := ramfs_create_root in
  if root =? 0 then ret 0
  else
    do* for_each (fun e => mknod root (fst (fst e)) (snd (fst e)) (snd e)) dev_entries in
    do* ramfs_symlink_impl root (cs "fd") (cs "/proc/self/fd") in
    do* mknod root (cs "hda") dev_null_ops (Z.lor S_IFBLK 0x1B0) in
    do* mknod root (cs "sda") dev_null_ops (Z.lor S_IFBLK 0x1B0) in
    ret root.

Definition proc_files : list (cstr * fsops) :=
  [(cs "version", proc_synth_ops_ver); (cs "cmdline", proc_synth_ops_cmd); (cs "uptime", proc_synth_ops_upt);
   (cs "meminfo", proc_synth_ops_mem); (cs "cpuinfo", proc_synth_ops_cpu); (cs "mounts", proc_synth_ops_mnt);
   (cs "mtab", proc_synth_ops_mnt)].

Definition status_text : cstr := lines
  [cs "Name:" ++ tab ++ cs "kernel"; cs "State:" ++ tab ++ cs "R (running)"; cs "Pid:" ++ tab ++ cs "1";
   cs "PPid:" ++ tab ++ cs "0"; cs "Uid:" ++ tab ++ cs "0 0 0 0"; cs "Gid:" ++ tab ++ cs "0 0 0 0"].

Definition procfs_create : V Z :=
  let* root := ramfs_create_root in
  if root =? 0 then ret 0
  else
    do* for_each (fun e => mknod root (fst e) (snd e) (Z.lor S_IFREG 0x124)) proc_files in
    do* ramfs_symlink_impl root (cs "self") (cs "/proc/1") in
    let* r := ramfs_mkdir_impl root (cs "1") MODE_DIR true in
    let p1 := snd r in
    do* (if p1 =? 0 then ret tt
         else
           do* ramfs_mkfile p1 (cs "cmdline") (cs "kernel") in
           do* ramfs_mkfile p1 (cs "status") status_text in
           let* r := ramfs_mkdir_impl p1 (cs "fd") MODE_DIR true in
           let fd_dir := snd r in
           do* (if fd_dir =? 0 then ret tt
                else
                  do* ramfs_symlink_impl fd_dir (cs "0") (cs "/dev/stdin") in
                  do* ramfs_symlink_impl fd_dir (cs "1") (cs "/dev/stdout") in
                  do* ramfs_symlink_impl fd_dir (cs "2") (cs "/dev/stderr") in
                  inode_unref fd_dir) in
           inode_unref p1) in
    ret root.

(** [if (d) { ...; inode_unref(d); }] *)
Definition with_dir (d : Z) (body : V unit) : V unit :=
  if d =? 0 then ret tt else do* body in inode_unref d.

Definition mkfiles (d : Z) (l : list (cstr * cstr)) : V unit := for_each (fun f => ramfs_mkfile d (fst f) (snd f)) l.

Definition sysfs_create : V Z :=
  let* root := ramfs_create_root in
  if root =? 0 then ret 0
  else
    let* kd := ramfs_mkdir_child root (cs "kernel") MODE_DIR in
    do* with_dir kd (mkfiles kd
      [(cs "hostname", cs "atmkoala" ++ nl); (cs "osrelease", cs "1.0.0" ++ nl);
       (cs "version", cs "#1 SMP x86-64" ++ nl); (cs "arch", cs "x86_64" ++ nl); (cs "pid_max", cs "32768" ++ nl)]) in
    let* nd := ramfs_mkdir_child root (cs "net") MODE_DIR in
    do* with_dir nd (
      let* lo := ramfs_mkdir_child nd (cs "lo") MODE_DIR in
      do* with_dir lo (mkfiles lo
        [(cs "address", cs "00:00:00:00:00:00" ++ nl); (cs "operstate", cs "up" ++ nl); (cs "mtu", cs "65536" ++ nl)]) in
      let* eth0 := ramfs_mkdir_child nd (cs "eth0") MODE_DIR in
      with_dir eth0 (mkfiles eth0
        [(cs "operstate", cs "down" ++ nl); (cs "mtu", cs "1500" ++ nl); (cs "type", cs "1" ++ nl)])) in
    let* bd := ramfs_mkdir_child root (cs "block") MODE_DIR in
    do* with_dir bd (
      let* sda := ramfs_mkdir_child bd (cs "sda") MODE_DIR in
      with_dir sda (mkfiles sda [(cs "size", cs "0" ++ nl); (cs "removable", cs "0" ++ nl)])) in
    ret root.
End Synth.
