(* ===== verification/VfsPath.v ===== *)
(** * The virtual filesystem: mounts and path resolution (src/src/vfs.c)

    [resolve_path] keeps the path it walks in a buffer of 1024 bytes and points into
    it, so the buffer is represented byte by byte: what following a symbolic link
    does to the part of the path that is still to be walked depends on it.  Bytes
    that were never written are never read before the walk fails; they are NUL
    here.  A walk of one path is bounded by the buffer and a resolution by the
    number of links it follows, which is the fuel given. *)

From S2P Require Import Prelude Cstring Alloc Vfs VfsSynth.

(** Copying a string that lies outside the buffer to offset [p] of it. *)
Definition poke (m : mem) (p : Z) (s : cstr) : outcome mem :=
  match blit m (s ++ [nul]) p with Some m' => Done m' | None => Fault end.

(** [kstrcat] with such a string. *)
Definition poke_cat (m : mem) (s : cstr) : outcome mem := let! n := kstrlen m 0 in poke m n s.

(** The string at [p]. *)
Fixpoint str_loop (fuel : nat) (m : mem) (p : Z) : outcome cstr :=
  match fuel with
  | O => Fault
  | S fuel' => let! c := rd m p in if is_nul c then Done [] else let! s := str_loop fuel' m (p + 1) in Done (c :: s)
  end.
Definition str_of (m : mem) (p : Z) : outcome cstr := str_loop (S (length m)) m p.

(** The index of the last '/', 0 when there is none. *)
Fixpoint last_slash_from (s : cstr) (i last : Z) : Z :=
  match s with [] => last | c :: s' => last_slash_from s' (i + 1) (if bool_decide (c = slash) then i else last) end.
Definition last_slash (s : cstr) : Z := last_slash_from s 0 0.

Section Path.
Context {H : Type} `{!Allocator H}.
Abbreviation V := (M (vfs H)).

(** ** The mount table *)

(** The entries below [g_nmounts]. *)
Definition mounts (v : vfs H) : list mount_entry := take (Z.to_nat (v_nmounts v)) (v_mounts v).

Definition mount_is (path : cstr) (m : mount_entry) : bool := m_used m && bool_decide (m_path m = path).

Definition vfs_mount (path : option cstr) (root : Z) : V Z :=
  match path with
  | Some ((c :: r) as p) =>
    if negb (bool_decide (c = slash)) || (root =? 0) then ret (- EINVAL)
    else
      let* dup := gets (fun v => existsb (mount_is p) (mounts v)) in
      if dup then ret (- EEXIST)
      else
        let* n := gets v_nmounts in
        if MOUNT_MAX <=? n then ret (- ENOSPC)
        else
          do* guard (fits_in p VFS_PATH_MAX) in
          do* modify (fun v => v <| v_mounts := aset (v_mounts v) n (mk_mount p root true) |>
                                 <| v_nmounts := n + 1 |>) in
          ret 0
  | _ => ret (- EINVAL)
  end.

Definition vfs_unmount (path : option cstr) : V Z :=
  match path with
  | None => ret (- EINVAL)
  | Some p =>
    let* ms := gets mounts in
    match list_find (fun m => mount_is p m) ms with
    | None => ret (- ENOENT)
    | Some (i, _) =>
      do* modify (fun v =>
        v <| v_mounts := take i (v_mounts v) ++ drop (S i) (mounts v) ++ [mk_mount [] 0 false]
                         ++ drop (Z.to_nat (v_nmounts v)) (v_mounts v) |>
          <| v_nmounts := v_nmounts v - 1 |>) in
      ret 0
    end
  end.

(** [path] starts with [mp], and the prefix ends at a '/' or with the path. *)
Fixpoint under_mount (mp path : cstr) : bool :=
  match mp, path with
  | [], [] => true
  | [], c :: _ => bool_decide (c = slash)
  | a :: mp', b :: path' => bool_decide (a = b) && under_mount mp' path'
  | _ :: _, [] => false
  end.

Definition best_mount (path : cstr) (best : Z * Z) (m : mount_entry) : Z * Z :=
  if m_used m && under_mount (m_path m) path && (fst best <? zlen (m_path m))
  then (zlen (m_path m), m_root m) else best.

Definition mount_for_path (v : vfs H) (path : cstr) : Z := snd (fold_left (best_mount path) (mounts v) (0, 0)).

(** The length skipped: the longest path of an entry with that root. *)
Definition mount_len (v : vfs H) (mroot : Z) : Z :=
  fold_left (fun best m => if m_used m && (mroot =? m_root m) && (best <? zlen (m_path m)) then zlen (m_path m) else best)
    (mounts v) 0.

(** ** Resolution *)

(** At most [VFS_NAME_MAX] bytes up to a '/' or the end. *)
Fixpoint component (n : nat) (m : mem) (p : Z) : outcome (cstr * Z) :=
  match n with
  | O => Done ([], p)
  | S n' =>
    let! c := rd m p in
    if is_nul c || bool_decide (c = slash) then Done ([], p)
    else let! r := component n' m (p + 1) in Done (c :: fst r, snd r)
  end.

(** The buffer after a link with target [l] was found; [rel] points at what remains. *)
Definition follow_link (buf : mem) (l : cstr) (rel : Z) : outcome mem :=
  if match l with c :: _ => bool_decide (c = slash) | [] => false end then
    let! b1 := poke buf 0 l in
    let! c := rd b1 rel in
    if is_nul c then Done b1
    else let! b2 := poke_cat b1 (cs "/") in kstrcat b2 0 rel
  else
    let! s := str_of buf 0 in
    let! n1 := poke (zeros VFS_PATH_MAX) 0 s in
    let! n2 := wr n1 (last_slash s + 1) nul in
    let! n3 := poke_cat n2 l in
    let! c := rd buf rel in
    let! n4 := (if is_nul c then Done n3
                else let! n' := poke_cat n3 (cs "/") in let! r := str_of buf rel in poke_cat n' r) in
    let! s' := str_of n4 0 in
    poke buf 0 s'.

Inductive walked := WDone (p : Z) | WRestart (buf : mem).

Definition fail_with (e : Z) : V walked := do* set_errno e in ret (WDone 0).

(** The loop over the components. *)
Fixpoint walk (fuel : nat) (nofollow : bool) (buf : mem) (cur rel : Z) : V walked :=
  match fuel with
  | O => fault
  | S fuel' =>
    let* c := lift (rd buf rel) in
    if is_nul c then ret (WDone cur)
    else
      let* '(comp, p) := lift (component (Z.to_nat VFS_NAME_MAX) buf rel) in
      let* c1 := lift (rd buf p) in
      let rel' := if bool_decide (c1 = slash) then p + 1 else p in
      if bool_decide (comp = []) || bool_decide (comp = cs ".") then walk fuel' nofollow buf cur rel'
      else
        let* c2 := lift (rd buf rel') in
        let is_last := is_nul c2 in
        let* lookup := op_of op_lookup cur in
        match lookup with
        | None => fail_with ENOTDIR
        | Some f =>
          let* '(r, next) := f cur comp in
          if negb (r =? 0) then fail_with ENOENT
          else
            let* ni := inode_at next in
            if S_ISLNK (i_mode ni) && negb (is_last && nofollow) then
              let* readlink := op_of op_readlink next in
              match readlink with
              | None => do* inode_unref next in fail_with EINVAL
              | Some g =>
                let* '(_, l) := g next VFS_PATH_MAX in
                do* inode_unref next in
                let* buf' := lift (follow_link buf l rel') in
                ret (WRestart buf')
              end
            else if negb (i_mountpoint ni =? 0) then
              do* inode_unref next in walk fuel' nofollow buf (i_mountpoint ni) rel'
            else walk fuel' nofollow buf next rel'
        end
  end.

(** From the label [restart]; [fuel] is the number of links still allowed. *)
Fixpoint resolve_from (fuel : nat) (nofollow : bool) (buf : mem) : V Z :=
  match fuel with
  | O => do* set_errno ELOOP in ret 0
  | S fuel' =>
    let* path := lift (str_of buf 0) in
    let* mroot := gets (fun v => mount_for_path v path) in
    let* '(cur, rel) := (if mroot =? 0 then let* r := gets v_root in ret (r, 1)
                         else
                           let* n := gets (fun v => mount_len v mroot) in
                           let* c := lift (rd buf n) in
                           ret (mroot, if bool_decide (c = slash) then n + 1 else n)) in
    let* w := walk (S (length buf)) nofollow buf cur rel in
    match w with
    | WDone p => ret p
    | WRestart buf' => resolve_from fuel' nofollow buf'
    end
  end.

(** [hops] runs from 0 to [VFS_SYMLINK_MAX] before the walk is given up. *)
Definition resolve_path (path : option cstr) (nofollow : bool) : V Z :=
  match path with
  | Some (c :: r) =>
    if negb (bool_decide (c = slash)) then ret 0
    else if bool_decide (r = []) then gets v_root
    else
      let* buf := lift (poke (zeros VFS_PATH_MAX) 0 (c :: r)) in
      resolve_from (S (Z.to_nat VFS_SYMLINK_MAX)) nofollow buf
  | _ => ret 0
  end.

Definition vfs_lookup (path : option cstr) : V Z := resolve_path path false.
Definition vfs_lookup_nofollow (path : option cstr) : V Z := resolve_path path true.

(** [path_split]: into buffers of 1024 and 256 bytes. *)
Definition path_split (path : cstr) : V (cstr * cstr) :=
  let last := last_slash path in
  let d := if last =? 0 then cs "/" else take (Z.to_nat last) path in
  let base := drop (Z.to_nat (last + 1)) path in
  do* guard (negb (bool_decide (path = [])) && fits_in d VFS_PATH_MAX && fits_in base (VFS_NAME_MAX + 1)) in
  ret (d, base).
End Path.
