(* ===== verification/VfsApi.v ===== *)
(** * The virtual filesystem: descriptors and the POSIX interface (src/src/vfs.c) *)

From S2P Require Import Prelude Cstring Kmalloc Alloc HeapAlloc Vfs VfsSynth VfsPath.

Section Api.
Context {H : Type} `{!Allocator H}.
Abbreviation V := (M (vfs H)).

(** A pointer argument that the code uses without a test. *)
Definition str (path : option cstr) : V cstr := deref (fun _ => path).

Definition fd_ok (v : vfs H) (fd : Z) : bool :=
  match aget (v_fds v) fd with Some f => (fd <? FD_MAX) && f_used f | None => false end.
Definition fd_at (fd : Z) : V vfs_fd := deref (fun v => aget (v_fds v) fd).
Definition put_fd (fd : Z) (f : vfs_fd) : V unit := modify (fun v => v <| v_fds := aset (v_fds v) fd f |>).
Definition upd_fd (fd : Z) (g : vfs_fd -> vfs_fd) : V unit := let* f := fd_at fd in put_fd fd (g f).

Definition fail {A} (e : Z) (a : A) : V A := do* set_errno e in ret a.

Definition vfs_root : V Z := gets v_root.

Definition vfs_fsops_busy (ops : option fsops) : V bool :=
  match ops with
  | None => ret false
  | Some o =>
    gets (fun v => existsb (fun f => f_used f && negb (f_inode f =? 0) &&
      match v_inodes v !! f_inode f with Some i => bool_decide (i_ops i = Some o) | None => false end) (v_fds v))
  end.

Definition fd_free (v : vfs H) (i : Z) : bool :=
  match aget (v_fds v) i with Some f => negb (f_used f) | None => false end.
Definition fd_alloc : V Z :=
  let* o := gets (fun v => first_idx (fd_free v) 3 FD_MAX) in
  match o with
  | Some i => ret i
  | None => fail EMFILE (-1)
  end.

Definition has (flags bit : Z) : bool := truth (Z.land flags bit).

(** The inode [vfs_open] opens: 0 when it fails. *)
Definition open_inode (path : option cstr) (flags mode : Z) : V Z :=
  let* ino := resolve_path path (has flags O_NOFOLLOW) in
  if ino =? 0 then
    if negb (has flags O_CREAT) then fail ENOENT 0
    else
      let* p := str path in
      let* '(dir, base) := path_split p in
      let* parent := resolve_path (Some dir) false in
      let* create := (if parent =? 0 then ret None else op_of op_create parent) in
      match create with
      | None => do* (if parent =? 0 then ret tt else inode_unref parent) in fail ENOENT 0
      | Some f =>
        let* perm := vfs_require parent (Z.lor PERM_W PERM_X) in
        if perm <? 0 then do* inode_unref parent in ret 0
        else
          let* '(r, ni) := f parent base (Z.lor (andn mode S_IFMT) S_IFREG) true in
          do* inode_unref parent in
          if negb (r =? 0) then fail (- r) 0
          else
            let* uid := gets v_uid in
            let* gid := gets v_gid in
            do* upd_inode ni (fun i => i <| i_uid := uid |> <| i_gid := gid |>) in
            ret ni
      end
  else
    let* i := inode_at ino in
    let acc := Z.land flags O_ACCMODE in
    let wanted := Z.lor (if acc =? O_WRONLY then 0 else PERM_R) (if acc =? O_RDONLY then 0 else PERM_W) in
    if has flags O_CREAT && has flags O_EXCL then do* inode_unref ino in fail EEXIST 0
    else if S_ISDIR (i_mode i) && has flags (Z.lor O_WRONLY O_RDWR) then do* inode_unref ino in fail EISDIR 0
    else
      let* perm := (if truth wanted then vfs_require ino wanted else ret 0) in
      if perm <? 0 then do* inode_unref ino in ret 0 else ret ino.

Definition vfs_open (path : option cstr) (flags mode0 : Z) : V Z :=
  let mode := if mode0 =? 0 then 0x1A4 else mode0 in
  let* ino := open_inode path flags mode in
  if ino =? 0 then ret (-1)
  else
    let* fd := fd_alloc in
    if fd <? 0 then do* inode_unref ino in ret (-1)
    else
      let* p := str path in
      do* guard (fits_in p VFS_PATH_MAX) in
      do* upd_fd fd (fun f => mk_fd ino (f_offset f) flags true (if has flags O_CLOEXEC then 1 else 0) p) in
      do* (if has flags O_TRUNC then
             let* t := op_of op_truncate ino in
             match t with Some g => do* g ino 0 in ret tt | None => ret tt end
           else ret tt) in
      let* i := inode_at ino in
      do* upd_fd fd (fun f => f <| f_offset := if has flags O_APPEND then i_size i else 0 |>) in
      ret fd.

Definition vfs_close (fd : Z) : V unit :=
  let* ok := gets (fun v => fd_ok v fd) in
  if negb ok then ret tt
  else
    let* f := fd_at fd in
    do* inode_unref (f_inode f) in
    put_fd fd fd_zero.

Definition vfs_read (fd size : Z) : V (Z * list byte) :=
  let* ok := gets (fun v => fd_ok v fd) in
  if negb ok then fail EINVAL (-1, [])
  else
    let* f := fd_at fd in
    if Z.land (f_flags f) O_ACCMODE =? O_WRONLY then fail EINVAL (-1, [])
    else
      let* perm := vfs_require (f_inode f) PERM_R in
      if perm <? 0 then ret (-1, [])
      else
        let* r := op_of op_read (f_inode f) in
        match r with
        | None => fail EINVAL (-1, [])
        | Some g =>
          let* '(n, bs) := g (f_inode f) (f_offset f) size in
          do* (if 0 <? n then upd_fd fd (fun f => f <| f_offset := u64 (f_offset f + n) |>) else ret tt) in
          ret (n, bs)
        end.

Definition vfs_write (fd : Z) (buf : list byte) : V Z :=
  let* ok := gets (fun v => fd_ok v fd) in
  if negb ok then fail EINVAL (-1)
  else
    let* f := fd_at fd in
    if Z.land (f_flags f) O_ACCMODE =? O_RDONLY then fail EINVAL (-1)
    else
      let* perm := vfs_require (f_inode f) PERM_W in
      if perm <? 0 then ret (-1)
      else
        let* w := op_of op_write (f_inode f) in
        match w with
        | None => fail EINVAL (-1)
        | Some g =>
          let* i := inode_at (f_inode f) in
          do* (if has (f_flags f) O_APPEND then upd_fd fd (fun f => f <| f_offset := i_size i |>) else ret tt) in
          let* f' := fd_at fd in
          let* n := g (f_inode f') (f_offset f') buf in
          do* (if 0 <? n then upd_fd fd (fun f => f <| f_offset := u64 (f_offset f + n) |>) else ret tt) in
          ret n
        end.

Definition SEEK_SET : Z := 0.
Definition SEEK_CUR : Z := 1.
Definition SEEK_END : Z := 2.

Definition vfs_lseek (fd offset whence : Z) : V Z :=
  let* ok := gets (fun v => fd_ok v fd) in
  if negb ok then fail EINVAL (-1)
  else
    let* f := fd_at fd in
    let* base := (if whence =? SEEK_SET then ret (Some 0)
                  else if whence =? SEEK_CUR then ret (Some (i64 (f_offset f)))
                  else if whence =? SEEK_END then let* i := inode_at (f_inode f) in ret (Some (i64 (i_size i)))
                  else ret None) in
    match base with
    | None => fail EINVAL (-1)
    | Some b =>
      let newoff := i64 (b + offset) in
      if newoff <? 0 then fail EINVAL (-1)
      else do* upd_fd fd (fun f => f <| f_offset := newoff |>) in ret newoff
    end.

Definition vfs_dup (fd : Z) : V Z :=
  let* ok := gets (fun v => fd_ok v fd) in
  if negb ok then fail EINVAL (-1)
  else
    let* newfd := fd_alloc in
    if newfd <? 0 then ret (-1)
    else
      let* f := fd_at fd in
      do* put_fd newfd f in
      do* inode_ref (f_inode f) in
      ret newfd.

Definition vfs_dup2 (fd newfd : Z) : V Z :=
  let* ok := gets (fun v => fd_ok v fd) in
  if negb ok then fail EINVAL (-1)
  else if (newfd <? 0) || (FD_MAX <=? newfd) then fail EINVAL (-1)
  else if newfd =? fd then ret fd
  else
    let* used := gets (fun v => fd_ok v newfd) in
    do* (if used then vfs_close newfd else ret tt) in
    let* f := fd_at fd in
    do* put_fd newfd f in
    do* inode_ref (f_inode f) in
    ret newfd.

(** [r = -1; if (i->ops && i->ops->stat) r = i->ops->stat(i, st);] *)
Definition do_stat (p : Z) : V (Z * option stat) :=
  let* o := op_of op_stat p in
  match o with
  | Some g => let* '(r, st) := g p in ret (r, Some st)
  | None => ret (-1, None)
  end.

Definition stat_path (path : option cstr) (nofollow : bool) : V (Z * option stat) :=
  let* i := resolve_path path nofollow in
  if i =? 0 then fail ENOENT (-1, None)
  else
    let* r := do_stat i in
    do* inode_unref i in
    ret r.
Definition vfs_stat (path : option cstr) : V (Z * option stat) := stat_path path false.
Definition vfs_lstat (path : option cstr) : V (Z * option stat) := stat_path path true.

Definition vfs_fstat (fd : Z) : V (Z * option stat) :=
  let* ok := gets (fun v => fd_ok v fd) in
  if negb ok then fail EINVAL (-1, None)
  else let* f := fd_at fd in do_stat (f_inode f).

(** [out] non-NULL with [size] bytes: what is copied to it. *)
Definition vfs_fd_path (fd size : Z) : V (Z * option cstr) :=
  let* ok := gets (fun v => fd_ok v fd) in
  if negb ok || (size =? 0) then fail EINVAL (-1, None)
  else
    let* f := fd_at fd in
    if size <? zlen (f_path f) + 1 then fail EINVAL (-1, None) else ret (0, Some (f_path f)).

Definition op_or {A} (f : fsops -> option A) (p : Z) (dflt : Z) (k : A -> V Z) : V Z :=
  let* o := op_of f p in match o with Some g => k g | None => ret dflt end.

Definition vfs_fchmod (fd mode : Z) : V Z :=
  let* ok := gets (fun v => fd_ok v fd) in
  if negb ok then fail EINVAL (-1)
  else
    let* f := fd_at fd in
    let* i := inode_at (f_inode f) in
    let* uid := gets v_uid in
    if negb (uid =? 0) && negb (uid =? i_uid i) then fail EACCES (-1)
    else op_or op_chmod (f_inode f) (- EINVAL) (fun g => g (f_inode f) (Z.land mode 0xFFF)).

Definition vfs_fchown (fd uid' gid' : Z) : V Z :=
  let* ok := gets (fun v => fd_ok v fd) in
  if negb ok then fail EINVAL (-1)
  else
    let* f := fd_at fd in
    let* uid := gets v_uid in
    if negb (uid =? 0) then fail EACCES (-1)
    else op_or op_chown (f_inode f) (- EINVAL) (fun g => g (f_inode f) uid' gid').

Definition vfs_chmod (path : option cstr) (mode : Z) : V Z :=
  let* p := resolve_path path false in
  if p =? 0 then ret (-1)
  else
    let* i := inode_at p in
    let* uid := gets v_uid in
    if negb (uid =? 0) && negb (uid =? i_uid i) then do* inode_unref p in fail EACCES (-1)
    else
      let* r := op_or op_chmod p (- EINVAL) (fun g => g p (Z.land mode 0xFFF)) in
      do* inode_unref p in
      ret r.

Definition vfs_chown (path : option cstr) (uid' gid' : Z) : V Z :=
  let* p := resolve_path path false in
  if p =? 0 then ret (-1)
  else
    let* uid := gets v_uid in
    if negb (uid =? 0) then do* inode_unref p in fail EACCES (-1)
    else
      let* r := op_or op_chown p (- EINVAL) (fun g => g p uid' gid') in
      do* inode_unref p in
      ret r.

Definition vfs_truncate (path : option cstr) (size : Z) : V Z :=
  let* p := resolve_path path false in
  if p =? 0 then ret (-1)
  else
    let* perm := vfs_require p PERM_W in
    if perm <? 0 then do* inode_unref p in ret (-1)
    else
      let* r := op_or op_truncate p (- EINVAL) (fun g => g p size) in
      do* inode_unref p in
      ret r.

Definition vfs_ftruncate (fd size : Z) : V Z :=
  let* ok := gets (fun v => fd_ok v fd) in
  if negb ok then ret (-1)
  else
    let* f := fd_at fd in
    let* perm := vfs_require (f_inode f) PERM_W in
    if perm <? 0 then ret (-1)
    else op_or op_truncate (f_inode f) (-1) (fun g => g (f_inode f) size).

(** ** Changing the tree *)

(** The parent of [path], checked for write and search permission, and the last
    component; the parent is released afterwards. *)
Definition in_parent (path : option cstr) (k : Z -> cstr -> V Z) : V Z :=
  let* p := str path in
  let* '(dir, base) := path_split p in
  let* parent := resolve_path (Some dir) false in
  if parent =? 0 then ret (-1)
  else
    let* perm := vfs_require parent (Z.lor PERM_W PERM_X) in
    if perm <? 0 then do* inode_unref parent in ret (-1)
    else
      let* r := k parent base in
      do* inode_unref parent in
      ret r.

Definition vfs_mkdir (path : option cstr) (mode : Z) : V Z :=
  let* p := str path in
  let* '(dir, base) := path_split p in
  let* parent := resolve_path (Some dir) false in
  if parent =? 0 then fail ENOENT (-1)
  else
    let* o := op_of op_mkdir parent in
    match o with
    | None => do* inode_unref parent in fail ENOTDIR (-1)
    | Some g =>
      let* perm := vfs_require parent (Z.lor PERM_W PERM_X) in
      if perm <? 0 then do* inode_unref parent in ret (-1)
      else
        let* '(r, _) := g parent base (Z.lor (andn mode S_IFMT) S_IFDIR) false in
        do* inode_unref parent in
        ret r
    end.

Definition vfs_rmdir (path : option cstr) : V Z :=
  in_parent path (fun parent base => op_or op_rmdir parent (- EINVAL) (fun g => g parent base)).
Definition vfs_unlink (path : option cstr) : V Z :=
  in_parent path (fun parent base => op_or op_unlink parent (- EINVAL) (fun g => g parent base)).
Definition vfs_symlink (target : cstr) (linkpath : option cstr) : V Z :=
  in_parent linkpath (fun dir base => op_or op_symlink dir (- EINVAL) (fun g => g dir base target)).

Definition unref_if (p : Z) : V unit := if p =? 0 then ret tt else inode_unref p.

Definition vfs_rename (oldpath newpath : option cstr) : V Z :=
  let* op := str oldpath in
  let* np := str newpath in
  let* '(od, ob) := path_split op in
  let* '(nd, nb) := path_split np in
  let* old_dir := resolve_path (Some od) false in
  let* new_dir := resolve_path (Some nd) false in
  if (old_dir =? 0) || (new_dir =? 0) then
    do* unref_if old_dir in do* unref_if new_dir in ret (-1)
  else
    let* p1 := vfs_require old_dir (Z.lor PERM_W PERM_X) in
    let* p2 := (if p1 <? 0 then ret (-1) else vfs_require new_dir (Z.lor PERM_W PERM_X)) in
    if (p1 <? 0) || (p2 <? 0) then do* inode_unref old_dir in do* inode_unref new_dir in ret (-1)
    else
      let* r := op_or op_rename old_dir (- EINVAL) (fun g => g old_dir ob new_dir nb) in
      do* inode_unref old_dir in
      do* inode_unref new_dir in
      ret r.

Definition vfs_link (oldpath newpath : option cstr) : V Z :=
  let* target := resolve_path oldpath false in
  if target =? 0 then ret (-1)
  else
    let* np := str newpath in
    let* '(nd, nb) := path_split np in
    let* new_dir := resolve_path (Some nd) false in
    if new_dir =? 0 then do* inode_unref target in ret (-1)
    else
      let* perm := vfs_require new_dir (Z.lor PERM_W PERM_X) in
      if perm <? 0 then do* inode_unref target in do* inode_unref new_dir in ret (-1)
      else
        let* r := op_or op_link new_dir (- EINVAL) (fun g => g new_dir nb target) in
        do* inode_unref target in
        do* inode_unref new_dir in
        ret r.

Definition vfs_readlink (path : option cstr) (sz : Z) : V (Z * cstr) :=
  let* p := resolve_path path true in
  if p =? 0 then ret (-1, [])
  else
    let* o := op_of op_readlink p in
    let* r := (match o with Some g => g p sz | None => ret (- EINVAL, []) end) in
    do* inode_unref p in
    ret r.

Definition vfs_create (path : option cstr) (mode : Z) : V Z :=
  vfs_open path (Z.lor O_WRONLY (Z.lor O_CREAT O_TRUNC)) (if mode =? 0 then 0x1A4 else mode).

(** ** Directory iteration *)

Definition vfs_opendir (path : option cstr) : V Z :=
  let* p := resolve_path path false in
  if p =? 0 then fail ENOTDIR 0
  else
    let* i := inode_at p in
    if negb (S_ISDIR (i_mode i)) then do* inode_unref p in fail ENOTDIR 0
    else
      let* perm := vfs_require p (Z.lor PERM_R PERM_X) in
      if perm <? 0 then do* inode_unref p in ret 0
      else
        let* d := alloc sizeof_DIR in
        if d =? 0 then ret 0
        else
          let* s := str path in
          do* guard (fits_in s VFS_PATH_MAX) in
          do* modify (fun v => v <| v_handles := <[d := mk_DIR s 0 true]> (v_handles v) |>) in
          do* inode_unref p in
          ret d.

(** [i->ops->readdir(i, index, &g_dirent_buf)] *)
Definition readdir_buf (g : Z -> Z -> V (Z * option dirent)) (p index : Z) : V bool :=
  let* '(r, de) := g p index in
  do* (match de with Some _ => modify (fun v => v <| v_dirent := de |>) | None => ret tt end) in
  ret (r =? 0).

Definition vfs_readdir_next (dir : Z) : V (option dirent) :=
  if dir =? 0 then ret None
  else
    let* d := deref (fun v => v_handles v !! dir) in
    if negb (dh_valid d) then ret None
    else
      let* p := resolve_path (Some (dh_path d)) false in
      if p =? 0 then ret None
      else
        let* o := op_of op_readdir p in
        match o with
        | None => do* inode_unref p in ret None
        | Some g =>
          let* perm := vfs_require p (Z.lor PERM_R PERM_X) in
          if perm <? 0 then do* inode_unref p in ret None
          else
            let* ok := readdir_buf g p (dh_index d) in
            do* inode_unref p in
            if negb ok then ret None
            else
              do* modify (fun v => v <| v_handles := <[dir := mk_DIR (dh_path d) (u32 (dh_index d + 1)) (dh_valid d)]> (v_handles v) |>) in
              gets v_dirent
        end.

Definition vfs_fd_readdir (fd : Z) : V (Z * option dirent) :=
  let* ok := gets (fun v => fd_ok v fd) in
  if negb ok then ret (-1, None)
  else
    let* f := fd_at fd in
    if f_inode f =? 0 then ret (-1, None)
    else
      let* i := inode_at (f_inode f) in
      if negb (S_ISDIR (i_mode i)) then ret (-1, None)
      else
        let* o := op_of op_readdir (f_inode f) in
        match o with
        | None => ret (-1, None)
        | Some g =>
          let* perm := vfs_require (f_inode f) (Z.lor PERM_R PERM_X) in
          if perm <? 0 then ret (-1, None)
          else if 0xffffffff <? f_offset f then ret (0, None)
          else
            let* '(r, de) := g (f_inode f) (f_offset f) in
            if negb (r =? 0) then ret (0, None)
            else do* upd_fd fd (fun f => f <| f_offset := u64 (f_offset f + 1) |>) in ret (1, de)
        end.

Definition vfs_closedir (dir : Z) : V unit :=
  if dir =? 0 then ret tt
  else do* free dir in modify (fun v => v <| v_handles := delete dir (v_handles v) |>).

Definition vfs_readdir (path : option cstr) (index : Z) : V (option dirent) :=
  let* p := resolve_path path false in
  if p =? 0 then ret None
  else
    let* o := op_of op_readdir p in
    match o with
    | None => ret None
    | Some g =>
      let* ok := readdir_buf g p index in
      do* inode_unref p in
      if ok then gets v_dirent else ret None
    end.

(** At most 256 names; the name of a directory gets a '/'. *)
Fixpoint list_loop (fuel : nat) (g : Z -> Z -> V (Z * option dirent)) (dir i : Z) : V (list cstr) :=
  match fuel with
  | O => ret []
  | S fuel' =>
    let* '(r, de) := g dir i in
    match de with
    | Some e =>
      if negb (r =? 0) then ret []
      else
        let name := de_name e ++ (if de_d_type e =? DT_DIR then cs "/" else []) in
        do* guard (fits_in name (VFS_NAME_MAX + 1)) in
        let* rest := list_loop fuel' g dir (i + 1) in
        ret (name :: rest)
    | None => ret []
    end
  end.

Definition vfs_listdir (path : option cstr) : V (Z * list cstr) :=
  let* p := resolve_path path false in
  if p =? 0 then ret (-1, [])
  else
    let* i := inode_at p in
    if negb (S_ISDIR (i_mode i)) then do* inode_unref p in ret (-1, [])
    else
      let* perm := vfs_require p (Z.lor PERM_R PERM_X) in
      if perm <? 0 then do* inode_unref p in ret (-1, [])
      else
        let* o := op_of op_readdir p in
        let* l := (match o with Some g => list_loop 256 g p 0 | None => ret [] end) in
        do* inode_unref p in
        ret (0, l).
End Api.

(** ** The virtual filesystem: start-up (src/src/vfs.c, [vfs_init])

    The population of the root filesystem and the mounts of devfs, procfs and
    sysfs, and the instance of [Allocator] that is the kernel heap. *)

Section Init.
Context {H : Type} `{!Allocator H}.
Abbreviation V := (M (vfs H)).

Definition populate_etc (etc : Z) : V unit :=
  do* mkfiles etc
    [(cs "hostname", cs "atmkoala" ++ nl);
     (cs "timezone", cs "UTC" ++ nl);
     (cs "os-release", lines
       [cs "NAME=" ++ quote ++ cs "atmkoala" ++ quote; cs "VERSION=" ++ quote ++ cs "0.5" ++ quote; cs "ID=atmkoala";
        cs "PRETTY_NAME=" ++ quote ++ cs "atmkoala 0.5 x86-64" ++ quote; cs "VERSION_ID=" ++ quote ++ cs "0.5" ++ quote;
        cs "ANSI_COLOR=" ++ quote ++ cs "1;36" ++ quote; cs "HOME_URL=" ++ quote ++ cs "https://atmkoala.local" ++ quote]);
     (cs "fstab", lines
       [cs "# /etc/fstab"; cs "ramfs   /        ramfs  defaults     0 0"; cs "proc    /proc    proc   defaults     0 0";
        cs "devfs   /dev     devfs  defaults     0 0"; cs "sysfs   /sys     sysfs  ro           0 0";
        cs "tmpfs   /tmp     tmpfs  rw,nosuid    0 0"; cs "tmpfs   /run     tmpfs  rw,nosuid    0 0"]);
     (cs "passwd", lines [cs "root:x:0:0:root:/root:/bin/sh"; cs "user:x:1000:1000::/home/user:/bin/sh"]);
     (cs "shadow", lines [cs "root:*:19000:0:99999:7:::"; cs "user:*:19000:0:99999:7:::"]);
     (cs "group", lines
       [cs "root:x:0:"; cs "sudo:x:27:user"; cs "user:x:1000:"; cs "disk:x:6:"; cs "video:x:44:"; cs "netdev:x:109:user"]);
     (cs "hosts", lines
       [cs "127.0.0.1   localhost"; cs "127.0.1.1   atmkoala"; cs "::1         localhost ip6-localhost ip6-loopback"]);
     (cs "resolv.conf", lines [cs "nameserver 8.8.8.8"; cs "nameserver 1.1.1.1"]);
     (cs "motd", cs "atmkoala 0.5  |  x86-64  |  type 'help'" ++ nl);
     (cs "issue", cs "atmkoala 0.5 \l" ++ nl);
     (cs "shells", lines [cs "/bin/sh"; cs "/bin/qsh"]);
     (cs "profile", lines
       [cs "# /etc/profile"; cs "export PATH=/bin:/usr/bin:/usr/local/bin"; cs "export HOME=/root"; cs "export TERM=vt100"])] in
  let* net := ramfs_mkdir_child etc (cs "network") MODE_DIR in
  do* with_dir net (mkfiles net
    [(cs "interfaces", lines
       [cs "# /etc/network/interfaces"; cs "auto lo"; cs "iface lo inet loopback"; []; cs "auto eth0"; cs "iface eth0 inet dhcp"])]) in
  let* sysctl := ramfs_mkdir_child etc (cs "sysctl.d") MODE_DIR in
  with_dir sysctl (mkfiles sysctl
    [(cs "99-atmkoala.conf", lines [cs "net.ipv4.ip_forward = 0"; cs "kernel.dmesg_restrict = 0"])]).

(** [d = ramfs_mkdir_child(parent, name, MODE_DIR); if (d) { body; inode_unref(d); }] *)
Definition subdir (parent : Z) (name : cstr) (body : Z -> V unit) : V unit :=
  let* d := ramfs_mkdir_child parent name MODE_DIR in with_dir d (body d).
Definition empty_dir (_ : Z) : V unit := ret tt.

Definition populate_home (home : Z) : V unit :=
  let* u := ramfs_mkdir_child home (cs "user") MODE_DIR in
  if u =? 0 then ret tt
  else
    do* upd_inode u (fun i => i <| i_uid := 1000 |> <| i_gid := 1000 |>) in
    do* mkfiles u
      [(cs ".profile", lines [cs "# ~/.profile"; cs "[ -f ~/.shrc ] && . ~/.shrc"]);
       (cs ".shrc", lines [cs "# ~/.shrc"; cs "export PS1='user@atmkoala:~$ '"; cs "alias ls='ls --color'"]);
       (cs "readme.txt", lines [cs "atmkoala home directory."; cs "Type 'help' for commands."])] in
    do* subdir u (cs "Documents") empty_dir in
    do* subdir u (cs "Downloads") empty_dir in
    inode_unref u.

Definition populate_usr (usr : Z) : V unit :=
  do* subdir usr (cs "bin") empty_dir in
  do* subdir usr (cs "lib") empty_dir in
  do* subdir usr (cs "share") (fun share => subdir share (cs "man") empty_dir) in
  subdir usr (cs "local") (fun local => subdir local (cs "bin") empty_dir).

Definition populate_var (var : Z) : V unit :=
  do* subdir var (cs "log") (fun log => mkfiles log [(cs "syslog", []); (cs "kern.log", []); (cs "dmesg", [])]) in
  do* subdir var (cs "run") (fun run => mkfiles run [(cs "utmp", [])]) in
  do* subdir var (cs "cache") empty_dir in
  do* subdir var (cs "lib") empty_dir in
  subdir var (cs "spool") empty_dir.

Definition top_dirs : list cstr :=
  [cs "bin"; cs "boot"; cs "dev"; cs "etc"; cs "home"; cs "lib"; cs "lib64"; cs "mnt"; cs "opt"; cs "proc";
   cs "root"; cs "run"; cs "srv"; cs "sys"; cs "tmp"; cs "usr"; cs "var"].

(** [d = resolve_path(path, 0); if (d) { body; inode_unref(d); }] *)
Definition at_path (path : cstr) (body : Z -> V unit) : V unit :=
  let* d := resolve_path (Some path) false in with_dir d (body d).
Definition set_mode (mode p : Z) : V unit := upd_inode p (fun i => i <| i_mode := mode |>).

(** [fs = create(); mp = resolve_path(path, 0); if (fs && mp) mp->mountpoint = fs;] *)
Definition mount_on (create : V Z) (path : cstr) : V unit :=
  let* fs := create in
  let* mp := resolve_path (Some path) false in
  if (fs =? 0) || (mp =? 0) then ret tt else upd_inode mp (fun i => i <| i_mountpoint := fs |>).

Definition vfs_init : V unit :=
  do* modify (fun v => v <| v_mounts := replicate (Z.to_nat MOUNT_MAX) (mk_mount [] 0 false) |>
                         <| v_fds := replicate (Z.to_nat FD_MAX) fd_zero |> <| v_nmounts := 0 |>) in
  let* root := ramfs_create_root in
  do* modify (fun v => v <| v_root := root |>) in
  do* for_each (fun d => do* ramfs_mkdir_child root d MODE_DIR in ret tt) top_dirs in
  do* at_path (cs "/root") (fun d =>
    do* set_mode (Z.lor S_IFDIR 0x1C0) d in
    ramfs_mkfile d (cs ".profile") (lines [cs "# /root/.profile"; cs "export PS1='root@atmkoala:~# '"])) in
  do* at_path (cs "/etc") populate_etc in
  do* at_path (cs "/home") populate_home in
  do* at_path (cs "/usr") populate_usr in
  do* at_path (cs "/var") populate_var in
  do* at_path (cs "/tmp") (set_mode (Z.lor S_IFDIR (Z.lor S_ISVTX 0x1FF))) in
  do* at_path (cs "/run") (set_mode (Z.lor S_IFDIR 0x1ED)) in
  do* vfs_symlink (cs "/lib") (Some (cs "/lib64")) in
  let* bin := resolve_path (Some (cs "/bin")) false in
  do* ramfs_mkfile bin (cs "sh") [] in
  do* vfs_symlink (cs "/bin/sh") (Some (cs "/usr/bin/sh")) in
  do* mount_on devfs_create (cs "/dev") in
  do* mount_on procfs_create (cs "/proc") in
  do* mount_on sysfs_create (cs "/sys") in
  let* null_i := resolve_path (Some (cs "/dev/null")) false in
  if null_i =? 0 then ret tt
  else
    do* for_each (fun i =>
      do* upd_fd i (fun f => mk_fd null_i 0 (if i =? 0 then O_RDONLY else O_WRONLY) true (f_cloexec f) (f_path f)) in
      inode_ref null_i) [0; 1; 2] in
    inode_unref null_i.
End Init.

(** ** Booting *)

(** The state before [vfs_init], over a heap. *)
Definition vfs_boot {H} (h : H) : vfs H := mk_vfs h ∅ ∅ [] [] 0 0 0 0 0 1 0 0xDEADBEEF None.

Definition booted : outcome (vfs heap) :=
  match vfs_init (vfs_boot boot_heap) with Done (_, v) => Done v | Fault => Fault end.
