(* ===== verification/VfsInv.v ===== *)
(** * The virtual filesystem: the invariant of its objects

    Two counts tie the filesystem to the heap and to itself: every address the
    filesystem owns - an inode, its private data, a dentry, a buffer, a directory
    handle - is allocated and owned once, and the reference count of an inode is
    at least the number of dentries and descriptors that point at it plus the
    references held otherwise: by the code that is running, and for good by the
    root and by mount points. *)

From S2P Require Import Prelude Cstring Alloc Vfs VfsSynth VfsPath VfsApi.

(** ** Counting *)

Fixpoint cnt (q : Z) (l : list Z) : Z :=
  match l with [] => 0 | x :: l' => (if x =? q then 1 else 0) + cnt q l' end.

Lemma cnt_app q l1 l2 : cnt q (l1 ++ l2) = cnt q l1 + cnt q l2.
Proof. induction l1 as [|x l1 IH]; simpl; lia. Qed.
Lemma cnt_nonneg q l : 0 <= cnt q l.
Proof. induction l as [|x l IH]; simpl; [lia|]. destruct (x =? q); lia. Qed.
Lemma cnt_elem q l : q ∈ l <-> 1 <= cnt q l.
Proof.
  induction l as [|x l IH]; simpl; [split; [set_solver|lia]|]. pose proof (cnt_nonneg q l).
  rewrite elem_of_cons, IH. destruct (Z.eqb_spec x q); split; intros; [lia|by left|destruct H0; [congruence|lia]|right; lia].
Qed.
Lemma cnt_nil q l : ~ q ∈ l -> cnt q l = 0.
Proof. rewrite cnt_elem. pose proof (cnt_nonneg q l). lia. Qed.
Lemma cnt_NoDup l : (forall q, cnt q l <= 1) -> NoDup l.
Proof.
  induction l as [|x l IH]; intros H; [constructor|]. apply list.NoDup_cons. split.
  - rewrite cnt_elem. specialize (H x). simpl in H. rewrite Z.eqb_refl in H. lia.
  - apply IH. intros q. specialize (H q). simpl in H. destruct (x =? q); lia.
Qed.
Lemma cnt_single q x : cnt q [x] = if x =? q then 1 else 0.
Proof. simpl. lia. Qed.

(** The sum of a quantity over the inodes. *)
Definition isum (f : Z -> inode -> Z) (m : gmap Z inode) : Z := map_fold (fun p i acc => f p i + acc) 0 m.

Section isum.
Context (f : Z -> inode -> Z).

Lemma isum_empty : isum f ∅ = 0.
Proof. apply map_fold_empty. Qed.
Lemma isum_insert m p i : m !! p = None -> isum f (<[p := i]> m) = f p i + isum f m.
Proof. intros Hp. unfold isum. rewrite map_fold_insert_L; [done| |done]. intros. lia. Qed.
Lemma isum_delete m p i : m !! p = Some i -> isum f (delete p m) = isum f m - f p i.
Proof.
  intros Hp. rewrite <- (insert_delete_id m p i Hp) at 2.
  rewrite isum_insert by apply lookup_delete_eq. lia.
Qed.
Lemma isum_update m p i j : m !! p = Some i -> isum f (<[p := j]> m) = isum f m - f p i + f p j.
Proof.
  intros Hp. rewrite <- insert_delete_eq, isum_insert by apply lookup_delete_eq. rewrite (isum_delete _ _ _ Hp). lia.
Qed.
Lemma isum_nonneg m : (forall p i, 0 <= f p i) -> 0 <= isum f m.
Proof.
  intros Hf. induction m as [|p i m Hp IH] using map_ind; [by rewrite isum_empty|].
  rewrite isum_insert by done. specialize (Hf p i). lia.
Qed.
Lemma isum_ge m p i : (forall p i, 0 <= f p i) -> m !! p = Some i -> f p i <= isum f m.
Proof.
  intros Hf Hp. pose proof (isum_nonneg (delete p m) Hf). rewrite (isum_delete _ _ _ Hp) in H. lia.
Qed.
End isum.

(** ** Ownership and references *)

Definition priv_addrs (pv : priv) : list Z :=
  match pv with
  | PNull => []
  | PFile a data _ _ _ => a :: (if data =? 0 then [] else [data])
  | PDir a ch _ => a :: (d_addr <$> ch)
  | PLink a _ => [a]
  end.
Definition objs (p : Z) (i : inode) : list Z := p :: priv_addrs (i_priv i).

Definition children (i : inode) : list dentry := match i_priv i with PDir _ ch _ => ch | _ => [] end.
Definition i_refs (i : inode) : list Z := d_inode <$> children i.
Definition fd_refs (fds : list vfs_fd) : list Z := f_inode <$> filter (fun f => f_used f = true) fds.

Definition names (i : inode) : list cstr := d_name <$> children i.

(** The private data fits the operations and the mode. *)
Definition file_ok (i : inode) (data : Z) (bytes : list byte) (size cap : Z) : Prop :=
  cap = zlen bytes /\ cap < 2 ^ 32 /\ 0 <= size <= cap /\ (data = 0 -> bytes = []) /\ i_size i = size.

Definition kind_ok (i : inode) : Prop :=
  match i_ops i with
  | Some ramfs_dir_ops => S_ISDIR (i_mode i) = true /\ exists a ch n, i_priv i = PDir a ch n
  | Some ramfs_ops =>
    (S_ISREG (i_mode i) = true /\ exists a data bytes size cap, i_priv i = PFile a data bytes size cap /\ file_ok i data bytes size cap)
    \/ (S_ISLNK (i_mode i) = true /\ exists a t, i_priv i = PLink a t /\ zlen t < VFS_PATH_MAX)
  | Some _ => S_ISDIR (i_mode i) = false /\ S_ISLNK (i_mode i) = false /\ i_priv i = PNull
  | None => False
  end.

Record dir_ok (i : inode) : Prop := {
  dk_names : NoDup (names i);
  dk_targets : Forall (fun e => d_inode e <> 0) (children i);
  dk_short : Forall (fun e => zlen (d_name e) <= VFS_NAME_MAX) (children i) }.

Record inode_ok (i : inode) : Prop := { io_kind : kind_ok i; io_dir : dir_ok i }.

Section Inv.
Context {H : Type} `{!Allocator H} `{!AllocatorLaws H}.
Implicit Types (v : vfs H) (L : gset Z) (hd : Z -> Z).

Definition owns v (a : Z) : Z :=
  isum (fun p i => cnt a (objs p i)) (v_inodes v) + (if bool_decide (is_Some (v_handles v !! a)) then 1 else 0).
Definition refs v (q : Z) : Z :=
  isum (fun _ i => cnt q (i_refs i)) (v_inodes v) + cnt q (fd_refs (v_fds v)).
Definition rc v (q : Z) : Z := match v_inodes v !! q with Some i => i_refcount i | None => 0 end.
Definition live01 L (a : Z) : Z := if bool_decide (a ∈ L) then 1 else 0.

Record vfs_ok L hd v : Prop := {
  vo_heap : heap_live (v_heap v) L;
  vo_addr : forall a, owns v a <= live01 L a;
  vo_inode : forall p i, v_inodes v !! p = Some i -> p <> 0 /\ inode_ok i;
  vo_refs : forall q, q <> 0 -> refs v q + hd q <= rc v q;
  vo_held : forall q, 0 <= hd q;
  vo_used : forall f, f ∈ v_fds v -> f_used f = true -> f_inode f <> 0 /\ 0 <= f_offset f;
  vo_nfds : length (v_fds v) = 64%nat }.

(** One more, one less reference held. *)
Definition held_add hd (p : Z) : Z -> Z := fun q => hd q + (if p =? q then 1 else 0).

(** The roots of the tree and of what is mounted in it are held for good. *)
Record pinned hd v : Prop := {
  pin_root : v_root v <> 0 /\ 1 <= hd (v_root v);
  pin_mounted : forall p i, v_inodes v !! p = Some i -> i_mountpoint i <> 0 -> 1 <= hd (i_mountpoint i);
  pin_table : forall m, m ∈ mounts v -> m_used m = true -> m_root m <> 0 /\ 1 <= hd (m_root m) }.

Lemma objs_nonneg a p i : 0 <= cnt a (objs p i).
Proof. apply cnt_nonneg. Qed.
Lemma irefs_nonneg q (p : Z) i : 0 <= cnt q (i_refs i).
Proof. apply cnt_nonneg. Qed.

Lemma refs_nonneg v q : 0 <= refs v q.
Proof.
  unfold refs. pose proof (isum_nonneg (fun _ i => cnt q (i_refs i)) (v_inodes v) (irefs_nonneg q)).
  pose proof (cnt_nonneg q (fd_refs (v_fds v))). lia.
Qed.

Lemma owns_ge v p i a : v_inodes v !! p = Some i -> cnt a (objs p i) <= owns v a.
Proof.
  intros Hp. unfold owns. pose proof (isum_ge _ _ _ _ (objs_nonneg a) Hp) as Hge. cbv beta in Hge.
  destruct (bool_decide _); lia.
Qed.

Lemma refs_ge v p i q : v_inodes v !! p = Some i -> cnt q (i_refs i) <= refs v q.
Proof.
  intros Hp. unfold refs. pose proof (isum_ge _ _ _ _ (irefs_nonneg q) Hp) as Hge. cbv beta in Hge.
  pose proof (cnt_nonneg q (fd_refs (v_fds v))). lia.
Qed.

(** What is referenced is there. *)
Lemma rc_live v q : 1 <= rc v q -> exists i, v_inodes v !! q = Some i /\ i_refcount i = rc v q.
Proof. unfold rc. destruct (v_inodes v !! q) as [i|]; [by eauto|lia]. Qed.

Lemma held_live L hd v q : vfs_ok L hd v -> q <> 0 -> 1 <= hd q -> is_Some (v_inodes v !! q).
Proof.
  intros Hok Hq Hh. pose proof (vo_refs _ _ _ Hok q Hq). pose proof (refs_nonneg v q).
  destruct (rc_live v q) as (i & Hi & _); [lia|]. by exists i.
Qed.

Lemma child_live L hd v p i e :
  vfs_ok L hd v -> v_inodes v !! p = Some i -> e ∈ children i ->
  d_inode e <> 0 /\ is_Some (v_inodes v !! d_inode e).
Proof.
  intros Hok Hp He. destruct (vo_inode _ _ _ Hok _ _ Hp) as [_ [_ Hd]].
  assert (Hne : d_inode e <> 0). { destruct Hd as [_ Ht _]. rewrite list.Forall_forall in Ht. by apply Ht. }
  split; [done|]. pose proof (vo_refs _ _ _ Hok _ Hne). pose proof (vo_held _ _ _ Hok (d_inode e)).
  assert (1 <= cnt (d_inode e) (i_refs i)).
  { apply cnt_elem. unfold i_refs. by apply list_elem_of_fmap_2. }
  pose proof (refs_ge v p i (d_inode e) Hp). destruct (rc_live v (d_inode e)) as (j & Hj & _); [lia|]. by exists j.
Qed.

Lemma fd_live L hd v f : vfs_ok L hd v -> f ∈ v_fds v -> f_used f = true ->
  f_inode f <> 0 /\ is_Some (v_inodes v !! f_inode f).
Proof.
  intros Hok Hf Hu. destruct (vo_used _ _ _ Hok f Hf Hu) as [Hne _]. split; [done|].
  pose proof (vo_refs _ _ _ Hok _ Hne). pose proof (vo_held _ _ _ Hok (f_inode f)).
  assert (1 <= cnt (f_inode f) (fd_refs (v_fds v))).
  { apply cnt_elem. unfold fd_refs. apply list_elem_of_fmap_2. by apply list_elem_of_filter. }
  unfold refs in *. pose proof (isum_nonneg (fun _ i => cnt (f_inode f) (i_refs i)) (v_inodes v) (irefs_nonneg _)).
  destruct (rc_live v (f_inode f)) as (j & Hj & _); [lia|]. by exists j.
Qed.

End Inv.
