(* ===== verification/VfsRefs.v ===== *)
(** * The virtual filesystem: references, dentries and allocation keep the invariant *)

From S2P Require Import Prelude Cstring Alloc Vfs VfsSynth VfsPath VfsApi VfsInv.

Section Refs.
Context {H : Type} `{!Allocator H} `{!AllocatorLaws H}.
Implicit Types (v : vfs H) (L : gset Z) (hd : Z -> Z) (m : gmap Z inode).

(** The state with another heap and other inodes. *)
Definition at_ (h : H) m v : vfs H := v <| v_heap := h |> <| v_inodes := m |>.

Lemma at_id v : at_ (v_heap v) (v_inodes v) v = v.
Proof. by destruct v. Qed.

Definition o_of m (a : Z) : Z := isum (fun p i => cnt a (objs p i)) m.
Definition r_of m (q : Z) : Z := isum (fun _ i => cnt q (i_refs i)) m.
Definition rcm m (q : Z) : Z := match m !! q with Some i => i_refcount i | None => 0 end.

Lemma o_of_nonneg m a : 0 <= o_of m a.
Proof. apply isum_nonneg. intros. apply cnt_nonneg. Qed.
Lemma owns_nonneg v a : 0 <= owns v a.
Proof. unfold owns. pose proof (o_of_nonneg (v_inodes v) a). unfold o_of in *. destruct (bool_decide _); lia. Qed.

Definition handle01 v (a : Z) : Z := if bool_decide (is_Some (v_handles v !! a)) then 1 else 0.
Lemma owns_at h m v a : owns (at_ h m v) a = o_of m a + handle01 v a.
Proof. done. Qed.
Lemma owns_eq v a : owns v a = o_of (v_inodes v) a + handle01 v a.
Proof. done. Qed.
Lemma refs_at h m v q : refs (at_ h m v) q = r_of m q + cnt q (fd_refs (v_fds v)).
Proof. done. Qed.
Lemma refs_eq v q : refs v q = r_of (v_inodes v) q + cnt q (fd_refs (v_fds v)).
Proof. done. Qed.
Lemma rc_at h m v q : rc (at_ h m v) q = rcm m q.
Proof. done. Qed.

Lemma vfs_ok_step L L' hd hd' v h' m' :
  vfs_ok L hd v -> heap_live h' L' ->
  (forall a, owns v a + o_of m' a - o_of (v_inodes v) a <= live01 L' a) ->
  (forall p i, m' !! p = Some i -> p <> 0 /\ inode_ok i) ->
  (forall q, q <> 0 -> refs v q + r_of m' q - r_of (v_inodes v) q + hd' q <= rcm m' q) ->
  (forall q, 0 <= hd' q) -> vfs_ok L' hd' (at_ h' m' v).
Proof.
  intros [] Hh Ho Hi Hr Hd. constructor; try done.
  - intros a. specialize (Ho a). rewrite owns_at. rewrite owns_eq in Ho. lia.
  - intros q Hq. specialize (Hr q Hq). rewrite refs_at, rc_at. rewrite refs_eq in Hr. lia.
Qed.

Lemma live01_range L a : 0 <= live01 L a <= 1.
Proof. unfold live01. destruct (bool_decide _); lia. Qed.
Lemma live01_ext L L' a : (a ∈ L <-> a ∈ L') -> live01 L a = live01 L' a.
Proof. intros E. unfold live01. by rewrite (bool_decide_ext _ _ E). Qed.
Lemma live01_in L a : a ∈ L -> live01 L a = 1.
Proof. intros Ha. unfold live01. by rewrite bool_decide_true. Qed.
Lemma live01_out L a : a ∉ L -> live01 L a = 0.
Proof. intros Ha. unfold live01. by rewrite bool_decide_false. Qed.
Lemma live01_add L e a : live01 ({[e]} ∪ L) a = if e =? a then 1 else live01 L a.
Proof.
  unfold live01. destruct (Z.eqb_spec e a) as [->|Hne]; [by rewrite bool_decide_true by set_solver|].
  destruct (decide (a ∈ L)); [rewrite !bool_decide_true by set_solver|rewrite !bool_decide_false by set_solver]; done.
Qed.
Lemma live01_del L e a : live01 (L ∖ {[e]}) a = if e =? a then 0 else live01 L a.
Proof.
  unfold live01. destruct (Z.eqb_spec e a) as [->|Hne]; [by rewrite bool_decide_false by set_solver|].
  destruct (decide (a ∈ L)); [rewrite !bool_decide_true by set_solver|rewrite !bool_decide_false by set_solver]; done.
Qed.

Lemma owned_in L hd v p i a : vfs_ok L hd v -> v_inodes v !! p = Some i -> a ∈ objs p i -> a ∈ L.
Proof.
  intros Hok Hp Ha%cnt_elem. pose proof (owns_ge _ _ _ a Hp). pose proof (vo_addr _ _ _ Hok a).
  destruct (decide (a ∈ L)) as [|Hn]; [done|]. rewrite (live01_out _ _ Hn) in *. lia.
Qed.

Lemma objs_NoDup L hd v p i : vfs_ok L hd v -> v_inodes v !! p = Some i -> NoDup (objs p i).
Proof.
  intros Hok Hp. apply cnt_NoDup. intros q. pose proof (owns_ge _ _ _ q Hp). pose proof (vo_addr _ _ _ Hok q).
  pose proof (live01_range L q). lia.
Qed.

(** ** Changes of one inode *)

Definition same_kind (i j : inode) : Prop :=
  Z.land (i_mode j) S_IFMT = Z.land (i_mode i) S_IFMT /\ i_ops j = i_ops i /\ i_priv j = i_priv i /\ i_size j = i_size i.

Lemma inode_ok_same i j : same_kind i j -> inode_ok i -> inode_ok j.
Proof.
  intros (Hm & Ho & Hp & Hs) [Hk [Hn Ht Hl]].
  assert (Hch : children j = children i) by (unfold children; by rewrite Hp).
  split; [|split; unfold names in *; rewrite ?Hch, ?Hp; done].
  unfold kind_ok, S_ISDIR, S_ISREG, S_ISLNK, file_ok in *. by rewrite Hm, Ho, Hp, Hs.
Qed.

(** A change that leaves the private data and the reference count. *)
Lemma vfs_ok_put_gen L hd v p i j :
  vfs_ok L hd v -> v_inodes v !! p = Some i -> i_priv j = i_priv i -> inode_ok j -> i_refcount j = i_refcount i ->
  vfs_ok L hd (v <| v_inodes := <[p := j]> (v_inodes v) |>).
Proof.
  intros Hok Hp Hpv Hj Hrc. change (vfs_ok L hd (at_ (v_heap v) (<[p := j]> (v_inodes v)) v)).
  eapply vfs_ok_step; [done|apply Hok|..].
  - intros a. unfold o_of. rewrite (isum_update _ _ _ _ _ Hp). unfold objs. rewrite Hpv.
    pose proof (vo_addr _ _ _ Hok a). lia.
  - intros q k. destruct (decide (q = p)) as [->|Hne].
    + rewrite lookup_insert_eq. intros Hk. apply (inj Some) in Hk as <-.
      destruct (vo_inode _ _ _ Hok _ _ Hp) as [? ?]. by split.
    + rewrite lookup_insert_ne by done. apply (vo_inode _ _ _ Hok).
  - intros q Hq. unfold r_of. rewrite (isum_update _ _ _ _ _ Hp). pose proof (vo_refs _ _ _ Hok q Hq) as Hr.
    unfold i_refs, children. rewrite Hpv. unfold rcm, rc in *.
    destruct (decide (q = p)) as [->|Hne]; [rewrite lookup_insert_eq; rewrite Hp in Hr; lia|].
    rewrite lookup_insert_ne by done. lia.
  - apply Hok.
Qed.

Lemma vfs_ok_put L hd v p i j :
  vfs_ok L hd v -> v_inodes v !! p = Some i -> same_kind i j -> i_refcount j = i_refcount i ->
  vfs_ok L hd (v <| v_inodes := <[p := j]> (v_inodes v) |>).
Proof.
  intros Hok Hp Hs Hrc. pose proof Hs as (_ & _ & Hpv & _). eapply vfs_ok_put_gen; try done.
  destruct (vo_inode _ _ _ Hok _ _ Hp) as [_ ?]. by eapply inode_ok_same.
Qed.

Lemma wp_inode_at v p i Q : v_inodes v !! p = Some i -> Q i v -> wp (inode_at p) v Q.
Proof. intros Hp HQ. unfold inode_at. by eapply wp_deref. Qed.

Lemma wp_upd_inode v p i g Q :
  v_inodes v !! p = Some i -> Q tt (v <| v_inodes := <[p := g i]> (v_inodes v) |>) -> wp (upd_inode p g) v Q.
Proof. intros Hp HQ. unfold upd_inode. wp_step. by eapply wp_inode_at. Qed.

Lemma wp_dir_at v p i a ch n Q :
  v_inodes v !! p = Some i -> i_priv i = PDir a ch n -> Q (a, ch, n) v -> wp (dir_at p) v Q.
Proof. intros Hp Hpv HQ. unfold dir_at. eapply wp_deref; [|exact HQ]. rewrite Hp. simpl. unfold dir_of. by rewrite Hpv. Qed.

(** Changes of the fields that carry no structure. *)
Definition touched (v v' : vfs H) (p : Z) : Prop :=
  exists i j, v_inodes v !! p = Some i /\ same_kind i j /\ i_refcount j = i_refcount i /\
    i_mountpoint j = i_mountpoint i /\ v' = v <| v_inodes := <[p := j]> (v_inodes v) |>.

Lemma touched_ok L hd v v' p : vfs_ok L hd v -> touched v v' p -> vfs_ok L hd v'.
Proof. intros Hok (i & j & Hp & Hs & Hr & _ & ->). by eapply vfs_ok_put. Qed.

Lemma upd_meta_spec v p i g :
  v_inodes v !! p = Some i -> same_kind i (g i) -> i_refcount (g i) = i_refcount i ->
  i_mountpoint (g i) = i_mountpoint i ->
  wp (upd_inode p g) v (fun _ v' => touched v v' p).
Proof. intros Hp Hs Hr Hm. eapply wp_upd_inode; [done|]. exists i, (g i). done. Qed.

Lemma touch_m_spec v p i : v_inodes v !! p = Some i -> wp (inode_touch_m p) v (fun _ v' => touched v v' p).
Proof. intros Hp. unfold inode_touch_m, now. do 2 wp_step. by eapply upd_meta_spec. Qed.
Lemma touch_a_spec v p i : v_inodes v !! p = Some i -> wp (inode_touch_a p) v (fun _ v' => touched v v' p).
Proof. intros Hp. unfold inode_touch_a, now. do 2 wp_step. by eapply upd_meta_spec. Qed.

(** ** Allocation *)

Lemma owns_loose L hd v a : vfs_ok L hd v -> a ∉ L -> owns v a = 0.
Proof.
  intros Hok Ha. pose proof (vo_addr _ _ _ Hok a). rewrite (live01_out _ _ Ha) in *. pose proof (owns_nonneg v a). lia.
Qed.

Lemma vfs_ok_heap L L' hd v h' :
  vfs_ok L hd v -> heap_live h' L' -> (forall a, owns v a <= live01 L' a) ->
  vfs_ok L' hd (v <| v_heap := h' |>).
Proof. intros [] Hh Ha. by constructor. Qed.

Lemma alloc_spec L hd v n :
  vfs_ok L hd v -> 0 < n < 2 ^ 32 ->
  wp (alloc n) v (fun p v' => exists h', v' = v <| v_heap := h' |> /\
    ((p = 0 /\ vfs_ok L hd v') \/
     (p <> 0 /\ (p ∉ L) /\ owns v p = 0 /\ vfs_ok ({[ p ]} ∪ L) hd v'))).
Proof.
  intros Hok Hn. unfold alloc. wp_step.
  eapply wp_mono; [apply (kmalloc_law _ L); [apply Hok|done]|].
  intros p h' [[-> Hl]|(Hp & HpL & Hl)]; exists h'; (split; [done|]).
  - left. split; [done|]. eapply vfs_ok_heap; [done..|]. apply Hok.
  - right. split_and!; [done|done|by eapply owns_loose|]. eapply vfs_ok_heap; [done..|].
    intros a. pose proof (vo_addr _ _ _ Hok a). rewrite live01_add.
    destruct (Z.eqb_spec p a) as [<-|]; [rewrite (live01_out _ _ HpL) in *|]; lia.
Qed.

Lemma free_spec L hd v a :
  vfs_ok L hd v -> a ∈ L -> owns v a = 0 ->
  wp (free a) v (fun _ v' => exists h', v' = v <| v_heap := h' |> /\ vfs_ok (L ∖ {[a]}) hd v').
Proof.
  intros Hok Ha Ho. unfold free. wp_step. eapply wp_mono; [apply (kfree_law _ L); [apply Hok|done]|].
  intros ? h' Hl. exists h'. split; [done|]. eapply vfs_ok_heap; [done..|].
  intros b. pose proof (vo_addr _ _ _ Hok b). rewrite live01_del. destruct (Z.eqb_spec a b) as [<-|]; lia.
Qed.

(** Freeing addresses, whatever they hold. *)
Lemma free_raw L v a :
  heap_live (v_heap v) L -> a ∈ L ->
  wp (free a) v (fun _ v' => exists h', v' = v <| v_heap := h' |> /\ heap_live h' (L ∖ {[a]})).
Proof.
  intros Hl Ha. unfold free. wp_step. eapply wp_mono; [by apply (kfree_law _ L)|]. by eauto.
Qed.

Lemma free_all (l : list dentry) : forall L v,
  heap_live (v_heap v) L -> NoDup (d_addr <$> l) -> (forall e, e ∈ l -> d_addr e ∈ L) ->
  wp (for_each (fun e => free (d_addr e)) l) v
    (fun _ v' => exists h', v' = v <| v_heap := h' |> /\ heap_live h' (L ∖ list_to_set (d_addr <$> l))).
Proof.
  induction l as [|e l IH]; intros L v Hl Hnd Hin; cbn [for_each].
  - wp_step. exists (v_heap v). split; [by destruct v|]. by replace (L ∖ _) with L by set_solver.
  - wp_step. cbn [fmap list_fmap] in Hnd. apply list.NoDup_cons in Hnd as [Hne Hnd].
    eapply wp_mono; [apply (free_raw L); [done|apply Hin; by left]|].
    intros ? v1 (h1 & -> & Hl1). eapply wp_mono.
    { apply (IH (L ∖ {[d_addr e]})); [done|done|]. intros x Hx. apply elem_of_difference. split; [apply Hin; by right|].
      intros Hx'%elem_of_singleton. apply Hne. rewrite <- Hx'. by apply list_elem_of_fmap_2. }
    intros ? v2 (h2 & -> & Hl2). exists h2. split; [done|].
    by replace (L ∖ _) with (L ∖ {[d_addr e]} ∖ list_to_set (d_addr <$> l)) by (cbn [fmap list_fmap]; set_solver).
Qed.

Lemma modes_apart (m : Z) : (S_ISDIR m = true -> S_ISREG m = false /\ S_ISLNK m = false) /\
  (S_ISLNK m = true -> S_ISREG m = false).
Proof.
  unfold S_ISDIR, S_ISREG, S_ISLNK. split; intros E%Z.eqb_eq; rewrite E; done.
Qed.

Lemma destroy_spec L v p i :
  heap_live (v_heap v) L -> v_inodes v !! p = Some i -> kind_ok i ->
  NoDup (priv_addrs (i_priv i)) -> (forall a, a ∈ priv_addrs (i_priv i) -> a ∈ L) ->
  wp (match i_ops i with
      | Some o => match op_destroy o with Some f => f p | None => ret tt end
      | None => ret tt end) v
    (fun _ v' => exists h', v' = v <| v_heap := h' |> /\ heap_live h' (L ∖ list_to_set (priv_addrs (i_priv i)))).
Proof.
  intros Hl Hp Hk Hnd Hin. unfold kind_ok in Hk. destruct (i_ops i) as [o|] eqn:Eo; [|done].
  assert (Hnone : i_priv i = PNull -> wp (ret tt) v
    (fun _ v' => exists h', v' = v <| v_heap := h' |> /\ heap_live h' (L ∖ list_to_set (priv_addrs (i_priv i))))).
  { intros E. wp_step. exists (v_heap v). rewrite E. split; [by destruct v|]. simpl. by replace (L ∖ ∅) with L by set_solver. }
  destruct o; cbn [op_destroy]; try (by apply Hnone; destruct Hk as (_ & _ & ?)).
  - unfold ramfs_destroy_file. wp_step. eapply wp_inode_at; [done|].
    destruct Hk as [(Hm & a & data & bytes & sz & cap & Epv & _)|(Hm & a & t & Epv & _)]; rewrite Epv in *; rewrite Hm.
    + cbn [priv_addrs] in *. wp_step. destruct (Z.eqb_spec data 0) as [->|Hd].
      * wp_step. eapply wp_mono; [apply (free_raw L); [done|apply Hin; by left]|].
        intros ? v1 (h1 & -> & Hl1). exists h1. split; [done|]. by replace (L ∖ _) with (L ∖ {[a]}) by set_solver.
      * apply list.NoDup_cons in Hnd as [Hne _].
        eapply wp_mono; [apply (free_raw L); [done|apply Hin; right; by left]|]. intros ? v1 (h1 & -> & Hl1).
        eapply wp_mono; [apply (free_raw (L ∖ {[data]})); [done|]|].
        { apply elem_of_difference. split; [apply Hin; by left|]. set_solver. }
        intros ? v2 (h2 & -> & Hl2). exists h2. split; [done|].
        by replace (L ∖ _) with (L ∖ {[data]} ∖ {[a]}) by set_solver.
    + rewrite (proj2 (modes_apart _) Hm). eapply wp_mono; [apply (free_raw L); [done|apply Hin; by left]|].
      intros ? v1 (h1 & -> & Hl1). exists h1. split; [done|]. cbn [priv_addrs]. by replace (L ∖ _) with (L ∖ {[a]}) by set_solver.
  - unfold ramfs_destroy_file. wp_step. eapply wp_inode_at; [done|].
    destruct Hk as (Hm & a & ch & n & Epv). rewrite Epv in *. destruct (proj1 (modes_apart _) Hm) as [-> ->]. rewrite Hm.
    cbn [priv_addrs] in *. apply list.NoDup_cons in Hnd as [Hne Hnd]. wp_step.
    eapply wp_mono; [apply (free_all ch L); [done|done|]|].
    { intros e He. apply Hin. right. by apply list_elem_of_fmap_2. }
    intros ? v1 (h1 & -> & Hl1). eapply wp_mono.
    { apply (free_raw (L ∖ list_to_set (d_addr <$> ch))); [done|]. apply elem_of_difference.
      split; [apply Hin; by left|]. by rewrite elem_of_list_to_set. }
    intros ? v2 (h2 & -> & Hl2). exists h2. split; [done|].
    by replace (L ∖ _) with (L ∖ list_to_set (d_addr <$> ch) ∖ {[a]}) by set_solver.
Qed.

(** ** References *)

Definition ref_up (i : inode) : inode := i <| i_refcount := i_refcount i + 1 |>.
Definition ref_down (i : inode) : inode := i <| i_refcount := i_refcount i - 1 |>.

Lemma held_add_eq hd p : held_add hd p p = hd p + 1.
Proof. unfold held_add. by rewrite Z.eqb_refl. Qed.
Lemma held_add_ne hd p q : p <> q -> held_add hd p q = hd q.
Proof. intros Hne. unfold held_add. rewrite (proj2 (Z.eqb_neq p q)) by done. lia. Qed.

(** A change of the reference count of [p] by [c] and of the references held. *)
Lemma vfs_ok_count L hd hd' v p i (c : Z) :
  vfs_ok L hd v -> v_inodes v !! p = Some i -> (forall q, 0 <= hd' q) ->
  (forall q, q <> p -> hd' q = hd q) -> hd' p = hd p + c ->
  vfs_ok L hd' (v <| v_inodes := <[p := i <| i_refcount := i_refcount i + c |>]> (v_inodes v) |>).
Proof.
  intros Hok Hp Hpos Hne Heq. set (j := i <| i_refcount := i_refcount i + c |>).
  change (vfs_ok L hd' (at_ (v_heap v) (<[p := j]> (v_inodes v)) v)).
  eapply vfs_ok_step; [done|apply Hok|..].
  - intros a. unfold o_of. rewrite (isum_update _ _ _ _ _ Hp). change (objs p j) with (objs p i).
    pose proof (vo_addr _ _ _ Hok a). lia.
  - intros q k. destruct (decide (q = p)) as [->|Hqp].
    + rewrite lookup_insert_eq. intros Hk. apply (inj Some) in Hk as <-.
      destruct (vo_inode _ _ _ Hok _ _ Hp) as [? ?]. split; [done|]. by apply (inode_ok_same i).
    + rewrite lookup_insert_ne by done. apply (vo_inode _ _ _ Hok).
  - intros q Hq. unfold r_of. rewrite (isum_update _ _ _ _ _ Hp). change (i_refs j) with (i_refs i).
    pose proof (vo_refs _ _ _ Hok q Hq) as Hr. unfold rcm, rc in *.
    destruct (decide (q = p)) as [->|Hqp].
    + rewrite lookup_insert_eq. rewrite Hp in Hr. change (i_refcount j) with (i_refcount i + c). lia.
    + rewrite lookup_insert_ne by done. rewrite Hne by done. lia.
  - done.
Qed.

Lemma inode_ref_spec L hd v p i :
  vfs_ok L hd v -> v_inodes v !! p = Some i ->
  wp (inode_ref p) v (fun _ v' =>
    v' = v <| v_inodes := <[p := ref_up i]> (v_inodes v) |> /\ vfs_ok L (held_add hd p) v').
Proof.
  intros Hok Hp. unfold inode_ref. destruct (vo_inode _ _ _ Hok _ _ Hp) as [Hp0 _].
  rewrite (proj2 (Z.eqb_neq p 0)) by done. eapply wp_upd_inode; [done|]. split; [done|].
  eapply vfs_ok_count; [done|done| | |].
  - intros q. pose proof (vo_held _ _ _ Hok q). unfold held_add. destruct (p =? q); lia.
  - intros q Hne. by apply held_add_ne.
  - apply held_add_eq.
Qed.

(** What releasing [p] does to the inodes. *)
Inductive released (p : Z) (i : inode) (m : gmap Z inode) : gmap Z inode -> Prop :=
| released_kept : 1 < i_refcount i -> released p i m (<[p := ref_down i]> m)
| released_gone : i_refcount i = 1 -> released p i m (delete p m).

Lemma inode_unref_spec L hd v p :
  vfs_ok L (held_add hd p) v -> p <> 0 -> 0 <= hd p ->
  wp (inode_unref p) v (fun _ v' => exists i L' h' m',
    v_inodes v !! p = Some i /\ released p i (v_inodes v) m' /\ v' = at_ h' m' v /\ vfs_ok L' hd v' /\
    (forall a, a ∈ L -> owns v a = 0 -> a ∈ L')).
Proof.
  intros Hok Hp0 Hh.
  destruct (held_live _ _ _ p Hok Hp0) as [i Hp]; [rewrite held_add_eq; lia|].
  assert (Hpos : forall q, 0 <= hd q).
  { intros q. destruct (decide (p = q)) as [<-|Hne]; [done|]. rewrite <- (held_add_ne hd p q Hne). apply Hok. }
  pose proof (vo_refs _ _ _ Hok p Hp0) as Hr. rewrite held_add_eq in Hr. unfold rc in Hr. rewrite Hp in Hr.
  pose proof (refs_nonneg v p) as Hrn.
  unfold inode_unref. rewrite (proj2 (Z.eqb_neq p 0)) by done. wp_step. eapply wp_upd_inode; [done|].
  fold (ref_down i). set (v1 := v <| v_inodes := <[p := ref_down i]> (v_inodes v) |>).
  assert (Hp1 : v_inodes v1 !! p = Some (ref_down i)) by apply lookup_insert_eq.
  wp_step. eapply wp_inode_at; [done|]. change (i_refcount (ref_down i)) with (i_refcount i - 1).
  destruct (Z.leb_spec (i_refcount i - 1) 0) as [Hz|Hnz].
  - destruct (vo_inode _ _ _ Hok _ _ Hp) as [_ Hi]. pose proof (objs_NoDup _ _ _ _ _ Hok Hp) as Hnd.
    unfold objs in Hnd. apply list.NoDup_cons in Hnd as [Hpn Hnd].
    change (i_ops (ref_down i)) with (i_ops i). wp_step. eapply wp_mono.
    { apply (destroy_spec L v1 p (ref_down i)); [apply Hok|done| |done|].
      - by apply io_kind, (inode_ok_same i).
      - intros a Ha. eapply owned_in; [done|done|]. by right. }
    intros u2 v2 (h2 & -> & Hl2). change (i_priv (ref_down i)) with (i_priv i) in Hl2. wp_step.
    eapply wp_mono.
    { apply (free_raw (L ∖ list_to_set (priv_addrs (i_priv i)))); [done|]. apply elem_of_difference.
      split; [eapply owned_in; [done|done|]; by left|]. by rewrite elem_of_list_to_set. }
    intros u3 v3 (h3 & -> & Hl3). wp_step.
    exists i, (L ∖ list_to_set (priv_addrs (i_priv i)) ∖ {[p]}), h3, (delete p (v_inodes v)).
    split_and!; [done|constructor; lia| | |].
    + unfold v1, at_. simpl. by rewrite delete_insert_eq.
    + change (vfs_ok (L ∖ list_to_set (priv_addrs (i_priv i)) ∖ {[p]}) hd
        (at_ h3 (delete p (<[p := ref_down i]> (v_inodes v))) v)).
      rewrite delete_insert_eq. eapply vfs_ok_step; [done|done|..].
      * intros a. unfold o_of. rewrite (isum_delete _ _ _ _ Hp). pose proof (vo_addr _ _ _ Hok a).
        pose proof (owns_ge _ _ _ a Hp). pose proof (live01_range L a). destruct (decide (a ∈ objs p i)) as [Hin|Hout].
        -- pose proof (live01_range (L ∖ list_to_set (priv_addrs (i_priv i)) ∖ {[p]}) a). apply cnt_elem in Hin. lia.
        -- rewrite (cnt_nil _ _ Hout). unfold objs in Hout. rewrite not_elem_of_cons in Hout.
           replace (live01 (L ∖ list_to_set (priv_addrs (i_priv i)) ∖ {[p]}) a) with (live01 L a); [lia|].
           apply live01_ext. set_solver.
      * intros q k Hk. apply lookup_delete_Some in Hk as [_ Hk]. by apply (vo_inode _ _ _ Hok).
      * intros q Hq. unfold r_of. rewrite (isum_delete _ _ _ _ Hp). pose proof (vo_refs _ _ _ Hok q Hq) as Hrq.
        pose proof (cnt_nonneg q (i_refs i)). unfold rcm, rc in *. destruct (decide (p = q)) as [<-|Hne].
        -- rewrite lookup_delete_eq. lia.
        -- rewrite lookup_delete_ne by done. rewrite (held_add_ne _ _ _ Hne) in Hrq. lia.
      * done.
    + intros a HaL Ho. pose proof (owns_ge _ _ _ a Hp). destruct (decide (a ∈ objs p i)) as [Hin|Hout].
      * apply cnt_elem in Hin. lia.
      * unfold objs in Hout. rewrite not_elem_of_cons in Hout. set_solver.
  - wp_step. exists i, L, (v_heap v), (<[p := ref_down i]> (v_inodes v)).
    split_and!; [done|constructor; lia|by destruct v| |done].
    eapply (vfs_ok_count _ _ _ _ _ _ (-1)); [done|done|done| |].
    + intros q Hne. by rewrite held_add_ne.
    + rewrite held_add_eq. lia.
Qed.
End Refs.
