(* ===== verification/VfsDir.v ===== *)
(** * The virtual filesystem: directory operations keep the invariant

    Each operation of the ramfs directory driver, run on a directory that its
    caller holds, does not fault, keeps the invariant and changes the entries of
    the directory as its name says. *)

From S2P Require Import Prelude Cstring Alloc Vfs VfsSynth VfsPath VfsApi VfsInv VfsRefs.

Section Dir.
Context {H : Type} `{!Allocator H} `{!AllocatorLaws H}.
Implicit Types (v : vfs H) (L : gset Z) (hd : Z -> Z) (m : gmap Z inode).

(** ** Frames *)

(** Everything but the heap, the inodes, the inode counter and [errno]. *)
Record frame v v' : Prop := {
  fr_fds : v_fds v' = v_fds v;
  fr_mounts : v_mounts v' = v_mounts v;
  fr_nmounts : v_nmounts v' = v_nmounts v;
  fr_root : v_root v' = v_root v;
  fr_uid : v_uid v' = v_uid v;
  fr_gid : v_gid v' = v_gid v;
  fr_handles : v_handles v' = v_handles v;
  fr_ticks : v_ticks v' = v_ticks v }.

#[export] Instance frame_preorder : PreOrder frame.
Proof. split; [by intros v|]. intros v1 v2 v3 [] []. by split; etrans. Qed.

Lemma vfs_ok_ext L hd v v' :
  vfs_ok L hd v -> v_heap v' = v_heap v -> v_inodes v' = v_inodes v -> v_handles v' = v_handles v ->
  v_fds v' = v_fds v -> vfs_ok L hd v'.
Proof.
  intros [] Eh Ei Ed Ef. constructor; unfold owns, refs, rc in *; rewrite ?Eh, ?Ei, ?Ed, ?Ef; done.
Qed.

Lemma touched_frame v v' p : touched v v' p -> frame v v'.
Proof. by intros (i & j & _ & _ & _ & _ & ->). Qed.

(** ** Entries *)

Definition entry_of (e : dentry) : cstr * Z := (d_name e, d_inode e).
Definition entries m (d : Z) : list (cstr * Z) :=
  match m !! d with Some i => entry_of <$> children i | None => [] end.

(** The inodes agree but for fields that carry no structure. *)
Definition same_entries m m' : Prop := forall q, entries m' q = entries m q.

Lemma dentry_find_None ch name : dentry_find ch name = None <-> name ∉ d_name <$> ch.
Proof.
  unfold dentry_find. split.
  - intros Hf Hin. apply list_elem_of_fmap in Hin as (e & -> & He).
    pose proof (find_none _ _ Hf e (proj1 (list_elem_of_In _ _) He)) as Hb. by apply bool_decide_eq_false in Hb.
  - intros Hn. destruct (List.find _ ch) as [e|] eqn:E; [|done]. apply find_some in E as [Hin Hb].
    apply bool_decide_eq_true in Hb as <-. exfalso. apply Hn. by apply list_elem_of_fmap_2, list_elem_of_In.
Qed.

Lemma dentry_find_Some ch name e : dentry_find ch name = Some e -> e ∈ ch /\ d_name e = name.
Proof. intros [Hin Hb]%find_some. apply bool_decide_eq_true in Hb. by rewrite list_elem_of_In. Qed.

Lemma drop_name_split ch name e :
  dentry_find ch name = Some e -> exists l1 l2, ch = l1 ++ e :: l2 /\ drop_name ch name = l1 ++ l2 /\
    name ∉ d_name <$> l1.
Proof.
  unfold dentry_find. induction ch as [|x ch IH]; [done|]. simpl. case_bool_decide as Hx.
  - intros [= ->]. exists [], ch. split_and!; [done|done|]. simpl. set_solver.
  - intros (l1 & l2 & -> & -> & Hn)%IH. exists (x :: l1), l2. split_and!; [done|done|]. simpl. set_solver.
Qed.

Definition add_entry (e : dentry) (i : inode) : inode :=
  match i_priv i with PDir a ch n => i <| i_priv := PDir a (e :: ch) (u32 (n + 1)) |> | _ => i end.
Definition rem_entry (name : cstr) (i : inode) : inode :=
  match i_priv i with PDir a ch n => i <| i_priv := PDir a (drop_name ch name) n |> | _ => i end.
Definition dec_count (i : inode) : inode :=
  match i_priv i with PDir a ch n => i <| i_priv := PDir a ch (u32 (n - 1)) |> | _ => i end.

Lemma alter_some m p i f : m !! p = Some i -> alter f p m = <[p := f i]> m.
Proof.
  intros Hp. apply map_eq. intros q. destruct (decide (p = q)) as [<-|Hne].
  - by rewrite lookup_alter_eq, lookup_insert_eq, Hp.
  - by rewrite lookup_alter_ne, lookup_insert_ne.
Qed.

Lemma alter_lookup m p q f : alter f p m !! q = if decide (p = q) then f <$> m !! q else m !! q.
Proof. case_decide; [subst; apply lookup_alter_eq|by apply lookup_alter_ne]. Qed.

(** A directory. *)
Definition is_dir m (d : Z) (a : Z) (ch : list dentry) (n : Z) : Prop :=
  exists i, m !! d = Some i /\ i_priv i = PDir a ch n.

Lemma is_dir_ops L hd v d a ch n i :
  vfs_ok L hd v -> v_inodes v !! d = Some i -> i_priv i = PDir a ch n -> i_ops i = Some ramfs_dir_ops /\ S_ISDIR (i_mode i) = true.
Proof.
  intros Hok Hd Hpv. destruct (vo_inode _ _ _ Hok _ _ Hd) as [_ [Hk _]]. unfold kind_ok in Hk. rewrite Hpv in Hk.
  destruct (i_ops i) as [[]|]; try done;
    try (by destruct Hk as (_ & _ & ?)); try (by destruct Hk as [? _]).
  destruct Hk as [(_ & ? & ? & ? & ? & ? & ? & _)|(_ & ? & ? & ? & _)]; done.
Qed.

(** Replacing the private data of a directory. *)
Lemma inode_ok_dir i a ch n a' ch' n' :
  inode_ok i -> i_priv i = PDir a ch n -> NoDup (d_name <$> ch') ->
  Forall (fun e => d_inode e <> 0) ch' -> Forall (fun e => zlen (d_name e) <= VFS_NAME_MAX) ch' ->
  inode_ok (i <| i_priv := PDir a' ch' n' |>).
Proof.
  intros [Hk _] Hpv Hn Ht Hs. split; [|by split].
  unfold kind_ok in *. rewrite Hpv in Hk. simpl.
  destruct (i_ops i) as [[]|]; try done; try (by destruct Hk as (_ & _ & ?)).
  - destruct Hk as [(_ & ? & ? & ? & ? & ? & ? & _)|(_ & ? & ? & ? & _)]; done.
  - destruct Hk as [? _]. by eauto 10.
Qed.

Lemma vfs_ok_add L hd v d i a ch n e :
  vfs_ok L (held_add hd (d_inode e)) v -> v_inodes v !! d = Some i -> i_priv i = PDir a ch n ->
  d_inode e <> 0 -> (forall q, 0 <= hd q) -> owns v (d_addr e) = 0 -> d_addr e ∈ L ->
  d_name e ∉ d_name <$> ch -> zlen (d_name e) <= VFS_NAME_MAX ->
  vfs_ok L hd (v <| v_inodes := <[d := add_entry e i]> (v_inodes v) |>).
Proof.
  intros Hok Hd Hpv He0 Hpos Hown HeL Hname Hlen.
  change (vfs_ok L hd (at_ (v_heap v) (<[d := add_entry e i]> (v_inodes v)) v)).
  destruct (vo_inode _ _ _ Hok _ _ Hd) as [Hd0 Hi]. unfold add_entry. rewrite Hpv.
  set (j := i <| i_priv := PDir a (e :: ch) (u32 (n + 1)) |>).
  eapply vfs_ok_step; [done|apply Hok|..].
  - intros x. unfold o_of. rewrite (isum_update _ _ _ _ _ Hd).
    assert (E : cnt x (objs d j) = (if d_addr e =? x then 1 else 0) + cnt x (objs d i)).
    { unfold objs. change (i_priv j) with (PDir a (e :: ch) (u32 (n + 1))). rewrite Hpv. cbn [priv_addrs fmap list_fmap cnt]. lia. }
    rewrite E. clear E. pose proof (vo_addr _ _ _ Hok x). destruct (Z.eqb_spec (d_addr e) x) as [Ex|]; [|lia].
    rewrite <- Ex in *. rewrite Hown, (live01_in _ _ HeL). lia.
  - intros q k. destruct (decide (q = d)) as [->|Hne].
    + rewrite lookup_insert_eq. intros Hk. apply (inj Some) in Hk as <-. split; [done|].
      destruct Hi as [Hk [Hn Ht Hs]]. unfold names, children in *. rewrite Hpv in *.
      eapply inode_ok_dir; [split; [exact Hk|split; unfold names, children; rewrite Hpv; done]|exact Hpv| | |].
      * cbn [fmap list_fmap]. by apply list.NoDup_cons.
      * by constructor.
      * by constructor.
    + rewrite lookup_insert_ne by done. apply (vo_inode _ _ _ Hok).
  - intros q Hq. unfold r_of. rewrite (isum_update _ _ _ _ _ Hd).
    assert (E : cnt q (i_refs j) = (if d_inode e =? q then 1 else 0) + cnt q (i_refs i)).
    { unfold i_refs, children. change (i_priv j) with (PDir a (e :: ch) (u32 (n + 1))). rewrite Hpv. cbn [fmap list_fmap cnt]. lia. }
    rewrite E. pose proof (vo_refs _ _ _ Hok q Hq) as Hr. unfold held_add, rcm, rc in *.
    destruct (decide (q = d)) as [->|Hne].
    + rewrite lookup_insert_eq. rewrite Hd in Hr. change (i_refcount j) with (i_refcount i). lia.
    + rewrite lookup_insert_ne by done. lia.
  - done.
Qed.

Lemma vfs_ok_rem L hd v d i a ch n e name :
  vfs_ok L hd v -> v_inodes v !! d = Some i -> i_priv i = PDir a ch n -> dentry_find ch name = Some e ->
  vfs_ok L (held_add hd (d_inode e)) (v <| v_inodes := <[d := rem_entry name i]> (v_inodes v) |>) /\
  owns (v <| v_inodes := <[d := rem_entry name i]> (v_inodes v) |>) (d_addr e) = 0 /\ d_addr e ∈ L.
Proof.
  intros Hok Hd Hpv Hf. destruct (drop_name_split _ _ _ Hf) as (l1 & l2 & Hch & Hdrop & _).
  destruct (vo_inode _ _ _ Hok _ _ Hd) as [Hd0 Hi]. unfold rem_entry. rewrite Hpv.
  set (j := i <| i_priv := PDir a (drop_name ch name) n |>).
  assert (Eo : forall x, cnt x (objs d i) = (if d_addr e =? x then 1 else 0) + cnt x (objs d j)).
  { intros x. unfold objs. change (i_priv j) with (PDir a (drop_name ch name) n). rewrite Hpv, Hdrop, Hch.
    cbn [priv_addrs cnt]. rewrite !fmap_app, !cnt_app. cbn [fmap list_fmap cnt]. lia. }
  assert (Er : forall x, cnt x (i_refs i) = (if d_inode e =? x then 1 else 0) + cnt x (i_refs j)).
  { intros x. unfold i_refs, children. change (i_priv j) with (PDir a (drop_name ch name) n).
    rewrite Hpv, Hdrop, Hch, !fmap_app, !cnt_app. cbn [fmap list_fmap cnt]. lia. }
  assert (HeL : d_addr e ∈ L).
  { eapply owned_in; [done|done|]. apply cnt_elem. rewrite Eo, Z.eqb_refl. pose proof (cnt_nonneg (d_addr e) (objs d j)). lia. }
  change (vfs_ok L (held_add hd (d_inode e)) (at_ (v_heap v) (<[d := j]> (v_inodes v)) v) /\
    owns (at_ (v_heap v) (<[d := j]> (v_inodes v)) v) (d_addr e) = 0 /\ d_addr e ∈ L).
  split_and!; [|..|done].
  - eapply vfs_ok_step; [done|apply Hok|..].
    + intros x. unfold o_of. rewrite (isum_update _ _ _ _ _ Hd), (Eo x). pose proof (vo_addr _ _ _ Hok x).
      destruct (d_addr e =? x); lia.
    + intros q k. destruct (decide (q = d)) as [->|Hne].
      * rewrite lookup_insert_eq. intros Hk. apply (inj Some) in Hk as <-. split; [done|].
        pose proof Hi as [_ [Hn Ht Hs]]. unfold names, children in *. rewrite Hpv in *. unfold j.
        rewrite Hdrop. rewrite Hch in Hn, Ht, Hs. rewrite fmap_app in Hn. cbn [fmap list_fmap] in Hn.
        apply list.NoDup_app in Hn as (Hn1 & Hn2 & Hn3). apply list.NoDup_cons in Hn3 as [Hn3 Hn4].
        apply Forall_app in Ht as [Ht1 Ht2]. apply list.Forall_cons in Ht2 as [_ Ht2].
        apply Forall_app in Hs as [Hs1 Hs2]. apply list.Forall_cons in Hs2 as [_ Hs2].
        eapply inode_ok_dir; [exact Hi|exact Hpv| |by apply Forall_app|by apply Forall_app].
        rewrite fmap_app. apply list.NoDup_app. split_and!; [done| |done]. intros x Hx Hx2. apply (Hn2 x Hx). by right.
      * rewrite lookup_insert_ne by done. apply (vo_inode _ _ _ Hok).
    + intros q Hq. unfold r_of. rewrite (isum_update _ _ _ _ _ Hd), (Er q).
      pose proof (vo_refs _ _ _ Hok q Hq) as Hr. unfold held_add, rcm, rc in *.
      destruct (decide (q = d)) as [->|Hne].
      * rewrite lookup_insert_eq. rewrite Hd in Hr. change (i_refcount j) with (i_refcount i). lia.
      * rewrite lookup_insert_ne by done. lia.
    + intros q. pose proof (vo_held _ _ _ Hok q). unfold held_add. destruct (d_inode e =? q); lia.
  - rewrite owns_at. pose proof (vo_addr _ _ _ Hok (d_addr e)) as Ha. rewrite owns_eq in Ha. unfold o_of in *.
    rewrite (isum_update _ _ _ _ _ Hd), (Eo (d_addr e)), Z.eqb_refl. rewrite (live01_in _ _ HeL) in Ha.
    pose proof (owns_nonneg (at_ (v_heap v) (<[d := j]> (v_inodes v)) v) (d_addr e)) as Hn. rewrite owns_at in Hn.
    unfold o_of in Hn. rewrite (isum_update _ _ _ _ _ Hd), (Eo (d_addr e)), Z.eqb_refl in Hn. lia.
Qed.

(** ** Adding and removing entries *)

Lemma wp_guard_fits (s : cstr) n v Q : zlen s < n -> Q tt v -> wp (guard (fits_in s n)) v Q.
Proof. intros Hs HQ. apply wp_guard; [|done]. unfold fits_in. by apply Z.ltb_lt. Qed.

Lemma dentry_add_spec L hd v d i a ch n name ino ii :
  vfs_ok L hd v -> v_inodes v !! d = Some i -> i_priv i = PDir a ch n -> v_inodes v !! ino = Some ii ->
  zlen name <= VFS_NAME_MAX ->
  wp (dentry_add d name ino) v (fun r v' => frame v v' /\
    ((r = - EEXIST /\ name ∈ d_name <$> ch /\ v' = v) \/
     (r = - ENOSPC /\ (name ∉ d_name <$> ch) /\ v_inodes v' = v_inodes v /\ vfs_ok L hd v') \/
     (r = 0 /\ (name ∉ d_name <$> ch) /\ exists e, (e ∉ L) /\ vfs_ok ({[e]} ∪ L) hd v' /\
        v_inodes v' = alter (add_entry (mk_dentry e name ino)) d (alter ref_up ino (v_inodes v))))).
Proof.
  intros Hok Hd Hpv Hino Hlen. unfold dentry_add. wp_step. eapply wp_dir_at; [done|done|]. cbn [fst snd].
  destruct (dentry_find ch name) as [e0|] eqn:Hf.
  { wp_step. split; [reflexivity|]. left. split_and!; [done| |done].
    apply dentry_find_Some in Hf as [Hin <-]. by apply list_elem_of_fmap_2. }
  apply dentry_find_None in Hf. wp_step. eapply wp_mono; [apply (alloc_spec L hd); [done|by vm_compute]|].
  intros e v1 (h1 & -> & [[-> Hok1]|(He0 & HeL & Hown & Hok1)]).
  { rewrite Z.eqb_refl. wp_step. split; [done|]. right. left. done. }
  rewrite (proj2 (Z.eqb_neq e 0)) by done. wp_step. apply wp_guard_fits; [unfold VFS_NAME_MAX in *; lia|].
  wp_step. eapply wp_mono; [apply (inode_ref_spec ({[e]} ∪ L) hd _ ino ii); [done|done]|].
  intros ? v2 [-> Hok2]. set (m1 := <[ino := ref_up ii]> (v_inodes v)).
  set (v2 := (v <| v_heap := h1 |>) <| v_inodes := _ |>) in *.
  assert (Hd2 : exists i2, m1 !! d = Some i2 /\ i_priv i2 = PDir a ch n).
  { unfold m1. destruct (decide (ino = d)) as [->|Hne].
    - rewrite lookup_insert_eq. rewrite Hd in Hino. apply (inj Some) in Hino as ->. by exists (ref_up ii).
    - rewrite lookup_insert_ne by done. by exists i. }
  destruct Hd2 as (i2 & Hd2 & Hpv2). wp_step. eapply (wp_dir_at v2); [exact Hd2|done|]. wp_step.
  eapply (wp_upd_inode v2); [exact Hd2|]. wp_step. split; [done|]. right. right. split_and!; [done|done|].
  destruct (vo_inode _ _ _ Hok _ _ Hino) as [Hino0 _].
  exists e. split_and!; [done| |].
  - pose proof (vfs_ok_add ({[e]} ∪ L) hd v2 d i2 a ch n (mk_dentry e name ino)) as Hadd.
    unfold add_entry in Hadd. rewrite Hpv2 in Hadd. apply Hadd; try done.
    + apply Hok.
    + unfold v2. change (owns (at_ h1 m1 v) e = 0). rewrite owns_at. rewrite owns_eq in Hown.
      unfold o_of, m1 in *. rewrite (isum_update _ _ _ _ _ Hino). change (objs ino (ref_up ii)) with (objs ino ii). lia.
    + set_solver.
  - rewrite (alter_some _ ino ii) by done. fold m1. rewrite (alter_some _ d i2) by done.
    unfold add_entry. rewrite Hpv2. done.
Qed.

Lemma released_lookup p i m m' q :
  m !! p = Some i -> released p i m m' -> q <> p -> m' !! q = m !! q.
Proof. intros Hp [] Hne; [by rewrite lookup_insert_ne|by rewrite lookup_delete_ne]. Qed.

Lemma released_self p i m m' j :
  released p i m m' -> m' !! p = Some j -> j = ref_down i.
Proof.
  intros [] Hj; [rewrite lookup_insert_eq in Hj; by apply (inj Some) in Hj|by rewrite lookup_delete_eq in Hj].
Qed.

(** What [dentry_remove] does to the inodes. *)
Definition removed (d : Z) (name : cstr) (t : Z) m m' : Prop :=
  exists ti m2, alter (rem_entry name) d m !! t = Some ti /\
    released t ti (alter (rem_entry name) d m) m2 /\ m' = alter dec_count d m2.

Lemma dentry_remove_spec L hd v d i a ch n name e :
  vfs_ok L hd v -> v_inodes v !! d = Some i -> i_priv i = PDir a ch n -> dentry_find ch name = Some e -> 1 <= hd d ->
  wp (dentry_remove d name) v (fun r v' => frame v v' /\ r = 0 /\
    removed d name (d_inode e) (v_inodes v) (v_inodes v') /\ exists L', vfs_ok L' hd v').
Proof.
  intros Hok Hd Hpv Hf Hhd. unfold dentry_remove. wp_step. eapply wp_dir_at; [done|done|]. rewrite Hf.
  destruct (vo_inode _ _ _ Hok _ _ Hd) as [Hd0 _].
  destruct (vfs_ok_rem _ _ _ _ _ _ _ _ _ _ Hok Hd Hpv Hf) as (Hok1 & Hown1 & HeL).
  destruct (child_live L hd v d i e Hok Hd) as [He0 _].
  { unfold children. rewrite Hpv. by apply dentry_find_Some in Hf as [? _]. }
  wp_step. eapply wp_upd_inode; [done|].
  assert (Er : i <| i_priv := PDir a (drop_name ch name) n |> = rem_entry name i) by (unfold rem_entry; by rewrite Hpv).
  cbv beta. rewrite Er. set (v1 := v <| v_inodes := <[d := rem_entry name i]> (v_inodes v) |>) in *.
  assert (Hm1 : v_inodes v1 = alter (rem_entry name) d (v_inodes v)) by (by rewrite (alter_some _ d i)).
  wp_step. eapply wp_mono; [apply (inode_unref_spec L hd); [exact Hok1|done|apply Hok]|].
  intros ? v2 (ti & L2 & h2 & m2 & Ht & Hrel & -> & Hok2 & Hloose). wp_step.
  assert (Hown2 : owns (at_ h2 m2 v1) (d_addr e) = 0).
  { pose proof (owns_nonneg (at_ h2 m2 v1) (d_addr e)). rewrite owns_at in *. rewrite owns_eq in Hown1.
    unfold o_of in *. destruct Hrel.
    - rewrite (isum_update _ _ _ _ _ Ht) in *. change (objs (d_inode e) (ref_down ti)) with (objs (d_inode e) ti) in *. lia.
    - rewrite (isum_delete _ _ _ _ Ht) in *. pose proof (cnt_nonneg (d_addr e) (objs (d_inode e) ti)). lia. }
  eapply wp_mono; [apply (free_spec L2 hd); [done|by apply Hloose|done]|].
  intros ? v3 (h3 & -> & Hok3). set (v3 := (at_ h2 m2 v1) <| v_heap := h3 |>) in *.
  destruct (held_live _ _ _ d Hok3 Hd0 Hhd) as [i3 Hd3]. change (m2 !! d = Some i3) in Hd3.
  assert (Hpv3 : i_priv i3 = PDir a (drop_name ch name) n).
  { destruct (decide (d = d_inode e)) as [Ede|Hne].
    - rewrite <- Ede in *. rewrite (released_self _ _ _ _ _ Hrel Hd3).
      unfold v1 in Ht. simpl in Ht. rewrite lookup_insert_eq in Ht. apply (inj Some) in Ht as <-. by rewrite <- Er.
    - rewrite (released_lookup _ _ _ _ _ Ht Hrel Hne) in Hd3. unfold v1 in Hd3. simpl in Hd3.
      rewrite lookup_insert_eq in Hd3. apply (inj Some) in Hd3 as <-. by rewrite <- Er. }
  wp_step. eapply (wp_dir_at v3); [exact Hd3|exact Hpv3|]. wp_step. eapply (wp_upd_inode v3); [exact Hd3|]. wp_step.
  assert (Ed : i3 <| i_priv := PDir a (drop_name ch name) (u32 (n - 1)) |> = dec_count i3) by (unfold dec_count; by rewrite Hpv3).
  rewrite Ed. split_and!; [done|done| |].
  - exists ti, m2. split_and!; [by rewrite <- Hm1|by rewrite <- Hm1|]. by rewrite (alter_some _ d i3).
  - exists (L2 ∖ {[d_addr e]}).
    change (vfs_ok (L2 ∖ {[d_addr e]}) hd (at_ (v_heap v3) (<[d := dec_count i3]> m2) v3)).
    eapply vfs_ok_step; [done|apply Hok3|..].
    + intros x. change (v_inodes v3) with m2. unfold o_of. rewrite (isum_update _ _ _ _ _ Hd3).
      replace (objs d (dec_count i3)) with (objs d i3) by (unfold objs; rewrite <- Ed, Hpv3; done).
      pose proof (vo_addr _ _ _ Hok3 x). lia.
    + intros q k. destruct (decide (q = d)) as [->|Hne].
      * rewrite lookup_insert_eq. intros Hk. apply (inj Some) in Hk as <-. split; [done|]. rewrite <- Ed.
        destruct (vo_inode _ _ _ Hok3 _ _ Hd3) as [_ Hi3]. pose proof Hi3 as [_ [Hn Ht' Hs]].
        unfold names, children in *. rewrite Hpv3 in *. by eapply inode_ok_dir.
      * rewrite lookup_insert_ne by done. apply (vo_inode _ _ _ Hok3).
    + intros q Hq. change (v_inodes v3) with m2. unfold r_of. rewrite (isum_update _ _ _ _ _ Hd3).
      replace (i_refs (dec_count i3)) with (i_refs i3) by (unfold i_refs, children; rewrite <- Ed, Hpv3; done).
      pose proof (vo_refs _ _ _ Hok3 q Hq) as Hr. unfold rcm, rc in *. change (v_inodes v3) with m2 in Hr.
      destruct (decide (q = d)) as [->|Hne].
      * rewrite lookup_insert_eq. rewrite Hd3 in Hr.
        assert (Erc : i_refcount (dec_count i3) = i_refcount i3) by (by rewrite <- Ed). rewrite Erc. lia.
      * rewrite lookup_insert_ne by done. lia.
    + apply Hok3.
Qed.
End Dir.
