(* ===== verification/VfsOps.v ===== *)
(** * The virtual filesystem: the directory driver

    The specifications of the operations of [ramfs_dir_ops], in terms of the
    entries of the directories. *)

From S2P Require Import Prelude Cstring Alloc Vfs VfsSynth VfsPath VfsApi VfsInv VfsRefs VfsDir.

Section Ops.
Context {H : Type} `{!Allocator H} `{!AllocatorLaws H}.
Implicit Types (v : vfs H) (L : gset Z) (hd : Z -> Z) (m : gmap Z inode).

(** ** Entries under the steps of the operations *)

Lemma entries_insert m p j q : entries (<[p := j]> m) q = if decide (q = p) then entry_of <$> children j else entries m q.
Proof. unfold entries. case_decide; subst; [by rewrite lookup_insert_eq|by rewrite lookup_insert_ne]. Qed.

Lemma entries_same m p i j q : m !! p = Some i -> i_priv j = i_priv i -> entries (<[p := j]> m) q = entries m q.
Proof.
  intros Hp Hj. rewrite entries_insert. case_decide; [subst|done]. unfold entries, children. by rewrite Hp, Hj.
Qed.

Lemma entries_touched v v' p q : touched v v' p -> entries (v_inodes v') q = entries (v_inodes v) q.
Proof. intros (i & j & Hp & (_ & _ & Hpv & _) & _ & _ & ->). by eapply entries_same. Qed.

Lemma entries_ref m p i q : m !! p = Some i -> entries (alter ref_up p m) q = entries m q.
Proof. intros Hp. rewrite (alter_some _ _ i) by done. by eapply entries_same. Qed.

Lemma entries_new m p j q : m !! p = None -> children j = [] -> entries (<[p := j]> m) q = entries m q.
Proof. intros Hp Hj. rewrite entries_insert. case_decide; [|done]. subst. unfold entries. by rewrite Hp, Hj. Qed.

Lemma entries_add m d i a ch n e q :
  m !! d = Some i -> i_priv i = PDir a ch n ->
  entries (alter (add_entry e) d m) q = if decide (q = d) then entry_of e :: entries m d else entries m q.
Proof.
  intros Hd Hpv. rewrite (alter_some _ _ i) by done. rewrite entries_insert. case_decide; [subst|done].
  unfold add_entry, entries, children. rewrite Hd, Hpv. simpl. done.
Qed.

Lemma entries_released p i m m' q :
  m !! p = Some i -> released p i m m' -> q <> p \/ children i = [] \/ i_refcount i <> 1 ->
  entries m' q = entries m q.
Proof.
  intros Hp [Hk|Hg] Hq; [by eapply entries_same|]. unfold entries. destruct (decide (q = p)) as [->|Hne].
  - rewrite lookup_delete_eq, Hp. by destruct Hq as [?|[->|?]].
  - by rewrite lookup_delete_ne.
Qed.

Lemma drop_name_filter ch name : NoDup (d_name <$> ch) ->
  entry_of <$> drop_name ch name = filter (fun x => x.1 <> name) (entry_of <$> ch).
Proof.
  induction ch as [|e ch IH]; cbn [fmap list_fmap drop_name]; [done|]. intros [Hn Hnd]%list.NoDup_cons.
  rewrite filter_cons. cbn [fst entry_of]. case_bool_decide as He.
  - rewrite decide_False by tauto. symmetry. apply filter_id. apply list.Forall_forall.
    intros x (y & -> & Hy)%list_elem_of_fmap Hx. apply Hn. rewrite He, <- Hx. by apply (list_elem_of_fmap_2 d_name).
  - rewrite decide_True by done. cbn [fmap list_fmap]. f_equal. by apply IH.
Qed.

Lemma entries_removed m m' d i a ch n name t q :
  m !! d = Some i -> i_priv i = PDir a ch n -> NoDup (d_name <$> ch) -> is_Some (m' !! d) ->
  removed d name t m m' -> q <> t \/ entries m t = [] \/ q = d \/ is_Some (m' !! t) ->
  entries m' q = if decide (q = d) then filter (fun x => x.1 <> name) (entries m d) else entries m q.
Proof.
  intros Hd Hpv Hnd [i' Hd'] (ti & m2 & Ht & Hrel & ->) Hq.
  set (m1 := alter (rem_entry name) d m) in *.
  assert (E1 : forall x, entries m1 x = if decide (x = d) then filter (fun x => x.1 <> name) (entries m d) else entries m x).
  { intros x. unfold m1. rewrite (alter_some _ _ i) by done. rewrite entries_insert. case_decide; [subst|done].
    unfold rem_entry, entries, children. rewrite Hd, Hpv. simpl. by apply drop_name_filter. }
  rewrite <- E1. destruct (m2 !! d) as [i2|] eqn:E2; [|by rewrite lookup_alter_eq, E2 in Hd'].
  transitivity (entries m2 q).
  { rewrite (alter_some _ _ i2) by done. rewrite entries_insert. case_decide; [subst|done].
    unfold entries, dec_count, children. rewrite E2. destruct (i_priv i2) eqn:Ep; simpl; rewrite ?Ep; done. }
  destruct Hrel as [Hk|Hg]; [by eapply entries_same|].
  destruct (decide (q = t)) as [->|Hne]; [|unfold entries; by rewrite lookup_delete_ne].
  assert (Hdt : d <> t) by (intros ->; by rewrite lookup_delete_eq in E2).
  destruct Hq as [?|[Hq|[-> |[? Hq]]]]; [done| |done|]; [unfold entries at 1; rewrite lookup_delete_eq, E1; by rewrite decide_False|].
  by rewrite lookup_alter_ne, lookup_delete_eq in Hq.
Qed.

(** ** New inodes *)

Definition new_inode v (ops : fsops) (mode : Z) (pv : priv) : inode :=
  let t := mk_ts (v_ticks v / 100) 0 in
  mk_inode (v_next_ino v) mode (v_uid v) (v_gid v) 1 0 t t t (Some ops) pv 0 1.

Lemma inode_alloc_spec L hd v ops mode pv :
  vfs_ok L hd v -> inode_ok (new_inode v ops mode pv) -> children (new_inode v ops mode pv) = [] ->
  (forall a, cnt a (priv_addrs pv) + owns v a <= live01 L a) ->
  wp (inode_alloc ops mode pv) v (fun p v' => frame v v' /\
    ((p = 0 /\ v_inodes v' = v_inodes v /\ vfs_ok L hd v') \/
     (p <> 0 /\ (p ∉ L) /\ v_inodes v !! p = None /\
      v_inodes v' = <[p := new_inode v ops mode pv]> (v_inodes v) /\ vfs_ok ({[p]} ∪ L) (held_add hd p) v'))).
Proof.
  intros Hok Hi Hch Hloose. unfold inode_alloc. wp_step.
  eapply wp_mono; [apply (alloc_spec L hd); [done|by vm_compute]|].
  intros p v1 (h1 & -> & [[-> Hok1]|(Hp0 & HpL & Hown & Hok1)]).
  { rewrite Z.eqb_refl. wp_step. split; [done|]. by left. }
  rewrite (proj2 (Z.eqb_neq p 0)) by done. unfold now. do 5 wp_step. split; [done|]. right.
  assert (Hpn : v_inodes v !! p = None).
  { destruct (v_inodes v !! p) as [j|] eqn:E; [|done]. exfalso. apply HpL. eapply owned_in; [done|done|]. by left. }
  split_and!; [done|done|done|done|].
  eapply vfs_ok_ext; [eapply (vfs_ok_step _ ({[p]} ∪ L) hd (held_add hd p) v h1
    (<[p := new_inode v ops mode pv]> (v_inodes v)))| | | |]; try done.
  - apply Hok1.
  - intros a. unfold o_of. rewrite isum_insert by done. unfold objs at 1. cbn [cnt i_priv new_inode].
    specialize (Hloose a). rewrite live01_add. destruct (Z.eqb_spec p a) as [Epa|]; [|lia]. rewrite <- Epa in *.
    rewrite (live01_out _ _ HpL) in Hloose. lia.
  - intros q k. destruct (decide (q = p)) as [->|Hne].
    + rewrite lookup_insert_eq. intros Hk. by apply (inj Some) in Hk as <-.
    + rewrite lookup_insert_ne by done. apply (vo_inode _ _ _ Hok).
  - intros q Hq. unfold r_of. rewrite isum_insert by done. unfold i_refs at 1. rewrite Hch. cbn [fmap list_fmap cnt].
    pose proof (vo_refs _ _ _ Hok q Hq) as Hr. unfold held_add, rcm, rc in *. destruct (decide (q = p)) as [->|Hne].
    + rewrite lookup_insert_eq, Z.eqb_refl. rewrite Hpn in Hr. change (i_refcount (new_inode v ops mode pv)) with 1. lia.
    + rewrite lookup_insert_ne by done. rewrite (proj2 (Z.eqb_neq p q)) by done. lia.
  - intros q. unfold held_add. pose proof (vo_held _ _ _ Hok q). destruct (p =? q); lia.
Qed.

Lemma new_file_ok v mode fp : S_ISREG mode = true -> inode_ok (new_inode v ramfs_ops mode (PFile fp 0 [] 0 0)).
Proof.
  intros Hm. split; [|by split; constructor]. left. split; [done|]. exists fp, 0, [], 0, 0. split; [done|].
  unfold file_ok. simpl. split_and!; try done; lia.
Qed.
Lemma new_dir_ok v mode nd : S_ISDIR mode = true -> inode_ok (new_inode v ramfs_dir_ops mode (PDir nd [] 0)).
Proof. intros Hm. split; [|by split; constructor]. split; [done|]. by exists nd, [], 0. Qed.
Lemma new_link_ok v lp t : zlen t < VFS_PATH_MAX -> inode_ok (new_inode v ramfs_ops MODE_LINK (PLink lp t)).
Proof. intros Ht. split; [|by split; constructor]. right. split; [done|]. by exists lp, t. Qed.

(** The result of an operation that gives up: what was there is unchanged. *)
Definition unchanged v v' : Prop := forall q, is_Some (v_inodes v !! q) -> entries (v_inodes v') q = entries (v_inodes v) q.

Lemma released_new p j m m' : m !! p = None -> i_refcount j = 1 -> released p j (<[p := j]> m) m' -> m' = m.
Proof. intros Hp Hj [Hk|_]; [lia|]. by rewrite delete_insert_id. Qed.

(** The inode [q] is still there, of the same kind. *)
Definition stays m m' (q : Z) : Prop := forall j, m !! q = Some j -> exists j', m' !! q = Some j' /\ same_kind j j'.

Lemma same_kind_refl i : same_kind i i.
Proof. done. Qed.
Lemma same_kind_trans i j k : same_kind i j -> same_kind j k -> same_kind i k.
Proof. intros (? & ? & ? & ?) (? & ? & ? & ?). split_and!; congruence. Qed.
Lemma stays_trans m1 m2 m3 q : stays m1 m2 q -> stays m2 m3 q -> stays m1 m3 q.
Proof.
  intros H1 H2 j Hj. destruct (H1 j Hj) as (k & Hk & S1). destruct (H2 k Hk) as (l & Hl & S2).
  exists l. split; [done|]. by eapply same_kind_trans.
Qed.
Lemma stays_insert m p i j q : m !! p = Some i -> same_kind i j -> stays m (<[p := j]> m) q.
Proof.
  intros Hp Hs k Hk. destruct (decide (q = p)) as [->|Hne].
  - rewrite Hp in Hk. apply (inj Some) in Hk as <-. exists j. by rewrite lookup_insert_eq.
  - exists k. by rewrite lookup_insert_ne.
Qed.
Lemma stays_touched v v' p q : touched v v' p -> stays (v_inodes v) (v_inodes v') q.
Proof. intros (i & j & Hp & Hs & _ & _ & ->). by eapply stays_insert. Qed.

Lemma touched_rc v v' p q : touched v v' p -> rc v' q = rc v q.
Proof.
  intros (i & j & Hp & _ & Hr & _ & ->). unfold rc. simpl. destruct (decide (q = p)) as [->|Hne].
  - by rewrite lookup_insert_eq, Hp.
  - by rewrite lookup_insert_ne.
Qed.

Lemma held_add_nonneg hd p : (forall q, 0 <= hd q) -> forall q, 0 <= held_add hd p q.
Proof. intros Hpos q. specialize (Hpos q). unfold held_add. destruct (p =? q); lia. Qed.

(** Releasing a reference to an inode that has others. *)
Lemma unref_shared L hd v p :
  vfs_ok L (held_add hd p) v -> p <> 0 -> 0 <= hd p -> 2 <= rc v p ->
  wp (inode_unref p) v (fun _ v' => frame v v' /\ (exists L', vfs_ok L' hd v') /\ rc v' p = rc v p - 1 /\
    (forall q, entries (v_inodes v') q = entries (v_inodes v) q) /\ (forall q, stays (v_inodes v) (v_inodes v') q)).
Proof.
  intros Hok Hp0 Hh Hrc. eapply wp_mono; [by apply (inode_unref_spec L hd)|].
  intros ? v' (i & L' & h' & m' & Hp & Hrel & -> & Hok' & _). unfold rc in Hrc. rewrite Hp in Hrc.
  destruct Hrel as [Hk|Hg]; [|lia]. split_and!; [done|by exists L'| | |].
  - rewrite rc_at. unfold rcm, rc. rewrite lookup_insert_eq, Hp. done.
  - intros q. by eapply entries_same.
  - intros q. by apply (stays_insert _ _ i).
Qed.

(** The last steps of an operation that made the inode [ni]. *)
Lemma finish_new {A} L hd v d i ni (out : bool) (x0 : A) :
  vfs_ok L (held_add hd ni) v -> ni <> 0 -> (forall q, 0 <= hd q) -> v_inodes v !! d = Some i -> 2 <= rc v ni ->
  wp (do* inode_touch_m d in do* (if out then inode_ref ni else ret tt) in do* inode_unref ni in
      ret x0) v (fun x v' =>
    x = x0 /\ frame v v' /\
    (exists L', vfs_ok L' (if out then held_add hd ni else hd) v') /\
    (forall q, entries (v_inodes v') q = entries (v_inodes v) q) /\ (forall q, stays (v_inodes v) (v_inodes v') q)).
Proof.
  intros Hok Hni Hpos Hd Hrc. wp_step. eapply wp_mono; [by eapply touch_m_spec|].
  intros ? v1 Ht. pose proof (touched_ok _ _ _ _ _ Hok Ht) as Hok1. pose proof (touched_rc _ _ _ ni Ht) as Erc.
  wp_step. destruct out.
  - destruct (rc_live v1 ni) as (j & Hj & Hrj); [lia|]. eapply wp_mono; [by apply (inode_ref_spec L (held_add hd ni) v1 ni j)|].
    intros ? v2 [-> Hok2]. wp_step. eapply wp_mono.
    { eapply (unref_shared L (held_add hd ni)); [exact Hok2|done|by apply held_add_nonneg|].
      unfold rc at 1. simpl. rewrite lookup_insert_eq. simpl. lia. }
    intros ? v3 (Hf & Hok3 & _ & He & Hs). wp_step. split_and!; [done| |done| |].
    + transitivity v1; [exact (touched_frame _ _ _ Ht)|]. by transitivity (v1 <| v_inodes := <[ni := ref_up j]> (v_inodes v1) |>).
    + intros q. rewrite He. transitivity (entries (v_inodes v1) q); [by apply (entries_same _ ni j)|exact (entries_touched _ _ _ q Ht)].
    + intros q. eapply stays_trans; [exact (stays_touched _ _ _ q Ht)|]. eapply stays_trans; [|apply Hs]. by apply (stays_insert _ _ j).
  - wp_step. wp_step. eapply wp_mono; [apply (unref_shared L hd); [done|done|done|lia]|].
    intros ? v3 (Hf & Hok3 & _ & He & Hs). wp_step. split_and!; [done| |done| |].
    + transitivity v1; [exact (touched_frame _ _ _ Ht)|done].
    + intros q. rewrite He. exact (entries_touched _ _ _ q Ht).
    + intros q. eapply stays_trans; [exact (stays_touched _ _ _ q Ht)|apply Hs].
Qed.

(** The new inode [ni] is entered in [d], or given back when there is no memory. *)
Lemma install_spec {A} L hd v d i a ch n name ni j (f : Z -> A) (K : M (vfs H) A) (Q : A -> vfs H -> Prop) :
  vfs_ok L (held_add hd ni) v -> v_inodes v !! d = Some i -> i_priv i = PDir a ch n -> v_inodes v !! ni = Some j ->
  d <> ni -> (forall q, 0 <= hd q) -> (name ∉ d_name <$> ch) -> zlen name <= VFS_NAME_MAX ->
  (forall v' L' m', frame v v' -> vfs_ok L' hd v' -> released ni j (v_inodes v) (v_inodes v') -> Q (f (- ENOSPC)) v') ->
  (forall v' e, frame v v' -> vfs_ok ({[e]} ∪ L) (held_add hd ni) v' ->
     v_inodes v' = alter (add_entry (mk_dentry e name ni)) d (alter ref_up ni (v_inodes v)) -> wp K v' Q) ->
  wp (let* r := dentry_add d name ni in if r <? 0 then do* inode_unref ni in ret (f r) else K) v Q.
Proof.
  intros Hok Hd Hpv Hni Hdn Hpos Hname Hlen Hfail Hsucc. wp_step.
  destruct (vo_inode _ _ _ Hok _ _ Hni) as [Hni0 _].
  eapply wp_mono; [by apply (dentry_add_spec L (held_add hd ni) v d i a ch n name ni j)|].
  intros r v3 (Hf3 & [(-> & Hin & _)|[(-> & _ & Em3 & Hok3)|(-> & _ & e & HeL & Hok3 & Em3)]]); [done| |].
  - change (- ENOSPC <? 0) with true. cbn match. wp_step.
    eapply wp_mono; [by apply (inode_unref_spec L hd)|].
    intros ? v4 (j' & L4 & h4 & m4 & Hj & Hrel & -> & Hok4 & _). wp_step.
    rewrite Em3, Hni in Hj. apply (inj Some) in Hj as <-. rewrite Em3 in Hrel.
    eapply (Hfail _ L4 m4); [|done|done]. transitivity v3; [done|by split].
  - change (0 <? 0) with false. cbn match. by eapply Hsucc.
Qed.

(** The entries once [ni], which was new, is entered. *)
Lemma entries_installed m d i a ch n e name ni new q :
  m !! ni = None -> children new = [] -> m !! d = Some i -> i_priv i = PDir a ch n ->
  entries (alter (add_entry (mk_dentry e name ni)) d (alter ref_up ni (<[ni := new]> m))) q =
    if decide (q = d) then (name, ni) :: entries m d else entries m q.
Proof.
  intros Hn Hc Hd Hpv. set (m2 := alter ref_up ni (<[ni := new]> m)). assert (Hdn : d <> ni) by congruence.
  assert (Hd2 : m2 !! d = Some i) by (unfold m2; rewrite lookup_alter_ne, lookup_insert_ne by done; done).
  assert (E2 : forall q, entries m2 q = entries m q).
  { intros x. unfold m2. rewrite (entries_ref _ _ new) by apply lookup_insert_eq. by apply entries_new. }
  rewrite (entries_add _ _ i a ch n) by done. by rewrite !E2.
Qed.

Lemma stays_installed m d e ni new q :
  m !! ni = None -> q <> d -> stays m (alter (add_entry e) d (alter ref_up ni (<[ni := new]> m))) q.
Proof.
  intros Hn Hq j Hj. assert (q <> ni) by congruence. exists j. split; [|done].
  by rewrite !lookup_alter_ne, lookup_insert_ne by done.
Qed.

Lemma installed_new m d e ni new :
  d <> ni -> alter (add_entry e) d (alter ref_up ni (<[ni := new]> m)) !! ni = Some (ref_up new).
Proof. intros Hdn. by rewrite lookup_alter_ne, lookup_alter_eq, lookup_insert_eq by done. Qed.

Lemma installed_dir m d e ni new i :
  d <> ni -> m !! d = Some i -> alter (add_entry e) d (alter ref_up ni (<[ni := new]> m)) !! d = Some (add_entry e i).
Proof. intros Hdn Hd. by rewrite lookup_alter_eq, lookup_alter_ne, lookup_insert_ne, Hd by done. Qed.

Definition is_new_file m (p : Z) : Prop :=
  exists j fp, m !! p = Some j /\ i_ops j = Some ramfs_ops /\ i_priv j = PFile fp 0 [] 0 0 /\ S_ISREG (i_mode j) = true.

Lemma ISREG_land x y : Z.land x S_IFMT = Z.land y S_IFMT -> S_ISREG x = S_ISREG y.
Proof. unfold S_ISREG. by intros ->. Qed.

Lemma ramfs_create_spec L hd v d i a ch n name mode out :
  vfs_ok L hd v -> v_inodes v !! d = Some i -> i_priv i = PDir a ch n -> zlen name <= VFS_NAME_MAX -> S_ISREG mode = true ->
  wp (ramfs_create_impl d name mode out) v (fun x v' => frame v v' /\
    ((x.1 = - EEXIST /\ x.2 = 0 /\ name ∈ d_name <$> ch /\ v' = v) \/
     (x.1 = - ENOSPC /\ x.2 = 0 /\ v_inodes v' = v_inodes v /\ exists L', vfs_ok L' hd v') \/
     (x.1 = 0 /\ (name ∉ d_name <$> ch) /\ exists ni L', x.2 = (if out then ni else 0) /\ ni <> 0 /\
        v_inodes v !! ni = None /\ is_new_file (v_inodes v') ni /\
        vfs_ok L' (if out then held_add hd ni else hd) v' /\
        (forall q, entries (v_inodes v') q = if decide (q = d) then (name, ni) :: entries (v_inodes v) d else entries (v_inodes v) q) /\
        (forall q, q <> d -> stays (v_inodes v) (v_inodes v') q)))).
Proof.
  intros Hok Hd Hpv Hlen Hmode. unfold ramfs_create_impl. wp_step. eapply wp_dir_at; [done|done|]. cbn [fst snd].
  destruct (dentry_find ch name) as [e0|] eqn:Hf.
  { wp_step. split; [reflexivity|]. left. split_and!; try done.
    apply dentry_find_Some in Hf as [Hin <-]. by apply list_elem_of_fmap_2. }
  apply dentry_find_None in Hf. wp_step. eapply wp_mono; [apply (alloc_spec L hd); [done|by vm_compute]|].
  intros fp v1 (h1 & -> & [[-> Hok1]|(Hfp0 & HfpL & Hown & Hok1)]).
  { rewrite Z.eqb_refl. wp_step. split; [done|]. right. left. split_and!; try done. by exists L. }
  rewrite (proj2 (Z.eqb_neq fp 0)) by done. set (v1 := v <| v_heap := h1 |>) in *. wp_step.
  eapply wp_mono; [apply (inode_alloc_spec ({[fp]} ∪ L) hd v1); [done|by apply new_file_ok|done|]|].
  { intros x. pose proof (vo_addr _ _ _ Hok x). change (owns v1 x) with (owns v x). cbn [priv_addrs Z.eqb cnt].
    rewrite live01_add. destruct (Z.eqb_spec fp x) as [Ex|]; [rewrite <- Ex in *|]; lia. }
  intros ni v2 [Hf2 [(-> & Em2 & Hok2)|(Hni0 & HniL & Hnin & Em2 & Hok2)]].
  { rewrite Z.eqb_refl. wp_step. eapply wp_mono; [apply (free_spec ({[fp]} ∪ L) hd); [done|set_solver|]|].
    - unfold owns. rewrite Em2, (fr_handles _ _ Hf2). exact Hown.
    - intros ? v3 (h3 & -> & Hok3). wp_step. split; [transitivity v1; [by split|]; transitivity v2; [done|by split]|]. right. left. split_and!; try done. by eauto. }
  rewrite (proj2 (Z.eqb_neq ni 0)) by done.
  change (v_inodes v1) with (v_inodes v) in *. set (new := new_inode v1 ramfs_ops mode (PFile fp 0 [] 0 0)) in *.
  assert (Hdn : d <> ni) by congruence. assert (Hf12 : frame v v2) by (transitivity v1; [by split|done]).
  eapply (install_spec _ hd v2 d i a ch n name ni new (fun r => (r, 0))); try done.
  - rewrite Em2. by rewrite lookup_insert_ne.
  - rewrite Em2. by rewrite lookup_insert_eq.
  - apply Hok.
  - intros v3 L3 m3 Hf3 Hok3 Hrel. split; [by transitivity v2|]. right. left. split_and!; try done; [|by eauto].
    rewrite Em2 in Hrel. by apply released_new in Hrel.
  - intros v3 e Hf3 Hok3 Em3. rewrite Em2 in Em3.
    eapply wp_mono; [eapply (finish_new _ hd v3 d _ ni out); [done|done|apply Hok|rewrite Em3; by eapply installed_dir|]|].
    { unfold rc. by rewrite Em3, installed_new. }
    intros x v4 (-> & Hf4 & [L4 Hok4] & He4 & Hs4). split; [transitivity v2; [done|by transitivity v3]|].
    right. right. split_and!; [done|done|]. exists ni, L4. split_and!; try done.
    + destruct (Hs4 ni (ref_up new)) as (j & Hj & Hm & Ho & Hp & _); [rewrite Em3; by apply installed_new|].
      exists j, fp. split_and!; [done|done|done|]. by rewrite (ISREG_land _ _ Hm).
    + intros q. rewrite He4, Em3. by eapply entries_installed.
    + intros q Hq. eapply stays_trans; [|apply Hs4]. rewrite Em3. by apply stays_installed.
Qed.

(** ** Links *)

Lemma ramfs_link_spec L hd v d i a ch n name t ti :
  vfs_ok L hd v -> v_inodes v !! d = Some i -> i_priv i = PDir a ch n -> v_inodes v !! t = Some ti -> zlen name <= VFS_NAME_MAX ->
  wp (ramfs_link_impl d name t) v (fun r v' => frame v v' /\ (exists L', vfs_ok L' hd v') /\
    ((r = - EISDIR /\ S_ISDIR (i_mode ti) = true /\ v' = v) \/
     (r = - EEXIST /\ name ∈ d_name <$> ch /\ v' = v) \/ (r = - ENOSPC /\ v_inodes v' = v_inodes v) \/
     (r = 0 /\ S_ISDIR (i_mode ti) = false /\ (name ∉ d_name <$> ch) /\ rc v' t = rc v t + 1 /\
        (exists ti', v_inodes v' !! t = Some ti' /\ i_nlink ti' = u32 (i_nlink ti + 1)) /\
        forall q, entries (v_inodes v') q = if decide (q = d) then (name, t) :: entries (v_inodes v) d else entries (v_inodes v) q))).
Proof.
  intros Hok Hd Hpv Ht Hlen. unfold ramfs_link_impl. wp_step. eapply wp_inode_at; [done|].
  destruct (S_ISDIR (i_mode ti)) eqn:Em. { wp_step. split; [reflexivity|]. split; [by exists L|]. left. done. }
  wp_step. eapply wp_mono; [by apply (dentry_add_spec L hd v d i a ch n name t ti)|].
  intros r v1 (Hf1 & [(-> & Hin & ->)|[(-> & Hn & Em1 & Hok1)|(-> & Hn & e & HeL & Hok1 & Em1)]]).
  - change (- EEXIST =? 0) with false. cbn match. wp_step. split; [done|]. split; [by exists L|]. by right; left.
  - change (- ENOSPC =? 0) with false. cbn match. wp_step. split; [done|]. split; [by exists L|]. by right; right; left.
  - change (0 =? 0) with true. cbn match. set (e' := mk_dentry e name t) in *.
    assert (Ht1 : exists t1, v_inodes v1 !! t = Some t1 /\ i_nlink t1 = i_nlink ti /\ i_refcount t1 = i_refcount ti + 1 /\ t <> d).
    { assert (t <> d). { intros ->. rewrite Hd in Ht. apply (inj Some) in Ht as <-.
        destruct (is_dir_ops _ _ _ _ _ _ _ _ Hok Hd Hpv) as [_ E]. congruence. }
      exists (ref_up ti). rewrite Em1, lookup_alter_ne, lookup_alter_eq, Ht by done. done. }
    destruct Ht1 as (t1 & Ht1 & Hnl & Hrc1 & Htd). wp_step. eapply wp_upd_inode; [exact Ht1|].
    match goal with |- wp _ ?s _ => set (v2 := s) end.
    assert (T2 : touched v1 v2 t) by (by exists t1, (t1 <| i_nlink := u32 (i_nlink t1 + 1) |>)). pose proof (touched_ok _ _ _ _ _ Hok1 T2) as Hok2. wp_step.
    destruct (stays_touched _ _ _ d T2 (add_entry e' i)) as (d2 & Hd2 & _).
    { rewrite Em1, lookup_alter_eq, lookup_alter_ne, Hd by done. done. }
    eapply wp_mono; [by eapply touch_m_spec|]. intros ? v3 T3. pose proof (touched_ok _ _ _ _ _ Hok2 T3) as Hok3. wp_step.
    split; [transitivity v1; [done|]; transitivity v2; [exact (touched_frame _ _ _ T2)|exact (touched_frame _ _ _ T3)]|].
    split; [by eauto|]. right; right; right. split_and!; try done.
    + rewrite (touched_rc _ _ _ _ T3), (touched_rc _ _ _ _ T2). unfold rc. rewrite Ht1, Ht. lia.
    + destruct T3 as (x & y & Hx & _ & _ & _ & ->). exists (t1 <| i_nlink := u32 (i_nlink t1 + 1) |>). simpl.
      rewrite lookup_insert_ne, lookup_insert_eq by done. split; [done|]. by rewrite Hnl.
    + intros q. rewrite (entries_touched _ _ _ _ T3), (entries_touched _ _ _ _ T2), Em1.
      rewrite (entries_add _ _ i a ch n) by (try rewrite lookup_alter_ne by done; done).
      rewrite !(entries_ref _ _ ti) by done. done.
Qed.

(** ** Removal *)

Definition ops_kept m m' : Prop := forall q j j', m !! q = Some j -> m' !! q = Some j' -> i_ops j' = i_ops j.

Lemma ops_kept_trans m1 m2 m3 : (forall q, is_Some (m3 !! q) -> is_Some (m2 !! q)) ->
  ops_kept m1 m2 -> ops_kept m2 m3 -> ops_kept m1 m3.
Proof.
  intros Hs H1 H2 q j j' Hj Hj'. destruct (Hs q) as [k Hk]; [by exists j'|].
  rewrite (H2 _ _ _ Hk Hj'). by apply (H1 q).
Qed.

Lemma ops_kept_alter m f p : (forall i, i_ops (f i) = i_ops i) -> ops_kept m (alter f p m).
Proof.
  intros Hf q j j' Hj. rewrite alter_lookup, Hj. case_decide; simpl; intros E; apply (inj Some) in E as <-; done.
Qed.

Lemma alter_is_Some m f p q : is_Some (alter f p m !! q) <-> is_Some (m !! q).
Proof. rewrite alter_lookup. case_decide; [by rewrite fmap_is_Some|done]. Qed.

Lemma removed_ops d name t m m' : removed d name t m m' -> ops_kept m m'.
Proof.
  intros (ti & m2 & Ht & Hrel & ->).
  assert (Hdec : forall i, i_ops (dec_count i) = i_ops i) by (intros i; unfold dec_count; by destruct (i_priv i)).
  assert (Hrem : forall i, i_ops (rem_entry name i) = i_ops i) by (intros i; unfold rem_entry; by destruct (i_priv i)).
  apply (ops_kept_trans _ m2); [intros q; by rewrite alter_is_Some| |by apply ops_kept_alter].
  apply (ops_kept_trans _ (alter (rem_entry name) d m)); [|by apply ops_kept_alter|].
  - intros q [x Hx]. destruct Hrel as [_|_].
    + destruct (decide (q = t)) as [->|Hne]; [by eauto|]. rewrite lookup_insert_ne in Hx by done. by eauto.
    + apply lookup_delete_Some in Hx as [_ Hx]. by eauto.
  - intros q j j' Hj Hj'. destruct Hrel as [_|_].
    + destruct (decide (q = t)) as [->|Hne].
      * rewrite lookup_insert_eq in Hj'. apply (inj Some) in Hj' as <-. rewrite Ht in Hj. by apply (inj Some) in Hj as <-.
      * rewrite lookup_insert_ne in Hj' by done. congruence.
    + apply lookup_delete_Some in Hj' as [_ Hj']. congruence.
Qed.

(** [dentry_remove], on entries; the directory keeps its kind. *)
Lemma remove_spec L hd v d i a ch n name e :
  vfs_ok L hd v -> v_inodes v !! d = Some i -> i_priv i = PDir a ch n -> dentry_find ch name = Some e -> 1 <= hd d ->
  wp (dentry_remove d name) v (fun r v' => frame v v' /\ r = 0 /\ (exists L', vfs_ok L' hd v') /\
    is_Some (v_inodes v' !! d) /\ ops_kept (v_inodes v) (v_inodes v') /\
    forall q, (q <> d_inode e \/ entries (v_inodes v) (d_inode e) = [] \/ q = d \/ 1 <= hd (d_inode e)) ->
      entries (v_inodes v') q = if decide (q = d) then filter (fun x => x.1 <> name) (entries (v_inodes v) d) else entries (v_inodes v) q).
Proof.
  intros Hok Hd Hpv Hf Hhd. destruct (vo_inode _ _ _ Hok _ _ Hd) as [Hd0 [_ [Hnd _ _]]].
  unfold names, children in Hnd. rewrite Hpv in Hnd.
  destruct (child_live L hd v d i e Hok Hd) as [He0 _].
  { unfold children. rewrite Hpv. by apply dentry_find_Some in Hf as [? _]. }
  eapply wp_mono; [by apply (dentry_remove_spec L hd v d i a ch n name e)|].
  intros r v' (Hfr & -> & Hrem & [L' Hok']). pose proof (held_live _ _ _ d Hok' Hd0 Hhd) as Hd'.
  split_and!; [done|done|by exists L'|done|by eapply removed_ops|]. intros q Hq. eapply entries_removed; try done.
  destruct Hq as [?|[?|[?|?]]]; [by left|by right; left|by right; right; left|]. right; right; right. by eapply held_live.
Qed.

Lemma touch_end {A} L hd v d i (x0 : A) :
  vfs_ok L hd v -> v_inodes v !! d = Some i ->
  wp (do* inode_touch_m d in ret x0) v (fun x v' => x = x0 /\ frame v v' /\ vfs_ok L hd v' /\
    forall q, entries (v_inodes v') q = entries (v_inodes v) q).
Proof.
  intros Hok Hd. wp_step. eapply wp_mono; [by eapply touch_m_spec|]. intros ? v' T. wp_step.
  split_and!; [done|exact (touched_frame _ _ _ T)|exact (touched_ok _ _ _ _ _ Hok T)|]. intros q. exact (entries_touched _ _ _ q T).
Qed.

Lemma not_dir_empty L hd v t ti : vfs_ok L hd v -> v_inodes v !! t = Some ti -> S_ISDIR (i_mode ti) = false ->
  entries (v_inodes v) t = [].
Proof.
  intros Hok Ht Hm. unfold entries. rewrite Ht. unfold children. destruct (i_priv ti) eqn:E; try done.
  destruct (is_dir_ops _ _ _ _ _ _ _ _ Hok Ht E) as [_ ?]. congruence.
Qed.

Lemma ramfs_unlink_spec L hd v d i a ch n name :
  vfs_ok L hd v -> v_inodes v !! d = Some i -> i_priv i = PDir a ch n -> 1 <= hd d ->
  wp (ramfs_unlink_impl d name) v (fun r v' => frame v v' /\ (exists L', vfs_ok L' hd v') /\
    ((r = - ENOENT /\ (name ∉ d_name <$> ch) /\ v' = v) \/ (r = - EISDIR /\ v' = v /\ exists e ti, dentry_find ch name = Some e /\ v_inodes v !! d_inode e = Some ti /\ S_ISDIR (i_mode ti) = true) \/
     (r = 0 /\ name ∈ d_name <$> ch /\
      forall q, entries (v_inodes v') q = if decide (q = d) then filter (fun x => x.1 <> name) (entries (v_inodes v) d) else entries (v_inodes v) q))).
Proof.
  intros Hok Hd Hpv Hhd. unfold ramfs_unlink_impl. wp_step. eapply wp_dir_at; [done|done|]. cbn [fst snd].
  destruct (dentry_find ch name) as [e|] eqn:Hf.
  2: { wp_step. split; [reflexivity|]. split; [by exists L|]. left. apply dentry_find_None in Hf. done. }
  pose proof (dentry_find_Some _ _ _ Hf) as [Hin Hname].
  destruct (child_live L hd v d i e Hok Hd) as [He0 [t Ht]]; [unfold children; by rewrite Hpv|].
  wp_step. eapply wp_inode_at; [done|]. destruct (S_ISDIR (i_mode t)) eqn:Em.
  { wp_step. split; [reflexivity|]. split; [by exists L|]. right; left. by eauto 7. }
  wp_step. eapply wp_mono; [by eapply upd_meta_spec|]. intros ? v1 T1.
  pose proof (touched_ok _ _ _ _ _ Hok T1) as Hok1. wp_step.
  destruct (stays_touched _ _ _ d T1 i Hd) as (i1 & Hd1 & _ & _ & Hpv1 & _). rewrite Hpv in Hpv1.
  eapply wp_mono; [by eapply (remove_spec L hd v1)|]. intros r v2 (Hf2 & -> & [L2 Hok2] & [i2 Hd2] & _ & He2).
  eapply wp_mono; [by eapply touch_end|]. intros r v3 (-> & Hf3 & Hok3 & He3).
  split; [transitivity v1; [exact (touched_frame _ _ _ T1)|by transitivity v2]|]. split; [by exists L2|].
  right; right. split_and!; [done|rewrite <- Hname; by apply list_elem_of_fmap_2|].
  intros q. rewrite He3, He2, !(entries_touched _ _ _ _ T1); [done|]. right; left.
  rewrite (entries_touched _ _ _ _ T1). by eapply not_dir_empty.
Qed.

Lemma ramfs_rmdir_spec L hd v d i a ch n name :
  vfs_ok L hd v -> v_inodes v !! d = Some i -> i_priv i = PDir a ch n -> 1 <= hd d ->
  wp (ramfs_rmdir_impl d name) v (fun r v' => frame v v' /\ (exists L', vfs_ok L' hd v') /\
    ((r = - ENOENT /\ (name ∉ d_name <$> ch) /\ v' = v) \/ (r = - ENOTDIR /\ v' = v) \/
     (r = - ENOTEMPTY /\ v' = v) \/
     (r = 0 /\ exists e ti ta tch tn, dentry_find ch name = Some e /\ v_inodes v !! d_inode e = Some ti /\
        i_priv ti = PDir ta tch tn /\ tn <= 2 /\
        forall q, q <> d_inode e \/ q = d ->
          entries (v_inodes v') q = if decide (q = d) then filter (fun x => x.1 <> name) (entries (v_inodes v) d) else entries (v_inodes v) q))).
Proof.
  intros Hok Hd Hpv Hhd. unfold ramfs_rmdir_impl. wp_step. eapply wp_dir_at; [done|done|]. cbn [fst snd].
  destruct (dentry_find ch name) as [e|] eqn:Hf.
  2: { wp_step. split; [reflexivity|]. split; [by exists L|]. left. apply dentry_find_None in Hf. done. }
  pose proof (dentry_find_Some _ _ _ Hf) as [Hin Hname].
  destruct (child_live L hd v d i e Hok Hd) as [He0 [t Ht]]; [unfold children; by rewrite Hpv|].
  wp_step. eapply wp_inode_at; [done|]. destruct (S_ISDIR (i_mode t)) eqn:Em; cbn [negb].
  2: { wp_step. split; [reflexivity|]. split; [by exists L|]. right; left. done. }
  assert (Htd : exists ta tch tn, i_priv t = PDir ta tch tn).
  { destruct (vo_inode _ _ _ Hok _ _ Ht) as [_ [Hk _]]. unfold kind_ok in Hk. rewrite Em in Hk.
    destruct (i_ops t) as [[]|]; try done; try (by destruct Hk as (? & _)); [|by destruct Hk as (_ & ?)].
    destruct (modes_apart (i_mode t)) as [Ha _]. destruct (Ha Em) as [Hr Hl]. rewrite Hr, Hl in Hk.
    by destruct Hk as [[? _]|[? _]]. }
  destruct Htd as (ta & tch & tn & Htpv). wp_step. eapply wp_dir_at; [done|done|]. cbn [snd].
  destruct (Z.ltb_spec 2 tn) as [Hbig|Hsmall]. { wp_step. split; [reflexivity|]. split; [by exists L|]. right; right; left. done. }
  wp_step. eapply wp_mono; [by eapply upd_meta_spec|]. intros ? v1 T1.
  pose proof (touched_ok _ _ _ _ _ Hok T1) as Hok1. wp_step.
  destruct (stays_touched _ _ _ d T1 i Hd) as (i1 & Hd1 & _ & _ & Hpv1 & _). rewrite Hpv in Hpv1.
  eapply wp_mono; [by eapply upd_meta_spec|]. intros ? v2 T2.
  pose proof (touched_ok _ _ _ _ _ Hok1 T2) as Hok2. wp_step.
  destruct (stays_touched _ _ _ d T2 i1 Hd1) as (i2 & Hd2 & _ & _ & Hpv2 & _). rewrite Hpv1 in Hpv2.
  eapply wp_mono; [by eapply (remove_spec L hd v2)|]. intros r v3 (Hf3 & -> & [L3 Hok3] & [i3 Hd3] & _ & He3).
  eapply wp_mono; [by eapply touch_end|]. intros r v4 (-> & Hf4 & Hok4 & He4).
  split; [transitivity v1; [exact (touched_frame _ _ _ T1)|]; transitivity v2; [exact (touched_frame _ _ _ T2)|by transitivity v3]|].
  split; [by exists L3|]. right; right; right. split; [done|]. exists e, t, ta, tch, tn. split_and!; try done.
  intros q Hq. rewrite He4, He3, !(entries_touched _ _ _ _ T2), !(entries_touched _ _ _ _ T1); [done|].
  destruct Hq; [by left|by right; right; left].
Qed.
End Ops.
