(* ===== verification/VfsTree.v ===== *)
(** * The virtual filesystem: links, directories, renames

    The remaining operations of the directory driver. *)

From S2P Require Import Prelude Cstring Alloc Vfs VfsSynth VfsPath VfsApi VfsInv VfsRefs VfsDir VfsOps.

Section Tree.
Context {H : Type} `{!Allocator H} `{!AllocatorLaws H}.
Implicit Types (v : vfs H) (L : gset Z) (hd : Z -> Z) (m : gmap Z inode).

Lemma ramfs_lookup_spec L hd v d i a ch n name :
  vfs_ok L hd v -> v_inodes v !! d = Some i -> i_priv i = PDir a ch n ->
  wp (ramfs_lookup d name) v (fun x v' =>
    (x = (- ENOENT, 0) /\ v' = v /\ dentry_find ch name = None /\
      bool_decide (name = cs ".") || bool_decide (name = cs "..") = false) \/
    (exists t ti, x = (0, t) /\ t <> 0 /\ v_inodes v !! t = Some ti /\
      v' = v <| v_inodes := <[t := ref_up ti]> (v_inodes v) |> /\ vfs_ok L (held_add hd t) v' /\
      if bool_decide (name = cs ".") || bool_decide (name = cs "..") then t = d
      else exists e, dentry_find ch name = Some e /\ d_inode e = t)).
Proof.
  intros Hok Hd Hpv. unfold ramfs_lookup. wp_step. eapply wp_dir_at; [done|done|]. cbn [fst snd].
  destruct (vo_inode _ _ _ Hok _ _ Hd) as [Hd0 _].
  destruct (bool_decide (name = cs ".") || bool_decide (name = cs "..")) eqn:Edots.
  - wp_step. eapply wp_mono; [by apply (inode_ref_spec L hd v d i)|]. intros ? v' [-> Hok']. wp_step.
    right. exists d, i. split_and!; done.
  - destruct (dentry_find ch name) as [e|] eqn:Hf; [|wp_step; by left].
    destruct (child_live L hd v d i e Hok Hd) as [He0 [t Ht]].
    { unfold children. rewrite Hpv. by apply dentry_find_Some in Hf as [? _]. }
    wp_step. eapply wp_mono; [by apply (inode_ref_spec L hd v (d_inode e) t)|]. intros ? v' [-> Hok']. wp_step.
    right. exists (d_inode e), t. split_and!; try done. by exists e.
Qed.

Lemma ramfs_readdir_spec L hd v d i a ch n k :
  vfs_ok L hd v -> v_inodes v !! d = Some i -> i_priv i = PDir a ch n ->
  wp (ramfs_readdir_impl d k) v (fun x v' => v' = v /\
    match aget ch k with
    | Some e => exists ti, v_inodes v !! d_inode e = Some ti /\ x = (0, Some (dirent_of e ti))
    | None => x = (-1, None)
    end).
Proof.
  intros Hok Hd Hpv. unfold ramfs_readdir_impl. wp_step. eapply wp_dir_at; [done|done|]. cbn [fst snd].
  destruct (aget ch k) as [e|] eqn:E; [|by wp_step].
  destruct (child_live L hd v d i e Hok Hd) as [_ [t Ht]].
  { unfold children. rewrite Hpv. unfold aget in E. destruct (k <? 0); [done|]. by eapply list_elem_of_lookup_2. }
  wp_step. eapply wp_inode_at; [done|]. wp_step. split; [done|]. by exists t.
Qed.

Lemma ramfs_symlink_spec L hd v d i a ch n name target :
  vfs_ok L hd v -> v_inodes v !! d = Some i -> i_priv i = PDir a ch n -> zlen name <= VFS_NAME_MAX -> zlen target < VFS_PATH_MAX ->
  wp (ramfs_symlink_impl d name target) v (fun r v' => frame v v' /\ (exists L', vfs_ok L' hd v') /\
    ((r = - EEXIST /\ name ∈ d_name <$> ch /\ v' = v) \/ (r = - ENOSPC /\ v_inodes v' = v_inodes v) \/
     (r = 0 /\ (name ∉ d_name <$> ch) /\ exists ni j lp, v_inodes v !! ni = None /\ v_inodes v' !! ni = Some j /\
        i_priv j = PLink lp target /\ S_ISLNK (i_mode j) = true /\
        (forall q, entries (v_inodes v') q = if decide (q = d) then (name, ni) :: entries (v_inodes v) d else entries (v_inodes v) q)))).
Proof.
  intros Hok Hd Hpv Hlen Htl. unfold ramfs_symlink_impl. wp_step. eapply wp_dir_at; [done|done|]. cbn [fst snd].
  destruct (dentry_find ch name) as [e0|] eqn:Hf.
  { wp_step. split; [reflexivity|]. split; [by exists L|]. left. split_and!; try done.
    apply dentry_find_Some in Hf as [Hin <-]. by apply list_elem_of_fmap_2. }
  apply dentry_find_None in Hf. wp_step. eapply wp_mono; [apply (alloc_spec L hd); [done|by vm_compute]|].
  intros lp v1 (h1 & -> & [[-> Hok1]|(Hlp0 & HlpL & Hown & Hok1)]).
  { rewrite Z.eqb_refl. wp_step. split; [by split|]. split; [by exists L|]. by right; left. }
  rewrite (proj2 (Z.eqb_neq lp 0)) by done. set (v1 := v <| v_heap := h1 |>) in *.
  wp_step. apply wp_guard_fits; [done|]. wp_step.
  eapply wp_mono; [apply (inode_alloc_spec ({[lp]} ∪ L) hd v1); [done|by apply new_link_ok|done|]|].
  { intros x. pose proof (vo_addr _ _ _ Hok x). change (owns v1 x) with (owns v x). cbn [priv_addrs cnt].
    rewrite live01_add. destruct (Z.eqb_spec lp x) as [Ex|]; [rewrite <- Ex in *|]; lia. }
  intros ni v2 [Hf2 [(-> & Em2 & Hok2)|(Hni0 & HniL & Hnin & Em2 & Hok2)]].
  { rewrite Z.eqb_refl. wp_step. eapply wp_mono; [apply (free_spec ({[lp]} ∪ L) hd); [done|set_solver|]|].
    - unfold owns. rewrite Em2, (fr_handles _ _ Hf2). exact Hown.
    - intros ? v3 (h3 & -> & Hok3). wp_step. split; [transitivity v1; [by split|]; transitivity v2; [done|by split]|].
      split; [by eauto|]. by right; left. }
  rewrite (proj2 (Z.eqb_neq ni 0)) by done.
  change (v_inodes v1) with (v_inodes v) in *. set (new := new_inode v1 ramfs_ops MODE_LINK (PLink lp target)) in *.
  assert (Hdn : d <> ni) by congruence. assert (Hf12 : frame v v2) by (transitivity v1; [by split|done]).
  wp_step. eapply wp_upd_inode; [rewrite Em2; apply lookup_insert_eq|]. cbv beta.
  set (new' := new <| i_size := zlen target |>).
  match goal with |- wp _ ?s _ => set (v3 := s) end.
  assert (Em3 : v_inodes v3 = <[ni := new']> (v_inodes v)).
  { unfold v3. simpl. rewrite Em2. apply insert_insert_eq. }
  assert (Hok3 : vfs_ok ({[ni]} ∪ ({[lp]} ∪ L)) (held_add hd ni) v3).
  { eapply vfs_ok_put_gen; [exact Hok2|rewrite Em2; apply lookup_insert_eq|done| |done].
    split; [|by split; constructor]. right. split; [done|]. by exists lp, target. }
  eapply (install_spec _ hd v3 d i a ch n name ni new' (fun r => r)); try done.
  - rewrite Em3. by rewrite lookup_insert_ne.
  - rewrite Em3. by rewrite lookup_insert_eq.
  - apply Hok.
  - intros v4 L4 m4 Hf4 Hok4 Hrel. split; [transitivity v2; [done|by transitivity v3]|]. split; [by exists L4|].
    right. left. split; [done|]. rewrite Em3 in Hrel. by apply released_new in Hrel.
  - intros v4 e Hf4 Hok4 Em4. rewrite Em3 in Em4.
    match goal with |- wp _ ?s ?P =>
      change (wp (do* inode_touch_m d in do* (if false then inode_ref ni else ret tt) in do* inode_unref ni in ret 0) s P) end.
    eapply wp_mono; [eapply (finish_new _ hd v4 d _ ni false); [done|done|apply Hok|rewrite Em4; by eapply installed_dir|]|].
    { unfold rc. by rewrite Em4, installed_new. }
    intros x v5 (-> & Hf5 & [L5 Hok5] & He5 & Hs5).
    split; [transitivity v2; [done|]; transitivity v3; [done|by transitivity v4]|]. split; [by exists L5|].
    right. right. split_and!; [done|done|].
    destruct (Hs5 ni (ref_up new')) as (j & Hj & Hm & Ho & Hp & _); [rewrite Em4; by apply installed_new|].
    exists ni, j, lp. split_and!; try done.
    + unfold S_ISLNK. rewrite Hm. done.
    + intros q. rewrite He5, Em4. by eapply entries_installed.
Qed.

(** Adding an entry, seen from the other inodes. *)
Lemma dentry_add_weak L hd v d i a ch n name t ti :
  vfs_ok L hd v -> v_inodes v !! d = Some i -> i_priv i = PDir a ch n -> v_inodes v !! t = Some ti ->
  zlen name <= VFS_NAME_MAX ->
  wp (dentry_add d name t) v (fun _ v' => frame v v' /\ (exists L', vfs_ok L' hd v') /\
    (exists i' a' ch' n', v_inodes v' !! d = Some i' /\ i_priv i' = PDir a' ch' n') /\
    (forall q, rc v q <= rc v' q) /\
    (forall q, q <> d -> stays (v_inodes v) (v_inodes v') q /\ entries (v_inodes v') q = entries (v_inodes v) q)).
Proof.
  intros Hok Hd Hpv Ht Hlen. eapply wp_mono; [by apply (dentry_add_spec L hd v d i a ch n name t ti)|].
  assert (Hsame : forall v', v_inodes v' = v_inodes v -> vfs_ok L hd v' ->
    (exists L', vfs_ok L' hd v') /\ (exists i' a' ch' n', v_inodes v' !! d = Some i' /\ i_priv i' = PDir a' ch' n') /\
    (forall q, rc v q <= rc v' q) /\
    (forall q, q <> d -> stays (v_inodes v) (v_inodes v') q /\ entries (v_inodes v') q = entries (v_inodes v) q)).
  { intros v' E Hok'. unfold rc. rewrite E. split_and!; [by exists L|by exists i, a, ch, n|done|].
    intros q _. split; [|done]. intros j Hj. exists j. by split. }
  intros r v' (Hf & [(_ & _ & ->)|[(_ & _ & E & Hok')|(_ & _ & e & _ & Hok' & E)]]); (split; [done|]); [by apply Hsame..|].
  set (m1 := alter ref_up t (v_inodes v)) in *.
  assert (Hd1 : exists i1, m1 !! d = Some i1 /\ i_priv i1 = PDir a ch n).
  { unfold m1. rewrite alter_lookup, Hd. case_decide; [exists (ref_up i)|exists i]; by split. }
  destruct Hd1 as (i1 & Hd1 & Hpv1). split_and!; [by eauto| | |].
  - exists (add_entry (mk_dentry e name t) i1). unfold add_entry at 2. rewrite Hpv1. do 3 eexists.
    by rewrite E, (alter_some _ _ i1), lookup_insert_eq by done.
  - intros q. unfold rc. rewrite E, (alter_some _ _ i1) by done. destruct (decide (q = d)) as [->|Hne].
    + rewrite lookup_insert_eq, Hd. unfold add_entry. rewrite Hpv1. simpl. unfold m1 in Hd1.
      rewrite alter_lookup, Hd in Hd1. case_decide; simpl in Hd1; apply (inj Some) in Hd1 as <-; simpl; lia.
    + rewrite lookup_insert_ne by done. unfold m1. rewrite alter_lookup. destruct (v_inodes v !! q) as [k|]; [|by case_decide].
      case_decide; simpl; lia.
  - intros q Hne. rewrite E. split.
    + intros j Hj. rewrite lookup_alter_ne by done. unfold m1. rewrite alter_lookup, Hj.
      case_decide; [exists (ref_up j)|exists j]; by split.
    + rewrite (entries_add _ _ i1 a ch n) by done. rewrite decide_False by done. unfold m1. by rewrite (entries_ref _ _ ti).
Qed.

Lemma ISDIR_lor mode : S_ISDIR (Z.lor (andn mode S_IFMT) S_IFDIR) = true.
Proof.
  unfold S_ISDIR, andn. apply Z.eqb_eq. rewrite Z.land_lor_distr_l, Z.land_ldiff. done.
Qed.
Lemma ISREG_lor mode : S_ISREG (Z.lor (andn mode S_IFMT) S_IFREG) = true.
Proof.
  unfold S_ISREG, andn. apply Z.eqb_eq. rewrite Z.land_lor_distr_l, Z.land_ldiff. done.
Qed.

Lemma ramfs_mkdir_spec L hd v d i a ch n name mode out :
  vfs_ok L hd v -> v_inodes v !! d = Some i -> i_priv i = PDir a ch n -> zlen name <= VFS_NAME_MAX ->
  S_ISDIR (Z.lor mode S_IFDIR) = true ->
  wp (ramfs_mkdir_impl d name mode out) v (fun x v' => frame v v' /\
    ((x.1 = - EEXIST /\ x.2 = 0 /\ name ∈ d_name <$> ch /\ v' = v) \/
     (x.1 = - ENOSPC /\ x.2 = 0 /\ unchanged v v' /\ exists L', vfs_ok L' hd v') \/
     (x.1 = 0 /\ (name ∉ d_name <$> ch) /\ exists ni L', x.2 = (if out then ni else 0) /\ v_inodes v !! ni = None /\
        vfs_ok L' (if out then held_add hd ni else hd) v' /\
        (forall q, is_Some (v_inodes v !! q) ->
           entries (v_inodes v') q = if decide (q = d) then (name, ni) :: entries (v_inodes v) d else entries (v_inodes v) q)))).
Proof.
  intros Hok Hd Hpv Hlen Hmode. unfold ramfs_mkdir_impl. wp_step. eapply wp_dir_at; [done|done|]. cbn [fst snd].
  destruct (dentry_find ch name) as [e0|] eqn:Hf.
  { wp_step. split; [reflexivity|]. left. split_and!; try done.
    apply dentry_find_Some in Hf as [Hin <-]. by apply list_elem_of_fmap_2. }
  apply dentry_find_None in Hf. wp_step. eapply wp_mono; [apply (alloc_spec L hd); [done|by vm_compute]|].
  intros nd v1 (h1 & -> & [[-> Hok1]|(Hnd0 & HndL & Hown & Hok1)]).
  { rewrite Z.eqb_refl. wp_step. split; [by split|]. right. left. split_and!; try done. by exists L. }
  rewrite (proj2 (Z.eqb_neq nd 0)) by done. set (v1 := v <| v_heap := h1 |>) in *. wp_step.
  eapply wp_mono; [apply (inode_alloc_spec ({[nd]} ∪ L) hd v1); [done|by apply new_dir_ok|done|]|].
  { intros x. pose proof (vo_addr _ _ _ Hok x). change (owns v1 x) with (owns v x). cbn [priv_addrs fmap list_fmap cnt].
    rewrite live01_add. destruct (Z.eqb_spec nd x) as [Ex|]; [rewrite <- Ex in *|]; lia. }
  intros ni v2 [Hf2 [(-> & Em2 & Hok2)|(Hni0 & HniL & Hnin & Em2 & Hok2)]].
  { rewrite Z.eqb_refl. wp_step. eapply wp_mono; [apply (free_spec ({[nd]} ∪ L) hd); [done|set_solver|]|].
    - unfold owns. rewrite Em2, (fr_handles _ _ Hf2). exact Hown.
    - intros ? v3 (h3 & -> & Hok3). wp_step. split; [transitivity v1; [by split|]; transitivity v2; [done|by split]|].
      right. left. split_and!; try done; [|by eauto]. intros q _. simpl. by rewrite Em2. }
  rewrite (proj2 (Z.eqb_neq ni 0)) by done.
  change (v_inodes v1) with (v_inodes v) in *. set (new := new_inode v1 ramfs_dir_ops (Z.lor mode S_IFDIR) (PDir nd [] 0)) in *.
  assert (Hdn : d <> ni) by congruence. assert (Hf12 : frame v v2) by (transitivity v1; [by split|done]).
  assert (Hd2 : v_inodes v2 !! d = Some i) by (rewrite Em2; by rewrite lookup_insert_ne).
  assert (Hni2 : v_inodes v2 !! ni = Some new) by (rewrite Em2; by rewrite lookup_insert_eq).
  assert (E2 : forall q, entries (v_inodes v2) q = entries (v_inodes v) q).
  { intros q. rewrite Em2. by apply entries_new. }
  wp_step. eapply wp_mono; [by eapply upd_meta_spec|]. intros ? v3 T3.
  pose proof (touched_ok _ _ _ _ _ Hok2 T3) as Hok3. wp_step.
  destruct (stays_touched _ _ _ d T3 i Hd2) as (i3 & Hd3 & _ & _ & Hpv3 & _). rewrite Hpv in Hpv3.
  destruct (stays_touched _ _ _ ni T3 new Hni2) as (n3 & Hn3 & _ & _ & Hnp3 & _).
  eapply wp_mono; [by eapply (dentry_add_weak _ (held_add hd ni) v3 ni n3 nd [] 0 (cs ".") ni n3)|].
  intros ? v4 (Hf4 & [L4 Hok4] & (n4 & a4 & ch4 & c4 & Hn4 & Hnp4) & Hrc4 & Hq4).
  destruct (Hq4 d Hdn) as [S4 _]. destruct (S4 i3 Hd3) as (i4 & Hd4 & _ & _ & Hpv4 & _). rewrite Hpv3 in Hpv4.
  wp_step. eapply wp_mono; [by eapply (dentry_add_weak _ (held_add hd ni) v4 ni n4 a4 ch4 c4 (cs "..") d i4)|].
  intros ? v5 (Hf5 & [L5 Hok5] & (n5 & a5 & ch5 & c5 & Hn5 & Hnp5) & Hrc5 & Hq5).
  destruct (Hq5 d Hdn) as [S5 _]. destruct (S5 i4 Hd4) as (i5 & Hd5 & _ & _ & Hpv5 & _). rewrite Hpv4 in Hpv5.
  assert (Hf25 : frame v v5).
  { transitivity v2; [done|]. transitivity v3; [exact (touched_frame _ _ _ T3)|]. by transitivity v4. }
  assert (E5 : forall q, is_Some (v_inodes v !! q) -> entries (v_inodes v5) q = entries (v_inodes v) q).
  { intros q [k Hk]. assert (q <> ni) by congruence. destruct (Hq5 q) as [_ ->]; [done|]. destruct (Hq4 q) as [_ ->]; [done|].
    by rewrite (entries_touched _ _ _ _ T3). }
  assert (Hrcn : 1 <= i_refcount n5).
  { specialize (Hrc4 ni). specialize (Hrc5 ni). rewrite (touched_rc _ _ _ _ T3) in Hrc4. unfold rc in *.
    rewrite Hni2, Hn4 in Hrc4. rewrite Hn4, Hn5 in Hrc5. change (i_refcount new) with 1 in Hrc4. lia. }
  eapply (install_spec _ hd v5 d i5 a ch n name ni n5 (fun r => (r, 0))); try done; [apply Hok| |].
  - intros v6 L6 m6 Hf6 Hok6 Hrel. split; [by transitivity v5|]. right. left. split_and!; try done; [|by eauto].
    intros q Hq. rewrite <- (E5 q Hq). destruct Hq as [k Hk]. eapply entries_released; [exact Hn5|exact Hrel|]. left. congruence.
  - intros v6 e Hf6 Hok6 Em6. wp_step.
    assert (Hd6 : v_inodes v6 !! d = Some (add_entry (mk_dentry e name ni) i5)).
    { by rewrite Em6, lookup_alter_eq, lookup_alter_ne, Hd5 by done. }
    eapply wp_mono; [eapply upd_meta_spec; [exact Hd6|done..]|]. intros ? v7 T7.
    pose proof (touched_ok _ _ _ _ _ Hok6 T7) as Hok7.
    destruct (stays_touched _ _ _ d T7 _ Hd6) as (i7 & Hd7 & _).
    eapply wp_mono; [eapply (finish_new _ hd v7 d _ ni out); [done|done|apply Hok|done|]|].
    { rewrite (touched_rc _ _ _ _ T7). unfold rc. rewrite Em6, lookup_alter_ne, lookup_alter_eq, Hn5 by done. simpl. lia. }
    intros x v8 (-> & Hf8 & [L8 Hok8] & He8 & Hs8).
    split; [transitivity v5; [done|]; transitivity v6; [done|]; transitivity v7; [exact (touched_frame _ _ _ T7)|done]|].
    right. right. split_and!; [done|done|]. exists ni, L8. split_and!; try done.
    intros q Hq. rewrite He8, (entries_touched _ _ _ _ T7), Em6.
    rewrite (entries_add _ _ i5 a ch n) by (try rewrite lookup_alter_ne by done; done).
    rewrite !(entries_ref _ _ n5) by done. rewrite (E5 q Hq). rewrite (E5 d) by (by exists i). done.
Qed.

(** ** Renames *)

(** A held inode with the directory operations is a directory. *)
Lemma held_dir L hd v d : vfs_ok L hd v -> d <> 0 -> 1 <= hd d ->
  (forall j, v_inodes v !! d = Some j -> i_ops j = Some ramfs_dir_ops) ->
  exists i a ch n, v_inodes v !! d = Some i /\ i_priv i = PDir a ch n /\ fst <$> entries (v_inodes v) d = d_name <$> ch.
Proof.
  intros Hok Hd0 Hhd Hops. destruct (held_live _ _ _ d Hok Hd0 Hhd) as [i Hd].
  destruct (vo_inode _ _ _ Hok _ _ Hd) as [_ [Hk _]]. unfold kind_ok in Hk. rewrite (Hops _ Hd) in Hk.
  destruct Hk as (_ & a & ch & n & Hpv). exists i, a, ch, n. split_and!; [done|done|].
  unfold entries, children. rewrite Hd, Hpv. rewrite <- list_fmap_compose. done.
Qed.

Definition without (name : cstr) (l : list (cstr * Z)) : list (cstr * Z) := filter (fun x => x.1 <> name) l.

(** The second half of a rename: [t], held, is entered in [nd] under [name] in place
    of what was there. *)
Definition replace_entry (nd : Z) (name : cstr) (t : Z) : M (vfs H) Z :=
  let* y := dir_at nd in
  do* (match dentry_find (snd (fst y)) name with
       | Some _ => do* dentry_remove nd name in ret tt
       | None => ret tt
       end) in
  dentry_add nd name t.

Lemma replace_entry_wp {A} nd name t (K : Z -> M (vfs H) A) v Q :
  wp (bind (replace_entry nd name t) K) v Q ->
  wp (let* y := dir_at nd in
      do* (match dentry_find (snd (fst y)) name with
           | Some _ => do* dentry_remove nd name in ret tt
           | None => ret tt
           end) in
      let* r := dentry_add nd name t in K r) v Q.
Proof.
  unfold replace_entry, wp, bind. destruct (dir_at nd v) as [[y v1]|]; [|done].
  destruct (dentry_find y.1.2 name); [|done]. by destruct (dentry_remove nd name v1) as [[r v2]|].
Qed.

Lemma without_id name l : name ∉ fst <$> l -> without name l = l.
Proof.
  intros Hn. apply filter_id, list.Forall_forall. intros x Hx E. apply Hn. rewrite <- E. by apply list_elem_of_fmap_2.
Qed.

Lemma replace_entry_spec L hd v nd name t :
  vfs_ok L hd v -> nd <> 0 -> t <> 0 -> 1 <= hd nd -> 1 <= hd t -> zlen name <= VFS_NAME_MAX ->
  (forall j, v_inodes v !! nd = Some j -> i_ops j = Some ramfs_dir_ops) ->
  wp (replace_entry nd name t) v (fun r v' => frame v v' /\ (exists L', vfs_ok L' hd v') /\
    (r = - ENOSPC \/ r = 0 /\ entries (v_inodes v') nd = (name, t) :: without name (entries (v_inodes v) nd)) /\
    forall q, 1 <= hd q -> q <> nd -> entries (v_inodes v') q = entries (v_inodes v) q).
Proof.
  intros Hok Hnd0 Ht0 Hnd Ht Hlen Hops. destruct (held_dir _ _ _ _ Hok Hnd0 Hnd Hops) as (i & a & ch & n & Hi & Hpv & Hnames).
  unfold replace_entry. wp_step. eapply wp_dir_at; [done|done|]. cbn [fst snd]. wp_step.
  assert (Hmid : wp (match dentry_find ch name with Some _ => do* dentry_remove nd name in ret tt | None => ret tt end) v
    (fun _ v1 => frame v v1 /\ (exists L', vfs_ok L' hd v1) /\ ops_kept (v_inodes v) (v_inodes v1) /\
      entries (v_inodes v1) nd = without name (entries (v_inodes v) nd) /\
      forall q, 1 <= hd q -> q <> nd -> entries (v_inodes v1) q = entries (v_inodes v) q)).
  { destruct (dentry_find ch name) as [e|] eqn:Hf.
    - wp_step. eapply wp_mono; [by apply (remove_spec L hd v nd i a ch n name e)|].
      intros r v1 (Hf1 & _ & Hok1 & _ & Hk1 & He1). wp_step. split_and!; try done.
      + rewrite He1 by tauto. by rewrite decide_True.
      + intros q Hq Hne. rewrite He1; [by rewrite decide_False|].
        destruct (decide (q = d_inode e)) as [->|]; tauto.
    - apply dentry_find_None in Hf. wp_step. split_and!; [reflexivity|by exists L| | |done].
      + intros q j j' E1 E2. congruence.
      + rewrite without_id; [done|]. by rewrite Hnames. }
  eapply wp_mono; [exact Hmid|]. intros ? v1 (Hf1 & [L1 Hok1] & Hk1 & En1 & Eq1).
  destruct (held_dir _ _ _ nd Hok1 Hnd0 Hnd) as (i1 & a1 & ch1 & n1 & Hi1 & Hpv1 & Hn1).
  { intros j Hj. rewrite (Hk1 _ _ _ Hi Hj). by apply Hops. }
  destruct (held_live _ _ _ t Hok1 Ht0 Ht) as [ti Hti].
  eapply wp_mono; [by apply (dentry_add_spec L1 hd v1 nd i1 a1 ch1 n1 name t ti)|].
  assert (Hn : name ∉ d_name <$> ch1).
  { rewrite <- Hn1, En1. intros (x & E & Hx)%list_elem_of_fmap. apply list_elem_of_filter in Hx as [Hx _]. congruence. }
  intros r v2 (Hf2 & [(_ & Hin & _)|[(-> & _ & E2 & Hok2)|(-> & _ & e & _ & Hok2 & E2)]]); [done| |].
  - split_and!; [by transitivity v1|by eauto|by left|]. intros q Hq Hne. rewrite E2. by apply Eq1.
  - assert (E2' : forall q, entries (v_inodes v2) q = if decide (q = nd) then (name, t) :: entries (v_inodes v1) nd else entries (v_inodes v1) q).
    { intros q. rewrite E2. set (m1 := alter ref_up t (v_inodes v1)).
      assert (Hi1' : exists i1', m1 !! nd = Some i1' /\ i_priv i1' = PDir a1 ch1 n1).
      { unfold m1. rewrite alter_lookup, Hi1. case_decide; [exists (ref_up i1)|exists i1]; by split. }
      destruct Hi1' as (i1' & Hi1' & Hpv1'). rewrite (entries_add _ _ i1' a1 ch1 n1) by done.
      unfold m1. by rewrite !(entries_ref _ _ ti). }
    split_and!; [by transitivity v1|by eauto|right; split; [done|]|].
    + rewrite E2', decide_True by done. by rewrite En1.
    + intros q Hq Hne. rewrite E2', decide_False by done. by apply Eq1.
Qed.

Lemma ramfs_rename_spec L hd v od i a ch n old nd i2 a2 ch2 n2 new :
  vfs_ok L hd v -> v_inodes v !! od = Some i -> i_priv i = PDir a ch n ->
  v_inodes v !! nd = Some i2 -> i_priv i2 = PDir a2 ch2 n2 -> 1 <= hd od -> 1 <= hd nd -> zlen new <= VFS_NAME_MAX ->
  wp (ramfs_rename_impl od old nd new) v (fun r v' => frame v v' /\ (exists L', vfs_ok L' hd v') /\
    ((r = - ENOENT /\ (old ∉ d_name <$> ch) /\ v' = v) \/ r = - ENOSPC \/
     (r = 0 /\ exists e, dentry_find ch old = Some e /\
        entries (v_inodes v') nd = (new, d_inode e) :: without new
          (if decide (nd = od) then without old (entries (v_inodes v) nd) else entries (v_inodes v) nd) /\
        (od <> nd -> entries (v_inodes v') od = without old (entries (v_inodes v) od))))).
Proof.
  intros Hok Hod Hpv Hnd Hpv2 Hhod Hhnd Hlen. unfold ramfs_rename_impl.
  wp_step. eapply wp_dir_at; [done|done|]. wp_step. eapply wp_dir_at; [done|done|]. cbn [fst snd].
  destruct (dentry_find ch old) as [e|] eqn:Hf.
  2: { wp_step. split; [reflexivity|]. split; [by exists L|]. left. apply dentry_find_None in Hf. done. }
  destruct (child_live L hd v od i e Hok Hod) as [He0 [t Ht]].
  { unfold children. rewrite Hpv. by apply dentry_find_Some in Hf as [? _]. }
  destruct (vo_inode _ _ _ Hok _ _ Hod) as [Hod0 _]. destruct (vo_inode _ _ _ Hok _ _ Hnd) as [Hnd0 _].
  destruct (is_dir_ops _ _ _ _ _ _ _ _ Hok Hod Hpv) as [Hoo _]. destruct (is_dir_ops _ _ _ _ _ _ _ _ Hok Hnd Hpv2) as [Hno _].
  wp_step. eapply wp_mono; [by apply (inode_ref_spec L hd v (d_inode e) t)|]. intros ? v1 [-> Hok1].
  match goal with |- wp _ ?s _ => set (v1 := s) in * end.
  assert (Hle : forall q, hd q <= held_add hd (d_inode e) q) by (intros q; unfold held_add; destruct (d_inode e =? q); lia).
  assert (He1 : forall q, entries (v_inodes v1) q = entries (v_inodes v) q) by (intros q; by apply (entries_same _ _ t)).
  assert (Hs1 : forall q, stays (v_inodes v) (v_inodes v1) q) by (intros q; by apply (stays_insert _ _ t)).
  destruct (Hs1 od i Hod) as (i' & Hod1 & _ & _ & Hpv1 & _). rewrite Hpv in Hpv1.
  wp_step. eapply wp_mono; [apply (remove_spec L (held_add hd (d_inode e)) v1 od i' a ch n old e); try done; specialize (Hle od); lia|].
  intros ? v2 (Hf2 & _ & [L2 Hok2] & _ & Hk2 & He2).
  assert (E2 : forall q, entries (v_inodes v2) q = if decide (q = od) then without old (entries (v_inodes v) od) else entries (v_inodes v) q).
  { intros q. rewrite He2, !He1; [done|]. right; right; right. unfold held_add. rewrite Z.eqb_refl.
    pose proof (vo_held _ _ _ Hok (d_inode e)). lia. }
  apply (replace_entry_wp nd new (d_inode e)). wp_step. eapply wp_mono.
  { apply (replace_entry_spec L2 (held_add hd (d_inode e)) v2); try done.
    - specialize (Hle nd). lia.
    - rewrite held_add_eq. pose proof (vo_held _ _ _ Hok (d_inode e)). lia.
    - intros j Hj. destruct (Hs1 nd i2 Hnd) as (j1 & Hj1 & _ & Ho1 & _). rewrite (Hk2 _ _ _ Hj1 Hj). congruence. }
  intros r v3 (Hf3 & [L3 Hok3] & Hr & He3). wp_step.
  eapply wp_mono; [apply (inode_unref_spec L3 hd); [done|done|apply Hok]|].
  intros ? v4 (t4 & L4 & h4 & m4 & Ht4 & Hrel & -> & Hok4 & _).
  assert (E4 : forall q, q <> 0 -> 1 <= hd q -> entries m4 q = entries (v_inodes v3) q).
  { intros q Hq0 Hq. destruct (held_live _ _ _ q Hok4 Hq0 Hq) as [j Hj]. change (m4 !! q = Some j) in Hj.
    destruct Hrel as [_|_]; [by apply (entries_same _ _ t4)|]. apply lookup_delete_Some in Hj as [Hne Hj].
    unfold entries. by rewrite lookup_delete_ne. }
  destruct (held_live _ _ _ od Hok4 Hod0 Hhod) as [io Hio]. destruct (held_live _ _ _ nd Hok4 Hnd0 Hhnd) as [i4 Hi4].
  wp_step. eapply wp_mono; [by eapply touch_m_spec|]. intros ? v5 T5. pose proof (touched_ok _ _ _ _ _ Hok4 T5) as Hok5.
  destruct (stays_touched _ _ _ nd T5 i4 Hi4) as (i5 & Hi5 & _).
  eapply wp_mono; [by eapply touch_end|]. intros ? v6 (-> & Hf6 & Hok6 & He6).
  split; [transitivity v1; [by split|]; transitivity v2; [done|]; transitivity v3; [done|]; transitivity (at_ h4 m4 v3);
    [by split|]; transitivity v5; [exact (touched_frame _ _ _ T5)|done]|].
  split; [by exists L4|]. right. destruct Hr as [-> |[-> Hr]]; [by left|]. right. split; [done|]. exists e.
  split_and!; [done| |].
  - rewrite He6, (entries_touched _ _ _ _ T5). simpl. rewrite E4 by done. rewrite Hr, E2. case_decide as Eq; [by rewrite Eq|done].
  - intros Hne. rewrite He6, (entries_touched _ _ _ _ T5). simpl. rewrite E4, He3, E2 by (done || specialize (Hle od); lia).
    by rewrite decide_True.
Qed.
End Tree.
