(* ===== verification/VfsFile.v ===== *)
(** * The virtual filesystem: file contents

    The contents of a ramfs file are the first [size] bytes of its buffer.  A read
    returns a part of them, a write and a truncation change them, and all three
    keep the invariant of the objects. *)

From S2P Require Import Prelude Cstring Alloc Vfs VfsSynth VfsPath VfsApi VfsInv VfsRefs VfsDir VfsOps.

Definition content (i : inode) : list byte :=
  match i_priv i with PFile _ _ bytes size _ => take (Z.to_nat size) bytes | _ => [] end.

(** ** Buffers *)

Lemma blit_some dst src off : 0 <= off -> off + zlen src <= zlen dst ->
  exists b, blit dst src off = Some b /\ length b = length dst /\
    forall k : nat, b !! k = if (off <=? Z.of_nat k) && (Z.of_nat k <? off + zlen src) then src !! Z.to_nat (Z.of_nat k - off) else dst !! k.
Proof.
  intros Ho Hl. unfold blit. destruct src as [|x src].
  - exists dst. split_and!; [done|done|]. intros k.
    destruct (Z.leb_spec off (Z.of_nat k)) as [H1|H1]; [|done]; cbn [andb].
    destruct (Z.ltb_spec (Z.of_nat k) (off + zlen (@nil byte))) as [H2|H2]; [simpl in H2; lia|done].
  - set (s := x :: src) in *. rewrite (proj2 (Z.leb_le 0 off)), (proj2 (Z.leb_le _ _)) by lia. cbn [andb].
    eexists. split; [done|]. split.
    + rewrite !length_app, length_take, length_drop. lia.
    + intros k. assert (Htk : length (take (Z.to_nat off) dst) = Z.to_nat off) by (rewrite length_take; lia).
      destruct (Z.leb_spec off (Z.of_nat k)) as [H1|H1]; cbn [andb].
      * rewrite lookup_app_r by lia. rewrite Htk. destruct (Z.ltb_spec (Z.of_nat k) (off + zlen s)) as [H2|H2].
        -- rewrite lookup_app_l by lia. by replace (k - Z.to_nat off)%nat with (Z.to_nat (Z.of_nat k - off)) by lia.
        -- rewrite lookup_app_r by lia. rewrite lookup_drop. by replace (Z.to_nat off + length s + (k - Z.to_nat off - length s))%nat with k by lia.
      * rewrite lookup_app_l by lia. rewrite lookup_take_lt by lia. done.
Qed.

Lemma zeros_lookup n k : (k < Z.to_nat n)%nat -> zeros n !! k = Some nul.
Proof. intros Hk. unfold zeros. by apply lookup_replicate_2. Qed.
Lemma zeros_length n : length (zeros n) = Z.to_nat n.
Proof. apply length_replicate. Qed.

(** [c'] is [c] with [buf] written at [off]. *)
Definition overwritten (c c' : list byte) (off : Z) (buf : list byte) : Prop :=
  zlen c' = Z.max (zlen c) (off + zlen buf) /\
  (forall k : nat, (k < length buf)%nat -> c' !! (Z.to_nat off + k)%nat = buf !! k) /\
  (forall k : nat, (k < length c)%nat -> Z.of_nat k < off \/ off + zlen buf <= Z.of_nat k -> c' !! k = c !! k).

(** [c'] is [c] cut or extended with zeros to [n] bytes. *)
Definition resized (c : list byte) (n : Z) : list byte := take (Z.to_nat n) c ++ zeros (n - zlen c).

Section File.
Context {H : Type} `{!Allocator H} `{!AllocatorLaws H}.
Implicit Types (v : vfs H) (L : gset Z) (hd : Z -> Z) (m : gmap Z inode).

(** ** Changing the buffer of a file *)

Definition swapped L L' (data data' : Z) : Prop :=
  (data' = data /\ L' = L) \/
  (data' <> 0 /\ (data' ∉ L) /\ L' = {[data']} ∪ (if data =? 0 then L else L ∖ {[data]})).

Lemma vfs_ok_file L L' hd v h' p i a data bytes size cap j data' bytes' size' cap' :
  vfs_ok L hd v -> v_inodes v !! p = Some i -> i_priv i = PFile a data bytes size cap -> heap_live h' L' ->
  i_priv j = PFile a data' bytes' size' cap' -> Z.land (i_mode j) S_IFMT = Z.land (i_mode i) S_IFMT ->
  i_ops j = i_ops i -> i_refcount j = i_refcount i -> file_ok j data' bytes' size' cap' -> swapped L L' data data' ->
  vfs_ok L' hd (at_ h' (<[p := j]> (v_inodes v)) v).
Proof.
  intros Hok Hp Hpv Hl Hpj Hm Ho Hrc Hfile Hsw. destruct (vo_inode _ _ _ Hok _ _ Hp) as [Hp0 [Hk _]].
  assert (Hdata : data <> 0 -> data ∈ L).
  { intros Hd. eapply owned_in; [done|done|]. unfold objs. rewrite Hpv. cbn [priv_addrs].
    rewrite (proj2 (Z.eqb_neq data 0)) by done. set_solver. }
  eapply vfs_ok_step; [done|done|..].
  - intros x. unfold o_of. rewrite (isum_update _ _ _ _ _ Hp). pose proof (vo_addr _ _ _ Hok x) as Hx.
    pose proof (owns_ge _ _ _ x Hp) as Hge. pose proof (live01_range L x).
    unfold objs in *. rewrite Hpv, Hpj in *. cbn [priv_addrs cnt] in *.
    destruct Hsw as [[-> ->]|(Hd' & Hd'L & ->)]; [lia|]. rewrite (proj2 (Z.eqb_neq data' 0)) by done.
    rewrite live01_add. destruct (Z.eqb_spec data' x) as [Edx|Hne]; cbn [cnt] in *.
    + rewrite <- Edx in *. rewrite Z.eqb_refl. rewrite (live01_out _ _ Hd'L) in Hx.
      pose proof (cnt_nonneg data' (if data =? 0 then [] else [data])). lia.
    + rewrite (proj2 (Z.eqb_neq data' x)) by done. destruct (Z.eqb_spec data 0) as [->|Hd0]; cbn [cnt] in *; [lia|].
      rewrite live01_del. destruct (Z.eqb_spec data x); lia.
  - intros q k. destruct (decide (q = p)) as [->|Hne].
    + rewrite lookup_insert_eq. intros E. apply (inj Some) in E as <-. split; [done|].
      split; [|split; unfold names, children; rewrite Hpj; constructor].
      unfold kind_ok in *. rewrite Ho, Hpj. rewrite Hpv in Hk. unfold S_ISREG, S_ISDIR, S_ISLNK in *. rewrite Hm.
      destruct (i_ops i) as [[]|]; try done; try (by destruct Hk as (_ & _ & ?)).
      * left. destruct Hk as [[Hr _]|(_ & ? & ? & ? & _)]; [|done]. split; [done|]. by eauto 10.
      * by destruct Hk as (_ & ? & ? & ? & ?).
    + rewrite lookup_insert_ne by done. apply (vo_inode _ _ _ Hok).
  - intros q Hq. unfold r_of. rewrite (isum_update _ _ _ _ _ Hp). pose proof (vo_refs _ _ _ Hok q Hq) as Hr.
    unfold i_refs, children. rewrite Hpv, Hpj. unfold rcm, rc in *.
    destruct (decide (q = p)) as [->|Hne]; [rewrite lookup_insert_eq; rewrite Hp in Hr; lia|].
    rewrite lookup_insert_ne by done. lia.
  - apply Hok.
Qed.

Lemma file_facts L hd v p i a data bytes size cap :
  vfs_ok L hd v -> v_inodes v !! p = Some i -> i_priv i = PFile a data bytes size cap ->
  file_ok i data bytes size cap /\ i_ops i = Some ramfs_ops /\ S_ISLNK (i_mode i) = false /\ (data <> 0 -> data ∈ L).
Proof.
  intros Hok Hp Hpv. destruct (vo_inode _ _ _ Hok _ _ Hp) as [_ [Hk _]]. unfold kind_ok in Hk. rewrite Hpv in Hk.
  assert (Hdata : data <> 0 -> data ∈ L).
  { intros Hd. eapply owned_in; [done|done|]. unfold objs. rewrite Hpv. cbn [priv_addrs].
    rewrite (proj2 (Z.eqb_neq data 0)) by done. set_solver. }
  destruct (i_ops i) as [[]|]; try done; try (by destruct Hk as (_ & _ & ?)); [|by destruct Hk as (_ & ? & ? & ? & ?)].
  destruct Hk as [(Hr & a' & d' & b' & s' & c' & E & Hf)|(_ & ? & ? & ? & _)]; [|done]. simplify_eq.
  split_and!; try done. unfold S_ISREG, S_ISLNK in *. apply Z.eqb_eq in Hr. by rewrite Hr.
Qed.

Lemma grow_spec L hd v data bytes fsize cap :
  vfs_ok L hd v -> (data <> 0 -> data ∈ L) -> (data = 0 -> fsize = 0) -> 0 < cap < 2 ^ 32 -> 0 <= fsize <= cap -> fsize <= zlen bytes ->
  wp (grow data bytes fsize cap) v (fun o v' => exists h', v' = v <| v_heap := h' |> /\
    match o with
    | None => vfs_ok L hd v'
    | Some (nb, b) => (exists L', heap_live h' L' /\ swapped L L' data nb) /\ nb <> 0 /\ zlen b = cap /\
        forall k : nat, b !! k = if Z.of_nat k <? fsize then bytes !! k else zeros cap !! k
    end).
Proof.
  intros Hok Hdata Hd0 Hcap Hfs Hfb. unfold grow. rewrite u32_small by lia. wp_step.
  eapply wp_mono; [by apply (alloc_spec L hd)|].
  intros nb v1 (h1 & -> & [[-> Hok1]|(Hnb0 & HnbL & Hown & Hok1)]).
  { rewrite Z.eqb_refl. wp_step. exists h1. by split. }
  rewrite (proj2 (Z.eqb_neq nb 0)) by done. destruct (Z.eqb_spec data 0) as [->|Hdne].
  - wp_step. exists h1. split; [done|]. split_and!; [|done|rewrite zeros_length; lia|].
    + exists ({[nb]} ∪ L). split; [apply Hok1|]. right. by rewrite Z.eqb_refl.
    + intros k. rewrite (Hd0 eq_refl). destruct (Z.ltb_spec (Z.of_nat k) 0); [lia|done].
  - wp_step. apply wp_guard; [by apply Z.leb_le|]. wp_step.
    destruct (blit_some (zeros cap) (take (Z.to_nat fsize) bytes) 0) as (b & Eb & Hlb & Hb);
      [lia|rewrite length_take, zeros_length; lia|].
    unfold wp at 1, lift. rewrite Eb. wp_step.
    eapply wp_mono; [apply (free_raw ({[nb]} ∪ L)); [apply Hok1|specialize (Hdata Hdne); set_solver]|].
    intros ? v2 (h2 & -> & Hl2). wp_step. exists h2. split; [done|]. split_and!; [|done|rewrite Hlb, zeros_length; lia|].
    + exists (({[nb]} ∪ L) ∖ {[data]}). split; [done|]. right. rewrite (proj2 (Z.eqb_neq data 0)) by done.
      split_and!; try done. specialize (Hdata Hdne). assert (nb <> data) by set_solver. set_solver.
    + intros k. rewrite Hb, length_take. rewrite (proj2 (Z.leb_le 0 _)) by lia. cbn [andb].
      destruct (Z.ltb_spec (Z.of_nat k) (0 + Z.of_nat (Z.to_nat fsize `min` length bytes))),
        (Z.ltb_spec (Z.of_nat k) fsize); try lia; [|done].
      rewrite lookup_take_lt by lia. f_equal. lia.
Qed.

Lemma content_lookup i a data bytes size cap (k : nat) :
  i_priv i = PFile a data bytes size cap -> content i !! k = if Z.of_nat k <? size then bytes !! k else None.
Proof.
  intros Hpv. unfold content. rewrite Hpv. destruct (Z.ltb_spec (Z.of_nat k) size).
  - rewrite lookup_take_lt by lia. done.
  - rewrite lookup_take_ge by lia. done.
Qed.
Lemma content_length i a data bytes size cap :
  i_priv i = PFile a data bytes size cap -> file_ok i data bytes size cap -> zlen (content i) = size.
Proof. intros Hpv (Hc & _ & Hs & _). unfold content. rewrite Hpv, length_take. lia. Qed.

(** One inode, a file, has changed; the others are as they were. *)
Definition rewritten v v' (p : Z) (j : inode) : Prop := frame v v' /\ v_inodes v' = <[p := j]> (v_inodes v).

(** ** Reading *)

Lemma ramfs_read_spec L hd v p i a data bytes size cap off n :
  vfs_ok L hd v -> v_inodes v !! p = Some i -> i_priv i = PFile a data bytes size cap -> 0 <= off -> 0 <= n < 2 ^ 63 ->
  wp (ramfs_read_impl p off n) v (fun x v' =>
    x = (Z.max 0 (Z.min n (size - off)), take (Z.to_nat n) (drop (Z.to_nat off) (content i))) /\
    (v' = v \/ touched v v' p)).
Proof.
  intros Hok Hp Hpv Hoff Hn. destruct (file_facts _ _ _ _ _ _ _ _ _ _ Hok Hp Hpv) as (Hf & _ & Hl & _).
  pose proof Hf as (Hc & Hc32 & Hs & _). pose proof (content_length _ _ _ _ _ _ Hpv Hf) as Hlen.
  unfold ramfs_read_impl. wp_step. eapply wp_inode_at; [done|]. rewrite Hl, Hpv. destruct (Z.leb_spec size off) as [Hge|Hlt].
  - wp_step. split; [|by left]. rewrite drop_ge by lia. rewrite take_nil. f_equal. lia.
  - assert (Hmin : (if size - off <? n then size - off else n) = Z.min n (size - off))
      by (destruct (Z.ltb_spec (size - off) n); lia).
    rewrite Hmin. wp_step. apply wp_guard; [apply Z.leb_le; lia|]. wp_step.
    eapply wp_mono; [by eapply touch_a_spec|]. intros ? v' T. wp_step. split; [|by right].
    rewrite i64_small by lia. f_equal; [lia|]. unfold slice, content. rewrite Hpv.
    apply list_eq. intros k. destruct (decide (Z.of_nat k < Z.min n (size - off))) as [Hk|Hk].
    + rewrite !lookup_take_lt, !lookup_drop, lookup_take_lt by lia. done.
    + rewrite lookup_take_ge by lia. symmetry. destruct (decide (Z.of_nat k < n)).
      * rewrite lookup_take_lt, lookup_drop, lookup_take_ge by lia. done.
      * by rewrite lookup_take_ge by lia.
Qed.

(** ** Writing *)

Lemma wp_lift_some {A} (o : option A) a v (Q : A -> vfs H -> Prop) :
  o = Some a -> Q a v -> wp (lift (match o with Some b => Done b | None => Fault end)) v Q.
Proof. intros -> HQ. exact HQ. Qed.

(** What a change of the contents leaves alone. *)
Definition same_meta (i j : inode) : Prop :=
  (i_mode j, i_uid j, i_gid j, i_ops j, i_refcount j) = (i_mode i, i_uid i, i_gid i, i_ops i, i_refcount i).

(** Storing the new buffer and size of a file and its times. *)
Lemma store_file L L' hd v h' p i a data bytes size cap data' bytes' size' cap' (r : Z) :
  vfs_ok L hd v -> v_inodes v !! p = Some i -> i_priv i = PFile a data bytes size cap -> heap_live h' L' ->
  swapped L L' data data' -> cap' = zlen bytes' -> cap' < 2 ^ 32 -> 0 <= size' <= cap' -> (data' = 0 -> bytes' = []) ->
  wp (do* upd_inode p (fun i => i <| i_priv := PFile a data' bytes' size' cap' |> <| i_size := size' |>) in
      do* inode_touch_m p in ret r) (v <| v_heap := h' |>) (fun x v' => x = r /\ vfs_ok L' hd v' /\
    exists j, rewritten v v' p j /\ i_priv j = PFile a data' bytes' size' cap' /\ i_size j = size' /\ same_meta i j).
Proof.
  intros Hok Hp Hpv Hl Hsw Hcap H32 Hs Hd. wp_step. eapply wp_upd_inode; [exact Hp|]. cbv beta.
  set (j := i <| i_priv := PFile a data' bytes' size' cap' |> <| i_size := size' |>).
  match goal with |- wp _ ?s _ => set (v1 := s) end.
  assert (Hok1 : vfs_ok L' hd v1).
  { change (vfs_ok L' hd (at_ h' (<[p := j]> (v_inodes v)) v)). eapply (vfs_ok_file L L' hd v h' p i); done. }
  assert (Hp1 : v_inodes v1 !! p = Some j) by apply lookup_insert_eq.
  unfold inode_touch_m, now. do 3 wp_step. eapply wp_upd_inode; [exact Hp1|]. wp_step.
  set (t := mk_ts (v_ticks v1 / 100) 0). split; [done|]. split.
  - eapply vfs_ok_put; [exact Hok1|exact Hp1|done|done].
  - exists (j <| i_mtime := t |> <| i_ctime := t |>). split_and!; try done. split; [by split|].
    unfold v1. simpl. by rewrite insert_insert_eq.
Qed.

Lemma ramfs_write_spec L hd v p i a data bytes size cap off buf :
  vfs_ok L hd v -> v_inodes v !! p = Some i -> i_priv i = PFile a data bytes size cap ->
  0 <= off -> off + zlen buf + 512 < 2 ^ 32 ->
  wp (ramfs_write_impl p off buf) v (fun r v' => frame v v' /\ (exists L', vfs_ok L' hd v') /\
    ((r = - ENOSPC /\ v_inodes v' = v_inodes v) \/
     (r = zlen buf /\ exists j, rewritten v v' p j /\ (exists d b s c, i_priv j = PFile a d b s c) /\
        same_meta i j /\ i_size j = Z.max size (off + zlen buf) /\ overwritten (content i) (content j) off buf))).
Proof.
  intros Hok Hp Hpv Hoff Hbig. destruct (file_facts _ _ _ _ _ _ _ _ _ _ Hok Hp Hpv) as (Hf & _ & _ & Hdata).
  pose proof Hf as (Hc & Hc32 & Hs & Hd0 & _). pose proof (content_length _ _ _ _ _ _ Hpv Hf) as Hlen.
  unfold ramfs_write_impl. wp_step. eapply wp_inode_at; [done|]. rewrite Hpv. rewrite (u64_small (off + _)) by lia.
  rewrite u64_small by lia. set (need := off + zlen buf) in *. wp_step.
  assert (Hfin : forall h' L' d' b' c', heap_live h' L' -> swapped L L' data d' -> c' = zlen b' -> c' < 2 ^ 32 ->
    need <= c' -> size <= c' -> (d' = 0 -> b' = []) ->
    (forall k : nat, Z.of_nat k < size -> b' !! k = bytes !! k) ->
    wp (let* b := lift (match blit b' buf off with Some b => Done b | None => Fault end) in
        let fsize' := if size <? need then need else size in
        do* upd_inode p (fun i => i <| i_priv := PFile a d' b fsize' c' |> <| i_size := fsize' |>) in
        do* inode_touch_m p in ret (i64 (zlen buf))) (v <| v_heap := h' |>) (fun r v' => frame v v' /\ (exists L', vfs_ok L' hd v') /\
      ((r = - ENOSPC /\ v_inodes v' = v_inodes v) \/
       (r = zlen buf /\ exists j, rewritten v v' p j /\ (exists d b s c, i_priv j = PFile a d b s c) /\
        same_meta i j /\ i_size j = Z.max size need /\ overwritten (content i) (content j) off buf)))).
  { intros h' L' d' b' c' Hl Hsw Hc' H32 Hneed Hsz Hd' Hb'.
    destruct (blit_some b' buf off) as (b & Eb & Hlb & Hb); [lia|unfold need in *; lia|].
    wp_step. eapply wp_lift_some; [exact Eb|]. cbv zeta. set (fsize' := if size <? need then need else size).
    assert (Hfs : fsize' = Z.max size need) by (unfold fsize'; destruct (Z.ltb_spec size need); lia).
    eapply wp_mono; [eapply (store_file L L' hd v h' p i); try done; [lia|lia|]|].
    { intros E. apply Hd' in E. rewrite E in Hlb. by destruct b. }
    intros r v' (-> & Hok' & j & [Hfr Hm] & Hpj & Hsj & Hrj). split; [done|]. split; [by exists L'|]. right.
    split; [apply i64_small; lia|]. exists j. split_and!; [by split|by eauto|done|by rewrite Hsj|].
    assert (Hcl : forall k : nat, content j !! k = if Z.of_nat k <? fsize' then b !! k else None)
      by (intros k; by eapply content_lookup).
    split_and!.
    - rewrite Hlen. unfold content. rewrite Hpj, length_take. fold need. lia.
    - intros k Hk. rewrite Hcl. rewrite (proj2 (Z.ltb_lt _ _)) by (unfold need in *; lia). rewrite Hb.
      rewrite (proj2 (Z.leb_le _ _)), (proj2 (Z.ltb_lt _ _)) by lia. cbn [andb].
      by replace (Z.to_nat (Z.of_nat (Z.to_nat off + k) - off)) with k by lia.
    - intros k Hk Hout. rewrite Hcl. rewrite (proj2 (Z.ltb_lt _ _)) by lia. rewrite Hb.
      rewrite (content_lookup _ _ _ _ _ _ k Hpv). rewrite (proj2 (Z.ltb_lt _ size)) by lia. rewrite <- Hb' by lia.
      destruct (Z.leb_spec off (Z.of_nat k)), (Z.ltb_spec (Z.of_nat k) (off + zlen buf)); cbn [andb]; try done. lia. }
  destruct (Z.ltb_spec cap need) as [Hgrow|Hfit].
  - wp_step. eapply wp_mono; [apply (grow_spec L hd v data bytes size (need + 512)); try done; try lia|].
    { intros E. apply Hd0 in E. rewrite E in Hc. simpl in Hc. lia. }
    intros o v1 (h1 & -> & Ho). wp_step. destruct o as [[nb b]|].
    + destruct Ho as ((L' & Hl & Hsw) & Hnb & Hlb & Hb). eapply (Hfin h1 L'); try done; try lia.
      intros k Hk. rewrite Hb. by rewrite (proj2 (Z.ltb_lt _ _)).
    + wp_step. split; [by split|]. split; [by exists L|]. by left.
  - wp_step. assert (E : v = v <| v_heap := v_heap v |>) by (by destruct v). rewrite E at 1.
    eapply (Hfin (v_heap v) L); try done; try lia; [apply Hok|by left].
Qed.

(** ** Truncation *)

Lemma resized_lookup c n (k : nat) : 0 <= n ->
  resized c n !! k = if Z.of_nat k <? n then (if Z.of_nat k <? zlen c then c !! k else Some nul) else None.
Proof.
  intros Hn. unfold resized. destruct (decide (Z.of_nat k < Z.min n (zlen c))) as [Hk|Hk].
  - rewrite lookup_app_l by (rewrite length_take; lia). rewrite lookup_take_lt by lia.
    by rewrite (proj2 (Z.ltb_lt _ n)), (proj2 (Z.ltb_lt _ (zlen c))) by lia.
  - rewrite lookup_app_r by (rewrite length_take; lia). rewrite length_take.
    destruct (Z.ltb_spec (Z.of_nat k) n) as [Hkn|Hkn].
    + rewrite (proj2 (Z.ltb_ge _ (zlen c))) by lia. apply zeros_lookup. lia.
    + apply lookup_ge_None_2. rewrite zeros_length. lia.
Qed.

Lemma ramfs_truncate_spec L hd v p i a data bytes size cap n :
  vfs_ok L hd v -> v_inodes v !! p = Some i -> i_priv i = PFile a data bytes size cap -> 0 <= n < 2 ^ 32 ->
  wp (ramfs_truncate_impl p n) v (fun r v' => frame v v' /\ (exists L', vfs_ok L' hd v') /\
    ((r = - ENOSPC /\ v_inodes v' = v_inodes v) \/
     (r = 0 /\ exists j, rewritten v v' p j /\ (exists d b s c, i_priv j = PFile a d b s c) /\
        same_meta i j /\ i_size j = n /\ content j = resized (content i) n))).
Proof.
  intros Hok Hp Hpv Hn. destruct (file_facts _ _ _ _ _ _ _ _ _ _ Hok Hp Hpv) as (Hf & _ & _ & Hdata).
  pose proof Hf as (Hc & Hc32 & Hs & Hd0 & _). pose proof (content_length _ _ _ _ _ _ Hpv Hf) as Hlen.
  unfold ramfs_truncate_impl. wp_step. eapply wp_inode_at; [done|]. rewrite Hpv. wp_step.
  assert (Hfin : forall h' L' d' b' c', heap_live h' L' -> swapped L L' data d' -> c' = zlen b' -> c' < 2 ^ 32 -> n <= c' ->
    (d' = 0 -> b' = []) ->
    (forall k : nat, Z.of_nat k < n -> b' !! k = if Z.of_nat k <? size then bytes !! k else Some nul) ->
    wp (do* upd_inode p (fun i => i <| i_priv := PFile a d' b' n c' |> <| i_size := n |>) in
        do* inode_touch_m p in ret 0) (v <| v_heap := h' |>) (fun r v' => frame v v' /\ (exists L', vfs_ok L' hd v') /\
      ((r = - ENOSPC /\ v_inodes v' = v_inodes v) \/
       (r = 0 /\ exists j, rewritten v v' p j /\ (exists d b s c, i_priv j = PFile a d b s c) /\
        same_meta i j /\ i_size j = n /\ content j = resized (content i) n)))).
  { intros h' L' d' b' c' Hl Hsw Hc' H32 Hle Hd' Hb'.
    eapply wp_mono; [eapply (store_file L L' hd v h' p i); try done; lia|].
    intros r v' (-> & Hok' & j & [Hfr Hm] & Hpj & Hsj & Hrj). split; [done|]. split; [by exists L'|]. right.
    split; [done|]. exists j. split_and!; [by split|by eauto|done|done|].
    apply list_eq. intros k. rewrite resized_lookup, Hlen by lia. rewrite (content_lookup _ _ _ _ _ _ k Hpj).
    destruct (Z.ltb_spec (Z.of_nat k) n); [|done]. rewrite Hb' by done.
    destruct (Z.ltb_spec (Z.of_nat k) size); [|done]. rewrite (content_lookup _ _ _ _ _ _ k Hpv).
    by rewrite (proj2 (Z.ltb_lt _ _)). }
  assert (E : v = v <| v_heap := v_heap v |>) by (by destruct v).
  destruct (Z.ltb_spec n size) as [Hsm|Hbig]; [|destruct (Z.ltb_spec cap n) as [Hgrow|Hfit]].
  - wp_step. rewrite E at 1. eapply (Hfin (v_heap v) L); try done; try lia; [apply Hok|by left|].
    intros k Hk. by rewrite (proj2 (Z.ltb_lt _ _)) by lia.
  - wp_step. eapply wp_mono; [apply (grow_spec L hd v data bytes size n); try done; try lia|].
    { intros E0. apply Hd0 in E0. rewrite E0 in Hc. simpl in Hc. lia. }
    intros o v1 (h1 & -> & Ho). wp_step. destruct o as [[nb b]|].
    + destruct Ho as ((L' & Hl & Hsw) & Hnb & Hlb & Hb). eapply (Hfin h1 L'); try done; try lia.
      intros k Hk. rewrite Hb. destruct (Z.ltb_spec (Z.of_nat k) size); [done|]. apply zeros_lookup. lia.
    + wp_step. split; [by split|]. split; [by exists L|]. by left.
  - wp_step. destruct (blit_some bytes (zeros (n - size)) size) as (b & Eb & Hlb & Hb); [lia|rewrite zeros_length; lia|].
    eapply wp_lift_some; [exact Eb|]. wp_step. rewrite E at 1.
    eapply (Hfin (v_heap v) L); try done; try lia; [apply Hok|by left| |].
    + intros E0. apply Hd0 in E0. rewrite E0 in Hlb. by destruct b.
    + intros k Hk. rewrite Hb, zeros_length. destruct (Z.ltb_spec (Z.of_nat k) size).
      * rewrite (proj2 (Z.leb_gt _ _)) by done. done.
      * rewrite (proj2 (Z.leb_le _ _)), (proj2 (Z.ltb_lt _ _)) by lia. cbn [andb]. apply zeros_lookup. lia.
Qed.
End File.
