(* ===== verification/VfsFd.v ===== *)
(** * The virtual filesystem: descriptors

    Descriptors keep the invariant, and each operation on them. *)

From S2P Require Import Prelude Cstring CstringProps Alloc Vfs VfsSynth VfsPath VfsApi VfsInv VfsRefs VfsDir VfsOps VfsTree VfsFile.

(** ** Fragments that do not look at the descriptors *)

Definition blind {H A} (m : M (vfs H) A) : Prop := forall v x,
  m (v <| v_fds := x |>) = match m v with Done (a, v') => Done (a, v' <| v_fds := x |>) | Fault => Fault end.

Section Blind.
Context {H : Type} `{!Allocator H}.

Lemma blind_ret {A} (a : A) : blind (H := H) (ret a).
Proof. by intros v x. Qed.
Lemma blind_bind {A B} (m : M (vfs H) A) (k : A -> M (vfs H) B) : blind m -> (forall a, blind (k a)) -> blind (bind m k).
Proof. intros Hm Hk v x. unfold bind. rewrite (Hm v x). destruct (m v) as [[a v']|]; [apply Hk|done]. Qed.
Lemma blind_for_each {A} (f : A -> M (vfs H) unit) l : (forall a, blind (f a)) -> blind (for_each f l).
Proof. intros Hf. induction l as [|a l IH]; cbn [for_each]; [apply blind_ret|]. by apply blind_bind. Qed.
Lemma blind_fault {A} : blind (H := H) (@fault _ A).
Proof. by intros v x. Qed.
Lemma blind_inode_at p : blind (H := H) (inode_at p).
Proof. intros v x. unfold inode_at, deref. simpl. by destruct (v_inodes v !! p). Qed.
Lemma blind_put_inode p i : blind (H := H) (put_inode p i).
Proof. by intros v x. Qed.
Lemma blind_free p : blind (H := H) (free p).
Proof. intros v x. unfold free, zoom. simpl. by destruct (kfree p (v_heap v)) as [[[] h]|]. Qed.
Lemma blind_delete p : blind (H := H) (modify (fun v => v <| v_inodes := delete p (v_inodes v) |>)).
Proof. by intros v x. Qed.

Lemma blind_unref p : blind (H := H) (inode_unref p).
Proof.
  unfold inode_unref, upd_inode. destruct (p =? 0); [apply blind_ret|].
  apply blind_bind; [apply blind_bind; [apply blind_inode_at|intros; apply blind_put_inode]|]. intros _.
  apply blind_bind; [apply blind_inode_at|]. intros i. destruct (i_refcount i <=? 0); [|apply blind_ret].
  apply blind_bind; [|intros; apply blind_bind; [apply blind_free|intros; apply blind_delete]].
  destruct (i_ops i) as [o|]; [|apply blind_ret]. destruct (op_destroy o) as [f|] eqn:E; [|apply blind_ret].
  assert (Hf : f = ramfs_destroy_file) by (destruct o; simplify_eq/=; done). subst f.
  unfold ramfs_destroy_file. apply blind_bind; [apply blind_inode_at|]. intros j.
  destruct (i_priv j), (S_ISREG (i_mode j)), (S_ISLNK (i_mode j)), (S_ISDIR (i_mode j));
    repeat first [apply blind_ret|apply blind_fault|apply blind_free|apply blind_for_each; intros
      |apply blind_bind; [|intros]|match goal with |- blind (if ?b then _ else _) => destruct b end].
Qed.

Lemma wp_blind {A} (m : M (vfs H) A) v x Q : blind m ->
  wp m (v <| v_fds := x |>) (fun a v' => Q a (v' <| v_fds := v_fds v |>)) -> wp m v Q.
Proof.
  intros Hb. unfold wp. rewrite (Hb v x). pose proof (Hb v (v_fds v)) as Hself.
  assert (E : v <| v_fds := v_fds v |> = v) by (by destruct v). rewrite E in Hself.
  destruct (m v) as [[a v']|]; [|done]. injection Hself as Hv. by rewrite Hv at 2.
Qed.
End Blind.

Section Fd.
Context {H : Type} `{!Allocator H} `{!AllocatorLaws H}.
Implicit Types (v : vfs H) (L : gset Z) (hd : Z -> Z) (m : gmap Z inode).

Definition fd_ref (q : Z) (f : vfs_fd) : Z := if f_used f && (f_inode f =? q) then 1 else 0.

Lemma fd_refs_sum q fds : cnt q (fd_refs fds) = foldr (fun f acc => fd_ref q f + acc) 0 fds.
Proof.
  unfold fd_refs. induction fds as [|f fds IH]; [done|]. rewrite filter_cons. cbn [foldr]. rewrite <- IH. unfold fd_ref.
  destruct (f_used f) eqn:E; [rewrite decide_True by done|rewrite decide_False by done]; cbn [fmap list_fmap cnt andb]; lia.
Qed.

Lemma fd_refs_set q fds fd f f' : aget fds fd = Some f ->
  cnt q (fd_refs (aset fds fd f')) = cnt q (fd_refs fds) - fd_ref q f + fd_ref q f'.
Proof.
  rewrite !fd_refs_sum. unfold aget, aset. destruct (Z.ltb_spec fd 0); [done|].
  generalize (Z.to_nat fd). clear. induction fds as [|g fds IH]; intros k Hk; [done|].
  destruct k as [|k].
  - change (Some g = Some f) in Hk. apply (inj Some) in Hk as ->. change (<[0%nat := f']> (f :: fds)) with (f' :: fds).
    cbn [foldr]. lia.
  - change (fds !! k = Some f) in Hk. apply IH in Hk. change (<[S k := f']> (g :: fds)) with (g :: <[k := f']> fds).
    cbn [foldr]. lia.
Qed.

(** Changing one descriptor. *)
Lemma vfs_ok_fd L hd hd' v fd f f' :
  vfs_ok L hd v -> aget (v_fds v) fd = Some f ->
  (f_used f' = true -> f_inode f' <> 0 /\ 0 <= f_offset f') -> (forall q, 0 <= hd' q) ->
  (forall q, q <> 0 -> fd_ref q f' + hd' q <= fd_ref q f + hd q) ->
  vfs_ok L hd' (v <| v_fds := aset (v_fds v) fd f' |>).
Proof.
  intros [] Hf Hu Hpos Hq. constructor; try done.
  - intros q Hq0. specialize (vo_refs q Hq0). specialize (Hq q Hq0). unfold refs, rc in *. simpl.
    rewrite (fd_refs_set _ _ _ _ _ Hf). lia.
  - intros g Hg Hgu. simpl in Hg. unfold aset in Hg. destruct (fd <? 0); [by apply vo_used|].
    apply list_elem_of_lookup in Hg as [k Hk]. apply list_lookup_insert_Some in Hk as [(_ & <- & _)|[_ Hk]]; [by apply Hu|].
    apply vo_used; [by eapply list_elem_of_lookup_2|done].
  - simpl. by rewrite aset_length.
Qed.

Lemma fd_ok_facts v fd : fd_ok v fd = true -> exists f, aget (v_fds v) fd = Some f /\ f_used f = true /\ f ∈ v_fds v.
Proof.
  unfold fd_ok. destruct (aget (v_fds v) fd) as [f|] eqn:E; [|done]. intros [_ Hu]%andb_true_iff. exists f.
  split_and!; [done|done|]. unfold aget in E. destruct (fd <? 0); [done|]. by eapply list_elem_of_lookup_2.
Qed.

Lemma wp_fd_at v fd f Q : aget (v_fds v) fd = Some f -> Q f v -> wp (fd_at fd) v Q.
Proof. intros Hf HQ. unfold fd_at. by eapply wp_deref. Qed.
Lemma wp_upd_fd v fd f g Q :
  aget (v_fds v) fd = Some f -> Q tt (v <| v_fds := aset (v_fds v) fd (g f) |>) -> wp (upd_fd fd g) v Q.
Proof. intros Hf HQ. unfold upd_fd. wp_step. by eapply wp_fd_at. Qed.

(** A change of offset. *)
Lemma vfs_ok_offset L hd v fd f o :
  vfs_ok L hd v -> aget (v_fds v) fd = Some f -> f ∈ v_fds v -> 0 <= o ->
  vfs_ok L hd (v <| v_fds := aset (v_fds v) fd (f <| f_offset := o |>) |>).
Proof.
  intros Hok Hf Hin Ho. eapply vfs_ok_fd; [done|done| |apply Hok|].
  - intros Hu. simpl in Hu. destruct (vo_used _ _ _ Hok f Hin Hu) as [? _]. done.
  - intros q Hq. unfold fd_ref. simpl. lia.
Qed.

Lemma vfs_ok_errno L hd v e : vfs_ok L hd v -> vfs_ok L hd (v <| v_errno := e |>).
Proof. intros Hok. by eapply vfs_ok_ext. Qed.

(** ** Close, dup *)

Lemma vfs_close_spec L hd v fd :
  vfs_ok L hd v ->
  wp (vfs_close fd) v (fun _ v' => (exists L', vfs_ok L' hd v') /\
    v_fds v' = (if fd_ok v fd then aset (v_fds v) fd fd_zero else v_fds v) /\ v_root v' = v_root v /\ v_mounts v' = v_mounts v).
Proof.
  intros Hok. unfold vfs_close. do 2 wp_step. destruct (fd_ok v fd) eqn:Hfd; cbn [negb]; [|wp_step; split; [by exists L|done]].
  destruct (fd_ok_facts _ _ Hfd) as (f & Hf & Hu & Hin). destruct (vo_used _ _ _ Hok f Hin Hu) as [Hp0 _].
  wp_step. eapply wp_fd_at; [done|]. wp_step.
  eapply (wp_blind _ _ (aset (v_fds v) fd fd_zero)); [apply blind_unref|].
  assert (Hok1 : vfs_ok L (held_add hd (f_inode f)) (v <| v_fds := aset (v_fds v) fd fd_zero |>)).
  { eapply vfs_ok_fd; [done|done|done|apply held_add_nonneg, Hok|]. intros q Hq. unfold fd_ref, held_add. rewrite Hu. cbn [f_used fd_zero andb].
    destruct (f_inode f =? q); lia. }
  eapply wp_mono; [apply (inode_unref_spec L hd); [done|done|apply Hok]|].
  intros ? v' (i & L' & h' & m' & _ & _ & -> & Hok' & _). unfold put_fd. wp_step. split; [|done].
  exists L'. eapply vfs_ok_ext; [exact Hok'|done..].
Qed.

Lemma fd_copy_spec L hd v newfd g f :
  vfs_ok L hd v -> aget (v_fds v) newfd = Some g -> f_used g = false -> f ∈ v_fds v -> f_used f = true ->
  wp (do* put_fd newfd f in do* inode_ref (f_inode f) in ret newfd) v (fun r v' =>
    r = newfd /\ vfs_ok L hd v' /\ v_fds v' = aset (v_fds v) newfd f).
Proof.
  intros Hok Hg Hgu Hin Hu. destruct (fd_live _ _ _ _ Hok Hin Hu) as [Hp0 [i Hi]].
  unfold put_fd, inode_ref. do 3 wp_step. rewrite (proj2 (Z.eqb_neq (f_inode f) 0)) by done.
  eapply wp_upd_inode; [exact Hi|]. wp_step. split; [done|]. split; [|done].
  assert (Hok1 : vfs_ok L (held_add hd (f_inode f)) (v <| v_inodes := <[f_inode f := ref_up i]> (v_inodes v) |>)).
  { eapply (vfs_ok_count _ hd); [done|done|apply held_add_nonneg, Hok|by intros; apply held_add_ne|apply held_add_eq]. }
  eapply vfs_ok_ext; [eapply (vfs_ok_fd L _ hd _ newfd g f Hok1)|done..]; [done|by intros; apply (vo_used _ _ _ Hok)|apply Hok|].
  intros q Hq. unfold fd_ref, held_add. rewrite Hu, Hgu. cbn [andb]. destruct (f_inode f =? q); lia.
Qed.

Lemma fd_alloc_spec v :
  wp fd_alloc v (fun fd v' => 
    (fd = -1 /\ v' = v <| v_errno := EMFILE |> /\ (forall k, 3 <= k < FD_MAX -> fd_free v k = false)) \/
    (v' = v /\ 3 <= fd < FD_MAX /\ fd_free v fd = true /\ forall k, 3 <= k < fd -> fd_free v k = false)).
Proof.
  unfold fd_alloc. do 2 wp_step. destruct (first_idx (fd_free v) 3 FD_MAX) as [k|] eqn:E.
  - wp_step. right. apply first_idx_Some in E as (? & ? & ?). done.
  - unfold fail, set_errno. do 3 wp_step. left. split_and!; [done|done|]. by apply first_idx_None.
Qed.

Lemma fd_free_facts v fd : fd_free v fd = true -> exists g, aget (v_fds v) fd = Some g /\ f_used g = false.
Proof. unfold fd_free. destruct (aget (v_fds v) fd) as [g|]; [|done]. intros Hg%negb_true_iff. by exists g. Qed.

Lemma vfs_dup_spec L hd v fd : vfs_ok L hd v ->
  wp (vfs_dup fd) v (fun r v' => vfs_ok L hd v' /\
    ((r = -1 /\ v_fds v' = v_fds v) \/
     (fd_ok v fd = true /\ 3 <= r < FD_MAX /\ fd_free v r = true /\ (forall k, 3 <= k < r -> fd_free v k = false) /\
      exists f, aget (v_fds v) fd = Some f /\ v_fds v' = aset (v_fds v) r f))).
Proof.
  intros Hok. unfold vfs_dup, fail, set_errno. do 2 wp_step. destruct (fd_ok v fd) eqn:Hfd; cbn [negb].
  2: { do 3 wp_step. split; [by apply vfs_ok_errno|by left]. }
  destruct (fd_ok_facts _ _ Hfd) as (f & Hf & Hu & Hin). wp_step. eapply wp_mono; [apply fd_alloc_spec|].
  intros r v1 [(-> & -> & _)|(-> & Hr & Hfree & Hmin)].
  { change (-1 <? 0) with true. cbn match. wp_step. split; [by apply vfs_ok_errno|by left]. }
  rewrite (proj2 (Z.ltb_ge r 0)) by lia. wp_step. eapply wp_fd_at; [done|].
  destruct (fd_free_facts _ _ Hfree) as (g & Hg & Hgu).
  eapply wp_mono; [by apply (fd_copy_spec L hd v r g f)|]. intros r' v' (-> & Hok' & Hfds). split; [done|]. right.
  split_and!; try done; try lia. by exists f.
Qed.

Lemma vfs_dup2_spec L hd v fd newfd : vfs_ok L hd v ->
  wp (vfs_dup2 fd newfd) v (fun r v' => (exists L', vfs_ok L' hd v') /\
    ((r = -1 /\ v_fds v' = v_fds v) \/
     (r = newfd /\ fd_ok v fd = true /\ exists f, aget (v_fds v) fd = Some f /\
        (newfd = fd /\ v' = v \/ newfd <> fd /\ v_fds v' = aset (v_fds v) newfd f)))).
Proof.
  intros Hok. unfold vfs_dup2, fail, set_errno. do 2 wp_step. destruct (fd_ok v fd) eqn:Hfd; cbn [negb].
  2: { do 3 wp_step. split; [exists L; by apply vfs_ok_errno|by left]. }
  destruct (fd_ok_facts _ _ Hfd) as (f & Hf & Hu & Hin).
  destruct ((newfd <? 0) || (FD_MAX <=? newfd)) eqn:Hr; [do 3 wp_step; split; [exists L; by apply vfs_ok_errno|by left]|].
  apply orb_false_iff in Hr as [Hr1%Z.ltb_ge Hr2%Z.leb_gt].
  destruct (Z.eqb_spec newfd fd) as [->|Hne]; [wp_step; split; [by exists L|]; right; split_and!; try done; exists f; split; [done|by left]|].
  do 2 wp_step.
  assert (Hmid : wp (if fd_ok v newfd then vfs_close newfd else ret tt) v (fun _ v1 => (exists L1, vfs_ok L1 hd v1) /\
    v_fds v1 = (if fd_ok v newfd then aset (v_fds v) newfd fd_zero else v_fds v))).
  { destruct (fd_ok v newfd) eqn:E; [|wp_step; split; [by exists L|done]].
    eapply wp_mono; [by apply (vfs_close_spec L hd)|]. intros ? v1 (Hok1 & Hf1 & _). by rewrite E in Hf1. }
  wp_step. eapply wp_mono; [exact Hmid|]. intros ? v1 ([L1 Hok1] & Hf1).
  assert (Hlen : 0 <= newfd < zlen (v_fds v)) by (rewrite (vo_nfds _ _ _ Hok); unfold FD_MAX in *; lia).
  assert (Hg : exists g, aget (v_fds v1) newfd = Some g /\ f_used g = false).
  { rewrite Hf1. destruct (fd_ok v newfd) eqn:E.
    - exists fd_zero. split; [by apply aget_aset_eq|done].
    - destruct (aget_is_Some (v_fds v) newfd Hlen) as [g Hg]. exists g. split; [done|]. unfold fd_ok in E. rewrite Hg in E.
      by rewrite (proj2 (Z.ltb_lt _ _)) in E by done. }
  destruct Hg as (g & Hg & Hgu).
  assert (Hf1' : aget (v_fds v1) fd = Some f).
  { rewrite Hf1. destruct (fd_ok v newfd); [by rewrite aget_aset_ne|done]. }
  wp_step. eapply wp_fd_at; [exact Hf1'|].
  eapply wp_mono; [apply (fd_copy_spec L1 hd v1 newfd g f); try done|].
  { unfold aget in Hf1'. destruct (fd <? 0); [done|]. by eapply list_elem_of_lookup_2. }
  intros r v2 (-> & Hok2 & Hf2). split; [by exists L1|]. right. split_and!; try done. exists f. split; [done|]. right.
  split; [done|]. rewrite Hf2, Hf1. destruct (fd_ok v newfd); [|done]. unfold aset. destruct (newfd <? 0); [done|].
  by rewrite list_insert_insert_eq.
Qed.

(** ** Reading *)

Lemma require_spec L hd v p w : vfs_ok L hd v -> is_Some (v_inodes v !! p) ->
  wp (vfs_require p w) v (fun r v' => vfs_ok L hd v' /\ frame v v' /\ v_inodes v' = v_inodes v /\ (r = 0 /\ v' = v \/ r = -1)).
Proof.
  intros Hok [i Hp]. destruct (vo_inode _ _ _ Hok _ _ Hp) as [Hp0 _].
  unfold vfs_require, vfs_access, set_errno. wp_step. rewrite (proj2 (Z.eqb_neq p 0)) by done. do 2 wp_step.
  assert (Hend : forall b : bool, wp (if b then ret 0 else do* modify (fun v => v <| v_errno := EACCES |>) in ret (-1)) v
    (fun r v' => vfs_ok L hd v' /\ frame v v' /\ v_inodes v' = v_inodes v /\ (r = 0 /\ v' = v \/ r = -1))).
  { intros []; [wp_step; split_and!; [done|by split|done|by left]|].
    do 3 wp_step. split_and!; [by apply vfs_ok_errno|by split|done|by right]. }
  destruct (v_uid v =? 0); [wp_step; apply (Hend true)|]. do 3 wp_step. eapply wp_inode_at; [done|]. wp_step. apply Hend.
Qed.

Lemma uptime_prints (a b : Z) : exists t, printed (S (length (cs "%u.00 %u.00" ++ nl))) (cs "%u.00 %u.00" ++ nl) [VInt a; VInt b] = Some t.
Proof. eexists. reflexivity. Qed.
Lemma meminfo_prints (a b c : Z) : exists t, printed (S (length meminfo_format)) meminfo_format [VInt a; VInt b; VInt c] = Some t.
Proof. eexists. reflexivity. Qed.

(** A step that changes neither the inodes nor the descriptors. *)
Definition quiet v v' : Prop := v_inodes v' = v_inodes v /\ v_fds v' = v_fds v.

Lemma op_read_spec L hd v p i o g off n :
  vfs_ok L hd v -> v_inodes v !! p = Some i -> i_ops i = Some o -> op_read o = Some g -> 0 <= off -> 0 <= n < 2 ^ 63 ->
  wp (g p off n) v (fun x v' => vfs_ok L hd v' /\ v_fds v' = v_fds v).
Proof.
  intros Hok Hp Ho Hg Hoff Hn. destruct (vo_inode _ _ _ Hok _ _ Hp) as [_ [Hk _]]. unfold kind_ok in Hk. rewrite Ho in Hk.
  assert (Hheap : forall (m : M H Z), wp m (v_heap v) (fun n h' => 0 <= n < 2 ^ 32 /\ heap_live h' L) ->
    wp (zoom v_heap (fun h (v : vfs H) => v <| v_heap := h |>) m) v (fun _ v' => vfs_ok L hd v' /\ v_fds v' = v_fds v)).
  { intros m Hm. wp_step. eapply wp_mono; [exact Hm|]. intros z h' [_ Hl]. split; [|done]. eapply vfs_ok_heap; [done|done|apply Hok]. }
  destruct o; simpl in Hg; simplify_eq.
  - destruct Hk as [(_ & a & data & bytes & size & cap & Hpv & _)|(Hl & a & t & Hpv & _)].
    + eapply wp_mono; [by eapply ramfs_read_spec|]. intros x v' [_ [->|T]]; [done|].
      split; [exact (touched_ok _ _ _ _ _ Hok T)|exact (fr_fds _ _ (touched_frame _ _ _ T))].
    + unfold ramfs_read_impl. wp_step. eapply wp_inode_at; [done|]. rewrite Hl, Hpv. destruct (_ <=? _); by wp_step.
  - done.
  - done.
  - unfold devrandom_read. do 2 wp_step. destruct (rng_bytes _ _) as [l r]. do 3 wp_step. split; [by eapply vfs_ok_ext|done].
  - done.
  - done.
  - unfold proc_uptime_read. do 3 wp_step. destruct (uptime_prints (u32 (v_ticks v / 100)) (u32 (v_ticks v / 100))) as [t Ht].
    unfold lift. rewrite (ksnprintf_take 32 _ _ _ ltac:(lia) Ht). done.
  - unfold proc_meminfo_read. wp_step. eapply wp_mono; [apply Hheap, free_bytes_law, Hok|]. intros fb v1 [Hok1 Hf1]. wp_step.
    wp_step. eapply wp_mono; [apply used_bytes_law, Hok1|]. intros ub h2 [_ Hl2]. wp_step.
    destruct (meminfo_prints (256 * 1024) (fb / 1024) (u32 (256 * 1024 - ub / 1024))) as [t Ht].
    unfold lift. rewrite (ksnprintf_take 256 _ _ _ ltac:(lia) Ht). unfold wp at 1. cbv beta iota. split; [|done].
    eapply vfs_ok_heap; [exact Hok1|done|apply Hok1].
  - done.
  - done.
Qed.
End Fd.

Section FdOps.
Context {H : Type} `{!Allocator H} `{!AllocatorLaws H}.
Implicit Types (v : vfs H) (L : gset Z) (hd : Z -> Z) (m : gmap Z inode).

Definition ok_after hd {A} : A -> vfs H -> Prop := fun _ v' => exists L', vfs_ok L' hd v'.

Lemma fail_ok {A} L hd v e (a : A) : vfs_ok L hd v -> wp (fail e a) v (ok_after hd).
Proof. intros Hok. unfold fail, set_errno. do 3 wp_step. exists L. by apply vfs_ok_errno. Qed.

(** The common start: the descriptor is open. *)
Lemma with_fd {A} L hd v fd e (a : A) (K : M (vfs H) A) :
  vfs_ok L hd v ->
  (forall f i, aget (v_fds v) fd = Some f -> f_used f = true -> f ∈ v_fds v -> v_inodes v !! f_inode f = Some i ->
     wp K v (ok_after hd)) ->
  wp (let* ok := gets (fun v => fd_ok v fd) in if negb ok then fail e a else K) v (ok_after hd).
Proof.
  intros Hok HK. do 2 wp_step. destruct (fd_ok v fd) eqn:Hfd; cbn [negb]; [|by apply (fail_ok L)].
  destruct (fd_ok_facts _ _ Hfd) as (f & Hf & Hu & Hin). destruct (fd_live _ _ _ _ Hok Hin Hu) as [_ [i Hi]]. by eapply HK.
Qed.

Lemma op_of_spec {A} (f : fsops -> option A) v p i Q :
  v_inodes v !! p = Some i -> Q (o ← i_ops i; f o) v -> wp (op_of f p) v Q.
Proof. intros Hp HQ. unfold op_of. wp_step. eapply wp_inode_at; [done|]. by wp_step. Qed.

Lemma aget_elem {A} (l : list A) k x : aget l k = Some x -> x ∈ l.
Proof. unfold aget. destruct (k <? 0); [done|]. apply list_elem_of_lookup_2. Qed.

Lemma vfs_read_ok L hd v fd n : vfs_ok L hd v -> 0 <= n < 2 ^ 63 -> wp (vfs_read fd n) v (ok_after hd).
Proof.
  intros Hok Hn. unfold vfs_read. apply (with_fd L); [done|]. intros f i Hf Hu Hin Hi.
  wp_step. eapply wp_fd_at; [done|]. destruct (_ =? O_WRONLY); [by apply (fail_ok L)|].
  wp_step. eapply wp_mono; [apply (require_spec L hd); [done|by exists i]|].
  intros r v1 (Hok1 & Hfr & Em & [[-> ->]| -> ]); [|change (-1 <? 0) with true; cbn match; wp_step; by exists L].
  change (0 <? 0) with false. cbn match. wp_step. eapply op_of_spec; [done|].
  destruct (o ← i_ops i; op_read o) as [g|] eqn:Eg; [|by apply (fail_ok L)].
  apply bind_Some in Eg as (o & Ho & Hg). wp_step. destruct (vo_used _ _ _ Hok f Hin Hu) as [_ Hoff].
  eapply wp_mono; [by eapply (op_read_spec L hd)|]. intros [k bs] v2 [Hok2 Hf2]. wp_step.
  destruct (0 <? k); [|do 2 wp_step; by exists L].
  rewrite <- Hf2 in Hf, Hin. eapply wp_upd_fd; [exact Hf|]. wp_step. exists L.
  apply vfs_ok_offset; try done. apply u64_range.
Qed.

Definition writable v (fd n : Z) : Prop := forall f i,
  aget (v_fds v) fd = Some f -> f_used f = true -> v_inodes v !! f_inode f = Some i ->
  S_ISLNK (i_mode i) = false /\ Z.max (f_offset f) (i_size i) + n + 512 < 2 ^ 32.

Lemma op_write_spec L hd v p i o g off buf :
  vfs_ok L hd v -> v_inodes v !! p = Some i -> i_ops i = Some o -> op_write o = Some g -> S_ISLNK (i_mode i) = false ->
  0 <= off -> off + zlen buf + 512 < 2 ^ 32 ->
  wp (g p off buf) v (fun _ v' => (exists L', vfs_ok L' hd v') /\ v_fds v' = v_fds v).
Proof.
  intros Hok Hp Ho Hg Hl Hoff Hbig. destruct (vo_inode _ _ _ Hok _ _ Hp) as [_ [Hk _]]. unfold kind_ok in Hk. rewrite Ho in Hk.
  destruct o; simpl in Hg; simplify_eq; try (unfold devnull_write; wp_step; by split; [exists L|]).
  destruct Hk as [(_ & a & data & bytes & size & cap & Hpv & _)|(Hl' & _)]; [|congruence].
  eapply wp_mono; [by eapply (ramfs_write_spec L hd)|]. intros r v' (Hfr & Hok' & _). split; [done|apply Hfr].
Qed.

Lemma file_size L hd v p i o g : vfs_ok L hd v -> v_inodes v !! p = Some i -> i_ops i = Some o -> op_write (H := H) o = Some g ->
  S_ISLNK (i_mode i) = false -> o = ramfs_ops -> 0 <= i_size i.
Proof.
  intros Hok Hp Ho Hg Hl ->. destruct (vo_inode _ _ _ Hok _ _ Hp) as [_ [Hk _]]. unfold kind_ok in Hk. rewrite Ho in Hk.
  destruct Hk as [(_ & a & data & bytes & size & cap & _ & (_ & _ & Hs & _ & E))|(Hl' & _)]; [lia|congruence].
Qed.

Lemma vfs_write_ok L hd v fd buf :
  vfs_ok L hd v -> writable v fd (zlen buf) -> (forall p i, v_inodes v !! p = Some i -> 0 <= i_size i) ->
  wp (vfs_write fd buf) v (ok_after hd).
Proof.
  intros Hok Hw Hsz. unfold vfs_write. apply (with_fd L); [done|]. intros f i Hf Hu Hin Hi.
  destruct (Hw f i Hf Hu Hi) as [Hl Hbig]. destruct (vo_used _ _ _ Hok f Hin Hu) as [_ Hoff]. specialize (Hsz _ _ Hi).
  wp_step. eapply wp_fd_at; [done|]. destruct (_ =? O_RDONLY); [by apply (fail_ok L)|].
  wp_step. eapply wp_mono; [apply (require_spec L hd); [done|by exists i]|].
  intros r v1 (Hok1 & Hfr & Em & [[-> ->]| -> ]); [|change (-1 <? 0) with true; cbn match; wp_step; by exists L].
  change (0 <? 0) with false. cbn match. wp_step. eapply op_of_spec; [done|].
  destruct (o ← i_ops i; op_write o) as [g|] eqn:Eg; [|by apply (fail_ok L)].
  apply bind_Some in Eg as (o & Ho & Hg). wp_step. eapply wp_inode_at; [done|]. wp_step.
  set (off := if has (f_flags f) O_APPEND then i_size i else f_offset f).
  assert (Hmid : wp (if has (f_flags f) O_APPEND then upd_fd fd (fun f => f <| f_offset := i_size i |>) else ret tt) v
    (fun _ v2 => vfs_ok L hd v2 /\ v_inodes v2 = v_inodes v /\ exists f2, aget (v_fds v2) fd = Some f2 /\ f2 ∈ v_fds v2 /\
       f_inode f2 = f_inode f /\ f_offset f2 = off)).
  { unfold off. destruct (has (f_flags f) O_APPEND).
    - eapply wp_upd_fd; [done|]. split; [by apply vfs_ok_offset|]. split; [done|]. simpl.
      assert (E : aget (aset (v_fds v) fd (f <| f_offset := i_size i |>)) fd = Some (f <| f_offset := i_size i |>)).
      { apply aget_aset_eq. by eapply aget_Some_range. }
      eexists. split_and!; [exact E|by eapply aget_elem|done|done].
    - wp_step. split_and!; [done|done|]. by exists f. }
  eapply wp_mono; [exact Hmid|]. intros ? v2 (Hok2 & Em2 & f2 & Hf2 & Hin2 & Ei & Eo).
  wp_step. eapply wp_fd_at; [exact Hf2|]. rewrite Ei, Eo. wp_step.
  eapply wp_mono; [eapply (op_write_spec L hd v2); [done|by rewrite Em2|done|done|done| |]|].
  { unfold off. destruct (has _ _); lia. }
  { unfold off. destruct (has _ _); lia. }
  intros n v3 ([L3 Hok3] & Hf3). wp_step. rewrite <- Hf3 in Hf2, Hin2. destruct (0 <? n); [|do 2 wp_step; by exists L3].
  eapply wp_upd_fd; [exact Hf2|]. wp_step. exists L3. apply vfs_ok_offset; try done. apply u64_range.
Qed.

Lemma vfs_lseek_ok L hd v fd off whence : vfs_ok L hd v -> wp (vfs_lseek fd off whence) v (ok_after hd).
Proof.
  intros Hok. unfold vfs_lseek. apply (with_fd L); [done|]. intros f i Hf Hu Hin Hi.
  wp_step. eapply wp_fd_at; [done|]. wp_step.
  assert (Hend : forall o : option Z, wp (match o with
    | None => fail EINVAL (-1)
    | Some b => let newoff := i64 (b + off) in
      if newoff <? 0 then fail EINVAL (-1) else do* upd_fd fd (fun f => f <| f_offset := newoff |>) in ret newoff end) v (ok_after hd)).
  { intros [b|]; [|by apply (fail_ok L)]. cbv zeta. destruct (Z.ltb_spec (i64 (b + off)) 0); [by apply (fail_ok L)|].
    wp_step. eapply wp_upd_fd; [done|]. wp_step. exists L. by apply vfs_ok_offset. }
  destruct (whence =? SEEK_SET); [wp_step; apply (Hend (Some _))|]. destruct (whence =? SEEK_CUR); [wp_step; apply (Hend (Some _))|].
  destruct (whence =? SEEK_END); [|wp_step; apply (Hend None)]. wp_step. eapply wp_inode_at; [done|]. wp_step. apply (Hend (Some _)).
Qed.

Lemma vfs_fstat_ok L hd v fd : vfs_ok L hd v -> wp (vfs_fstat fd) v (ok_after hd).
Proof.
  intros Hok. unfold vfs_fstat. apply (with_fd L); [done|]. intros f i Hf Hu Hin Hi.
  wp_step. eapply wp_fd_at; [done|]. unfold do_stat. wp_step. eapply op_of_spec; [done|].
  destruct (o ← i_ops i; op_stat o) as [g|] eqn:E; [|wp_step; by exists L].
  apply bind_Some in E as (o & _ & [= <-]). wp_step. unfold ramfs_stat_impl. wp_step. eapply wp_inode_at; [done|].
  do 2 wp_step. by exists L.
Qed.

Lemma chmod_same_type old new : Z.land (chmod_mode old new) S_IFMT = Z.land old S_IFMT.
Proof.
  unfold chmod_mode, andn. rewrite Z.land_lor_distr_l, Z.land_ldiff, Z.lor_0_r. by rewrite <- Z.land_assoc, Z.land_diag.
Qed.

Lemma op_meta_ok {A} L hd v p i (f : fsops -> option A) d (k : A -> M (vfs H) Z) :
  vfs_ok L hd v -> v_inodes v !! p = Some i -> (forall o g, f o = Some g -> wp (k g) v (ok_after hd)) ->
  wp (op_or f p d k) v (ok_after hd).
Proof.
  intros Hok Hp Hk. unfold op_or. wp_step. eapply op_of_spec; [done|].
  destruct (o ← i_ops i; f o) as [g|] eqn:E; [|wp_step; by exists L]. apply bind_Some in E as (o & _ & Hg). by eapply Hk.
Qed.

Lemma chmod_ok L hd v p i o g mode :
  vfs_ok L hd v -> v_inodes v !! p = Some i -> op_chmod o = Some g -> wp (g p mode) v (ok_after hd).
Proof.
  intros Hok Hp Hg. assert (g = ramfs_chmod_impl) as -> by (destruct o; simplify_eq/=; done).
  unfold ramfs_chmod_impl, now. do 3 wp_step.
  eapply wp_mono; [eapply upd_meta_spec; [done| |done|done]; split_and!; try done; apply chmod_same_type|].
  intros ? v' T. wp_step. exists L. exact (touched_ok _ _ _ _ _ Hok T).
Qed.

Lemma chown_ok L hd v p i o g uid gid :
  vfs_ok L hd v -> v_inodes v !! p = Some i -> op_chown o = Some g -> wp (g p uid gid) v (ok_after hd).
Proof.
  intros Hok Hp Hg. assert (g = ramfs_chown_impl) as -> by (destruct o; simplify_eq/=; done).
  unfold ramfs_chown_impl, now. do 3 wp_step. eapply wp_mono; [by eapply upd_meta_spec|].
  intros ? v' T. wp_step. exists L. exact (touched_ok _ _ _ _ _ Hok T).
Qed.

Lemma vfs_fchmod_ok L hd v fd mode : vfs_ok L hd v -> wp (vfs_fchmod fd mode) v (ok_after hd).
Proof.
  intros Hok. unfold vfs_fchmod. apply (with_fd L); [done|]. intros f i Hf Hu Hin Hi.
  wp_step. eapply wp_fd_at; [done|]. wp_step. eapply wp_inode_at; [done|]. do 2 wp_step.
  destruct (_ && _); [by apply (fail_ok L)|]. apply (op_meta_ok L hd v _ i); [done|done|]. intros o g Hg. by eapply chmod_ok.
Qed.

Lemma vfs_fchown_ok L hd v fd uid gid : vfs_ok L hd v -> wp (vfs_fchown fd uid gid) v (ok_after hd).
Proof.
  intros Hok. unfold vfs_fchown. apply (with_fd L); [done|]. intros f i Hf Hu Hin Hi.
  wp_step. eapply wp_fd_at; [done|]. do 2 wp_step.
  destruct (negb _); [by apply (fail_ok L)|]. apply (op_meta_ok L hd v _ i); [done|done|]. intros o g Hg. by eapply chown_ok.
Qed.

Lemma truncate_ok L hd v p i o g n :
  vfs_ok L hd v -> v_inodes v !! p = Some i -> i_ops i = Some o -> op_truncate o = Some g -> S_ISLNK (i_mode i) = false ->
  0 <= n < 2 ^ 32 -> wp (g p n) v (fun _ v' => (exists L', vfs_ok L' hd v') /\ frame v v').
Proof.
  intros Hok Hp Ho Hg Hl Hn. destruct o; simpl in Hg; simplify_eq.
  destruct (vo_inode _ _ _ Hok _ _ Hp) as [_ [Hk _]]. unfold kind_ok in Hk. rewrite Ho in Hk.
  destruct Hk as [(_ & a & data & bytes & size & cap & Hpv & _)|(Hl' & _)]; [|congruence].
  eapply wp_mono; [by eapply (ramfs_truncate_spec L hd)|]. intros r v' (Hfr & Hok' & _). by split.
Qed.

Definition resizable v (fd n : Z) : Prop := 0 <= n < 2 ^ 32 /\ forall f i,
  aget (v_fds v) fd = Some f -> f_used f = true -> v_inodes v !! f_inode f = Some i -> S_ISLNK (i_mode i) = false.

Lemma vfs_ftruncate_ok L hd v fd n : vfs_ok L hd v -> resizable v fd n -> wp (vfs_ftruncate fd n) v (ok_after hd).
Proof.
  intros Hok [Hn Hl]. unfold vfs_ftruncate. do 2 wp_step. destruct (fd_ok v fd) eqn:Hfd; cbn [negb]; [|wp_step; by exists L].
  destruct (fd_ok_facts _ _ Hfd) as (f & Hf & Hu & Hin). destruct (fd_live _ _ _ _ Hok Hin Hu) as [_ [i Hi]].
  wp_step. eapply wp_fd_at; [done|]. wp_step. eapply wp_mono; [apply (require_spec L hd); [done|by exists i]|].
  intros r v1 (Hok1 & Hfr & Em & [[-> ->]| -> ]); [|change (-1 <? 0) with true; cbn match; wp_step; by exists L].
  change (0 <? 0) with false. cbn match. unfold op_or. wp_step. eapply op_of_spec; [done|].
  destruct (o ← i_ops i; op_truncate o) as [g|] eqn:E; [|wp_step; by exists L]. apply bind_Some in E as (o & Ho & Hg).
  eapply wp_mono; [eapply (truncate_ok L hd v); eauto|]. by intros ? v' [? _].
Qed.

Lemma vfs_fd_readdir_ok L hd v fd : vfs_ok L hd v -> wp (vfs_fd_readdir fd) v (ok_after hd).
Proof.
  intros Hok. unfold vfs_fd_readdir. do 2 wp_step. destruct (fd_ok v fd) eqn:Hfd; cbn [negb]; [|wp_step; by exists L].
  destruct (fd_ok_facts _ _ Hfd) as (f & Hf & Hu & Hin). destruct (fd_live _ _ _ _ Hok Hin Hu) as [_ [i Hi]].
  wp_step. eapply wp_fd_at; [done|]. destruct (_ =? 0); [wp_step; by exists L|]. wp_step. eapply wp_inode_at; [done|].
  destruct (negb _); [wp_step; by exists L|]. wp_step. eapply op_of_spec; [done|].
  destruct (o ← i_ops i; op_readdir o) as [g|] eqn:E; [|wp_step; by exists L]. apply bind_Some in E as (o & Ho & Hg).
  wp_step. eapply wp_mono; [apply (require_spec L hd); [done|by exists i]|].
  intros r v1 (Hok1 & Hfr & Em & [[-> ->]| -> ]); [|change (-1 <? 0) with true; cbn match; wp_step; by exists L].
  change (0 <? 0) with false. cbn match. destruct (_ <? _); [wp_step; by exists L|].
  destruct o; simpl in Hg; simplify_eq. destruct (vo_inode _ _ _ Hok _ _ Hi) as [_ [Hk _]]. unfold kind_ok in Hk. rewrite Ho in Hk.
  destruct Hk as (_ & a & ch & n & Hpv). wp_step. eapply wp_mono; [by eapply (ramfs_readdir_spec L hd)|].
  intros [r de] v2 [-> _]. destruct (negb _); [wp_step; by exists L|]. wp_step. eapply wp_upd_fd; [done|]. wp_step.
  exists L. apply vfs_ok_offset; try done. apply u64_range.
Qed.

Lemma vfs_fd_path_ok L hd v fd n : vfs_ok L hd v -> wp (vfs_fd_path fd n) v (ok_after hd).
Proof.
  intros Hok. unfold vfs_fd_path. do 2 wp_step. destruct (fd_ok v fd) eqn:Hfd; cbn [negb orb]; [|by apply (fail_ok L)].
  destruct (n =? 0); [by apply (fail_ok L)|]. destruct (fd_ok_facts _ _ Hfd) as (f & Hf & Hu & Hin).
  wp_step. eapply wp_fd_at; [done|]. destruct (_ <? _); [by apply (fail_ok L)|]. wp_step. by exists L.
Qed.

(** ** All of them *)

Inductive fd_op :=
| FRead (fd n : Z) | FWrite (fd : Z) (buf : list byte) | FSeek (fd off whence : Z) | FDup (fd : Z) | FDup2 (fd newfd : Z)
| FClose (fd : Z) | FStat (fd : Z) | FChmod (fd mode : Z) | FChown (fd uid gid : Z) | FTruncate (fd n : Z)
| FReaddir (fd : Z) | FPath (fd size : Z).

Definition run_fd (op : fd_op) : M (vfs H) unit :=
  match op with
  | FRead fd n => do* vfs_read fd n in ret tt
  | FWrite fd buf => do* vfs_write fd buf in ret tt
  | FSeek fd off whence => do* vfs_lseek fd off whence in ret tt
  | FDup fd => do* vfs_dup fd in ret tt
  | FDup2 fd newfd => do* vfs_dup2 fd newfd in ret tt
  | FClose fd => vfs_close fd
  | FStat fd => do* vfs_fstat fd in ret tt
  | FChmod fd mode => do* vfs_fchmod fd mode in ret tt
  | FChown fd uid gid => do* vfs_fchown fd uid gid in ret tt
  | FTruncate fd n => do* vfs_ftruncate fd n in ret tt
  | FReaddir fd => do* vfs_fd_readdir fd in ret tt
  | FPath fd size => do* vfs_fd_path fd size in ret tt
  end.

(** What the operation must not be asked: sizes that do not fit the 32 bits of an
    allocation, and a symbolic link opened for writing. *)
Definition op_fits (op : fd_op) v : Prop :=
  match op with
  | FRead _ n => 0 <= n < 2 ^ 63
  | FWrite fd buf => writable v fd (zlen buf) /\ (forall p i, v_inodes v !! p = Some i -> 0 <= i_size i)
  | FTruncate fd n => resizable v fd n
  | _ => True
  end.

Lemma ret_after {A} hd v (m : M (vfs H) A) : wp m v (ok_after hd) -> wp (do* m in ret tt) v (ok_after hd).
Proof. intros Hm. wp_step. eapply wp_mono; [exact Hm|]. intros a v' Hv. by wp_step. Qed.

Lemma run_fd_ok L hd v op : vfs_ok L hd v -> op_fits op v -> wp (run_fd op) v (ok_after hd).
Proof.
  intros Hok Hfit. destruct op; simpl in Hfit; cbn [run_fd]; try apply ret_after.
  - by apply (vfs_read_ok L).
  - destruct Hfit. by apply (vfs_write_ok L).
  - by apply (vfs_lseek_ok L).
  - eapply wp_mono; [by apply (vfs_dup_spec L hd)|]. intros ? v' [? _]. by exists L.
  - eapply wp_mono; [by apply (vfs_dup2_spec L hd)|]. by intros ? v' [? _].
  - eapply wp_mono; [by apply (vfs_close_spec L hd)|]. by intros ? v' [? _].
  - by apply (vfs_fstat_ok L).
  - by apply (vfs_fchmod_ok L).
  - by apply (vfs_fchown_ok L).
  - by apply (vfs_ftruncate_ok L).
  - by apply (vfs_fd_readdir_ok L).
  - by apply (vfs_fd_path_ok L).
Qed.
End FdOps.
