(* ===== verification/VfsWalk.v ===== *)
(** * The virtual filesystem: path resolution follows the tree

    A path without symbolic links is resolved by walking the directories: the
    reference is [tree_walk], a function of the inodes alone. *)

From S2P Require Import Prelude Cstring CstringProps Alloc Vfs VfsSynth VfsPath VfsApi VfsInv VfsRefs VfsDir VfsOps VfsTree VfsFile VfsFd.

(** ** Inodes up to their reference counts *)

Definition drop_rc (i : inode) : inode := i <| i_refcount := 0 |>.
Definition same_but_rc (m m' : gmap Z inode) : Prop := forall q, drop_rc <$> m !! q = drop_rc <$> m' !! q.

#[export] Instance same_but_rc_equiv : Equivalence same_but_rc.
Proof. split; [by intros m q|by intros m m' E q|]. intros m1 m2 m3 E1 E2 q. by rewrite E1. Qed.

Lemma same_but_rc_insert m p i c : m !! p = Some i -> same_but_rc m (<[p := i <| i_refcount := c |>]> m).
Proof.
  intros Hp q. destruct (decide (q = p)) as [->|Hne]; [by rewrite lookup_insert_eq, Hp|by rewrite lookup_insert_ne].
Qed.

Lemma same_but_rc_lookup m m' q i : same_but_rc m m' -> m !! q = Some i -> exists j, m' !! q = Some j /\ drop_rc i = drop_rc j.
Proof. intros E Hq. specialize (E q). rewrite Hq in E. destruct (m' !! q) as [j|]; [|done]. exists j. by apply (inj Some) in E. Qed.

(** ** The reference walk *)

Inductive wres := Found (p : Z) | Absent (e : Z) | Symlink.

(** The child of a directory; [..] leads to the directory itself. *)
Definition child (i : inode) (cur : Z) (c : cstr) : option Z :=
  if bool_decide (c = cs "..") then Some cur else d_inode <$> dentry_find (children i) c.

Fixpoint tree_walk (m : gmap Z inode) (nofollow : bool) (comps : list cstr) (cur : Z) : wres :=
  match comps with
  | [] => Found cur
  | c :: rest =>
    match m !! cur with
    | Some i =>
      match i_priv i with
      | PDir _ _ _ =>
        match child i cur c with
        | None => Absent ENOENT
        | Some t =>
          match m !! t with
          | Some ti =>
            if S_ISLNK (i_mode ti) && negb (bool_decide (rest = []) && nofollow) then Symlink
            else tree_walk m nofollow rest (if i_mountpoint ti =? 0 then t else i_mountpoint ti)
          | None => Absent ENOENT
          end
        end
      | _ => Absent ENOTDIR
      end
    | None => Absent ENOENT
    end
  end.

#[export] Instance tree_walk_proper : Proper (same_but_rc ==> eq ==> eq ==> eq ==> eq) tree_walk.
Proof.
  intros m m' E nf ? <- comps ? <- cur ? <-. revert cur. induction comps as [|c rest IH]; intros cur; [done|]. cbn [tree_walk].
  destruct (m !! cur) as [i|] eqn:Ei.
  - destruct (same_but_rc_lookup _ _ _ _ E Ei) as (j & Hj & Hd). rewrite Hj.
    assert (Hpv : i_priv i = i_priv j) by (change (i_priv (drop_rc i) = i_priv (drop_rc j)); by rewrite Hd).
    assert (Hc : child i cur c = child j cur c) by (unfold child, children; by rewrite Hpv).
    rewrite Hpv, Hc. destruct (i_priv j); try done. destruct (child j cur c) as [t|]; [|done].
    destruct (m !! t) as [ti|] eqn:Et.
    + destruct (same_but_rc_lookup _ _ _ _ E Et) as (tj & Htj & Htd). rewrite Htj.
      assert (Hm : i_mode ti = i_mode tj) by (change (i_mode (drop_rc ti) = i_mode (drop_rc tj)); by rewrite Htd).
      assert (Hp : i_mountpoint ti = i_mountpoint tj) by (change (i_mountpoint (drop_rc ti) = i_mountpoint (drop_rc tj)); by rewrite Htd).
      rewrite Hm, Hp. destruct (_ && _); [done|]. apply IH.
    + specialize (E t). rewrite Et in E. by destruct (m' !! t).
  - specialize (E cur). rewrite Ei in E. by destruct (m' !! cur).
Qed.

Lemma tree_walk_same m m' nf comps cur : same_but_rc m m' -> tree_walk m nf comps cur = tree_walk m' nf comps cur.
Proof. intros E. by apply tree_walk_proper. Qed.

(** ** Paths *)

(** The absolute path with these components. *)
Definition path_of (comps : list cstr) : cstr := concat (map (fun c => slash :: c) comps).
Definition tail_of (comps : list cstr) : cstr := match comps with [] => [] | c :: rest => c ++ path_of rest end.

Record comp_ok (c : cstr) : Prop := {
  ck_ne : c <> [];
  ck_dot : c <> cs ".";
  ck_chars : Forall (fun b => b <> nul /\ b <> slash) c;
  ck_len : zlen c <= VFS_NAME_MAX }.

Lemma path_of_cons c rest : path_of (c :: rest) = slash :: c ++ path_of rest.
Proof. done. Qed.
Lemma path_of_tail rest : path_of rest = [] \/ path_of rest = slash :: tail_of rest.
Proof. destruct rest as [|c rest]; [by left|by right]. Qed.

Lemma str_at_app m p s t : str_at m p (s ++ t) -> str_at m (p + zlen s) t /\ 0 <= p.
Proof.
  revert p. induction s as [|c s IH]; intros p; simpl app.
  - intros Hs. simpl. rewrite Z.add_0_r. split; [done|]. by destruct Hs.
  - intros (_ & _ & Hp & Hs)%str_at_cons. apply IH in Hs as [Hs _].
    split; [|done]. by replace (p + zlen (c :: s)) with (p + 1 + zlen s) by (simpl; lia).
Qed.

(** The byte a string starts with, NUL for the empty one. *)
Lemma rd_str m p s : str_at m p s -> rd m p = Done (match s with [] => nul | c :: _ => c end).
Proof.
  unfold rd. destruct s as [|c s]; [by intros [_ ->]%str_at_nil|by intros (-> & _)%str_at_cons].
Qed.

Lemma component_spec n : forall c m p t,
  str_at m p (c ++ t) -> Forall (fun b => b <> nul /\ b <> slash) c -> (length c <= n)%nat ->
  (t = [] \/ exists t', t = slash :: t') ->
  component n m p = Done (c, p + zlen c).
Proof.
  induction n as [|n IH]; intros c m p t Hs Hc Hn Ht.
  - destruct c; [|simpl in Hn; lia]. simpl. by rewrite Z.add_0_r.
  - cbn [component]. destruct c as [|b c].
    + simpl app in Hs. rewrite (rd_str _ _ _ Hs). cbn [obind]. destruct Ht as [->|[t' ->]]; simpl; by rewrite Z.add_0_r.
    + apply list.Forall_cons in Hc as [[Hb1 Hb2] Hc]. simpl app in Hs. rewrite (rd_str _ _ _ Hs). cbn [obind].
      apply str_at_cons in Hs as (_ & _ & _ & Hs). rewrite is_nul_ne, bool_decide_false by done. cbn [orb].
      rewrite (IH c m (p + 1) t Hs Hc); [|simpl in Hn; lia|done]. cbn [obind fst snd].
      do 2 f_equal. simpl. lia.
Qed.

Lemma str_loop_spec : forall s m p fuel, str_at m p s -> (length s < fuel)%nat -> str_loop fuel m p = Done s.
Proof.
  induction s as [|c s IH]; intros m p fuel Hs Hf; (destruct fuel as [|fuel]; [simpl in Hf; lia|]); cbn [str_loop];
    rewrite (rd_str _ _ _ Hs); cbn [obind].
  - by rewrite is_nul_nul.
  - apply str_at_cons in Hs as (_ & Hc & _ & Hs). rewrite is_nul_ne by done. rewrite (IH m (p + 1) fuel Hs) by (simpl in Hf; lia). done.
Qed.

Lemma str_of_spec m p s : str_at m p s -> str_of m p = Done s.
Proof. intros Hs. apply str_loop_spec; [done|]. apply str_at_length in Hs. lia. Qed.

(** A string copied to the start of a buffer. *)
Lemma poke_start n s : 0 <= n -> zlen s < n -> Forall (fun b => b <> nul) s ->
  exists m, poke (zeros n) 0 s = Done m /\ str_at m 0 s /\ zlen m = n.
Proof.
  intros Hn Hl Hs. unfold poke. destruct (blit_some (zeros n) (s ++ [nul]) 0) as (m & -> & Hlen & Hm); [lia| |].
  { rewrite length_app, zeros_length. simpl. lia. }
  exists m. rewrite length_app in Hm. simpl in Hm. split_and!; [done| |rewrite Hlen, zeros_length; lia].
  split_and!; [lia|done| |].
  - intros k c Hk. pose proof (lookup_lt_Some _ _ _ Hk). change (aget m (0 + Z.of_nat k)) with (aget m (Z.of_nat k)).
    rewrite aget_of_nat, Hm. rewrite (proj2 (Z.leb_le _ _)), (proj2 (Z.ltb_lt _ _)) by lia. cbn [andb].
    rewrite lookup_app_l by lia. by replace (Z.to_nat (Z.of_nat k - 0)) with k by lia.
  - change (0 + zlen s) with (zlen s). rewrite aget_of_nat, Hm.
    rewrite (proj2 (Z.leb_le _ _)), (proj2 (Z.ltb_lt _ _)) by lia. cbn [andb].
    rewrite lookup_app_r by lia. by replace (Z.to_nat (zlen s - 0) - length s)%nat with 0%nat by lia.
Qed.

Lemma wp_lift {S A} (o : outcome A) a (s : S) Q : o = Done a -> Q a s -> wp (lift o) s Q.
Proof. intros -> HQ. exact HQ. Qed.

Section Walk.
Context {H : Type} `{!Allocator H} `{!AllocatorLaws H}.
Implicit Types (v : vfs H) (L : gset Z) (hd : Z -> Z) (m : gmap Z inode).

Definition le_held hd hd' : Prop := forall q, hd q <= hd' q.
Lemma le_held_add hd p : le_held hd (held_add hd p).
Proof. intros q. unfold held_add. destruct (p =? q); lia. Qed.

(** References held and then forgotten do no harm. *)
Lemma vfs_ok_forget L hd hd' v : vfs_ok L hd' v -> le_held hd hd' -> (forall q, 0 <= hd q) -> vfs_ok L hd v.
Proof. intros [] Hle Hpos. constructor; try done. intros q Hq. specialize (vo_refs q Hq). specialize (Hle q). lia. Qed.

Lemma mounts_frame v v' : frame v v' -> mounts v' = mounts v.
Proof. intros []. unfold mounts. congruence. Qed.

Lemma pinned_mono hd hd' v v' : pinned hd v -> le_held hd hd' -> same_but_rc (v_inodes v) (v_inodes v') -> frame v v' -> pinned hd' v'.
Proof.
  intros [Hr Hm Ht] Hle Hs Hf. constructor.
  - rewrite (fr_root _ _ Hf). specialize (Hle (v_root v)). lia.
  - intros p j Hj Hmp. symmetry in Hs. destruct (same_but_rc_lookup _ _ _ _ Hs Hj) as (i & Hi & Hd).
    assert (E : i_mountpoint j = i_mountpoint i) by (change (i_mountpoint (drop_rc j) = i_mountpoint (drop_rc i)); by rewrite Hd).
    rewrite E in *. specialize (Hm _ _ Hi Hmp). specialize (Hle (i_mountpoint i)). lia.
  - intros x Hx Hu. rewrite (mounts_frame _ _ Hf) in Hx. specialize (Ht _ Hx Hu). specialize (Hle (m_root x)). lia.
Qed.

(** [p] is the root of something mounted in the tree. *)
Definition mounted m (p : Z) : Prop := exists q i, m !! q = Some i /\ i_mountpoint i = p.
Lemma mounted_same m m' p : same_but_rc m m' -> mounted m' p -> mounted m p.
Proof.
  intros Hs (q & j & Hj & <-). symmetry in Hs. destruct (same_but_rc_lookup _ _ _ _ Hs Hj) as (i & Hi & Hd).
  exists q, i. split; [done|]. change (i_mountpoint (drop_rc i) = i_mountpoint (drop_rc j)). by rewrite Hd.
Qed.

(** Where a walk from [cur] ends. *)
Definition walk_post hd v (cur : Z) (res : wres) (w : walked) v' : Prop :=
  frame v v' /\ same_but_rc (v_inodes v) (v_inodes v') /\
  match res with
  | Found p => w = WDone p /\ p <> 0 /\ v_errno v' = v_errno v /\ exists L' hd', vfs_ok L' hd' v' /\ le_held hd hd' /\ 1 <= hd' p /\
      (hd p + 1 <= hd' p \/ p = cur \/ mounted (v_inodes v) p)
  | Absent e => w = WDone 0 /\ v_errno v' = e /\ exists L', vfs_ok L' hd v'
  | Symlink => True
  end.

Lemma fail_with_ok L hd v cur e : vfs_ok L hd v -> wp (fail_with e) v (walk_post hd v cur (Absent e)).
Proof.
  intros Hok. unfold fail_with, set_errno. do 3 wp_step. split_and!; [by split|done|done|done|].
  exists L. by apply vfs_ok_errno.
Qed.

Lemma walk_post_step hd hd1 v v1 cur cur1 res w v' :
  frame v v1 -> same_but_rc (v_inodes v) (v_inodes v1) -> v_errno v1 = v_errno v -> le_held hd hd1 -> (forall q, 0 <= hd q) ->
  (hd cur1 + 1 <= hd1 cur1 \/ mounted (v_inodes v) cur1) ->
  walk_post hd1 v1 cur1 res w v' -> walk_post hd v cur res w v'.
Proof.
  intros Hf Hs He Hle Hpos Hc (Hf' & Hs' & Hres). split_and!; [by transitivity v1|by transitivity (v_inodes v1)|].
  destruct res as [p|e|]; [|destruct Hres as (-> & -> & L' & Hok'); split_and!; try done; exists L'; by eapply vfs_ok_forget|done].
  destruct Hres as (-> & Hp0 & He' & L' & hd' & Hok' & Hle' & Hp & Hor). split_and!; [done|done|congruence|].
  exists L', hd'. split_and!; [done|intros q; specialize (Hle q); specialize (Hle' q); lia|done|].
  destruct Hor as [Hor|[->|Hor]].
  - left. specialize (Hle p). lia.
  - destruct Hc as [Hc|Hc]; [left; specialize (Hle' cur1); lia|by right; right].
  - right; right. by eapply mounted_same.
Qed.

Lemma dir_kind L hd v p i : vfs_ok L hd v -> v_inodes v !! p = Some i ->
  (i_ops i = Some ramfs_dir_ops /\ exists a ch n, i_priv i = PDir a ch n) \/
  ((o ← i_ops i; op_lookup (H := H) o) = None /\ forall a ch n, i_priv i <> PDir a ch n).
Proof.
  intros Hok Hp. destruct (vo_inode _ _ _ Hok _ _ Hp) as [_ [Hk _]]. unfold kind_ok in Hk.
  destruct (i_ops i) as [[]|]; try done; try (right; split; [done|]; intros ? ? ?; by destruct Hk as (_ & _ & ->)).
  - right. split; [done|]. intros ? ? ?. destruct Hk as [(_ & ? & ? & ? & ? & ? & -> & _)|(_ & ? & ? & -> & _)]; done.
  - left. by destruct Hk.
Qed.

(** After a component: the next one, or the end. *)
Lemma next_component buf p rest : str_at buf p (path_of rest) ->
  exists c1, rd buf p = Done c1 /\ str_at buf (if bool_decide (c1 = slash) then p + 1 else p) (tail_of rest).
Proof.
  intros Hs. exists (match path_of rest with [] => nul | c :: _ => c end). split; [by apply rd_str|].
  destruct rest as [|c rest]; [done|]. rewrite path_of_cons in *. rewrite bool_decide_true by done.
  by apply str_at_cons in Hs as (_ & _ & _ & Hs).
Qed.

Lemma tail_start rest : Forall comp_ok rest ->
  is_nul (match tail_of rest with [] => nul | c :: _ => c end) = bool_decide (rest = []).
Proof.
  destruct rest as [|c rest]; [done|]. intros [[Hne _ Hch _] _]%list.Forall_cons. simpl.
  destruct c as [|b c]; [done|]. apply list.Forall_cons in Hch as [[Hb _] _]. simpl. by rewrite is_nul_ne.
Qed.

(** One step of the walk, once the component [c] was cut off the path. *)
Definition walk_step (fuel : nat) (nofollow : bool) (buf : mem) (cur rel' : Z) (comp : cstr) (is_last : bool) : M (vfs H) walked :=
  let* lookup := op_of op_lookup cur in
  match lookup with
  | None => fail_with ENOTDIR
  | Some f =>
    let* '(r, next) := f cur comp in
    if negb (r =? 0) then fail_with ENOENT
    else
      let* ni := inode_at next in
      if S_ISLNK (i_mode ni) && negb (is_last && nofollow) then
        let* readlink := op_of op_readlink next in
        match readlink with
        | None => do* inode_unref next in fail_with EINVAL
        | Some g =>
          let* '(_, l) := g next VFS_PATH_MAX in
          do* inode_unref next in
          let* buf' := lift (follow_link buf l rel') in
          ret (WRestart buf')
        end
      else if negb (i_mountpoint ni =? 0) then
        do* inode_unref next in walk fuel nofollow buf (i_mountpoint ni) rel'
      else walk fuel nofollow buf next rel'
  end.

Lemma walk_cut fuel nf buf cur rel c rest v Q :
  comp_ok c -> Forall comp_ok rest -> str_at buf rel (tail_of (c :: rest)) ->
  (forall rel', str_at buf rel' (tail_of rest) -> wp (walk_step fuel nf buf cur rel' c (bool_decide (rest = []))) v Q) ->
  wp (walk (S fuel) nf buf cur rel) v Q.
Proof.
  intros Hc Hrest Hs Hk. pose proof Hc as [Hne Hdot Hch Hlen]. cbn [tail_of] in Hs. cbn [walk].
  destruct c as [|b c]; [done|]. pose proof (proj1 (list.Forall_cons _ _ _) Hch) as [[Hb _] _].
  wp_step. eapply wp_lift; [by apply (rd_str _ _ _ Hs)|]. cbn [app]. rewrite is_nul_ne by done. wp_step.
  eapply wp_lift; [apply (component_spec (Z.to_nat VFS_NAME_MAX) (b :: c) buf rel (path_of rest)); [done|done| |]|].
  { unfold VFS_NAME_MAX in *. lia. }
  { destruct (path_of_tail rest) as [E|E]; [by left|right; by exists (tail_of rest)]. }
  apply str_at_app in Hs as [Hs _]. destruct (next_component _ _ _ Hs) as (c1 & E1 & Hs').
  wp_step. eapply wp_lift; [exact E1|]. rewrite !bool_decide_false by done. cbn [orb]. wp_step.
  eapply wp_lift; [by apply (rd_str _ _ _ Hs')|]. rewrite tail_start by done. by apply Hk.
Qed.

Lemma walk_spec nf : forall comps fuel buf L hd v cur rel,
  vfs_ok L hd v -> pinned hd v -> cur <> 0 -> 1 <= hd cur -> Forall comp_ok comps -> str_at buf rel (tail_of comps) ->
  (length comps < fuel)%nat -> tree_walk (v_inodes v) nf comps cur <> Symlink ->
  wp (walk fuel nf buf cur rel) v (walk_post hd v cur (tree_walk (v_inodes v) nf comps cur)).
Proof.
  induction comps as [|c rest IH]; intros fuel buf L hd v cur rel Hok Hpin Hc0 Hcur Hcomps Hs Hfuel Hlink;
    (destruct fuel as [|fuel]; [simpl in Hfuel; lia|]).
  { cbn [walk]. wp_step. eapply wp_lift; [by apply (rd_str _ _ _ Hs)|]. cbn [tail_of]. change (is_nul nul) with true. cbn match.
    wp_step. unfold walk_post. cbn [tree_walk]. split_and!; [by split|done|done|done|done|]. exists L, hd. split_and!; [done|by intros q|done|by right; left]. }
  apply list.Forall_cons in Hcomps as [Hc Hrest]. eapply walk_cut; [done|done|exact Hs|]. intros rel' Hs'.
  destruct (held_live _ _ _ cur Hok Hc0 Hcur) as [i Hi]. cbn [tree_walk] in *. rewrite Hi in *. unfold walk_step.
  wp_step. eapply op_of_spec; [done|].
  destruct (dir_kind _ _ _ _ _ Hok Hi) as [(Ho & a & ch & n & Hpv)|(Ho & Hpv)].
  2: { rewrite Ho. destruct (i_priv i) eqn:E; try (by apply (fail_with_ok L)). by destruct (Hpv a children count). }
  rewrite Ho, Hpv in *. cbn [mbind option_bind op_lookup]. wp_step.
  eapply wp_mono; [by apply (ramfs_lookup_spec L hd v cur i a ch n c)|].
  assert (Hdot : bool_decide (c = cs ".") = false) by (apply bool_decide_eq_false, Hc).
  unfold child, children in *. rewrite Hpv in *.
  intros [r t] v1 [([= -> ->] & -> & Hnone & Hdots)|(t' & ti & [= -> ->] & Ht0 & Hti & -> & Hok1 & Ht)]; cbn [Z.eqb negb].
  { apply orb_false_iff in Hdots as [_ ->]. rewrite Hnone. by apply (fail_with_ok L). }
  set (v1 := v <| v_inodes := <[t' := ref_up ti]> (v_inodes v) |>) in *.
  assert (Hf1 : frame v v1) by (by split).
  assert (Hs1 : same_but_rc (v_inodes v) (v_inodes v1)) by (by apply same_but_rc_insert).
  assert (Ech : (if bool_decide (c = cs "..") then Some cur else d_inode <$> dentry_find ch c) = Some t').
  { rewrite Hdot in Ht. cbn [orb] in Ht. destruct (bool_decide (c = cs "..")); [by subst|]. by destruct Ht as (e & -> & <-). }
  rewrite Ech in *. rewrite Hti in *. wp_step. eapply wp_inode_at; [apply lookup_insert_eq|].
  change (i_mode (ref_up ti)) with (i_mode ti). change (i_mountpoint (ref_up ti)) with (i_mountpoint ti).
  destruct (S_ISLNK (i_mode ti) && negb (bool_decide (rest = []) && nf)) eqn:Elnk; [done|].
  simpl in Hfuel. destruct (Z.eqb_spec (i_mountpoint ti) 0) as [Em|Em]; cbn [negb].
  - rewrite (tree_walk_same _ _ nf rest t' Hs1) in *. eapply wp_mono.
    { apply (IH fuel buf L (held_add hd t') v1 t' rel'); try done; [|rewrite held_add_eq; pose proof (vo_held _ _ _ Hok t'); lia|lia].
      eapply pinned_mono; [done|apply le_held_add|done|done]. }
    intros w v2 Hpost. eapply walk_post_step; [exact Hf1|exact Hs1|done|apply le_held_add|apply Hok|left; rewrite held_add_eq; lia|done].
  - assert (Hrc : 2 <= rc v1 t').
    { pose proof (vo_refs _ _ _ Hok1 t' Ht0) as Hr. rewrite held_add_eq in Hr. pose proof (refs_nonneg v1 t').
      destruct (bool_decide (c = cs "..")).
      - simplify_eq. lia.
      - assert (1 <= refs v1 t'); [|pose proof (vo_held _ _ _ Hok t'); lia].
        apply fmap_Some in Ech as (e & Hfe & ->). destruct (same_but_rc_lookup _ _ _ _ Hs1 Hi) as (j & Hj & Hd).
        pose proof (refs_ge v1 cur j (d_inode e) Hj). assert (1 <= cnt (d_inode e) (i_refs j)); [|lia].
        apply cnt_elem. unfold i_refs, children. replace (i_priv j) with (i_priv i)
          by (change (i_priv (drop_rc i) = i_priv (drop_rc j)); by rewrite Hd).
        rewrite Hpv. apply list_elem_of_fmap_2. by apply dentry_find_Some in Hfe as [? _]. }
    wp_step. eapply wp_mono; [eapply (inode_unref_spec L hd); [done|done|apply Hok]|].
    intros ? v2 (k & L2 & h2 & m2 & Hk & Hrel & -> & Hok2 & _). unfold rc in Hrc. rewrite Hk in Hrc.
    destruct Hrel as [_|Hg]; [|lia].
    assert (Hs2 : same_but_rc (v_inodes v1) (<[t' := ref_down k]> (v_inodes v1))) by (by apply same_but_rc_insert).
    assert (Hs02 : same_but_rc (v_inodes v) (v_inodes (at_ h2 (<[t' := ref_down k]> (v_inodes v1)) v1))) by (by transitivity (v_inodes v1)).
    assert (Hf2 : frame v (at_ h2 (<[t' := ref_down k]> (v_inodes v1)) v1)) by (by split).
    assert (Hpm : 1 <= hd (i_mountpoint ti)) by (by eapply (pin_mounted _ _ Hpin)).
    rewrite (tree_walk_same _ _ nf rest _ Hs02) in *. eapply wp_mono.
    { apply (IH fuel buf L2 hd _ (i_mountpoint ti) rel'); try done; [|lia].
      eapply pinned_mono; [done|by intros q|done|done]. }
    intros w v3 Hpost. eapply walk_post_step; [exact Hf2|exact Hs02|done|by intros q|apply Hok| |exact Hpost]. right. by exists t', ti.
Qed.

Lemma comps_chars comps : Forall comp_ok comps -> Forall (fun b => b <> nul) (path_of comps).
Proof.
  induction 1 as [|c rest [_ _ Hch _] _ IH]; [constructor|]. rewrite path_of_cons. constructor; [done|].
  apply Forall_app; split; [|done]. eapply (list.Forall_impl _ _ _ Hch). by intros b [? _].
Qed.

Lemma comps_le comps : Forall comp_ok comps -> (length comps <= length (path_of comps))%nat.
Proof. induction 1 as [|c rest _ _ IH]; [done|]. rewrite path_of_cons. cbn [length]. rewrite length_app. lia. Qed.

Definition resolve_post hd v (res : wres) (p : Z) v' : Prop := walk_post hd v (v_root v) res (WDone p) v'.

Lemma resolve_spec L hd v comps nf :
  vfs_ok L hd v -> pinned hd v -> comps <> [] -> Forall comp_ok comps -> zlen (path_of comps) < VFS_PATH_MAX ->
  mount_for_path v (path_of comps) = 0 -> tree_walk (v_inodes v) nf comps (v_root v) <> Symlink ->
  wp (resolve_path (Some (path_of comps)) nf) v (resolve_post hd v (tree_walk (v_inodes v) nf comps (v_root v))).
Proof.
  intros Hok Hpin Hne Hcomps Hlen Hmount Hlink. pose proof (comps_chars _ Hcomps) as Hch. pose proof (comps_le _ Hcomps) as Hcl.
  destruct comps as [|c rest]; [done|]. pose proof (proj1 (list.Forall_cons _ _ _) Hcomps) as [[Hc _ _ _] _].
  unfold resolve_path. rewrite path_of_cons in *. rewrite bool_decide_true by done. cbn [negb].
  rewrite bool_decide_false by (destruct c; done).
  destruct (poke_start VFS_PATH_MAX (slash :: c ++ path_of rest)) as (buf & Eb & Hs & Hbl); [done|done|done|].
  wp_step. eapply wp_lift; [exact Eb|]. cbn [resolve_from]. wp_step. eapply wp_lift; [by apply str_of_spec|].
  do 2 wp_step. rewrite Hmount, Z.eqb_refl. do 4 wp_step. apply str_at_cons in Hs as (_ & _ & _ & Hs).
  destruct Hpin as [[Hr0 Hr1] ? ?] eqn:Epin. clear Epin. wp_step.
  eapply wp_mono; [eapply (walk_spec nf (c :: rest) _ buf L hd v (v_root v) 1); try done|].
  { cbn [length] in *. unfold VFS_PATH_MAX in *. lia. }
  intros w v' Hpost. destruct (tree_walk (v_inodes v) nf (c :: rest) (v_root v)) as [p|e|] eqn:E; [| |done].
  - pose proof Hpost as (_ & _ & -> & _). by wp_step.
  - pose proof Hpost as (_ & _ & -> & _). by wp_step.
Qed.
End Walk.
