(* ===== verification/VfsProps.v ===== *)
(** * The virtual filesystem: a small instance, and the properties of the calls

    The invariant holds of the state the filesystem starts in and of a root made by
    [ramfs_create_root]; a concrete state built with the operations of the filesystem is
    kept for evaluation. *)

From S2P Require Import Prelude Cstring CstringProps Kmalloc Alloc HeapAlloc Vfs VfsSynth VfsPath VfsApi VfsInv VfsRefs VfsDir VfsOps VfsTree VfsFile VfsFd VfsWalk.

(** ** A small filesystem on the kernel heap, for evaluation

    A root with a file [/a], open for reading and writing on descriptor 3, and a
    link [/l] to it. *)

Definition demo_setup : M (vfs heap) Z :=
  let* r := ramfs_create_root in
  if r =? 0 then ret 0
  else
    do* modify (fun v => v <| v_root := r |>) in
    let* x := ramfs_create_impl r (cs "a") MODE_FILE true in
    if snd x =? 0 then ret 0
    else
      do* put_fd 3 (mk_fd (snd x) 0 O_RDWR true 0 (cs "/a")) in
      do* ramfs_symlink_impl r (cs "l") (cs "/a") in
      ret (snd x).

Definition demo_start : vfs heap := (vfs_boot boot_heap) <| v_fds := replicate 64 fd_zero |>.
Definition demo_run : Z * vfs heap := match demo_setup demo_start with Done x => x | Fault => (0, demo_start) end.
Definition demo_vfs : vfs heap := Eval vm_compute in snd demo_run.
Definition demo_file : Z := Eval vm_compute in fst demo_run.
Definition demo_root : Z := Eval vm_compute in v_root demo_vfs.
Definition demo_held : Z -> Z := fun q => if demo_root =? q then 1 else 0.

Section Root.
Context {H : Type} `{!Allocator H} `{!AllocatorLaws H}.
Implicit Types (v : vfs H) (L : gset Z) (hd : Z -> Z).

Lemma ramfs_create_root_spec L hd v : vfs_ok L hd v ->
  wp ramfs_create_root v (fun r v' => frame v v' /\ (r = 0 \/
    r <> 0 /\ exists L' i a ch n, vfs_ok L' (held_add hd r) v' /\ v_inodes v' !! r = Some i /\ i_priv i = PDir a ch n)).
Proof.
  intros Hok. unfold ramfs_create_root. wp_step. eapply wp_mono; [apply (alloc_spec L hd); [done|by vm_compute]|].
  intros nd v1 (h1 & -> & [[-> Hok1]|(Hnd0 & HndL & Hown & Hok1)]).
  { rewrite Z.eqb_refl. wp_step. split; [by split|by left]. }
  rewrite (proj2 (Z.eqb_neq nd 0)) by done. set (v1 := v <| v_heap := h1 |>) in *. wp_step.
  eapply wp_mono; [apply (inode_alloc_spec ({[nd]} ∪ L) hd v1); [done|by apply new_dir_ok|done|]|].
  { intros x. pose proof (vo_addr _ _ _ Hok x). change (owns v1 x) with (owns v x). cbn [priv_addrs fmap list_fmap cnt].
    rewrite live01_add. destruct (Z.eqb_spec nd x) as [Ex|]; [rewrite <- Ex in *|]; lia. }
  intros r v2 [Hf2 [(-> & Em2 & Hok2)|(Hr0 & HrL & Hrn & Em2 & Hok2)]].
  { rewrite Z.eqb_refl. wp_step. eapply wp_mono; [apply (free_spec ({[nd]} ∪ L) hd); [done|set_solver|]|].
    - unfold owns. rewrite Em2, (fr_handles _ _ Hf2). exact Hown.
    - intros ? v3 (h3 & -> & Hok3). wp_step. split; [|by left]. transitivity v1; [by split|]. transitivity v2; [done|by split]. }
  rewrite (proj2 (Z.eqb_neq r 0)) by done.
  assert (Hr2 : v_inodes v2 !! r = Some (new_inode v1 ramfs_dir_ops MODE_DIR (PDir nd [] 0))) by (rewrite Em2; apply lookup_insert_eq).
  wp_step. eapply wp_mono; [by eapply upd_meta_spec|]. intros ? v3 T3.
  pose proof (touched_ok _ _ _ _ _ Hok2 T3) as Hok3. pose proof (touched_frame _ _ _ T3) as Hf3. wp_step.
  destruct (stays_touched _ _ _ r T3 _ Hr2) as (n3 & Hn3 & _ & _ & Hp3 & _).
  eapply wp_mono; [by eapply (dentry_add_weak _ (held_add hd r) v3 r n3 nd [] 0 (cs ".") r n3)|].
  intros ? v4 (Hf4 & [L4 Hok4] & (n4 & a4 & ch4 & c4 & Hn4 & Hp4) & _). wp_step.
  eapply wp_mono; [by eapply (dentry_add_weak _ (held_add hd r) v4 r n4 a4 ch4 c4 (cs "..") r n4)|].
  intros ? v5 (Hf5 & [L5 Hok5] & (n5 & a5 & ch5 & c5 & Hn5 & Hp5) & _). wp_step.
  split; [transitivity v1; [by split|]; transitivity v2; [done|]; transitivity v3; [done|]; by transitivity v4|].
  right. split; [done|]. by exists L5, n5, a5, ch5, c5.
Qed.

Lemma entries_dir v d : entries (v_inodes v) d <> [] -> exists i a ch n, v_inodes v !! d = Some i /\ i_priv i = PDir a ch n.
Proof.
  unfold entries, children. destruct (v_inodes v !! d) as [i|]; [|done]. destruct (i_priv i) as [| |a ch n|] eqn:E; try done.
  intros _. by exists i, a, ch, n.
Qed.
End Root.

Lemma demo_start_ok : vfs_ok ∅ (fun _ => 0) demo_start.
Proof.
  constructor; try done.
  - apply boot_heap_live.
  - intros f Hf Hu. apply elem_of_replicate in Hf as [-> _]. done.
Qed.

Lemma held_ext {H} `{!Allocator H, !AllocatorLaws H} L hd hd' (v : vfs H) : vfs_ok L hd v -> (forall q, hd' q = hd q) -> vfs_ok L hd' v.
Proof. intros [] E. constructor; try done; intros q; rewrite E; [by apply vo_refs|apply vo_held]. Qed.

Lemma demo_setup_ok :
  wp demo_setup demo_start (fun p v' => p <> 0 -> exists L, vfs_ok L (fun q => if v_root v' =? q then 1 else 0) v').
Proof.
  unfold demo_setup. wp_step. eapply wp_mono; [apply (ramfs_create_root_spec ∅ (fun _ => 0)), demo_start_ok|].
  intros r v1 [Hf1 [->|(Hr0 & L1 & i1 & a1 & ch1 & n1 & Hok1 & Hi1 & Hp1)]]; [by rewrite Z.eqb_refl; wp_step|].
  rewrite (proj2 (Z.eqb_neq r 0)) by done. do 3 wp_step.
  assert (Hok2 : vfs_ok L1 (held_add (fun _ => 0) r) (v1 <| v_root := r |>)) by (by eapply vfs_ok_ext).
  eapply wp_mono; [by eapply ramfs_create_spec|].
  intros [e x] v2 [Hf2 [(_ & E & _)|[(_ & E & _)|(_ & _ & ni & L2 & E & Hni & _ & _ & Hok3 & Hent & _)]]]; cbn [snd] in *;
    subst x; [by rewrite Z.eqb_refl; wp_step..|].
  rewrite (proj2 (Z.eqb_neq ni 0)) by done. unfold put_fd. do 3 wp_step.
  destruct (entries_dir v2 r) as (i2 & a2 & ch2 & n2 & Hi2 & Hp2); [by rewrite Hent, decide_True|].
  set (f3 := mk_fd ni 0 O_RDWR true 0 (cs "/a")).
  assert (Hfd : aget (v_fds v2) 3 = Some fd_zero) by (rewrite (fr_fds _ _ Hf2); simpl v_fds; by rewrite (fr_fds _ _ Hf1)).
  assert (Hok4 : vfs_ok L2 (held_add (fun _ => 0) r) (v2 <| v_fds := aset (v_fds v2) 3 f3 |>)).
  { eapply vfs_ok_fd; [done|done|done|by apply held_add_nonneg|]. intros q Hq. unfold fd_ref, held_add. simpl.
    destruct (ni =? q), (r =? q); lia. }
  eapply wp_mono; [by eapply ramfs_symlink_spec|]. intros e2 v3 (Hf3 & [L3 Hok5] & _). wp_step. intros _. exists L3.
  replace (v_root v3) with r by (rewrite (fr_root _ _ Hf3); simpl; by rewrite (fr_root _ _ Hf2)).
  eapply held_ext; [exact Hok5|]. intros q. unfold held_add. lia.
Qed.

Lemma demo_ok : exists L, vfs_ok L demo_held demo_vfs.
Proof.
  destruct (wp_inv _ _ _ demo_setup_ok) as (p & v & E & Hv).
  assert (Er : demo_run = (p, v)) by (unfold demo_run; by rewrite E).
  assert (Ep : p = demo_file) by (change p with (fst (p, v)); rewrite <- Er; by vm_compute).
  assert (Ev : v = demo_vfs) by (change v with (snd (p, v)); rewrite <- Er; by vm_compute).
  subst p v. by apply Hv.
Qed.

(** ** Properties of the virtual filesystem *)

(** ** Histories of operations

    Operations on directories someone holds a reference to, and on descriptors. *)

Inductive dir_op :=
| DLookup (d : Z) (name : cstr)
| DCreate (d : Z) (name : cstr) (mode : Z)
| DMkdir (d : Z) (name : cstr) (mode : Z)
| DUnlink (d : Z) (name : cstr)
| DRmdir (d : Z) (name : cstr)
| DLink (d : Z) (name : cstr) (target : Z)
| DSymlink (d : Z) (name target : cstr)
| DRename (od : Z) (old : cstr) (nd : Z) (new : cstr)
| DReaddir (d index : Z).

Section History.
Context {H : Type} `{!Allocator H} `{!AllocatorLaws H}.
Implicit Types (v : vfs H) (L : gset Z) (hd : Z -> Z).

Definition run_dir (op : dir_op) : M (vfs H) unit :=
  match op with
  | DLookup d name => let* x := ramfs_lookup d name in inode_unref (snd x)
  | DCreate d name mode => do* ramfs_create_impl d name mode false in ret tt
  | DMkdir d name mode => do* ramfs_mkdir_impl d name mode false in ret tt
  | DUnlink d name => do* ramfs_unlink_impl d name in ret tt
  | DRmdir d name => do* ramfs_rmdir_impl d name in ret tt
  | DLink d name target => do* ramfs_link_impl d name target in ret tt
  | DSymlink d name target => do* ramfs_symlink_impl d name target in ret tt
  | DRename od old nd new => do* ramfs_rename_impl od old nd new in ret tt
  | DReaddir d index => do* ramfs_readdir_impl d index in ret tt
  end.

(** A directory of this filesystem, with a reference to it held. *)
Definition held_directory hd v (d : Z) : Prop :=
  1 <= hd d /\ exists i a ch n, v_inodes v !! d = Some i /\ i_priv i = PDir a ch n.

Definition short (name : cstr) : Prop := zlen name <= VFS_NAME_MAX.

Definition dir_fits hd (op : dir_op) v : Prop :=
  match op with
  | DLookup d _ | DUnlink d _ | DRmdir d _ | DReaddir d _ => held_directory hd v d
  | DCreate d name mode => held_directory hd v d /\ short name /\ S_ISREG mode = true
  | DMkdir d name mode => held_directory hd v d /\ short name /\ S_ISDIR (Z.lor mode S_IFDIR) = true
  | DLink d name t => held_directory hd v d /\ short name /\ is_Some (v_inodes v !! t)
  | DSymlink d name t => held_directory hd v d /\ short name /\ zlen t < VFS_PATH_MAX
  | DRename od _ nd new => held_directory hd v od /\ held_directory hd v nd /\ short new
  end.

Lemma run_dir_ok L hd v op : vfs_ok L hd v -> dir_fits hd op v -> wp (run_dir op) v (ok_after hd).
Proof.
  intros Hok Hfit. destruct op as [d name|d name mode|d name mode|d name|d name|d name t|d name t|od old nd new|d k];
    cbn [run_dir dir_fits] in *.
  - destruct Hfit as (_ & i & a & ch & n & Hi & Hp). wp_step. eapply wp_mono; [by eapply ramfs_lookup_spec|].
    intros x v' [(-> & -> & _)|(t & ti & -> & Ht & _ & -> & Hok' & _)]; cbn [snd].
    + change (wp (ret tt) v (ok_after hd)). by exists L.
    + eapply wp_mono; [apply (inode_unref_spec L hd); [done|done|apply Hok]|].
      intros ? v2 (j & L' & h' & m' & _ & _ & -> & Hok2 & _). by exists L'.
  - destruct Hfit as ((_ & i & a & ch & n & Hi & Hp) & Hs & Hm). apply ret_after.
    eapply wp_mono; [by eapply (ramfs_create_spec _ _ _ _ _ _ _ _ _ _ false)|].
    intros x v' [_ [(_ & _ & _ & ->)|[(_ & _ & _ & L' & ?)|(_ & _ & ni & L' & _ & _ & _ & _ & ? & _)]]]; by eexists.
  - destruct Hfit as ((_ & i & a & ch & n & Hi & Hp) & Hs & Hm). apply ret_after.
    eapply wp_mono; [by eapply (ramfs_mkdir_spec _ _ _ _ _ _ _ _ _ _ false)|].
    intros x v' [_ [(_ & _ & _ & ->)|[(_ & _ & _ & L' & ?)|(_ & _ & ni & L' & _ & _ & ? & _)]]]; by eexists.
  - destruct Hfit as (Hh & i & a & ch & n & Hi & Hp). apply ret_after.
    eapply wp_mono; [by eapply ramfs_unlink_spec|]. by intros ? v' (_ & ? & _).
  - destruct Hfit as (Hh & i & a & ch & n & Hi & Hp). apply ret_after.
    eapply wp_mono; [by eapply ramfs_rmdir_spec|]. by intros ? v' (_ & ? & _).
  - destruct Hfit as ((_ & i & a & ch & n & Hi & Hp) & Hs & ti & Ht). apply ret_after.
    eapply wp_mono; [by eapply ramfs_link_spec|]. by intros ? v' (_ & ? & _).
  - destruct Hfit as ((_ & i & a & ch & n & Hi & Hp) & Hs & Ht). apply ret_after.
    eapply wp_mono; [by eapply ramfs_symlink_spec|]. by intros ? v' (_ & ? & _).
  - destruct Hfit as ((Ho & i & a & ch & n & Hi & Hp) & (Hn & i2 & a2 & ch2 & n2 & Hi2 & Hp2) & Hs). apply ret_after.
    eapply wp_mono; [by eapply ramfs_rename_spec|]. by intros ? v' (_ & ? & _).
  - destruct Hfit as (_ & i & a & ch & n & Hi & Hp). apply ret_after.
    eapply wp_mono; [by eapply ramfs_readdir_spec|]. intros ? v' (-> & _). by exists L.
Qed.

Inductive vfs_op := ODir (op : dir_op) | OFd (op : fd_op).
Definition run_op (op : vfs_op) : M (vfs H) unit := match op with ODir o => run_dir o | OFd o => run_fd o end.
Definition fits hd (op : vfs_op) v : Prop := match op with ODir o => dir_fits hd o v | OFd o => op_fits o v end.

(** The states reached from [v] by operations that fit the state they run in. *)
Inductive reached hd v : vfs H -> Prop :=
| reached_start : reached hd v v
| reached_step v1 op v2 : reached hd v v1 -> fits hd op v1 -> run_op op v1 = Done (tt, v2) -> reached hd v v2.

Lemma run_op_ok L hd v op : vfs_ok L hd v -> fits hd op v -> wp (run_op op) v (ok_after hd).
Proof. intros Hok. destruct op; [by apply (run_dir_ok L)|by apply (run_fd_ok L)]. Qed.
End History.


Definition demo_after : vfs heap :=
  Eval vm_compute in match run_op (OFd (FWrite 3 (cs "hello"))) demo_vfs with Done (_, v) => v | Fault => demo_vfs end.

Lemma demo_sizes : forall p i, v_inodes demo_vfs !! p = Some i -> 0 <= i_size i.
Proof.
  intros p i Hp. apply elem_of_map_to_list in Hp.
  assert (Hall : forallb (fun x => 0 <=? i_size x.2) (map_to_list (v_inodes demo_vfs)) = true) by (by vm_compute).
  rewrite forallb_forall in Hall. apply list_elem_of_In in Hp. apply Hall in Hp. simpl in Hp. lia.
Qed.

Lemma demo_reached : reached demo_held demo_vfs demo_after.
Proof.
  apply (reached_step _ _ demo_vfs (OFd (FWrite 3 (cs "hello")))); [constructor| |by vm_compute].
  split; [|apply demo_sizes]. intros f i Hf _ Hi.
  assert (Ef : f = mk_fd demo_file 0 O_RDWR true 0 (cs "/a")) by (apply (inj Some); rewrite <- Hf; by vm_compute).
  subst f. cbn [f_inode f_offset] in *.
  assert (Hb : match v_inodes demo_vfs !! demo_file with
               | Some i => negb (S_ISLNK (i_mode i)) && (Z.max 0 (i_size i) + zlen (cs "hello") + 512 <? 2 ^ 32)
               | None => false end = true) by (by vm_compute).
  rewrite Hi in Hb. apply andb_true_iff in Hb as [Hb1%negb_true_iff Hb2%Z.ltb_lt]. done.
Qed.


(** ** Files as byte arrays *)

Section Files.
Context {H : Type} `{!Allocator H} `{!AllocatorLaws H}.
Implicit Types (v : vfs H) (L : gset Z) (hd : Z -> Z).

(** The session may use [i] in the ways [wanted]. *)
Definition permitted v (i : inode) (wanted : Z) : Prop :=
  v_uid v = 0 \/ Z.land (access_bits (v_uid v) (v_gid v) i) wanted = wanted.

Lemma wp_permitted {A} L hd v p i w (a : Z -> M (vfs H) A) Q :
  vfs_ok L hd v -> v_inodes v !! p = Some i -> permitted v i w -> wp (a 0) v Q -> wp (let* r := vfs_require p w in a r) v Q.
Proof.
  intros Hok Hp Hperm HQ. destruct (vo_inode _ _ _ Hok _ _ Hp) as [Hp0 _].
  unfold vfs_require, vfs_access. rewrite (proj2 (Z.eqb_neq p 0)) by done. do 4 wp_step.
  destruct (Z.eqb_spec (v_uid v) 0) as [E|E].
  - do 2 wp_step. exact HQ.
  - do 3 wp_step. eapply wp_inode_at; [done|]. destruct Hperm as [?|Hb]; [done|]. wp_step.
    rewrite (proj2 (Z.eqb_eq _ _) Hb). wp_step. exact HQ.
Qed.

(** Write a buffer at the offset of a descriptor, go back and read as much. *)
Definition write_back (fd off : Z) (buf : list byte) : M (vfs H) (Z * Z * list byte) :=
  let* n := vfs_write fd buf in
  do* vfs_lseek fd off SEEK_SET in
  let* x := vfs_read fd (zlen buf) in
  ret (n, fst x, snd x).

Record open_file v (fd : Z) (f : vfs_fd) (i : inode) : Prop := {
  of_fd : aget (v_fds v) fd = Some f;
  of_used : f_used f = true;
  of_mode : Z.land (f_flags f) O_ACCMODE = O_RDWR;
  of_append : has (f_flags f) O_APPEND = false;
  of_inode : v_inodes v !! f_inode f = Some i;
  of_file : exists a data bytes size cap, i_priv i = PFile a data bytes size cap;
  of_perm : permitted v i 6 }.

Lemma open_fd_ok L hd v fd f i : vfs_ok L hd v -> open_file v fd f i -> fd_ok v fd = true.
Proof.
  intros Hok [Hf Hu _ _ _ _ _]. unfold fd_ok. rewrite Hf, Hu, andb_true_r. apply Z.ltb_lt.
  pose proof (aget_Some_range _ _ _ Hf). rewrite (vo_nfds _ _ _ Hok) in *. unfold FD_MAX. lia.
Qed.

Lemma permitted_sub v i w w' : permitted v i w -> Z.land w w' = w' -> permitted v i w'.
Proof. intros [?|E] Hw; [by left|right]. rewrite <- Hw at 1. by rewrite Z.land_assoc, E. Qed.

Lemma overwritten_read c c' off buf : 0 <= off -> overwritten c c' off buf -> take (length buf) (drop (Z.to_nat off) c') = buf.
Proof.
  intros Hoff (Hl & Hin & _). apply list_eq. intros k. destruct (decide (k < length buf)%nat) as [Hk|Hk].
  - rewrite lookup_take_lt by done. rewrite lookup_drop. by apply Hin.
  - rewrite lookup_take_ge, lookup_ge_None_2 by lia. done.
Qed.

(** The write, by the descriptor: the offset moves to the end of what was written. *)
Lemma vfs_write_spec L hd v fd f i buf :
  vfs_ok L hd v -> open_file v fd f i -> f_offset f + zlen buf + 512 < 2 ^ 32 ->
  wp (vfs_write fd buf) v (fun r v' => (exists L', vfs_ok L' hd v') /\ (r = - ENOSPC \/
    r = zlen buf /\ exists j, open_file v' fd (f <| f_offset := f_offset f + zlen buf |>) j /\
      v_inodes v' = <[f_inode f := j]> (v_inodes v) /\ overwritten (content i) (content j) (f_offset f) buf)).
Proof.
  intros Hok Hof Hbig. pose proof (open_fd_ok _ _ _ _ _ _ Hok Hof) as Hfd. destruct Hof as [Hf Hu Hm Ha Hi (a & data & bytes & size & cap & Hp) Hperm].
  pose proof (vo_used _ _ _ Hok _ (aget_elem _ _ _ Hf) Hu) as [Hp0 Hoff].
  unfold vfs_write. do 2 wp_step. rewrite Hfd. cbn [negb]. wp_step. eapply wp_fd_at; [done|]. rewrite Hm. change (O_RDWR =? O_RDONLY) with false. cbn match.
  eapply (wp_permitted L hd); [done|done|by eapply permitted_sub|]. change (0 <? 0) with false. cbn match.
  wp_step. eapply op_of_spec; [done|]. destruct (file_facts _ _ _ _ _ _ _ _ _ _ Hok Hi Hp) as (_ & -> & _). cbn [mbind option_bind op_write].
  wp_step. eapply wp_inode_at; [done|]. rewrite Ha. do 3 wp_step. eapply wp_fd_at; [done|]. wp_step.
  eapply wp_mono; [by eapply (ramfs_write_spec L hd)|].
  intros r v1 (Hfr & [L1 Hok1] & [[-> _]|(-> & j & [_ Hm1] & (d & b & s & c & Hpj) & Hmeta & _ & Hov)]).
  { change (0 <? - ENOSPC) with false. do 2 wp_step. split; [by exists L1|by left]. }
  assert (Hf1 : aget (v_fds v1) fd = Some f) by (by rewrite (fr_fds _ _ Hfr)).
  assert (Hj : open_file v1 fd f j).
  { injection Hmeta as E1 E2 E3 E4 E5. split; try done; [by rewrite Hm1, lookup_insert_eq|by eauto 6|].
    unfold permitted, access_bits in *. by rewrite (fr_uid _ _ Hfr), (fr_gid _ _ Hfr), E1, E2, E3. }
  destruct (Z.ltb_spec 0 (zlen buf)) as [Hpos|Hz].
  - wp_step. eapply wp_upd_fd; [done|]. wp_step. split; [eexists; eapply vfs_ok_offset; [done|done|by eapply aget_elem|]|].
    { rewrite u64_small; lia. }
    right. split; [done|]. exists j. rewrite u64_small by lia. split_and!; [|done|done].
    destruct Hj. split; try done. simpl. apply aget_aset_eq. by eapply aget_Some_range.
  - do 2 wp_step. split; [by exists L1|]. right. split; [done|]. exists j. split_and!; [|done|done].
    replace (f_offset f + zlen buf) with (f_offset f) by lia. by destruct f.
Qed.

Lemma seek_spec L hd v fd f i off :
  vfs_ok L hd v -> open_file v fd f i -> 0 <= off < 2 ^ 63 ->
  wp (vfs_lseek fd off SEEK_SET) v (fun _ v' => vfs_ok L hd v' /\ open_file v' fd (f <| f_offset := off |>) i).
Proof.
  intros Hok Hof Hoff. pose proof (open_fd_ok _ _ _ _ _ _ Hok Hof) as Hfd. destruct Hof as [Hf Hu Hm Ha Hi Hp Hperm].
  unfold vfs_lseek. do 2 wp_step. rewrite Hfd. cbn [negb]. wp_step. eapply wp_fd_at; [done|]. rewrite Z.eqb_refl. do 2 wp_step.
  rewrite i64_small by lia. rewrite (proj2 (Z.ltb_ge _ 0)) by lia. wp_step. eapply wp_upd_fd; [done|]. wp_step.
  split; [eapply vfs_ok_offset; [done|done|by eapply aget_elem|lia]|].
  split; try done. simpl. apply aget_aset_eq. by eapply aget_Some_range.
Qed.

Lemma vfs_read_spec L hd v fd f i n :
  vfs_ok L hd v -> open_file v fd f i -> 0 <= n < 2 ^ 63 ->
  wp (vfs_read fd n) v (fun x _ =>
    x = (Z.max 0 (Z.min n (zlen (content i) - f_offset f)), take (Z.to_nat n) (drop (Z.to_nat (f_offset f)) (content i)))).
Proof.
  intros Hok Hof Hn. pose proof (open_fd_ok _ _ _ _ _ _ Hok Hof) as Hfd.
  destruct Hof as [Hf Hu Hm Ha Hi (a & data & bytes & size & cap & Hp) Hperm].
  pose proof (vo_used _ _ _ Hok _ (aget_elem _ _ _ Hf) Hu) as [Hp0 Hoff].
  destruct (file_facts _ _ _ _ _ _ _ _ _ _ Hok Hi Hp) as (Hfile & Hops & _).
  unfold vfs_read. do 2 wp_step. rewrite Hfd. cbn [negb]. wp_step. eapply wp_fd_at; [done|]. rewrite Hm. change (O_RDWR =? O_WRONLY) with false. cbn match.
  eapply (wp_permitted L hd); [done|done|by eapply permitted_sub|]. change (0 <? 0) with false. cbn match.
  wp_step. eapply op_of_spec; [done|]. rewrite Hops. cbn [mbind option_bind op_read].
  wp_step. eapply wp_mono; [by eapply (ramfs_read_spec L hd)|]. intros x v1 (-> & Ht).
  rewrite (content_length _ _ _ _ _ _ Hp Hfile).
  assert (Hf1 : aget (v_fds v1) fd = Some f) by (destruct Ht as [->|T]; [done|by rewrite (fr_fds _ _ (touched_frame _ _ _ T))]).
  wp_step. destruct (0 <? Z.max 0 (Z.min n (size - f_offset f))); [eapply wp_upd_fd; [done|]|wp_step]; by wp_step.
Qed.

Lemma write_back_spec L hd v fd f i buf :
  vfs_ok L hd v -> open_file v fd f i -> f_offset f + zlen buf + 512 < 2 ^ 32 ->
  wp (write_back fd (f_offset f) buf) v (fun '(w, r, b) v' => w = - ENOSPC \/ w = zlen buf /\ r = zlen buf /\ b = buf).
Proof.
  intros Hok Hof Hbig. pose proof (vo_used _ _ _ Hok _ (aget_elem _ _ _ (of_fd _ _ _ _ Hof)) (of_used _ _ _ _ Hof)) as [_ Hoff].
  unfold write_back. wp_step. eapply wp_mono; [by apply (vfs_write_spec L hd v fd f i)|].
  intros r v1 ([L1 Hok1] & [->|(-> & j & Hof1 & Hm1 & Hov)]).
  { wp_step. eapply wp_mono; [by eapply vfs_lseek_ok|]. intros ? v2 [L2 Hok2]. wp_step.
    eapply wp_mono; [eapply vfs_read_ok; [done|lia]|]. intros ? v3 _. wp_step. by left. }
  wp_step. eapply wp_mono; [eapply (seek_spec L1 hd v1 fd _ j (f_offset f)); [done|done|lia]|]. intros ? v2 (Hok2 & Hof2). wp_step.
  eapply wp_mono; [eapply (vfs_read_spec L1 hd v2 fd _ j); [done|done|lia]|]. intros x v3 ->. wp_step. right.
  simpl f_offset. rewrite Nat2Z.id. cbn [fst snd].
  rewrite (overwritten_read (content i) (content j) (f_offset f) buf) by done. destruct Hov as (Hl & _).
  split_and!; [done| |done]. lia.
Qed.
End Files.

(** C25: What is written through a descriptor is read back: after a write at the offset
    of a descriptor open for reading and writing, seeking back and reading as many bytes
    returns them all, unless the write reported that there is no memory. *)
Theorem write_then_read (v : vfs heap) L hd fd f i buf :
  vfs_ok L hd v -> open_file v fd f i -> f_offset f + zlen buf + 512 < 2 ^ 32 ->
  wp (write_back fd (f_offset f) buf) v (fun '(w, r, b) v' => w = - ENOSPC \/ w = zlen buf /\ r = zlen buf /\ b = buf).
Proof. apply write_back_spec. Qed.

Lemma demo_open : exists f i, open_file demo_vfs 3 f i /\ f_offset f = 0.
Proof.
  do 2 eexists. split; [split|].
  - by vm_compute.
  - by vm_compute.
  - by vm_compute.
  - by vm_compute.
  - by vm_compute.
  - do 5 eexists. by vm_compute.
  - by left.
  - by vm_compute.
Qed.

Lemma write_then_read_witness :
  wp (write_back 3 0 (cs "hello")) demo_vfs (fun '(w, r, b) v' => w = - ENOSPC \/ w = 5 /\ r = 5 /\ b = cs "hello").
Proof.
  destruct demo_ok as [L Hok]. destruct demo_open as (f & i & Hof & E).
  rewrite <- E. apply (write_then_read _ L demo_held 3 f i); [done|done|]. by rewrite E.
Defined.

(** ** Opening and duplicating *)

(** [vfs_dup] gives the lowest free descriptor from 3 on, a copy of the one it
    duplicates with a reference of its own to the inode; it fails only on a descriptor
    that is not open or when none is free, and changes no descriptor then. *)
Theorem dup_takes_lowest (v : vfs heap) L hd fd : vfs_ok L hd v ->
  wp (vfs_dup fd) v (fun r v' => vfs_ok L hd v' /\
    ((r = -1 /\ v_fds v' = v_fds v) \/
     (fd_ok v fd = true /\ 3 <= r < FD_MAX /\ fd_free v r = true /\ (forall k, 3 <= k < r -> fd_free v k = false) /\
      exists f, aget (v_fds v) fd = Some f /\ v_fds v' = aset (v_fds v) r f))).
Proof. apply vfs_dup_spec. Qed.

Lemma dup_takes_lowest_witness : wp (vfs_dup 3) demo_vfs (fun r v' => r = 4).
Proof.
  destruct demo_ok as [L Hok]. assert (E4 : fd_free demo_vfs 4 = true) by (by vm_compute). assert (E3 : fd_free demo_vfs 3 = false) by (by vm_compute).
  assert (Er : wp (vfs_dup 3) demo_vfs (fun r _ => r <> -1)) by (by vm_compute).
  eapply wp_mono; [apply (wp_and _ _ _ _ (dup_takes_lowest demo_vfs L demo_held 3 Hok) Er)|].
  intros r v' [(_ & [[? _]|(_ & Hr & Hfree & Hlow & _)]) Hne]; [done|].
  destruct (decide (r = 3)) as [->|]; [congruence|]. destruct (decide (4 < r)) as [Hgt|]; [|lia].
  rewrite Hlow in E4; [done|lia].
Defined.

Section Open.
Context {H : Type} `{!Allocator H}.
Implicit Types (v : vfs H).

Definition open_wants (flags : Z) : Z :=
  Z.lor (if Z.land flags O_ACCMODE =? O_WRONLY then 0 else PERM_R) (if Z.land flags O_ACCMODE =? O_RDONLY then 0 else PERM_W).

Lemma require_granted v p i w r v' :
  p <> 0 -> v_inodes v !! p = Some i -> vfs_require p w v = Done (r, v') -> (r <? 0) = false -> permitted v i w.
Proof.
  intros Hp Hi. unfold vfs_require, vfs_access, permitted, bind, gets, inode_at, deref. rewrite (proj2 (Z.eqb_neq p 0)) by done.
  destruct (Z.eqb_spec (v_uid v) 0) as [|_]; [by left|]. rewrite Hi.
  destruct (Z.eqb_spec (Z.land (access_bits (v_uid v) (v_gid v) i) w) w); [by right|]. by intros [= <- _].
Qed.

Lemma open_inode_granted v v1 path flags mode p i q v' :
  resolve_path path (has flags O_NOFOLLOW) v = Done (p, v1) -> p <> 0 -> v_inodes v1 !! p = Some i ->
  open_inode path flags mode v = Done (q, v') -> q <> 0 ->
  q = p /\ permitted v1 i (open_wants flags) /\ (S_ISDIR (i_mode i) = true -> has flags (Z.lor O_WRONLY O_RDWR) = false) /\
  (has flags O_CREAT && has flags O_EXCL = false).
Proof.
  intros Hres Hp Hi. unfold open_inode. rewrite (bind_Done _ _ _ _ _ Hres). rewrite (proj2 (Z.eqb_neq p 0)) by done.
  assert (Hin : inode_at p v1 = Done (i, v1)) by (unfold inode_at, deref; by rewrite Hi).
  rewrite (bind_Done _ _ _ _ _ Hin). cbv zeta.
  assert (Hdrop : forall (m : M (vfs H) unit) e, bind m (fun _ => fail e 0) v1 = Done (q, v') -> q <> 0 -> False).
  { intros m e (? & v2 & _ & E)%bind_inv Hq. unfold fail, bind, set_errno, modify, ret in E. by injection E as <- _. }
  destruct (has flags O_CREAT && has flags O_EXCL); [by intros E Hq; exfalso; eapply Hdrop|].
  destruct (S_ISDIR (i_mode i)), (has flags (Z.lor O_WRONLY O_RDWR)); cbn [andb];
    try (by intros E Hq; exfalso; eapply Hdrop);
    fold (open_wants flags); intros (r & v2 & Er & E)%bind_inv Hq.
  all: destruct (r <? 0) eqn:Hr; [apply bind_inv in E as (? & ? & _ & [= <- _]); done|].
  all: injection E as <- <-; split_and!; try done.
  all: destruct (truth (open_wants flags)) eqn:Ht; [by eapply require_granted|].
  all: right; unfold truth in Ht; apply negb_false_iff, Z.eqb_eq in Ht; rewrite Ht; apply Z.land_0_r.
Qed.
End Open.


Definition open_demo : vfs heap := Eval vm_compute in
  match resolve_path (Some (cs "/a")) false demo_vfs with Done (_, v) => v | Fault => demo_vfs end.

