(* ===== verification/VfsNames.v ===== *)
(** * Names: directories, paths and mounts; defects

    Properties of names, and runs of the filesystem, evaluated, in which it does not do what it
    means to. *)

From S2P Require Import Prelude Cstring CstringProps Kmalloc Alloc HeapAlloc Vfs VfsSynth VfsPath VfsApi VfsInv VfsRefs VfsDir VfsOps VfsTree VfsFile VfsFd VfsWalk VfsProps.

(** ** Directories as maps from names *)

Section Names.
Context {H : Type} `{!Allocator H} `{!AllocatorLaws H}.
Implicit Types (v : vfs H) (L : gset Z) (hd : Z -> Z).

Definition create_unlink (d : Z) (name : cstr) (mode : Z) : M (vfs H) Z :=
  let* x := ramfs_create_impl d name mode false in
  if fst x =? 0 then ramfs_unlink_impl d name else ret (fst x).

Lemma entry_found i a ch n name t (l : list (cstr * Z)) :
  i_priv i = PDir a ch n -> entry_of <$> children i = (name, t) :: l -> exists e, dentry_find ch name = Some e /\ d_inode e = t.
Proof.
  unfold children. intros ->. destruct ch as [|e ch]; [done|]. cbn [fmap list_fmap]. intros [= Hn Ht _].
  exists e. split; [|done]. unfold dentry_find. cbn [List.find]. by rewrite bool_decide_eq_true_2.
Qed.

Lemma create_unlink_spec L hd v d i a ch n name mode :
  vfs_ok L hd v -> v_inodes v !! d = Some i -> i_priv i = PDir a ch n -> 1 <= hd d -> zlen name <= VFS_NAME_MAX -> S_ISREG mode = true ->
  wp (create_unlink d name mode) v (fun r v' => (exists L', vfs_ok L' hd v') /\
    (forall q, entries (v_inodes v') q = entries (v_inodes v) q) /\
    (r = 0 \/ r = - ENOSPC \/ r = - EEXIST /\ name ∈ d_name <$> ch)).
Proof.
  intros Hok Hd Hp Hh Hn Hm. unfold create_unlink. wp_step.
  eapply wp_mono; [by eapply (ramfs_create_spec _ _ _ _ _ _ _ _ _ _ false)|].
  intros [r x] v1 [_ [(-> & _ & Hin & ->)|[(-> & _ & E & HL)|(-> & Hnin & ni & L1 & _ & Hni & Hnone & Hnew & Hok1 & He & _)]]]; cbn [fst].
  - change (- EEXIST =? 0) with false. cbn match. wp_step. split; [by exists L|]. split; [done|]. by right; right.
  - change (- ENOSPC =? 0) with false. cbn match. wp_step. split; [done|]. split; [by rewrite E|]. by right; left.
  - rewrite Z.eqb_refl. pose proof (He d) as Hed. rewrite decide_True in Hed by done.
    destruct (entries_dir v1 d) as (i1 & a1 & ch1 & n1 & Hi1 & Hp1); [by rewrite Hed|].
    unfold entries in Hed at 1. rewrite Hi1 in Hed. destruct (entry_found _ _ _ _ _ _ _ Hp1 Hed) as (e & Hf & Hei).
    eapply wp_mono; [by eapply ramfs_unlink_spec|].
    intros r2 v2 (_ & HL & [(_ & Hno & _)|[(_ & _ & e' & ti & Hf' & Hti & Hdir)|(-> & _ & He2)]]).
    + exfalso. apply dentry_find_None in Hno. congruence.
    + exfalso. rewrite Hf in Hf'. apply (inj Some) in Hf' as <-. destruct Hnew as (j & fp & Hj & _ & _ & Hreg).
      rewrite Hei, Hj in Hti. apply (inj Some) in Hti as <-. pose proof (proj1 (modes_apart (i_mode j)) Hdir) as [? _]. congruence.
    + split; [done|]. split; [|by left]. intros q. rewrite He2, !He. destruct (decide (q = d)) as [->|]; [|done]. rewrite decide_True by done.
      rewrite filter_cons_False by (intros Hne; by apply Hne). apply without_id. intros Hin. apply Hnin.
      apply list_elem_of_fmap in Hin as (y & -> & Hy). unfold entries in Hy. rewrite Hd in Hy.
      apply list_elem_of_fmap in Hy as (e0 & -> & He0). unfold children in He0. rewrite Hp in He0.
      by apply (list_elem_of_fmap_2 d_name).
Qed.
End Names.

(** Creating a file in a directory and unlinking it again leaves every directory of
    the filesystem with the entries it had, in their order, and leaks nothing the
    invariant counts; creation is refused only for a name that is there or for want of
    memory. *)
Theorem create_unlink_roundtrip (v : vfs heap) L hd d i a ch n name mode :
  vfs_ok L hd v -> v_inodes v !! d = Some i -> i_priv i = PDir a ch n -> 1 <= hd d -> zlen name <= VFS_NAME_MAX -> S_ISREG mode = true ->
  wp (create_unlink d name mode) v (fun r v' => (exists L', vfs_ok L' hd v') /\
    (forall q, entries (v_inodes v') q = entries (v_inodes v) q) /\
    (r = 0 \/ r = - ENOSPC \/ r = - EEXIST /\ name ∈ d_name <$> ch)).
Proof. apply create_unlink_spec. Qed.

Lemma demo_root_dir : exists i a ch n, v_inodes demo_vfs !! demo_root = Some i /\ i_priv i = PDir a ch n /\ dentry_find ch (cs "a") <> None.
Proof. do 4 eexists. split; [by vm_compute|]. split; [by vm_compute|]. by vm_compute. Qed.

Lemma create_unlink_roundtrip_witness :
  wp (create_unlink demo_root (cs "b") MODE_FILE) demo_vfs (fun r v' =>
    forall q, entries (v_inodes v') q = entries (v_inodes demo_vfs) q).
Proof.
  destruct demo_ok as [L Hok]. destruct demo_root_dir as (i & a & ch & n & Hi & Hp & _).
  eapply wp_mono; [apply (create_unlink_roundtrip demo_vfs L demo_held demo_root i a ch n (cs "b") MODE_FILE);
    [exact Hok|exact Hi|exact Hp|by vm_compute|by vm_compute|by vm_compute]|]. by intros r v' (_ & He & _).
Defined.

(** C32: A rename that succeeds moves the entry: the new directory has it in front under
    its new name, in place of an entry of that name, and the old directory has every
    entry but it; a missing name is reported and changes nothing. *)
Theorem rename_moves_entry (v : vfs heap) L hd od i a ch n old nd i2 a2 ch2 n2 new :
  vfs_ok L hd v -> v_inodes v !! od = Some i -> i_priv i = PDir a ch n ->
  v_inodes v !! nd = Some i2 -> i_priv i2 = PDir a2 ch2 n2 -> 1 <= hd od -> 1 <= hd nd -> zlen new <= VFS_NAME_MAX ->
  wp (ramfs_rename_impl od old nd new) v (fun r v' => (exists L', vfs_ok L' hd v') /\
    ((r = - ENOENT /\ (old ∉ d_name <$> ch) /\ v' = v) \/ r = - ENOSPC \/
     (r = 0 /\ exists e, dentry_find ch old = Some e /\
        entries (v_inodes v') nd = (new, d_inode e) :: without new
          (if decide (nd = od) then without old (entries (v_inodes v) nd) else entries (v_inodes v) nd) /\
        (od <> nd -> entries (v_inodes v') od = without old (entries (v_inodes v) od))))).
Proof.
  intros Hok Hod Hp Hnd Hp2 Ho Hn Hs. eapply wp_mono; [by eapply ramfs_rename_spec|]. by intros r v' (_ & HL & Hr).
Qed.

Lemma rename_moves_entry_witness :
  wp (ramfs_rename_impl demo_root (cs "a") demo_root (cs "b")) demo_vfs (fun r v' => exists L', vfs_ok L' demo_held v').
Proof.
  destruct demo_ok as [L Hok]. destruct demo_root_dir as (i & a & ch & n & Hi & Hp & _).
  eapply wp_mono; [apply (rename_moves_entry demo_vfs L demo_held demo_root i a ch n (cs "a") demo_root i a ch n (cs "b"));
    [exact Hok|exact Hi|exact Hp|exact Hi|exact Hp|by vm_compute|by vm_compute|by vm_compute]|]. by intros r v' (HL & _).
Defined.

(** ** Paths *)


Lemma demo_pinned : pinned demo_held demo_vfs.
Proof.
  split; [by vm_compute| |intros m Hm; by apply elem_of_nil in Hm]. intros p i Hp Hm. exfalso. apply Hm.
  assert (Hall : forallb (fun x => i_mountpoint x.2 =? 0) (map_to_list (v_inodes demo_vfs)) = true) by (by vm_compute).
  rewrite forallb_forall in Hall. apply elem_of_map_to_list, list_elem_of_In, Hall in Hp. by apply Z.eqb_eq in Hp.
Qed.


Lemma under_mount_spec mp path : under_mount mp path = true <-> exists rest, path = mp ++ rest /\ (rest = [] \/ exists r, rest = slash :: r).
Proof.
  revert path. induction mp as [|a mp IH]; intros [|b path]; cbn [under_mount app].
  - split; [|done]. intros _. exists []. by split; [|left].
  - rewrite bool_decide_eq_true. split.
    + intros ->. exists (slash :: path). by split; [|right; exists path].
    + intros (rest & <- & [?|[r Hr]]); [done|]. by injection Hr.
  - split; [done|]. by intros (? & ? & _).
  - rewrite andb_true_iff, bool_decide_eq_true, IH. split.
    + intros [-> (rest & -> & Hr)]. by exists rest.
    + intros (rest & [= -> ->] & Hr). split; [done|]. by exists rest.
Qed.

(** The mount entry [m] covers [path]: its path is a prefix of it that ends at a '/'
    or with it. *)
Definition covers (path : cstr) (m : mount_entry) : Prop :=
  m_used m = true /\ m_path m <> [] /\ exists rest, path = m_path m ++ rest /\ (rest = [] \/ exists r, rest = slash :: r).

Lemma best_mount_fold path ms : forall best, 0 <= fst best ->
  let r := fold_left (best_mount path) ms best in
  (r = best /\ (forall m, m ∈ ms -> covers path m -> zlen (m_path m) <= fst best)) \/
  (exists m, m ∈ ms /\ covers path m /\ r = (zlen (m_path m), m_root m) /\ fst best < zlen (m_path m) /\
    forall m', m' ∈ ms -> covers path m' -> zlen (m_path m') <= zlen (m_path m)).
Proof.
  induction ms as [|m ms IH]; intros best Hb r; [left; split; [done|set_solver]|]. subst r. cbn [fold_left].
  assert (Hbm : (covers path m /\ fst best < zlen (m_path m) /\ best_mount path best m = (zlen (m_path m), m_root m)) \/
                ((covers path m -> zlen (m_path m) <= fst best) /\ best_mount path best m = best)).
  { unfold best_mount, covers. rewrite <- (under_mount_spec (m_path m) path).
    destruct (m_used m), (under_mount (m_path m) path), (Z.ltb_spec (fst best) (zlen (m_path m))); cbn [andb];
      try (right; split; [intros (? & ? & ?); first [done|lia]|done]).
    left. split_and!; try done. intros E. rewrite E in *. simpl in *. lia. }
  destruct Hbm as [(Hc & Hlt & ->)|(Hn & ->)].
  - destruct (IH (zlen (m_path m), m_root m)) as [[-> Hmax]|(m1 & Hin & Hc1 & -> & Hlt1 & Hmax)]; [simpl; lia|..]; cbn [fst] in *; right.
    + exists m. split_and!; [by left|done|done|done|]. intros m' [->|Hin']%elem_of_cons Hc'; [lia|by apply Hmax].
    + exists m1. split_and!; [by right|done|done|lia|]. intros m' [->|Hin']%elem_of_cons Hc'; [lia|by apply Hmax].
  - destruct (IH best Hb) as [[-> Hmax]|(m1 & Hin & Hc1 & -> & Hlt1 & Hmax)].
    + left. split; [done|]. intros m' [->|Hin']%elem_of_cons Hc'; [by apply Hn|by apply Hmax].
    + right. exists m1. split_and!; [by right|done|done|done|].
      intros m' [->|Hin']%elem_of_cons Hc'; [apply Hn in Hc'; lia|by apply Hmax].
Qed.

(** [mount_for_path] finds the root of the longest mount that covers a path, prefixes
    ending between components only ([/mnt] does not cover [/mnt2]), and 0 when no mount
    covers it. *)
Theorem mount_longest_prefix (v : vfs heap) path :
  (mount_for_path v path = 0 /\ forall m, m ∈ mounts v -> ~ covers path m) \/
  (exists m, m ∈ mounts v /\ covers path m /\ mount_for_path v path = m_root m /\
    forall m', m' ∈ mounts v -> covers path m' -> zlen (m_path m') <= zlen (m_path m)).
Proof.
  unfold mount_for_path. destruct (best_mount_fold path (mounts v) (0, 0)) as [[-> Hmax]|(m & Hin & Hc & -> & _ & Hmax)]; [done|left|right].
  - split; [done|]. intros m Hin Hc. specialize (Hmax m Hin Hc). destruct Hc as (_ & Hne & _).
    destruct (m_path m); [done|]. simpl in Hmax. lia.
  - by exists m.
Qed.

Lemma last_slash_from_spec s : forall i last, 0 <= last < i \/ last = 0 /\ i = 0 ->
  let r := last_slash_from s i last in
  (r = last /\ slash ∉ s) \/ (exists a b, s = a ++ slash :: b /\ (slash ∉ b) /\ r = i + zlen a).
Proof.
  induction s as [|c s IH]; intros i last Hl r; subst r; cbn [last_slash_from]; [left; split; [done|set_solver]|].
  destruct (bool_decide_reflect (c = slash)) as [->|Hc].
  - destruct (IH (i + 1) i) as [[-> Hn]|(a & b & -> & Hb & ->)]; [lia|right..].
    + exists [], s. split_and!; [done|done|simpl; lia].
    + exists (slash :: a), b. split_and!; [done|done|simpl; lia].
  - destruct (IH (i + 1) last) as [[-> Hn]|(a & b & -> & Hb & ->)]; [lia|left|right].
    + split; [done|]. by apply not_elem_of_cons.
    + exists (c :: a), b. split_and!; [done|done|simpl; lia].
Qed.

(** [path_split] takes an absolute path apart at its last '/': the directory and the
    last component give the path back, and the component contains no '/'. *)
Theorem path_split_roundtrip (v : vfs heap) path :
  zlen (slash :: path) < VFS_PATH_MAX ->
  (forall a b, slash :: path = a ++ slash :: b -> (slash ∉ b) -> zlen b <= VFS_NAME_MAX) ->
  wp (path_split (slash :: path)) v (fun '(dir, base) v' => v' = v /\ (slash ∉ base) /\
    (dir = cs "/" /\ slash :: path = dir ++ base \/ slash :: path = dir ++ slash :: base)).
Proof.
  intros Hlen Hbase. unfold path_split. set (p := slash :: path) in *.
  destruct (last_slash_from_spec p 0 0) as [[_ Hn]|(a & b & E & Hb & El)]; [by right|exfalso; apply Hn; by left|].
  specialize (Hbase _ _ E Hb). unfold last_slash. rewrite El, Z.add_0_l. rewrite E in *. rewrite length_app in Hlen. simpl in Hlen.
  replace (Z.to_nat (zlen a + 1)) with (S (length a)) by lia. rewrite Nat2Z.id, take_app_length.
  replace (drop (S (length a)) (a ++ slash :: b)) with b
    by (rewrite drop_app_ge by lia; by replace (S (length a) - length a)%nat with 1%nat by lia).
  wp_step. apply wp_guard.
  - rewrite bool_decide_eq_false_2 by (by destruct a). cbn [negb andb]. unfold fits_in, VFS_PATH_MAX, VFS_NAME_MAX in *.
    apply andb_true_iff; split; apply Z.ltb_lt; [destruct (Z.eqb_spec (zlen a) 0); simpl; lia|lia].
  - wp_step. split_and!; [done|done|]. destruct (Z.eqb_spec (zlen a) 0) as [Ha|]; [left|by right].
    destruct a; [done|simpl in Ha; lia].
Qed.

Lemma path_split_roundtrip_witness : wp (path_split (cs "/usr/bin")) demo_vfs (fun '(dir, base) v' => (slash ∉ base)).
Proof.
  eapply wp_mono; [apply (path_split_roundtrip demo_vfs (cs "usr/bin")); [by vm_compute|]|].
  - intros a b E _. assert (length (slash :: cs "usr/bin") = length (a ++ slash :: b)) as El by (by rewrite E).
    rewrite length_app in El. simpl in El. unfold VFS_NAME_MAX. lia.
  - by intros [dir base] v' (_ & Hb & _).
Defined.

(** ** References to the root *)

(** [resolve_path] returns the root without taking a reference, and its callers drop one. *)
Definition stat_root : M (vfs heap) (Z * option stat) := vfs_stat (Some (cs "/")).
Definition stat_root_thrice : M (vfs heap) (Z * option stat) := do* stat_root in do* stat_root in stat_root.

(** Asking for the status of [/] drops a reference to the root inode each time: a
    root with the references [ramfs_create_root] gives it (its own, [.] and [..]) is
    freed by the third call, and the fourth uses the freed inode. *)
Theorem root_freed_by_stat :
  wp stat_root_thrice demo_vfs (fun r v => fst r = 0 /\ v_inodes v !! v_root v = None) /\
  (do* stat_root_thrice in stat_root) demo_vfs = Fault.
Proof. by vm_compute. Qed.

(** ** Symbolic links *)

(** The path that is walked next when the link that ends before [rel] in [path] has the
    target [l]. *)
Definition relinked (path l : cstr) (rel : Z) : outcome cstr :=
  let! buf := poke (zeros VFS_PATH_MAX) 0 path in
  let! buf' := follow_link buf l rel in
  str_of buf' 0.

(** An absolute link target is copied over the path while the rest of the path still
    lies in the same buffer: the rest survives behind a shorter target, is lost behind a
    target as long as the part it replaces, and is overwritten by a longer one, so that
    the concatenation runs out of the buffer - as for [/dev/fd/0], where [vfs_init] makes
    [/dev/fd] a link to [/proc/self/fd]. *)
Theorem absolute_link_overwrites_rest :
  relinked (cs "/lnk/x") (cs "/b") 5 = Done (cs "/b/x") /\
  relinked (cs "/a/x") (cs "/b") 3 = Done (cs "/b/") /\
  relinked (cs "/dev/fd/0") (cs "/proc/self/fd") 8 = Fault.
Proof. by vm_compute. Qed.

(** A relative link in the middle of a path is resolved against the directory of the
    last component of the whole path. *)
Theorem relative_link_misplaced :
  relinked (cs "/a") (cs "b") 2 = Done (cs "/b") /\ relinked (cs "/a/x") (cs "b") 3 = Done (cs "/a/b/x").
Proof. by vm_compute. Qed.

(** A symbolic link opened for writing with O_NOFOLLOW is given to [ramfs_write_impl],
    which takes the link's private data for a file's. *)
Theorem write_through_link_confuses :
  (let* fd := vfs_open (Some (cs "/l")) (Z.lor O_NOFOLLOW O_WRONLY) 0 in vfs_write fd (cs "x")) demo_vfs = Fault.
Proof. by vm_compute. Qed.

(** ** File contents *)

Definition shrink_and_extend : M (vfs heap) (Z * list byte) :=
  do* vfs_write 3 (cs "hello") in
  do* vfs_ftruncate 3 1 in
  do* vfs_lseek 3 4 SEEK_SET in
  do* vfs_write 3 (cs "z") in
  do* vfs_lseek 3 0 SEEK_SET in
  vfs_read 3 5.

(** A write behind the end of a file that was cut shows the bytes that were cut off
    where zeros belong. *)
Theorem truncated_bytes_reappear : wp shrink_and_extend demo_vfs (fun r _ => r = (5, cs "hellz")).
Proof. by vm_compute. Qed.
