(* ===== verification/Paging.v ===== *)
(** * Page tables and user memory (src/src/paging.c, src/src/uaccess.c)

    The kernel runs on an identity mapping, so a page table is the object at its
    physical address: the tables are a map from their addresses to their 512 entries,
    the pages of user programs are bytes of the physical memory.  Both come from the
    heap, in blocks that do not overlap.  A [user_space_t] is passed to the operations
    and returned by those that change it; [None] is the NULL pointer.  [invlpg]
    instructions are recorded in [km_invlpg], the value of the register CR3 is
    [km_cr3]. *)

From S2P Require Import Prelude Cstring Alloc.

Definition ATM_PAGE_SIZE : Z := 0x1000.
Definition ATM_PAGE_MASK : Z := 0x000FFFFFFFFFF000.
Definition ATM_USER_BASE : Z := 0x40000000.
Definition ATM_USER_WINDOW_SIZE : Z := 0x08000000.
Definition ATM_USER_TOP : Z := ATM_USER_BASE + ATM_USER_WINDOW_SIZE.
Definition ATM_USER_STACK_TOP : Z := ATM_USER_TOP - 0x1000.
Definition ATM_USER_PT_COUNT : Z := ATM_USER_WINDOW_SIZE / (512 * ATM_PAGE_SIZE).
Definition ATM_PTE_P : Z := 0x001.
Definition ATM_PTE_W : Z := 0x002.
Definition ATM_PTE_U : Z := 0x004.
Definition ATM_PTE_NX : Z := 0x8000000000000000.

(** [us_user_pt] is the address of the index of page tables, [us_index] its entries. *)
Record user_space := mk_us {
  us_pml4 : Z; us_pdpt : Z; us_pd : list Z; us_user_pt : Z; us_index : list Z;
  us_cr3 : Z; us_phys_base : Z; us_mapped_pages : Z; us_valid : Z }.

#[export] Instance eta_us : Eta user_space := fun s =>
  mk_us (us_pml4 s) (us_pdpt s) (us_pd s) (us_user_pt s) (us_index s) (us_cr3 s) (us_phys_base s) (us_mapped_pages s) (us_valid s).

Definition us_zero : user_space := mk_us 0 0 [0; 0; 0; 0] 0 [] 0 0 0 0.

Record kmem (H : Type) := mk_kmem {
  km_heap : H;
  km_tables : gmap Z (list Z);
  km_mem : gmap Z byte;
  g_kernel_cr3 : Z;
  km_cr3 : Z;
  km_invlpg : list Z }.
Arguments mk_kmem {_} _ _ _ _ _ _.
Arguments km_heap {_}. Arguments km_tables {_}. Arguments km_mem {_}. Arguments g_kernel_cr3 {_}.
Arguments km_cr3 {_}. Arguments km_invlpg {_}.

#[export] Instance eta_kmem H : Eta (kmem H) := fun k =>
  mk_kmem (km_heap k) (km_tables k) (km_mem k) (g_kernel_cr3 k) (km_cr3 k) (km_invlpg k).

(** ** Bytes of physical memory *)

Definition mem_byte (m : gmap Z byte) (a : Z) : byte := default nul (m !! a).
Fixpoint mem_read (m : gmap Z byte) (a : Z) (n : nat) : list byte :=
  match n with O => [] | S n' => mem_byte m a :: mem_read m (a + 1) n' end.
Fixpoint mem_write (m : gmap Z byte) (a : Z) (bs : list byte) : gmap Z byte :=
  match bs with [] => m | b :: bs' => mem_write (<[a := b]> m) (a + 1) bs' end.

(** ** Addresses *)

Definition user_window (va : Z) : bool := (ATM_USER_BASE <=? va) && (va <? ATM_USER_TOP).
Definition user_pt_slot (va : Z) : Z := Z.shiftr (u64 (va - ATM_USER_BASE)) 21.
Definition user_pt_page (va : Z) : Z := Z.land (Z.shiftr va 12) 0x1ff.
Definition phys_ptr (entry : Z) : Z := Z.land entry ATM_PAGE_MASK.
Definition page_offset (va : Z) : Z := Z.land va 0xfff.
Definition pte_has (e bit : Z) : bool := truth (Z.land e bit).

(** The entry that maps a page: its frame, present, for the user, and the two policy bits. *)
Definition user_entry (phys flags : Z) : Z :=
  Z.lor (Z.lor (Z.lor (phys_ptr phys) (Z.lor ATM_PTE_P ATM_PTE_U)) (Z.land flags ATM_PTE_W)) (Z.land flags ATM_PTE_NX).
(** The entry that points to a table. *)
Definition table_entry (p bits : Z) : Z := Z.lor (phys_ptr p) bits.

Section Paging.
Context {H : Type} `{!Allocator H}.
Abbreviation K := (M (kmem H)).

Definition on_heap {A} (m : M H A) : K A := zoom km_heap (fun h k => k <| km_heap := h |>) m.

Definition table_at (p : Z) : K (list Z) := deref (fun k => km_tables k !! p).
Definition entry_at (p i : Z) : K Z := let* t := table_at p in deref (fun _ => aget t i).
Definition put_table (p : Z) (t : list Z) : K unit := modify (fun k => k <| km_tables := <[p := t]> (km_tables k) |>).
Definition put_entry (p i e : Z) : K unit := let* t := table_at p in put_table p (aset t i e).
Definition free_table (p : Z) : K unit :=
  do* on_heap (kfree p) in modify (fun k => k <| km_tables := delete p (km_tables k) |>).

(** A page of zeros for a table. *)
Definition page_alloc : K Z :=
  let* p := on_heap (kmalloc_aligned ATM_PAGE_SIZE ATM_PAGE_SIZE) in
  do* (if p =? 0 then ret tt else put_table p (replicate 512 0)) in
  ret p.

Definition user_tlb_invalidate (va : Z) : K unit := modify (fun k => k <| km_invlpg := va :: km_invlpg k |>).

Definition paging_init : K unit := modify (fun k => k <| g_kernel_cr3 := Z.land (km_cr3 k) ATM_PAGE_MASK |>).
Definition paging_kernel_cr3 : K Z := gets g_kernel_cr3.
Definition paging_activate_user_space (s : option user_space) : K Z :=
  match s with
  | None => ret (-1)
  | Some us =>
    if (us_valid us =? 0) || (us_cr3 us =? 0) then ret (-1)
    else do* modify (fun k => k <| km_cr3 := us_cr3 us |>) in ret 0
  end.

(** Freeing the pages of one page table and the table. *)
Definition destroy_table (pt : Z) : K unit :=
  do* for_each (fun i =>
        let* e := entry_at pt i in
        if pte_has e ATM_PTE_P then on_heap (kfree (phys_ptr e)) else ret tt) (seqZ 0 512) in
  free_table pt.

Definition paging_destroy_user_space (s : option user_space) : K (option user_space) :=
  match s with
  | None => ret None
  | Some us =>
    do* (if us_user_pt us =? 0 then ret tt
         else
           do* for_each (fun pt => if pt =? 0 then ret tt else destroy_table pt) (us_index us) in
           on_heap (kfree (us_user_pt us))) in
    do* for_each (fun pd => if pd =? 0 then ret tt else free_table pd) (us_pd us) in
    do* (if us_pdpt us =? 0 then ret tt else free_table (us_pdpt us)) in
    do* (if us_pml4 us =? 0 then ret tt else free_table (us_pml4 us)) in
    ret (Some us_zero)
  end.

Definition give_up_space (us : user_space) : K (Z * user_space) :=
  let* r := paging_destroy_user_space (Some us) in ret (-1, default us_zero r).

(** [for(i<4) s->pd[i]=page_alloc()], ended by the first that fails. *)
Fixpoint alloc_pds (ks : list Z) (us : user_space) : K (bool * user_space) :=
  match ks with
  | [] => ret (true, us)
  | i :: ks' =>
    let* p := page_alloc in
    let us' := us <| us_pd := aset (us_pd us) i p |> in
    if p =? 0 then ret (false, us') else alloc_pds ks' us'
  end.

(** The loop that copies the kernel's page directories. *)
Fixpoint copy_pds (kpdpt : list Z) (ks : list Z) (us : user_space) : K bool :=
  match ks with
  | [] => ret true
  | i :: ks' =>
    let* e := deref (fun _ => aget kpdpt i) in
    if negb (pte_has e ATM_PTE_P) then ret false
    else
      let* kpd := table_at (phys_ptr e) in
      let* pd := deref (fun _ => aget (us_pd us) i) in
      do* put_table pd kpd in
      do* put_entry (us_pdpt us) i (table_entry pd (Z.lor ATM_PTE_P ATM_PTE_W)) in
      copy_pds kpdpt ks' us
  end.

Definition user_bits : Z := Z.lor (Z.lor ATM_PTE_P ATM_PTE_W) ATM_PTE_U.

Definition paging_create_user_space (null : bool) : K (Z * user_space) :=
  if null then ret (-1, us_zero)
  else
    let* c := gets g_kernel_cr3 in
    do* (if c =? 0 then paging_init else ret tt) in
    let* kcr3 := gets g_kernel_cr3 in
    let* kpml4 := table_at kcr3 in
    let* k0 := deref (fun _ => aget kpml4 0) in
    if negb (pte_has k0 ATM_PTE_P) || (phys_ptr k0 =? 0) then ret (-1, us_zero)
    else
      let* pml4 := page_alloc in
      let* pdpt := page_alloc in
      let* idx := on_heap (kmalloc (8 * ATM_USER_PT_COUNT)) in
      let us := us_zero <| us_pml4 := pml4 |> <| us_pdpt := pdpt |> <| us_user_pt := idx |>
                  <| us_index := if idx =? 0 then [] else replicate (Z.to_nat ATM_USER_PT_COUNT) 0 |> in
      if (pml4 =? 0) || (pdpt =? 0) || (idx =? 0) then give_up_space us
      else
        let* '(ok, us1) := alloc_pds [0; 1; 2; 3] us in
        if negb ok then give_up_space us1
        else
          let* kpdpt := table_at (phys_ptr k0) in
          do* put_table pml4 kpml4 in
          do* put_table pdpt kpdpt in
          let* copied := copy_pds kpdpt [0; 1; 2; 3] us1 in
          if negb copied then give_up_space us1
          else
            do* put_entry pml4 0 (table_entry pdpt user_bits) in
            let* pd1 := deref (fun _ => aget (us_pd us1) 1) in
            do* put_entry pdpt 1 (table_entry pd1 user_bits) in
            ret (0, us1 <| us_cr3 := pml4 |> <| us_valid := 1 |>).

(** The checks the operations on one page start with. *)
Definition page_args_ok (us : user_space) (va : Z) : bool :=
  negb (us_valid us =? 0) && user_window va && (page_offset va =? 0).

(** The page table of the 2 MiB span of [va]; [None] for an index out of range or no table. *)
Definition table_of (us : user_space) (va : Z) : option Z :=
  let slot := user_pt_slot va in
  if ATM_USER_PT_COUNT <=? slot then None
  else pt ← aget (us_index us) slot; if pt =? 0 then None else Some pt.

(** [if(page>=s->mapped_pages) s->mapped_pages=page+1;] *)
Definition count_page (us : user_space) (va : Z) : user_space :=
  let page := (va - ATM_USER_BASE) / ATM_PAGE_SIZE in
  if us_mapped_pages us <=? page then us <| us_mapped_pages := page + 1 |> else us.

Definition paging_map_user_page (s : option user_space) (va phys flags : Z) : K (Z * option user_space) :=
  match s with
  | None => ret (-1, s)
  | Some us =>
    if negb (page_args_ok us va) then ret (-1, s)
    else
      let slot := user_pt_slot va in
      if ATM_USER_PT_COUNT <=? slot then ret (-1, s)
      else
        let* pt0 := deref (fun _ => aget (us_index us) slot) in
        let* pt := (if pt0 =? 0 then page_alloc else ret pt0) in
        let us1 := us <| us_index := aset (us_index us) slot pt |> in
        if pt =? 0 then ret (-1, Some us1)
        else
          do* (if pt0 =? 0 then
                 let* pd1 := deref (fun _ => aget (us_pd us) 1) in
                 put_entry pd1 slot (table_entry pt user_bits)
               else ret tt) in
          do* put_entry pt (user_pt_page va) (user_entry phys flags) in
          do* user_tlb_invalidate va in
          ret (0, Some (count_page us1 va))
  end.

Definition paging_unmap_user_page (s : option user_space) (va : Z) : K Z :=
  match s with
  | None => ret (-1)
  | Some us =>
    if negb (page_args_ok us va) then ret (-1)
    else match table_of us va with
    | None => ret (-1)
    | Some pt => do* put_entry pt (user_pt_page va) 0 in do* user_tlb_invalidate va in ret 0
    end
  end.

Definition user_present (e : Z) : bool := pte_has e ATM_PTE_P && pte_has e ATM_PTE_U.

Definition paging_release_user_page (s : option user_space) (va : Z) : K Z :=
  match s with
  | None => ret (-1)
  | Some us =>
    if negb (page_args_ok us va) then ret (-1)
    else match table_of us va with
    | None => ret (-1)
    | Some pt =>
      let* old := entry_at pt (user_pt_page va) in
      if negb (user_present old) then ret (-1)
      else
        do* put_entry pt (user_pt_page va) 0 in
        do* user_tlb_invalidate va in
        do* on_heap (kfree (phys_ptr old)) in
        ret 0
    end
  end.

Definition paging_protect_user_page (s : option user_space) (va flags : Z) : K Z :=
  match s with
  | None => ret (-1)
  | Some us =>
    if negb (page_args_ok us va) then ret (-1)
    else match table_of us va with
    | None => ret (-1)
    | Some pt =>
      let* old := entry_at pt (user_pt_page va) in
      if negb (user_present old) then ret (-1)
      else
        do* put_entry pt (user_pt_page va) (user_entry old flags) in
        do* user_tlb_invalidate va in
        ret 0
    end
  end.

Definition paging_user_mapped_bytes (s : option user_space) : K Z :=
  match s with
  | None => ret 0
  | Some us =>
    if us_valid us =? 0 then ret 0
    else gets (fun k =>
      ATM_PAGE_SIZE * foldr Z.add 0 (map (fun pt =>
        if pt =? 0 then 0
        else Z.of_nat (length (filter (fun e => pte_has e ATM_PTE_P) (default [] (km_tables k !! pt))))) (us_index us)))
  end.

(** The physical address and the entry; [None] for -1. *)
Definition paging_user_translate (s : option user_space) (va : Z) : K (option (Z * Z)) :=
  match s with
  | None => ret None
  | Some us =>
    if (us_valid us =? 0) || negb (user_window va) then ret None
    else match table_of us va with
    | None => ret None
    | Some pt =>
      let* e := entry_at pt (user_pt_page va) in
      ret (if user_present e then Some (Z.lor (phys_ptr e) (page_offset va), e) else None)
    end
  end.

(** [for(;;)] over the pages from [page] to [last]. *)
Fixpoint range_loop (fuel : nat) (s : option user_space) (page last : Z) (write : bool) : K Z :=
  match fuel with
  | O => fault
  | S fuel' =>
    let* t := paging_user_translate s page in
    match t with
    | None => ret (-1)
    | Some (_, f) =>
      if write && negb (pte_has f ATM_PTE_W) then ret (-1)
      else if page =? last then ret 0
      else range_loop fuel' s (u64 (page + ATM_PAGE_SIZE)) last write
    end
  end.

(** The window has 32768 pages, so a range has at most 32769. *)
Definition range_fuel : nat := Z.to_nat (ATM_USER_WINDOW_SIZE / ATM_PAGE_SIZE + 2).

Definition paging_user_range (s : option user_space) (va size : Z) (write : bool) : K Z :=
  match s with
  | None => ret (-1)
  | Some _ =>
    if (size =? 0) || negb (user_window va) || (ATM_USER_WINDOW_SIZE <? size) then ret (-1)
    else
      let e := u64 (va + size - 1) in
      if (e <? va) || negb (user_window e) then ret (-1)
      else range_loop range_fuel s (Z.land va ATM_PAGE_MASK) (Z.land e ATM_PAGE_MASK) write
  end.

(** ** uaccess.c *)

(** The copy loop, page by page.  [kbuf] is the rest of the kernel's buffer; what is
    copied from user memory is returned. *)
Fixpoint copy_loop_user (fuel : nat) (s : option user_space) (uaddr : Z) (kbuf : list byte) (len : Z) (to_user : bool)
    : K (Z * list byte) :=
  if len =? 0 then ret (0, [])
  else match fuel with
  | O => fault
  | S fuel' =>
    let* t := paging_user_translate s uaddr in
    match t with
    | None => ret (-1, [])
    | Some (phys, _) =>
      let room := ATM_PAGE_SIZE - page_offset uaddr in
      let n := if len <? room then len else room in
      let* got := (if to_user
                   then do* modify (fun k => k <| km_mem := mem_write (km_mem k) phys (take (Z.to_nat n) kbuf) |>) in ret []
                   else gets (fun k => mem_read (km_mem k) phys (Z.to_nat n))) in
      let* '(r, rest) := copy_loop_user fuel' s (u64 (uaddr + n)) (drop (Z.to_nat n) kbuf) (len - n) to_user in
      ret (r, got ++ rest)
    end
  end.

Definition user_copy (s : option user_space) (uaddr : Z) (kbuf : option (list byte)) (len : Z) (to_user : bool) : K (Z * list byte) :=
  match s, kbuf with
  | Some _, Some kb =>
    if len =? 0 then ret (0, [])
    else
      let* r := paging_user_range s uaddr len to_user in
      if r <? 0 then ret (-1, []) else copy_loop_user range_fuel s uaddr kb len to_user
  | _, _ => ret (-1, [])
  end.

(** [dst] is not NULL when [dst_ok]. *)
Definition copy_from_user (s : option user_space) (dst_ok : bool) (user_src len : Z) : K (Z * list byte) :=
  user_copy s user_src (if dst_ok then Some [] else None) len false.
Definition copy_to_user (s : option user_space) (user_dst : Z) (src : option (list byte)) (len : Z) : K Z :=
  let* x := user_copy s user_dst src len true in ret (fst x).

Definition user_range_valid (s : option user_space) (user_ptr len : Z) (write_access : bool) : K Z :=
  match s with
  | None => ret (-1)
  | Some _ => if (user_ptr =? 0) && negb (len =? 0) then ret (-1) else paging_user_range s user_ptr len write_access
  end.

(** The length of the string at [addr], searched from [n] on. *)
Fixpoint strnlen_loop (left : nat) (s : option user_space) (addr n : Z) : K (option Z) :=
  match left with
  | O => ret None
  | S left' =>
    let* '(r, c) := copy_from_user s true (u64 (addr + n)) 1 in
    if r <? 0 then ret None
    else if bool_decide (c = [nul]) then ret (Some n)
    else strnlen_loop left' s addr (n + 1)
  end.

Definition strnlen_user (s : option user_space) (user_src max : Z) : K (option Z) :=
  match s with
  | None => ret None
  | Some _ => if (user_src =? 0) || (max =? 0) then ret None else strnlen_loop (Z.to_nat max) s user_src 0
  end.

Definition copy_string_from_user (s : option user_space) (dst_ok : bool) (dst_size user_src : Z) : K (Z * list byte) :=
  if negb dst_ok || (dst_size <? 2) then ret (-1, [])
  else
    let* n := strnlen_user s user_src (dst_size - 1) in
    match n with
    | None => ret (-1, [])
    | Some len =>
      let* '(r, bs) := copy_from_user s dst_ok user_src (len + 1) in
      if r <? 0 then ret (-1, []) else ret (0, bs)
    end.
End Paging.
