(* ===== verification/PagingInv.v ===== *)
(** * Translation of user addresses

    The page tables of an address space as a partial function from user addresses to
    physical addresses, and what the operations of paging.c do to it. *)

From S2P Require Import Prelude Cstring Alloc Paging.

(** What the heap promises of the addresses in use: a new one differs from them, pages
    are aligned, and any of them can be released. *)
Class PageLaws (H : Type) {A : Allocator H} := {
  pages_live : H -> gset Z -> Prop;
  page_law h P : pages_live h P ->
    wp (kmalloc_aligned ATM_PAGE_SIZE ATM_PAGE_SIZE) h (fun p h' =>
      (p = 0 /\ pages_live h' P) \/
      (p <> 0 /\ (p ∉ P) /\ p mod 4096 = 0 /\ 0 < p < 2 ^ 52 /\ pages_live h' ({[p]} ∪ P)));
  block_law h P n : pages_live h P -> 0 < n < 2 ^ 32 ->
    wp (kmalloc n) h (fun p h' => (p = 0 /\ pages_live h' P) \/ (p <> 0 /\ (p ∉ P) /\ pages_live h' ({[p]} ∪ P)));
  page_free_law h P p : pages_live h P -> p ∈ P -> wp (kfree p) h (fun _ h' => pages_live h' (P ∖ {[p]})) }.

(** ** Page arithmetic *)

Lemma page_offset_mod va : page_offset va = va mod 4096.
Proof. apply (land_low va 12). lia. Qed.

Lemma phys_ptr_small a : 0 <= a < 2 ^ 52 -> phys_ptr a = a - a mod 4096.
Proof.
  intros Ha. unfold phys_ptr. change ATM_PAGE_MASK with (Z.lxor (2 ^ 52 - 1) (2 ^ 12 - 1)).
  assert (E : Z.land a (Z.lxor (2 ^ 52 - 1) (2 ^ 12 - 1)) = Z.ldiff (Z.land a (2 ^ 52 - 1)) (2 ^ 12 - 1)).
  { apply Z.bits_inj'. intros n Hn. rewrite Z.land_spec, Z.lxor_spec, Z.ldiff_spec, Z.land_spec.
    replace (2 ^ 52 - 1) with (Z.ones 52) by done. replace (2 ^ 12 - 1) with (Z.ones 12) by done.
    rewrite !Z.testbit_ones by lia.
    destruct (Z.testbit a n), (0 <=? n) eqn:?, (n <? 52) eqn:?, (n <? 12) eqn:?; simpl; try done; lia. }
  rewrite E, land_low, Z.mod_small by lia. change (2 ^ 12 - 1) with (Z.ones 12). rewrite Z.ldiff_ones_r by lia.
  rewrite Z.shiftr_div_pow2, Z.shiftl_mul_pow2 by lia. change (2 ^ 12) with 4096. pose proof (Z.div_mod a 4096). lia.
Qed.

Lemma phys_ptr_aligned e : phys_ptr e mod 4096 = 0.
Proof.
  change 4096 with (2 ^ 12). rewrite <- Z.land_ones by lia. unfold phys_ptr. rewrite <- Z.land_assoc.
  by rewrite Z.land_0_r.
Qed.

Lemma phys_offset_add e va : Z.lor (phys_ptr e) (page_offset va) = phys_ptr e + va mod 4096.
Proof.
  rewrite <- page_offset_mod. apply lor_disjoint. unfold phys_ptr, page_offset.
  rewrite <- Z.land_assoc, (Z.land_assoc _ va), (Z.land_comm _ va), <- Z.land_assoc. change (Z.land ATM_PAGE_MASK 0xfff) with 0.
  by rewrite !Z.land_0_r.
Qed.

Definition page_no (va : Z) : Z := (va - ATM_USER_BASE) / 4096.

Lemma window_range va : user_window va = true <-> ATM_USER_BASE <= va < ATM_USER_TOP.
Proof. unfold user_window. rewrite andb_true_iff, Z.leb_le, Z.ltb_lt. done. Qed.

Lemma page_no_range va : user_window va = true -> 0 <= page_no va < 32768.
Proof.
  rewrite window_range. unfold page_no, ATM_USER_TOP, ATM_USER_BASE, ATM_USER_WINDOW_SIZE. intros Hw.
  split; [apply Z.div_pos; lia|apply Z.div_lt_upper_bound; lia].
Qed.

Lemma slot_of_page va : user_window va = true -> user_pt_slot va = page_no va / 512 /\ user_pt_page va = page_no va mod 512.
Proof.
  intros Hw. pose proof (page_no_range va Hw) as Hp. apply window_range in Hw.
  unfold user_pt_slot, user_pt_page, page_no, ATM_USER_TOP, ATM_USER_BASE, ATM_USER_WINDOW_SIZE in *. split.
  - rewrite u64_small by lia. rewrite Z.shiftr_div_pow2, Z.div_div by lia. done.
  - rewrite Z.shiftr_div_pow2 by lia. change 0x1ff with (2 ^ 9 - 1). rewrite land_low by lia.
    change (2 ^ 12) with 4096. change (2 ^ 9) with 512. replace va with ((va - 0x40000000) + 262144 * 4096) at 1 by lia.
    rewrite Z.div_add by lia. change 262144 with (512 * 512). by rewrite Z.mod_add by lia.
Qed.

Lemma page_no_step va i : 0 <= i -> (va mod 4096) + i < 4096 -> page_no (va + i) = page_no va.
Proof.
  intros Hi Hlt. unfold page_no. symmetry. apply (Z.div_unique _ _ _ ((va + i) mod 4096)).
  - left. apply Z.mod_pos_bound. lia.
  - replace ((va + i) mod 4096) with (va mod 4096 + i).
    + pose proof (Z.div_mod (va - ATM_USER_BASE) 4096). rewrite (Zminus_mod va) in H. change (ATM_USER_BASE mod 4096) with 0 in H.
      rewrite Z.sub_0_r, Z.mod_mod in H by lia. lia.
    + apply (Z.mod_unique _ _ (va / 4096)); [left; pose proof (Z.mod_pos_bound va 4096); lia|].
      pose proof (Z.div_mod va 4096). lia.
Qed.

(** ** Entries *)

Lemma pte_bits e : user_present e = true -> pte_has e ATM_PTE_P = true /\ pte_has e ATM_PTE_U = true.
Proof. apply andb_true_iff. Qed.

Lemma user_entry_phys phys flags : phys_ptr (user_entry phys flags) = phys_ptr phys.
Proof.
  unfold user_entry, phys_ptr. rewrite !Z.land_lor_distr_l, <- !Z.land_assoc, Z.land_diag.
  change (Z.land (Z.lor ATM_PTE_P ATM_PTE_U) ATM_PAGE_MASK) with 0. change (Z.land ATM_PTE_W ATM_PAGE_MASK) with 0.
  change (Z.land ATM_PTE_NX ATM_PAGE_MASK) with 0. by rewrite !Z.land_0_r, !Z.lor_0_r.
Qed.

Lemma truth_bit_test e n : 0 <= n -> pte_has e (2 ^ n) = Z.testbit e n.
Proof.
  intros Hn. unfold pte_has, truth. rewrite Z.land_comm. destruct (Z.testbit e n) eqn:E.
  - rewrite negb_true_iff, Z.eqb_neq. intros E0. assert (Hb : Z.testbit (Z.land (2 ^ n) e) n = false) by (by rewrite E0, Z.bits_0).
    rewrite Z.land_spec, Z.pow2_bits_true, E in Hb; done.
  - rewrite negb_false_iff, Z.eqb_eq. apply Z.bits_inj'. intros m Hm. rewrite Z.land_spec, Z.bits_0.
    destruct (decide (m = n)) as [->|]; [by rewrite E, andb_false_r|]. by rewrite Z.pow2_bits_false.
Qed.

Lemma user_entry_bit phys flags n : 0 <= n < 64 -> Z.testbit ATM_PAGE_MASK n = false ->
  Z.testbit (user_entry phys flags) n = (n =? 0) || (n =? 2) || (Z.testbit flags n && ((n =? 1) || (n =? 63))).
Proof.
  intros Hn Hm. unfold user_entry, phys_ptr. rewrite !Z.lor_spec, !Z.land_spec, Hm, andb_false_r. cbn [orb].
  change ATM_PTE_P with (2 ^ 0). change ATM_PTE_U with (2 ^ 2). change ATM_PTE_W with (2 ^ 1). change ATM_PTE_NX with (2 ^ 63).
  rewrite !Z.pow2_bits_eqb by lia. rewrite !(Z.eqb_sym _ n). by destruct (Z.testbit flags n), (n =? 0), (n =? 2), (n =? 1), (n =? 63).
Qed.

Lemma user_entry_present phys flags : user_present (user_entry phys flags) = true.
Proof.
  unfold user_present. change ATM_PTE_P with (2 ^ 0). change ATM_PTE_U with (2 ^ 2).
  rewrite !truth_bit_test by lia. by rewrite !user_entry_bit by (lia || done).
Qed.

Lemma user_entry_writable phys flags : pte_has (user_entry phys flags) ATM_PTE_W = pte_has flags ATM_PTE_W.
Proof.
  change ATM_PTE_W with (2 ^ 1). rewrite !truth_bit_test by lia. rewrite user_entry_bit by (lia || done).
  by rewrite andb_true_r.
Qed.

(** ** Address spaces *)

Section Space.
Context {H : Type} `{!Allocator H} `{!PageLaws H}.
Implicit Types (k : kmem H) (us : user_space) (P : gset Z) (T : gmap Z (list Z)).

Definition index_at us (pg : Z) : Z := default 0 (aget (us_index us) (pg / 512)).

(** The entry of a page number. *)
Definition entry_of T us (pg : Z) : option Z :=
  let pt := index_at us pg in
  if pt =? 0 then None
  else e ← T !! pt ≫= fun t => aget t (pg mod 512); if user_present e then Some e else None.

(** The translation of an address. *)
Definition xlate T us (va : Z) : option (Z * Z) :=
  if user_window va then e ← entry_of T us (page_no va); Some (phys_ptr e + va mod 4096, e) else None.

Record space_ok P k us : Prop := {
  so_pages : pages_live (km_heap k) P;
  so_valid : us_valid us <> 0;
  so_index : length (us_index us) = 64%nat;
  so_tables : forall i pt, us_index us !! i = Some pt -> pt <> 0 ->
    pt ∈ P /\ exists t, km_tables k !! pt = Some t /\ length t = 512%nat;
  so_distinct : forall i j pt, us_index us !! i = Some pt -> us_index us !! j = Some pt -> pt <> 0 -> i = j;
  so_pd : exists pd1 t, aget (us_pd us) 1 = Some pd1 /\ km_tables k !! pd1 = Some t /\ length t = 512%nat /\ pd1 ∈ P /\
    forall i, us_index us !! i <> Some pd1 }.

Lemma wp_table_at k p t Q : km_tables k !! p = Some t -> Q t k -> wp (table_at p) k Q.
Proof. intros E HQ. by eapply wp_deref. Qed.
Lemma wp_entry_at k p t i e Q : km_tables k !! p = Some t -> aget t i = Some e -> Q e k -> wp (entry_at p i) k Q.
Proof. intros Ht He HQ. unfold entry_at. wp_step. eapply wp_table_at; [done|]. by eapply wp_deref. Qed.
Lemma wp_put_entry k p t i e Q :
  km_tables k !! p = Some t -> Q tt (k <| km_tables := <[p := aset t i e]> (km_tables k) |>) -> wp (put_entry p i e) k Q.
Proof. intros Ht HQ. unfold put_entry. wp_step. by eapply wp_table_at. Qed.

Lemma index_slot us pg : length (us_index us) = 64%nat -> 0 <= pg < 32768 ->
  us_index us !! Z.to_nat (pg / 512) = Some (index_at us pg) /\ aget (us_index us) (pg / 512) = Some (index_at us pg).
Proof.
  intros Hl Hp. assert (0 <= pg / 512 < 64) as Hs by (split; [apply Z.div_pos|apply Z.div_lt_upper_bound]; lia).
  destruct (aget_is_Some (us_index us) (pg / 512)) as [pt Hpt]; [rewrite Hl; lia|]. unfold index_at. rewrite Hpt. split; [|done].
  unfold aget in Hpt. destruct (Z.ltb_spec (pg / 512) 0); [lia|done].
Qed.

Lemma table_of_page us va : length (us_index us) = 64%nat -> user_window va = true ->
  table_of us va = if index_at us (page_no va) =? 0 then None else Some (index_at us (page_no va)).
Proof.
  intros Hl Hw. destruct (slot_of_page va Hw) as [Es _]. pose proof (page_no_range va Hw) as Hp.
  unfold table_of. rewrite Es. change ATM_USER_PT_COUNT with 64.
  assert (page_no va / 512 < 64) by (apply Z.div_lt_upper_bound; lia). rewrite (proj2 (Z.leb_gt _ _)) by done.
  destruct (index_slot us (page_no va) Hl Hp) as [_ ->]. done.
Qed.

Lemma table_facts P k us pg : space_ok P k us -> 0 <= pg < 32768 -> index_at us pg <> 0 ->
  index_at us pg ∈ P /\ exists t e, km_tables k !! index_at us pg = Some t /\ length t = 512%nat /\ aget t (pg mod 512) = Some e.
Proof.
  intros Hok Hp Hne. destruct (index_slot us pg (so_index _ _ _ Hok) Hp) as [Hi _].
  destruct (so_tables _ _ _ Hok _ _ Hi Hne) as (HP & t & Ht & Hl). split; [done|].
  destruct (aget_is_Some t (pg mod 512)) as [e He]; [rewrite Hl; pose proof (Z.mod_pos_bound pg 512); lia|]. by exists t, e.
Qed.

Lemma translate_spec P k us va : space_ok P k us ->
  wp (paging_user_translate (Some us) va) k (fun o k' => k' = k /\ o = xlate (km_tables k) us va).
Proof.
  intros Hok. unfold paging_user_translate, xlate. rewrite (proj2 (Z.eqb_neq _ 0)) by apply Hok. cbn [orb].
  destruct (user_window va) eqn:Hw; cbn [negb]; [|by wp_step]. pose proof (page_no_range va Hw) as Hp.
  rewrite table_of_page by (done || apply Hok). unfold entry_of.
  destruct (Z.eqb_spec (index_at us (page_no va)) 0) as [E|Hne]; [by wp_step|].
  destruct (table_facts _ _ _ _ Hok Hp Hne) as (_ & t & e & Ht & _ & He).
  destruct (slot_of_page va Hw) as [_ Ei]. wp_step. eapply wp_entry_at; [done|by rewrite Ei|]. wp_step.
  split; [done|]. rewrite Ht. cbn [mbind option_bind]. rewrite He. cbn [mbind option_bind].
  destruct (user_present e); [|done]. cbn [mbind option_bind]. by rewrite phys_offset_add.
Qed.

(** ** Ranges *)

Definition allowed T us (va : Z) (write : bool) : Prop :=
  exists p e, xlate T us va = Some (p, e) /\ (write = true -> pte_has e ATM_PTE_W = true).
Definition accessible T us (va n : Z) (write : bool) : Prop := forall i, 0 <= i < n -> allowed T us (va + i) write.

Lemma allowed_page T us va i w : user_window va = true -> user_window (va + i) = true -> page_no (va + i) = page_no va ->
  allowed T us va w -> allowed T us (va + i) w.
Proof.
  intros Hw Hw' Epg (p & e & E & Hwr). unfold xlate in E. rewrite Hw in E. unfold allowed, xlate. rewrite Hw', Epg.
  destruct (entry_of T us (page_no va)) as [e'|]; [|done]. simplify_eq/=. by eauto.
Qed.

Lemma window_page va i : user_window va = true -> 0 <= i -> va mod 4096 + i < 4096 -> user_window (va + i) = true.
Proof.
  rewrite !window_range. unfold ATM_USER_TOP, ATM_USER_BASE, ATM_USER_WINDOW_SIZE. intros Hw Hi Hlt.
  pose proof (Z.div_mod va 4096). assert (va / 4096 < 294912) by (apply Z.div_lt_upper_bound; lia). lia.
Qed.

(** All addresses of one page are alike. *)
Lemma allowed_whole_page T us page i w : page mod 4096 = 0 -> 0 <= i < 4096 ->
  (allowed T us (page + i) w <-> allowed T us page w).
Proof.
  intros Hal Hi. assert (Epg : page_no (page + i) = page_no page) by (apply page_no_step; lia). split.
  - intros Ha. assert (Hw : user_window (page + i) = true) by (destruct Ha as (p & e & E & _); unfold xlate in E; by destruct (user_window (page + i))).
    assert (Hw0 : user_window page = true).
    { apply window_range in Hw. apply window_range. unfold ATM_USER_TOP, ATM_USER_BASE, ATM_USER_WINDOW_SIZE in *. split; [|lia].
      pose proof (Z.div_mod page 4096). assert (262144 <= page / 4096); [|lia]. apply Z.lt_succ_r. 
      destruct (Z.lt_ge_cases (page / 4096) 262144); lia. }
    rewrite <- (Z.add_0_r page). replace 0 with (i + - i) by lia. rewrite Z.add_assoc.
    apply allowed_page; [done|by replace (page + i + - i) with page by lia| |done].
    replace (page + i + - i) with page by lia. done.
  - intros Ha. assert (Hw : user_window page = true) by (destruct Ha as (p & e & E & _); unfold xlate in E; by destruct (user_window page)).
    apply allowed_page; [done|apply window_page; [done|lia|lia]|done|done].
Qed.

Lemma range_loop_spec P k us w : space_ok P k us -> forall fuel page last,
  page mod 4096 = 0 -> last mod 4096 = 0 -> 0 <= page <= last -> last < 2 ^ 52 -> (last - page) / 4096 < Z.of_nat fuel ->
  wp (range_loop fuel (Some us) page last w) k (fun r k' => k' = k /\
    ((r = 0 /\ accessible (km_tables k) us page (last + 4096 - page) w) \/
     (r = -1 /\ exists q, page <= q <= last /\ q mod 4096 = 0 /\ ~ allowed (km_tables k) us q w))).
Proof.
  intros Hok. induction fuel as [|fuel IH]; intros page last Hp Hl Hle Hmax Hfuel.
  { exfalso. assert (0 <= (last - page) / 4096) by (apply Z.div_pos; lia). lia. }
  cbn [range_loop]. wp_step. eapply wp_mono; [by apply (translate_spec P)|]. intros o k' [-> ->].
  destruct (xlate (km_tables k) us page) as [[p e]|] eqn:Ex.
  2: { wp_step. split; [done|]. right. split; [done|]. exists page. split_and!; [lia|lia|done|].
       intros (p & e & E & _). congruence. }
  destruct (w && negb (pte_has e ATM_PTE_W)) eqn:Ew.
  { wp_step. split; [done|]. right. split; [done|]. exists page. split_and!; [lia|lia|done|].
    intros (p' & e' & E & Hw). apply andb_true_iff in Ew as [Ew1 Ew2]. rewrite Ex in E. injection E as <- <-. rewrite Hw in Ew2; done. }
  assert (Ha : allowed (km_tables k) us page w).
  { exists p, e. split; [done|]. intros ->. cbn [andb] in Ew. by apply negb_false_iff in Ew. }
  assert (Hfirst : forall i, 0 <= i < 4096 -> allowed (km_tables k) us (page + i) w) by (intros; by apply allowed_whole_page).
  destruct (Z.eqb_spec page last) as [<-|Hne].
  - wp_step. split; [done|]. left. split; [done|]. intros i Hi. apply Hfirst. lia.
  - assert (Hnext : page + 4096 <= last).
    { pose proof (Z.div_mod page 4096). pose proof (Z.div_mod last 4096). lia. }
    rewrite u64_small by (unfold ATM_PAGE_SIZE; lia). unfold ATM_PAGE_SIZE.
    eapply wp_mono; [apply IH; try done; try lia|].
    + rewrite <- Z.add_mod_idemp_l by lia. by rewrite Hp.
    + replace (last - (page + 4096)) with ((last - page) + (-1) * 4096) by lia. rewrite Z.div_add by lia. lia.
    + intros r k' [-> [[-> Hacc]|(-> & q & Hq & Hqa & Hno)]]; (split; [done|]).
      * left. split; [done|]. intros i Hi. destruct (decide (i < 4096)); [apply Hfirst; lia|].
        replace (page + i) with (page + 4096 + (i - 4096)) by lia. apply Hacc. lia.
      * right. split; [done|]. exists q. split_and!; [lia|lia|done|done].
Qed.
End Space.
