(* ===== verification/PagingCopy.v ===== *)
(** * Copies between the kernel and user memory

    The range check decides exactly the accessibility of every byte, and the copies move
    exactly the bytes of the range. *)

From S2P Require Import Prelude Cstring Alloc Paging PagingInv.

(** ** Physical memory *)

Lemma mem_byte_write m bs : forall a x,
  mem_byte (mem_write m a bs) x = if (a <=? x) && (x <? a + zlen bs) then default nul (bs !! Z.to_nat (x - a)) else mem_byte m x.
Proof.
  revert m. induction bs as [|b bs IH]; intros m a x; cbn [mem_write].
  - destruct (Z.leb_spec a x), (Z.ltb_spec x (a + zlen (@nil byte))); cbn [andb]; simpl in *; try done; lia.
  - rewrite IH. cbn [length]. destruct (Z.leb_spec (a + 1) x), (Z.ltb_spec x (a + 1 + zlen bs)); cbn [andb].
    + rewrite (proj2 (Z.leb_le a x)), (proj2 (Z.ltb_lt x _)) by lia. cbn [andb].
      replace (Z.to_nat (x - a)) with (S (Z.to_nat (x - (a + 1)))) by lia. done.
    + rewrite (proj2 (Z.ltb_ge x _)), andb_false_r by lia. unfold mem_byte. by rewrite lookup_insert_ne by lia.
    + destruct (decide (x = a)) as [->|Hne].
      * rewrite (proj2 (Z.leb_le a a)), (proj2 (Z.ltb_lt a _)) by lia. cbn [andb]. rewrite Z.sub_diag. unfold mem_byte. by rewrite lookup_insert_eq.
      * rewrite (proj2 (Z.leb_gt a x)) by lia. unfold mem_byte. by rewrite lookup_insert_ne by lia.
    + lia.
Qed.

Lemma mem_read_lookup m n : forall a (i : nat), (i < n)%nat -> mem_read m a n !! i = Some (mem_byte m (a + Z.of_nat i)).
Proof.
  induction n as [|n IH]; intros a i Hi; [lia|]. destruct i as [|i]; cbn [mem_read lookup list_lookup].
  - by rewrite Z.add_0_r.
  - change (mem_read m (a + 1) n !! i = Some (mem_byte m (a + Z.of_nat (S i)))). rewrite IH by lia. do 2 f_equal. lia.
Qed.
Lemma mem_read_length m n : forall a, length (mem_read m a n) = n.
Proof. induction n as [|n IH]; intros a; cbn [mem_read length]; [done|]. by rewrite IH. Qed.

Lemma range_fuel_val : Z.of_nat range_fuel = 32770.
Proof. unfold range_fuel. by rewrite Z2Nat.id. Qed.
#[global] Opaque range_fuel.

Section Copy.
Context {H : Type} `{!Allocator H} `{!PageLaws H}.
Implicit Types (k : kmem H) (us : user_space) (P : gset Z) (T : gmap Z (list Z)).

Lemma accessible_window T us va n w : 0 < n -> accessible T us va n w -> user_window va = true /\ user_window (va + n - 1) = true.
Proof.
  intros Hn Ha. assert (Hin : forall i, 0 <= i < n -> user_window (va + i) = true).
  { intros i Hi. destruct (Ha i Hi) as (p & e & E & _). unfold xlate in E. by destruct (user_window (va + i)). }
  split; [rewrite <- (Z.add_0_r va); apply Hin; lia|]. replace (va + n - 1) with (va + (n - 1)) by lia. apply Hin. lia.
Qed.

Lemma range_spec P k us va n w : space_ok P k us -> 0 <= va < 2 ^ 64 -> 0 <= n ->
  wp (paging_user_range (Some us) va n w) k (fun r k' => k' = k /\
    ((r = 0 /\ 0 < n /\ accessible (km_tables k) us va n w) \/ (r = -1 /\ ~ (0 < n /\ accessible (km_tables k) us va n w)))).
Proof.
  intros Hok Hva Hn. unfold paging_user_range.
  assert (Hno : ~ (0 < n /\ accessible (km_tables k) us va n w) ->
    wp (ret (-1)) k (fun r k' => k' = k /\ ((r = 0 /\ 0 < n /\ accessible (km_tables k) us va n w) \/
      (r = -1 /\ ~ (0 < n /\ accessible (km_tables k) us va n w))))) by (intros; split; [done|by right]).
  assert (Hbounds : 0 < n -> accessible (km_tables k) us va n w -> user_window va = true /\ n <= ATM_USER_WINDOW_SIZE /\
    user_window (va + n - 1) = true).
  { intros Hpos Ha. destruct (accessible_window _ _ _ _ _ Hpos Ha) as [H1 H2]. split_and!; [done| |done].
    apply window_range in H1, H2. unfold ATM_USER_TOP in *. lia. }
  destruct (Z.eqb_spec n 0) as [->|Hn0]; [by apply Hno; intros [? _]|]. cbn [orb].
  destruct (user_window va) eqn:Hw; cbn [negb orb]; [|by apply Hno; intros [Hp [? _]%Hbounds]].
  destruct (Z.ltb_spec ATM_USER_WINDOW_SIZE n) as [Hbig|Hsize]; [by apply Hno; intros [Hp (_ & ? & _)%Hbounds]; lia|].
  pose proof Hw as Hw'. apply window_range in Hw'. unfold ATM_USER_TOP, ATM_USER_BASE, ATM_USER_WINDOW_SIZE in *.
  rewrite u64_small by lia. rewrite (proj2 (Z.ltb_ge _ va)) by lia. cbn [orb].
  destruct (user_window (va + n - 1)) eqn:Hwe; cbn [negb]; [|by apply Hno; intros [Hp (_ & _ & ?)%Hbounds]].
  apply window_range in Hwe. unfold ATM_USER_TOP, ATM_USER_BASE, ATM_USER_WINDOW_SIZE in Hwe.
  fold (phys_ptr va) (phys_ptr (va + n - 1)). rewrite !phys_ptr_small by lia.
  set (pg := va - va mod 4096). set (lst := va + n - 1 - (va + n - 1) mod 4096).
  assert (Hpg : pg mod 4096 = 0) by (unfold pg; rewrite Zminus_mod, Z.mod_mod, Z.sub_diag by lia; done).
  assert (Hlst : lst mod 4096 = 0) by (unfold lst; rewrite Zminus_mod, Z.mod_mod, Z.sub_diag by lia; done).
  assert (Hle : pg <= lst).
  { unfold pg, lst. pose proof (Z.div_mod va 4096). pose proof (Z.div_mod (va + n - 1) 4096).
    assert (va / 4096 <= (va + n - 1) / 4096) by (apply Z.div_le_mono; lia). lia. }
  pose proof (Z.mod_pos_bound va 4096). pose proof (Z.mod_pos_bound (va + n - 1) 4096).
  eapply wp_mono; [apply (range_loop_spec P k us w Hok range_fuel pg lst Hpg Hlst)|].
  - unfold pg, lst in *. lia.
  - unfold lst. lia.
  - rewrite range_fuel_val. apply Z.div_lt_upper_bound; [lia|]. unfold pg, lst. lia.
  - intros r k' [-> [[-> Hacc]|(-> & q & Hq & Hqa & Hnot)]]; (split; [done|]).
    + left. split_and!; [done|lia|]. intros i Hi. replace (va + i) with (pg + (va mod 4096 + i)) by (unfold pg; lia).
      apply Hacc. unfold pg, lst in *. lia.
    + right. split; [done|]. intros [_ Ha]. apply Hnot.
      destruct (decide (va <= q)) as [Hge|Hlt].
      * replace q with (va + (q - va)) by lia. apply Ha. unfold lst in *. lia.
      * assert (q = pg) as -> by (unfold pg in *; pose proof (Z.div_mod q 4096); pose proof (Z.div_mod va 4096); lia).
        apply (allowed_whole_page _ _ pg (va mod 4096)); [done|lia|]. unfold pg. replace (va - va mod 4096 + va mod 4096) with (va + 0) by lia.
        apply Ha. lia.
Qed.

(** ** User memory *)

Definition phys_of k us (va : Z) : option Z := fst <$> xlate (km_tables k) us va.

(** What a program sees at an address. *)
Definition user_byte k us (va : Z) : option byte := mem_byte (km_mem k) <$> phys_of k us va.

(** No frame is mapped twice. *)
Definition injective_map k us : Prop := forall va va' p, phys_of k us va = Some p -> phys_of k us va' = Some p -> va = va'.

(** The piece of a copy that lies in one page is contiguous in memory. *)
Lemma phys_piece T us va i p e : xlate T us va = Some (p, e) -> 0 <= i -> va mod 4096 + i < 4096 -> xlate T us (va + i) = Some (p + i, e).
Proof.
  unfold xlate. destruct (user_window va) eqn:Hw; [|done]. intros E Hi Hlt. rewrite (window_page va i Hw Hi Hlt), page_no_step by done.
  destruct (entry_of T us (page_no va)) as [e'|]; [|done]. simplify_eq/=. f_equal. f_equal.
  replace ((va + i) mod 4096) with (va mod 4096 + i); [lia|].
  apply (Z.mod_unique _ _ (va / 4096)); [left; pose proof (Z.mod_pos_bound va 4096); lia|]. pose proof (Z.div_mod va 4096). lia.
Qed.

Definition set_mem k (m : gmap Z byte) : kmem H := k <| km_mem := m |>.

Lemma space_ok_mem P k us m : space_ok P k us -> space_ok P (set_mem k m) us.
Proof. intros []. by constructor. Qed.

(** The bytes of a range are those of [bs], and nothing but the range has changed. *)
Definition stored k k' us (va : Z) (bs : list byte) : Prop :=
  (forall i : nat, (i < length bs)%nat -> user_byte k' us (va + Z.of_nat i) = bs !! i) /\
  (forall p, (forall i, 0 <= i < zlen bs -> phys_of k us (va + i) <> Some p) -> mem_byte (km_mem k') p = mem_byte (km_mem k) p).

Lemma stored_app k k1 k2 us va b1 b2 :
  injective_map k us -> km_tables k1 = km_tables k -> km_tables k2 = km_tables k ->
  (forall i, 0 <= i < zlen b2 -> phys_of k us (va + zlen b1 + i) <> None) ->
  stored k k1 us va b1 -> stored k1 k2 us (va + zlen b1) b2 -> stored k k2 us va (b1 ++ b2).
Proof.
  intros Hinj T1 T2 Hmap [Hin1 Hout1] [Hin2 Hout2].
  assert (Hp : forall q, phys_of k1 us q = phys_of k us q) by (intros; unfold phys_of; by rewrite T1).
  assert (Hp2 : forall q, phys_of k2 us q = phys_of k us q) by (intros; unfold phys_of; by rewrite T2). split.
  - intros i Hi. rewrite length_app in Hi. destruct (decide (i < length b1)%nat) as [Hlt|Hge].
    + rewrite lookup_app_l by done. rewrite <- (Hin1 i Hlt). unfold user_byte. rewrite Hp, Hp2.
      destruct (phys_of k us (va + Z.of_nat i)) as [p|] eqn:Ep; [|done]. simpl. f_equal. apply Hout2.
      intros j Hj Ej. rewrite Hp in Ej. pose proof (Hinj _ _ _ Ep Ej). lia.
    + rewrite lookup_app_r by lia. rewrite <- (Hin2 (i - length b1)%nat) by lia. f_equal. lia.
  - intros p Hno. rewrite length_app in Hno. rewrite Hout2.
    + apply Hout1. intros i Hi. apply Hno. lia.
    + intros i Hi. rewrite Hp. replace (va + zlen b1 + i) with (va + (zlen b1 + i)) by lia. apply Hno. lia.
Qed.

(** One piece written. *)
Lemma stored_piece k us va p e bs : xlate (km_tables k) us va = Some (p, e) -> va mod 4096 + zlen bs <= 4096 ->
  stored k (set_mem k (mem_write (km_mem k) p bs)) us va bs.
Proof.
  intros Ex Hlen. assert (Hph : forall i, 0 <= i < zlen bs -> phys_of k us (va + i) = Some (p + i)).
  { intros i Hi. unfold phys_of. rewrite (phys_piece _ _ _ i _ _ Ex) by lia. done. } split.
  - intros i Hi. unfold user_byte. change (phys_of (set_mem k _) us ?x) with (phys_of k us x). rewrite Hph by lia. simpl.
    rewrite mem_byte_write. rewrite (proj2 (Z.leb_le _ _)), (proj2 (Z.ltb_lt _ _)) by lia. cbn [andb].
    replace (Z.to_nat (p + Z.of_nat i - p)) with i by lia. by destruct (lookup_lt_is_Some_2 bs i Hi) as [b ->].
  - intros q Hno. simpl. rewrite mem_byte_write. destruct (Z.leb_spec p q), (Z.ltb_spec q (p + zlen bs)); cbn [andb]; try done.
    exfalso. apply (Hno (q - p)); [lia|]. rewrite Hph by lia. f_equal. lia.
Qed.

(** The piece of [n] bytes a pass of the loops moves, and the rest. *)
Definition piece (va len : Z) : Z := if len <? ATM_PAGE_SIZE - page_offset va then len else ATM_PAGE_SIZE - page_offset va.

Lemma piece_facts va len : 0 < len -> 0 < piece va len <= len /\ va mod 4096 + piece va len <= 4096 /\
  (piece va len < len -> (va + piece va len) mod 4096 = 0).
Proof.
  intros Hl. unfold piece, ATM_PAGE_SIZE. rewrite page_offset_mod. pose proof (Z.mod_pos_bound va 4096).
  destruct (Z.ltb_spec len (0x1000 - va mod 4096)); split_and!; try lia.
  intros _. replace (va + (0x1000 - va mod 4096)) with ((va / 4096 + 1) * 4096); [apply Z.mod_mul; lia|]. pose proof (Z.div_mod va 4096). lia.
Qed.

(** What is left to do after a piece fits the fuel that is left. *)
Lemma piece_fuel va len fuel : 0 < len -> va mod 4096 + len <= 4096 * Z.of_nat (S fuel) ->
  len - piece va len = 0 \/ (va + piece va len) mod 4096 + (len - piece va len) <= 4096 * Z.of_nat fuel.
Proof.
  intros Hl Hf. destruct (piece_facts va len Hl) as (Hp & Hr & Hal). destruct (decide (piece va len < len)) as [Hlt|]; [right|left; lia].
  rewrite Hal by done. unfold piece, ATM_PAGE_SIZE in *. rewrite page_offset_mod in *. destruct (Z.ltb_spec len (0x1000 - va mod 4096)); lia.
Qed.

Lemma accessible_tail T us va n m w : 0 <= m <= n -> accessible T us va n w -> accessible T us (va + m) (n - m) w.
Proof. intros Hm Ha i Hi. rewrite <- Z.add_assoc. apply Ha. lia. Qed.

Lemma accessible_end T us va n w : 0 < n -> accessible T us va n w -> 0 <= va /\ va + n <= ATM_USER_TOP.
Proof.
  intros Hn Ha. destruct (accessible_window _ _ _ _ _ Hn Ha) as [H1 H2]. apply window_range in H1, H2.
  unfold ATM_USER_BASE in *. lia.
Qed.

Lemma accessible_mapped k us va n w i : accessible (km_tables k) us va n w -> 0 <= i < n -> phys_of k us (va + i) <> None.
Proof. intros Ha Hi. destruct (Ha i Hi) as (p & e & E & _). unfold phys_of. by rewrite E. Qed.

(** Only physical memory differs. *)
Definition mem_only k k' : Prop := exists m, k' = set_mem k m.

Lemma copy_to_spec P us w : forall fuel k va kb,
  space_ok P k us -> injective_map k us -> accessible (km_tables k) us va (zlen kb) w ->
  va mod 4096 + zlen kb <= 4096 * Z.of_nat fuel \/ kb = [] ->
  wp (copy_loop_user fuel (Some us) va kb (zlen kb) true) k (fun x k' => fst x = 0 /\ mem_only k k' /\ stored k k' us va kb).
Proof.
  induction fuel as [|fuel IH]; intros k va kb Hok Hinj Ha Hfuel; cbn [copy_loop_user];
    (destruct (Z.eqb_spec (zlen kb) 0) as [E0|Hne];
      [destruct kb; [|simpl in E0; lia]; wp_step; split_and!; [done|by exists (km_mem k); destruct k|by split; [intros i Hi; simpl in Hi; lia|]]|]).
  { exfalso. destruct Hfuel as [Hf| -> ]; [|done]. pose proof (Z.mod_pos_bound va 4096). lia. }
  destruct Hfuel as [Hfuel| -> ]; [|done]. assert (Hpos : 0 < zlen kb) by lia.
  destruct (Ha 0 ltac:(lia)) as (p & e & Ex & _). rewrite Z.add_0_r in Ex.
  wp_step. eapply wp_mono; [by apply (translate_spec P)|]. intros o k' [-> ->]. rewrite Ex. fold (piece va (zlen kb)).
  destruct (piece_facts va (zlen kb) Hpos) as (Hp & Hr & _). pose proof (piece_fuel va (zlen kb) fuel Hpos Hfuel) as Hf.
  destruct (accessible_end _ _ _ _ _ Hpos Ha) as [Hva0 Hva]. set (n := piece va (zlen kb)) in *. do 4 wp_step.
  assert (Hlen1 : zlen (take (Z.to_nat n) kb) = n) by (rewrite length_take; lia).
  set (k1 := k <| km_mem := _ |>). assert (Hst : stored k k1 us va (take (Z.to_nat n) kb)) by (eapply stored_piece; [done|lia]).
  assert (Hlen2 : zlen kb - n = zlen (drop (Z.to_nat n) kb)) by (rewrite length_drop; lia).
  rewrite Hlen2. unfold ATM_USER_TOP, ATM_USER_BASE, ATM_USER_WINDOW_SIZE in Hva. rewrite u64_small by lia.
  assert (Ha2 : accessible (km_tables k1) us (va + n) (zlen (drop (Z.to_nat n) kb)) w) by (rewrite <- Hlen2; apply accessible_tail; [lia|done]).
  wp_step. eapply wp_mono; [apply IH; [by apply (space_ok_mem P k us)|done|exact Ha2|]|].
  { destruct Hf as [Hf|Hf]; [right|left; by rewrite <- Hlen2]. destruct (drop (Z.to_nat n) kb); [done|simpl in Hlen2; lia]. }
  intros [r rest] k2 (Er & [m2 ->] & Hst2). wp_step. split_and!; [exact Er|by exists m2|].
  rewrite <- (take_drop (Z.to_nat n) kb). eapply (stored_app k k1); [done|done|done| |done|by rewrite Hlen1].
  intros i Hi. rewrite Hlen1. by apply (accessible_mapped k1 us _ _ w i Ha2).
Qed.

(** The bytes a program sees in a range. *)
Definition reads k us (va : Z) (bs : list byte) : Prop := forall i : nat, (i < length bs)%nat -> user_byte k us (va + Z.of_nat i) = bs !! i.

Lemma reads_app k us va b1 b2 : reads k us va b1 -> reads k us (va + zlen b1) b2 -> reads k us va (b1 ++ b2).
Proof.
  intros H1 H2 i Hi. rewrite length_app in Hi. destruct (decide (i < length b1)%nat).
  - rewrite lookup_app_l by done. by apply H1.
  - rewrite lookup_app_r by lia. rewrite <- H2 by lia. f_equal. lia.
Qed.

Lemma copy_from_spec P k us w kb : space_ok P k us -> forall fuel va len,
  0 <= len -> accessible (km_tables k) us va len w -> va mod 4096 + len <= 4096 * Z.of_nat fuel \/ len = 0 ->
  wp (copy_loop_user fuel (Some us) va kb len false) k (fun x k' => fst x = 0 /\ k' = k /\ zlen (snd x) = len /\ reads k us va (snd x)).
Proof.
  intros Hok fuel. revert kb. induction fuel as [|fuel IH]; intros kb va len Hlen Ha Hfuel; cbn [copy_loop_user];
    (destruct (Z.eqb_spec len 0) as [->|Hne]; [wp_step; split_and!; [done|done|done|by intros i Hi; simpl in Hi; lia]|]).
  { exfalso. destruct Hfuel as [Hf|]; [|done]. pose proof (Z.mod_pos_bound va 4096). lia. }
  destruct Hfuel as [Hfuel|]; [|done]. assert (Hpos : 0 < len) by lia.
  destruct (Ha 0 ltac:(lia)) as (p & e & Ex & _). rewrite Z.add_0_r in Ex.
  wp_step. eapply wp_mono; [by apply (translate_spec P)|]. intros o k' [-> ->]. rewrite Ex. fold (piece va len).
  destruct (piece_facts va len Hpos) as (Hp & Hr & _). pose proof (piece_fuel va len fuel Hpos Hfuel) as Hf.
  destruct (accessible_end _ _ _ _ _ Hpos Ha) as [Hva0 Hva]. set (n := piece va len) in *. do 2 wp_step.
  unfold ATM_USER_TOP, ATM_USER_BASE, ATM_USER_WINDOW_SIZE in Hva. rewrite u64_small by lia.
  wp_step. eapply wp_mono; [apply IH; [lia|apply accessible_tail; [lia|done]|lia]|].
  intros [r rest] k2 (Er & -> & Hl & Hrd). cbn [fst snd] in *. wp_step. cbn [fst snd].
  assert (Hlen1 : zlen (mem_read (km_mem k) p (Z.to_nat n)) = n) by (rewrite mem_read_length; lia).
  split_and!; [done|done|rewrite length_app; lia|]. apply reads_app; [|by rewrite Hlen1].
  intros i Hi. rewrite mem_read_length in Hi. rewrite mem_read_lookup by done. unfold user_byte, phys_of.
  by rewrite (phys_piece _ _ _ (Z.of_nat i) _ _ Ex) by lia.
Qed.
End Copy.

(** ** Changing the mapping *)

Section Map.
Context {H : Type} `{!Allocator H} `{!PageLaws H}.
Implicit Types (k : kmem H) (us : user_space) (P : gset Z) (T : gmap Z (list Z)).

Definition set_tables k T : kmem H := k <| km_tables := T |>.
Definition present (e : Z) : option Z := if user_present e then Some e else None.

Lemma div_mod_eq pg pg' : pg / 512 = pg' / 512 -> pg mod 512 = pg' mod 512 -> pg = pg'.
Proof. intros. pose proof (Z.div_mod pg 512). pose proof (Z.div_mod pg' 512). lia. Qed.

Lemma index_inj P k us pg pg' : space_ok P k us -> 0 <= pg < 32768 -> 0 <= pg' < 32768 ->
  index_at us pg = index_at us pg' -> index_at us pg <> 0 -> pg / 512 = pg' / 512.
Proof.
  intros Hok Hp Hp' E Hne. destruct (index_slot us pg (so_index _ _ _ Hok) Hp) as [H1 _].
  destruct (index_slot us pg' (so_index _ _ _ Hok) Hp') as [H2 _]. rewrite <- E in H2.
  pose proof (so_distinct _ _ _ Hok _ _ _ H1 H2 Hne).
  assert (0 <= pg / 512) by (apply Z.div_pos; lia). assert (0 <= pg' / 512) by (apply Z.div_pos; lia). lia.
Qed.

(** Replacing one entry of a table changes the translation of its page. *)
Lemma set_entry P k us pg t e : space_ok P k us -> 0 <= pg < 32768 -> index_at us pg <> 0 -> km_tables k !! index_at us pg = Some t ->
  let T' := <[index_at us pg := aset t (pg mod 512) e]> (km_tables k) in
  space_ok P (set_tables k T') us /\
  forall q, 0 <= q < 32768 -> entry_of T' us q = if decide (q = pg) then present e else entry_of (km_tables k) us q.
Proof.
  intros Hok Hp Hne Ht T'. destruct (index_slot us pg (so_index _ _ _ Hok) Hp) as [Hi _].
  destruct (so_tables _ _ _ Hok _ _ Hi Hne) as (HP & t' & Ht' & Hl). rewrite Ht in Ht'. apply (inj Some) in Ht' as <-. split.
  - destruct Hok as [A1 A2 A3 A4 A5 (pd1 & td & B1 & B2 & B3 & B4 & B5)]. constructor; try done.
    + intros i pt Hpt Hn. destruct (A4 i pt Hpt Hn) as (C1 & t2 & C2 & C3). split; [done|]. simpl. unfold T'.
      destruct (decide (pt = index_at us pg)) as [->|]; [rewrite lookup_insert_eq; eexists; split; [done|by rewrite aset_length]|].
      rewrite lookup_insert_ne by done. by exists t2.
    + exists pd1, td. split_and!; try done. simpl. unfold T'. rewrite lookup_insert_ne; [done|]. intros E. rewrite E in Hi. by apply (B5 _ Hi).
  - intros q Hq. unfold entry_of, T'. destruct (Z.eqb_spec (index_at us q) 0) as [E0|Hn].
    + rewrite decide_False; [done|]. intros ->. done.
    + destruct (decide (index_at us q = index_at us pg)) as [E|E].
      * rewrite E, lookup_insert_eq. cbn [mbind option_bind]. pose proof (index_inj _ _ _ _ _ Hok Hq Hp E Hn) as Ed.
        case_decide as Eq.
        -- subst q. rewrite aget_aset_eq by (rewrite Hl; pose proof (Z.mod_pos_bound pg 512); lia). done.
        -- rewrite aget_aset_ne by (intros Em; apply Eq; by apply div_mod_eq). by rewrite Ht.
      * rewrite lookup_insert_ne by done. rewrite decide_False; [done|]. intros ->. done.
Qed.

Lemma xlate_entries T T' us us' (f : Z -> option Z) q :
  (forall pg, 0 <= pg < 32768 -> entry_of T' us' pg = f pg) ->
  xlate T' us' q = if user_window q then e ← f (page_no q); Some (phys_ptr e + q mod 4096, e) else None.
Proof. intros E. unfold xlate. destruct (user_window q) eqn:Hw; [|done]. by rewrite E by (by apply page_no_range). Qed.

Lemma wp_on_heap {A} (m : M H A) k Q : wp m (km_heap k) (fun a h => Q a (k <| km_heap := h |>)) -> wp (on_heap m) k Q.
Proof. apply wp_zoom. Qed.

(** A page table added to an address space that has none there. *)
Definition with_table us (slot pt : Z) : user_space := us <| us_index := aset (us_index us) slot pt |>.

Lemma index_with us slot pt pg : length (us_index us) = 64%nat -> 0 <= slot < 64 -> 0 <= pg < 32768 ->
  index_at (with_table us slot pt) pg = if decide (pg / 512 = slot) then pt else index_at us pg.
Proof.
  intros Hl Hs Hp. unfold index_at, with_table. simpl. case_decide as E.
  - rewrite E, aget_aset_eq by (rewrite Hl; lia). done.
  - by rewrite aget_aset_ne by done.
Qed.

Lemma add_table P k us h slot pt bits : space_ok P k us -> 0 <= slot < 64 -> aget (us_index us) slot = Some 0 ->
  pt <> 0 -> (pt ∉ P) -> pages_live h ({[pt]} ∪ P) ->
  exists pd1 td, aget (us_pd us) 1 = Some pd1 /\ km_tables k !! pd1 = Some td /\ pd1 <> pt /\
    let k1 := (k <| km_heap := h |>) <| km_tables := <[pd1 := aset td slot bits]> (<[pt := replicate 512 0]> (km_tables k)) |> in
    space_ok ({[pt]} ∪ P) k1 (with_table us slot pt) /\
    km_tables k1 !! pt = Some (replicate 512 0) /\
    forall pg, 0 <= pg < 32768 -> entry_of (km_tables k1) (with_table us slot pt) pg = entry_of (km_tables k) us pg.
Proof.
  intros Hok Hs Hz Hpt HnP Hlive. pose proof Hok as [A1 A2 A3 A4 A5 (pd1 & td & B1 & B2 & B3 & B4 & B5)].
  assert (Hpd : pd1 <> pt) by (intros ->; done). exists pd1, td. split_and!; [done|done|done|]. intros k1.
  assert (Hlook : forall i q, us_index (with_table us slot pt) !! i = Some q -> (i = Z.to_nat slot /\ q = pt) \/ (i <> Z.to_nat slot /\ us_index us !! i = Some q)).
  { intros i q. unfold with_table. simpl. unfold aset. destruct (Z.ltb_spec slot 0); [lia|].
    intros [(E & <- & _)|[Hne Hi]]%list_lookup_insert_Some; [left|right]; done. }
  assert (Hold : forall i q, us_index us !! i = Some q -> q <> 0 -> q <> pt /\ q <> pd1).
  { intros i q Hi Hq. destruct (A4 i q Hi Hq) as [HP _]. split; intros ->; [done|by apply (B5 i)]. }
  assert (Htab : forall q, q <> pt -> q <> pd1 -> km_tables k1 !! q = km_tables k !! q)
    by (intros q H1 H2; unfold k1; simpl; rewrite !lookup_insert_ne by done; done).
  assert (Hself : km_tables k1 !! pt = Some (replicate 512 0)) by (unfold k1; simpl; by rewrite lookup_insert_ne, lookup_insert_eq).
  split_and!; [constructor; try done|done|].
  - unfold with_table. simpl. by rewrite aset_length.
  - intros i q Hi Hq. destruct (Hlook i q Hi) as [[_ ->]|[_ Hi']]; [split; [set_solver|]; eexists; split; [done|by rewrite length_replicate]|].
    destruct (A4 i q Hi' Hq) as (HP & t & Ht & Hl). split; [set_solver|]. destruct (Hold i q Hi' Hq) as [H1 H2]. exists t. by rewrite Htab.
  - intros i j q Hi Hj Hq. destruct (Hlook i q Hi) as [[-> ->]|[Hni Hi']], (Hlook j _ Hj) as [[-> E]|[Hnj Hj']]; try done.
    + exfalso. by destruct (Hold _ _ Hj' Hq).
    + exfalso. rewrite E in *. by destruct (Hold _ _ Hi' Hq).
    + by eapply A5.
  - exists pd1, (aset td slot bits). split_and!; [done|unfold k1; simpl; by rewrite lookup_insert_eq|by rewrite aset_length|set_solver|].
    intros i Hi. destruct (Hlook i _ Hi) as [[_ ?]|[_ Hi']]; [done|by apply (B5 i)].
  - intros pg Hp. unfold entry_of. rewrite index_with by done. case_decide as E.
    + assert (Hi0 : index_at us pg = 0) by (unfold index_at; by rewrite E, Hz). rewrite Hi0, (proj2 (Z.eqb_neq pt 0)), Z.eqb_refl by done.
      rewrite Hself. cbn [mbind option_bind]. unfold aget. destruct (Z.ltb_spec (pg mod 512) 0); [done|].
      destruct (replicate 512 0 !! Z.to_nat (pg mod 512)) as [x|] eqn:Ex; [|done]. by apply lookup_replicate in Ex as [-> _].
    + destruct (Z.eqb_spec (index_at us pg) 0); [done|]. destruct (index_slot us pg A3 Hp) as [Hi _].
      destruct (Hold _ _ Hi n) as [H1 H2]. by rewrite Htab.
Qed.

Lemma count_page_same us va :
  us_index (count_page us va) = us_index us /\ us_valid (count_page us va) = us_valid us /\ us_pd (count_page us va) = us_pd us.
Proof. unfold count_page. by destruct (us_mapped_pages us <=? _). Qed.

Lemma space_ok_count P k us va : space_ok P k us -> space_ok P k (count_page us va).
Proof. intros []. destruct (count_page_same us va) as (E1 & E2 & E3). constructor; rewrite ?E1, ?E2, ?E3; done. Qed.
Lemma entry_of_count T us va pg : entry_of T (count_page us va) pg = entry_of T us pg.
Proof. unfold entry_of, index_at. by destruct (count_page_same us va) as (-> & _). Qed.

Lemma space_ok_invlpg P k us va : space_ok P k us -> space_ok P (k <| km_invlpg := va :: km_invlpg k |>) us.
Proof. intros []. by constructor. Qed.

Lemma present_user phys flags : present (user_entry phys flags) = Some (user_entry phys flags).
Proof. unfold present. by rewrite user_entry_present. Qed.

(** The result of a successful mapping. *)
Definition mapped k k' us us' (va e : Z) : Prop :=
  km_mem k' = km_mem k /\ km_invlpg k' = va :: km_invlpg k /\
  forall pg, 0 <= pg < 32768 -> entry_of (km_tables k') us' pg = if decide (pg = page_no va) then Some e else entry_of (km_tables k) us pg.

(** The last steps, once the page has a table. *)
Lemma map_tail P k us va phys flags :
  space_ok P k us -> user_window va = true -> index_at us (page_no va) <> 0 ->
  wp (do* put_entry (index_at us (page_no va)) (user_pt_page va) (user_entry phys flags) in
      do* user_tlb_invalidate va in ret (0, Some (count_page us va))) k (fun x k' =>
    x = (0, Some (count_page us va)) /\ space_ok P k' (count_page us va) /\ mapped k k' us (count_page us va) va (user_entry phys flags)).
Proof.
  intros Hok Hw Hne. pose proof (page_no_range va Hw) as Hp. destruct (slot_of_page va Hw) as [_ ->].
  destruct (table_facts _ _ _ _ Hok Hp Hne) as (_ & t & e & Ht & _ & _).
  destruct (set_entry P k us (page_no va) t (user_entry phys flags) Hok Hp Hne Ht) as [Hok' He].
  wp_step. eapply wp_put_entry; [exact Ht|]. unfold user_tlb_invalidate. do 3 wp_step.
  split; [done|]. split; [by apply space_ok_count, space_ok_invlpg|]. split_and!; [done|done|].
  intros pg Hpg. rewrite entry_of_count. rewrite <- present_user. apply (He pg Hpg).
Qed.


Lemma mapped_from k k1 k' us us1 us' va e :
  km_mem k1 = km_mem k -> km_invlpg k1 = km_invlpg k ->
  (forall pg, 0 <= pg < 32768 -> entry_of (km_tables k1) us1 pg = entry_of (km_tables k) us pg) ->
  mapped k1 k' us1 us' va e -> mapped k k' us us' va e.
Proof.
  intros E1 E2 He (F1 & F2 & Hf). split_and!; [congruence|congruence|]. intros pg Hp. rewrite Hf by done. case_decide; [done|by apply He].
Qed.

Lemma map_entry P k us va phys flags :
  space_ok P k us -> page_args_ok us va = true ->
  wp (paging_map_user_page (Some us) va phys flags) k (fun x k' =>
    (x = (-1, Some us) /\ space_ok P k' us /\ km_mem k' = km_mem k /\ km_tables k' = km_tables k) \/
    (exists us' P', x = (0, Some us') /\ P ⊆ P' /\ space_ok P' k' us' /\ mapped k k' us us' va (user_entry phys flags))).
Proof.
  intros Hok Hargs. unfold paging_map_user_page. rewrite Hargs. cbn [negb]. apply andb_true_iff in Hargs as [[_ Hw]%andb_true_iff _].
  pose proof (page_no_range va Hw) as Hp. destruct (slot_of_page va Hw) as [-> _]. change ATM_USER_PT_COUNT with 64.
  assert (Hs : 0 <= page_no va / 512 < 64) by (split; [apply Z.div_pos|apply Z.div_lt_upper_bound]; lia).
  rewrite (proj2 (Z.leb_gt _ _)) by lia. destruct (index_slot us (page_no va) (so_index _ _ _ Hok) Hp) as [_ Hget].
  wp_step. eapply wp_deref; [exact Hget|]. set (slot := page_no va / 512) in *. wp_step.
  destruct (Z.eqb_spec (index_at us (page_no va)) 0) as [E0|Hne].
  - rewrite E0 in Hget. unfold page_alloc. wp_step. apply wp_on_heap. eapply wp_mono; [apply (page_law _ P), Hok|].
    intros pt h [[-> Hlive]|(Hpt & HnP & _ & _ & Hlive)].
    + rewrite Z.eqb_refl. do 3 wp_step. left. rewrite aset_same by done. split; [by destruct us|]. split; [|done].
      destruct Hok. by constructor.
    + rewrite (proj2 (Z.eqb_neq pt 0)) by done. unfold put_table. do 3 wp_step. rewrite (proj2 (Z.eqb_neq pt 0)) by done.
      destruct (add_table P k us h slot pt (table_entry pt user_bits) Hok Hs Hget Hpt HnP Hlive) as (pd1 & td & Hpd & Htd & Hnpd & Hok1 & _ & He1).
      do 2 wp_step. eapply wp_deref; [exact Hpd|]. eapply wp_put_entry; [simpl; rewrite lookup_insert_ne by done; exact Htd|].
      fold (with_table us slot pt).
      assert (Hidx : index_at (with_table us slot pt) (page_no va) = pt) by (rewrite index_with by (done || apply Hok); by rewrite decide_True).
      rewrite <- Hidx at 1. eapply wp_mono; [apply (map_tail ({[pt]} ∪ P)); [exact Hok1|done|by rewrite Hidx]|].
      intros x k' (-> & Hok2 & Hm). right. exists (count_page (with_table us slot pt) va), ({[pt]} ∪ P). split_and!; [done|set_solver|done|].
      eapply mapped_from; [| |exact He1|exact Hm]; done.
  - wp_step. rewrite (proj2 (Z.eqb_neq (index_at us (page_no va)) 0)) by done. do 2 wp_step. rewrite aset_same by done.
    replace (us <| us_index := us_index us |>) with us by (by destruct us).
    eapply wp_mono; [by apply (map_tail P)|]. intros x k' (-> & Hok' & Hm). right. exists (count_page us va), P. by split_and!.
Qed.
End Map.
