(* ===== verification/PagingHeap.v ===== *)
(** * Pages from the kernel heap

    The heap keeps the promises the page tables rely on: a page lies in an allocated
    block of its own, behind a word that holds the address of the block, which [kfree]
    uses to find it again. *)

From S2P Require Import Prelude Kmalloc KmallocInv KmallocProps Alloc HeapAlloc Paging PagingInv.

(** ** Owned addresses *)

(** [p] is the payload of the block, or an aligned page in it. *)
Definition owns (h : heap) (b : block) (p : Z) : Prop :=
  (p = b_payload b /\ 0 < b_size b) \/
  (p mod 4096 = 0 /\ b_payload b + 8 <= p /\ p + 4096 <= b_end b /\ word h (p - 8) = b_payload b /\ b_size b < 8300).

Record owned (h : heap) (bl : list block) (O : gmap Z block) : Prop := {
  ow_block p b : O !! p = Some b -> b ∈ bl /\ taken b /\ owns h b p;
  ow_inj p q b : O !! p = Some b -> O !! q = Some b -> p = q }.

(** Addresses outside the heap. *)
Definition outside (h : heap) (R : gset Z) : Prop := forall x, x ∈ R -> x < heap_start h \/ heap_end h <= x.

Lemma outside_region h h' R : same_region h h' -> outside h R -> outside h' R.
Proof. intros (_ & _ & E1 & E2) Ho x Hx. unfold heap_end. rewrite E1, E2. by apply Ho. Qed.

(** The addresses in use: some of blocks of the heap, the others outside of it. *)
Definition pages_in (h : heap) (P : gset Z) : Prop :=
  exists bl O R, heap_ok h bl /\ ram_hi h <= 2 ^ 52 /\ owned h bl O /\ outside h R /\ P = dom O ∪ R.

Lemma owns_range h b p : owns h b p -> b_payload b <= p < b_end b.
Proof. unfold owns, b_payload, b_end. intros [[-> ?]|(_ & ? & ? & _)]; unfold HDR in *; lia. Qed.

Lemma owns_frame h h' b p : (forall x, b_payload b <= x < b_end b -> word h' x = word h x) -> owns h b p -> owns h' b p.
Proof.
  intros Hw [?|(? & ? & ? & E & ?)]; [by left|right]. split_and!; try done. rewrite <- E. apply Hw. lia.
Qed.

(** Other blocks, same data: the addresses are still owned. *)
Lemma owned_frame h h' bl bl' O :
  owned h bl O -> (forall p b, O !! p = Some b -> b ∈ bl' /\ forall x, b_payload b <= x < b_end b -> word h' x = word h x) ->
  owned h' bl' O.
Proof.
  intros [Hb Hi] Hf. split; [|done]. intros p b E. destruct (Hb p b E) as (_ & ? & Ho), (Hf p b E) as [? Hw].
  split_and!; [done|done|by eapply owns_frame].
Qed.

Lemma owned_delete h bl O p : owned h bl O -> owned h bl (delete p O).
Proof.
  intros [Hb Hi]. split.
  - intros q b [_ E]%lookup_delete_Some. by apply Hb.
  - intros q r b [_ E1]%lookup_delete_Some [_ E2]%lookup_delete_Some. by eapply Hi.
Qed.

(** A store into the payload of a block leaves the headers alone. *)
Lemma heap_ok_payload h l1 b l2 a v :
  heap_ok h (l1 ++ b :: l2) -> b_payload b <= a < b_end b -> heap_ok (put a v h) (l1 ++ b :: l2).
Proof.
  intros Hok Ha. pose proof (heap_ok_split _ _ _ _ Hok) as ([_ _ _ Hsz Hhd] & _ & _ & Hm). unfold b_payload, b_end in *.
  apply (heap_ok_replace h (put a v h) l1 b l2 b []); [done|apply same_but_store; unfold b_end, HDR in *; lia|done|].
  intros Hc. cbn [app chain]. split_and!; [done|done|done| |done].
  eapply hdr_at_frame; [|done]. intros k Hk. rewrite word_store. case_decide; [lia|done].
Qed.

(** Blocks of the heap do not overlap. *)
Lemma blocks_apart h l1 b l2 c : heap_ok h (l1 ++ b :: l2) -> c ∈ l1 \/ c ∈ l2 -> b_end c <= b_addr b \/ b_end b <= b_addr c.
Proof.
  intros Hok Hc. destruct (heap_ok_split _ _ _ _ Hok) as (_ & H1 & H2 & _).
  destruct Hc as [Hc|Hc]; [destruct (bseg_elem _ _ _ _ _ H1 Hc)|destruct (chain_elem _ _ _ _ _ H2 Hc)]; lia.
Qed.

(** The words of other blocks after a change inside [b]. *)
Lemma apart_words h h' l1 b l2 c : heap_ok h (l1 ++ b :: l2) -> c ∈ l1 \/ c ∈ l2 -> same_but (b_addr b) (b_end b) h h' ->
  forall x, b_payload c <= x < b_end c -> word h' x = word h x.
Proof.
  intros Hok Hc [_ Hw] x Hx. apply Hw. pose proof (blocks_apart _ _ _ _ _ Hok Hc). unfold b_payload, HDR in *. lia.
Qed.

(** ** Allocation *)

Lemma carve_head size b : 0 <= size <= b_size b -> exists c cs, carve size b = c :: cs /\ b_addr c = b_addr b /\ taken c /\
  size <= b_size c < size + 64 /\ b_end c <= b_end b.
Proof.
  intros Hs. unfold carve. destruct (Z.leb_spec (size + HDR + MIN_SPLIT) (b_size b)); do 2 eexists; (split; [reflexivity|]);
    unfold taken, b_end, HDR, MIN_SPLIT in *; simpl; split_and!; try done; lia.
Qed.

(** The state after [kmalloc]: a new block [c] beside those of the addresses in use. *)
Record fresh_block (h' : heap) (P : gset Z) (n : Z) (m1 : list block) (c : block) (m2 : list block) (O : gmap Z block) (R : gset Z) : Prop := {
  fb_ok : heap_ok h' (m1 ++ c :: m2);
  fb_ram : ram_hi h' <= 2 ^ 52;
  fb_owned : owned h' (m1 ++ c :: m2) O;
  fb_out : outside h' R;
  fb_dom : P = dom O ∪ R;
  fb_taken : taken c;
  fb_size : round8 n <= b_size c < round8 n + 64;
  fb_apart q b : O !! q = Some b -> b ∈ m1 \/ b ∈ m2 }.

Lemma raw_alloc_spec h P n : pages_in h P -> 0 < n -> n + 7 < 2 ^ 64 ->
  wp (Kmalloc.kmalloc n) h (fun raw h' => (raw = 0 /\ pages_in h' P) \/
    exists m1 c m2 O R, raw = b_payload c /\ fresh_block h' P n m1 c m2 O R).
Proof.
  intros (bl & O & R & Hok & Hram & Hown & Hout & ->) Hn Hlt. eapply wp_mono; [by apply (kmalloc_spec h bl n Hok)|].
  intros raw h' H1. cbv beta in H1. destruct (search HEAP_WALK_MAX (round8 n) bl) as [b|] eqn:Es.
  2: { destruct H1 as [-> ->]. left. split; [done|]. by exists bl, O, R. }
  destruct H1 as (-> & Hsb & m1 & m2 & -> & Hok1). right.
  apply find_some in Es as [_ Hfit]. apply andb_true_iff in Hfit as [Hfree Hsz%Z.leb_le]. pose proof (round8_pos n Hn).
  destruct (carve_head (round8 n) b ltac:(lia)) as (c & rest & Ec & Ea & Hc & Hcs & Hce). rewrite Ec in Hok1. cbn [app] in Hok1.
  assert (Hap : forall q b', O !! q = Some b' -> b' ∈ m1 \/ b' ∈ m2).
  { intros q b' E. destruct (ow_block _ _ _ Hown q b' E) as (Hin & Ht & _).
    apply elem_of_app in Hin as [?|[->|?]%elem_of_cons]; [by left| |by right]. unfold taken in Ht. congruence. }
  exists m1, c, (rest ++ m2), O, R. split; [unfold b_payload; lia|].
  split; [done|by destruct Hsb as [(_ & -> & _) _]| |by eapply outside_region; [apply Hsb|]|done|done|lia|].
  - eapply owned_frame; [done|]. intros q b' E. split; [|eapply (apart_words h h' m1 b m2); [done|by eapply Hap|done]].
    destruct (Hap q b' E); set_solver.
  - intros q b' E. destruct (Hap q b' E); [by left|right; set_solver].
Qed.

(** Giving the block of [c] to the address [p] in it. *)
Lemma own_new h P n m1 c m2 O R p : fresh_block h P n m1 c m2 O R -> owns h c p ->
  (p ∉ P) /\ pages_in h ({[p]} ∪ P).
Proof.
  intros [Hok Hram Hown Hout -> Ht Hs Hap] Hp. pose proof (owns_range _ _ _ Hp) as Hr.
  assert (Hno : forall q b, O !! q = Some b -> b <> c /\ q <> p).
  { intros q b E. pose proof (blocks_apart _ _ _ _ _ Hok (Hap q b E)) as Hd.
    destruct (ow_block _ _ _ Hown q b E) as (_ & _ & Hq%owns_range). destruct (heap_ok_at _ _ _ _ Hok) as [_ _ _ Hcs _].
    split; intros ->; unfold b_end, b_payload, HDR in *; lia. }
  split.
  - intros [[b E]%elem_of_dom|Hin%Hout]%elem_of_union; [by destruct (Hno p b E)|].
    destruct (heap_ok_at _ _ _ _ Hok) as [? ? _ _ _]. unfold b_payload, HDR in *. lia.
  - exists (m1 ++ c :: m2), (<[p := c]> O), R. split_and!; [done|done| |done|by rewrite dom_insert_L, union_assoc_L]. split.
    + intros q b [[<- <-]|[_ E]]%lookup_insert_Some; [split_and!; [set_solver|done|done]|by apply (ow_block _ _ _ Hown)].
    + intros q r b [[<- <-]|[_ E]]%lookup_insert_Some [[<- E2]|[_ E2]]%lookup_insert_Some; try done.
      * by destruct (Hno _ _ E2).
      * subst. by destruct (Hno _ _ E).
      * by eapply (ow_inj _ _ _ Hown).
Qed.

(** The aligned page inside a block that was asked for. *)
Lemma align_page raw : 0 <= raw -> raw + 2 ^ 13 < 2 ^ 64 ->
  let p := ALIGN (u64 (raw + PTR)) 4096 in p mod 4096 = 0 /\ raw + 8 <= p < raw + 8 + 4096.
Proof.
  intros Hr Hlt p. unfold p, PTR. rewrite u64_small by lia.
  pose proof (align_pow2 (raw + 8) 12 ltac:(lia) ltac:(lia) ltac:(lia)) as E. change (2 ^ 12) with 4096 in E. rewrite E.
  pose proof (Z.div_mod (raw + 8 + 4096 - 1) 4096 ltac:(lia)). pose proof (Z.mod_pos_bound (raw + 8 + 4096 - 1) 4096 ltac:(lia)).
  split; [apply Z.mod_mul; lia|lia].
Qed.

Lemma page_mod8 p : p mod 4096 = 0 -> (p - 8) mod 8 = 0.
Proof.
  intros Hp. pose proof (Z.div_mod p 4096 ltac:(lia)). replace (p - 8) with ((512 * (p / 4096) - 1) * 8) by lia. by apply Z.mod_mul.
Qed.

(** Keeping the address of the block in front of the page. *)
Lemma fresh_store h P n m1 c m2 O R a v : fresh_block h P n m1 c m2 O R -> b_payload c <= a < b_end c ->
  fresh_block (put a v h) P n m1 c m2 O R.
Proof.
  intros [Hok Hram Hown Hout -> Ht Hs Hap] Ha. split; try done; [by apply heap_ok_payload|]. eapply owned_frame; [done|].
  intros q b E. destruct (ow_block _ _ _ Hown q b E) as (Hin & _). split; [done|].
  eapply (apart_words h _ m1 c m2); [done|by eapply Hap|]. apply same_but_store. unfold b_payload, HDR in *. lia.
Qed.

Lemma heap_page_law h P : pages_in h P ->
  wp (Kmalloc.kmalloc_aligned ATM_PAGE_SIZE ATM_PAGE_SIZE) h (fun p h' =>
    (p = 0 /\ pages_in h' P) \/
    (p <> 0 /\ (p ∉ P) /\ p mod 4096 = 0 /\ 0 < p < 2 ^ 52 /\ pages_in h' ({[p]} ∪ P))).
Proof.
  intros HP. unfold Kmalloc.kmalloc_aligned, ATM_PAGE_SIZE. change (0x1000 <=? 8) with false. cbn match.
  change (u64 (u64 (0x1000 + 0x1000) + PTR)) with 8200. wp_step. eapply wp_mono; [apply (raw_alloc_spec h P 8200 HP); lia|].
  intros raw h1 [[-> HP1]|(m1 & c & m2 & O & R & -> & Hf)]; [change (0 =? 0) with true; cbn match; wp_step; by left|].
  pose proof Hf as [Hok Hram _ _ _ _ Hs _]. pose proof Hok as [Hst _ Hlo' [Hend _] _ _]. change (round8 8200) with 8200 in Hs.
  destruct (heap_ok_at _ _ _ _ Hok) as [Hlo Hhi _ _ _].
  destruct (align_page (b_payload c)) as [Hp0 Hp]; [unfold b_payload, HDR; lia|unfold b_payload, b_end, HDR in *; lia|].
  rewrite (proj2 (Z.eqb_neq (b_payload c) 0)) by (unfold b_payload, HDR; lia). set (p := ALIGN _ _) in *.
  assert (Hin : b_payload c <= p - 8 < b_end c) by (unfold b_end, b_payload, HDR in *; lia).
  assert (Hin2 : p + 4096 <= b_end c) by (unfold b_end, b_payload, HDR in *; lia).
  wp_step. apply wp_store; [apply in_ram_intro; [unfold b_payload, HDR in *; lia|lia|by apply page_mod8]|]. wp_step. right.
  destruct (own_new (put (p - 8) (b_payload c) h1) P 8200 m1 c m2 O R p) as [Hno Hnew]; [by apply fresh_store| |].
  - right. split_and!; [done|lia|done| |lia]. by rewrite word_store, decide_True.
  - split_and!; [unfold b_payload, HDR in *; lia|done|done|unfold b_payload, HDR in *; lia|lia|done].
Qed.

Lemma heap_block_law h P n : pages_in h P -> 0 < n < 2 ^ 32 ->
  wp (Kmalloc.kmalloc n) h (fun p h' => (p = 0 /\ pages_in h' P) \/ (p <> 0 /\ (p ∉ P) /\ pages_in h' ({[p]} ∪ P))).
Proof.
  intros HP Hn. eapply wp_mono; [apply (raw_alloc_spec h P n HP); lia|]. intros raw h1 [?|(m1 & c & m2 & O & R & -> & Hf)]; [by left|right].
  pose proof Hf as [Hok _ _ _ _ _ Hs _]. pose proof Hok as [Hst _ _ _ _ _]. destruct (heap_ok_at _ _ _ _ Hok) as [Hlo _ _ _ _].
  pose proof (round8_pos n ltac:(lia)). destruct (own_new h1 P n m1 c m2 O R (b_payload c) Hf) as [Hno Hnew]; [left; split; [done|lia]|].
  split_and!; [unfold b_payload, HDR; lia|done|done].
Qed.

(** ** Release *)

Lemma merge_taken fuel : forall bl b, b ∈ bl -> taken b -> b ∈ merge fuel bl.
Proof.
  unfold taken. induction fuel as [|fuel IH]; intros bl b Hb Ht; [by destruct bl|]. destruct bl as [|c [|d rest]]; [done|done|].
  cbn [merge]. destruct (b_free c && b_free d) eqn:E.
  - apply andb_true_iff in E as [Ec Ed]. apply IH; [|done]. apply elem_of_cons in Hb as [->|[->|Hb]%elem_of_cons]; [congruence|congruence|set_solver].
  - apply elem_of_cons in Hb as [->|Hb]; [set_solver|]. apply elem_of_cons. right. by apply IH.
Qed.

(** The other addresses after the release of a block, or after a merge pass alone. *)
Lemma owned_merged h h1 h' bl bl1 O p b :
  owned h bl O -> O !! p = Some b -> (forall c, c ∈ bl -> c <> b -> c ∈ bl1) ->
  (forall q c, O !! q = Some c -> q <> p -> forall x, b_payload c <= x < b_end c -> word h1 x = word h x) ->
  (forall x, live_word bl1 x -> word h' x = word h1 x) ->
  owned h' (merge HEAP_WALK_MAX bl1) (delete p O).
Proof.
  intros Hown Ep Hsub Hw1 Hw. eapply owned_frame; [by apply owned_delete|]. intros q c [Hne E]%lookup_delete_Some.
  destruct (ow_block _ _ _ Hown q c E) as (Hin & Ht & _). assert (c ∈ bl1) as Hc.
  { apply Hsub; [done|]. intros ->. apply Hne. by apply (ow_inj _ _ _ Hown _ _ b). }
  split; [by apply merge_taken|]. intros x Hx. rewrite Hw; [by eapply Hw1|]. by exists c.
Qed.

Lemma dom_delete_pages (O : gmap Z block) (R : gset Z) (p : Z) : (dom O ∪ R) ∖ {[p]} = dom (delete p O) ∪ (R ∖ {[p]}).
Proof. rewrite dom_delete_L. set_solver. Qed.

Lemma outside_less h R p : outside h R -> outside h (R ∖ {[p]}).
Proof. intros Ho x [Hx _]%elem_of_difference. by apply Ho. Qed.

(** The words in front of an aligned page are no header, unless they lie in the payload. *)
Lemma no_header h l1 b l2 p : heap_ok h (l1 ++ b :: l2) -> taken b -> p mod 4096 = 0 -> b_payload b + 8 <= p -> b_size b < 8300 ->
  word h (p - 32) = HEAP_MAGIC -> b_payload b + 32 <= p.
Proof.
  intros Hok Ht Hp Hlo Hs Hm. destruct (heap_ok_at _ _ _ _ Hok) as [_ _ Hal _ [_ H8 H16 H24]]. unfold b_payload, HDR in *.
  pose proof (page_mod8 p Hp) as H8p. destruct (Z.lt_ge_cases p (b_addr b + 64)) as [Hlt|]; [exfalso|lia].
  assert (p - 32 = b_addr b + 8 \/ p - 32 = b_addr b + 16 \/ p - 32 = b_addr b + 24) as [E|[E|E]].
  { pose proof (Z.div_mod (p - 8) 8 ltac:(lia)). pose proof (Z.div_mod (b_addr b) 8 ltac:(lia)). lia. }
  - rewrite E, H8 in Hm. unfold HEAP_MAGIC in Hm. lia.
  - rewrite E in Hm. unfold taken in Ht. rewrite Hm, Ht in H16. by vm_compute in H16.
  - rewrite E, H24 in Hm. destruct l2 as [|c l2]; [by vm_compute in Hm|]. cbn [next_addr] in Hm.
    destruct (heap_ok_at h (l1 ++ [b]) c l2) as [_ _ Hc _ _]; [by rewrite <- app_assoc|]. rewrite Hm in Hc. by vm_compute in Hc.
Qed.

(** [kfree] of an aligned page: the block is released, or stays as it is when its payload
    happens to look like a header. *)
Lemma kfree_page h l1 b l2 O R p :
  heap_ok h (l1 ++ b :: l2) -> ram_hi h <= 2 ^ 52 -> owned h (l1 ++ b :: l2) O -> outside h R -> O !! p = Some b ->
  p mod 4096 = 0 -> b_payload b + 8 <= p -> p + 4096 <= b_end b -> word h (p - 8) = b_payload b -> b_size b < 8300 ->
  wp (Kmalloc.kfree p) h (fun _ h' => pages_in h' ((dom O ∪ R) ∖ {[p]})).
Proof.
  intros Hok Hram Hown Hout Ep Hp Hlo Hhi Hw Hs. destruct (ow_block _ _ _ Hown p b Ep) as (_ & Ht & _).
  pose proof Hok as [Hst Hsa Hrl Hrh Htot _]. pose proof (heap_ok_at _ _ _ _ Hok) as [Hbl Hbh Hba Hbs _].
  pose proof (page_mod8 p Hp) as H8. unfold Kmalloc.kfree. do 4 wp_step. unfold heap_end, b_payload, b_end, HDR, PTR in *.
  rewrite (u64_small (heap_start h + heap_total h + 32)), (u64_small (heap_start h + 32)), (u64_small (heap_start h + 8)) by lia.
  rewrite (proj2 (Z.eqb_neq p 0)), (proj2 (Z.eqb_neq (heap_start h) 0)) by lia.
  rewrite (proj2 (Z.ltb_ge p _)), (proj2 (Z.leb_gt _ p)) by lia. cbn [orb].
  assert (Hal : (p - 32) mod 8 = 0) by (replace (p - 32) with (p - 8 + (-3) * 8) by lia; by rewrite Z.mod_add).
  assert (Hv : heap_header_valid h (p - 32) = true).
  { unfold heap_header_valid, HDR. rewrite (u64_small (heap_start h + heap_total h + 32)) by lia. rewrite u64_small by lia.
    rewrite land7, Hal. rewrite !andb_true_iff, !negb_true_iff, !Z.eqb_neq, !Z.leb_le. split_and!; lia. }
  assert (Hin : in_ram h (p - 32) = true) by (apply in_ram_intro; [lia|lia|done]).
  wp_step. wp_step. rewrite Hv. do 2 wp_step. unfold hdr_magic at 1. apply wp_load; [done|]. wp_step.
  destruct (Z.eqb_spec (word h (p - 32)) HEAP_MAGIC) as [Hm|Hm].
  - pose proof (no_header h l1 b l2 p Hok Ht Hp Hlo Hs Hm) as Hfar. unfold b_payload, HDR in Hfar. unfold kfree_hdr. wp_step. wp_step. rewrite Hv. cbn [negb].
    wp_step. unfold hdr_magic. apply wp_load; [done|]. rewrite Hm, Z.eqb_refl. cbn [negb]. wp_step. unfold hdr_free. wp_step.
    assert (Hin2 : in_ram h (p - 32 + 16) = true) by (apply in_ram_intro; [lia|lia|by apply mod8_add]).
    apply wp_load; [done|]. wp_step. destruct (truth _).
    { wp_step. rewrite dom_delete_pages. exists (l1 ++ b :: l2), (delete p O), (R ∖ {[p]}).
      split_and!; [done|done|by apply owned_delete|by apply outside_less|done]. }
    wp_step. apply wp_set_free; [done|]. set (h1 := put _ _ h).
    assert (Hok1 : heap_ok h1 (l1 ++ b :: l2)) by (apply heap_ok_payload; [done|unfold b_payload, b_end, HDR; lia]).
    eapply wp_mono; [apply (coalesce_spec h1 _ Hok1)|]. intros _ h2 (Hok2 & Hreg & Hw2). rewrite dom_delete_pages.
    eexists _, (delete p O), (R ∖ {[p]}). split_and!; [exact Hok2|by destruct Hreg as (_ & -> & _)| |by eapply outside_region, outside_less; [exact Hreg|]|done].
    eapply (owned_merged h h1); [done|done|done| |done]. intros q c Eq Hne.
    destruct (ow_block _ _ _ Hown q c Eq) as (Hin' & _). eapply (apart_words h h1 l1 b l2); [done| |].
    + apply elem_of_app in Hin' as [?|[->|?]%elem_of_cons]; [by left| |by right]. exfalso. apply Hne. by apply (ow_inj _ _ _ Hown _ _ b).
    + apply same_but_store. unfold b_end, HDR. lia.
  - rewrite (proj2 (Z.ltb_ge p _)) by lia. wp_step. apply wp_load; [apply in_ram_intro; [lia|lia|done]|]. rewrite Hw.
    rewrite (proj2 (Z.ltb_ge _ _)), (proj2 (Z.leb_gt _ _)) by lia. cbn [orb]. replace (b_addr b + 32 - 32) with (b_addr b) by lia.
    eapply wp_mono; [by apply kfree_hdr_spec|]. intros _ h2 (Hok2 & Hreg & Hw2). rewrite dom_delete_pages.
    eexists _, (delete p O), (R ∖ {[p]}). split_and!; [exact Hok2|by destruct Hreg as (_ & -> & _)| |by eapply outside_region, outside_less; [exact Hreg|]|done].
    eapply (owned_merged h h); [done|done| |done|done]. intros c Hc Hne. set_solver.
Qed.

(** [kfree] ignores an address outside the heap. *)
Lemma kfree_outside h bl p : heap_ok h bl -> p < heap_start h \/ heap_end h <= p -> Kmalloc.kfree p h = Done (tt, h).
Proof.
  intros [Hst _ _ Hend Htot _] Hp. unfold Kmalloc.kfree. rewrite !bind_gets. unfold heap_end, HDR in *.
  rewrite (u64_small (heap_start h + heap_total h + 32)), (u64_small (heap_start h + 32)) by lia.
  destruct ((p =? 0) || (heap_start h =? 0)); [done|].
  replace ((p <? heap_start h + 32) || (heap_start h + heap_total h + 32 <=? p)) with true; [done|].
  symmetry. apply orb_true_iff. rewrite Z.ltb_lt, Z.leb_le. lia.
Qed.

Lemma heap_free_law h P p : pages_in h P -> p ∈ P -> wp (Kmalloc.kfree p) h (fun _ h' => pages_in h' (P ∖ {[p]})).
Proof.
  intros (bl & O & R & Hok & Hram & Hown & Hout & ->) Hp. destruct (O !! p) as [b|] eqn:Ep.
  2: { apply elem_of_union in Hp as [[b E]%elem_of_dom|Hp]; [congruence|]. unfold wp. rewrite (kfree_outside h bl p Hok) by (by apply Hout).
       rewrite dom_delete_pages, delete_id by done. exists bl, O, (R ∖ {[p]}). split_and!; [done|done|done|by apply outside_less|done]. }
  destruct (ow_block _ _ _ Hown p b Ep) as (Hin & Ht & Hb).
  apply list_elem_of_split in Hin as (l1 & l2 & ->). destruct Hb as [[-> Hs]|(? & ? & ? & ? & ?)]; [|by eapply kfree_page].
  eapply wp_mono; [by apply kfree_spec|]. intros _ h2 (Hok2 & Hreg & Hw2). rewrite dom_delete_pages.
  eexists _, (delete (b_payload b) O), (R ∖ {[b_payload b]}).
  split_and!; [exact Hok2|by destruct Hreg as (_ & -> & _)| |by eapply outside_region, outside_less; [exact Hreg|]|done].
  eapply (owned_merged h h); [done|done| |done|done]. intros c Hc Hne. set_solver.
Qed.

#[export] Instance heap_pages : PageLaws heap := {
  pages_live := pages_in; page_law := heap_page_law; block_law := heap_block_law; page_free_law := heap_free_law }.

Lemma boot_pages R : outside boot_heap R -> pages_live boot_heap R.
Proof.
  intros Ho. exists [mk_block 0x100000 (0x100000 - 32) true], ∅, R.
  split_and!; [constructor; vm_compute; done|vm_compute; done| |done|set_solver]. by split; intros *; rewrite lookup_empty.
Qed.
