(* ===== verification/PagingSpace.v ===== *)
(** * Making and destroying address spaces

    [paging_destroy_user_space] releases the addresses a space holds, each once and no
    other; [paging_create_user_space] gives a space with no user page that shares the
    kernel's page directories. *)

From S2P Require Import Prelude Cstring Alloc Paging PagingInv PagingCopy.

Section Space.
Context {H : Type} `{!Allocator H} `{!PageLaws H}.
Implicit Types (k : kmem H) (us : user_space) (P : gset Z) (L : list Z).

(** ** Releasing what a space holds *)

(** The addresses of [L], all different, are in use beside those of [P]. *)
Record holds (h : H) L P : Prop := {
  ho_live : pages_live h (list_to_set L ∪ P);
  ho_nodup : NoDup L;
  ho_apart x : x ∈ L -> x ∉ P }.

Definition set_heap k (h : H) : kmem H := k <| km_heap := h |>.

Lemma free_one k L P p Q : holds (km_heap k) (p :: L) P ->
  (forall h, holds h L P -> Q tt (set_heap k h)) -> wp (on_heap (kfree p)) k Q.
Proof.
  intros [Hlive Hnd Hap] HQ. apply list.NoDup_cons in Hnd as [Hp Hnd]. apply wp_on_heap. eapply wp_mono; [apply (page_free_law _ _ p Hlive); set_solver|].
  intros [] h Hh. apply HQ. split; [|done|set_solver]. replace (list_to_set L ∪ P) with ((list_to_set (p :: L) ∪ P) ∖ {[p]}); [done|].
  specialize (Hap p ltac:(set_solver)). apply set_eq. intros x. rewrite list_to_set_cons. destruct (decide (x = p)) as [->|]; set_solver.
Qed.

Lemma free_table_one k L P p Q : holds (km_heap k) (p :: L) P ->
  (forall h, holds h L P -> Q tt (set_tables (set_heap k h) (delete p (km_tables k)))) -> wp (free_table p) k Q.
Proof. intros Hh HQ. unfold free_table. wp_step. apply (free_one k L P); [done|]. intros h Hh'. wp_step. by apply HQ. Qed.

(** The frames of the present entries of a table. *)
Definition frames (t : list Z) : list Z := phys_ptr <$> List.filter (fun e => pte_has e ATM_PTE_P) t.

Lemma free_frames L P pt : forall suf pre k Q,
  km_tables k !! pt = Some (pre ++ suf) -> holds (km_heap k) (frames suf ++ L) P ->
  (forall h, holds h L P -> Q tt (set_heap k h)) ->
  wp (for_each (fun i => let* e := entry_at pt i in if pte_has e ATM_PTE_P then on_heap (kfree (phys_ptr e)) else ret tt)
        (seqZ (zlen pre) (zlen suf))) k Q.
Proof.
  induction suf as [|e suf IH]; intros pre k Q Ht Hh HQ.
  - assert (E : seqZ (zlen pre) (zlen (@nil Z)) = []) by done. rewrite E. cbn [for_each]. wp_step. replace k with (set_heap k (km_heap k)) by (by destruct k). by apply HQ.
  - cbn [length]. rewrite seqZ_cons by lia. replace (Z.pred (Z.of_nat (S (length suf)))) with (zlen suf) by lia.
    replace (Z.succ (zlen pre)) with (zlen (pre ++ [e])) by (rewrite length_app; simpl; lia). cbn [for_each]. do 2 wp_step.
    eapply wp_entry_at; [exact Ht|by rewrite aget_of_nat, list_lookup_middle|].
    assert (Ht' : km_tables k !! pt = Some ((pre ++ [e]) ++ suf)) by (by rewrite <- app_assoc).
    unfold frames in Hh. cbn [List.filter] in Hh. destruct (pte_has e ATM_PTE_P).
    + apply (free_one k (frames suf ++ L) P); [done|]. intros h Hh'. apply IH; [done|done|]. intros h' Hh2. by apply HQ.
    + wp_step. by apply IH.
Qed.

Lemma destroy_table_spec k L P pt t Q : km_tables k !! pt = Some t -> length t = 512%nat -> holds (km_heap k) (frames t ++ pt :: L) P ->
  (forall h, holds h L P -> Q tt (set_tables (set_heap k h) (delete pt (km_tables k)))) -> wp (destroy_table pt) k Q.
Proof.
  intros Ht Hl Hh HQ. unfold destroy_table. wp_step. pose proof (free_frames (pt :: L) P pt t [] k) as Hf. rewrite Hl in Hf.
  apply Hf; [done|done|]. intros h Hh'. by apply (free_table_one _ L P).
Qed.

Definition nonzero (l : list Z) : list Z := List.filter (fun p => negb (p =? 0)) l.

Lemma nonzero_cons p l : nonzero (p :: l) = if p =? 0 then nonzero l else p :: nonzero l.
Proof. unfold nonzero. cbn [List.filter]. by destruct (p =? 0). Qed.
Lemma nonzero_in p l : p ∈ nonzero l -> p ∈ l.
Proof. intros Hp. apply list_elem_of_In in Hp. apply filter_In in Hp as [Hp _]. by apply list_elem_of_In. Qed.

(** The tables and frames reached through the index. *)
Definition index_holdings (T : gmap Z (list Z)) (idx : list Z) : list Z :=
  flat_map (fun pt => if pt =? 0 then [] else frames (default [] (T !! pt)) ++ [pt]) idx.

Definition tables_at (T : gmap Z (list Z)) (idx : list Z) : Prop :=
  forall pt, pt ∈ idx -> pt <> 0 -> exists t, T !! pt = Some t /\ length t = 512%nat.

(** Everything but the tables listed is as it was. *)
Definition only_freed k k' (idx : list Z) : Prop :=
  exists h T, k' = set_tables (set_heap k h) T /\ forall q, q ∉ idx -> T !! q = km_tables k !! q.

Lemma index_holdings_agree T T' idx : (forall pt, pt ∈ idx -> pt <> 0 -> T' !! pt = T !! pt) -> index_holdings T' idx = index_holdings T idx.
Proof.
  induction idx as [|pt idx IH]; intros Hag; [done|]. unfold index_holdings. cbn [flat_map]. f_equal.
  - destruct (Z.eqb_spec pt 0); [done|]. by rewrite Hag by set_solver.
  - apply IH. intros q Hq. apply Hag. set_solver.
Qed.

Lemma index_holdings_elem T idx pt : pt ∈ idx -> pt <> 0 -> pt ∈ index_holdings T idx.
Proof.
  intros Hi Hn. unfold index_holdings. apply list_elem_of_In, in_flat_map. exists pt. split; [by apply list_elem_of_In|].
  rewrite (proj2 (Z.eqb_neq pt 0)) by done. apply in_or_app. right. by left.
Qed.

Lemma free_index L P : forall idx k Q,
  tables_at (km_tables k) idx -> holds (km_heap k) (index_holdings (km_tables k) idx ++ L) P ->
  (forall k', only_freed k k' (nonzero idx) -> holds (km_heap k') L P -> Q tt k') ->
  wp (for_each (fun pt => if pt =? 0 then ret tt else destroy_table pt) idx) k Q.
Proof.
  induction idx as [|pt idx IH]; intros k Q Ht Hh HQ; cbn [for_each].
  - wp_step. apply HQ; [|done]. exists (km_heap k), (km_tables k). by destruct k.
  - assert (Ht' : forall T, (forall q, q ∈ idx -> q <> 0 -> T !! q = km_tables k !! q) -> tables_at T idx).
    { intros T Hag q Hq Hn. destruct (Ht q ltac:(set_solver) Hn) as (t & E & ?). exists t. by rewrite Hag. }
    unfold index_holdings in Hh. cbn [flat_map] in Hh. wp_step. destruct (Z.eqb_spec pt 0) as [E0|Hne].
    + wp_step. apply IH; [by apply Ht'|done|]. intros k' (h & T & -> & Hag). apply HQ. exists h, T. split; [done|].
      by rewrite nonzero_cons, E0.
    + destruct (Ht pt ltac:(set_solver) Hne) as (t & Et & Hl). rewrite Et in Hh. cbn [default] in Hh. rewrite <- !app_assoc in Hh.
      fold (index_holdings (km_tables k) idx) in Hh. cbn [app] in Hh. eapply destroy_table_spec; [done|done|exact Hh|].
      intros h Hh'. assert (Hno : pt ∉ idx).
      { intros Hin. destruct Hh as [_ Hnd _]. apply list.NoDup_app in Hnd as (_ & _ & Hnd). apply list.NoDup_cons in Hnd as [Hnd _].
        apply Hnd, elem_of_app. left. by apply index_holdings_elem. }
      assert (Hag : forall q, q ∈ idx -> q <> 0 -> delete pt (km_tables k) !! q = km_tables k !! q)
        by (intros q Hq _; apply lookup_delete_ne; congruence).
      apply IH; [by apply Ht'|by rewrite (index_holdings_agree (km_tables k))|].
      intros k' (h' & T & -> & HT). apply HQ. exists h', T. split; [done|]. rewrite nonzero_cons, (proj2 (Z.eqb_neq pt 0)) by done.
      intros q [? ?]%not_elem_of_cons. rewrite HT by done. by apply lookup_delete_ne.
Qed.

(** The addresses a space holds, in the order in which they are released. *)
Definition space_holdings (T : gmap Z (list Z)) us : list Z :=
  (if us_user_pt us =? 0 then [] else index_holdings T (us_index us) ++ [us_user_pt us]) ++
  nonzero (us_pd us) ++ nonzero [us_pdpt us] ++ nonzero [us_pml4 us].

Lemma only_freed_refl k : only_freed k k [].
Proof. exists (km_heap k), (km_tables k). by destruct k. Qed.
Lemma only_freed_trans k k1 k2 l1 l2 : only_freed k k1 l1 -> only_freed k1 k2 l2 -> only_freed k k2 (l1 ++ l2).
Proof.
  intros (h1 & T1 & -> & H1) (h2 & T2 & -> & H2). exists h2, T2. split; [done|]. intros q [Hq1 Hq2]%not_elem_of_app.
  rewrite H2 by done. by apply H1.
Qed.
Lemma only_freed_weaken k k' l1 l2 : l1 ⊆ l2 -> only_freed k k' l1 -> only_freed k k' l2.
Proof. intros Hs (h & T & -> & H1). exists h, T. split; [done|]. intros q Hq. apply H1. set_solver. Qed.

Lemma free_tables L P : forall l k Q, holds (km_heap k) (nonzero l ++ L) P ->
  (forall k', only_freed k k' (nonzero l) -> holds (km_heap k') L P -> Q tt k') ->
  wp (for_each (fun pd => if pd =? 0 then ret tt else free_table pd) l) k Q.
Proof.
  induction l as [|p l IH]; intros k Q Hh HQ; cbn [for_each].
  - wp_step. apply HQ; [apply only_freed_refl|done].
  - wp_step. rewrite nonzero_cons in Hh, HQ. destruct (Z.eqb_spec p 0) as [E|Hne].
    + wp_step. by apply IH.
    + apply (free_table_one k (nonzero l ++ L) P); [done|]. intros h Hh'. apply IH; [done|]. intros k' Hf. apply HQ.
      eapply (only_freed_trans k _ _ [p] (nonzero l)); [|exact Hf]. eexists h, _. split; [done|].
      intros q Hq. apply lookup_delete_ne. set_solver.
Qed.

Lemma free_table_if L P p k Q : holds (km_heap k) (nonzero [p] ++ L) P ->
  (forall k', only_freed k k' (nonzero [p]) -> holds (km_heap k') L P -> Q tt k') -> wp (if p =? 0 then ret tt else free_table p) k Q.
Proof.
  intros Hh HQ. pose proof (free_tables L P [p] k Q Hh HQ) as Hw. cbn [for_each] in Hw. unfold wp, bind in *.
  by destruct ((if p =? 0 then ret tt else free_table p) k) as [[[] k']|].
Qed.

(** Every table of a space. *)
Definition space_tables us : list Z := nonzero (us_index us) ++ nonzero (us_pd us) ++ nonzero [us_pdpt us] ++ nonzero [us_pml4 us].

Lemma destroy_space_spec k us P : tables_at (km_tables k) (us_index us) -> holds (km_heap k) (space_holdings (km_tables k) us) P ->
  wp (paging_destroy_user_space (Some us)) k (fun r k' =>
    r = Some us_zero /\ pages_live (km_heap k') P /\ only_freed k k' (space_tables us)).
Proof.
  intros Ht Hh. unfold paging_destroy_user_space, space_holdings in *.
  set (L := nonzero (us_pd us) ++ nonzero [us_pdpt us] ++ nonzero [us_pml4 us]) in *.
  assert (Hrest : forall k1, only_freed k k1 (nonzero (us_index us)) -> holds (km_heap k1) L P ->
    wp (do* for_each (fun pd => if pd =? 0 then ret tt else free_table pd) (us_pd us) in
        do* (if us_pdpt us =? 0 then ret tt else free_table (us_pdpt us)) in
        do* (if us_pml4 us =? 0 then ret tt else free_table (us_pml4 us)) in ret (Some us_zero)) k1 (fun r k' =>
      r = Some us_zero /\ pages_live (km_heap k') P /\ only_freed k k' (space_tables us))).
  { intros k1 Hf1 Hh1. wp_step. eapply (free_tables _ P); [exact Hh1|]. intros k2 Hf2 Hh2. wp_step.
    eapply (free_table_if _ P); [exact Hh2|]. intros k3 Hf3 Hh3. wp_step. rewrite <- (app_nil_r (nonzero [us_pml4 us])) in Hh3.
    eapply (free_table_if _ P); [exact Hh3|]. intros k4 Hf4 [Hl _ _]. wp_step. split_and!; [done|by rewrite list_to_set_nil, union_empty_l_L in Hl|].
    pose proof (only_freed_trans _ _ _ _ _ (only_freed_trans _ _ _ _ _ (only_freed_trans _ _ _ _ _ Hf1 Hf2) Hf3) Hf4) as F.
    by rewrite <- !app_assoc in F. }
  wp_step. destruct (us_user_pt us =? 0).
  - wp_step. apply Hrest; [|done]. eapply only_freed_weaken; [|apply only_freed_refl]. set_solver.
  - wp_step. rewrite <- app_assoc in Hh. eapply (free_index _ P); [done|exact Hh|]. intros k1 (h & T & -> & Hag) Hh1.
    apply (free_one _ L P); [done|]. intros h' Hh2. apply Hrest; [|done]. by exists h', T.
Qed.
End Space.

(** The page directory the processor finds for entry [i] of the first page-directory-pointer table. *)
Definition directory (T : gmap Z (list Z)) (cr3 i : Z) : option (list Z) :=
  t ← T !! cr3; e0 ← aget t 0; td ← T !! phys_ptr e0; e ← aget td i; T !! phys_ptr e.

Definition page_addr (p : Z) : Prop := p mod 4096 = 0 /\ 0 < p < 2 ^ 52.

Lemma table_entry_phys p bits : page_addr p -> Z.land bits ATM_PAGE_MASK = 0 -> phys_ptr (table_entry p bits) = p.
Proof.
  intros [Hm Hr] Hb. unfold table_entry. unfold phys_ptr at 1. rewrite Z.land_lor_distr_l, Hb, Z.lor_0_r.
  unfold phys_ptr. rewrite <- Z.land_assoc, Z.land_diag. fold (phys_ptr p). rewrite phys_ptr_small by lia. lia.
Qed.

Section Create.
Context {H : Type} `{!Allocator H} `{!PageLaws H}.
Implicit Types (k : kmem H) (us : user_space) (P : gset Z) (L : list Z).

(** While a space is built: the addresses of [L] are held for it, those of [P] are as in [k0]. *)
Record built k0 k L P : Prop := {
  bu_only : exists h T, k = set_tables (set_heap k0 h) T;
  bu_holds : holds (km_heap k) L P;
  bu_keep q : q ∈ P -> km_tables k !! q = km_tables k0 !! q }.

Lemma built_fresh h L P p : holds h L P -> p ∉ list_to_set L ∪ P -> forall h', pages_live h' ({[p]} ∪ (list_to_set L ∪ P)) -> holds h' (p :: L) P.
Proof.
  intros [_ Hnd Hap] Hp h' Hl. split.
  - by rewrite list_to_set_cons, <- union_assoc_L.
  - constructor; [set_solver|done].
  - intros x [->|Hx]%elem_of_cons; [set_solver|by apply Hap].
Qed.

Lemma built_page k0 k L P : built k0 k L P ->
  wp page_alloc k (fun p k' =>
    built k0 k' (nonzero [p] ++ L) P /\ (p <> 0 -> page_addr p)).
Proof.
  intros [(h & T & ->) Hh Hk]. unfold page_alloc. wp_step. apply wp_on_heap. eapply wp_mono; [apply (page_law _ _ (ho_live _ _ _ Hh))|].
  intros p h' [[-> Hl]|(Hp & Hno & Hal & Hr & Hl)].
  - change (0 =? 0) with true. cbn match. do 2 wp_step. split; [|done]. split; [by exists h', T| |done].
    destruct Hh as [_ ? ?]. done.
  - rewrite (proj2 (Z.eqb_neq p 0)) by done. unfold put_table. do 2 wp_step. wp_step. split; [|done].
    rewrite nonzero_cons, (proj2 (Z.eqb_neq p 0)) by done. split; [by eexists h', _|by eapply built_fresh|]. intros q Hq. simpl. rewrite lookup_insert_ne by set_solver. by apply Hk.
Qed.

Lemma built_block k0 k L P n : built k0 k L P -> 0 < n < 2 ^ 32 ->
  wp (on_heap (kmalloc n)) k (fun p k' => built k0 k' (nonzero [p] ++ L) P).
Proof.
  intros [(h & T & ->) Hh Hk] Hn. apply wp_on_heap. eapply wp_mono; [by apply (block_law _ _ n (ho_live _ _ _ Hh))|].
  intros p h' [[-> Hl]|(Hp & Hno & Hl)].
  - split; [by exists h', T| |done]. by destruct Hh.
  - rewrite nonzero_cons, (proj2 (Z.eqb_neq p 0)) by done. split; [by exists h', T|by eapply built_fresh|done].
Qed.

(** Writing a table that is held for the space. *)
Lemma built_table k0 k L P p t : built k0 k L P -> p ∈ L -> built k0 (set_tables k (<[p := t]> (km_tables k))) L P.
Proof.
  intros [(h & T & ->) Hh Hk] Hp. split; [by eexists h, _|done|]. intros q Hq. simpl. rewrite lookup_insert_ne; [by apply Hk|].
  intros ->. by apply (ho_apart _ _ _ Hh q).
Qed.

Lemma holds_perm h L L' P : Permutation L L' -> holds h L P -> holds h L' P.
Proof.
  intros Hp [Hl Hn Ha]. split; [|by rewrite <- Hp|intros x Hx; apply Ha; by rewrite Hp].
  replace (list_to_set L' : gset Z) with (list_to_set L : gset Z); [done|]. apply list_to_set_perm_L. done.
Qed.

(** ** The page directories *)

Lemma nonzero_app l1 l2 : nonzero (l1 ++ l2) = nonzero l1 ++ nonzero l2.
Proof. apply List.filter_app. Qed.
Lemma nonzero_all l : Forall (fun p => p <> 0) l -> nonzero l = l.
Proof.
  induction 1 as [|p l Hp _ IH]; [done|]. unfold nonzero. cbn [List.filter]. rewrite (proj2 (Z.eqb_neq p 0)) by done. cbn [negb]. by f_equal.
Qed.
Lemma nonzero_zeros n : nonzero (replicate n 0) = [].
Proof. induction n as [|n IH]; [done|]. unfold nonzero in *. cbn. done. Qed.

Lemma built_perm k0 k L L' P : Permutation L L' -> built k0 k L P -> built k0 k L' P.
Proof. intros Hp [? ? ?]. split; [done|by eapply holds_perm|done]. Qed.

Lemma aset_middle {A} (l1 l2 : list A) x y : aset (l1 ++ x :: l2) (zlen l1) y = l1 ++ y :: l2.
Proof. rewrite aset_of_nat. by rewrite insert_app_r_alt, Nat.sub_diag by lia. Qed.

Definition fresh_pages (l : list Z) : Prop := Forall page_addr l.

Lemma fresh_nonzero l : fresh_pages l -> nonzero l = l.
Proof. intros Hl. apply nonzero_all. eapply list.Forall_impl; [exact Hl|]. intros p [_ ?]. lia. Qed.

Lemma alloc_pds_spec k0 P base : forall n us pds k,
  us_pd us = pds ++ replicate n 0 -> fresh_pages pds -> built k0 k (pds ++ base) P ->
  wp (alloc_pds (seqZ (zlen pds) (Z.of_nat n)) us) k (fun x k' => exists pds',
    snd x = us <| us_pd := pds' |> /\ length pds' = (length pds + n)%nat /\ built k0 k' (nonzero pds' ++ base) P /\
    (fst x = true -> fresh_pages pds')).
Proof.
  induction n as [|n IH]; intros us pds k Hpd Hall Hb.
  - assert (E : seqZ (zlen pds) (Z.of_nat 0) = []) by done. rewrite E. cbn [alloc_pds]. wp_step. exists pds. rewrite app_nil_r in Hpd.
    split_and!; [by destruct us; simpl in *; subst|lia|by rewrite fresh_nonzero|done].
  - rewrite seqZ_cons by lia. replace (Z.pred (Z.of_nat (S n))) with (Z.of_nat n) by lia. cbn [alloc_pds]. wp_step.
    eapply wp_mono; [by apply (built_page k0)|]. cbn [replicate] in Hpd. intros p k' [Hb' Hpa]. rewrite Hpd, aset_middle.
    rewrite nonzero_cons in Hb'. destruct (Z.eqb_spec p 0) as [->|Hp]; [|specialize (Hpa Hp)].
    + wp_step. exists (pds ++ 0 :: replicate n 0). cbn [fst snd].
      split_and!; [done|rewrite length_app; cbn [length]; rewrite length_replicate; lia| |done].
      rewrite nonzero_app, (fresh_nonzero pds) by done. change (0 :: replicate n 0) with (replicate (S n) 0). by rewrite nonzero_zeros, app_nil_r.
    + replace (Z.succ (zlen pds)) with (zlen (pds ++ [p])) by (rewrite length_app; simpl; lia).
      eapply wp_mono; [apply (IH _ (pds ++ [p]) k'); [by rewrite <- app_assoc|apply Forall_app; split; [done|by constructor]|]|].
      * eapply built_perm; [|exact Hb']. change ((p :: nonzero []) ++ pds ++ base) with (p :: pds ++ base). by rewrite <- app_assoc, Permutation_middle.
      * intros [ok us'] k'' (pds' & -> & Hl & Hb2 & Hok). exists pds'. split_and!; [by destruct us|rewrite Hl, length_app; simpl; lia|done|done].
Qed.

(** What the loop over the kernel's directories has linked before entry [j]. *)
Definition linked (T0 T : gmap Z (list Z)) us (kt : list Z) (j : Z) : Prop :=
  exists t, T !! us_pdpt us = Some t /\ length t = 512%nat /\ forall i, 0 <= i < j -> exists pd e kpd,
    aget (us_pd us) i = Some pd /\ aget kt i = Some e /\ T0 !! phys_ptr e = Some kpd /\ length kpd = 512%nat /\ T !! pd = Some kpd /\
    aget t i = Some (table_entry pd (Z.lor ATM_PTE_P ATM_PTE_W)).

(** The kernel's directories exist where its table says. *)
Definition kernel_dirs P (T0 : gmap Z (list Z)) (kt : list Z) : Prop := forall i, 0 <= i < 4 -> exists e, aget kt i = Some e /\
  (pte_has e ATM_PTE_P = true -> phys_ptr e ∈ P /\ exists t, T0 !! phys_ptr e = Some t /\ length t = 512%nat).

Lemma aget_NoDup (l : list Z) i j x : NoDup l -> aget l i = Some x -> aget l j = Some x -> i = j.
Proof.
  intros Hn Hi Hj. pose proof (aget_Some_range _ _ _ Hi). pose proof (aget_Some_range _ _ _ Hj). unfold aget in *.
  destruct (Z.ltb_spec i 0), (Z.ltb_spec j 0); try lia. pose proof (NoDup_lookup _ _ _ _ Hn Hi Hj). lia.
Qed.

Lemma link_one T0 T us kt j pd e kpd t : NoDup (us_pdpt us :: us_pd us) -> 0 <= j < 4 -> T !! us_pdpt us = Some t -> length t = 512%nat ->
  linked T0 T us kt j -> aget (us_pd us) j = Some pd -> aget kt j = Some e -> T0 !! phys_ptr e = Some kpd -> length kpd = 512%nat ->
  linked T0 (<[us_pdpt us := aset t j (table_entry pd (Z.lor ATM_PTE_P ATM_PTE_W))]> (<[pd := kpd]> T)) us kt (j + 1).
Proof.
  intros Hnd Hj Ht Hl (t' & Ht' & _ & Hlk) Hpd He Hk Hkl. apply list.NoDup_cons in Hnd as [Hno Hnd]. rewrite Ht in Ht'. apply (inj Some) in Ht' as <-.
  assert (Hin : forall i q, aget (us_pd us) i = Some q -> q <> us_pdpt us).
  { intros i q Hq ->. apply Hno. unfold aget in Hq. destruct (i <? 0); [done|]. by eapply list_elem_of_lookup_2. }
  eexists. rewrite lookup_insert_eq. split; [done|]. split; [by rewrite aset_length|]. intros i Hi.
  destruct (decide (i = j)) as [->|Hne].
  - exists pd, e, kpd. split_and!; try done.
    + rewrite lookup_insert_ne by (apply not_eq_sym; by eapply Hin). by rewrite lookup_insert_eq.
    + apply aget_aset_eq. lia.
  - destruct (Hlk i ltac:(lia)) as (pd' & e' & kpd' & H1 & H2 & H3 & H3l & H4 & H5). exists pd', e', kpd'. split_and!; try done.
    + rewrite lookup_insert_ne by (apply not_eq_sym; by eapply Hin). rewrite lookup_insert_ne; [done|]. intros ->. apply Hne. by eapply aget_NoDup.
    + by rewrite aget_aset_ne by done.
Qed.

Lemma copy_pds_spec k0 P L us kt : NoDup (us_pdpt us :: us_pd us) -> length (us_pd us) = 4%nat -> kernel_dirs P (km_tables k0) kt ->
  us_pdpt us ∈ L -> (forall p, p ∈ us_pd us -> p ∈ L) -> forall n j k,
  0 <= j -> j + Z.of_nat n = 4 -> built k0 k L P -> linked (km_tables k0) (km_tables k) us kt j ->
  wp (copy_pds kt (seqZ j (Z.of_nat n)) us) k (fun ok k' => built k0 k' L P /\
    (forall q, q <> us_pdpt us -> q ∉ us_pd us -> km_tables k' !! q = km_tables k !! q) /\
    (ok = true -> linked (km_tables k0) (km_tables k') us kt 4)).
Proof.
  intros Hnd Hlen Hdirs HpL HdL n. induction n as [|n IH]; intros j k Hj Hjn Hb Hlk.
  - assert (E : seqZ j (Z.of_nat 0) = []) by done. rewrite E. cbn [copy_pds]. wp_step. split_and!; [done|done|]. intros _.
    by replace 4 with j by lia.
  - rewrite seqZ_cons by lia. replace (Z.pred (Z.of_nat (S n))) with (Z.of_nat n) by lia. cbn [copy_pds].
    destruct (Hdirs j ltac:(lia)) as (e & He & Hp). wp_step. eapply wp_deref; [exact He|].
    destruct (pte_has e ATM_PTE_P); cbn [negb]; [|wp_step; by split_and!]. destruct (Hp eq_refl) as (HeP & kpd & Hkpd & Hkl).
    destruct (aget_is_Some (us_pd us) j ltac:(lia)) as [pd Hpd].
    assert (Hpin : pd ∈ us_pd us) by (unfold aget in Hpd; destruct (j <? 0); [done|]; by eapply list_elem_of_lookup_2).
    wp_step. eapply wp_table_at; [rewrite (bu_keep _ _ _ _ Hb) by done; exact Hkpd|]. wp_step. eapply wp_deref; [exact Hpd|]. unfold put_table at 1. do 2 wp_step.
    destruct Hlk as (t & Ht & Hl & Hlk'). assert (Hne : us_pdpt us <> pd) by (intros E; apply list.NoDup_cons in Hnd as [Hno _]; congruence).
    wp_step. eapply wp_put_entry; [simpl; rewrite lookup_insert_ne by done; exact Ht|].
    eapply wp_mono; [apply IH; [lia|lia| |]|].
    + apply (built_table k0 (set_tables k _)); [|done]. by apply built_table; [|apply HdL].
    + simpl. eapply link_one; try done; [lia|by exists t].
    + intros ok k' (Hb' & Hq & Hok). split_and!; [done| |done]. intros q Hq1 Hq2. rewrite Hq by done. simpl.
      rewrite !lookup_insert_ne by congruence. done.
Qed.

(** ** Creation *)

(** The tables the processor uses for the kernel. *)
Definition kcr3 k : Z := if g_kernel_cr3 k =? 0 then Z.land (km_cr3 k) ATM_PAGE_MASK else g_kernel_cr3 k.

Definition kernel_ok P k : Prop := exists tml4 e0,
  km_tables k !! kcr3 k = Some tml4 /\ length tml4 = 512%nat /\ kcr3 k ∈ P /\ aget tml4 0 = Some e0 /\
  (pte_has e0 ATM_PTE_P = true -> phys_ptr e0 <> 0 -> phys_ptr e0 ∈ P /\
    exists kt, km_tables k !! phys_ptr e0 = Some kt /\ length kt = 512%nat /\ kernel_dirs P (km_tables k) kt).

(** What [k0] had is kept. *)
Definition kept k0 k' P : Prop := km_mem k' = km_mem k0 /\ forall q, q ∈ P -> km_tables k' !! q = km_tables k0 !! q.

Lemma built_kept k0 k L P : built k0 k L P -> kept k0 k P.
Proof. intros [(h & T & ->) _ Hk]. by split. Qed.

Lemma index_zeros T idx : Forall (fun p => p = 0) idx -> index_holdings T idx = [] /\ nonzero idx = [].
Proof. induction 1 as [|p idx -> _ [IH1 IH2]]; [done|]. by split. Qed.

Definition frame_list us : list Z := nonzero (us_pd us) ++ nonzero [us_user_pt us] ++ nonzero [us_pdpt us] ++ nonzero [us_pml4 us].

Lemma give_up_spec k0 k us P : Forall (fun p => p = 0) (us_index us) -> built k0 k (frame_list us) P ->
  wp (give_up_space us) k (fun x k' => x = (-1, us_zero) /\ pages_live (km_heap k') P /\ kept k0 k' P).
Proof.
  intros Hz Hb. pose proof Hb as [(h & T & ->) Hh Hk]. destruct (index_zeros T _ Hz) as [E1 E2]. unfold give_up_space. wp_step.
  eapply wp_mono; [apply (destroy_space_spec _ us P)|].
  - intros pt Hpt Hn. rewrite list.Forall_forall in Hz. by destruct (Hn (Hz pt Hpt)).
  - eapply holds_perm; [|exact Hh]. unfold frame_list, space_holdings. simpl km_tables. rewrite E1, nonzero_cons. destruct (us_user_pt us =? 0); cbn [app nonzero List.filter]; [done|].
    symmetry. apply Permutation_middle.
  - intros r k' (-> & Hl & h' & T' & -> & HT). wp_step. split_and!; [done|done|split; [done|]]. intros q Hq. rewrite <- (Hk q Hq). apply HT.
    unfold space_tables. rewrite E2. cbn [app]. intros Hin. apply (ho_apart _ _ _ Hh q); [|done]. unfold frame_list. set_solver.
Qed.

(** The finished tables, seen by the processor. *)
Definition finish (T : gmap Z (list Z)) us (pd1 : Z) (tml4 tdpt : list Z) : gmap Z (list Z) :=
  <[us_pdpt us := aset tdpt 1 (table_entry pd1 user_bits)]> (<[us_pml4 us := aset tml4 0 (table_entry (us_pdpt us) user_bits)]> T).

Lemma finish_directory T0 T us kt tml4 tdpt pd1 i : NoDup (us_pml4 us :: us_pdpt us :: us_pd us) -> fresh_pages (us_pdpt us :: us_pd us) ->
  length tml4 = 512%nat -> T !! us_pdpt us = Some tdpt -> linked T0 T us kt 4 -> aget (us_pd us) 1 = Some pd1 -> 0 <= i < 4 ->
  exists e kpd, aget kt i = Some e /\ T0 !! phys_ptr e = Some kpd /\ directory (finish T us pd1 tml4 tdpt) (us_pml4 us) i = Some kpd.
Proof.
  intros Hnd Hpg Hl Ht (t & Ht' & Hlt & Hlk) Hpd1 Hi. rewrite Ht in Ht'. apply (inj Some) in Ht' as <-.
  apply list.NoDup_cons in Hnd as [Hn1 Hnd]. apply list.NoDup_cons in Hnd as [Hn2 Hnd]. apply list.Forall_cons in Hpg as [Hp1 Hpg].
  assert (Hin : forall j q, aget (us_pd us) j = Some q -> q ∈ us_pd us).
  { intros j q Hq. unfold aget in Hq. destruct (j <? 0); [done|]. by eapply list_elem_of_lookup_2. }
  destruct (Hlk i Hi) as (pd & e & kpd & H1 & H2 & H3 & _ & H4 & H5). exists e, kpd. split_and!; [done|done|].
  assert (Hpd : page_addr pd) by (rewrite list.Forall_forall in Hpg; by eapply Hpg, Hin).
  unfold directory, finish. rewrite lookup_insert_ne, lookup_insert_eq by set_solver. cbn [mbind option_bind].
  rewrite aget_aset_eq by lia. cbn [mbind option_bind]. rewrite table_entry_phys by done. rewrite lookup_insert_eq. cbn [mbind option_bind].
  assert (E : aget (aset tdpt 1 (table_entry pd1 user_bits)) i ≫= (fun e => Some (phys_ptr e)) = Some pd).
  { destruct (decide (i = 1)) as [->|].
    - rewrite aget_aset_eq by lia. cbn. rewrite Hpd1 in H1. apply (inj Some) in H1 as ->. by rewrite table_entry_phys.
    - rewrite aget_aset_ne, H5 by done. cbn [mbind option_bind]. by rewrite table_entry_phys. }
  destruct (aget (aset tdpt 1 _) i) as [x|]; [|done]. cbn [mbind option_bind] in *. apply (inj Some) in E as ->.
  pose proof (Hin _ _ H1) as Hpi. rewrite !lookup_insert_ne; [done|set_solver|set_solver].
Qed.

Definition created k P us k' : Prop := exists P', P ⊆ P' /\ space_ok P' k' us /\
  (forall pg, 0 <= pg < 32768 -> entry_of (km_tables k') us pg = None) /\
  forall i, 0 <= i < 4 -> exists d, directory (km_tables k) (kcr3 k) i = Some d /\ directory (km_tables k') (us_cr3 us) i = Some d.

(** A fresh space has no user page. *)
Lemma fresh_space P k us pd1 t : pages_live (km_heap k) P -> us_valid us <> 0 -> us_index us = replicate 64 0 ->
  aget (us_pd us) 1 = Some pd1 -> km_tables k !! pd1 = Some t -> length t = 512%nat -> pd1 ∈ P -> pd1 <> 0 ->
  space_ok P k us /\ forall pg, 0 <= pg < 32768 -> entry_of (km_tables k) us pg = None.
Proof.
  intros Hl Hv Hi Hpd Ht Hlen HP Hn0. assert (Hz : forall i pt, us_index us !! i = Some pt -> pt = 0).
  { intros i pt E. rewrite Hi in E. by apply lookup_replicate in E as [-> _]. } split.
  - split; [done|done|by rewrite Hi| | |].
    + intros i pt E Hn. by destruct (Hn (Hz i pt E)).
    + intros i j pt E _ Hn. by destruct (Hn (Hz i pt E)).
    + exists pd1, t. split_and!; try done. intros i E. by destruct (Hn0 (Hz i pd1 E)).
  - intros pg Hpg. unfold entry_of. destruct (index_slot us pg ltac:(by rewrite Hi) Hpg) as [E _]. by rewrite (Hz _ _ E).
Qed.

(** The last steps: all the pages are there and the kernel's tables are found. *)
Definition link_tables (kpdpt kpml4 : list Z) us : M (kmem H) (Z * user_space) :=
  do* put_table (us_pml4 us) kpml4 in
  do* put_table (us_pdpt us) kpdpt in
  let* copied := copy_pds kpdpt [0; 1; 2; 3] us in
  if negb copied then give_up_space us
  else
    do* put_entry (us_pml4 us) 0 (table_entry (us_pdpt us) user_bits) in
    let* pd1 := deref (fun _ => aget (us_pd us) 1) in
    do* put_entry (us_pdpt us) 1 (table_entry pd1 user_bits) in
    ret (0, us <| us_cr3 := us_pml4 us |> <| us_valid := 1 |>).

Lemma link_spec k0 k P us tml4 e0 kt :
  km_tables k0 !! kcr3 k0 = Some tml4 -> length tml4 = 512%nat -> aget tml4 0 = Some e0 ->
  km_tables k0 !! phys_ptr e0 = Some kt -> length kt = 512%nat -> kernel_dirs P (km_tables k0) kt ->
  us_index us = replicate 64 0 -> length (us_pd us) = 4%nat -> fresh_pages (us_pml4 us :: us_pdpt us :: us_pd us) -> us_user_pt us <> 0 ->
  built k0 k (frame_list us) P ->
  wp (link_tables kt tml4 us) k (fun x k' => kept k0 k' P /\
    ((x = (-1, us_zero) /\ pages_live (km_heap k') P) \/ exists us', x = (0, us') /\ created k0 P us' k')).
Proof.
  intros Hm Hlm He0 Hkt Hlk Hdirs Hidx Hlen Hfp Hidx0 Hb. pose proof Hfp as [Hp1 [Hp2 Hp3]%list.Forall_cons]%list.Forall_cons.
  assert (Efl : frame_list us = us_pd us ++ [us_user_pt us; us_pdpt us; us_pml4 us]).
  { unfold frame_list. rewrite (fresh_nonzero (us_pd us)) by done. rewrite !nonzero_cons.
    rewrite (proj2 (Z.eqb_neq (us_user_pt us) 0)), (proj2 (Z.eqb_neq (us_pdpt us) 0)), (proj2 (Z.eqb_neq (us_pml4 us) 0)); [done| | |done];
      [destruct Hp1|destruct Hp2]; lia. }
  pose proof (ho_nodup _ _ _ (bu_holds _ _ _ _ Hb)) as Hnd. rewrite Efl in Hnd.
  assert (Hnd3 : NoDup (us_pml4 us :: us_pdpt us :: us_pd us)).
  { rewrite (Permutation_app_comm (us_pd us)) in Hnd. cbn [app] in Hnd. apply list.NoDup_cons in Hnd as [_ Hnd]. by rewrite perm_swap. }
  pose proof Hnd3 as [Hn1 [Hn2 _]%list.NoDup_cons]%list.NoDup_cons. assert (Hne : us_pml4 us <> us_pdpt us) by set_solver.
  unfold link_tables, put_table. do 4 wp_step. set (k1 := upd km_tables _ _).
  assert (Hb1 : built k0 k1 (frame_list us) P) by (apply (built_table k0 (set_tables k _)); [apply built_table; [done|]|]; rewrite Efl; set_solver).
  wp_step. change [0; 1; 2; 3] with (seqZ 0 (Z.of_nat 4)).
  eapply wp_mono; [apply (copy_pds_spec k0 P (frame_list us) us kt) with (k := k1) (n := 4%nat); try done; [by apply list.NoDup_cons in Hnd3 as [_ ?]|rewrite Efl; set_solver|rewrite Efl; set_solver|]|].
  { exists kt. unfold k1. simpl. rewrite lookup_insert_eq. split_and!; [done|done|]. intros; lia. }
  intros ok k2 (Hb2 & Hsame & Hlink). destruct ok; cbn [negb].
  2: { eapply wp_mono; [apply (give_up_spec k0 k2 us P); [rewrite Hidx; by apply Forall_replicate|done]|].
       intros x k' (-> & Hl & Hk). split; [done|]. by left. }
  specialize (Hlink eq_refl). pose proof Hlink as (tdpt & Htd & Hltd & Hall). destruct (Hall 1 ltac:(lia)) as (pd1 & e1 & kpd1 & Hpd1 & He1 & Hk1 & Hl1 & Hk2 & _).
  assert (Hml4 : km_tables k2 !! us_pml4 us = Some tml4).
  { rewrite Hsame by set_solver. unfold k1. simpl. by rewrite lookup_insert_ne, lookup_insert_eq. }
  wp_step. eapply wp_put_entry; [exact Hml4|]. wp_step. eapply wp_deref; [exact Hpd1|]. wp_step.
  eapply wp_put_entry; [simpl; rewrite lookup_insert_ne by done; exact Htd|]. wp_step.
  set (k3 := upd km_tables _ _). assert (Hb3 : built k0 k3 (frame_list us) P) by (apply (built_table k0 (set_tables k2 _)); [apply built_table; [done|]|]; rewrite Efl; set_solver).
  split; [by eapply built_kept|]. right. eexists. split; [done|]. set (us' := upd _ _ _).
  assert (Hin1 : pd1 ∈ us_pd us) by (unfold aget in Hpd1; simpl in Hpd1; by eapply list_elem_of_lookup_2).
  assert (Hpg1 : page_addr pd1) by (rewrite list.Forall_forall in Hp3; by apply Hp3).
  assert (HT3 : km_tables k3 !! pd1 = Some kpd1) by (unfold k3; simpl; rewrite !lookup_insert_ne by set_solver; done).
  destruct (fresh_space (list_to_set (frame_list us) ∪ P) k3 us' pd1 kpd1) as [Hok Hnone]; try done.
  { apply Hb3. } { rewrite Efl. set_solver. } { destruct Hpg1. lia. }
  exists (list_to_set (frame_list us) ∪ P). split_and!; [set_solver|done|done|]. intros i Hi.
  destruct (finish_directory (km_tables k0) (km_tables k2) us kt tml4 tdpt pd1 i) as (e & kpd & Hke & Hkp & Hd); try done; [by constructor|].
  exists kpd. split; [|exact Hd]. unfold directory. rewrite Hm. cbn [mbind option_bind]. rewrite He0. cbn [mbind option_bind].
  rewrite Hkt. cbn [mbind option_bind]. rewrite Hke. done.
Qed.

Lemma create_spec k P : pages_live (km_heap k) P -> kernel_ok P k ->
  wp (paging_create_user_space false) k (fun x k' => kept k k' P /\
    ((x = (-1, us_zero) /\ pages_live (km_heap k') P) \/ exists us, x = (0, us) /\ created k P us k')).
Proof.
  intros Hlive (tml4 & e0 & Hm & Hlm & HmP & He0 & Hk). unfold paging_create_user_space, paging_init. do 2 wp_step.
  set (k0 := if g_kernel_cr3 k =? 0 then k <| g_kernel_cr3 := Z.land (km_cr3 k) ATM_PAGE_MASK |> else k).
  assert (Hk0 : km_tables k0 = km_tables k /\ km_mem k0 = km_mem k /\ km_heap k0 = km_heap k /\ g_kernel_cr3 k0 = kcr3 k).
  { unfold k0, kcr3. by destruct (g_kernel_cr3 k =? 0). } destruct Hk0 as (E1 & E2 & E3 & E4).
  assert (E5 : kcr3 k0 = kcr3 k).
  { unfold k0, kcr3. destruct (Z.eqb_spec (g_kernel_cr3 k) 0) as [E|E]; [|by rewrite (proj2 (Z.eqb_neq _ _) E)]. simpl. by destruct (_ =? 0). }
  wp_step. assert (Hinit : forall Q : unit -> kmem H -> Prop, Q tt k0 ->
    wp (if g_kernel_cr3 k =? 0 then modify (fun k => k <| g_kernel_cr3 := Z.land (km_cr3 k) ATM_PAGE_MASK |>) else ret tt) k Q).
  { intros Q HQ. unfold k0 in HQ. destruct (g_kernel_cr3 k =? 0); by wp_step. }
  apply Hinit. wp_step. wp_step. rewrite E4. wp_step. eapply wp_table_at; [by rewrite E1|]. wp_step. eapply wp_deref; [exact He0|].
  assert (Hkept : forall k', kept k0 k' P -> kept k k' P) by (intros k' [F1 F2]; split; [congruence|]; intros q Hq; by rewrite F2, E1).
  destruct (pte_has e0 ATM_PTE_P) eqn:Ep; cbn [negb orb]; [|wp_step; split; [apply Hkept; by split|left; split; [done|by rewrite E3]]].
  destruct (Z.eqb_spec (phys_ptr e0) 0) as [E0|Hn0]; [wp_step; split; [apply Hkept; by split|left; split; [done|by rewrite E3]]|].
  destruct (Hk eq_refl Hn0) as (HeP & kt & Hkt & Hlkt & Hdirs).
  assert (Hb0 : built k0 k0 [] P) by (split; [by exists (km_heap k0), (km_tables k0); destruct k0| |done]; split; [by rewrite E3, list_to_set_nil, union_empty_l_L|constructor|set_solver]).
  wp_step. eapply wp_mono; [by apply (built_page k0)|]. intros pml4 k1 [Hb1 Hp1]. wp_step.
  eapply wp_mono; [by apply (built_page k0)|]. intros pdpt k2 [Hb2 Hp2]. wp_step.
  eapply wp_mono; [by apply (built_block k0 _ _ _ (8 * ATM_USER_PT_COUNT) Hb2)|]. intros idx k3 Hb3. rewrite app_nil_r in Hb3.
  set (us := upd us_index _ _). assert (Hgive : forall k4 us4 pds, us4 = us <| us_pd := pds |> -> built k0 k4 (frame_list us4) P ->
    wp (give_up_space us4) k4 (fun x k' => kept k k' P /\
      ((x = (-1, us_zero) /\ pages_live (km_heap k') P) \/ exists us, x = (0, us) /\ created k P us k'))).
  { intros k4 us4 pds -> Hb4. eapply wp_mono; [apply (give_up_spec k0 k4 _ P); [|exact Hb4]|].
    - unfold us. simpl. destruct (idx =? 0); [done|by repeat constructor].
    - intros x k' (-> & Hl & Hkk). split; [by apply Hkept|by left]. }
  destruct ((pml4 =? 0) || (pdpt =? 0) || (idx =? 0)) eqn:Ez; [by apply (Hgive k3 us [0; 0; 0; 0])|].
  apply orb_false_iff in Ez as [[Ez1%Z.eqb_neq Ez2%Z.eqb_neq]%orb_false_iff Ez3].
  wp_step. change [0; 1; 2; 3] with (seqZ (zlen (@nil Z)) (Z.of_nat 4)) at 1.
  eapply wp_mono; [apply (alloc_pds_spec k0 P (nonzero [idx] ++ nonzero [pdpt] ++ nonzero [pml4]) 4 us [] k3); [done|constructor|done]|].
  intros [ok us1] k4 (pds & Eus & Hl & Hb4 & Hfp). cbn [fst snd] in *. subst us1.
  destruct ok; cbn [negb]; [|by apply (Hgive k4 _ pds)]. specialize (Hfp eq_refl).
  wp_step. eapply wp_table_at; [rewrite (bu_keep _ _ _ _ Hb4), E1 by done; exact Hkt|].
  set (us1 := us <| us_pd := pds |>) in *. assert (Hidx : us_index us1 = replicate 64 0) by (unfold us1, us; simpl; by rewrite Ez3).
  assert (Hfps : fresh_pages (us_pml4 us1 :: us_pdpt us1 :: us_pd us1)) by (constructor; [by apply Hp1|constructor; [by apply Hp2|exact Hfp]]).
  rewrite <- E1 in Hm, Hkt, Hdirs. rewrite <- E5 in Hm. apply Z.eqb_neq in Ez3.
  pose proof (link_spec k0 k4 P us1 tml4 e0 kt Hm Hlm He0 Hkt Hlkt Hdirs Hidx Hl Hfps Ez3 Hb4) as HL.
  eapply wp_mono; [exact HL|]. intros x k' [Hk1 Hx]. split; [by apply Hkept|].
  destruct Hx as [?|(us' & -> & P' & HP & Hok & Hnone & Hd)]; [by left|right].
  exists us'. split; [done|]. exists P'. split_and!; [done|done|done|]. intros i Hi. destruct (Hd i Hi) as (d & D1 & D2). exists d. split; [|done].
  by rewrite <- D1, E1, E5.
Qed.
End Create.
