(* ===== verification/PagingOps.v ===== *)
(** * The page operations as operations on a finite map

    An address space implements a finite map from page numbers to entries: mapping,
    unmapping and protecting a page are updates of the map, translating an address is a
    lookup. *)

From S2P Require Import Prelude Cstring Alloc Paging PagingInv PagingCopy PagingSpace.

Inductive page_op :=
  | OpMap (va phys flags : Z)
  | OpUnmap (va : Z)
  | OpProtect (va flags : Z).

Definition op_va (o : page_op) : Z := match o with OpMap va _ _ => va | OpUnmap va => va | OpProtect va _ => va end.

(** A page of the window. *)
Definition good_page (va : Z) : bool := user_window va && (page_offset va =? 0).

(** What an operation returns and does to the map. *)
Inductive map_step (m : gmap Z Z) : page_op -> Z -> gmap Z Z -> Prop :=
  | step_refused o : good_page (op_va o) = false -> map_step m o (-1) m
  | step_no_memory va phys flags : map_step m (OpMap va phys flags) (-1) m
  | step_map va phys flags : good_page va = true -> map_step m (OpMap va phys flags) 0 (<[page_no va := user_entry phys flags]> m)
  | step_unmap va : good_page va = true -> map_step m (OpUnmap va) 0 (delete (page_no va) m)
  | step_unmap_none va : m !! page_no va = None -> map_step m (OpUnmap va) (-1) m
  | step_protect va flags e : good_page va = true -> m !! page_no va = Some e ->
      map_step m (OpProtect va flags) 0 (<[page_no va := user_entry e flags]> m)
  | step_protect_none va flags : m !! page_no va = None -> map_step m (OpProtect va flags) (-1) m.

Inductive map_steps : gmap Z Z -> list page_op -> list Z -> gmap Z Z -> Prop :=
  | steps_nil m : map_steps m [] [] m
  | steps_cons m m1 m2 o os r rs : map_step m o r m1 -> map_steps m1 os rs m2 -> map_steps m (o :: os) (r :: rs) m2.

Section Ops.
Context {H : Type} `{!Allocator H} `{!PageLaws H}.
Implicit Types (k : kmem H) (us : user_space) (P : gset Z) (m : gmap Z Z).

Definition run_page_op (o : page_op) us : M (kmem H) (Z * user_space) :=
  match o with
  | OpMap va phys flags => let* '(r, s) := paging_map_user_page (Some us) va phys flags in ret (r, default us s)
  | OpUnmap va => let* r := paging_unmap_user_page (Some us) va in ret (r, us)
  | OpProtect va flags => let* r := paging_protect_user_page (Some us) va flags in ret (r, us)
  end.

Fixpoint run_page_ops (os : list page_op) us : M (kmem H) (list Z * user_space) :=
  match os with
  | [] => ret ([], us)
  | o :: os' =>
    let* '(r, us1) := run_page_op o us in
    let* '(rs, us2) := run_page_ops os' us1 in
    ret (r :: rs, us2)
  end.

(** The space implements the map [m]. *)
Definition implements k us m : Prop := exists P, space_ok P k us /\ forall pg, 0 <= pg < 32768 -> entry_of (km_tables k) us pg = m !! pg.

Lemma args_good P k us va : space_ok P k us -> page_args_ok us va = good_page va.
Proof. intros Hok. unfold page_args_ok, good_page. rewrite (proj2 (Z.eqb_neq (us_valid us) 0)) by apply Hok. by destruct (user_window va). Qed.

(** The entry of a page with a table. *)
Lemma entry_present P k us va : space_ok P k us -> user_window va = true -> index_at us (page_no va) <> 0 ->
  exists t e, km_tables k !! index_at us (page_no va) = Some t /\ aget t (user_pt_page va) = Some e /\
    entry_of (km_tables k) us (page_no va) = present e.
Proof.
  intros Hok Hw Hne. pose proof (page_no_range va Hw) as Hp. destruct (slot_of_page va Hw) as [_ ->].
  destruct (table_facts _ _ _ _ Hok Hp Hne) as (_ & t & e & Ht & _ & He). exists t, e. split_and!; [done|done|].
  unfold entry_of. rewrite (proj2 (Z.eqb_neq _ 0)), Ht by done. cbn [mbind option_bind]. rewrite He. done.
Qed.

Lemma no_table P k us va : space_ok P k us -> user_window va = true -> index_at us (page_no va) = 0 ->
  entry_of (km_tables k) us (page_no va) = None.
Proof. intros _ _ E. unfold entry_of. by rewrite E. Qed.

(** Writing an entry and flushing it. *)
Lemma write_entry P k us va e Q : space_ok P k us -> user_window va = true -> index_at us (page_no va) <> 0 ->
  (forall k', space_ok P k' us -> (forall pg, 0 <= pg < 32768 ->
     entry_of (km_tables k') us pg = if decide (pg = page_no va) then present e else entry_of (km_tables k) us pg) -> Q 0 k') ->
  wp (do* put_entry (index_at us (page_no va)) (user_pt_page va) e in do* user_tlb_invalidate va in ret 0) k Q.
Proof.
  intros Hok Hw Hne HQ. pose proof (page_no_range va Hw) as Hp. destruct (slot_of_page va Hw) as [_ ->].
  destruct (table_facts _ _ _ _ Hok Hp Hne) as (_ & t & e' & Ht & _ & _).
  destruct (set_entry P k us (page_no va) t e Hok Hp Hne Ht) as [Hok' He].
  wp_step. eapply wp_put_entry; [exact Ht|]. unfold user_tlb_invalidate. do 3 wp_step. apply HQ; [by apply space_ok_invlpg|done].
Qed.

Lemma run_op_refines k us m o : implements k us m ->
  wp (run_page_op o us) k (fun x k' => exists m', map_step m o (fst x) m' /\ implements k' (snd x) m').
Proof.
  intros (P & Hok & Hm). destruct (good_page (op_va o)) eqn:Hg.
  2: { assert (Hbad : page_args_ok us (op_va o) = false) by (by rewrite (args_good P k)).
       assert (Hd : implements k us m) by (by exists P). destruct o; unfold run_page_op, paging_map_user_page, paging_unmap_user_page, paging_protect_user_page; cbn [op_va] in *;
         rewrite Hbad; cbn [negb]; do 2 wp_step; exists m; (split; [by apply step_refused|done]). }
  pose proof Hg as [Hw _]%andb_true_iff. destruct o as [va phys flags|va|va flags]; cbn [op_va run_page_op] in *.
  - wp_step. eapply wp_mono; [apply (map_entry P k us va phys flags Hok); by rewrite (args_good P k)|].
    intros x k' [(-> & Hok' & Hmem & HT)|(us' & P' & -> & HP & Hok' & _ & _ & He)]; wp_step; cbn [fst snd default].
    + exists m. split; [apply step_no_memory|]. exists P. split; [done|]. intros pg Hpg. by rewrite HT, Hm.
    + eexists. split; [by apply step_map|]. exists P'. split; [done|]. intros pg Hpg. rewrite He by done.
      case_decide as E; [by rewrite E, lookup_insert_eq|]. rewrite lookup_insert_ne by done. by apply Hm.
  - unfold paging_unmap_user_page. rewrite (args_good P k), Hg by done. cbn [negb]. rewrite table_of_page by (done || apply Hok). wp_step.
    destruct (Z.eqb_spec (index_at us (page_no va)) 0) as [E0|Hne].
    + wp_step. wp_step. exists m. split; [|by exists P]. apply step_unmap_none. rewrite <- Hm by (by apply page_no_range). by eapply no_table.
    + apply (write_entry P); [done|done|done|]. intros k' Hok' He. wp_step. eexists. split; [by apply step_unmap|]. exists P. split; [done|].
      intros pg Hpg. rewrite He by done. case_decide as E; [by rewrite E, lookup_delete_eq|]. rewrite lookup_delete_ne by done. by apply Hm.
  - unfold paging_protect_user_page. rewrite (args_good P k), Hg by done. cbn [negb]. rewrite table_of_page by (done || apply Hok). wp_step.
    destruct (Z.eqb_spec (index_at us (page_no va)) 0) as [E0|Hne].
    + wp_step. wp_step. exists m. split; [|by exists P]. apply step_protect_none. rewrite <- Hm by (by apply page_no_range). by eapply no_table.
    + destruct (entry_present P k us va Hok Hw Hne) as (t & e & Ht & He & Hpe). rewrite Hm in Hpe by (by apply page_no_range). unfold present in Hpe.
      wp_step. eapply wp_entry_at; [done|done|]. destruct (user_present e); cbn [negb].
      * apply (write_entry P); [done|done|done|]. intros k' Hok' Hnew. wp_step. eexists. split; [by apply step_protect|]. exists P. split; [done|].
        intros pg Hpg. rewrite Hnew, present_user by done. case_decide as E; [by rewrite E, lookup_insert_eq|]. rewrite lookup_insert_ne by done. by apply Hm.
      * wp_step. wp_step. exists m. split; [by apply step_protect_none|]. by exists P.
Qed.

Lemma run_ops_refine : forall os k us m, implements k us m ->
  wp (run_page_ops os us) k (fun x k' => exists m', map_steps m os (fst x) m' /\ implements k' (snd x) m').
Proof.
  induction os as [|o os IH]; intros k us m Hi; cbn [run_page_ops].
  - wp_step. exists m. split; [constructor|done].
  - wp_step. eapply wp_mono; [by apply run_op_refines|]. intros [r us1] k1 (m1 & Hs & Hi1). cbn [fst snd] in *. wp_step.
    eapply wp_mono; [by apply IH|]. intros [rs us2] k2 (m2 & Hs2 & Hi2). wp_step. exists m2. cbn [fst snd] in *. split; [by eapply steps_cons|done].
Qed.

(** What a translation finds in the map. *)
Definition map_lookup m (va : Z) : option (Z * Z) :=
  if user_window va then e ← m !! page_no va; Some (phys_ptr e + va mod 4096, e) else None.

Lemma implements_lookup k us m va : implements k us m -> paging_user_translate (Some us) va k = Done (map_lookup m va, k).
Proof.
  intros (P & Hok & Hm). destruct (wp_inv _ _ _ (translate_spec P k us va Hok)) as (o & k' & -> & -> & ->). do 2 f_equal.
  unfold xlate, map_lookup. destruct (user_window va) eqn:Hw; [|done]. by rewrite Hm by (by apply page_no_range).
Qed.
End Ops.

(** ** Copies to and from user memory, whole calls *)

Section User.
Context {H : Type} `{!Allocator H} `{!PageLaws H}.
Implicit Types (k : kmem H) (us : user_space) (P : gset Z).

Lemma range_fits T us va n w : 0 < n -> accessible T us va n w -> va mod 4096 + n <= 4096 * Z.of_nat range_fuel.
Proof.
  intros Hn Ha. destruct (accessible_window _ _ _ _ _ Hn Ha) as [H1 H2]. apply window_range in H1, H2. rewrite range_fuel_val.
  unfold ATM_USER_TOP, ATM_USER_BASE, ATM_USER_WINDOW_SIZE in *. pose proof (Z.mod_pos_bound va 4096 ltac:(lia)). lia.
Qed.

Lemma copy_to_user_spec P k us va bs : space_ok P k us -> injective_map k us -> 0 <= va < 2 ^ 64 ->
  wp (copy_to_user (Some us) va (Some bs) (zlen bs)) k (fun r k' =>
    (r = 0 /\ accessible (km_tables k) us va (zlen bs) true /\ mem_only k k' /\ stored k k' us va bs) \/
    (r = -1 /\ ~ accessible (km_tables k) us va (zlen bs) true /\ k' = k)).
Proof.
  intros Hok Hinj Hva. unfold copy_to_user, user_copy. wp_step. destruct (Z.eqb_spec (zlen bs) 0) as [E0|Hne].
  { wp_step. wp_step. left. split_and!; [done|intros i Hi; lia|by exists (km_mem k); destruct k|].
    split; [intros i Hi; lia|done]. }
  wp_step. eapply wp_mono; [apply (range_spec P); [done|done|lia]|]. intros r k' [-> [(-> & Hpos & Ha)|[-> Hno]]].
  - change (0 <? 0) with false. cbn match. eapply wp_mono; [apply (copy_to_spec P us true); [done|done|done|left; by eapply range_fits]|].
    intros x k' (E & Hm & Hs). wp_step. left. by split_and!.
  - change (-1 <? 0) with true. cbn match. do 2 wp_step. right. split_and!; [done| |done]. intros Ha. apply Hno. split; [lia|done].
Qed.

Lemma copy_from_user_spec P k us va n : space_ok P k us -> 0 <= va < 2 ^ 64 -> 0 <= n ->
  wp (copy_from_user (Some us) true va n) k (fun x k' => k' = k /\
    ((fst x = 0 /\ accessible (km_tables k) us va n false /\ zlen (snd x) = n /\ reads k us va (snd x)) \/
     (x = (-1, []) /\ ~ accessible (km_tables k) us va n false))).
Proof.
  intros Hok Hva Hn. unfold copy_from_user, user_copy. destruct (Z.eqb_spec n 0) as [->|Hne].
  { wp_step. split; [done|]. left. split_and!; [done|intros i Hi; lia|done|intros i Hi; simpl in Hi; lia]. }
  wp_step. eapply wp_mono; [by apply (range_spec P)|]. intros r k' [-> [(-> & Hpos & Ha)|[-> Hno]]].
  - change (0 <? 0) with false. cbn match. eapply wp_mono; [apply (copy_from_spec P k us false [] Hok); [lia|done|left; by eapply range_fits]|].
    intros x k' (E & -> & Hl & Hr). split; [done|]. left. by split_and!.
  - change (-1 <? 0) with true. cbn match. wp_step. split; [done|]. right. split; [done|]. intros Ha. apply Hno. split; [lia|done].
Qed.

Lemma reads_unique k us va bs cs : zlen bs = zlen cs -> reads k us va bs -> reads k us va cs -> bs = cs.
Proof.
  intros Hl Hb Hc. apply list_eq. intros i. destruct (decide (i < length bs)%nat).
  - rewrite <- Hb by done. apply Hc. lia.
  - rewrite !lookup_ge_None_2 by lia. done.
Qed.

Lemma accessible_read T us va n : accessible T us va n true -> accessible T us va n false.
Proof. intros Ha i Hi. destruct (Ha i Hi) as (p & e & E & _). by exists p, e. Qed.

(** Storing a buffer and fetching it again. *)
Definition send_back us (va : Z) (bs : list byte) : M (kmem H) (Z * Z * list byte) :=
  let* r := copy_to_user (Some us) va (Some bs) (zlen bs) in
  let* '(r', got) := copy_from_user (Some us) true va (zlen bs) in
  ret (r, r', got).

Lemma send_back_spec P k us va bs : space_ok P k us -> injective_map k us -> 0 <= va < 2 ^ 64 ->
  wp (send_back us va bs) k (fun '(r, r', got) k' => mem_only k k' /\
    if r =? 0 then r' = 0 /\ got = bs else r = -1 /\ k' = k /\ ~ accessible (km_tables k) us va (zlen bs) true).
Proof.
  intros Hok Hinj Hva. unfold send_back. wp_step. eapply wp_mono; [by apply (copy_to_user_spec P)|].
  intros r k' [(-> & Ha & Hm & Hs)|(-> & Hno & ->)]; wp_step.
  - destruct Hm as [m ->]. eapply wp_mono; [apply (copy_from_user_spec P); [by apply space_ok_mem|done|lia]|].
    intros [r' got] k2 [-> [(E & _ & Hl & Hr)|[_ Hn]]]; cbn [fst snd] in *; wp_step; (split; [by exists m|]).
    + change (0 =? 0) with true. cbn match. split; [done|]. eapply reads_unique; [done|exact Hr|]. exact (proj1 Hs).
    + destruct Hn. by apply accessible_read.
  - eapply wp_mono; [apply (copy_from_user_spec P); [done|done|lia]|]. intros [r' got] k2 [-> _]. wp_step.
    split; [by exists (km_mem k); destruct k|]. done.
Qed.

(** ** Strings *)

(** The C string [s] at a user address. *)
Record user_string k us (va : Z) (s : cstr) : Prop := {
  ustr_bytes : reads k us va s;
  ustr_end : user_byte k us (va + zlen s) = Some nul;
  ustr_no_nul : nul ∉ s }.

Lemma user_byte_accessible k us va : accessible (km_tables k) us va 1 false <-> is_Some (user_byte k us va).
Proof.
  unfold user_byte, phys_of. split.
  - intros Ha. destruct (Ha 0 ltac:(lia)) as (p & e & E & _). rewrite Z.add_0_r in E. rewrite E. by eexists.
  - intros [b Hb] i Hi. replace i with 0 by lia. rewrite Z.add_0_r. destruct (xlate (km_tables k) us va) as [[p e]|] eqn:E; [|done]. by exists p, e.
Qed.

Lemma user_byte_window k us va b : user_byte k us va = Some b -> ATM_USER_BASE <= va < ATM_USER_TOP.
Proof.
  unfold user_byte, phys_of, xlate. destruct (user_window va) eqn:E; [|done]. intros _. by apply window_range.
Qed.

Lemma user_string_unique k us va s t : user_string k us va s -> user_string k us va t -> s = t.
Proof.
  assert (Hle : forall a b, user_string k us va a -> user_string k us va b -> zlen a <= zlen b).
  { intros a b [Ha _ Hna] [_ Hb _]. destruct (Z.le_gt_cases (zlen a) (zlen b)); [done|exfalso].
    pose proof (Ha (length b) ltac:(lia)) as E. rewrite Hb in E. apply Hna. by eapply list_elem_of_lookup_2. }
  intros Hs Ht. pose proof (Hle s t Hs Ht). pose proof (Hle t s Ht Hs). eapply reads_unique; [lia|apply Hs|apply Ht].
Qed.

(** The search for the end of the string, after the bytes of [s]. *)
Lemma strnlen_loop_spec P k us va : space_ok P k us -> 0 <= va < 2 ^ 64 -> forall left s,
  reads k us va s -> nul ∉ s ->
  wp (strnlen_loop left (Some us) va (zlen s)) k (fun o k' => k' = k /\
    match o with
    | Some n => exists t, user_string k us va t /\ zlen t = n /\ n < zlen s + Z.of_nat left
    | None => forall t, user_string k us va t -> zlen s + Z.of_nat left <= zlen t
    end).
Proof.
  intros Hok Hva left. induction left as [|left IH]; intros s Hr Hn; cbn [strnlen_loop].
  { wp_step. split; [done|]. intros t Ht. destruct (Z.le_gt_cases (zlen s + Z.of_nat 0) (zlen t)); [done|exfalso].
    apply Hn. eapply (list_elem_of_lookup_2 _ (length t)). rewrite <- Hr by lia. apply Ht. }
  assert (Hlt : 0 <= va + zlen s < 2 ^ 64).
  { destruct s as [|c s']; [simpl; lia|]. pose proof (Hr 0%nat ltac:(simpl; lia)) as E0. simpl in E0. apply user_byte_window in E0.
    pose proof (Hr (length s')%nat ltac:(simpl; lia)) as E1. destruct ((c :: s') !! length s') as [b|] eqn:E; [|apply lookup_ge_None_1 in E; simpl in E; lia].
    apply user_byte_window in E1. unfold ATM_USER_TOP, ATM_USER_BASE, ATM_USER_WINDOW_SIZE in *. simpl. lia. }
  rewrite u64_small by done. wp_step. eapply wp_mono; [apply (copy_from_user_spec P); [done|done|lia]|].
  intros [r c] k' [-> [(E & Ha & Hl & Hc)|[[= -> ->] Hno]]]; cbn [fst snd] in *.
  - subst r. change (0 <? 0) with false. cbn match. destruct c as [|b [|]]; simpl in Hl; try lia.
    pose proof (Hc 0%nat ltac:(simpl; lia)) as Eb. rewrite Z.add_0_r in Eb. simpl in Eb. case_bool_decide as Ez.
    + injection Ez as ->. wp_step. split; [done|]. exists s. split_and!; [by split|done|lia].
    + replace (zlen s + 1) with (zlen (s ++ [b])) by (rewrite length_app; simpl; lia). eapply wp_mono; [apply IH|].
      * apply reads_app; [done|]. intros i Hi. simpl in Hi. replace i with 0%nat by lia. by rewrite Z.add_0_r.
      * rewrite elem_of_app, elem_of_cons, elem_of_nil. intros [?|[E|[]]]; [done|]. by subst b.
      * intros o k' [-> Ho]. split; [done|]. rewrite length_app in Ho. cbn [length] in Ho. destruct o as [n|].
        -- destruct Ho as (t & ? & ? & ?). exists t. split_and!; [done|done|lia].
        -- intros t Ht. specialize (Ho t Ht). lia.
  - change (-1 <? 0) with true. cbn match. wp_step. split; [done|]. intros t Ht. exfalso. apply Hno. apply user_byte_accessible.
    destruct Ht as [Ht He Hnt]. destruct (Z.lt_trichotomy (zlen t) (zlen s)) as [Hs|[Hs|Hs]].
    + destruct Hn. eapply (list_elem_of_lookup_2 _ (length t)). by rewrite <- Hr by lia.
    + rewrite <- Hs, He. by eexists.
    + rewrite Ht by lia. apply lookup_lt_is_Some. lia.
Qed.

Lemma copy_string_spec P k us va sz : space_ok P k us -> 0 <= va < 2 ^ 64 -> 0 <= sz ->
  wp (copy_string_from_user (Some us) true sz va) k (fun x k' => k' = k /\
    ((fst x = 0 /\ exists s, user_string k us va s /\ zlen s + 2 <= sz /\ snd x = s ++ [nul]) \/
     (x = (-1, []) /\ forall s, user_string k us va s -> sz < zlen s + 2))).
Proof.
  intros Hok Hva Hsz. unfold copy_string_from_user. cbn [negb orb]. destruct (Z.ltb_spec sz 2) as [Hlt|Hge].
  { wp_step. split; [done|]. right. split; [done|]. intros s _. lia. }
  unfold strnlen_user. destruct (Z.eqb_spec va 0) as [->|Hv]; cbn [orb].
  { do 2 wp_step. wp_step. split; [done|]. right. split; [done|]. intros s Hs. exfalso. destruct s as [|c s'].
    - pose proof (ustr_end _ _ _ _ Hs) as E. apply user_byte_window in E. simpl in E. unfold ATM_USER_BASE in E. lia.
    - pose proof (ustr_bytes _ _ _ _ Hs 0%nat ltac:(simpl; lia)) as E. simpl in E. apply user_byte_window in E. unfold ATM_USER_BASE in E. lia. }
  rewrite (proj2 (Z.eqb_neq (sz - 1) 0)) by lia. wp_step.
  eapply wp_mono; [apply (strnlen_loop_spec P k us va Hok Hva (Z.to_nat (sz - 1)) []); [intros i Hi; simpl in Hi; lia|set_solver]|].
  intros [n|] k' [-> Ho]; cbn [length] in Ho.
  - destruct Ho as (t & Ht & <- & Hn). wp_step. eapply wp_mono; [apply (copy_from_user_spec P); [done|done|lia]|].
    intros [r bs] k' [-> [(E & _ & Hl & Hr)|[_ Hno]]]; cbn [fst snd] in *.
    + subst r. change (0 <? 0) with false. cbn match. wp_step. split; [done|]. left. split; [done|]. exists t. split_and!; [done|lia|].
      eapply reads_unique; [rewrite length_app; simpl; lia|exact Hr|]. apply reads_app; [apply Ht|]. intros i Hi. simpl in Hi.
      replace i with 0%nat by lia. rewrite Z.add_0_r. apply Ht.
    + exfalso. apply Hno. intros i Hi. destruct Ht as [Ht He _]. destruct (proj2 (user_byte_accessible k us (va + i))) with (i := 0) as (p & e & E & ?); [|lia|].
      * destruct (decide (i = zlen t)) as [->|]; [by rewrite He|]. replace i with (Z.of_nat (Z.to_nat i)) by lia. rewrite Ht by lia. apply lookup_lt_is_Some. lia.
      * rewrite Z.add_0_r in E. by exists p, e.
  - wp_step. split; [done|]. right. split; [done|]. intros s Hs. specialize (Ho s Hs). lia.
Qed.
End User.
