(* ===== verification/PagingProps.v ===== *)
(** * Properties of address spaces and user copies *)

From S2P Require Import Prelude Cstring Kmalloc KmallocInv Alloc HeapAlloc Paging PagingInv PagingCopy.
From S2P Require Import PagingHeap PagingSpace PagingOps.

(** ** A machine to evaluate on *)

(** The kernel's tables lie below the heap: one table of pointers, four directories. *)
Definition demo_dir (n : Z) : list Z := [0x83; 0x200083; n] ++ replicate 509 0.
Definition demo_tables : gmap Z (list Z) :=
  list_to_map [(0x1000, [0x2003] ++ replicate 511 0);
               (0x2000, [0x3003; 0x4003; 0x5003; 0x6003] ++ replicate 508 0);
               (0x3000, demo_dir 3); (0x4000, demo_dir 4); (0x5000, demo_dir 5); (0x6000, demo_dir 6)].
Definition demo_used : gset Z := list_to_set [0x1000; 0x2000; 0x3000; 0x4000; 0x5000; 0x6000].
Definition demo_machine : kmem heap := mk_kmem boot_heap demo_tables ∅ 0 0x1000 [].

Definition run_state {S A} (d : A) (m : M S A) (s : S) : A * S := match m s with Done x => x | Fault => (d, s) end.

Definition demo_create := run_state (0, us_zero) (paging_create_user_space false) demo_machine.
Definition demo_us0 : user_space := snd (fst demo_create).
Definition demo_k0 : kmem heap := snd demo_create.

(** Two pages, the second read-only. *)
Definition demo_ops : list page_op := [OpMap ATM_USER_BASE 0x300000 ATM_PTE_W; OpMap (ATM_USER_BASE + 0x1000) 0x301000 0].
Definition demo_map := run_state ([], us_zero) (run_page_ops demo_ops demo_us0) demo_k0.
Definition demo_us : user_space := snd (fst demo_map).
Definition demo_k : kmem heap := snd demo_map.
Definition demo_pages : gmap Z Z := <[1 := user_entry 0x301000 0]> {[0 := user_entry 0x300000 ATM_PTE_W]}.

Lemma demo_live : pages_live (km_heap demo_machine) demo_used.
Proof.
  apply boot_pages. intros x Hx. left. change (heap_start boot_heap) with 0x100000. unfold demo_used in Hx.
  set_unfold in Hx. lia.
Qed.

Lemma demo_kernel : kernel_ok demo_used demo_machine.
Proof.
  eexists _, 0x2003. split; [by vm_compute|]. split; [done|]. split; [by vm_compute|]. split; [done|]. intros _ _. split; [by vm_compute|].
  eexists. split; [by vm_compute|]. split; [done|]. intros i Hi. assert (i = 0 \/ i = 1 \/ i = 2 \/ i = 3) as [->|[->|[->| -> ]]] by lia;
    (eexists; split; [by vm_compute|]; intros _; split; [by vm_compute|]; eexists; split; [by vm_compute|done]).
Qed.

(** [Done] as a test, so that a run can be evaluated without its result being written out. *)
Definition ends_with {S A} (m : M S A) (s : S) (p : A -> bool) : bool := match m s with Done (a, _) => p a | Fault => false end.

Lemma run_state_wp {S A} (d : A) (m : M S A) (s : S) p Q : ends_with m s p = true -> wp m s Q ->
  exists a s', run_state d m s = (a, s') /\ Q a s' /\ p a = true.
Proof. unfold ends_with, run_state, wp. destruct (m s) as [[a s']|]; [|done]. by exists a, s'. Qed.

Lemma demo_created : ends_with (paging_create_user_space false) demo_machine (fun x => fst x =? 0) = true.
Proof. by vm_compute. Qed.

Lemma demo_space : implements demo_k0 demo_us0 ∅.
Proof.
  destruct (run_state_wp (0, us_zero) _ _ _ _ demo_created (create_spec demo_machine demo_used demo_live demo_kernel)) as ([r us] & k & E & Hx & Er).
  unfold demo_us0, demo_k0, demo_create. rewrite E. cbn [fst snd] in *.
  destruct Hx as [_ [[Hx _]|(us' & Hx & P' & _ & Hok & Hnone & _)]]; [by injection Hx as -> _|]. injection Hx as _ ->.
  exists P'. split; [exact Hok|]. intros pg Hpg. rewrite lookup_empty. by apply Hnone.
Qed.

Lemma demo_ran : ends_with (run_page_ops demo_ops demo_us0) demo_k0 (fun x => bool_decide (fst x = [0; 0])) = true.
Proof. by vm_compute. Qed.

Lemma demo_mapped : implements demo_k demo_us demo_pages.
Proof.
  destruct (run_state_wp ([], us_zero) _ _ _ _ demo_ran (run_ops_refine demo_ops demo_k0 demo_us0 ∅ demo_space)) as ([rs us] & k & E & (m & Hs & Hi) & Er).
  unfold demo_us, demo_k, demo_map. rewrite E. cbn [fst snd] in *. clear E.
  apply bool_decide_eq_true in Er as ->. replace demo_pages with m; [done|]. clear Hi. unfold demo_ops in Hs.
  inversion_clear Hs as [|? m1 ? ? ? ? ? H1 Hs2]. inversion_clear Hs2 as [|? m2 ? ? ? ? ? H2 Hs3]. inversion Hs3; subst.
  inversion H1; subst. inversion H2; subst. by vm_compute.
Qed.

Lemma demo_space_ok : exists P, space_ok P demo_k demo_us.
Proof. destruct demo_mapped as (P & Hok & _). by exists P. Qed.

(** The two pages are in different frames. *)
Lemma demo_injective : injective_map demo_k demo_us.
Proof.
  destruct demo_mapped as (P & Hok & Hm). assert (Hx : forall va p, phys_of demo_k demo_us va = Some p ->
    (0x300000 <= p < 0x301000 /\ va = ATM_USER_BASE + (p - 0x300000)) \/ (0x301000 <= p < 0x302000 /\ va = ATM_USER_BASE + 0x1000 + (p - 0x301000))).
  { intros va p. unfold phys_of, xlate. destruct (user_window va) eqn:Hw; [|done]. rewrite Hm by (by apply page_no_range).
    unfold demo_pages. apply window_range in Hw. pose proof (Z.mod_pos_bound va 4096 ltac:(lia)).
    assert (Hva : va = ATM_USER_BASE + page_no va * 4096 + va mod 4096).
    { unfold page_no. pose proof (Z.div_mod (va - ATM_USER_BASE) 4096 ltac:(lia)) as E. rewrite Zminus_mod in E.
      change (ATM_USER_BASE mod 4096) with 0 in E. rewrite Z.sub_0_r, Z.mod_mod in E by lia. lia. }
    destruct (decide (page_no va = 1)) as [E1|N1]; [rewrite E1 in *|].
    - rewrite lookup_insert_eq. cbn [mbind option_bind fmap option_fmap option_map fst]. rewrite user_entry_phys. intros [= <-].
      change (phys_ptr 0x301000) with 0x301000. right. lia.
    - rewrite lookup_insert_ne by done. destruct (decide (page_no va = 0)) as [E0|N0]; [rewrite E0 in *|].
      + rewrite lookup_singleton_eq. cbn [mbind option_bind fmap option_fmap option_map fst]. rewrite user_entry_phys. intros [= <-].
        change (phys_ptr 0x300000) with 0x300000. left. lia.
      + by rewrite lookup_singleton_ne. }
  intros va va' p [[? ->]|[? ->]]%Hx [[? ->]|[? ->]]%Hx; lia.
Qed.

(** ** Claims *)



(** C5: The page operations implement a finite map from page numbers to entries: over any
    sequence of map, unmap and protect calls, each returns what the operation on the map
    returns and leaves the space implementing the resulting map (mapping may also report
    that there is no memory for a page table, and change nothing); and a translation is a
    lookup in it. *)
Theorem page_ops_refine_map (k : kmem heap) us m ops : implements k us m ->
  wp (run_page_ops ops us) k (fun x k' => exists m', map_steps m ops (fst x) m' /\ implements k' (snd x) m' /\
    forall va, paging_user_translate (Some (snd x)) va k' = Done (map_lookup m' va, k')).
Proof.
  intros Hi. eapply wp_mono; [by apply (run_ops_refine ops k us m)|]. intros x k' (m' & Hs & Hi'). exists m'. split_and!; [done|done|].
  intros va. by apply implements_lookup.
Qed.

Lemma page_ops_refine_map_witness :
  wp (run_page_ops (demo_ops ++ [OpProtect ATM_USER_BASE 0; OpUnmap (ATM_USER_BASE + 0x1000)]) demo_us0) demo_k0 (fun x k' =>
    exists m', map_steps ∅ (demo_ops ++ [OpProtect ATM_USER_BASE 0; OpUnmap (ATM_USER_BASE + 0x1000)]) (fst x) m').
Proof.
  eapply wp_mono; [apply (page_ops_refine_map demo_k0 demo_us0 ∅ _ demo_space)|]. intros x k' (m' & Hs & _). by exists m'.
Defined.

(** The range check is exact: [paging_user_range] accepts a range exactly when it is
    not empty and every byte of it is mapped for the user, and writable when the access
    writes; it changes nothing. *)
Theorem range_check_exact (k : kmem heap) us P va n w : space_ok P k us -> 0 <= va < 2 ^ 64 -> 0 <= n ->
  wp (paging_user_range (Some us) va n w) k (fun r k' => k' = k /\ (r = 0 \/ r = -1) /\
    (r = 0 <-> 0 < n /\ forall i, 0 <= i < n -> exists p e, paging_user_translate (Some us) (va + i) k = Done (Some (p, e), k) /\
       (w = true -> pte_has e ATM_PTE_W = true))).
Proof.
  intros Hok Hva Hn. assert (Ht : forall q, paging_user_translate (Some us) q k = Done (xlate (km_tables k) us q, k)).
  { intros q. by destruct (wp_inv _ _ _ (translate_spec P k us q Hok)) as (o & k2 & -> & -> & ->). }
  assert (Hacc : accessible (km_tables k) us va n w <-> forall i, 0 <= i < n -> exists p e,
    paging_user_translate (Some us) (va + i) k = Done (Some (p, e), k) /\ (w = true -> pte_has e ATM_PTE_W = true)).
  { split; intros Ha i Hi; destruct (Ha i Hi) as (p & e & E & Hw); exists p, e; (split; [|done]); rewrite Ht in *; congruence. }
  eapply wp_mono; [by apply (range_spec P)|]. intros r k' [-> Hr]. rewrite <- Hacc. destruct Hr as [(-> & Hp & Ha)|[-> Hno]].
  - split_and!; [done|by left|]. by split.
  - split_and!; [done|by right|]. split; [done|]. intros Ha. by destruct Hno.
Qed.

Lemma range_check_exact_witness :
  wp (paging_user_range (Some demo_us) ATM_USER_BASE 0x1001 true) demo_k (fun r k' => k' = demo_k).
Proof.
  destruct demo_space_ok as [P Hok]. eapply wp_mono; [apply (range_check_exact demo_k demo_us P); [exact Hok|unfold ATM_USER_BASE; lia|lia]|].
  intros r k' [-> _]. reflexivity.
Defined.

(** C15: [copy_to_user] writes exactly the range: it succeeds when every byte of the range is
    mapped and writable for the user, the program then sees the copied bytes there and no
    other byte of physical memory has changed; otherwise it changes nothing at all. *)
Theorem copy_to_user_exact (k : kmem heap) us P va bs : space_ok P k us -> injective_map k us -> 0 <= va < 2 ^ 64 ->
  wp (copy_to_user (Some us) va (Some bs) (zlen bs)) k (fun r k' =>
    (r = 0 /\ accessible (km_tables k) us va (zlen bs) true /\ mem_only k k' /\
     (forall i : nat, (i < length bs)%nat -> user_byte k' us (va + Z.of_nat i) = bs !! i) /\
     (forall p, (forall i, 0 <= i < zlen bs -> phys_of k us (va + i) <> Some p) -> mem_byte (km_mem k') p = mem_byte (km_mem k) p)) \/
    (r = -1 /\ ~ accessible (km_tables k) us va (zlen bs) true /\ k' = k)).
Proof.
  intros Hok Hinj Hva. eapply wp_mono; [by apply (copy_to_user_spec P)|].
  intros r k' [(-> & Ha & Hm & Hs & Ho)|?]; [left|by right]. by split_and!.
Qed.

Lemma copy_to_user_exact_witness :
  wp (copy_to_user (Some demo_us) (ATM_USER_BASE + 37) (Some (cs "uaccess-ok")) 10) demo_k (fun r k' => r = 0 \/ k' = demo_k).
Proof.
  destruct demo_space_ok as [P Hok].
  eapply wp_mono; [apply (copy_to_user_exact demo_k demo_us P _ (cs "uaccess-ok")); [exact Hok|exact demo_injective|unfold ATM_USER_BASE; lia]|].
  intros r k' [(-> & _)|(_ & _ & ->)]; [by left|by right].
Defined.

(** What the kernel copies to a user program it reads back: after a successful
    [copy_to_user], [copy_from_user] of the same range succeeds and returns the bytes. *)
Theorem user_copy_roundtrip (k : kmem heap) us P va bs : space_ok P k us -> injective_map k us -> 0 <= va < 2 ^ 64 ->
  wp (send_back us va bs) k (fun '(r, r', got) k' => mem_only k k' /\
    if r =? 0 then r' = 0 /\ got = bs else r = -1 /\ k' = k /\ ~ accessible (km_tables k) us va (zlen bs) true).
Proof. apply send_back_spec. Qed.

Lemma user_copy_roundtrip_witness :
  wp (send_back demo_us (ATM_USER_BASE + 0xff9) (cs "across a page")) demo_k (fun '(r, _, _) k' => r <> 0 -> k' = demo_k).
Proof.
  destruct demo_space_ok as [P Hok].
  eapply wp_mono; [apply (user_copy_roundtrip demo_k demo_us P); [exact Hok|exact demo_injective|unfold ATM_USER_BASE; lia]|].
  intros [[r r'] got] k' [_ Hr] Hne. rewrite (proj2 (Z.eqb_neq r 0)) in Hr by done. apply Hr.
Defined.


