(* ===== verification/Elf.v ===== *)
(** * Program images (src/src/elf.c, src/src/elf.h)

    The loaders read a file that is in memory as a list of bytes, whose length is the
    [size] argument; a read outside it is a [Fault].  The ELF32 loader copies to absolute
    addresses, which are physical addresses here; the ELF64 loader maps pages of a user
    address space. *)

From S2P Require Import Prelude Cstring Alloc Paging.

Definition EM_386 : Z := 3.
Definition EM_X86_64 : Z := 62.
Definition ET_EXEC : Z := 2.
Definition PT_LOAD : Z := 1.
Definition PF_X : Z := 1.
Definition PF_W : Z := 2.

(** ** Little-endian fields *)

Fixpoint le (bs : list byte) : Z := match bs with [] => 0 | b :: bs' => bz b + 256 * le bs' end.

Definition le_at (buf : list byte) (off : Z) (n : nat) : option Z :=
  if (off <? 0) || (zlen buf <? off + Z.of_nat n) then None else Some (le (take n (drop (Z.to_nat off) buf))).

(** [h->field] for a field of [n] bytes at [off]. *)
Definition field {S} (buf : list byte) (off : Z) (n : nat) : M S Z := deref (fun _ => le_at buf off n).

Definition sizeof_Ehdr32 : Z := 52.
Definition sizeof_Phdr32 : Z := 32.
Definition sizeof_Ehdr64 : Z := 64.
Definition sizeof_Phdr64 : Z := 56.

(** The first bytes of the identification. *)
Definition ident_is (buf : list byte) (want : list Z) : bool := bool_decide (take (length want) buf = zb <$> want).

Definition u16_at (buf : list byte) (off : Z) : Z := default 0 (le_at buf off 2).

(** ** ELF32 *)

Definition elf_validate (buf : list byte) : bool :=
  if zlen buf <? sizeof_Ehdr32 then false
  else ident_is buf [0x7F; 0x45; 0x4C; 0x46; 1; 1] && (u16_at buf 18 =? EM_386).

Record elf_result := mk_elf_result { er_valid : Z; er_entry : Z; er_base : Z; er_end : Z; er_error : cstr }.

#[export] Instance eta_elf_result : Eta elf_result := fun r =>
  mk_elf_result (er_valid r) (er_entry r) (er_base r) (er_end r) (er_error r).

Record phdr := mk_phdr { p_type : Z; p_flags : Z; p_offset : Z; p_vaddr : Z; p_filesz : Z; p_memsz : Z }.

Definition phdr32_at {S} (buf : list byte) (o : Z) : M S phdr :=
  let* t := field buf o 4 in
  let* off := field buf (o + 4) 4 in
  let* va := field buf (o + 8) 4 in
  let* fs := field buf (o + 16) 4 in
  let* ms := field buf (o + 20) 4 in
  let* fl := field buf (o + 24) 4 in
  ret (mk_phdr t fl off va fs ms).

Section Elf.
Context {H : Type} `{!Allocator H}.
Abbreviation K := (M (kmem H)).

Definition poke_bytes (a : Z) (bs : list byte) : K unit :=
  modify (fun k => k <| km_mem := mem_write (km_mem k) a bs |>).

(** [buf[off .. off+n)] *)
Definition bytes_at (buf : list byte) (off n : Z) : K (list byte) :=
  do* guard ((n =? 0) || (off + n <=? zlen buf)) in ret (take (Z.to_nat n) (drop (Z.to_nat off) buf)).

(** One PT_LOAD segment of an ELF32 file; [None] when its address is too low. *)
Definition load32 (buf : list byte) (ph : phdr) (res : elf_result) : K (option elf_result) :=
  if p_vaddr ph <? 0x100000 then ret None
  else
    let size := zlen buf in
    let rest := u32 (size - p_offset ph) in
    let filesz := if rest <? p_filesz ph then rest else p_filesz ph in
    let* data := bytes_at buf (p_offset ph) filesz in
    do* poke_bytes (p_vaddr ph) data in
    do* poke_bytes (p_vaddr ph + filesz) (replicate (Z.to_nat (p_memsz ph - filesz)) nul) in
    let e := u32 (p_vaddr ph + p_memsz ph) in
    ret (Some (res <| er_base := if p_vaddr ph <? er_base res then p_vaddr ph else er_base res |>
                   <| er_end := if er_end res <? e then e else er_end res |>)).

Fixpoint load32_loop (n : nat) (buf : list byte) (phoff phentsize i : Z) (res : elf_result) : K (bool * elf_result) :=
  match n with
  | O => ret (true, res)
  | S n' =>
    let ph_off := u32 (phoff + u32 (i * phentsize)) in
    if zlen buf <? ph_off + sizeof_Phdr32 then ret (true, res)
    else
      let* ph := phdr32_at buf ph_off in
      if negb (p_type ph =? PT_LOAD) || (p_memsz ph =? 0) then load32_loop n' buf phoff phentsize (i + 1) res
      else
        let* o := load32 buf ph res in
        match o with
        | None => ret (false, res <| er_error := cs "ELF vaddr too low (<1MB)" |>)
        | Some res' => load32_loop n' buf phoff phentsize (i + 1) res'
        end
  end.

Definition elf_result0 : elf_result := mk_elf_result 0 0 0 0 [].

Definition elf_load (buf : list byte) : K elf_result :=
  if negb (elf_validate buf) then ret (elf_result0 <| er_error := cs "Not a valid ELF32 x86 binary" |>)
  else
    let* ty := field buf 16 2 in
    if negb (ty =? ET_EXEC) then ret (elf_result0 <| er_error := cs "Only ET_EXEC supported" |>)
    else
      let* phnum := field buf 44 2 in
      if phnum =? 0 then ret (elf_result0 <| er_error := cs "No program headers" |>)
      else
        let* phoff := field buf 28 4 in
        let* phentsize := field buf 42 2 in
        let* entry := field buf 24 4 in
        let* '(ok, res) := load32_loop (Z.to_nat phnum) buf phoff phentsize 0 (elf_result0 <| er_base := 0xFFFFFFFF |>) in
        ret (if ok then res <| er_entry := entry |> <| er_valid := 1 |> else res).

(** ** ELF64 *)

Definition elf64_validate_native (buf : option (list byte)) : bool :=
  match buf with
  | None => false
  | Some b =>
    if zlen b <? sizeof_Ehdr64 then false
    else ident_is b [0x7F; 0x45; 0x4C; 0x46; 2; 1; 1] && (u16_at b 18 =? EM_X86_64) && (u16_at b 16 =? ET_EXEC)
         && (u16_at b 52 =? sizeof_Ehdr64) && (u16_at b 54 =? sizeof_Phdr64) && (0 <? u16_at b 56)
  end.

Definition phdr64_at (buf : list byte) (o : Z) : K phdr :=
  let* t := field buf o 4 in
  let* fl := field buf (o + 4) 4 in
  let* off := field buf (o + 8) 8 in
  let* va := field buf (o + 16) 8 in
  let* fs := field buf (o + 32) 8 in
  let* ms := field buf (o + 40) 8 in
  ret (mk_phdr t fl off va fs ms).

(** The policy bits of a page for the flags of its segment. *)
Definition segment_flags (pf : Z) : Z :=
  Z.lor (if truth (Z.land pf PF_W) then ATM_PTE_W else 0) (if truth (Z.land pf PF_X) then 0 else ATM_PTE_NX).

Definition elf64_map_page (us : user_space) (va pf : Z) : K (Z * user_space) :=
  let* t := paging_user_translate (Some us) va in
  match t with
  | Some _ => ret (0, us)
  | None =>
    let* page := on_heap (kmalloc_aligned ATM_PAGE_SIZE ATM_PAGE_SIZE) in
    if page =? 0 then ret (-1, us)
    else
      let* '(r, s') := paging_map_user_page (Some us) va page (segment_flags pf) in
      ret (r, default us s')
  end.

(** Storing bytes at a user address, page by page, whatever the policy of the pages. *)
Fixpoint store_mapped (fuel : nat) (us : user_space) (va : Z) (bs : list byte) : K Z :=
  match bs with
  | [] => ret 0
  | _ =>
    match fuel with
    | O => fault
    | S fuel' =>
      let* t := paging_user_translate (Some us) va in
      match t with
      | None => ret (-1)
      | Some (phys, _) =>
        let room := ATM_PAGE_SIZE - page_offset va in
        let n := if zlen bs <? room then zlen bs else room in
        do* poke_bytes phys (take (Z.to_nat n) bs) in
        store_mapped fuel' us (u64 (va + n)) (drop (Z.to_nat n) bs)
      end
    end
  end.

Definition elf64_copy_to_mapped (us : user_space) (va : Z) (src : list byte) : K Z := store_mapped range_fuel us va src.
Definition elf64_zero_mapped (us : user_space) (va n : Z) : K Z :=
  store_mapped range_fuel us va (replicate (Z.to_nat n) nul).

(** [for(;;)] over the pages of a segment. *)
Fixpoint map_loop (fuel : nat) (us : user_space) (page last pf : Z) : K (bool * user_space) :=
  match fuel with
  | O => fault
  | S fuel' =>
    let* '(r, us') := elf64_map_page us page pf in
    if r <? 0 then ret (false, us')
    else if page =? last then ret (true, us')
    else map_loop fuel' us' (u64 (page + ATM_PAGE_SIZE)) last pf
  end.

(** The file holds the segment and the window has room for it. *)
Definition segment_in_file (buf : list byte) (p : phdr) : bool :=
  (p_filesz p <=? p_memsz p) && (p_offset p <=? zlen buf) && (p_filesz p <=? zlen buf - p_offset p).
Definition segment_in_window (p : phdr) : bool :=
  let seg_end := u64 (p_vaddr p + p_memsz p) in
  (p_vaddr p <=? seg_end) && (ATM_USER_BASE <=? p_vaddr p) && (seg_end <=? ATM_USER_STACK_TOP).

(** One segment: an error message, or success. *)
Definition load64 (buf : list byte) (us : user_space) (p : phdr) : K (option cstr * user_space) :=
  if negb (segment_in_file buf p) then ret (Some (cs "malformed load segment"), us)
  else if negb (segment_in_window p) then ret (Some (cs "segment outside user window"), us)
  else
    let seg_end := u64 (p_vaddr p + p_memsz p) in
    let* '(ok, us1) := map_loop range_fuel us (Z.land (p_vaddr p) ATM_PAGE_MASK) (Z.land (seg_end - 1) ATM_PAGE_MASK) (p_flags p) in
    if negb ok then ret (Some (cs "out of user pages"), us1)
    else
      let* data := bytes_at buf (p_offset p) (p_filesz p) in
      let* r := elf64_copy_to_mapped us1 (p_vaddr p) data in
      if r <? 0 then ret (Some (cs "segment copy failed"), us1)
      else
        let* z := elf64_zero_mapped us1 (u64 (p_vaddr p + p_filesz p)) (p_memsz p - p_filesz p) in
        if z <? 0 then ret (Some (cs "segment copy failed"), us1) else ret (None, us1).

Record image := mk_image { im_valid : Z; im_entry : Z; im_base : Z; im_end : Z; im_stack_top : Z; im_error : cstr }.
Definition image0 : image := mk_image 0 0 0 0 0 [].
Definition image_error (e : cstr) : image := mk_image 0 0 0 0 0 e.

Definition loadable (p : phdr) : bool := (p_type p =? PT_LOAD) && negb (p_memsz p =? 0).

(** The loop over the program headers; base, end and number of the segments loaded. *)
Fixpoint load64_loop (n : nat) (buf : list byte) (phoff i : Z) (us : user_space) (base e loads : Z)
    : K (option cstr * user_space * (Z * Z * Z)) :=
  match n with
  | O => ret (None, us, (base, e, loads))
  | S n' =>
    let* p := phdr64_at buf (phoff + i * sizeof_Phdr64) in
    if negb (loadable p) then load64_loop n' buf phoff (i + 1) us base e loads
    else
      let* '(err, us1) := load64 buf us p in
      match err with
      | Some m => ret (Some m, us1, (base, e, loads))
      | None =>
        let seg_end := u64 (p_vaddr p + p_memsz p) in
        load64_loop n' buf phoff (i + 1) us1 (if p_vaddr p <? base then p_vaddr p else base)
          (if e <? seg_end then seg_end else e) (loads + 1)
      end
  end.

Definition elf64_load_user (buf : option (list byte)) (s : option user_space) (out_null : bool) : K (Z * option user_space * image) :=
  if out_null then ret (-1, s, image0)
  else match s, buf with
  | Some us, Some b =>
    if (us_valid us =? 0) || negb (elf64_validate_native buf) then ret (-1, s, image_error (cs "invalid native ELF64"))
    else
      let* phoff := field b 32 8 in
      let* phnum := field b 56 2 in
      if (zlen b <? phoff) || (zlen b - phoff <? phnum * sizeof_Phdr64)
      then ret (-1, s, image_error (cs "program headers outside file"))
      else
        let* '(err, us1, (base, e, loads)) := load64_loop (Z.to_nat phnum) b phoff 0 us 0xFFFFFFFFFFFFFFFF 0 0 in
        match err with
        | Some m => ret (-1, Some us1, image_error m)
        | None =>
          let* entry := field b 24 8 in
          if (loads =? 0) || (entry <? ATM_USER_BASE) || (ATM_USER_STACK_TOP <=? entry)
          then ret (-1, Some us1, image_error (cs "invalid user entry"))
          else
            let* '(r, us2) := elf64_map_page us1 ATM_USER_STACK_TOP PF_W in
            if r <? 0 then ret (-1, Some us2, image_error (cs "stack map failed"))
            else ret (0, Some us2, mk_image 1 entry base e (ATM_USER_STACK_TOP + ATM_PAGE_SIZE) [])
        end
  | _, _ => ret (-1, s, image_error (cs "invalid native ELF64"))
  end.
End Elf.
