(* ===== verification/ElfProps.v ===== *)
(** * Loading a program image into an address space *)

From S2P Require Import Prelude Cstring Kmalloc KmallocInv Alloc HeapAlloc Paging PagingInv PagingCopy PagingHeap PagingSpace PagingOps PagingProps Elf.

(** ** Fields of the file *)

Lemma le_range bs : 0 <= le bs < 2 ^ (8 * zlen bs).
Proof.
  induction bs as [|b bs IH]; [simpl; lia|]. pose proof (bz_range b). cbn [le length].
  replace (8 * Z.of_nat (S (length bs))) with (8 + 8 * zlen bs) by lia. rewrite Z.pow_add_r by lia. change (2 ^ 8) with 256. lia.
Qed.

Definition get (buf : list byte) (off : Z) (n : nat) : Z := default 0 (le_at buf off n).

Lemma get_range buf off n : 0 <= get buf off n < 2 ^ (8 * Z.of_nat n).
Proof.
  unfold get, le_at. assert (0 < 2 ^ (8 * Z.of_nat n)) by (apply Z.pow_pos_nonneg; lia). destruct (_ || _); simpl; [lia|].
  pose proof (le_range (take n (drop (Z.to_nat off) buf))) as Hr. split; [lia|]. eapply Z.lt_le_trans; [apply Hr|].
  apply Z.pow_le_mono_r; [lia|]. rewrite length_take. lia.
Qed.

Lemma field_spec {S} buf off n (s : S) Q : 0 <= off -> off + Z.of_nat n <= zlen buf -> Q (get buf off n) s -> wp (field buf off n) s Q.
Proof.
  intros Ho Hn HQ. unfold field. eapply wp_deref; [|exact HQ]. unfold get, le_at.
  rewrite (proj2 (Z.ltb_ge off 0)), (proj2 (Z.ltb_ge (zlen buf) _)) by lia. done.
Qed.

(** The program header at an offset. *)
Definition phdr64_of (buf : list byte) (o : Z) : phdr :=
  mk_phdr (get buf o 4) (get buf (o + 4) 4) (get buf (o + 8) 8) (get buf (o + 16) 8) (get buf (o + 32) 8) (get buf (o + 40) 8).

Record phdr_typed (p : phdr) : Prop := {
  pt_off : 0 <= p_offset p < 2 ^ 64;
  pt_vaddr : 0 <= p_vaddr p < 2 ^ 64;
  pt_filesz : 0 <= p_filesz p < 2 ^ 64;
  pt_memsz : 0 <= p_memsz p < 2 ^ 64 }.

Lemma phdr64_typed buf o : phdr_typed (phdr64_of buf o).
Proof. split; simpl; apply (get_range buf _ 8). Qed.

(** The segments to load, in the order of the file. *)
Definition segments (buf : list byte) (phoff : Z) (i : Z) (n : nat) : list phdr :=
  List.filter loadable (phdr64_of buf <$> ((fun j => phoff + j * sizeof_Phdr64) <$> seqZ i (Z.of_nat n))).

(** ** What the program sees *)

(** The byte of a segment at an address. *)
Definition seg_byte (buf : list byte) (p : phdr) (va : Z) : option byte :=
  if (p_vaddr p <=? va) && (va <? p_vaddr p + p_memsz p)
  then Some (if va <? p_vaddr p + p_filesz p then default nul (buf !! Z.to_nat (p_offset p + (va - p_vaddr p))) else nul)
  else None.

(** Later segments cover earlier ones. *)
Definition image_byte (buf : list byte) (segs : list phdr) (va : Z) : option byte :=
  fold_left (fun acc p => match seg_byte buf p va with Some b => Some b | None => acc end) segs None.

Lemma image_byte_snoc buf segs p va : image_byte buf (segs ++ [p]) va =
  match seg_byte buf p va with Some b => Some b | None => image_byte buf segs va end.
Proof. unfold image_byte. by rewrite fold_left_app. Qed.

Section Load.
Context {H : Type} `{!Allocator H} `{!PageLaws H}.
Implicit Types (k : kmem H) (us : user_space) (P : gset Z).

(** Every mapped page has a frame of its own, in use. *)
Record framed P k us : Prop := {
  fr_used pg e : 0 <= pg < 32768 -> entry_of (km_tables k) us pg = Some e -> phys_ptr e ∈ P;
  fr_own pg pg' e e' : 0 <= pg < 32768 -> 0 <= pg' < 32768 -> entry_of (km_tables k) us pg = Some e ->
    entry_of (km_tables k) us pg' = Some e' -> phys_ptr e = phys_ptr e' -> pg = pg' }.

Lemma va_of_page va : va = ATM_USER_BASE + page_no va * 4096 + va mod 4096.
Proof.
  unfold page_no. pose proof (Z.div_mod (va - ATM_USER_BASE) 4096 ltac:(lia)) as E. rewrite Zminus_mod in E.
  change (ATM_USER_BASE mod 4096) with 0 in E. rewrite Z.sub_0_r, Z.mod_mod in E by lia. lia.
Qed.

Lemma framed_injective P k us : framed P k us -> injective_map k us.
Proof.
  intros [_ Hown] va va' p. unfold phys_of, xlate. destruct (user_window va) eqn:Hw; [|done]. destruct (user_window va') eqn:Hw'; [|done].
  destruct (entry_of (km_tables k) us (page_no va)) as [e|] eqn:E; [|done]. destruct (entry_of (km_tables k) us (page_no va')) as [e'|] eqn:E'; [|done].
  cbn. intros [= <-] [= Heq]. pose proof (phys_ptr_aligned e). pose proof (phys_ptr_aligned e').
  pose proof (Z.mod_pos_bound va 4096 ltac:(lia)). pose proof (Z.mod_pos_bound va' 4096 ltac:(lia)).
  pose proof (Z.div_mod (phys_ptr e) 4096 ltac:(lia)). pose proof (Z.div_mod (phys_ptr e') 4096 ltac:(lia)).
  assert (phys_ptr e = phys_ptr e') as Ep by lia. pose proof (page_no_range va Hw). pose proof (page_no_range va' Hw').
  assert (page_no va = page_no va') as Epg by (by eapply Hown). rewrite (va_of_page va), (va_of_page va'). lia.
Qed.

(** The space between two steps of the loader: the invariant holds, entries are only added. *)
Record loading P k us : Prop := { lo_ok : space_ok P k us; lo_framed : framed P k us }.

Definition grows k us k' us' : Prop := forall pg e, 0 <= pg < 32768 -> entry_of (km_tables k) us pg = Some e -> entry_of (km_tables k') us' pg = Some e.

Lemma grows_xlate k us k' us' va x : grows k us k' us' -> xlate (km_tables k) us va = Some x -> xlate (km_tables k') us' va = Some x.
Proof.
  intros Hg. unfold xlate. destruct (user_window va) eqn:Hw; [|done]. destruct (entry_of (km_tables k) us (page_no va)) as [e|] eqn:E; [|done].
  by rewrite (Hg _ _ (page_no_range va Hw) E).
Qed.

Lemma grows_byte k us k' us' va b : grows k us k' us' -> km_mem k' = km_mem k -> user_byte k us va = Some b -> user_byte k' us' va = Some b.
Proof.
  intros Hg Hm. unfold user_byte, phys_of. destruct (xlate (km_tables k) us va) as [x|] eqn:E; [|done].
  by rewrite (grows_xlate _ _ _ _ _ _ Hg E), Hm.
Qed.

Lemma grows_accessible k us k' us' va n w : grows k us k' us' -> accessible (km_tables k) us va n w -> accessible (km_tables k') us' va n w.
Proof. intros Hg Ha i Hi. destruct (Ha i Hi) as (p & e & E & Hw). exists p, e. split; [by eapply grows_xlate|done]. Qed.

Lemma grows_trans k us k1 us1 k2 us2 : grows k us k1 us1 -> grows k1 us1 k2 us2 -> grows k us k2 us2.
Proof. intros H1 H2 pg e Hp E. by apply H2, H1. Qed.

(** What a step of the loader leaves. *)
Definition step_ok P k us k' us' : Prop := exists P', P ⊆ P' /\ loading P' k' us' /\ grows k us k' us' /\ km_mem k' = km_mem k.

Lemma grows_refl k us : grows k us k us.
Proof. by intros pg e. Qed.

Lemma step_trans P P1 k us k1 us1 k2 us2 : P ⊆ P1 -> grows k us k1 us1 -> km_mem k1 = km_mem k ->
  step_ok P1 k1 us1 k2 us2 -> step_ok P k us k2 us2.
Proof.
  intros HP1 Hg1 Hm1 (P2 & HP2 & Hl2 & Hg2 & Hm2). exists P2. split_and!; [set_solver|done|by eapply grows_trans|congruence].
Qed.

Lemma space_ok_more P P' k us h : space_ok P k us -> P ⊆ P' -> pages_live h P' -> space_ok P' (k <| km_heap := h |>) us.
Proof.
  intros [A1 A2 A3 A4 A5 (pd1 & t & B1 & B2 & B3 & B4 & B5)] HP Hl. split; [done|done|done| |done|].
  - intros i pt Hi Hn. destruct (A4 i pt Hi Hn) as (? & ?). split; [set_solver|done].
  - exists pd1, t. split_and!; [done|done|done|set_solver|done].
Qed.

Lemma framed_more P P' k us : framed P k us -> P ⊆ P' -> framed P' k us.
Proof. intros [Hu Ho] HP. split; [|done]. intros pg e Hp E. apply HP. by eapply Hu. Qed.

Lemma page_frame p flags : p mod 4096 = 0 -> 0 < p < 2 ^ 52 -> phys_ptr (user_entry p flags) = p.
Proof. intros Hp Hr. rewrite user_entry_phys, phys_ptr_small by lia. lia. Qed.

(** One page more with a fresh frame. *)
Lemma framed_add P P' k k' us us' va p flags : framed P k us -> p ∉ P -> {[p]} ∪ P ⊆ P' -> p mod 4096 = 0 -> 0 < p < 2 ^ 52 ->
  mapped k k' us us' va (user_entry p flags) -> framed P' k' us'.
Proof.
  intros [Hu Ho] Hno HP Hp Hr (_ & _ & He). pose proof (page_frame p flags Hp Hr) as Ef. split.
  - intros pg e Hpg. rewrite He by done. case_decide; [intros [= <-]; rewrite Ef; set_solver|]. intros E. pose proof (Hu _ _ Hpg E). set_solver.
  - intros pg pg' e e' Hpg Hpg'. rewrite !He by done. do 2 case_decide; subst; try done.
    + intros [= <-] E' Eq. destruct Hno. rewrite <- Ef, Eq. exact (Hu _ _ Hpg' E').
    + intros E [= <-] Eq. destruct Hno. rewrite <- Ef, <- Eq. exact (Hu _ _ Hpg E).
    + by apply Ho.
Qed.

(** ** Mapping the pages of a segment *)

Lemma step_refl P k us : loading P k us -> step_ok P k us k us.
Proof. intros Hl. exists P. split_and!; [done|done|apply grows_refl|done]. Qed.

(** The page is mapped, with the flags if it was not there before; the other pages are as they were. *)
Lemma map_page_spec P k us va pf : loading P k us -> good_page va = true ->
  wp (elf64_map_page us va pf) k (fun x k' => step_ok P k us k' (snd x) /\
    ((fst x = -1) \/ (fst x = 0 /\ exists q e, xlate (km_tables k') (snd x) va = Some (q, e) /\
      (xlate (km_tables k) us va = None -> pte_has e ATM_PTE_W = pte_has (segment_flags pf) ATM_PTE_W))) /\
    (forall pg, 0 <= pg < 32768 -> pg <> page_no va -> entry_of (km_tables k') (snd x) pg = entry_of (km_tables k) us pg)).
Proof.
  intros Hl Hg. pose proof Hl as [Hok Hfr]. unfold elf64_map_page. wp_step. eapply wp_mono; [by apply (translate_spec P)|]. intros o k' [-> ->].
  destruct (xlate (km_tables k) us va) as [[q e]|] eqn:Ex; [wp_step; split_and!; [by apply step_refl|right; split; [done|by exists q, e]|done]|].
  wp_step. apply wp_on_heap. eapply wp_mono; [apply (page_law _ P), Hok|]. intros page h [[-> Hlive]|(Hne & Hno & Hal & Hr & Hlive)].
  { change (0 =? 0) with true. cbn match. wp_step. split_and!; [|by left|done]. exists P. split_and!; [done| |by intros pg e|done].
    split; [by eapply space_ok_more|]. destruct Hfr. by split. }
  rewrite (proj2 (Z.eqb_neq page 0)) by done. set (k1 := k <| km_heap := h |>).
  assert (Hok1 : space_ok ({[page]} ∪ P) k1 us) by (eapply space_ok_more; [done|set_solver|done]).
  assert (Hfr1 : framed ({[page]} ∪ P) k1 us) by (destruct (framed_more P ({[page]} ∪ P) k us Hfr ltac:(set_solver)); by split).
  wp_step. eapply wp_mono; [apply (map_entry _ k1 us va page (segment_flags pf) Hok1); by rewrite (args_good _ _ _ _ Hok1)|].
  intros x k' [(-> & Hok' & Hmem & HT)|(us' & P' & -> & HP & Hok' & Hm)]; wp_step; cbn [fst snd default].
  - split_and!; [|by left|by intros pg _ _; rewrite HT]. exists ({[page]} ∪ P). split_and!; [set_solver| |by intros pg e _; rewrite HT|done].
    split; [done|]. destruct Hfr1. split; by rewrite HT.
  - pose proof Hm as (Hmem & _ & He). pose proof Hg as [Hw _]%andb_true_iff. split_and!.
    + exists P'. split_and!; [set_solver| | |done].
      * split; [done|]. eapply (framed_add P P' k1); [|done|done|done|done|exact Hm]. destruct Hfr. by split.
      * intros pg e Hpg E. rewrite He by done. case_decide as Epg; [|done]. exfalso. subst pg. unfold xlate in Ex. rewrite Hw in Ex.
        change (km_tables k1) with (km_tables k) in E. by rewrite E in Ex.
    + right. split; [done|]. do 2 eexists. split; [|intros _; apply (user_entry_writable page)]. unfold xlate.
      by rewrite Hw, He, decide_True by (done || by apply page_no_range).
    + intros pg Hpg Hd. by rewrite He, decide_False by done.
Qed.

Lemma page_good page : page mod 4096 = 0 -> user_window page = true -> good_page page = true.
Proof. intros Hp Hw. unfold good_page. by rewrite Hw, page_offset_mod, Hp. Qed.

(** The pages from [page] to [last] are mapped. *)
Lemma map_loop_spec last pf : last mod 4096 = 0 -> last < ATM_USER_TOP -> forall fuel P k us page,
  loading P k us -> page mod 4096 = 0 -> ATM_USER_BASE <= page <= last -> (last - page) / 4096 < Z.of_nat fuel ->
  wp (map_loop fuel us page last pf) k (fun x k' => step_ok P k us k' (snd x) /\
    (fst x = true -> accessible (km_tables k') (snd x) page (last + 4096 - page) false)).
Proof.
  intros Hlast Htop fuel. induction fuel as [|fuel IH]; intros P k us page Hl Hp Hr Hf.
  { exfalso. assert (0 <= (last - page) / 4096) by (apply Z.div_pos; lia). lia. }
  assert (Hw : user_window page = true) by (apply window_range; lia).
  cbn [map_loop]. wp_step. eapply wp_mono; [apply (map_page_spec P); [done|by apply page_good]|].
  intros [r us1] k1 (Hs & Hr1 & _). cbn [fst snd] in *. destruct Hr1 as [->|(-> & q & e & Ex & _)].
  { change (-1 <? 0) with true. cbn match. wp_step. by split. }
  change (0 <? 0) with false. cbn match.
  assert (Hfirst : forall i, 0 <= i < 4096 -> allowed (km_tables k1) us1 (page + i) false) by (intros i Hi; apply allowed_whole_page; [done|done|]; by exists q, e).
  destruct (Z.eqb_spec page last) as [->|Hne].
  { wp_step. split; [done|]. intros _ i Hi. apply Hfirst. cbn [fst snd] in *. lia. }
  assert (Hnext : page + 4096 <= last) by (pose proof (Z.div_mod page 4096 ltac:(lia)); pose proof (Z.div_mod last 4096 ltac:(lia)); lia).
  unfold ATM_PAGE_SIZE. unfold ATM_USER_TOP, ATM_USER_BASE, ATM_USER_WINDOW_SIZE in *. rewrite u64_small by lia.
  destruct Hs as (P1 & HP1 & Hl1 & Hg1 & Hm1). eapply wp_mono; [apply (IH P1 k1 us1 (page + 0x1000) Hl1)|].
  - rewrite <- Z.add_mod_idemp_l by lia. by rewrite Hp.
  - lia.
  - replace (last - (page + 0x1000)) with ((last - page) + (-1) * 4096) by lia. rewrite Z.div_add by lia. lia.
  - intros [ok us2] k2 [Hs2 Ha2]. cbn [fst snd] in *. split.
    + by eapply (step_trans P P1).
    + intros Hok i Hi. destruct (decide (i < 4096)).
      * destruct Hs2 as (_ & _ & _ & Hg2 & _). destruct (Hfirst i ltac:(lia)) as (p & x & E & ?). exists p, x. split; [by eapply grows_xlate|done].
      * replace (page + i) with (page + 0x1000 + (i - 4096)) by lia. apply Ha2; [done|lia].
Qed.

(** ** Filling a segment *)

(** The loop that stores is the one of the copies to user memory. *)
Lemma store_mapped_copy us : forall fuel va bs k,
  store_mapped fuel us va bs k =
  match copy_loop_user fuel (Some us) va bs (zlen bs) true k with Done (x, k') => Done (fst x, k') | Fault => Fault end.
Proof.
  induction fuel as [|fuel IH]; intros va bs k; (destruct bs as [|b bs']; [done|]); cbn [store_mapped copy_loop_user];
    rewrite (proj2 (Z.eqb_neq (zlen (b :: bs')) 0)) by (simpl; lia); [done|]. generalize (b :: bs'). clear b bs'. intros bs.
  unfold bind at 1 3. destruct (paging_user_translate (Some us) va k) as [[[[phys e]|] k1]|]; [|done|done].
  set (n := if _ <? _ then _ else _). unfold poke_bytes, bind, modify, ret. cbn beta iota. rewrite IH.
  replace (zlen (drop (Z.to_nat n) bs)) with (zlen bs - n).
  - destruct (copy_loop_user _ _ _ _ _ _ _) as [[[r rest] k2]|]; done.
  - rewrite length_drop. unfold n, ATM_PAGE_SIZE. rewrite page_offset_mod. pose proof (Z.mod_pos_bound va 4096 ltac:(lia)).
    destruct (Z.ltb_spec (zlen bs) (0x1000 - va mod 4096)); lia.
Qed.

Lemma store_mapped_spec P us k va bs : loading P k us -> accessible (km_tables k) us va (zlen bs) false ->
  wp (store_mapped range_fuel us va bs) k (fun r k' => r = 0 /\ mem_only k k' /\ stored k k' us va bs).
Proof.
  intros [Hok Hfr] Ha. unfold wp. rewrite store_mapped_copy.
  destruct (wp_inv _ _ _ (copy_to_spec P us false range_fuel k va bs Hok (framed_injective _ _ _ Hfr) Ha
    ltac:(destruct bs as [|b bs']; [by right|left; eapply range_fits; [|done]; simpl; lia]))) as (x & k' & -> & E & Hm & Hs).
  by split_and!.
Qed.

Lemma loading_mem P k us m : loading P k us -> loading P (set_mem k m) us.
Proof. intros [Hok [Hu Ho]]. split; [by apply space_ok_mem|]. by split. Qed.

(** Bytes outside the range that was stored are as they were. *)
Lemma stored_other P k k' us va bs q : loading P k us -> mem_only k k' -> stored k k' us va bs -> ~ (va <= q < va + zlen bs) ->
  user_byte k' us q = user_byte k us q.
Proof.
  intros [_ Hfr] [m ->] [_ Ho] Hq. unfold user_byte. change (phys_of (set_mem k m) us q) with (phys_of k us q).
  destruct (phys_of k us q) as [p|] eqn:Ep; [|done]. simpl. f_equal. apply Ho. intros i Hi Ei.
  pose proof (framed_injective _ _ _ Hfr _ _ _ Ep Ei). lia.
Qed.

Lemma stored_at k k' us va bs q : stored k k' us va bs -> va <= q < va + zlen bs -> user_byte k' us q = bs !! Z.to_nat (q - va).
Proof. intros [Hi _] Hq. rewrite <- Hi by lia. f_equal. lia. Qed.

(** A segment the loader accepts. *)
Record segment_ok (buf : list byte) (p : phdr) : Prop := {
  sg_file : p_filesz p <= p_memsz p /\ p_offset p + p_filesz p <= zlen buf;
  sg_window : ATM_USER_BASE <= p_vaddr p /\ p_vaddr p + p_memsz p <= ATM_USER_STACK_TOP }.

Lemma segment_tests buf p : phdr_typed p -> 0 < p_memsz p -> zlen buf < 2 ^ 32 ->
  segment_in_file buf p = true -> segment_in_window p = true -> segment_ok buf p /\ u64 (p_vaddr p + p_memsz p) = p_vaddr p + p_memsz p.
Proof.
  intros [H1 H2 H3 H4] Hm Hb Hf Hw. unfold segment_in_file in Hf. rewrite !andb_true_iff, !Z.leb_le in Hf.
  unfold segment_in_window in Hw. rewrite !andb_true_iff, !Z.leb_le in Hw. destruct Hw as [[W1 W2] W3].
  assert (E : u64 (p_vaddr p + p_memsz p) = p_vaddr p + p_memsz p).
  { destruct (Z.lt_ge_cases (p_vaddr p + p_memsz p) (2 ^ 64)) as [Hlt|Hge]; [by apply u64_small; lia|]. exfalso.
    assert (u64 (p_vaddr p + p_memsz p) = p_vaddr p + p_memsz p - 2 ^ 64); [|lia]. unfold u64. symmetry. apply (Z.mod_unique _ _ 1); lia. }
  rewrite E in W3. split; [|done]. split; lia.
Qed.

Lemma seg_byte_file buf p va : segment_ok buf p -> phdr_typed p -> p_vaddr p <= va < p_vaddr p + p_filesz p ->
  seg_byte buf p va = take (Z.to_nat (p_filesz p)) (drop (Z.to_nat (p_offset p)) buf) !! Z.to_nat (va - p_vaddr p).
Proof.
  intros [[F1 F2] _] [T1 _ T3 _] Hva. unfold seg_byte. rewrite (proj2 (Z.leb_le _ _)), (proj2 (Z.ltb_lt va (p_vaddr p + p_memsz p))), (proj2 (Z.ltb_lt va (p_vaddr p + p_filesz p))) by lia. cbn [andb].
  rewrite lookup_take_lt, lookup_drop by lia. replace (Z.to_nat (p_offset p) + Z.to_nat (va - p_vaddr p))%nat with (Z.to_nat (p_offset p + (va - p_vaddr p))) by lia.
  destruct (lookup_lt_is_Some_2 buf (Z.to_nat (p_offset p + (va - p_vaddr p))) ltac:(lia)) as [b ->]. done.
Qed.

(** What loading a segment leaves: its bytes in place, the others as they were. *)
Definition loaded buf k us k' us' p : Prop :=
  grows k us k' us' /\ (forall va b, seg_byte buf p va = Some b -> user_byte k' us' va = Some b) /\
  (forall va b, seg_byte buf p va = None -> user_byte k us va = Some b -> user_byte k' us' va = Some b).

Lemma seg_byte_zero buf p va : segment_ok buf p -> p_vaddr p + p_filesz p <= va < p_vaddr p + p_memsz p -> 0 <= p_filesz p -> seg_byte buf p va = Some nul.
Proof.
  intros _ Hva Hf. unfold seg_byte.
  rewrite (proj2 (Z.leb_le _ _)), (proj2 (Z.ltb_lt va (p_vaddr p + p_memsz p))), (proj2 (Z.ltb_ge va (p_vaddr p + p_filesz p))) by lia. done.
Qed.

(** Storing the file's part and the zeros behind it. *)
Lemma fill_spec P k us buf p : loading P k us -> phdr_typed p -> segment_ok buf p -> accessible (km_tables k) us (p_vaddr p) (p_memsz p) false ->
  forall Q : option cstr * user_space -> kmem H -> Prop,
  (forall m, (forall va b, seg_byte buf p va = Some b -> user_byte (set_mem k m) us va = Some b) ->
     (forall va, seg_byte buf p va = None -> user_byte (set_mem k m) us va = user_byte k us va) -> Q (None, us) (set_mem k m)) ->
  wp (let* data := bytes_at buf (p_offset p) (p_filesz p) in
      let* r := elf64_copy_to_mapped us (p_vaddr p) data in
      if r <? 0 then ret (Some (cs "segment copy failed"), us)
      else
        let* z := elf64_zero_mapped us (u64 (p_vaddr p + p_filesz p)) (p_memsz p - p_filesz p) in
        if z <? 0 then ret (Some (cs "segment copy failed"), us) else ret (None, us)) k Q.
Proof.
  intros Hl Ht Hsg Ha Q HQ. pose proof Hsg as [[F1 F2] [W1 W2]]. pose proof Ht as [T1 T2 T3 T4].
  unfold bytes_at. do 2 wp_step. apply wp_guard; [apply orb_true_iff; right; by apply Z.leb_le|]. wp_step.
  set (data := take _ _). assert (Hld : zlen data = p_filesz p) by (unfold data; rewrite length_take, length_drop; lia).
  wp_step. unfold elf64_copy_to_mapped. eapply wp_mono; [apply (store_mapped_spec P us k); [done|]|].
  { intros i Hi. rewrite Hld in Hi. apply Ha. lia. }
  intros r k2 (-> & [m2 ->] & Hs2). change (0 <? 0) with false. cbn match.
  unfold ATM_USER_STACK_TOP, ATM_USER_TOP, ATM_USER_BASE, ATM_USER_WINDOW_SIZE in *. rewrite u64_small by lia.
  wp_step. unfold elf64_zero_mapped. set (zs := replicate _ nul). assert (Hlz : zlen zs = p_memsz p - p_filesz p) by (unfold zs; rewrite length_replicate; lia).
  pose proof (loading_mem P k us m2 Hl) as Hl2. eapply wp_mono; [apply (store_mapped_spec P us (set_mem k m2)); [done|]|].
  { intros i Hi. rewrite Hlz in Hi. rewrite <- Z.add_assoc. apply Ha. lia. }
  intros r k3 (-> & [m3 ->] & Hs3). change (0 <? 0) with false. cbn match. wp_step. change (set_mem (set_mem k m2) m3) with (set_mem k m3) in *.
  assert (Hm2 : mem_only k (set_mem k m2)) by (by exists m2). assert (Hm3 : mem_only (set_mem k m2) (set_mem k m3)) by (by exists m3).
  apply HQ.
  - intros va b Hb. assert (Hin : p_vaddr p <= va < p_vaddr p + p_memsz p).
    { unfold seg_byte in Hb. destruct (Z.leb_spec (p_vaddr p) va), (Z.ltb_spec va (p_vaddr p + p_memsz p)); try done. }
    destruct (Z.lt_ge_cases va (p_vaddr p + p_filesz p)) as [Hlt|Hge].
    + rewrite (stored_other P _ _ _ _ _ _ Hl2 Hm3 Hs3), (stored_at _ _ _ _ _ _ Hs2) by lia. rewrite <- Hb. unfold data. symmetry. apply seg_byte_file; [done|done|lia].
    + rewrite (stored_at _ _ _ _ _ _ Hs3) by lia. rewrite (seg_byte_zero buf p va) in Hb by (done || lia). rewrite <- Hb. unfold zs. apply lookup_replicate_2. lia.
  - intros va Hn. assert (Hout : ~ (p_vaddr p <= va < p_vaddr p + p_memsz p)).
    { intros Hin. unfold seg_byte in Hn. rewrite (proj2 (Z.leb_le _ _)), (proj2 (Z.ltb_lt va _)) in Hn by lia. done. }
    rewrite (stored_other P _ _ _ _ _ _ Hl2 Hm3 Hs3) by lia. by rewrite (stored_other P _ _ _ _ _ _ Hl Hm2 Hs2) by lia.
Qed.

Lemma page_span va n : 0 < n -> 0 <= va -> va + n <= 2 ^ 52 ->
  let page := Z.land va ATM_PAGE_MASK in let last := Z.land (va + n - 1) ATM_PAGE_MASK in
  page mod 4096 = 0 /\ last mod 4096 = 0 /\ page <= va < page + 4096 /\ last <= va + n - 1 < last + 4096 /\ page <= last.
Proof.
  intros Hn Hva Hr page last. unfold page, last. fold (phys_ptr va) (phys_ptr (va + n - 1)). pose proof (phys_ptr_aligned va). pose proof (phys_ptr_aligned (va + n - 1)).
  rewrite !phys_ptr_small in * by lia. pose proof (Z.mod_pos_bound va 4096 ltac:(lia)). pose proof (Z.mod_pos_bound (va + n - 1) 4096 ltac:(lia)).
  split_and!; try done; try lia. pose proof (Z.div_mod va 4096 ltac:(lia)). pose proof (Z.div_mod (va + n - 1) 4096 ltac:(lia)).
  assert (va / 4096 <= (va + n - 1) / 4096) by (apply Z.div_le_mono; lia). lia.
Qed.

Lemma load64_spec P k us buf p : loading P k us -> phdr_typed p -> 0 < p_memsz p -> zlen buf < 2 ^ 32 ->
  wp (load64 buf us p) k (fun x k' => exists P', P ⊆ P' /\ loading P' k' (snd x) /\
    (fst x = None -> segment_ok buf p /\ loaded buf k us k' (snd x) p)).
Proof.
  intros Hl Ht Hm Hb. unfold load64. destruct (segment_in_file buf p) eqn:Ef; cbn [negb]; [|wp_step; by exists P].
  destruct (segment_in_window p) eqn:Ew; cbn [negb]; [|wp_step; by exists P].
  destruct (segment_tests buf p Ht Hm Hb Ef Ew) as [Hsg Eend]. rewrite Eend. pose proof Hsg as [[F1 F2] [W1 W2]].
  unfold ATM_USER_STACK_TOP, ATM_USER_TOP, ATM_USER_BASE, ATM_USER_WINDOW_SIZE in W1, W2.
  destruct (page_span (p_vaddr p) (p_memsz p) Hm ltac:(lia) ltac:(lia)) as (G1 & G2 & G3 & G4 & G5). set (page := Z.land (p_vaddr p) _) in *. set (last := Z.land (_ - 1) _) in *.
  assert (Hbase : ATM_USER_BASE <= page) by (unfold ATM_USER_BASE; pose proof (Z.div_mod page 4096 ltac:(lia)); lia).
  wp_step. eapply wp_mono; [apply (map_loop_spec last (p_flags p) G2 ltac:(unfold ATM_USER_TOP, ATM_USER_BASE, ATM_USER_WINDOW_SIZE; lia) range_fuel P k us page Hl G1)|].
  - lia.
  - rewrite range_fuel_val. apply Z.div_lt_upper_bound; [lia|]. unfold ATM_USER_BASE in Hbase. lia.
  - intros [ok us1] k1 [(P1 & HP1 & Hl1 & Hg1 & Hm1) Ha]. cbn [fst snd] in *. destruct ok; cbn [negb]; [|wp_step; by exists P1].
    apply (fill_spec P1 k1 us1 buf p); [done|done|done| |].
    + intros i Hi. replace (p_vaddr p + i) with (page + (p_vaddr p - page + i)) by lia. apply (Ha eq_refl). lia.
    + intros m Hin Hout. exists P1. split_and!; [done|by apply loading_mem|]. intros _. split; [done|]. split_and!; [exact Hg1|exact Hin|].
      intros va b Hn Hby. cbn [snd]. rewrite Hout by done. by eapply grows_byte.
Qed.
End Load.

(** ** Properties of the ELF loaders *)

Section Loop.
Context {H : Type} `{!Allocator H} `{!PageLaws H}.
Implicit Types (k : kmem H) (us : user_space) (P : gset Z).

Lemma segments_cons buf phoff i n : segments buf phoff i (S n) =
  (if loadable (phdr64_of buf (phoff + i * sizeof_Phdr64)) then [phdr64_of buf (phoff + i * sizeof_Phdr64)] else []) ++ segments buf phoff (i + 1) n.
Proof.
  unfold segments. rewrite seqZ_cons by lia. replace (Z.pred (Z.of_nat (S n))) with (Z.of_nat n) by lia. rewrite <- Z.add_1_r.
  cbn [fmap list_fmap List.filter]. by destruct (loadable _).
Qed.

Lemma phdr64_spec buf o k Q : 0 <= o -> o + 56 <= zlen buf -> Q (phdr64_of buf o) k -> wp (phdr64_at buf o) k Q.
Proof.
  intros Ho Hl HQ. unfold phdr64_at. do 6 (wp_step; apply field_spec; [lia|lia|]). by wp_step.
Qed.

Lemma image_byte_cons buf p segs va : image_byte buf (p :: segs) va =
  match image_byte buf segs va with Some b => Some b | None => seg_byte buf p va end.
Proof.
  induction segs as [|q segs IH] using rev_ind; [by unfold image_byte; simpl; destruct (seg_byte buf p va)|].
  rewrite app_comm_cons, !image_byte_snoc, IH. by destruct (seg_byte buf q va).
Qed.

(** The loop over the program headers. *)
Lemma load64_loop_spec buf phoff : zlen buf < 2 ^ 32 -> 0 <= phoff -> forall n i P k us base e loads,
  loading P k us -> 0 <= i -> phoff + (i + Z.of_nat n) * 56 <= zlen buf ->
  wp (load64_loop n buf phoff i us base e loads) k (fun x k' => let segs := segments buf phoff i n in
    exists P', P ⊆ P' /\ loading P' k' (snd (fst x)) /\
    (fst (fst x) = None -> Forall (segment_ok buf) segs /\ snd (snd x) = loads + zlen segs /\
       (forall va b, image_byte buf segs va = Some b -> user_byte k' (snd (fst x)) va = Some b) /\
       (forall va b, image_byte buf segs va = None -> user_byte k us va = Some b -> user_byte k' (snd (fst x)) va = Some b))).
Proof.
  intros Hb Hoff n. induction n as [|n IH]; intros i P k us base e loads Hl Hi Hn; cbn [load64_loop]; intros.
  { wp_step. exists P. split_and!; [done|done|]. intros _. split_and!; [constructor|simpl; lia|done|done]. }
  change sizeof_Phdr64 with 56. wp_step. apply phdr64_spec; [lia|lia|]. rewrite segments_cons. change sizeof_Phdr64 with 56. set (p := phdr64_of buf _).
  destruct (loadable p) eqn:Elo; cbn [negb app].
  2: { apply IH; [done|lia|lia]. }
  assert (Hm : 0 < p_memsz p).
  { unfold loadable in Elo. apply andb_true_iff in Elo as [_ E%negb_true_iff%Z.eqb_neq]. pose proof (pt_memsz _ (phdr64_typed buf (phoff + i * 56))) as Hr. fold p in Hr. lia. }
  wp_step. eapply wp_mono; [apply (load64_spec P k us buf p Hl (phdr64_typed buf _) Hm Hb)|].
  intros [err us1] k1 (P1 & HP1 & Hl1 & Hld). cbn [fst snd] in *. destruct err as [msg|].
  { wp_step. exists P1. by split_and!. }
  destruct (Hld eq_refl) as (Hsg & Hg & Hin & Hout). eapply wp_mono; [apply (IH (i + 1) P1 k1 us1); [done|lia|lia]|].
  intros [[err us2] [[b' e'] l']] k2 (P2 & HP2 & Hl2 & Hx). cbn [fst snd] in *. exists P2. split_and!; [set_solver|done|].
  intros ->. destruct (Hx eq_refl) as (Hall & El & Himg & Hold). split_and!; [by constructor|simpl; lia| |].
  - intros va b. rewrite image_byte_cons. destruct (image_byte buf (segments buf phoff (i + 1) n) va) as [c|] eqn:Ec.
    + intros [= <-]. by apply Himg.
    + intros Hp. apply Hold; [done|]. by apply Hin.
  - intros va b. rewrite image_byte_cons. destruct (image_byte buf (segments buf phoff (i + 1) n) va) as [c|] eqn:Ec; [done|].
    intros Hp Hu. apply Hold; [done|]. by apply Hout.
Qed.

(** The segments of a file, from the fields of its header. *)
Definition file_segments (buf : list byte) : list phdr := segments buf (get buf 32 8) 0 (Z.to_nat (get buf 56 2)).

(** The state after the loader, whatever it returns, and the program when it returns 0. *)
Definition load_result buf P (x : Z * option user_space * image) k' : Prop :=
  exists us' P', snd (fst x) = Some us' /\ P ⊆ P' /\ loading P' k' us' /\
  ((fst (fst x) = -1 /\ im_valid (snd x) = 0) \/
   (fst (fst x) = 0 /\ im_valid (snd x) = 1 /\ file_segments buf <> [] /\ Forall (segment_ok buf) (file_segments buf) /\
    im_entry (snd x) = get buf 24 8 /\ ATM_USER_BASE <= im_entry (snd x) < ATM_USER_STACK_TOP /\
    (forall va b, image_byte buf (file_segments buf) va = Some b -> user_byte k' us' va = Some b) /\
    accessible (km_tables k') us' ATM_USER_STACK_TOP ATM_PAGE_SIZE false)).

Lemma elf64_load_spec P k us buf : loading P k us -> zlen buf < 2 ^ 32 ->
  wp (elf64_load_user (Some buf) (Some us) false) k (fun x k' => load_result buf P x k').
Proof.
  intros Hl Hb. assert (Hfail : forall P' us' m k', P ⊆ P' -> loading P' k' us' -> load_result buf P (-1, Some us', image_error m) k').
  { intros P' us' m k' HP Hl'. exists us', P'. split_and!; [done|done|done|by left]. }
  unfold elf64_load_user. rewrite (proj2 (Z.eqb_neq (us_valid us) 0)) by apply Hl. cbn [orb].
  destruct (elf64_validate_native (Some buf)) eqn:Ev; cbn [negb]; [|wp_step; by apply (Hfail P)].
  assert (H64 : 64 <= zlen buf).
  { unfold elf64_validate_native, sizeof_Ehdr64 in Ev. by destruct (Z.ltb_spec (zlen buf) 64). }
  wp_step. apply field_spec; [lia|simpl; lia|]. wp_step. apply field_spec; [lia|simpl; lia|].
  pose proof (get_range buf 32 8) as R1. pose proof (get_range buf 56 2) as R2. change sizeof_Phdr64 with 56.
  destruct (Z.ltb_spec (zlen buf) (get buf 32 8)) as [|Hoff]; cbn [orb]; [wp_step; by apply (Hfail P)|].
  destruct (Z.ltb_spec (zlen buf - get buf 32 8) (get buf 56 2 * 56)) as [|Hnum]; [wp_step; by apply (Hfail P)|].
  wp_step. eapply wp_mono; [apply (load64_loop_spec buf (get buf 32 8) Hb ltac:(lia) (Z.to_nat (get buf 56 2)) 0 P k us); [done|lia|lia]|].
  intros [[err us1] [[base e] loads]] k1 (P1 & HP1 & Hl1 & Hx). cbn [fst snd] in *. fold (file_segments buf) in Hx.
  destruct err as [msg|]; [wp_step; by apply (Hfail P1)|]. destruct (Hx eq_refl) as (Hall & El & Himg & _).
  wp_step. apply field_spec; [lia|simpl; lia|].
  destruct ((loads =? 0) || (get buf 24 8 <? ATM_USER_BASE) || (ATM_USER_STACK_TOP <=? get buf 24 8)) eqn:Ee; [wp_step; by apply (Hfail P1)|].
  apply orb_false_iff in Ee as [[E1%Z.eqb_neq E2%Z.ltb_ge]%orb_false_iff E3%Z.leb_gt].
  wp_step. eapply wp_mono; [apply (map_page_spec P1 k1 us1 ATM_USER_STACK_TOP PF_W Hl1); by vm_compute|].
  intros [r us2] k2 ((P2 & HP2 & Hl2 & Hg2 & Hm2) & Hr & _). cbn [fst snd] in *. destruct Hr as [->|(-> & q & x & Ex & _)].
  - change (-1 <? 0) with true. cbn match. wp_step. apply (Hfail P2); [set_solver|done].
  - change (0 <? 0) with false. cbn match. wp_step. exists us2, P2. split_and!; [done|set_solver|done|right]. cbn [fst snd im_valid im_entry].
    split_and!; [done|done| |done|done|done|done| |].
    + intros E. rewrite E in El. simpl in El. lia.
    + intros va b Hv. eapply grows_byte; [done|done|]. by apply Himg.
    + intros i Hi. unfold ATM_PAGE_SIZE in Hi. apply allowed_whole_page; [by vm_compute|lia|]. by exists q, x.
Qed.
End Loop.

(** ** A small program *)

Fixpoint field_bytes (n : nat) (v : Z) : list byte := match n with O => [] | S n' => zb (v mod 256) :: field_bytes n' (v / 256) end.
Definition fields (l : list (Z * Z)) : list byte := flat_map (fun '(n, v) => field_bytes (Z.to_nat n) v) l.

(** An executable of one segment: [text] at an address, followed by zeros. *)
Definition demo_elf (offset vaddr memsz : Z) (text : cstr) : list byte :=
  fields [(4, 0x464C457F); (4, 0x00010102); (8, 0); (2, ET_EXEC); (2, EM_X86_64); (4, 1); (8, vaddr); (8, 64); (8, 0); (4, 0);
          (2, 64); (2, 56); (2, 1); (2, 0); (2, 0); (2, 0);
          (4, PT_LOAD); (4, 5); (8, offset); (8, vaddr); (8, vaddr); (8, zlen text); (8, memsz); (8, 0x1000)] ++ text.
Definition demo_file : list byte := demo_elf 120 (ATM_USER_BASE + 0x1ffe) 12 (cs "koala").

(** C13: The ELF64 loader is safe on any file and loads what the file says: it never reads
    outside the file or touches an unmapped page, keeps the address space consistent on
    every path, and when it accepts, every loadable segment lies in the file and in the
    window below the stack page, the entry point lies in the window, the stack page is
    mapped, and the program sees at each address the byte of the last segment that covers
    it: the file's bytes, then zeros up to the segment's size in memory. *)
Theorem elf64_loads_image (k : kmem heap) us P buf : loading P k us -> zlen buf < 2 ^ 32 ->
  wp (elf64_load_user (Some buf) (Some us) false) k (fun x k' => load_result buf P x k').
Proof. apply elf64_load_spec. Qed.

Lemma demo_loading : exists P, loading P demo_k0 demo_us0.
Proof.
  destruct demo_space as (P & Hok & Hn). exists P. split; [done|]. split.
  - intros pg e Hp E. by rewrite Hn in E.
  - intros pg pg' e e' Hp _ E. by rewrite Hn in E.
Qed.

Lemma elf64_loads_image_witness :
  image_byte demo_file (file_segments demo_file) (ATM_USER_BASE + 0x2001) = Some x6c /\
  wp (elf64_load_user (Some demo_file) (Some demo_us0) false) demo_k0 (fun x k' =>
    fst (fst x) = 0 -> exists us', snd (fst x) = Some us' /\ user_byte k' us' (ATM_USER_BASE + 0x2001) = Some x6c).
Proof.
  split; [vm_compute; reflexivity|]. destruct demo_loading as [P Hl].
  eapply wp_mono; [apply (elf64_loads_image demo_k0 demo_us0 P demo_file Hl); vm_compute; reflexivity|].
  intros x k' (us' & P' & E & _ & _ & [[E1 _]|(_ & _ & _ & _ & _ & _ & Himg & _)]) E0; [congruence|]. exists us'. split; [done|].
  apply Himg. vm_compute. reflexivity.
Defined.

(** ** What the loaders do not check *)

(** The machine with the bytes of an earlier owner left in the pages of the heap. *)
Definition stale : list byte := cs "secret".
Definition used_machine : kmem heap := demo_k0 <| km_mem := mem_write ∅ 0x113000 stale |>.

Definition sees (x : outcome (Z * option user_space * image * kmem heap)) (va : Z) (n : nat) : option (Z * list (option byte)) :=
  match x with Done (r, Some us, _, k) => Some (r, (fun i => user_byte k us (va + i)) <$> seqZ 0 (Z.of_nat n)) | _ => None end.

(** The loader does not clear the pages it maps: a program finds in its stack page what
    the previous owner of the memory left there. *)
Theorem stack_page_not_cleared :
  sees (elf64_load_user (Some demo_file) (Some demo_us0) false used_machine) ATM_USER_STACK_TOP 6 = Some (0, Some <$> stale).
Proof. vm_compute. reflexivity. Qed.

(** An ELF32 file whose segment starts behind its end. *)
Definition demo_elf32 (offset : Z) : list byte :=
  fields [(4, 0x464C457F); (4, 0x00010101); (8, 0); (2, ET_EXEC); (2, EM_386); (4, 1); (4, 0x200000); (4, 52); (4, 0); (4, 0);
          (2, 52); (2, 32); (2, 1); (2, 0); (2, 0); (2, 0);
          (4, PT_LOAD); (4, offset); (4, 0x200000); (4, 0x200000); (4, 4); (4, 8); (4, 5); (4, 0x1000)] ++ cs "code".

(** [elf_load] accepts a segment inside the file, but when the segment's offset lies behind
    the end of the file the test of its size wraps around and it reads outside the file. *)
Theorem elf32_reads_past_file :
  (exists k', elf_load (demo_elf32 84) demo_k0 = Done (mk_elf_result 1 0x200000 0x200000 0x200008 [], k')) /\
  elf_load (demo_elf32 89) demo_k0 = Fault.
Proof. split; [eexists; vm_compute; reflexivity|vm_compute; reflexivity]. Qed.
