(* ===== verification/Kernel.v ===== *)
(** * The state of the kernel, and identities of processes

    The components keep their data in static variables; [kernel] puts them side by
    side.  The heap is shared: the filesystem's state holds it, and the page tables see
    it through [on_pages].  The network stack below the sockets is the parameter [N].
    The second half holds the queries of src/src/sched.c that need the task pool only:
    process groups, sessions, visibility, and the snapshot [ps] prints. *)

From S2P Require Import Prelude Sched Pipe Alloc Vfs Paging.

(** ** Sockets, descriptor flags: data of native_socket.c and native_fd.c *)

Inductive atm_tcp_state :=
| ATM_TCP_CLOSED | ATM_TCP_LISTEN | ATM_TCP_SYN_SENT | ATM_TCP_SYN_RECEIVED
| ATM_TCP_ESTABLISHED | ATM_TCP_FIN_WAIT | ATM_TCP_ERROR.
#[export] Instance atm_tcp_state_eq_dec : EqDecision atm_tcp_state.
Proof. solve_decision. Defined.

Record ooo_segment := mk_ooo { o_seq : Z; o_len : Z; o_used : Z; o_data : list byte }.

Record atm_tcp_conn := mk_conn {
  c_remote_ip : list Z; c_local_port : Z; c_remote_port : Z;
  c_seq : Z; c_ack : Z; c_retry_count : Z;
  c_peer_window : Z; c_local_window : Z; c_cwnd : Z; c_ssthresh : Z;
  c_ooo : list ooo_segment; c_state : atm_tcp_state }.
#[export] Instance eta_conn : Eta atm_tcp_conn := fun c => mk_conn
  (c_remote_ip c) (c_local_port c) (c_remote_port c) (c_seq c) (c_ack c) (c_retry_count c)
  (c_peer_window c) (c_local_window c) (c_cwnd c) (c_ssthresh c) (c_ooo c) (c_state c).

Definition conn_zero : atm_tcp_conn :=
  mk_conn [0; 0; 0; 0] 0 0 0 0 0 0 0 0 0 (replicate 2 (mk_ooo 0 0 0 (replicate 512 nul))) ATM_TCP_CLOSED.

Record socket_slot := mk_slot { ss_owner : option nat; ss_conn : atm_tcp_conn; ss_used : Z }.
#[export] Instance eta_slot : Eta socket_slot := fun s => mk_slot (ss_owner s) (ss_conn s) (ss_used s).
Definition slot_zero : socket_slot := mk_slot None conn_zero 0.

Record fd_exec_meta := mk_meta { fe_owner : option nat; fe_flags : list Z }.
#[export] Instance eta_meta : Eta fd_exec_meta := fun m => mk_meta (fe_owner m) (fe_flags m).
Definition meta_zero : fd_exec_meta := mk_meta None (replicate 32 0).

(** ** The whole state *)

(** [k_spaces]: the [user_space_t] objects on the heap, which tasks point to. *)
Record kernel (H N : Type) := mk_kernel {
  k_ps : pstate;
  k_vfs : vfs H;
  k_pages : kmem H;
  k_spaces : gmap Z user_space;
  k_slots : list socket_slot;
  k_net : N;
  k_exec : list fd_exec_meta;
  k_bootstrap_cwd : cstr;
  k_bootstrap_umask : Z }.
Arguments mk_kernel {_ _} _ _ _ _ _ _ _ _ _.
Arguments k_ps {_ _}. Arguments k_vfs {_ _}. Arguments k_pages {_ _}. Arguments k_spaces {_ _}.
Arguments k_slots {_ _}. Arguments k_net {_ _}. Arguments k_exec {_ _}.
Arguments k_bootstrap_cwd {_ _}. Arguments k_bootstrap_umask {_ _}.

#[export] Instance eta_kernel H N : Eta (kernel H N) := fun k =>
  mk_kernel (k_ps k) (k_vfs k) (k_pages k) (k_spaces k) (k_slots k) (k_net k) (k_exec k)
    (k_bootstrap_cwd k) (k_bootstrap_umask k).

Section Zooms.
Context {H N : Type}.
Abbreviation K := (M (kernel H N)).

Definition on_ps {A} (m : M pstate A) : K A := zoom k_ps (fun p k => k <| k_ps := p |>) m.
Definition on_tasks {A} (m : M sched A) : K A := on_ps (on_sched m).
Definition on_vfs {A} (m : M (vfs H) A) : K A := zoom k_vfs (fun v k => k <| k_vfs := v |>) m.
Definition on_net {A} (m : M N A) : K A := zoom k_net (fun n k => k <| k_net := n |>) m.

(** The page tables with the kernel's heap, which lives in [k_vfs]; the copy in [k_pages] is not used. *)
Definition pages_of (k : kernel H N) : kmem H := (k_pages k) <| km_heap := v_heap (k_vfs k) |>.
Definition on_pages {A} (m : M (kmem H) A) : K A :=
  zoom pages_of (fun p k => k <| k_pages := p <| km_heap := km_heap (k_pages k) |> |> <| k_vfs := (k_vfs k) <| v_heap := km_heap p |> |>) m.
Definition on_kheap {A} (m : M H A) : K A :=
  on_vfs (zoom v_heap (fun h v => v <| v_heap := h |>) m).

Definition tasks (k : kernel H N) : sched := ps_sched (k_ps k).
Definition current (k : kernel H N) : option nat := current_task (tasks k).
Definition ktask (t : nat) : K task := on_tasks (get_task t).
Definition upd_task (t : nat) (f : task -> task) : K unit := on_tasks (mod_task t f).
End Zooms.

(** ** Identities of processes (sched.c) *)

Definition task_is_direct_child (parent child : task) (pid : Z) : bool :=
  if bool_decide (t_state child = TASK_UNUSED) || negb (t_ppid child =? t_pid parent) then false
  else (pid =? -1) || (t_pid child =? u32 pid).

Definition task_wait_status (t : task) : Z :=
  if truth (t_exit_signal t) then Z.land (t_exit_signal t) 0x7f
  else Z.shiftl (Z.land (t_exit_code t) 0xff) 8.

(** The macros of sched.h that take a wait status apart. *)
Definition TASK_WIFEXITED (status : Z) : bool := Z.land status 0x7f =? 0.
Definition TASK_WEXITSTATUS (status : Z) : Z := Z.land (Z.shiftr status 8) 0xff.
Definition TASK_WIFSIGNALED (status : Z) : bool := negb (Z.land status 0x7f =? 0).
Definition TASK_WTERMSIG (status : Z) : Z := Z.land status 0x7f.

Definition task_visible_target (s : sched) (caller : option nat) (pid : Z) : option nat :=
  c ← caller;
  if pid =? 0 then Some c
  else if pid <? 0 then None
  else
    t ← task_lookup_pid s (u32 pid);
    x ← task_pool s !! t;
    cx ← task_pool s !! c;
    if negb (bool_decide (t = c)) && negb (t_ppid x =? t_pid cx) then None else Some t.

Definition target_field (f : task -> Z) (pid : Z) : M sched Z :=
  let* t := gets (fun s => task_visible_target s (current_task s) pid) in
  match t with
  | None => ret (-1)
  | Some t => let* x := get_task t in ret (i32 (f x))
  end.
Definition task_getpgid (pid : Z) : M sched Z := target_field t_pgid pid.
Definition task_getsid (pid : Z) : M sched Z := target_field t_sid pid.

Definition task_setpgid (pid pgid : Z) : M sched Z :=
  let* caller := gets current_task in
  let* target := gets (fun s => task_visible_target s caller pid) in
  match target with
  | None => ret (-1)
  | Some t =>
    let* x := get_task t in
    if (pgid <? 0) || bool_decide (t_state x = TASK_ZOMBIE) then ret (-1)
    else
      let newpgid := if pgid =? 0 then t_pid x else u32 pgid in
      let* ok := (if newpgid =? t_pid x then ret true
                  else
                    let* leader := gets (fun s => task_lookup_pid s newpgid) in
                    match leader with
                    | None => ret false
                    | Some l => let* y := get_task l in ret (t_sid y =? t_sid x)
                    end) in
      if negb ok then ret (-1)
      else do* mod_task t (fun y => y <| t_pgid := newpgid |>) in ret 0
  end.

Definition task_setsid : M sched Z :=
  let* cur := gets current_task in
  match cur with
  | None => ret (-1)
  | Some c =>
    let* t := get_task c in
    if (t_pid t =? 0) || (t_pgid t =? t_pid t) then ret (-1)
    else
      do* mod_task c (fun y => y <| t_sid := t_pid y |> <| t_pgid := t_pid y |>) in
      ret (i32 (t_pid t))
  end.

Definition gone (t : task) : bool := bool_decide (t_state t = TASK_UNUSED) || bool_decide (t_state t = TASK_ZOMBIE).

Definition task_signal_probe (pid : Z) : M sched Z :=
  let* cur := gets current_task in
  match cur with
  | None => ret (- TASK_ERR_EINVAL)
  | Some c =>
    if pid <=? 0 then ret (- TASK_ERR_EINVAL)
    else
      let* target := gets (fun s => task_lookup_pid s (u32 pid)) in
      match target with
      | None => ret (-3)
      | Some t =>
        let* x := get_task t in
        let* cx := get_task c in
        ret (if gone x then -3 else if bool_decide (t = c) || (t_ppid x =? t_pid cx) then 0 else -1)
      end
  end.

(** A READY task taken off the queue before it ever ran. *)
Definition task_suspend_unstarted (task : option nat) : M sched Z :=
  let* cur := gets current_task in
  match task with
  | None => ret (-1)
  | Some t =>
    let* x := get_task t in
    if bool_decide (cur = Some t) || (t_pid x =? 0) || negb (bool_decide (t_state x = TASK_READY)) then ret (-1)
    else
      do* queue_remove t in
      let* up := gets uptime_ticks in
      do* mod_task t (fun y => y <| t_state := TASK_BLOCKED |> <| t_state_changed_ticks := up |>) in
      ret 0
  end.

Record sched_task_info_t := mk_info {
  in_pid : Z; in_ppid : Z; in_pgid : Z; in_sid : Z; in_uid : Z; in_gid : Z;
  in_state : task_state; in_priority : Z; in_context_switches : Z;
  in_cpu_ticks : Z; in_created_ticks : Z; in_state_changed_ticks : Z;
  in_resident_bytes : Z; in_io_read_bytes : Z; in_io_write_bytes : Z; in_name : cstr }.

(** [None] is the result -1. *)
Definition sched_task_info (s : sched) (slot : nat) : option sched_task_info_t :=
  if (TASK_MAX <=? slot)%nat then None
  else
    t ← task_pool s !! slot;
    if bool_decide (t_state t = TASK_UNUSED) then None
    else Some (mk_info (t_pid t) (t_ppid t) (t_pgid t) (t_sid t) (t_uid t) (t_gid t)
      (t_state t) (t_priority t) (t_context_switches t) (t_ticks t) (t_created_ticks t)
      (t_state_changed_ticks t) (t_resident_bytes t) (t_io_read_bytes t) (t_io_write_bytes t) (t_name t)).
