(* ===== verification/Posix.v ===== *)
(** * The POSIX layer over the filesystem (src/src/atm_posix.c)

    Paths are made absolute and canonical with the working directory of the current
    task, creation modes are masked with its umask, and the operations of vfs.c do the
    rest.  A buffer of [VFS_PATH_MAX] bytes is the string it holds; the writes into it
    are guarded by its size.  [fsync] and [fdatasync] flush catfs and are not here. *)

From S2P Require Import Prelude Cstring Sched Pipe Alloc Vfs VfsSynth VfsPath VfsApi Paging Kernel.

Definition ATM_POSIX_IOV_MAX : Z := 16.
Definition ATM_POSIX_F_OK : Z := 0.
Definition ATM_POSIX_X_OK : Z := 1.
Definition ATM_POSIX_W_OK : Z := 2.
Definition ATM_POSIX_R_OK : Z := 4.
Definition ATM_POSIX_AT_FDCWD : Z := -100.
Definition ATM_POSIX_AT_SYMLINK_NOFOLLOW : Z := 0x100.
Definition ATM_POSIX_AT_REMOVEDIR : Z := 0x200.
Definition ATM_POSIX_PC_NAME_MAX : Z := 1.
Definition ATM_POSIX_PC_PATH_MAX : Z := 2.
Definition ATM_POSIX_PC_LINK_MAX : Z := 3.
Definition VFS_LINK_MAX : Z := 127.

(** ** Lexical normalization *)

Definition is_slash (c : byte) : bool := bool_decide (c = slash).

Fixpoint skip_slashes (p : cstr) : cstr :=
  match p with c :: p' => if is_slash c then skip_slashes p' else p | [] => [] end.
(** The bytes up to the next '/', and the rest. *)
Fixpoint cut_part (p : cstr) : cstr * cstr :=
  match p with
  | [] => ([], [])
  | c :: p' => if is_slash c then ([], p) else let '(part, rest) := cut_part p' in (c :: part, rest)
  end.

(** [while(used>1&&out[used-1]!='/')used--;] *)
Fixpoint back_to_slash (out : list byte) (used : nat) : nat :=
  match used with
  | S ((S _) as u) => if bool_decide (out !! u = Some slash) then used else back_to_slash out u
  | _ => used
  end.
(** The last component of [out] is dropped. *)
Definition pop_part (out : cstr) : cstr :=
  if (1 <? length out)%nat then
    let u := back_to_slash out (length out) in
    take (if (1 <? u)%nat then pred u else u) out
  else out.

(** [None] is the result -1. *)
Definition push_part (out part : cstr) : option cstr :=
  let used := zlen out in
  let n := zlen part in
  if 1 <? used then
    if VFS_PATH_MAX <=? used + 1 + n then None else Some (out ++ slash :: part)
  else if VFS_PATH_MAX <=? used + n then None else Some (out ++ part).

Fixpoint normalize_loop (fuel : nat) (p out : cstr) : outcome (option cstr) :=
  match fuel with
  | O => Fault
  | S fuel' =>
    match skip_slashes p with
    | [] => Done (Some out)
    | p' =>
      let '(part, rest) := cut_part p' in
      if bool_decide (part = [dot]) then normalize_loop fuel' rest out
      else if bool_decide (part = [dot; dot]) then normalize_loop fuel' rest (pop_part out)
      else match push_part out part with
      | None => Done None
      | Some out' => normalize_loop fuel' rest out'
      end
    end
  end.

Definition posix_normalize (raw : cstr) : outcome (option cstr) :=
  match raw with
  | c :: _ => if is_slash c then normalize_loop (S (length raw)) raw [slash] else Done None
  | [] => Done None
  end.

(** [raw[kstrlen(raw)-1]] of the base copied to [raw]. *)
Definition ends_in_slash (s : list byte) : bool := bool_decide (s !! pred (length s) = Some slash).

Definition posix_basepath (base : cstr) (path : option cstr) : outcome (option cstr) :=
  match path, base with
  | Some ((c :: r) as p), b :: _ =>
    if negb (is_slash b) then Done None
    else if is_slash c then
      if VFS_PATH_MAX <=? zlen p then Done None else posix_normalize p
    else
      if VFS_PATH_MAX <=? zlen base + 1 + zlen p then Done None
      else posix_normalize (base ++ (if ends_in_slash base then [] else [slash]) ++ p)
  | _, _ => Done None
  end.

(** One element of a vector: a NULL base is [None]. *)
Record iovec := mk_iov { iov_base : option (list byte); iov_len : Z }.

Section Posix.
Context {H N : Type} `{!Allocator H}.
Abbreviation K := (M (kernel H N)).

(** ** The context of the current task *)

Definition posix_cwd : K cstr := deref (fun k =>
  match current k with
  | None => Some (k_bootstrap_cwd k)
  | Some t => t_cwd <$> task_pool (tasks k) !! t
  end).
Definition posix_umask : K Z := deref (fun k =>
  match current k with
  | None => Some (k_bootstrap_umask k)
  | Some t => t_umask_value <$> task_pool (tasks k) !! t
  end).
(** [kstrcpy(posix_cwd_slot(), path)] *)
Definition set_cwd (path : cstr) : K unit :=
  do* guard (fits_in path VFS_PATH_MAX) in
  let* c := gets current in
  match c with
  | None => modify (fun k => k <| k_bootstrap_cwd := path |>)
  | Some t => upd_task t (fun y => y <| t_cwd := path |>)
  end.
Definition set_umask (m : Z) : K unit :=
  let* c := gets current in
  match c with
  | None => modify (fun k => k <| k_bootstrap_umask := m |>)
  | Some t => upd_task t (fun y => y <| t_umask_value := m |>)
  end.

Definition posix_abspath (path : option cstr) : K (option cstr) :=
  let* cwd := posix_cwd in lift (posix_basepath cwd path).

(** A successful [stat] of a directory. *)
Definition is_dir (r : Z * option stat) : bool :=
  match r with
  | (rc, Some st) => (0 <=? rc) && S_ISDIR (st_mode st)
  | _ => false
  end.

(** The path of an open directory; [None] on -1. *)
Definition dir_path (fd : Z) : K (option cstr) :=
  let* '(r, p) := on_vfs (vfs_fd_path fd VFS_PATH_MAX) in
  match p with
  | Some base =>
    if r <? 0 then ret None
    else let* st := on_vfs (vfs_fstat fd) in ret (if is_dir st then Some base else None)
  | None => ret None
  end.

Definition posix_atpath (dirfd : Z) (path : option cstr) : K (option cstr) :=
  if dirfd =? ATM_POSIX_AT_FDCWD then posix_abspath path
  else
    let* b := dir_path dirfd in
    match b with
    | None => ret None
    | Some base => lift (posix_basepath base path)
    end.

(** [k] on the path computed by [p], [err] when that fails. *)
Definition with_path {A} (p : K (option cstr)) (err : A) (k : cstr -> M (vfs H) A) : K A :=
  let* full := p in
  match full with None => ret err | Some f => on_vfs (k f) end.

(** ** Files *)

Definition open_at (p : K (option cstr)) (flags mode : Z) : K Z :=
  let* full := p in
  match full with
  | None => ret (-1)
  | Some f =>
    let* mode' := (if has flags O_CREAT then let* um := posix_umask in ret (andn mode um) else ret mode) in
    on_vfs (vfs_open (Some f) flags mode')
  end.
Definition atm_posix_open (path : option cstr) (flags mode : Z) : K Z := open_at (posix_abspath path) flags mode.
Definition atm_posix_creat (path : option cstr) (mode : Z) : K Z :=
  atm_posix_open path (Z.lor (Z.lor O_WRONLY O_CREAT) O_TRUNC) mode.
Definition atm_posix_openat (dirfd : Z) (path : option cstr) (flags mode : Z) : K Z :=
  open_at (posix_atpath dirfd path) flags mode.
Definition atm_posix_close (fd : Z) : K Z :=
  if fd <? 0 then ret (-1) else do* on_vfs (vfs_close fd) in ret 0.
Definition atm_posix_read (fd count : Z) : K (Z * list byte) := on_vfs (vfs_read fd count).
Definition atm_posix_write (fd : Z) (buf : list byte) : K Z := on_vfs (vfs_write fd buf).

(** [None] for -1, else the offset to restore. *)
Definition posix_seek_to (fd off : Z) : K (option Z) :=
  if 0x7FFFFFFFFFFFFFFF <? off then ret None
  else
    let* saved := on_vfs (vfs_lseek fd 0 SEEK_CUR) in
    if saved <? 0 then ret None
    else
      let* r := on_vfs (vfs_lseek fd off SEEK_SET) in
      ret (if r <? 0 then None else Some saved).
Definition seek_around {A} (fd off : Z) (err : A) (io : M (vfs H) A) : K A :=
  let* s := posix_seek_to fd off in
  match s with
  | None => ret err
  | Some saved =>
    let* n := on_vfs io in
    do* on_vfs (vfs_lseek fd saved SEEK_SET) in
    ret n
  end.
Definition atm_posix_pread (fd count offset : Z) : K (Z * list byte) :=
  seek_around fd offset (-1, []) (vfs_read fd count).
Definition atm_posix_pwrite (fd : Z) (buf : list byte) (offset : Z) : K Z :=
  seek_around fd offset (-1) (vfs_write fd buf).

(** The loop over the vector; [total] is what was transferred so far. *)
Fixpoint readv_loop (fd : Z) (iov : list iovec) (total : Z) : K (Z * list byte) :=
  match iov with
  | [] => ret (total, [])
  | v :: iov' =>
    if truth (iov_len v) && negb (bool_decide (is_Some (iov_base v))) then ret (if truth total then total else -1, [])
    else
      let* '(n, bs) := on_vfs (vfs_read fd (iov_len v)) in
      if n <? 0 then ret (if truth total then total else -1, [])
      else if n <? iov_len v then ret (total + n, bs)
      else
        let* '(r, rest) := readv_loop fd iov' (total + n) in
        ret (r, bs ++ rest)
  end.
Fixpoint writev_loop (fd : Z) (iov : list iovec) (total : Z) : K Z :=
  match iov with
  | [] => ret total
  | v :: iov' =>
    if truth (iov_len v) && negb (bool_decide (is_Some (iov_base v))) then ret (if truth total then total else -1)
    else
      let* n := on_vfs (vfs_write fd (take (Z.to_nat (iov_len v)) (default [] (iov_base v)))) in
      if n <? 0 then ret (if truth total then total else -1)
      else if n <? iov_len v then ret (total + n)
      else writev_loop fd iov' (total + n)
  end.
(** A vector pointer that is NULL is [None]; otherwise [iovcnt] is its length. *)
Definition iov_ok (iov : option (list iovec)) : bool :=
  match iov with Some l => zlen l <=? ATM_POSIX_IOV_MAX | None => false end.
Definition atm_posix_readv (fd : Z) (iov : option (list iovec)) : K (Z * list byte) :=
  if negb (iov_ok iov) then ret (-1, []) else readv_loop fd (default [] iov) 0.
Definition atm_posix_writev (fd : Z) (iov : option (list iovec)) : K Z :=
  if negb (iov_ok iov) then ret (-1) else writev_loop fd (default [] iov) 0.

Definition atm_posix_lseek (fd offset whence : Z) : K Z := on_vfs (vfs_lseek fd offset whence).
Definition atm_posix_stat (path : option cstr) : K (Z * option stat) :=
  with_path (posix_abspath path) (-1, None) (fun f => vfs_stat (Some f)).
Definition atm_posix_lstat (path : option cstr) : K (Z * option stat) :=
  with_path (posix_abspath path) (-1, None) (fun f => vfs_lstat (Some f)).
Definition atm_posix_fstat (fd : Z) : K (Z * option stat) := on_vfs (vfs_fstat fd).
Definition atm_posix_fstatat (dirfd : Z) (path : option cstr) (st_ok : bool) (flags : Z) : K (Z * option stat) :=
  if negb st_ok || truth (andn flags ATM_POSIX_AT_SYMLINK_NOFOLLOW) then ret (-1, None)
  else with_path (posix_atpath dirfd path) (-1, None)
         (fun f => if has flags ATM_POSIX_AT_SYMLINK_NOFOLLOW then vfs_lstat (Some f) else vfs_stat (Some f)).
Definition atm_posix_fchmod (fd mode : Z) : K Z := on_vfs (vfs_fchmod fd mode).
Definition atm_posix_fchown (fd uid gid : Z) : K Z := on_vfs (vfs_fchown fd uid gid).
Definition atm_posix_dup (fd : Z) : K Z := on_vfs (vfs_dup fd).
Definition atm_posix_dup2 (fd newfd : Z) : K Z := on_vfs (vfs_dup2 fd newfd).
Definition atm_posix_truncate (path : option cstr) (size : Z) : K Z :=
  with_path (posix_abspath path) (-1) (fun f => vfs_truncate (Some f) size).
Definition atm_posix_ftruncate (fd size : Z) : K Z := on_vfs (vfs_ftruncate fd size).
Definition atm_posix_chmod (path : option cstr) (mode : Z) : K Z :=
  with_path (posix_abspath path) (-1) (fun f => vfs_chmod (Some f) mode).
Definition atm_posix_chown (path : option cstr) (uid gid : Z) : K Z :=
  with_path (posix_abspath path) (-1) (fun f => vfs_chown (Some f) uid gid).
Definition atm_posix_fchmodat (dirfd : Z) (path : option cstr) (mode flags : Z) : K Z :=
  if truth flags then ret (-1) else with_path (posix_atpath dirfd path) (-1) (fun f => vfs_chmod (Some f) mode).
Definition atm_posix_fchownat (dirfd : Z) (path : option cstr) (uid gid flags : Z) : K Z :=
  if truth flags then ret (-1) else with_path (posix_atpath dirfd path) (-1) (fun f => vfs_chown (Some f) uid gid).

Definition mkdir_at (p : K (option cstr)) (mode : Z) : K Z :=
  let* full := p in
  match full with
  | None => ret (-1)
  | Some f => let* um := posix_umask in on_vfs (vfs_mkdir (Some f) (andn mode um))
  end.
Definition atm_posix_mkdir (path : option cstr) (mode : Z) : K Z := mkdir_at (posix_abspath path) mode.
Definition atm_posix_mkdirat (dirfd : Z) (path : option cstr) (mode : Z) : K Z := mkdir_at (posix_atpath dirfd path) mode.
Definition atm_posix_rmdir (path : option cstr) : K Z :=
  with_path (posix_abspath path) (-1) (fun f => vfs_rmdir (Some f)).
Definition atm_posix_unlink (path : option cstr) : K Z :=
  with_path (posix_abspath path) (-1) (fun f => vfs_unlink (Some f)).
Definition atm_posix_unlinkat (dirfd : Z) (path : option cstr) (flags : Z) : K Z :=
  with_path (posix_atpath dirfd path) (-1) (fun f =>
    if flags =? 0 then vfs_unlink (Some f)
    else if flags =? ATM_POSIX_AT_REMOVEDIR then vfs_rmdir (Some f) else ret (-1)).

(** ** The working directory, access, umask *)

Definition atm_posix_chdir (path : option cstr) : K Z :=
  let* full := posix_abspath path in
  match full with
  | None => ret (-1)
  | Some f =>
    let* st := on_vfs (vfs_stat (Some f)) in
    if is_dir st then do* set_cwd f in ret 0 else ret (-1)
  end.
Definition atm_posix_fchdir (fd : Z) : K Z :=
  let* p := dir_path fd in
  match p with
  | None => ret (-1)
  | Some f => do* set_cwd f in ret 0
  end.
(** [None] for NULL; [buf] is not NULL when [buf_ok]. *)
Definition atm_posix_getcwd (buf_ok : bool) (size : Z) : K (option cstr) :=
  let* cwd := posix_cwd in
  ret (if negb buf_ok || (size <=? zlen cwd) then None else Some cwd).

(** The permission bits of the class the caller belongs to. *)
Definition class_perm (uid gid : Z) (st : stat) : Z :=
  if uid =? st_uid st then Z.land (Z.shiftr (st_mode st) 6) 7
  else if gid =? st_gid st then Z.land (Z.shiftr (st_mode st) 3) 7
  else Z.land (st_mode st) 7.
Definition lacks (mode perm mbit pbit : Z) : bool := has mode mbit && negb (has perm pbit).
Definition posix_access_full (full : cstr) (mode : Z) : M (vfs H) Z :=
  if truth (andn mode (Z.lor (Z.lor ATM_POSIX_R_OK ATM_POSIX_W_OK) ATM_POSIX_X_OK)) then ret (-1)
  else
    let* '(r, st) := vfs_stat (Some full) in
    if r <? 0 then ret (-1)
    else if mode =? ATM_POSIX_F_OK then ret 0
    else
      let* uid := vfs_current_uid in
      let* gid := vfs_current_gid in
      let* s := deref (fun _ => st) in
      let perm := class_perm uid gid s in
      ret (if lacks mode perm ATM_POSIX_R_OK 4 || lacks mode perm ATM_POSIX_W_OK 2 || lacks mode perm ATM_POSIX_X_OK 1
           then -1 else 0).
Definition atm_posix_access (path : option cstr) (mode : Z) : K Z :=
  with_path (posix_abspath path) (-1) (fun f => posix_access_full f mode).
Definition atm_posix_faccessat (dirfd : Z) (path : option cstr) (mode flags : Z) : K Z :=
  if truth flags then ret (-1) else with_path (posix_atpath dirfd path) (-1) (fun f => posix_access_full f mode).
Definition atm_posix_umask (newmask : Z) : K Z :=
  let* old := posix_umask in do* set_umask (Z.land newmask 0x1FF) in ret old.
Definition atm_posix_isatty (fd : Z) : bool := (0 <=? fd) && (fd <=? 2).

(** ** Directories, names, limits, identities *)

Definition atm_posix_opendir (path : option cstr) : K Z :=
  with_path (posix_abspath path) 0 (fun f => vfs_opendir (Some f)).
Definition atm_posix_readdir (dir : Z) : K (option dirent) := on_vfs (vfs_readdir_next dir).
Definition atm_posix_closedir (dir : Z) : K Z :=
  if dir =? 0 then ret (-1) else do* on_vfs (vfs_closedir dir) in ret 0.

(** [op(a,b)] on two paths, the second computed only when the first is good. *)
Definition with_paths (pa pb : K (option cstr)) (op : option cstr -> option cstr -> M (vfs H) Z) : K Z :=
  let* a := pa in
  match a with
  | None => ret (-1)
  | Some a => with_path pb (-1) (fun b => op (Some a) (Some b))
  end.
Definition atm_posix_rename (oldpath newpath : option cstr) : K Z :=
  with_paths (posix_abspath oldpath) (posix_abspath newpath) vfs_rename.
Definition atm_posix_renameat (olddirfd : Z) (oldpath : option cstr) (newdirfd : Z) (newpath : option cstr) : K Z :=
  with_paths (posix_atpath olddirfd oldpath) (posix_atpath newdirfd newpath) vfs_rename.
Definition atm_posix_linkat (olddirfd : Z) (oldpath : option cstr) (newdirfd : Z) (newpath : option cstr) (flags : Z) : K Z :=
  if truth flags then ret (-1) else with_paths (posix_atpath olddirfd oldpath) (posix_atpath newdirfd newpath) vfs_link.
Definition atm_posix_symlinkat (target : option cstr) (newdirfd : Z) (linkpath : option cstr) : K Z :=
  match target with
  | None => ret (-1)
  | Some t => with_path (posix_atpath newdirfd linkpath) (-1) (fun f => vfs_symlink t (Some f))
  end.
Definition atm_posix_link (oldpath newpath : option cstr) : K Z :=
  with_paths (posix_abspath oldpath) (posix_abspath newpath) vfs_link.
(** [target] is not tested for NULL here. *)
Definition atm_posix_symlink (target linkpath : option cstr) : K Z :=
  with_path (posix_abspath linkpath) (-1) (fun f => let* t := str target in vfs_symlink t (Some f)).
Definition atm_posix_readlink (path : option cstr) (size : Z) : K (Z * cstr) :=
  with_path (posix_abspath path) (-1, []) (fun f => vfs_readlink (Some f) size).
Definition atm_posix_readlinkat (dirfd : Z) (path : option cstr) (size : Z) : K (Z * cstr) :=
  with_path (posix_atpath dirfd path) (-1, []) (fun f => vfs_readlink (Some f) size).

Definition posix_path_limit (name : Z) : Z :=
  if name =? ATM_POSIX_PC_NAME_MAX then VFS_NAME_MAX
  else if name =? ATM_POSIX_PC_PATH_MAX then VFS_PATH_MAX - 1
  else if name =? ATM_POSIX_PC_LINK_MAX then VFS_LINK_MAX
  else -1.
Definition atm_posix_pathconf (path : option cstr) (name : Z) : K Z :=
  with_path (posix_abspath path) (-1) (fun f =>
    let* '(r, _) := vfs_stat (Some f) in ret (if r <? 0 then -1 else posix_path_limit name)).
Definition atm_posix_fpathconf (fd name : Z) : K Z :=
  let* '(r, _) := on_vfs (vfs_fstat fd) in ret (if r <? 0 then -1 else posix_path_limit name).

Definition atm_posix_getuid : K Z := on_vfs vfs_current_uid.
Definition atm_posix_getgid : K Z := on_vfs vfs_current_gid.
(** A field of the current task, 0 before there is one. *)
Definition task_field (f : task -> Z) : K Z := deref (fun k =>
  match current k with None => Some 0 | Some t => f <$> task_pool (tasks k) !! t end).
Definition atm_posix_getpid : K Z := task_field t_pid.
Definition atm_posix_getppid : K Z := task_field t_ppid.
Definition atm_posix_getpgid (pid : Z) : K Z := on_tasks (task_getpgid pid).
Definition atm_posix_getsid (pid : Z) : K Z := on_tasks (task_getsid pid).
End Posix.
