(* ===== verification/PosixPath.v ===== *)
(** * The POSIX layer: canonical paths

    The reference for [posix_normalize] works on the list of components of a path:
    [.] is dropped, [..] drops the component before it, and the rest is written with
    one '/' before each component. *)

From S2P Require Import Prelude Cstring Sched Pipe Alloc Vfs VfsSynth VfsPath VfsApi VfsWalk Paging Kernel Posix.

(** ** The reference *)

(** A path cut at each '/'. *)
Fixpoint split_slash (p : cstr) : list cstr :=
  match p with
  | [] => [[]]
  | c :: p' =>
    if is_slash c then [] :: split_slash p'
    else match split_slash p' with h :: t => (c :: h) :: t | [] => [[c]] end
  end.
Definition nonempty (c : cstr) : Prop := c <> [].
#[export] Instance nonempty_dec c : Decision (nonempty c).
Proof. unfold nonempty. apply _. Defined.
Definition components (p : cstr) : list cstr := filter nonempty (split_slash p).

Definition dot_step (st : list cstr) (c : cstr) : list cstr :=
  if bool_decide (c = [dot]) then st
  else if bool_decide (c = [dot; dot]) then take (pred (length st)) st
  else st ++ [c].
Definition lexical (comps : list cstr) : list cstr := foldl dot_step [] comps.
Definition render (st : list cstr) : cstr := match st with [] => [slash] | _ => path_of st end.

(** A component of a canonical path. *)
Definition canonical (c : cstr) : Prop := c <> [] /\ c <> [dot] /\ c <> [dot; dot] /\ (slash ∉ c).

(** What [posix_basepath] normalizes. *)
Definition join (base p : cstr) : cstr :=
  match p with
  | c :: _ => if is_slash c then p else base ++ (if ends_in_slash base then [] else [slash]) ++ p
  | [] => base
  end.

(** ** Cutting *)

Lemma split_slash_ne p : split_slash p <> [].
Proof. destruct p as [|c p]; simpl; [done|]. case_match; [done|]. by destruct (split_slash p). Qed.

Lemma filter_empty l : filter nonempty ([] :: l) = filter nonempty l.
Proof. rewrite filter_cons_False; [done|]. intros Hn. by apply Hn. Qed.
Lemma components_slash p : components (slash :: p) = components p.
Proof. apply filter_empty. Qed.
Lemma components_skip p : components (skip_slashes p) = components p.
Proof.
  induction p as [|c p IH]; simpl; [done|]. unfold is_slash. case_bool_decide as E; [|done].
  rewrite E, components_slash. done.
Qed.

Lemma cut_part_app p part rest : cut_part p = (part, rest) ->
  p = part ++ rest /\ (slash ∉ part) /\ (rest = [] \/ exists r, rest = slash :: r).
Proof.
  revert part. induction p as [|c p IH]; simpl; intros part.
  - intros [= <- <-]. split_and!; [done|apply not_elem_of_nil|by left].
  - unfold is_slash. case_bool_decide as E.
    + intros [= <- <-]. rewrite E. split_and!; [done|apply not_elem_of_nil|right; eauto].
    + destruct (cut_part p) as [q r]. intros [= <- <-]. destruct (IH q eq_refl) as (-> & Hq & Hr).
      split_and!; [done| |done]. intros [?|?]%elem_of_cons; [by subst|done].
Qed.

Lemma split_part part rest : (slash ∉ part) -> split_slash (part ++ rest) =
  match split_slash rest with h :: t => (part ++ h) :: t | [] => [] end.
Proof.
  induction part as [|c part IH]; simpl; intros Hn; [by destruct (split_slash rest)|].
  apply not_elem_of_cons in Hn as [Hc Hp]. unfold is_slash. rewrite bool_decide_eq_false_2 by done.
  rewrite (IH Hp). by destruct (split_slash rest) eqn:E; [destruct (split_slash_ne rest)|].
Qed.

Lemma components_part part rest : (slash ∉ part) -> part <> [] -> rest = [] \/ (exists r, rest = slash :: r) ->
  components (part ++ rest) = part :: components rest.
Proof.
  intros Hn Hp [->|[r ->]]; unfold components; rewrite (split_part _ _ Hn); cbn [split_slash is_slash].
  - rewrite app_nil_r, filter_cons_True, filter_empty by done. done.
  - change (is_slash slash) with true. cbn match. rewrite app_nil_r, filter_cons_True, filter_empty by done. done.
Qed.

Lemma skip_slashes_head p : match skip_slashes p with [] => True | c :: _ => c <> slash end.
Proof. induction p as [|c p IH]; simpl; [done|]. unfold is_slash. by case_bool_decide. Qed.
Lemma skip_slashes_len p : (length (skip_slashes p) <= length p)%nat.
Proof. induction p as [|c p IH]; simpl; [done|]. case_match; simpl; lia. Qed.

Lemma components_facts p : Forall (fun c => c <> [] /\ (slash ∉ c)) (components p).
Proof.
  apply list.Forall_forall. unfold components. intros c [Hne Hc]%list_elem_of_filter. split; [done|]. clear Hne.
  revert c Hc. induction p as [|b p IH]; simpl; intros c.
  - intros ->%list_elem_of_singleton. apply not_elem_of_nil.
  - unfold is_slash. case_bool_decide as E.
    + intros [->|Hc]%elem_of_cons; [apply not_elem_of_nil|by apply IH].
    + destruct (split_slash p) as [|h t]; [intros ->%list_elem_of_singleton; set_solver|].
      intros [->|Hc]%elem_of_cons; [|apply IH; by right].
      apply not_elem_of_cons. split; [done|]. apply IH. left.
Qed.

(** ** The steps *)

Lemma path_of_app a b : path_of (a ++ b) = path_of a ++ path_of b.
Proof. unfold path_of. by rewrite map_app, concat_app. Qed.
Lemma path_of_one c : path_of [c] = slash :: c.
Proof. unfold path_of. simpl. by rewrite app_nil_r. Qed.
Lemma render_snoc st c : render (st ++ [c]) = path_of st ++ slash :: c.
Proof.
  transitivity (path_of (st ++ [c])); [by destruct st|]. by rewrite path_of_app, path_of_one.
Qed.

Definition solid (st : list cstr) : Prop := Forall canonical st.

Lemma path_of_len st : solid st -> st <> [] -> (1 < length (path_of st))%nat.
Proof.
  intros Hs Hne. destruct st as [|c st]; [done|]. apply list.Forall_cons in Hs as [(Hc & _) _].
  rewrite path_of_cons. simpl. rewrite length_app. destruct c; [done|]. simpl. lia.
Qed.

Lemma back_step out u : (0 < u)%nat ->
  back_to_slash out (S u) = if bool_decide (out !! u = Some slash) then S u else back_to_slash out u.
Proof. destruct u; [lia|done]. Qed.

Lemma back_spec a c : (slash ∉ c) -> back_to_slash (a ++ slash :: c) (length a + 1 + length c) = (length a + 1)%nat.
Proof.
  intros Hn. assert (Hgo : forall k, (k <= length c)%nat -> back_to_slash (a ++ slash :: c) (length a + 1 + k) = (length a + 1)%nat).
  { induction k as [|k IH]; intros Hk.
    - rewrite Nat.add_0_r, Nat.add_1_r. destruct a as [|b a]; [done|]. rewrite back_step by (simpl; lia).
      rewrite bool_decide_eq_true_2; [done|]. by apply list_lookup_middle.
    - destruct (lookup_lt_is_Some_2 c k) as [x Hx]; [lia|].
      rewrite Nat.add_succ_r, back_step, bool_decide_eq_false_2; [apply IH; lia| |lia].
      rewrite lookup_app_r by lia. replace (length a + 1 + k - length a)%nat with (S k) by lia. simpl. rewrite Hx.
      intros [= ->]. apply Hn. by apply list_elem_of_lookup_2 in Hx. }
  by apply Hgo.
Qed.

Lemma pop_spec st : solid st -> pop_part (render st) = render (take (pred (length st)) st).
Proof.
  intros Hs. destruct (decide (st = [])) as [->|Hne]; [done|].
  destruct (exists_last Hne) as (a & c & ->). apply Forall_app in Hs as [Ha Hc].
  apply list.Forall_singleton in Hc as (Hc & _ & _ & Hsl).
  rewrite render_snoc. replace (pred (length (a ++ [c]))) with (length a) by (rewrite length_app; simpl; lia).
  rewrite take_app_length. unfold pop_part.
  assert (Hl : length (path_of a ++ slash :: c) = (length (path_of a) + 1 + length c)%nat) by (rewrite length_app; simpl; lia).
  rewrite Hl, (back_spec _ _ Hsl).
  assert (0 < length c)%nat by (destruct c; [done|simpl; lia]).
  rewrite (proj2 (Nat.ltb_lt 1 _)) by lia. destruct (decide (a = [])) as [->|Hae].
  - done.
  - pose proof (path_of_len _ Ha Hae) as Hp. rewrite (proj2 (Nat.ltb_lt 1 _)) by lia.
    replace (pred (length (path_of a) + 1)) with (length (path_of a)) by lia. rewrite take_app_length. by destruct a.
Qed.

Lemma push_spec st c : solid st -> canonical c -> push_part (render st) c =
  if VFS_PATH_MAX <=? zlen (render (st ++ [c])) then None else Some (render (st ++ [c])).
Proof.
  intros Hs (Hc & _). rewrite render_snoc. unfold push_part. destruct (decide (st = [])) as [->|Hne].
  - change (path_of []) with (@nil byte). change (zlen (render [])) with 1. change (1 <? 1) with false. cbn match.
    replace (zlen ([] ++ slash :: c)) with (1 + zlen c) by (simpl; lia). done.
  - pose proof (path_of_len _ Hs Hne) as Hp. replace (render st) with (path_of st) by (by destruct st).
    rewrite (proj2 (Z.ltb_lt 1 _)) by lia.
    replace (zlen (path_of st ++ slash :: c)) with (zlen (path_of st) + 1 + zlen c) by (rewrite length_app; simpl; lia). done.
Qed.

Lemma dot_step_solid st c : solid st -> c <> [] -> (slash ∉ c) -> solid (dot_step st c).
Proof.
  intros Hs Hc Hn. unfold dot_step. repeat case_bool_decide; [done|by apply Forall_take|].
  apply Forall_app. split; [done|]. by apply list.Forall_singleton.
Qed.

(** ** The loop *)

Definition rooted (p : cstr) : Prop := p = [] \/ exists r, p = slash :: r.

Lemma path_of_take n st : (length (path_of (take n st)) <= length (path_of st))%nat.
Proof. rewrite <-(take_drop n st) at 2. rewrite path_of_app, length_app. lia. Qed.

Lemma skip_rooted p : rooted p -> skip_slashes p <> [] -> (length (skip_slashes p) < length p)%nat.
Proof.
  intros [->|[r ->]]; [done|]. intros _. change (skip_slashes (slash :: r)) with (skip_slashes r).
  pose proof (skip_slashes_len r). simpl. lia.
Qed.

Lemma render_len st : zlen (render st) = if bool_decide (st = []) then 1 else zlen (path_of st).
Proof. by destruct st. Qed.

(** While the path and what is left of the source fit the buffer, the loop computes the
    reference. *)
Lemma normalize_loop_spec fuel : forall p st, solid st -> rooted p -> (length p < fuel)%nat ->
  zlen (path_of st) + zlen p < VFS_PATH_MAX ->
  normalize_loop fuel p (render st) = Done (Some (render (foldl dot_step st (components p)))).
Proof.
  induction fuel as [|fuel IH]; intros p st Hs Hr Hf Hlen; [lia|]. cbn [normalize_loop].
  pose proof (skip_slashes_head p) as Hh. pose proof (skip_rooted p Hr) as Hk.
  rewrite <-components_skip. destruct (skip_slashes p) as [|c q]; [done|]. specialize (Hk ltac:(done)).
  destruct (cut_part (c :: q)) as [part rest] eqn:Ec. destruct (cut_part_app _ _ _ Ec) as (Ep & Hn & Hrest).
  assert (Hp : part <> []) by (intros ->; destruct Hrest as [->|[r ->]]; simplify_eq/=).
  rewrite Ep, (components_part _ _ Hn Hp Hrest). cbn [foldl].
  assert (Hl : (length part + length rest < length p)%nat) by (rewrite <-length_app, <-Ep; done).
  assert (Hst : solid (dot_step st part)) by (by apply dot_step_solid). revert Hst. unfold dot_step.
  case_bool_decide as E1; [intros _; apply IH; [done|done|lia|lia]|].
  case_bool_decide as E2.
  - intros Hst. rewrite (pop_spec _ Hs). pose proof (path_of_take (pred (length st)) st).
    apply IH; [done|done|lia|lia].
  - intros Hst. rewrite (push_spec _ _ Hs) by done.
    assert (Hz : zlen (path_of (st ++ [part])) = zlen (path_of st) + 1 + zlen part)
      by (rewrite path_of_app, path_of_one, length_app; simpl; lia).
    rewrite (proj2 (Z.leb_gt _ _)).
    + apply IH; [done|done|lia|]. rewrite Hz. lia.
    + rewrite render_len, bool_decide_eq_false_2, Hz by (by destruct st). lia.
Qed.

Lemma normalize_spec raw : (exists r, raw = slash :: r) -> zlen raw < VFS_PATH_MAX ->
  posix_normalize raw = Done (Some (render (lexical (components raw)))).
Proof.
  intros [r ->] Hl. unfold posix_normalize. change (is_slash slash) with true. cbn match.
  change [slash] with (render []). apply normalize_loop_spec; [constructor|right; eauto|lia|done].
Qed.

Lemma lexical_solid st comps : solid st -> Forall (fun c => c <> [] /\ (slash ∉ c)) comps -> solid (foldl dot_step st comps).
Proof.
  intros Hs Hc. revert st Hs. induction Hc as [|c comps (Hne & Hn) _ IH]; intros st Hs; [done|]. cbn [foldl].
  apply IH. by apply dot_step_solid.
Qed.
Lemma lexical_canonical p : solid (lexical (components p)).
Proof. apply lexical_solid; [constructor|]. apply components_facts. Qed.

(** A canonical path has the components it was written from, and they stay as they are. *)
Lemma components_path st : solid st -> components (path_of st) = st.
Proof.
  induction 1 as [|c st (Hc & _ & _ & Hn) _ IH]; [done|]. rewrite path_of_cons, components_slash.
  rewrite components_part; [by rewrite IH|done|done|]. destruct (path_of_tail st) as [->| ->]; eauto.
Qed.
Lemma components_render st : solid st -> components (render st) = st.
Proof. intros Hs. destruct st as [|c st]; [done|]. by apply components_path. Qed.
Lemma foldl_canonical st st' : solid st' -> foldl dot_step st st' = st ++ st'.
Proof.
  intros Hs. revert st. induction Hs as [|c st' (_ & Hd & Hdd & _) _ IH]; intros st; [by rewrite app_nil_r|].
  cbn [foldl]. rewrite IH. unfold dot_step. rewrite !bool_decide_eq_false_2 by done. by rewrite <-app_assoc.
Qed.
Lemma lexical_fixed st : solid st -> lexical st = st.
Proof. apply (foldl_canonical []). Qed.

Lemma rooted_join base p : (exists r, base = slash :: r) -> exists r, join base p = slash :: r.
Proof.
  intros [r ->]. destruct p as [|c p]; simpl; [eauto|]. unfold is_slash. case_bool_decide as E; [rewrite E; eauto|eauto].
Qed.

(** The tests [posix_basepath] makes. *)
Definition path_accepted (base : cstr) (path : option cstr) : bool :=
  match path, base with
  | Some (c :: r), b :: _ =>
    is_slash b && (if is_slash c then zlen (c :: r) <? VFS_PATH_MAX else zlen base + 1 + zlen (c :: r) <? VFS_PATH_MAX)
  | _, _ => false
  end.

Lemma basepath_spec base path : posix_basepath base path =
  Done (if path_accepted base path then Some (render (lexical (components (join base (default [] path))))) else None).
Proof.
  unfold posix_basepath, path_accepted. destruct path as [[|c r]|], base as [|b base]; try done.
  unfold is_slash at 1 3. case_bool_decide as Eb; [|done]. cbn [negb andb default]. subst b.
  change (id (c :: r)) with (c :: r). unfold join.
  destruct (is_slash c) eqn:Ec; rewrite Z.ltb_antisym; case_match eqn:El; cbn [negb]; try done;
    apply Z.leb_gt in El; apply normalize_spec.
  - apply bool_decide_eq_true in Ec as ->. eauto.
  - done.
  - eauto.
  - rewrite !length_app. destruct (ends_in_slash _); simpl in *; lia.
Qed.
