(* ===== verification/PosixProps.v ===== *)
(** * Properties of the POSIX layer *)

From S2P Require Import Prelude Cstring Kmalloc Sched Pipe Alloc HeapAlloc Vfs VfsSynth VfsPath VfsApi VfsInv VfsRefs VfsDir VfsOps VfsTree VfsFile VfsFd VfsWalk VfsProps Paging Kernel Posix PosixPath.

(** ** Lengths *)

Fixpoint pieces (l : list cstr) : nat := match l with [] => 0%nat | c :: l' => (1 + length c + pieces l')%nat end.

Lemma pieces_split p : pieces (split_slash p) = S (length p).
Proof.
  induction p as [|c p IH]; [done|]. simpl. destruct (is_slash c); simpl; [by rewrite IH|].
  destruct (split_slash p) eqn:E; [by destruct (split_slash_ne p)|]. simpl in *. lia.
Qed.
Lemma pieces_filter l : (pieces (filter nonempty l) <= pieces l)%nat.
Proof. induction l as [|c l IH]; [done|]. rewrite filter_cons. case_decide; simpl; lia. Qed.
Lemma pieces_path l : length (path_of l) = pieces l.
Proof. induction l as [|c l IH]; [done|]. rewrite path_of_cons. simpl. rewrite length_app, IH. lia. Qed.

Lemma components_len r : (length (path_of (components (slash :: r))) <= length (slash :: r))%nat.
Proof.
  rewrite components_slash, pieces_path. unfold components. pose proof (pieces_filter (split_slash r)) as Hf.
  rewrite pieces_split in Hf. simpl. lia.
Qed.
Lemma fold_len comps : forall st, (length (path_of (foldl dot_step st comps)) <= length (path_of st) + length (path_of comps))%nat.
Proof.
  induction comps as [|c comps IH]; intros st; simpl foldl; [lia|]. rewrite IH, path_of_cons. simpl. rewrite length_app.
  unfold dot_step. repeat case_bool_decide; [lia|pose proof (path_of_take (pred (length st)) st); lia|].
  rewrite path_of_app, path_of_one, length_app. simpl. lia.
Qed.
Lemma lexical_len r : zlen (slash :: r) < VFS_PATH_MAX -> zlen (render (lexical (components (slash :: r)))) < VFS_PATH_MAX.
Proof.
  intros Hr. rewrite render_len. case_bool_decide; [done|]. pose proof (fold_len (components (slash :: r)) []) as Hf.
  pose proof (components_len r). unfold lexical. change (path_of []) with (@nil byte) in Hf. simpl length in Hf. lia.
Qed.

Lemma accepted_join base path : path_accepted base path = true ->
  exists r, join base (default [] path) = slash :: r /\ zlen (slash :: r) < VFS_PATH_MAX.
Proof.
  unfold path_accepted. destruct path as [[|c p]|], base as [|b base]; try done. intros [Hb Hl]%andb_true_iff.
  apply bool_decide_eq_true in Hb as ->. change (default [] (Some (c :: p))) with (c :: p). unfold join.
  destruct (is_slash c) eqn:Ec; apply Z.ltb_lt in Hl.
  - apply bool_decide_eq_true in Ec as ->. eauto.
  - eexists. split; [reflexivity|]. destruct (ends_in_slash (slash :: base)); simpl in *; rewrite ?length_app in *; simpl in *; lia.
Qed.

(** ** Paths *)

(** C37: [posix_basepath] computes the lexical meaning of a path: it always ends, accepts
    exactly the non-empty paths that fit [VFS_PATH_MAX] behind an absolute base, and
    returns the base and the path joined, cut into components, with [.] dropped and each
    [..] cancelling the component before it (the root stays the root). *)
Theorem basepath_lexical (base : cstr) (path : option cstr) : posix_basepath base path =
  Done (if path_accepted base path then Some (render (lexical (components (join base (default [] path))))) else None).
Proof. apply basepath_spec. Qed.

(** C38: The paths it returns are canonical: absolute, shorter than [VFS_PATH_MAX], without
    empty, [.] or [..] components, and resolved against any directory they are returned
    unchanged. *)
Theorem basepath_canonical (base base' : cstr) (path : option cstr) full :
  posix_basepath base path = Done (Some full) ->
  zlen full < VFS_PATH_MAX /\ Forall canonical (components full) /\ full = render (components full) /\
  posix_basepath (slash :: base') (Some full) = Done (Some full).
Proof.
  rewrite basepath_spec. destruct (path_accepted base path) eqn:Ea; [|done]. intros [= <-].
  destruct (accepted_join _ _ Ea) as (r & -> & Hr). pose proof (lexical_canonical (slash :: r)) as Hs.
  pose proof (lexical_len _ Hr) as Hl. set (st := lexical (components (slash :: r))) in *.
  pose proof (components_render _ Hs) as Hc. rewrite Hc. split_and!; [done|done|done|].
  rewrite basepath_spec. replace (join _ _) with (render st); [|by destruct st].
  rewrite Hc, (lexical_fixed _ Hs). replace (path_accepted _ _) with true; [done|]. symmetry.
  unfold path_accepted. destruct (render st) as [|c q] eqn:E; [by destruct st|].
  change (is_slash slash) with true. cbn [andb]. replace c with slash by (destruct st; cbn [render] in E; [by simplify_eq|rewrite path_of_cons in E; by simplify_eq]).
  change (is_slash slash) with true. cbn match. apply Z.ltb_lt. exact Hl.
Qed.

Lemma basepath_canonical_witness :
  posix_basepath (cs "/usr/lib") (Some (cs "..//./bin/x/..")) = Done (Some (cs "/usr/bin")) /\
  posix_basepath (cs "/tmp") (Some (cs "/usr/bin")) = Done (Some (cs "/usr/bin")).
Proof.
  assert (E : posix_basepath (cs "/usr/lib") (Some (cs "..//./bin/x/..")) = Done (Some (cs "/usr/bin"))) by reflexivity.
  split; [exact E|]. exact (proj2 (proj2 (proj2 (basepath_canonical _ (cs "tmp") _ _ E)))).
Defined.

(** ** Reading and writing at an offset *)

Section At.
Context {H N : Type} `{!Allocator H} `{!AllocatorLaws H}.
Implicit Types (v : vfs H) (L : gset Z) (hd : Z -> Z) (k : kernel H N).

Lemma wp_on_vfs {A} (m : M (vfs H) A) k (Q : A -> kernel H N -> Prop) :
  wp m (k_vfs k) (fun a v => Q a (k <| k_vfs := v |>)) -> wp (on_vfs m) k Q.
Proof. apply wp_zoom. Qed.

Lemma aset_twice {A} (l : list A) i x y : aset (aset l i x) i y = aset l i y.
Proof. unfold aset. destruct (i <? 0); [done|]. apply list_insert_insert_eq. Qed.

(** A seek from the start sets the offset of the descriptor. *)
Lemma seek_set_spec v fd f off : fd_ok v fd = true -> aget (v_fds v) fd = Some f -> 0 <= off < 2 ^ 63 ->
  wp (vfs_lseek fd off SEEK_SET) v (fun r v' => r = off /\ v' = v <| v_fds := aset (v_fds v) fd (f <| f_offset := off |>) |>).
Proof.
  intros Hfd Hf Hoff. unfold vfs_lseek. do 2 wp_step. rewrite Hfd. cbn [negb]. wp_step. eapply wp_fd_at; [done|].
  rewrite Z.eqb_refl. do 2 wp_step. rewrite i64_small by lia. rewrite (proj2 (Z.ltb_ge _ 0)) by lia. wp_step.
  eapply wp_upd_fd; [done|]. by wp_step.
Qed.
Lemma seek_tell_spec v fd f : fd_ok v fd = true -> aget (v_fds v) fd = Some f -> 0 <= f_offset f < 2 ^ 63 ->
  wp (vfs_lseek fd 0 SEEK_CUR) v (fun r v' => r = f_offset f /\ v' = v).
Proof.
  intros Hfd Hf Hoff. unfold vfs_lseek. do 2 wp_step. rewrite Hfd. cbn [negb]. wp_step. eapply wp_fd_at; [done|].
  change (SEEK_CUR =? SEEK_SET) with false. change (SEEK_CUR =? SEEK_CUR) with true. cbn match. do 2 wp_step.
  rewrite (i64_small (f_offset f)), Z.add_0_r, i64_small by lia. rewrite (proj2 (Z.ltb_ge _ 0)) by lia. wp_step.
  eapply wp_upd_fd; [done|]. wp_step. split; [done|].
  replace (f <| f_offset := f_offset f |>) with f by (by destruct f). rewrite (aset_same _ _ _ Hf). by destruct v.
Qed.

(** The operation ran at [off] and moved nothing but the offset of [fd]. *)
Definition moves_offset v (fd : Z) (f : vfs_fd) v' : Prop :=
  exists o, v_fds v' = aset (v_fds v) fd (f <| f_offset := o |>).

Lemma seek_around_spec {A} (err : A) (io : M (vfs H) A) k fd f off (P : A -> vfs H -> Prop) :
  fd_ok (k_vfs k) fd = true -> aget (v_fds (k_vfs k)) fd = Some f -> 0 <= f_offset f < 2 ^ 63 -> 0 <= off < 2 ^ 63 ->
  f_used f = true -> fd < FD_MAX ->
  (let v1 := (k_vfs k) <| v_fds := aset (v_fds (k_vfs k)) fd (f <| f_offset := off |>) |> in
   wp io v1 (fun a v' => P a v' /\ moves_offset v1 fd (f <| f_offset := off |>) v')) ->
  wp (seek_around fd off err io) k (fun a k' => exists v', P a v' /\ v_fds (k_vfs k') = v_fds (k_vfs k) /\
    k_vfs k' = v' <| v_fds := v_fds (k_vfs k) |>).
Proof.
  intros Hfd Hf Hof Hoff Hu Hm Hio. unfold seek_around, posix_seek_to. wp_step.
  rewrite (proj2 (Z.ltb_ge _ off)) by lia. wp_step. apply wp_on_vfs.
  eapply wp_mono; [by apply seek_tell_spec|]. intros r v1 [-> ->]. rewrite (proj2 (Z.ltb_ge _ 0)) by lia. wp_step.
  apply wp_on_vfs. eapply wp_mono; [by apply seek_set_spec|]. intros r v1 [-> ->]. rewrite (proj2 (Z.ltb_ge _ 0)) by lia.
  do 2 wp_step. apply wp_on_vfs. eapply wp_mono; [exact Hio|]. intros a v' [HP [o Ho]]. wp_step. apply wp_on_vfs.
  assert (Hr : 0 <= fd < zlen (v_fds (k_vfs k))) by (by eapply aget_Some_range).
  assert (Hf' : aget (v_fds v') fd = Some (f <| f_offset := o |>)) by (rewrite Ho; simpl; rewrite aset_twice; exact (aget_aset_eq _ _ _ Hr)).
  eapply wp_mono; [apply seek_set_spec; [|exact Hf'|exact Hof]|].
  { unfold fd_ok. simpl. rewrite Hf'. simpl. rewrite Hu, andb_true_r. by apply Z.ltb_lt. }
  intros ? v2 [_ ->]. wp_step. exists v'. split; [done|].
  assert (E : aset (v_fds v') fd (f <| f_offset := f_offset f |>) = v_fds (k_vfs k)).
  { rewrite Ho. simpl. rewrite !aset_twice. destruct f. by apply aset_same. }
  simpl in *. rewrite E. done.
Qed.

Lemma read_moves_offset L hd v fd f i n : vfs_ok L hd v -> open_file v fd f i -> 0 <= n < 2 ^ 63 ->
  wp (vfs_read fd n) v (fun _ v' => vfs_ok L hd v' /\ moves_offset v fd f v').
Proof.
  intros Hok Hof Hn. pose proof (open_fd_ok _ _ _ _ _ _ Hok Hof) as Hfd. destruct Hof as [Hf Hu Hm Ha Hi _ Hperm].
  pose proof (aget_elem _ _ _ Hf) as Hin. pose proof (vo_used _ _ _ Hok _ Hin Hu) as [_ Hoff].
  assert (Hsame : moves_offset v fd f v).
  { exists (f_offset f). replace (f <| f_offset := f_offset f |>) with f by (by destruct f). by rewrite aset_same. }
  unfold vfs_read. do 2 wp_step. rewrite Hfd. cbn [negb]. wp_step. eapply wp_fd_at; [done|]. rewrite Hm.
  change (O_RDWR =? O_WRONLY) with false. cbn match.
  eapply (wp_permitted L hd); [done|done|by eapply permitted_sub|]. change (0 <? 0) with false. cbn match.
  wp_step. eapply op_of_spec; [done|]. destruct (o ← i_ops i; op_read o) as [g|] eqn:Eg.
  - apply bind_Some in Eg as (o & Ho & Hg). wp_step. eapply wp_mono; [by eapply (op_read_spec L hd)|]. intros [c bs] v1 [Hok1 Hf1].
    wp_step. destruct (0 <? c).
    + eapply wp_upd_fd; [by rewrite Hf1|]. wp_step. split; [|eexists; simpl; by rewrite Hf1].
      apply vfs_ok_offset; [done|by rewrite Hf1|by rewrite Hf1|apply u64_range].
    + do 2 wp_step. split; [done|]. destruct Hsame as [o' E]. exists o'. by rewrite Hf1.
  - unfold fail, set_errno. do 3 wp_step. split; [by apply vfs_ok_errno|done].
Qed.

Lemma open_file_at v fd f i off : open_file v fd f i ->
  open_file (v <| v_fds := aset (v_fds v) fd (f <| f_offset := off |>) |>) fd (f <| f_offset := off |>) i.
Proof. intros []. split; try done. simpl. apply aget_aset_eq. by eapply aget_Some_range. Qed.

Lemma pread_spec L hd k fd f i n off :
  vfs_ok L hd (k_vfs k) -> open_file (k_vfs k) fd f i -> f_offset f < 2 ^ 63 -> 0 <= n < 2 ^ 63 -> 0 <= off < 2 ^ 63 ->
  wp (atm_posix_pread (N := N) fd n off) k (fun x k' =>
    x = (Z.max 0 (Z.min n (zlen (content i) - off)), take (Z.to_nat n) (drop (Z.to_nat off) (content i))) /\
    v_fds (k_vfs k') = v_fds (k_vfs k)).
Proof.
  intros Hok Hof Hsz Hn Hoff. pose proof (open_fd_ok _ _ _ _ _ _ Hok Hof) as Hfd.
  pose proof (of_fd _ _ _ _ Hof) as Hf. pose proof (of_used _ _ _ _ Hof) as Hu.
  pose proof (vo_used _ _ _ Hok _ (aget_elem _ _ _ Hf) Hu) as [_ Hf0].
  assert (Hok1 : vfs_ok L hd ((k_vfs k) <| v_fds := aset (v_fds (k_vfs k)) fd (f <| f_offset := off |>) |>))
    by (apply vfs_ok_offset; [done|done|by eapply aget_elem|lia]).
  pose proof (open_file_at _ _ _ _ off Hof) as Hof1.
  eapply wp_mono; [apply (seek_around_spec _ _ k fd f off (fun x _ =>
    x = (Z.max 0 (Z.min n (zlen (content i) - off)), take (Z.to_nat n) (drop (Z.to_nat off) (content i))))); try done|].
  - pose proof (aget_Some_range _ _ _ Hf) as Hr. rewrite (vo_nfds _ _ _ Hok) in Hr. unfold FD_MAX. lia.
  - cbv zeta. apply wp_and.
    + eapply wp_mono; [by eapply (vfs_read_spec L hd)|]. by intros x v' ->.
    + eapply wp_mono; [by eapply (read_moves_offset L hd)|]. by intros x v' [_ ?].
  - intros x k' (v' & -> & E & _). done.
Qed.
End At.

(** [pread] reads at the offset it is given and leaves the descriptor's own offset, and
    every other descriptor, as it was: on a file open for reading and writing it returns
    the bytes of the file from that offset, as many as there are up to the count. *)
Theorem pread_keeps_offset {N} (k : kernel heap N) L hd fd f i n off :
  vfs_ok L hd (k_vfs k) -> open_file (k_vfs k) fd f i -> f_offset f < 2 ^ 63 -> 0 <= n < 2 ^ 63 -> 0 <= off < 2 ^ 63 ->
  wp (atm_posix_pread fd n off) k (fun x k' =>
    x = (Z.max 0 (Z.min n (zlen (content i) - off)), take (Z.to_nat n) (drop (Z.to_nat off) (content i))) /\
    v_fds (k_vfs k') = v_fds (k_vfs k)).
Proof. apply pread_spec. Qed.

(** A kernel with the small filesystem, the idle task and no network, for evaluation. *)
Definition blank_sched : sched := mk_sched [] None None 0 0 0 [] 0 0 [].
Definition demo_kernel : kernel heap unit :=
  mk_kernel (mk_pstate (sched_init 0 0 blank_sched) (replicate 8 zero_pipe)) demo_vfs
    (mk_kmem boot_heap ∅ ∅ 0 0 []) ∅ (replicate 16 slot_zero) tt (replicate 32 meta_zero) (cs "/") 0x12.

Lemma pread_keeps_offset_witness :
  wp (atm_posix_pread 3 4 2) demo_kernel (fun x k' => x = (0, []) /\ v_fds (k_vfs k') = v_fds demo_vfs).
Proof.
  destruct demo_ok as [L Hok]. destruct demo_open as (f & i & Hof & E).
  assert (Hc : content i = []).
  { pose proof (of_inode _ _ _ _ Hof) as Hi. pose proof (of_fd _ _ _ _ Hof) as Hf.
    assert (Hall : forallb (fun x => bool_decide (content (x.2) = [])) (map_to_list (v_inodes demo_vfs)) = true) by (by vm_compute).
    rewrite forallb_forall in Hall. apply elem_of_map_to_list, list_elem_of_In, Hall in Hi. by apply bool_decide_eq_true in Hi. }
  eapply wp_mono; [apply (pread_keeps_offset demo_kernel L demo_held 3 f i); [exact Hok|exact Hof|by rewrite E|lia|lia]|].
  intros y k' [-> Hk]. rewrite Hc in *. by split.
Defined.

(** ** The working directory *)

Section Cwd.
Context {H N : Type} `{!Allocator H}.
Implicit Types (k : kernel H N).

Lemma zoom_inv {S T A} (get : S -> T) (put : T -> S -> S) (m : M T A) s a s' :
  zoom get put m s = Done (a, s') -> exists t, m (get s) = Done (a, t) /\ s' = put t s.
Proof. unfold zoom. destruct (m (get s)) as [[b t]|]; [|done]. intros [= -> <-]. by exists t. Qed.

(** Where the working directory is kept. *)
Definition cwd_of k : option cstr :=
  match current k with None => Some (k_bootstrap_cwd k) | Some t => t_cwd <$> task_pool (tasks k) !! t end.

Lemma posix_cwd_inv k c k' : posix_cwd k = Done (c, k') -> k' = k /\ cwd_of k = Some c.
Proof. unfold posix_cwd, deref, cwd_of. case_match; [|done]. by intros [= <- <-]. Qed.

Lemma abspath_inv k path o k' : posix_abspath path k = Done (o, k') ->
  k' = k /\ exists cwd, cwd_of k = Some cwd /\ posix_basepath cwd path = Done o.
Proof.
  unfold posix_abspath. intros (cwd & k1 & Hc & Hb)%bind_inv. apply posix_cwd_inv in Hc as [-> Hc].
  unfold lift in Hb. destruct (posix_basepath cwd path) eqn:E; [|done]. injection Hb as <- <-. eauto.
Qed.

(** Only the working directory of the current task changes. *)
Definition cwd_changed k k' (full : cstr) : Prop :=
  cwd_of k' = Some full /\ forall t, current k <> Some t -> task_pool (tasks k') !! t = task_pool (tasks k) !! t.

Lemma set_cwd_inv k full u k' : set_cwd full k = Done (u, k') ->
  cwd_changed k k' full /\ zlen full < VFS_PATH_MAX /\ k_vfs k' = k_vfs k.
Proof.
  unfold set_cwd. intros (? & k1 & Hg & Hs)%bind_inv. unfold guard, fits_in in Hg.
  destruct (Z.ltb_spec (zlen full) VFS_PATH_MAX) as [Hl|]; [|done]. injection Hg as _ <-.
  unfold bind, gets in Hs. destruct (current k) as [t|] eqn:Ec.
  - apply zoom_inv in Hs as (p & Hp & ->). apply zoom_inv in Hp as (s & Hm & ->). unfold mod_task in Hm.
    destruct (task_pool (ps_sched (k_ps k)) !! t) as [tk|] eqn:Et; [|done]. injection Hm as <- <-. split; [|done].
    unfold cwd_changed, cwd_of, current, tasks in *. simpl. rewrite Ec. rewrite list_lookup_alter_eq, Et. split; [done|].
    intros t' Hne. apply list_lookup_alter_ne. congruence.
  - injection Hs as _ <-. split; [|done]. unfold cwd_changed, cwd_of, current, tasks in *. simpl. by rewrite Ec.
Qed.

Lemma on_vfs_tasks {A} (m : M (vfs H) A) k a k' : on_vfs m k = Done (a, k') -> tasks k' = tasks k /\ k_bootstrap_cwd k' = k_bootstrap_cwd k.
Proof. by intros (v & _ & ->)%zoom_inv. Qed.
End Cwd.

(** A [chdir] that succeeds makes the canonical form of its argument the working
    directory of the calling task, so that [getcwd] with room enough returns it; no other
    task's is changed, and one that fails changes none. *)
Theorem chdir_changes_own_cwd {N} (k : kernel heap N) path r k' : atm_posix_chdir path k = Done (r, k') ->
  (r = 0 /\ exists cwd full, cwd_of k = Some cwd /\ posix_basepath cwd path = Done (Some full) /\ cwd_changed k k' full /\
     forall n, zlen full < n -> atm_posix_getcwd true n k' = Done (Some full, k')) \/
  (r = -1 /\ cwd_of k' = cwd_of k /\ tasks k' = tasks k).
Proof.
  unfold atm_posix_chdir. intros (o & k1 & Ha & Hb)%bind_inv. apply abspath_inv in Ha as [-> (cwd & Hc & Hp)].
  destruct o as [full|]; [|injection Hb as <- <-; by right].
  apply bind_inv in Hb as (st & k1 & Hv & Hb). destruct (on_vfs_tasks _ _ _ _ Hv) as [Ht Hbc].
  assert (Hcw : cwd_of k1 = cwd_of k) by (unfold cwd_of, current; by rewrite Ht, Hbc).
  destruct (is_dir st); [|injection Hb as <- <-; by right].
  apply bind_inv in Hb as (u & k2 & Hs & Hr). injection Hr as <- <-. left. split; [done|].
  apply set_cwd_inv in Hs as ([Hf Ho] & _). exists cwd, full. split_and!; [done|done| |].
  - split; [done|]. intros t Hne. unfold current in *. rewrite <- Ht in Hne |- *. by apply Ho.
  - intros n Hn. unfold atm_posix_getcwd, posix_cwd, bind, deref. unfold cwd_of in Hf. rewrite Hf.
    unfold ret. simpl. by rewrite (proj2 (Z.leb_gt n _)).
Qed.

Definition chdir_demo : kernel heap unit :=
  match atm_posix_chdir (Some (cs "x/../.")) demo_kernel with Done (_, k) => k | Fault => demo_kernel end.

Lemma chdir_changes_own_cwd_witness : cwd_of chdir_demo = Some (cs "/").
Proof.
  assert (E : atm_posix_chdir (Some (cs "x/../.")) demo_kernel = Done (0, chdir_demo)) by (by vm_compute).
  destruct (chdir_changes_own_cwd _ _ _ _ E) as [(_ & cwd & full & Hc & Hb & [Hf _] & _)|[? _]]; [|done].
  rewrite Hf. f_equal. injection Hc as <-. vm_compute in Hb. by injection Hb as <-.
Defined.
