(* ===== verification/Socket.v ===== *)
(** * Socket descriptors (src/src/native_socket.c)

    A registry of sixteen slots, each a TCP connection owned by one task.  The
    connections themselves belong to src/src/net_tcp.c, which the registry uses through
    [Tcp]: an operation on a connection returns its result and the connection as it
    leaves it. *)

From S2P Require Import Prelude Sched Pipe Kernel.

Definition ATM_AF_INET : Z := 2.
Definition ATM_SOCK_STREAM : Z := 1.
Definition ATM_IPPROTO_TCP : Z := 6.
Definition ATM_SOCKET_MAX : Z := 16.

(** [net_ip] is the interface's address, [net.ip]. *)
Class Tcp (N : Type) := {
  atm_tcp_connect : atm_tcp_conn -> list Z -> Z -> Z -> M N (Z * atm_tcp_conn);
  atm_tcp_listen : atm_tcp_conn -> Z -> M N (Z * atm_tcp_conn);
  atm_tcp_accept : atm_tcp_conn -> atm_tcp_conn -> Z -> M N (Z * atm_tcp_conn);
  atm_tcp_send : atm_tcp_conn -> list byte -> M N (Z * atm_tcp_conn);
  atm_tcp_recv : atm_tcp_conn -> Z -> Z -> M N (Z * list byte * atm_tcp_conn);
  atm_tcp_close : atm_tcp_conn -> M N (Z * atm_tcp_conn);
  net_ip : N -> list Z }.

Record sockaddr_in := mk_sockaddr { sa_family : Z; sa_port : Z; sa_addr : list Z }.

(** [(uint16_t)((p>>8)|(p<<8))] *)
Definition swap_port (p : Z) : Z := u16 (Z.lor (Z.shiftr p 8) (Z.shiftl p 8)).

Section Socket.
Context {H N : Type} `{!Tcp N}.
Abbreviation K := (M (kernel H N)).

Definition task_at (k : kernel H N) (task : option nat) : option Sched.task := t ← task; task_pool (tasks k) !! t.

(** The slot number of a descriptor: [valid_fd]. *)
Definition socket_index (x : task) (fd : Z) : option Z :=
  if (t_fd_table_ready x =? 0) || (fd <? 3) || (TASK_FD_MAX <=? fd) then None
  else i ← aget (t_socket_map x) fd; if (i <? 0) || (ATM_SOCKET_MAX <=? i) then None else Some i.

(** [slot_for]: the slot a descriptor of the task stands for. *)
Definition slot_for (k : kernel H N) (task : option nat) (fd : Z) : option (Z * socket_slot) :=
  x ← task_at k task;
  i ← socket_index x fd;
  s ← aget (k_slots k) i;
  if truth (ss_used s) && bool_decide (ss_owner s = task) then Some (i, s) else None.

Definition native_socket_is_fd (k : kernel H N) (task : option nat) (fd : Z) : bool :=
  bool_decide (is_Some (slot_for k task fd)).

Definition put_slot (i : Z) (s : socket_slot) : K unit := modify (fun k => k <| k_slots := aset (k_slots k) i s |>).
Definition put_conn (i : Z) (s : socket_slot) (c : atm_tcp_conn) : K unit := put_slot i (s <| ss_conn := c |>).
Definition set_socket_map (t : nat) (fd v : Z) : K unit :=
  upd_task t (fun x => x <| t_socket_map := aset (t_socket_map x) fd v |>).

Definition native_socket_task_init (task : option nat) : K unit :=
  match task with
  | None => ret tt
  | Some t => upd_task t (fun x => x <| t_socket_map := replicate (Z.to_nat TASK_FD_MAX) (-1) |>)
  end.

(** The first free slot of the registry, -1 for none. *)
Definition free_slot (k : kernel H N) : Z :=
  default (-1) (first_idx (fun i => match aget (k_slots k) i with Some s => ss_used s =? 0 | None => false end) 0 ATM_SOCKET_MAX).

(** A slot is claimed for [fd] of the task. *)
Definition claim_slot (t : nat) (fd slot : Z) : K unit :=
  do* put_slot slot (mk_slot (Some t) conn_zero 1) in
  set_socket_map t fd slot.

Definition native_socket_open (task : option nat) (domain type protocol : Z) : K Z :=
  let* o := gets (fun k => task_at k task) in
  match task, o with
  | Some t, Some x =>
    if (t_fd_table_ready x =? 0) || negb (domain =? ATM_AF_INET) || negb (type =? ATM_SOCK_STREAM) || negb (protocol =? ATM_IPPROTO_TCP)
    then ret (-1)
    else
      let fd := default (-1) (first_idx (slot_free x) 3 TASK_FD_MAX) in
      let* slot := gets free_slot in
      if (fd <? 0) || (slot <? 0) then ret (-1)
      else do* claim_slot t fd slot in ret fd
  | _, _ => ret (-1)
  end.

Definition native_socket_connect (task : option nat) (fd : Z) (a : option sockaddr_in) (timeout : Z) : K Z :=
  let* o := gets (fun k => slot_for k task fd) in
  match o, a with
  | Some (i, s), Some sa =>
    if negb (sa_family sa =? ATM_AF_INET) || (swap_port (sa_port sa) =? 0) then ret (-1)
    else
      let* '(r, c) := on_net (atm_tcp_connect (ss_conn s) (sa_addr sa) (swap_port (sa_port sa)) timeout) in
      do* put_conn i s c in
      ret r
  | _, _ => ret (-1)
  end.

(** Every byte of the address is 0 or that of the interface. *)
Definition local_addr (addr ip : list Z) : bool :=
  forallb (fun i => match aget addr i with Some b => (b =? 0) || bool_decide (Some b = u8 <$> aget ip i) | None => false end) [0; 1; 2; 3].

Definition native_socket_bind (task : option nat) (fd : Z) (a : option sockaddr_in) : K Z :=
  let* o := gets (fun k => slot_for k task fd) in
  match o, a with
  | Some (i, s), Some sa =>
    let* ip := gets (fun k => net_ip (k_net k)) in
    if negb (sa_family sa =? ATM_AF_INET) || negb (bool_decide (c_state (ss_conn s) = ATM_TCP_CLOSED)) ||
       negb (local_addr (sa_addr sa) ip) || (swap_port (sa_port sa) =? 0)
    then ret (-1)
    else do* put_conn i s ((ss_conn s) <| c_local_port := swap_port (sa_port sa) |>) in ret 0
  | _, _ => ret (-1)
  end.

Definition native_socket_listen (task : option nat) (fd backlog : Z) : K Z :=
  let* o := gets (fun k => slot_for k task fd) in
  match o with
  | Some (i, s) =>
    if (backlog <? 0) || (1 <? backlog) then ret (-1)
    else
      let* '(r, c) := on_net (atm_tcp_listen (ss_conn s) (c_local_port (ss_conn s))) in
      do* put_conn i s c in
      ret r
  | None => ret (-1)
  end.

(** The descriptor search of [accept], which does not look at the pipes. *)
Definition accept_free (x : task) (fd : Z) : bool :=
  match aget (t_fd_map x) fd, aget (t_socket_map x) fd with Some a, Some b => (a <? 0) && (b <? 0) | _, _ => false end.

Definition peer_of (c : atm_tcp_conn) : sockaddr_in := mk_sockaddr ATM_AF_INET (swap_port (c_remote_port c)) (c_remote_ip c).

Definition native_socket_accept (task : option nat) (fd : Z) (timeout : Z) : K (Z * option sockaddr_in) :=
  let* o := gets (fun k => slot_for k task fd) in
  let* x := gets (fun k => task_at k task) in
  match task, o, x with
  | Some t, Some (_, l), Some x =>
    if negb (bool_decide (c_state (ss_conn l) = ATM_TCP_LISTEN)) then ret (-1, None)
    else
      let child_fd := default (-1) (first_idx (accept_free x) 3 TASK_FD_MAX) in
      let* slot := gets free_slot in
      if (child_fd <? 0) || (slot <? 0) then ret (-1, None)
      else
        do* claim_slot t child_fd slot in
        let* '(r, c) := on_net (atm_tcp_accept (ss_conn l) conn_zero timeout) in
        if r <? 0 then
          do* set_socket_map t child_fd (-1) in
          do* put_slot slot slot_zero in
          ret (-1, None)
        else
          do* put_conn slot (mk_slot (Some t) conn_zero 1) c in
          ret (child_fd, Some (peer_of c))
  | _, _, _ => ret (-1, None)
  end.

(** A NULL buffer is [None]. *)
Definition native_socket_send (task : option nat) (fd : Z) (b : option (list byte)) : K Z :=
  let* o := gets (fun k => slot_for k task fd) in
  match o, b with
  | Some (i, s), Some bytes =>
    if 512 <? zlen bytes then ret (-1)
    else
      let* '(r, c) := on_net (atm_tcp_send (ss_conn s) bytes) in
      do* put_conn i s c in
      ret r
  | _, _ => ret (-1)
  end.

Definition native_socket_recv (task : option nat) (fd : Z) (buf_ok : bool) (n timeout : Z) : K (Z * list byte) :=
  let* o := gets (fun k => slot_for k task fd) in
  match o with
  | Some (i, s) =>
    if negb buf_ok || (n =? 0) || (512 <? n) then ret (-1, [])
    else
      let* '(r, bs, c) := on_net (atm_tcp_recv (ss_conn s) n timeout) in
      do* put_conn i s c in
      ret (r, bs)
  | None => ret (-1, [])
  end.

(** The slot is cleared whether or not the peer could be told. *)
Definition native_socket_close (task : option nat) (fd : Z) : K Z :=
  let* o := gets (fun k => slot_for k task fd) in
  match task, o with
  | Some t, Some (i, s) =>
    do* on_net (atm_tcp_close (ss_conn s)) in
    do* set_socket_map t fd (-1) in
    do* put_slot i slot_zero in
    ret 0
  | _, _ => ret (-1)
  end.

Definition native_socket_task_cleanup (task : option nat) : K unit :=
  match task with
  | None => ret tt
  | Some t =>
    for_each (fun fd =>
      let* x := ktask t in
      let* e := deref (fun _ => aget (t_socket_map x) fd) in
      if 0 <=? e then do* native_socket_close task fd in ret tt else ret tt) (seqZ 3 (TASK_FD_MAX - 3))
  end.

Definition native_socket_poll (k : kernel H N) (task : option nat) (fd events : Z) : Z :=
  match slot_for k task fd with
  | None => ATM_POLLNVAL
  | Some (_, s) =>
    let c := ss_conn s in
    if bool_decide (c_state c = ATM_TCP_ERROR) then ATM_POLLERR
    else
      Z.lor (Z.lor (if bool_decide (c_state c = ATM_TCP_CLOSED \/ c_state c = ATM_TCP_FIN_WAIT) then ATM_POLLHUP else 0)
                   (if bool_decide (c_state c = ATM_TCP_ESTABLISHED) && truth (Z.land events ATM_POLLOUT) then ATM_POLLOUT else 0))
            (if truth (Z.land events ATM_POLLIN) && existsb (fun o => truth (o_used o)) (c_ooo c) then ATM_POLLIN else 0)
  end.
End Socket.
