(* ===== verification/NativeFd.v ===== *)
(** * Descriptors and directory streams of native tasks (src/src/native_fd.c, src/src/native_dir.c)

    A task's descriptor is a number into its own maps, which lead to a descriptor of the
    filesystem, a pipe end or a socket.  Close-on-exec flags are kept beside the tasks in
    [fd_exec_meta].  A transfer on a pipe that has to wait returns [Blocked], as in
    [Pipe]; a vector that is interrupted by a wait is resumed with what is left of it. *)

From S2P Require Import Prelude Cstring Sched Pipe Alloc Vfs VfsSynth VfsPath VfsApi Paging Kernel Posix Socket.

Definition ATM_NATIVE_O_ACCMODE : Z := 0x0003.
Definition ATM_NATIVE_O_CLOEXEC : Z := 0x2000.
Definition ATM_NATIVE_O_NONBLOCK : Z := 0x4000.
Definition ATM_NATIVE_F_DUPFD : Z := 0.
Definition ATM_NATIVE_F_GETFD : Z := 1.
Definition ATM_NATIVE_F_SETFD : Z := 2.
Definition ATM_NATIVE_F_GETFL : Z := 3.
Definition ATM_NATIVE_F_SETFL : Z := 4.
Definition ATM_NATIVE_F_DUPFD_CLOEXEC : Z := 1030.
Definition ATM_NATIVE_FD_CLOEXEC : Z := 1.
Definition ATM_NATIVE_POLL_MAX : Z := 16.
Definition ATM_EBADF : Z := 9.
Definition ATM_ENOTDIR : Z := 20.

Record pollfd := mk_pollfd { pf_fd : Z; pf_events : Z; pf_revents : Z }.

Section NativeFd.
Context {H N : Type} `{!Allocator H} `{!Tcp N}.
Abbreviation K := (M (kernel H N)).
Abbreviation kern := (kernel H N).

(** ** Close-on-exec flags *)

Definition meta_of (k : kern) (task : option nat) : option nat :=
  match task with None => None | Some _ => fst <$> list_find (fun m => fe_owner m = task) (k_exec k) end.

Definition fd_exec_meta_for (task : option nat) (create : bool) : K (option nat) :=
  let* found := gets (fun k => meta_of k task) in
  match task, found with
  | None, _ => ret None
  | _, Some i => ret (Some i)
  | Some _, None =>
    if negb create then ret None
    else
      let* free := gets (fun k => fst <$> list_find (fun m => fe_owner m = None) (k_exec k)) in
      match free with
      | None => ret None
      | Some i => do* modify (fun k => k <| k_exec := <[i := mk_meta task (replicate 32 0)]> (k_exec k) |>) in ret (Some i)
      end
  end.

Definition upd_meta (i : nat) (f : fd_exec_meta -> fd_exec_meta) : K unit :=
  modify (fun k => k <| k_exec := alter f i (k_exec k) |>).

Definition fd_exec_reset (task : option nat) : K unit :=
  let* m := fd_exec_meta_for task true in
  match m with None => ret tt | Some i => upd_meta i (fun x => x <| fe_flags := replicate 32 0 |>) end.
Definition fd_exec_drop (task : option nat) : K unit :=
  let* m := fd_exec_meta_for task false in
  match m with None => ret tt | Some i => upd_meta i (fun _ => meta_zero) end.

Definition in_table (fd : Z) : bool := (0 <=? fd) && (fd <? TASK_FD_MAX).

Definition fd_exec_get (k : kern) (task : option nat) (fd : Z) : bool :=
  match meta_of k task with
  | Some i =>
    in_table fd && match k_exec k !! i with
                   | Some m => match aget (fe_flags m) fd with Some b => truth b | None => false end
                   | None => false
                   end
  | None => false
  end.
Definition fd_exec_set (task : option nat) (fd : Z) (value : bool) : K Z :=
  let* m := fd_exec_meta_for task value in
  match m with
  | Some i =>
    if negb (in_table fd) then ret (-1)
    else do* upd_meta i (fun x => x <| fe_flags := aset (fe_flags x) fd (if value then 1 else 0) |>) in ret 0
  | None => ret (-1)
  end.

(** ** The maps *)

Definition fd_backend (x : task) (fd : Z) : option Z :=
  if (t_fd_table_ready x =? 0) || negb (in_table fd) then None
  else b ← aget (t_fd_map x) fd; if b <? 0 then None else Some b.
(** [fd_valid] with the filesystem descriptor it finds. *)
Definition vfs_fd_of (k : kern) (task : option nat) (fd : Z) : option Z := x ← task_at k task; fd_backend x fd.
Definition fd_valid (k : kern) (task : option nat) (fd : Z) : bool := bool_decide (is_Some (vfs_fd_of k task fd)).

Definition is_pipe (k : kern) (task : option nat) (fd : Z) : bool := native_pipe_is_fd (k_ps k) task fd.
Definition is_socket (k : kern) (task : option nat) (fd : Z) : bool := native_socket_is_fd k task fd.

Definition set_fd_map (t : nat) (fd v : Z) : K unit := upd_task t (fun x => x <| t_fd_map := aset (t_fd_map x) fd v |>).
Definition set_fd_flags (t : nat) (fd v : Z) : K unit := upd_task t (fun x => x <| t_fd_flags := aset (t_fd_flags x) fd v |>).
Definition fd_flags_at (t : nat) (fd : Z) : K Z := let* x := ktask t in deref (fun _ => aget (t_fd_flags x) fd).
Definition nonblocking (flags : Z) : bool := has flags ATM_NATIVE_O_NONBLOCK.

(** ** Directory streams (native_dir.c) *)

Definition dir_of_handle (k : kern) (task : option nat) (handle : Z) : option Z :=
  x ← task_at k task;
  if (t_fd_table_ready x =? 0) || (handle <? 0) || (ATM_NATIVE_DIR_MAX <=? handle) then None
  else d ← aget (t_dir_map x) handle; if d =? 0 then None else Some d.
Definition set_dir_map (t : nat) (h v : Z) : K unit := upd_task t (fun x => x <| t_dir_map := aset (t_dir_map x) h v |>).

Definition native_dir_task_init (task : option nat) : K unit :=
  match task with
  | None => ret tt
  | Some t => upd_task t (fun x => x <| t_dir_map := replicate (Z.to_nat ATM_NATIVE_DIR_MAX) 0 |>)
  end.
Definition native_dir_task_cleanup (task : option nat) : K unit :=
  match task with
  | None => ret tt
  | Some t =>
    for_each (fun i =>
      let* x := ktask t in
      let* d := deref (fun _ => aget (t_dir_map x) i) in
      if d =? 0 then ret tt else do* atm_posix_closedir d in set_dir_map t i 0) (seqZ 0 ATM_NATIVE_DIR_MAX)
  end.
Definition native_dir_open (task : option nat) (path : option cstr) : K Z :=
  let* o := gets (fun k => task_at k task) in
  match task, o, path with
  | Some t, Some x, Some _ =>
    if t_fd_table_ready x =? 0 then ret (-1)
    else
      match first_idx (fun i => bool_decide (aget (t_dir_map x) i = Some 0)) 0 ATM_NATIVE_DIR_MAX with
      | None => ret (-1)
      | Some handle =>
        let* dir := atm_posix_opendir path in
        if dir =? 0 then ret (-1) else do* set_dir_map t handle dir in ret handle
      end
  | _, _, _ => ret (-1)
  end.
(** [out] is not NULL when [out_ok]. *)
Definition native_dir_read (task : option nat) (handle : Z) (out_ok : bool) : K (Z * option dirent) :=
  let* o := gets (fun k => dir_of_handle k task handle) in
  match o with
  | Some d =>
    if negb out_ok then ret (-1, None)
    else
      let* e := atm_posix_readdir d in
      ret (match e with None => (0, None) | Some e => (1, Some e) end)
  | None => ret (-1, None)
  end.
Definition native_dir_close (task : option nat) (handle : Z) : K Z :=
  let* o := gets (fun k => dir_of_handle k task handle) in
  match task, o with
  | Some t, Some d => do* set_dir_map t handle 0 in atm_posix_closedir d
  | _, _ => ret (-1)
  end.

(** ** The table of a task: creation, release, inheritance *)

(** [for(i..) {fd_map[i]=-1; fd_flags[i]=0;}], the close-on-exec flags, the other maps. *)
Definition clear_tables (t : nat) : K unit :=
  do* upd_task t (fun x => x <| t_fd_map := replicate (Z.to_nat TASK_FD_MAX) (-1) |>
                             <| t_fd_flags := replicate (Z.to_nat TASK_FD_MAX) 0 |>) in
  do* fd_exec_reset (Some t) in
  do* native_socket_task_init (Some t) in
  do* on_ps (native_pipe_task_init (Some t)) in
  native_dir_task_init (Some t).

Definition native_fd_task_init (task : option nat) : K unit :=
  match task with
  | None => ret tt
  | Some t =>
    do* clear_tables t in
    let* f0 := atm_posix_open (Some (cs "/dev/tty")) O_RDONLY 0 in
    do* set_fd_map t 0 f0 in
    let* f1 := atm_posix_open (Some (cs "/dev/tty")) O_WRONLY 0 in
    do* set_fd_map t 1 f1 in
    let* f2 := atm_posix_open (Some (cs "/dev/tty")) O_WRONLY 0 in
    do* set_fd_map t 2 f2 in
    do* set_fd_flags t 0 O_RDONLY in
    do* set_fd_flags t 1 O_WRONLY in
    do* set_fd_flags t 2 O_WRONLY in
    upd_task t (fun x => x <| t_fd_table_ready := 1 |>)
  end.

Definition cleanup_fd (t : nat) (i : Z) : K unit :=
  let* x := ktask t in
  let* b := deref (fun _ => aget (t_fd_map x) i) in
  do* (if 0 <=? b then do* atm_posix_close b in ret tt else ret tt) in
  do* set_fd_map t i (-1) in
  set_fd_flags t i 0.

Definition native_fd_task_cleanup (task : option nat) : K unit :=
  let* o := gets (fun k => task_at k task) in
  match task, o with
  | Some t, Some x =>
    if t_fd_table_ready x =? 0 then ret tt
    else
      do* native_dir_task_cleanup task in
      do* on_ps (native_pipe_task_cleanup task) in
      do* native_socket_task_cleanup task in
      do* for_each (cleanup_fd t) (seqZ 0 TASK_FD_MAX) in
      do* upd_task t (fun x => x <| t_fd_table_ready := 0 |>) in
      fd_exec_drop task
  | _, _ => ret tt
  end.

(** One descriptor of the parent; false for [goto fail]. *)
Definition inherit_fd (c p : nat) (fd : Z) : K bool :=
  let* x := ktask p in
  let* s := deref (fun _ => aget (t_socket_map x) fd) in
  let* b := deref (fun _ => aget (t_fd_map x) fd) in
  let* e := deref (fun _ => aget (t_pipe_map x) fd) in
  let* fl := deref (fun _ => aget (t_fd_flags x) fd) in
  if 0 <=? s then ret false
  else if 0 <=? b then
    let* backend := atm_posix_dup b in
    if backend <? 0 then ret false
    else
      do* set_fd_map c fd backend in
      do* set_fd_flags c fd fl in
      let* ce := gets (fun k => fd_exec_get k (Some p) fd) in
      do* fd_exec_set (Some c) fd ce in
      ret true
  else if 0 <=? e then
    let* r := on_ps (native_pipe_inherit (Some c) (Some p) fd) in
    if r <? 0 then ret false
    else
      do* set_fd_flags c fd fl in
      let* ce := gets (fun k => fd_exec_get k (Some p) fd) in
      do* fd_exec_set (Some c) fd ce in
      ret true
  else ret true.
Fixpoint inherit_loop (c p : nat) (fds : list Z) : K bool :=
  match fds with
  | [] => ret true
  | fd :: fds' => let* ok := inherit_fd c p fd in if ok then inherit_loop c p fds' else ret false
  end.

Definition native_fd_task_inherit (child parent : option nat) : K Z :=
  let* px := gets (fun k => task_at k parent) in
  match child, parent, px with
  | Some c, Some p, Some x =>
    if t_fd_table_ready x =? 0 then ret (-1)
    else
      do* clear_tables c in
      do* upd_task c (fun y => y <| t_fd_table_ready := 1 |>) in
      let* px' := ktask p in
      let* ok := (if existsb (fun d => negb (d =? 0)) (t_dir_map px') then ret false
                  else inherit_loop c p (seqZ 0 TASK_FD_MAX)) in
      if ok then ret 0 else do* native_fd_task_cleanup child in ret (-1)
  | _, _, _ => ret (-1)
  end.

(** ** Opening and closing *)

Definition native_fd_slot (k : kern) (task : option nat) : Z :=
  match task_at k task with
  | Some x => if t_fd_table_ready x =? 0 then -1 else default (-1) (first_idx (slot_free x) 3 TASK_FD_MAX)
  | None => -1
  end.

Definition native_fd_open (task : option nat) (path : option cstr) (flags mode : Z) : K Z :=
  let* slot := gets (fun k => native_fd_slot k task) in
  match task with
  | None => ret (-1)
  | Some t =>
    if slot <? 0 then ret (-1)
    else
      let* backend := atm_posix_open path (andn flags (Z.lor ATM_NATIVE_O_NONBLOCK ATM_NATIVE_O_CLOEXEC)) mode in
      if backend <? 0 then ret (-1)
      else
        do* set_fd_map t slot backend in
        do* set_fd_flags t slot (Z.land flags (Z.lor ATM_NATIVE_O_ACCMODE ATM_NATIVE_O_NONBLOCK)) in
        let* r := fd_exec_set task slot (has flags ATM_NATIVE_O_CLOEXEC) in
        if r <? 0 then do* atm_posix_close backend in do* set_fd_map t slot (-1) in ret (-1)
        else ret slot
  end.

(** [out_fds] is not NULL when [out_ok]. *)
Definition native_fd_pipe2 (task : option nat) (out_ok : bool) (flags : Z) : K (Z * (Z * Z)) :=
  if negb out_ok || truth (andn flags (Z.lor ATM_NATIVE_O_CLOEXEC ATM_NATIVE_O_NONBLOCK)) then ret (-1, (0, 0))
  else
    let* '(rc, (r, w)) := on_ps (native_pipe_create task) in
    match task with
    | Some t =>
      if rc =? 0 then
        do* set_fd_flags t r (Z.lor O_RDONLY (Z.land flags ATM_NATIVE_O_NONBLOCK)) in
        do* set_fd_flags t w (Z.lor O_WRONLY (Z.land flags ATM_NATIVE_O_NONBLOCK)) in
        let* e1 := fd_exec_set task r (has flags ATM_NATIVE_O_CLOEXEC) in
        let* e2 := (if e1 <? 0 then ret (-1) else fd_exec_set task w (has flags ATM_NATIVE_O_CLOEXEC)) in
        if e2 <? 0 then
          do* on_ps (native_pipe_close task r) in
          do* on_ps (native_pipe_close task w) in
          ret (-1, (r, w))
        else ret (0, (r, w))
      else ret (rc, (r, w))
    | None => ret (rc, (r, w))
    end.
Definition native_fd_pipe (task : option nat) (out_ok : bool) : K (Z * (Z * Z)) := native_fd_pipe2 task out_ok 0.

(** [if(rc==0){task->fd_flags[fd]=0; fd_exec_set(task,fd,0);}] *)
Definition clear_flags_if (rc : Z) (t : nat) (fd : Z) : K Z :=
  if rc =? 0 then do* set_fd_flags t fd 0 in do* fd_exec_set (Some t) fd false in ret rc else ret rc.

Definition native_fd_close (task : option nat) (fd : Z) : K Z :=
  let* p := gets (fun k => is_pipe k task fd) in
  let* s := gets (fun k => is_socket k task fd) in
  let* b := gets (fun k => vfs_fd_of k task fd) in
  match task with
  | None => ret (-1)
  | Some t =>
    if p then let* rc := on_ps (native_pipe_close task fd) in clear_flags_if rc t fd
    else if s then let* rc := native_socket_close task fd in clear_flags_if rc t fd
    else match b with
    | None => ret (-1)
    | Some backend =>
      do* set_fd_map t fd (-1) in
      do* set_fd_flags t fd 0 in
      do* fd_exec_set task fd false in
      atm_posix_close backend
    end
  end.

Definition native_fd_close_on_exec (task : option nat) : K unit :=
  let* o := gets (fun k => task_at k task) in
  match o with
  | Some x =>
    if t_fd_table_ready x =? 0 then ret tt
    else for_each (fun fd =>
           let* ce := gets (fun k => fd_exec_get k task fd) in
           if ce then do* native_fd_close task fd in ret tt else ret tt) (seqZ 0 TASK_FD_MAX)
  | None => ret tt
  end.

(** ** Transfers *)

(** [if(n>0 && task) task->io_read_bytes+=n;] *)
Definition count_read (task : option nat) (n : Z) : K unit :=
  match task with
  | Some t => if 0 <? n then upd_task t (fun x => x <| t_io_read_bytes := u64 (t_io_read_bytes x + n) |>) else ret tt
  | None => ret tt
  end.
Definition count_write (task : option nat) (n : Z) : K unit :=
  match task with
  | Some t => if 0 <? n then upd_task t (fun x => x <| t_io_write_bytes := u64 (t_io_write_bytes x + n) |>) else ret tt
  | None => ret tt
  end.

Definition pipe_nonblock (task : option nat) (fd : Z) : K bool :=
  match task with
  | Some t => let* fl := fd_flags_at t fd in ret (nonblocking fl)
  | None => fault
  end.

Definition native_fd_read (task : option nat) (fd : Z) (buf_ok : bool) (count : Z) : K io_result :=
  let* p := gets (fun k => is_pipe k task fd) in
  let* s := gets (fun k => is_socket k task fd) in
  let* b := gets (fun k => vfs_fd_of k task fd) in
  let* r := (if p then
               let* nb := pipe_nonblock task fd in
               on_ps (native_pipe_read task fd (negb buf_ok) count nb)
             else if s then
               let* '(n, bs) := native_socket_recv task fd buf_ok count 300 in ret (Returned n bs)
             else match b with
             | Some backend => let* '(n, bs) := atm_posix_read backend count in ret (Returned n bs)
             | None => ret (Returned (-1) [])
             end) in
  match r with
  | Returned n _ => do* count_read task n in ret r
  | Blocked => ret Blocked
  end.

Definition native_fd_write (task : option nat) (fd : Z) (buf : option (list byte)) : K io_result :=
  let* p := gets (fun k => is_pipe k task fd) in
  let* s := gets (fun k => is_socket k task fd) in
  let* b := gets (fun k => vfs_fd_of k task fd) in
  let* r := (if p then
               let* nb := pipe_nonblock task fd in
               on_ps (native_pipe_write task fd buf nb)
             else if s then let* n := native_socket_send task fd buf in ret (Returned n [])
             else match b with
             | Some backend => let* n := atm_posix_write backend (default [] buf) in ret (Returned n [])
             | None => ret (Returned (-1) [])
             end) in
  match r with
  | Returned n _ => do* count_write task n in ret r
  | Blocked => ret Blocked
  end.

(** A vector transfer: its result, or the elements left, the total and the bytes so far
    when it sleeps. *)
Inductive vec_result := VReturned (n : Z) (bytes : list byte) | VBlocked (rest : list iovec) (total : Z) (bytes : list byte).

Fixpoint pipe_readv (task : option nat) (fd : Z) (iov : list iovec) (total : Z) (got : list byte) : K vec_result :=
  match iov with
  | [] => do* count_read task total in ret (VReturned total got)
  | v :: iov' =>
    let* nb := pipe_nonblock task fd in
    let* r := on_ps (native_pipe_read task fd (negb (bool_decide (is_Some (iov_base v)))) (iov_len v) nb) in
    match r with
    | Blocked => ret (VBlocked iov total got)
    | Returned n bs =>
      if n <? 0 then ret (VReturned (if truth total then total else n) got)
      else if n <? iov_len v then do* count_read task (total + n) in ret (VReturned (total + n) (got ++ bs))
      else pipe_readv task fd iov' (total + n) (got ++ bs)
    end
  end.
Fixpoint pipe_writev (task : option nat) (fd : Z) (iov : list iovec) (total : Z) : K vec_result :=
  match iov with
  | [] => do* count_write task total in ret (VReturned total [])
  | v :: iov' =>
    let* nb := pipe_nonblock task fd in
    let* r := on_ps (native_pipe_write task fd (take (Z.to_nat (iov_len v)) <$> iov_base v) nb) in
    match r with
    | Blocked => ret (VBlocked iov total [])
    | Returned n _ =>
      if n <? 0 then ret (VReturned (if truth total then total else n) [])
      else if n <? iov_len v then do* count_write task (total + n) in ret (VReturned (total + n) [])
      else pipe_writev task fd iov' (total + n)
    end
  end.

Definition native_fd_readv (task : option nat) (fd : Z) (iov : option (list iovec)) : K vec_result :=
  if negb (iov_ok iov) then ret (VReturned (-1) [])
  else
    let* p := gets (fun k => is_pipe k task fd) in
    let* s := gets (fun k => is_socket k task fd) in
    let* b := gets (fun k => vfs_fd_of k task fd) in
    if p then pipe_readv task fd (default [] iov) 0 []
    else if s then ret (VReturned (-1) [])
    else match b with
    | None => ret (VReturned (-1) [])
    | Some backend =>
      let* '(n, bs) := atm_posix_readv backend iov in
      do* count_read task n in
      ret (VReturned n bs)
    end.
Definition native_fd_writev (task : option nat) (fd : Z) (iov : option (list iovec)) : K vec_result :=
  if negb (iov_ok iov) then ret (VReturned (-1) [])
  else
    let* p := gets (fun k => is_pipe k task fd) in
    let* s := gets (fun k => is_socket k task fd) in
    let* b := gets (fun k => vfs_fd_of k task fd) in
    if p then pipe_writev task fd (default [] iov) 0
    else if s then ret (VReturned (-1) [])
    else match b with
    | None => ret (VReturned (-1) [])
    | Some backend =>
      let* n := atm_posix_writev backend iov in
      do* count_write task n in
      ret (VReturned n [])
    end.

(** ** Operations on the file behind a descriptor *)

(** [native_socket_is_fd?-1 : fd_valid?op(backend):-1] *)
Definition on_file {A} (task : option nat) (fd : Z) (err : A) (op : Z -> K A) : K A :=
  let* s := gets (fun k => is_socket k task fd) in
  let* b := gets (fun k => vfs_fd_of k task fd) in
  if s then ret err else match b with Some backend => op backend | None => ret err end.
(** The same, refusing pipes too. *)
Definition on_plain {A} (task : option nat) (fd : Z) (err : A) (op : Z -> K A) : K A :=
  let* p := gets (fun k => is_pipe k task fd) in
  if p then ret err else on_file task fd err op.

Definition native_fd_lseek (task : option nat) (fd offset whence : Z) : K Z :=
  on_file task fd (-1) (fun b => atm_posix_lseek b offset whence).
Definition native_fd_fchdir (task : option nat) (fd : Z) : K Z :=
  on_plain task fd (- ATM_EBADF) (fun b => let* r := atm_posix_fchdir b in ret (if r <? 0 then - ATM_ENOTDIR else 0)).
Definition native_fd_fchmod (task : option nat) (fd mode : Z) : K Z :=
  on_plain task fd (- ATM_EBADF) (fun b => atm_posix_fchmod b mode).
Definition native_fd_fchown (task : option nat) (fd uid gid : Z) : K Z :=
  on_plain task fd (- ATM_EBADF) (fun b => atm_posix_fchown b uid gid).
Definition native_fd_pread (task : option nat) (fd count offset : Z) : K (Z * list byte) :=
  on_file task fd (-1, []) (fun b => atm_posix_pread b count offset).
Definition native_fd_pwrite (task : option nat) (fd : Z) (buf : list byte) (offset : Z) : K Z :=
  on_file task fd (-1) (fun b => atm_posix_pwrite b buf offset).

Definition bad_iov (v : iovec) (pos : Z) : bool :=
  (truth (iov_len v) && negb (bool_decide (is_Some (iov_base v)))) || (0xFFFFFFFFFFFFFFFF - pos <? iov_len v).
Fixpoint preadv_loop (task : option nat) (b : Z) (iov : list iovec) (total pos : Z) : K (Z * list byte) :=
  match iov with
  | [] => do* count_read task total in ret (total, [])
  | v :: iov' =>
    if bad_iov v pos then ret (if truth total then total else -1, [])
    else
      let* '(n, bs) := atm_posix_pread b (iov_len v) pos in
      if n <? 0 then ret (if truth total then total else n, [])
      else if n <? iov_len v then do* count_read task (total + n) in ret (total + n, bs)
      else let* '(r, rest) := preadv_loop task b iov' (total + n) (u64 (pos + n)) in ret (r, bs ++ rest)
  end.
Fixpoint pwritev_loop (task : option nat) (b : Z) (iov : list iovec) (total pos : Z) : K Z :=
  match iov with
  | [] => do* count_write task total in ret total
  | v :: iov' =>
    if bad_iov v pos then ret (if truth total then total else -1)
    else
      let* n := atm_posix_pwrite b (take (Z.to_nat (iov_len v)) (default [] (iov_base v))) pos in
      if n <? 0 then ret (if truth total then total else n)
      else if n <? iov_len v then do* count_write task (total + n) in ret (total + n)
      else pwritev_loop task b iov' (total + n) (u64 (pos + n))
  end.
Definition native_fd_preadv (task : option nat) (fd : Z) (iov : option (list iovec)) (offset : Z) : K (Z * list byte) :=
  if negb (iov_ok iov) then ret (-1, [])
  else on_plain task fd (-1, []) (fun b => preadv_loop task b (default [] iov) 0 offset).
Definition native_fd_pwritev (task : option nat) (fd : Z) (iov : option (list iovec)) (offset : Z) : K Z :=
  if negb (iov_ok iov) then ret (-1)
  else on_plain task fd (-1) (fun b => pwritev_loop task b (default [] iov) 0 offset).

Definition native_fd_fstat (task : option nat) (fd : Z) : K (Z * option stat) :=
  on_file task fd (-1, None) (fun b => atm_posix_fstat b).
Definition native_fd_readdir (task : option nat) (fd : Z) : K (Z * option dirent) :=
  on_plain task fd (-1, None) (fun b => on_vfs (vfs_fd_readdir b)).
Definition native_fd_ftruncate (task : option nat) (fd size : Z) : K Z :=
  on_file task fd (-1) (fun b => atm_posix_ftruncate b size).
Definition native_fd_isatty (k : kern) (task : option nat) (fd : Z) : bool := (0 <=? fd) && (fd <=? 2) && fd_valid k task fd.

(** ** Duplication *)

(** Copies [fd], which is not a socket, to the free number [slot]. *)
Definition dup_to (t : nat) (fd slot : Z) : K Z :=
  let* p := gets (fun k => is_pipe k (Some t) fd) in
  if p then
    let* out := on_ps (native_pipe_dup (Some t) fd slot) in
    if 0 <=? out then
      let* fl := fd_flags_at t fd in
      do* set_fd_flags t out fl in
      do* fd_exec_set (Some t) out false in
      ret out
    else ret out
  else
    let* x := ktask t in
    let* b := deref (fun _ => aget (t_fd_map x) fd) in
    let* backend := atm_posix_dup b in
    if backend <? 0 then ret (-1)
    else
      do* set_fd_map t slot backend in
      let* fl := fd_flags_at t fd in
      do* set_fd_flags t slot fl in
      do* fd_exec_set (Some t) slot false in
      ret slot.

(** A pipe end or a file. *)
Definition dup_source (k : kern) (task : option nat) (fd : Z) : bool :=
  (is_pipe k task fd || fd_valid k task fd) && negb (is_socket k task fd).

Definition native_fd_dup_min (task : option nat) (fd min_fd : Z) : K Z :=
  let* o := gets (fun k => task_at k task) in
  match task, o with
  | Some t, Some x =>
    if (min_fd <? 0) || (TASK_FD_MAX <=? min_fd) then ret (-1)
    else
      let* ok := gets (fun k => dup_source k task fd) in
      if negb ok then ret (-1)
      else match first_idx (slot_free x) min_fd TASK_FD_MAX with
      | None => ret (-1)
      | Some slot => dup_to t fd slot
      end
  | _, _ => ret (-1)
  end.
Definition native_fd_dup (task : option nat) (fd : Z) : K Z := native_fd_dup_min task fd 0.

Definition native_fd_dup2 (task : option nat) (fd newfd : Z) : K Z :=
  match task with
  | None => ret (-1)
  | Some t =>
    if (newfd <? 0) || (TASK_FD_MAX <=? newfd) then ret (-1)
    else
      let* open := gets (fun k => is_pipe k task fd || is_socket k task fd || fd_valid k task fd) in
      if (fd =? newfd) && open then ret newfd
      else
        let* ok := gets (fun k => dup_source k task fd) in
        if negb ok then ret (-1)
        else
          let* p := gets (fun k => is_pipe k task newfd) in
          let* s := gets (fun k => is_socket k task newfd) in
          let* b := gets (fun k => vfs_fd_of k task newfd) in
          do* (if p then do* on_ps (native_pipe_close task newfd) in ret tt
               else if s then do* native_socket_close task newfd in ret tt
               else match b with Some backend => do* atm_posix_close backend in ret tt | None => ret tt end) in
          dup_to t fd newfd
  end.

Definition native_fd_dup3 (task : option nat) (fd newfd flags : Z) : K Z :=
  if (fd =? newfd) || truth (andn flags ATM_NATIVE_O_CLOEXEC) then ret (-1)
  else
    let* out := native_fd_dup2 task fd newfd in
    if out <? 0 then ret out
    else
      let* r := fd_exec_set task out (has flags ATM_NATIVE_O_CLOEXEC) in
      if r <? 0 then do* native_fd_close task out in ret (-1) else ret out.

(** ** fcntl, poll *)

Definition native_fd_fcntl (task : option nat) (fd cmd arg : Z) : K Z :=
  let* is_p := gets (fun k => is_pipe k task fd) in
  let* is_s := gets (fun k => is_socket k task fd) in
  let* v := gets (fun k => fd_valid k task fd) in
  match task with
  | None => ret (-1)
  | Some t =>
    if negb (is_p || is_s || v) then ret (-1)
    else if cmd =? ATM_NATIVE_F_DUPFD then native_fd_dup_min task fd (i32 arg)
    else if cmd =? ATM_NATIVE_F_DUPFD_CLOEXEC then
      let* out := native_fd_dup_min task fd (i32 arg) in
      if out <? 0 then ret (-1)
      else
        let* r := fd_exec_set task out true in
        if r <? 0 then do* native_fd_close task out in ret (-1) else ret out
    else if cmd =? ATM_NATIVE_F_GETFD then
      gets (fun k => if fd_exec_get k task fd then ATM_NATIVE_FD_CLOEXEC else 0)
    else if cmd =? ATM_NATIVE_F_SETFD then
      if truth (andn arg ATM_NATIVE_FD_CLOEXEC) then ret (-1)
      else fd_exec_set task fd (has arg ATM_NATIVE_FD_CLOEXEC)
    else if cmd =? ATM_NATIVE_F_GETFL then let* fl := fd_flags_at t fd in ret (i32 fl)
    else if cmd =? ATM_NATIVE_F_SETFL then
      if is_s || truth (andn arg ATM_NATIVE_O_NONBLOCK) then ret (-1)
      else
        let* fl := fd_flags_at t fd in
        do* set_fd_flags t fd (Z.lor (Z.land fl ATM_NATIVE_O_ACCMODE) (Z.land arg ATM_NATIVE_O_NONBLOCK)) in
        ret 0
    else ret (-1)
  end.

Definition poll_one (task : option nat) (f : pollfd) : K pollfd :=
  let* p := gets (fun k => is_pipe k task (pf_fd f)) in
  let* s := gets (fun k => is_socket k task (pf_fd f)) in
  let* r := (if p then on_ps (native_pipe_poll task (pf_fd f) (pf_events f))
             else if s then gets (fun k => native_socket_poll k task (pf_fd f) (pf_events f))
             else ret ATM_POLLNVAL) in
  ret (mk_pollfd (pf_fd f) (pf_events f) (u16 r)).
Fixpoint poll_loop (task : option nat) (fds : list pollfd) (ready : Z) : K (Z * list pollfd) :=
  match fds with
  | [] => ret (ready, [])
  | f :: fds' =>
    let* f' := poll_one task f in
    let* '(n, rest) := poll_loop task fds' (if truth (pf_revents f') then ready + 1 else ready) in
    ret (n, f' :: rest)
  end.
(** [fds] NULL is [None]. *)
Definition native_fd_poll (task : option nat) (fds : option (list pollfd)) : K (Z * list pollfd) :=
  match task, fds with
  | Some _, Some l => if ATM_NATIVE_POLL_MAX <? zlen l then ret (-1, l) else poll_loop task l 0
  | _, _ => ret (-1, default [] fds)
  end.
End NativeFd.
