(* ===== verification/Process.v ===== *)
(** * Creation and termination of tasks (src/src/sched.c)

    The part of the scheduler that needs the heap, the page tables and the descriptors.
    The contents of a kernel stack are not represented, so the return address
    [task_create] pushes is only counted in the stack pointer; [fn] is the address of the
    task's function.  A blocking [task_waitpid] is modelled by one pass of its loop, as
    the pipes are: a pass returns or puts the caller to sleep, and [task_waitpid_resume]
    is the pass a woken caller runs. *)

From S2P Require Import Prelude Cstring Sched Pipe Alloc Vfs VfsSynth VfsPath VfsApi Paging Kernel Posix Socket NativeFd.

(** [char name[32]] *)
Definition TASK_NAME_MAX : Z := 32.

Inductive wait_result := Reaped (pid status : Z) | WaitError (e : Z) | NoneYet | Asleep.

Section Process.
Context {H N : Type} `{!Allocator H} `{!Tcp N}.
Abbreviation K := (M (kernel H N)).

(** ** Slots *)

Definition release_space (a : Z) : K unit :=
  if a =? 0 then ret tt
  else
    let* us := deref (fun k => k_spaces k !! a) in
    do* on_pages (paging_destroy_user_space (Some us)) in
    do* on_kheap (kfree a) in
    modify (fun k => k <| k_spaces := delete a (k_spaces k) |>).

Definition release_zombie_slot (t : nat) : K unit :=
  let* x := ktask t in
  let* cur := gets current in
  if bool_decide (cur = Some t) || negb (bool_decide (t_state x = TASK_ZOMBIE)) then ret tt
  else
    do* release_space (t_address_space x) in
    do* (if t_stack_base x =? 0 then ret tt else on_kheap (kfree (t_stack_base x))) in
    do* on_tasks (sleep_cancel_task t) in
    upd_task t (fun _ => zero_task).

Definition pool (k : kernel H N) : list task := task_pool (tasks k).

(** The first index from [lo] on of a task that satisfies [p]. *)
Definition first_task (k : kernel H N) (lo : nat) (p : task -> bool) : option nat :=
  Z.to_nat <$> first_idx (fun i => match aget (pool k) i with Some x => p x | None => false end) (Z.of_nat lo) (Z.of_nat TASK_MAX).

Definition is_unused (x : task) : bool := bool_decide (t_state x = TASK_UNUSED).
Definition is_zombie (x : task) : bool := bool_decide (t_state x = TASK_ZOMBIE).
Definition orphan_zombie (x : task) : bool := is_zombie x && (t_ppid x =? TASK_NO_PARENT).

Definition alloc_task_slot : K (option nat) :=
  let* free := gets (fun k => first_task k 0 is_unused) in
  match free with
  | Some i => ret (Some i)
  | None =>
    let* z := gets (fun k => first_task k 1 orphan_zombie) in
    match z with
    | Some i => do* release_zombie_slot i in ret (Some i)
    | None => ret None
    end
  end.

(** ** Creation *)

(** What a new task takes over from its creator, or from the defaults before there is one. *)
Definition creds (k : kernel H N) (pid : Z) : task -> task :=
  match current k ≫= fun c => pool k !! c with
  | Some c => fun x =>
      x <| t_ppid := t_pid c |> <| t_pgid := if t_pid c =? 0 then pid else t_pgid c |>
        <| t_sid := if t_pid c =? 0 then pid else t_sid c |> <| t_uid := t_uid c |> <| t_gid := t_gid c |>
        <| t_cwd := t_cwd c |> <| t_umask_value := t_umask_value c |>
  | None => fun x =>
      x <| t_ppid := 0 |> <| t_pgid := pid |> <| t_sid := pid |> <| t_uid := v_uid (k_vfs k) |>
        <| t_gid := v_gid (k_vfs k) |> <| t_cwd := cs "/" |> <| t_umask_value := 0x12 |>
  end.

Definition clamp_priority (p : Z) : Z := if p <? 1 then 1 else if 10 <? p then 10 else p.

Definition fresh_task (name : cstr) (fn priority pid stack up cr3 : Z) (x : task) : task :=
  x <| t_pid := pid |> <| t_name := name |> <| t_state := TASK_READY |> <| t_priority := clamp_priority priority |>
    <| t_stack_base := stack |> <| t_stack_size := TASK_STACK_SIZE |> <| t_ticks := 0 |>
    <| t_created_ticks := up |> <| t_state_changed_ticks := up |> <| t_resident_bytes := TASK_STACK_SIZE |>
    <| t_io_read_bytes := 0 |> <| t_io_write_bytes := 0 |> <| t_context_switches := 0 |>
    <| t_exit_code := 0 |> <| t_exit_signal := 0 |> <| t_pending_signal := 0 |>
    <| t_wait_target := TASK_WAIT_ANY |> <| t_wait_active := 0 |>
    <| t_ctx := mk_cpu_context 0 0 0 0 0 0 (u64 (stack + TASK_STACK_SIZE - 8)) fn 0x202 cr3 |>.

Definition task_create (name : cstr) (fn priority : Z) : K (option nat) :=
  let* slot := alloc_task_slot in
  match slot with
  | None => ret None
  | Some t =>
    let* stack := on_kheap (kmalloc TASK_STACK_SIZE) in
    if stack =? 0 then ret None
    else
      do* guard (fits_in name TASK_NAME_MAX) in
      let* pid := gets (fun k => next_pid (tasks k)) in
      do* on_tasks (modify (fun s => s <| next_pid := u32 (pid + 1) |>)) in
      let* up := gets (fun k => uptime_ticks (tasks k)) in
      let* c := gets (fun k => creds k pid) in
      let* cr3 := on_pages paging_kernel_cr3 in
      do* upd_task t (fun x => fresh_task name fn priority pid stack up cr3 (c x)) in
      do* on_tasks (sleep_cancel_task t) in
      let* r := on_tasks (queue_add t) in
      if r <? 0 then
        do* on_kheap (kfree stack) in
        do* upd_task t (fun _ => zero_task) in
        ret None
      else ret (Some t)
  end.

(** A task that never ran is removed again.  Its stack stays allocated. *)
Definition task_discard_unstarted (task : option nat) : K Z :=
  let* cur := gets current in
  match task with
  | None => ret (-1)
  | Some t =>
    let* x := ktask t in
    if bool_decide (cur = Some t) || (t_pid x =? 0) || negb (bool_decide (t_state x = TASK_READY)) then ret (-1)
    else
      do* on_tasks (queue_remove t) in
      do* native_fd_task_cleanup task in
      do* on_tasks (sleep_cancel_task t) in
      do* upd_task t (fun _ => zero_task) in
      ret 0
  end.

(** ** Termination *)

Definition orphan_child (pid : Z) (i : nat) : K unit :=
  let* c := ktask i in
  if is_unused c || negb (t_ppid c =? pid) then ret tt
  else
    do* upd_task i (fun x => x <| t_ppid := TASK_NO_PARENT |>) in
    if is_zombie c then release_zombie_slot i else ret tt.
Definition task_orphan_children (parent : nat) : K unit :=
  let* p := ktask parent in
  for_each (orphan_child (t_pid p)) (seq 1 (TASK_MAX - 1)).

(** The parent waits for this child. *)
Definition waits_for (p : task) (pid : Z) : bool :=
  bool_decide (t_state p = TASK_BLOCKED) && truth (t_wait_active p) &&
  ((t_wait_target p =? TASK_WAIT_ANY) || (t_wait_target p =? pid)).

Definition task_wake_waiting_parent (child : nat) : K unit :=
  let* c := ktask child in
  if t_ppid c =? TASK_NO_PARENT then ret tt
  else
    let* parent := gets (fun k => first_task k 0 (fun x => negb (is_unused x) && (t_pid x =? t_ppid c))) in
    match parent with
    | None => ret tt
    | Some p =>
      let* x := ktask p in
      if waits_for x (t_pid c) then
        do* upd_task p (fun y => y <| t_wait_active := 0 |>) in
        on_tasks (task_unblock p)
      else ret tt
    end.

(** [*linux_clear_tid = 0] in the memory of a native task. *)
Definition clear_child_tid (t : nat) : K unit :=
  let* x := ktask t in
  if (t_linux_clear_tid x =? 0) || (t_address_space x =? 0) then ret tt
  else
    let* us := deref (fun k => k_spaces k !! t_address_space x) in
    do* on_pages (copy_to_user (Some us) (t_linux_clear_tid x) (Some [nul; nul; nul; nul]) 4) in
    upd_task t (fun y => y <| t_linux_clear_tid := 0 |>).

Definition task_mark_zombie (t : nat) (code signal : Z) : K unit :=
  let* x := ktask t in
  if (t_pid x =? 0) || is_unused x || is_zombie x then ret tt
  else
    do* clear_child_tid t in
    do* on_tasks (sleep_cancel_task t) in
    let* up := gets (fun k => uptime_ticks (tasks k)) in
    do* upd_task t (fun y => y <| t_state := TASK_ZOMBIE |> <| t_state_changed_ticks := up |>
                               <| t_exit_code := code |> <| t_exit_signal := signal |>) in
    do* native_fd_task_cleanup (Some t) in
    do* on_tasks (queue_remove t) in
    do* task_wake_waiting_parent t in
    task_orphan_children t.

Definition task_exit (code : Z) : K unit :=
  let* cur := gets current in
  match cur with
  | None => ret tt
  | Some c =>
    let* x := ktask c in
    if t_pid x =? 0 then ret tt
    else do* task_mark_zombie c code 0 in on_tasks task_yield
  end.

(** Without a task to leave the processor is halted for good, a [Fault]. *)
Definition task_exit_from_syscall (code : Z) : K unit :=
  let* cur := gets current in
  match cur with
  | None => fault
  | Some old =>
    let* x := ktask old in
    if t_pid x =? 0 then fault
    else
      do* task_mark_zombie old code 0 in
      on_tasks (let* next := pick_successor in switch_to old next)
  end.

Definition task_kill (pid code : Z) : K Z :=
  if pid =? 0 then ret (-1)
  else
    let* target := gets (fun k => first_task k 0 (fun x => negb (is_unused x) && (t_pid x =? pid))) in
    let* cur := gets current in
    match target with
    | None => ret (-1)
    | Some t => if bool_decide (cur = Some t) then ret (-1) else do* task_mark_zombie t code 0 in ret 0
    end.

Definition task_send_signal (pid sig : Z) : K Z :=
  if sig =? 0 then on_tasks (task_signal_probe pid)
  else if (pid <=? 0) || (negb (sig =? 15) && negb (sig =? 9)) then ret (- TASK_ERR_EINVAL)
  else
    let* cur := gets current in
    let* target := gets (fun k => task_lookup_pid (tasks k) (u32 pid)) in
    match cur, target with
    | Some c, Some t =>
      let* x := ktask t in
      let* cx := ktask c in
      if gone x then ret (-3)
      else if bool_decide (t = c) || negb (t_ppid x =? t_pid cx) then ret (-1)
      else
        do* upd_task t (fun y => y <| t_pending_signal := u32 sig |>) in
        do* task_mark_zombie t 0 (u32 sig) in
        ret 0
    | _, _ => ret (-3)
    end.

(** ** Waiting *)

(** One pass of the loop: the first matching zombie is reaped. *)
Definition wait_pass (parent : nat) (pid options : Z) : K wait_result :=
  let* p := ktask parent in
  let* child := gets (fun k => first_task k 1 (fun x => task_is_direct_child p x pid)) in
  let* dead := gets (fun k => first_task k 1 (fun x => task_is_direct_child p x pid && is_zombie x)) in
  match dead with
  | Some t =>
    let* x := ktask t in
    do* upd_task parent (fun y => y <| t_wait_active := 0 |>) in
    do* release_zombie_slot t in
    ret (Reaped (i32 (t_pid x)) (task_wait_status x))
  | None =>
    match child with
    | None =>
      do* upd_task parent (fun y => y <| t_wait_active := 0 |>) in
      ret (WaitError (- TASK_ERR_ECHILD))
    | Some _ =>
      if truth (Z.land options TASK_WAIT_NOHANG) then ret NoneYet
      else
        do* upd_task parent (fun y => y <| t_wait_target := if pid <? 0 then TASK_WAIT_ANY else u32 pid |> <| t_wait_active := 1 |>) in
        do* on_tasks (if t_address_space p =? 0 then task_block else task_block_from_syscall) in
        ret Asleep
    end
  end.

Definition task_waitpid (pid options : Z) : K wait_result :=
  let* cur := gets current in
  match cur with
  | None => ret (WaitError (- TASK_ERR_EINVAL))
  | Some parent =>
    if (pid =? 0) || (pid <? -1) || truth (andn options TASK_WAIT_NOHANG) then ret (WaitError (- TASK_ERR_EINVAL))
    else wait_pass parent pid options
  end.
Definition task_waitpid_resume (parent : nat) (pid options : Z) : K wait_result :=
  do* upd_task parent (fun y => y <| t_wait_active := 0 |>) in
  wait_pass parent pid options.
End Process.
