(* ===== verification/ProcInv.v ===== *)
(** * The invariant of processes, and the scheduler while a task is terminated

    Between the moment a task becomes a zombie and its removal from the run queue the
    scheduler invariant does not hold: [dying] is what does, and waking other tasks keeps
    it.  Both it and the invariant proper come with the current task and with the states
    the tasks started from, which a wake-up may only turn from BLOCKED to READY. *)

From S2P Require Import Prelude Cstring Sched SchedInv SchedProps Pipe PipeInv PipeRefs Alloc Vfs VfsSynth VfsPath VfsApi VfsInv VfsRefs VfsDir VfsOps VfsTree VfsFile VfsFd Paging Kernel Posix Socket NativeFd Process.

(** A state and what a wake-up may make of it. *)
Definition wakes (a b : task_state) : Prop := b = a \/ a = TASK_BLOCKED /\ b = TASK_READY.

(** Every task is in the state [v] gives, or was woken since. *)
Definition settled (v : nat -> task_state) (s : sched) : Prop := forall j, wakes (v j) (task_state_at s j).

Definition steady (v : nat -> task_state) (c : nat) (s : sched) : Prop := (exists l, sched_inv s l c) /\ settled v s.

Record dying_inv (t : nat) (s : sched) (l : list nat) (c : nat) : Prop := {
  dy_pool : length (task_pool s) = TASK_MAX;
  dy_sleep : length (sleep_meta s) = TASK_MAX;
  dy_ring : ring s l;
  dy_cur : current_task s = Some c;
  dy_cur_lt : (c < TASK_MAX)%nat;
  dy_queued : forall i, i ∈ l -> runnable (task_state_at s i) \/ i = t;
  dy_runnable : forall i, i <> O -> runnable (task_state_at s i) -> i ∈ l;
  dy_running : forall i, task_state_at s i = TASK_RUNNING -> i = c;
  dy_dead : task_state_at s t = TASK_ZOMBIE }.
Definition dying (t : nat) (v : nat -> task_state) (c : nat) (s : sched) : Prop := (exists l, dying_inv t s l c) /\ settled v s.

Lemma wakes_trans a b c : wakes a b -> wakes b c -> wakes a c.
Proof. unfold wakes. intros [->|[-> ->]] [->|[-> ->]]; auto. Qed.

Lemma settled_unblock v s s' t : settled v s -> task_state_at s t = TASK_BLOCKED ->
  (forall j, task_state_at s' j = if decide (t = j) then TASK_READY else task_state_at s j) -> settled v s'.
Proof.
  intros Hv Hb Hst j. rewrite Hst. specialize (Hv j). case_decide as E; [|done]. subst j. rewrite Hb in Hv.
  destruct Hv as [E|[E ?]]; rewrite <- ?E; [by right|done].
Qed.
Lemma state_at_neutral s i f j : (forall t, t_state (f t) = t_state t) ->
  task_state_at (s <| task_pool := alter f i (task_pool s) |>) j = task_state_at s j.
Proof.
  intros Hf. unfold task_state_at. simpl. destruct (decide (i = j)) as [->|].
  - rewrite list_lookup_alter_eq. destruct (task_pool s !! j); simpl; auto.
  - by rewrite list_lookup_alter_ne.
Qed.
Lemma settled_neutral v s i f : (forall t, t_state (f t) = t_state t) -> settled v s ->
  settled v (s <| task_pool := alter f i (task_pool s) |>).
Proof. intros Hf Hv j. rewrite state_at_neutral by done. apply Hv. Qed.

#[export] Instance steady_wake v c : WakeInv (steady v c).
Proof.
  constructor.
  - intros s [[l Hi] _]. apply Hi.
  - intros s t [[l Hi] Hv] Ht. eapply wp_mono; [by eapply task_unblock_spec|]. cbv beta. intros _ s' [Hc Hd].
    split; [|done]. case_decide as E; [|subst; by split; [exists l|]].
    destruct Hd as (Hi' & Hr & Hj & _). split; [by eexists|]. eapply settled_unblock; [done|done|].
    intros j. case_decide; [by subst|auto].
  - intros s i f [[l Hi] Hv] Hn Hs. split; [exists l; by apply sched_inv_neutral|by apply settled_neutral].
Qed.

Lemma dying_neutral t s l c i f :
  (forall t, t_next (f t) = t_next t) -> (forall t, t_state (f t) = t_state t) ->
  dying_inv t s l c -> dying_inv t (s <| task_pool := alter f i (task_pool s) |>) l c.
Proof.
  intros Hn Hf []. constructor; try done; try (intros j; rewrite state_at_neutral by done; auto).
  - simpl. by rewrite length_alter.
  - by apply ring_alter.
  - by rewrite state_at_neutral.
Qed.

#[export] Instance dying_wake t v c : WakeInv (dying t v c).
Proof.
  constructor.
  - intros s [[l Hi] _]. apply Hi.
  - intros s w [[l Hi] Hv] Hw. pose proof Hi as []. destruct (lookup_lt_is_Some_2 (task_pool s) w) as [x Hx]; [lia|].
    destruct (decide (task_state_at s w = TASK_BLOCKED)) as [Hb|Hb].
    + assert (Hnin : w ∉ l).
      { intros [Hr| ->]%dy_queued0; [rewrite Hb in Hr; by destruct Hr|congruence]. }
      destruct (task_unblock_ring s l w) as (s' & E & Hr & Hc & Hst & Hl & p & h & Hs'); [done..|].
      unfold wp. rewrite E. split; [|done]. split; [|by eapply settled_unblock].
      exists (l ++ [w]). constructor; try done; try (by rewrite Hs').
      * intros i [Hi'|Hi'%list_elem_of_singleton]%elem_of_app; rewrite Hst.
        -- case_decide; [left; by left|auto].
        -- subst. rewrite decide_True by done. left. by left.
      * intros i Hi0. rewrite Hst. intros Hri. apply elem_of_app. case_decide; [right; set_solver|left; auto].
      * intros i. rewrite Hst. case_decide; [done|auto].
      * rewrite Hst, decide_False; [done|congruence].
    + unfold wp. rewrite (task_unblock_noop s w x Hx); [split; [split; [by exists l|done]|done]|].
      by rewrite (state_at_lookup _ _ _ Hx) in Hb.
  - intros s i f [[l Hi] Hv] Hn Hs. split; [exists l; by apply dying_neutral|by apply settled_neutral].
Qed.

(** A task that may be terminated dies ... *)
Lemma dying_starts s l c t f :
  sched_inv s l c -> (t < TASK_MAX)%nat ->
  (forall x, t_next (f x) = t_next x) -> (forall x, t_state (f x) = TASK_ZOMBIE) ->
  let s' := s <| task_pool := alter f t (task_pool s) |> in
  dying t (task_state_at s') c s'.
Proof.
  intros Hi Ht Hn Hf s'. pose proof Hi as [].
  assert (Hst : forall j, task_state_at s' j = if decide (t = j) then TASK_ZOMBIE else task_state_at s j).
  { intros j. unfold s'. rewrite state_at_alter by lia. case_decide; [apply Hf|done]. }
  split; [exists l|intros j; by left]. constructor; try done.
  - simpl. by rewrite length_alter.
  - by apply ring_alter.
  - intros i Hi'. rewrite Hst. case_decide; [by right|auto].
  - intros i Hi0. rewrite Hst. case_decide; [by intros [?|?]|auto].
  - intros i. rewrite Hst. case_decide; [done|auto].
  - rewrite Hst. by rewrite decide_True.
Qed.

(** ... and is buried when it leaves the queue. *)
Lemma dying_ends t v c s : dying t v c s -> (t < TASK_MAX)%nat ->
  wp (queue_remove t) s (fun _ s' => steady v c s' /\ same_core s s' /\ task_state_at s' t = TASK_ZOMBIE).
Proof.
  intros [[l Hi] Hv] Ht. pose proof Hi as [].
  destruct (queue_remove_filter s l t dy_ring0) as (s2 & Hq & Hr2 & Hsame); [lia|by eapply ring_length|].
  assert (Hst : forall j, task_state_at s2 j = task_state_at s j) by (intros j; by apply same_tasks_state).
  unfold wp. rewrite Hq. split_and!; [|by apply same_tasks_core|by rewrite Hst].
  split; [|intros j; rewrite Hst; apply Hv]. exists (filter (fun i => i <> t) l). pose proof Hsame as (_ & p & h & Hs2).
  constructor; try done; try (by rewrite Hs2).
  - by rewrite (same_tasks_length _ _ Hsame).
  - intros i [Hne Hi']%list_elem_of_filter. rewrite Hst. by destruct (dy_queued0 i Hi').
  - intros i Hi0 Hri. rewrite Hst in Hri. apply list_elem_of_filter. split; [|auto]. intros ->. rewrite dy_dead0 in Hri. by destruct Hri.
  - intros i. rewrite Hst. auto.
Qed.

(** ** The invariant of the kernel's tasks

    The heap holds what the filesystem owns and, beside it, the kernel stacks: the laws
    of the heap hold with the stacks set aside, so that every theorem on the filesystem
    applies while they are there. *)

(** ** A heap with blocks set aside *)

Section Framed.
Context {H : Type} `{!Allocator H} `{AL : !AllocatorLaws H}.
Implicit Types (h : H) (L R : gset Z).

Definition live_beside R h L : Prop := heap_live h (L ∪ R) /\ L ## R.

Lemma beside_malloc R h L n : live_beside R h L -> 0 < n < 2 ^ 32 ->
  wp (kmalloc n) h (fun p h' =>
    (p = 0 /\ live_beside R h' L) \/ (p <> 0 /\ (p ∉ L) /\ live_beside R h' ({[p]} ∪ L)) /\ (p ∉ R)).
Proof.
  intros [Hl Hd] Hn. eapply wp_mono; [by apply (kmalloc_law _ (L ∪ R))|]. cbv beta.
  intros p h' [[-> Hp]|(Hp0 & Hp & Hp')]; [by left|]. right. split; [|set_solver]. split_and!; [done|set_solver|].
  split; [|set_solver]. by replace ({[p]} ∪ L ∪ R) with ({[p]} ∪ (L ∪ R)) by set_solver.
Qed.
Lemma beside_free R h L p : live_beside R h L -> p ∈ L -> wp (kfree p) h (fun _ h' => live_beside R h' (L ∖ {[p]})).
Proof.
  intros [Hl Hd] Hp. eapply wp_mono; [apply (kfree_law _ (L ∪ R)); [done|set_solver]|]. cbv beta. intros _ h' Hl'.
  split; [|set_solver]. replace (L ∖ {[p]} ∪ R) with ((L ∪ R) ∖ {[p]}); [done|].
  apply set_eq. intros x. rewrite elem_of_union, !elem_of_difference, elem_of_union, elem_of_singleton. set_solver.
Qed.

Definition framed (R : gset Z) : AllocatorLaws H.
Proof.
  refine {| heap_live := live_beside R |}.
  - abstract (intros h L n Hl Hn; eapply wp_mono; [by apply beside_malloc|]; cbv beta; intros p h'; tauto).
  - abstract (intros h L p Hl Hp; by apply beside_free).
  - abstract (intros h L [Hl Hd]; eapply wp_mono; [by apply (free_bytes_law _ (L ∪ R))|]; cbv beta; intros n h' [? ?]; done).
  - abstract (intros h L [Hl Hd]; eapply wp_mono; [by apply (used_bytes_law _ (L ∪ R))|]; cbv beta; intros n h' [? ?]; done).
Defined.

(** The filesystem is in order, with the blocks [R] set aside. *)
Definition vfs_inv R (hd : Z -> Z) (v : vfs H) : Prop := exists L, @vfs_ok H _ (framed R) L hd v.

Lemma vfs_inv_swap R R' L hd (v : vfs H) h' : @vfs_ok H _ (framed R) L hd v -> live_beside R' h' L ->
  @vfs_ok H _ (framed R') L hd (v <| v_heap := h' |>).
Proof. intros [] Hl. by constructor. Qed.

(** With nothing set aside it is the invariant of the filesystem. *)
Lemma vfs_inv_empty L hd (v : vfs H) : vfs_ok L hd v -> vfs_inv ∅ hd v.
Proof.
  intros []. exists L. constructor; [|assumption..]. split; [|set_solver]. by replace (L ∪ ∅) with L by set_solver.
Qed.

Definition heap_op {A} (m : M H A) : M (vfs H) A := zoom v_heap (fun h v => v <| v_heap := h |>) m.

(** A block set aside is freed; one is taken and set aside. *)
Lemma vfs_inv_free R hd v p : vfs_inv R hd v -> p ∈ R ->
  wp (heap_op (kfree p)) v (fun _ v' => vfs_inv (R ∖ {[p]}) hd v' /\ exists h', v' = v <| v_heap := h' |>).
Proof.
  intros [L Hok] Hp. pose proof (vo_heap _ _ _ Hok) as [Hl Hd]. apply wp_zoom.
  eapply wp_mono; [apply (kfree_law _ (L ∪ R)); [done|set_solver]|]. cbv beta. intros _ h' Hl'.
  split; [|by exists h']. exists L. eapply vfs_inv_swap; [done|]. split; [|set_solver].
  replace (L ∪ R ∖ {[p]}) with ((L ∪ R) ∖ {[p]}); [done|].
  apply set_eq. intros x. rewrite elem_of_union, !elem_of_difference, elem_of_union, elem_of_singleton. set_solver.
Qed.
Lemma vfs_inv_malloc R hd v n : vfs_inv R hd v -> 0 < n < 2 ^ 32 ->
  wp (heap_op (kmalloc n)) v (fun p v' =>
    (exists h', v' = v <| v_heap := h' |>) /\ ((p = 0 /\ vfs_inv R hd v') \/ (p <> 0 /\ (p ∉ R) /\ vfs_inv ({[p]} ∪ R) hd v'))).
Proof.
  intros [L Hok] Hn. pose proof (vo_heap _ _ _ Hok) as [Hl Hd]. apply wp_zoom.
  eapply wp_mono; [by apply (kmalloc_law _ (L ∪ R))|]. cbv beta. intros p h' Hc. split; [by exists h'|].
  destruct Hc as [[-> Hp]|(Hp0 & Hp & Hp')]; [left|right].
  - split; [done|]. exists L. by eapply vfs_inv_swap.
  - split_and!; [done|set_solver|]. exists L. eapply vfs_inv_swap; [done|]. split; [|set_solver].
    by replace (L ∪ ({[p]} ∪ R)) with ({[p]} ∪ (L ∪ R)) by set_solver.
Qed.

(** ** Closing files and directory streams *)

Lemma keeps_upd_inode p f : keeps (@v_handles H) (upd_inode p f).
Proof. unfold upd_inode, inode_at, put_inode. keeps_tac. Qed.
Lemma keeps_free p : keeps (@v_handles H) (free p).
Proof. intros v a v'. unfold free, zoom. case_match; [|done]. case_match. intros [= _ <-]. done. Qed.

Lemma keeps_destroy p : keeps (@v_handles H) (ramfs_destroy_file p).
Proof. unfold ramfs_destroy_file, inode_at. keeps_tac; eauto using keeps_free. Qed.
Lemma keeps_unref p : keeps (@v_handles H) (inode_unref p).
Proof.
  unfold inode_unref, op_destroy. destruct (p =? 0); [apply keeps_ret|].
  apply keeps_bind; [apply keeps_upd_inode|intros _]. apply keeps_bind; [apply keeps_deref|intros i].
  destruct (_ <=? _); [|apply keeps_ret]. apply keeps_bind.
  - destruct (i_ops i) as [[]|]; first [apply keeps_destroy|apply keeps_ret].
  - intros _. apply keeps_bind; [apply keeps_free|intros _]. by apply keeps_modify.
Qed.
Lemma keeps_close fd : keeps (@v_handles H) (vfs_close fd).
Proof.
  unfold vfs_close, fd_at, put_fd. apply keeps_bind; [apply keeps_gets|intros ok]. destruct (negb ok); [apply keeps_ret|].
  apply keeps_bind; [apply keeps_deref|intros f]. apply keeps_bind; [apply keeps_unref|intros _]. by apply keeps_modify.
Qed.

Lemma vfs_inv_close R hd v fd : vfs_inv R hd v ->
  wp (vfs_close fd) v (fun _ v' => vfs_inv R hd v' /\ v_handles v' = v_handles v).
Proof.
  intros [L Hok]. apply (wp_keeps v_handles _ _ _ (keeps_close fd)).
  eapply wp_mono; [exact (@vfs_close_spec H _ (framed R) L hd v fd Hok)|]. cbv beta. intros _ v' ([L' Hok'] & _). exact (ex_intro _ L' Hok').
Qed.

Lemma vfs_inv_closedir R hd v d : vfs_inv R hd v -> d <> 0 -> is_Some (v_handles v !! d) ->
  wp (vfs_closedir d) v (fun _ v' => vfs_inv R hd v' /\ v_handles v' = delete d (v_handles v)).
Proof.
  intros [L Hok] Hd0 Hh. pose proof Hok as [Hheap Haddr]. unfold vfs_closedir. rewrite (proj2 (Z.eqb_neq d 0)) by done. wp_step.
  assert (HdL : d ∈ L).
  { pose proof (Haddr d) as Ha. unfold owns, live01 in Ha. rewrite (bool_decide_eq_true_2 _ Hh) in Ha.
    pose proof (isum_nonneg (fun p i => cnt d (objs p i)) (v_inodes v) (fun p i => cnt_nonneg d (objs p i))).
    case_bool_decide; [done|lia]. }
  unfold free. apply wp_zoom. eapply wp_mono; [by apply (beside_free R _ L)|]. cbv beta. intros _ h' Hl. wp_step.
  split; [|done]. exists (L ∖ {[d]}). constructor; try done. intros a. pose proof (Haddr a) as Ha.
  set (v' := upd v_handles _ _).
  change (owns v' a) with (isum (fun p i => cnt a (objs p i)) (v_inodes v) + (if bool_decide (is_Some (delete d (v_handles v) !! a)) then 1 else 0)).
  unfold owns in Ha. destruct (decide (a = d)) as [->|Hne].
  - rewrite (bool_decide_eq_true_2 _ Hh) in Ha. rewrite lookup_delete_eq, (bool_decide_eq_false_2 (is_Some None)) by (by intros []).
    unfold live01 in *. rewrite (bool_decide_eq_true_2 _ HdL) in Ha. rewrite (bool_decide_eq_false_2 (d ∈ _)) by set_solver. lia.
  - rewrite lookup_delete_ne by done. unfold live01 in *.
    replace (bool_decide (a ∈ L ∖ {[d]})) with (bool_decide (a ∈ L)); [done|]. apply bool_decide_ext. set_solver.
Qed.
End Framed.

(** ** The tasks and what they own *)

(** A task without the fields of the scheduler and the descriptor maps. *)
Definition erase_fds (x : task) : task := mk_task
  (t_pid x) (t_ppid x) (t_pgid x) (t_sid x) (t_uid x) (t_gid x)
  (t_cwd x) (t_umask_value x) (t_name x) TASK_UNUSED (t_ctx x)
  (t_stack_base x) (t_stack_size x) 0 (t_created_ticks x)
  0 (t_resident_bytes x) (t_io_read_bytes x)
  (t_io_write_bytes x) 0 (t_priority x) (t_exit_code x)
  (t_exit_signal x) (t_pending_signal x) (t_wait_target x) (t_wait_active x)
  (t_address_space x) (t_user_entry x) (t_user_stack_top x)
  (t_user_brk_base x) (t_user_brk x) (t_linux_fs_base x) (t_linux_clear_tid x)
  [] [] [] [] [] (t_fd_table_ready x) None.

Lemma erase_fds_sched x : erase_fds (erase_sched x) = erase_fds x.
Proof. by destruct x. Qed.

Definition nonzero (z : Z) : Prop := z <> 0.
#[export] Instance nonzero_dec z : Decision (nonzero z).
Proof. unfold nonzero. apply _. Defined.

(** The kernel stacks, and the directory streams that are open. *)
Definition stacks (p : list task) : list Z := filter nonzero (t_stack_base <$> p).
Definition task_dirs (x : task) : list Z := if t_fd_table_ready x =? 0 then [] else filter nonzero (t_dir_map x).
Definition dirs (p : list task) : list Z := concat (task_dirs <$> p).

Record tables_ok (x : task) : Prop := {
  tb_fds : zlen (t_fd_map x) = TASK_FD_MAX;
  tb_sockets : zlen (t_socket_map x) = TASK_FD_MAX;
  tb_flags : zlen (t_fd_flags x) = TASK_FD_MAX;
  tb_dirs : zlen (t_dir_map x) = ATM_NATIVE_DIR_MAX }.

Lemma fmap_alter_same {A B} (g : A -> B) (f : A -> A) t (l : list A) :
  (forall x, l !! t = Some x -> g (f x) = g x) -> g <$> alter f t l = g <$> l.
Proof.
  intros Hg. apply list_eq. intros j. rewrite !list_lookup_fmap. destruct (decide (t = j)) as [->|Hne].
  - rewrite list_lookup_alter_eq. destruct (l !! j) as [x|] eqn:E; [|done]. simpl. by rewrite Hg.
  - by rewrite list_lookup_alter_ne.
Qed.

Lemma filter_nonzero_insert (m : list Z) i d : m !! i = Some d -> d <> 0 -> filter nonzero m ≡ₚ d :: filter nonzero (<[i := 0]> m).
Proof.
  intros Hm Hd. rewrite <- (take_drop_middle m i d Hm) at 1. rewrite insert_take_drop by (by eapply lookup_lt_Some).
  rewrite !list.filter_app, (filter_cons_True _ d) by done. rewrite (filter_cons_False _ 0) by (intros Hx; by apply Hx).
  symmetry. apply Permutation_middle.
Qed.

Section Tasks.
Context {H N : Type} `{!Allocator H} `{AL : !AllocatorLaws H} `{!Tcp N}.
Implicit Types (k : kernel H N) (x y : task) (t : nat) (hd : Z -> Z).

(** Nothing but the fields of the scheduler and the descriptor maps differs. *)
Definition calm k k' : Prop := erase_fds <$> pool k' = erase_fds <$> pool k.

#[export] Instance calm_equiv : Equivalence calm.
Proof.
  split; [by intros k|by intros k k' E|]. unfold calm. intros k1 k2 k3 E1 E2. congruence.
Qed.

Lemma calm_lookup k k' t x : calm k k' -> pool k !! t = Some x -> exists y, pool k' !! t = Some y /\ erase_fds y = erase_fds x.
Proof.
  intros E Hx. apply (f_equal (.!! t)) in E. rewrite !list_lookup_fmap, Hx in E.
  destruct (pool k' !! t) as [y|]; [|done]. exists y. split; [done|]. by apply (inj Some) in E.
Qed.
Lemma calm_core k k' : same_core (tasks k) (tasks k') -> calm k k'.
Proof.
  intros [E F]. unfold calm, pool. apply (f_equal (fmap erase_fds)) in E. rewrite <- !list_fmap_compose in E.
  assert (F' : forall l : list task, (erase_fds ∘ erase_sched) <$> l = erase_fds <$> l)
    by (intros l; apply list_fmap_ext; intros; apply erase_fds_sched).
  by rewrite !F' in E.
Qed.
Lemma stacks_calm k k' : calm k k' -> stacks (pool k') = stacks (pool k).
Proof.
  intros E. unfold stacks. f_equal. apply (f_equal (fmap t_stack_base)) in E. by rewrite <- !list_fmap_compose in E.
Qed.

Record kernel_inv (SI : sched -> Prop) (hd : Z -> Z) (k : kernel H N) : Prop := {
  ki_ps : pipes_inv SI (k_ps k);
  ki_vfs : vfs_inv (list_to_set (stacks (pool k))) hd (k_vfs k);
  ki_stacks : NoDup (stacks (pool k));
  ki_dirs : NoDup (dirs (pool k));
  ki_handles : Forall (fun d => is_Some (v_handles (k_vfs k) !! d)) (dirs (pool k));
  ki_tables : forall t x, pool k !! t = Some x -> t_fd_table_ready x <> 0 -> tables_ok x;
  ki_kernel : forall t x, pool k !! t = Some x -> t_address_space x = 0 }.

(** One task changed. *)
Definition put_task t (f : task -> task) k : kernel H N :=
  k <| k_ps := (k_ps k) <| ps_sched := (tasks k) <| task_pool := alter f t (pool k) |> |> |>.

Lemma wp_upd_task t f k Q : (t < length (pool k))%nat -> Q tt (put_task t f k) -> wp (upd_task t f) k Q.
Proof. intros Ht HQ. unfold upd_task, on_tasks, on_ps. apply wp_zoom, wp_on_sched, wp_mod_task; done. Qed.
Lemma wp_ktask t x k Q : pool k !! t = Some x -> Q x k -> wp (ktask t) k Q.
Proof.
  intros Hx HQ. unfold ktask, on_tasks, on_ps. apply wp_zoom, wp_on_sched. eapply wp_deref; [exact Hx|].
  replace (k <| k_ps := (k_ps k) <| ps_sched := ps_sched (k_ps k) |> |>) with k; [done|]. by destruct k as [[] ].
Qed.
Lemma pool_put t f k : pool (put_task t f k) = alter f t (pool k).
Proof. done. Qed.

(** The pipes see the descriptors of pipes only. *)
Lemma pipes_inv_put (SI SI' : sched -> Prop) (s : pstate) t f :
  pipes_inv SI s -> SI' ((ps_sched s) <| task_pool := alter f t (task_pool (ps_sched s)) |>) ->
  (forall x, task_pool (ps_sched s) !! t = Some x -> (forall e, 0 <= e -> task_refs e (f x) = task_refs e x) /\
    (t_fd_table_ready (f x) <> 0 -> map_ok (t_pipe_map (f x)))) ->
  pipes_inv SI' (s <| ps_sched := (ps_sched s) <| task_pool := alter f t (task_pool (ps_sched s)) |> |>).
Proof.
  intros [_ Hp Hl] HS Hf. constructor; [done|done|].
  assert (Er : forall e, 0 <= e -> end_refs ((ps_sched s) <| task_pool := alter f t (task_pool (ps_sched s)) |>) e = end_refs (ps_sched s) e).
  { intros e He. unfold end_refs. simpl. rewrite fmap_alter_same; [done|]. intros x Hx. by apply Hf. }
  destruct Hl. constructor; try done.
  - simpl. by rewrite length_alter.
  - simpl. intros j x. destruct (decide (t = j)) as [->|Hne].
    + rewrite list_lookup_alter_eq. destruct (task_pool (ps_sched s) !! j) as [y|] eqn:E; [|done]. intros [= <-]. by apply Hf.
    + rewrite list_lookup_alter_ne by done. apply lg_maps.
  - intros idx p Hi. pose proof (aget_Some_range _ _ _ Hi) as Hr. simpl. rewrite Er by lia. by apply lg_read.
  - intros idx p Hi. pose proof (aget_Some_range _ _ _ Hi) as Hr. simpl. rewrite Er by lia. by apply lg_write.
Qed.
End Tasks.
