(* ===== verification/ProcFd.v ===== *)
(** * Releasing the descriptors of a task

    [native_fd_task_cleanup] closes the directory streams, pipe ends, sockets and files
    of a task, and keeps the invariant of the kernel at each step. *)

From S2P Require Import Prelude Cstring Sched SchedInv SchedProps Pipe PipeInv PipeRefs Alloc Vfs VfsSynth VfsPath VfsApi VfsInv VfsRefs VfsDir VfsOps VfsTree VfsFile VfsFd Paging Kernel Posix Socket NativeFd Process ProcInv.

(** What the socket registry needs of TCP: closing a connection returns. *)
Class TcpTotal (N : Type) `{!Tcp N} := tcp_close_total (c : atm_tcp_conn) (n : N) : wp (atm_tcp_close c) n (fun _ _ => True).

Section Fd.
Context {H N : Type} `{!Allocator H} `{AL : !AllocatorLaws H} `{!Tcp N} `{!TcpTotal N}.
Context {SI : sched -> Prop} `{!WakeInv SI}.
Implicit Types (k : kernel H N) (x y : task) (t : nat) (hd : Z -> Z).

Lemma pool_lt k t x : pool k !! t = Some x -> (t < length (pool k))%nat.
Proof. apply lookup_lt_Some. Qed.

Lemma same_task (p : list task) t x y : p !! t = Some x -> p !! t = Some y -> y = x.
Proof. intros Hx Hy. apply (inj Some). by rewrite <- Hx, <- Hy. Qed.

Lemma dirs_put f t k x : pool k !! t = Some x -> task_dirs (f x) = task_dirs x -> dirs (alter f t (pool k)) = dirs (pool k).
Proof. intros Hx E. unfold dirs. f_equal. apply fmap_alter_same. intros y Hy. by rewrite (same_task _ _ _ _ Hx Hy). Qed.

(** A change of a task that leaves alone what it owns and its pipes, also its state ... *)
Record keeps_owned (f : task -> task) x : Prop := {
  nt_stack : t_stack_base (f x) = t_stack_base x;
  nt_space : t_address_space (f x) = t_address_space x;
  nt_ready : t_fd_table_ready (f x) = t_fd_table_ready x;
  nt_pipes : t_pipe_map (f x) = t_pipe_map x;
  nt_dirs : t_dir_map (f x) = t_dir_map x;
  nt_tables : tables_ok x -> tables_ok (f x) }.
Definition neutral (f : task -> task) x : Prop :=
  (forall y, t_next (f y) = t_next y) /\ (forall y, t_state (f y) = t_state y) /\ keeps_owned f x.
(** ... and one of the descriptor maps only. *)
Definition harmless (f : task -> task) x : Prop := neutral f x /\ erase_fds (f x) = erase_fds x.

Lemma calm_put k t x f : pool k !! t = Some x -> erase_fds (f x) = erase_fds x -> calm k (put_task t f k).
Proof. intros Hx E. unfold calm. rewrite pool_put. apply fmap_alter_same. intros y Hy. by rewrite (same_task _ _ _ _ Hx Hy). Qed.

Lemma tables_put k t x f : pool k !! t = Some x -> (t_fd_table_ready (f x) <> 0 -> tables_ok (f x)) ->
  (forall j y, pool k !! j = Some y -> t_fd_table_ready y <> 0 -> tables_ok y) ->
  forall j y, pool (put_task t f k) !! j = Some y -> t_fd_table_ready y <> 0 -> tables_ok y.
Proof.
  intros Hx Hf Hall j y. rewrite pool_put. destruct (decide (t = j)) as [->|Hne].
  - rewrite list_lookup_alter_eq, Hx. intros [= <-]. done.
  - rewrite list_lookup_alter_ne by done. apply Hall.
Qed.
Lemma kernel_task_calm k k' : calm k k' -> (forall t x, pool k !! t = Some x -> t_address_space x = 0) ->
  forall t x, pool k' !! t = Some x -> t_address_space x = 0.
Proof.
  intros Hc Hk t x Hx. symmetry in Hc. destruct (calm_lookup _ _ _ _ Hc Hx) as (y & Hy & E).
  change (t_address_space x) with (t_address_space (erase_fds x)). rewrite <- E. exact (Hk t y Hy).
Qed.

Lemma kernel_inv_change {SI0 : sched -> Prop} hd k t x f :
  kernel_inv SI0 hd k -> pool k !! t = Some x -> SI (tasks (put_task t f k)) -> keeps_owned f x -> kernel_inv SI hd (put_task t f k).
Proof.
  intros [Hps Hv Hst Hd Hh Htb Hk] Hx HS [].
  assert (Ed : dirs (pool (put_task t f k)) = dirs (pool k)).
  { rewrite pool_put. apply (dirs_put f t k x Hx). unfold task_dirs. by rewrite nt_ready0, nt_dirs0. }
  assert (Es : stacks (pool (put_task t f k)) = stacks (pool k)).
  { unfold stacks. f_equal. apply fmap_alter_same. intros y Hy. by rewrite (same_task (pool k) t x y Hx Hy). }
  constructor; rewrite ?Es, ?Ed; try done.
  - eapply pipes_inv_put; [done|done|]. intros y Hy. rewrite (same_task (pool k) t x y Hx Hy). split.
    + intros e _. unfold task_refs. by rewrite nt_ready0, nt_pipes0.
    + rewrite nt_ready0, nt_pipes0. intros Hr. exact (lg_maps _ _ (pi_ledger _ _ Hps) _ _ Hx Hr).
  - apply (tables_put k t x f Hx); [|done]. rewrite nt_ready0. intros Hr. eauto.
  - intros j y. rewrite pool_put. destruct (decide (t = j)) as [->|Hne]; [|rewrite list_lookup_alter_ne by done; apply Hk].
    rewrite list_lookup_alter_eq, Hx. intros [= <-]. rewrite nt_space0. exact (Hk _ _ Hx).
Qed.
Lemma kernel_inv_neutral hd k t x f : kernel_inv SI hd k -> pool k !! t = Some x -> neutral f x ->
  kernel_inv SI hd (put_task t f k).
Proof.
  intros Hi Hx (Hn & Hs & Hk). eapply kernel_inv_change; [done|done| |done]. apply wi_neutral; [|done|done]. apply Hi.
Qed.
Lemma kernel_inv_put hd k t x f : kernel_inv SI hd k -> pool k !! t = Some x -> harmless f x ->
  kernel_inv SI hd (put_task t f k) /\ calm k (put_task t f k).
Proof. intros Hi Hx [Hn He]. split; [by eapply kernel_inv_neutral|by eapply calm_put]. Qed.

(** ** Directory streams *)

Lemma concat_alter (g : task -> list Z) (p : list task) t x f d : p !! t = Some x -> g x ≡ₚ d :: g (f x) ->
  concat (g <$> p) ≡ₚ d :: concat (g <$> alter f t p).
Proof.
  intros Hx Hg. revert t Hx. induction p as [|y p IH]; intros [|t] Hx; simplify_eq/=.
  - by rewrite Hg.
  - rewrite (IH t Hx). symmetry. apply Permutation_middle.
Qed.

(** The streams of [x] left open once the handles below [n] are closed. *)
Definition closed_below (n : Z) x : Prop := forall i, 0 <= i < n -> aget (t_dir_map x) i = Some 0.

(** What the steps of the clean-up leave of the task. *)
Definition same_fds x y : Prop :=
  t_fd_map y = t_fd_map x /\ t_fd_table_ready y = t_fd_table_ready x /\ t_fd_flags y = t_fd_flags x /\ t_socket_map y = t_socket_map x.

Definition dir_body t (i : Z) : M (kernel H N) unit :=
  let* x := ktask t in
  let* d := deref (fun _ => aget (t_dir_map x) i) in
  if d =? 0 then ret tt else do* atm_posix_closedir d in set_dir_map t i 0.

Lemma kernel_inv_closedir hd k t x i d :
  kernel_inv SI hd k -> pool k !! t = Some x -> t_fd_table_ready x <> 0 -> aget (t_dir_map x) i = Some d -> d <> 0 ->
  wp (do* atm_posix_closedir d in set_dir_map t i 0) k (fun _ k' =>
    kernel_inv SI hd k' /\ calm k k' /\ pool k' = alter (fun y => y <| t_dir_map := aset (t_dir_map y) i 0 |>) t (pool k)).
Proof.
  intros Hinv Hx Hr Hi Hd. pose proof Hinv as [Hps Hv Hst Hdd Hh Htb Hk].
  set (f := fun y : task => y <| t_dir_map := aset (t_dir_map y) i 0 |>).
  assert (Hperm : dirs (pool k) ≡ₚ d :: dirs (alter f t (pool k))).
  { apply (concat_alter task_dirs _ _ x); [done|]. unfold task_dirs, f. simpl. rewrite (proj2 (Z.eqb_neq _ 0)) by done.
    unfold aget, aset in *. destruct (i <? 0); [done|]. by apply filter_nonzero_insert. }
  assert (Hlive : is_Some (v_handles (k_vfs k) !! d)).
  { apply (proj1 (list.Forall_forall _ _) Hh). rewrite Hperm. left. }
  assert (Hdd' : NoDup (d :: dirs (alter f t (pool k)))) by (by rewrite <- Hperm).
  apply list.NoDup_cons in Hdd' as [Hnd Hdd'].
  assert (Hh' : Forall (fun d' => is_Some (v_handles (k_vfs k) !! d')) (dirs (alter f t (pool k)))).
  { rewrite Hperm in Hh. by apply list.Forall_cons in Hh as [_ ?]. }
  wp_step. unfold atm_posix_closedir. rewrite (proj2 (Z.eqb_neq d 0)) by done. wp_step. apply wp_zoom.
  eapply wp_mono; [by apply vfs_inv_closedir|]. cbv beta. intros _ v' [Hv' Eh]. wp_step.
  apply wp_upd_task; [by eapply pool_lt|]. fold f. set (k1 := k <| k_vfs := v' |>).
  assert (Hx1 : pool k1 !! t = Some x) by exact Hx.
  pose proof (calm_put k1 t x f Hx1 ltac:(by destruct x)) as Hc. split_and!; [|exact Hc|done].
  pose proof (stacks_calm _ _ Hc) as Es. constructor; rewrite ?Es; try done.
  - apply (pipes_inv_put SI SI (k_ps k)); [done|by apply wi_neutral; [apply Hps|..]|]. intros y Hy. split; [done|]. intros Hry. exact (lg_maps _ _ (pi_ledger _ _ Hps) _ _ Hy Hry).
  - change (v_handles (k_vfs (put_task t f k1))) with (v_handles v'). rewrite Eh.
    apply list.Forall_forall. intros d' Hd'. rewrite lookup_delete_ne by (intros <-; done).
    by apply (proj1 (list.Forall_forall _ _) Hh').
  - apply (tables_put k1 t x f Hx1); [|done]. intros _. destruct (Htb t x Hx Hr). constructor; try done. unfold f. simpl. by rewrite aset_length.
  - eapply kernel_task_calm; [exact Hc|exact Hk].
Qed.

(** A step of the clean-up: the invariant, and a task that still has its table. *)
Definition stepped hd k k' t : Prop :=
  kernel_inv SI hd k' /\ calm k k' /\ exists y, pool k' !! t = Some y /\ t_fd_table_ready y <> 0.

Lemma seqZ_prefix pre i n : pre ++ [i] `prefix_of` seqZ 0 n -> 0 <= i < n /\ forall j, j ∈ pre -> 0 <= j < n.
Proof.
  intros [rest E]. assert (Hall : forall j, j ∈ pre ++ [i] -> 0 <= j < n).
  { intros j Hj. assert (Hs : j ∈ seqZ 0 n) by (rewrite E; apply elem_of_app; by left). apply elem_of_seqZ in Hs. lia. }
  split; [apply Hall; set_solver|]. intros j Hj. apply Hall. set_solver.
Qed.

Lemma dir_cleanup_spec hd k t x : kernel_inv SI hd k -> pool k !! t = Some x -> t_fd_table_ready x <> 0 ->
  wp (native_dir_task_cleanup (Some t)) k (fun _ k' => kernel_inv SI hd k' /\ calm k k' /\
    exists y, pool k' !! t = Some y /\ t_fd_table_ready y <> 0 /\ closed_below ATM_NATIVE_DIR_MAX y).
Proof.
  intros Hinv Hx Hr.
  apply wp_mono with (P := fun _ k' => kernel_inv SI hd k' /\ calm k k' /\ exists y, pool k' !! t = Some y /\
    t_fd_table_ready y <> 0 /\ forall j, j ∈ seqZ 0 ATM_NATIVE_DIR_MAX -> aget (t_dir_map y) j = Some 0).
  - apply (wp_for_each (dir_body t) (fun pre k' => kernel_inv SI hd k' /\ calm k k' /\ exists y, pool k' !! t = Some y /\
      t_fd_table_ready y <> 0 /\ forall j, j ∈ pre -> aget (t_dir_map y) j = Some 0)).
    + split_and!; [done|done|]. exists x. split_and!; [done|done|]. intros j Hj. by apply elem_of_nil in Hj.
    + intros pre i k1 [Hi Hpre]%seqZ_prefix (Hinv1 & Hc1 & y & Hy & Hry & Hz).
      pose proof (tb_dirs _ (ki_tables _ _ _ Hinv1 _ _ Hy Hry)) as Hlen.
      destruct (aget_is_Some (t_dir_map y) i) as [d Hd]; [lia|]. unfold dir_body. wp_step. eapply wp_ktask; [done|].
      wp_step. eapply wp_deref; [done|]. destruct (Z.eqb_spec d 0) as [->|Hd0].
      * wp_step. split_and!; [done|done|]. exists y. split_and!; [done|done|].
        intros j [Hj|Hj%list_elem_of_singleton]%elem_of_app; [auto|by subst].
      * eapply wp_mono; [by eapply kernel_inv_closedir|]. cbv beta. intros _ k2 (Hinv2 & Hc2 & Ep).
        split_and!; [done|by etransitivity|]. eexists. rewrite Ep, list_lookup_alter_eq, Hy. split; [done|]. split; [done|].
        intros j Hj. simpl. destruct (decide (j = i)) as [->|Hne]; [apply aget_aset_eq; lia|].
        rewrite aget_aset_ne by done. apply Hz. set_solver.
  - cbv beta. intros _ k' (Hi & Hc & y & Hy & Hry & Hz). split_and!; [done|done|]. exists y. split_and!; [done|done|].
    intros i Hi'. apply Hz, elem_of_seqZ. lia.
Qed.

(** ** Pipe ends *)

(** The pool of tasks changed in scheduler fields and pipe maps only. *)
Lemma kernel_inv_ps {SI0 : sched -> Prop} hd k s' : kernel_inv SI0 hd k -> pipes_inv SI s' ->
  erase_pipes <$> task_pool (ps_sched s') = erase_pipes <$> pool k ->
  kernel_inv SI hd (k <| k_ps := s' |>) /\ calm k (k <| k_ps := s' |>).
Proof.
  intros [Hps Hv Hst Hd Hh Htb Hk] Hs' E. set (k' := k <| k_ps := s' |>). change (task_pool (ps_sched s')) with (pool k') in E.
  assert (Hget : forall A (g : task -> A), (forall x, g (erase_pipes x) = g x) -> g <$> pool k' = g <$> pool k).
  { intros A g Hg. apply (f_equal (fmap g)) in E. rewrite <- !list_fmap_compose in E.
    assert (F : forall l : list task, (g ∘ erase_pipes) <$> l = g <$> l) by (intros l; apply list_fmap_ext; intros; apply Hg).
    by rewrite !F in E. }
  assert (Hc : calm k k') by (apply Hget; by intros []).
  assert (Ed : dirs (pool k') = dirs (pool k)) by (unfold dirs; f_equal; apply Hget; by intros []).
  split; [|done]. pose proof (stacks_calm _ _ Hc) as Es. constructor; rewrite ?Es, ?Ed; try done.
  - intros t x Hx Hr. apply (f_equal (.!! t)) in E. rewrite !list_lookup_fmap, Hx in E. symmetry in E.
    apply fmap_Some in E as (y & Hy & E). assert (Hry : t_fd_table_ready y <> 0).
    { change (t_fd_table_ready y) with (t_fd_table_ready (erase_pipes y)). by rewrite <- E. }
    destruct (Htb t y Hy Hry). constructor.
    + change (t_fd_map x) with (t_fd_map (erase_pipes x)). by rewrite E.
    + change (t_socket_map x) with (t_socket_map (erase_pipes x)). by rewrite E.
    + change (t_fd_flags x) with (t_fd_flags (erase_pipes x)). by rewrite E.
    + change (t_dir_map x) with (t_dir_map (erase_pipes x)). by rewrite E.
  - by eapply kernel_task_calm.
Qed.

(** Every pipe entry of the task is free. *)
Definition no_pipes x : Prop := forall fd, 3 <= fd < TASK_FD_MAX -> aget (t_pipe_map x) fd = Some (-1).

Lemma closed_erase (s s' : pstate) t x fds : closed_fds (SI := SI) s s' t x fds -> task_pool (ps_sched s) !! t = Some x ->
  erase_pipes <$> task_pool (ps_sched s') = erase_pipes <$> task_pool (ps_sched s).
Proof.
  intros [_ (x' & Hx' & E & _) Ho] Hx. apply list_eq. intros j. rewrite !list_lookup_fmap.
  destruct (decide (j = t)) as [->|Hne]; [by rewrite Hx', Hx; simpl; rewrite E|]. specialize (Ho j Hne).
  destruct (task_pool (ps_sched s') !! j) as [a|], (task_pool (ps_sched s) !! j) as [b|]; try done. simpl in *.
  apply (inj Some) in Ho. f_equal. unfold erase_pipes. by rewrite Ho.
Qed.

Lemma pipe_cleanup_spec hd k t x : kernel_inv SI hd k -> pool k !! t = Some x -> t_fd_table_ready x <> 0 ->
  wp (on_ps (native_pipe_task_cleanup (Some t))) k (fun _ k' => kernel_inv SI hd k' /\ calm k k' /\
    exists y, pool k' !! t = Some y /\ t_fd_table_ready y <> 0 /\ t_dir_map y = t_dir_map x /\ no_pipes y).
Proof.
  intros Hinv Hx Hr. apply wp_zoom. eapply wp_mono; [by apply (native_pipe_task_cleanup_spec (SI := SI) (k_ps k) t x); [apply Hinv|..]|].
  cbv beta. intros _ s' Hcl. pose proof (closed_erase _ _ _ _ _ Hcl Hx) as E.
  destruct (kernel_inv_ps hd k s' Hinv (cf_inv _ _ _ _ _ Hcl) E) as [Hi Hc]. split_and!; [done|done|].
  destruct (cf_task _ _ _ _ _ Hcl) as (y & Hy & Ey & Hm). exists y. split_and!; [done| | |].
  - change (t_fd_table_ready y) with (t_fd_table_ready (erase_pipes y)). by rewrite Ey.
  - change (t_dir_map y) with (t_dir_map (erase_pipes y)). by rewrite Ey.
  - intros fd Hfd. rewrite Hm by done. rewrite decide_True; [done|]. apply elem_of_seqZ. lia.
Qed.

(** ** Sockets and files *)

Lemma kernel_inv_ext hd k k' : kernel_inv SI hd k -> k_ps k' = k_ps k -> k_vfs k' = k_vfs k -> kernel_inv SI hd k' /\ calm k k'.
Proof.
  intros [Hps Hv Hst Hd Hh Htb Hk] Ep Ev. assert (E : pool k' = pool k) by (unfold pool, tasks; by rewrite Ep).
  split; [|by unfold calm; rewrite E]. constructor; rewrite ?E, ?Ep, ?Ev; done.
Qed.

(** What the last loops keep of the task: its table is there, and its pipes and streams are closed. *)
Definition emptied x : Prop := t_fd_table_ready x <> 0 /\ closed_below ATM_NATIVE_DIR_MAX x /\ no_pipes x.
Definition emptying hd k k' t : Prop := kernel_inv SI hd k' /\ calm k k' /\ exists y, pool k' !! t = Some y /\ emptied y.

Lemma emptying_trans hd k k1 k2 t : calm k k1 -> emptying hd k1 k2 t -> emptying hd k k2 t.
Proof. intros Hc (Hi & Hc2 & Hy). split_and!; [done|by etransitivity|done]. Qed.

Lemma emptying_put hd k t x f : kernel_inv SI hd k -> pool k !! t = Some x -> emptied x -> harmless f x ->
  wp (upd_task t f) k (fun _ k' => emptying hd k k' t /\ pool k' !! t = Some (f x)).
Proof.
  intros Hi Hx (Hr & Hd & Hp) Hf. apply wp_upd_task; [by eapply pool_lt|].
  destruct (kernel_inv_put hd k t x f Hi Hx Hf) as [Hi' Hc]. assert (Hx' : pool (put_task t f k) !! t = Some (f x)).
  { by rewrite pool_put, list_lookup_alter_eq, Hx. }
  split; [|done]. split_and!; [done|done|]. exists (f x). split; [done|]. destruct Hf as [(_ & _ & []) _]. split_and!.
  - by rewrite nt_ready0.
  - intros i. rewrite nt_dirs0. apply Hd.
  - intros fd. rewrite nt_pipes0. apply Hp.
Qed.

Lemma socket_map_harmless fd v x : harmless (fun y => y <| t_socket_map := aset (t_socket_map y) fd v |>) x.
Proof. split; [|done]. split_and!; [done|done|]. constructor; try done. intros []. constructor; try done. simpl. by rewrite aset_length. Qed.
Lemma fd_map_harmless fd v x : harmless (fun y => y <| t_fd_map := aset (t_fd_map y) fd v |>) x.
Proof. split; [|done]. split_and!; [done|done|]. constructor; try done. intros []. constructor; try done. simpl. by rewrite aset_length. Qed.
Lemma fd_flags_harmless fd v x : harmless (fun y => y <| t_fd_flags := aset (t_fd_flags y) fd v |>) x.
Proof. split; [|done]. split_and!; [done|done|]. constructor; try done. intros []. constructor; try done. simpl. by rewrite aset_length. Qed.

Lemma socket_close_spec hd k t x fd : kernel_inv SI hd k -> pool k !! t = Some x -> emptied x ->
  wp (native_socket_close (Some t) fd) k (fun _ k' => emptying hd k k' t).
Proof.
  intros Hi Hx Hd. unfold native_socket_close. do 2 wp_step. destruct (slot_for k (Some t) fd) as [[i s]|].
  - wp_step. apply wp_zoom. eapply wp_mono; [apply tcp_close_total|]. cbv beta. intros r n _.
    set (k1 := k <| k_net := n |>). destruct (kernel_inv_ext hd k k1 Hi eq_refl eq_refl) as [Hi1 Hc1]. wp_step.
    eapply wp_mono; [apply (emptying_put hd k1 t x); [exact Hi1|exact Hx|exact Hd|apply socket_map_harmless]|].
    cbv beta. intros _ k2 [(Hi2 & Hc2 & y & Hy) _]. wp_step. unfold put_slot. wp_step.
    set (k3 := k2 <| k_slots := aset (k_slots k2) i slot_zero |>). destruct (kernel_inv_ext hd k2 k3 Hi2 eq_refl eq_refl) as [Hi3 Hc3].
    wp_step. split_and!; [done|by do 2 (etransitivity; [eassumption|])|]. by exists y.
  - wp_step. split_and!; [done|done|]. by exists x.
Qed.

Lemma socket_cleanup_spec hd k t x : kernel_inv SI hd k -> pool k !! t = Some x -> emptied x ->
  wp (native_socket_task_cleanup (Some t)) k (fun _ k' => emptying hd k k' t).
Proof.
  intros Hi Hx Hd.
  apply (wp_for_each _ (fun _ k' => emptying hd k k' t)); [split_and!; [done|done|by exists x]|].
  intros pre fd k1 Hpre (Hi1 & Hc1 & y & Hy & Hey). wp_step. eapply wp_ktask; [done|].
  destruct Hpre as [rest E]. assert (Hfd : fd ∈ seqZ 3 (TASK_FD_MAX - 3)) by (rewrite E; set_solver).
  apply elem_of_seqZ in Hfd. pose proof (tb_sockets _ (ki_tables _ _ _ Hi1 _ _ Hy (proj1 Hey))) as Hl.
  destruct (aget_is_Some (t_socket_map y) fd) as [e He]; [lia|]. wp_step. eapply wp_deref; [done|].
  destruct (0 <=? e); wp_step.
  - eapply wp_mono; [by eapply socket_close_spec|]. cbv beta. intros _ k2 H2. wp_step. by eapply emptying_trans.
  - split_and!; [done|done|by exists y].
Qed.

Lemma cleanup_fd_spec hd k t x i : kernel_inv SI hd k -> pool k !! t = Some x -> emptied x -> 0 <= i < TASK_FD_MAX ->
  wp (cleanup_fd t i) k (fun _ k' => emptying hd k k' t /\ exists y, pool k' !! t = Some y /\ t_fd_map y = aset (t_fd_map x) i (-1)).
Proof.
  intros Hi Hx Hd Hr. destruct (ki_tables _ _ _ Hi _ _ Hx (proj1 Hd)) as [Hl _ _ _].
  destruct (aget_is_Some (t_fd_map x) i) as [b Hb]; [lia|]. unfold cleanup_fd. wp_step. eapply wp_ktask; [done|].
  wp_step. eapply wp_deref; [done|]. wp_step.
  apply wp_mono with (P := fun _ k1 => kernel_inv SI hd k1 /\ calm k k1 /\ pool k1 = pool k).
  - destruct (Z.leb_spec 0 b); [|by wp_step]. wp_step. unfold atm_posix_close. rewrite (proj2 (Z.ltb_ge b 0)) by done.
    wp_step. apply wp_zoom. eapply wp_mono; [apply vfs_inv_close, Hi|]. cbv beta. intros _ v' [Hv' Eh]. do 2 wp_step.
    destruct Hi. split_and!; [|done|done]. constructor; try done. simpl. by rewrite Eh.
  - cbv beta. intros _ k1 (Hi1 & Hc1 & Ep). rewrite <- Ep in Hx. wp_step.
    eapply wp_mono; [apply (emptying_put hd k1 t x); [done|done|done|apply fd_map_harmless]|].
    cbv beta. intros _ k2 [(Hi2 & Hc2 & y & Hy & Hey) Hy2]. rewrite Hy2 in Hy. apply (inj Some) in Hy as <-.
    eapply wp_mono; [eapply (emptying_put hd k2 t); [done|exact Hy2|done|apply fd_flags_harmless]|].
    cbv beta. intros _ k3 [H3 Hy3]. split; [|eexists; split; [exact Hy3|done]].
    eapply emptying_trans; [|exact H3]. by etransitivity.
Qed.

(** ** The whole clean-up *)

Lemma no_pipes_refs x e : no_pipes x -> 0 <= e -> task_refs e x = O.
Proof.
  intros Hp He. unfold task_refs, map_refs. destruct (_ =? 0); [done|].
  rewrite (filter_iff_elem _ (fun _ => False)); [by induction fd_slots|]. intros fd Hfd%elem_of_seqZ.
  rewrite Hp by lia. split; [|done]. intros [= <-]. lia.
Qed.
Lemma filter_zeros (l : list Z) : Forall (fun d => d = 0) l -> filter nonzero l = [].
Proof. induction 1 as [|d l -> _ IH]; [done|]. rewrite filter_cons_False; [exact IH|]. intros Hx. by apply Hx. Qed.
Lemma closed_dirs x : tables_ok x -> closed_below ATM_NATIVE_DIR_MAX x -> task_dirs x = [].
Proof.
  intros [_ _ _ Hl] Hc. unfold task_dirs. destruct (_ =? 0); [done|].
  assert (Hall : Forall (fun d => d = 0) (t_dir_map x)).
  { apply Forall_lookup. intros i d Hi. pose proof (lookup_lt_Some _ _ _ Hi) as Hlt.
    specialize (Hc (Z.of_nat i) ltac:(lia)). rewrite aget_of_nat, Hi in Hc. by injection Hc. }
  by apply filter_zeros.
Qed.

(** [task->fd_table_ready=0] *)
Definition unready (y : task) : task := y <| t_fd_table_ready := 0 |>.

Lemma kernel_inv_unready hd k t x : kernel_inv SI hd k -> pool k !! t = Some x -> emptied x ->
  kernel_inv SI hd (put_task t unready k).
Proof.
  intros [Hps Hv Hst Hd Hh Htb Hk] Hx (Hr & Hcd & Hnp). set (f := unready).
  assert (Ed : dirs (pool (put_task t f k)) = dirs (pool k)).
  { rewrite pool_put. apply (dirs_put f t k x Hx). symmetry. by apply closed_dirs; [eauto|]. }
  assert (Es : stacks (pool (put_task t f k)) = stacks (pool k)) by (unfold stacks; f_equal; by apply fmap_alter_same). constructor; rewrite ?Es, ?Ed; try done.
  - eapply pipes_inv_put; [done|by apply wi_neutral; [apply Hps|..]|]. intros y Hy. rewrite (same_task (pool k) t x y Hx Hy). split; [|done].
    intros e He. by rewrite (no_pipes_refs x e Hnp He).
  - by apply (tables_put k t x f Hx).
  - intros j y. rewrite pool_put. destruct (decide (t = j)) as [->|Hne]; [|rewrite list_lookup_alter_ne by done; apply Hk].
    rewrite list_lookup_alter_eq, Hx. intros [= <-]. exact (Hk _ _ Hx).
Qed.

Lemma calm_unready k k' t : calm k k' -> calm (put_task t unready k) (put_task t unready k').
Proof.
  unfold calm. rewrite !pool_put. intros E. rewrite !(list_fmap_alter erase_fds unready unready), E; [done|..];
    apply list.Forall_forall; intros y _; by destruct y.
Qed.
Lemma calm_unready_id k t x : pool k !! t = Some x -> t_fd_table_ready x = 0 -> calm (put_task t unready k) k.
Proof.
  intros Hx E. unfold calm. rewrite pool_put. symmetry. apply fmap_alter_same. intros y Hy.
  rewrite (same_task (pool k) t x y Hx Hy). destruct x. simpl in E. by subst.
Qed.

Lemma exec_drop_spec hd k task : kernel_inv SI hd k -> wp (fd_exec_drop task) k (fun _ k' => kernel_inv SI hd k' /\ calm k k' /\ pool k' = pool k).
Proof.
  intros Hi. unfold fd_exec_drop, fd_exec_meta_for. do 3 wp_step.
  destruct task as [t|]; [|wp_step; by wp_step]. destruct (meta_of k (Some t)) as [i|]; [|wp_step; by wp_step].
  wp_step. unfold upd_meta. wp_step.
  set (k1 := k <| k_exec := alter (fun _ => meta_zero) i (k_exec k) |>). by destruct (kernel_inv_ext hd k k1 Hi eq_refl eq_refl) as [Hi' Hc'].
Qed.

(** No descriptor of the task is left. *)
Definition released x : Prop :=
  t_fd_table_ready x = 0 /\ closed_below ATM_NATIVE_DIR_MAX x /\ no_pipes x /\
  forall i, 0 <= i < TASK_FD_MAX -> aget (t_fd_map x) i = Some (-1).

Lemma fd_cleanup_loop hd k t x : kernel_inv SI hd k -> pool k !! t = Some x -> emptied x ->
  wp (for_each (cleanup_fd t) (seqZ 0 TASK_FD_MAX)) k (fun _ k' => kernel_inv SI hd k' /\ calm k k' /\
    exists y, pool k' !! t = Some y /\ emptied y /\ forall i, i ∈ seqZ 0 TASK_FD_MAX -> aget (t_fd_map y) i = Some (-1)).
Proof.
  intros Hi Hx Hd. apply (wp_for_each _ (fun pre k' => kernel_inv SI hd k' /\ calm k k' /\
    exists y, pool k' !! t = Some y /\ emptied y /\ forall i, i ∈ pre -> aget (t_fd_map y) i = Some (-1))).
  - split_and!; [done|done|]. exists x. split_and!; [done|apply Hd..|]. intros i Hin. by apply elem_of_nil in Hin.
  - intros pre i k1 [Hr Hpre]%seqZ_prefix (Hi1 & Hc1 & y & Hy & Hey & Hm).
    eapply wp_mono; [by eapply cleanup_fd_spec|]. cbv beta. intros _ k2 [(Hi2 & Hc2 & z & Hz & Hez) (z' & Hz' & Em)].
    rewrite Hz in Hz'. apply (inj Some) in Hz' as <-. split_and!; [done|by etransitivity|]. exists z. split_and!; [done|apply Hez..|].
    intros j Hj. rewrite Em. pose proof (tb_fds _ (ki_tables _ _ _ Hi1 _ _ Hy (proj1 Hey))) as Hl.
    destruct (decide (j = i)) as [->|Hne]; [apply aget_aset_eq; lia|]. rewrite aget_aset_ne by done. apply Hm. set_solver.
Qed.

Lemma fd_cleanup_spec hd k t x : kernel_inv SI hd k -> pool k !! t = Some x ->
  wp (native_fd_task_cleanup (Some t)) k (fun _ k' => kernel_inv SI hd k' /\ calm (put_task t unready k) k' /\
    exists y, pool k' !! t = Some y /\ if t_fd_table_ready x =? 0 then y = x else released y).
Proof.
  intros Hi Hx. unfold native_fd_task_cleanup. do 2 wp_step. unfold task_at. simpl. change (task_pool (tasks k)) with (pool k).
  rewrite Hx. destruct (Z.eqb_spec (t_fd_table_ready x) 0) as [E|Hr].
  { wp_step. split_and!; [done|by eapply calm_unready_id|by exists x]. }
  wp_step. eapply wp_mono; [by eapply dir_cleanup_spec|]. cbv beta. intros _ k1 (Hi1 & Hc1 & y1 & Hy1 & Hr1 & Hd1).
  wp_step. eapply wp_mono; [by eapply pipe_cleanup_spec|]. cbv beta. intros _ k2 (Hi2 & Hc2 & y2 & Hy2 & Hr2 & Ed2 & Hp2).
  assert (He2 : emptied y2) by (split_and!; [done|intros i; rewrite Ed2; apply Hd1|done]).
  wp_step. eapply wp_mono; [by eapply socket_cleanup_spec|]. cbv beta. intros _ k3 (Hi3 & Hc3 & y3 & Hy3 & He3).
  wp_step. eapply wp_mono; [by eapply fd_cleanup_loop|]. cbv beta. intros _ k4 (Hi4 & Hc4 & y4 & Hy4 & He4 & Hm4).
  wp_step. apply wp_upd_task; [by eapply pool_lt|]. fold unready.
  pose proof (kernel_inv_unready hd k4 t y4 Hi4 Hy4 He4) as Hi5.
  eapply wp_mono; [by eapply exec_drop_spec|]. cbv beta. intros _ k6 (Hi6 & Hc6 & Ep6). split_and!; [done| |].
  - etransitivity; [|exact Hc6]. apply calm_unready. do 3 (etransitivity; [eassumption|]). done.
  - rewrite Ep6, pool_put, list_lookup_alter_eq, Hy4. eexists. split; [done|]. destruct He4 as (_ & ? & ?). split_and!; [done|done|done|].
    intros i Hir. apply Hm4, elem_of_seqZ. lia.
Qed.
End Fd.
