(* ===== verification/ProcOps.v ===== *)
(** * The life of a task

    Every operation of [Process] on kernel tasks keeps the invariant of the kernel and
    returns: creation, termination with the wake-up of the parent and the adoption of
    the children, and the reaping of zombies. *)

From S2P Require Import Prelude Cstring Sched SchedInv SchedProps Pipe PipeInv PipeRefs Alloc Vfs VfsSynth VfsPath VfsApi VfsInv VfsRefs VfsDir VfsOps VfsTree VfsFile VfsFd Paging Kernel Posix Socket NativeFd Process ProcInv ProcFd.

Definition inv_at (c : nat) (s : sched) : Prop := exists l, sched_inv s l c.

#[export] Instance inv_at_wake c : WakeInv (inv_at c).
Proof.
  constructor.
  - intros s [l Hl]. apply Hl.
  - intros s t [l Hl] Ht. eapply wp_mono; [by eapply task_unblock_ok|]. cbv beta. intros _ s' [? [l' ?]]. split; [by eexists|done].
  - intros s i f [l Hl] Hn Hs. exists l. by apply sched_inv_neutral.
Qed.

Lemma inv_at_sleep c s i m : inv_at c s -> inv_at c (s <| sleep_meta := <[i := m]> (sleep_meta s) |>).
Proof. intros [l Hl]. exists l. apply (sched_inv_frame s); try done. simpl. by rewrite length_insert. Qed.

(** A task that is not runnable is replaced by one that is not. *)
Lemma inv_at_dead c s t f : inv_at c s -> (t < TASK_MAX)%nat -> ~ runnable (task_state_at s t) ->
  (forall x, ~ runnable (t_state (f x))) -> inv_at c (s <| task_pool := alter f t (task_pool s) |>).
Proof.
  intros [l Hl] Ht Hd Hf. exists l. pose proof Hl as [Hpool Hsleep Hring Hcur Hclt Hq Hrun Hrunning].
  assert (Hnin : t ∉ l) by (intros Hin; by apply Hd, Hq).
  set (s' := s <| task_pool := alter f t (task_pool s) |>).
  assert (Hst : forall j, j <> t -> task_state_at s' j = task_state_at s j).
  { intros j Hj. unfold s'. rewrite state_at_alter by lia. by rewrite decide_False. }
  assert (Hd' : ~ runnable (task_state_at s' t)).
  { unfold s'. rewrite state_at_alter by lia. rewrite decide_True by done. apply Hf. }
  constructor; try done.
  - simpl. by rewrite length_alter.
  - destruct Hring as (Hh & Hnd & Hs & Hb). split_and!; [done|done| |simpl; by rewrite length_alter].
    destruct l as [|h l']; [done|]. eapply lseg_frame; [|exact Hs]. intros j Hj. unfold next_of. simpl.
    rewrite list_lookup_alter_ne; [done|]. by intros ->.
  - intros i Hi. rewrite Hst; [auto|]. by intros ->.
  - intros i Hi0 Hri. destruct (decide (i = t)) as [->|Hne]; [done|]. rewrite Hst in Hri by done. auto.
  - intros i Hri. destruct (decide (i = t)) as [->|Hne]; [exfalso; apply Hd'; by right|]. rewrite Hst in Hri by done. auto.
Qed.

(** ** Stacks *)

Lemma fmap_alter_insert {A B} (g : A -> B) (f : A -> A) t (l : list A) x :
  l !! t = Some x -> g <$> alter f t l = <[t := g (f x)]> (g <$> l).
Proof.
  intros Hx. apply list_eq. intros j. rewrite list_lookup_fmap. pose proof (lookup_lt_Some _ _ _ Hx). destruct (decide (t = j)) as [->|Hne].
  - rewrite list_lookup_alter_eq, Hx, list_lookup_insert_eq by (by rewrite length_fmap). done.
  - by rewrite list_lookup_alter_ne, list_lookup_insert_ne, list_lookup_fmap.
Qed.

(** The stack of one task taken from the list, or added to it. *)
Lemma stacks_drop (l : list task) t x f : l !! t = Some x -> t_stack_base x <> 0 -> t_stack_base (f x) = 0 ->
  stacks l ≡ₚ t_stack_base x :: stacks (alter f t l).
Proof.
  intros Hx Hp Hf. unfold stacks. rewrite (fmap_alter_insert _ f t l x Hx), Hf. apply filter_nonzero_insert; [|done].
  by rewrite list_lookup_fmap, Hx.
Qed.
Lemma stacks_add (l : list task) t x f : l !! t = Some x -> t_stack_base x = 0 -> t_stack_base (f x) <> 0 ->
  stacks (alter f t l) ≡ₚ t_stack_base (f x) :: stacks l.
Proof.
  intros Hx Hp Hf. rewrite (stacks_drop (alter f t l) t (f x) (fun _ => x)); [|by rewrite list_lookup_alter_eq, Hx|done|done].
  f_equiv. replace (alter (fun _ => x) t (alter f t l)) with l; [done|]. apply list_eq. intros j.
  destruct (decide (t = j)) as [->|Hne]; [by rewrite !list_lookup_alter_eq, Hx|by rewrite !list_lookup_alter_ne].
Qed.
Lemma stacks_same (l : list task) t x f : l !! t = Some x -> t_stack_base (f x) = t_stack_base x -> stacks (alter f t l) = stacks l.
Proof. intros Hx E. unfold stacks. f_equal. apply fmap_alter_same. intros y Hy. by rewrite (same_task _ _ _ _ Hx Hy). Qed.

Section Ops.
Context {H N : Type} `{!Allocator H} `{AL : !AllocatorLaws H} `{!Tcp N} `{!TcpTotal N}.
Implicit Types (k : kernel H N) (x y : task) (t : nat) (hd : Z -> Z).

(** A free slot owns nothing, a zombie has no descriptors, and slot 0 is the idle task's. *)
Record slot_clean t x : Prop := {
  sc_unused : t_state x = TASK_UNUSED -> t_stack_base x = 0 /\ t_fd_table_ready x = 0;
  sc_zombie : t_state x = TASK_ZOMBIE -> t_fd_table_ready x = 0;
  sc_idle : t = O -> t_pid x = 0 /\ alive (t_state x) }.
Definition clean k : Prop := forall t x, pool k !! t = Some x -> slot_clean t x.

(** The invariant of the kernel, [c] being the current task. *)
Definition kernel_sound hd c k : Prop := kernel_inv (inv_at c) hd k /\ clean k.

Lemma kernel_inv_mono (SI SI' : sched -> Prop) hd k : kernel_inv SI hd k -> SI' (tasks k) -> kernel_inv SI' hd k.
Proof. intros [[] ? ? ? ? ? ?] HS. constructor; [by constructor|done..]. Qed.

Lemma ki_sched SI hd k : kernel_inv SI hd k -> SI (tasks k).
Proof. intros [[] ? ? ? ? ? ?]. done. Qed.
Lemma kernel_pool c hd k : kernel_inv (inv_at c) hd k -> length (pool k) = TASK_MAX.
Proof. intros [l Hl]%ki_sched. apply Hl. Qed.
Lemma kernel_current c hd k : kernel_inv (inv_at c) hd k -> current k = Some c /\ (c < TASK_MAX)%nat.
Proof. intros [l Hl]%ki_sched. split; apply Hl. Qed.
Lemma kernel_task c hd k t : kernel_inv (inv_at c) hd k -> (t < TASK_MAX)%nat -> exists x, pool k !! t = Some x.
Proof. intros Hi Ht. apply lookup_lt_is_Some_2. by rewrite (kernel_pool _ _ _ Hi). Qed.
Lemma kernel_task_lt c hd k t x : kernel_inv (inv_at c) hd k -> pool k !! t = Some x -> (t < TASK_MAX)%nat.
Proof. intros Hi Hx. rewrite <- (kernel_pool _ _ _ Hi). by eapply lookup_lt_Some. Qed.

Lemma state_of k t x : pool k !! t = Some x -> task_state_at (tasks k) t = t_state x.
Proof. apply state_at_lookup. Qed.

Lemma state_put_ne k t f j : j <> t -> task_state_at (tasks (put_task t f k)) j = task_state_at (tasks k) j.
Proof. intros Hj. unfold task_state_at. change (task_pool (tasks (put_task t f k))) with (alter f t (pool k)). by rewrite list_lookup_alter_ne. Qed.

(** ** Steps of the scheduler *)

Definition set_tasks k (s : sched) : kernel H N := k <| k_ps := (k_ps k) <| ps_sched := s |> |>.

(** A step of the scheduler that keeps the tasks but for its own fields. *)
Lemma kernel_inv_core (SI SI' : sched -> Prop) hd k (s' : sched) :
  kernel_inv SI hd k -> SI' s' -> same_core (tasks k) s' -> kernel_inv SI' hd (set_tasks k s') /\ calm k (set_tasks k s').
Proof.
  intros Hi HS Hc. apply (kernel_inv_ps (SI0 := SI)); [done| |].
  - destruct Hi as [[_ Hp Hl] _ _ _ _ _ _]. constructor; [exact HS|exact Hp|]. by apply (ledger_core (k_ps k)).
  - destruct Hc as [E _]. apply (f_equal (fmap erase_pipes)) in E. rewrite <- !list_fmap_compose in E.
    assert (F : forall l : list task, (erase_pipes ∘ erase_sched) <$> l = erase_pipes <$> l).
    { intros l. apply list_fmap_ext. intros i y _. destruct y. by vm_compute. }
    by rewrite !F in E.
Qed.

Lemma wp_on_tasks {A} (m : M sched A) k Q : wp m (tasks k) (fun a s' => Q a (set_tasks k s')) -> wp (on_tasks m) k Q.
Proof. intros Hm. unfold on_tasks, on_ps. apply wp_zoom, wp_on_sched. exact Hm. Qed.

Lemma wakes_fate v w : wakes v w -> fate v w.
Proof. intros [->|[-> ->]]; [apply fate_refl|by apply fate_alive]. Qed.

Lemma slot_clean_same t x y : erase_fds y = erase_fds x -> fate (t_state x) (t_state y) -> slot_clean t x -> slot_clean t y.
Proof.
  intros E [Hdead Halive] [H1 H2 H3].
  assert (Es : t_stack_base y = t_stack_base x) by (change (t_stack_base (erase_fds y) = t_stack_base (erase_fds x)); congruence).
  assert (Er : t_fd_table_ready y = t_fd_table_ready x) by (change (t_fd_table_ready (erase_fds y) = t_fd_table_ready (erase_fds x)); congruence).
  assert (Ep : t_pid y = t_pid x) by (change (t_pid (erase_fds y) = t_pid (erase_fds x)); congruence).
  constructor; rewrite ?Es, ?Er, ?Ep.
  - intros Eu. apply H1. destruct (decide (t_state x = TASK_UNUSED)) as [|Hn]; [done|]. destruct (decide (t_state x = TASK_ZOMBIE)) as [Ez|Hz].
    + rewrite Hdead in Eu; [congruence|]. rewrite Ez. intros [? ?]. done.
    + destruct (Halive (conj Hn Hz)). done.
  - intros Ez. apply H2. destruct (decide (t_state x = TASK_ZOMBIE)) as [|Hz]; [done|]. destruct (decide (t_state x = TASK_UNUSED)) as [Eu|Hn].
    + rewrite Hdead in Ez; [congruence|]. rewrite Eu. intros [? ?]. done.
    + destruct (Halive (conj Hn Hz)). done.
  - intros E0. destruct (H3 E0) as [? ?]. auto.
Qed.
Lemma clean_calm k k' : calm k k' -> (forall j, fate (task_state_at (tasks k) j) (task_state_at (tasks k') j)) -> clean k -> clean k'.
Proof.
  intros Hc Hw Hcl t x Hx. symmetry in Hc. destruct (calm_lookup _ _ _ _ Hc Hx) as (y & Hy & E). specialize (Hw t).
  rewrite (state_of _ _ _ Hx), (state_of _ _ _ Hy) in Hw. by apply (slot_clean_same t y); [|..|auto].
Qed.

(** One task without descriptors is changed, and the heap with it. *)
Lemma kernel_inv_rebuild (SI SI' : sched -> Prop) hd k t x f (v' : vfs H) :
  kernel_inv SI hd k -> pool k !! t = Some x -> t_fd_table_ready x = 0 -> t_fd_table_ready (f x) = 0 -> t_address_space (f x) = 0 ->
  SI' (tasks (put_task t f k)) -> v_handles v' = v_handles (k_vfs k) ->
  NoDup (stacks (alter f t (pool k))) -> vfs_inv (list_to_set (stacks (alter f t (pool k)))) hd v' ->
  kernel_inv SI' hd ((put_task t f k) <| k_vfs := v' |>).
Proof.
  intros [Hps Hv Hst Hd Hh Htb Hk] Hx Hr Hr' Ha HS Eh Hnd Hv'.
  assert (Ed : dirs (alter f t (pool k)) = dirs (pool k)).
  { apply (dirs_put f t k x Hx). unfold task_dirs. by rewrite Hr, Hr'. }
  set (k' := (put_task t f k) <| k_vfs := v' |>). change (pool k') with (alter f t (pool k)).
  constructor; change (pool k') with (alter f t (pool k)); rewrite ?Ed; try done.
  - eapply (pipes_inv_put SI SI'); [done|done|]. intros y Hy. rewrite (same_task (pool k) t x y Hx Hy). split; [|done].
    intros e _. unfold task_refs. by rewrite Hr, Hr'.
  - eapply Forall_impl; [|exact Hh]. cbv beta. intros d. change (k_vfs k') with v'. by rewrite Eh.
  - by apply (tables_put k t x f Hx).
  - intros j y. destruct (decide (t = j)) as [->|Hne]; [|rewrite list_lookup_alter_ne by done; apply Hk].
    rewrite list_lookup_alter_eq, Hx. intros E. apply (inj Some) in E as <-. done.
Qed.

(** ** Reaping *)

Lemma alter_clean k k' t f : clean k -> pool k' = alter f t (pool k) -> (forall x, pool k !! t = Some x -> slot_clean t (f x)) -> clean k'.
Proof.
  intros Hc E' Hf j y. rewrite E'. destruct (decide (t = j)) as [->|Hne]; [|rewrite list_lookup_alter_ne by done; apply Hc].
  rewrite list_lookup_alter_eq. destruct (pool k !! j) as [x|] eqn:E; [|done]. intros Ey. apply (inj Some) in Ey as <-. auto.
Qed.

(** The stack of a task is released and the task cleared, whatever the rest of [m] does to the scheduler. *)
Definition reset (_ : task) : task := zero_task.
Lemma zero_clean t : t <> O -> slot_clean t zero_task.
Proof. by constructor. Qed.
Lemma dead_not_idle t x : slot_clean t x -> ~ alive (t_state x) -> t <> O.
Proof. intros [_ _ Hi] Hd ->. by apply Hd, Hi. Qed.

Lemma drop_stack_spec (SI : sched -> Prop) hd k t x : kernel_inv SI hd k -> pool k !! t = Some x ->
  wp (if t_stack_base x =? 0 then ret tt else on_kheap (kfree (t_stack_base x))) k (fun _ k' =>
    exists v', k' = k <| k_vfs := v' |> /\ v_handles v' = v_handles (k_vfs k) /\
      NoDup (stacks (alter reset t (pool k))) /\ vfs_inv (list_to_set (stacks (alter reset t (pool k)))) hd v').
Proof.
  intros [Hps Hv Hst Hd Hh Htb Hk] Hx. destruct (Z.eqb_spec (t_stack_base x) 0) as [E|Hp].
  - wp_step. exists (k_vfs k). rewrite (stacks_same _ t x reset Hx) by done. split_and!; try done. by destruct k.
  - pose proof (stacks_drop _ t x reset Hx Hp eq_refl) as Hperm. unfold on_kheap, on_vfs. apply wp_zoom.
    eapply wp_mono; [apply (vfs_inv_free _ hd _ (t_stack_base x) Hv)|].
    { apply elem_of_list_to_set. rewrite Hperm. left. }
    cbv beta. intros _ v' [Hv' [h' Ev]]. exists v'. rewrite Hperm in Hst. apply list.NoDup_cons in Hst as [Hnin Hst].
    split_and!; [done|by rewrite Ev|done|]. replace (list_to_set (stacks (alter reset t (pool k)))) with
      ((list_to_set (stacks (pool k)) : gset Z) ∖ {[t_stack_base x]}); [done|].
    apply set_eq. intros z. rewrite elem_of_difference, !elem_of_list_to_set, Hperm, elem_of_singleton. set_solver.
Qed.

Lemma release_zombie_slot_spec hd c k t x : kernel_sound hd c k -> pool k !! t = Some x ->
  wp (release_zombie_slot t) k (fun _ k' => kernel_sound hd c k' /\
    pool k' = (if decide (c <> t /\ t_state x = TASK_ZOMBIE) then alter reset t (pool k) else pool k) /\
    next_pid (tasks k') = next_pid (tasks k)).
Proof.
  intros [Hi Hc] Hx. pose proof (kernel_current _ _ _ Hi) as [Hcur Hlt]. unfold release_zombie_slot. wp_step. eapply wp_ktask; [done|].
  do 2 wp_step. rewrite Hcur. destruct (decide (c <> t /\ t_state x = TASK_ZOMBIE)) as [[Hct Hz]|Hn].
  - rewrite bool_decide_eq_false_2 by congruence. rewrite bool_decide_eq_true_2 by done. cbn [orb negb].
    unfold release_space. rewrite (ki_kernel _ _ _ Hi _ _ Hx). change (0 =? 0) with true. cbn match. do 3 wp_step.
    eapply wp_mono; [by eapply drop_stack_spec|]. cbv beta. intros _ k1 (v' & -> & Eh & Hnd & Hv').
    wp_step. apply wp_on_tasks. unfold sleep_cancel_task. wp_step.
    set (s1 := (tasks k) <| sleep_meta := <[t := mk_sleep 0 0]> (sleep_meta (tasks k)) |>).
    destruct (kernel_inv_core (inv_at c) (inv_at c) hd k s1 Hi) as [Hi1 _]; [apply inv_at_sleep, (ki_sched _ _ _ Hi)|done|].
    apply wp_upd_task; [by apply (pool_lt k t x)|]. split; [split|split].
    + apply (kernel_inv_rebuild (inv_at c) (inv_at c) hd (set_tasks k s1) t x (fun _ => zero_task) v'); try done.
      * by apply (sc_zombie _ _ (Hc t x Hx)).
      * apply inv_at_dead; [apply Hi1|by eapply kernel_task_lt| |intros _ [?|?]; done].
        rewrite (state_of (set_tasks k s1) t x Hx), Hz. intros [?|?]; done.
    + eapply (alter_clean k _ t reset Hc); [reflexivity|]. intros ? ?. apply zero_clean. apply (dead_not_idle t x); [auto|]. rewrite Hz. by intros [? ?].
    + reflexivity.
    + reflexivity.
  - replace (bool_decide (Some c = Some t) || negb (bool_decide (t_state x = TASK_ZOMBIE))) with true; [by wp_step|].
    symmetry. apply orb_true_iff. destruct (decide (c = t)) as [->|Hct]; [left; by apply bool_decide_eq_true_2|right].
    rewrite bool_decide_eq_false_2; [done|]. intros E. by apply Hn.
Qed.

(** ** The first task with a property *)

Definition task_with (p : task -> bool) k t : Prop := exists x, pool k !! t = Some x /\ p x = true.

Lemma first_task_Some k lo p t : first_task k lo p = Some t ->
  task_with p k t /\ (lo <= t)%nat /\ (t < TASK_MAX)%nat /\ forall j, (lo <= j < t)%nat -> ~ task_with p k j.
Proof.
  unfold first_task. intros (i & Hi & ->)%fmap_Some. apply first_idx_Some in Hi as (Hr & Hp & Hlt).
  assert (Hg : forall n : nat, match aget (pool k) (Z.of_nat n) with Some x => p x | None => false end = true <-> task_with p k n).
  { intros n. rewrite aget_of_nat. unfold task_with. destruct (pool k !! n) as [y|]; split; [by exists y|by intros (z & [= <-] & ?)|done|by intros (? & ? & ?)]. }
  assert (Ei : i = Z.of_nat (Z.to_nat i)) by lia. rewrite Ei in Hp. split_and!; [by apply Hg|lia|lia|].
  intros j Hj Hh. apply Hg in Hh. by rewrite Hlt in Hh by lia.
Qed.
Lemma first_task_None k lo p : first_task k lo p = None -> forall t, (lo <= t < TASK_MAX)%nat -> ~ task_with p k t.
Proof.
  unfold first_task. intros Hn t Ht (x & Hx & Hp). destruct (first_idx _ _ _) as [i|] eqn:E; [done|].
  pose proof (proj1 (first_idx_None _ _ _) E (Z.of_nat t) ltac:(lia)) as Hf. cbv beta in Hf. by rewrite aget_of_nat, Hx, Hp in Hf.
Qed.

(** ** Orphans *)

(** What becomes of task [j] when the task with this [pid] dies, [c] being the current one. *)
Definition orphaned (c : nat) (pid : Z) (j : nat) (y : task) : task :=
  if is_unused y || negb (t_ppid y =? pid) then y
  else if is_zombie y && bool_decide (c <> j) then zero_task
  else y <| t_ppid := TASK_NO_PARENT |>.

Lemma ppid_keeps q x : keeps_owned (fun y => y <| t_ppid := q |>) x.
Proof. constructor; try done. intros []. by constructor. Qed.

Lemma orphan_child_spec hd c k pid i : kernel_sound hd c k -> (i < TASK_MAX)%nat ->
  wp (orphan_child pid i) k (fun _ k' => kernel_sound hd c k' /\ pool k' = alter (orphaned c pid i) i (pool k)).
Proof.
  intros Hok Hlt. pose proof Hok as [Hi Hc]. destruct (kernel_task _ _ _ i Hi Hlt) as [x Hx].
  assert (Halt : forall f, f x = orphaned c pid i x -> alter f i (pool k) = alter (orphaned c pid i) i (pool k)).
  { intros f E. apply list_eq. intros j. destruct (decide (i = j)) as [->|]; [|by rewrite !list_lookup_alter_ne].
    rewrite !list_lookup_alter_eq, Hx. simpl. by rewrite E. }
  unfold orphan_child. wp_step. eapply wp_ktask; [done|]. destruct (is_unused x || negb (t_ppid x =? pid)) eqn:E.
  { wp_step. split; [done|]. rewrite <- (Halt id); [by rewrite list_alter_id|]. unfold orphaned. by rewrite E. }
  wp_step. apply wp_upd_task; [by eapply pool_lt|]. set (f := fun y : task => y <| t_ppid := TASK_NO_PARENT |>).
  assert (Hok1 : kernel_sound hd c (put_task i f k)).
  { split; [eapply kernel_inv_change; [done|done| |apply ppid_keeps]; by apply wi_neutral; [apply Hi|..]|].
    eapply (alter_clean k _ i f Hc); [reflexivity|]. intros y Hy. destruct (Hc i y Hy). by constructor. }
  destruct (is_zombie x) eqn:Ez.
  - eapply wp_mono; [apply (release_zombie_slot_spec hd c _ i (f x) Hok1); by rewrite pool_put, list_lookup_alter_eq, Hx|].
    cbv beta. intros _ k' (Hok' & Ep & _). split; [done|]. rewrite Ep, pool_put. apply bool_decide_eq_true in Ez.
    destruct (decide (c <> i /\ t_state (f x) = TASK_ZOMBIE)) as [[Hci _]|Hn].
    + rewrite <- (Halt reset).
      * apply list_eq. intros j. destruct (decide (i = j)) as [->|]; [|by rewrite !list_lookup_alter_ne].
        by rewrite !list_lookup_alter_eq, Hx.
      * unfold orphaned, is_zombie. rewrite E, Ez. by rewrite !bool_decide_eq_true_2.
    + apply Halt. unfold orphaned, is_zombie. rewrite E, Ez. destruct (decide (c = i)) as [->|Hci]; [|by destruct Hn].
      by rewrite (bool_decide_eq_false_2 (i <> i)), andb_false_r by tauto.
  - wp_step. split; [done|]. rewrite pool_put. apply Halt. unfold orphaned. by rewrite E, Ez.
Qed.

Lemma lookup_orphaned (l l' : list task) g pre i :
  (forall j, l' !! j = if decide (j ∈ pre) then g j <$> l !! j else l !! j) -> i ∉ pre ->
  forall j, alter (g i) i l' !! j = if decide (j ∈ pre ++ [i]) then g j <$> l !! j else l !! j.
Proof.
  intros Hl Hni j. destruct (decide (i = j)) as [->|Hne].
  - rewrite list_lookup_alter_eq, Hl, decide_False, decide_True by set_solver. done.
  - rewrite list_lookup_alter_ne, Hl by done. destruct (decide (j ∈ pre)); [by rewrite decide_True by set_solver|].
    by rewrite decide_False by set_solver.
Qed.

Lemma orphan_children_spec hd c k t x : kernel_sound hd c k -> pool k !! t = Some x ->
  wp (task_orphan_children t) k (fun _ k' => kernel_sound hd c k' /\
    forall j, pool k' !! j = if decide (j <> O) then orphaned c (t_pid x) j <$> pool k !! j else pool k !! j).
Proof.
  intros Hok Hx. unfold task_orphan_children. wp_step. eapply wp_ktask; [done|].
  eapply wp_mono; [apply (wp_for_each _ (fun pre k' => kernel_sound hd c k' /\
    forall j, pool k' !! j = if decide (j ∈ pre) then orphaned c (t_pid x) j <$> pool k !! j else pool k !! j))|].
  - split; [done|]. intros j. by rewrite decide_False by set_solver.
  - intros pre i k1 [rest E] [Hok1 Hp1]. assert (Hi : i ∈ seq 1 (TASK_MAX - 1)) by (rewrite E; set_solver).
    assert (Hni : i ∉ pre).
    { pose proof (NoDup_seq 1 (TASK_MAX - 1)) as Hnd. rewrite E, <- app_assoc in Hnd. apply list.NoDup_app in Hnd as (_ & Hd & _).
      intros Hin. apply (Hd i Hin). set_solver. }
    apply elem_of_seq in Hi. eapply wp_mono; [apply (orphan_child_spec hd c k1); [done|unfold TASK_MAX in *; lia]|].
    cbv beta. intros _ k2 [Hok2 Hp2]. split; [done|]. rewrite Hp2. by apply lookup_orphaned.
  - cbv beta. intros _ k' [Hok' Hp]. split; [done|]. intros j. rewrite Hp.
    assert (Hj : j ∈ seq 1 (TASK_MAX - 1) <-> j <> O /\ (j < TASK_MAX)%nat) by (rewrite elem_of_seq; unfold TASK_MAX; lia).
    destruct (decide (j <> O)) as [Hj0|Hj0]; [|by rewrite decide_False by (rewrite Hj; tauto)].
    case_decide as Hin; [done|]. destruct (pool k !! j) as [y|] eqn:Ey; [|done]. exfalso. apply Hin, Hj. split; [done|].
    destruct Hok as [Hi _]. by eapply kernel_task_lt.
Qed.

(** ** The parent *)

Definition parent_of k x : option nat :=
  if t_ppid x =? TASK_NO_PARENT then None
  else first_task k 0 (fun y => negb (is_unused y) && (t_pid y =? t_ppid x)).
(** The parent if it is waiting for this child. *)
Definition waiting_parent k x : option nat :=
  p ← parent_of k x; z ← pool k !! p; if waits_for z (t_pid x) then Some p else None.
Definition stop_waiting (y : task) : task := y <| t_wait_active := 0 |>.

Lemma stop_waiting_keeps x : keeps_owned stop_waiting x.
Proof. constructor; try done. intros []. by constructor. Qed.

Lemma kernel_sound_neutral hd c k t x f : kernel_sound hd c k -> pool k !! t = Some x ->
  (forall y, t_next (f y) = t_next y) -> (forall y, t_state (f y) = t_state y) -> keeps_owned f x -> t_pid (f x) = t_pid x ->
  kernel_sound hd c (put_task t f k).
Proof.
  intros [Hi Hc] Hx Hn Hs Hk Hp. split; [by eapply kernel_inv_neutral|].
  eapply (alter_clean k _ t f Hc); [reflexivity|]. intros y Hy. rewrite (same_task _ _ _ _ Hx Hy). destruct (Hc t x Hx), Hk.
  constructor; by rewrite ?Hs, ?nt_stack, ?nt_ready, ?Hp.
Qed.

(** A step of the scheduler under which no task dies or is born. *)
Lemma kernel_sound_core hd c c' k s' : kernel_sound hd c k -> inv_at c' s' -> same_core (tasks k) s' ->
  (forall j, fate (task_state_at (tasks k) j) (task_state_at s' j)) -> kernel_sound hd c' (set_tasks k s') /\ calm k (set_tasks k s').
Proof.
  intros [Hi Hc] HS Hs Hf. destruct (kernel_inv_core _ _ hd k s' Hi HS Hs) as [Hi' Hcalm]. split; [|done].
  split; [done|]. by apply (clean_calm k).
Qed.

Lemma wake_parent_spec hd c k t x : kernel_sound hd c k -> pool k !! t = Some x ->
  wp (task_wake_waiting_parent t) k (fun _ k' => kernel_sound hd c k' /\
    match waiting_parent k x with
    | None => k' = k
    | Some p => calm (put_task p stop_waiting k) k' /\
        forall j, task_state_at (tasks k') j = if decide (p = j) then TASK_READY else task_state_at (tasks k) j
    end).
Proof.
  intros Hok Hx. pose proof Hok as [Hi Hc]. unfold task_wake_waiting_parent, waiting_parent, parent_of. wp_step. eapply wp_ktask; [done|].
  destruct (t_ppid x =? TASK_NO_PARENT); [by wp_step|]. do 2 wp_step. destruct (first_task k 0 _) as [p|] eqn:Ep; [|by wp_step].
  apply first_task_Some in Ep as ((z & Hz & _) & _ & Hlt & _). wp_step. eapply wp_ktask; [done|]. simpl. rewrite Hz. simpl.
  destruct (waits_for z (t_pid x)) eqn:Ew; [|by wp_step]. wp_step. apply wp_upd_task; [by eapply pool_lt|].
  fold stop_waiting. set (k1 := put_task p stop_waiting k).
  assert (Hok1 : kernel_sound hd c k1) by (apply (kernel_sound_neutral hd c k p z); try done; apply stop_waiting_keeps).
  apply wp_on_tasks. destruct (ki_sched _ _ _ (proj1 Hok1)) as [l Hl].
  eapply wp_mono; [by apply (task_unblock_spec _ l c)|]. cbv beta. intros _ s' [Hcore Hs].
  assert (Hz1 : task_state_at (tasks k1) p = TASK_BLOCKED).
  { rewrite (state_of k1 p (stop_waiting z)); [|unfold k1; by rewrite pool_put, list_lookup_alter_eq, Hz].
    unfold waits_for in Ew. apply andb_prop in Ew as [[Ew _]%andb_prop _]. by apply bool_decide_eq_true in Ew. }
  rewrite decide_True in Hs by done. destruct Hs as (Hinv' & Hr & Hj & _).
  assert (Hst : forall j, task_state_at s' j = if decide (p = j) then TASK_READY else task_state_at (tasks k1) j).
  { intros j. case_decide; [by subst|auto]. }
  destruct (kernel_sound_core hd c c k1 s' Hok1) as [Hok' Hcalm]; [by eexists|done| |].
  { intros j. rewrite Hst. case_decide; [subst j; rewrite Hz1; by apply fate_alive|apply fate_refl]. }
  split_and!; [done|done|]. intros j. change (tasks (set_tasks k1 s')) with s'. rewrite Hst. case_decide; [done|].
  unfold k1. by apply (state_at_neutral (tasks k)).
Qed.

(** ** Termination *)

(** The task with the cause of its death, and without descriptors. *)
Definition corpse (code signal : Z) (y : task) : task :=
  y <| t_exit_code := code |> <| t_exit_signal := signal |> <| t_fd_table_ready := 0 |>.

(** The task died; others may have been woken as its pipes closed. *)
Record died t (code signal : Z) k k' : Prop := {
  dd_tasks : calm (put_task t (corpse code signal) k) k';
  dd_zombie : task_state_at (tasks k') t = TASK_ZOMBIE;
  dd_others : forall j, j <> t -> wakes (task_state_at (tasks k) j) (task_state_at (tasks k') j) }.

(** Its parent is woken if it waits, and its children go on without it. *)
Definition buried c x k k' : Prop := exists k1,
  match waiting_parent k x with
  | None => k1 = k
  | Some p => calm (put_task p stop_waiting k) k1 /\
      forall j, task_state_at (tasks k1) j = if decide (p = j) then TASK_READY else task_state_at (tasks k) j
  end /\
  forall j, pool k' !! j = if decide (j <> O) then orphaned c (t_pid x) j <$> pool k1 !! j else pool k1 !! j.

(** [t->state=TASK_ZOMBIE; t->state_changed_ticks=...; t->exit_code=code; t->exit_signal=signal] *)
Definition die (up code signal : Z) (y : task) : task :=
  y <| t_state := TASK_ZOMBIE |> <| t_state_changed_ticks := up |> <| t_exit_code := code |> <| t_exit_signal := signal |>.
Lemma die_keeps up code signal x : keeps_owned (die up code signal) x.
Proof. constructor; try done. intros []. by constructor. Qed.
Lemma erase_corpse up code signal y : erase_fds (unready (die up code signal y)) = erase_fds (corpse code signal y).
Proof. done. Qed.

Lemma calm_died k k' t up code signal : calm (put_task t unready (put_task t (die up code signal) k)) k' ->
  calm (put_task t (corpse code signal) k) k'.
Proof.
  unfold calm. intros ->. rewrite !pool_put. apply list_eq. intros j. rewrite !list_lookup_fmap.
  destruct (decide (t = j)) as [->|Hne]; [|by rewrite !list_lookup_alter_ne].
  rewrite !list_lookup_alter_eq. by destruct (pool k !! j).
Qed.

Lemma clean_died k k' t code signal : died t code signal k k' -> clean k -> t <> O -> clean k'.
Proof.
  intros [Hc Hz Ho] Hcl Ht j y Hy. symmetry in Hc. destruct (calm_lookup _ _ _ _ Hc Hy) as (z & Hz' & E). rewrite pool_put in Hz'.
  destruct (decide (t = j)) as [->|Hne].
  - rewrite list_lookup_alter_eq in Hz'. destruct (pool k !! j) as [x|]; [|done]. apply (inj Some) in Hz' as <-.
    rewrite (state_of _ _ _ Hy) in Hz. constructor; [by rewrite Hz| |done]. intros _.
    change (t_fd_table_ready y) with (t_fd_table_ready (erase_fds y)). by rewrite <- E.
  - assert (Hst : pool k !! j = Some z) by (by rewrite list_lookup_alter_ne in Hz').
    specialize (Ho j (not_eq_sym Hne)). rewrite (state_of _ _ _ Hy), (state_of _ _ _ Hst) in Ho.
    apply (slot_clean_same j z); [done|by apply wakes_fate|auto].
Qed.

(** The first half of [task_mark_zombie]: the task dies and leaves the run queue. *)
Lemma die_spec hd c k t x up code signal (m : M (kernel H N) unit) Q : kernel_sound hd c k -> pool k !! t = Some x -> t <> O ->
  (forall k', kernel_sound hd c k' -> died t code signal k k' -> wp m k' Q) ->
  wp (do* upd_task t (die up code signal) in do* native_fd_task_cleanup (Some t) in do* on_tasks (queue_remove t) in m) k Q.
Proof.
  intros [Hi Hc] Hx Ht0 HQ. pose proof (kernel_task_lt _ _ _ _ _ Hi Hx) as Hlt. wp_step. apply wp_upd_task; [by eapply pool_lt|].
  set (k1 := put_task t (die up code signal) k). destruct (ki_sched _ _ _ Hi) as [l Hl].
  assert (Hdy : dying t (task_state_at (tasks k1)) c (tasks k1)) by (by apply (dying_starts _ l)).
  assert (Hi1 : kernel_inv (dying t (task_state_at (tasks k1)) c) hd k1)
    by (by apply (kernel_inv_change (SI0 := inv_at c) hd k t x); [..|apply die_keeps]).
  wp_step. assert (Hx1 : pool k1 !! t = Some (die up code signal x)) by (unfold k1; by rewrite pool_put, list_lookup_alter_eq, Hx).
  eapply wp_mono; [exact (fd_cleanup_spec hd k1 t _ Hi1 Hx1)|]. cbv beta. intros _ k2 (Hi2 & Hc2 & _). wp_step. apply wp_on_tasks.
  eapply wp_mono; [exact (dying_ends t _ c _ (ki_sched _ _ _ Hi2) Hlt)|]. cbv beta. intros _ s3 (Hst & Hcore & Hz).
  destruct (kernel_inv_core _ (inv_at c) hd k2 s3 Hi2) as [Hi3 Hc3]; [apply Hst|done|].
  assert (Hd : died t code signal k (set_tasks k2 s3)).
  { constructor; [apply (calm_died k _ t up); by etransitivity|done|]. intros j Hj. destruct Hst as [_ Hst]. specialize (Hst j).
    unfold k1 in Hst. by rewrite state_put_ne in Hst. }
  apply HQ; [|done]. split; [done|]. by eapply clean_died.
Qed.

Lemma died_task t code signal k k' x : died t code signal k k' -> pool k !! t = Some x ->
  exists y, pool k' !! t = Some y /\ erase_fds y = erase_fds (corpse code signal x) /\ t_state y = TASK_ZOMBIE.
Proof.
  intros [Hc Hz _] Hx. destruct (calm_lookup _ _ t (corpse code signal x) Hc) as (y & Hy & E).
  { by rewrite pool_put, list_lookup_alter_eq, Hx. }
  exists y. split_and!; [done|done|]. by rewrite <- (state_of _ _ _ Hy).
Qed.

Definition mortal x : Prop := t_pid x <> 0 /\ alive (t_state x).

Lemma mark_zombie_spec hd c k t x code signal : kernel_sound hd c k -> pool k !! t = Some x -> mortal x ->
  wp (task_mark_zombie t code signal) k (fun _ k' => kernel_sound hd c k' /\
    exists k1 y, died t code signal k k1 /\ pool k1 !! t = Some y /\ buried c y k1 k').
Proof.
  intros Hok Hx [Hp Ha]. pose proof Hok as [Hi Hc]. assert (Ht0 : t <> O) by (intros E; by apply Hp, (sc_idle _ _ (Hc t x Hx))).
  unfold task_mark_zombie. wp_step. eapply wp_ktask; [done|].
  replace ((t_pid x =? 0) || is_unused x || is_zombie x) with false.
  2: { symmetry. destruct Ha as [Hu Hz]. unfold is_unused, is_zombie. rewrite !bool_decide_eq_false_2 by done. by rewrite (proj2 (Z.eqb_neq _ 0)) by done. }
  wp_step. unfold clear_child_tid. wp_step. eapply wp_ktask; [done|]. rewrite (ki_kernel _ _ _ Hi _ _ Hx). change (0 =? 0) with true. rewrite orb_true_r.
  do 2 wp_step. apply wp_on_tasks. unfold sleep_cancel_task. wp_step.
  set (s1 := (tasks k) <| sleep_meta := <[t := mk_sleep 0 0]> (sleep_meta (tasks k)) |>).
  destruct (kernel_sound_core hd c c k s1 Hok) as [Hok1 _]; [apply inv_at_sleep, (ki_sched _ _ _ Hi)|done|intros j; apply fate_refl|].
  set (k0 := set_tasks k s1). fold k0 in Hok1. do 2 wp_step. apply (die_spec hd c k0 t x (uptime_ticks (tasks k0)) code signal); [done|done|done|].
  intros k1 Hok2 [Hd1 Hd2 Hd3]. assert (Hd : died t code signal k k1) by (by constructor).
  destruct (died_task _ _ _ _ _ _ Hd Hx) as (y & Hy & _). wp_step. eapply wp_mono; [by eapply wake_parent_spec|].
  cbv beta. intros _ k2 [Hok3 Hw]. assert (Hy2 : exists y2, pool k2 !! t = Some y2 /\ t_pid y2 = t_pid y).
  { destruct (waiting_parent k1 y) as [p|]; [|subst k2; by exists y]. destruct Hw as [Hcalm _].
    destruct (calm_lookup _ _ t (if decide (p = t) then stop_waiting y else y) Hcalm) as (y2 & Hy2 & E).
    - rewrite pool_put. case_decide as Ept; [subst p; by rewrite list_lookup_alter_eq, Hy|by rewrite list_lookup_alter_ne].
    - exists y2. split; [done|]. change (t_pid y2) with (t_pid (erase_fds y2)). rewrite E. by case_decide. }
  destruct Hy2 as (y2 & Hy2 & Ey). eapply wp_mono; [by eapply orphan_children_spec|]. cbv beta. intros _ k3 [Hok4 Ho].
  split; [done|]. exists k1, y. split_and!; [done|done|]. exists k2. split; [done|]. by rewrite Ey in Ho.
Qed.
End Ops.
