(* ===== verification/ProcLife.v ===== *)
(** * Creating tasks, ending them and waiting for them

    The operations of [Process] in full, on the invariant of [ProcOps]: what each of them
    does, that it returns, and that it keeps the invariant. *)

From S2P Require Import Prelude Cstring Sched SchedInv SchedProps Pipe PipeInv PipeRefs Alloc Vfs VfsSynth VfsPath VfsApi VfsInv VfsRefs VfsDir VfsOps VfsTree VfsFile VfsFd Paging Kernel Posix Socket NativeFd Process ProcInv ProcFd ProcOps.

(** A task that was not runnable becomes READY and goes to the end of the queue. *)
Lemma inv_at_enqueue c s t f : inv_at c s -> (t < TASK_MAX)%nat -> ~ runnable (task_state_at s t) ->
  (forall x, t_next (f x) = t_next x) -> (forall x, t_state (f x) = TASK_READY) ->
  let s1 := s <| task_pool := alter f t (task_pool s) |> in
  exists s', queue_add t s1 = Done (0, s') /\ inv_at c s' /\ same_tasks s1 s'.
Proof.
  intros [l Hl] Ht Hd Hn Hf s1. pose proof Hl as [Hpool Hsleep Hring Hcur Hclt Hq Hrun Hrunning].
  assert (Hnin : t ∉ l) by (intros Hin; by apply Hd, Hq).
  assert (Hst1 : forall j, task_state_at s1 j = if decide (t = j) then TASK_READY else task_state_at s j).
  { intros j. unfold s1. rewrite state_at_alter by lia. case_decide; [apply Hf|done]. }
  destruct (queue_add_spec s1 l t) as (s2 & E & Hr2 & Hsame); [by apply ring_alter|done| | |].
  { simpl. rewrite length_alter. lia. }
  { by eapply ring_length. }
  exists s2. split_and!; [done| |done]. exists (l ++ [t]). pose proof Hsame as (_ & p & h & Hs2).
  assert (Hst2 : forall j, task_state_at s2 j = if decide (t = j) then TASK_READY else task_state_at s j)
    by (intros j; by rewrite (same_tasks_state _ _ _ Hsame), Hst1).
  constructor; try done; try (by rewrite Hs2).
  - rewrite (same_tasks_length _ _ Hsame). simpl. by rewrite length_alter.
  - intros i [Hi|Hi%list_elem_of_singleton]%elem_of_app; rewrite Hst2; [case_decide; [by left|auto]|subst; rewrite decide_True by done; by left].
  - intros i Hi. rewrite Hst2. intros Hri. apply elem_of_app. case_decide; [right; set_solver|left; auto].
  - intros i. rewrite Hst2. case_decide; [done|auto].
Qed.

Section Life.
Context {H N : Type} `{!Allocator H} `{AL : !AllocatorLaws H} `{!Tcp N} `{!TcpTotal N}.
Implicit Types (k : kernel H N) (x y : task) (t : nat) (hd : Z -> Z).

(** ** Creation *)

Lemma alloc_task_slot_spec hd c k : kernel_sound hd c k -> alive (task_state_at (tasks k) c) ->
  wp alloc_task_slot k (fun r k' => kernel_sound hd c k' /\ next_pid (tasks k') = next_pid (tasks k) /\
    match r with
    | Some t => (t < TASK_MAX)%nat /\ exists x, pool k !! t = Some x /\ (is_unused x = true \/ orphan_zombie x = true) /\
        exists y, pool k' !! t = Some y /\ t_state y = TASK_UNUSED /\ forall j, j <> t -> pool k' !! j = pool k !! j
    | None => k' = k /\ forall t x, pool k !! t = Some x -> is_unused x = false /\ (t <> O -> orphan_zombie x = false)
    end).
Proof.
  intros Hok Ha. pose proof Hok as [Hi _]. unfold alloc_task_slot. do 2 wp_step. destruct (first_task k 0 is_unused) as [t|] eqn:E1.
  { apply first_task_Some in E1 as ((x & Hx & Hu) & _ & Hlt & _). wp_step. split_and!; [done|done|done|]. exists x. split_and!; [done|by left|].
    exists x. split_and!; [done|by apply bool_decide_eq_true in Hu|done]. }
  do 2 wp_step. destruct (first_task k 1 orphan_zombie) as [t|] eqn:E2.
  - apply first_task_Some in E2 as ((x & Hx & Hu) & Ht1 & Hlt & _). wp_step. eapply wp_mono; [by eapply release_zombie_slot_spec|].
    cbv beta. intros _ k' (Hok' & Ep & En). wp_step. pose proof Hu as Hz. apply andb_prop in Hz as [Hz%bool_decide_eq_true _].
    assert (Hct : c <> t) by (intros ->; rewrite (state_of _ _ _ Hx), Hz in Ha; by destruct Ha).
    rewrite decide_True in Ep by done. split_and!; [done|done|done|]. exists x. split_and!; [done|by right|]. exists zero_task. rewrite Ep.
    split_and!; [by rewrite list_lookup_alter_eq, Hx|done|]. intros j Hj. by rewrite list_lookup_alter_ne.
  - wp_step. split_and!; [done|done|done|]. intros t x Hx. pose proof (kernel_task_lt _ _ _ _ _ Hi Hx) as Hlt. split.
    + destruct (is_unused x) eqn:E; [|done]. exfalso. apply (first_task_None _ _ _ E1 t); [lia|]. by exists x.
    + intros Ht. destruct (orphan_zombie x) eqn:E; [|done]. exfalso. apply (first_task_None _ _ _ E2 t); [lia|]. by exists x.
Qed.

Lemma wp_cr3 k Q : (forall a, Q a k) -> wp (on_pages paging_kernel_cr3) k Q.
Proof.
  intros HQ. unfold on_pages, paging_kernel_cr3. apply wp_zoom. wp_step.
  set (k1 := upd k_vfs _ _). replace k1 with k; [apply HQ|]. unfold k1. by destruct k as [? [] [] ? ? ? ? ? ?].
Qed.

(** The new task: what it takes over from its creator [cx], and what is its own. *)
Record newborn (name : cstr) (fn priority pid : Z) (cx y : task) : Prop := {
  nb_pid : t_pid y = pid;
  nb_ppid : t_ppid y = t_pid cx;
  nb_group : (t_pgid y, t_sid y) = if t_pid cx =? 0 then (pid, pid) else (t_pgid cx, t_sid cx);
  nb_owner : (t_uid y, t_gid y, t_cwd y, t_umask_value y) = (t_uid cx, t_gid cx, t_cwd cx, t_umask_value cx);
  nb_name : t_name y = name;
  nb_state : t_state y = TASK_READY;
  nb_priority : t_priority y = clamp_priority priority;
  nb_stack : t_stack_base y <> 0;
  nb_fds : t_fd_table_ready y = 0;
  nb_context : c_rip (t_ctx y) = fn /\ c_rsp (t_ctx y) = u64 (t_stack_base y + TASK_STACK_SIZE - 8) }.

(** What [creds] makes of a slot when there is a current task. *)
Definition inherit (cx : task) (pid : Z) (x : task) : task :=
  x <| t_ppid := t_pid cx |> <| t_pgid := if t_pid cx =? 0 then pid else t_pgid cx |>
    <| t_sid := if t_pid cx =? 0 then pid else t_sid cx |> <| t_uid := t_uid cx |> <| t_gid := t_gid cx |>
    <| t_cwd := t_cwd cx |> <| t_umask_value := t_umask_value cx |>.
Lemma creds_current k c cx pid : current k = Some c -> pool k !! c = Some cx -> creds k pid = inherit cx pid.
Proof. intros Hc Hx. unfold creds. rewrite Hc. simpl. by rewrite Hx. Qed.

Definition born name fn priority pid stack up cr3 (cx : task) (x : task) : task :=
  fresh_task name fn priority pid stack up cr3 (inherit cx pid x).

Lemma newborn_unlink name fn priority pid cx y z : unlink y = unlink z -> newborn name fn priority pid cx z -> newborn name fn priority pid cx y.
Proof.
  intros E []. assert (F : forall A (g : task -> A), (forall w, g (unlink w) = g w) -> g y = g z).
  { intros A g Hg. by rewrite <- Hg, E, Hg. }
  constructor; rewrite ?(F _ t_pid), ?(F _ t_ppid), ?(F _ t_pgid), ?(F _ t_sid), ?(F _ t_uid), ?(F _ t_gid), ?(F _ t_cwd), ?(F _ t_umask_value),
    ?(F _ t_name), ?(F _ t_state), ?(F _ t_priority), ?(F _ t_stack_base), ?(F _ t_fd_table_ready), ?(F _ t_ctx); done.
Qed.
Lemma born_newborn name fn priority pid stack up cr3 cx x : stack <> 0 -> t_fd_table_ready x = 0 ->
  newborn name fn priority pid cx (born name fn priority pid stack up cr3 cx x).
Proof.
  intros Hs Hr. destruct x. simpl in Hr. subst. constructor; try reflexivity; try done.
  - unfold born. simpl. by destruct (_ =? 0).
Qed.

(** The pool is as before but for one slot and the fields of the scheduler. *)
Definition others_same t k k' : Prop :=
  forall j x, j <> t -> pool k !! j = Some x -> exists y, pool k' !! j = Some y /\ unlink y = unlink x.

Lemma unlink_state x y : unlink y = unlink x -> t_state y = t_state x.
Proof. intros E. change (t_state y) with (t_state (unlink y)). by rewrite E. Qed.
Lemma unlink_erase x y : unlink y = unlink x -> erase_fds y = erase_fds x.
Proof. intros E. change (erase_fds y) with (erase_fds (unlink y)). by rewrite E. Qed.

Lemma task_current hd c k : kernel_sound hd c k -> exists cx, pool k !! c = Some cx.
Proof. intros [Hi _]. apply (kernel_task c hd k c Hi). apply (kernel_current _ _ _ Hi). Qed.

(** The slot gets a new task with its stack, ready to run. *)
Lemma start_task hd c k t x f (v' : vfs H) : kernel_sound hd c k -> pool k !! t = Some x -> t_state x = TASK_UNUSED -> (t < TASK_MAX)%nat ->
  (forall y, t_next (f y) = t_next y) -> (forall y, t_state (f y) = TASK_READY) ->
  t_fd_table_ready (f x) = t_fd_table_ready x -> t_address_space (f x) = t_address_space x -> t_stack_base (f x) <> 0 ->
  t_stack_base (f x) ∉ (list_to_set (stacks (pool k)) : gset Z) -> v_handles v' = v_handles (k_vfs k) ->
  vfs_inv ({[t_stack_base (f x)]} ∪ list_to_set (stacks (pool k))) hd v' ->
  wp (on_tasks (queue_add t)) ((put_task t f k) <| k_vfs := v' |>) (fun r k' => r = 0 /\ kernel_sound hd c k' /\ k_vfs k' = v' /\
    (exists y, pool k' !! t = Some y /\ unlink y = unlink (f x)) /\ others_same t k k' /\ next_pid (tasks k') = next_pid (tasks k)).
Proof.
  intros [Hi Hc] Hx Hu Hlt Hn Hs Hr Ha Hst0 Hfresh Eh Hv. set (k1 := (put_task t f k) <| k_vfs := v' |>).
  destruct (sc_unused _ _ (Hc t x Hx) Hu) as [Ex Er]. pose proof (stacks_add (pool k) t x f Hx Ex Hst0) as Hperm.
  assert (Hi1 : kernel_inv (fun _ => True) hd k1).
  { apply (kernel_inv_rebuild (inv_at c) _ hd k t x f v'); try done.
    - by rewrite Hr.
    - rewrite Ha. exact (ki_kernel _ _ _ Hi _ _ Hx).
    - rewrite Hperm. apply list.NoDup_cons. split; [|apply Hi]. by rewrite elem_of_list_to_set in Hfresh.
    - replace (list_to_set (stacks (alter f t (pool k)))) with ({[t_stack_base (f x)]} ∪ list_to_set (stacks (pool k)) : gset Z); [done|].
      apply set_eq. intros z. rewrite elem_of_union, !elem_of_list_to_set, Hperm, elem_of_singleton. set_solver. }
  destruct (inv_at_enqueue c (tasks k) t f) as (s' & E & Hs' & Hsame); [by apply (ki_sched _ _ _ Hi)|done| |done|done|].
  { rewrite (state_of _ _ _ Hx), Hu. by intros [?|?]. }
  change ((tasks k) <| task_pool := alter f t (task_pool (tasks k)) |>) with (tasks k1) in *.
  apply wp_on_tasks. unfold wp. rewrite E. destruct (kernel_inv_core _ (inv_at c) hd k1 s' Hi1 Hs') as [Hi2 Hcalm]; [by apply same_tasks_core|].
  assert (Hlook : forall j y, alter f t (pool k) !! j = Some y -> exists z, pool (set_tasks k1 s') !! j = Some z /\ unlink z = unlink y).
  { intros j y Hy. destruct (same_tasks_lookup _ s' j y Hsame Hy) as [n Hz]. by eexists. }
  split_and!; [done| |done| | |].
  - split; [done|]. apply (clean_calm k1 _ Hcalm).
    + intros j. change (tasks (set_tasks k1 s')) with s'. rewrite (same_tasks_state _ _ _ Hsame). apply fate_refl.
    + eapply (alter_clean k k1 t f Hc); [reflexivity|]. intros y Hy. rewrite (same_task _ _ _ _ Hx Hy).
      pose proof (dead_not_idle t x (Hc t x Hx)) as Ht0. rewrite Hu in Ht0. constructor; rewrite ?Hs; try done.
      intros E0. exfalso. apply Ht0; [by intros [? ?]|done].
  - destruct (Hlook t (f x)) as (z & Hz & Ez); [by rewrite list_lookup_alter_eq, Hx|]. by exists z.
  - intros j y Hj Hy. apply Hlook. by rewrite list_lookup_alter_ne.
  - destruct Hsame as (_ & p & h & ->). done.
Qed.

(** [sleep_cancel_task], and the pid counter, are seen by the scheduler only. *)
Lemma kernel_sound_frame hd c k s' : kernel_sound hd c k -> inv_at c s' -> task_pool s' = task_pool (tasks k) -> kernel_sound hd c (set_tasks k s').
Proof.
  intros [Hi Hc] HS Ep. assert (Ek : pool (set_tasks k s') = pool k) by exact Ep. split; [|intros t x; rewrite Ek; apply Hc].
  destruct Hi as [[_ Hp Hl] Hv Hst Hd Hh Htb Hk]. constructor; rewrite ?Ek; try done. constructor; [done|done|].
  assert (Er : forall e, end_refs s' e = end_refs (tasks k) e) by (intros e; unfold end_refs; by rewrite Ep).
  destruct Hl as [L1 L2 L3 L4 L5]. constructor; try done.
  - change (length (task_pool s') = TASK_MAX). by rewrite Ep.
  - change (forall t x, task_pool s' !! t = Some x -> t_fd_table_ready x <> 0 -> map_ok (t_pipe_map x)). by rewrite Ep.
  - intros idx p Hi'. rewrite (L4 _ _ Hi'). symmetry. apply Er.
  - intros idx p Hi'. rewrite (L5 _ _ Hi'). symmetry. apply Er.
Qed.

Lemma task_create_spec hd c k name fn priority :
  kernel_sound hd c k -> alive (task_state_at (tasks k) c) -> fits_in name TASK_NAME_MAX = true ->
  wp (task_create name fn priority) k (fun r k' => kernel_sound hd c k' /\
    match r with
    | None => next_pid (tasks k') = next_pid (tasks k)
    | Some t => (exists x, pool k !! t = Some x /\ (is_unused x = true \/ orphan_zombie x = true)) /\
        (exists cx y, pool k !! c = Some cx /\ pool k' !! t = Some y /\ newborn name fn priority (next_pid (tasks k)) cx y) /\
        others_same t k k' /\ next_pid (tasks k') = u32 (next_pid (tasks k) + 1)
    end).
Proof.
  intros Hok Ha Hfit. destruct (task_current _ _ _ Hok) as [cx Hcx]. unfold task_create. wp_step.
  eapply wp_mono; [by eapply alloc_task_slot_spec|]. cbv beta. intros [t|] k1 (Hok1 & En1 & Hr); [|by wp_step].
  destruct Hr as (Hlt & x & Hx & Hkind & x1 & Hx1 & Hu & Hothers). wp_step. unfold on_kheap, on_vfs. apply wp_zoom.
  eapply wp_mono; [apply (vfs_inv_malloc _ hd _ TASK_STACK_SIZE (ki_vfs _ _ _ (proj1 Hok1))); done|].
  cbv beta. intros p v' [[h' Ev] Hp]. destruct (Z.eqb_spec p 0) as [Ep|Ep].
  { destruct Hp as [[_ Hv]|[? _]]; [|done]. wp_step. split; [|done]. destruct Hok1 as [[] Hc1]. split; [|done].
    constructor; try done. simpl. by rewrite Ev. }
  destruct Hp as [[? _]|(_ & Hfresh & Hv)]; [done|]. wp_step. apply wp_guard; [done|]. do 3 wp_step. apply wp_on_tasks. wp_step.
  set (k2 := k1 <| k_vfs := v' |>). do 4 wp_step.
  assert (Hct : c <> t).
  { intros <-. rewrite (state_of _ _ _ Hx) in Ha. destruct Ha as [Hnu Hnz], Hkind as [E|[E _]%andb_prop]; by apply bool_decide_eq_true in E. }
  destruct (kernel_current _ _ _ (proj1 Hok1)) as [Hcur _]. rewrite (creds_current _ c cx); [|exact Hcur|].
  2: { change (pool k1 !! c = Some cx). by rewrite Hothers. }
  wp_step. apply wp_cr3. intros cr3. wp_step. apply wp_upd_task; [by apply (pool_lt k1 t x1)|].
  set (up := uptime_ticks _). set (pid := next_pid (tasks k2)).
  change (fun x0 => fresh_task name fn priority pid p up cr3 (inherit cx pid x0)) with (born name fn priority pid p up cr3 cx).
  set (f := born name fn priority pid p up cr3 cx). wp_step. apply wp_on_tasks. unfold sleep_cancel_task. wp_step.
  set (s1 := (tasks k1) <| next_pid := u32 (pid + 1) |> <| sleep_meta := <[t := mk_sleep 0 0]> (sleep_meta (tasks k1)) |>).
  set (kb := set_tasks k1 s1).
  assert (Hkb : kernel_sound hd c kb).
  { destruct (kernel_sound_frame hd c k1 s1 Hok1) as [Hi2 Hc2]; [|done|].
    - destruct (ki_sched _ _ _ (proj1 Hok1)) as [l Hl]. exists l. apply (sched_inv_frame (tasks k1)); try done. simpl. by rewrite length_insert.
    - split; [|exact Hc2]. by apply (kernel_inv_ext hd (set_tasks k1 s1) kb). }
  wp_step. eapply wp_mono; [apply (start_task hd c kb t x1 f v' Hkb Hx1 Hu Hlt); try done|].
  - by rewrite Ev.
  - cbv beta. intros r k' (-> & Hok' & _ & (y & Hy & Ey) & Hoth & Hnp). change (0 <? 0) with false. cbn match. wp_step.
    split_and!; [done|by exists x| | |].
    + exists cx, y. split_and!; [done|done|]. rewrite <- En1. apply (newborn_unlink _ _ _ _ _ _ _ Ey).
      apply born_newborn; [done|]. by apply (sc_unused _ _ (proj2 Hok1 t x1 Hx1) Hu).
    + intros j z Hj Hz. apply (Hoth j z Hj). change (pool k1 !! j = Some z). by rewrite Hothers.
    + rewrite Hnp, <- En1. done.
Qed.

(** ** Steps of the scheduler *)

Lemma idle_alive hd c k : kernel_sound hd c k -> alive (task_state_at (tasks k) O).
Proof.
  intros [Hi Hc]. destruct (kernel_task _ _ _ O Hi) as [x Hx]; [unfold TASK_MAX; lia|].
  rewrite (state_of _ _ _ Hx). by apply (sc_idle _ _ (Hc O x Hx)).
Qed.

(** The kernel after a step of the scheduler: nobody dies or is born, and some task is current. *)
Definition moves hd k k' : Prop := (exists n, kernel_sound hd n k') /\ calm k k' /\ forall j, fate (task_state_at (tasks k) j) (task_state_at (tasks k') j).

Lemma sched_step hd c k (m : M sched unit) : kernel_sound hd c k ->
  wp m (tasks k) (fun _ s' => sched_ok s' /\ same_core (tasks k) s' /\ forall j, fate (task_state_at (tasks k) j) (task_state_at s' j)) ->
  wp (on_tasks m) k (fun _ k' => moves hd k k').
Proof.
  intros Hok Hm. apply wp_on_tasks. eapply wp_mono; [exact Hm|]. cbv beta. intros _ s' ((l & n & Hl) & Hcore & Hf).
  destruct (kernel_sound_core hd c n k s' Hok) as [Hok' Hc]; [by exists l|done|done|]. split_and!; [by exists n|done|done].
Qed.

Lemma tick_moves hd c k : kernel_sound hd c k -> wp (on_tasks sched_tick) k (fun _ k' => moves hd k k').
Proof.
  intros Hok. apply (sched_step hd c); [done|]. destruct (ki_sched _ _ _ (proj1 Hok)) as [l Hl].
  eapply sched_tick_fate; [done|by eapply idle_alive].
Qed.
Lemma block_moves hd c k : kernel_sound hd c k -> alive (task_state_at (tasks k) c) -> wp (on_tasks task_block) k (fun _ k' => moves hd k k').
Proof.
  intros Hok Ha. apply (sched_step hd c); [done|]. destruct (ki_sched _ _ _ (proj1 Hok)) as [l Hl].
  eapply task_block_fate; [done|done|by eapply idle_alive].
Qed.
(** The hand-over of a task that does not run any more. *)
Lemma leave_moves hd c k : kernel_sound hd c k -> task_state_at (tasks k) c <> TASK_RUNNING ->
  wp (on_tasks (let* next := pick_successor in switch_to c next)) k (fun _ k' => moves hd k k' /\
    exists n, current k' = Some n /\ task_state_at (tasks k') n = TASK_RUNNING /\
      forall j, j <> n -> task_state_at (tasks k') j = task_state_at (tasks k) j).
Proof.
  intros Hok Hr. destruct (ki_sched _ _ _ (proj1 Hok)) as [l Hl]. apply wp_on_tasks. wp_step.
  unfold wp at 1. rewrite (pick_successor_run _ _ _ Hl). set (n := default O _).
  assert (Hn : (n = O \/ n ∈ l) /\ alive (task_state_at (tasks k) n)).
  { unfold n. destruct (List.find (is_ready (tasks k)) l) as [j|] eqn:E; simpl; [|split; [by left|by eapply idle_alive]].
    apply find_ready_elem in E as [Hin Es]. split; [by right|by rewrite Es]. }
  destruct Hn as [Hn Hna]. eapply wp_mono; [by apply (switch_to_spec _ l c)|]. cbv beta.
  intros _ s' (Hinv' & Hrun & Hcore & Hj & _). assert (Hf : forall j, fate (task_state_at (tasks k) j) (task_state_at s' j)).
  { intros j. destruct (decide (j = n)) as [->|Hne]; [rewrite Hrun; by apply fate_alive|rewrite Hj by done; apply fate_refl]. }
  destruct (kernel_sound_core hd c n k s' Hok) as [Hok' Hc]; [by exists l|done|done|].
  split; [split_and!; [by exists n|done|done]|]. exists n. split_and!; [apply (kernel_current _ _ _ (proj1 Hok'))|done|exact Hj].
Qed.

(** ** Termination *)

Lemma died_pid t code signal k k' x y : died t code signal k k' -> pool k !! t = Some x -> pool k' !! t = Some y ->
  t_pid y = t_pid x /\ t_ppid y = t_ppid x.
Proof.
  intros Hd Hx Hy. destruct (died_task _ _ _ _ _ _ Hd Hx) as (z & Hz & E & _). rewrite (same_task _ _ _ _ Hz Hy).
  split; [change (t_pid z) with (t_pid (erase_fds z))|change (t_ppid z) with (t_ppid (erase_fds z))]; by rewrite E.
Qed.

(** What is left of the task: a zombie that keeps its numbers and the cause of its death. *)
Record remains x (code signal : Z) z : Prop := {
  rm_state : t_state z = TASK_ZOMBIE;
  rm_pid : t_pid z = t_pid x;
  rm_code : t_exit_code z = code;
  rm_signal : t_exit_signal z = signal;
  rm_ppid : t_ppid x <> t_pid x -> t_ppid z = t_ppid x }.

Lemma waiting_parent_blocked k x p : waiting_parent k x = Some p -> task_state_at (tasks k) p = TASK_BLOCKED.
Proof.
  unfold waiting_parent. intros (q & _ & (z & Hz & Hw)%bind_Some)%bind_Some. destruct (waits_for z (t_pid x)) eqn:E; [|done].
  injection Hw as ->. rewrite (state_of _ _ _ Hz). unfold waits_for in E. apply andb_prop in E as [[E _]%andb_prop _]. by apply bool_decide_eq_true in E.
Qed.

Lemma buried_corpse c t code signal k k1 k' x y : t <> O -> died t code signal k k1 -> pool k !! t = Some x -> pool k1 !! t = Some y ->
  buried c y k1 k' -> t_ppid x <> t_pid x \/ c = t -> exists z, pool k' !! t = Some z /\ remains x code signal z.
Proof.
  intros Ht Hd Hx Hy (k2 & Hw & Ho) Hself. destruct (died_pid _ _ _ _ _ _ _ Hd Hx Hy) as [Epid Eppid].
  destruct (died_task _ _ _ _ _ _ Hd Hx) as (y' & Hy' & E & Ez). rewrite (same_task _ _ _ _ Hy Hy') in E, Ez. clear y' Hy'.
  assert (H2 : exists y2, pool k2 !! t = Some y2 /\ t_state y2 = TASK_ZOMBIE /\ erase_fds y2 = erase_fds (corpse code signal x)).
  { destruct (waiting_parent k1 y) as [p|] eqn:Ep; [|subst k2; by exists y]. destruct Hw as [Hc Hst].
    pose proof (waiting_parent_blocked _ _ _ Ep) as Hb. assert (Hpt : p <> t) by (intros ->; rewrite (state_of _ _ _ Hy), Ez in Hb; done).
    destruct (calm_lookup _ _ t y Hc) as (y2 & Hy2 & E2); [by rewrite pool_put, list_lookup_alter_ne|].
    exists y2. split_and!; [done| |by rewrite E2]. by rewrite <- (state_of _ _ _ Hy2), Hst, decide_False, (state_of _ _ _ Hy). }
  destruct H2 as (y2 & Hy2 & Ez2 & E2). assert (F : forall A (g : task -> A), (forall w, g (erase_fds w) = g w) -> g y2 = g (corpse code signal x)).
  { intros A g Hg. by rewrite <- Hg, E2, Hg. }
  specialize (Ho t). rewrite decide_True, Hy2 in Ho by done. simpl in Ho. eexists. split; [exact Ho|]. unfold orphaned.
  rewrite Epid, (F _ t_ppid) by done. simpl.
  destruct (Z.eqb_spec (t_ppid x) (t_pid x)) as [Es|Es].
  - destruct Hself as [?| ->]; [done|]. rewrite (bool_decide_eq_false_2 (t <> t)) by tauto. rewrite andb_false_r, orb_false_r.
    replace (is_unused y2) with false by (unfold is_unused; by rewrite Ez2).
    constructor; simpl; [done|by apply (F _ t_pid)|by apply (F _ t_exit_code)|by apply (F _ t_exit_signal)|done].
  - rewrite orb_true_r. constructor; [done|by apply (F _ t_pid)|by apply (F _ t_exit_code)|by apply (F _ t_exit_signal)|intros _; by apply (F _ t_ppid)].
Qed.

Lemma mark_zombie_ok hd c k t x code signal : kernel_sound hd c k -> pool k !! t = Some x ->
  wp (task_mark_zombie t code signal) k (fun _ k' => kernel_sound hd c k' /\
    (t_pid x <> 0 -> t_ppid x <> t_pid x \/ c = t -> exists z, pool k' !! t = Some z /\ ~ alive (t_state z) /\
      (alive (t_state x) -> remains x code signal z /\ exists k1 y, died t code signal k k1 /\ pool k1 !! t = Some y /\ buried c y k1 k'))).
Proof.
  intros Hok Hx. destruct (decide (t_pid x <> 0 /\ alive (t_state x))) as [[Hp Ha]|Hn].
  - eapply wp_mono; [by eapply mark_zombie_spec|]. cbv beta. intros _ k' (Hok' & k1 & y & Hd & Hy & Hb). split; [done|].
    intros _ Hself. destruct (buried_corpse c t code signal k k1 k' x y) as (z & Hz & Hr); try done.
    { intros ->. by apply Hp, (sc_idle _ _ (proj2 Hok O x Hx)). }
    exists z. split_and!; [done|rewrite (rm_state _ _ _ _ Hr); by intros [? ?]|]. intros _. split; [done|by exists k1, y].
  - unfold task_mark_zombie. wp_step. eapply wp_ktask; [done|].
    replace ((t_pid x =? 0) || is_unused x || is_zombie x) with true.
    + wp_step. split; [done|]. intros Hp _. exists x. split_and!; [done|tauto|tauto].
    + symmetry. apply not_false_iff_true. rewrite !orb_false_iff. unfold is_unused, is_zombie. rewrite !bool_decide_eq_false, Z.eqb_neq. unfold alive in Hn. tauto.
Qed.

Lemma task_exit_ok hd c k code : kernel_sound hd c k -> wp (task_exit code) k (fun _ k' => exists n, kernel_sound hd n k').
Proof.
  intros Hok. destruct (task_current _ _ _ Hok) as [x Hx]. destruct (kernel_current _ _ _ (proj1 Hok)) as [Hcur _].
  unfold task_exit. do 2 wp_step. rewrite Hcur. wp_step. eapply wp_ktask; [done|]. destruct (t_pid x =? 0); [wp_step; by exists c|].
  wp_step. eapply wp_mono; [by eapply mark_zombie_ok|]. cbv beta. intros _ k1 [Hok1 _].
  eapply wp_mono; [by eapply tick_moves|]. cbv beta. by intros _ k2 [? _].
Qed.

Lemma remains_calm x code signal y z : remains x code signal y -> erase_fds z = erase_fds y -> fate (t_state y) (t_state z) ->
  remains x code signal z.
Proof.
  intros [] E [Hd _]. assert (F : forall A (g : task -> A), (forall w, g (erase_fds w) = g w) -> g z = g y).
  { intros A g Hg. by rewrite <- Hg, E, Hg. }
  constructor; rewrite ?(F _ t_pid), ?(F _ t_exit_code), ?(F _ t_exit_signal), ?(F _ t_ppid) by done; try done.
  rewrite Hd; [done|]. rewrite rm_state0. by intros [? ?].
Qed.

(** The state after the death of the current task and the hand-over. *)
Definition left_by hd c (code : Z) k k' : Prop := exists k1 k2 y, died c code 0 k k1 /\ pool k1 !! c = Some y /\ buried c y k1 k2 /\
  moves hd k2 k' /\ forall j, runnable (task_state_at (tasks k2) j) -> runnable (task_state_at (tasks k') j).

(** The system call leaves the task for good: it is a zombie, and another one runs. *)
Lemma exit_from_syscall_spec hd c k x code : kernel_sound hd c k -> pool k !! c = Some x -> t_pid x <> 0 ->
  wp (task_exit_from_syscall code) k (fun _ k' => exists n, kernel_sound hd n k' /\ task_state_at (tasks k') n = TASK_RUNNING /\
    exists z, pool k' !! c = Some z /\ (alive (t_state x) -> remains x code 0 z /\ left_by hd c code k k')).
Proof.
  intros Hok Hx Hp. destruct (kernel_current _ _ _ (proj1 Hok)) as [Hcur _]. unfold task_exit_from_syscall. do 2 wp_step. rewrite Hcur.
  wp_step. eapply wp_ktask; [done|]. rewrite (proj2 (Z.eqb_neq _ 0)) by done. wp_step. eapply wp_mono; [by eapply mark_zombie_ok|].
  cbv beta. intros _ k1 [Hok1 Hz]. destruct (Hz Hp (or_intror eq_refl)) as (z & Hz1 & Hdead & Hrem).
  eapply wp_mono; [apply (leave_moves hd c k1 Hok1)|].
  { rewrite (state_of _ _ _ Hz1). intros E. apply Hdead. by rewrite E. }
  cbv beta. intros _ k2 ((( n & Hok2) & Hc2 & Hf2) & n' & Hn' & Hrun & Hsame). destruct (kernel_current _ _ _ (proj1 Hok2)) as [Hn2 _].
  assert (n' = n) as -> by congruence. exists n. split_and!; [done|done|]. destruct (calm_lookup _ _ _ _ Hc2 Hz1) as (z2 & Hz2 & E2).
  exists z2. split; [done|]. intros Ha. destruct (Hrem Ha) as [Hrm (k0 & y & Hd & Hy & Hb)]. split.
  - apply (remains_calm _ _ _ z); [done|done|]. by rewrite <- (state_of _ _ _ Hz1), <- (state_of _ _ _ Hz2).
  - exists k0, k1, y. split; [done|]. split; [done|]. split; [done|]. split; [split; [by exists n|by split]|]. intros j Hj. destruct (decide (j = n)) as [->|Hne]; [rewrite Hrun; by right|by rewrite Hsame].
Qed.

Lemma task_kill_ok hd c k pid code : kernel_sound hd c k -> wp (task_kill pid code) k (fun _ k' => kernel_sound hd c k').
Proof.
  intros Hok. unfold task_kill. destruct (pid =? 0); [by wp_step|]. do 4 wp_step. destruct (first_task k 0 _) as [t|] eqn:E; [|by wp_step].
  apply first_task_Some in E as ((x & Hx & _) & _). destruct (bool_decide _); [by wp_step|]. wp_step.
  eapply wp_mono; [by eapply mark_zombie_ok|]. cbv beta. intros _ k1 [Hok1 _]. by wp_step.
Qed.

Lemma lookup_pid_Some (s : sched) pid t : task_lookup_pid s pid = Some t -> exists x, task_pool s !! t = Some x /\ t_pid x = pid.
Proof.
  unfold task_lookup_pid. intros ([i x] & Hf & ->)%fmap_Some. apply list_find_Some in Hf as (Hx & [_ Hp] & _). by exists x.
Qed.

Lemma pending_keeps v x : keeps_owned (fun y => y <| t_pending_signal := v |>) x.
Proof. constructor; try done. intros []. by constructor. Qed.

Lemma signal_probe_ok hd c k pid : kernel_sound hd c k -> wp (on_tasks (task_signal_probe pid)) k (fun _ k' => kernel_sound hd c k').
Proof.
  intros Hok. destruct (task_current _ _ _ Hok) as [cx Hcx]. destruct (kernel_current _ _ _ (proj1 Hok)) as [Hcur _].
  apply wp_on_tasks. assert (Hid : set_tasks k (tasks k) = k) by (by destruct k as [[]]).
  unfold task_signal_probe. do 2 wp_step. unfold current in Hcur. rewrite Hcur. destruct (pid <=? 0); [wp_step; by rewrite Hid|]. do 2 wp_step.
  destruct (task_lookup_pid (tasks k) (u32 pid)) as [t|] eqn:E; [|wp_step; by rewrite Hid].
  apply lookup_pid_Some in E as (x & Hx & _). wp_step. eapply wp_deref; [exact Hx|]. wp_step. eapply wp_deref; [exact Hcx|]. wp_step. by rewrite Hid.
Qed.

Lemma send_signal_ok hd c k pid sig : kernel_sound hd c k -> wp (task_send_signal pid sig) k (fun _ k' => kernel_sound hd c k').
Proof.
  intros Hok. destruct (task_current _ _ _ Hok) as [cx Hcx]. destruct (kernel_current _ _ _ (proj1 Hok)) as [Hcur _].
  unfold task_send_signal. destruct (sig =? 0); [by eapply signal_probe_ok|]. destruct (_ || _); [by wp_step|]. do 4 wp_step. rewrite Hcur.
  destruct (task_lookup_pid (tasks k) (u32 pid)) as [t|] eqn:E; [|by wp_step]. apply lookup_pid_Some in E as (x & Hx & _).
  wp_step. eapply wp_ktask; [exact Hx|]. wp_step. eapply wp_ktask; [exact Hcx|]. destruct (gone x); [by wp_step|]. destruct (_ || _); [by wp_step|].
  wp_step. apply wp_upd_task; [by apply (pool_lt k t x)|]. set (f := fun y : task => y <| t_pending_signal := u32 sig |>).
  assert (Hok1 : kernel_sound hd c (put_task t f k)) by (apply (kernel_sound_neutral hd c k t x); try done; apply pending_keeps).
  wp_step. eapply wp_mono; [apply (mark_zombie_ok hd c _ t (f x) _ _ Hok1); by rewrite pool_put, list_lookup_alter_eq; unfold pool; rewrite Hx|].
  cbv beta. intros _ k2 [Hok2 _]. by wp_step.
Qed.

(** ** Waiting *)

Definition child_of px (pid : Z) x : bool := task_is_direct_child px x pid.
Definition dead_child px (pid : Z) x : bool := child_of px pid x && is_zombie x.

Definition wait_on (pid : Z) (y : task) : task :=
  y <| t_wait_target := if pid <? 0 then TASK_WAIT_ANY else u32 pid |> <| t_wait_active := 1 |>.
Lemma wait_on_keeps pid x : keeps_owned (wait_on pid) x.
Proof. constructor; try done. intros []. by constructor. Qed.

(** What a pass of the loop of [task_waitpid] returns and does, on every branch. *)
Definition waited p px (pid options : Z) (r : wait_result) k k' : Prop :=
  match r with
  | Reaped q status => exists t x, t <> O /\ pool k !! t = Some x /\ dead_child px pid x = true /\
      (forall j y, (0 < j < t)%nat -> pool k !! j = Some y -> dead_child px pid y = false) /\
      q = i32 (t_pid x) /\ status = task_wait_status x /\
      pool k' = alter reset t (alter stop_waiting p (pool k))
  | WaitError e => e = - TASK_ERR_ECHILD /\ (forall j y, j <> O -> pool k !! j = Some y -> child_of px pid y = false) /\
      pool k' = alter stop_waiting p (pool k)
  | NoneYet => Z.land options TASK_WAIT_NOHANG <> 0 /\ (forall j y, j <> O -> pool k !! j = Some y -> dead_child px pid y = false) /\
      (exists j y, pool k !! j = Some y /\ child_of px pid y = true) /\ k' = k
  | Asleep => Z.land options TASK_WAIT_NOHANG = 0 /\ (forall j y, j <> O -> pool k !! j = Some y -> dead_child px pid y = false) /\
      (exists j y, pool k !! j = Some y /\ child_of px pid y = true) /\ calm (put_task p (wait_on pid) k) k'
  end.

Lemma first_none hd c k p : kernel_sound hd c k -> first_task k 1 p = None -> forall j y, j <> O -> pool k !! j = Some y -> p y = false.
Proof.
  intros [Hi _] E j y Hj Hy. destruct (p y) eqn:Ep; [|done]. exfalso.
  apply (first_task_None _ _ _ E j); [pose proof (kernel_task_lt _ _ _ _ _ Hi Hy); lia|by exists y].
Qed.

Lemma wait_pass_spec hd c k p px pid options : kernel_sound hd c k -> alive (task_state_at (tasks k) c) -> pool k !! p = Some px ->
  wp (wait_pass p pid options) k (fun r k' => (exists n, kernel_sound hd n k') /\ waited p px pid options r k k').
Proof.
  intros Hok Ha Hp. unfold wait_pass. wp_step. eapply wp_ktask; [done|]. do 4 wp_step.
  change (fun x => task_is_direct_child px x pid && is_zombie x) with (dead_child px pid).
  change (fun x => task_is_direct_child px x pid) with (child_of px pid).
  assert (Hstop : kernel_sound hd c (put_task p stop_waiting k)) by (apply (kernel_sound_neutral hd c k p px); try done; apply stop_waiting_keeps).
  destruct (first_task k 1 (dead_child px pid)) as [t|] eqn:Ed.
  - apply first_task_Some in Ed as ((x & Hx & Hd) & Ht & Hlt & Hfirst). wp_step. eapply wp_ktask; [done|]. wp_step.
    apply wp_upd_task; [by eapply pool_lt|]. fold stop_waiting. pose proof Hd as [_ Hz%bool_decide_eq_true]%andb_prop.
    assert (Hx1 : exists x1, pool (put_task p stop_waiting k) !! t = Some x1 /\ t_state x1 = TASK_ZOMBIE).
    { rewrite pool_put. destruct (decide (p = t)) as [->|Hne]; [rewrite list_lookup_alter_eq, Hx|rewrite list_lookup_alter_ne by done]; by eexists. }
    destruct Hx1 as (x1 & Hx1 & Hz1). wp_step. eapply wp_mono; [by eapply release_zombie_slot_spec|]. cbv beta. intros _ k' (Hok' & Ep & _).
    rewrite decide_True in Ep. 2: { split; [|done]. intros ->. rewrite (state_of _ _ _ Hx), Hz in Ha. by destruct Ha. }
    wp_step. split; [by exists c|]. exists t, x. split_and!; [lia|done|done| |done|done|done].
    intros j y Hj Hy. destruct (dead_child px pid y) eqn:E; [|done]. exfalso. apply (Hfirst j); [lia|by exists y].
  - pose proof (first_none _ _ _ _ Hok Ed) as Hnone. destruct (first_task k 1 (child_of px pid)) as [t|] eqn:Ec.
    + apply first_task_Some in Ec as ((x & Hx & Hch) & _). unfold truth. destruct (Z.eqb_spec (Z.land options TASK_WAIT_NOHANG) 0) as [Eo|Eo]; simpl negb; cbn match.
      * wp_step. apply wp_upd_task; [by eapply pool_lt|]. fold (wait_on pid).
        assert (Hok1 : kernel_sound hd c (put_task p (wait_on pid) k)) by (apply (kernel_sound_neutral hd c k p px); try done; apply wait_on_keeps).
        rewrite (ki_kernel _ _ _ (proj1 Hok) _ _ Hp). change (0 =? 0) with true. cbn match. wp_step.
        eapply wp_mono; [apply (block_moves hd c _ Hok1)|].
        { change (alive (task_state_at ((tasks k) <| task_pool := alter (wait_on pid) p (task_pool (tasks k)) |>) c)). by rewrite state_at_neutral. }
        cbv beta. intros _ k' (Hn & Hc & _). wp_step. split; [done|]. split_and!; [done|done|by exists t, x|done].
      * wp_step. split; [by exists c|]. split_and!; [done|done|by exists t, x|done].
    + wp_step. apply wp_upd_task; [by eapply pool_lt|]. fold stop_waiting. wp_step. split; [by exists c|].
      split_and!; [done|by apply (first_none hd c)|done].
Qed.
End Life.
