(* ===== verification/ProcProps.v ===== *)
(** * Properties of processes

    What creation, termination and waiting promise together: no history of them breaks
    the kernel, a parent that waits is woken and gets the status of its child, and a dead
    task keeps nothing but its slot, its stack and the cause of its death. *)

From S2P Require Import Prelude Cstring Sched SchedInv SchedProps Pipe PipeInv PipeRefs Alloc HeapAlloc Kmalloc KmallocInv Vfs VfsSynth VfsPath VfsApi VfsInv VfsRefs VfsDir VfsOps VfsTree VfsFile VfsFd VfsProps Paging Kernel Posix PosixProps Socket NativeFd Process ProcInv ProcFd ProcOps ProcLife.

Section Collect.
Context {H N : Type} `{!Allocator H} `{AL : !AllocatorLaws H} `{!Tcp N} `{!TcpTotal N}.
Implicit Types (k : kernel H N) (x y : task) (t : nat) (hd : Z -> Z).

(** ** Who is who *)

(** The live tasks of [k'] are tasks of [k], with the same numbers. *)
Definition traces k k' : Prop := forall j y', pool k' !! j = Some y' -> is_unused y' = false ->
  exists y, pool k !! j = Some y /\ is_unused y = false /\ t_pid y' = t_pid y.

Lemma traces_trans k1 k2 k3 : traces k1 k2 -> traces k2 k3 -> traces k1 k3.
Proof. intros H1 H2 j y Hy Hu. destruct (H2 j y Hy Hu) as (z & Hz & Hzu & ->). by apply H1. Qed.

Lemma erase_pid x y : erase_fds y = erase_fds x -> t_pid y = t_pid x.
Proof. intros E. change (t_pid y) with (t_pid (erase_fds y)). by rewrite E. Qed.
Lemma erase_ppid x y : erase_fds y = erase_fds x -> t_ppid y = t_ppid x.
Proof. intros E. change (t_ppid y) with (t_ppid (erase_fds y)). by rewrite E. Qed.
Lemma is_unused_false x : is_unused x = false <-> t_state x <> TASK_UNUSED.
Proof. apply bool_decide_eq_false. Qed.

(** A task that died, before and after. *)
Lemma died_lookup t code signal k k1 x j y1 : died t code signal k k1 -> pool k !! t = Some x -> alive (t_state x) ->
  pool k1 !! j = Some y1 -> exists y, pool k !! j = Some y /\ t_pid y1 = t_pid y /\ t_ppid y1 = t_ppid y /\ is_unused y1 = is_unused y.
Proof.
  intros [Hc Hz Ho] Hx [Hu _] Hy1. symmetry in Hc. destruct (calm_lookup _ _ _ _ Hc Hy1) as (y & Hy & E). rewrite pool_put in Hy.
  destruct (decide (t = j)) as [<-|Hne].
  - rewrite list_lookup_alter_eq, Hx in Hy. apply (inj Some) in Hy as <-. exists x. split_and!; [done|by rewrite <- (erase_pid _ _ E)|by rewrite <- (erase_ppid _ _ E)|].
    rewrite (state_of _ _ _ Hy1) in Hz. unfold is_unused. rewrite Hz. symmetry. by apply bool_decide_eq_false_2.
  - rewrite list_lookup_alter_ne in Hy by done. exists y. split_and!; [done|by rewrite <- (erase_pid _ _ E)|by rewrite <- (erase_ppid _ _ E)|].
    specialize (Ho j (not_eq_sym Hne)). rewrite (state_of _ _ _ Hy1), (state_of _ _ _ Hy) in Ho. unfold is_unused.
    destruct Ho as [-> |[-> ->]]; done.
Qed.
Lemma died_lookup_back t code signal k k1 x j y : died t code signal k k1 -> pool k !! t = Some x -> pool k !! j = Some y ->
  exists y1, pool k1 !! j = Some y1 /\ (j <> t -> erase_fds y1 = erase_fds y /\ wakes (t_state y) (t_state y1)).
Proof.
  intros [Hc Hz Ho] Hx Hy. destruct (calm_lookup _ _ j (if decide (t = j) then corpse code signal x else y) Hc) as (y1 & Hy1 & E).
  { rewrite pool_put. case_decide as E; [subst j; by rewrite list_lookup_alter_eq, Hx|by rewrite list_lookup_alter_ne]. }
  exists y1. split; [done|]. intros Hne. rewrite decide_False in E by done. split; [done|].
  specialize (Ho j Hne). by rewrite (state_of _ _ _ Hy1), (state_of _ _ _ Hy) in Ho.
Qed.

Lemma first_task_intro k lo p t : task_with p k t -> (lo <= t)%nat -> (t < TASK_MAX)%nat -> (forall j, (lo <= j < t)%nat -> ~ task_with p k j) ->
  first_task k lo p = Some t.
Proof.
  intros (x & Hx & Hp) Hlo Hlt Hf. unfold first_task. erewrite (proj2 (first_idx_Some _ _ _ (Z.of_nat t))); [simpl; by rewrite Nat2Z.id|].
  split_and!; [lia|lia|by rewrite aget_of_nat, Hx|]. intros j Hj. replace j with (Z.of_nat (Z.to_nat j)) by lia. rewrite aget_of_nat.
  destruct (pool k !! Z.to_nat j) as [y|] eqn:Ey; [|done]. destruct (p y) eqn:E; [|done]. exfalso. apply (Hf (Z.to_nat j)); [lia|by exists y].
Qed.

Lemma died_parent t code signal k k1 x y p : died t code signal k k1 -> pool k !! t = Some x -> alive (t_state x) -> pool k1 !! t = Some y ->
  parent_of k x = Some p -> parent_of k1 y = Some p.
Proof.
  intros Hd Hx Ha Hy. destruct (died_pid _ _ _ _ _ _ _ Hd Hx Hy) as [_ Epp]. unfold parent_of. rewrite Epp.
  destruct (t_ppid x =? TASK_NO_PARENT); [done|]. intros ((z & Hz & Hq) & _ & Hlt & Hf)%first_task_Some.
  destruct (died_lookup_back _ _ _ _ _ _ _ _ Hd Hx Hz) as (z1 & Hz1 & _).
  destruct (died_lookup _ _ _ _ _ _ _ _ Hd Hx Ha Hz1) as (z' & Hz' & Ep & _ & Eu). rewrite (same_task _ _ _ _ Hz Hz') in Ep, Eu.
  apply first_task_intro; [exists z1; split; [done|by rewrite Ep, Eu]|lia|done|].
  intros j Hj (w1 & Hw1 & Hq1). destruct (died_lookup _ _ _ _ _ _ _ _ Hd Hx Ha Hw1) as (w & Hw & Ew & _ & Eu').
  apply (Hf j Hj). exists w. split; [done|]. by rewrite <- Ew, <- Eu'.
Qed.

Lemma traces_died t code signal k k1 x : died t code signal k k1 -> pool k !! t = Some x -> alive (t_state x) -> traces k k1.
Proof.
  intros Hd Hx Ha j y1 Hy1 Hu. destruct (died_lookup _ _ _ _ _ _ _ _ Hd Hx Ha Hy1) as (y & Hy & Ep & _ & Eu).
  exists y. by rewrite <- Eu.
Qed.

Lemma orphaned_live c pid j y : is_unused (orphaned c pid j y) = false ->
  is_unused y = false /\ t_pid (orphaned c pid j y) = t_pid y.
Proof.
  unfold orphaned. destruct (is_unused y) eqn:E; simpl; [congruence|]. destruct (t_ppid y =? pid); simpl; [|done].
  by destruct (_ && _).
Qed.
Lemma traces_buried c y k1 k2 : buried c y k1 k2 -> traces k1 k2.
Proof.
  intros (kp & Hw & Ho). apply (traces_trans _ kp).
  - intros j z Hz Hu. destruct (waiting_parent k1 y) as [p|] eqn:Ep; [|subst kp; by exists z]. destruct Hw as [Hc Hst].
    symmetry in Hc. destruct (calm_lookup _ _ _ _ Hc Hz) as (z1 & Hz1 & E). rewrite pool_put in Hz1. specialize (Hst j).
    rewrite (state_of _ _ _ Hz) in Hst. destruct (decide (p = j)) as [->|Hne].
    + pose proof (waiting_parent_blocked _ _ _ Ep) as Hb. rewrite list_lookup_alter_eq in Hz1. destruct (pool k1 !! j) as [w|] eqn:Hj; [|done].
      apply (inj Some) in Hz1 as <-. exists w. rewrite (state_of _ _ _ Hj) in Hb.
      split_and!; [done|apply is_unused_false; by rewrite Hb|by rewrite <- (erase_pid _ _ E)].
    + rewrite list_lookup_alter_ne in Hz1 by done. exists z1. rewrite (state_of _ _ _ Hz1) in Hst. unfold is_unused in *. rewrite <- Hst.
      split_and!; [done|done|by rewrite <- (erase_pid _ _ E)].
  - intros j z Hz Hu. rewrite Ho in Hz. case_decide; [|by exists z]. destruct (pool kp !! j) as [w|] eqn:Hj; [|done].
    apply (inj Some) in Hz as <-. apply orphaned_live in Hu as [Hu ->]. by exists w.
Qed.
Lemma traces_moves k k' : calm k k' -> (forall j, fate (task_state_at (tasks k) j) (task_state_at (tasks k') j)) -> traces k k'.
Proof.
  intros Hc Hf j z Hz Hu. symmetry in Hc. destruct (calm_lookup _ _ _ _ Hc Hz) as (y & Hy & E). exists y.
  split_and!; [done| |by rewrite <- (erase_pid _ _ E)]. specialize (Hf j). rewrite (state_of _ _ _ Hz), (state_of _ _ _ Hy) in Hf.
  apply is_unused_false. apply is_unused_false in Hu. intros Ey. apply Hu. destruct Hf as [Hd _]. rewrite Hd; [done|]. rewrite Ey. by intros [? ?].
Qed.

(** The parent of the dead task is READY once the wake-up is done. *)
Lemma parent_ready c y k1 k2 p z1 : buried c y k1 k2 -> parent_of k1 y = Some p -> pool k1 !! p = Some z1 ->
  waits_for z1 (t_pid y) = true \/ t_state z1 = TASK_READY -> t_ppid z1 <> t_pid y ->
  exists z2, pool k2 !! p = Some z2 /\ t_state z2 = TASK_READY /\ t_pid z2 = t_pid z1.
Proof.
  intros (kp & Hw & Ho) Hp Hz1 Hs Hpp. assert (Hkp : exists z, pool kp !! p = Some z /\ t_state z = TASK_READY /\ t_pid z = t_pid z1 /\ t_ppid z = t_ppid z1).
  { unfold waiting_parent in Hw. rewrite Hp in Hw. simpl in Hw. rewrite Hz1 in Hw. simpl in Hw.
    destruct (waits_for z1 (t_pid y)); [|destruct Hs as [?|Hs]; [done|subst kp; by exists z1]]. destruct Hw as [Hc Hst].
    destruct (calm_lookup _ _ p (stop_waiting z1) Hc) as (z & Hz & E); [by rewrite pool_put, list_lookup_alter_eq, Hz1|].
    exists z. split_and!; [done|by rewrite <- (state_of _ _ _ Hz), Hst, decide_True|by rewrite (erase_pid _ _ E)|by rewrite (erase_ppid _ _ E)]. }
  destruct Hkp as (z & Hz & Ez & Epid & Eppid). specialize (Ho p). rewrite Hz in Ho. exists z. split_and!; [|done|done].
  rewrite Ho. case_decide; [|done]. simpl. unfold orphaned. rewrite Eppid, (proj2 (Z.eqb_neq _ _)) by done. by rewrite orb_true_r.
Qed.

(** ** The status of a child *)

Definition unique_pid k t x : Prop := forall j y, pool k !! j = Some y -> is_unused y = false -> t_pid y = t_pid x -> j = t.

Lemma u32_pid x : 0 <= t_pid x < 2 ^ 31 -> u32 (t_pid x) = t_pid x /\ i32 (t_pid x) = t_pid x.
Proof.
  intros Hr. assert (E : u32 (t_pid x) = t_pid x) by (apply u32_small; lia). split; [done|]. unfold i32. rewrite E.
  destruct (Z.ltb_spec (t_pid x) (2 ^ 31)); lia.
Qed.

(** The pass that finds the one child with this number dead. *)
Lemma collect hd c k p px x t z : kernel_sound hd c k -> alive (task_state_at (tasks k) c) -> pool k !! p = Some px -> pool k !! t = Some z ->
  t <> O -> remains x (t_exit_code z) (t_exit_signal z) z -> t_ppid z = t_pid px -> unique_pid k t z -> 0 < t_pid x < 2 ^ 31 -> p <> t ->
  wp (task_waitpid_resume p (t_pid x) 0) k (fun r k' => (exists n, kernel_sound hd n k') /\ r = Reaped (t_pid x) (task_wait_status z) /\
    pool k' !! t = Some zero_task).
Proof.
  intros Hok Ha Hp Hz Ht Hr Hpp Hun Hpid Hpt. unfold task_waitpid_resume. wp_step. apply wp_upd_task; [by eapply pool_lt|]. fold stop_waiting.
  assert (Hok1 : kernel_sound hd c (put_task p stop_waiting k)) by (apply (kernel_sound_neutral hd c k p px); try done; apply stop_waiting_keeps).
  set (k1 := put_task p stop_waiting k). fold k1 in Hok1. assert (Hp1 : pool k1 !! p = Some (stop_waiting px)) by (unfold k1; by rewrite pool_put, list_lookup_alter_eq, Hp).
  assert (Hz1 : pool k1 !! t = Some z) by (unfold k1; by rewrite pool_put, list_lookup_alter_ne).
  assert (Hst : task_state_at (tasks k1) c = task_state_at (tasks k) c) by (by apply (state_at_neutral (tasks k))).
  eapply wp_mono; [apply (wait_pass_spec hd c k1 p (stop_waiting px) _ _ Hok1); [by rewrite Hst|exact Hp1]|]. cbv beta. intros r k' [Hn Hw]. split; [done|].
  destruct (u32_pid x) as [E1 E2]; [lia|].
  assert (Hdead : dead_child (stop_waiting px) (t_pid x) z = true).
  { unfold dead_child, child_of, task_is_direct_child, is_zombie. rewrite (rm_state _ _ _ _ Hr), E1, (rm_pid _ _ _ _ Hr), Z.eqb_refl, orb_true_r.
    change (t_pid (stop_waiting px)) with (t_pid px). by rewrite Hpp, Z.eqb_refl. }
  destruct r as [q st|e| |]; simpl in Hw.
  - destruct Hw as (j & y & Hj & Hy & Hdy & _ & -> & -> & Ep). assert (Ej : j = t).
    { unfold dead_child, child_of, task_is_direct_child in Hdy. apply andb_prop in Hdy as [Hdy Hzy].
      destruct (bool_decide (t_state y = TASK_UNUSED) || _) eqn:Eu; [done|]. apply orb_false_iff in Eu as [Eu _].
      assert (Hpy : t_pid y = t_pid z).
      { apply orb_prop in Hdy as [E%Z.eqb_eq|E%Z.eqb_eq]; [lia|]. by rewrite E, E1, (rm_pid _ _ _ _ Hr). }
      unfold k1 in Hy. rewrite pool_put in Hy. destruct (decide (p = j)) as [->|Hne].
      - rewrite list_lookup_alter_eq, Hp in Hy. apply (inj Some) in Hy as <-. by apply (Hun j px).
      - rewrite list_lookup_alter_ne in Hy by done. by apply (Hun j y). }
    subst j. rewrite (same_task _ _ _ _ Hz1 Hy). rewrite (rm_pid _ _ _ _ Hr), E2. split; [done|].
    rewrite Ep, list_lookup_alter_eq. fold k1. change (alter stop_waiting p (pool k1)) with (pool (put_task p stop_waiting k1)).
    rewrite pool_put, list_lookup_alter_ne, Hz1 by done. done.
  - destruct Hw as (_ & Hno & _). specialize (Hno t z Ht Hz1). unfold dead_child in Hdead. by rewrite Hno in Hdead.
  - destruct Hw as (_ & Hno & _). by rewrite (Hno t z Ht Hz1) in Hdead.
  - destruct Hw as (_ & Hno & _). by rewrite (Hno t z Ht Hz1) in Hdead.
Qed.

Lemma parent_pid k x p : parent_of k x = Some p -> exists px, pool k !! p = Some px /\ t_pid px = t_ppid x.
Proof.
  unfold parent_of. destruct (_ =? _); [done|]. intros ((z & Hz & Hq) & _)%first_task_Some. exists z. split; [done|].
  apply andb_prop in Hq as [_ Hq]. by apply Z.eqb_eq.
Qed.

(** Where the exit leaves the parent. *)
Lemma left_parent hd c x px p code k k' : left_by hd c code k k' -> pool k !! c = Some x -> alive (t_state x) -> parent_of k x = Some p ->
  pool k !! p = Some px -> p <> c -> waits_for px (t_pid x) = true -> t_ppid px <> t_pid x ->
  exists z, pool k' !! p = Some z /\ runnable (t_state z) /\ t_pid z = t_pid px.
Proof.
  intros (k1 & k2 & y & Hd & Hy & Hb & (_ & Hc & _) & Hrun) Hx Ha Hp Hpx Hpc Hw Hpp.
  destruct (died_pid _ _ _ _ _ _ _ Hd Hx Hy) as [Epid _]. destruct (died_lookup_back _ _ _ _ _ _ _ _ Hd Hx Hpx) as (z1 & Hz1 & E1).
  destruct (E1 Hpc) as [E Hwk]. destruct (parent_ready c y k1 k2 p z1 Hb) as (z2 & Hz2 & Er & Ep2).
  - by apply (died_parent c code 0 k k1 x).
  - done.
  - unfold waits_for in *. apply andb_prop in Hw as [[Hbl%bool_decide_eq_true Hwa]%andb_prop Hwt]. rewrite Hbl in Hwk.
    destruct Hwk as [Es|[_ Es]]; [left|by right]. rewrite Es, bool_decide_eq_true_2, Epid by done.
    assert (Ea : t_wait_active z1 = t_wait_active px) by (change (t_wait_active (erase_fds z1) = t_wait_active (erase_fds px)); by rewrite E).
    assert (Et : t_wait_target z1 = t_wait_target px) by (change (t_wait_target (erase_fds z1) = t_wait_target (erase_fds px)); by rewrite E).
    rewrite Ea, Et, Hwa. done.
  - by rewrite (erase_ppid _ _ E), Epid.
  - destruct (calm_lookup _ _ _ _ Hc Hz2) as (z & Hz & Ez). exists z. split_and!; [done| |by rewrite (erase_pid _ _ Ez), Ep2, (erase_pid _ _ E)].
    rewrite <- (state_of _ _ _ Hz). apply Hrun. rewrite (state_of _ _ _ Hz2), Er. by left.
Qed.

Lemma exit_collected hd c k x p px code :
  kernel_sound hd c k -> pool k !! c = Some x -> 0 < t_pid x < 2 ^ 31 -> alive (t_state x) -> unique_pid k c x ->
  parent_of k x = Some p -> pool k !! p = Some px -> waits_for px (t_pid x) = true -> t_ppid px <> t_pid x ->
  wp (task_exit_from_syscall code) k (fun _ k' => runnable (task_state_at (tasks k') p) /\
    wp (task_waitpid_resume p (t_pid x) 0) k' (fun r k'' => (exists n, kernel_sound hd n k'') /\
      r = Reaped (t_pid x) (Z.shiftl (Z.land code 0xff) 8) /\ pool k'' !! c = Some zero_task)).
Proof.
  intros Hok Hx Hpid Ha Hun Hp Hpx Hw Hpp. destruct (parent_pid _ _ _ Hp) as (px' & Hpx' & Eppid). rewrite (same_task _ _ _ _ Hpx Hpx') in Eppid.
  assert (Hpc : p <> c) by (intros ->; apply Hpp; by rewrite (same_task _ _ _ _ Hx Hpx) in *).
  eapply wp_mono; [apply (exit_from_syscall_spec hd c k x code Hok Hx); lia|]. cbv beta.
  intros _ k' (n & Hok' & Hrun & z & Hz & Hrest). destruct (Hrest Ha) as [Hrem Hleft].
  destruct (left_parent hd c x px p code k k' Hleft) as (pz & Hpz & Hr & Epz); try done.
  split; [by rewrite (state_of _ _ _ Hpz)|].
  assert (Ht0 : c <> O) by (intros ->; pose proof (sc_idle _ _ (proj2 Hok O x Hx) eq_refl); lia).
  pose proof Hrem as [Es Ep Ec Esg Epp]. assert (Hself : t_ppid x <> t_pid x).
  { intros E. apply Hpc. apply (Hun p px Hpx); [|congruence]. unfold waits_for in Hw. apply andb_prop in Hw as [[E'%bool_decide_eq_true _]%andb_prop _].
    apply is_unused_false. by rewrite E'. }
  eapply wp_mono; [apply (collect hd n k' p pz x c z)|]; try done.
  - by rewrite Hrun.
  - by rewrite (Epp Hself), Epz, Eppid.
  - destruct Hleft as (k1 & k2 & y1 & Hd & Hy1 & Hb & (_ & Hcm & Hf) & _).
    assert (Htr : traces k k') by (eapply traces_trans; [by eapply traces_died|]; eapply traces_trans; [by eapply traces_buried|by apply traces_moves]).
    intros j y Hy Hu Ey. destruct (Htr j y Hy Hu) as (w & Hw' & Hwu & Ew). apply (Hun j w Hw' Hwu). congruence.
  - cbv beta. intros r k'' (Hn & -> & Hz'). split_and!; [done| |done]. unfold task_wait_status. by rewrite Esg, Ec.
Qed.
End Collect.

(** ** Histories *)

Inductive proc_op :=
| OpCreate (name : cstr) (fn priority : Z)
| OpExit (code : Z)
| OpExitSyscall (code : Z)
| OpKill (pid code : Z)
| OpSignal (pid sig : Z)
| OpWait (pid options : Z)
| OpResume (pid options : Z)
| OpTick.

Section History.
Context {H N : Type} `{!Allocator H} `{AL : !AllocatorLaws H} `{!Tcp N} `{!TcpTotal N}.
Implicit Types (k : kernel H N) (x y : task) (t : nat) (hd : Z -> Z).

Definition perform (op : proc_op) : M (kernel H N) unit :=
  match op with
  | OpCreate name fn priority => let* r := task_create name fn priority in ret tt
  | OpExit code => task_exit code
  | OpExitSyscall code => task_exit_from_syscall code
  | OpKill pid code => let* r := task_kill pid code in ret tt
  | OpSignal pid sig => let* r := task_send_signal pid sig in ret tt
  | OpWait pid options => let* r := task_waitpid pid options in ret tt
  | OpResume pid options =>
    let* cur := gets current in
    match cur with Some c => let* r := task_waitpid_resume c pid options in ret tt | None => ret tt end
  | OpTick => on_tasks sched_tick
  end.

(** The calls of the current task, which is not dead; the timer needs nobody. *)
Definition allowed (op : proc_op) k : Prop :=
  op = OpTick \/
  exists c x, current k = Some c /\ pool k !! c = Some x /\ alive (t_state x) /\
    match op with
    | OpCreate name _ _ => fits_in name TASK_NAME_MAX = true
    | OpExitSyscall _ => t_pid x <> 0
    | _ => True
    end.

Inductive proc_reaches k : kernel H N -> Prop :=
| proc_start : proc_reaches k k
| proc_step op k1 k2 : proc_reaches k k1 -> allowed op k1 -> perform op k1 = Done (tt, k2) -> proc_reaches k k2.

Lemma waitpid_ok hd c k pid options : kernel_sound hd c k -> alive (task_state_at (tasks k) c) ->
  wp (task_waitpid pid options) k (fun _ k' => exists n, kernel_sound hd n k').
Proof.
  intros Hok Ha. destruct (task_current _ _ _ Hok) as [x Hx]. destruct (kernel_current _ _ _ (proj1 Hok)) as [Hcur _].
  unfold task_waitpid. do 2 wp_step. rewrite Hcur. destruct (_ || _); [wp_step; by exists c|].
  eapply wp_mono; [by eapply wait_pass_spec|]. cbv beta. by intros r k' [? _].
Qed.
Lemma resume_ok hd c k p px pid options : kernel_sound hd c k -> alive (task_state_at (tasks k) c) -> pool k !! p = Some px ->
  wp (task_waitpid_resume p pid options) k (fun _ k' => exists n, kernel_sound hd n k').
Proof.
  intros Hok Ha Hp. unfold task_waitpid_resume. wp_step. apply wp_upd_task; [by eapply pool_lt|]. fold stop_waiting.
  assert (Hok1 : kernel_sound hd c (put_task p stop_waiting k)) by (apply (kernel_sound_neutral hd c k p px); try done; apply stop_waiting_keeps).
  eapply wp_mono; [apply (wait_pass_spec hd c _ p (stop_waiting px) _ _ Hok1)|].
  - change (alive (task_state_at ((tasks k) <| task_pool := alter stop_waiting p (task_pool (tasks k)) |>) c)). by rewrite state_at_neutral.
  - by rewrite pool_put, list_lookup_alter_eq, Hp.
  - cbv beta. by intros r k' [? _].
Qed.

Lemma perform_ok hd c k op : kernel_sound hd c k -> allowed op k -> wp (perform op) k (fun _ k' => exists n, kernel_sound hd n k').
Proof.
  intros Hok [->|(c' & x & Hcur & Hx & Ha & Hop)].
  { eapply wp_mono; [by eapply tick_moves|]. cbv beta. by intros _ k' [? _]. }
  destruct (kernel_current _ _ _ (proj1 Hok)) as [Hcur' _]. assert (c' = c) as -> by congruence.
  rewrite <- (state_of _ _ _ Hx) in Ha. destruct op as [name fn priority|code|code|pid code|pid sig|pid options|pid options|]; simpl perform.
  - wp_step. eapply wp_mono; [by eapply task_create_spec|]. cbv beta. intros r k' [? _]. wp_step. by exists c.
  - by eapply task_exit_ok.
  - eapply wp_mono; [by eapply exit_from_syscall_spec|]. cbv beta. intros r k' (n & ? & _). by exists n.
  - wp_step. eapply wp_mono; [by eapply task_kill_ok|]. cbv beta. intros r k' ?. wp_step. by exists c.
  - wp_step. eapply wp_mono; [by eapply send_signal_ok|]. cbv beta. intros r k' ?. wp_step. by exists c.
  - wp_step. eapply wp_mono; [by eapply waitpid_ok|]. cbv beta. intros r k' ?. by wp_step.
  - do 2 wp_step. rewrite Hcur'. wp_step. eapply wp_mono; [by eapply resume_ok|]. cbv beta. intros r k' ?. by wp_step.
  - eapply wp_mono; [by eapply tick_moves|]. cbv beta. by intros _ k' [? _].
Qed.

Lemma proc_reaches_ok hd c k k' : kernel_sound hd c k -> proc_reaches k k' -> exists n, kernel_sound hd n k'.
Proof.
  intros Hok Hr. induction Hr as [|op k1 k2 _ [n IH] Ha E]; [by exists c|]. exact (wp_run _ _ _ _ _ (perform_ok hd n k1 op IH Ha) E).
Qed.
End History.

(** ** A small kernel, for evaluation *)

(** No network: every call fails, and closing returns. *)
#[export] Instance offline : Tcp unit := {
  atm_tcp_connect := fun c _ _ _ => ret (-1, c);
  atm_tcp_listen := fun c _ => ret (-1, c);
  atm_tcp_accept := fun _ c _ => ret (-1, c);
  atm_tcp_send := fun c _ => ret (-1, c);
  atm_tcp_recv := fun c _ _ => ret (-1, [], c);
  atm_tcp_close := fun c => ret (0, c);
  net_ip := fun _ => [0; 0; 0; 0] }.
#[export] Instance offline_total : TcpTotal unit.
Proof. intros c n. done. Qed.

Lemma demo_stacks : stacks (pool demo_kernel) = [].
Proof. by vm_compute. Qed.
Lemma demo_dirs : dirs (pool demo_kernel) = [].
Proof. by vm_compute. Qed.
Lemma demo_pool_elem t x : pool demo_kernel !! t = Some x -> x = zero_task /\ t <> O \/ t = O /\ t_pid x = 0 /\ t_state x = TASK_READY /\ t_fd_table_ready x = 0 /\ t_address_space x = 0.
Proof.
  destruct t as [|t]; intros Hx; [right|left].
  - apply (inj Some) in Hx as <-. done.
  - change (replicate 15 zero_task !! t = Some x) in Hx. apply lookup_replicate in Hx as [-> _]. done.
Qed.
Lemma demo_ready t x : pool demo_kernel !! t = Some x -> t_fd_table_ready x = 0.
Proof. intros [[-> _]|(_ & _ & _ & E & _)]%demo_pool_elem; [done|exact E]. Qed.

Lemma demo_ps_inv : pipes_inv (inv_at 0) (k_ps demo_kernel).
Proof.
  assert (Hpool : forall i p, aget (pipe_pool (k_ps demo_kernel)) i = Some p -> p = zero_pipe).
  { intros i p Hp. unfold aget in Hp. case_match; [done|]. apply list_elem_of_lookup_2, elem_of_replicate in Hp. by destruct Hp. }
  assert (Hrefs : forall e, end_refs (tasks demo_kernel) e = 0).
  { intros e. unfold end_refs. change (task_pool (tasks demo_kernel)) with (pool demo_kernel).
    assert (E : task_refs e <$> pool demo_kernel = (fun _ => O) <$> pool demo_kernel).
    { apply list_fmap_ext. intros i x Hx. unfold task_refs. by rewrite (demo_ready i x Hx). }
    rewrite E. by vm_compute. }
  constructor.
  - exists []. apply sched_check_sound. by vm_compute.
  - intros i p ->%Hpool. split; [apply zero_pipe_ok|done].
  - constructor; [done|done| | |].
    + intros t x Hx Hr. by rewrite (demo_ready t x Hx) in Hr.
    + intros idx p ->%Hpool. symmetry. apply Hrefs.
    + intros idx p ->%Hpool. symmetry. apply Hrefs.
Qed.

Lemma demo_kernel_sound : kernel_sound demo_held 0 demo_kernel.
Proof.
  split.
  - constructor; rewrite ?demo_stacks, ?demo_dirs; [exact demo_ps_inv| |constructor|constructor|constructor| |].
    + destruct demo_ok as [L Hok]. exact (vfs_inv_empty L _ _ Hok).
    + intros t x Hx Hr. by rewrite (demo_ready t x Hx) in Hr.
    + by intros t x [[-> _]|(_ & _ & _ & _ & E)]%demo_pool_elem.
  - intros t x [[-> Ht]|(-> & Ep & Es & Er & _)]%demo_pool_elem; [by apply zero_clean|].
    constructor; [by rewrite Es|by rewrite Es|]. intros _. by rewrite Es.
Qed.

Definition play (op : proc_op) (k : kernel heap unit) : kernel heap unit :=
  match perform op k with Done (_, k') => k' | Fault => k end.

Lemma play_ok hd c k op : kernel_sound hd c k -> allowed op k -> exists n, kernel_sound hd n (play op k).
Proof.
  intros Hok Ha. destruct (wp_inv _ _ _ (perform_ok hd c k op Hok Ha)) as (u & k' & E & Hn). unfold play. by rewrite E.
Qed.

(** The idle task has made a task and waits for it; the second tick gives the processor to the task. *)
Definition demo_wait : kernel heap unit :=
  play OpTick (play (OpWait 1 0) (play (OpCreate (cs "child") 0x1000 3) demo_kernel)).

Definition alive_now (k : kernel heap unit) : bool :=
  match current k ≫= fun c => pool k !! c with Some x => bool_decide (t_state x <> TASK_UNUSED /\ t_state x <> TASK_ZOMBIE) | None => false end.
Lemma alive_now_allowed k op : alive_now k = true ->
  match op with OpCreate name _ _ => fits_in name TASK_NAME_MAX = true | OpExitSyscall _ => False | _ => True end -> allowed op k.
Proof.
  unfold alive_now. intros E Hop. right. destruct (current k) as [c|] eqn:Ec; [|done]. simpl in E. destruct (pool k !! c) as [x|] eqn:Ex; [|done].
  apply bool_decide_eq_true in E. exists c, x. do 3 (split; [done|]). by destruct op.
Qed.

Lemma demo_wait_alive : alive_now demo_kernel && alive_now (play (OpCreate (cs "child") 0x1000 3) demo_kernel) = true.
Proof. by vm_compute. Qed.
Lemma demo_wait_ok : exists n, kernel_sound demo_held n demo_wait.
Proof.
  pose proof (andb_prop _ _ demo_wait_alive) as [H1 H2]. clear -H1 H2.
  destruct (play_ok _ _ _ (OpCreate (cs "child") 0x1000 3) demo_kernel_sound) as [n1 K1]; [by apply alive_now_allowed|].
  destruct (play_ok _ _ _ (OpWait 1 0) K1) as [n2 K2]; [by apply alive_now_allowed|].
  apply (play_ok _ _ _ OpTick K2). by left.
Qed.

(** The child is current, and the idle task waits for it. *)
Definition demo_wait_check : bool :=
  match pool demo_wait !! 1%nat, pool demo_wait !! 0%nat with
  | Some x, Some px => bool_decide (current demo_wait = Some 1%nat) && (t_pid x =? 1) && bool_decide (t_state x = TASK_RUNNING) &&
      bool_decide (parent_of demo_wait x = Some 0%nat) && waits_for px (t_pid x) && negb (t_ppid px =? t_pid x) &&
      forallb (fun j => match pool demo_wait !! j with Some y => is_unused y || negb (t_pid y =? 1) | None => true end) (0%nat :: seq 2 14)
  | _, _ => false
  end.
Lemma demo_wait_checked : demo_wait_check = true.
Proof. by vm_compute. Qed.

Record waits_scene (k : kernel heap unit) (x px : task) : Prop := {
  ws_child : pool k !! 1%nat = Some x;
  ws_parent : pool k !! 0%nat = Some px;
  ws_current : current k = Some 1%nat;
  ws_pid : t_pid x = 1;
  ws_alive : alive (t_state x);
  ws_of : parent_of k x = Some 0%nat;
  ws_waits : waits_for px (t_pid x) = true;
  ws_up : t_ppid px <> t_pid x;
  ws_unique : length (pool k) = TASK_MAX -> unique_pid k 1 x }.
Lemma demo_scene : exists x px, waits_scene demo_wait x px.
Proof.
  pose proof demo_wait_checked as E. unfold demo_wait_check in E. generalize dependent demo_wait. intros k E.
  destruct (pool k !! 1%nat) as [x|] eqn:Hx; [|done]. destruct (pool k !! 0%nat) as [px|] eqn:Hpx; [|done].
  rewrite !andb_true_iff in E. destruct E as [[[[[[E1%bool_decide_eq_true E2%Z.eqb_eq] E3%bool_decide_eq_true] E4%bool_decide_eq_true] E5] E6%negb_true_iff] E7].
  exists x, px. constructor; try done.
  - by rewrite E3.
  - by apply Z.eqb_neq.
  - intros Hlen j y Hy Hu Ep. destruct (decide (j = 1%nat)) as [->|Hj]; [done|]. exfalso.
    assert (Hin : j ∈ 0%nat :: seq 2 14).
    { apply lookup_lt_Some in Hy. rewrite Hlen in Hy. unfold TASK_MAX in Hy. destruct j as [|[|j]]; [by left|done|right]. apply elem_of_seq. lia. }
    rewrite forallb_forall in E7. apply list_elem_of_In, E7 in Hin. rewrite Hy in Hin. rewrite Hu in Hin. rewrite Ep, E2 in Hin. done.
Qed.

(** ** The properties *)







(** [task_create] takes an unused slot or that of a dead orphan, gives it the next process number,
    a stack of its own and the identity of its creator, and queues it READY; every other task
    is as before.  Without a slot or memory it makes no task and uses up no number. *)
Theorem create_starts_task {N} `{!Tcp N} `{!TcpTotal N} hd c (k : kernel heap N) name fn priority :
  kernel_sound hd c k -> alive (task_state_at (tasks k) c) -> fits_in name TASK_NAME_MAX = true ->
  wp (task_create name fn priority) k (fun r k' => kernel_sound hd c k' /\
    match r with
    | None => next_pid (tasks k') = next_pid (tasks k)
    | Some t => (exists x, pool k !! t = Some x /\ (is_unused x = true \/ orphan_zombie x = true)) /\
        (exists cx y, pool k !! c = Some cx /\ pool k' !! t = Some y /\ newborn name fn priority (next_pid (tasks k)) cx y) /\
        others_same t k k' /\ next_pid (tasks k') = u32 (next_pid (tasks k) + 1)
    end).
Proof. apply task_create_spec. Qed.

Lemma create_starts_task_witness :
  wp (task_create (cs "sh") 0x1000 99) demo_kernel (fun r k' => kernel_sound demo_held 0 k').
Proof.
  eapply wp_mono; [apply (create_starts_task demo_held 0 demo_kernel (cs "sh") 0x1000 99 demo_kernel_sound); [|reflexivity]|].
  - exact (idle_alive _ _ _ demo_kernel_sound).
  - cbv beta. intros r k' [Hk _]. exact Hk.
Defined.

Lemma land_7f_shift8 z : Z.land (Z.shiftl z 8) 0x7f = 0.
Proof.
  apply Z.bits_inj'. intros n Hn. rewrite Z.land_spec, Z.bits_0, Z.shiftl_spec by lia.
  destruct (Z.ltb_spec n 8) as [Hlt|Hge]; [by rewrite Z.testbit_neg_r by lia|].
  change 0x7f with (Z.ones 7). rewrite Z.ones_spec_high by lia. apply andb_false_r.
Qed.

(** The status of a dead task tells how it died: a normal exit and the low byte of its code, or
    the signal that ended it. *)
Theorem wait_status_roundtrip x :
  0 <= t_exit_signal x < 128 ->
  let s := task_wait_status x in
  if t_exit_signal x =? 0
  then TASK_WIFEXITED s = true /\ TASK_WIFSIGNALED s = false /\ TASK_WEXITSTATUS s = t_exit_code x mod 256
  else TASK_WIFSIGNALED s = true /\ TASK_WIFEXITED s = false /\ TASK_WTERMSIG s = t_exit_signal x.
Proof.
  intros Hr. cbv zeta. unfold task_wait_status, truth, TASK_WIFEXITED, TASK_WIFSIGNALED, TASK_WEXITSTATUS, TASK_WTERMSIG.
  destruct (Z.eqb_spec (t_exit_signal x) 0) as [E|E]; simpl negb; cbn match.
  - rewrite land_7f_shift8. split_and!; [done|done|]. rewrite Z.shiftr_shiftl_l, Z.sub_diag, Z.shiftl_0_r by lia.
    rewrite <- Z.land_assoc. change (Z.land 0xff 0xff) with (Z.ones 8). by rewrite Z.land_ones by lia.
  - rewrite <- Z.land_assoc. change (Z.land 0x7f 0x7f) with (Z.ones 7). change 0x7f with (Z.ones 7).
    rewrite Z.land_ones by lia. rewrite Z.mod_small by (change (2 ^ 7) with 128; lia). by rewrite (proj2 (Z.eqb_neq _ 0)) by done.
Qed.

Lemma wait_status_roundtrip_witness : TASK_WTERMSIG (task_wait_status (zero_task <| t_exit_signal := 9 |>)) = 9.
Proof. destruct (wait_status_roundtrip (zero_task <| t_exit_signal := 9 |>)) as (_ & _ & E); [simpl; lia|exact E]. Defined.

(** ** The descriptors of a task *)

(** A task gets its descriptor table, with no pipe and no directory stream in it. *)
Record new_table (f : task -> task) (x : task) : Prop := {
  tn_next : forall y, t_next (f y) = t_next y;
  tn_state : forall y, t_state (f y) = t_state y;
  tn_stack : t_stack_base (f x) = t_stack_base x;
  tn_space : t_address_space (f x) = t_address_space x;
  tn_tables : tables_ok (f x);
  tn_pipes : map_ok (t_pipe_map (f x)) /\ no_pipes (f x);
  tn_dirs : task_dirs (f x) = [] }.

Lemma kernel_inv_table {H N : Type} `{!Allocator H} `{AL : !AllocatorLaws H} (SI : sched -> Prop) `{!WakeInv SI} hd (k : kernel H N) t x f :
  kernel_inv SI hd k -> pool k !! t = Some x -> t_fd_table_ready x = 0 -> new_table f x -> kernel_inv SI hd (put_task t f k).
Proof.
  intros [Hps Hv Hst Hd Hh Htb Hk] Hx Hr [Hn Hs Hsb Hsp Htab [Hm Hnp] Hdirs].
  assert (Ed : dirs (pool (put_task t f k)) = dirs (pool k)).
  { rewrite pool_put. apply (dirs_put f t k x Hx). rewrite Hdirs. unfold task_dirs. by rewrite Hr. }
  assert (Es : stacks (pool (put_task t f k)) = stacks (pool k)) by (by apply (stacks_same _ t x)).
  constructor; rewrite ?Es, ?Ed; try done.
  - apply (pipes_inv_put SI SI (k_ps k)); [done|by apply wi_neutral; [apply Hps|..]|]. intros y Hy.
    rewrite (same_task _ _ _ _ Hx Hy). split; [|done]. intros e He. rewrite (no_pipes_refs (f x) e Hnp He). unfold task_refs. by rewrite Hr.
  - by apply (tables_put k t x f Hx).
  - intros j y. rewrite pool_put. destruct (decide (t = j)) as [->|Hne]; [|rewrite list_lookup_alter_ne by done; apply Hk].
    rewrite list_lookup_alter_eq, Hx. intros E. apply (inj Some) in E as <-. rewrite Hsp. exact (Hk _ _ Hx).
Qed.


(** The idle task with descriptor 3 of the filesystem as its descriptor 0. *)
Definition demo_table (y : task) : task :=
  y <| t_fd_map := 3 :: replicate 31 (-1) |> <| t_socket_map := replicate 32 (-1) |> <| t_pipe_map := replicate 32 (-1) |>
    <| t_fd_flags := replicate 32 0 |> <| t_dir_map := replicate 16 0 |> <| t_fd_table_ready := 1 |>.
Lemma demo_table_new x : new_table demo_table x.
Proof.
  constructor; try done. split; [split; [done|]|].
  - intros fd e _ He. left. change (aget (replicate 32 (-1)) fd = Some e) in He. unfold aget in He. case_match; [done|].
    apply list_elem_of_lookup_2, elem_of_replicate in He. by destruct He.
  - intros fd Hfd. change (aget (replicate 32 (-1)) fd = Some (-1)). unfold aget. rewrite (proj2 (Z.ltb_ge fd 0)) by lia.
    apply lookup_replicate_2. unfold TASK_FD_MAX in Hfd. lia.
Qed.
Definition demo_fds : kernel heap unit := put_task 0 demo_table demo_kernel.

