(* ===== verification/NativeApp.v ===== *)
(** * Starting native programs (src/src/native_app.c)

    The argument payload, the first stack of a program, the creation of its task and the
    replacement of the image of a running one.  A [user_space_t] that is being built is a
    value until the task points to it, then it is an object of [k_spaces].  Messages to the
    serial port and the launch log are not represented; interrupts are masked throughout. *)

From S2P Require Import Prelude Cstring Sched Pipe Alloc Vfs VfsSynth VfsPath VfsApi Paging Elf Kernel Posix Socket NativeFd Process.

Definition ATM_NATIVE_MAX_IMAGE : Z := ATM_USER_WINDOW_SIZE - ATM_PAGE_SIZE.
Definition ATM_NATIVE_EXEC_MAX_ARGS : Z := 16.
Definition ATM_NATIVE_EXEC_MAX_ENV : Z := 16.
Definition ATM_NATIVE_EXEC_STR_BYTES : Z := 2048.
Definition ATM_AT_NULL : Z := 0.
Definition ATM_AT_PAGESZ : Z := 6.
Definition ATM_AT_ENTRY : Z := 9.
Definition sizeof_user_space : Z := 88.

(** ** The payload *)

(** [native_exec_payload_t]: counts, bytes in use, offsets of the strings, the strings. *)
Record payload := mk_payload { pl_argc : Z; pl_envc : Z; pl_bytes : Z; pl_argv : list Z; pl_env : list Z; pl_strings : list byte }.
#[export] Instance eta_payload : Eta payload := fun p => mk_payload (pl_argc p) (pl_envc p) (pl_bytes p) (pl_argv p) (pl_env p) (pl_strings p).

Definition payload_zero : payload :=
  mk_payload 0 0 0 (replicate (Z.to_nat ATM_NATIVE_EXEC_MAX_ARGS) 0) (replicate (Z.to_nat ATM_NATIVE_EXEC_MAX_ENV) 0)
    (replicate (Z.to_nat ATM_NATIVE_EXEC_STR_BYTES) nul).

(** The end of the string at [off], which must lie within the bytes in use. *)
Definition string_end (p : payload) (off : Z) : option Z :=
  if pl_bytes p <=? off then None else first_idx (fun e => bool_decide (aget (pl_strings p) e = Some nul)) off (pl_bytes p).
Definition string_ends (p : payload) (off : Z) : bool := bool_decide (is_Some (string_end p off)).

Definition native_exec_payload_valid (p : payload) : bool :=
  negb (pl_argc p =? 0) && (pl_argc p <=? ATM_NATIVE_EXEC_MAX_ARGS) && (pl_envc p <=? ATM_NATIVE_EXEC_MAX_ENV) &&
  negb (pl_bytes p =? 0) && (pl_bytes p <=? ATM_NATIVE_EXEC_STR_BYTES) &&
  forallb (string_ends p) (take (Z.to_nat (pl_argc p)) (pl_argv p)) && forallb (string_ends p) (take (Z.to_nat (pl_envc p)) (pl_env p)).

(** [name&&name[0]?name:"native"] *)
Definition program_name (name : option cstr) : cstr := match name with Some (c :: n) => c :: n | _ => cs "native" end.

Definition native_exec_payload_default (name : option cstr) : option payload :=
  let program := program_name name in
  let bytes := u32 (zlen program + 1) in
  if ATM_NATIVE_EXEC_STR_BYTES <? bytes then None
  else Some (payload_zero <| pl_argc := 1 |> <| pl_bytes := bytes |>
               <| pl_strings := program ++ drop (length program) (pl_strings payload_zero) |>).

(** The C string at an offset of the payload. *)
Definition string_at (p : payload) (off : Z) : cstr :=
  match string_end p off with Some e => take (Z.to_nat (e - off)) (drop (Z.to_nat off) (pl_strings p)) | None => [] end.

(** ** The first stack *)

(** [n] bytes of [v], lowest first. *)
Fixpoint le_bytes (n : nat) (v : Z) : list byte := match n with O => [] | S n' => zb v :: le_bytes n' (v / 256) end.

Section Stack.
Context {H : Type} `{!Allocator H}.
Abbreviation G := (M (kmem H)).

Definition native_write_word (us : user_space) (va value : Z) : G Z :=
  let* t := paging_user_translate (Some us) va in
  match t with
  | None => ret (-1)
  | Some (phys, _) => do* poke_bytes phys (le_bytes 8 value) in ret 0
  end.
Definition native_write_bytes (us : user_space) (va : Z) (src : list byte) : G Z := store_mapped range_fuel us va src.

Fixpoint write_words (us : user_space) (va : Z) (ws : list Z) : G Z :=
  match ws with
  | [] => ret 0
  | w :: ws' =>
    let* r := native_write_word us va w in
    if r <? 0 then ret (-1) else write_words us (u64 (va + 8)) ws'
  end.

Definition start_word_count (p : payload) : Z := 1 + pl_argc p + 1 + pl_envc p + 1 + 6.
(** argc, argv and NULL, envp and NULL, the auxiliary vector. *)
Definition start_words (p : payload) (string_va entry : Z) : list Z :=
  [pl_argc p] ++ ((fun o => u64 (string_va + o)) <$> take (Z.to_nat (pl_argc p)) (pl_argv p)) ++ [0] ++
  ((fun o => u64 (string_va + o)) <$> take (Z.to_nat (pl_envc p)) (pl_env p)) ++ [0] ++
  [ATM_AT_PAGESZ; ATM_PAGE_SIZE; ATM_AT_ENTRY; entry; ATM_AT_NULL; 0].

Definition native_init_start_stack (us : user_space) (p : payload) (im : image) : G (option Z) :=
  if negb (native_exec_payload_valid p) then ret None
  else
    let words := start_word_count p in
    if ATM_PAGE_SIZE <? pl_bytes p + words * 8 then ret None
    else
      let string_va := u64 (im_stack_top im - pl_bytes p) in
      let stack := andn (u64 (string_va - words * 8)) 15 in
      if (stack <? ATM_USER_STACK_TOP) || (string_va <? u64 (stack + words * 8)) then ret None
      else
        let* r := native_write_bytes us string_va (take (Z.to_nat (pl_bytes p)) (pl_strings p)) in
        if r <? 0 then ret None
        else
          let* r := write_words us stack (start_words p string_va (im_entry im)) in
          ret (if r <? 0 then None else Some stack).
End Stack.

(** [(load_end+ATM_PAGE_SIZE-1)&ATM_PAGE_MASK] *)
Definition page_up (x : Z) : Z := Z.land (u64 (x + ATM_PAGE_SIZE - 1)) ATM_PAGE_MASK.

Section Launch.
Context {H N : Type} `{!Allocator H} `{!Tcp N}.
Abbreviation K := (M (kernel H N)).

(** Giving up an address space that no task points to. *)
Definition drop_space (a : Z) (us : user_space) : K unit :=
  do* on_pages (paging_destroy_user_space (Some us)) in on_kheap (kfree a).

(** The space, its image and its stack; [inr] is the space as far as it was built. *)
Definition build_space (image : list byte) (p : option payload) : K ((user_space * Elf.image * Z * Z) + user_space) :=
  let* '(rc, us) := on_pages (paging_create_user_space false) in
  if rc <? 0 then ret (inr us)
  else
    let* '(rc, s, im) := on_pages (elf64_load_user (Some image) (Some us) false) in
    let us := default us s in
    if rc <? 0 then ret (inr us)
    else match p with
      | None => ret (inr us)
      | Some p =>
        let* stack := on_pages (native_init_start_stack us p im) in
        match stack with
        | None => ret (inr us)
        | Some stack => if ATM_USER_STACK_TOP <=? page_up (im_end im) then ret (inr us) else ret (inl (us, im, stack, page_up (im_end im)))
        end
      end.

(** The fields of the task that describe its image. *)
Definition set_image (t : nat) (a : Z) (im : Elf.image) (stack brk bytes : Z) : K unit :=
  upd_task t (fun x => x <| t_address_space := a |> <| t_user_entry := im_entry im |> <| t_user_stack_top := stack |>
    <| t_user_brk_base := brk |> <| t_user_brk := brk |> <| t_resident_bytes := u64 (t_stack_size x + bytes) |>).

(** [fn]: the address of [native_app_task_entry]; [gate_ready]: the entry to user mode is set up. *)
Definition native_app_spawn_memory_common (fn : Z) (gate_ready : bool) (name : option cstr) (image : list byte) (priority : Z) (inherit_from : option nat) : K Z :=
  if (zlen image =? 0) || (ATM_NATIVE_MAX_IMAGE <? zlen image) || negb gate_ready then ret (-1)
  else
    let* a := on_kheap (kmalloc sizeof_user_space) in
    if a =? 0 then ret (-1)
    else
      let* b := build_space image (native_exec_payload_default name) in
      match b with
      | inr us => do* drop_space a us in ret (-1)
      | inl (us, im, stack, brk) =>
        let* t := task_create (program_name name) fn priority in
        match t with
        | None => do* drop_space a us in ret (-1)
        | Some t =>
          do* modify (fun k => k <| k_spaces := <[a := us]> (k_spaces k) |>) in
          do* upd_task t (fun x => x <| t_address_space := a |>) in
          let* rc := (match inherit_from with
                      | Some p => native_fd_task_inherit (Some t) (Some p)
                      | None => do* native_fd_task_init (Some t) in ret 0
                      end) in
          if rc <? 0 then
            do* upd_task t (fun x => x <| t_address_space := 0 |>) in
            do* task_discard_unstarted (Some t) in
            do* release_space a in
            ret (-1)
          else
            let* bytes := on_pages (paging_user_mapped_bytes (Some us)) in
            do* set_image t a im stack brk bytes in
            let* x := ktask t in
            ret (i32 (t_pid x))
        end
      end.

Definition native_app_spawn_memory (fn : Z) (gate_ready : bool) (name : option cstr) (image : list byte) (priority : Z) : K Z :=
  native_app_spawn_memory_common fn gate_ready name image priority None.
Definition native_app_spawn_memory_inherit (fn : Z) (gate_ready : bool) (name : option cstr) (image : list byte) (priority : Z) : K Z :=
  let* cur := gets current in
  match cur with
  | None => ret (-1)
  | Some p =>
    let* x := ktask p in
    if t_fd_table_ready x =? 0 then ret (-1) else native_app_spawn_memory_common fn gate_ready name image priority (Some p)
  end.

(** The size of the file at [path] when it can hold an image. *)
Definition image_size (path : cstr) : K (option Z) :=
  let* '(rc, st) := atm_posix_stat (Some path) in
  ret (match st with
       | Some st => if (rc <? 0) || (st_size st =? 0) || (ATM_NATIVE_MAX_IMAGE <? st_size st) then None else Some (st_size st)
       | None => None
       end).

Definition native_app_spawn_path (fn : Z) (gate_ready : bool) (path name : option cstr) (priority : Z) : K Z :=
  match path with
  | None => ret (-1)
  | Some path =>
    let* size := image_size path in
    match size with
    | None => ret (-1)
    | Some size =>
      let* buf := on_kheap (kmalloc size) in
      if buf =? 0 then ret (-1)
      else
        let* fd := atm_posix_open (Some path) O_RDONLY 0 in
        if fd <? 0 then do* on_kheap (kfree buf) in ret (-1)
        else
          let* '(n, bytes) := atm_posix_read fd size in
          do* atm_posix_close fd in
          let* r := (if n =? size then native_app_spawn_memory fn gate_ready name bytes priority else ret (-1)) in
          do* on_kheap (kfree buf) in
          ret r
    end
  end.

(** The exit of a failed exec: [us] is what the block at [next] holds, which is whatever the heap
    left there as long as no space was created in it. *)
Definition exec_undo (fd buf next : Z) (us : user_space) : K (option (Z * Z)) :=
  do* (if 0 <=? fd then do* atm_posix_close fd in ret tt else ret tt) in
  do* (if next =? 0 then ret tt else drop_space next us) in
  do* (if buf =? 0 then ret tt else on_kheap (kfree buf)) in
  ret None.

(** The new image takes the place of the old one.  The entry and the stack for the saved frame. *)
Definition exec_commit (t : nat) (path : cstr) (p : payload) (buf next : Z) (us : user_space) (im : Elf.image) (stack brk : Z) : K (option (Z * Z)) :=
  let* x := ktask t in
  do* modify (fun k => k <| k_spaces := <[next := us]> (k_spaces k) |>) in
  let* bytes := on_pages (paging_user_mapped_bytes (Some us)) in
  do* set_image t next im stack brk bytes in
  let name := match aget (pl_argv p) 0 with Some o => string_at p o | None => [] end in
  do* upd_task t (fun x => x <| t_linux_fs_base := 0 |> <| t_linux_clear_tid := 0 |>
        <| t_name := take 31 (match name with [] => path | _ => name end) |>) in
  do* native_fd_close_on_exec (Some t) in
  do* on_tasks (modify (fun s => s <| msr_fs_base := 0 |>)) in
  let* rc := on_pages (paging_activate_user_space (Some us)) in
  if rc <? 0 then ret None
  else
    do* release_space (t_address_space x) in
    do* on_kheap (kfree buf) in
    ret (Some (im_entry im, stack)).

(** [junk]: what the fresh block for the new [user_space_t] holds. *)
Definition native_app_exec_current (task : option nat) (path : cstr) (p : payload) (junk : user_space) : K (option (Z * Z)) :=
  match task with
  | None => ret None
  | Some t =>
    let* x := ktask t in
    if bool_decide (path = []) || (t_address_space x =? 0) || (t_fd_table_ready x =? 0) || negb (native_exec_payload_valid p) then ret None
    else
      let* size := image_size path in
      match size with
      | None => ret None
      | Some size =>
        let* buf := on_kheap (kmalloc size) in
        let* next := on_kheap (kmalloc sizeof_user_space) in
        if (buf =? 0) || (next =? 0) then exec_undo (-1) buf next junk
        else
          let* fd := atm_posix_open (Some path) O_RDONLY 0 in
          if fd <? 0 then exec_undo fd buf next junk
          else
            let* '(n, bytes) := atm_posix_read fd size in
            if negb (n =? size) then exec_undo fd buf next junk
            else
              do* atm_posix_close fd in
              let* b := build_space bytes (Some p) in
              match b with
              | inr us => exec_undo (-1) buf next us
              | inl (us, im, stack, brk) => exec_commit t path p buf next us im stack brk
              end
      end
  end.
End Launch.

(** ** Numbers as bytes *)

Lemma le_bytes_length n : forall v, length (le_bytes n v) = n.
Proof. induction n as [|n IH]; intros v; cbn [le_bytes length]; [done|]. by rewrite IH. Qed.

Lemma le_le_bytes n : forall v, 0 <= v < 2 ^ (8 * Z.of_nat n) -> le (le_bytes n v) = v.
Proof.
  induction n as [|n IH]; intros v Hv; cbn [le_bytes le]; [change (2 ^ (8 * Z.of_nat 0)) with 1 in Hv; lia|].
  replace (8 * Z.of_nat (S n)) with (8 + 8 * Z.of_nat n) in Hv by lia. rewrite Z.pow_add_r in Hv by lia. change (2 ^ 8) with 256 in Hv.
  rewrite bz_zb_u8, IH by (split; [apply Z.div_pos; lia|apply Z.div_lt_upper_bound; lia]). unfold u8. change (2 ^ 8) with 256.
  pose proof (Z.div_mod v 256). lia.
Qed.
