(* ===== verification/Net.v ===== *)
(** * Frames, ARP and UDP (src/src/net.c, src/src/net.h)

    The card is represented by what it does to the program: [n_wire] lists what each poll
    of the receive ring will find, [n_sent] the frames handed to the transmitter, newest
    first.  An entry of [n_wire] is the time that passes before the poll and, unless the
    ring is empty then, the descriptor the card wrote with the bytes behind it.  A poll
    after the end of the list finds the ring empty.  The waiting loop for an idle
    transmitter gives up after a bounded time and has no other effect.  Frames are lists of
    bytes; a field is read at its offset, and a read outside the frame is a [Fault]. *)

From S2P Require Import Prelude.

Definition ETH_ALEN : Z := 6.
Definition ETH_HLEN : Z := 14.
Definition ETH_MAX : Z := 1514.
Definition ETH_MIN : Z := 60.
Definition RTL_TX_BUFS : Z := 4.
Definition RTL_TX_BUF_SIZE : Z := 1536.
Definition RTL_RX_RING_SIZE : Z := 8192.
Definition NET_UDP_PAYLOAD_MAX : Z := 512.
(** [sizeof(arp_packet_t)] *)
Definition ARP_LEN : Z := 28.

(** ** State *)

Record net_arp_cache_t := mk_arp { a_ip : list Z; a_mac : list Z; a_updated_ticks : Z; a_valid : Z }.

(** A packet in the receive ring: status word, length word, bytes. *)
Record rx_entry := mk_rx { rx_status : Z; rx_len : Z; rx_bytes : list byte }.

(** The part of the network manager [net_udp_next_hop] reads: the mask and the gateway of
    the active profile if there is one, and the leased gateway. *)
Record unm_routes := mk_routes { rt_profile : option (list Z * list Z); rt_leased_gw : list Z }.

Record net_state := mk_net {
  n_initialized : Z;
  n_mac : list Z;
  n_ip : list Z;
  n_arp : net_arp_cache_t;
  n_tx_cur : Z; n_rx_read_ptr : Z; n_tx_packets : Z; n_tx_bytes : Z; n_rx_packets : Z; n_rx_bytes : Z;
  n_ticks : Z; n_hz : Z;
  n_wire : list (Z * option rx_entry);
  n_sent : list (list byte);
  n_next_port : Z;
  n_packet_id : Z;
  n_routes : unm_routes }.
#[export] Instance eta_net : Eta net_state := fun n => mk_net
  (n_initialized n) (n_mac n) (n_ip n) (n_arp n) (n_tx_cur n) (n_rx_read_ptr n) (n_tx_packets n) (n_tx_bytes n) (n_rx_packets n) (n_rx_bytes n)
  (n_ticks n) (n_hz n) (n_wire n) (n_sent n) (n_next_port n) (n_packet_id n) (n_routes n).

Abbreviation T := (M net_state).

(** ** Time (src/src/pit.c) *)

Definition pit_get_ticks : T Z := gets n_ticks.
(** What passes while other code runs; the timer interrupt counts it. *)
Definition elapse (d : Z) : T unit := modify (fun n => n <| n_ticks := u32 (n_ticks n + d) |>).
Definition pit_install (hz : Z) : T unit := modify (fun n => n <| n_hz := (if hz =? 0 then 100 else hz) |> <| n_ticks := 0 |>).
(** The busy wait ends at the first tick that is late enough. *)
Definition pit_sleep (ms : Z) : T unit :=
  let* hz := gets n_hz in
  if hz =? 0 then ret tt
  else
    let wait := u32 (ms * hz) / 1000 in
    elapse (if wait =? 0 then 1 else wait).
(** [(uint32_t)(pit_get_ticks()-start)] *)
Definition since (start : Z) : T Z := let* t := pit_get_ticks in ret (u32 (t - start)).

(** ** Fields of a frame *)

Definition net_bswap16 (x : Z) : Z := u16 (Z.lor (Z.shiftr x 8) (Z.shiftl x 8)).
Definition net_bswap32 (x : Z) : Z :=
  Z.lor (Z.shiftl (Z.land x 0xff) 24)
    (Z.lor (Z.shiftl (Z.land (Z.shiftr x 8) 0xff) 16)
      (Z.lor (Z.shiftl (Z.land (Z.shiftr x 16) 0xff) 8) (Z.land (Z.shiftr x 24) 0xff))).

Definition byte_at (f : list byte) (off : Z) : option Z := bz <$> aget f off.
(** Little-endian words, as the processor reads them. *)
Definition half_at (f : list byte) (off : Z) : option Z := a ← byte_at f off; b ← byte_at f (off + 1); Some (a + 256 * b).
Definition word_at (f : list byte) (off : Z) : option Z := a ← half_at f off; b ← half_at f (off + 2); Some (a + 65536 * b).
Definition octets_at (f : list byte) (off : Z) (n : nat) : option (list Z) := mapM (fun i => byte_at f (off + i)) (seqZ 0 (Z.of_nat n)).

Definition rd8 (f : list byte) (off : Z) : T Z := deref (fun _ => byte_at f off).
Definition rd16 (f : list byte) (off : Z) : T Z := deref (fun _ => half_at f off).
Definition rd32 (f : list byte) (off : Z) : T Z := deref (fun _ => word_at f off).
Definition rdn (f : list byte) (off : Z) (n : nat) : T (list Z) := deref (fun _ => octets_at f off n).
(** [kmemcpy(out, f+off, n)] *)
Definition slice (f : list byte) (off n : Z) : T (list byte) :=
  do* guard ((0 <=? off) && (0 <=? n) && (off + n <=? zlen f)) in ret (take (Z.to_nat n) (drop (Z.to_nat off) f)).

Definition le16 (x : Z) : list byte := [zb x; zb (x / 256)].
Definition le32 (x : Z) : list byte := [zb x; zb (x / 256); zb (x / 65536); zb (x / 16777216)].
Definition be16 (x : Z) : list byte := le16 (net_bswap16 x).
Definition be32 (x : Z) : list byte := le32 (net_bswap32 x).

(** ** The Internet checksum *)

Fixpoint word_sum (f : list byte) (sum : Z) : Z :=
  match f with
  | a :: b :: f' => word_sum f' (u32 (sum + (bz a + 256 * bz b)))
  | [a] => u32 (sum + bz a)
  | [] => sum
  end.
(** [while(sum>>16) sum=(sum&0xFFFF)+(sum>>16)]: a 32-bit sum is folded at most three times. *)
Fixpoint fold_sum (fuel : nat) (sum : Z) : Z :=
  match fuel with
  | O => sum
  | S fuel' => if Z.shiftr sum 16 =? 0 then sum else fold_sum fuel' (Z.land sum 0xffff + Z.shiftr sum 16)
  end.
(** [(uint16_t)(~sum)] *)
Definition net_ip_checksum (f : list byte) : Z := 0xffff - fold_sum 3 (word_sum f 0) mod 65536.

(** ** Sending and receiving *)

Definition net_send (buf : list byte) : T Z :=
  let* n := gets n_initialized in
  if (n =? 0) || (RTL_TX_BUF_SIZE <? zlen buf) then ret (-1)
  else
    let wire_len := if zlen buf <? ETH_MIN then ETH_MIN else zlen buf in
    do* modify (fun n => n <| n_sent := (buf ++ replicate (Z.to_nat (wire_len - zlen buf)) nul) :: n_sent n |>
                           <| n_tx_cur := Z.land (n_tx_cur n + 1) (RTL_TX_BUFS - 1) |>
                           <| n_tx_packets := u64 (n_tx_packets n + 1) |> <| n_tx_bytes := u64 (n_tx_bytes n + wire_len) |>) in
    ret 0.

Definition ARP_REQUEST : Z := 1.
Definition ARP_REPLY : Z := 2.

(** An ARP packet behind its Ethernet header. *)
Definition arp_frame (dst src : list Z) (op : Z) (sha spa tha tpa : list Z) : list byte :=
  (zb <$> dst) ++ (zb <$> src) ++ be16 0x0806 ++ be16 1 ++ be16 0x0800 ++ [zb ETH_ALEN; zb 4] ++ be16 op ++
  (zb <$> sha) ++ (zb <$> spa) ++ (zb <$> tha) ++ (zb <$> tpa).

Definition net_arp_request (target : list Z) : T unit :=
  let* n := gets (fun n => n) in
  do* net_send (arp_frame (replicate 6 0xff) (n_mac n) ARP_REQUEST (n_mac n) (n_ip n) (replicate 6 0) target) in
  ret tt.

Definition same_bytes (a b : list Z) : bool := bool_decide (u8 <$> a = u8 <$> b).

Definition net_arp_observe (f : list byte) : T unit :=
  if zlen f <? ETH_HLEN + ARP_LEN then ret tt
  else
    let* ethertype := rd16 f 12 in
    let* htype := rd16 f 14 in
    let* ptype := rd16 f 16 in
    let* hlen := rd8 f 18 in
    let* plen := rd8 f 19 in
    if negb (net_bswap16 ethertype =? 0x0806) || negb (net_bswap16 htype =? 1) || negb (net_bswap16 ptype =? 0x0800) ||
       negb (hlen =? ETH_ALEN) || negb (plen =? 4) then ret tt
    else
      let* o := rd16 f 20 in
      let op := net_bswap16 o in
      let* sha := rdn f 22 6 in
      let* spa := rdn f 28 4 in
      let* tha := rdn f 32 6 in
      let* tpa := rdn f 38 4 in
      let* n := gets (fun n => n) in
      if negb (same_bytes tpa (n_ip n)) then ret tt
      else if (op =? ARP_REPLY) && negb (same_bytes tha (n_mac n)) then ret tt
      else if negb (op =? ARP_REQUEST) && negb (op =? ARP_REPLY) then ret tt
      else
        do* modify (fun n => n <| n_arp := mk_arp spa sha (n_ticks n) 1 |>) in
        if op =? ARP_REQUEST then
          do* net_send (arp_frame sha (n_mac n) ARP_REPLY (n_mac n) (n_ip n) sha spa) in ret tt
        else ret tt.

(** [None] is -1. *)
Definition net_arp_lookup (ip : list Z) : T (option (list Z)) :=
  let* n := gets (fun n => n) in
  if (a_valid (n_arp n) =? 0) || (6000 <? u32 (n_ticks n - a_updated_ticks (n_arp n))) then ret None
  else if negb (same_bytes (a_ip (n_arp n)) ip) then ret None
  else ret (Some (a_mac (n_arp n))).

(** The packet is taken off the ring; [frame_len] is 0 for a bad one. *)
Definition rx_good (e : rx_entry) (maxlen : Z) : bool :=
  negb (Z.land (rx_status e) 1 =? 0) && (4 <=? rx_len e) && (rx_len e <=? ETH_MAX + 4) && (rx_len e - 4 <=? maxlen).

(** [(rptr + 4 + pkt_len + 3) & (RTL_RX_RING_SIZE-4)] *)
Definition rx_advance (pkt_len : Z) : T unit :=
  modify (fun n => n <| n_rx_read_ptr := Z.land (n_rx_read_ptr n + 4 + pkt_len + 3) (RTL_RX_RING_SIZE - 4) |>).

(** The frame received, empty for the result 0. *)
Definition net_recv (maxlen : Z) : T (list byte) :=
  let* ini := gets n_initialized in
  if ini =? 0 then ret []
  else
    let* w := gets n_wire in
    match w with
    | [] => ret []
    | (d, o) :: w' =>
      do* modify (fun n => n <| n_wire := w' |>) in
      do* elapse d in
      match o with
      | None => ret []
      | Some e =>
        if negb (rx_good e maxlen) then do* rx_advance (rx_len e) in ret []
        else
          let* frame := slice (rx_bytes e) 0 (rx_len e - 4) in
          do* net_arp_observe frame in
          do* rx_advance (rx_len e) in
          do* modify (fun n => n <| n_rx_packets := u64 (n_rx_packets n + 1) |> <| n_rx_bytes := u64 (n_rx_bytes n + zlen frame) |>) in
          ret frame
      end
    end.

Definition net_set_ip (a b c d : Z) : T unit := modify (fun n => n <| n_ip := [a; b; c; d] |>).

(** ** Polling *)

(** [while((uint32_t)(pit_get_ticks()-start)<limit) body]: the body goes on with [inl] and leaves
    the loop with [inr].  Each pass takes an entry of the wire, or lets time pass once there is
    none, so there are at most as many passes as entries and ticks. *)
Fixpoint wait_loop {A R} (fuel : nat) (start limit : Z) (body : A -> T (A + R)) (a : A) : T (A + R) :=
  match fuel with
  | O => fault
  | S fuel' =>
    let* e := since start in
    if e <? limit then
      let* r := body a in
      match r with inl a' => wait_loop fuel' start limit body a' | inr x => ret (inr x) end
    else ret (inl a)
  end.
Definition poll_until {A R} (start limit : Z) (body : A -> T (A + R)) (a : A) : T (A + R) :=
  let* w := gets n_wire in
  wait_loop (length w + Z.to_nat limit + 1) start limit body a.

(** ** UDP *)

Definition IPPROTO_UDP : Z := 17.

(** The payload, the sender and its port. *)
Definition net_udp_parse_frame (f : list byte) (want_port cap : Z) : T (option (list byte * list Z * Z)) :=
  if zlen f <? ETH_HLEN + 20 + 8 then ret None
  else
    let* ethertype := rd16 f 12 in
    if negb (net_bswap16 ethertype =? 0x0800) then ret None
    else
      let* ver_ihl := rd8 f 14 in
      let* protocol := rd8 f 23 in
      let ihl := Z.land ver_ihl 15 * 4 in
      if negb (Z.shiftr ver_ihl 4 =? 4) || (ihl <? 20) || negb (protocol =? IPPROTO_UDP) || (zlen f <? ETH_HLEN + ihl + 8) then ret None
      else
        let* total := rd16 f 16 in
        let ip_len := net_bswap16 total in
        if (ip_len <? u16 (ihl + 8)) || (zlen f <? ETH_HLEN + ip_len) then ret None
        else
          let u := ETH_HLEN + ihl in
          let* length := rd16 f (u + 4) in
          let* dst_port := rd16 f (u + 2) in
          let udp_len := net_bswap16 length in
          let body := u16 (udp_len - 8) in
          if (udp_len <? 8) || (u16 (ip_len - ihl) <? udp_len) || negb (net_bswap16 dst_port =? want_port) || (cap <? body) then ret None
          else
            let* payload := slice f (u + 8) body in
            let* src_ip := rdn f 26 4 in
            let* src_port := rd16 f u in
            ret (Some (payload, src_ip, net_bswap16 src_port)).

Definition ip_nonzero (ip : list Z) : bool := existsb (fun b => negb (b =? 0)) ip.

Definition net_udp_next_hop (n : net_state) (dst : list Z) : list Z :=
  let '(mask, gw) := match rt_profile (n_routes n) with
    | Some (m, g) => (zip_with (fun d b => if b =? 0 then d else b) [255; 255; 255; 0] m, g)
    | None => ([255; 255; 255; 0], [0; 0; 0; 0])
    end in
  let gateway := if ip_nonzero (rt_leased_gw (n_routes n)) then rt_leased_gw (n_routes n) else gw in
  let masked ip := zip_with (fun a m => Z.land (u8 a) m) ip mask in
  let local := bool_decide (masked (n_ip n) = masked dst) in
  if negb local && ip_nonzero gateway then gateway else dst.

Definition net_udp_resolve_mac (target : list Z) : T (option (list Z)) :=
  let* m := net_arp_lookup target in
  match m with
  | Some mac => ret (Some mac)
  | None =>
    do* net_arp_request target in
    let* started := pit_get_ticks in
    let* r := poll_until started 100 (fun _ =>
      do* net_recv ETH_MAX in
      let* m := net_arp_lookup target in
      match m with Some mac => ret (inr mac) | None => do* pit_sleep 2 in ret (inl tt) end) tt in
    ret (match r with inr mac => Some mac | inl _ => None end)
  end.

(** The Ethernet and IPv4 headers of a packet with [len] bytes behind them. *)
Definition eth_header (dst src : list Z) : list byte := (zb <$> dst) ++ (zb <$> src) ++ be16 0x0800.
Definition ip_header (src dst : list Z) (id protocol len csum : Z) : list byte :=
  [zb 0x45; zb 0] ++ be16 (20 + len) ++ be16 id ++ le16 0 ++ [zb 64; zb protocol] ++ le16 csum ++ (zb <$> src) ++ (zb <$> dst).
(** The header with its checksum, which is taken with the field still zero. *)
Definition ip_packet (src dst : list Z) (id protocol len : Z) : list byte :=
  ip_header src dst id protocol len (net_ip_checksum (ip_header src dst id protocol len 0)).

Definition udp_frame (n : net_state) (mac dst : list Z) (src_port dst_port : Z) (payload : list byte) : list byte :=
  eth_header mac (n_mac n) ++ ip_packet (n_ip n) dst (n_packet_id n) IPPROTO_UDP (8 + zlen payload) ++
  be16 src_port ++ be16 dst_port ++ be16 (8 + zlen payload) ++ le16 0 ++ payload.

Definition net_udp_sendto (dst : list Z) (src_port dst_port : Z) (payload : list byte) : T Z :=
  let* n := gets (fun n => n) in
  if (n_initialized n =? 0) || (src_port =? 0) || (dst_port =? 0) || (NET_UDP_PAYLOAD_MAX <? zlen payload) || negb (ip_nonzero (n_ip n))
  then ret (-1)
  else
    let* m := net_udp_resolve_mac (net_udp_next_hop n dst) in
    match m with
    | None => ret (-1)
    | Some mac =>
      let* n' := gets (fun n => n) in
      do* modify (fun n => n <| n_packet_id := u16 (n_packet_id n + 1) |>) in
      net_send (udp_frame n' mac dst src_port dst_port payload)
    end.

(** 0 nothing received, 1 a datagram for the port, -1 a frame that is dropped. *)
Definition net_udp_recvfrom (dst_port cap : Z) : T (Z * option (list byte * list Z * Z)) :=
  let* f := net_recv ETH_MAX in
  if zlen f <=? 0 then ret (0, None)
  else
    let* r := net_udp_parse_frame f dst_port cap in
    ret (match r with Some x => (1, Some x) | None => (-1, None) end).
