(* ===== verification/NetInv.v ===== *)
(** * Frames, and what polling keeps

    [wsum] is the exact sum of the 16-bit words of a packet; the checksum of a packet whose
    checksum field holds the checksum of the rest is 0, whatever its parity.  The byte order
    functions undo themselves.  Reads of a frame do not depend on the state ([answers_with])
    and stay inside the frame; a poll only consumes the wire, moves the clock and adds to what
    was sent ([onward]); a waiting loop ends because each pass takes an entry of the wire or
    lets time pass. *)

From S2P Require Import Prelude Net.

Lemma div_mod_split a b : b <> 0 -> b * (a / b) + a mod b = a.
Proof. intros Hb. by rewrite <- Z.div_mod. Qed.

(** ** Byte order *)

Lemma u8_range z : 0 <= u8 z < 256.
Proof. by apply Z.mod_pos_bound. Qed.
Lemma u16_range z : 0 <= u16 z < 65536.
Proof. by apply Z.mod_pos_bound. Qed.
Lemma u16_small z : 0 <= z < 65536 -> u16 z = z.
Proof. apply Z.mod_small. Qed.
Lemma u8_small z : 0 <= z < 256 -> u8 z = z.
Proof. apply Z.mod_small. Qed.

Lemma lor_shifted a b k : 0 <= k -> 0 <= a < 2 ^ k -> Z.lor a (Z.shiftl b k) = a + b * 2 ^ k.
Proof.
  intros Hk Ha. rewrite lor_disjoint; [by rewrite Z.shiftl_mul_pow2|]. apply Z.bits_inj'. intros m Hm.
  rewrite Z.land_spec, Z.bits_0. destruct (Z.ltb_spec m k) as [Hl|Hl].
  - by rewrite Z.shiftl_spec_low, andb_false_r by lia.
  - replace a with (a mod 2 ^ k) by (by apply Z.mod_small). rewrite Z.mod_pow2_bits_high by lia. done.
Qed.

Lemma lxor_range a b k : 0 <= k -> 0 <= a < 2 ^ k -> 0 <= b < 2 ^ k -> 0 <= Z.lxor a b < 2 ^ k.
Proof.
  intros Hk Ha Hb. assert (E : Z.lxor a b = Z.lxor a b mod 2 ^ k).
  { apply Z.bits_inj'. intros m Hm. rewrite Z.lxor_spec. destruct (Z.ltb_spec m k) as [Hl|Hl].
    - by rewrite Z.mod_pow2_bits_low, Z.lxor_spec by lia.
    - rewrite Z.mod_pow2_bits_high by lia. rewrite <- (Z.mod_small a (2 ^ k)), <- (Z.mod_small b (2 ^ k)) by done.
      by rewrite !Z.mod_pow2_bits_high by lia. }
  rewrite E. apply Z.mod_pos_bound. lia.
Qed.

Lemma bswap16_value x : 0 <= x < 65536 -> net_bswap16 x = x / 256 + x mod 256 * 256.
Proof.
  intros Hx. unfold net_bswap16. rewrite Z.shiftr_div_pow2 by lia. change (2 ^ 8) with 256.
  assert (0 <= x / 256 < 256) by (split; [apply Z.div_pos|apply Z.div_lt_upper_bound]; lia).
  rewrite lor_shifted by lia. unfold u16. change (2 ^ 16) with (256 * 256). change (2 ^ 8) with 256.
  pose proof (div_mod_split x 256). pose proof (Z.mod_pos_bound x 256).
  symmetry. apply (Z.mod_unique_pos _ _ (x / 256)); lia.
Qed.
Lemma bswap16_range x : 0 <= net_bswap16 x < 65536.
Proof. apply u16_range. Qed.
Lemma bswap16_twice x : 0 <= x < 65536 -> net_bswap16 (net_bswap16 x) = x.
Proof.
  intros Hx. rewrite bswap16_value by apply bswap16_range. rewrite bswap16_value by done.
  pose proof (div_mod_split x 256). pose proof (Z.mod_pos_bound x 256).
  assert (0 <= x / 256 < 256) by (split; [apply Z.div_pos|apply Z.div_lt_upper_bound]; lia).
  rewrite Z.div_add, (Z.div_small (x / 256)), Z_mod_plus_full, (Z.mod_small (x / 256)) by lia. lia.
Qed.

(** The bytes of a word. *)
Definition b0 (x : Z) := x mod 256.
Definition b1 (x : Z) := x / 256 mod 256.
Definition b2 (x : Z) := x / 65536 mod 256.
Definition b3 (x : Z) := x / 16777216 mod 256.

Lemma bytes_of_word x : 0 <= x < 2 ^ 32 -> x = b0 x + 256 * b1 x + 65536 * b2 x + 16777216 * b3 x.
Proof. intros Hx. unfold b0, b1, b2, b3. Z.div_mod_to_equations. lia. Qed.
Lemma bytes_range x : (0 <= b0 x < 256 /\ 0 <= b1 x < 256) /\ 0 <= b2 x < 256 /\ 0 <= b3 x < 256.
Proof. unfold b0, b1, b2, b3. repeat split; apply Z.mod_pos_bound || (apply Z.mod_pos_bound; lia); lia. Qed.
Lemma bytes_unique c0 c1 c2 c3 :
  0 <= c0 < 256 -> 0 <= c1 < 256 -> 0 <= c2 < 256 -> 0 <= c3 < 256 ->
  let x := c0 + 256 * c1 + 65536 * c2 + 16777216 * c3 in b0 x = c0 /\ b1 x = c1 /\ b2 x = c2 /\ b3 x = c3.
Proof. intros H0 H1 H2 H3 x. unfold b0, b1, b2, b3, x. Z.div_mod_to_equations. lia. Qed.

Lemma bswap32_value x : 0 <= x < 2 ^ 32 -> net_bswap32 x = b3 x + 256 * b2 x + 65536 * b1 x + 16777216 * b0 x.
Proof.
  intros Hx. unfold net_bswap32. rewrite !Z.shiftr_div_pow2 by lia. change 0xff with (2 ^ 8 - 1). rewrite !land_low by lia.
  change (2 ^ 8) with 256. change (2 ^ 16) with 65536. change (2 ^ 24) with 16777216. fold (b0 x) (b1 x) (b2 x) (b3 x).
  pose proof (bytes_range x) as [[? ?] [? ?]].
  rewrite (Z.lor_comm _ (b3 x)), lor_shifted by lia. rewrite (Z.lor_comm (Z.shiftl (b1 x) 16)), lor_shifted by lia.
  rewrite Z.lor_comm, lor_shifted by lia. lia.
Qed.
Lemma bswap32_range x : 0 <= x < 2 ^ 32 -> 0 <= net_bswap32 x < 2 ^ 32.
Proof. intros Hx. rewrite bswap32_value by done. pose proof (bytes_range x). lia. Qed.
Lemma bswap32_twice x : 0 <= x < 2 ^ 32 -> net_bswap32 (net_bswap32 x) = x.
Proof.
  intros Hx. rewrite (bswap32_value (net_bswap32 x)) by by apply bswap32_range. rewrite bswap32_value by done.
  pose proof (bytes_range x). destruct (bytes_unique (b3 x) (b2 x) (b1 x) (b0 x)) as (-> & -> & -> & ->); try lia.
  pose proof (bytes_of_word x Hx). lia.
Qed.

(** ** The sum of the words *)

Fixpoint wsum (f : list byte) : Z :=
  match f with
  | a :: b :: f' => bz a + 256 * bz b + wsum f'
  | [a] => bz a
  | [] => 0
  end.

(** Induction two bytes at a time. *)
Lemma pairs_ind (P : list byte -> Prop) : P [] -> (forall a, P [a]) -> (forall a b f, P f -> P (a :: b :: f)) -> forall f, P f.
Proof.
  intros H0 H1 H2 f. enough (P f /\ forall a, P (a :: f)) by tauto.
  induction f as [|b f [IH1 IH2]]; [done|]. split; [apply IH2|]. intros a. by apply H2.
Qed.

Lemma wsum_range f : 0 <= wsum f <= 65535 * zlen f.
Proof.
  induction f as [|a|a b f IH] using pairs_ind; cbn [wsum length]; [lia| |].
  - pose proof (bz_range a). lia.
  - pose proof (bz_range a). pose proof (bz_range b). lia.
Qed.
Lemma wsum_app f g : Nat.even (length f) = true -> wsum (f ++ g) = wsum f + wsum g.
Proof.
  induction f as [|a|a b f IH] using pairs_ind; [done|done|]. intros He. cbn [length Nat.even] in He. cbn [wsum app].
  rewrite IH by done. lia.
Qed.
Lemma wsum_le16 x : 0 <= x < 65536 -> wsum (le16 x) = x.
Proof.
  intros Hx. unfold le16. cbn [wsum]. rewrite !bz_zb_u8. unfold u8. change (2 ^ 8) with 256.
  Z.div_mod_to_equations. lia.
Qed.

Lemma word_sum_wsum f s : 0 <= s < 2 ^ 32 -> word_sum f s = u32 (s + wsum f).
Proof.
  revert s. induction f as [|a|a b f IH] using pairs_ind; intros s Hs; cbn [word_sum wsum].
  - by rewrite Z.add_0_r, u32_small.
  - done.
  - rewrite IH by apply u32_range. unfold u32. rewrite Z.add_mod_idemp_l by lia. f_equal. lia.
Qed.

(** One fold keeps the sum modulo 65535. *)
Lemma fold_step s : 0 <= s -> let s' := Z.land s 0xffff + Z.shiftr s 16 in s' mod 65535 = s mod 65535 /\ (0 < s -> 0 < s') /\ 0 <= s'.
Proof.
  intros Hs s'. unfold s'. rewrite Z.shiftr_div_pow2 by lia. change 0xffff with (2 ^ 16 - 1). rewrite land_low by lia.
  change (2 ^ 16) with 65536. pose proof (div_mod_split s 65536). pose proof (Z.mod_pos_bound s 65536).
  assert (0 <= s / 65536) by (apply Z.div_pos; lia). split_and!; [|lia|lia].
  rewrite <- (Z_mod_plus_full (s mod 65536 + s / 65536) (s / 65536)). f_equal. lia.
Qed.
Lemma fold_step_le s k : 0 <= s < 65536 * k -> Z.land s 0xffff + Z.shiftr s 16 <= 65534 + k.
Proof.
  intros Hs. rewrite Z.shiftr_div_pow2 by lia. change 0xffff with (2 ^ 16 - 1). rewrite land_low by lia.
  change (2 ^ 16) with 65536. Z.div_mod_to_equations. lia.
Qed.

Lemma fold_sum_spec fuel s : 0 <= s ->
  fold_sum fuel s mod 65535 = s mod 65535 /\ (0 < s -> 0 < fold_sum fuel s) /\ 0 <= fold_sum fuel s.
Proof.
  revert s. induction fuel as [|fuel IH]; intros s Hs; cbn [fold_sum]; [done|].
  case_match; [done|]. destruct (fold_step s Hs) as (E1 & E2 & E3). destruct (IH _ E3) as (F1 & F2 & F3).
  split_and!; [by rewrite F1|tauto|done].
Qed.
Lemma fold_sum_fits s : 0 <= s < 2 ^ 32 -> fold_sum 3 s <= 65535.
Proof.
  assert (Hdone : forall t, (Z.shiftr t 16 =? 0) = true -> t <= 65535).
  { intros t Ht%Z.eqb_eq. rewrite Z.shiftr_div_pow2 in Ht by lia. change (2 ^ 16) with 65536 in Ht. Z.div_mod_to_equations. lia. }
  intros Hs. cbn [fold_sum]. case_match eqn:E0; [by apply Hdone|].
  pose proof (fold_step_le s 65536 ltac:(lia)) as H1. destruct (fold_step s ltac:(lia)) as (_ & _ & P1).
  set (t := Z.land s 0xffff + Z.shiftr s 16) in *. case_match eqn:E1; [by apply Hdone|].
  pose proof (fold_step_le t 2 ltac:(lia)) as H2. destruct (fold_step t P1) as (_ & _ & P2).
  assert (65536 <= t). { rewrite Z.shiftr_div_pow2 in E1 by lia. change (2 ^ 16) with 65536 in E1. apply Z.eqb_neq in E1. Z.div_mod_to_equations. lia. }
  set (v := Z.land t 0xffff + Z.shiftr t 16) in *. case_match eqn:E2; [by apply Hdone|].
  pose proof (fold_step_le v 2 ltac:(lia)). destruct (decide (v = 65536)) as [->|]; [vm_compute; discriminate|].
  apply Z.eqb_neq in E2. rewrite Z.shiftr_div_pow2 in E2 by lia. change (2 ^ 16) with 65536 in E2. Z.div_mod_to_equations. lia.
Qed.

(** ** The checksum *)

(** The checksum of a packet of less than 2^16 bytes, from the sum of its words. *)
Definition complement (s : Z) : Z := 65535 - fold_sum 3 s.

Lemma checksum_value f : zlen f < 65536 -> net_ip_checksum f = complement (wsum f) /\ 0 <= complement (wsum f) <= 65535.
Proof.
  intros Hf. pose proof (wsum_range f) as Hw. assert (Hs : 0 <= wsum f < 2 ^ 32) by lia.
  pose proof (fold_sum_fits _ Hs). destruct (fold_sum_spec 3 (wsum f)) as (_ & _ & ?); [lia|].
  unfold net_ip_checksum, complement. rewrite word_sum_wsum by lia. rewrite Z.add_0_l, u32_small by lia.
  rewrite Z.mod_small by lia. lia.
Qed.

Lemma checksum_range f : 0 <= net_ip_checksum f <= 65535.
Proof. unfold net_ip_checksum. pose proof (Z.mod_pos_bound (fold_sum 3 (word_sum f 0)) 65536). lia. Qed.

(** A packet is valid exactly when its words sum up to a positive multiple of 65535. *)
Lemma checksum_zero f : zlen f < 65536 -> (net_ip_checksum f = 0 <-> 0 < wsum f /\ wsum f mod 65535 = 0).
Proof.
  intros Hf. destruct (checksum_value f Hf) as [-> Hr]. pose proof (wsum_range f) as Hw.
  unfold complement in *. destruct (fold_sum_spec 3 (wsum f)) as (E & Hp & H0); [lia|]. rewrite <- E.
  pose proof (fold_sum_fits (wsum f) ltac:(lia)). split.
  - intros Hz. assert (Ef : fold_sum 3 (wsum f) = 65535) by lia. rewrite Ef. split; [|done].
    destruct (decide (wsum f = 0)) as [Ez|]; [|lia]. rewrite Ez in Ef. done.
  - intros [Hpos Hm]. specialize (Hp Hpos). apply Z.mod_divide in Hm as [q Hq]; [|lia]. lia.
Qed.

(** Filling the checksum field makes the packet valid. *)
Lemma checksum_filled f g : Nat.even (length f) = true -> zlen f + zlen g < 65000 ->
  net_ip_checksum (f ++ le16 (net_ip_checksum (f ++ le16 0 ++ g)) ++ g) = 0.
Proof.
  intros He Hl. set (x := net_ip_checksum (f ++ le16 0 ++ g)).
  assert (Hx : x = complement (wsum f + wsum g) /\ 0 <= x <= 65535).
  { unfold x. destruct (checksum_value (f ++ le16 0 ++ g)) as [-> Hr].
    - rewrite !length_app. cbn. lia.
    - rewrite wsum_app, wsum_app, wsum_le16 in * by (done || lia). rewrite Z.add_0_l in *. done. }
  destruct Hx as [Ex Hx]. pose proof (wsum_range f). pose proof (wsum_range g).
  apply checksum_zero; [rewrite !length_app; cbn; lia|]. rewrite wsum_app, wsum_app, wsum_le16 by (done || lia).
  unfold complement in Ex. destruct (fold_sum_spec 3 (wsum f + wsum g)) as (E & Hp & Hnn); [lia|].
  pose proof (fold_sum_fits (wsum f + wsum g) ltac:(lia)).
  split.
  - destruct (decide (wsum f + wsum g = 0)) as [Ez|]; [|lia]. rewrite Ez in Ex. change (fold_sum 3 0) with 0 in Ex. lia.
  - replace (wsum f + (x + wsum g)) with ((wsum f + wsum g - fold_sum 3 (wsum f + wsum g)) + 1 * 65535) by lia.
    rewrite Z_mod_plus_full, Zminus_mod, E, Z.sub_diag. done.
Qed.

(** ** Computations that only look *)

Definition answers_with {A} (m : T A) (a : A) : Prop := forall s, m s = Done (a, s).

Lemma answer_ret {A} (a : A) : answers_with (ret a) a.
Proof. done. Qed.
Lemma answer_bind {A B} (m : T A) (k : A -> T B) a b : answers_with m a -> answers_with (k a) b -> answers_with (bind m k) b.
Proof. intros Hm Hk s. unfold bind. by rewrite Hm. Qed.
Lemma answer_bind_ex {A B} (m : T A) (k : A -> T B) a : answers_with m a -> (exists b, answers_with (k a) b) -> exists b, answers_with (bind m k) b.
Proof. intros Hm [b Hk]. exists b. by eapply answer_bind. Qed.
Lemma answer_rd {A} (g : option A) v : g = Some v -> answers_with (deref (fun _ => g)) v.
Proof. intros E s. unfold deref. by rewrite E. Qed.
Lemma wp_answer {A} (m : T A) a s Q : answers_with m a -> Q a s -> wp m s Q.
Proof. intros Hm HQ. unfold wp. by rewrite Hm. Qed.
Lemma answer_inj {A} (m : T A) a b : answers_with m a -> answers_with m b -> a = b.
Proof.
  intros Ha Hb. set (s := mk_net 0 [] [] (mk_arp [] [] 0 0) 0 0 0 0 0 0 0 0 [] [] 0 0 (mk_routes None [])).
  specialize (Ha s). rewrite Hb in Ha. by injection Ha.
Qed.

Lemma byte_at_total f off : 0 <= off < zlen f -> exists v, byte_at f off = Some v /\ 0 <= v < 256.
Proof.
  intros Ho. destruct (aget_is_Some f off Ho) as [b Hb]. exists (bz b). split; [|apply bz_range]. unfold byte_at. by rewrite Hb.
Qed.
Lemma half_at_total f off : 0 <= off -> off + 1 < zlen f -> exists v, half_at f off = Some v /\ 0 <= v < 65536.
Proof.
  intros Ho Hl. destruct (byte_at_total f off) as (a & Ha & ?); [lia|]. destruct (byte_at_total f (off + 1)) as (b & Hb & ?); [lia|].
  exists (a + 256 * b). unfold half_at. rewrite Ha, Hb. split; [done|]. lia.
Qed.

Lemma rd8_total f off : 0 <= off < zlen f -> exists v, answers_with (rd8 f off) v /\ 0 <= v < 256.
Proof. intros Ho. destruct (byte_at_total f off Ho) as (v & E & Hv). exists v. split; [by apply answer_rd|done]. Qed.
Lemma rd16_total f off : 0 <= off -> off + 1 < zlen f -> exists v, answers_with (rd16 f off) v /\ 0 <= v < 65536.
Proof. intros Ho Hl. destruct (half_at_total f off Ho Hl) as (v & E & Hv). exists v. split; [by apply answer_rd|done]. Qed.
Lemma rd32_total f off : 0 <= off -> off + 3 < zlen f -> exists v, answers_with (rd32 f off) v /\ 0 <= v < 2 ^ 32.
Proof.
  intros Ho Hl. destruct (half_at_total f off) as (a & Ha & ?); [lia..|]. destruct (half_at_total f (off + 2)) as (b & Hb & ?); [lia..|].
  exists (a + 65536 * b). split; [|lia]. apply answer_rd. unfold word_at. by rewrite Ha, Hb.
Qed.
Lemma rdn_total f off k : 0 <= off -> off + Z.of_nat k <= zlen f -> exists v, answers_with (rdn f off k) v /\ length v = k.
Proof.
  intros Ho Hl. unfold rdn, octets_at. destruct (mapM _ _) as [v|] eqn:E.
  - exists v. split; [by apply answer_rd|]. apply length_mapM in E. rewrite <- E, length_seqZ. lia.
  - exfalso. apply mapM_None_1 in E. apply Exists_exists in E as (i & Hi%list_elem_of_In%elem_of_seqZ & En).
    destruct (byte_at_total f (off + i)) as (b & Hb & _); [lia|]. congruence.
Qed.
Lemma slice_total f off n : 0 <= off -> 0 <= n -> off + n <= zlen f ->
  exists v, answers_with (slice f off n) v /\ v = take (Z.to_nat n) (drop (Z.to_nat off) f) /\ zlen v = n.
Proof.
  intros Ho Hn Hl. eexists. split; [|split; [done|]].
  - intros s. unfold slice. rewrite (proj2 (Z.leb_le 0 off)), (proj2 (Z.leb_le 0 n)), (proj2 (Z.leb_le (off + n) _)) by done. done.
  - rewrite length_take, length_drop. lia.
Qed.

(** Walks through a computation that only looks: the next read is in range. *)
Ltac look lem := let v := fresh "v" in let Hv := fresh "Hv" in let Hr := fresh "Hr" in
  edestruct lem as (v & Hv & Hr); [..|apply (answer_bind_ex _ _ _ Hv); clear Hv]; [try lia..|].

Lemma land15_range v : 0 <= Z.land v 15 * 4 <= 60.
Proof. change 15 with (2 ^ 4 - 1). rewrite land_low by lia. pose proof (Z.mod_pos_bound v (2 ^ 4)). lia. Qed.

(** Reading a datagram never leaves the frame. *)
Lemma udp_parse_total f port cap : exists r, answers_with (net_udp_parse_frame f port cap) r.
Proof.
  unfold net_udp_parse_frame, ETH_HLEN. destruct (Z.ltb_spec (zlen f) (14 + 20 + 8)); [by eexists|].
  look (rd16_total f 12). case_match; [by eexists|]. look (rd8_total f 14). look (rd8_total f 23).
  pose proof (land15_range v0) as Hihl. set (ihl := Z.land v0 15 * 4) in *.
  case_match eqn:E1; [by eexists|]. apply orb_false_iff in E1 as [[[_ E1]%orb_false_iff _]%orb_false_iff E2].
  apply Z.ltb_ge in E1, E2. look (rd16_total f 16). case_match eqn:E3; [by eexists|].
  apply orb_false_iff in E3 as [E3 E4]. apply Z.ltb_ge in E3, E4. rewrite u16_small in E3 by lia.
  look (rd16_total f (14 + ihl + 4)). look (rd16_total f (14 + ihl + 2)). case_match eqn:E5; [by eexists|].
  apply orb_false_iff in E5 as [[[E5 E6]%orb_false_iff _]%orb_false_iff _]. apply Z.ltb_ge in E5, E6.
  pose proof (bswap16_range v2). pose proof (bswap16_range v3). rewrite u16_small in E6 by lia.
  rewrite (u16_small (net_bswap16 v3 - 8)) by lia. look (slice_total f (14 + ihl + 8) (net_bswap16 v3 - 8)).
  look (rdn_total f 26 4). look (rd16_total f (14 + ihl)). by eexists.
Qed.

(** ** The state of the network code *)

(** The card writes into the ring at least the bytes whose number it announces. *)
Definition entry_ok (x : Z * option rx_entry) : Prop :=
  match x.2 with Some e => rx_good e ETH_MAX = true -> rx_len e - 4 <= zlen (rx_bytes e) | None => True end.

Record net_ok (n : net_state) : Prop := mk_net_ok {
  no_mac : zlen (n_mac n) = 6;
  no_ip : zlen (n_ip n) = 4;
  no_arp : truth (a_valid (n_arp n)) = true -> zlen (a_mac (n_arp n)) = 6;
  no_hz : 0 < n_hz n < 2 ^ 32;
  no_ticks : 0 <= n_ticks n < 2 ^ 32;
  no_wire : Forall entry_ok (n_wire n);
  no_port : 0 <= n_next_port n < 65536 }.

(** What an operation may do: move the clock, consume the wire, learn an address, send. *)
Record onward (n n' : net_state) : Prop := mk_onward {
  on_initialized : n_initialized n' = n_initialized n;
  on_mac : n_mac n' = n_mac n;
  on_ip : n_ip n' = n_ip n;
  on_hz : n_hz n' = n_hz n;
  on_sent : exists l, n_sent n' = l ++ n_sent n;
  on_wire : exists w, n_wire n = w ++ n_wire n';
  on_ok : net_ok n -> net_ok n' }.

#[export] Instance onward_preorder : PreOrder onward.
Proof.
  split.
  - intros n. constructor; try done; by exists [].
  - intros n1 n2 n3 [a1 a2 a3 a4 [l1 a5] [w1 a6] a7] [d1 d2 d3 d4 [l2 d5] [w2 d6] d7].
    constructor; try congruence.
    + exists (l2 ++ l1). by rewrite d5, a5, app_assoc.
    + exists (w1 ++ w2). by rewrite a6, d6, app_assoc.
    + tauto.
Qed.

(** Nothing of the wire is consumed and no time passes. *)
Definition at_once (n n' : net_state) : Prop := onward n n' /\ n_wire n' = n_wire n /\ n_ticks n' = n_ticks n.

#[export] Instance at_once_preorder : PreOrder at_once.
Proof.
  split; [done|]. intros n1 n2 n3 (H1 & E1 & F1) (H2 & E2 & F2). split; [by transitivity n2|]. split; congruence.
Qed.

(** A frame with its padding. *)
Definition padded (buf : list byte) : list byte := buf ++ replicate (Z.to_nat (ETH_MIN - zlen buf)) nul.

Lemma net_send_spec buf n : wp (net_send buf) n (fun r n' => at_once n n' /\ n_arp n' = n_arp n /\
  (r = 0 /\ n_initialized n <> 0 /\ n_sent n' = padded buf :: n_sent n \/
   r = -1 /\ n' = n /\ (n_initialized n = 0 \/ RTL_TX_BUF_SIZE < zlen buf))).
Proof.
  unfold net_send. wp_step. wp_step. wp_step.
  - apply wp_ret. split; [done|]. split; [done|]. right. split_and!; [done..|]. apply orb_true_iff in E as [E|E]; [left; by apply Z.eqb_eq|right; by apply Z.ltb_lt].
  - apply orb_false_iff in E as [E%Z.eqb_neq _]. wp_step. wp_step. apply wp_ret. split; [|split; [done|left; split_and!; [done..|]]].
    + split; [|done]. constructor; try done; [by eexists [_]|by exists []|]. intros [h1 h2 h3 h4 h5 h6 h7]. by constructor.
    + cbn. unfold padded, ETH_MIN. do 3 f_equal. destruct (Z.ltb_spec (zlen buf) 60); lia.
Qed.

Lemma arp_frame_send dst src op sha spa tha tpa n : wp (net_send (arp_frame dst src op sha spa tha tpa)) n (fun _ n' => at_once n n' /\ n_arp n' = n_arp n).
Proof. eapply wp_mono; [apply net_send_spec|]. by intros r n' (H1 & H2 & _). Qed.

Lemma arp_request_spec target n : wp (net_arp_request target) n (fun _ n' => at_once n n' /\ n_arp n' = n_arp n).
Proof. unfold net_arp_request. do 3 wp_step. eapply wp_mono; [apply arp_frame_send|]. intros r n' H. by apply wp_ret. Qed.

(** The cache as a frame leaves it: the sender of a request or reply for this host. *)
Lemma arp_learn_ok n spa sha : length sha = 6%nat -> at_once n (n <| n_arp := mk_arp spa sha (n_ticks n) 1 |>).
Proof.
  intros Hs. split; [|done]. constructor; try done; [by exists []|by exists []|]. intros [h1 h2 h3 h4 h5 h6 h7]. constructor; try done.
  intros _. cbn. lia.
Qed.

Lemma arp_observe_spec f n : wp (net_arp_observe f) n (fun _ n' => at_once n n').
Proof.
  unfold net_arp_observe, ETH_HLEN, ARP_LEN. destruct (Z.ltb_spec (zlen f) (14 + 28)); [by apply wp_ret|].
  destruct (rd16_total f 12) as (v1 & A1 & _); [lia..|]. destruct (rd16_total f 14) as (v2 & A2 & _); [lia..|].
  destruct (rd16_total f 16) as (v3 & A3 & _); [lia..|]. destruct (rd8_total f 18) as (v4 & A4 & _); [lia..|].
  destruct (rd8_total f 19) as (v5 & A5 & _); [lia..|]. destruct (rd16_total f 20) as (v6 & A6 & _); [lia..|].
  destruct (rdn_total f 22 6) as (sha & A7 & Hsha); [lia..|]. destruct (rdn_total f 28 4) as (spa & A8 & _); [lia..|].
  destruct (rdn_total f 32 6) as (tha & A9 & _); [lia..|]. destruct (rdn_total f 38 4) as (tpa & A10 & _); [lia..|].
  do 5 (apply wp_bind; eapply wp_answer; [eassumption|]; cbv beta). wp_step; [by apply wp_ret|].
  do 5 (apply wp_bind; eapply wp_answer; [eassumption|]; cbv beta). wp_step. wp_step.
  wp_step; [by apply wp_ret|]. wp_step; [by apply wp_ret|]. wp_step; [by apply wp_ret|]. wp_step. wp_step.
  pose proof (arp_learn_ok n spa sha Hsha) as Hl. wp_step; [|by apply wp_ret].
  wp_step. eapply wp_mono; [apply arp_frame_send|]. intros r n' [H1 _]. apply wp_ret. by etransitivity.
Qed.

(** ** A poll *)

(** The frame of an entry. *)
Definition frame_of (e : rx_entry) : list byte := take (Z.to_nat (rx_len e - 4)) (rx_bytes e).

(** The wire before a poll that finds [f]. *)
Definition polled (n n' : net_state) (f : list byte) : Prop :=
  (n_initialized n = 0 \/ n_wire n = []) /\ f = [] /\ n' = n \/
  n_initialized n <> 0 /\ exists d o, n_wire n = (d, o) :: n_wire n' /\
    (f = [] \/ exists e, o = Some e /\ rx_good e ETH_MAX = true /\ f = frame_of e).

Lemma net_ok_step n n' : net_ok n -> n_mac n' = n_mac n -> n_ip n' = n_ip n -> n_arp n' = n_arp n -> n_hz n' = n_hz n ->
  n_next_port n' = n_next_port n -> 0 <= n_ticks n' < 2 ^ 32 -> Forall entry_ok (n_wire n') -> net_ok n'.
Proof. intros [h1 h2 h3 h4 h5 h6 h7] E1 E2 E3 E4 Ht Hw. constructor; congruence || (by rewrite ?E3, ?E4). Qed.

(** The pass takes an entry, or nothing can be taken. *)
Lemma net_recv_spec n : net_ok n -> wp (net_recv ETH_MAX) n (fun f n' => onward n n' /\ polled n n' f).
Proof.
  intros Hn. unfold net_recv. wp_step. wp_step. destruct (Z.eqb_spec (n_initialized n) 0) as [E0|E0].
  { apply wp_ret. split; [done|]. left. tauto. }
  wp_step. wp_step. destruct (n_wire n) as [|[d o] w] eqn:Ew.
  { apply wp_ret. split; [done|]. left. tauto. }
  wp_step. wp_step. unfold elapse. wp_step. wp_step.
  set (n1 := (n <| n_wire := w |>) <| n_ticks := _ |>).
  pose proof (no_wire n Hn) as Hw. rewrite Ew in Hw. apply list.Forall_cons in Hw as [He Hw].
  assert (Hn1 : net_ok n1) by (apply (net_ok_step n); try done; apply u32_range).
  assert (H1 : onward n n1) by (constructor; try done; [by exists []|by exists [(d, o)]]).
  destruct o as [e|]; [|apply wp_ret; split; [done|right; split; [done|]; exists d, None; rewrite Ew; tauto]].
  destruct (rx_good e ETH_MAX) eqn:Eg; cbn [negb].
  2: { wp_step. unfold rx_advance. wp_step. apply wp_ret. split.
       - etransitivity; [exact H1|]. constructor; try done; [by exists []..|]. intros [h1 h2 h3 h4 h5 h6 h7]. by constructor.
       - right. split; [done|]. exists d, (Some e). rewrite Ew. tauto. }
  specialize (He Eg). cbn in He. unfold rx_good in Eg. rewrite !andb_true_iff, !Z.leb_le in Eg. destruct Eg as [[[Es Eg1] Eg2] Eg3].
  destruct (slice_total (rx_bytes e) 0 (rx_len e - 4)) as (f & Af & Ef & Hf); [lia..|].
  wp_step. eapply wp_answer; [exact Af|]. cbv beta. wp_step. eapply wp_mono; [apply arp_observe_spec|].
  intros _ n2 (H2 & Ew2 & _). cbv beta. wp_step. unfold rx_advance. wp_step. wp_step. wp_step. apply wp_ret. split.
  - etransitivity; [exact H1|]. etransitivity; [exact H2|]. constructor; try done; [by exists []..|]. intros [h1 h2 h3 h4 h5 h6 h7]. by constructor.
  - right. split; [done|]. exists d, (Some e). rewrite Ew. split; [f_equal; symmetry; exact Ew2|]. right. exists e.
    split_and!; [done| |by rewrite Ef].
    unfold rx_good. rewrite !andb_true_iff, !Z.leb_le. tauto.
Qed.

(** ** Waiting *)

(** A pass takes an entry of the wire, or there is none to take and at least a tick passes. *)
Definition progress (n n' : net_state) : Prop :=
  n_initialized n <> 0 /\ (length (n_wire n') < length (n_wire n))%nat \/
  (n_initialized n = 0 \/ n_wire n = []) /\ n_wire n' = n_wire n /\ exists w, 1 <= w <= 4294967 /\ n_ticks n' = u32 (n_ticks n + w).

Lemma pit_sleep_spec ms n : net_ok n -> wp (pit_sleep ms) n (fun _ n' => onward n n' /\ n_wire n' = n_wire n /\
  exists w, 1 <= w <= 4294967 /\ n_ticks n' = u32 (n_ticks n + w)).
Proof.
  intros Hn. unfold pit_sleep. wp_step. wp_step. destruct Hn as [h1 h2 h3 h4 h5 h6 h7].
  destruct (Z.eqb_spec (n_hz n) 0) as [|_]; [lia|]. unfold elapse. wp_step. pose proof (u32_range (ms * n_hz n)).
  split; [|split; [done|]].
  - constructor; try done; [by exists []..|]. intros _. constructor; try done. apply u32_range.
  - eexists. split; [|done]. assert (0 <= u32 (ms * n_hz n) / 1000 < 4294968) by (split; [apply Z.div_pos|apply Z.div_lt_upper_bound]; lia).
    destruct (Z.eqb_spec (u32 (ms * n_hz n) / 1000) 0); lia.
Qed.

(** A poll that found something, and one that is followed by a sleep. *)
Lemma polled_taken n n1 n2 f : polled n n1 f -> f <> [] -> n_wire n2 = n_wire n1 -> progress n n2.
Proof. intros [(_ & -> & _)|(Hi & d & o & Ew & _)] Hf E; [done|]. left. split; [done|]. rewrite E, Ew. simpl. lia. Qed.
Lemma polled_sleep n n1 n2 f : polled n n1 f -> n_wire n2 = n_wire n1 ->
  (exists w, 1 <= w <= 4294967 /\ n_ticks n2 = u32 (n_ticks n1 + w)) -> progress n n2.
Proof. intros [(H0 & _ & ->)|(Hi & d & o & Ew & _)] E Ht; [by right|]. left. split; [done|]. rewrite E, Ew. simpl. lia. Qed.

(** The limits the loops are given leave room for a late tick before the counter wraps. *)
Definition limit_ok (limit : Z) : Prop := 0 <= limit <= 2 ^ 32 - 2 ^ 23.

Section Poll.
Context {A R : Type} (start limit : Z) (body : A -> T (A + R)) (I : A -> net_state -> Prop) (P : R -> net_state -> Prop).
Context (Hlimit : limit_ok limit).
Context (Hbody : forall a n, net_ok n -> I a n -> wp (body a) n (fun r n' => onward n n' /\
  match r with inl a' => progress n n' /\ I a' n' | inr x => P x n' end)).

Definition idle (n : net_state) : bool := (n_initialized n =? 0) || bool_decide (n_wire n = []).
Definition elapsed (n : net_state) : Z := u32 (n_ticks n - start).
(** The passes left. *)
Definition budget (n : net_state) : Z :=
  if idle n then Z.max 0 (limit - elapsed n) + 1 else zlen (n_wire n) + limit + 1.

Lemma idle_spec n : idle n = true <-> n_initialized n = 0 \/ n_wire n = [].
Proof. unfold idle. by rewrite orb_true_iff, Z.eqb_eq, bool_decide_eq_true. Qed.

Lemma budget_decreases n n' : elapsed n < limit -> n_initialized n' = n_initialized n -> progress n n' -> 1 <= budget n' < budget n.
Proof.
  intros He Hi [[H0 Hl]|(H0 & Ew & w & Hw & Et)]; unfold budget, limit_ok in *.
  - destruct (idle n) eqn:E.
    { apply idle_spec in E as [E|E]; [done|]. rewrite E in Hl. simpl in Hl. lia. }
    pose proof (u32_range (n_ticks n' - start)) as He'. fold (elapsed n') in He'. destruct (idle n'); lia.
  - rewrite (proj2 (idle_spec n) H0), (proj2 (idle_spec n')) by (by rewrite Hi, Ew).
    assert (E : elapsed n' = elapsed n + w); [|lia]. unfold elapsed in *. rewrite Et.
    pose proof (u32_range (n_ticks n - start)). unfold u32 in *. rewrite Zminus_mod_idemp_l.
    replace (n_ticks n + w - start) with (n_ticks n - start + w) by lia. rewrite <- Zplus_mod_idemp_l, Z.mod_small; lia.
Qed.

Lemma wait_loop_spec fuel a n : net_ok n -> I a n -> budget n <= Z.of_nat fuel ->
  wp (wait_loop fuel start limit body a) n (fun r n' => onward n n' /\ match r with inl a' => I a' n' | inr x => P x n' end).
Proof.
  revert a n. induction fuel as [|fuel IH]; intros a n Hn HI Hf; cbn [wait_loop].
  { unfold budget, limit_ok in *. destruct (idle n); lia. }
  unfold since, pit_get_ticks. repeat wp_step; [|by split].
  eapply wp_mono; [by apply Hbody|]. intros [a'|x] n' [Ho Hr]; cbv beta match; [|by apply wp_ret].
  destruct Hr as [Hp HI']. apply Z.ltb_lt in E. pose proof (budget_decreases _ _ E (on_initialized _ _ Ho) Hp).
  eapply wp_mono; [apply IH; [by apply Ho|done|lia]|]. intros r n'' [Ho' Hr']. split; [by etransitivity|done].
Qed.

Lemma poll_until_spec a n : net_ok n -> I a n ->
  wp (poll_until start limit body a) n (fun r n' => onward n n' /\ match r with inl a' => I a' n' | inr x => P x n' end).
Proof.
  intros Hn HI. unfold poll_until. wp_step. wp_step. apply wait_loop_spec; [done|done|].
  pose proof (u32_range (n_ticks n - start)). unfold budget, elapsed, limit_ok in *. destruct (idle n); lia.
Qed.
End Poll.
