(* ===== verification/Tcp.v ===== *)
(** * The transport protocol (src/src/net_tcp.c)

    A connection is a value: an operation takes it and returns it as it leaves it.  The
    functions poll the card through [poll_until]; the segments they look at are read from
    the frame by [parse_segment], which stands for the pointers [tcp_validate_frame] hands
    out and for the reads through them.  [net_stack] is the implementation of the interface
    the socket registry uses. *)

From S2P Require Import Prelude Sched Pipe Kernel Socket Net.

Definition IP_PROTO_TCP : Z := 6.
Definition TCP_SYN : Z := 0x02.
Definition TCP_ACK : Z := 0x10.
Definition TCP_FIN : Z := 0x01.
Definition TCP_PSH : Z := 0x08.
Definition TCP_SYNACK : Z := Z.lor TCP_SYN TCP_ACK.
Definition ATM_TCP_MAX_PAYLOAD : Z := 512.
Definition ATM_TCP_MSS : Z := 512.
Definition ATM_TCP_OOO_MAX : Z := 2.
(** [sizeof(tcp_hdr_t)] *)
Definition TCP_HLEN : Z := 20.

(** ** Segments *)

(** The segment [tcp] of [len] bytes, with the addresses of the header before it. *)
Definition tcp_checksum (src dst seg : list byte) : Z :=
  if TCP_HLEN + ATM_TCP_MAX_PAYLOAD <? zlen seg then 0
  else net_ip_checksum (src ++ dst ++ [zb 0; zb IP_PROTO_TCP] ++ be16 (zlen seg) ++ seg).

(** The header length of the IP packet and its total length; [None] is -1. *)
Definition tcp_validate_frame (f : list byte) : T (option (Z * Z)) :=
  let n := zlen f in
  if n <? ETH_HLEN + 20 + TCP_HLEN then ret None
  else
    let* ethertype := rd16 f 12 in
    let* ver_ihl := rd8 f 14 in
    let* protocol := rd8 f 23 in
    let ihl := Z.land ver_ihl 15 * 4 in
    if negb (net_bswap16 ethertype =? 0x0800) || negb (Z.shiftr ver_ihl 4 =? 4) || negb (protocol =? IP_PROTO_TCP) ||
       (ihl <? 20) || (60 <? ihl) || (n <? ETH_HLEN + ihl + TCP_HLEN) then ret None
    else
      let* header := slice f ETH_HLEN ihl in
      if negb (net_ip_checksum header =? 0) then ret None
      else
        let* total := rd16 f 16 in
        let ip_len := net_bswap16 total in
        if (ip_len <? ihl + TCP_HLEN) || (n - ETH_HLEN <? ip_len) then ret None
        else
          let* data_off := rd8 f (ETH_HLEN + ihl + 12) in
          let thl := Z.shiftr data_off 4 * 4 in
          if (thl <? TCP_HLEN) || (60 <? thl) || (ip_len <? ihl + thl) then ret None
          else
            let* src := slice f 26 4 in
            let* dst := slice f 30 4 in
            let* seg := slice f (ETH_HLEN + ihl) (ip_len - ihl) in
            if negb (tcp_checksum src dst seg =? 0) then ret None else ret (Some (ihl, ip_len)).

(** What the operations read of a valid frame. *)
Record segment := mk_seg {
  g_src_ip : list Z; g_src_port : Z; g_dst_port : Z; g_seq : Z; g_ack : Z; g_flags : Z; g_window : Z; g_data : list byte }.

Definition read_segment (f : list byte) (ihl ip_len : Z) : T segment :=
  let t := ETH_HLEN + ihl in
  let* src_ip := rdn f 26 4 in
  let* src_port := rd16 f t in
  let* dst_port := rd16 f (t + 2) in
  let* seq := rd32 f (t + 4) in
  let* ack := rd32 f (t + 8) in
  let* data_off := rd8 f (t + 12) in
  let* flags := rd8 f (t + 13) in
  let* window := rd16 f (t + 14) in
  let thl := Z.shiftr data_off 4 * 4 in
  let* data := slice f (t + thl) (ip_len - ihl - thl) in
  ret (mk_seg src_ip (net_bswap16 src_port) (net_bswap16 dst_port) (net_bswap32 seq) (net_bswap32 ack) flags (net_bswap16 window) data).

Definition parse_segment (f : list byte) : T (option segment) :=
  let* v := tcp_validate_frame f in
  match v with
  | None => ret None
  | Some (ihl, ip_len) => let* g := read_segment f ihl ip_len in ret (Some g)
  end.

(** The head of every waiting loop: a poll, the sleep when nothing useful came, the checks. *)
Definition next_segment : T (option segment) :=
  let* f := net_recv ETH_MAX in
  if zlen f <? ETH_HLEN + 20 + TCP_HLEN then do* pit_sleep 1 in ret None
  else parse_segment f.

(** ** Congestion and the out-of-order buffer *)

Definition tcp_window_allows (c : atm_tcp_conn) (n : Z) : bool :=
  let lim := if c_peer_window c <? c_cwnd c then c_peer_window c else c_cwnd c in
  negb (n =? 0) && (n <=? ATM_TCP_MAX_PAYLOAD) && negb (lim =? 0) && (n <=? lim).

Definition tcp_congestion_init (c : atm_tcp_conn) : atm_tcp_conn := c <| c_cwnd := ATM_TCP_MSS |> <| c_ssthresh := ATM_TCP_MSS * 4 |>.
Definition tcp_congestion_ack (c : atm_tcp_conn) (n : Z) : atm_tcp_conn :=
  if c_cwnd c <? c_ssthresh c then
    let v := u32 (c_cwnd c + n) in c <| c_cwnd := (if ATM_TCP_MSS * 4 <? v then ATM_TCP_MSS * 4 else u16 v) |>
  else c.
Definition tcp_congestion_loss (c : atm_tcp_conn) : atm_tcp_conn :=
  c <| c_ssthresh := (if ATM_TCP_MSS <? c_cwnd c then u16 (c_cwnd c / 2) else ATM_TCP_MSS) |> <| c_cwnd := ATM_TCP_MSS |>.

Definition ooo_ready (c : atm_tcp_conn) (cap i : Z) : bool :=
  match aget (c_ooo c) i with Some o => truth (o_used o) && (o_seq o =? c_ack c) && (o_len o <=? cap) | None => false end.

(** The bytes handed out, and the connection: the result 0 is no bytes. *)
Definition tcp_ooo_take (c : atm_tcp_conn) (cap : Z) : T (list byte * atm_tcp_conn) :=
  match first_idx (ooo_ready c cap) 0 ATM_TCP_OOO_MAX with
  | None => ret ([], c)
  | Some i =>
    let* o := deref (fun _ => aget (c_ooo c) i) in
    let* out := slice (o_data o) 0 (o_len o) in
    ret (out, c <| c_ack := u32 (c_ack c + o_len o) |> <| c_ooo := aset (c_ooo c) i (mk_ooo (o_seq o) (o_len o) 0 (o_data o)) |>)
  end.

Definition ooo_has (c : atm_tcp_conn) (seq i : Z) : bool :=
  match aget (c_ooo c) i with Some o => truth (o_used o) && (o_seq o =? seq) | None => false end.
Definition ooo_free (c : atm_tcp_conn) (i : Z) : bool :=
  match aget (c_ooo c) i with Some o => o_used o =? 0 | None => false end.

Definition tcp_ooo_store (c : atm_tcp_conn) (seq : Z) (data : list byte) : atm_tcp_conn :=
  if (zlen data =? 0) || (ATM_TCP_MSS <? zlen data) then c
  else if bool_decide (is_Some (first_idx (ooo_has c seq) 0 ATM_TCP_OOO_MAX)) then c
  else match first_idx (ooo_free c) 0 ATM_TCP_OOO_MAX with
    | None => c
    | Some i =>
      match aget (c_ooo c) i with
      | Some o => c <| c_ooo := aset (c_ooo c) i (mk_ooo seq (zlen data) 1 (data ++ drop (length data) (o_data o))) |>
      | None => c
      end
    end.

(** ** Sending a segment *)

Definition tcp_window_field (c : atm_tcp_conn) : Z := if c_local_window c =? 0 then ATM_TCP_MAX_PAYLOAD else c_local_window c.

Definition tcp_header (c : atm_tcp_conn) (flags csum : Z) : list byte :=
  be16 (c_local_port c) ++ be16 (c_remote_port c) ++ be32 (c_seq c) ++ be32 (c_ack c) ++
  [zb 0x50; zb flags] ++ be16 (tcp_window_field c) ++ le16 csum ++ le16 0.

(** The frame of a segment of [c]; each checksum is taken with its field still zero. *)
Definition tcp_frame (n : net_state) (mac : list Z) (c : atm_tcp_conn) (flags : Z) (payload : list byte) : list byte :=
  let csum := tcp_checksum (zb <$> n_ip n) (zb <$> c_remote_ip c) (tcp_header c flags 0 ++ payload) in
  eth_header mac (n_mac n) ++ ip_packet (n_ip n) (c_remote_ip c) 0 IP_PROTO_TCP (TCP_HLEN + zlen payload) ++
  tcp_header c flags csum ++ payload.

Definition tcp_send_control (c : atm_tcp_conn) (flags : Z) : T Z :=
  let* m := net_arp_lookup (c_remote_ip c) in
  match m with
  | None => ret (-1)
  | Some mac => let* n := gets (fun n => n) in net_send (tcp_frame n mac c flags [])
  end.

(** [for(c->retry_count=0;c->retry_count<3;c->retry_count++) body]: the body leaves the loop with
    [inr]. *)
Fixpoint retries {R} (body : atm_tcp_conn -> T (atm_tcp_conn + R)) (left : nat) (c : atm_tcp_conn) : T (atm_tcp_conn + R) :=
  match left with
  | O => ret (inl c)
  | S left' =>
    let* r := body c in
    match r with
    | inl c' => retries body left' (c' <| c_retry_count := u32 (c_retry_count c' + 1) |>)
    | inr x => ret (inr x)
    end
  end.
Definition try_three {R} (body : atm_tcp_conn -> T (atm_tcp_conn + R)) (c : atm_tcp_conn) : T (atm_tcp_conn + R) :=
  retries body 3 (c <| c_retry_count := 0 |>).

(** [while((uint32_t)(pit_get_ticks()-start)<limit)] around [next_segment]: [f] looks at each segment. *)
Definition await_segment {A R} (limit : Z) (f : A -> segment -> T (A + R)) (a : A) : T (A + R) :=
  let* start := pit_get_ticks in
  poll_until start limit (fun a =>
    let* g := next_segment in
    match g with None => ret (inl a) | Some g => f a g end) a.

(** ** Opening a connection *)

Definition tcp_listen (l : atm_tcp_conn) (port : Z) : T (Z * atm_tcp_conn) :=
  let* ini := gets n_initialized in
  if (port =? 0) || (ini =? 0) then ret (-1, l)
  else ret (0, (tcp_congestion_init (conn_zero <| c_local_port := port |> <| c_local_window := ATM_TCP_MAX_PAYLOAD |>)) <| c_state := ATM_TCP_LISTEN |>).

Definition failed (c : atm_tcp_conn) : Z * atm_tcp_conn := (-1, c <| c_state := ATM_TCP_ERROR |>).

(** The connection of a request [g] that reached the listener [l] at [ticks]. *)
Definition accepted (l : atm_tcp_conn) (g : segment) (ticks : Z) : atm_tcp_conn :=
  mk_conn (g_src_ip g) (c_local_port l) (g_src_port g) (Z.lxor ticks (u32 (Z.shiftl (c_local_port l) 16))) (u32 (g_seq g + 1)) 0
    (g_window g) ATM_TCP_MAX_PAYLOAD ATM_TCP_MSS (ATM_TCP_MSS * 4) (c_ooo conn_zero) ATM_TCP_SYN_RECEIVED.

(** The acknowledgement that completes the handshake. *)
Definition completes (out : atm_tcp_conn) (g : segment) : bool :=
  negb (Z.land (g_flags g) TCP_ACK =? 0) && (g_src_port g =? c_remote_port out) && (g_dst_port g =? c_local_port out) &&
  (g_ack g =? u32 (c_seq out + 1)).

Definition accept_request (timeout : Z) (out : atm_tcp_conn) : T (Z * atm_tcp_conn) :=
  let* r := try_three (fun out =>
    let* sent := tcp_send_control out TCP_SYNACK in
    if sent <? 0 then ret (inr (failed out))
    else await_segment (timeout / 3 + 1) (fun out g =>
      if completes out g
      then ret (inr (0, out <| c_seq := u32 (c_seq out + 1) |> <| c_state := ATM_TCP_ESTABLISHED |>))
      else ret (inl out)) out) out in
  ret (match r with inr x => x | inl out => failed out end).

Definition tcp_accept (l out : atm_tcp_conn) (timeout : Z) : T (Z * atm_tcp_conn) :=
  if negb (bool_decide (c_state l = ATM_TCP_LISTEN)) then ret (-1, out)
  else
    let* r := await_segment timeout (fun out g =>
      if negb (g_flags g =? TCP_SYN) || negb (g_dst_port g =? c_local_port l) then ret (inl out)
      else
        let* ticks := pit_get_ticks in
        let* x := accept_request timeout (accepted l g ticks) in
        ret (inr x)) out in
    ret (match r with inr x => x | inl out => (-1, out) end).

Definition resolve_peer (ip : list Z) (timeout : Z) : T bool :=
  let* m := net_arp_lookup ip in
  if bool_decide (is_Some m) then ret true
  else
    do* net_arp_request ip in
    let* arp_start := pit_get_ticks in
    do* poll_until arp_start (timeout / 3 + 1) (fun _ : unit =>
      do* net_recv ETH_MAX in
      let* m := net_arp_lookup ip in
      if bool_decide (is_Some m) then ret (inr tt) else do* pit_sleep 1 in ret (inl tt)) tt in
    let* m := net_arp_lookup ip in
    ret (bool_decide (is_Some m)).

(** The answer to the request of [c]. *)
Definition answers (c : atm_tcp_conn) (g : segment) : bool :=
  (g_src_port g =? c_remote_port c) && (g_dst_port g =? c_local_port c) && (g_flags g =? TCP_SYNACK) && (g_ack g =? u32 (c_seq c + 1)).
Definition established (c : atm_tcp_conn) (g : segment) : atm_tcp_conn :=
  (tcp_congestion_init (c <| c_ack := u32 (g_seq g + 1) |> <| c_seq := u32 (c_seq c + 1) |>
     <| c_peer_window := g_window g |> <| c_local_window := ATM_TCP_MAX_PAYLOAD |>)) <| c_state := ATM_TCP_ESTABLISHED |>.

Definition tcp_connect (c : atm_tcp_conn) (ip : list Z) (port timeout : Z) : T (Z * atm_tcp_conn) :=
  let* n := gets (fun n => n) in
  if (port =? 0) || (n_initialized n =? 0) then ret (-1, c)
  else
    let local := n_next_port n in
    do* modify (fun n => n <| n_next_port := u16 (n_next_port n + 1) |>) in
    let c := conn_zero <| c_remote_ip := ip |> <| c_remote_port := port |> <| c_local_port := local |>
               <| c_seq := Z.lxor (n_ticks n) (u32 (Z.shiftl local 16)) |> <| c_state := ATM_TCP_SYN_SENT |> in
    let* known := resolve_peer ip timeout in
    if negb known then ret (failed c)
    else
      let* r := try_three (fun c =>
        let* sent := tcp_send_control c TCP_SYN in
        if sent <? 0 then ret (inr (failed c))
        else await_segment (timeout / 3 + 1) (fun c g =>
          if answers c g then
            let c' := established c g in
            let* r := tcp_send_control c' TCP_ACK in
            ret (inr (r, c'))
          else ret (inl c)) c) c in
      ret (match r with inr x => x | inl c => failed c end).

(** ** Data *)

Definition acknowledges (c : atm_tcp_conn) (expected : Z) (g : segment) : bool :=
  (g_src_port g =? c_remote_port c) && (g_dst_port g =? c_local_port c) && negb (Z.land (g_flags g) TCP_ACK =? 0) && (g_ack g =? expected).

Definition tcp_send (c : atm_tcp_conn) (p : list byte) : T (Z * atm_tcp_conn) :=
  let len := zlen p in
  if negb (bool_decide (c_state c = ATM_TCP_ESTABLISHED)) || negb (tcp_window_allows c len) then ret (-1, c)
  else
    let* m := net_arp_lookup (c_remote_ip c) in
    match m with
    | None => ret (-1, c)
    | Some mac =>
      let* n := gets (fun n => n) in
      let frame := tcp_frame n mac c (Z.lor TCP_ACK TCP_PSH) p in
      let expected := u32 (c_seq c + len) in
      let* r := try_three (fun c =>
        let* sent := net_send frame in
        if sent <? 0 then ret (inr (-1, c))
        else await_segment 100 (fun c g =>
          if acknowledges c expected g
          then ret (inr (len, tcp_congestion_ack (c <| c_peer_window := g_window g |> <| c_seq := expected |>) len))
          else ret (inl c)) c) c in
      ret (match r with inr x => x | inl c => failed (tcp_congestion_loss c) end)
    end.

Definition recv_segment (cap : Z) (c : atm_tcp_conn) (g : segment) : T (atm_tcp_conn + Z * list byte * atm_tcp_conn) :=
  let len := zlen (g_data g) in
  if negb (g_src_port g =? c_remote_port c) || negb (g_dst_port g =? c_local_port c) then ret (inl c)
  else if (len =? 0) || (c_local_window c <? len) then ret (inl c)
  else if c_ack c <? g_seq g then
    let c := (tcp_ooo_store c (g_seq g) (g_data g)) <| c_peer_window := g_window g |> in
    do* tcp_send_control c TCP_ACK in
    ret (inl c)
  else if (cap <? len) || negb (g_seq g =? c_ack c) then ret (inl c)
  else
    let c := c <| c_ack := u32 (c_ack c + len) |> <| c_peer_window := g_window g |> in
    let* r := tcp_send_control c TCP_ACK in
    ret (inr (if r <? 0 then (-1, g_data g, c <| c_state := ATM_TCP_ERROR |>) else (len, g_data g, c))).

(** The result, what was written to the caller's buffer, the connection. *)
Definition tcp_recv (c : atm_tcp_conn) (cap timeout : Z) : T (Z * list byte * atm_tcp_conn) :=
  if (cap =? 0) || negb (bool_decide (c_state c = ATM_TCP_ESTABLISHED)) then ret (-1, [], c)
  else
    let* '(out, c) := tcp_ooo_take c cap in
    if 0 <? zlen out then
      let* r := tcp_send_control c TCP_ACK in
      ret (if r <? 0 then (-1, out, c <| c_state := ATM_TCP_ERROR |>) else (zlen out, out, c))
    else
      let* r := await_segment timeout (recv_segment cap) c in
      ret (match r with inr x => x | inl c => (-1, [], c) end).

Definition tcp_close (c : atm_tcp_conn) : T (Z * atm_tcp_conn) :=
  if bool_decide (c_state c = ATM_TCP_ESTABLISHED) then
    let c := c <| c_state := ATM_TCP_FIN_WAIT |> in
    let* r := tcp_send_control c (Z.lor TCP_FIN TCP_ACK) in
    if r <? 0 then ret (failed c)
    else ret (0, c <| c_seq := u32 (c_seq c + 1) |> <| c_state := ATM_TCP_CLOSED |>)
  else ret (0, c <| c_state := ATM_TCP_CLOSED |>).

#[export] Instance net_stack : Tcp net_state := {
  atm_tcp_connect := tcp_connect;
  atm_tcp_listen := tcp_listen;
  atm_tcp_accept := tcp_accept;
  atm_tcp_send := tcp_send;
  atm_tcp_recv := tcp_recv;
  atm_tcp_close := tcp_close;
  net_ip := n_ip }.
