(* ===== verification/TcpFrame.v ===== *)
(** * Building and reading segments

    Reading a field of a frame that is put together from parts: the parts before the field
    are skipped, then the field is read at the start.  What [tcp_frame] builds is accepted by
    [tcp_validate_frame], and the fields come back. *)

From S2P Require Import Prelude Kernel Net NetInv Tcp.

(** ** Lengths *)

Lemma zlen_le16 x : zlen (le16 x) = 2.
Proof. done. Qed.
Lemma zlen_le32 x : zlen (le32 x) = 4.
Proof. done. Qed.
Lemma zlen_zb (l : list Z) k : zlen l = k -> zlen (zb <$> l) = k.
Proof. by rewrite length_fmap. Qed.
Lemma zlen_app_eq (a b : list byte) j k : zlen a = j -> zlen b = k -> zlen (a ++ b) = j + k.
Proof. rewrite length_app. lia. Qed.
Lemma zlen_pair (a b : byte) : zlen [a; b] = 2.
Proof. done. Qed.

Create HintDb lens.
#[export] Hint Resolve zlen_le16 zlen_le32 zlen_zb zlen_pair : lens.
#[export] Hint Unfold be16 be32 : lens.

Lemma zlen_be16 x : zlen (be16 x) = 2.
Proof. done. Qed.
Lemma zlen_be32 x : zlen (be32 x) = 4.
Proof. done. Qed.
#[export] Hint Resolve zlen_be16 zlen_be32 : lens.

(** ** Skipping parts *)

Section Skip.
Implicit Types (pre f : list byte).

Lemma byte_at_skip pre f off k : zlen pre = k -> k <= off -> byte_at (pre ++ f) off = byte_at f (off - k).
Proof.
  intros Hk Ho. unfold byte_at, aget. destruct (Z.ltb_spec off 0), (Z.ltb_spec (off - k) 0); try lia.
  rewrite lookup_app_r by lia. do 2 f_equal. lia.
Qed.
Lemma half_at_skip pre f off k : zlen pre = k -> k <= off -> half_at (pre ++ f) off = half_at f (off - k).
Proof.
  intros Hk Ho. unfold half_at. rewrite !(byte_at_skip pre f _ k) by lia. by replace (off + 1 - k) with (off - k + 1) by lia.
Qed.
Lemma word_at_skip pre f off k : zlen pre = k -> k <= off -> word_at (pre ++ f) off = word_at f (off - k).
Proof.
  intros Hk Ho. unfold word_at. rewrite !(half_at_skip pre f _ k) by lia. by replace (off + 2 - k) with (off - k + 2) by lia.
Qed.
Lemma octets_at_skip pre f off k n : zlen pre = k -> k <= off -> octets_at (pre ++ f) off n = octets_at f (off - k) n.
Proof.
  intros Hk Ho. unfold octets_at. apply Forall_mapM_ext, list.Forall_forall. intros i [Hi _]%elem_of_seqZ.
  rewrite (byte_at_skip pre f _ k) by lia. f_equal. lia.
Qed.

Lemma half_at_le16 x f : 0 <= x < 65536 -> half_at (le16 x ++ f) 0 = Some x.
Proof.
  intros Hx. change (Some (bz (zb x) + 256 * bz (zb (x / 256))) = Some x). rewrite !bz_zb_u8. unfold u8. change (2 ^ 8) with 256. f_equal.
  Z.div_mod_to_equations. lia.
Qed.
Lemma half_at_be16 x f : half_at (be16 x ++ f) 0 = Some (net_bswap16 x).
Proof. apply half_at_le16, bswap16_range. Qed.
Lemma word_at_le32 x f : 0 <= x < 2 ^ 32 -> word_at (le32 x ++ f) 0 = Some x.
Proof.
  intros Hx. change (Some (bz (zb x) + 256 * bz (zb (x / 256)) + 65536 * (bz (zb (x / 65536)) + 256 * bz (zb (x / 16777216)))) = Some x).
  rewrite !bz_zb_u8. unfold u8. change (2 ^ 8) with 256.
  pose proof (bytes_of_word x Hx) as E. unfold b0, b1, b2, b3 in E. f_equal. lia.
Qed.
Lemma word_at_be32 x f : 0 <= x < 2 ^ 32 -> word_at (be32 x ++ f) 0 = Some (net_bswap32 x).
Proof. intros Hx. by apply word_at_le32, bswap32_range. Qed.

Lemma octets_at_4 (l : list Z) f : zlen l = 4 -> octets_at ((zb <$> l) ++ f) 0 4 = Some (u8 <$> l).
Proof.
  intros Hl. destruct l as [|a [|b [|c [|d [|]]]]]; try (simpl in Hl; lia).
  change (Some [bz (zb a); bz (zb b); bz (zb c); bz (zb d)] = Some [u8 a; u8 b; u8 c; u8 d]). by rewrite !bz_zb_u8.
Qed.

(** A part in the middle of a frame. *)
Lemma slice_mid (pre mid f : list byte) off n s (Q : list byte -> net_state -> Prop) :
  zlen pre = off -> zlen mid = n -> Q mid s -> wp (slice (pre ++ mid ++ f) off n) s Q.
Proof.
  intros Ho Hn HQ. unfold slice. rewrite !length_app. apply wp_bind, wp_guard; [rewrite !andb_true_iff, !Z.leb_le; lia|].
  apply wp_ret. replace (Z.to_nat off) with (length pre) by lia. rewrite drop_app_length.
  replace (Z.to_nat n) with (length mid) by lia. by rewrite take_app_length.
Qed.
End Skip.

(** The length of a part, from the hints. *)
Ltac plen := solve [eauto with lens nocore].
(** Skips the parts before the field that is read. *)
Ltac skip :=
  repeat (first [erewrite byte_at_skip; [|plen|lia] | erewrite half_at_skip; [|plen|lia]
                |erewrite word_at_skip; [|plen|lia] | erewrite octets_at_skip; [|plen|lia]];
    match goal with |- context [?a - ?b] => let c := eval vm_compute in (a - b) in change (a - b) with c end).
(** Reads the field at the start. *)
Ltac field := skip; first [apply half_at_be16 | apply half_at_le16 | apply word_at_be32; assumption | apply octets_at_4; assumption
                          | reflexivity].

(** ** Well-formed headers *)

(** The fields of a connection have the widths of the structure. *)
Record conn_fields (c : atm_tcp_conn) : Prop := mk_conn_fields {
  cf_ip : zlen (c_remote_ip c) = 4;
  cf_lport : 0 <= c_local_port c < 65536;
  cf_rport : 0 <= c_remote_port c < 65536;
  cf_seq : 0 <= c_seq c < 2 ^ 32;
  cf_ack : 0 <= c_ack c < 2 ^ 32;
  cf_window : 0 <= c_local_window c < 65536 }.

Record card_ok (n : net_state) : Prop := mk_card {
  cd_mac : zlen (n_mac n) = 6;
  cd_ip : zlen (n_ip n) = 4 }.

Lemma ip_packet_valid src dst id protocol len : zlen src = 4 -> zlen dst = 4 -> net_ip_checksum (ip_packet src dst id protocol len) = 0.
Proof.
  intros Hs Hd. unfold ip_packet, ip_header. rewrite !app_assoc. rewrite <- !(app_assoc _ (zb <$> src)).
  rewrite <- !(app_assoc _ (le16 _)). apply checksum_filled; [done|]. rewrite !length_app, !length_fmap. cbn. lia.
Qed.

Lemma tcp_checksum_valid src dst c flags payload :
  zlen src = 4 -> zlen dst = 4 -> zlen payload <= ATM_TCP_MAX_PAYLOAD ->
  tcp_checksum src dst (tcp_header c flags (tcp_checksum src dst (tcp_header c flags 0 ++ payload)) ++ payload) = 0.
Proof.
  intros Hs Hd Hp. unfold ATM_TCP_MAX_PAYLOAD in Hp.
  assert (Hl : forall x, zlen (tcp_header c flags x ++ payload) = 20 + zlen payload) by (intros x; by rewrite length_app, Nat2Z.inj_add).
  assert (Hg : forall x, (TCP_HLEN + ATM_TCP_MAX_PAYLOAD <? zlen (tcp_header c flags x ++ payload)) = false).
  { intros x. apply Z.ltb_ge. rewrite Hl. unfold TCP_HLEN, ATM_TCP_MAX_PAYLOAD. lia. }
  unfold tcp_checksum. rewrite !Hg, !Hl. unfold tcp_header.
  set (pre := src ++ dst ++ [zb 0; zb IP_PROTO_TCP] ++ be16 (20 + zlen payload) ++ be16 (c_local_port c) ++ be16 (c_remote_port c) ++
    be32 (c_seq c) ++ be32 (c_ack c) ++ [zb 0x50; zb flags] ++ be16 (tcp_window_field c)).
  assert (E : forall x, src ++ dst ++ [zb 0; zb IP_PROTO_TCP] ++ be16 (20 + zlen payload) ++
    (be16 (c_local_port c) ++ be16 (c_remote_port c) ++ be32 (c_seq c) ++ be32 (c_ack c) ++ [zb 0x50; zb flags] ++
     be16 (tcp_window_field c) ++ le16 x ++ le16 0) ++ payload = pre ++ le16 x ++ (le16 0 ++ payload)).
  { intros x. unfold pre. by rewrite <- !app_assoc. }
  rewrite !E. assert (Hpre : length pre = 28%nat) by (unfold pre; rewrite !length_app; cbn; lia).
  apply checksum_filled; [by rewrite Hpre|]. rewrite Hpre, length_app. cbn. lia.
Qed.

Lemma wp_rd {A} (g : option A) (v : A) (s : net_state) (Q : A -> net_state -> Prop) : g = Some v -> Q v s -> wp (deref (fun _ => g)) s Q.
Proof. intros E HQ. by apply (wp_deref _ _ v). Qed.

Lemma zlen_eth mac src : zlen mac = 6 -> zlen src = 6 -> zlen (eth_header mac src) = 14.
Proof. intros Hm Hs. unfold eth_header. rewrite !length_app, !length_fmap. cbn. lia. Qed.
Lemma zlen_ip src dst id p len x : zlen src = 4 -> zlen dst = 4 -> zlen (ip_header src dst id p len x) = 20.
Proof. intros Hs Hd. unfold ip_header. rewrite !length_app, !length_fmap. cbn. lia. Qed.
Lemma zlen_ip_packet src dst id p len : zlen src = 4 -> zlen dst = 4 -> zlen (ip_packet src dst id p len) = 20.
Proof. apply zlen_ip. Qed.
Lemma zlen_tcp c flags x : zlen (tcp_header c flags x) = 20.
Proof. done. Qed.
#[export] Hint Resolve zlen_eth zlen_ip_packet zlen_ip zlen_tcp : lens.

(** Fields of the Ethernet and IP headers of a packet. *)
Section Packet.
Context (mac src ip dst : list Z) (id protocol len : Z) (f : list byte).
Context (Hmac : zlen mac = 6) (Hsrc : zlen src = 6) (Hip : zlen ip = 4) (Hdst : zlen dst = 4).
Abbreviation frame := (eth_header mac src ++ ip_packet ip dst id protocol len ++ f).

Lemma frame_ethertype : half_at frame 12 = Some (net_bswap16 0x0800).
Proof. unfold eth_header. rewrite <- !app_assoc. field. Qed.
Lemma frame_ver : byte_at frame 14 = Some 0x45.
Proof. unfold ip_packet, ip_header. rewrite <- !app_assoc. field. Qed.
Lemma frame_total : half_at frame 16 = Some (net_bswap16 (20 + len)).
Proof. unfold ip_packet, ip_header. rewrite <- !app_assoc. field. Qed.
Lemma frame_protocol : byte_at frame 23 = Some (u8 protocol).
Proof.
  unfold ip_packet, ip_header. rewrite <- !app_assoc. skip. change (Some (bz (zb protocol)) = Some (u8 protocol)). by rewrite bz_zb_u8.
Qed.
Lemma frame_src : octets_at frame 26 4 = Some (u8 <$> ip).
Proof. unfold ip_packet, ip_header. rewrite <- !app_assoc. field. Qed.

Lemma frame_part (pre mid post : list byte) off n s (Q : list byte -> net_state -> Prop) :
  ip_packet ip dst id protocol len = pre ++ mid ++ post -> zlen pre = off -> zlen mid = n -> Q mid s -> wp (slice frame (14 + off) n) s Q.
Proof.
  intros E Ho Hn HQ. rewrite E. replace (eth_header mac src ++ (pre ++ mid ++ post) ++ f) with ((eth_header mac src ++ pre) ++ mid ++ (post ++ f))
    by (by rewrite <- !app_assoc).
  apply slice_mid; [|done|done]. rewrite length_app, Nat2Z.inj_add, zlen_eth by done. lia.
Qed.
Lemma frame_header s (Q : list byte -> net_state -> Prop) : Q (ip_packet ip dst id protocol len) s -> wp (slice frame 14 20) s Q.
Proof. apply (frame_part [] (ip_packet ip dst id protocol len) [] 0); [by rewrite app_nil_r|done|by apply zlen_ip_packet]. Qed.
Lemma frame_src_bytes s (Q : list byte -> net_state -> Prop) : Q (zb <$> ip) s -> wp (slice frame 26 4) s Q.
Proof.
  unfold ip_packet, ip_header.
  eapply (frame_part ([zb 0x45; zb 0] ++ be16 (20 + len) ++ be16 id ++ le16 0 ++ [zb 64; zb protocol] ++ le16 _) _ (zb <$> dst) 12);
    [by rewrite <- !app_assoc|done|by apply zlen_zb].
Qed.
Lemma frame_dst_bytes s (Q : list byte -> net_state -> Prop) : Q (zb <$> dst) s -> wp (slice frame 30 4) s Q.
Proof.
  unfold ip_packet, ip_header.
  eapply (frame_part ([zb 0x45; zb 0] ++ be16 (20 + len) ++ be16 id ++ le16 0 ++ [zb 64; zb protocol] ++ le16 _ ++ (zb <$> ip)) _ [] 16);
    [by rewrite <- !app_assoc, app_nil_r| |by apply zlen_zb].
  rewrite !length_app, length_fmap. cbn. lia.
Qed.
Lemma frame_body (mid post : list byte) n s (Q : list byte -> net_state -> Prop) : f = mid ++ post -> zlen mid = n -> Q mid s -> wp (slice frame 34 n) s Q.
Proof.
  intros -> Hn HQ. replace (eth_header mac src ++ ip_packet ip dst id protocol len ++ mid ++ post)
    with ((eth_header mac src ++ ip_packet ip dst id protocol len) ++ mid ++ post) by (by rewrite <- !app_assoc).
  apply slice_mid; [|done|done]. rewrite length_app, Nat2Z.inj_add, zlen_eth, zlen_ip_packet by done. done.
Qed.
End Packet.

(** ** The round trip *)

(** A frame with a segment of the connection [c] whose checksum field holds [x], with what may
    follow it on the wire. *)
Definition raw_frame (n : net_state) (mac : list Z) (c : atm_tcp_conn) (flags : Z) (payload : list byte) (x : Z) : list byte :=
  eth_header mac (n_mac n) ++ ip_packet (n_ip n) (c_remote_ip c) 0 IP_PROTO_TCP (TCP_HLEN + zlen payload) ++ tcp_header c flags x ++ payload.

Section Roundtrip.
Context (n : net_state) (mac : list Z) (c : atm_tcp_conn) (flags : Z) (payload : list byte) (x : Z) (pad : list byte).
Context (Hn : card_ok n) (Hmac : zlen mac = 6) (Hc : conn_fields c) (Hflags : 0 <= flags < 256) (Hpay : zlen payload <= 1460).
Context (Hx : tcp_checksum (zb <$> n_ip n) (zb <$> c_remote_ip c) (tcp_header c flags x ++ payload) = 0).

Lemma raw_frame_split : raw_frame n mac c flags payload x ++ pad =
  eth_header mac (n_mac n) ++ ip_packet (n_ip n) (c_remote_ip c) 0 IP_PROTO_TCP (TCP_HLEN + zlen payload) ++ (tcp_header c flags x ++ payload) ++ pad.
Proof. unfold raw_frame. by rewrite <- !app_assoc. Qed.

Lemma raw_frame_length : zlen (raw_frame n mac c flags payload x ++ pad) = 54 + zlen payload + zlen pad.
Proof.
  rewrite raw_frame_split. destruct Hn, Hc. rewrite !length_app, !Nat2Z.inj_add, zlen_eth, zlen_ip_packet, zlen_tcp by done. lia.
Qed.

Lemma raw_frame_valid s Q : Q (Some (20, 40 + zlen payload)) s -> wp (tcp_validate_frame (raw_frame n mac c flags payload x ++ pad)) s Q.
Proof.
  intros HQ. unfold tcp_validate_frame. rewrite raw_frame_length, raw_frame_split.
  destruct Hn as [Hm Hi]. destruct Hc as [Hr _ _ _ _ _].
  destruct (Z.ltb_spec (54 + zlen payload + zlen pad) (ETH_HLEN + 20 + TCP_HLEN)) as [Hlt|_]; [unfold ETH_HLEN, TCP_HLEN in Hlt; lia|].
  apply wp_bind. apply (wp_rd _ _ _ _ (frame_ethertype _ _ _ _ _ _ _ _ Hmac Hm)).
  apply wp_bind. apply (wp_rd _ _ _ _ (frame_ver _ _ _ _ _ _ _ _ Hmac Hm)).
  apply wp_bind. apply (wp_rd _ _ _ _ (frame_protocol _ _ _ _ _ _ _ _ Hmac Hm)).
  change (Z.land 0x45 15 * 4) with 20. rewrite (proj2 (Z.ltb_ge _ (ETH_HLEN + 20 + TCP_HLEN))) by (unfold ETH_HLEN, TCP_HLEN; lia).
  change (negb _ || negb _ || negb _ || _ || _ || false) with false. cbn match.
  apply wp_bind. apply frame_header; [done..|]. rewrite ip_packet_valid by done. cbn match beta. 
  apply wp_bind. apply (wp_rd _ _ _ _ (frame_total _ _ _ _ _ _ _ _ Hmac Hm)).
  unfold TCP_HLEN. rewrite bswap16_twice by lia.
  rewrite (proj2 (Z.ltb_ge _ (20 + 20))), (proj2 (Z.ltb_ge _ (20 + (20 + zlen payload)))) by (unfold ETH_HLEN; lia). cbn [orb].
  apply wp_bind. apply (wp_rd _ 0x50).
  { change (ETH_HLEN + 20 + 12) with 46. unfold tcp_header. rewrite <- !app_assoc. field. }
  change (Z.shiftr 0x50 4 * 4) with 20. change ((20 <? 20) || (60 <? 20)) with false.
  rewrite (proj2 (Z.ltb_ge _ (20 + 20))) by lia. cbn [orb].
  apply wp_bind. apply frame_src_bytes; [done..|]. apply wp_bind. apply frame_dst_bytes; [done..|].
  apply wp_bind. change (ETH_HLEN + 20) with 34.
  apply (frame_body _ _ _ _ _ _ _ _ Hmac Hm Hi Hr (tcp_header c flags x ++ payload) pad); [done|..].
  { rewrite length_app, Nat2Z.inj_add, zlen_tcp. lia. }
  rewrite Hx. cbn match beta. apply wp_ret.
  by replace (20 + (20 + zlen payload)) with (40 + zlen payload) by lia.
Qed.

(** The segment the frame carries. *)
Definition segment_of : segment :=
  mk_seg (u8 <$> n_ip n) (c_local_port c) (c_remote_port c) (c_seq c) (c_ack c) flags (tcp_window_field c) payload.

Lemma window_field_range : 0 <= tcp_window_field c < 65536.
Proof. destruct Hc. unfold tcp_window_field. case_match; [done|]. lia. Qed.

Lemma raw_frame_read s Q : Q segment_of s -> wp (read_segment (raw_frame n mac c flags payload x ++ pad) 20 (40 + zlen payload)) s Q.
Proof.
  intros HQ. unfold read_segment. rewrite raw_frame_split. pose proof window_field_range as Hw.
  destruct Hn as [Hm Hi]. destruct Hc as [Hr Hl Hp Hs Ha _]. change (ETH_HLEN + 20) with 34.
  assert (Hrd : forall A (g : option A) v (K : A -> T segment), g = Some v -> wp (K v) s Q -> wp (bind (deref (fun _ => g)) K) s Q).
  { intros A g v K E HK. by apply wp_bind, (wp_rd _ _ _ _ E). }
  apply (Hrd _ _ _ _ (frame_src _ _ _ _ _ _ _ _ Hmac Hm Hi)). unfold tcp_header. rewrite <- !(app_assoc (be16 (c_local_port c))), <- !app_assoc.
  eapply Hrd; [field|]. eapply Hrd; [change (34 + 2) with 36; field|]. eapply Hrd; [change (34 + 4) with 38; field|].
  eapply Hrd; [change (34 + 8) with 42; field|]. eapply (Hrd _ _ 0x50); [change (34 + 12) with 46; field|].
  eapply (Hrd _ _ flags); [change (34 + 13) with 47; skip; change (Some (bz (zb flags)) = Some flags); by rewrite bz_zb|].
  eapply Hrd; [change (34 + 14) with 48; field|]. change (34 + Z.shiftr 0x50 4 * 4) with 54. change (Z.shiftr 0x50 4 * 4) with 20.
  apply wp_bind. rewrite !app_assoc. rewrite <- (app_assoc _ payload). apply slice_mid; [|lia|].
  { rewrite !length_app, !Nat2Z.inj_add, zlen_eth, zlen_ip_packet by done. done. }
  apply wp_ret. rewrite !bswap16_twice, !bswap32_twice by done. exact HQ.
Qed.

Lemma raw_frame_parse s Q : Q (Some segment_of) s -> wp (parse_segment (raw_frame n mac c flags payload x ++ pad)) s Q.
Proof.
  intros HQ. unfold parse_segment. apply wp_bind. apply raw_frame_valid. cbn match. apply wp_bind. apply raw_frame_read. by apply wp_ret.
Qed.
End Roundtrip.

(** What the code builds: the checksum field makes the segment valid. *)
Section Built.
Context (n : net_state) (mac : list Z) (c : atm_tcp_conn) (flags : Z) (payload pad : list byte).
Context (Hn : card_ok n) (Hmac : zlen mac = 6) (Hc : conn_fields c).

Lemma tcp_frame_length : zlen (tcp_frame n mac c flags payload ++ pad) = 54 + zlen payload + zlen pad.
Proof. by apply raw_frame_length. Qed.

Lemma tcp_frame_parse s Q : 0 <= flags < 256 -> zlen payload <= ATM_TCP_MAX_PAYLOAD -> Q (Some (segment_of n c flags payload)) s ->
  wp (parse_segment (tcp_frame n mac c flags payload ++ pad)) s Q.
Proof.
  intros Hf Hp. apply raw_frame_parse; try done; [unfold ATM_TCP_MAX_PAYLOAD in Hp; lia|]. destruct Hn, Hc. by apply tcp_checksum_valid; [apply zlen_zb..|].
Qed.
End Built.
