(* ===== verification/TcpOps.v ===== *)
(** * What the operations of the transport protocol do

    No frame makes the parser leave it.  [next_segment] takes at most one frame; [seen n n' g]
    says that the segment [g] came in between two states.  Every operation ends, on every
    wire, in one of the outcomes its specification names.  [conn_ok] is the invariant of a
    connection.  The specification of receiving is stated for a property [S] of data at a
    sequence number: what the peer sends has it, what is kept out of order has it, what is
    handed out has it. *)

From S2P Require Import Prelude Kernel Net NetInv Socket Tcp TcpFrame ProcFd.

(** ** Parsing *)

Lemma shiftr4_range v : 0 <= v < 256 -> 0 <= Z.shiftr v 4 * 4 <= 60.
Proof. intros Hv. rewrite Z.shiftr_div_pow2 by lia. change (2 ^ 4) with 16. Z.div_mod_to_equations. lia. Qed.

(** The lengths [tcp_validate_frame] guarantees. *)
Definition fits_frame (f : list byte) (r : option (Z * Z)) : Prop :=
  forall ihl ip_len, r = Some (ihl, ip_len) -> 20 <= ihl <= 60 /\ ihl + 20 <= ip_len <= zlen f - 14 /\
    exists v, byte_at f (14 + ihl + 12) = Some v /\ 20 <= Z.shiftr v 4 * 4 <= ip_len - ihl.

Lemma validate_total f : exists r, answers_with (tcp_validate_frame f) r /\ fits_frame f r.
Proof.
  assert (Hnone : exists r, answers_with (ret None) r /\ fits_frame f r) by (exists None; by split).
  assert (Hstep : forall A (m : T A) v K, answers_with m v -> (exists r, answers_with (K v) r /\ fits_frame f r) ->
    exists r, answers_with (bind m K) r /\ fits_frame f r).
  { intros A m v K Hm (r & HK & Hf). exists r. split; [by eapply answer_bind|done]. }
  unfold tcp_validate_frame, ETH_HLEN, TCP_HLEN. destruct (Z.ltb_spec (zlen f) (14 + 20 + 20)); [done|].
  destruct (rd16_total f 12) as (v1 & A1 & _); [lia..|]. apply (Hstep _ _ _ _ A1).
  destruct (rd8_total f 14) as (v2 & A2 & _); [lia..|]. apply (Hstep _ _ _ _ A2).
  destruct (rd8_total f 23) as (v3 & A3 & _); [lia..|]. apply (Hstep _ _ _ _ A3).
  pose proof (land15_range v2) as Hihl. set (ihl := Z.land v2 15 * 4) in *. case_match eqn:E1; [done|].
  repeat (apply orb_false_iff in E1 as [E1 ?]). rewrite !Z.ltb_ge in *.
  destruct (slice_total f 14 ihl) as (v4 & A4 & _); [lia..|]. apply (Hstep _ _ _ _ A4). case_match; [done|].
  destruct (rd16_total f 16) as (v5 & A5 & _); [lia..|]. apply (Hstep _ _ _ _ A5). case_match eqn:E2; [done|].
  apply orb_false_iff in E2 as [E2 E3]. rewrite !Z.ltb_ge in *.
  destruct (byte_at_total f (14 + ihl + 12)) as (v6 & A6 & Hv6); [lia..|]. apply (Hstep _ _ _ _ (answer_rd _ _ A6)).
  pose proof (shiftr4_range v6 Hv6). case_match eqn:E4; [done|]. apply orb_false_iff in E4 as [[E4 _]%orb_false_iff E5]. rewrite !Z.ltb_ge in *.
  destruct (slice_total f 26 4) as (v7 & A7 & _); [lia..|]. apply (Hstep _ _ _ _ A7).
  destruct (slice_total f 30 4) as (v8 & A8 & _); [lia..|]. apply (Hstep _ _ _ _ A8).
  destruct (slice_total f (14 + ihl) (net_bswap16 v5 - ihl)) as (v9 & A9 & _); [lia..|]. apply (Hstep _ _ _ _ A9).
  case_match; [done|]. eexists. split; [apply answer_ret|]. intros i l [= <- <-]. split_and!; try lia. exists v6. split; [done|lia].
Qed.

(** The fields of a segment that was read have their widths. *)
Record seg_fields (g : segment) : Prop := mk_seg_fields {
  sf_ip : zlen (g_src_ip g) = 4;
  sf_sport : 0 <= g_src_port g < 65536;
  sf_dport : 0 <= g_dst_port g < 65536;
  sf_seq : 0 <= g_seq g < 2 ^ 32;
  sf_ack : 0 <= g_ack g < 2 ^ 32;
  sf_window : 0 <= g_window g < 65536 }.

Lemma parse_total f : exists r, answers_with (parse_segment f) r /\ forall g, r = Some g -> seg_fields g.
Proof.
  unfold parse_segment. destruct (validate_total f) as (r & A0 & Hf).
  destruct r as [[ihl ip_len]|]; [|exists None; split; [by eapply answer_bind|done]].
  destruct (Hf _ _ eq_refl) as (Hi & Hl & v & Av & Hv).
  enough (exists g, answers_with (read_segment f ihl ip_len) g /\ seg_fields g) as (g & Ag & Hg).
  { exists (Some g). split; [eapply answer_bind; [exact A0|]; by eapply answer_bind|]. by intros ? [= <-]. }
  unfold read_segment, ETH_HLEN.
  destruct (rdn_total f 26 4) as (v1 & A1 & H1); [lia..|]. destruct (rd16_total f (14 + ihl)) as (v2 & A2 & H2); [lia..|].
  destruct (rd16_total f (14 + ihl + 2)) as (v3 & A3 & H3); [lia..|]. destruct (rd32_total f (14 + ihl + 4)) as (v4 & A4 & H4); [lia..|].
  destruct (rd32_total f (14 + ihl + 8)) as (v5 & A5 & H5); [lia..|]. pose proof (answer_rd _ _ Av) as A6.
  destruct (rd8_total f (14 + ihl + 13)) as (v7 & A7 & H7); [lia..|]. destruct (rd16_total f (14 + ihl + 14)) as (v8 & A8 & H8); [lia..|].
  destruct (slice_total f (14 + ihl + Z.shiftr v 4 * 4) (ip_len - ihl - Z.shiftr v 4 * 4)) as (v9 & A9 & _); [lia..|].
  eexists. split; [do 9 (eapply answer_bind; [eassumption|]; cbv beta zeta); apply answer_ret|].
  constructor; cbn; [lia| | | | |]; apply bswap16_range || by apply bswap32_range.
Qed.

(** ** The next segment *)

(** [g] is the segment in a frame the wire brought between [n] and [n']. *)
Definition seen (n n' : net_state) (g : segment) : Prop :=
  exists w d e, n_wire n = w ++ n_wire n' /\ (d, Some e) ∈ w /\ rx_good e ETH_MAX = true /\ answers_with (parse_segment (frame_of e)) (Some g).

Lemma seen_fields n n' g : seen n n' g -> seg_fields g.
Proof.
  intros (w & d & e & _ & _ & _ & Ha). destruct (parse_total (frame_of e)) as (r & Hr & Hg). apply Hg. by apply (answer_inj _ _ _ Hr).
Qed.
Lemma seen_later n n1 n2 g : onward n1 n2 -> seen n n1 g -> seen n n2 g.
Proof.
  intros [_ _ _ _ _ [w2 E2] _] (w & d & e & E & Hin & H). exists (w ++ w2), d, e. split; [by rewrite E, E2, app_assoc|].
  split; [|done]. apply elem_of_app. by left.
Qed.
Lemma seen_earlier n n1 n2 g : onward n n1 -> seen n1 n2 g -> seen n n2 g.
Proof.
  intros [_ _ _ _ _ [w1 E1] _] (w & d & e & E & Hin & H). exists (w1 ++ w), d, e. split; [by rewrite E1, E, app_assoc|].
  split; [|done]. apply elem_of_app. by right.
Qed.

Lemma next_segment_spec n : net_ok n -> wp next_segment n (fun r n' => onward n n' /\ progress n n' /\ forall g, r = Some g -> seen n n' g).
Proof.
  intros Hn. unfold next_segment. wp_step. eapply wp_mono; [by apply net_recv_spec|]. intros f n1 [H1 Hp]. cbv beta.
  destruct (Z.ltb_spec (zlen f) (ETH_HLEN + 20 + TCP_HLEN)) as [Hs|Hs].
  - wp_step. eapply wp_mono; [by apply pit_sleep_spec, H1|]. intros _ n2 (H2 & Ew & Ht). apply wp_ret.
    split; [by etransitivity|]. split; [by eapply polled_sleep|done].
  - destruct (parse_total f) as (r & Ha & _). eapply wp_answer; [exact Ha|]. split; [done|].
    assert (Hf : f <> []) by (intros ->; unfold ETH_HLEN, TCP_HLEN in Hs; simpl in Hs; lia).
    split; [by eapply polled_taken|]. intros g ->. destruct Hp as [(_ & -> & _)|(_ & d & o & Ew & [->|(e & -> & Hg & Ef)])]; [done|done|].
    exists [(d, Some e)], d, e. split; [done|]. split; [left|]. subst f. done.
Qed.

(** Waiting for segments: [f] is given each one that comes in, [I] is kept meanwhile. *)
Section Await.
Context {A R : Type} (limit : Z) (f : A -> segment -> T (A + R)) (n0 : net_state).
Context (I : A -> net_state -> Prop) (P : R -> net_state -> Prop) (Hlimit : limit_ok limit).
Context (Hmove : forall a n n', onward n n' -> I a n -> I a n').
Context (Hf : forall a g n, net_ok n -> onward n0 n -> I a n -> seen n0 n g -> wp (f a g) n (fun r n' =>
  match r with inl a' => at_once n n' /\ I a' n' | inr x => onward n n' /\ P x n' end)).

Lemma await_spec a n : net_ok n -> onward n0 n -> I a n ->
  wp (await_segment limit f a) n (fun r n' => onward n n' /\ match r with inl a' => I a' n' | inr x => P x n' end).
Proof.
  intros Hn H0 HI. unfold await_segment, pit_get_ticks. wp_step. wp_step.
  eapply wp_mono; [apply (poll_until_spec _ _ _ (fun a n => onward n0 n /\ I a n) P); [done| |done|done]|].
  2: { intros [a'|x] n' [Ho Hr]; [by destruct Hr|done]. }
  clear a n Hn H0 HI. intros a n Hn [H0 HI]. wp_step. eapply wp_mono; [by apply next_segment_spec|].
  intros r n1 (H1 & Hp & Hs). cbv beta. assert (H01 : onward n0 n1) by (by etransitivity).
  destruct r as [g|]; [|apply wp_ret; split_and!; [done|done|done|by apply (Hmove _ n)]].
  eapply wp_mono; [apply Hf; [by apply H1|done|by apply (Hmove _ n)|by eapply seen_earlier, Hs]|].
  intros [a'|x] n2 Hr; cbv beta match in *.
  - destruct Hr as [(H2 & Ew & Et) HI']. split; [by etransitivity|]. split_and!; [|by etransitivity|done].
    destruct Hp as [[Hi Hl]|(Hi & Ew1 & w & Hw & Et1)]; [left; by rewrite Ew|right]. split; [done|]. rewrite Ew, Et. split; [done|]. eauto.
  - destruct Hr as [H2 HP]. split; [by etransitivity|done].
Qed.
End Await.

(** ** Operations *)

Lemma arp_lookup_answer ip n Q : (forall m, (forall mac, m = Some mac -> net_ok n -> zlen mac = 6) -> Q m n) -> wp (net_arp_lookup ip) n Q.
Proof.
  intros HQ. unfold net_arp_lookup. wp_step. wp_step. wp_step; [by apply wp_ret, HQ|]. wp_step; [by apply wp_ret, HQ|].
  apply wp_ret, HQ. intros mac [= <-] Hn. apply no_arp; [done|]. apply orb_false_iff in E as [E _]. unfold truth. by rewrite E.
Qed.

(** The frame of a segment is what was sent last. *)
Definition sent_segment (n n' : net_state) (c : atm_tcp_conn) (flags : Z) (payload : list byte) : Prop :=
  exists mac, zlen mac = 6 /\ n_sent n' = padded (tcp_frame n mac c flags payload) :: n_sent n.

Lemma send_control_spec c flags n : wp (tcp_send_control c flags) n (fun r n' => at_once n n' /\
  (r = -1 /\ n' = n \/ r = 0 /\ (net_ok n -> sent_segment n n' c flags []))).
Proof.
  unfold tcp_send_control. wp_step. apply arp_lookup_answer. intros m Hm. destruct m as [mac|]; [|apply wp_ret; split; [done|tauto]].
  wp_step. wp_step. eapply wp_mono; [apply net_send_spec|]. intros r n' (H1 & _ & [(-> & _ & Es)|(-> & -> & _)]); split; try done; [right|tauto].
  split; [done|]. intros Hn. exists mac. eauto.
Qed.

(** Three attempts: [J k] holds after [k] of them, and does not look at their count. *)
Section Tries.
Context {R : Type} (body : atm_tcp_conn -> T (atm_tcp_conn + R)) (J : nat -> atm_tcp_conn -> net_state -> Prop) (P : R -> net_state -> Prop).
Context (Hb : forall k c n, net_ok n -> J k c n -> wp (body c) n (fun r n' => onward n n' /\ match r with inl c' => J (S k) c' n' | inr x => P x n' end)).
Context (Hk : forall k c n i, J k c n -> J k (c <| c_retry_count := i |>) n).

Lemma retries_spec left k c n : net_ok n -> J k c n ->
  wp (retries body left c) n (fun r n' => onward n n' /\ match r with inl c' => J (left + k) c' n' | inr x => P x n' end).
Proof.
  revert k c n. induction left as [|left IH]; intros k c n Hn HJ; cbn [retries]; [by apply wp_ret|].
  wp_step. eapply wp_mono; [by apply Hb|]. intros [c'|x] n' [H1 Hr]; cbv beta match; [|by apply wp_ret].
  eapply wp_mono; [apply (IH (S k)); [by apply H1|by apply Hk]|]. intros r n'' [H2 Hr']. split; [by etransitivity|].
  destruct r; [|done]. by rewrite Nat.add_succ_comm.
Qed.
Lemma try_three_spec c n : net_ok n -> J 0 c n ->
  wp (try_three body c) n (fun r n' => onward n n' /\ match r with inl c' => J 3 c' n' | inr x => P x n' end).
Proof. intros Hn HJ. unfold try_three. apply (retries_spec 3 0); [done|by apply Hk]. Qed.
End Tries.

(** How often a frame was sent between two states. *)
Definition times_sent (frame : list byte) (n n' : net_state) (k : nat) : Prop :=
  exists l, n_sent n' = l ++ n_sent n /\ (k <= length (filter (frame =.) l))%nat.

Lemma times_sent_0 frame n n' : onward n n' -> times_sent frame n n' 0.
Proof. intros [_ _ _ _ [l E] _ _]. exists l. split; [done|lia]. Qed.
Lemma times_sent_later frame n n1 n2 k : times_sent frame n n1 k -> onward n1 n2 -> times_sent frame n n2 k.
Proof.
  intros (l & E & Hk) [_ _ _ _ [l2 E2] _ _]. exists (l2 ++ l). split; [by rewrite E2, E, app_assoc|].
  rewrite list.filter_app, length_app. lia.
Qed.
Lemma times_sent_next frame n n1 n2 k : times_sent frame n n1 k -> n_sent n2 = frame :: n_sent n1 -> times_sent frame n n2 (S k).
Proof.
  intros (l & E & Hk) E2. exists (frame :: l). split; [by rewrite E2, E|]. rewrite filter_cons_True by done. simpl. lia.
Qed.
Lemma times_sent_le frame n n' j k : (j <= k)%nat -> times_sent frame n n' k -> times_sent frame n n' j.
Proof. intros Hj (l & E & Hk). exists l. split; [done|lia]. Qed.

Definition slot_ok (S : Z -> list byte -> Prop) (o : ooo_segment) : Prop :=
  length (o_data o) = 512%nat /\
  (truth (o_used o) = true -> 0 < o_len o <= ATM_TCP_MSS /\ S (o_seq o) (take (Z.to_nat (o_len o)) (o_data o))).

Record conn_ok (S : Z -> list byte -> Prop) (c : atm_tcp_conn) : Prop := mk_conn_ok {
  co_fields : conn_fields c;
  co_slots : length (c_ooo c) = 2%nat;
  co_ooo : Forall (slot_ok S) (c_ooo c);
  co_peer : 0 <= c_peer_window c < 65536;
  co_cwnd : c_state c = ATM_TCP_ESTABLISHED -> ATM_TCP_MSS <= c_cwnd c <= 4 * ATM_TCP_MSS }.

Section Ops.
Context (S : Z -> list byte -> Prop).
Implicit Types (c : atm_tcp_conn) (n : net_state) (g : segment).

(** The connection is the same one: ports, address, numbers of its own side. *)
Definition same_peer c c' : Prop :=
  c_remote_ip c' = c_remote_ip c /\ c_local_port c' = c_local_port c /\ c_remote_port c' = c_remote_port c.

#[export] Instance same_peer_preorder : PreOrder same_peer.
Proof. split; [done|]. intros c1 c2 c3 (E1 & E2 & E3) (F1 & F2 & F3). unfold same_peer. split_and!; congruence. Qed.

(** ** The out-of-order buffer *)

Lemma first_slot c p i : length (c_ooo c) = 2%nat -> first_idx p 0 ATM_TCP_OOO_MAX = Some i -> p i = true /\ exists o, aget (c_ooo c) i = Some o.
Proof. intros Hl (Hr & Hp & _)%first_idx_Some. split; [done|]. apply aget_is_Some. rewrite Hl. unfold ATM_TCP_OOO_MAX in Hr. lia. Qed.

Lemma slot_at c i o : Forall (slot_ok S) (c_ooo c) -> aget (c_ooo c) i = Some o -> slot_ok S o.
Proof. intros Hs Ho. unfold aget in Ho. case_match; [done|]. by apply (proj1 (list.Forall_lookup _ _) Hs _ _ Ho). Qed.

Lemma slots_set l i o : Forall (slot_ok S) l -> slot_ok S o -> Forall (slot_ok S) (aset l i o).
Proof. intros Hl Ho. unfold aset. case_match; [done|]. by apply Forall_insert. Qed.

Lemma ooo_store_ok c seq data : conn_ok S c -> (0 < zlen data -> S seq data) -> conn_ok S (tcp_ooo_store c seq data) /\
  same_peer c (tcp_ooo_store c seq data) /\ c_ack (tcp_ooo_store c seq data) = c_ack c /\ c_state (tcp_ooo_store c seq data) = c_state c.
Proof.
  intros Hc HS. unfold tcp_ooo_store. case_match eqn:E; [done|]. apply orb_false_iff in E as [E0 E1].
  apply Z.eqb_neq in E0. apply Z.ltb_ge in E1. case_match; [done|]. destruct (first_idx (ooo_free c) 0 _) as [i|] eqn:Ei; [|done].
  destruct Hc as [h1 h2 h3 h4 h5]. destruct (first_slot c _ i h2 Ei) as (_ & o & Ho). rewrite Ho. split_and!; [|done..].
  destruct (slot_at c i o h3 Ho) as [Hd _]. unfold ATM_TCP_MSS in E1. constructor; cbn; try done.
  - by destruct h1.
  - by rewrite aset_length.
  - apply slots_set; [done|]. split; cbn; [rewrite length_app, length_drop; lia|]. intros _. split; [unfold ATM_TCP_MSS; lia|].
    rewrite Nat2Z.id, take_app_length. apply HS. lia.
Qed.

Lemma ooo_take_spec c cap n : conn_ok S c -> wp (tcp_ooo_take c cap) n (fun '(out, c') n' => n' = n /\
  (out = [] /\ c' = c \/ 0 < zlen out <= cap /\ S (c_ack c) out /\ c_ack c' = u32 (c_ack c + zlen out) /\ conn_ok S c' /\ same_peer c c' /\
   c_state c' = c_state c)).
Proof.
  intros Hc. unfold tcp_ooo_take. destruct (first_idx _ 0 _) as [i|] eqn:Ei; [|apply wp_ret; tauto]. destruct Hc as [h1 h2 h3 h4 h5].
  destruct (first_slot c _ i h2 Ei) as (Hp & o & Ho). destruct (slot_at c i o h3 Ho) as [Hd Hu].
  unfold ooo_ready in Hp. rewrite Ho, !andb_true_iff, Z.eqb_eq, Z.leb_le in Hp. destruct Hp as [[Hused Hseq] Hcap].
  destruct (Hu Hused) as [Hlen HS]. unfold ATM_TCP_MSS in Hlen. wp_step. apply (wp_deref _ _ o); [done|]. cbv beta. wp_step.
  destruct (slice_total (o_data o) 0 (o_len o)) as (v & Av & Ev & Hv); [lia..|]. eapply wp_answer; [exact Av|]. apply wp_ret. split; [done|]. right.
  rewrite Hv, Ev. split_and!; [lia|lia| |done| |done|done].
  - by rewrite <- Hseq, drop_0.
  - constructor; cbn; try done; [|by rewrite aset_length|by apply slots_set].
    destruct h1. constructor; cbn; try done. apply u32_range.
Qed.

(** ** Receiving *)

(** The peer of [c] sends only what has the property. *)
Definition peer_sends c n : Prop := forall n' g, seen n n' g -> g_src_port g = c_remote_port c -> g_dst_port g = c_local_port c -> S (g_seq g) (g_data g).

(** The outcomes of [tcp_recv]. *)
Definition recv_outcome c n cap (x : Z * list byte * atm_tcp_conn) n' : Prop :=
  let '(r, bs, c') := x in
  conn_ok S c' /\ same_peer c c' /\
  (r = -1 /\ c_ack c' = c_ack c /\ c_state c' = c_state c \/ r = -1 /\ c_state c' = ATM_TCP_ERROR \/
   r = zlen bs /\ 0 < r <= cap /\ S (c_ack c) bs /\ c_ack c' = u32 (c_ack c + r) /\ c_state c' = ATM_TCP_ESTABLISHED /\
   exists n1, onward n n1 /\ sent_segment n1 n' c' TCP_ACK []).

Lemma conn_error c : conn_ok S c -> conn_ok S (c <| c_state := ATM_TCP_ERROR |>).
Proof. intros [[] h2 h3 h4 h5]. by constructor. Qed.
Lemma conn_peer_window c w : conn_ok S c -> 0 <= w < 65536 -> conn_ok S (c <| c_peer_window := w |>).
Proof. intros [[] h2 h3 h4 h5] Hw. by constructor. Qed.
Lemma conn_ack c a : conn_ok S c -> conn_ok S (c <| c_ack := u32 a |>).
Proof. intros [[] h2 h3 h4 h5]. constructor; try done. constructor; try done. apply u32_range. Qed.

(** The acknowledgement after data was taken out. *)
Lemma recv_ack c c' n0 n cap out : onward n0 n -> net_ok n -> conn_ok S c' -> same_peer c c' -> c_state c' = ATM_TCP_ESTABLISHED ->
  0 < zlen out <= cap -> S (c_ack c) out -> c_ack c' = u32 (c_ack c + zlen out) ->
  wp (tcp_send_control c' TCP_ACK) n (fun r n' => onward n n' /\
    recv_outcome c n0 cap (if r <? 0 then (-1, out, c' <| c_state := ATM_TCP_ERROR |>) else (zlen out, out, c')) n').
Proof.
  intros H0 Hn Hc Hp Hs Hl HS Ha. eapply wp_mono; [apply send_control_spec|]. intros r n' [[H1 _] [[-> ->]|[-> Hsent]]]; split; try done.
  - split_and!; [by apply conn_error|apply Hp..|]. right. by left.
  - split_and!; [done|apply Hp..|]. right. right. split_and!; try done; [lia..|]. exists n. split; [done|]. by apply Hsent.
Qed.

Lemma recv_segment_spec c0 cap c g n0 n : net_ok n -> onward n0 n -> conn_ok S c -> same_peer c0 c -> c_ack c = c_ack c0 ->
  c_state c = ATM_TCP_ESTABLISHED -> c_state c0 = ATM_TCP_ESTABLISHED -> seen n0 n g -> peer_sends c0 n0 ->
  wp (recv_segment cap c g) n (fun r n' => match r with
    | inl c' => at_once n n' /\ (conn_ok S c' /\ same_peer c0 c' /\ c_ack c' = c_ack c0 /\ c_state c' = ATM_TCP_ESTABLISHED)
    | inr x => onward n n' /\ recv_outcome c0 n0 cap x n' end).
Proof.
  intros Hn H0 Hc Hp Ha Hs Hs0 Hg HS. pose proof (seen_fields _ _ _ Hg) as Hf. unfold recv_segment.
  assert (Hstay : wp (ret (inl c)) n (fun r n' => match r with
    | inl c' => at_once n n' /\ (conn_ok S c' /\ same_peer c0 c' /\ c_ack c' = c_ack c0 /\ c_state c' = ATM_TCP_ESTABLISHED)
    | inr x => onward n n' /\ recv_outcome c0 n0 cap x n' end)) by (by apply wp_ret).
  case_match eqn:E1; [done|]. apply orb_false_iff in E1 as [E1 E2]. apply negb_false_iff, Z.eqb_eq in E1, E2.
  destruct Hp as (P1 & P2 & P3). assert (HS' : S (g_seq g) (g_data g)) by (apply (HS _ _ Hg); congruence).
  case_match eqn:E3; [done|]. apply orb_false_iff in E3 as [E3 _]. apply Z.eqb_neq in E3. case_match eqn:E4.
  - destruct (ooo_store_ok c (g_seq g) (g_data g) Hc) as (Q1 & Q2 & Q3 & Q4); [done|]. wp_step.
    eapply wp_mono; [apply send_control_spec|]. intros r n' [H1 _]. apply wp_ret. split; [done|]. split; [by apply conn_peer_window; [|apply Hf]|].
    cbn. rewrite Q3, Q4. split; [|done]. by etransitivity; [|exact Q2].
  - case_match eqn:E5; [done|]. apply orb_false_iff in E5 as [E5 E6]. apply Z.ltb_ge in E5. apply negb_false_iff, Z.eqb_eq in E6.
    wp_step. eapply wp_mono; [eapply (recv_ack c0 _ n0 n cap (g_data g)); try done|].
    + apply conn_peer_window; [by apply conn_ack|apply Hf].
    + lia.
    + by rewrite <- Ha, <- E6.
    + cbn. by rewrite Ha.
    + intros r n' H'. by apply wp_ret.
Qed.

Lemma tcp_recv_spec c cap timeout n : net_ok n -> conn_ok S c -> limit_ok timeout -> peer_sends c n ->
  wp (tcp_recv c cap timeout) n (fun x n' => onward n n' /\ recv_outcome c n cap x n').
Proof.
  intros Hn Hc Ht HS. unfold tcp_recv. wp_step.
  { apply wp_ret. split; [done|]. split_and!; try done. by left. }
  apply orb_false_iff in E as [_ Es]. apply negb_false_iff, bool_decide_eq_true in Es.
  wp_step. eapply wp_mono; [by apply ooo_take_spec|]. intros [out c1] n1 [-> Htake]. cbv beta match. wp_step.
  - apply Z.ltb_lt in E. destruct Htake as [[-> _]|(Hl & HSo & Ha & Hc1 & Hp & Hs1)]; [simpl in E; lia|].
    wp_step. eapply wp_mono; [apply (recv_ack c c1 n n cap out); try done; by rewrite Hs1|]. intros r n' H'. by apply wp_ret.
  - destruct Htake as [[-> ->]|(Hl & _)]; [|apply Z.ltb_ge in E; lia]. wp_step.
    eapply wp_mono; [apply (await_spec timeout (recv_segment cap) n
      (fun c' _ => conn_ok S c' /\ same_peer c c' /\ c_ack c' = c_ack c /\ c_state c' = ATM_TCP_ESTABLISHED) (fun x n' => recv_outcome c n cap x n')); try done|].
    + intros c1 g n1 Hn1 H1 (I1 & I2 & I3 & I4) Hg. by apply recv_segment_spec.
    + intros [c1|x] n1 [H1 Hr]; apply wp_ret; split; try done. destruct Hr as (I1 & I2 & I3 & I4).
      split_and!; try done; [apply I2..|]. left. split_and!; [done|done|congruence].
Qed.

(** ** Sending *)

Definition only_retries c c' : Prop := exists k, c' = c <| c_retry_count := k |>.

Lemma only_retries_refl c : only_retries c c.
Proof. exists (c_retry_count c). by destruct c. Qed.
Lemma only_retries_again c c' k : only_retries c c' -> only_retries c (c' <| c_retry_count := k |>).
Proof. intros [j ->]. by exists k. Qed.
Lemma only_retries_ok c c' : only_retries c c' -> conn_ok S c -> conn_ok S c'.
Proof. intros [j ->] [[] h2 h3 h4 h5]. by constructor. Qed.

Definition data_frame n mac c p : list byte := padded (tcp_frame n mac c (Z.lor TCP_ACK TCP_PSH) p).

Definition send_outcome c n (p : list byte) (x : Z * atm_tcp_conn) n' : Prop :=
  let '(r, c') := x in
  conn_ok S c' /\ same_peer c c' /\ c_ack c' = c_ack c /\
  (r = -1 /\ only_retries c c' /\ n' = n \/
   (exists mac g, r = zlen p /\ 0 < r <= Z.min (c_peer_window c) (c_cwnd c) /\ zlen mac = 6 /\ times_sent (data_frame n mac c p) n n' 1 /\
     seen n n' g /\ acknowledges c (u32 (c_seq c + r)) g = true /\ c_seq c' = u32 (c_seq c + r) /\ c_peer_window c' = g_window g /\
     c_state c' = ATM_TCP_ESTABLISHED) \/
   (exists mac, r = -1 /\ zlen mac = 6 /\ times_sent (data_frame n mac c p) n n' 3 /\ c_state c' = ATM_TCP_ERROR /\ c_seq c' = c_seq c /\
     c_cwnd c' = ATM_TCP_MSS)).

Lemma window_allows c len : tcp_window_allows c len = true -> 0 <= len -> 0 < len <= Z.min (c_peer_window c) (c_cwnd c) /\ len <= ATM_TCP_MAX_PAYLOAD.
Proof.
  unfold tcp_window_allows. intros H Hl. rewrite !andb_true_iff, !negb_true_iff, !Z.eqb_neq, !Z.leb_le in H.
  destruct (Z.ltb_spec (c_peer_window c) (c_cwnd c)); lia.
Qed.

Lemma congestion_ack_ok c len : conn_ok S c -> 0 <= len <= ATM_TCP_MAX_PAYLOAD -> conn_ok S (tcp_congestion_ack c len) /\ same_peer c (tcp_congestion_ack c len) /\
  c_ack (tcp_congestion_ack c len) = c_ack c /\ c_seq (tcp_congestion_ack c len) = c_seq c /\ c_state (tcp_congestion_ack c len) = c_state c /\
  c_peer_window (tcp_congestion_ack c len) = c_peer_window c.
Proof.
  intros Hc Hl. unfold tcp_congestion_ack. case_match; [|done]. split_and!; try done. destruct Hc as [[] h2 h3 h4 h5]. constructor; try done.
  cbn. intros Es%h5. unfold ATM_TCP_MSS, ATM_TCP_MAX_PAYLOAD in *. rewrite u32_small by lia.
  destruct (Z.ltb_spec (512 * 4) (c_cwnd c + len)); [lia|]. rewrite u16_small; lia.
Qed.

Lemma tcp_send_spec c p n : net_ok n -> conn_ok S c -> wp (tcp_send c p) n (fun x n' => onward n n' /\ send_outcome c n p x n').
Proof.
  intros Hn Hc. unfold tcp_send.
  assert (Hrefuse : wp (ret (-1, c)) n (fun x n' => onward n n' /\ send_outcome c n p x n')).
  { apply wp_ret. split; [done|]. split_and!; try done. left. split_and!; [done|apply only_retries_refl|done]. }
  wp_step; [done|]. apply orb_false_iff in E as [Es Ew]. apply negb_false_iff in Es, Ew. apply bool_decide_eq_true in Es.
  destruct (window_allows c _ Ew) as [Hlen Hmax]; [lia|]. wp_step. apply arp_lookup_answer. intros m Hm. destruct m as [mac|]; [|done].
  specialize (Hm mac eq_refl Hn). wp_step. wp_step. set (frame := tcp_frame n mac c _ p). set (expected := u32 _).
  wp_step. eapply wp_mono.
  - apply (try_three_spec _ (fun k c' n' => only_retries c c' /\ onward n n' /\ times_sent (padded frame) n n' k /\ (k = O -> n' = n) /\ (k <> O -> n_initialized n <> 0))
      (send_outcome c n p)); [|intros k c' n' i (J1 & J2); split; [by apply only_retries_again|done]|done
      |split_and!; [apply only_retries_refl|done|by apply times_sent_0|done|done]].
    intros k c1 n1 Hn1 (J1 & J2 & J3 & J4 & J5). wp_step. eapply wp_mono; [apply net_send_spec|].
    intros r n2 ([H2 [Ew2 _]] & _ & Hr). destruct Hr as [(-> & Hi & E2)|(-> & -> & Hi)]; change (0 <? 0) with false; change (-1 <? 0) with true; cbv beta match.
    + assert (J3' := times_sent_next _ _ _ _ _ J3 E2). assert (J2' : onward n n2) by (by etransitivity).
      eapply wp_mono; [apply (await_spec 100 _ n (fun c' n' => only_retries c c' /\ onward n n' /\ times_sent (padded frame) n n' (Datatypes.S k)) (send_outcome c n p)); try done|].
      * intros a na nb Hab (K1 & K2 & K3). split_and!; [done|by etransitivity|by eapply times_sent_later].
      * intros c3 g n3 Hn3 H3 (K1 & K2 & K3) Hg. wp_step; apply wp_ret; [|done]. split; [done|].
        pose proof (seen_fields _ _ _ Hg) as Hf. destruct K1 as [j ->].
        assert (Hc3 : conn_ok S ((c <| c_retry_count := j |>) <| c_peer_window := g_window g |> <| c_seq := expected |>)).
        { destruct Hc as [[] h2 h3 h4 h5]. constructor; try done; [|apply Hf]. constructor; try done. apply u32_range. }
        destruct (congestion_ack_ok _ (zlen p) Hc3) as (Q1 & Q2 & Q3 & Q4 & Q5 & Q6); [lia|].
        split; [done|]. split; [by etransitivity; [|exact Q2]|]. split; [by rewrite Q3|]. right. left. exists mac, g. rewrite Q4, Q5, Q6.
        split_and!; try done; try lia. eapply times_sent_le; [|exact K3]. lia.
      * by apply J2'.
      * intros [c3|x] n3 [H3 Hr]; (split; [by etransitivity|]); [|done]. destruct Hr as (K1 & K2 & K3). split_and!; try done.
        intros _. by rewrite <- (on_initialized _ _ J2).
    + apply wp_ret. split; [done|]. destruct J1 as [j ->]. split; [by apply (only_retries_ok c); [exists j|]|]. split; [done|]. split; [done|]. left.
      assert (Hi0 : n_initialized n = 0).
      { destruct Hi as [Hi|Hi]; [by rewrite <- (on_initialized _ _ J2)|]. unfold frame in Hi.
        pose proof (tcp_frame_length n mac c (Z.lor TCP_ACK TCP_PSH) p [] (mk_card n (no_mac n Hn) (no_ip n Hn)) Hm (co_fields _ _ Hc)) as El.
        rewrite app_nil_r in El. rewrite El in Hi. unfold RTL_TX_BUF_SIZE, ATM_TCP_MAX_PAYLOAD in *. simpl in Hi. lia. }
      split_and!; [done|by exists j|]. destruct k; [by apply J4|]. by destruct J5.
  - intros [c1|x] n1 [H1 Hr]; apply wp_ret; split; try done. destruct Hr as ([j ->] & _ & K3 & _).
    split; [|split; [done|split; [done|]]].
    + destruct Hc as [[] h2 h3 h4 h5]. by constructor.
    + right. right. by exists mac.
Qed.

(** ** Opening and closing *)

(** Slots that were never used say nothing about data. *)
Lemma fresh_slots : Forall (slot_ok S) (c_ooo conn_zero).
Proof. apply list.Forall_forall. intros o Ho%elem_of_replicate. destruct Ho as [-> _]. by split. Qed.

Lemma first_seq_range n port : net_ok n -> 0 <= Z.lxor (n_ticks n) (u32 port) < 2 ^ 32.
Proof. intros Hn. apply lxor_range; [lia|apply Hn|apply u32_range]. Qed.

Lemma limit_third t : limit_ok t -> limit_ok (t / 3 + 1).
Proof. unfold limit_ok. intros Ht. Z.div_mod_to_equations. lia. Qed.

Lemma conn_established c s : conn_ok S c -> 0 <= s < 2 ^ 32 -> ATM_TCP_MSS <= c_cwnd c <= 4 * ATM_TCP_MSS ->
  conn_ok S (c <| c_seq := s |> <| c_state := ATM_TCP_ESTABLISHED |>).
Proof. intros [[] h2 h3 h4 h5] Hs Hw. by constructor. Qed.

(** A handshake answered: a segment with flags [flags] was sent from [c1], which is [c] but for the attempts. *)
Definition sent_from c flags n n' : Prop := exists c1 n1 n2, only_retries c c1 /\ onward n n1 /\ sent_segment n1 n2 c1 flags [] /\ onward n2 n'.

Definition completed out n n' (x : Z * atm_tcp_conn) : Prop :=
  conn_ok S x.2 /\ same_peer out x.2 /\ c_ack x.2 = c_ack out /\
  (x.1 = -1 /\ c_state x.2 = ATM_TCP_ERROR \/
   x.1 = 0 /\ c_state x.2 = ATM_TCP_ESTABLISHED /\ sent_from out TCP_SYNACK n n' /\ c_seq x.2 = u32 (c_seq out + 1) /\
   exists g, seen n n' g /\ completes out g = true).

Lemma failed_completed c c' n n' : conn_ok S c -> only_retries c c' -> completed c n n' (failed c').
Proof. intros Hc [j ->]. split; [by apply conn_error, (only_retries_ok c); [exists j|]|]. split; [done|]. split; [done|]. by left. Qed.

Lemma accept_request_spec timeout out n : net_ok n -> limit_ok timeout -> conn_ok S out -> ATM_TCP_MSS <= c_cwnd out <= 4 * ATM_TCP_MSS ->
  wp (accept_request timeout out) n (fun x n' => onward n n' /\ completed out n n' x).
Proof.
  intros Hn Ht Hc Hw. unfold accept_request. wp_step. eapply wp_mono.
  - apply (try_three_spec _ (fun _ c' n' => only_retries out c' /\ onward n n') (fun x n' => completed out n n' x)); [| |done|split; [apply only_retries_refl|done]].
    2: { intros _ c' n' i [J1 J2]. split; [by apply only_retries_again|done]. }
    intros _ c1 n1 Hn1 [J1 J2]. wp_step. eapply wp_mono; [apply send_control_spec|]. intros r n2 [[H2 _] Hr].
    destruct Hr as [[-> ->]|[-> Hsent]]; change (0 <? 0) with false; change (-1 <? 0) with true; cbv beta match.
    { apply wp_ret. split; [done|]. by apply failed_completed. }
    assert (J2' : onward n n2) by (by etransitivity). assert (Hs2 : forall n', onward n2 n' -> sent_from out TCP_SYNACK n n').
    { intros n' H'. exists c1, n1, n2. split_and!; [done|done|by apply Hsent|done]. }
    eapply wp_mono; [apply (await_spec _ _ n (fun c' n' => only_retries out c' /\ onward n2 n') (fun x n' => completed out n n' x)); [by apply limit_third| | |by apply J2'|done|done]|].
    + intros a na nb Hab [K1 K2]. split; [done|by etransitivity].
    + intros c3 g n3 Hn3 H3 [K1 K2] Hg. wp_step; apply wp_ret; [|done]. split; [done|]. destruct K1 as [j ->].
      split; [apply conn_established; [by apply (only_retries_ok out); [exists j|]|apply u32_range|done]|]. split; [done|]. split; [done|]. right.
      split_and!; [done|done|by apply Hs2|done|]. by exists g.
    + intros [c3|x] n3 [H3 Hr]; (split; [by etransitivity|]); [|done]. destruct Hr as [K1 K2]. split; [done|by etransitivity].
  - intros [c1|x] n1 [H1 Hr]; apply wp_ret; split; try done. by apply failed_completed; [|apply Hr].
Qed.

Lemma accepted_ok l g n : net_ok n -> conn_fields l -> seg_fields g -> conn_ok S (accepted l g (n_ticks n)).
Proof.
  intros Hn [] []. constructor; try done; [|apply fresh_slots]. constructor; try done; [by apply first_seq_range|apply u32_range].
Qed.

(** The request the connection answers, and how the handshake ended. *)
Definition accept_outcome l n (x : Z * atm_tcp_conn) n' : Prop :=
  exists g n1, onward n n1 /\ seen n n1 g /\ g_flags g = TCP_SYN /\ g_dst_port g = c_local_port l /\ completed (accepted l g (n_ticks n1)) n1 n' x.

Lemma tcp_accept_spec l out timeout n : net_ok n -> limit_ok timeout -> conn_fields l ->
  wp (tcp_accept l out timeout) n (fun x n' => onward n n' /\ (x = (-1, out) \/ accept_outcome l n x n')).
Proof.
  intros Hn Ht Hl. unfold tcp_accept. wp_step; [apply wp_ret; split; [done|by left]|]. wp_step. eapply wp_mono.
  - apply (await_spec timeout _ n (fun o _ => o = out) (accept_outcome l n)); try done. intros o g n1 Hn1 H1 -> Hg.
    wp_step; [by apply wp_ret|]. apply orb_false_iff in E0 as [E1 E2]. apply negb_false_iff, Z.eqb_eq in E1, E2.
    unfold pit_get_ticks. wp_step. wp_step. wp_step.
    eapply wp_mono; [apply accept_request_spec; [done|done|by apply accepted_ok, (seen_fields _ _ _ Hg)|done]|].
    intros x n2 [H2 Hx]. apply wp_ret. split; [done|]. by exists g, n1.
  - intros [o|x] n1 [H1 Hr]; apply wp_ret; split; try done; [left|right]; by subst.
Qed.

Lemma resolve_peer_spec ip timeout n : net_ok n -> limit_ok timeout -> wp (resolve_peer ip timeout) n (fun _ n' => onward n n').
Proof.
  intros Hn Ht. unfold resolve_peer. wp_step. apply arp_lookup_answer. intros m _. wp_step; [by apply wp_ret|]. wp_step.
  eapply wp_mono; [apply arp_request_spec|]. intros _ n1 [[H1 _] _]. cbv beta. unfold pit_get_ticks. wp_step. wp_step. wp_step.
  eapply wp_mono.
  - apply (poll_until_spec _ _ _ (fun _ _ => True) (fun _ _ => True)); [by apply limit_third| |by apply H1|done].
    intros _ n2 Hn2 _. wp_step. eapply wp_mono; [by apply net_recv_spec|]. intros f n3 [H3 Hp]. cbv beta. wp_step. apply arp_lookup_answer.
    intros m' _. wp_step; [by apply wp_ret|]. wp_step. eapply wp_mono; [by apply pit_sleep_spec, H3|]. intros _ n4 (H4 & Ew & Hw). apply wp_ret.
    split; [by etransitivity|]. split; [by eapply polled_sleep|done].
  - intros _ n2 [H2 _]. cbv beta. wp_step. apply arp_lookup_answer. intros m' _. apply wp_ret. by etransitivity.
Qed.

(** The outcomes of [tcp_connect]: refused, failed, or answered by [g]. *)
Definition connect_outcome c ip port n (x : Z * atm_tcp_conn) n' : Prop :=
  x = (-1, c) /\ n' = n \/
  conn_ok S x.2 /\ c_remote_ip x.2 = ip /\ c_remote_port x.2 = port /\ c_local_port x.2 = n_next_port n /\
  (x.1 = -1 /\ c_state x.2 = ATM_TCP_ERROR \/
   exists c0 g, same_peer x.2 c0 /\ sent_from c0 TCP_SYN n n' /\ seen n n' g /\ answers c0 g = true /\
     c_state x.2 = ATM_TCP_ESTABLISHED /\ c_seq x.2 = u32 (c_seq c0 + 1) /\ c_ack x.2 = u32 (g_seq g + 1) /\ c_peer_window x.2 = g_window g /\
     (x.1 = -1 \/ x.1 = 0 /\ sent_from x.2 TCP_ACK n n')).

Lemma tcp_connect_spec c ip port timeout n : net_ok n -> limit_ok timeout -> zlen ip = 4 -> 0 <= port < 65536 ->
  wp (tcp_connect c ip port timeout) n (fun x n' => onward n n' /\ connect_outcome c ip port n x n').
Proof.
  intros Hn Ht Hip Hport. unfold tcp_connect. wp_step. wp_step. wp_step; [apply wp_ret; split; [done|by left]|]. wp_step. wp_step.
  set (c0 := _ <| c_state := ATM_TCP_SYN_SENT |>). set (n0 := n <| n_next_port := _ |>).
  assert (Hn0 : onward n n0).
  { constructor; try done; [by exists []..|]. intros [h1 h2 h3 h4 h5 h6 h7]. constructor; try done. apply u16_range. }
  assert (Hc0 : conn_ok S c0).
  { constructor; try done; [|apply fresh_slots]. constructor; try done; [apply Hn|by apply first_seq_range]. }
  assert (Hfail : forall c1 n1 n2, onward n1 n2 -> only_retries c0 c1 -> connect_outcome c ip port n (failed c1) n2).
  { intros c1 n1 n2 _ [j ->]. right. split; [by apply conn_error, (only_retries_ok c0); [exists j|]|]. split_and!; try done. by left. }
  wp_step. eapply wp_mono; [by apply resolve_peer_spec; [apply Hn0|]|]. intros known n1 H1. cbv beta.
  assert (H01 : onward n n1) by (by etransitivity). wp_step; [apply wp_ret; split; [done|by apply (Hfail c0 n1); [|apply only_retries_refl]]|].
  wp_step. eapply wp_mono.
  - apply (try_three_spec _ (fun _ c' n' => only_retries c0 c' /\ onward n n') (connect_outcome c ip port n)); [| |by apply H01|split; [apply only_retries_refl|done]].
    2: { intros _ c' n' i [J1 J2]. split; [by apply only_retries_again|done]. }
    intros _ c1 n2 Hn2 [J1 J2]. wp_step. eapply wp_mono; [apply send_control_spec|]. intros r n3 [[H3 _] Hr].
    destruct Hr as [[-> ->]|[-> Hsent]]; change (0 <? 0) with false; change (-1 <? 0) with true; cbv beta match.
    { apply wp_ret. split; [done|]. by apply (Hfail c1 n2). }
    assert (J2' : onward n n3) by (by etransitivity).
    assert (Hs2 : forall n', onward n3 n' -> sent_from c0 TCP_SYN n n').
    { intros n' H'. exists c1, n2, n3. split_and!; [done|done|by apply Hsent|done]. }
    eapply wp_mono; [apply (await_spec _ _ n (fun c' n' => only_retries c0 c' /\ onward n3 n') (connect_outcome c ip port n)); [by apply limit_third| | |by apply J2'|done|done]|].
    + intros a na nb Hab [K1 K2]. split; [done|by etransitivity].
    + intros c3 g n4 Hn4 H4 [K1 K2] Hg. wp_step; [|by apply wp_ret]. wp_step. eapply wp_mono; [apply send_control_spec|].
      intros r n5 [[H5 _] Hr]. apply wp_ret. split; [done|]. destruct K1 as [j ->]. pose proof (seen_fields _ _ _ Hg) as [f1 f2 f3 f4 f5 f6]. right.
      assert (Hce : conn_ok S (established (c0 <| c_retry_count := j |>) g)).
      { destruct Hc0 as [[h1 h2 h3 h4 h5 h6] h7 h8 h9 h10]. constructor; try done. constructor; try done; apply u32_range. }
      split; [done|]. split_and!; [done..|]. right. exists c0, g.
      split_and!; [done..|apply Hs2; by etransitivity|by eapply seen_later|done|done|done|done|done|].
      destruct Hr as [[-> _]|[-> Hack]]; [by left|right]. split; [done|]. eexists _, n4, n5. split_and!; [apply only_retries_refl|done|by apply Hack|done].
    + intros [c3|x] n4 [H4 Hr]; (split; [by etransitivity|]); [|done]. destruct Hr as [K1 K2]. split; [done|by etransitivity].
  - intros [c1|x] n2 [H2 Hr]; apply wp_ret; (split; [by etransitivity|]); [|done]. by apply (Hfail c1 n1 n2); [|apply Hr].
Qed.

Lemma tcp_close_spec c n : wp (tcp_close c) n (fun x n' => at_once n n' /\
  (x.1 = 0 /\ c_state x.2 = ATM_TCP_CLOSED \/ x.1 = -1 /\ c_state x.2 = ATM_TCP_ERROR)).
Proof.
  unfold tcp_close. wp_step; [|apply wp_ret; split; [done|by left]]. wp_step. eapply wp_mono; [apply send_control_spec|].
  intros r n' [H1 Hr]. cbv beta. wp_step; apply wp_ret; (split; [done|]); [by right|by left].
Qed.
End Ops.

#[export] Instance net_stack_total : ProcFd.TcpTotal net_state.
Proof. intros c n. eapply wp_mono; [apply tcp_close_spec|done]. Qed.
