(* ===== verification/NetProps.v ===== *)
(** * Properties of frames, ARP, UDP and TCP

    No frame takes the parsers outside it, datagrams arrive as they were sent, addresses
    learned from the wire are found again. *)

From S2P Require Import Prelude Kernel Socket Net NetInv Tcp TcpFrame TcpOps.

(** ** Datagrams *)

Section Datagram.
Context (n : net_state) (mac dst : list Z) (src_port dst_port : Z) (payload pad : list byte).
Context (Hn : card_ok n) (Hmac : zlen mac = 6) (Hdst : zlen dst = 4).
Context (Hs : 0 <= src_port < 65536) (Hd : 0 <= dst_port < 65536) (Hp : zlen payload <= NET_UDP_PAYLOAD_MAX).

Lemma udp_frame_split : udp_frame n mac dst src_port dst_port payload ++ pad =
  eth_header mac (n_mac n) ++ ip_packet (n_ip n) dst (n_packet_id n) IPPROTO_UDP (8 + zlen payload) ++
  (be16 src_port ++ be16 dst_port ++ be16 (8 + zlen payload) ++ le16 0 ++ payload) ++ pad.
Proof. unfold udp_frame. by rewrite <- !app_assoc. Qed.

Lemma udp_frame_length : zlen (udp_frame n mac dst src_port dst_port payload ++ pad) = 42 + zlen payload + zlen pad.
Proof.
  rewrite udp_frame_split. destruct Hn. rewrite !length_app, !Nat2Z.inj_add, zlen_eth, zlen_ip_packet by done.
  change (zlen (be16 src_port)) with 2. change (zlen (be16 dst_port)) with 2. change (zlen (be16 (8 + zlen payload))) with 2.
  change (zlen (le16 0)) with 2. lia.
Qed.

Lemma udp_frame_parse cap s Q : zlen payload <= cap -> Q (Some (payload, u8 <$> n_ip n, src_port)) s ->
  wp (net_udp_parse_frame (udp_frame n mac dst src_port dst_port payload ++ pad) dst_port cap) s Q.
Proof.
  intros Hcap HQ. unfold net_udp_parse_frame. rewrite udp_frame_length, udp_frame_split. destruct Hn as [Hm Hi]. unfold NET_UDP_PAYLOAD_MAX in Hp.
  assert (Hrd : forall A (g : option A) v (K : A -> T (option (list byte * list Z * Z))), g = Some v -> wp (K v) s Q -> wp (bind (deref (fun _ => g)) K) s Q).
  { intros A g v K E HK. by apply wp_bind, (wp_rd _ _ _ _ E). }
  rewrite (proj2 (Z.ltb_ge _ _)) by (unfold ETH_HLEN; lia).
  apply (Hrd _ _ _ _ (frame_ethertype _ _ _ _ _ _ _ _ Hmac Hm)). rewrite bswap16_twice by lia. cbn match beta.
  apply (Hrd _ _ _ _ (frame_ver _ _ _ _ _ _ _ _ Hmac Hm)). apply (Hrd _ _ _ _ (frame_protocol _ _ _ _ _ _ _ _ Hmac Hm)).
  change (Z.land 0x45 15 * 4) with 20. change (u8 IPPROTO_UDP) with IPPROTO_UDP. change (Z.shiftr 69 4 =? 4) with true.
  rewrite Z.eqb_refl, (proj2 (Z.ltb_ge _ (ETH_HLEN + 20 + 8))) by (unfold ETH_HLEN; lia). cbn [negb orb]. cbn match beta.
  apply (Hrd _ _ _ _ (frame_total _ _ _ _ _ _ _ _ Hmac Hm)). rewrite bswap16_twice by lia. change (u16 (20 + 8)) with 28.
  rewrite (proj2 (Z.ltb_ge _ 28)), (proj2 (Z.ltb_ge _ (ETH_HLEN + _))) by (unfold ETH_HLEN; lia). cbn [orb].
  change (ETH_HLEN + 20) with 34. rewrite <- !app_assoc.
  eapply Hrd; [change (34 + 4) with 38; field|]. eapply Hrd; [change (34 + 2) with 36; field|].
  rewrite !bswap16_twice by lia. rewrite (u16_small (8 + zlen payload - 8)), (u16_small (20 + (8 + zlen payload) - 20)) by lia. rewrite Z.eqb_refl.
  rewrite (proj2 (Z.ltb_ge _ 8)), (proj2 (Z.ltb_ge (20 + _ - 20) _)), (proj2 (Z.ltb_ge cap _)) by lia. cbn [negb orb].
  apply wp_bind. change (34 + 8) with 42.
  replace (eth_header mac (n_mac n) ++ ip_packet (n_ip n) dst (n_packet_id n) IPPROTO_UDP (8 + zlen payload) ++
    be16 src_port ++ be16 dst_port ++ be16 (8 + zlen payload) ++ le16 0 ++ payload ++ pad)
    with ((eth_header mac (n_mac n) ++ ip_packet (n_ip n) dst (n_packet_id n) IPPROTO_UDP (8 + zlen payload) ++
    be16 src_port ++ be16 dst_port ++ be16 (8 + zlen payload) ++ le16 0) ++ payload ++ pad) by (by rewrite <- !app_assoc).
  apply slice_mid; [|lia|].
  { rewrite !length_app, !Nat2Z.inj_add, zlen_eth, zlen_ip_packet by done. done. }
  rewrite <- !app_assoc. apply (Hrd _ _ _ _ (frame_src _ _ _ _ _ _ _ _ Hmac Hm Hi)). eapply Hrd; [field|].
  rewrite bswap16_twice by done. by apply wp_ret.
Qed.
End Datagram.

Lemma udp_resolve_spec target n : net_ok n -> wp (net_udp_resolve_mac target) n (fun m n' => onward n n' /\ forall mac, m = Some mac -> zlen mac = 6).
Proof.
  intros Hn. unfold net_udp_resolve_mac. wp_step. apply arp_lookup_answer. intros m Hm. destruct m as [mac|].
  { apply wp_ret. split; [done|]. intros ? [= <-]. by apply Hm. }
  wp_step. eapply wp_mono; [apply arp_request_spec|]. intros _ n1 [[H1 _] _]. cbv beta. unfold pit_get_ticks. wp_step. wp_step. wp_step.
  eapply wp_mono.
  - apply (poll_until_spec _ _ _ (fun _ _ => True) (fun mac _ => zlen mac = 6)); [done| |by apply H1|done].
    intros _ n2 Hn2 _. wp_step. eapply wp_mono; [by apply net_recv_spec|]. intros f n3 [H3 Hp]. cbv beta. wp_step. apply arp_lookup_answer.
    intros m' Hm'. destruct m' as [mac|]; [apply wp_ret; split; [done|by apply Hm', H3]|].
    wp_step. eapply wp_mono; [by apply pit_sleep_spec, H3|]. intros _ n4 (H4 & Ew & Hw). apply wp_ret.
    split; [by etransitivity|]. split; [by eapply polled_sleep|done].
  - intros r n2 [H2 Hr]. apply wp_ret. split; [by etransitivity|]. destruct r; [done|]. by intros ? [= <-].
Qed.

Lemma udp_sendto_spec dst sp dp payload n : net_ok n -> wp (net_udp_sendto dst sp dp payload) n (fun r n' => onward n n' /\
  (r = -1 \/ r = 0 /\ zlen payload <= NET_UDP_PAYLOAD_MAX /\ exists n1 mac, onward n n1 /\ zlen mac = 6 /\
     n_sent n' = padded (udp_frame n1 mac dst sp dp payload) :: n_sent n1)).
Proof.
  intros Hn. unfold net_udp_sendto. wp_step. wp_step. wp_step; [apply wp_ret; split; [done|by left]|].
  apply orb_false_iff in E as [[_ El]%orb_false_iff _]. wp_step. eapply wp_mono; [by apply udp_resolve_spec|]. intros m n1 [H1 Hm]. cbv beta.
  destruct m as [mac|]; [|apply wp_ret; split; [done|by left]]. wp_step. wp_step. wp_step. wp_step.
  assert (H2 : onward n1 (n1 <| n_packet_id := u16 (n_packet_id n1 + 1) |>)).
  { constructor; try done; [by exists []..|]. intros [h1 h2 h3 h4 h5 h6 h7]. by constructor. }
  eapply wp_mono; [apply net_send_spec|]. intros r n2 ([H3 _] & _ & Hr). split; [etransitivity; [exact H1|by etransitivity]|].
  destruct Hr as [(-> & _ & Es)|(-> & _)]; [right|by left]. split; [done|]. split; [by apply Z.ltb_ge|]. exists n1, mac. split_and!; [done|by apply Hm|exact Es].
Qed.

(** The receiving side: the next poll finds [f]. *)
Definition delivers (f : list byte) (n : net_state) : Prop :=
  exists d e w, n_wire n = (d, Some e) :: w /\ rx_good e ETH_MAX = true /\ frame_of e = f.

Lemma recv_delivered f n : net_ok n -> n_initialized n <> 0 -> delivers f n -> wp (net_recv ETH_MAX) n (fun r n' => r = f /\ onward n n').
Proof.
  intros Hn Hi (d & e & w & Ew & Hg & Ef). pose proof (no_wire n Hn) as Hw. rewrite Ew in Hw. apply list.Forall_cons in Hw as [He _]. specialize (He Hg). cbn in He.
  eapply wp_mono; [apply wp_and; [by apply net_recv_spec|]|]; [|intros r n' [[H1 _] H2]; split; [exact H2|exact H1]].
  unfold net_recv. wp_step. wp_step. rewrite (proj2 (Z.eqb_neq _ _) Hi). wp_step. wp_step. rewrite Ew. wp_step. wp_step. unfold elapse. wp_step. wp_step.
  rewrite Hg. cbn [negb]. pose proof Hg as Hg'. unfold rx_good in Hg'. rewrite !andb_true_iff, !Z.leb_le in Hg'.
  destruct (slice_total (rx_bytes e) 0 (rx_len e - 4)) as (v & Av & Ev & _); [lia..|]. wp_step. eapply wp_answer; [exact Av|]. cbv beta.
  wp_step. eapply wp_mono; [apply arp_observe_spec|]. intros _ n2 _. cbv beta. unfold rx_advance. do 4 wp_step. apply wp_ret. by rewrite Ev, <- Ef.
Qed.

(** ** Address resolution *)

Lemma octets_at_6 (l : list Z) f : zlen l = 6 -> octets_at ((zb <$> l) ++ f) 0 6 = Some (u8 <$> l).
Proof.
  intros Hl. destruct l as [|a [|b [|c [|d [|e [|g [|]]]]]]]; try (simpl in Hl; lia).
  change (Some [bz (zb a); bz (zb b); bz (zb c); bz (zb d); bz (zb e); bz (zb g)] = Some [u8 a; u8 b; u8 c; u8 d; u8 e; u8 g]). by rewrite !bz_zb_u8.
Qed.

Lemma u8_u8 (l : list Z) : u8 <$> (u8 <$> l) = u8 <$> l.
Proof. rewrite <- list_fmap_compose. apply list_fmap_ext. intros i x _. unfold compose, u8. by rewrite Z.mod_mod. Qed.
Lemma same_bytes_refl l : same_bytes l l = true.
Proof. by apply bool_decide_eq_true. Qed.
Lemma same_bytes_u8 l : same_bytes (u8 <$> l) l = true.
Proof. apply bool_decide_eq_true, u8_u8. Qed.

(** The fields an ARP packet is read from. *)
Section Arp.
Context (dst src sha spa tha tpa : list Z) (op : Z) (pad : list byte).
Context (Hdst : zlen dst = 6) (Hsrc : zlen src = 6) (Hsha : zlen sha = 6) (Hspa : zlen spa = 4) (Htha : zlen tha = 6) (Htpa : zlen tpa = 4).
Abbreviation frame := (arp_frame dst src op sha spa tha tpa ++ pad).

Lemma arp_frame_fields : half_at frame 12 = Some (net_bswap16 0x0806) /\ half_at frame 14 = Some (net_bswap16 1) /\
  half_at frame 16 = Some (net_bswap16 0x0800) /\ byte_at frame 18 = Some 6 /\ byte_at frame 19 = Some 4 /\ half_at frame 20 = Some (net_bswap16 op) /\
  octets_at frame 22 6 = Some (u8 <$> sha) /\ octets_at frame 28 4 = Some (u8 <$> spa) /\ octets_at frame 32 6 = Some (u8 <$> tha) /\
  octets_at frame 38 4 = Some (u8 <$> tpa).
Proof. unfold arp_frame. rewrite <- !app_assoc. split_and!; [field..|skip; by apply octets_at_6|field|skip; by apply octets_at_6|field]. Qed.

Lemma arp_frame_length : zlen frame = 42 + zlen pad.
Proof.
  unfold arp_frame. rewrite !length_app, !length_fmap, !Nat2Z.inj_add.
  change (zlen (be16 0x0806)) with 2. change (zlen (be16 1)) with 2. change (zlen (be16 0x0800)) with 2. change (zlen (be16 op)) with 2.
  change (zlen [zb ETH_ALEN; zb 4]) with 2. lia.
Qed.
End Arp.

(** What the cache holds after a packet for this host: a request is learned from and answered, a
    reply is learned from. *)
Lemma arp_observe_learns dst src op sha spa tha pad n :
  net_ok n -> zlen dst = 6 -> zlen src = 6 -> zlen sha = 6 -> zlen spa = 4 -> zlen tha = 6 ->
  op = ARP_REQUEST \/ op = ARP_REPLY /\ same_bytes tha (n_mac n) = true ->
  wp (net_arp_observe (arp_frame dst src op sha spa tha (n_ip n) ++ pad)) n (fun _ n' => at_once n n' /\
    n_arp n' = mk_arp (u8 <$> spa) (u8 <$> sha) (n_ticks n) 1 /\
    (op = ARP_REQUEST -> n_initialized n <> 0 ->
      n_sent n' = padded (arp_frame (u8 <$> sha) (n_mac n) ARP_REPLY (n_mac n) (n_ip n) (u8 <$> sha) (u8 <$> spa)) :: n_sent n)).
Proof.
  intros Hn Hdst Hsrc Hsha Hspa Htha Hop. eapply wp_mono; [apply wp_and; [apply arp_observe_spec|]|].
  2: { intros u n' [H1 H2]. split; [exact H1|exact H2]. }
  unfold net_arp_observe. rewrite arp_frame_length by (done || apply Hn).
  destruct (arp_frame_fields dst src sha spa tha (n_ip n) op pad) as (F1 & F2 & F3 & F4 & F5 & F6 & F7 & F8 & F9 & F10); try done; [apply Hn|].
  rewrite (proj2 (Z.ltb_ge _ _)) by (unfold ETH_HLEN, ARP_LEN; lia).
  do 5 (apply wp_bind; eapply wp_rd; [eassumption|]; cbv beta). rewrite !bswap16_twice by lia.
  change (negb (0x0806 =? 0x0806) || _ || _ || _ || _) with false. cbn match.
  do 5 (apply wp_bind; eapply wp_rd; [eassumption|]; cbv beta). wp_step. wp_step.
  assert (Hr : 0 <= op < 65536) by (destruct Hop as [->|[-> _]]; done). rewrite bswap16_twice, same_bytes_u8 by done. cbn [negb].
  assert (E1 : ((op =? ARP_REPLY) && negb (same_bytes (u8 <$> tha) (n_mac n))) = false).
  { destruct Hop as [->|[_ E]]; [done|]. unfold same_bytes in *. rewrite u8_u8, E. apply andb_false_r. }
  assert (E2 : (negb (op =? ARP_REQUEST) && negb (op =? ARP_REPLY)) = false) by (destruct Hop as [->|[-> _]]; done).
  rewrite E1, E2. wp_step. wp_step. destruct Hop as [->|[-> _]].
  - change (ARP_REQUEST =? ARP_REQUEST) with true. cbn match. wp_step. eapply wp_mono; [apply net_send_spec|].
    intros r n' (_ & Ea & Hs). apply wp_ret. split; [by rewrite Ea|]. intros _ Hi. destruct Hs as [(_ & _ & Es)|(_ & _ & [Hs|Hs])]; [exact Es|done|].
    exfalso. revert Hs. rewrite <- (app_nil_r (arp_frame _ _ _ _ _ _ _)), arp_frame_length; [unfold RTL_TX_BUF_SIZE; simpl; lia|..]; rewrite ?length_fmap; done || apply Hn.
  - apply wp_ret. split; [done|]. done.
Qed.

(** ** Two hosts, for evaluation *)

Definition demo_a : net_state :=
  mk_net 1 [2; 0; 0; 0; 0; 1] [10; 0; 2; 15] (mk_arp [10; 0; 2; 2] [2; 0; 0; 0; 0; 2] 0 1) 0 0 0 0 0 0 100 100 [] [] 49152 1 (mk_routes None [0; 0; 0; 0]).
Definition demo_b : net_state :=
  mk_net 1 [2; 0; 0; 0; 0; 2] [10; 0; 2; 2] (mk_arp [10; 0; 2; 15] [2; 0; 0; 0; 0; 1] 0 1) 0 0 0 0 0 0 100 100 [] [] 49152 1 (mk_routes None [0; 0; 0; 0]).
(** A frame as the card hands it over, after [d] ticks. *)
Definition arrival (d : Z) (f : list byte) : Z * option rx_entry := (d, Some (mk_rx 1 (zlen f + 4) f)).

Lemma demo_a_ok : net_ok demo_a.
Proof. by constructor. Qed.
Lemma demo_b_ok : net_ok demo_b.
Proof. by constructor. Qed.
Lemma arrival_ok d f : entry_ok (arrival d f).
Proof. intros _. cbn. lia. Qed.
Lemma frame_of_arrival f : frame_of (mk_rx 1 (zlen f + 4) f) = f.
Proof. unfold frame_of. cbn. rewrite Z.add_simpl_r, Nat2Z.id. apply firstn_all. Qed.

(** ** The claims *)

(** C23: whatever bytes a frame holds, the TCP, UDP and ARP parsers read no byte outside it: they return a verdict that does not depend on the state, and observing a frame neither consumes the wire nor moves the clock. *)
Theorem frames_parsed_in_bounds (f : list byte) (want_port cap : Z) (n : net_state) :
  (exists r, answers_with (parse_segment f) r) /\ (exists r, answers_with (net_udp_parse_frame f want_port cap) r) /\
  wp (net_arp_observe f) n (fun _ n' => at_once n n').
Proof.
  destruct (parse_total f) as (r & Hr & _). split; [by exists r|]. split; [apply udp_parse_total|apply arp_observe_spec].
Qed.

(** C27: a datagram net_udp_sendto accepted is received as it was sent: the frame it hands to the card, when it is what the next poll of another host finds, gives net_udp_recvfrom on the destination port the payload, the sender's address and its port. *)
Theorem udp_delivery (a a' b : net_state) dst src_port dst_port payload cap :
  net_ok a -> net_ok b -> n_initialized b <> 0 -> zlen dst = 4 -> 0 <= src_port < 65536 -> 0 <= dst_port < 65536 -> zlen payload <= cap ->
  net_udp_sendto dst src_port dst_port payload a = Done (0, a') ->
  exists frame rest, n_sent a' = frame :: rest /\
    (delivers frame b -> wp (net_udp_recvfrom dst_port cap) b (fun r _ => r = (1, Some (payload, u8 <$> n_ip a, src_port)))).
Proof.
  intros Ha Hb Hi Hd Hs Hp Hc E. pose proof (wp_run _ _ _ _ _ (udp_sendto_spec dst src_port dst_port payload a Ha) E) as (_ & [?|(_ & Hl & n1 & mac & H1 & Hm & Es)]); [done|].
  eexists _, _. split; [exact Es|]. intros Hdel. unfold net_udp_recvfrom. wp_step. eapply wp_mono; [by apply recv_delivered|]. intros f n' [-> _]. cbv beta.
  assert (Hn1 : card_ok n1) by (split; apply (on_ok _ _ H1 Ha)). unfold padded.
  rewrite udp_frame_length by done. rewrite (proj2 (Z.leb_gt _ 0)) by lia. wp_step. apply udp_frame_parse; [done..|]. apply wp_ret.
  by rewrite (on_ip _ _ H1).
Qed.

Lemma udp_delivery_witness : exists a' frame rest, net_udp_sendto [10; 0; 2; 2] 1234 53 (cs "query") demo_a = Done (0, a') /\ n_sent a' = frame :: rest /\
  wp (net_udp_recvfrom 53 512) (demo_b <| n_wire := [arrival 0 frame] |>) (fun r _ => r = (1, Some (cs "query", [10; 0; 2; 15], 1234))).
Proof.
  set (a := match net_udp_sendto [10; 0; 2; 2] 1234 53 (cs "query") demo_a with Done (_, a') => a' | Fault => demo_a end).
  assert (E : net_udp_sendto [10; 0; 2; 2] 1234 53 (cs "query") demo_a = Done (0, a)) by (by vm_compute).
  set (frame := match n_sent a with f :: _ => f | [] => [] end).
  assert (Hb : net_ok (demo_b <| n_wire := [arrival 0 frame] |>)) by (constructor; try done; repeat constructor; apply arrival_ok).
  destruct (udp_delivery demo_a a (demo_b <| n_wire := [arrival 0 frame] |>) [10; 0; 2; 2] 1234 53 (cs "query") 512 demo_a_ok Hb ltac:(done) ltac:(done)
    ltac:(lia) ltac:(lia) ltac:(vm_compute; discriminate) E) as (f & rest & Ef & Hf).
  exists a, f, rest. assert (Eff : frame = f) by (unfold frame; by rewrite Ef). split; [exact E|]. split; [exact Ef|].
  rewrite <- Eff in *. apply Hf. exists 0, (mk_rx 1 (zlen frame + 4) frame), []. split; [done|]. split; [by vm_compute|apply frame_of_arrival].
Defined.

(** an ARP request or reply for this host puts its sender into the cache, where a lookup finds it at once; a request is also answered.  The header says that only replies fill the cache. *)
Theorem arp_learned_found (n : net_state) dst src op sha spa tha pad :
  net_ok n -> zlen dst = 6 -> zlen src = 6 -> zlen sha = 6 -> zlen spa = 4 -> zlen tha = 6 ->
  op = ARP_REQUEST \/ op = ARP_REPLY /\ same_bytes tha (n_mac n) = true ->
  wp (let* _ := net_arp_observe (arp_frame dst src op sha spa tha (n_ip n) ++ pad) in net_arp_lookup spa) n (fun r n' =>
    r = Some (u8 <$> sha) /\ (op = ARP_REQUEST -> n_initialized n <> 0 ->
      n_sent n' = padded (arp_frame (u8 <$> sha) (n_mac n) ARP_REPLY (n_mac n) (n_ip n) (u8 <$> sha) (u8 <$> spa)) :: n_sent n)).
Proof.
  intros Hn Hdst Hsrc Hsha Hspa Htha Hop. wp_step. eapply wp_mono; [by apply arp_observe_learns|].
  intros _ n' ([_ [_ Et]] & Ea & Hs). cbv beta. unfold net_arp_lookup. wp_step. wp_step. rewrite Ea. cbn [a_valid a_updated_ticks a_ip a_mac].
  rewrite Et, Z.sub_diag. change ((1 =? 0) || (6000 <? u32 0)) with false. rewrite same_bytes_u8. cbn match. by apply wp_ret.
Qed.

Lemma arp_learned_found_witness : wp (let* _ := net_arp_observe (arp_frame (replicate 6 255) [2; 0; 0; 0; 0; 9] ARP_REQUEST [2; 0; 0; 0; 0; 9] [10; 0; 2; 9] (replicate 6 0) (n_ip demo_a) ++ []) in
    net_arp_lookup [10; 0; 2; 9]) demo_a (fun r n' => r = Some [2; 0; 0; 0; 0; 9] /\ (ARP_REQUEST = ARP_REQUEST -> n_initialized demo_a <> 0 ->
      n_sent n' = padded (arp_frame [2; 0; 0; 0; 0; 9] (n_mac demo_a) ARP_REPLY (n_mac demo_a) (n_ip demo_a) [2; 0; 0; 0; 0; 9] [10; 0; 2; 9]) :: n_sent demo_a)).
Proof.
  apply (arp_learned_found demo_a (replicate 6 255) [2; 0; 0; 0; 0; 9] ARP_REQUEST [2; 0; 0; 0; 0; 9] [10; 0; 2; 9] (replicate 6 0) []);
    [apply demo_a_ok|done..|by left].
Defined.

(** ** Properties of the transport protocol

    Segments survive the wire, receiving gives the peer's bytes in order, sending returns only
    with an acknowledgement, connections open only by a handshake; and one thing that is not
    checked: the checksum of a long segment. *)

(** ** The stream of the peer *)

(** [len] bytes of the stream [D] from the sequence number [seq]; numbers wrap around. *)
Definition stream_from (D : Z -> byte) (seq len : Z) : list byte := (fun i => D (u32 (seq + i))) <$> seqZ 0 len.

(** The data of a segment is the stream's at its number. *)
Definition stream (D : Z -> byte) (seq : Z) (data : list byte) : Prop := data = stream_from D seq (zlen data).

Lemma stream_length D seq len : 0 <= len -> zlen (stream_from D seq len) = len.
Proof. intros Hl. unfold stream_from. rewrite length_fmap, length_seqZ. lia. Qed.

Lemma stream_app D seq (a b : list byte) : stream D seq a -> stream D (u32 (seq + zlen a)) b -> stream D seq (a ++ b).
Proof.
  unfold stream. intros Ha Hb. rewrite length_app, Nat2Z.inj_add. unfold stream_from in *. rewrite seqZ_app, fmap_app by lia. rewrite <- Ha. f_equal.
  replace (seqZ (0 + zlen a) (zlen b)) with (Z.add (zlen a) <$> seqZ 0 (zlen b)) by (rewrite fmap_add_seqZ; f_equal; lia).
  rewrite <- list_fmap_compose. rewrite Hb at 1. apply list_fmap_ext. intros i x _. unfold compose, u32. rewrite Z.add_mod_idemp_l by lia. f_equal. f_equal. lia.
Qed.

(** Receiving again and again: each pair is the room and the patience of a call. *)
Fixpoint receive_all (calls : list (Z * Z)) (c : atm_tcp_conn) : T (list byte * atm_tcp_conn) :=
  match calls with
  | [] => ret ([], c)
  | (cap, timeout) :: calls' =>
    let* '(r, out, c) := tcp_recv c cap timeout in
    let* '(rest, c) := receive_all calls' c in
    ret ((if 0 <? r then out else []) ++ rest, c)
  end.

Lemma peer_sends_later D c c' n n' : onward n n' -> same_peer c c' -> peer_sends (stream D) c n -> peer_sends (stream D) c' n'.
Proof.
  intros H1 (_ & E2 & E3) HS n2 g Hg Hs Hd. apply (HS n2 g); [by eapply seen_earlier|congruence|congruence].
Qed.

(** A connection that is not open receives nothing. *)
Lemma recv_closed c cap timeout n : c_state c <> ATM_TCP_ESTABLISHED -> tcp_recv c cap timeout n = Done ((-1, [], c), n).
Proof. intros Hs. unfold tcp_recv. rewrite bool_decide_false by done. cbn [negb]. by rewrite orb_true_r. Qed.
Lemma receive_closed calls c n : c_state c <> ATM_TCP_ESTABLISHED -> receive_all calls c n = Done (([], c), n).
Proof. intros Hs. induction calls as [|[cap t] calls IH]; cbn [receive_all]; [done|]. unfold bind. rewrite recv_closed by done. by rewrite IH. Qed.

Lemma receive_all_spec D calls c n : net_ok n -> conn_ok (stream D) c -> Forall (fun x => limit_ok x.2) calls -> peer_sends (stream D) c n ->
  wp (receive_all calls c) n (fun x _ => stream D (c_ack c) x.1 /\ (c_state x.2 = c_state c -> c_ack x.2 = u32 (c_ack c + zlen x.1))).
Proof.
  intros Hn Hc Hl. revert c n Hn Hc. induction Hl as [|[cap t] calls Ht Hl IH]; intros c n Hn Hc HS; cbn [receive_all].
  { apply wp_ret. split; [done|]. intros _. rewrite Z.add_0_r. rewrite u32_small; [done|]. apply (co_fields _ _ Hc). }
  destruct (decide (c_state c = ATM_TCP_ESTABLISHED)) as [Es|Es].
  2: { unfold wp, bind. rewrite recv_closed by done. rewrite receive_closed by done. split; [done|]. intros _. cbn. rewrite Z.add_0_r, u32_small; [done|]. apply (co_fields _ _ Hc). }
  wp_step. eapply wp_mono; [by apply tcp_recv_spec|]. intros [[r out] c1] n1 [H1 (Hc1 & Hp & Hr)]. cbv beta match. wp_step.
  assert (HS1 := peer_sends_later _ _ _ _ _ H1 Hp HS). destruct Hr as [(-> & Ea & Es1)|[(-> & Es1)|(-> & Hlen & HSo & Ea & Es1 & _)]].
  - eapply wp_mono; [by apply IH; [apply H1|..]|]. intros [rest c2] n2 [Hs2 He2]. apply wp_ret. cbn in *. rewrite Ea in *. split; [done|].
    intros E. apply He2. congruence.
  - unfold wp. rewrite receive_closed by congruence. split; [done|]. cbn. congruence.
  - eapply wp_mono; [by apply IH; [apply H1|..]|]. intros [rest c2] n2 [Hs2 He2]. apply wp_ret. cbn [fst snd] in *. rewrite (proj2 (Z.ltb_lt 0 _)) by lia.
    rewrite Ea in *. split; [by apply stream_app|]. intros E. rewrite He2 by congruence. rewrite length_app, Nat2Z.inj_add. unfold u32.
    rewrite Z.add_mod_idemp_l by lia. f_equal. lia.
Qed.

(** ** A conversation, for evaluation *)

Definition demo_conn : atm_tcp_conn :=
  mk_conn [10; 0; 2; 2] 49152 80 1000 5000 0 512 512 512 2048 (c_ooo conn_zero) ATM_TCP_ESTABLISHED.
(** The same connection from the other end, with [seq] its next number. *)
Definition demo_peer (seq : Z) : atm_tcp_conn :=
  mk_conn [10; 0; 2; 15] 80 49152 seq 1000 0 512 512 512 2048 (c_ooo conn_zero) ATM_TCP_ESTABLISHED.
Definition demo_data (seq : Z) (s : string) : Z * option rx_entry :=
  arrival 1 (padded (tcp_frame demo_b [2; 0; 0; 0; 0; 1] (demo_peer seq) (Z.lor TCP_ACK TCP_PSH) (cs s))).
(** The second half of a message arrives before the first. *)
Definition demo_wire : net_state := demo_a <| n_wire := [demo_data 5005 "world"; (1, None); demo_data 5000 "hello"] |>.
Definition demo_stream (i : Z) : byte := default nul (aget (cs "helloworld") (i - 5000)).

Lemma demo_card : card_ok demo_b.
Proof. by split. Qed.
Lemma demo_peer_fields seq : 0 <= seq < 2 ^ 32 -> conn_fields (demo_peer seq).
Proof. intros Hs. by constructor. Qed.
Lemma demo_conn_ok S : conn_ok S demo_conn.
Proof. constructor; try done. apply fresh_slots. Qed.
Lemma demo_wire_ok : net_ok demo_wire.
Proof. constructor; try done. repeat constructor; apply arrival_ok. Qed.

Lemma demo_data_segment seq s d e : 0 <= seq < 2 ^ 32 -> zlen (cs s) <= 512 -> demo_data seq s = (d, Some e) -> forall g,
  answers_with (parse_segment (frame_of e)) (Some g) -> g_seq g = seq /\ g_data g = cs s.
Proof.
  intros Hs Hl E g Hg. apply (inj2 pair) in E as [_ E]. apply (inj Some) in E as <-. rewrite frame_of_arrival in Hg. unfold padded in Hg.
  assert (wp (parse_segment (padded (tcp_frame demo_b [2; 0; 0; 0; 0; 1] (demo_peer seq) (Z.lor TCP_ACK TCP_PSH) (cs s)))) demo_a (fun r _ =>
    r = Some (segment_of demo_b (demo_peer seq) (Z.lor TCP_ACK TCP_PSH) (cs s)))) as H
    by (unfold padded; apply tcp_frame_parse; [apply demo_card|done|by apply demo_peer_fields|done|done|done]).
  pose proof (wp_run _ _ _ _ _ H (Hg demo_a)) as E. cbv beta in E. clear H Hg. apply (inj Some) in E as ->. split; reflexivity.
Qed.

Lemma demo_peer_sends : peer_sends (stream demo_stream) demo_conn demo_wire.
Proof.
  intros n' g (w & d & e & Ew & Hin & _ & Ha) _ _.
  assert (Hin' : (d, Some e) ∈ n_wire demo_wire) by (rewrite Ew; apply elem_of_app; by left).
  change (n_wire demo_wire) with [demo_data 5005 "world"; (1, None); demo_data 5000 "hello"] in Hin'. clear Ew Hin.
  apply elem_of_cons in Hin' as [E|Hin']; [|apply elem_of_cons in Hin' as [E|Hin']; [done|apply list_elem_of_singleton in Hin' as E]].
  - symmetry in E. destruct (demo_data_segment 5005 "world" _ _ ltac:(lia) ltac:(vm_compute; discriminate) E g Ha) as [E1 E2]. unfold stream. rewrite E1, E2. by vm_compute.
  - symmetry in E. destruct (demo_data_segment 5000 "hello" _ _ ltac:(lia) ltac:(vm_compute; discriminate) E g Ha) as [E1 E2]. unfold stream. rewrite E1, E2. by vm_compute.
Qed.

Example demo_receives : exists c n, receive_all [(512, 100); (512, 100); (512, 100)] demo_conn demo_wire = Done ((cs "helloworld", c), n).
Proof. vm_compute. eauto. Qed.

(** The acknowledgement of five bytes, the answer to a request, a request and its completion. *)
Definition demo_control (seq ack flags : Z) (rport : Z) : Z * option rx_entry :=
  arrival 1 (padded (tcp_frame demo_b [2; 0; 0; 0; 0; 1] ((demo_peer seq) <| c_ack := ack |> <| c_remote_port := rport |>) flags [])).
Definition demo_acked : net_state := demo_a <| n_wire := [(1, None); demo_control 5000 1005 TCP_ACK 49152] |>.
Definition demo_iss : Z := Z.lxor 100 (u32 (Z.shiftl 49152 16)).
Definition demo_answered : net_state := demo_a <| n_wire := [demo_control 7000 (demo_iss + 1) TCP_SYNACK 49152] |>.
Definition demo_listener : atm_tcp_conn :=
  mk_conn [0; 0; 0; 0] 49152 0 0 0 0 0 512 512 2048 (c_ooo conn_zero) ATM_TCP_LISTEN.
Definition demo_called : net_state :=
  demo_a <| n_wire := [demo_control 7000 0 TCP_SYN 49152; demo_control 7001 (Z.lxor 101 (u32 (Z.shiftl 49152 16)) + 1) TCP_ACK 49152] |>.

Lemma demo_control_ok l : Forall (fun x => exists seq ack flags rport, x = demo_control seq ack flags rport \/ x = (1, None)) l -> net_ok (demo_a <| n_wire := l |>).
Proof.
  intros Hl. constructor; try done. eapply list.Forall_impl; [exact Hl|]. intros x (seq & ack & flags & rport & [->| ->]); [apply arrival_ok|done].
Qed.

Example demo_sends : exists c n, tcp_send demo_conn (cs "hello") demo_acked = Done ((5, c), n) /\ c_seq c = 1005 /\ length (n_sent n) = 1%nat.
Proof. vm_compute. eauto. Qed.
Example demo_connects : exists c n, tcp_connect conn_zero [10; 0; 2; 2] 80 300 demo_answered = Done ((0, c), n) /\ c_state c = ATM_TCP_ESTABLISHED /\ c_ack c = 7001.
Proof. vm_compute. eauto. Qed.
Example demo_accepts : exists c n, tcp_accept demo_listener conn_zero 300 demo_called = Done ((0, c), n) /\ c_state c = ATM_TCP_ESTABLISHED /\ c_remote_port c = 80.
Proof. vm_compute. eauto. Qed.

(** ** The claims *)

(** C26: a segment survives the wire: the frame the code builds for it, with any padding behind it, passes the code's own validation of lengths and of both checksums, and the sender's address, the ports, sequence and acknowledgement numbers, flags, window and payload are read back unchanged. *)
Theorem tcp_segment_roundtrip n mac c flags payload pad s :
  card_ok n -> zlen mac = 6 -> conn_fields c -> 0 <= flags < 256 -> zlen payload <= ATM_TCP_MAX_PAYLOAD ->
  parse_segment (tcp_frame n mac c flags payload ++ pad) s = Done (Some (segment_of n c flags payload), s).
Proof.
  intros Hn Hm Hc Hf Hp. assert (wp (parse_segment (tcp_frame n mac c flags payload ++ pad)) s (fun r s' => r = Some (segment_of n c flags payload) /\ s' = s)) as H
    by (by apply tcp_frame_parse). apply wp_inv in H as (r & s' & E & -> & ->). exact E.
Qed.

Lemma tcp_segment_roundtrip_witness : exists f, zlen f = 59 /\ parse_segment (f ++ [nul]) demo_a = Done (Some (segment_of demo_b (demo_peer 5000) TCP_ACK (cs "hello")), demo_a).
Proof.
  exists (tcp_frame demo_b [2; 0; 0; 0; 0; 1] (demo_peer 5000) TCP_ACK (cs "hello")). split; [by vm_compute|].
  apply (tcp_segment_roundtrip demo_b [2; 0; 0; 0; 0; 1] (demo_peer 5000) TCP_ACK (cs "hello") [nul] demo_a);
    [apply demo_card|done|by apply demo_peer_fields|done|by vm_compute].
Defined.

(** C10: receiving delivers the peer's stream: if what comes in for the connection is data of one byte stream at its sequence numbers, in any order, with repetitions, losses and frames for others in between, then the bytes any sequence of receives returns are that stream from the acknowledged number on, with nothing missing or repeated, across the wrap of sequence numbers; while the connection stays open the acknowledged number has advanced by exactly their count.  Every call returns. *)
Theorem tcp_stream_in_order (D : Z -> byte) calls c n :
  net_ok n -> conn_ok (stream D) c -> Forall (fun x => limit_ok x.2) calls -> peer_sends (stream D) c n ->
  wp (receive_all calls c) n (fun x _ => stream D (c_ack c) x.1 /\ (c_state x.2 = c_state c -> c_ack x.2 = u32 (c_ack c + zlen x.1))).
Proof. apply receive_all_spec. Qed.

Lemma tcp_stream_in_order_witness : wp (receive_all [(512, 100); (512, 100)] demo_conn) demo_wire (fun x _ =>
  stream demo_stream 5000 x.1 /\ (c_state x.2 = ATM_TCP_ESTABLISHED -> c_ack x.2 = u32 (5000 + zlen x.1))).
Proof.
  apply (tcp_stream_in_order demo_stream [(512, 100); (512, 100)] demo_conn demo_wire);
    [apply demo_wire_ok|apply demo_conn_ok|by repeat constructor|apply demo_peer_sends].
Defined.

(** C22: sending returns in every case with one of three outcomes: refused before anything is sent, with the connection unchanged but for its counter; the whole length, never more than the peer's window or the congestion window allow, after the segment went out and an acknowledgement of exactly its end came in, with the sequence number moved there; or an error after three transmissions without one, with the window collapsed. *)
Theorem tcp_send_acknowledged S c p n : net_ok n -> conn_ok S c ->
  wp (tcp_send c p) n (fun x n' => onward n n' /\ send_outcome S c n p x n').
Proof. apply tcp_send_spec. Qed.

Lemma tcp_send_acknowledged_witness : wp (tcp_send demo_conn (cs "hello")) demo_acked (fun x n' => onward demo_acked n' /\ send_outcome (fun _ _ => True) demo_conn demo_acked (cs "hello") x n').
Proof.
  apply (tcp_send_acknowledged (fun _ _ => True) demo_conn (cs "hello") demo_acked); [|apply demo_conn_ok].
  apply demo_control_ok. constructor; [by exists 0, 0, 0, 0; right|]. constructor; [|done]. exists 5000, 1005, TCP_ACK, 49152. by left.
Defined.

(** connecting returns in every case, and the connection is established only by a handshake: a request went out, and an answer with both flags came in for its ports that acknowledges it; the numbers of the connection follow from the two.  A failure leaves it in the error state, or established when only the last acknowledgement could not be sent. *)
Theorem tcp_connect_handshake S c ip port timeout n : net_ok n -> limit_ok timeout -> zlen ip = 4 -> 0 <= port < 65536 ->
  wp (tcp_connect c ip port timeout) n (fun x n' => onward n n' /\ connect_outcome S c ip port n x n').
Proof. apply tcp_connect_spec. Qed.

Lemma tcp_connect_handshake_witness : wp (tcp_connect conn_zero [10; 0; 2; 2] 80 300) demo_answered (fun x n' =>
  onward demo_answered n' /\ connect_outcome (fun _ _ => True) conn_zero [10; 0; 2; 2] 80 demo_answered x n').
Proof.
  apply (tcp_connect_handshake (fun _ _ => True) conn_zero [10; 0; 2; 2] 80 300 demo_answered); [|by split|done|done].
  apply demo_control_ok. constructor; [|done]. exists 7000, (demo_iss + 1), TCP_SYNACK, 49152. by left.
Defined.

(** accepting returns in every case, and hands out a connection only for a request that came in for the listening port; it is established only when the answer went out and its acknowledgement came back, and the acknowledged number is the one after the request's. *)
Theorem tcp_accept_handshake S l out timeout n : net_ok n -> limit_ok timeout -> conn_fields l ->
  wp (tcp_accept l out timeout) n (fun x n' => onward n n' /\ (x = (-1, out) \/ accept_outcome S l n x n')).
Proof. apply tcp_accept_spec. Qed.

Lemma tcp_accept_handshake_witness : wp (tcp_accept demo_listener conn_zero 300) demo_called (fun x n' =>
  onward demo_called n' /\ (x = (-1, conn_zero) \/ accept_outcome (fun _ _ => True) demo_listener demo_called x n')).
Proof.
  apply (tcp_accept_handshake (fun _ _ => True) demo_listener conn_zero 300 demo_called); [|by split|by constructor].
  apply demo_control_ok. repeat constructor; eexists _, _, _, _; by left.
Defined.

(** the checksum of a segment with more than 512 bytes behind its fixed header is not looked at: the frame is accepted whatever its checksum field holds. *)
Theorem tcp_long_segment_unchecked n mac c flags payload x s :
  card_ok n -> zlen mac = 6 -> conn_fields c -> 0 <= flags < 256 -> 512 < zlen payload <= 1460 ->
  parse_segment (raw_frame n mac c flags payload x) s = Done (Some (segment_of n c flags payload), s).
Proof.
  intros Hn Hm Hc Hf Hp. rewrite <- (app_nil_r (raw_frame _ _ _ _ _ _)).
  assert (wp (parse_segment (raw_frame n mac c flags payload x ++ [])) s (fun r s' => r = Some (segment_of n c flags payload) /\ s' = s)) as H.
  { apply raw_frame_parse; try done; [lia|]. unfold tcp_checksum. rewrite length_app, Nat2Z.inj_add, zlen_tcp.
    rewrite (proj2 (Z.ltb_lt _ _)); [done|]. unfold TCP_HLEN, ATM_TCP_MAX_PAYLOAD. lia. }
  apply wp_inv in H as (r & s' & E & -> & ->). exact E.
Qed.

Lemma tcp_long_segment_unchecked_witness : parse_segment (raw_frame demo_b [2; 0; 0; 0; 0; 1] (demo_peer 5000) TCP_ACK (replicate 600 nul) 4660) demo_a =
  Done (Some (segment_of demo_b (demo_peer 5000) TCP_ACK (replicate 600 nul)), demo_a).
Proof.
  apply (tcp_long_segment_unchecked demo_b [2; 0; 0; 0; 0; 1] (demo_peer 5000) TCP_ACK (replicate 600 nul) 4660 demo_a);
    [apply demo_card|done|by apply demo_peer_fields|done|by vm_compute].
Defined.
