(* ===== verification/Time.v ===== *)
(** * The calendar and the clock chip (src/src/atm_time.c, src/src/rtc.c)

    Dates are counted from 1970.  The clock chip is represented by what its registers return:
    a call that reads the clock is given the snapshots its attempts will see.  Divisions are
    those of C, which truncate. *)

From S2P Require Import Prelude Cstring Net.

(** [rtc_datetime_t] *)
Record rtc_datetime := mk_date { d_year : Z; d_month : Z; d_day : Z; d_hour : Z; d_minute : Z; d_second : Z }.
#[export] Instance rtc_datetime_eq_dec : EqDecision rtc_datetime.
Proof. solve_decision. Defined.

(** ** Calendar *)

Definition leap_year (year : Z) : bool := ((Z.rem year 4 =? 0) && negb (Z.rem year 100 =? 0)) || (Z.rem year 400 =? 0).
Definition year_days (year : Z) : Z := if leap_year year then 366 else 365.

Definition month_table : list Z := [31; 28; 31; 30; 31; 30; 31; 31; 30; 31; 30; 31].
Definition month_days (year month : Z) : Z :=
  if (1 <=? month) && (month <=? 12)
  then default 0 (aget month_table (month - 1)) + (if (month =? 2) && leap_year year then 1 else 0) else 0.

Definition between_z (x lo hi : Z) : bool := (lo <=? x) && (x <=? hi).
Definition valid_time (t : rtc_datetime) : bool :=
  between_z (d_hour t) 0 23 && between_z (d_minute t) 0 59 && between_z (d_second t) 0 59.
Definition valid_civil (t : rtc_datetime) : bool :=
  between_z (d_year t) 1970 2099 && between_z (d_month t) 1 12 && between_z (d_day t) 1 (month_days (d_year t) (d_month t)) && valid_time t.

(** The days of the years and of the months before a date: the loops of [rtc_unix_seconds]. *)
Definition days_of_years (year : Z) : Z := foldr Z.add 0 (year_days <$> seqZ 1970 (year - 1970)).
Definition days_of_months (year month : Z) : Z :=
  foldr Z.add 0 ((fun m => default 0 (aget month_table (m - 1)) + (if (m =? 2) && leap_year year then 1 else 0)) <$> seqZ 1 (month - 1)).

Definition rtc_unix_seconds (t : rtc_datetime) : Z :=
  let days := days_of_years (d_year t) + days_of_months (d_year t) (d_month t) + (d_day t - 1) in
  days * 86400 + d_hour t * 3600 + d_minute t * 60 + d_second t.

Definition civil_seconds (year month day hour minute second : Z) : Z := rtc_unix_seconds (mk_date year month day hour minute second).
Definition civil_weekday (year month day : Z) : Z := Z.rem (Z.quot (civil_seconds year month day 0 0 0) 86400 + 4) 7.
Definition nth_weekday (year month weekday nth : Z) : Z :=
  let day := 1 + Z.rem (weekday - civil_weekday year month 1 + 7) 7 + 7 * (nth - 1) in
  if day <=? month_days year month then day else 0.
Definition last_weekday (year month weekday : Z) : Z :=
  let day := month_days year month in day - Z.rem (civil_weekday year month day - weekday + 7) 7.

(** The two loops of [seconds_to_civil]; each pass takes a year or a month off the days. *)
Fixpoint year_loop (fuel : nat) (year days : Z) : option (Z * Z) :=
  match fuel with
  | O => None
  | S fuel' => if year_days year <=? days then year_loop fuel' (year + 1) (days - year_days year) else Some (year, days)
  end.
Fixpoint month_loop (fuel : nat) (year month days : Z) : option (Z * Z) :=
  match fuel with
  | O => None
  | S fuel' => if month_days year month <=? days then month_loop fuel' year (month + 1) (days - month_days year month) else Some (month, days)
  end.

(** Whole days and the seconds left, for negative times too. *)
Definition split_days (seconds : Z) : Z * Z :=
  let days := Z.quot seconds 86400 in
  let rem := Z.rem seconds 86400 in
  if rem <? 0 then (days - 1, rem + 86400) else (days, rem).

(** [None]: a loop that does not end. *)
Definition seconds_to_civil (seconds : Z) : option rtc_datetime :=
  let '(days, rem) := split_days seconds in
  '(year, days) ← year_loop (Z.to_nat (days / 365) + 1) 1970 days;
  '(month, days) ← month_loop 13 year 1 days;
  Some (mk_date year month (days + 1) (Z.quot rem 3600) (Z.rem (Z.quot rem 60) 60) (Z.rem rem 60)).

(** ** The clock chip *)

(** What the registers return to one attempt: whether an update was over before it, register B,
    the seven values, whether an update was over between, the seven values again. *)
Record rtc_attempt := mk_attempt { ra_before : bool; ra_reg_b : Z; ra_first : list Z; ra_between : bool; ra_second : list Z }.

Definition bcd_to_bin (v : Z) : Z := Z.land v 0x0f + Z.shiftr v 4 * 10.
Definition bin_to_bcd (v : Z) : Z := u8 (Z.lor (Z.shiftl (v / 10) 4) (v mod 10)).

(** The dates the chip may hold. *)
Definition rtc_valid (t : rtc_datetime) : bool :=
  between_z (d_year t) 2000 2099 && between_z (d_month t) 1 12 && between_z (d_day t) 1 (month_days (d_year t) (d_month t)) && valid_time t.

(** Register B: 0x04 binary values, 0x02 a 24-hour clock. *)
Definition rtc_binary (reg_b : Z) : bool := truth (Z.land reg_b 0x04).
Definition rtc_24h (reg_b : Z) : bool := truth (Z.land reg_b 0x02).

(** The registers hold binary or BCD values. *)
Definition rtc_dec (binary : bool) (v : Z) : Z := if binary then v else u8 (bcd_to_bin v).
Definition rtc_enc (binary : bool) (v : Z) : Z := if binary then u8 v else bin_to_bcd (u8 v).

(** The hour that a register value stands for: the values are binary or BCD, the clock has 24
    hours or 12 and a bit for the afternoon. *)
Definition rtc_decode_hour (binary h24 : bool) (raw : Z) : Z :=
  let hour := if binary then raw else rtc_dec binary (Z.land raw 0x7f) in
  if h24 then hour
  else
    let pm := truth (Z.land hour 0x80) in
    let h := Z.land hour 0x7f in
    if pm then (if h =? 12 then h else u8 (h + 12)) else (if h =? 12 then 0 else h).

(** The values of a snapshot, in the order second, minute, hour, day, month, year, century. *)
Definition rtc_decode (reg_b : Z) (raw : list Z) : option rtc_datetime :=
  match raw with
  | [sec; min; hour; day; mon; year; cent] =>
    let dec := rtc_dec (rtc_binary reg_b) in
    let hour := rtc_decode_hour (rtc_binary reg_b) (rtc_24h reg_b) hour in
    let cent := dec cent in
    let t := mk_date (if (20 <=? cent) && (cent <=? 21) then cent * 100 + dec year else 2000 + dec year) (dec mon) (dec day) hour (dec min) (dec sec) in
    if rtc_valid t then Some t else None
  | _ => None
  end.

(** At most four attempts; a snapshot that changed while it was read is dropped. *)
Fixpoint rtc_attempts (left : nat) (hw : list rtc_attempt) : option rtc_datetime :=
  match left, hw with
  | S left', a :: hw' =>
    if negb (ra_before a) then None
    else if negb (ra_between a) then rtc_attempts left' hw'
    else if negb (bool_decide (ra_first a = ra_second a)) then rtc_attempts left' hw'
    else rtc_decode (ra_reg_b a) (ra_first a)
  | _, _ => None
  end.
Definition rtc_read_datetime (hw : list rtc_attempt) : option rtc_datetime := rtc_attempts 4 hw.

Definition rtc_encode_hour (binary h24 : bool) (hour : Z) : Z :=
  if h24 then rtc_enc binary hour
  else
    let h := Z.rem hour 12 in
    let raw := rtc_enc binary (if h =? 0 then 12 else h) in
    if 12 <=? hour then Z.lor raw 0x80 else raw.

Definition rtc_encode (t : rtc_datetime) (reg_b : Z) : option (list Z) :=
  if negb (rtc_valid t) then None
  else
    let enc := rtc_enc (rtc_binary reg_b) in
    Some [enc (d_second t); enc (d_minute t); rtc_encode_hour (rtc_binary reg_b) (rtc_24h reg_b) (d_hour t); enc (d_day t); enc (d_month t);
          enc (Z.rem (d_year t) 100); enc (Z.quot (d_year t) 100)].

(** Registers of the chip, and what [rtc_write_datetime] writes to them in order: register B
    with updates halted, the seven values, register B as it was. *)
Definition RTC_REG_B : Z := 0x0B.
Definition rtc_value_registers : list Z := [0x00; 0x02; 0x04; 0x07; 0x08; 0x09; 0x32].
Definition rtc_writes (reg_b : Z) (raw : list Z) : list (Z * Z) :=
  (RTC_REG_B, u8 (Z.lor reg_b 0x80)) :: zip rtc_value_registers raw ++ [(RTC_REG_B, reg_b)].

(** [after]: what the reading back of the date sees; the seconds may have moved on. *)
Definition rtc_write_datetime (t : rtc_datetime) (ready : bool) (reg_b : Z) (after : list rtc_attempt) : Z * list (Z * Z) :=
  if negb (rtc_valid t) || negb ready then (-1, [])
  else match rtc_encode t reg_b with
    | None => (-1, [])
    | Some raw =>
      match rtc_read_datetime after with
      | None => (-1, rtc_writes reg_b raw)
      | Some c =>
        (if (d_year c =? d_year t) && (d_month c =? d_month t) && (d_day c =? d_day t) && (d_hour c =? d_hour t) && (d_minute c =? d_minute t)
         then 0 else -1, rtc_writes reg_b raw)
      end
    end.

(** ** Facts of the calendar

    Years and months are stretches of days; a number of days falls in exactly one of them,
    which is why the loops of [seconds_to_civil] undo the sums of [rtc_unix_seconds]. *)

(** ** Partial sums *)

Section Sums.
Context (f : Z -> Z) (lo : Z).

Definition psum (x : Z) : Z := foldr Z.add 0 (f <$> seqZ lo (x - lo)).

Lemma foldr_add_init l a : foldr Z.add a l = foldr Z.add 0 l + a.
Proof. induction l; simpl; lia. Qed.

Lemma psum_step x : lo <= x -> psum (x + 1) = psum x + f x.
Proof.
  intros Hx. unfold psum. replace (x + 1 - lo) with (Z.of_nat (S (Z.to_nat (x - lo)))) by lia.
  rewrite seqZ_S, fmap_app, foldr_app, foldr_add_init. simpl.
  rewrite Z2Nat.id by lia. replace (lo + (x - lo)) with x by lia. lia.
Qed.

(** The stretch before [y] ends where that of [y] begins. *)
Lemma psum_mono x y : lo <= x < y -> (forall k, lo <= k -> 0 <= f k) -> psum x + f x <= psum y.
Proof.
  intros Hxy Hf. rewrite <- psum_step by lia. replace y with (x + 1 + Z.of_nat (Z.to_nat (y - (x + 1)))) by lia.
  induction (Z.to_nat (y - (x + 1))) as [|n IH]; [by rewrite Z.add_0_r|].
  replace (x + 1 + Z.of_nat (S n)) with (x + 1 + Z.of_nat n + 1) by lia. rewrite (psum_step (x + 1 + Z.of_nat n)) by lia.
  pose proof (Hf (x + 1 + Z.of_nat n) ltac:(lia)). lia.
Qed.

Lemma psum_unique x y d e :
  lo <= x -> lo <= y -> (forall k, lo <= k -> 0 <= f k) -> psum x + d = psum y + e -> 0 <= d < f x -> 0 <= e < f y -> x = y /\ d = e.
Proof.
  intros Hx Hy Hf E Hd He. destruct (Z.lt_trichotomy x y) as [H|[->|H]].
  - pose proof (psum_mono x y ltac:(lia) Hf). lia.
  - lia.
  - pose proof (psum_mono y x ltac:(lia) Hf). lia.
Qed.
End Sums.

(** ** Years *)

Lemma year_days_cases y : year_days y = 365 \/ year_days y = 366.
Proof. unfold year_days. destruct (leap_year y); auto. Qed.

Lemma days_of_years_psum y : days_of_years y = psum year_days 1970 y.
Proof. done. Qed.

Lemma year_loop_spec fuel : forall year days, 1970 <= year -> 0 <= days -> days / 365 < Z.of_nat fuel ->
  exists y d, year_loop fuel year days = Some (y, d) /\ year <= y /\ days_of_years year + days = days_of_years y + d /\ 0 <= d < year_days y.
Proof.
  induction fuel as [|fuel IH]; intros year days Hy Hd Hf.
  - pose proof (Z.div_pos days 365 Hd). lia.
  - simpl. pose proof (year_days_cases year). destruct (Z.leb_spec (year_days year) days) as [H'|H'].
    + destruct (IH (year + 1) (days - year_days year)) as (y & d & -> & ? & E & ?); [lia|lia| |].
      { assert ((days - year_days year) / 365 <= (days - 365) / 365) by (apply Z.div_le_mono; lia).
        replace (days - 365) with (days + (-1) * 365) in * by lia. rewrite Z.div_add in * by lia. lia. }
      exists y, d. split; [done|]. split; [lia|]. rewrite days_of_years_psum, psum_step in E by done. rewrite days_of_years_psum. lia.
    + by exists year, days.
Qed.

(** ** Months *)

Lemma month_days_bounds y m : 1 <= m <= 12 -> 28 <= month_days y m <= 31.
Proof.
  intros Hm. assert (E : forall leap : bool, forallb (fun m => let n := default 0 (aget month_table (m - 1)) + (if (m =? 2) && leap then 1 else 0) in (28 <=? n) && (n <=? 31)) (seqZ 1 12) = true)
    by (intros []; reflexivity).
  specialize (E (leap_year y)). rewrite forallb_forall in E. specialize (E m ltac:(apply list_elem_of_In, elem_of_seqZ; lia)).
  apply andb_true_iff in E. unfold month_days. replace (1 <=? m) with true by lia. replace (m <=? 12) with true by lia. simpl andb. lia.
Qed.
Lemma month_days_nonneg y m : 0 <= month_days y m.
Proof.
  destruct (decide (1 <= m <= 12)) as [H|H]; [pose proof (month_days_bounds y m H); lia|].
  unfold month_days. destruct (Z.leb_spec 1 m), (Z.leb_spec m 12); simpl; lia.
Qed.

Lemma days_of_months_psum y m : m <= 13 -> days_of_months y m = psum (month_days y) 1 m.
Proof.
  intros Hm. unfold days_of_months, psum. f_equal. apply list_fmap_ext. intros k x Hk. apply list_elem_of_lookup_2, elem_of_seqZ in Hk.
  unfold month_days. replace (1 <=? x) with true by lia. by replace (x <=? 12) with true by lia.
Qed.

(** The twelve months make the year. *)
Lemma months_of_year y : psum (month_days y) 1 13 = year_days y.
Proof. unfold psum, year_days, month_days. simpl. destruct (leap_year y); vm_compute; reflexivity. Qed.

Lemma month_loop_spec fuel y : forall month days, 1 <= month <= 12 -> 0 <= days -> psum (month_days y) 1 month + days < year_days y -> 13 - month <= Z.of_nat fuel ->
  exists m d, month_loop fuel y month days = Some (m, d) /\ month <= m <= 12 /\
    psum (month_days y) 1 month + days = psum (month_days y) 1 m + d /\ 0 <= d < month_days y m.
Proof.
  induction fuel as [|fuel IH]; intros month days Hm Hd Hlt Hf; [lia|]. simpl.
  destruct (Z.leb_spec (month_days y month) days) as [H'|H']; [|exists month, days; split_and!; done || lia].
  assert (Hs : psum (month_days y) 1 (month + 1) = psum (month_days y) 1 month + month_days y month) by (apply psum_step; lia).
  assert (month <> 12). { intros ->. change (12 + 1) with 13 in Hs. rewrite months_of_year in Hs. lia. }
  destruct (IH (month + 1) (days - month_days y month)) as (m & d & -> & ? & E & ?); [lia..|].
  exists m, d. split_and!; lia || done.
Qed.

(** ** Dates *)

Definition date_days (t : rtc_datetime) : Z := days_of_years (d_year t) + days_of_months (d_year t) (d_month t) + (d_day t - 1).
Definition time_seconds (t : rtc_datetime) : Z := d_hour t * 3600 + d_minute t * 60 + d_second t.

Lemma unix_seconds_split t : rtc_unix_seconds t = date_days t * 86400 + time_seconds t.
Proof. unfold rtc_unix_seconds, date_days, time_seconds. lia. Qed.

(** A date of the calendar, without a bound on the year. *)
Record civil (t : rtc_datetime) : Prop := {
  cv_year : 1970 <= d_year t;
  cv_month : 1 <= d_month t <= 12;
  cv_day : 1 <= d_day t <= month_days (d_year t) (d_month t);
  cv_hour : 0 <= d_hour t < 24;
  cv_minute : 0 <= d_minute t < 60;
  cv_second : 0 <= d_second t < 60 }.

Lemma between_z_spec x lo hi : between_z x lo hi = true <-> lo <= x <= hi.
Proof. unfold between_z. rewrite andb_true_iff. lia. Qed.

Lemma valid_civil_spec t : valid_civil t = true <-> civil t /\ d_year t <= 2099.
Proof.
  unfold valid_civil, valid_time. rewrite !andb_true_iff, !between_z_spec. split.
  - intros (((? & ?) & ?) & (? & ?) & ?). split; [constructor|]; lia.
  - intros [[] ?]. lia.
Qed.

Lemma time_seconds_bounds t : civil t -> 0 <= time_seconds t < 86400.
Proof. intros []. unfold time_seconds. lia. Qed.

(** The days before the first of the month are fewer than the year has. *)
Lemma months_before y m d : 1 <= m <= 12 -> 1 <= d <= month_days y m -> psum (month_days y) 1 m + (d - 1) < year_days y.
Proof.
  intros Hm Hd. rewrite <- months_of_year.
  pose proof (psum_mono (month_days y) 1 m 13 ltac:(lia) ltac:(intros; apply month_days_nonneg)). lia.
Qed.

Lemma psum_nonneg f lo x : (forall k, 0 <= f k) -> 0 <= psum f lo x.
Proof. intros Hf. unfold psum. induction (seqZ lo (x - lo)) as [|k l IH]; [done|]. rewrite fmap_cons. cbn [foldr]. specialize (Hf k). lia. Qed.

Lemma date_days_nonneg t : civil t -> 0 <= date_days t.
Proof.
  intros []. unfold date_days. rewrite days_of_years_psum, days_of_months_psum by lia.
  assert (0 <= psum year_days 1970 (d_year t)) by (apply psum_nonneg; intros k; destruct (year_days_cases k); lia).
  assert (0 <= psum (month_days (d_year t)) 1 (d_month t)) by (apply psum_nonneg; intros k; apply month_days_nonneg). lia.
Qed.

Lemma date_days_inj t u : civil t -> civil u -> date_days t = date_days u ->
  d_year t = d_year u /\ d_month t = d_month u /\ d_day t = d_day u.
Proof.
  intros [Hy Hm Hd _ _ _] [Hy' Hm' Hd' _ _ _] E. unfold date_days in E.
  rewrite !days_of_years_psum, !days_of_months_psum in E by lia. rewrite <- !Z.add_assoc in E.
  pose proof (months_before _ _ _ Hm Hd). pose proof (months_before _ _ _ Hm' Hd').
  assert (forall y m, 0 <= psum (month_days y) 1 m) by (intros; apply psum_nonneg; intros; apply month_days_nonneg).
  destruct (psum_unique year_days 1970 _ _ _ _ Hy Hy' ltac:(intros k _; destruct (year_days_cases k); lia) E) as [Ey E']; [split; [|done]..|].
  { pose proof (H1 (d_year t) (d_month t)). lia. }
  { pose proof (H1 (d_year u) (d_month u)). lia. }
  rewrite Ey in *. destruct (psum_unique (month_days (d_year u)) 1 (d_month t) (d_month u) (d_day t - 1) (d_day u - 1)) as [-> ?];
    try lia; intros; apply month_days_nonneg.
Qed.

Lemma time_seconds_inj t u : civil t -> civil u -> time_seconds t = time_seconds u ->
  d_hour t = d_hour u /\ d_minute t = d_minute u /\ d_second t = d_second u.
Proof. intros [] []. unfold time_seconds. lia. Qed.

Lemma unix_seconds_inj t u : civil t -> civil u -> rtc_unix_seconds t = rtc_unix_seconds u -> t = u.
Proof.
  intros Ht Hu. rewrite !unix_seconds_split. intros E. pose proof (time_seconds_bounds _ Ht). pose proof (time_seconds_bounds _ Hu).
  destruct (date_days_inj t u Ht Hu) as (E1 & E2 & E3); [lia|]. destruct (time_seconds_inj t u Ht Hu) as (E4 & E5 & E6); [lia|].
  destruct t, u. simpl in *. by subst.
Qed.

Lemma split_days_spec s : split_days s = (s / 86400, s mod 86400).
Proof.
  unfold split_days. pose proof (Z.quot_rem s 86400 ltac:(lia)). pose proof (Z.div_mod s 86400 ltac:(lia)).
  pose proof (Z.mod_pos_bound s 86400 ltac:(lia)).
  destruct (Z.leb_spec 0 s) as [Hs|Hs].
  - pose proof (Z.rem_bound_pos s 86400 Hs ltac:(lia)). replace (Z.rem s 86400 <? 0) with false by lia.
    rewrite Z.quot_div_nonneg, Z.rem_mod_nonneg by lia. done.
  - pose proof (Z.rem_bound_pos_neg s 86400 ltac:(lia) ltac:(lia)). destruct (Z.ltb_spec (Z.rem s 86400) 0); f_equal; lia.
Qed.

(** Hours, minutes and seconds of a day. *)
Lemma day_time r : 0 <= r < 86400 ->
  0 <= Z.quot r 3600 < 24 /\ 0 <= Z.rem (Z.quot r 60) 60 < 60 /\ 0 <= Z.rem r 60 < 60 /\
  Z.quot r 3600 * 3600 + Z.rem (Z.quot r 60) 60 * 60 + Z.rem r 60 = r.
Proof. intros Hr. Z.to_euclidean_division_equations. lia. Qed.

(** From the epoch on, the loops end and give the date of that second. *)
Lemma seconds_to_civil_spec s : 0 <= s -> exists t, seconds_to_civil s = Some t /\ civil t /\ rtc_unix_seconds t = s.
Proof.
  intros Hs. unfold seconds_to_civil. rewrite split_days_spec.
  pose proof (Z.div_mod s 86400 ltac:(lia)) as Es. pose proof (Z.mod_pos_bound s 86400 ltac:(lia)) as Hr.
  set (r := s mod 86400) in *. assert (Hd : 0 <= s / 86400) by (apply Z.div_pos; lia). set (days := s / 86400) in *.
  destruct (year_loop_spec (Z.to_nat (days / 365) + 1) 1970 days) as (y & d & -> & Hy & E & Hdy); [done|done| |].
  { pose proof (Z.div_pos days 365 Hd). lia. }
  destruct (month_loop_spec 13 y 1 d) as (m & e & Em & Hm & E' & He); [lia|lia|change (psum (month_days y) 1 1) with 0; lia|lia|].
  cbn [mbind option_bind]. rewrite Em. cbn [mbind option_bind].
  destruct (day_time r Hr) as (H1 & H2 & H3 & H4). eexists. split; [done|]. split.
  - constructor; cbn -[Z.quot Z.rem]; lia.
  - rewrite unix_seconds_split. unfold date_days, time_seconds. cbn [d_year d_month d_day d_hour d_minute d_second].
    rewrite days_of_months_psum by lia. change (days_of_years 1970) with 0 in E. change (psum (month_days y) 1 1) with 0 in E'. lia.
Qed.

Lemma civil_of_seconds t : civil t -> seconds_to_civil (rtc_unix_seconds t) = Some t.
Proof.
  intros Ht. destruct (seconds_to_civil_spec (rtc_unix_seconds t)) as (u & -> & Hu & E).
  { rewrite unix_seconds_split. pose proof (date_days_nonneg t Ht). pose proof (time_seconds_bounds t Ht). lia. }
  by rewrite (unix_seconds_inj u t Hu Ht E).
Qed.

(** ** Weekdays *)

(** Days since the epoch of any date, and its weekday; Sunday is 0. *)
Lemma civil_weekday_spec y m d : 0 <= date_days (mk_date y m d 0 0 0) -> civil_weekday y m d = (date_days (mk_date y m d 0 0 0) + 4) mod 7.
Proof.
  intros Hd. unfold civil_weekday, civil_seconds. rewrite unix_seconds_split. change (time_seconds _) with 0.
  rewrite Z.add_0_r, Z.quot_mul by lia. by rewrite Z.rem_mod_nonneg by lia.
Qed.
