(* ===== verification/Tzif.v ===== *)
(** * Zone files (src/src/tzif.c)

    The parser reads big-endian fields of a file of at most 8192 bytes; a read outside the
    bytes is a [Fault].  The file has its own copies of the calendar functions, which are
    translated as they are. *)

From S2P Require Import Prelude Cstring Alloc Vfs VfsSynth VfsPath VfsApi Time.

Definition TZIF_FILE_MAX : Z := 8192.
Definition TZIF_TRANS_MAX : Z := 64.
Definition TZIF_TYPE_MAX : Z := 16.
Definition TZIF_NAME_MAX : Z := 96.

(** Offset in seconds and the daylight flag; moment and type of a transition. *)
Record tzif_state := mk_tzif { tf_name : cstr; tf_types : list (Z * bool); tf_transitions : list (Z * Z); tf_initial : Z }.
#[export] Instance eta_tzif : Eta tzif_state := fun s => mk_tzif (tf_name s) (tf_types s) (tf_transitions s) (tf_initial s).

Section Parse.
Context {S : Type}.
Abbreviation P := (M S).

Definition octet (data : list byte) (off : Z) : P Z := deref (fun _ => bz <$> aget data off).
Definition be32_at (data : list byte) (off : Z) : P Z :=
  let* a := octet data off in
  let* b := octet data (off + 1) in
  let* c := octet data (off + 2) in
  let* d := octet data (off + 3) in
  ret (Z.lor (Z.shiftl a 24) (Z.lor (Z.shiftl b 16) (Z.lor (Z.shiftl c 8) d))).
Definition sbe32_at (data : list byte) (off : Z) : P Z := let* v := be32_at data off in ret (i32 v).
Definition sbe64_at (data : list byte) (off : Z) : P Z :=
  let* hi := be32_at data off in
  let* lo := be32_at data (off + 4) in
  ret (i64 (Z.lor (Z.shiftl hi 32) lo)).

(** [data[h..h+4) = "TZif"] *)
Definition magic_at (data : list byte) (h : Z) : P bool :=
  let* a := octet data h in
  let* b := octet data (h + 1) in
  let* c := octet data (h + 2) in
  let* d := octet data (h + 3) in
  ret (bool_decide ([a; b; c; d] = bz <$> cs "TZif")).

Record tz_counts := mk_counts { n_time : Z; n_type : Z; n_char : Z; n_leap : Z; n_std : Z; n_gmt : Z }.

Definition header_counts (data : list byte) (h : Z) : P (option tz_counts) :=
  let* m := magic_at data h in
  if negb m then ret None
  else
    let* gmt := be32_at data (h + 20) in
    let* std := be32_at data (h + 24) in
    let* leap := be32_at data (h + 28) in
    let* time := be32_at data (h + 32) in
    let* type := be32_at data (h + 36) in
    let* char := be32_at data (h + 40) in
    ret (if (type =? 0) || (TZIF_TYPE_MAX <? type) || (TZIF_TRANS_MAX <? time) || (512 <? char) || (32 <? leap) || (type <? std) || (type <? gmt)
         then None else Some (mk_counts time type char leap std gmt)).

Definition block_size (c : tz_counts) (time_size : Z) : Z :=
  n_time c * time_size + n_time c + n_type c * 6 + n_char c + n_leap c * (time_size + 4) + n_std c + n_gmt c.
Definition block_bytes (data : list byte) (h time_size : Z) : P (option Z) :=
  let* c := header_counts data h in
  ret (c ← c; if TZIF_FILE_MAX <? block_size c time_size then None else Some (block_size c time_size)).

Fixpoint parse_types (data : list byte) (infos char : Z) (idx : list Z) : P (option (list (Z * bool))) :=
  match idx with
  | [] => ret (Some [])
  | i :: idx' =>
    let* off := sbe32_at data (infos + i * 6) in
    let* dst := octet data (infos + i * 6 + 4) in
    let* abbr := octet data (infos + i * 6 + 5) in
    if char <=? abbr then ret None
    else let* rest := parse_types data infos char idx' in ret (cons (off, truth dst) <$> rest)
  end.

(** [prev]: the moment of the transition before. *)
Fixpoint parse_transitions (data : list byte) (times indices type time_size : Z) (prev : option Z) (idx : list Z) : P (option (list (Z * Z))) :=
  match idx with
  | [] => ret (Some [])
  | i :: idx' =>
    let* index := octet data (indices + i) in
    if type <=? index then ret None
    else
      let* at_ := (if time_size =? 8 then sbe64_at data (times + i * 8) else sbe32_at data (times + i * 4)) in
      if match prev with Some p => at_ <? p | None => false end then ret None
      else let* rest := parse_transitions data times indices type time_size (Some at_) idx' in ret (cons (at_, index) <$> rest)
  end.

(** The first type that is not daylight time, 0 if there is none. *)
Definition initial_type (types : list (Z * bool)) : Z :=
  default 0 (first_idx (fun i => match aget types i with Some (_, dst) => negb dst | None => false end) 0 (zlen types)).

Definition parse_block (data : list byte) (h body body_len time_size : Z) : P (option tzif_state) :=
  let* c := header_counts data h in
  let* need := block_bytes data h time_size in
  match c, need with
  | Some c, Some need =>
    if body_len <? need then ret None
    else
      let indices := body + n_time c * time_size in
      let infos := indices + n_time c in
      let* types := parse_types data infos (n_char c) (seqZ 0 (n_type c)) in
      match types with
      | None => ret None
      | Some types =>
        let* trans := parse_transitions data body indices (n_type c) time_size None (seqZ 0 (n_time c)) in
        ret ((fun tr => mk_tzif [] types tr (initial_type types)) <$> trans)
      end
  | _, _ => ret None
  end.

Definition parse_memory (data : list byte) : P (option tzif_state) :=
  let len := zlen data in
  if len <? 44 then ret None
  else
    let* first := block_bytes data 0 4 in
    match first with
    | None => ret None
    | Some first =>
      if len <? 44 + first then ret None
      else
        let* version := octet data 4 in
        let h := 44 + first in
        let* v2 := (if ((version =? bz x32) || (version =? bz x33)) && (h + 44 <=? len) then magic_at data h else ret false) in
        if v2 then
          let* second := block_bytes data h 8 in
          match second with
          | None => ret None
          | Some second => if len <? h + 44 + second then ret None else parse_block data h (h + 44) second 8
          end
        else parse_block data 0 44 first 4
    end.
End Parse.

(** ** The calendar of this file *)

Definition tzif_civil_seconds (t : rtc_datetime) : Z :=
  let days := days_of_years (d_year t) + days_of_months (d_year t) (d_month t) in
  days * 86400 + d_hour t * 3600 + d_minute t * 60 + d_second t.

(** Like [seconds_to_civil], but the loops stop at the year 2100 and at December. *)
Fixpoint tzif_year_loop (fuel : nat) (year days : Z) : Z * Z :=
  match fuel with
  | O => (year, days)
  | S fuel' => if (year_days year <=? days) && (year <? 2100) then tzif_year_loop fuel' (year + 1) (days - year_days year) else (year, days)
  end.
Fixpoint tzif_month_loop (fuel : nat) (year month days : Z) : Z * Z :=
  match fuel with
  | O => (month, days)
  | S fuel' => if (month <? 12) && (month_days year month <=? days) then tzif_month_loop fuel' year (month + 1) (days - month_days year month) else (month, days)
  end.
Definition tzif_seconds_to_civil (seconds : Z) : rtc_datetime :=
  let '(days, rem) := split_days seconds in
  let '(year, days) := tzif_year_loop 130 1970 days in
  let '(month, days) := tzif_month_loop 11 year 1 days in
  mk_date year month (days + 1) (Z.quot rem 3600) (Z.rem (Z.quot rem 60) 60) (Z.rem rem 60).

(** ** The active zone *)

Definition zone_char (c : byte) : bool :=
  let v := bz c in between_z v 65 90 || between_z v 97 122 || between_z v 48 57 || (v =? 47) || (v =? 95) || (v =? 45) || (v =? 43).
Definition safe_zone_name (zone : option cstr) : bool :=
  match zone with
  | None | Some [] => false
  | Some z => (zlen z <? TZIF_NAME_MAX) && forallb zone_char z
  end.
Definition tzif_path (zone : option cstr) : option cstr := if safe_zone_name zone then Some (cs "/data/uiu/tzif/" ++ default [] zone) else None.

(** The calls of the file system that the zones use.  The files live under [/data], where CatFS
    may be mounted, so the theorems are proved for any file system that keeps [FilesTotal]. *)
Class Files (F : Type) := {
  f_stat : option cstr -> M F (Z * option stat);
  f_open : option cstr -> Z -> Z -> M F Z;
  f_read : Z -> Z -> M F (Z * list byte);
  f_write : Z -> list byte -> M F Z;
  f_close : Z -> M F unit;
  f_mkdir : option cstr -> Z -> M F Z;
  f_unlink : option cstr -> M F Z }.

#[export] Instance vfs_files H `{!Allocator H} : Files (vfs H) := {|
  f_stat := vfs_stat; f_open := vfs_open; f_read := vfs_read; f_write := vfs_write;
  f_close := vfs_close; f_mkdir := vfs_mkdir; f_unlink := vfs_unlink |}.

(** The clock's correction and ticks, the active zone, whether the data disk is mounted, the files. *)
Record time_state (F : Type) := mk_time { tm_correction : Z; tm_ticks : Z; tm_active : option tzif_state; tm_mounted : bool; tm_files : F }.
Arguments mk_time {_} _ _ _ _ _. Arguments tm_correction {_}. Arguments tm_ticks {_}. Arguments tm_active {_}. Arguments tm_mounted {_}. Arguments tm_files {_}.
#[export] Instance eta_time F : Eta (time_state F) := fun s => mk_time (tm_correction s) (tm_ticks s) (tm_active s) (tm_mounted s) (tm_files s).

Section Zone.
Context {F : Type} `{!Files F}.
Abbreviation C := (M (time_state F)).

Definition in_files {A} (m : M F A) : C A := zoom tm_files (fun v s => s <| tm_files := v |>) m.

Definition zone_loaded (s : time_state F) (zone : option cstr) : bool :=
  match tm_active s, zone with Some a, Some z => bool_decide (tf_name a = z) | _, _ => false end.
Definition tzif_is_loaded (zone : option cstr) : C bool := gets (fun s => zone_loaded s zone).
Definition tzif_clear_active : C unit := modify (fun s => s <| tm_active := None |>).

(** The file at [path] and what it holds as a zone; [None] for any failure. *)
Definition read_zone (path : cstr) : C (option (list byte * tzif_state)) :=
  let* '(r, st) := in_files (f_stat (Some path)) in
  match st with
  | Some st =>
    if (r <? 0) || negb (S_ISREG (st_mode st)) || (st_size st <? 44) || (TZIF_FILE_MAX <? st_size st) then ret None
    else
      let* fd := in_files (f_open (Some path) O_RDONLY 0) in
      if fd <? 0 then ret None
      else
        let* '(n, data) := in_files (f_read fd (st_size st)) in
        do* in_files (f_close fd) in
        if negb (n =? st_size st) then ret None
        else
          let* z := parse_memory data in
          ret ((fun z => (data, z)) <$> z)
  | None => ret None
  end.

Definition tzif_load (zone : option cstr) : C Z :=
  let* mounted := gets tm_mounted in
  match tzif_path zone with
  | Some path =>
    if negb mounted then ret (-1)
    else
      let* z := read_zone path in
      match z with
      | None => ret (-1)
      | Some (_, z) => do* modify (fun s => s <| tm_active := Some (z <| tf_name := default [] zone |>) |>) in ret 0
      end
  | None => ret (-1)
  end.

Definition tzif_import (source_path zone : option cstr) : C Z :=
  let* mounted := gets tm_mounted in
  match source_path, tzif_path zone with
  | Some src, Some target =>
    if negb mounted then ret (-1)
    else
      let* z := read_zone src in
      match z with
      | None => ret (-1)
      | Some (data, _) =>
        do* in_files (f_mkdir (Some (cs "/data/uiu")) 0x1ed) in
        do* in_files (f_mkdir (Some (cs "/data/uiu/tzif")) 0x1ed) in
        let* out := in_files (f_open (Some target) (Z.lor O_WRONLY (Z.lor O_CREAT O_EXCL)) 0x1a4) in
        if out <? 0 then ret (-1)
        else
          let* wrote := in_files (f_write out data) in
          do* in_files (f_close out) in
          if negb (wrote =? zlen data) then do* in_files (f_unlink (Some target)) in ret (-1) else ret 0
      end
  | _, _ => ret (-1)
  end.

Definition tzif_remove (zone : option cstr) : C Z :=
  let* mounted := gets tm_mounted in
  match tzif_path zone with
  | Some path =>
    if negb mounted then ret (-1)
    else
      let* loaded := tzif_is_loaded zone in
      do* (if loaded then tzif_clear_active else ret tt) in
      in_files (f_unlink (Some path))
  | None => ret (-1)
  end.

(** The type in force: that of the last transition not after [now]. *)
Fixpoint type_at (now type : Z) (trans : list (Z * Z)) : Z :=
  match trans with
  | [] => type
  | (at_, t) :: trans' => if now <? at_ then type else type_at now t trans'
  end.

Definition tzif_convert (zone : option cstr) (utc : rtc_datetime) : C (Z * option (rtc_datetime * Z * bool)) :=
  if negb (valid_civil utc) then ret (-1, None)
  else
    let* loaded := tzif_is_loaded zone in
    let* r := (if loaded then ret 0 else tzif_load zone) in
    if r <? 0 then ret (-1, None)
    else
      let* a := deref tm_active in
      let now := tzif_civil_seconds utc in
      let* t := deref (fun _ => aget (tf_types a) (type_at now (tf_initial a) (tf_transitions a))) in
      let '(offset, dst) := t in
      if negb (Z.rem offset 60 =? 0) then ret (-1, None)
      else
        let local := tzif_seconds_to_civil (now + offset) in
        if negb (valid_civil local) then ret (-1, None) else ret (0, Some (local, Z.quot offset 60, dst)).
End Zone.
