(* ===== verification/Clock.v ===== *)
(** * Time zones and clocks (src/src/atm_time.c)

    The table of zones with the rules of daylight saving time, and the clocks on top of the
    chip, the timer and a correction that can be set. *)

From S2P Require Import Prelude Cstring Alloc Vfs VfsApi Time Tzif.

(** ** Zones *)

Inductive tz_rule := TZ_FIXED | TZ_EU | TZ_US | TZ_AU | TZ_NZ | TZ_CHILE | TZ_EGYPT | TZ_ISRAEL.
#[export] Instance tz_rule_eq_dec : EqDecision tz_rule.
Proof. solve_decision. Defined.

Record tz_entry := mk_tz { tz_name : string; tz_standard : Z; tz_dst : Z; tz_rule_of : tz_rule }.

Definition tz_table : list tz_entry := [
  mk_tz "UTC" 0 0 TZ_FIXED; mk_tz "Europe/London" 0 60 TZ_EU; mk_tz "Europe/Dublin" 0 60 TZ_EU; mk_tz "Atlantic/Reykjavik" 0 0 TZ_FIXED;
  mk_tz "Europe/Lisbon" 0 60 TZ_EU; mk_tz "Europe/Madrid" 60 120 TZ_EU; mk_tz "Europe/Paris" 60 120 TZ_EU; mk_tz "Europe/Brussels" 60 120 TZ_EU;
  mk_tz "Europe/Amsterdam" 60 120 TZ_EU; mk_tz "Europe/Berlin" 60 120 TZ_EU; mk_tz "Europe/Copenhagen" 60 120 TZ_EU; mk_tz "Europe/Oslo" 60 120 TZ_EU;
  mk_tz "Europe/Stockholm" 60 120 TZ_EU; mk_tz "Europe/Rome" 60 120 TZ_EU; mk_tz "Europe/Vienna" 60 120 TZ_EU; mk_tz "Europe/Prague" 60 120 TZ_EU;
  mk_tz "Europe/Warsaw" 60 120 TZ_EU; mk_tz "Europe/Budapest" 60 120 TZ_EU; mk_tz "Europe/Athens" 120 180 TZ_EU; mk_tz "Europe/Bucharest" 120 180 TZ_EU;
  mk_tz "Europe/Helsinki" 120 180 TZ_EU; mk_tz "Europe/Kyiv" 120 180 TZ_EU; mk_tz "Europe/Riga" 120 180 TZ_EU; mk_tz "Europe/Vilnius" 120 180 TZ_EU;
  mk_tz "Europe/Moscow" 180 180 TZ_FIXED; mk_tz "Europe/Istanbul" 180 180 TZ_FIXED; mk_tz "Africa/Casablanca" 60 60 TZ_FIXED; mk_tz "Africa/Algiers" 60 60 TZ_FIXED;
  mk_tz "Africa/Lagos" 60 60 TZ_FIXED; mk_tz "Africa/Cairo" 120 180 TZ_EGYPT; mk_tz "Africa/Johannesburg" 120 120 TZ_FIXED; mk_tz "Africa/Nairobi" 180 180 TZ_FIXED;
  mk_tz "Africa/Addis_Ababa" 180 180 TZ_FIXED; mk_tz "Asia/Jerusalem" 120 180 TZ_ISRAEL; mk_tz "Asia/Riyadh" 180 180 TZ_FIXED; mk_tz "Asia/Dubai" 240 240 TZ_FIXED;
  mk_tz "Asia/Tehran" 210 210 TZ_FIXED; mk_tz "Asia/Kabul" 270 270 TZ_FIXED; mk_tz "Asia/Karachi" 300 300 TZ_FIXED; mk_tz "Asia/Tashkent" 300 300 TZ_FIXED;
  mk_tz "Asia/Yekaterinburg" 300 300 TZ_FIXED; mk_tz "Asia/Omsk" 360 360 TZ_FIXED; mk_tz "Asia/Novosibirsk" 420 420 TZ_FIXED; mk_tz "Asia/Krasnoyarsk" 420 420 TZ_FIXED;
  mk_tz "Asia/Irkutsk" 480 480 TZ_FIXED; mk_tz "Asia/Yakutsk" 540 540 TZ_FIXED; mk_tz "Asia/Vladivostok" 600 600 TZ_FIXED; mk_tz "Asia/Magadan" 660 660 TZ_FIXED;
  mk_tz "Asia/Kamchatka" 720 720 TZ_FIXED; mk_tz "Asia/Kolkata" 330 330 TZ_FIXED; mk_tz "Asia/Kathmandu" 345 345 TZ_FIXED; mk_tz "Asia/Colombo" 330 330 TZ_FIXED;
  mk_tz "Asia/Dhaka" 360 360 TZ_FIXED; mk_tz "Asia/Yangon" 390 390 TZ_FIXED; mk_tz "Asia/Bangkok" 420 420 TZ_FIXED; mk_tz "Asia/Ho_Chi_Minh" 420 420 TZ_FIXED;
  mk_tz "Asia/Jakarta" 420 420 TZ_FIXED; mk_tz "Asia/Kuala_Lumpur" 480 480 TZ_FIXED; mk_tz "Asia/Singapore" 480 480 TZ_FIXED; mk_tz "Asia/Manila" 480 480 TZ_FIXED;
  mk_tz "Asia/Shanghai" 480 480 TZ_FIXED; mk_tz "Asia/Hong_Kong" 480 480 TZ_FIXED; mk_tz "Asia/Taipei" 480 480 TZ_FIXED; mk_tz "Asia/Ulaanbaatar" 480 480 TZ_FIXED;
  mk_tz "Asia/Seoul" 540 540 TZ_FIXED; mk_tz "Asia/Tokyo" 540 540 TZ_FIXED; mk_tz "Australia/Perth" 480 480 TZ_FIXED; mk_tz "Australia/Darwin" 570 570 TZ_FIXED;
  mk_tz "Australia/Adelaide" 570 630 TZ_AU; mk_tz "Australia/Brisbane" 600 600 TZ_FIXED; mk_tz "Australia/Sydney" 600 660 TZ_AU; mk_tz "Australia/Hobart" 600 660 TZ_AU;
  mk_tz "Pacific/Port_Moresby" 600 600 TZ_FIXED; mk_tz "Pacific/Guam" 600 600 TZ_FIXED; mk_tz "Pacific/Fiji" 720 720 TZ_FIXED; mk_tz "Pacific/Auckland" 720 780 TZ_NZ;
  mk_tz "Pacific/Honolulu" (-600) (-600) TZ_FIXED; mk_tz "Pacific/Pago_Pago" (-660) (-660) TZ_FIXED; mk_tz "America/St_Johns" (-210) (-150) TZ_US; mk_tz "America/Halifax" (-240) (-180) TZ_US;
  mk_tz "America/Toronto" (-300) (-240) TZ_US; mk_tz "America/New_York" (-300) (-240) TZ_US; mk_tz "America/Detroit" (-300) (-240) TZ_US; mk_tz "America/Indiana/Indianapolis" (-300) (-240) TZ_US;
  mk_tz "America/Chicago" (-360) (-300) TZ_US; mk_tz "America/Winnipeg" (-360) (-300) TZ_US; mk_tz "America/Mexico_City" (-360) (-360) TZ_FIXED; mk_tz "America/Guatemala" (-360) (-360) TZ_FIXED;
  mk_tz "America/Costa_Rica" (-360) (-360) TZ_FIXED; mk_tz "America/Panama" (-300) (-300) TZ_FIXED; mk_tz "America/Bogota" (-300) (-300) TZ_FIXED; mk_tz "America/Lima" (-300) (-300) TZ_FIXED;
  mk_tz "America/Caracas" (-240) (-240) TZ_FIXED; mk_tz "America/La_Paz" (-240) (-240) TZ_FIXED; mk_tz "America/Santiago" (-240) (-180) TZ_CHILE; mk_tz "America/Asuncion" (-180) (-180) TZ_FIXED;
  mk_tz "America/Montevideo" (-180) (-180) TZ_FIXED; mk_tz "America/Argentina/Buenos_Aires" (-180) (-180) TZ_FIXED; mk_tz "America/Sao_Paulo" (-180) (-180) TZ_FIXED; mk_tz "America/Phoenix" (-420) (-420) TZ_FIXED;
  mk_tz "America/Denver" (-420) (-360) TZ_US; mk_tz "America/Edmonton" (-360) (-360) TZ_FIXED; mk_tz "America/Los_Angeles" (-480) (-420) TZ_US; mk_tz "America/Vancouver" (-480) (-420) TZ_US;
  mk_tz "America/Anchorage" (-540) (-480) TZ_US].

(** A NULL or empty name is UTC. *)
Definition tz_find (name : option cstr) : option tz_entry :=
  let name := match name with None | Some [] => cs "UTC" | Some n => n end in
  find (fun z => bool_decide (cs (tz_name z) = name)) tz_table.

Definition between (now start stop : Z) : bool := (start <=? now) && (now <? stop).

(** A moment of the civil calendar with [minutes] from UTC. *)
Definition local_moment (year month day hour minutes : Z) : Z := civil_seconds year month day hour 0 0 - minutes * 60.

(** The summer that begins in [base] and ends in the next year. *)
Definition south_summer (now base : Z) (rule : tz_rule) (std dst : Z) : bool :=
  let '(sm, sd, sh, em, ed, eh) := match rule with
    | TZ_AU => (10, nth_weekday base 10 0 1, 2, 4, nth_weekday (base + 1) 4 0 1, 3)
    | TZ_NZ => (9, last_weekday base 9 0, 2, 4, nth_weekday (base + 1) 4 0 1, 3)
    | _ => (9, nth_weekday base 9 0 1, 0, 4, nth_weekday (base + 1) 4 0 1, 0)
    end in
  between now (local_moment base sm sd sh std) (local_moment (base + 1) em ed eh dst).
Definition south_dst (now year : Z) (rule : tz_rule) (std dst : Z) : bool :=
  existsb (fun base => south_summer now base rule std dst) [year - 1; year].

Definition timezone_dst (z : tz_entry) (utc : rtc_datetime) : bool :=
  let y := d_year utc in
  let now := rtc_unix_seconds utc in
  let std := tz_standard z in
  let dst := tz_dst z in
  match tz_rule_of z with
  | TZ_FIXED => false
  | TZ_EU => between now (local_moment y 3 (last_weekday y 3 0) 1 0) (local_moment y 10 (last_weekday y 10 0) 1 0)
  | TZ_US => between now (local_moment y 3 (nth_weekday y 3 0 2) 2 std) (local_moment y 11 (nth_weekday y 11 0 1) 2 dst)
  | TZ_AU | TZ_NZ | TZ_CHILE => south_dst now y (tz_rule_of z) std dst
  | TZ_EGYPT => between now (local_moment y 4 (last_weekday y 4 5) 0 std) (local_moment y 10 (last_weekday y 10 4) 24 dst)
  | TZ_ISRAEL => between now (local_moment y 3 (last_weekday y 3 0 - 2) 2 std) (local_moment y 10 (last_weekday y 10 0) 2 dst)
  end.

Definition atm_timezone_supported (zone : option cstr) : bool := bool_decide (is_Some (tz_find zone)).
Definition atm_timezone_count : Z := zlen tz_table.
Definition atm_timezone_name (index : Z) : option string := tz_name <$> aget tz_table index.

(** ** The clocks *)

Definition ATM_CLOCK_REALTIME : Z := 0.
Definition ATM_CLOCK_MONOTONIC : Z := 1.
Definition ATM_EINVAL : Z := 22.
Definition ATM_ENOSYS : Z := 38.

Definition atm_clock_getres (clock_id : Z) : Z * option (Z * Z) :=
  if negb (clock_id =? ATM_CLOCK_REALTIME) && negb (clock_id =? ATM_CLOCK_MONOTONIC) then (- ATM_EINVAL, None) else (0, Some (0, 10000000)).

Section Clocks.
Context {F : Type} `{!Files F}.
Abbreviation C := (M (time_state F)).

(** A date that is out of reach of the loops does not occur: see [to_civil_total]. *)
Definition to_civil (seconds : Z) : C rtc_datetime := deref (fun _ => seconds_to_civil seconds).

Definition atm_realtime_utc (hw : list rtc_attempt) : C (Z * option rtc_datetime) :=
  match rtc_read_datetime hw with
  | None => ret (- ATM_ENOSYS, None)
  | Some raw =>
    let* c := gets tm_correction in
    let* out := to_civil (rtc_unix_seconds raw + c) in
    ret (if valid_civil out then (0, Some out) else (- ATM_EINVAL, Some out))
  end.

Definition atm_realtime_set_unix (unix_seconds : Z) (hw : list rtc_attempt) : C Z :=
  let* target := to_civil unix_seconds in
  if negb (valid_civil target) then ret (- ATM_EINVAL)
  else match rtc_read_datetime hw with
    | None => ret (- ATM_EINVAL)
    | Some raw => do* modify (fun s => s <| tm_correction := unix_seconds - rtc_unix_seconds raw |>) in ret 0
    end.
Definition atm_realtime_clear_correction : C unit := modify (fun s => s <| tm_correction := 0 |>).

(** A zone file that is loaded goes before the built-in table: the local time, the offset in minutes, the flag. *)
Definition atm_timezone_convert (zone : option cstr) (utc : rtc_datetime) : C (Z * option (rtc_datetime * Z * bool)) :=
  let* loaded := tzif_is_loaded zone in
  if loaded then tzif_convert zone utc
  else if negb (valid_civil utc) then ret (- ATM_EINVAL, None)
  else match tz_find zone with
    | None => ret (- ATM_ENOSYS, None)
    | Some z =>
      let dst := timezone_dst z utc in
      let offset := if dst then tz_dst z else tz_standard z in
      let* local := to_civil (rtc_unix_seconds utc + offset * 60) in
      ret (0, Some (local, offset, dst))
    end.
Definition atm_local_datetime (zone : option cstr) (hw : list rtc_attempt) : C (Z * option (rtc_datetime * Z * bool)) :=
  let* '(rc, utc) := atm_realtime_utc hw in
  match utc with
  | Some utc => if rc <? 0 then ret (- ATM_ENOSYS, None) else atm_timezone_convert zone utc
  | None => ret (- ATM_ENOSYS, None)
  end.

(** Seconds and nanoseconds. *)
Definition atm_clock_gettime (clock_id : Z) (hw : list rtc_attempt) : C (Z * option (Z * Z)) :=
  let* ticks := gets tm_ticks in
  if clock_id =? ATM_CLOCK_MONOTONIC then ret (0, Some (ticks / 100, ticks mod 100 * 10000000))
  else if negb (clock_id =? ATM_CLOCK_REALTIME) then ret (- ATM_EINVAL, None)
  else
    let* '(rc, rtc) := atm_realtime_utc hw in
    match rtc with
    | Some rtc => if rc <? 0 then ret (- ATM_ENOSYS, None) else ret (0, Some (rtc_unix_seconds rtc, ticks mod 100 * 10000000))
    | None => ret (- ATM_ENOSYS, None)
    end.
Definition atm_gettimeofday (hw : list rtc_attempt) : C (Z * option (Z * Z)) :=
  let* '(rc, ts) := atm_clock_gettime ATM_CLOCK_REALTIME hw in
  ret (match ts with Some (s, ns) => if rc <? 0 then (rc, None) else (0, Some (s, ns / 1000)) | None => (rc, None) end).
End Clocks.
