(* ===== verification/TimeProps.v ===== *)
(** * The calendar, the clocks and zone files: what they show *)

From Stdlib Require Import Sorting.Sorted.
From S2P Require Import Prelude Cstring Vfs VfsSynth VfsPath VfsApi Net Time Tzif Clock.

(** ** The calendar *)

(** C28: Turning a date into seconds since 1970 and back gives the same date, for every date
    from 1970 to 2099, and turning any number of seconds from 0 on into a date and back gives
    the same number: the year and month loops always end, in the right year and month. *)
Theorem civil_roundtrip :
  (forall t, valid_civil t = true -> seconds_to_civil (rtc_unix_seconds t) = Some t) /\
  (forall s, 0 <= s -> exists t, seconds_to_civil s = Some t /\ rtc_unix_seconds t = s).
Proof.
  split.
  - intros t Ht. by apply civil_of_seconds, valid_civil_spec.
  - intros s Hs. destruct (seconds_to_civil_spec s Hs) as (t & ? & _ & ?). eauto.
Qed.

(** Days of a month follow each other. *)
Lemma weekday_of_day y m d : 1970 <= y -> 1 <= m <= 12 -> 1 <= d <= month_days y m ->
  civil_weekday y m d = (civil_weekday y m 1 + (d - 1)) mod 7.
Proof.
  intros Hy Hm Hd. pose proof (month_days_bounds y m Hm).
  rewrite !civil_weekday_spec by (apply date_days_nonneg; constructor; simpl; lia).
  rewrite Z.add_mod_idemp_l by lia. unfold date_days. simpl. f_equal. lia.
Qed.

Lemma weekday_range y m d : 1970 <= y -> 1 <= m <= 12 -> 1 <= d <= month_days y m -> 0 <= civil_weekday y m d < 7.
Proof.
  intros Hy Hm Hd. rewrite weekday_of_day by done. apply Z.mod_pos_bound. lia.
Qed.

(** The days on which the daylight saving rules change the clocks are found rightly: the
    n-th given weekday of a month falls on that weekday and in the n-th week, or there is none
    and the answer is 0; the last one falls on that weekday within the last seven days. *)
Theorem weekday_rules (year month weekday nth : Z) :
  1970 <= year -> 1 <= month <= 12 -> 0 <= weekday < 7 -> 1 <= nth ->
  let day := nth_weekday year month weekday nth in
  let last := last_weekday year month weekday in
  (civil_weekday year month day = weekday /\ 7 * (nth - 1) < day <= 7 * nth /\ day <= month_days year month \/
   day = 0 /\ month_days year month < 7 * nth) /\
  civil_weekday year month last = weekday /\ month_days year month - 7 < last <= month_days year month.
Proof.
  intros Hy Hm Hw Hn. pose proof (month_days_bounds year month Hm) as Hd. cbv zeta. unfold nth_weekday, last_weekday.
  pose proof (weekday_range year month 1 Hy Hm ltac:(lia)) as H1. pose proof (weekday_range year month (month_days year month) Hy Hm ltac:(lia)) as H2.
  pose proof (weekday_of_day year month (month_days year month) Hy Hm ltac:(lia)) as E.
  set (w1 := civil_weekday year month 1) in *. set (n := month_days year month) in *. set (wn := civil_weekday year month n) in *.
  rewrite !Z.rem_mod_nonneg by lia.
  pose proof (Z.mod_pos_bound (weekday - w1 + 7) 7 ltac:(lia)) as B1. pose proof (Z.mod_pos_bound (wn - weekday + 7) 7 ltac:(lia)) as B2.
  split.
  - destruct (Z.leb_spec (1 + (weekday - w1 + 7) mod 7 + 7 * (nth - 1)) n) as [L|L]; [left|right; lia].
    split; [|lia]. rewrite weekday_of_day by lia. fold w1. Z.to_euclidean_division_equations. lia.
  - split; [|lia]. rewrite weekday_of_day by lia. fold w1. Z.to_euclidean_division_equations. lia.
Qed.

Lemma weekday_rules_witness :
  civil_weekday 2026 3 (last_weekday 2026 3 0) = 0 /\ 31 - 7 < last_weekday 2026 3 0 <= 31.
Proof. destruct (weekday_rules 2026 3 0 2) as [_ H]; [lia..|]. exact H. Defined.

(** ** The clock chip *)

Lemma all_below (n : Z) (P : Z -> bool) v : forallb P (seqZ 0 n) = true -> 0 <= v < n -> P v = true.
Proof. intros H Hv. rewrite forallb_forall in H. apply H, list_elem_of_In, elem_of_seqZ. lia. Qed.

Lemma bcd_inverse v : 0 <= v < 100 -> u8 (bcd_to_bin (bin_to_bcd (u8 v))) = v.
Proof. intros Hv. by apply Z.eqb_eq, (all_below 100 (fun v => u8 (bcd_to_bin (bin_to_bcd (u8 v))) =? v)). Qed.
Lemma rtc_inverse binary v : 0 <= v < 100 -> rtc_dec binary (rtc_enc binary v) = v.
Proof.
  intros Hv. destruct binary; [|by apply bcd_inverse]. unfold rtc_dec, rtc_enc, u8. rewrite Z.mod_small; lia.
Qed.

(** The hour comes back, but for the afternoon of a BCD clock of 12 hours, which loses 12. *)
Lemma rtc_hour_inverse binary h24 hour : 0 <= hour < 24 ->
  rtc_decode_hour binary h24 (rtc_encode_hour binary h24 hour) = if negb binary && negb h24 && (12 <=? hour) then hour - 12 else hour.
Proof.
  intros Hh. apply Z.eqb_eq.
  apply (all_below 24 (fun hour => rtc_decode_hour binary h24 (rtc_encode_hour binary h24 hour) =? if negb binary && negb h24 && (12 <=? hour) then hour - 12 else hour));
    [by destruct binary, h24|done].
Qed.

Lemma rtc_valid_spec t : rtc_valid t = true <-> civil t /\ 2000 <= d_year t <= 2099.
Proof.
  unfold rtc_valid, valid_time. rewrite !andb_true_iff, !between_z_spec. split.
  - intros (((? & ?) & ?) & (? & ?) & ?). split; [constructor|]; lia.
  - intros [[] ?]. lia.
Qed.

(** The date read back: the one written, with the hour of [rtc_hour_inverse]. *)
Definition read_back (t : rtc_datetime) (reg_b : Z) : rtc_datetime :=
  mk_date (d_year t) (d_month t) (d_day t) (if negb (rtc_binary reg_b) && negb (rtc_24h reg_b) && (12 <=? d_hour t) then d_hour t - 12 else d_hour t)
    (d_minute t) (d_second t).

Lemma rtc_read_back t reg_b : rtc_valid t = true -> exists raw, rtc_encode t reg_b = Some raw /\ rtc_decode reg_b raw = Some (read_back t reg_b).
Proof.
  intros Hv. unfold rtc_encode. rewrite Hv. simpl negb. cbv iota. eexists. split; [done|]. unfold rtc_decode.
  apply rtc_valid_spec in Hv as [[Hcy Hcm Hday Hh Hmi Hse] Hy]. pose proof (month_days_bounds (d_year t) _ Hcm) as Hd.
  rewrite rtc_hour_inverse by done.
  assert (Ey : 0 <= Z.rem (d_year t) 100 < 100 /\ Z.quot (d_year t) 100 = 20 /\ d_year t = 2000 + Z.rem (d_year t) 100)
    by (Z.to_euclidean_division_equations; lia).
  destruct Ey as (Er & Eq & Ey). cbv zeta. rewrite Eq, !rtc_inverse by lia. change ((20 <=? 20) && (20 <=? 21)) with true. cbv iota.
  change (20 * 100) with 2000. rewrite <- Ey. fold (read_back t reg_b).
  rewrite (proj2 (rtc_valid_spec (read_back t reg_b))); [done|]. split; [constructor; try done|done]. unfold read_back. cbn [d_hour].
  destruct (_ && _) eqn:E; [|lia]. apply andb_true_iff in E as [_ E]. lia.
Qed.

(** A date written to the clock chip is read back unchanged in every mode of the chip, except
    in the afternoon of a BCD clock of twelve hours, where the date read is twelve hours early: the
    afternoon bit is masked off before it is tested.  The write then reports failure although the
    registers hold the date it was asked to write. *)
Theorem rtc_write_read (t : rtc_datetime) (reg_b : Z) :
  rtc_valid t = true ->
  let lost := negb (rtc_binary reg_b) && negb (rtc_24h reg_b) && (12 <=? d_hour t) in
  exists raw,
    rtc_encode t reg_b = Some raw /\
    rtc_decode reg_b raw = Some (mk_date (d_year t) (d_month t) (d_day t) (if lost then d_hour t - 12 else d_hour t) (d_minute t) (d_second t)) /\
    forall hw, rtc_write_datetime t true reg_b (mk_attempt true reg_b raw true raw :: hw) = (if lost then -1 else 0, rtc_writes reg_b raw).
Proof.
  intros Hv lost. destruct (rtc_read_back t reg_b Hv) as (raw & He & Hd). exists raw. split; [done|]. split; [done|].
  intros hw. unfold rtc_write_datetime. rewrite Hv, He. cbn [negb orb].
  unfold rtc_read_datetime. cbn [rtc_attempts ra_before ra_between ra_first ra_second ra_reg_b negb].
  rewrite bool_decide_true by done. cbn [negb]. rewrite Hd. unfold read_back. fold lost. cbn [d_year d_month d_day d_hour d_minute].
  rewrite !Z.eqb_refl. destruct lost; [|by rewrite Z.eqb_refl]. by replace (d_hour t - 12 =? d_hour t) with false by lia.
Qed.

(** The date of the self test, on a BCD clock of twelve hours: 13:04 is read as 01:04. *)
Lemma rtc_write_read_witness :
  exists raw, rtc_encode (mk_date 2026 2 3 13 4 5) 0x00 = Some raw /\ rtc_decode 0x00 raw = Some (mk_date 2026 2 3 1 4 5).
Proof. destruct (rtc_write_read (mk_date 2026 2 3 13 4 5) 0x00 eq_refl) as (raw & ? & ? & _). by exists raw. Defined.

(** ** The clocks *)

(** The date behind a reading of the chip with a correction. *)
Lemma to_civil_spec {F} (s : time_state F) secs t : civil t -> rtc_unix_seconds t = secs -> to_civil secs s = Done (t, s).
Proof. intros Ht <-. unfold to_civil, deref. by rewrite civil_of_seconds. Qed.

Lemma rtc_decode_civil reg_b raw t : rtc_decode reg_b raw = Some t -> civil t.
Proof.
  unfold rtc_decode. destruct raw as [|a [|b [|c [|d [|e [|f [|g [|]]]]]]]]; try done. cbv zeta.
  destruct (rtc_valid _) eqn:E; intros [= <-]. by apply rtc_valid_spec in E as [].
Qed.
Lemma rtc_read_civil hw t : rtc_read_datetime hw = Some t -> civil t.
Proof.
  unfold rtc_read_datetime. generalize 4%nat. intros n. revert hw. induction n as [|n IH]; intros [|a hw]; simpl; try done.
  destruct (ra_before a), (ra_between a), (bool_decide _); simpl; done || eauto using rtc_decode_civil.
Qed.

(** Setting the time and reading it: when the chip can be read and the target is a date of the
    calendar, setting succeeds and changes only the correction; from then on a reading of the chip that
    is [d] seconds later gives the target plus [d] as the time of day and as the real-time clock. *)
Theorem set_then_read {F} `{!Files F} (s : time_state F) (target : rtc_datetime) hw1 hw2 raw1 raw2 later :
  valid_civil target = true -> rtc_read_datetime hw1 = Some raw1 -> rtc_read_datetime hw2 = Some raw2 ->
  rtc_unix_seconds later = rtc_unix_seconds target + (rtc_unix_seconds raw2 - rtc_unix_seconds raw1) -> valid_civil later = true ->
  exists s', atm_realtime_set_unix (rtc_unix_seconds target) hw1 s = Done (0, s') /\
    s' = s <| tm_correction := rtc_unix_seconds target - rtc_unix_seconds raw1 |> /\
    atm_realtime_utc hw2 s' = Done ((0, Some later), s') /\
    atm_clock_gettime ATM_CLOCK_REALTIME hw2 s' = Done ((0, Some (rtc_unix_seconds later, tm_ticks s mod 100 * 10000000)), s').
Proof.
  intros Ht H1 H2 Hl Hv. set (s' := s <| tm_correction := rtc_unix_seconds target - rtc_unix_seconds raw1 |>).
  assert (Hread : atm_realtime_utc hw2 s' = Done ((0, Some later), s')).
  { unfold atm_realtime_utc. rewrite H2. unfold bind, gets. simpl. rewrite (to_civil_spec s' _ later); [by rewrite Hv|by apply valid_civil_spec|lia]. }
  exists s'. split; [|split; [done|split; [done|]]].
  - unfold atm_realtime_set_unix, bind. rewrite (to_civil_spec s _ target); [|by apply valid_civil_spec|done]. by rewrite Ht, H1.
  - unfold atm_clock_gettime, bind, gets. cbn [Z.eqb ATM_CLOCK_REALTIME ATM_CLOCK_MONOTONIC negb Pos.eqb]. by rewrite Hread.
Qed.

(** One reading of the chip at 12:00:00 and one a minute later, in binary and 24 hours. *)
Definition noon : rtc_attempt := mk_attempt true 0x06 [0; 0; 12; 3; 2; 26; 20] true [0; 0; 12; 3; 2; 26; 20].
Definition noon_past_one : rtc_attempt := mk_attempt true 0x06 [0; 1; 12; 3; 2; 26; 20] true [0; 1; 12; 3; 2; 26; 20].
#[local] Instance no_files : Files unit := {|
  f_stat := fun _ => ret (-1, None); f_open := fun _ _ _ => ret (-1); f_read := fun _ _ => ret (-1, []); f_write := fun _ _ => ret (-1);
  f_close := fun _ => ret tt; f_mkdir := fun _ _ => ret (-1); f_unlink := fun _ => ret (-1) |}.
Definition demo_clock : time_state unit := mk_time 0 42 None false tt.

Lemma set_then_read_witness :
  exists s', atm_realtime_set_unix (rtc_unix_seconds (mk_date 2030 1 1 0 0 0)) [noon] demo_clock = Done (0, s') /\
    atm_realtime_utc [noon_past_one] s' = Done ((0, Some (mk_date 2030 1 1 0 1 0)), s').
Proof.
  destruct (set_then_read demo_clock (mk_date 2030 1 1 0 0 0) [noon] [noon_past_one] (mk_date 2026 2 3 12 0 0) (mk_date 2026 2 3 12 1 0) (mk_date 2030 1 1 0 1 0))
    as (s' & H1 & _ & H2 & _); [vm_compute; reflexivity..|]. exact (ex_intro _ s' (conj H1 H2)).
Defined.

Lemma tz_offsets z : z ∈ tz_table -> -660 <= tz_standard z <= 720 /\ tz_standard z <= tz_dst z <= 780.
Proof.
  intros Hz. assert (E : forallb (fun z => (-660 <=? tz_standard z) && (tz_standard z <=? 720) && (tz_standard z <=? tz_dst z) && (tz_dst z <=? 780)) tz_table = true) by reflexivity.
  rewrite forallb_forall in E. specialize (E z (proj1 (list_elem_of_In _ _) Hz)). apply andb_true_iff in E. lia.
Qed.
Lemma tz_find_elem name z : tz_find name = Some z -> z ∈ tz_table.
Proof. intros E. apply find_some in E as [E _]. by apply list_elem_of_In. Qed.

(** Conversion to a zone of the built-in table, for every date from 11 hours after the start of 1970:
    it always succeeds, the local date stands for the UTC date plus the offset, the offset is that of
    daylight saving time exactly when the rule says so, and an unknown zone is an error. *)
Theorem timezone_local {F} `{!Files F} (s : time_state F) zone utc :
  valid_civil utc = true -> 39600 <= rtc_unix_seconds utc -> zone_loaded s zone = false ->
  match tz_find zone with
  | None => atm_timezone_convert zone utc s = Done ((- ATM_ENOSYS, None), s)
  | Some z => exists local offset,
      atm_timezone_convert zone utc s = Done ((0, Some (local, offset, timezone_dst z utc)), s) /\
      rtc_unix_seconds local = rtc_unix_seconds utc + offset * 60 /\ civil local /\
      offset = (if timezone_dst z utc then tz_dst z else tz_standard z) /\ -660 <= offset <= 780
  end.
Proof.
  intros Hv Hs Hz. unfold atm_timezone_convert, bind, tzif_is_loaded, gets. rewrite Hz, Hv. simpl negb. cbv iota.
  destruct (tz_find zone) as [z|] eqn:E; [|done]. destruct (tz_offsets z (tz_find_elem _ _ E)) as [H1 H2].
  cbv beta zeta. set (offset := if timezone_dst z utc then tz_dst z else tz_standard z).
  assert (-660 <= offset <= 780) by (unfold offset; destruct (timezone_dst z utc); lia).
  destruct (seconds_to_civil_spec (rtc_unix_seconds utc + offset * 60)) as (local & _ & Hl & El); [lia|].
  exists local, offset. cbn [negb]. by rewrite (to_civil_spec s _ local Hl El).
Qed.

(** Summer in New York. *)
Lemma timezone_local_witness :
  exists local offset, atm_timezone_convert (Some (cs "America/New_York")) (mk_date 2026 7 1 12 0 0) demo_clock = Done ((0, Some (local, offset, true)), demo_clock) /\ offset = -240.
Proof.
  pose proof (timezone_local demo_clock (Some (cs "America/New_York")) (mk_date 2026 7 1 12 0 0) eq_refl) as T.
  destruct T as (local & offset & H1 & _ & _ & H2 & _); [apply Z.leb_le; vm_compute; reflexivity|reflexivity|]. exists local, offset. vm_compute in H2. split; [exact H1|exact H2].
Defined.

(** ** Zone files: the parser on any bytes, and the conversion *)

(** ** The parser *)

(** [reads m s P]: [m] returns from [s] without changing it, with a result that satisfies [P]. *)
Definition reads {S A} (m : M S A) (s : S) (P : A -> Prop) : Prop := wp m s (fun a s' => s' = s /\ P a).

Section Reads.
Context {S A B : Type} (s : S).
Lemma reads_ret (a : A) (P : A -> Prop) : P a -> reads (ret a) s P.
Proof. done. Qed.
Lemma reads_bind (m : M S A) (k : A -> M S B) P Q : reads m s P -> (forall a, P a -> reads (k a) s Q) -> reads (bind m k) s Q.
Proof. intros Hm Hk. unfold reads in *. wp_step. eapply wp_mono; [exact Hm|]. intros a s' [-> Ha]. by apply Hk. Qed.
Lemma reads_mono (m : M S A) P Q : reads m s P -> (forall a, P a -> Q a) -> reads m s Q.
Proof. intros Hm H. eapply wp_mono; [exact Hm|]. intros a s' [-> Ha]. auto. Qed.
End Reads.

(** The zones the conversion relies on. *)
Record tzif_ok (z : tzif_state) : Prop := {
  zk_types : 1 <= zlen (tf_types z) <= TZIF_TYPE_MAX;
  zk_offsets : Forall (fun t => - 2 ^ 31 <= fst t < 2 ^ 31) (tf_types z);
  zk_trans : zlen (tf_transitions z) <= TZIF_TRANS_MAX;
  zk_index : Forall (fun t => 0 <= snd t < zlen (tf_types z)) (tf_transitions z);
  zk_sorted : StronglySorted Z.le (fst <$> tf_transitions z);
  zk_initial : 0 <= tf_initial z < zlen (tf_types z) }.

Record counts_ok (c : tz_counts) : Prop := {
  ck_type : 1 <= n_type c <= TZIF_TYPE_MAX;
  ck_time : 0 <= n_time c <= TZIF_TRANS_MAX;
  ck_char : 0 <= n_char c <= 512;
  ck_leap : 0 <= n_leap c <= 32;
  ck_std : 0 <= n_std c;
  ck_gmt : 0 <= n_gmt c }.

Lemma i32_range z : - 2 ^ 31 <= i32 z < 2 ^ 31.
Proof. unfold i32. pose proof (u32_range z). destruct (Z.ltb_spec (u32 z) (2 ^ 31)); lia. Qed.

Section Parser.
Context {S : Type} (s : S) (data : list byte).

Lemma octet_reads off : 0 <= off < zlen data -> reads (octet data off) s (fun v => 0 <= v < 256).
Proof.
  intros Ho. destruct (aget_is_Some data off Ho) as [b Hb]. unfold reads, octet. eapply wp_deref; [by rewrite Hb|].
  split; [done|apply bz_range].
Qed.

Lemma or_octet a b k : 0 <= k -> 0 <= b < 2 ^ k -> Z.lor (Z.shiftl a k) b = a * 2 ^ k + b.
Proof.
  intros Hk Hb. rewrite lor_disjoint; [by rewrite Z.shiftl_mul_pow2|].
  apply Z.bits_inj'. intros n Hn. rewrite Z.land_spec, Z.bits_0. destruct (Z.ltb_spec n k).
  - by rewrite Z.shiftl_spec_low.
  - rewrite <- (Z.mod_small b (2 ^ k)) by done. rewrite Z.mod_pow2_bits_high by lia. apply andb_false_r.
Qed.

Lemma be32_reads off : 0 <= off -> off + 4 <= zlen data -> reads (be32_at data off) s (fun v => 0 <= v < 2 ^ 32).
Proof.
  intros H1 H2. unfold be32_at.
  eapply reads_bind; [apply octet_reads; lia|]. intros a Ha. eapply reads_bind; [apply octet_reads; lia|]. intros b Hb.
  eapply reads_bind; [apply octet_reads; lia|]. intros c Hc. eapply reads_bind; [apply octet_reads; lia|]. intros d Hd.
  cbv beta in *. apply reads_ret. rewrite (or_octet c d 8), (or_octet b _ 16), (or_octet a _ 24) by lia. lia.
Qed.

Lemma sbe32_reads off : 0 <= off -> off + 4 <= zlen data -> reads (sbe32_at data off) s (fun v => - 2 ^ 31 <= v < 2 ^ 31).
Proof. intros H1 H2. eapply reads_bind; [by apply be32_reads|]. intros v _. apply reads_ret, i32_range. Qed.

Lemma sbe64_reads off : 0 <= off -> off + 8 <= zlen data -> reads (sbe64_at data off) s (fun _ => True).
Proof.
  intros H1 H2. eapply reads_bind; [apply be32_reads; lia|]. intros hi _. eapply reads_bind; [apply be32_reads; lia|]. intros lo _. by apply reads_ret.
Qed.

Lemma magic_reads h : 0 <= h -> h + 4 <= zlen data -> reads (magic_at data h) s (fun _ => True).
Proof. intros H1 H2. unfold magic_at. do 4 (eapply reads_bind; [apply octet_reads; lia|]; intros ? _). by apply reads_ret. Qed.

Lemma header_reads h : 0 <= h -> h + 44 <= zlen data -> reads (header_counts data h) s (fun r => forall c, r = Some c -> counts_ok c).
Proof.
  intros H1 H2. unfold header_counts. eapply reads_bind; [apply magic_reads; lia|]. intros m _. destruct (negb m); [by apply reads_ret|].
  eapply reads_bind; [apply be32_reads; lia|]. intros gmt Hg. eapply reads_bind; [apply be32_reads; lia|]. intros std Hs.
  eapply reads_bind; [apply be32_reads; lia|]. intros leap Hl. eapply reads_bind; [apply be32_reads; lia|]. intros time Ht.
  eapply reads_bind; [apply be32_reads; lia|]. intros type Hty. eapply reads_bind; [apply be32_reads; lia|]. intros char Hc.
  cbv beta in *. apply reads_ret. destruct (_ || _) eqn:E; [done|]. intros c [= <-]. rewrite !orb_false_iff in E. constructor; simpl; lia.
Qed.

Definition block_ok (ts : Z) (c : tz_counts) (need : Z) : Prop := counts_ok c /\ need = block_size c ts.

Lemma block_reads h ts : 0 <= h -> h + 44 <= zlen data -> reads (block_bytes data h ts) s (fun r => forall n, r = Some n -> exists c, block_ok ts c n).
Proof.
  intros H1 H2. eapply reads_bind; [by apply header_reads|]. intros [c|] Hc; apply reads_ret; [|done]. simpl.
  case_match; [done|]. intros n [= <-]. exists c. by split; [apply Hc|].
Qed.

Lemma types_reads infos char ty idx : 0 <= infos -> infos + ty * 6 <= zlen data -> Forall (fun i => 0 <= i < ty) idx ->
  reads (parse_types data infos char idx) s (fun r => forall l, r = Some l -> length l = length idx /\ Forall (fun t => - 2 ^ 31 <= fst t < 2 ^ 31) l).
Proof.
  intros H1 H2. induction 1 as [|i idx Hi _ IH]; cbn [parse_types]; [apply reads_ret; by intros l [= <-]|].
  eapply reads_bind; [apply sbe32_reads; lia|]. intros off Ho. eapply reads_bind; [apply octet_reads; lia|]. intros dst _.
  eapply reads_bind; [apply octet_reads; lia|]. intros abbr _. destruct (_ <=? _); [by apply reads_ret|].
  eapply reads_bind; [exact IH|]. intros [l|] Hl; apply reads_ret; [|done]. intros l' [= <-].
  destruct (Hl l eq_refl) as [El Hf]. split; [by cbn; rewrite El|]. by constructor.
Qed.

Lemma transitions_reads times indices ty ts n : 0 <= times -> times + n * ts <= zlen data -> 0 <= indices -> indices + n <= zlen data -> ts = 4 \/ ts = 8 ->
  forall idx prev, Forall (fun i => 0 <= i < n) idx ->
  reads (parse_transitions data times indices ty ts prev idx) s (fun r => forall l, r = Some l ->
    length l = length idx /\ Forall (fun t => 0 <= snd t < ty) l /\ StronglySorted Z.le (fst <$> l) /\ forall p, prev = Some p -> Forall (fun t => p <= fst t) l).
Proof.
  intros H1 H2 H3 H4 Hts idx. induction idx as [|i idx IH]; intros prev; cbn [parse_transitions].
  - intros _. apply reads_ret. intros l [= <-]. split_and!; intros; constructor.
  - intros [Hi Hidx]%list.Forall_cons. eapply reads_bind; [apply octet_reads; lia|]. intros index Hx.
    destruct (Z.leb_spec ty index); [by apply reads_ret|].
    apply (reads_bind _ _ _ (fun _ => True)). { destruct Hts as [-> | ->]; simpl; [eapply reads_mono; [apply sbe32_reads; lia|done]|apply sbe64_reads; lia]. }
    intros at_ _. destruct (match prev with Some p => at_ <? p | None => false end) eqn:Ep; [by apply reads_ret|].
    eapply reads_bind; [by apply (IH (Some at_))|]. intros [l|] Hl; apply reads_ret; [|done]. intros l' [= <-].
    cbv beta in Hx. destruct (Hl l eq_refl) as (El & Hf & Hs & Hp). specialize (Hp at_ eq_refl). split; [by cbn; rewrite El|]. split; [constructor; [cbn; lia|done]|]. split.
    + rewrite fmap_cons. constructor; [done|]. by apply Forall_fmap.
    + intros p ->. constructor; [simpl; lia|]. eapply list.Forall_impl; [exact Hp|]. simpl. lia.
Qed.

Lemma initial_type_range types : 1 <= zlen types -> 0 <= initial_type types < zlen types.
Proof.
  intros Ht. unfold initial_type. destruct (first_idx _ 0 (zlen types)) as [i|] eqn:E; simpl; [|lia].
  apply first_idx_Some in E. lia.
Qed.

Lemma seqZ_below n : Forall (fun i => 0 <= i < n) (seqZ 0 n).
Proof. apply list.Forall_forall. intros i Hi%elem_of_seqZ. lia. Qed.

Lemma reads_run {A} (m : M S A) P : reads m s P -> exists a, m s = Done (a, s) /\ P a.
Proof. intros (a & s' & E & -> & H)%wp_inv. eauto. Qed.

Lemma parse_block_reads h body len ts : 0 <= h -> h + 44 <= zlen data -> 0 <= body -> body + len <= zlen data -> ts = 4 \/ ts = 8 ->
  reads (parse_block data h body len ts) s (fun r => forall z, r = Some z -> tzif_ok z).
Proof.
  intros H1 H2 H3 H4 Hts. destruct (reads_run _ _ (header_reads h H1 H2)) as (c & E & Hc).
  unfold parse_block, reads, wp. rewrite (bind_Done _ _ _ _ _ E). unfold block_bytes at 1.
  erewrite (bind_Done (bind _ _)) by (rewrite (bind_Done _ _ _ _ _ E); reflexivity).
  destruct c as [c|]; [|done]. cbn [mbind option_bind].
  match goal with |- match ?m s with _ => _ end => change (reads m s (fun r => forall z, r = Some z -> tzif_ok z)) end.
  destruct (TZIF_FILE_MAX <? block_size c ts); [by apply reads_ret|].
  destruct (Z.ltb_spec len (block_size c ts)) as [|Hlen]; [by apply reads_ret|]. specialize (Hc c eq_refl). destruct Hc as [Hty Hti Hch Hle Hst Hgm].
  unfold block_size in Hlen.
  assert (0 <= n_leap c * (ts + 4)) by (apply Z.mul_nonneg_nonneg; lia).
  eapply reads_bind; [apply (types_reads _ _ (n_type c)); [nia|nia|apply seqZ_below]|].
  intros [types|] Ht; [|by apply reads_ret]. destruct (Ht types eq_refl) as [Elen Hoff]. rewrite length_seqZ in Elen.
  eapply reads_bind; [apply (transitions_reads _ _ _ _ (n_time c)); [lia|nia|nia|nia|done|apply seqZ_below]|].
  intros [trans|] Hr; apply reads_ret; [|done]. intros z [= <-]. destruct (Hr trans eq_refl) as (Elen' & Hf & Hs & _). rewrite length_seqZ in Elen'.
  constructor; simpl; try done; rewrite ?Elen'; try lia.
  - eapply list.Forall_impl; [exact Hf|]. simpl. lia.
  - apply initial_type_range. lia.
Qed.

Lemma parse_memory_reads : reads (parse_memory data) s (fun r => forall z, r = Some z -> tzif_ok z).
Proof.
  unfold parse_memory. destruct (Z.ltb_spec (zlen data) 44) as [|H44]; [by apply reads_ret|].
  eapply reads_bind; [apply block_reads; lia|]. intros [first|] Hf; [|by apply reads_ret].
  assert (0 <= first). { destruct (Hf first eq_refl) as (c & [] & ->). unfold block_size. lia. }
  destruct (Z.ltb_spec (zlen data) (44 + first)); [by apply reads_ret|]. eapply reads_bind; [apply octet_reads; lia|]. intros version _.
  apply (reads_bind _ _ _ (fun v2 => v2 = true -> 44 + first + 44 <= zlen data)).
  { destruct (_ && _) eqn:E; [|by apply reads_ret]. apply andb_true_iff in E as [_ E].
    eapply reads_mono; [apply magic_reads; lia|]. lia. }
  intros [] Hv; [|apply parse_block_reads; lia]. specialize (Hv eq_refl). eapply reads_bind; [apply block_reads; lia|].
  intros [second|] _; [|by apply reads_ret]. destruct (Z.ltb_spec (zlen data) (44 + first + 44 + second)); [by apply reads_ret|].
  apply parse_block_reads; lia.
Qed.
End Parser.

(** ** The conversion *)

(** What the zones need of the file system: the calls that look at a file return. *)
Class FilesTotal (F : Type) `{!Files F} := {
  files_ok : F -> Prop;
  stat_total : forall f p, files_ok f -> wp (f_stat p) f (fun _ f' => files_ok f');
  open_total : forall f p flags mode, files_ok f -> wp (f_open p flags mode) f (fun _ f' => files_ok f');
  read_total : forall f fd n, files_ok f -> 0 <= n <= TZIF_FILE_MAX -> wp (f_read fd n) f (fun _ f' => files_ok f');
  close_total : forall f fd, files_ok f -> wp (f_close fd) f (fun _ f' => files_ok f') }.

(** The type in force at a moment: that of the last transition at or before it. *)
Definition in_force (now : Z) (z : tzif_state) : Z := default (tf_initial z) (snd <$> list.last (filter (fun t => fst t <= now) (tf_transitions z))).

Lemma filter_later now (trans : list (Z * Z)) : Forall (fun t => now < fst t) trans -> filter (fun t => fst t <= now) trans = [].
Proof. induction 1; [done|]. rewrite filter_cons_False; [done|lia]. Qed.

Lemma type_at_spec now init trans : StronglySorted Z.le (fst <$> trans) ->
  type_at now init trans = default init (snd <$> list.last (filter (fun t => fst t <= now) trans)).
Proof.
  revert init. induction trans as [|[at_ t] trans IH]; intros init; [done|]. rewrite fmap_cons. intros [Hs Hf]%StronglySorted_inv.
  cbn [type_at]. destruct (Z.ltb_spec now at_) as [Hlt|Hge].
  - rewrite filter_later; [done|]. constructor; [done|]. rewrite Forall_fmap in Hf. eapply list.Forall_impl; [exact Hf|]. simpl. lia.
  - rewrite IH by done. rewrite filter_cons_True by done.
    destruct (filter (fun t => fst t <= now) trans) as [|x l] eqn:E using rev_ind; [done|]. by rewrite app_comm_cons, !last_snoc.
Qed.

Section Convert.
Context {F : Type} `{FilesTotal F}.
Implicit Types s : time_state F.

Definition time_ok s : Prop := (forall z, tm_active s = Some z -> tzif_ok z) /\ files_ok (tm_files s).

(** Changes only the files. *)
Definition same_clock s s' : Prop := exists f, s' = s <| tm_files := f |> /\ files_ok f.

Lemma in_files_spec {A} (m : M F A) s : wp m (tm_files s) (fun _ f => files_ok f) -> wp (in_files m) s (fun _ s' => same_clock s s').
Proof. intros Hm. unfold in_files. wp_step. eapply wp_mono; [exact Hm|]. intros a f Hf. by exists f. Qed.
Lemma same_clock_trans s s1 s2 : same_clock s s1 -> same_clock s1 s2 -> same_clock s s2.
Proof. intros (f & -> & _) (f' & -> & Hf'). by exists f'. Qed.

Lemma same_clock_files s s' : same_clock s s' -> files_ok (tm_files s').
Proof. by intros (f & -> & Hf). Qed.
#[local] Hint Resolve same_clock_files : core.

Lemma read_zone_spec path s : files_ok (tm_files s) -> wp (read_zone path) s (fun r s' => same_clock s s' /\ forall d z, r = Some (d, z) -> tzif_ok z).
Proof.
  intros Hf. unfold read_zone. wp_step. eapply wp_mono; [by apply in_files_spec, stat_total|]. intros [r st] s1 H1.
  destruct st as [st|]; [|by wp_step]. destruct (_ || _) eqn:Eg; [by wp_step|]. rewrite !orb_false_iff in Eg.
  wp_step. eapply wp_mono; [by apply in_files_spec, open_total; eauto|]. intros fd s2 H2. apply (same_clock_trans _ _ _ H1) in H2.
  destruct (fd <? 0); [wp_step; split; [eauto|done]|].
  wp_step. eapply wp_mono; [apply in_files_spec, read_total; [eauto|lia]|]. intros [n data] s3 H3. apply (same_clock_trans _ _ _ H2) in H3.
  wp_step. eapply wp_mono; [by apply in_files_spec, close_total; eauto|]. intros u s4 H4. apply (same_clock_trans _ _ _ H3) in H4.
  destruct (negb (n =? st_size st)); [wp_step; split; [eauto|done]|]. wp_step. eapply wp_mono; [apply parse_memory_reads|]. intros z s5 [-> Hz]. wp_step.
  split; [eauto|]. intros d z' Ez. destruct z; [|done]. injection Ez as <- <-. by apply Hz.
Qed.

Lemma tzif_load_spec zone s : time_ok s -> wp (tzif_load zone) s (fun r s' => time_ok s' /\ (r = -1 \/ r = 0 /\ zone_loaded s' zone = true)).
Proof.
  intros [Ha Hf]. unfold tzif_load. wp_step. wp_step. destruct (tzif_path zone) as [path|] eqn:Ep; [|by wp_step; split; [|left]].
  destruct (negb _); [by wp_step; split; [|left]|]. wp_step. eapply wp_mono; [by apply read_zone_spec|]. intros r s1 [(f & -> & Hf') Hz].
  destruct r as [[d z]|]; [|by wp_step; split; [|left]]. specialize (Hz d z eq_refl). repeat wp_step.
  split; [split; [|done]; intros z' [= <-]; by destruct Hz|]. right. split; [done|].
  unfold tzif_path, safe_zone_name in Ep. destruct zone as [zone|]; [|done]. unfold zone_loaded. simpl. by apply bool_decide_true.
Qed.

Lemma in_force_range now z : tzif_ok z -> 0 <= in_force now z < zlen (tf_types z).
Proof.
  intros []. unfold in_force. destruct (list.last _) as [t|] eqn:E; [|done]. simpl. apply last_Some_elem_of in E. apply list_elem_of_filter in E as [_ E].
  rewrite list.Forall_forall in zk_index0. by apply zk_index0.
Qed.

(** The outcome of a conversion from the state [s] to [s']. *)
Definition converted (zone : option cstr) (utc : rtc_datetime) s s' (r : Z * option (rtc_datetime * Z * bool)) : Prop :=
  r = (-1, None) \/
  exists z local offset dst, r = (0, Some (local, offset, dst)) /\ valid_civil utc = true /\ valid_civil local = true /\
    tm_active s' = Some z /\ zone_loaded s' zone = true /\
    aget (tf_types z) (in_force (tzif_civil_seconds utc) z) = Some (offset * 60, dst) /\ local = tzif_seconds_to_civil (tzif_civil_seconds utc + offset * 60).

Lemma tzif_convert_spec zone utc s : time_ok s -> wp (tzif_convert zone utc) s (fun r s' => time_ok s' /\ converted zone utc s s' r).
Proof.
  intros Hok. unfold tzif_convert. destruct (valid_civil utc) eqn:Hv; cbn [negb]; [|wp_step; split; [exact Hok|left; reflexivity]].
  unfold tzif_is_loaded. do 3 wp_step.
  apply (wp_mono _ _ (fun r s' => time_ok s' /\ (r = -1 \/ r = 0 /\ zone_loaded s' zone = true))).
  { destruct (zone_loaded s zone) eqn:El; [wp_step; by split; [|right]|by apply tzif_load_spec]. }
  intros r s1 [Hok1 [->|[-> Hl]]]; [change (-1 <? 0) with true; cbv iota; wp_step; by split; [|left]|]. change (0 <? 0) with false. cbv iota.
  destruct (tm_active s1) as [z|] eqn:Ea; [|by unfold zone_loaded in Hl; rewrite Ea in Hl].
  pose proof (proj1 Hok1 z Ea) as Hz. wp_step. eapply wp_deref; [exact Ea|]. rewrite type_at_spec by apply Hz. fold (in_force (tzif_civil_seconds utc) z).
  destruct (aget_is_Some (tf_types z) _ (in_force_range (tzif_civil_seconds utc) z Hz)) as [[off dst] Eo].
  wp_step. eapply wp_deref; [exact Eo|]. cbv beta iota. destruct (Z.eqb_spec (Z.rem off 60) 0) as [Er|]; cbn [negb]; [|wp_step; split; [exact Hok1|left; reflexivity]].
  destruct (valid_civil (tzif_seconds_to_civil _)) eqn:Hvl; cbn [negb]; wp_step; (split; [done|]); [right|by left].
  assert (Z.quot off 60 * 60 = off) as Eq by (pose proof (Z.quot_rem off 60 ltac:(lia)); lia).
  exists z, (tzif_seconds_to_civil (tzif_civil_seconds utc + off)), (Z.quot off 60), dst. rewrite Eq. by split_and!.
Qed.
End Convert.

(** C29: The zone-file parser is safe on every byte sequence: it returns without reading outside the
    bytes, and a zone it accepts has between 1 and 16 types, at most 64 transitions in ascending order,
    and only indices of types it has. *)
Theorem tzif_parse_safe (data : list byte) :
  exists r, parse_memory (S := unit) data tt = Done (r, tt) /\ forall z, r = Some z -> tzif_ok z.
Proof. destruct (reads_run tt _ _ (parse_memory_reads tt data)) as (r & ? & ?). eauto. Qed.

(** Conversion with a zone file, over any file system whose calls return: it never faults, keeps the
    active zone well formed, and either fails or gives the offset of the type in force (that of the last
    transition at or before the moment) and a date of the calendar. *)
Theorem tzif_convert_safe {F} `{FilesTotal F} zone utc (s : time_state F) :
  time_ok s -> exists r s', tzif_convert zone utc s = Done (r, s') /\ time_ok s' /\ converted zone utc s s' r.
Proof. intros Hok. destruct (wp_inv _ _ _ (tzif_convert_spec zone utc s Hok)) as (r & s' & ? & ? & ?). eauto. Qed.

(** The file of the self test: UTC until 1970, one hour more in summer time from then on. *)
Definition demo_zone : list byte :=
  cs "TZif" ++ replicate 28 x00 ++ [x00; x00; x00; x01; x00; x00; x00; x02; x00; x00; x00; x08] ++
  [x00; x00; x00; x00; x01] ++ [x00; x00; x00; x00; x00; x00] ++ [x00; x00; x0e; x10; x01; x04] ++ cs "STD" ++ [x00] ++ cs "DST" ++ [x00].
(** A file system that holds these bytes at every path. *)
#[local] Instance one_file : Files unit := {|
  f_stat := fun _ => ret (0, Some (mk_stat 1 0x81a4 1 0 0 (zlen demo_zone) 512 1 (mk_ts 0 0) (mk_ts 0 0) (mk_ts 0 0) 1 (zlen demo_zone) 0 0x1a4 0 0));
  f_open := fun _ _ _ => ret 3; f_read := fun _ n => ret (n, take (Z.to_nat n) demo_zone); f_write := fun _ _ => ret (-1);
  f_close := fun _ => ret tt; f_mkdir := fun _ _ => ret (-1); f_unlink := fun _ => ret (-1) |}.
#[local] Instance one_file_total : FilesTotal unit.
Proof. by refine {| files_ok := fun _ => True |}. Defined.

Definition demo_time : time_state unit := mk_time 0 0 None true tt.
Lemma demo_time_ok : time_ok demo_time.
Proof. by split. Qed.

Lemma tzif_convert_safe_witness :
  exists s', tzif_convert (Some (cs "Test/Zone")) (mk_date 1970 1 1 0 0 1) demo_time = Done ((0, Some (mk_date 1970 1 1 1 0 1, 60, true)), s') /\ time_ok s'.
Proof.
  destruct (tzif_convert_safe (Some (cs "Test/Zone")) (mk_date 1970 1 1 0 0 1) demo_time demo_time_ok) as (r & s' & E & Hok & _).
  exists s'. split; [|exact Hok]. vm_compute in E. injection E as <- <-. vm_compute. reflexivity.
Defined.

(** Conversion with a zone file does not look at the day of the month: the dates of a month all give
    the answer of its first day, since the sum of the seconds leaves the day out. *)
Theorem tzif_ignores_day {F} `{!Files F} zone utc (s : time_state F) :
  valid_civil utc = true ->
  tzif_convert zone utc s = tzif_convert zone (mk_date (d_year utc) (d_month utc) 1 (d_hour utc) (d_minute utc) (d_second utc)) s.
Proof.
  intros Hv. set (first := mk_date _ _ _ _ _ _). assert (Hf : valid_civil first = true).
  { apply valid_civil_spec in Hv as [[] Hy]. apply valid_civil_spec. split; [constructor|]; simpl; lia. }
  unfold tzif_convert. by rewrite Hv, Hf.
Qed.

(** One second into the last day of January 1970 is one second past one in the morning of the first. *)
Lemma tzif_ignores_day_witness :
  exists s', tzif_convert (Some (cs "Test/Zone")) (mk_date 1970 1 31 0 0 1) demo_time = Done ((0, Some (mk_date 1970 1 1 1 0 1, 60, true)), s').
Proof. rewrite (tzif_ignores_day _ (mk_date 1970 1 31 0 0 1) demo_time eq_refl). eexists. vm_compute. reflexivity. Defined.
