(* ===== verification/Syscall.v ===== *)
(** * System calls of user programs (src/src/atm_syscall.c)

    The functions [sys_*_user] behind the dispatcher: they check and copy what the user
    program points to, call the components and copy the results back.  [space] is the address
    space of the caller, [task] its slot, [None] for NULL; user pointers are numbers.  A call that has
    to wait ends with [Sleeping] and what it will go on with ([pending]); the kernel buffer it
    holds meanwhile is part of that.  Structures cross the boundary as their bytes. *)

From S2P Require Import Prelude Cstring Sched Pipe Alloc Vfs VfsSynth VfsPath VfsApi Paging Elf Kernel Posix Socket NativeFd Process NativeApp Tcp Time Tzif Clock.

Definition ATM_EFAULT : Z := 14.
Definition ATM_ENOMEM : Z := 12.
Definition ATM_SYS_IO_MAX : Z := 64 * 1024.
Definition ATM_SYS_IOV_MAX : Z := 16.
Definition ATM_SYS_POLL_MAX : Z := 16.
Definition ATM_AT_FDCWD : Z := -100.
Definition ATM_AT_SYMLINK_NOFOLLOW : Z := 0x100.
Definition ATM_AT_REMOVEDIR : Z := 0x200.
Definition ATM_MSG_DONTWAIT : Z := 0x40.
Definition ATM_RLIMIT_STACK : Z := 3.
Definition ATM_RLIMIT_NOFILE : Z := 7.
Definition ATM_RLIMIT_AS : Z := 9.
Definition ATM_USER_ANON_BASE : Z := ATM_USER_BASE + 0x01000000.
Definition sizeof_payload : Z := 2124.

(** ** Structures as bytes *)

Definition timespec_bytes (t : timespec) : list byte := le_bytes 8 (ts_sec t) ++ le_bytes 4 (ts_nsec t) ++ le_bytes 4 0.
(** [vfs_stat_t] with its padding, which the filesystem clears. *)
Definition stat_bytes (s : stat) : list byte :=
  le_bytes 8 (st_ino s) ++ le_bytes 4 (st_mode s) ++ le_bytes 4 (st_nlink s) ++ le_bytes 4 (st_uid s) ++ le_bytes 4 (st_gid s) ++
  le_bytes 8 (st_size s) ++ le_bytes 4 (st_blksize s) ++ le_bytes 4 0 ++ le_bytes 8 (st_blocks s) ++
  timespec_bytes (st_atime s) ++ timespec_bytes (st_mtime s) ++ timespec_bytes (st_ctime s) ++
  le_bytes 4 (st_inode s) ++ le_bytes 4 (st_size32 s) ++ le_bytes 4 (st_type s) ++ le_bytes 1 (st_perms s) ++ le_bytes 3 0 ++
  le_bytes 4 (st_uid' s) ++ le_bytes 4 (st_gid' s).

Definition pair_bytes (x : Z * Z) : list byte := le_bytes 8 (fst x) ++ le_bytes 8 (snd x).
(** The [i]-th word of [n] bytes. *)
Definition word_of (n : nat) (bs : list byte) (i : Z) : Z := le (take n (drop (Z.to_nat i * n) bs)).

Definition pollfd_bytes (f : pollfd) : list byte := le_bytes 4 (pf_fd f) ++ le_bytes 2 (pf_events f) ++ le_bytes 2 (pf_revents f).
Definition pollfd_of (bs : list byte) (i : Z) : pollfd :=
  mk_pollfd (i32 (word_of 4 bs (2 * i))) (word_of 2 bs (4 * i + 2)) (word_of 2 bs (4 * i + 3)).

Definition sockaddr_bytes (a : sockaddr_in) : list byte := le_bytes 2 (sa_family a) ++ le_bytes 2 (sa_port a) ++ (zb <$> sa_addr a) ++ replicate 8 nul.
Definition sockaddr_of (bs : list byte) : sockaddr_in := mk_sockaddr (word_of 2 bs 0) (word_of 2 bs 1) (bz <$> take 4 (drop 4 bs)).
Definition sizeof_sockaddr : Z := 16.

(** [atm_user_dirent_t]; [name] is the whole array. *)
Definition dirent_bytes (ino type : Z) (name : list byte) : list byte := le_bytes 8 ino ++ le_bytes 1 type ++ name.
Definition sizeof_dirent : Z := 265.

(** [atm_uname_fill]: six fields of 65 bytes. *)
Definition uts_field (s : string) : list byte := cs s ++ replicate (65 - String.length s) nul.
Definition atm_uname_fill : list byte :=
  uts_field "ATMKoala" ++ uts_field "atmkoala" ++ uts_field "0.9" ++ uts_field "ATMKoala native POSIX profile" ++ uts_field "x86_64" ++ uts_field "localdomain".

(** A user [iovec]. *)
Record user_iov := mk_uiov { ui_base : Z; ui_len : Z }.
Definition uiov_of (bs : list byte) (i : Z) : user_iov := mk_uiov (word_of 8 bs (2 * i)) (word_of 8 bs (2 * i + 1)).

(** ** Calls that wait *)

Inductive pending :=
| PRead (tmp fd ubuf count : Z)
| PWrite (tmp fd : Z) (data : list byte)
| PReadv (tmp fd : Z) (iov : list user_iov) (rest : list iovec) (total : Z) (got : list byte)
| PWritev (tmp fd : Z) (rest : list iovec) (total : Z)
| PPoll (ufds : Z) (fds : list pollfd) (ticks start : Z)
| PSelect (rp wp ep in_r in_w in_e : Z) (fds : list pollfd) (ticks start : Z)
| PWait (pid status options : Z)
| PSleep.

Inductive answer := Answer (v : Z) | Sleeping (p : pending) | Replaced (entry stack : Z) | NoReturn.

(** ** The state *)

(** The kernel, the clock, and the name of [g_dirent_buf], which keeps what earlier entries left. *)
Record machine (H N : Type) := mk_machine { y_k : kernel H N; y_time : time_state unit; y_dirent : list byte }.
Arguments mk_machine {_ _} _ _ _. Arguments y_k {_ _}. Arguments y_time {_ _}. Arguments y_dirent {_ _}.
#[export] Instance eta_machine H N : Eta (machine H N) := fun s => mk_machine (y_k s) (y_time s) (y_dirent s).

Section Calls.
Context {H N : Type} `{!Allocator H} `{!Tcp N}.
Abbreviation K := (M (kernel H N)).
Implicit Types (space : option user_space) (task : option nat).

Definition sys_user_space : K (option user_space) :=
  let* cur := gets current in
  match cur with
  | None => ret None
  | Some t =>
    let* x := ktask t in
    if t_address_space x =? 0 then ret None
    else let* us := deref (fun k => k_spaces k !! t_address_space x) in ret (if us_valid us =? 0 then None else Some us)
  end.

(** ** Helpers *)

Definition no_space space : bool := match space with None => true | Some _ => false end.
Definition range_ok space (p n : Z) (w : bool) : K bool := let* r := on_pages (user_range_valid space p n w) in ret (negb (r <? 0)).
(** The bytes at a user address, or [None]. *)
Definition fetch space (p n : Z) : K (option (list byte)) :=
  let* '(r, bs) := on_pages (copy_from_user space true p n) in ret (if r <? 0 then None else Some bs).
Definition store space (p : Z) (bs : list byte) : K bool := let* r := on_pages (copy_to_user space p (Some bs) (zlen bs)) in ret (negb (r <? 0)).
(** [copy_to_user(...)<0?-ATM_EFAULT:v] *)
Definition put_result space (p : Z) (bs : list byte) (v : Z) : K Z := let* ok := store space p bs in ret (if ok then v else - ATM_EFAULT).

(** A path of the user program, without its terminator: [sys_path_copy]. *)
Definition sys_path_copy space (p : Z) : K (option cstr) :=
  if no_space space then ret None
  else let* '(r, bs) := on_pages (copy_string_from_user space true VFS_PATH_MAX p) in ret (if r <? 0 then None else Some (take (length bs - 1) bs)).

(** [kmalloc] for a buffer, the work with it, [kfree]. *)
Definition with_buffer (n : Z) (f : K Z) : K Z :=
  let* tmp := on_kheap (kmalloc n) in
  if tmp =? 0 then ret (- ATM_ENOMEM) else let* r := f in do* on_kheap (kfree tmp) in ret r.
(** Two buffers, freed in the opposite order. *)
Definition with_two_buffers (n : Z) (f : K Z) : K Z :=
  let* a := on_kheap (kmalloc n) in
  let* b := on_kheap (kmalloc n) in
  if (a =? 0) || (b =? 0) then
    do* (if a =? 0 then ret tt else on_kheap (kfree a)) in
    do* (if b =? 0 then ret tt else on_kheap (kfree b)) in
    ret (- ATM_ENOMEM)
  else let* r := f in do* on_kheap (kfree b) in do* on_kheap (kfree a) in ret r.

Definition on_path space (p : Z) (f : option cstr -> K Z) : K Z :=
  let* path := sys_path_copy space p in match path with None => ret (- ATM_EFAULT) | Some s => f (Some s) end.
Definition on_two_paths space (p q : Z) (f : option cstr -> option cstr -> K Z) : K Z :=
  let* a := sys_path_copy space p in
  match a with
  | None => ret (- ATM_EFAULT)
  | Some a => let* b := sys_path_copy space q in match b with None => ret (- ATM_EFAULT) | Some b => f (Some a) (Some b) end
  end.

(** ** Transfers *)

Definition io_args_bad space (ubuf count : Z) : bool := no_space space || ((ubuf =? 0) && negb (count =? 0)) || (ATM_SYS_IO_MAX <? count).

(** What follows [native_fd_read]: the copy to the user and the release of the buffer. *)
Definition finish_read space (tmp ubuf n : Z) (bs : list byte) : K answer :=
  let* n := (if 0 <? n then put_result space ubuf (take (Z.to_nat n) bs) n else ret n) in
  do* on_kheap (kfree tmp) in
  ret (Answer n).
Definition read_pass space task (tmp fd ubuf count : Z) : K answer :=
  let* r := native_fd_read task fd true count in
  match r with Blocked => ret (Sleeping (PRead tmp fd ubuf count)) | Returned n bs => finish_read space tmp ubuf n bs end.
Definition sys_read_user space task (fd ubuf count : Z) : K answer :=
  if io_args_bad space ubuf count then ret (Answer (- ATM_EFAULT))
  else if count =? 0 then ret (Answer 0)
  else
    let* ok := range_ok space ubuf count true in
    if negb ok then ret (Answer (- ATM_EFAULT))
    else
      let* tmp := on_kheap (kmalloc count) in
      if tmp =? 0 then ret (Answer (- ATM_ENOMEM)) else read_pass space task tmp fd ubuf count.

Definition write_pass task (tmp fd : Z) (data : list byte) : K answer :=
  let* r := native_fd_write task fd (Some data) in
  match r with
  | Blocked => ret (Sleeping (PWrite tmp fd data))
  | Returned n _ => do* on_kheap (kfree tmp) in ret (Answer n)
  end.
Definition sys_write_user space task (fd ubuf count : Z) : K answer :=
  if io_args_bad space ubuf count then ret (Answer (- ATM_EFAULT))
  else if count =? 0 then ret (Answer 0)
  else
    let* tmp := on_kheap (kmalloc count) in
    if tmp =? 0 then ret (Answer (- ATM_ENOMEM))
    else
      let* data := fetch space ubuf count in
      match data with
      | None => do* on_kheap (kfree tmp) in ret (Answer (- ATM_EFAULT))
      | Some data => write_pass task tmp fd data
      end.

Definition sys_pread_user space task (fd ubuf count offset : Z) : K Z :=
  if io_args_bad space ubuf count then ret (- ATM_EFAULT)
  else if count =? 0 then ret 0
  else
    let* ok := range_ok space ubuf count true in
    if negb ok then ret (- ATM_EFAULT)
    else with_buffer count (
      let* '(n, bs) := native_fd_pread task fd count offset in
      if 0 <? n then put_result space ubuf (take (Z.to_nat n) bs) n else ret n).
Definition sys_pwrite_user space task (fd ubuf count offset : Z) : K Z :=
  if io_args_bad space ubuf count then ret (- ATM_EFAULT)
  else if count =? 0 then ret 0
  else with_buffer count (
    let* data := fetch space ubuf count in
    match data with None => ret (- ATM_EFAULT) | Some data => native_fd_pwrite task fd data offset end).

(** The elements checked one by one; [inl] is the error, [inr] the total length. *)
Fixpoint iov_check space (output : bool) (iov : list user_iov) (total : Z) : K (Z + Z) :=
  match iov with
  | [] => ret (inr total)
  | v :: iov' =>
    let* ok := (if ui_len v =? 0 then ret true else if ui_base v =? 0 then ret false else range_ok space (ui_base v) (ui_len v) output) in
    if negb ok then ret (inl (- ATM_EFAULT))
    else if ATM_SYS_IO_MAX - total <? ui_len v then ret (inl (- ATM_EINVAL))
    else iov_check space output iov' (total + ui_len v)
  end.
Definition sys_iov_prepare space (uiov iovcnt : Z) (output : bool) : K (Z + list user_iov * Z) :=
  if no_space space || (iovcnt <? 0) || (ATM_SYS_IOV_MAX <? iovcnt) then ret (inl (- ATM_EINVAL))
  else if iovcnt =? 0 then ret (inr ([], 0))
  else if uiov =? 0 then ret (inl (- ATM_EFAULT))
  else
    let* bs := fetch space uiov (iovcnt * 16) in
    match bs with
    | None => ret (inl (- ATM_EFAULT))
    | Some bs =>
      let iov := uiov_of bs <$> seqZ 0 iovcnt in
      let* r := iov_check space output iov 0 in
      ret (match r with inl e => inl e | inr total => inr (iov, total) end)
    end.

(** The bytes read, spread over the user's elements. *)
Fixpoint scatter space (iov : list user_iov) (left : Z) (bs : list byte) : K bool :=
  match iov with
  | [] => ret true
  | v :: iov' =>
    if left <=? 0 then ret true
    else
      let part := if left <? ui_len v then left else ui_len v in
      let* ok := (if part =? 0 then ret true else store space (ui_base v) (take (Z.to_nat part) bs)) in
      if ok then scatter space iov' (left - part) (drop (Z.to_nat part) bs) else ret false
  end.
Definition scatter_result space (iov : list user_iov) (n : Z) (bs : list byte) : K Z :=
  if 0 <? n then let* ok := scatter space iov n bs in ret (if ok then n else - ATM_EFAULT) else ret n.
(** The elements read one after another; [None] when one cannot be read. *)
Fixpoint gather space (iov : list user_iov) : K (option (list iovec)) :=
  match iov with
  | [] => ret (Some [])
  | v :: iov' =>
    let* b := (if ui_len v =? 0 then ret (Some []) else fetch space (ui_base v) (ui_len v)) in
    match b with
    | None => ret None
    | Some b => let* rest := gather space iov' in ret (cons (mk_iov (Some b) (ui_len v)) <$> rest)
    end
  end.
(** [kernel_iov] for reading: elements of the buffer. *)
Definition empty_iov (iov : list user_iov) : list iovec := (fun v => mk_iov (Some []) (ui_len v)) <$> iov.

Definition readv_result space (tmp fd : Z) (iov : list user_iov) (r : vec_result) : K answer :=
  match r with
  | VBlocked rest total got => ret (Sleeping (PReadv tmp fd iov rest total got))
  | VReturned n bs => let* n := scatter_result space iov n bs in do* on_kheap (kfree tmp) in ret (Answer n)
  end.
Definition sys_readv_user space task (fd uiov iovcnt : Z) : K answer :=
  let* p := sys_iov_prepare space uiov iovcnt true in
  match p with
  | inl e => ret (Answer e)
  | inr (iov, total) =>
    if total =? 0 then ret (Answer 0)
    else
      let* tmp := on_kheap (kmalloc total) in
      if tmp =? 0 then ret (Answer (- ATM_ENOMEM))
      else let* r := native_fd_readv task fd (Some (empty_iov iov)) in readv_result space tmp fd iov r
  end.
Definition writev_result (tmp fd : Z) (r : vec_result) : K answer :=
  match r with
  | VBlocked rest total _ => ret (Sleeping (PWritev tmp fd rest total))
  | VReturned n _ => do* on_kheap (kfree tmp) in ret (Answer n)
  end.
Definition sys_writev_user space task (fd uiov iovcnt : Z) : K answer :=
  let* p := sys_iov_prepare space uiov iovcnt false in
  match p with
  | inl e => ret (Answer e)
  | inr (iov, total) =>
    if total =? 0 then ret (Answer 0)
    else
      let* tmp := on_kheap (kmalloc total) in
      if tmp =? 0 then ret (Answer (- ATM_ENOMEM))
      else
        let* kiov := gather space iov in
        match kiov with
        | None => do* on_kheap (kfree tmp) in ret (Answer (- ATM_EFAULT))
        | Some kiov => let* r := native_fd_writev task fd (Some kiov) in writev_result tmp fd r
        end
  end.
Definition sys_preadv_user space task (fd uiov iovcnt offset : Z) : K Z :=
  let* p := sys_iov_prepare space uiov iovcnt true in
  match p with
  | inl e => ret e
  | inr (iov, total) =>
    if total =? 0 then ret 0
    else with_buffer total (
      let* '(n, bs) := native_fd_preadv task fd (Some (empty_iov iov)) offset in scatter_result space iov n bs)
  end.
Definition sys_pwritev_user space task (fd uiov iovcnt offset : Z) : K Z :=
  let* p := sys_iov_prepare space uiov iovcnt false in
  match p with
  | inl e => ret e
  | inr (iov, total) =>
    if total =? 0 then ret 0
    else with_buffer total (
      let* kiov := gather space iov in
      match kiov with None => ret (- ATM_EFAULT) | Some kiov => native_fd_pwritev task fd (Some kiov) offset end)
  end.

(** ** Waiting for descriptors *)

(** One pass: the answers, or a sleep of one tick. *)
Definition poll_wait task (fds : list pollfd) (ticks start : Z) (again : list pollfd -> pending) (done : Z -> list pollfd -> K Z) : K answer :=
  let* '(rc, fds) := native_fd_poll task (Some fds) in
  if rc <? 0 then ret (Answer (- ATM_EINVAL))
  else
    let* up := gets (fun k => uptime_ticks (tasks k)) in
    if truth rc || (ticks =? 0) || (ticks <=? u32 (up - start)) then let* v := done rc fds in ret (Answer v)
    else
      let* r := on_tasks (task_sleep_ticks_from_syscall 1) in
      ret (if r <? 0 then Answer (- ATM_EINVAL) else Sleeping (again fds)).
Definition poll_pass space task (ufds : Z) (fds : list pollfd) (ticks start : Z) : K answer :=
  poll_wait task fds ticks start (fun fds => PPoll ufds fds ticks start) (fun rc fds => put_result space ufds (fds ≫= pollfd_bytes) rc).
Definition sys_poll_user space task (ufds nfds timeout : Z) : K answer :=
  if no_space space || bool_decide (task = None) || (ATM_SYS_POLL_MAX <? nfds) || (600000 <? timeout) then ret (Answer (- ATM_EINVAL))
  else if nfds =? 0 then ret (Answer 0)
  else if ufds =? 0 then ret (Answer (- ATM_EFAULT))
  else
    let* ok := range_ok space ufds (nfds * 8) true in
    if negb ok then ret (Answer (- ATM_EFAULT))
    else
      let* bs := fetch space ufds (nfds * 8) in
      match bs with
      | None => ret (Answer (- ATM_EFAULT))
      | Some bs =>
        let* start := gets (fun k => uptime_ticks (tasks k)) in
        poll_pass space task ufds (pollfd_of bs <$> seqZ 0 nfds) (u32 ((timeout + 9) / 10)) start
      end.

(** A set of the user program; NULL is empty. *)
Definition fetch_set space (p : Z) : K (option Z) := if p =? 0 then ret (Some 0) else let* bs := fetch space p 8 in ret (le <$> bs).
Definition put_set space (p v : Z) : K bool := if p =? 0 then ret true else store space p (le_bytes 8 v).
Definition select_events (in_r in_w in_e fd : Z) : Z :=
  Z.lor (if Z.testbit in_r fd then ATM_POLLIN else 0) (Z.lor (if Z.testbit in_w fd then ATM_POLLOUT else 0) (if Z.testbit in_e fd then ATM_POLLERR else 0)).
Definition select_fds (in_r in_w in_e nfds : Z) : list pollfd :=
  (fun fd => mk_pollfd fd (select_events in_r in_w in_e fd) 0) <$> filter (fun fd => select_events in_r in_w in_e fd <> 0) (seqZ 0 nfds).
(** Which descriptors of a set are ready, given the events that count for it. *)
Definition ready_set (set mask : Z) (fds : list pollfd) : Z :=
  foldl (fun acc f => if Z.testbit set (pf_fd f) && truth (Z.land (pf_revents f) mask) then Z.lor acc (2 ^ pf_fd f) else acc) 0 fds.
Definition read_mask : Z := Z.lor ATM_POLLIN (Z.lor ATM_POLLHUP (Z.lor ATM_POLLERR ATM_POLLNVAL)).
Definition write_mask : Z := Z.lor ATM_POLLOUT (Z.lor ATM_POLLERR ATM_POLLNVAL).
Definition except_mask : Z := Z.lor ATM_POLLERR ATM_POLLNVAL.
Definition select_done space (rp wp ep in_r in_w in_e : Z) (fds : list pollfd) : K Z :=
  let r := ready_set in_r read_mask fds in
  let w := ready_set in_w write_mask fds in
  let e := ready_set in_e except_mask fds in
  let ready := zlen (filter (fun f => Z.testbit (Z.lor r (Z.lor w e)) (pf_fd f) = true) fds) in
  let* a := put_set space rp r in
  if negb a then ret (- ATM_EFAULT)
  else
    let* b := put_set space wp w in
    if negb b then ret (- ATM_EFAULT)
    else let* c := put_set space ep e in ret (if c then ready else - ATM_EFAULT).
Definition select_pass space task (rp wp ep in_r in_w in_e : Z) (fds : list pollfd) (ticks start : Z) : K answer :=
  poll_wait task fds ticks start (fun fds => PSelect rp wp ep in_r in_w in_e fds ticks start) (fun _ fds => select_done space rp wp ep in_r in_w in_e fds).
(** The wait in ticks and its start; a timeout of NULL is none.  [inl] is an error. *)
Definition select_timeout space (p : Z) : K (Z + Z * Z) :=
  if p =? 0 then ret (inr (0, 0))
  else
    let* bs := fetch space p 16 in
    match bs with
    | None => ret (inl (- ATM_EFAULT))
    | Some bs =>
      let sec := i64 (word_of 8 bs 0) in
      let usec := i64 (word_of 8 bs 1) in
      if (sec <? 0) || (usec <? 0) || (1000000 <=? usec) || (600 <? sec) then ret (inl (- ATM_EINVAL))
      else
        let raw := sec * 100 + (usec + 9999) / 10000 in
        if 60000 <? raw then ret (inl (- ATM_EINVAL))
        else let* start := gets (fun k => uptime_ticks (tasks k)) in ret (inr (raw, start))
    end.
Definition sys_select_user space task (nfds rp wp ep tp : Z) : K answer :=
  if no_space space || bool_decide (task = None) || (nfds <? 0) || (64 <? nfds) then ret (Answer (- ATM_EINVAL))
  else
    let* in_r := fetch_set space rp in
    match in_r with
    | None => ret (Answer (- ATM_EFAULT))
    | Some in_r =>
      let* in_w := fetch_set space wp in
      match in_w with
      | None => ret (Answer (- ATM_EFAULT))
      | Some in_w =>
        let* in_e := fetch_set space ep in
        match in_e with
        | None => ret (Answer (- ATM_EFAULT))
        | Some in_e =>
          let* t := select_timeout space tp in
          match t with
          | inl e => ret (Answer e)
          | inr (ticks, start) =>
            let fds := select_fds in_r in_w in_e nfds in
            if truth (Z.shiftr (Z.lor in_r (Z.lor in_w in_e)) nfds) || (ATM_NATIVE_POLL_MAX <? zlen fds) then ret (Answer (- ATM_EINVAL))
            else select_pass space task rp wp ep in_r in_w in_e fds ticks start
          end
        end
      end
    end.
End Calls.
