(* ===== verification/SysPath.v ===== *)
(** * System calls on paths, descriptors, sockets and the process (src/src/atm_syscall.c)

    The rest of the functions behind the dispatcher, in the conventions of [Syscall]. *)

From S2P Require Import Prelude Cstring Sched Pipe Alloc Vfs VfsSynth VfsPath VfsApi Paging Elf Kernel Posix Socket NativeFd Process NativeApp Tcp Time Tzif Clock Syscall.

(** Results of [native_fd_fsync] depend on CatFS: [None] when it is not mounted, else what its flush returns. *)
Definition catfs_state : Type := option Z.

Section Paths.
Context {H N : Type} `{!Allocator H} `{!Tcp N}.
Abbreviation K := (M (kernel H N)).
Implicit Types (space : option user_space) (task : option nat).

(** ** Flushing *)

Definition atm_posix_fsync (catfs : catfs_state) (fd : Z) : K Z :=
  let* '(r, _) := on_vfs (vfs_fstat fd) in ret (if r <? 0 then -1 else default 0 catfs).
Definition native_fd_fsync (catfs : catfs_state) task (fd : Z) : K Z :=
  let* s := gets (fun k => is_socket k task fd) in
  let* b := gets (fun k => vfs_fd_of k task fd) in
  match b with
  | Some b => if s then ret (-1) else atm_posix_fsync catfs b
  | None => ret (-1)
  end.

(** ** Paths *)

Definition sys_open_user space task (path flags mode : Z) : K Z := on_path space path (fun p => native_fd_open task p flags mode).
Definition sys_openat_user space task (dirfd path flags mode : Z) : K Z :=
  if negb (dirfd =? ATM_AT_FDCWD) then ret (- ATM_EINVAL) else sys_open_user space task path flags mode.

Definition sys_fstat_user space task (fd ustat : Z) : K Z :=
  if no_space space || (ustat =? 0) then ret (- ATM_EFAULT)
  else
    let* '(rc, st) := native_fd_fstat task fd in
    match st with
    | Some st => if rc <? 0 then ret rc else put_result space ustat (stat_bytes st) 0
    | None => ret rc
    end.
Definition sys_stat_user space (path ustat : Z) (follow : bool) : K Z :=
  with_buffer VFS_PATH_MAX (
    if ustat =? 0 then ret (- ATM_EFAULT)
    else on_path space path (fun p =>
      let* '(rc, st) := (if follow then atm_posix_stat p else atm_posix_lstat p) in
      match st with
      | Some st => if rc <? 0 then ret rc else put_result space ustat (stat_bytes st) 0
      | None => ret rc
      end)).
Definition sys_fstatat_user space (dirfd path ustat flags : Z) : K Z :=
  if negb (dirfd =? ATM_AT_FDCWD) || truth (andn flags ATM_AT_SYMLINK_NOFOLLOW) then ret (- ATM_EINVAL)
  else sys_stat_user space path ustat (negb (truth (Z.land flags ATM_AT_SYMLINK_NOFOLLOW))).

Definition sys_truncate_user space (path size : Z) : K Z := with_buffer VFS_PATH_MAX (on_path space path (fun p => atm_posix_truncate p size)).
Definition sys_rename_user space (p q : Z) : K Z := with_two_buffers VFS_PATH_MAX (on_two_paths space p q atm_posix_rename).
Definition sys_link_user space (p q : Z) : K Z := with_two_buffers VFS_PATH_MAX (on_two_paths space p q atm_posix_link).
Definition sys_symlink_user space (target link : Z) : K Z := with_two_buffers VFS_PATH_MAX (on_two_paths space target link atm_posix_symlink).
Definition sys_chmod_user space (path mode : Z) : K Z := with_buffer VFS_PATH_MAX (on_path space path (fun p => atm_posix_chmod p (Z.land mode 0xfff))).
Definition sys_chown_user space (path uid gid : Z) : K Z := with_buffer VFS_PATH_MAX (on_path space path (fun p => atm_posix_chown p uid gid)).
Definition sys_readlink_user space (path ubuf size : Z) : K Z :=
  if no_space space || (ubuf =? 0) || (size =? 0) || (VFS_PATH_MAX <? size) then ret (- ATM_EINVAL)
  else with_two_buffers VFS_PATH_MAX (on_path space path (fun p =>
    let* ok := range_ok space ubuf size true in
    if negb ok then ret (- ATM_EFAULT)
    else
      let* '(n, target) := atm_posix_readlink p size in
      if n <? 0 then ret n else if n =? 0 then ret 0 else put_result space ubuf (take (Z.to_nat n) target) n)).

Definition sys_chdir_user space (path : Z) : K Z := on_path space path atm_posix_chdir.
Definition sys_access_user space (path mode : Z) : K Z :=
  if truth (andn mode 7) then ret (- ATM_EINVAL) else on_path space path (fun p => atm_posix_access p mode).
Definition sys_mkdir_user space (path mode : Z) : K Z := on_path space path (fun p => atm_posix_mkdir p mode).
Definition sys_rmdir_user space (path : Z) : K Z := on_path space path atm_posix_rmdir.
Definition sys_unlink_user space (path : Z) : K Z := on_path space path atm_posix_unlink.

Definition sys_mkdirat_user space (dirfd path mode : Z) : K Z := if dirfd =? ATM_AT_FDCWD then sys_mkdir_user space path mode else ret (- ATM_EINVAL).
Definition sys_faccessat_user space (dirfd path mode flags : Z) : K Z :=
  if (dirfd =? ATM_AT_FDCWD) && (flags =? 0) then sys_access_user space path mode else ret (- ATM_EINVAL).
Definition sys_unlinkat_user space (dirfd path flags : Z) : K Z :=
  if negb (dirfd =? ATM_AT_FDCWD) then ret (- ATM_EINVAL)
  else if flags =? 0 then sys_unlink_user space path
  else if flags =? ATM_AT_REMOVEDIR then sys_rmdir_user space path else ret (- ATM_EINVAL).
Definition sys_renameat_user space (olddirfd oldpath newdirfd newpath : Z) : K Z :=
  if (olddirfd =? ATM_AT_FDCWD) && (newdirfd =? ATM_AT_FDCWD) then sys_rename_user space oldpath newpath else ret (- ATM_EINVAL).
Definition sys_linkat_user space (olddirfd oldpath newdirfd newpath flags : Z) : K Z :=
  if (olddirfd =? ATM_AT_FDCWD) && (newdirfd =? ATM_AT_FDCWD) && (flags =? 0) then sys_link_user space oldpath newpath else ret (- ATM_EINVAL).
Definition sys_symlinkat_user space (target newdirfd link : Z) : K Z := if newdirfd =? ATM_AT_FDCWD then sys_symlink_user space target link else ret (- ATM_EINVAL).
Definition sys_readlinkat_user space (dirfd path buf size : Z) : K Z := if dirfd =? ATM_AT_FDCWD then sys_readlink_user space path buf size else ret (- ATM_EINVAL).

Definition sys_getcwd_user space (ubuf size : Z) : K Z :=
  if no_space space || (ubuf =? 0) || (size =? 0) || (VFS_PATH_MAX <? size) then ret (- ATM_EFAULT)
  else
    let* cwd := atm_posix_getcwd true VFS_PATH_MAX in
    match cwd with
    | None => ret (- ATM_EINVAL)
    | Some cwd => if size <? zlen cwd + 1 then ret (- ATM_EINVAL) else put_result space ubuf (cwd ++ [nul]) (i64 ubuf)
    end.

(** ** Pipes and directories *)

Definition sys_pipe_user space task (ufds flags : Z) : K Z :=
  if no_space space || bool_decide (task = None) || (ufds =? 0) then ret (- ATM_EFAULT)
  else
    let* ok := range_ok space ufds 8 true in
    if negb ok then ret (- ATM_EFAULT)
    else
      let* '(r, (a, b)) := native_fd_pipe2 task true flags in
      if r <? 0 then ret (- ATM_EINVAL)
      else
        let* ok := store space ufds (le_bytes 4 a ++ le_bytes 4 b) in
        if ok then ret 0 else do* native_fd_close task a in do* native_fd_close task b in ret (- ATM_EFAULT).

Definition sys_opendir_user space task (path : Z) : K Z := on_path space path (native_dir_open task).
(** [old]: the name array of the buffer the filesystem hands entries out in.  The array as it is afterwards. *)
Definition sys_readdir_user space task (handle uentry : Z) (old : list byte) : K (Z * list byte) :=
  if no_space space || (uentry =? 0) then ret (- ATM_EFAULT, old)
  else
    let* ok := range_ok space uentry sizeof_dirent true in
    if negb ok then ret (- ATM_EFAULT, old)
    else
      let* '(rc, e) := native_dir_read task handle true in
      match e with
      | Some e =>
        if rc <=? 0 then ret (rc, old)
        else
          let name := de_name e ++ [nul] ++ drop (length (de_name e) + 1) old in
          let* v := put_result space uentry (dirent_bytes (de_ino e) (de_d_type e) name) 1 in
          ret (v, name)
      | None => ret (rc, old)
      end.

(** ** Identity, limits and accounting *)

Definition sys_getresid_user space (ureal ueffective usaved : Z) (group : bool) : K Z :=
  let* id := (if group then atm_posix_getgid else atm_posix_getuid) in
  if no_space space || (ureal =? 0) || (ueffective =? 0) || (usaved =? 0) then ret (- ATM_EFAULT)
  else
    let* a := range_ok space ureal 4 true in
    if negb a then ret (- ATM_EFAULT)
    else
      let* b := range_ok space ueffective 4 true in
      if negb b then ret (- ATM_EFAULT)
      else
        let* c := range_ok space usaved 4 true in
        if negb c then ret (- ATM_EFAULT)
        else
          let* a := store space ureal (le_bytes 4 id) in
          if negb a then ret (- ATM_EFAULT)
          else
            let* b := store space ueffective (le_bytes 4 id) in
            if negb b then ret (- ATM_EFAULT) else put_result space usaved (le_bytes 4 id) 0.

Definition resource_limit (resource : Z) : option Z :=
  if resource =? ATM_RLIMIT_STACK then Some TASK_STACK_SIZE
  else if resource =? ATM_RLIMIT_NOFILE then Some TASK_FD_MAX
  else if resource =? ATM_RLIMIT_AS then Some ATM_USER_WINDOW_SIZE else None.
Definition sys_getrlimit_user space (resource ulimit : Z) : K Z :=
  if no_space space || (ulimit =? 0) then ret (- ATM_EFAULT)
  else
    let* ok := range_ok space ulimit 16 true in
    if negb ok then ret (- ATM_EFAULT)
    else match resource_limit resource with
      | None => ret (- ATM_EINVAL)
      | Some l => put_result space ulimit (pair_bytes (l, l)) 0
      end.

Definition sys_times_user space task (utms : Z) : K Z :=
  match task with
  | None => ret (- ATM_EFAULT)
  | Some t =>
    if no_space space then ret (- ATM_EFAULT)
    else
      let* x := ktask t in
      let* up := gets (fun k => uptime_ticks (tasks k)) in
      if utms =? 0 then ret up
      else
        let* ok := range_ok space utms 32 true in
        if negb ok then ret (- ATM_EFAULT) else put_result space utms (le_bytes 8 (t_ticks x) ++ replicate 24 nul) up
  end.

(** The seventeen words of [atm_sys_rusage_t] after the user time: system time, then from [ru_maxrss] on. *)
Definition rusage_bytes (x : Sched.task) : list byte :=
  le_bytes 8 (t_ticks x / 100) ++ le_bytes 8 (u32 (t_ticks x mod 100 * 10000)) ++ replicate 16 nul ++
  le_bytes 8 (t_resident_bytes x / 1024) ++ replicate 88 nul ++ le_bytes 8 (t_context_switches x) ++ replicate 8 nul.
Definition sys_getrusage_user space task (who uusage : Z) : K Z :=
  match task with
  | None => ret (- ATM_EINVAL)
  | Some t =>
    if no_space space || negb (who =? 0) then ret (- ATM_EINVAL)
    else if uusage =? 0 then ret (- ATM_EFAULT)
    else
      let* ok := range_ok space uusage 144 true in
      if negb ok then ret (- ATM_EFAULT) else let* x := ktask t in put_result space uusage (rusage_bytes x) 0
  end.

Definition sys_uname_user space (uout : Z) : K Z :=
  if no_space space || (uout =? 0) then ret (- ATM_EFAULT) else put_result space uout atm_uname_fill 0.

(** ** Sockets *)

Definition sys_socket_user space task (domain type protocol : Z) : K Z :=
  if no_space space || bool_decide (task = None) then ret (- ATM_EFAULT) else native_socket_open task domain type protocol.
Definition sys_addr_user space task (uaddr len : Z) (f : option sockaddr_in -> K Z) : K Z :=
  if no_space space || bool_decide (task = None) || (uaddr =? 0) || negb (len =? sizeof_sockaddr) then ret (- ATM_EFAULT)
  else let* bs := fetch space uaddr sizeof_sockaddr in match bs with None => ret (- ATM_EFAULT) | Some bs => f (Some (sockaddr_of bs)) end.
Definition sys_connect_user space task (fd uaddr len : Z) : K Z := sys_addr_user space task uaddr len (fun a => native_socket_connect task fd a 300).
Definition sys_bind_user space task (fd uaddr len : Z) : K Z := sys_addr_user space task uaddr len (native_socket_bind task fd).
Definition sys_send_user space task (fd ubuf count flags : Z) : K Z :=
  if no_space space || bool_decide (task = None) || (ubuf =? 0) || (count =? 0) || (ATM_TCP_MSS <? count) || truth flags then ret (- ATM_EINVAL)
  else
    let* ok := range_ok space ubuf count false in
    if negb ok then ret (- ATM_EFAULT)
    else with_buffer count (
      let* data := fetch space ubuf count in
      match data with None => ret (- ATM_EFAULT) | Some data => native_socket_send task fd (Some data) end).
Definition sys_recv_user space task (fd ubuf count flags : Z) : K Z :=
  if no_space space || bool_decide (task = None) || (ubuf =? 0) || (count =? 0) || (ATM_TCP_MSS <? count) || truth (andn flags ATM_MSG_DONTWAIT) then ret (- ATM_EINVAL)
  else
    let* ok := range_ok space ubuf count true in
    if negb ok then ret (- ATM_EFAULT)
    else
      let timeout := if truth (Z.land flags ATM_MSG_DONTWAIT) then 1 else 300 in
      with_buffer count (
        let* '(n, bs) := native_socket_recv task fd true count timeout in
        if 0 <? n then put_result space ubuf (take (Z.to_nat n) bs) n else ret n).
Definition sys_accept_user space task (fd uaddr len : Z) : K Z :=
  if no_space space || bool_decide (task = None) || (negb (uaddr =? 0) && negb (len =? sizeof_sockaddr)) || ((uaddr =? 0) && negb (len =? 0)) then ret (- ATM_EFAULT)
  else
    let* ok := (if uaddr =? 0 then ret true else range_ok space uaddr sizeof_sockaddr true) in
    if negb ok then ret (- ATM_EFAULT)
    else
      let* '(child, peer) := native_socket_accept task fd 300 in
      if (child <? 0) || (uaddr =? 0) then ret child
      else
        let* ok := store space uaddr (sockaddr_bytes (default (mk_sockaddr 0 0 []) peer)) in
        if ok then ret child else do* native_socket_close task child in ret (- ATM_EFAULT).

(** ** Sleep *)

(** The ticks of a duration, rounded up; [None] when it does not fit. *)
Definition sleep_ticks (sec nsec : Z) : option Z :=
  if (sec <? 0) || (nsec <? 0) || (1000000000 <=? nsec) || (42949671 <? sec) then None
  else let ticks := sec * 100 + (nsec + 9999999) / 10000000 in if 0xffffffff <? ticks then None else Some ticks.
Definition sys_nanosleep_user space task (ureq urem : Z) : K answer :=
  if no_space space || bool_decide (task = None) || (ureq =? 0) then ret (Answer (- ATM_EFAULT))
  else
    let* bs := fetch space ureq 16 in
    match bs with
    | None => ret (Answer (- ATM_EFAULT))
    | Some bs =>
      match sleep_ticks (i64 (word_of 8 bs 0)) (i64 (word_of 8 bs 1)) with
      | None => ret (Answer (- ATM_EINVAL))
      | Some ticks =>
        let* ok := (if urem =? 0 then ret true else store space urem (pair_bytes (0, 0))) in
        if negb ok then ret (Answer (- ATM_EFAULT))
        else
          let* r := on_tasks (task_sleep_ticks_from_syscall ticks) in
          ret (if r <? 0 then Answer (- ATM_EINVAL) else if ticks =? 0 then Answer 0 else Sleeping PSleep)
      end
    end.

(** ** Memory *)

(** The pages from [va] up to [stop]; false when one cannot be had. *)
Fixpoint brk_loop (fuel : nat) (a va stop : Z) : K bool :=
  if stop <=? va then ret true
  else match fuel with
  | O => fault
  | S fuel' =>
    let* us := deref (fun k => k_spaces k !! a) in
    let* t := on_pages (paging_user_translate (Some us) va) in
    match t with
    | Some _ => brk_loop fuel' a (va + ATM_PAGE_SIZE) stop
    | None =>
      let* page := on_kheap (kmalloc_aligned ATM_PAGE_SIZE ATM_PAGE_SIZE) in
      if page =? 0 then ret false
      else
        let* '(r, us') := on_pages (paging_map_user_page (Some us) va page ATM_PTE_W) in
        do* modify (fun k => k <| k_spaces := <[a := default us us']> (k_spaces k) |>) in
        if r <? 0 then ret false else brk_loop fuel' a (va + ATM_PAGE_SIZE) stop
    end
  end.
Definition brk_fuel : nat := Z.to_nat (ATM_USER_WINDOW_SIZE / ATM_PAGE_SIZE).
Definition sys_brk_native task (requested : Z) : K Z :=
  match task with
  | None => ret 0
  | Some t =>
    let* x := ktask t in
    if t_address_space x =? 0 then ret 0
    else
      let* us := deref (fun k => k_spaces k !! t_address_space x) in
      if (us_valid us =? 0) || (t_user_brk_base x =? 0) then ret 0
      else if requested =? 0 then ret (t_user_brk x)
      else if (requested <? t_user_brk_base x) || (ATM_USER_ANON_BASE <=? requested) || (ATM_USER_ANON_BASE <? page_up requested) then ret (t_user_brk x)
      else
        let* ok := brk_loop brk_fuel (t_address_space x) (page_up (t_user_brk x)) (page_up requested) in
        if ok then do* upd_task t (fun x => x <| t_user_brk := requested |>) in ret requested else ret (t_user_brk x)
  end.

(** ** Replacing the image *)

(** One vector of pointers to strings; [set] says where its offsets and its count go. *)
Fixpoint exec_copy_vector space (uvector : Z) (n : nat) (i : Z) (set : Z -> Z -> payload -> payload) (p : payload) : K (Z * payload) :=
  let* w := fetch space (u64 (uvector + i * 8)) 8 in
  match w with
  | None => ret (- ATM_EFAULT, p)
  | Some w =>
    match n with
    | O => ret (if le w =? 0 then 0 else - ATM_EINVAL, p)
    | S n' =>
      if le w =? 0 then ret (0, p)
      else if ATM_NATIVE_EXEC_STR_BYTES <=? pl_bytes p then ret (- ATM_EINVAL, p)
      else
        let* len := on_pages (strnlen_user space (le w) (ATM_NATIVE_EXEC_STR_BYTES - pl_bytes p)) in
        match len with
        | None => ret (- ATM_EFAULT, p)
        | Some len =>
          let* bs := fetch space (le w) (len + 1) in
          match bs with
          | None => ret (- ATM_EFAULT, set i (pl_bytes p) p)
          | Some bs =>
            let off := pl_bytes p in
            let p := (set i off p) <| pl_strings := take (Z.to_nat off) (pl_strings p) ++ bs ++ drop (Z.to_nat off + length bs) (pl_strings p) |>
                       <| pl_bytes := off + len + 1 |> in
            exec_copy_vector space uvector n' (i + 1) set p
          end
        end
    end
  end.
Definition set_arg (i off : Z) (p : payload) : payload := p <| pl_argv := aset (pl_argv p) i (u16 off) |> <| pl_argc := i + 1 |>.
Definition set_env (i off : Z) (p : payload) : payload := p <| pl_env := aset (pl_env p) i (u16 off) |> <| pl_envc := i + 1 |>.
Definition sys_exec_copy_vector space (uvector : Z) (maximum : Z) (set : Z -> Z -> payload -> payload) (p : payload) : K (Z * payload) :=
  if uvector =? 0 then ret (0, p) else exec_copy_vector space uvector (Z.to_nat maximum) 0 set p.

(** No argument: the path is the first. *)
Definition default_arg (path : cstr) (p : payload) : option payload :=
  if negb (pl_argc p =? 0) then Some p
  else if ATM_NATIVE_EXEC_STR_BYTES <? zlen path + 1 then None
  else Some (p <| pl_argc := 1 |> <| pl_argv := aset (pl_argv p) 0 0 |> <| pl_bytes := zlen path + 1 |>
               <| pl_strings := path ++ [nul] ++ drop (length path + 1) (pl_strings p) |>).
Definition exec_payload space (path : cstr) (uargv uenvp : Z) : K (Z * payload) :=
  let* '(rc, p) := sys_exec_copy_vector space uargv ATM_NATIVE_EXEC_MAX_ARGS set_arg payload_zero in
  if rc <? 0 then ret (rc, p)
  else match default_arg path p with
    | None => ret (- ATM_EINVAL, p)
    | Some p => sys_exec_copy_vector space uenvp ATM_NATIVE_EXEC_MAX_ENV set_env p
    end.

Definition sys_execve_user space task (upath uargv uenvp : Z) (junk : user_space) : K answer :=
  if no_space space || bool_decide (task = None) then ret (Answer (- ATM_EFAULT))
  else
    let* path := sys_path_copy space upath in
    match path with
    | None => ret (Answer (- ATM_EFAULT))
    | Some path =>
      let* buf := on_kheap (kmalloc sizeof_payload) in
      if buf =? 0 then ret (Answer (- ATM_ENOMEM))
      else
        let* '(rc, p) := exec_payload space path uargv uenvp in
        let* a := (if rc <? 0 then ret (Answer rc)
                   else
                     let* r := native_app_exec_current task path p junk in
                     ret (match r with None => Answer (- ATM_EINVAL) | Some (entry, stack) => Replaced entry stack end)) in
        do* on_kheap (kfree buf) in
        ret a
    end.
End Paths.
