(* ===== verification/Dispatch.v ===== *)
(** * The system call dispatcher (src/src/atm_syscall.c)

    [atm_syscall_dispatch] for calls from user mode ([cs] with privilege level 3): the number in
    [rax] selects the call, the other registers are its arguments, cast as the code casts them.
    Calls from the kernel itself, which pass kernel pointers, are not represented.
    [resume_call] is what a call that waits does when its task runs again. *)

From S2P Require Import Prelude Cstring Sched Pipe Alloc Vfs VfsSynth VfsPath VfsApi Paging Elf Kernel Posix Socket NativeFd Process NativeApp Tcp Time Tzif Clock Syscall SysPath.

Definition ATM_SYSCALL_ABI_V22 : Z := 22.

(** The case labels of the switch. *)
Inductive syscall :=
| SYS_READ | SYS_WRITE | SYS_OPEN | SYS_OPENAT | SYS_FSTATAT | SYS_CLOSE | SYS_STAT | SYS_LSTAT | SYS_FSTAT | SYS_LSEEK | SYS_PREAD64 | SYS_PWRITE64
| SYS_READV | SYS_WRITEV | SYS_PREADV | SYS_PWRITEV | SYS_FCHDIR | SYS_GETRUSAGE | SYS_TIMES | SYS_FCHMOD | SYS_FCHOWN | SYS_GETRLIMIT
| SYS_FACCESSAT | SYS_MKDIRAT | SYS_UNLINKAT | SYS_RENAMEAT | SYS_LINKAT | SYS_SYMLINKAT | SYS_READLINKAT | SYS_DUP | SYS_DUP2 | SYS_DUP3 | SYS_FSYNC
| SYS_FDATASYNC | SYS_TRUNCATE | SYS_FTRUNCATE | SYS_GETCWD | SYS_CHDIR | SYS_RENAME | SYS_ACCESS | SYS_MKDIR | SYS_RMDIR | SYS_LINK | SYS_UNLINK
| SYS_SYMLINK | SYS_READLINK | SYS_CHMOD | SYS_CHOWN | SYS_UMASK | SYS_ISATTY | SYS_PIPE | SYS_PIPE2 | SYS_GETPGID | SYS_SETPGID | SYS_GETSID
| SYS_SETSID | SYS_OPENDIR | SYS_READDIR | SYS_CLOSEDIR | SYS_FCNTL | SYS_POLL | SYS_SELECT | SYS_CLOCK_GETTIME | SYS_GETTIMEOFDAY | SYS_CLOCK_GETRES
| SYS_UNAME | SYS_NANOSLEEP | SYS_SOCKET | SYS_CONNECT | SYS_BIND | SYS_LISTEN | SYS_ACCEPT | SYS_SEND | SYS_RECV | SYS_BRK | SYS_EXECVE | SYS_EXIT
| SYS_WAITPID | SYS_KILL | SYS_GETPID | SYS_GETPPID | SYS_GETUID | SYS_GETGID | SYS_GETEUID | SYS_GETEGID | SYS_GETRESUID | SYS_GETRESGID
| SYS_GETTID | SYS_ABI_INFO.
#[export] Instance syscall_eq_dec : EqDecision syscall.
Proof. solve_decision. Defined.

Definition syscall_table : list (Z * syscall) :=
  [(0, SYS_READ); (1, SYS_WRITE); (2, SYS_OPEN); (0xA715, SYS_OPENAT); (0xA716, SYS_FSTATAT); (3, SYS_CLOSE); (4, SYS_STAT); (6, SYS_LSTAT);
   (5, SYS_FSTAT); (8, SYS_LSEEK); (17, SYS_PREAD64); (18, SYS_PWRITE64); (19, SYS_READV); (20, SYS_WRITEV); (0xA71F, SYS_PREADV);
   (0xA720, SYS_PWRITEV); (0xA721, SYS_FCHDIR); (0xA722, SYS_GETRUSAGE); (0xA729, SYS_TIMES); (0xA72A, SYS_FCHMOD); (0xA72B, SYS_FCHOWN);
   (0xA72C, SYS_GETRLIMIT); (0xA72D, SYS_FACCESSAT); (0xA723, SYS_MKDIRAT); (0xA724, SYS_UNLINKAT); (0xA725, SYS_RENAMEAT);
   (0xA726, SYS_LINKAT); (0xA727, SYS_SYMLINKAT); (0xA728, SYS_READLINKAT); (32, SYS_DUP); (33, SYS_DUP2); (0xA719, SYS_DUP3);
   (74, SYS_FSYNC); (75, SYS_FDATASYNC); (76, SYS_TRUNCATE); (77, SYS_FTRUNCATE); (79, SYS_GETCWD); (80, SYS_CHDIR); (82, SYS_RENAME);
   (21, SYS_ACCESS); (83, SYS_MKDIR); (84, SYS_RMDIR); (86, SYS_LINK); (87, SYS_UNLINK); (88, SYS_SYMLINK); (89, SYS_READLINK);
   (90, SYS_CHMOD); (92, SYS_CHOWN); (95, SYS_UMASK); (0xA701, SYS_ISATTY); (0xA702, SYS_PIPE); (0xA71A, SYS_PIPE2); (0xA71B, SYS_GETPGID);
   (0xA71C, SYS_SETPGID); (0xA71D, SYS_GETSID); (0xA71E, SYS_SETSID); (0xA703, SYS_OPENDIR); (0xA704, SYS_READDIR); (0xA705, SYS_CLOSEDIR);
   (0xA706, SYS_FCNTL); (0xA707, SYS_POLL); (0xA70A, SYS_SELECT); (0xA708, SYS_CLOCK_GETTIME); (0xA709, SYS_GETTIMEOFDAY);
   (0xA70B, SYS_CLOCK_GETRES); (0xA70C, SYS_UNAME); (0xA70D, SYS_NANOSLEEP); (0xA710, SYS_SOCKET); (0xA711, SYS_CONNECT); (0xA712, SYS_BIND);
   (0xA713, SYS_LISTEN); (0xA714, SYS_ACCEPT); (0xA717, SYS_SEND); (0xA718, SYS_RECV); (12, SYS_BRK); (59, SYS_EXECVE); (60, SYS_EXIT);
   (61, SYS_WAITPID); (62, SYS_KILL); (39, SYS_GETPID); (110, SYS_GETPPID); (102, SYS_GETUID); (104, SYS_GETGID); (107, SYS_GETEUID);
   (108, SYS_GETEGID); (118, SYS_GETRESUID); (120, SYS_GETRESGID); (186, SYS_GETTID); (0xA700, SYS_ABI_INFO)].

(** [switch((uint32_t)r->rax)] *)
Definition syscall_of (rax : Z) : option syscall := snd <$> find (fun e => fst e =? u32 rax) syscall_table.

(** The registers the dispatcher reads. *)
Record registers := mk_regs { rax : Z; rdi : Z; rsi : Z; rdx : Z; r10 : Z; r8 : Z }.

(** What the call is given from outside the state: the clock chip, CatFS, and what a fresh block of the heap holds. *)
Record ambient := mk_ambient { am_rtc : list rtc_attempt; am_catfs : catfs_state; am_junk : user_space }.

Section Dispatch.
Context {H N : Type} `{!Allocator H} `{!Tcp N}.
Abbreviation K := (M (kernel H N)).
Abbreviation Y := (M (machine H N)).
Implicit Types (space : option user_space) (task : option nat).

Definition on_k {A} (m : K A) : Y A := zoom y_k (fun k s => s <| y_k := k |>) m.
Definition on_clock {A} (m : M (time_state unit) A) : Y A := zoom y_time (fun t s => s <| y_time := t |>) m.
Definition val (m : K Z) : Y answer := let* v := on_k m in ret (Answer v).
Definition ans (m : K answer) : Y answer := on_k m.
(** [rc<0?-ATM_EINVAL:rc] *)
Definition or_einval (m : K Z) : K Z := let* rc := m in ret (if rc <? 0 then - ATM_EINVAL else rc).

Definition current_pid task : K Z := match task with None => ret 0 | Some t => let* x := ktask t in ret (t_pid x) end.

(** [sys_clock_gettime_user], [sys_clock_getres_user] and [sys_gettimeofday_user]. *)
Definition clock_call space (uout : Z) (m : M (time_state unit) (Z * option (Z * Z))) : Y answer :=
  if no_space space || (uout =? 0) then ret (Answer (- ATM_EFAULT))
  else
    let* '(rc, v) := on_clock m in
    match v with
    | Some v => if rc <? 0 then ret (Answer rc) else val (put_result space uout (pair_bytes v) 0)
    | None => ret (Answer rc)
    end.

Definition readdir_call space task (handle uentry : Z) : Y answer :=
  let* old := gets y_dirent in
  let* '(v, name) := on_k (sys_readdir_user space task handle uentry old) in
  do* modify (fun s => s <| y_dirent := name |>) in
  ret (Answer v).

(** What [task_waitpid] returned, and the status for the user program. *)
Definition waitpid_result space (pid ustatus options : Z) (w : wait_result) : K answer :=
  match w with
  | Asleep => ret (Sleeping (PWait pid ustatus options))
  | NoneYet => ret (Answer 0)
  | WaitError e => ret (Answer e)
  | Reaped p status =>
    if (0 <? p) && negb (ustatus =? 0) then let* v := put_result space ustatus (le_bytes 4 status) p in ret (Answer v) else ret (Answer p)
  end.
Definition sys_waitpid_user space (pid ustatus options : Z) : K answer :=
  let* ok := (if ustatus =? 0 then ret true else if no_space space then ret false else range_ok space ustatus 4 true) in
  if negb ok then ret (Answer (- ATM_EFAULT))
  else let* w := task_waitpid pid options in waitpid_result space pid ustatus options w.

Definition run_syscall (am : ambient) space task (c : syscall) (r : registers) : Y answer :=
  match c with
  | SYS_READ => ans (sys_read_user space task (i32 (rdi r)) (rsi r) (rdx r))
  | SYS_WRITE => ans (sys_write_user space task (i32 (rdi r)) (rsi r) (rdx r))
  | SYS_OPEN => val (sys_open_user space task (rdi r) (u32 (rsi r)) (u32 (rdx r)))
  | SYS_OPENAT => val (sys_openat_user space task (i32 (rdi r)) (rsi r) (u32 (rdx r)) (u32 (r10 r)))
  | SYS_FSTATAT => val (sys_fstatat_user space (i32 (rdi r)) (rsi r) (rdx r) (u32 (r10 r)))
  | SYS_CLOSE => val (native_fd_close task (i32 (rdi r)))
  | SYS_STAT => val (sys_stat_user space (rdi r) (rsi r) true)
  | SYS_LSTAT => val (sys_stat_user space (rdi r) (rsi r) false)
  | SYS_FSTAT => val (sys_fstat_user space task (i32 (rdi r)) (rsi r))
  | SYS_LSEEK => val (native_fd_lseek task (i32 (rdi r)) (i64 (rsi r)) (i32 (rdx r)))
  | SYS_PREAD64 => val (sys_pread_user space task (i32 (rdi r)) (rsi r) (rdx r) (r10 r))
  | SYS_PWRITE64 => val (sys_pwrite_user space task (i32 (rdi r)) (rsi r) (rdx r) (r10 r))
  | SYS_READV => ans (sys_readv_user space task (i32 (rdi r)) (rsi r) (i32 (rdx r)))
  | SYS_WRITEV => ans (sys_writev_user space task (i32 (rdi r)) (rsi r) (i32 (rdx r)))
  | SYS_PREADV => val (sys_preadv_user space task (i32 (rdi r)) (rsi r) (i32 (rdx r)) (r10 r))
  | SYS_PWRITEV => val (sys_pwritev_user space task (i32 (rdi r)) (rsi r) (i32 (rdx r)) (r10 r))
  | SYS_FCHDIR => val (native_fd_fchdir task (i32 (rdi r)))
  | SYS_GETRUSAGE => val (sys_getrusage_user space task (i32 (rdi r)) (rsi r))
  | SYS_TIMES => val (sys_times_user space task (rdi r))
  | SYS_FCHMOD => val (native_fd_fchmod task (i32 (rdi r)) (u32 (rsi r)))
  | SYS_FCHOWN => val (native_fd_fchown task (i32 (rdi r)) (u32 (rsi r)) (u32 (rdx r)))
  | SYS_GETRLIMIT => val (sys_getrlimit_user space (i32 (rdi r)) (rsi r))
  | SYS_FACCESSAT => val (sys_faccessat_user space (i32 (rdi r)) (rsi r) (i32 (rdx r)) (i32 (r10 r)))
  | SYS_MKDIRAT => val (sys_mkdirat_user space (i32 (rdi r)) (rsi r) (u32 (rdx r)))
  | SYS_UNLINKAT => val (sys_unlinkat_user space (i32 (rdi r)) (rsi r) (u32 (rdx r)))
  | SYS_RENAMEAT => val (sys_renameat_user space (i32 (rdi r)) (rsi r) (i32 (rdx r)) (r10 r))
  | SYS_LINKAT => val (sys_linkat_user space (i32 (rdi r)) (rsi r) (i32 (rdx r)) (r10 r) (u32 (r8 r)))
  | SYS_SYMLINKAT => val (sys_symlinkat_user space (rdi r) (i32 (rsi r)) (rdx r))
  | SYS_READLINKAT => val (sys_readlinkat_user space (i32 (rdi r)) (rsi r) (rdx r) (r10 r))
  | SYS_DUP => val (native_fd_dup task (i32 (rdi r)))
  | SYS_DUP2 => val (native_fd_dup2 task (i32 (rdi r)) (i32 (rsi r)))
  | SYS_DUP3 => val (or_einval (native_fd_dup3 task (i32 (rdi r)) (i32 (rsi r)) (u32 (rdx r))))
  | SYS_FSYNC => val (native_fd_fsync (am_catfs am) task (i32 (rdi r)))
  | SYS_FDATASYNC => val (native_fd_fsync (am_catfs am) task (i32 (rdi r)))
  | SYS_TRUNCATE => val (sys_truncate_user space (rdi r) (rsi r))
  | SYS_FTRUNCATE => val (native_fd_ftruncate task (i32 (rdi r)) (rsi r))
  | SYS_GETCWD => val (sys_getcwd_user space (rdi r) (rsi r))
  | SYS_CHDIR => val (sys_chdir_user space (rdi r))
  | SYS_RENAME => val (sys_rename_user space (rdi r) (rsi r))
  | SYS_ACCESS => val (sys_access_user space (rdi r) (i32 (rsi r)))
  | SYS_MKDIR => val (sys_mkdir_user space (rdi r) (u32 (rsi r)))
  | SYS_RMDIR => val (sys_rmdir_user space (rdi r))
  | SYS_LINK => val (sys_link_user space (rdi r) (rsi r))
  | SYS_UNLINK => val (sys_unlink_user space (rdi r))
  | SYS_SYMLINK => val (sys_symlink_user space (rdi r) (rsi r))
  | SYS_READLINK => val (sys_readlink_user space (rdi r) (rsi r) (rdx r))
  | SYS_CHMOD => val (sys_chmod_user space (rdi r) (u32 (rsi r)))
  | SYS_CHOWN => val (sys_chown_user space (rdi r) (u32 (rsi r)) (u32 (rdx r)))
  | SYS_UMASK => val (atm_posix_umask (u32 (rdi r)))
  | SYS_ISATTY => val (gets (fun k => Z.b2z (native_fd_isatty k task (i32 (rdi r)))))
  | SYS_PIPE => val (sys_pipe_user space task (rdi r) 0)
  | SYS_PIPE2 => val (sys_pipe_user space task (rdi r) (u32 (rsi r)))
  | SYS_GETPGID => val (or_einval (on_tasks (task_getpgid (i32 (rdi r)))))
  | SYS_SETPGID => val (or_einval (on_tasks (task_setpgid (i32 (rdi r)) (i32 (rsi r)))))
  | SYS_GETSID => val (or_einval (on_tasks (task_getsid (i32 (rdi r)))))
  | SYS_SETSID => val (or_einval (on_tasks task_setsid))
  | SYS_OPENDIR => val (sys_opendir_user space task (rdi r))
  | SYS_READDIR => readdir_call space task (i32 (rdi r)) (rsi r)
  | SYS_CLOSEDIR => val (native_dir_close task (i32 (rdi r)))
  | SYS_FCNTL => val (or_einval (native_fd_fcntl task (i32 (rdi r)) (i32 (rsi r)) (u32 (rdx r))))
  | SYS_POLL => ans (sys_poll_user space task (rdi r) (rsi r) (rdx r))
  | SYS_SELECT => ans (sys_select_user space task (i32 (rdi r)) (rsi r) (rdx r) (r10 r) (r8 r))
  | SYS_CLOCK_GETTIME => clock_call space (rsi r) (atm_clock_gettime (i32 (rdi r)) (am_rtc am))
  | SYS_GETTIMEOFDAY => clock_call space (rdi r) (atm_gettimeofday (am_rtc am))
  | SYS_CLOCK_GETRES => clock_call space (rsi r) (ret (atm_clock_getres (i32 (rdi r))))
  | SYS_UNAME => val (sys_uname_user space (rdi r))
  | SYS_NANOSLEEP => ans (sys_nanosleep_user space task (rdi r) (rsi r))
  | SYS_SOCKET => val (sys_socket_user space task (i32 (rdi r)) (i32 (rsi r)) (i32 (rdx r)))
  | SYS_CONNECT => val (sys_connect_user space task (i32 (rdi r)) (rsi r) (rdx r))
  | SYS_BIND => val (sys_bind_user space task (i32 (rdi r)) (rsi r) (rdx r))
  | SYS_LISTEN => val (native_socket_listen task (i32 (rdi r)) (i32 (rsi r)))
  | SYS_ACCEPT => val (sys_accept_user space task (i32 (rdi r)) (rsi r) (rdx r))
  | SYS_SEND => val (sys_send_user space task (i32 (rdi r)) (rsi r) (rdx r) (u32 (r10 r)))
  | SYS_RECV => val (sys_recv_user space task (i32 (rdi r)) (rsi r) (rdx r) (u32 (r10 r)))
  | SYS_BRK => val (sys_brk_native task (rdi r))
  | SYS_EXECVE => ans (sys_execve_user space task (rdi r) (rsi r) (rdx r) (am_junk am))
  | SYS_EXIT => ans (do* task_exit_from_syscall (i32 (rdi r)) in ret NoReturn)
  | SYS_WAITPID => ans (sys_waitpid_user space (i32 (rdi r)) (rsi r) (u32 (rdx r)))
  | SYS_KILL => val (task_send_signal (u32 (rdi r)) (i32 (rsi r)))
  | SYS_GETPID => val (current_pid task)
  | SYS_GETPPID => val atm_posix_getppid
  | SYS_GETUID => val atm_posix_getuid
  | SYS_GETGID => val atm_posix_getgid
  | SYS_GETEUID => val atm_posix_getuid
  | SYS_GETEGID => val atm_posix_getgid
  | SYS_GETRESUID => val (sys_getresid_user space (rdi r) (rsi r) (rdx r) false)
  | SYS_GETRESGID => val (sys_getresid_user space (rdi r) (rsi r) (rdx r) true)
  | SYS_GETTID => val (current_pid task)
  | SYS_ABI_INFO => ret (Answer ATM_SYSCALL_ABI_V22)
  end.

Definition atm_syscall_dispatch (am : ambient) (r : registers) : Y answer :=
  let* space := on_k sys_user_space in
  let* task := gets (fun s => current (y_k s)) in
  match syscall_of (rax r) with
  | None => ret (Answer (- ATM_ENOSYS))
  | Some c => run_syscall am space task c r
  end.

(** The pass a woken task runs. *)
Definition resume_call (p : pending) : Y answer :=
  let* space := on_k sys_user_space in
  let* task := gets (fun s => current (y_k s)) in
  match p with
  | PRead tmp fd ubuf count => ans (read_pass space task tmp fd ubuf count)
  | PWrite tmp fd data => ans (write_pass task tmp fd data)
  | PReadv tmp fd iov rest total got => ans (let* r := pipe_readv task fd rest total got in readv_result space tmp fd iov r)
  | PWritev tmp fd rest total => ans (let* r := pipe_writev task fd rest total in writev_result tmp fd r)
  | PPoll ufds fds ticks start => ans (poll_pass space task ufds fds ticks start)
  | PSelect rp wp ep in_r in_w in_e fds ticks start => ans (select_pass space task rp wp ep in_r in_w in_e fds ticks start)
  | PWait pid ustatus options =>
    match task with
    | None => fault
    | Some t => ans (let* w := task_waitpid_resume t pid options in waitpid_result space pid ustatus options w)
    end
  | PSleep => ret (Answer 0)
  end.
End Dispatch.
