(* ===== verification/SysInv.v ===== *)
(** * User memory under the system calls

    The checks and copies of [Syscall], [SysPath] and [NativeApp] through the specifications of
    the page tables.  The copies do not look at the heap ([heapless]), so what is known of the
    caller's address space stays true while the kernel allocates and frees ([user_ok]).  The
    loop that backs the break is the loader's [elf64_map_page], page by page, and keeps the
    address space. *)

From S2P Require Import Prelude Cstring Sched Pipe Alloc Vfs Paging PagingInv PagingCopy PagingOps Elf ElfProps Kernel Socket NativeFd Process ProcInv NativeApp Tcp Time Tzif Clock Syscall SysPath Dispatch.

(** ** Fragments that do not look at the heap *)

Section Heapless.
Context {H : Type} `{!Allocator H}.
Implicit Types (k : kmem H) (us : user_space).

Definition with_heap k (h : H) : kmem H := k <| km_heap := h |>.

Definition heapless {A} (m : M (kmem H) A) : Prop :=
  forall k h, m (with_heap k h) = match m k with Done (a, k') => Done (a, with_heap k' h) | Fault => Fault end.

Lemma heapless_ret {A} (a : A) : heapless (ret a).
Proof. done. Qed.
Lemma heapless_bind {A B} (m : M (kmem H) A) (f : A -> M (kmem H) B) : heapless m -> (forall a, heapless (f a)) -> heapless (bind m f).
Proof. intros Hm Hf k h. unfold bind. rewrite Hm. destruct (m k) as [[a k']|]; [apply Hf|done]. Qed.
Lemma heapless_entry p i : heapless (entry_at p i).
Proof.
  intros k h. unfold entry_at, table_at, bind, deref. change (km_tables (with_heap k h)) with (km_tables k).
  destruct (km_tables k !! p) as [t|]; [|done]. by destruct (aget t i).
Qed.
Lemma heapless_translate s va : heapless (paging_user_translate s va).
Proof.
  unfold paging_user_translate. destruct s as [us|]; [|done]. destruct (_ || _); [done|]. destruct (table_of us va); [|done].
  apply heapless_bind; [apply heapless_entry|done].
Qed.
Lemma heapless_range_loop s w : forall fuel page last, heapless (range_loop fuel s page last w).
Proof.
  induction fuel as [|fuel IH]; intros page last; cbn [range_loop]; [done|]. apply heapless_bind; [apply heapless_translate|].
  intros [[p e]|]; [|done]. destruct (_ && _); [done|]. destruct (_ =? _); [done|apply IH].
Qed.
Lemma heapless_range s va n w : heapless (paging_user_range s va n w).
Proof.
  unfold paging_user_range. destruct s; [|done]. destruct (_ || _ || _); [done|]. cbv zeta. destruct (_ || _); [done|apply heapless_range_loop].
Qed.
Lemma heapless_copy_loop s w : forall fuel va kb n, heapless (copy_loop_user fuel s va kb n w).
Proof.
  induction fuel as [|fuel IH]; intros va kb n; cbn [copy_loop_user]; destruct (n =? 0); try done.
  apply heapless_bind; [apply heapless_translate|]. intros [[p e]|]; [|done]. cbv zeta. apply heapless_bind; [by destruct w|].
  intros got. apply heapless_bind; [apply IH|]. by intros [r rest].
Qed.
Lemma heapless_copy s va kb n w : heapless (user_copy s va kb n w).
Proof.
  unfold user_copy. destruct s, kb; try done. destruct (n =? 0); [done|]. apply heapless_bind; [apply heapless_range|].
  intros r. destruct (r <? 0); [done|apply heapless_copy_loop].
Qed.
Lemma heapless_to s va kb n : heapless (copy_to_user s va kb n).
Proof. apply heapless_bind; [apply heapless_copy|done]. Qed.
Lemma heapless_from s ok va n : heapless (copy_from_user s ok va n).
Proof. apply heapless_copy. Qed.
Lemma heapless_valid s va n w : heapless (user_range_valid s va n w).
Proof. unfold user_range_valid. destruct s; [|done]. destruct (_ && _); [done|apply heapless_range]. Qed.
End Heapless.

Section User.
Context {H N : Type} `{!Allocator H} `{!PageLaws H} `{!Tcp N}.
Implicit Types (k : kernel H N) (us : user_space).

(** The tables of [us] are as the page operations leave them and no frame is mapped twice. *)
Definition user_ok k us : Prop :=
  exists P h, space_ok P (with_heap (k_pages k) h) us /\ injective_map (k_pages k) us.

Lemma user_ok_pages k k' us : k_pages k' = k_pages k -> user_ok k us -> user_ok k' us.
Proof. unfold user_ok. by intros ->. Qed.

(** The kernel after physical memory has changed. *)
Definition set_memory k (m : gmap Z byte) : kernel H N := k <| k_pages := (k_pages k) <| km_mem := m |> |>.

Lemma user_ok_mem k us m : user_ok k us -> user_ok (set_memory k m) us.
Proof. intros (P & h & Hok & Hi). exists P, h. split; [|done]. exact (space_ok_mem P _ us m Hok). Qed.

(** A fragment that does not look at the heap, run by the kernel. *)
Lemma wp_heapless {A} (m : M (kmem H) A) k h Q : heapless m ->
  wp m (with_heap (k_pages k) h) (fun a p => Q a (k <| k_pages := with_heap p (km_heap (k_pages k)) |>)) -> wp (on_pages m) k Q.
Proof.
  intros Hm Hw. unfold wp, on_pages, zoom in *. rewrite Hm in Hw. unfold pages_of.
  change ((k_pages k) <| km_heap := v_heap (k_vfs k) |>) with (with_heap (k_pages k) (v_heap (k_vfs k))). rewrite Hm.
  destruct (m (k_pages k)) as [[a p]|]; [|done]. destruct k as [? v]. by destruct v.
Qed.

Lemma set_pages_same k h : k <| k_pages := with_heap (with_heap (k_pages k) h) (km_heap (k_pages k)) |> = k.
Proof. by destruct k as [? ? []]. Qed.

Definition writable k us (va n : Z) : Prop := accessible (km_tables (k_pages k)) us va n true.
Definition readable k us (va n : Z) : Prop := accessible (km_tables (k_pages k)) us va n false.

Lemma range_ok_spec k us va n w : user_ok k us -> 0 <= va < 2 ^ 64 -> 0 < n ->
  wp (range_ok (Some us) va n w) k (fun b k' => k' = k /\ (b = true <-> accessible (km_tables (k_pages k)) us va n w)).
Proof.
  intros (P & h & Hok & _) Hva Hn. unfold range_ok. wp_step. apply (wp_heapless _ _ h); [apply heapless_valid|]. unfold user_range_valid.
  destruct (Z.eqb_spec va 0) as [->|Hne]; cbn [andb].
  - rewrite (proj2 (Z.eqb_neq n 0)) by lia. cbn [negb]. do 2 wp_step. rewrite set_pages_same. split; [done|].
    change (-1 <? 0) with true. cbn [negb]. split; [done|]. intros Ha. destruct (accessible_window _ _ _ _ _ Hn Ha) as [Hw _].
    apply window_range in Hw. unfold ATM_USER_BASE in Hw. lia.
  - eapply wp_mono; [apply (range_spec P); [done|done|lia]|]. intros r p [-> Hr]. wp_step.
    rewrite set_pages_same.
    destruct Hr as [(-> & _ & Ha)|[-> Hno]]; (split; [done|]).
    + by change (negb (0 <? 0)) with true.
    + change (negb (-1 <? 0)) with false. split; [done|]. intros Ha. destruct Hno. by split.
Qed.

Lemma range_ok_false k us va n w : user_ok k us -> 0 <= va < 2 ^ 64 -> 0 <= n -> ~ accessible (km_tables (k_pages k)) us va n w ->
  range_ok (Some us) va n w k = Done (false, k).
Proof.
  intros Hu Hva Hn Hno. assert (0 < n) by (destruct (decide (n = 0)) as [->|]; [destruct Hno; intros i Hi; lia|lia]).
  destruct (wp_inv _ _ _ (range_ok_spec k us va n w Hu Hva ltac:(lia))) as (b & k' & -> & -> & Hb).
  destruct b; [|done]. destruct Hno. by apply Hb.
Qed.
Lemma range_ok_true k us va n w : user_ok k us -> 0 <= va < 2 ^ 64 -> 0 < n -> accessible (km_tables (k_pages k)) us va n w ->
  range_ok (Some us) va n w k = Done (true, k).
Proof.
  intros Hu Hva Hn Ha. destruct (wp_inv _ _ _ (range_ok_spec k us va n w Hu Hva Hn)) as (b & k' & -> & -> & Hb).
  destruct b; [done|]. by apply Hb in Ha.
Qed.

(** Fetching: the bytes the program has there, or nothing. *)
Lemma fetch_spec k us va n : user_ok k us -> 0 <= va < 2 ^ 64 -> 0 <= n ->
  wp (fetch (Some us) va n) k (fun o k' => k' = k /\
    match o with Some bs => zlen bs = n /\ reads (k_pages k) us va bs | None => ~ readable k us va n end).
Proof.
  intros (P & h & Hok & _) Hva Hn. unfold fetch. wp_step. apply (wp_heapless _ _ h); [apply heapless_from|].
  eapply wp_mono; [by apply (copy_from_user_spec P)|]. intros [r bs] p [-> Hr]. wp_step.
  rewrite set_pages_same. split; [done|].
  destruct Hr as [(Er & _ & Hl & Hr)|[Ex Hno]]; cbn [fst snd] in *; [by subst r|]. by injection Ex as -> ->.
Qed.

(** Storing: the bytes are there and nothing else changes, or nothing happens. *)
Lemma store_spec k us va bs : user_ok k us -> 0 <= va < 2 ^ 64 ->
  wp (store (Some us) va bs) k (fun b k' =>
    if b then writable k us va (zlen bs) /\ exists m, k' = set_memory k m /\ stored (k_pages k) (k_pages k') us va bs
    else k' = k /\ ~ writable k us va (zlen bs)).
Proof.
  intros (P & h & Hok & Hinj) Hva. unfold store. wp_step. apply (wp_heapless _ _ h); [apply heapless_to|].
  eapply wp_mono; [by apply (copy_to_user_spec P)|]. intros r p Hr. wp_step. destruct Hr as [(-> & Ha & [m ->] & Hs)|(-> & Hno & ->)].
  - change (negb (0 <? 0)) with true. cbn match. split; [done|]. exists m. split; [by destruct k as [? ? []]|]. exact Hs.
  - change (negb (-1 <? 0)) with false. cbn match. split; [|done]. apply set_pages_same.
Qed.
End User.

Section Brk.
Context {H N : Type} `{!Allocator H} `{!PageLaws H} `{!Tcp N}.
Implicit Types (k : kernel H N) (us : user_space) (P : gset Z).

(** The pages as a part of the kernel. *)
Definition put_pages (p : kmem H) k : kernel H N :=
  k <| k_pages := p <| km_heap := km_heap (k_pages k) |> |> <| k_vfs := (k_vfs k) <| v_heap := km_heap p |> |>.

Lemma pages_put p k : pages_of (put_pages p k) = p.
Proof. by destruct p. Qed.
Lemma put_put p q k : put_pages q (put_pages p k) = put_pages q k.
Proof. by destruct k. Qed.
Lemma put_same k : put_pages (pages_of k) k = k.
Proof. by destruct k as [? [] []]. Qed.

Lemma on_pages_bind {A B} (m : M (kmem H) A) (f : A -> M (kmem H) B) k :
  on_pages (bind m f) k = bind (on_pages m) (fun a => on_pages (f a)) k.
Proof.
  unfold on_pages, zoom, bind. destruct (m (pages_of k)) as [[a p]|]; [|done]. fold (put_pages p k). rewrite pages_put.
  destruct (f a p) as [[b q]|]; [|done]. fold (put_pages q k) (put_pages q (put_pages p k)). by rewrite put_put.
Qed.
Lemma on_pages_ret {A} (a : A) k : on_pages (ret a) k = Done (a, k).
Proof. unfold on_pages, zoom, ret. fold (put_pages (pages_of k) k). by rewrite put_same. Qed.
Lemma on_pages_heap {A} (m : M H A) k : on_pages (on_heap m) k = on_kheap m k.
Proof. unfold on_pages, on_heap, on_kheap, on_vfs, zoom. cbn. destruct (m _) as [[a h]|]; [|done]. by destruct k as [? [] []]. Qed.

Lemma wp_on_pages {A} (m : M (kmem H) A) k Q : wp m (pages_of k) (fun a p => Q a (put_pages p k)) -> wp (on_pages m) k Q.
Proof. apply wp_zoom. Qed.

(** One page of the loop. *)
Definition brk_page (a va : Z) us : M (kernel H N) Z :=
  let* '(r, us') := on_pages (elf64_map_page us va 3) in
  do* modify (fun k => k <| k_spaces := <[a := us']> (k_spaces k) |>) in ret r.

Lemma bind_ext {S A B} (m : M S A) (f g : A -> M S B) st :
  (forall a st', m st = Done (a, st') -> f a st' = g a st') -> bind m f st = bind m g st.
Proof. intros He. unfold bind. destruct (m st) as [[a st']|]; [by apply He|done]. Qed.
Lemma bind_assoc {S A B C} (m : M S A) (f : A -> M S B) (g : B -> M S C) st : bind (bind m f) g st = bind m (fun a => bind (f a) g) st.
Proof. unfold bind. by destruct (m st) as [[a st']|]. Qed.
Lemma bind_on_pages {A B C} (m : M (kmem H) A) (f : A -> M (kmem H) B) (g : B -> M (kernel H N) C) k :
  bind (on_pages (bind m f)) g k = bind (on_pages m) (fun a => bind (on_pages (f a)) g) k.
Proof. rewrite <- bind_assoc. unfold bind at 1 3. by rewrite on_pages_bind. Qed.
Lemma bind_on_pages_ret {A B} (a : A) (g : A -> M (kernel H N) B) k : bind (on_pages (ret a)) g k = g a k.
Proof. unfold bind. by rewrite on_pages_ret. Qed.
Lemma bind_on_pages_heap {A B} (m : M H A) (g : A -> M (kernel H N) B) k : bind (on_pages (on_heap m)) g k = bind (on_kheap m) g k.
Proof. unfold bind. by rewrite on_pages_heap. Qed.

Lemma spaces_on_pages {A} (m : M (kmem H) A) : keeps (@k_spaces H N) (on_pages m).
Proof. intros k a k'. unfold on_pages, zoom. destruct (m _) as [[b p]|]; [|done]. by intros [= _ <-]. Qed.
Lemma spaces_on_kheap {A} (m : M H A) : keeps (@k_spaces H N) (on_kheap m).
Proof. intros k a k'. rewrite <- on_pages_heap. apply spaces_on_pages. Qed.

(** Writing back the record that is there. *)
Lemma put_space_same a us k : k_spaces k !! a = Some us -> k <| k_spaces := <[a := us]> (k_spaces k) |> = k.
Proof. intros E. rewrite insert_id by done. by destruct k. Qed.

Lemma brk_loop_step fuel a va stop k us : k_spaces k !! a = Some us -> va < stop ->
  brk_loop (S fuel) a va stop k = bind (brk_page a va us) (fun r => if r <? 0 then ret false else brk_loop fuel a (va + ATM_PAGE_SIZE) stop) k.
Proof.
  intros Ha Hlt. cbn [brk_loop]. rewrite (proj2 (Z.leb_gt stop va)) by done.
  rewrite (bind_Done _ _ k us k) by (unfold deref; by rewrite Ha). unfold brk_page, elf64_map_page. rewrite bind_assoc, bind_on_pages.
  apply bind_ext. intros t k1 E1. apply spaces_on_pages in E1. destruct t as [x|].
  { rewrite bind_on_pages_ret, bind_assoc, bind_modify, put_space_same by (by rewrite E1). done. }
  rewrite bind_on_pages, bind_on_pages_heap. apply bind_ext. intros page k2 E2. apply spaces_on_kheap in E2. destruct (page =? 0).
  { rewrite bind_on_pages_ret, bind_assoc, bind_modify, put_space_same by (by rewrite E2, E1). done. }
  change (segment_flags 3) with ATM_PTE_W. rewrite bind_on_pages. apply bind_ext. intros [r us'] k3 _. by rewrite bind_on_pages_ret.
Qed.

(** The pages between two addresses are mapped, writable where nothing was mapped before. *)
Definition backed T us T' us' (va stop : Z) : Prop :=
  forall q, va <= q < stop -> allowed T' us' q false /\ (xlate T us q = None -> allowed T' us' q true).

Lemma xlate_page T us page i : page mod 4096 = 0 -> 0 <= i < 4096 -> xlate T us (page + i) = None -> xlate T us page = None.
Proof.
  intros Hp Hi Hn. destruct (xlate T us page) as [[p e]|] eqn:E; [|done]. exfalso.
  assert (Ha : allowed T us page false) by (by exists p, e).
  apply (allowed_whole_page T us page i false Hp Hi) in Ha as (p' & e' & E' & _). congruence.
Qed.

Lemma brk_loop_spec a stop : stop mod 4096 = 0 -> stop <= ATM_USER_TOP -> forall fuel P k us va,
  loading P (pages_of k) us -> k_spaces k !! a = Some us -> va mod 4096 = 0 -> ATM_USER_BASE <= va -> (stop - va) / 4096 <= Z.of_nat fuel ->
  wp (brk_loop fuel a va stop) k (fun ok k' => exists us', k_spaces k' = <[a := us']> (k_spaces k) /\ k_ps k' = k_ps k /\
    step_ok P (pages_of k) us (pages_of k') us' /\
    (ok = true -> backed (km_tables (k_pages k)) us (km_tables (k_pages k')) us' va stop)).
Proof.
  intros Hstop Htop. induction fuel as [|fuel IH]; intros P k us va Hl Ha Hva Hb Hf.
  all: destruct (Z.leb_spec stop va) as [Hle|Hlt].
  1, 3: unfold wp; cbn [brk_loop]; rewrite (proj2 (Z.leb_le stop va)) by done; cbv beta iota delta [ret]; exists us;
    (split_and!; [by rewrite insert_id|done|by apply step_refl|intros _ q Hq; lia]).
  { exfalso. assert (stop = va + 4096 * ((stop - va) / 4096)) by (Z.to_euclidean_division_equations; lia). lia. }
  assert (Hw : user_window va = true) by (apply window_range; lia).
  assert (Hnext : va + 4096 <= stop) by (Z.to_euclidean_division_equations; lia).
  unfold wp. rewrite (brk_loop_step fuel a va stop k us Ha Hlt).
  change (wp (bind (brk_page a va us) (fun r => if r <? 0 then ret false else brk_loop fuel a (va + ATM_PAGE_SIZE) stop)) k
    (fun ok k' => exists us', k_spaces k' = <[a := us']> (k_spaces k) /\ k_ps k' = k_ps k /\
      step_ok P (pages_of k) us (pages_of k') us' /\ (ok = true -> backed (km_tables (k_pages k)) us (km_tables (k_pages k')) us' va stop))).
  unfold brk_page. wp_step. wp_step. apply wp_on_pages. eapply wp_mono; [apply (map_page_spec P); [exact Hl|by apply page_good]|].
  intros [r us1] p (Hs & Hr & Hoth). cbn [fst snd] in *. wp_step. wp_step. wp_step.
  set (k1 := (put_pages p k) <| k_spaces := <[a := us1]> (k_spaces (put_pages p k)) |>). assert (Ep : pages_of k1 = p) by apply (pages_put p k).
  assert (Et : km_tables (k_pages k1) = km_tables p) by done.
  destruct Hr as [->|(-> & q0 & e & Ex & Hwr)].
  { change (-1 <? 0) with true. cbv beta iota. wp_step. exists us1. split_and!; [done|done|by rewrite Ep|done]. }
  change (0 <? 0) with false. cbv beta iota. destruct Hs as (P1 & HP1 & Hl1 & Hg1 & Hm1).
  eapply wp_mono; [apply (IH P1 k1 us1 (va + ATM_PAGE_SIZE)); rewrite ?Ep; unfold ATM_PAGE_SIZE|].
  - done.
  - apply lookup_insert_eq.
  - Z.to_euclidean_division_equations; lia.
  - lia.
  - Z.to_euclidean_division_equations; lia.
  - cbv beta. intros ok k2 (us2 & Esp & Eps & Hs2 & Hbk). exists us2. split_and!.
    + rewrite Esp. apply insert_insert_eq.
    + done.
    + rewrite Ep in Hs2. by eapply (step_trans P P1).
    + intros Hok q Hq. unfold ATM_PAGE_SIZE in *. rewrite Ep in Hs2. destruct Hs2 as (_ & _ & _ & Hg2 & _). destruct (decide (q < va + 4096)) as [Hin|Hout].
      * replace q with (va + (q - va)) by lia.  pose proof (grows_xlate _ _ _ _ _ _ Hg2 Ex) as Ex2. split; [apply allowed_whole_page; [done|lia|by exists q0, e]|].
        intros Hn. apply xlate_page in Hn; [|done|lia]. apply allowed_whole_page; [done|lia|]. exists q0, e. split; [done|]. intros _. by apply Hwr.
      * destruct (Hbk Hok q ltac:(lia)) as [Hr Hw']. split; [done|]. intros Hn. apply Hw'. rewrite Et. unfold xlate in Hn |- *.
        destruct (user_window q) eqn:Hwq; [|done]. rewrite Hoth; [done|by apply page_no_range|].
        intros Epg. rewrite (va_of_page q), (va_of_page va) in Hout, Hq. rewrite Epg in *. pose proof (Z.mod_pos_bound q 4096 ltac:(lia)). lia.
Qed.

Lemma page_up_facts y : 0 <= y < 2 ^ 51 -> page_up y mod 4096 = 0 /\ y <= page_up y < y + 4096.
Proof.
  intros Hy. unfold page_up. fold (phys_ptr (u64 (y + ATM_PAGE_SIZE - 1))). unfold ATM_PAGE_SIZE. rewrite u64_small, phys_ptr_small by lia.
  Z.to_euclidean_division_equations; lia.
Qed.

(** A program whose break lies in its window. *)
Record brk_ready k (t : nat) (x : task) us P : Prop := {
  br_task : pool k !! t = Some x;
  br_space : t_address_space x <> 0;
  br_us : k_spaces k !! t_address_space x = Some us;
  br_pages : loading P (pages_of k) us;
  br_base : ATM_USER_BASE <= t_user_brk_base x;
  br_brk : t_user_brk_base x <= t_user_brk x < ATM_USER_ANON_BASE }.

(** The break has moved to [v] with the pages it needs, or it is where it was. *)
Definition brk_outcome k (t : nat) (x : task) us P (requested v : Z) k' : Prop :=
  exists us', k_spaces k' = <[t_address_space x := us']> (k_spaces k) /\ step_ok P (pages_of k) us (pages_of k') us' /\
    ((v = requested /\ t_user_brk_base x <= v < ATM_USER_ANON_BASE /\ k_ps k' = k_ps (put_task t (fun y => y <| t_user_brk := v |>) k) /\
      backed (km_tables (k_pages k)) us (km_tables (k_pages k')) us' (page_up (t_user_brk x)) (page_up v)) \/
     (v = t_user_brk x /\ k_ps k' = k_ps k)).

Lemma put_task_ps t f k k' : k_ps k' = k_ps k -> k_ps (put_task t f k') = k_ps (put_task t f k).
Proof.
  intros E. assert (Hp : forall q : kernel H N, k_ps (put_task t f q) = (k_ps q) <| ps_sched := (ps_sched (k_ps q)) <| task_pool := alter f t (task_pool (ps_sched (k_ps q))) |> |>) by done.
  by rewrite !Hp, E.
Qed.

Lemma brk_stays k t x us P requested : brk_ready k t x us P -> brk_outcome k t x us P requested (t_user_brk x) k.
Proof.
  intros []. exists us. split_and!; [by rewrite insert_id|by apply step_refl|by right].
Qed.

Lemma brk_spec k t x us P requested : brk_ready k t x us P -> 0 <= requested < 2 ^ 64 ->
  wp (sys_brk_native (Some t) requested) k (fun v k' => brk_outcome k t x us P requested v k').
Proof.
  intros Hb Hr. pose proof Hb as [Ht Ha Hus Hl Hbase Hbrk]. unfold sys_brk_native. wp_step. apply (wp_ktask t x); [done|].
  rewrite (proj2 (Z.eqb_neq _ 0)) by done. wp_step. eapply wp_deref; [done|].
  rewrite (proj2 (Z.eqb_neq (us_valid us) 0)) by apply (lo_ok _ _ _ Hl). unfold ATM_USER_ANON_BASE, ATM_USER_BASE in *.
  rewrite (proj2 (Z.eqb_neq (t_user_brk_base x) 0)) by lia. cbn [orb]. pose proof (brk_stays k t x us P requested Hb) as Hstay.
  destruct (Z.eqb_spec requested 0); [by wp_step|].
  destruct (Z.ltb_spec requested (t_user_brk_base x)) as [|Hlo]; [by wp_step|]. cbn [orb].
  destruct (Z.leb_spec (0x40000000 + 0x01000000) requested) as [|Hhi]; [by wp_step|]. cbn [orb].
  destruct (Z.ltb_spec (0x40000000 + 0x01000000) (page_up requested)) as [|Hup]; [by wp_step|]. wp_step.
  destruct (page_up_facts requested ltac:(lia)) as [Hm1 Hu1]. destruct (page_up_facts (t_user_brk x) ltac:(lia)) as [Hm2 Hu2].
  assert (Htop : page_up requested <= ATM_USER_TOP) by (unfold ATM_USER_TOP, ATM_USER_BASE, ATM_USER_WINDOW_SIZE; lia).
  assert (Hlow : ATM_USER_BASE <= page_up (t_user_brk x)) by (unfold ATM_USER_BASE; lia).
  assert (Hfuel : (page_up requested - page_up (t_user_brk x)) / 4096 <= Z.of_nat brk_fuel).
  { unfold brk_fuel. change (ATM_USER_WINDOW_SIZE / ATM_PAGE_SIZE) with 32768. rewrite Z2Nat.id by lia. apply Z.div_le_upper_bound; lia. }
  eapply wp_mono; [exact (brk_loop_spec (t_address_space x) _ Hm1 Htop brk_fuel P k us _ Hl Hus Hm2 Hlow Hfuel)|].
  cbv beta. intros ok k1 (us1 & Esp & Eps & Hs & Hbk). destruct ok.
  - wp_step. apply wp_upd_task; [unfold pool, tasks; rewrite Eps; by eapply lookup_lt_Some|]. wp_step. exists us1.
    split_and!; [done|done|]. left. split_and!; [done|done|done| |by apply Hbk]. by apply put_task_ps.
  - wp_step. exists us1. split_and!; [done|done|]. by right.
Qed.
End Brk.

(** ** The arguments of a program

    What [native_init_start_stack] leaves on the stack, as the program reads it, and what
    [exec_payload] collects from the memory of the program that calls exec. *)

(** ** Words as bytes *)

Section Words.
Context {H : Type} `{!Allocator H} `{!PageLaws H}.
Implicit Types (k : kmem H) (us : user_space) (P : gset Z).

(** The word a program loads from an address. *)
Definition user_word k us (va : Z) : option Z := le <$> mapM (fun i => user_byte k us (va + i)) (seqZ 0 8).

Lemma reads_mapM k us va bs : reads k us va bs -> mapM (fun i => user_byte k us (va + i)) (seqZ 0 (zlen bs)) = Some bs.
Proof.
  intros Hr. apply mapM_Some. apply Forall2_same_length_lookup_2; [rewrite length_seqZ; lia|]. intros i z b Hz Hb.
  apply lookup_seqZ in Hz as [-> Hi]. rewrite Z.add_0_l, Hr; [done|lia].
Qed.
Lemma reads_word k us va w : 0 <= w < 2 ^ 64 -> reads k us va (le_bytes 8 w) -> user_word k us va = Some w.
Proof. intros Hw Hr%reads_mapM. rewrite le_bytes_length in Hr. unfold user_word. change (Z.of_nat 8) with 8 in Hr. rewrite Hr. cbn [fmap option_fmap option_map]. by rewrite le_le_bytes. Qed.

Definition words_bytes (ws : list Z) : list byte := ws ≫= le_bytes 8.

Lemma words_bytes_cons w ws : words_bytes (w :: ws) = le_bytes 8 w ++ words_bytes ws.
Proof. done. Qed.
Lemma words_bytes_length ws : length (words_bytes ws) = (8 * length ws)%nat.
Proof. induction ws as [|w ws IH]; [done|]. rewrite words_bytes_cons, length_app, le_bytes_length, IH. cbn [length]. lia. Qed.

Lemma reads_split k us va b1 b2 : reads k us va (b1 ++ b2) -> reads k us va b1 /\ reads k us (va + zlen b1) b2.
Proof.
  intros Hr. split; intros i Hi.
  - rewrite Hr by (rewrite length_app; lia). by apply lookup_app_l.
  - rewrite <- Z.add_assoc, <- Nat2Z.inj_add, Hr by (rewrite length_app; lia). rewrite lookup_app_r by lia. f_equal. lia.
Qed.
Lemma reads_words k us ws : forall va i w, reads k us va (words_bytes ws) -> ws !! i = Some w -> 0 <= w < 2 ^ 64 ->
  user_word k us (va + 8 * Z.of_nat i) = Some w.
Proof.
  induction ws as [|v ws IH]; intros va i w Hr Hi Hw; [done|]. rewrite words_bytes_cons in Hr. apply reads_split in Hr as [H1 H2].
  destruct i as [|i]; cbn in Hi.
  - injection Hi as ->. rewrite Z.add_0_r. by apply reads_word.
  - rewrite le_bytes_length in H2. replace (va + 8 * Z.of_nat (S i)) with (va + Z.of_nat 8 + 8 * Z.of_nat i) by lia. by eapply IH.
Qed.

(** ** Storing words *)

Lemma write_word_spec P us k va w : loading P k us -> va mod 8 = 0 -> accessible (km_tables k) us va 8 false ->
  wp (native_write_word us va w) k (fun r k' => r = 0 /\ mem_only k k' /\ stored k k' us va (le_bytes 8 w)).
Proof.
  intros [Hok _] Hal Ha. unfold native_write_word. wp_step. eapply wp_mono; [by apply (translate_spec P)|]. intros o k' [-> ->].
  destruct (Ha 0 ltac:(lia)) as (p & e & Ex & _). rewrite Z.add_0_r in Ex. rewrite Ex. wp_step. unfold poke_bytes. wp_step. wp_step.
  split_and!; [done|by eexists|]. eapply stored_piece; [done|]. rewrite le_bytes_length. Z.to_euclidean_division_equations; lia.
Qed.

Lemma write_words_spec P us : forall ws k va, loading P k us -> va mod 8 = 0 -> 0 <= va -> va + 8 * zlen ws < 2 ^ 64 ->
  accessible (km_tables k) us va (8 * zlen ws) false ->
  wp (write_words us va ws) k (fun r k' => r = 0 /\ mem_only k k' /\ stored k k' us va (words_bytes ws)).
Proof.
  induction ws as [|w ws IH]; intros k va Hl Hal H0 Hmax Ha; cbn [write_words].
  { wp_step. split_and!; [done|by exists (km_mem k); destruct k|]. split; [intros i Hi; simpl in Hi; lia|done]. }
  cbn [length] in *. wp_step. eapply wp_mono; [apply (write_word_spec P); [done|done|intros i Hi; apply Ha; lia]|].
  intros r k1 (-> & [m ->] & Hs). change (0 <? 0) with false. cbv beta iota. rewrite u64_small by lia.
  eapply wp_mono; [apply IH; [by apply loading_mem|Z.to_euclidean_division_equations; lia|lia|lia|]|].
  - intros i Hi. rewrite <- Z.add_assoc. apply Ha. lia.
  - intros r k2 (-> & [m2 ->] & Hs2). split_and!; [done|by exists m2|]. rewrite words_bytes_cons.
    eapply (stored_app k (set_mem k m)); [eapply framed_injective, Hl|done|done| |done|].
    + intros i Hi. rewrite le_bytes_length, words_bytes_length in *. rewrite <- Z.add_assoc. eapply accessible_mapped; [exact Ha|lia].
    + by rewrite le_bytes_length.
Qed.
End Words.

(** ** Payloads *)

(** The sizes of the arrays and the ranges of the offsets. *)
Record payload_ok (p : payload) : Prop := {
  po_strings : zlen (pl_strings p) = ATM_NATIVE_EXEC_STR_BYTES;
  po_argc : 0 <= pl_argc p; po_envc : 0 <= pl_envc p; po_bytes : 0 <= pl_bytes p;
  po_argv : zlen (pl_argv p) = ATM_NATIVE_EXEC_MAX_ARGS; po_env : zlen (pl_env p) = ATM_NATIVE_EXEC_MAX_ENV;
  po_arg_off : Forall (fun o => 0 <= o) (pl_argv p); po_env_off : Forall (fun o => 0 <= o) (pl_env p) }.

Record payload_valid (p : payload) : Prop := {
  pv_argc : 0 < pl_argc p <= ATM_NATIVE_EXEC_MAX_ARGS; pv_envc : 0 <= pl_envc p <= ATM_NATIVE_EXEC_MAX_ENV;
  pv_bytes : 0 < pl_bytes p <= ATM_NATIVE_EXEC_STR_BYTES;
  pv_arg o : o ∈ take (Z.to_nat (pl_argc p)) (pl_argv p) -> 0 <= o /\ is_Some (string_end p o);
  pv_env o : o ∈ take (Z.to_nat (pl_envc p)) (pl_env p) -> 0 <= o /\ is_Some (string_end p o) }.

Lemma string_ends_all p l n : Forall (fun o => 0 <= o) l -> forallb (string_ends p) (take n l) = true ->
  forall o, o ∈ take n l -> 0 <= o /\ is_Some (string_end p o).
Proof.
  intros Hf Hb o Ho. split; [|rewrite forallb_forall in Hb; apply list_elem_of_In, Hb in Ho; by apply bool_decide_eq_true in Ho].
  rewrite list.Forall_forall in Hf. apply Hf. by eapply elem_of_take in Ho as (i & Hi & _); apply list_elem_of_lookup_2 in Hi.
Qed.

Lemma payload_valid_ok p : payload_ok p -> native_exec_payload_valid p = true -> payload_valid p.
Proof.
  intros [] Hv. unfold native_exec_payload_valid in Hv. rewrite !andb_true_iff, !negb_true_iff, !Z.eqb_neq, !Z.leb_le in Hv.
  destruct Hv as ((((((H1 & H2) & H3) & H4) & H5) & H6) & H7). split; [lia|lia|lia| |]; by apply string_ends_all.
Qed.

(** The string at an offset lies within the bytes in use and ends there. *)
Lemma string_at_facts p o : payload_ok p -> pl_bytes p <= ATM_NATIVE_EXEC_STR_BYTES -> 0 <= o -> is_Some (string_end p o) ->
  o + zlen (string_at p o) < pl_bytes p /\ (nul ∉ string_at p o) /\
  string_at p o ++ [nul] = take (length (string_at p o) + 1) (drop (Z.to_nat o) (pl_strings p)).
Proof.
  intros Hp Hb Ho [e He]. unfold string_at. rewrite He. unfold string_end in He. destruct (Z.leb_spec (pl_bytes p) o); [done|].
  apply first_idx_Some in He as (Hr & Hn & Hbefore). apply bool_decide_eq_true in Hn. pose proof (po_strings _ Hp) as Hl.
  unfold ATM_NATIVE_EXEC_STR_BYTES in *. set (d := drop (Z.to_nat o) (pl_strings p)).
  assert (Hd : forall i, 0 <= i -> d !! Z.to_nat i = aget (pl_strings p) (o + i)).
  { intros i Hi. unfold d. rewrite lookup_drop. unfold aget. rewrite (proj2 (Z.ltb_ge _ 0)) by lia. f_equal. lia. }
  assert (Hlen : length (take (Z.to_nat (e - o)) d) = Z.to_nat (e - o)) by (rewrite length_take; unfold d; rewrite length_drop; lia).
  rewrite Hlen. split_and!; [lia| |].
  - intros Hin. apply list_elem_of_lookup_1 in Hin as [i Hi]. apply lookup_take_Some in Hi as [Hi Hlt].
    specialize (Hbefore (o + Z.of_nat i) ltac:(lia)). apply bool_decide_eq_false in Hbefore. apply Hbefore. rewrite <- Hd by lia. by rewrite Nat2Z.id.
  - rewrite Nat.add_1_r. symmetry. apply take_S_r. rewrite Hd by lia. rewrite <- Hn. f_equal. lia.
Qed.

(** ** The first stack *)

Lemma andn_15 x : andn x 15 = x - x mod 16.
Proof.
  unfold andn. change 15 with (Z.ones 4). rewrite Z.ldiff_ones_r by lia. rewrite Z.shiftr_div_pow2, Z.shiftl_mul_pow2 by lia.
  change (2 ^ 4) with 16. pose proof (Z.div_mod x 16). lia.
Qed.

Section Stack.
Context {H : Type} `{!Allocator H} `{!PageLaws H}.
Implicit Types (k : kmem H) (us : user_space) (P : gset Z).

(** A vector of pointers to strings, ended by NULL. *)
Record vector_at k us (va : Z) (strings : list cstr) : Prop := {
  va_string i s : strings !! i = Some s -> exists a, user_word k us (va + 8 * Z.of_nat i) = Some a /\ user_string k us a s;
  va_end : user_word k us (va + 8 * zlen strings) = Some 0 }.

Definition payload_args (p : payload) : list cstr := string_at p <$> take (Z.to_nat (pl_argc p)) (pl_argv p).
Definition payload_env (p : payload) : list cstr := string_at p <$> take (Z.to_nat (pl_envc p)) (pl_env p).

(** What a program finds where its stack pointer points. *)
Record started k us (args env : list cstr) (sp entry : Z) : Prop := {
  sd_argc : user_word k us sp = Some (zlen args);
  sd_argv : vector_at k us (sp + 8) args;
  sd_env : vector_at k us (sp + 8 + 8 * (zlen args + 1)) env;
  sd_aux i w : [ATM_AT_PAGESZ; ATM_PAGE_SIZE; ATM_AT_ENTRY; entry; ATM_AT_NULL; 0] !! i = Some w ->
    user_word k us (sp + 8 + 8 * (zlen args + 1) + 8 * (zlen env + 1) + 8 * Z.of_nat i) = Some w }.

(** The strings where [string_va] says. *)
Lemma payload_string k us p sva o : payload_ok p -> pl_bytes p <= ATM_NATIVE_EXEC_STR_BYTES ->
  reads k us sva (take (Z.to_nat (pl_bytes p)) (pl_strings p)) -> 0 <= o -> is_Some (string_end p o) -> user_string k us (sva + o) (string_at p o).
Proof.
  intros Hp Hb Hr Ho He. destruct (string_at_facts p o Hp Hb Ho He) as (Hlen & Hnn & Happ).
  assert (Hall : reads k us (sva + o) (string_at p o ++ [nul])).
  { intros i Hi. rewrite Happ. rewrite length_app in Hi. cbn [length] in Hi. rewrite lookup_take_lt, lookup_drop by lia.
    replace (sva + o + Z.of_nat i) with (sva + Z.of_nat (Z.to_nat o + i)) by lia. pose proof (po_strings _ Hp).
    rewrite Hr by (rewrite length_take; lia). apply lookup_take_lt. lia. }
  apply reads_split in Hall as [H1 H2]. split; [done| |done]. specialize (H2 0%nat ltac:(simpl; lia)). by rewrite Z.add_0_r in H2.
Qed.

Lemma vector_words k us va p sva offs : payload_ok p -> pl_bytes p <= ATM_NATIVE_EXEC_STR_BYTES -> 0 <= sva < 2 ^ 63 ->
  reads k us sva (take (Z.to_nat (pl_bytes p)) (pl_strings p)) -> (forall o, o ∈ offs -> 0 <= o /\ is_Some (string_end p o)) ->
  reads k us va (words_bytes (((fun o => u64 (sva + o)) <$> offs) ++ [0])) -> vector_at k us va (string_at p <$> offs).
Proof.
  intros Hp Hb Hsva Hstr Hoffs Hr. split.
  - intros i s Hs. apply list_lookup_fmap_Some in Hs as (o & -> & Hi). destruct (Hoffs o (list_elem_of_lookup_2 _ _ _ Hi)) as [Ho He].
    destruct (string_at_facts p o Hp Hb Ho He) as (Hlen & _). unfold ATM_NATIVE_EXEC_STR_BYTES in *. exists (sva + o). split; [|by apply payload_string].
    eapply reads_words; [exact Hr| |lia]. rewrite lookup_app_l by (rewrite length_fmap; by eapply lookup_lt_Some).
    rewrite list_lookup_fmap, Hi. cbn. rewrite u64_small by lia. done.
  - rewrite length_fmap. eapply reads_words; [exact Hr| |lia]. rewrite lookup_app_r by (by rewrite length_fmap). by rewrite length_fmap, Nat.sub_diag.
Qed.

Lemma words_bytes_app a b : words_bytes (a ++ b) = words_bytes a ++ words_bytes b.
Proof. induction a as [|w a IH]; [done|]. cbn [app]. by rewrite !words_bytes_cons, IH, app_assoc. Qed.

Lemma started_words k us p sp sva entry : payload_ok p -> payload_valid p -> 0 <= sva < 2 ^ 63 -> 0 <= entry < 2 ^ 64 ->
  reads k us sva (take (Z.to_nat (pl_bytes p)) (pl_strings p)) -> reads k us sp (words_bytes (start_words p sva entry)) -> started k us (payload_args p) (payload_env p) sp entry.
Proof.
  intros Hp [Hargc Henvc Hb Ha He] Hsva Hentry Hstr Hr.
  assert (Ela : zlen (payload_args p) = pl_argc p).
  { unfold payload_args. rewrite length_fmap, length_take. pose proof (po_argv _ Hp). lia. }
  assert (Ele : zlen (payload_env p) = pl_envc p).
  { unfold payload_env. rewrite length_fmap, length_take. pose proof (po_env _ Hp). lia. }
  set (A := (fun o => u64 (sva + o)) <$> take (Z.to_nat (pl_argc p)) (pl_argv p)).
  set (E := (fun o => u64 (sva + o)) <$> take (Z.to_nat (pl_envc p)) (pl_env p)).
  set (X := [ATM_AT_PAGESZ; ATM_PAGE_SIZE; ATM_AT_ENTRY; entry; ATM_AT_NULL; 0]).
  assert (EA : zlen A = pl_argc p) by (unfold payload_args, A in *; by rewrite !length_fmap in *).
  assert (EE : zlen E = pl_envc p) by (unfold payload_env, E in *; by rewrite !length_fmap in *).
  assert (Ew : start_words p sva entry = [pl_argc p] ++ (A ++ [0]) ++ (E ++ [0]) ++ X) by (by rewrite <- !app_assoc).
  rewrite Ew, !words_bytes_app in Hr. apply reads_split in Hr as [R1 Hr]. apply reads_split in Hr as [R2 Hr]. apply reads_split in Hr as [R3 R4].
  rewrite <- !words_bytes_app, !words_bytes_length, !length_app in *. cbn [length] in *.
  split; rewrite ?Ela, ?Ele.
  - rewrite <- (Z.add_0_r sp). change 0 with (8 * Z.of_nat 0). eapply (reads_words _ _ [pl_argc p] sp 0); [exact R1|done|].
    unfold ATM_NATIVE_EXEC_MAX_ARGS in *. lia.
  - replace (sp + 8) with (sp + Z.of_nat (8 * 1)) by lia. by apply (vector_words _ _ _ _ sva); [..|apply Hb| | | |].
  - replace (sp + 8 + 8 * (pl_argc p + 1)) with (sp + Z.of_nat (8 * 1) + Z.of_nat (8 * (length A + 1))) by lia.
    by apply (vector_words _ _ _ _ sva); [..|apply Hb| | | |].
  - intros i w Hi. replace (sp + 8 + 8 * (pl_argc p + 1) + 8 * (pl_envc p + 1))
      with (sp + Z.of_nat (8 * 1) + Z.of_nat (8 * (length A + 1)) + Z.of_nat (8 * (length E + 1))) by lia.
    eapply reads_words; [exact R4|exact Hi|]. unfold X in Hi. apply list_elem_of_lookup_2 in Hi. unfold ATM_AT_PAGESZ, ATM_PAGE_SIZE, ATM_AT_ENTRY, ATM_AT_NULL in Hi.
    set_unfold in Hi. lia.
Qed.

Lemma reads_kept P k k' us va bs va' bs' : loading P k us -> mem_only k k' -> stored k k' us va bs -> (forall q, va' <= q < va' + zlen bs' -> ~ (va <= q < va + zlen bs)) ->
  reads k us va' bs' -> reads k' us va' bs'.
Proof. intros Hl Hm Hs Hd Hr i Hi. rewrite (stored_other P k k' us va bs) by (done || apply Hd; lia). by apply Hr. Qed.

(** The stack page of a new program. *)
Lemma start_stack_spec P k us p im : loading P k us -> payload_ok p -> native_exec_payload_valid p = true ->
  accessible (km_tables k) us ATM_USER_STACK_TOP ATM_PAGE_SIZE false -> im_stack_top im = ATM_USER_STACK_TOP + ATM_PAGE_SIZE -> 0 <= im_entry im < 2 ^ 64 ->
  wp (native_init_start_stack us p im) k (fun o k' => exists sp, o = Some sp /\ sp mod 16 = 0 /\ ATM_USER_STACK_TOP <= sp < ATM_USER_TOP /\
    mem_only k k' /\ started k' us (payload_args p) (payload_env p) sp (im_entry im) /\ forall q, ~ (sp <= q < ATM_USER_TOP) -> user_byte k' us q = user_byte k us q).
Proof.
  intros Hl Hp Hv Ha Htop Hent. pose proof (payload_valid_ok p Hp Hv) as Hpv. pose proof Hpv as [Hargc Henvc Hb _ _].
  unfold native_init_start_stack. rewrite Hv. cbn [negb]. rewrite Htop, andn_15.
  unfold start_word_count, ATM_USER_STACK_TOP, ATM_USER_TOP, ATM_USER_BASE, ATM_USER_WINDOW_SIZE, ATM_PAGE_SIZE, ATM_NATIVE_EXEC_MAX_ARGS, ATM_NATIVE_EXEC_MAX_ENV, ATM_NATIVE_EXEC_STR_BYTES in *.
  change (0x40000000 + 0x08000000 - 0x1000 + 0x1000) with 0x48000000 in *. change (0x40000000 + 0x08000000 - 0x1000) with 0x47fff000 in *.
  change (0x40000000 + 0x08000000) with 0x48000000. set (n := 1 + pl_argc p + 1 + pl_envc p + 1 + 6).
  rewrite (proj2 (Z.ltb_ge _ _)) by lia. rewrite (u64_small (0x48000000 - pl_bytes p)) by lia. set (sva := 0x48000000 - pl_bytes p).
  rewrite (u64_small (sva - n * 8)) by lia. set (sp := sva - n * 8 - (sva - n * 8) mod 16).
  pose proof (Z.mod_pos_bound (sva - n * 8) 16 ltac:(lia)). rewrite (u64_small (sp + n * 8)) by lia.
  rewrite (proj2 (Z.ltb_ge sp _)), (proj2 (Z.ltb_ge sva _)) by lia. cbn [orb].
  assert (Esp : sp mod 16 = 0) by (unfold sp; Z.to_euclidean_division_equations; lia).
  set (S := take (Z.to_nat (pl_bytes p)) (pl_strings p)).
  assert (ES : zlen S = pl_bytes p) by (unfold S; rewrite length_take; pose proof (po_strings _ Hp); unfold ATM_NATIVE_EXEC_STR_BYTES in *; lia).
  assert (Hacc : forall a m, 0x47fff000 <= a -> a + m <= 0x48000000 -> accessible (km_tables k) us a m false).
  { intros a m H1 H2 i Hi. replace (a + i) with (0x47fff000 + (a + i - 0x47fff000)) by lia. apply Ha. lia. }
  wp_step. eapply wp_mono; [apply (store_mapped_spec P); [done|apply Hacc; lia]|]. intros r k1 (-> & [m1 ->] & Hs1).
  change (0 <? 0) with false. cbv beta iota. pose proof (loading_mem P k us m1 Hl) as Hl1.
  assert (EW : zlen (start_words p sva (im_entry im)) = n).
  { unfold start_words. rewrite !length_app, !length_fmap, !length_take. cbn [length]. pose proof (po_argv _ Hp). pose proof (po_env _ Hp).
    unfold ATM_NATIVE_EXEC_MAX_ARGS, ATM_NATIVE_EXEC_MAX_ENV in *. lia. }
  wp_step. eapply wp_mono; [apply (write_words_spec P); [done|Z.to_euclidean_division_equations; lia|lia|lia|apply (Hacc sp); lia]|].
  intros r k2 (-> & [m2 ->] & Hs2). change (0 <? 0) with false. cbv beta iota. wp_step. exists sp.
  assert (EB : zlen (words_bytes (start_words p sva (im_entry im))) = n * 8) by (rewrite words_bytes_length; lia).
  split_and!; [done|done|lia|lia|by exists m2| |].
  - apply (started_words _ us p sp sva); [done|done|lia|done| |exact (proj1 Hs2)]. fold S.
    eapply (reads_kept P (set_mem k m1)); [done|by exists m2|exact Hs2|lia|exact (proj1 Hs1)].
  - intros q Hq. rewrite (stored_other P (set_mem k m1) _ us sp (words_bytes (start_words p sva (im_entry im))) q) by (done || by exists m2 || lia).
    apply (stored_other P k (set_mem k m1) us sva S q); [done|by exists m1|exact Hs1|lia].
Qed.
End Stack.

(** ** Adding a string to a payload *)

(** Which of the two vectors. *)
Definition offsets (env : bool) (p : payload) : list Z := if env then pl_env p else pl_argv p.
Definition count (env : bool) (p : payload) : Z := if env then pl_envc p else pl_argc p.
Definition set_vec (env : bool) : Z -> Z -> payload -> payload := if env then set_env else set_arg.
Definition collected (env : bool) (p : payload) : list cstr := string_at p <$> take (Z.to_nat (count env p)) (offsets env p).

(** The string [s] after the bytes in use, as entry [i]. *)
Definition add_string (env : bool) (i : Z) (s : cstr) (p : payload) : payload :=
  let off := pl_bytes p in
  (set_vec env i off p) <| pl_strings := take (Z.to_nat off) (pl_strings p) ++ (s ++ [nul]) ++ drop (Z.to_nat off + length (s ++ [nul])) (pl_strings p) |>
    <| pl_bytes := off + zlen s + 1 |>.

Lemma add_string_fields env i s p :
  offsets env (add_string env i s p) = aset (offsets env p) i (u16 (pl_bytes p)) /\ count env (add_string env i s p) = i + 1 /\
  offsets (negb env) (add_string env i s p) = offsets (negb env) p /\ count (negb env) (add_string env i s p) = count (negb env) p /\
  pl_bytes (add_string env i s p) = pl_bytes p + zlen s + 1 /\
  pl_strings (add_string env i s p) = take (Z.to_nat (pl_bytes p)) (pl_strings p) ++ (s ++ [nul]) ++ drop (Z.to_nat (pl_bytes p) + length (s ++ [nul])) (pl_strings p).
Proof. by destruct env. Qed.

Lemma forall_aset {A} (Q : A -> Prop) l i v : Forall Q l -> Q v -> Forall Q (aset l i v).
Proof. intros Hl Hv. unfold aset. destruct (_ <? _); [done|]. by apply Forall_insert. Qed.

Lemma offset_pos z : 0 <= u16 z.
Proof. unfold u16. apply Z.mod_pos_bound. lia. Qed.

(** The bytes of the area after the addition. *)
Lemma splice_byte (l bs : list byte) (off j : Z) : 0 <= off -> off + zlen bs <= zlen l -> 0 <= j ->
  aget (take (Z.to_nat off) l ++ bs ++ drop (Z.to_nat off + length bs) l) j =
  if (off <=? j) && (j <? off + zlen bs) then aget bs (j - off) else aget l j.
Proof.
  intros Ho Hl Hj. assert (Et : length (take (Z.to_nat off) l) = Z.to_nat off) by (rewrite length_take; lia).
  unfold aget. rewrite (proj2 (Z.ltb_ge j 0)) by lia. destruct (Z.leb_spec off j); cbn [andb].
  - rewrite lookup_app_r by lia. rewrite Et. destruct (Z.ltb_spec j (off + zlen bs)).
    + rewrite (proj2 (Z.ltb_ge (j - off) 0)) by lia. rewrite lookup_app_l by lia. f_equal. lia.
    + rewrite lookup_app_r by lia. rewrite lookup_drop. f_equal. lia.
  - rewrite lookup_app_l by lia. apply lookup_take_lt. lia.
Qed.

Section Adding.
Variables (env : bool) (i : Z) (s : cstr) (p : payload).
Hypotheses (Hp : payload_ok p) (Hi : 0 <= i) (Hfit : pl_bytes p + zlen s + 1 <= ATM_NATIVE_EXEC_STR_BYTES) (Hs : nul ∉ s).
Abbreviation p' := (add_string env i s p).

Lemma add_string_byte j : 0 <= j -> aget (pl_strings p') j =
  if (pl_bytes p <=? j) && (j <? pl_bytes p + zlen s + 1) then aget (s ++ [nul]) (j - pl_bytes p) else aget (pl_strings p) j.
Proof.
  intros Hj. destruct (add_string_fields env i s p) as (_ & _ & _ & _ & _ & ->). pose proof (po_bytes _ Hp). pose proof (po_strings _ Hp).
  rewrite splice_byte; rewrite ?length_app; cbn [length]; [|lia..]. by replace (pl_bytes p + Z.of_nat (length s + 1)) with (pl_bytes p + zlen s + 1) by lia.
Qed.

Lemma add_string_ok : payload_ok p'.
Proof.
  destruct Hp. unfold add_string, set_vec, set_arg, set_env. assert (El : length (s ++ [nul]) = (length s + 1)%nat) by (by rewrite length_app).
  unfold ATM_NATIVE_EXEC_STR_BYTES in *. destruct env; split; cbn; rewrite ?aset_length; try done; try lia;
    try (apply forall_aset; [done|apply offset_pos]); rewrite !length_app, length_take, length_drop; cbn [length]; unfold ATM_NATIVE_EXEC_STR_BYTES; lia.
Qed.

(** The strings that were there are still there. *)
Lemma add_string_old o e : 0 <= o -> string_end p o = Some e -> string_end p' o = Some e /\ string_at p' o = string_at p o.
Proof.
  intros Ho He. pose proof He as Hend. unfold string_end in He. destruct (Z.leb_spec (pl_bytes p) o) as [|Hlt]; [done|].
  apply first_idx_Some in He as (Hr & Hz & Hb). destruct (add_string_fields env i s p) as (_ & _ & _ & _ & Eb & Es).
  assert (He' : string_end p' o = Some e).
  { unfold string_end. rewrite Eb, (proj2 (Z.leb_gt _ o)) by lia. apply first_idx_Some. split_and!; [lia|lia| |].
    - rewrite add_string_byte by lia. by rewrite (proj2 (Z.leb_gt _ e)) by lia.
    - intros j Hj. rewrite add_string_byte by lia. rewrite (proj2 (Z.leb_gt _ j)) by lia. by apply Hb. }
  split; [done|]. unfold string_at. rewrite Hend, He', Es. pose proof (po_strings _ Hp). unfold ATM_NATIVE_EXEC_STR_BYTES in *.
  rewrite drop_app_le by (rewrite length_take; lia). rewrite take_app_le by (rewrite length_drop, length_take; lia).
  rewrite skipn_firstn_comm, take_take. f_equal. lia.
Qed.

(** And the new one. *)
Lemma add_string_new : string_end p' (pl_bytes p) = Some (pl_bytes p + zlen s) /\ string_at p' (pl_bytes p) = s.
Proof.
  pose proof (po_bytes _ Hp). pose proof (po_strings _ Hp). destruct (add_string_fields env i s p) as (_ & _ & _ & _ & Eb & Es).
  assert (He : string_end p' (pl_bytes p) = Some (pl_bytes p + zlen s)).
  { unfold string_end. rewrite Eb, (proj2 (Z.leb_gt _ (pl_bytes p))) by lia. apply first_idx_Some. split_and!; [lia|lia| |].
    - rewrite add_string_byte by lia. rewrite (proj2 (Z.leb_le _ _)), (proj2 (Z.ltb_lt _ _)) by lia. cbn [andb].
      replace (pl_bytes p + zlen s - pl_bytes p) with (zlen s) by lia. by rewrite aget_of_nat, lookup_app_r, Nat.sub_diag by lia.
    - intros j Hj. rewrite add_string_byte by lia. rewrite (proj2 (Z.leb_le _ _)), (proj2 (Z.ltb_lt _ _)) by lia. cbn [andb].
      apply bool_decide_eq_false. intros Hn. replace (j - pl_bytes p) with (Z.of_nat (Z.to_nat (j - pl_bytes p))) in Hn by lia.
      rewrite aget_of_nat, lookup_app_l in Hn by lia. apply list_elem_of_lookup_2 in Hn. done. }
  split; [done|]. unfold string_at. rewrite He, Es. replace (pl_bytes p + zlen s - pl_bytes p) with (zlen s) by lia. rewrite Nat2Z.id.
  unfold ATM_NATIVE_EXEC_STR_BYTES in *. rewrite drop_app_length' by (rewrite length_take; lia). rewrite <- app_assoc. by rewrite take_app_length.
Qed.
End Adding.

(** ** Payloads whose vectors are in order *)

Definition in_use (env : bool) (p : payload) : list Z := take (Z.to_nat (count env p)) (offsets env p).

Record well (p : payload) : Prop := {
  we_ok : payload_ok p;
  we_count env : 0 <= count env p <= 16;
  we_end env o : o ∈ in_use env p -> 0 <= o /\ is_Some (string_end p o) }.

Lemma offsets_length env p : payload_ok p -> zlen (offsets env p) = 16.
Proof. intros []. by destruct env. Qed.

Lemma collected_length env p : well p -> zlen (collected env p) = count env p.
Proof.
  intros [Hok Hc _]. unfold collected. rewrite length_fmap, length_take. pose proof (offsets_length env p Hok). pose proof (Hc env). lia.
Qed.

Lemma well_zero : well payload_zero.
Proof.
  split; [split; try done; by apply Forall_replicate| |].
  - intros []; cbn; lia.
  - intros [] o Ho; cbn in Ho; by apply not_elem_of_nil in Ho.
Qed.

Lemma add_string_well env s p : well p -> count env p < 16 -> pl_bytes p + zlen s + 1 <= ATM_NATIVE_EXEC_STR_BYTES -> nul ∉ s ->
  let p' := add_string env (count env p) s p in
  well p' /\ collected env p' = collected env p ++ [s] /\ collected (negb env) p' = collected (negb env) p.
Proof.
  intros [Hok Hc He] Hlt Hfit Hs p'. pose proof (Hc env) as Hce. set (i := count env p) in *.
  destruct (add_string_fields env i s p) as (F1 & F2 & F3 & F4 & _ & _). fold p' in F1, F2, F3, F4.
  pose proof (add_string_new env i s p Hok Hfit Hs) as [Hne Hns]. fold p' in Hne, Hns.
  assert (Hold : forall b o, o ∈ in_use b p -> 0 <= o /\ is_Some (string_end p' o) /\ string_at p' o = string_at p o).
  { intros b o Ho. destruct (He b o Ho) as [H0 [e Hend]]. destruct (add_string_old env i s p Hok Hfit o e H0 Hend) as [E1 E2].
    split_and!; [done|by exists e|done]. }
  assert (Eu : in_use env p' = in_use env p ++ [pl_bytes p]).
  { unfold in_use. rewrite F1, F2. pose proof (offsets_length env p Hok). pose proof (po_bytes _ Hok).
    assert (u16 (pl_bytes p) = pl_bytes p) as -> by (unfold u16, ATM_NATIVE_EXEC_STR_BYTES in *; apply Z.mod_small; lia).
    unfold aset. rewrite (proj2 (Z.ltb_ge i 0)) by lia. replace (Z.to_nat (i + 1)) with (S (Z.to_nat i)) by lia.
    rewrite (take_S_r _ _ (pl_bytes p)) by (apply list_lookup_insert_eq; lia). by rewrite take_insert_ge. }
  assert (Eo : in_use (negb env) p' = in_use (negb env) p) by (unfold in_use; by rewrite F3, F4).
  assert (Em : forall b, string_at p' <$> in_use b p = string_at p <$> in_use b p).
  { intros b. apply list_fmap_ext. intros j o Hj. by apply (Hold b), (list_elem_of_lookup_2 _ j). }
  split_and!.
  - split; [apply add_string_ok; done || lia| |].
    + intros b. destruct (decide (b = env)) as [->|Hb]; [rewrite F2; lia|]. assert (b = negb env) as -> by (by destruct b, env). rewrite F4. apply Hc.
    + intros b o Ho. destruct (decide (b = env)) as [->|Hb].
      * rewrite Eu in Ho. apply elem_of_app in Ho as [Ho|Ho%list_elem_of_singleton]; [by destruct (Hold env o Ho) as (? & ? & _)|].
        subst o. pose proof (po_bytes _ Hok). split; [done|by eexists].
      * assert (b = negb env) as -> by (by destruct b, env). rewrite Eo in Ho. by destruct (Hold _ o Ho) as (? & ? & _).
  - unfold collected. fold (in_use env p') (in_use env p). rewrite Eu, fmap_app, Em. cbn [fmap list_fmap]. by rewrite Hns.
  - unfold collected. fold (in_use (negb env) p') (in_use (negb env) p). by rewrite Eo, Em.
Qed.

(** ** From user memory *)

Section Collect.
Context {H N : Type} `{!Allocator H} `{!PageLaws H} `{!Tcp N}.
Implicit Types (k : kernel H N) (us : user_space).

Lemma heapless_strnlen s va : forall left n, heapless (strnlen_loop (H := H) left s va n).
Proof.
  induction left as [|left IH]; intros n; cbn [strnlen_loop]; [done|]. apply heapless_bind; [apply heapless_from|].
  intros [r c]. destruct (r <? 0); [done|]. destruct (bool_decide _); [done|apply IH].
Qed.

Lemma user_string_heap (m : kmem H) h us va s : user_string m us va s <-> user_string (with_heap m h) us va s.
Proof. split; intros []; by split. Qed.

Lemma user_string_window (m : kmem H) us va s : user_string m us va s -> ATM_USER_BASE <= va < ATM_USER_TOP.
Proof.
  intros [Hb He _]. destruct s as [|c s].
  - apply user_byte_window in He. cbn [length] in He. lia.
  - specialize (Hb 0%nat ltac:(simpl; lia)). rewrite Z.add_0_r in Hb. by apply user_byte_window in Hb.
Qed.
Lemma user_word_byte (m : kmem H) us va w i : user_word m us va = Some w -> 0 <= i < 8 -> is_Some (user_byte m us (va + i)).
Proof.
  unfold user_word. destruct (mapM _ _) as [bs|] eqn:E; [|done]. intros _ Hi. apply mapM_Some in E.
  apply (Forall2_lookup_l _ _ _ (Z.to_nat i) i) in E as (b & _ & Hb); [by exists b|]. apply lookup_seqZ. lia.
Qed.
Lemma user_word_range (m : kmem H) us va w : user_word m us va = Some w -> ATM_USER_BASE <= va < ATM_USER_TOP /\ 0 <= w < 2 ^ 64.
Proof.
  intros Hw. split.
  - destruct (user_word_byte _ _ _ _ 0 Hw ltac:(lia)) as [b Hb]. rewrite Z.add_0_r in Hb. by apply user_byte_window in Hb.
  - unfold user_word in Hw. destruct (mapM _ _) as [bs|] eqn:E; [|done]. injection Hw as <-. apply length_mapM in E.
    pose proof (le_range bs). rewrite <- E in *. done.
Qed.

Lemma readable_bytes k us va n : (forall i, 0 <= i < n -> is_Some (user_byte (k_pages k) us (va + i))) -> readable k us va n.
Proof.
  intros Hb i Hi. destruct (proj2 (user_byte_accessible (k_pages k) us (va + i)) (Hb i Hi) 0 ltac:(lia)) as (p & e & E & ?).
  rewrite Z.add_0_r in E. by exists p, e.
Qed.

Lemma fetch_word k us va w : user_ok k us -> user_word (k_pages k) us va = Some w ->
  wp (fetch (Some us) va 8) k (fun o k' => k' = k /\ exists bs, o = Some bs /\ le bs = w).
Proof.
  intros Hu Hw. destruct (user_word_range _ _ _ _ Hw) as [Hr _]. unfold ATM_USER_TOP, ATM_USER_BASE, ATM_USER_WINDOW_SIZE in Hr.
  eapply wp_mono; [apply fetch_spec; [done|lia|lia]|]. intros [bs|] k' [-> Ho]; (split; [done|]).
  - destruct Ho as [Hl Hrd%reads_mapM]. rewrite Hl in Hrd. exists bs. split; [done|]. unfold user_word in Hw. rewrite Hrd in Hw. by injection Hw.
  - destruct Ho. apply readable_bytes. intros i Hi. by eapply user_word_byte.
Qed.

Lemma fetch_string k us va s : user_ok k us -> user_string (k_pages k) us va s ->
  wp (fetch (Some us) va (zlen s + 1)) k (fun o k' => k' = k /\ o = Some (s ++ [nul])).
Proof.
  intros Hu Hs. pose proof (user_string_window _ _ _ _ Hs) as Hr. unfold ATM_USER_TOP, ATM_USER_BASE, ATM_USER_WINDOW_SIZE in Hr.
  assert (Hall : reads (k_pages k) us va (s ++ [nul])).
  { apply reads_app; [apply Hs|]. intros i Hi. simpl in Hi. replace i with 0%nat by lia. rewrite Z.add_0_r. apply Hs. }
  eapply wp_mono; [apply fetch_spec; [done|lia|lia]|]. intros [bs|] k' [-> Ho]; (split; [done|]).
  - destruct Ho as [Hl Hb]. f_equal. eapply reads_unique; [|exact Hb|exact Hall]. rewrite length_app. cbn [length]. lia.
  - destruct Ho. apply readable_bytes. intros i Hi. replace i with (Z.of_nat (Z.to_nat i)) by lia. rewrite Hall by (rewrite length_app; simpl; lia).
    apply lookup_lt_is_Some. rewrite length_app. simpl. lia.
Qed.

Lemma strnlen_spec k us va s max : user_ok k us -> user_string (k_pages k) us va s -> zlen s < max ->
  wp (on_pages (strnlen_user (Some us) va max)) k (fun o k' => k' = k /\ o = Some (zlen s)).
Proof.
  intros (P & h & Hok & _) Hs Hlt. pose proof (user_string_window _ _ _ _ Hs) as Hr. unfold ATM_USER_TOP, ATM_USER_BASE, ATM_USER_WINDOW_SIZE in Hr.
  unfold strnlen_user. rewrite (proj2 (Z.eqb_neq va 0)), (proj2 (Z.eqb_neq max 0)) by lia. cbn [orb].
  apply (wp_heapless _ _ h); [apply heapless_strnlen|]. rewrite (user_string_heap _ h) in Hs.
  eapply wp_mono; [apply (strnlen_loop_spec P _ us va Hok ltac:(lia) (Z.to_nat max) []); [intros i Hi; simpl in Hi; lia|set_solver]|].
  intros o m [-> Ho]. rewrite set_pages_same. split; [done|]. destruct o as [n|].
  - destruct Ho as (t & Ht & <- & _). by rewrite (user_string_unique _ _ _ _ _ Ht Hs).
  - specialize (Ho s Hs). cbn [length] in Ho. lia.
Qed.

(** The bytes a list of strings takes. *)
Definition strings_bytes (l : list cstr) : Z := foldr (fun s n => zlen s + 1 + n) 0 l.

Lemma strings_bytes_pos l : 0 <= strings_bytes l.
Proof. induction l as [|s l IH]; [done|]. change (0 <= zlen s + 1 + strings_bytes l). lia. Qed.

Lemma exec_copy_spec env k us uv strings : user_ok k us -> vector_at (k_pages k) us uv strings -> forall n rest p,
  well p -> strings = collected env p ++ rest -> zlen rest <= Z.of_nat n -> count env p + Z.of_nat n = 16 ->
  pl_bytes p + strings_bytes rest <= ATM_NATIVE_EXEC_STR_BYTES ->
  wp (exec_copy_vector (Some us) uv n (count env p) (set_vec env) p) k (fun x k' => k' = k /\ fst x = 0 /\ well (snd x) /\
    collected env (snd x) = strings /\ collected (negb env) (snd x) = collected (negb env) p /\ pl_bytes (snd x) = pl_bytes p + strings_bytes rest).
Proof.
  intros Hu Hv. induction n as [|n IH]; intros rest p Hp Est Hlen Hn Hb; pose proof (collected_length env p Hp) as Ec.
  all: assert (Hword : forall w, user_word (k_pages k) us (uv + 8 * count env p) = Some w ->
    wp (fetch (Some us) (u64 (uv + count env p * 8)) 8) k (fun o k' => k' = k /\ exists bs, o = Some bs /\ le bs = w))
    by (intros w Hw; destruct (user_word_range _ _ _ _ Hw) as [Hr _]; unfold ATM_USER_TOP, ATM_USER_BASE, ATM_USER_WINDOW_SIZE in Hr;
        rewrite u64_small by lia; apply fetch_word; [done|by replace (uv + count env p * 8) with (uv + 8 * count env p) by lia]).
  all: destruct rest as [|s rest].
  1, 3: rewrite app_nil_r in Est; pose proof (va_end _ _ _ _ Hv) as Hend; rewrite Est, Ec in Hend; cbn [exec_copy_vector]; wp_step;
    (eapply wp_mono; [by apply Hword|]); intros o k' (-> & bs & -> & ->); cbv beta iota; change (0 =? 0) with true; cbv beta iota; wp_step;
    cbn [fst snd strings_bytes foldr]; (split_and!; [done|done|done|done|done|lia]).
  { cbn [length] in Hlen. lia. }
  cbn [length] in Hlen. cbn [strings_bytes foldr] in Hb. fold (strings_bytes rest) in Hb. pose proof (strings_bytes_pos rest).
  destruct (va_string _ _ _ _ Hv (length (collected env p)) s) as (a & Ha & Hs).
  { rewrite Est, lookup_app_r, Nat.sub_diag by lia. done. }
  rewrite Ec in Ha. destruct (user_word_range _ _ _ _ Ha) as [_ Har]. pose proof (user_string_window _ _ _ _ Hs) as Hwin. unfold ATM_USER_BASE in Hwin.
  unfold exec_copy_vector; fold (exec_copy_vector (H := H) (N := N)). wp_step. eapply wp_mono; [by apply Hword|]. intros o k' (-> & bs & -> & ->). cbv beta iota.
  rewrite (proj2 (Z.eqb_neq a 0)) by lia. cbv beta iota. rewrite (proj2 (Z.leb_gt _ _)) by lia. wp_step.
  eapply wp_mono; [apply strnlen_spec; [done|exact Hs|lia]|]. intros o k' [-> ->]. cbv beta iota. wp_step.
  eapply wp_mono; [by apply fetch_string|]. intros o k' [-> ->]. cbv beta iota zeta.
  change ((set_vec env (count env p) (pl_bytes p) p) <| pl_strings := take (Z.to_nat (pl_bytes p)) (pl_strings p) ++ (s ++ [nul]) ++
    drop (Z.to_nat (pl_bytes p) + length (s ++ [nul])) (pl_strings p) |> <| pl_bytes := pl_bytes p + zlen s + 1 |>) with (add_string env (count env p) s p).
  destruct (add_string_well env s p Hp ltac:(lia) ltac:(lia) (ustr_no_nul _ _ _ _ Hs)) as (Hw' & Ec' & Eo').
  destruct (add_string_fields env (count env p) s p) as (_ & Fc & _ & _ & Fb & _). set (p' := add_string env (count env p) s p) in *. rewrite <- Fc.
  eapply wp_mono; [apply (IH rest p' Hw'); [by rewrite Ec', <- app_assoc|lia|lia|lia]|].
  intros x k' (-> & E0 & Hwx & Ex & Eox & Ebx). split_and!; [done|done|done|done|congruence|]. cbn [strings_bytes foldr]. fold (strings_bytes rest). lia.
Qed.

(** A vector of the calling program; NULL is the empty one. *)
Definition user_vector k us (va : Z) (l : list cstr) : Prop := (va = 0 /\ l = []) \/ (va <> 0 /\ vector_at (k_pages k) us va l).

Lemma copy_vector_spec env k us uv l p : user_ok k us -> user_vector k us uv l -> well p -> count env p = 0 -> zlen l <= 16 ->
  pl_bytes p + strings_bytes l <= ATM_NATIVE_EXEC_STR_BYTES ->
  wp (sys_exec_copy_vector (Some us) uv 16 (set_vec env) p) k (fun x k' => k' = k /\ fst x = 0 /\ well (snd x) /\
    collected env (snd x) = l /\ collected (negb env) (snd x) = collected (negb env) p /\ pl_bytes (snd x) = pl_bytes p + strings_bytes l).
Proof.
  intros Hu Hv Hp Hc Hl Hb. assert (E : collected env p = []) by (unfold collected; by rewrite Hc). unfold sys_exec_copy_vector.
  destruct Hv as [[-> ->]|[Hne Hv]].
  - change (0 =? 0) with true. cbv beta iota. wp_step. cbn [fst snd strings_bytes foldr]. split_and!; [done..|lia].
  - rewrite (proj2 (Z.eqb_neq uv 0)) by done. pose proof (exec_copy_spec env k us uv l Hu Hv 16 l p Hp) as Hs. rewrite Hc, E in Hs. by apply Hs.
Qed.

(** The arguments a program gets: its path when it is given none. *)
Definition exec_args (path : cstr) (args : list cstr) : list cstr := match args with [] => [path] | _ => args end.

Lemma default_arg_spec path p : well p -> pl_bytes p = strings_bytes (payload_args p) ->
  strings_bytes (exec_args path (payload_args p)) <= ATM_NATIVE_EXEC_STR_BYTES -> nul ∉ path ->
  exists p', default_arg path p = Some p' /\ well p' /\ payload_args p' = exec_args path (payload_args p) /\ payload_env p' = payload_env p /\
    pl_bytes p' = strings_bytes (payload_args p').
Proof.
  intros Hp Hb Hfit Hn. pose proof (collected_length false p Hp) as Hc. unfold default_arg. change (collected false p) with (payload_args p) in Hc. cbn [count] in Hc.
  destruct (payload_args p) as [|a l] eqn:Ea; cbn [exec_args length] in *.
  - rewrite <- Hc. change (negb (Z.of_nat 0 =? 0)) with false. cbv beta iota. cbn [strings_bytes foldr] in *.
    rewrite (proj2 (Z.ltb_ge _ _)) by lia. change (pl_bytes p = 0) in Hb.
    destruct (add_string_well false path p Hp ltac:(cbn [count]; lia) ltac:(lia) Hn) as (Hw & E1 & E2).
    destruct (add_string_fields false (count false p) path p) as (_ & _ & _ & _ & Fb & _).
    change (collected false p) with (payload_args p) in E1. rewrite Ea in E1. cbn [app] in E1.
    assert (Ep : add_string false (count false p) path p = p <| pl_argc := 1 |> <| pl_argv := aset (pl_argv p) 0 0 |> <| pl_bytes := zlen path + 1 |>
               <| pl_strings := path ++ [nul] ++ drop (length path + 1) (pl_strings p) |>).
    { unfold add_string, set_vec, set_arg. cbn [count]. rewrite Hb, <- Hc. change (Z.to_nat 0) with 0%nat. change (take 0 (pl_strings p)) with (@nil byte). cbn [app Nat.add].
      rewrite length_app, <- app_assoc. cbn [length]. by destruct p. }
    rewrite <- Ep. eexists. split_and!; [done|done|exact E1|exact E2|]. change (payload_args ?x) with (collected false x). rewrite Fb, E1, Hb. cbn. lia.
  - rewrite <- Hc, (proj2 (Z.eqb_neq _ 0)) by lia. cbn [negb]. exists p. by rewrite Ea.
Qed.

Lemma strings_bytes_nonempty l : l <> [] -> 0 < strings_bytes l.
Proof. destruct l as [|s l]; [done|]. intros _. change (0 < zlen s + 1 + strings_bytes l). pose proof (strings_bytes_pos l). lia. Qed.

Lemma well_valid p : well p -> payload_args p <> [] -> 0 < pl_bytes p <= ATM_NATIVE_EXEC_STR_BYTES -> native_exec_payload_valid p = true.
Proof.
  intros Hp Hne Hb. pose proof (collected_length false p Hp) as Hc. change (collected false p) with (payload_args p) in Hc. cbn [count] in Hc.
  pose proof (we_count p Hp false) as C1. pose proof (we_count p Hp true) as C2. cbn [count] in C1, C2.
  assert (pl_argc p <> 0) by (destruct (payload_args p); [done|cbn [length] in Hc; lia]). unfold native_exec_payload_valid.
  assert (Hf : forall env, forallb (string_ends p) (in_use env p) = true).
  { intros env. apply forallb_forall. intros o Ho%list_elem_of_In. apply bool_decide_eq_true. by apply (we_end p Hp env). }
  pose proof (Hf false) as F1. pose proof (Hf true) as F2. unfold in_use in F1, F2. cbn [count offsets] in F1, F2.
  unfold ATM_NATIVE_EXEC_MAX_ARGS, ATM_NATIVE_EXEC_MAX_ENV. rewrite F1, F2, !andb_true_iff, !negb_true_iff, !Z.eqb_neq, !Z.leb_le. lia.
Qed.

Lemma exec_payload_spec k us path uargv uenvp args env : user_ok k us -> user_vector k us uargv args -> user_vector k us uenvp env ->
  zlen args <= 16 -> zlen env <= 16 -> nul ∉ path -> strings_bytes (exec_args path args) + strings_bytes env <= ATM_NATIVE_EXEC_STR_BYTES ->
  wp (exec_payload (Some us) path uargv uenvp) k (fun x k' => k' = k /\ fst x = 0 /\ payload_ok (snd x) /\ native_exec_payload_valid (snd x) = true /\
    payload_args (snd x) = exec_args path args /\ payload_env (snd x) = env).
Proof.
  intros Hu Hva Hve Hla Hle Hpath Hfit. pose proof (strings_bytes_pos env).
  assert (Hargs : strings_bytes args <= strings_bytes (exec_args path args)) by (destruct args; [apply strings_bytes_pos|done]).
  unfold exec_payload. wp_step. eapply wp_mono; [apply (copy_vector_spec false k us uargv args payload_zero Hu Hva well_zero); [done|done|cbn; lia]|].
  intros [rc p] k' (-> & E0 & Hp & Ea & Ee & Eb). cbn [fst snd negb] in *. subst rc. change (0 <? 0) with false. cbv beta iota.
  change (collected false p) with (payload_args p) in Ea. change (collected true p) with (payload_env p) in Ee.
  destruct (default_arg_spec path p Hp) as (p1 & -> & Hp1 & Ea1 & Ee1 & Eb1); [rewrite Ea; cbn in Eb; lia|rewrite Ea; lia|done|].
  assert (Ec : count true p1 = 0).
  { rewrite <- (collected_length true p1 Hp1). change (collected true p1) with (payload_env p1). by rewrite Ee1, Ee. }
  rewrite Ea in Ea1. eapply wp_mono; [apply (copy_vector_spec true k us uenvp env p1 Hu Hve Hp1 Ec Hle); rewrite Eb1, Ea1; lia|].
  intros [rc p2] k' (-> & E0 & Hp2 & Ee2 & Ea2 & Eb2). cbn [fst snd negb] in *.
  change (collected true p2) with (payload_env p2) in Ee2. change (collected false ?x) with (payload_args x) in Ea2.
  assert (Hpos : 0 < strings_bytes (exec_args path args)) by (apply strings_bytes_nonempty; by destruct args).
  split_and!; [done|done|apply Hp2| |congruence|done]. apply well_valid; [done| |rewrite Eb2, Eb1, Ea1; lia].
  rewrite Ea2, Ea1. by destruct args.
Qed.
End Collect.
