(* ===== verification/SysProps.v ===== *)
(** * Properties of the system calls

    Refused buffers, reading, the break, the arguments of exec, sleeping and the table of calls. *)

From S2P Require Import Prelude Cstring Kmalloc KmallocInv HeapAlloc Sched Pipe Alloc Vfs VfsSynth VfsPath VfsApi Paging PagingInv PagingCopy PagingHeap PagingOps PagingProps Elf ElfProps Kernel Posix PosixProps Socket NativeFd Process ProcInv ProcProps NativeApp Tcp Time Tzif Clock Syscall SysPath Dispatch SysInv SchedProps.

(** ** The dispatcher *)

Record regs_ok (r : registers) : Prop := {
  rg_rdi : 0 <= rdi r < 2 ^ 64; rg_rsi : 0 <= rsi r < 2 ^ 64; rg_rdx : 0 <= rdx r < 2 ^ 64;
  rg_r10 : 0 <= r10 r < 2 ^ 64; rg_r8 : 0 <= r8 r < 2 ^ 64 }.

Section Frames.
Context {H N : Type} `{!Allocator H} `{!Tcp N}.

Lemma pages_on_ps {A} (m : M pstate A) : keeps (@k_pages H N) (on_ps m).
Proof. intros k a k' (t & _ & ->)%zoom_inv. done. Qed.
Lemma pages_on_tasks {A} (m : M sched A) : keeps (@k_pages H N) (on_tasks m).
Proof. apply pages_on_ps. Qed.
Lemma pages_on_vfs {A} (m : M (vfs H) A) : keeps (@k_pages H N) (on_vfs m).
Proof. intros k a k' (t & _ & ->)%zoom_inv. done. Qed.
Lemma pages_on_kheap {A} (m : M H A) : keeps (@k_pages H N) (on_kheap m).
Proof. apply pages_on_vfs. Qed.
Lemma pages_on_net {A} (m : M N A) : keeps (@k_pages H N) (on_net m).
Proof. intros k a k' (t & _ & ->)%zoom_inv. done. Qed.
#[local] Hint Resolve pages_on_ps pages_on_tasks pages_on_vfs pages_on_kheap pages_on_net : keepsdb.

Lemma pages_fd_read task fd ok n : keeps (@k_pages H N) (native_fd_read task fd ok n).
Proof.
  unfold native_fd_read, pipe_nonblock, fd_flags_at, ktask, native_socket_recv, atm_posix_read, count_read, upd_task. keeps_tac.
Qed.
End Frames.

Section Calls.
Context {H N : Type} `{!Allocator H} `{!PageLaws H} `{!Tcp N}.
Implicit Types (s : machine H N) (us : user_space) (k : kernel H N).

(** The address space of the calling program. *)
Definition caller s us : Prop := sys_user_space (y_k s) = Done (Some us, y_k s).

Lemma caller_task k us : sys_user_space k = Done (Some us, k) -> exists t x, current k = Some t /\ ktask t k = Done (x, k).
Proof.
  unfold sys_user_space. rewrite bind_gets. destruct (current k) as [t|]; [|done]. intros (x & k1 & E & E2)%bind_inv.
  exists t, x. split; [done|]. assert (k1 = k) as ->; [|done]. unfold ktask, on_tasks, on_ps, on_sched in E.
  clear E2. apply zoom_inv in E as (p & E & ->). apply zoom_inv in E as (z & E & ->). unfold get_task, deref in E. case_match; [|done]. injection E as _ <-.
  by destruct k as [[]].
Qed.

Lemma dispatch_known am r s us c : caller s us -> syscall_of (rax r) = Some c ->
  atm_syscall_dispatch am r s = run_syscall am (Some us) (current (y_k s)) c r s.
Proof.
  intros Hc Hs. unfold atm_syscall_dispatch, on_k. unfold bind at 1. unfold zoom. rewrite Hc. rewrite bind_gets, Hs.
  by destruct s.
Qed.

Lemma on_k_same {A} (m : M (kernel H N) A) s a : m (y_k s) = Done (a, y_k s) -> on_k m s = Done (a, s).
Proof. intros E. unfold on_k, zoom. rewrite E. by destruct s. Qed.

(** The buffer a call is going to fill, checked before it does anything; NULL where the call allows it is none. *)
Definition out_buffer (c : syscall) (r : registers) : option (Z * Z) :=
  let optional p n := if p =? 0 then None else Some (p, n) in
  match c with
  | SYS_READ | SYS_PREAD64 | SYS_RECV => Some (rsi r, rdx r)
  | SYS_PIPE | SYS_PIPE2 => Some (rdi r, 8)
  | SYS_READDIR => Some (rsi r, sizeof_dirent)
  | SYS_POLL => Some (rdi r, rsi r * 8)
  | SYS_GETRLIMIT => Some (rsi r, 16)
  | SYS_GETRUSAGE => Some (rsi r, 144)
  | SYS_TIMES => optional (rdi r) 32
  | SYS_ACCEPT => optional (rsi r) sizeof_sockaddr
  | SYS_WAITPID => optional (rsi r) 4
  | _ => None
  end.

Definition refused (e : Z) : Prop := e = ATM_EFAULT \/ e = ATM_EINVAL.
Definition refuses {A} (m : M (kernel H N) A) (mk : Z -> A) k : Prop := exists e, m k = Done (mk (- e), k) /\ refused e.

Lemma refuses_val m s : refuses m id (y_k s) -> exists e, val m s = Done (Answer (- e), s) /\ refused e.
Proof. intros (e & E & He). exists e. split; [|done]. unfold val. by rewrite (bind_Done _ _ _ _ _ (on_k_same _ _ _ E)). Qed.
Lemma refuses_ans m s : refuses m Answer (y_k s) -> exists e, ans m s = Done (Answer (- e), s) /\ refused e.
Proof. intros (e & E & He). exists e. split; [|done]. by apply on_k_same. Qed.

Lemma refuses_bind {A B} (m : M (kernel H N) A) (f : A -> M (kernel H N) B) mk k a : m k = Done (a, k) -> refuses (f a) mk k -> refuses (bind m f) mk k.
Proof. intros E (e & E' & He). exists e. split; [|done]. by rewrite (bind_Done _ _ _ _ _ E). Qed.

(** A run in which the guards come first and the check of the buffer fails. *)
Ltac refuse Hno :=
  repeat first
    [ by exists ATM_EFAULT; split; [reflexivity|left]
    | by exists ATM_EINVAL; split; [reflexivity|right]
    | apply (refuses_bind _ _ _ _ false Hno); cbv beta; cbn [negb]
    | match goal with |- refuses (if ?b then _ else _) _ _ => let E := fresh "E" in destruct b eqn:E end ].

Section Refusals.
Variables (k : kernel H N) (us : user_space) (p n : Z).
Hypotheses (Hu : user_ok k us) (Hp : 0 <= p < 2 ^ 64) (Hn : 0 <= n) (Hw : ~ writable k us p n).

Lemma refused_range : range_ok (Some us) p n true k = Done (false, k).
Proof. by apply range_ok_false. Qed.
Lemma refused_size : (n =? 0) = false.
Proof. apply Z.eqb_neq. intros ->. apply Hw. intros i Hi. lia. Qed.

Lemma refuse_read task fd : refuses (sys_read_user (Some us) task fd p n) Answer k.
Proof. unfold sys_read_user. rewrite refused_size. refuse refused_range. Qed.
Lemma refuse_pread task fd off : refuses (sys_pread_user (Some us) task fd p n off) id k.
Proof. unfold sys_pread_user. rewrite refused_size. refuse refused_range. Qed.
Lemma refuse_recv task fd flags : refuses (sys_recv_user (Some us) task fd p n flags) id k.
Proof. unfold sys_recv_user. refuse refused_range. Qed.
End Refusals.

(** The calls whose buffer has a size of its own. *)
Section FixedSize.
Variables (k : kernel H N) (us : user_space) (p : Z).
Hypotheses (Hu : user_ok k us) (Hp : 0 <= p < 2 ^ 64).

Lemma refuse_pipe task flags : ~ writable k us p 8 -> refuses (sys_pipe_user (Some us) task p flags) id k.
Proof. intros Hw. unfold sys_pipe_user. refuse (refused_range k us p 8 Hu Hp ltac:(lia) Hw). Qed.
Lemma refuse_rlimit res : ~ writable k us p 16 -> refuses (sys_getrlimit_user (Some us) res p) id k.
Proof. intros Hw. unfold sys_getrlimit_user. refuse (refused_range k us p 16 Hu Hp ltac:(lia) Hw). Qed.
Lemma refuse_rusage task who : ~ writable k us p 144 -> refuses (sys_getrusage_user (Some us) task who p) id k.
Proof. intros Hw. unfold sys_getrusage_user. destruct task; refuse (refused_range k us p 144 Hu Hp ltac:(lia) Hw). Qed.
Lemma refuse_waitpid pid options : p <> 0 -> ~ writable k us p 4 -> refuses (sys_waitpid_user (Some us) pid p options) Answer k.
Proof.
  intros Hne Hw. unfold sys_waitpid_user. rewrite (proj2 (Z.eqb_neq p 0)) by done. cbn [no_space].
  refuse (refused_range k us p 4 Hu Hp ltac:(lia) Hw).
Qed.
Lemma refuse_accept task fd len : p <> 0 -> ~ writable k us p sizeof_sockaddr -> refuses (sys_accept_user (Some us) task fd p len) id k.
Proof.
  intros Hne Hw. unfold sys_accept_user. rewrite (proj2 (Z.eqb_neq p 0)) by done.
  refuse (refused_range k us p sizeof_sockaddr Hu Hp ltac:(unfold sizeof_sockaddr; lia) Hw).
Qed.
Lemma refuse_times t x : p <> 0 -> ktask t k = Done (x, k) -> ~ writable k us p 32 -> refuses (sys_times_user (Some us) (Some t) p) id k.
Proof.
  intros Hne Ht Hw. unfold sys_times_user. cbn [no_space]. apply (refuses_bind _ _ _ _ x Ht). eapply refuses_bind; [done|].
  rewrite (proj2 (Z.eqb_neq p 0)) by done. refuse (refused_range k us p 32 Hu Hp ltac:(lia) Hw).
Qed.
Lemma refuse_poll task n timeout : 0 <= n -> ~ writable k us p (n * 8) -> refuses (sys_poll_user (Some us) task p n timeout) Answer k.
Proof.
  intros Hn Hw. unfold sys_poll_user. rewrite (proj2 (Z.eqb_neq n 0)).
  - refuse (refused_range k us p (n * 8) Hu Hp ltac:(lia) Hw).
  - intros ->. apply Hw. intros i Hi. lia.
Qed.
End FixedSize.

Lemma refuse_readdir s us task h p : user_ok (y_k s) us -> 0 <= p < 2 ^ 64 -> ~ writable (y_k s) us p sizeof_dirent ->
  exists e, readdir_call (Some us) task h p s = Done (Answer (- e), s) /\ refused e.
Proof.
  intros Hu Hp Hw. exists ATM_EFAULT. split; [|by left]. unfold readdir_call. rewrite bind_gets.
  assert (E : sys_readdir_user (Some us) task h p (y_dirent s) (y_k s) = Done (- ATM_EFAULT, y_dirent s, y_k s)).
  { unfold sys_readdir_user. destruct (_ || _); [done|].
    by rewrite (bind_Done _ _ _ _ _ (refused_range (y_k s) us p sizeof_dirent Hu Hp ltac:(unfold sizeof_dirent; lia) Hw)). }
  rewrite (bind_Done _ _ _ _ _ (on_k_same _ _ _ E)). by destruct s.
Qed.

Lemma efault_spec am r s us c p n : regs_ok r -> caller s us -> user_ok (y_k s) us -> out_buffer c r = Some (p, n) ->
  ~ writable (y_k s) us p n ->
  exists e, run_syscall am (Some us) (current (y_k s)) c r s = Done (Answer (- e), s) /\ refused e.
Proof.
  intros [Hdi Hsi Hdx _ _] Hc Hu Ho Hw. destruct (caller_task _ _ Hc) as (t & x & -> & Hx).
  destruct c; cbn [out_buffer run_syscall] in *; try discriminate;
    try (match type of Ho with context [?q =? 0] => destruct (Z.eqb_spec q 0); [discriminate|] end);
    apply (inj Some) in Ho; injection Ho as <- <-.
  - apply refuses_ans, refuse_read; done || lia.
  - apply refuses_val, refuse_pread; done || lia.
  - by apply refuses_val, refuse_rusage.
  - by apply refuses_val, (refuse_times (y_k s) us (rdi r) Hu Hdi t x).
  - by apply refuses_val, refuse_rlimit.
  - by apply refuses_val, refuse_pipe.
  - by apply refuses_val, refuse_pipe.
  - by apply refuse_readdir.
  - apply refuses_ans, refuse_poll; done || lia.
  - by apply refuses_val, refuse_accept.
  - apply refuses_val, refuse_recv; done || lia.
  - by apply refuses_ans, refuse_waitpid.
Qed.

(** ** Reading *)

(** The kernel's side of a read returns: the buffer can be had, the descriptor answers, the buffer can be freed. *)
Definition read_returns s (fd count : Z) : Prop :=
  wp (on_kheap (kmalloc count)) (y_k s) (fun tmp k1 => tmp <> 0 ->
    wp (native_fd_read (current (y_k s)) fd true count) k1 (fun res k2 =>
      match res with Returned _ _ => wp (on_kheap (kfree tmp)) k2 (fun _ _ => True) | Blocked => True end)).

(** What the program finds: on a positive answer the bytes the descriptor gave, at the address it
    named and nowhere else; on any other its memory as it was. *)
Definition read_outcome s us (fd ubuf count : Z) (a : answer) s' : Prop :=
  match a with
  | Answer n =>
    if 0 <? n then exists tmp k1 k2 bs, on_kheap (kmalloc count) (y_k s) = Done (tmp, k1) /\
      native_fd_read (current (y_k s)) fd true count k1 = Done (Returned n bs, k2) /\
      k_ps (y_k s') = k_ps k2 /\ stored (k_pages (y_k s)) (k_pages (y_k s')) us ubuf (take (Z.to_nat n) bs)
    else k_pages (y_k s') = k_pages (y_k s)
  | Sleeping (PRead _ fd' ubuf' count') => (fd', ubuf', count') = (fd, ubuf, count) /\ k_pages (y_k s') = k_pages (y_k s)
  | _ => False
  end.

(** Freeing commutes with a change of memory. *)
Lemma kfree_memory k m tmp Q : wp (on_kheap (kfree tmp)) k (fun _ k' => Q tt (set_memory k' m)) -> wp (on_kheap (kfree tmp)) (set_memory k m) Q.
Proof.
  unfold wp, on_kheap, on_vfs, zoom. change (k_vfs (set_memory k m)) with (k_vfs k). destruct (kfree tmp _) as [[[] h]|]; [|done].
  by destruct k as [? ? []].
Qed.

Lemma wp_on_k {A} (m : M (kernel H N) A) s Q : wp m (y_k s) (fun a k => Q a (s <| y_k := k |>)) -> wp (on_k m) s Q.
Proof. apply wp_zoom. Qed.

Lemma wp_heap_frame {A} (m : M H A) k (Q R : A -> kernel H N -> Prop) : wp (on_kheap m) k Q ->
  (forall a k', Q a k' -> k_pages k' = k_pages k -> k_ps k' = k_ps k -> R a k') -> wp (on_kheap m) k R.
Proof.
  intros Hw HR. unfold wp, on_kheap, on_vfs, zoom in *. destruct (m (v_heap (k_vfs k))) as [[a h]|]; [|done]. by apply HR.
Qed.

Lemma wp_eq {S A} (m : M S A) st Q : wp m st Q -> wp m st (fun a st' => Q a st' /\ m st = Done (a, st')).
Proof. unfold wp. by destruct (m st) as [[a st']|]. Qed.

Lemma finish_read_spec k us tmp ubuf n bs : user_ok k us -> 0 <= ubuf < 2 ^ 64 -> wp (on_kheap (kfree tmp)) k (fun _ _ => True) ->
  wp (finish_read (Some us) tmp ubuf n bs) k (fun a k' => k_ps k' = k_ps k /\ exists v, a = Answer v /\
    ((v = n /\ 0 < n /\ stored (k_pages k) (k_pages k') us ubuf (take (Z.to_nat n) bs)) \/ (v <= 0 /\ k_pages k' = k_pages k))).
Proof.
  intros Hu Hp Hf. unfold finish_read. wp_step. destruct (Z.ltb_spec 0 n) as [Hn|Hn].
  - unfold put_result. wp_step. eapply wp_mono; [by apply store_spec|]. intros [] k1; cbv beta match.
    + intros (_ & m & -> & Hs). wp_step. wp_step. apply kfree_memory. eapply wp_heap_frame; [exact Hf|]. intros [] k' _ Ep Es. wp_step.
      split; [exact Es|]. exists n. split; [done|]. left. split_and!; [done|done|].
      change (k_pages (set_memory k' m)) with ((k_pages k') <| km_mem := m |>). rewrite Ep. exact Hs.
    + intros [-> _]. wp_step. wp_step. eapply wp_heap_frame; [exact Hf|]. intros [] k' _ Ep Es. wp_step. split; [done|]. eexists. split; [done|].
      by right.
  - wp_step. wp_step. eapply wp_heap_frame; [exact Hf|]. intros [] k' _ Ep Es. wp_step. split; [done|]. exists n. split; [done|]. by right.
Qed.

Lemma read_spec am r s us : regs_ok r -> caller s us -> user_ok (y_k s) us -> read_returns s (i32 (rdi r)) (rdx r) ->
  wp (run_syscall am (Some us) (current (y_k s)) SYS_READ r) s (read_outcome s us (i32 (rdi r)) (rsi r) (rdx r)).
Proof.
  intros [_ Hsi Hdx _ _] Hc Hu Hr. cbn [run_syscall]. unfold ans. apply wp_on_k. unfold sys_read_user.
  destruct (io_args_bad _ _ _); [by wp_step|]. destruct (Z.eqb_spec (rdx r) 0) as [|Hne]; [by wp_step|]. wp_step.
  eapply wp_mono; [apply range_ok_spec; done || lia|]. intros b k [-> _]. destruct b; cbn [negb]; [|by wp_step].
  wp_step. eapply wp_mono; [apply wp_eq, (wp_heap_frame _ _ _ _ Hr (fun _ _ HQ Hp Hs => conj HQ (conj Hp Hs)))|].
  cbv beta. intros tmp k1 ((Hrd & Ep & Es) & E1). destruct (Z.eqb_spec tmp 0) as [|Hn]; [by wp_step|]. unfold read_pass. wp_step.
  eapply wp_mono; [apply wp_eq, (wp_keeps _ _ _ _ (pages_fd_read _ _ _ _) (Hrd Hn))|]. cbv beta. intros [n bs|] k2 ((Hf & Ep2) & E2).
  - eapply wp_mono; [apply finish_read_spec; [eapply user_ok_pages; [|exact Hu]; congruence|done|exact Hf]|].
    intros a k3 (Es3 & v & -> & [(-> & Hpos & Hst)|[Hneg Ep3]]); unfold read_outcome; cbn [y_k].
    + rewrite (proj2 (Z.ltb_lt 0 n)) by done. exists tmp, k1, k2, bs. split_and!; [done|done|exact Es3|]. by rewrite Ep2, Ep in Hst.
    + rewrite (proj2 (Z.ltb_ge 0 v)) by done. change (k_pages k3 = k_pages (y_k s)). congruence.
  - wp_step. split; [done|]. change (k_pages k2 = k_pages (y_k s)). congruence.
Qed.
End Calls.

(** ** A program, for evaluation *)

Definition native_task (y : task) : task :=
  (demo_table y) <| t_address_space := 0x7000 |> <| t_user_brk_base := ATM_USER_BASE + 0x10000 |> <| t_user_brk := ATM_USER_BASE + 0x10010 |>.
Definition calling (p : kmem heap) (us : user_space) : kernel heap unit :=
  (put_task 0 native_task PosixProps.demo_kernel) <| k_pages := p |> <| k_spaces := {[0x7000 := us]} |>.
Definition at_rest (k : kernel heap unit) : machine heap unit := mk_machine k (mk_time 0 0 None false tt) [].

(** Descriptors 3 and 4 are a pipe with five bytes in it. *)
Definition fill_pipe : M (kernel heap unit) Z :=
  do* fd_exec_reset (Some 0%nat) in
  let* x := native_fd_pipe2 (Some 0%nat) true 0 in
  let* r := native_fd_write (Some 0%nat) (snd (snd x)) (Some (cs "koala")) in
  ret (fst x).
Definition piped : kernel heap unit := snd (run_state 0 fill_pipe (calling demo_k demo_us)).

Lemma calling_user_ok (k : kernel heap unit) : k_pages k = demo_k -> user_ok k demo_us.
Proof.
  intros E. destruct demo_space_ok as [P Hok]. exists P, (km_heap demo_k). rewrite E. split; [|apply demo_injective].
  by replace (with_heap demo_k (km_heap demo_k)) with demo_k by (by destruct demo_k).
Qed.
Lemma piped_pages : k_pages piped = demo_k.
Proof. by vm_compute. Qed.
Lemma piped_caller : caller (at_rest piped) demo_us.
Proof. vm_compute. reflexivity. Qed.

Definition read_regs (buf n : Z) : registers := mk_regs 0 3 buf n 0 0.
Definition quiet : ambient := mk_ambient [] None us_zero.

(** ** Claims *)

(** C12: A call that is going to fill a buffer of the program checks it first: when a byte of the
    buffer is not mapped or not writable, [read], [pread], [recv], [pipe], [readdir], [poll],
    [getrlimit], [getrusage], [times], [accept] and [waitpid] answer -EFAULT (-EINVAL when other
    arguments are bad too) and nothing has happened: no byte is taken from a pipe, no descriptor
    made, no connection accepted, no child reaped, and no memory written. *)
Theorem efault_before_effect {N} `{!Tcp N} am r (s : machine heap N) us c p n :
  regs_ok r -> caller s us -> user_ok (y_k s) us -> syscall_of (rax r) = Some c -> out_buffer c r = Some (p, n) ->
  ~ writable (y_k s) us p n ->
  exists e, atm_syscall_dispatch am r s = Done (Answer (- e), s) /\ (e = ATM_EFAULT \/ e = ATM_EINVAL).
Proof. intros Hr Hc Hu Hs Ho Hw. rewrite (dispatch_known am r s us c Hc Hs). by eapply efault_spec. Qed.

(** The second page of the program is read-only. *)
Lemma demo_read_only : (fun x => pte_has (snd x) ATM_PTE_W) <$> xlate (km_tables demo_k) demo_us (ATM_USER_BASE + 0x1000) = Some false.
Proof. by vm_compute. Qed.

Lemma efault_before_effect_witness :
  exists e, atm_syscall_dispatch quiet (read_regs (ATM_USER_BASE + 0x1000) 16) (at_rest piped) = Done (Answer (- e), at_rest piped) /\
    (e = ATM_EFAULT \/ e = ATM_EINVAL).
Proof.
  pose proof piped_caller as Hc. pose proof piped_pages as Hp. generalize dependent piped. intros k Hc Hp.
  apply (efault_before_effect quiet (read_regs (ATM_USER_BASE + 0x1000) 16) (at_rest k) demo_us SYS_READ (ATM_USER_BASE + 0x1000) 16).
  - split; cbn; unfold ATM_USER_BASE; lia.
  - exact Hc.
  - by apply calling_user_ok.
  - reflexivity.
  - reflexivity.
  - intros Ha. destruct (Ha 0 ltac:(lia)) as (q & e & E & Hw). cbn [y_k at_rest] in E. rewrite Hp in E.
    pose proof demo_read_only as Hx. rewrite Z.add_0_r in E. rewrite E in Hx. apply (inj Some) in Hx. cbn [snd] in Hx. rewrite Hw in Hx; done.
Defined.

(** C16: What [read] says is what the program finds: a positive answer n means that the descriptor
    handed out n bytes, which are now in the program's buffer, and no other byte of memory has
    changed; an error, end of file or a wait leaves the program's memory untouched.  The call
    returns whenever the descriptor and the heap do. *)
Theorem read_delivers {N} `{!Tcp N} am r (s : machine heap N) us :
  regs_ok r -> caller s us -> user_ok (y_k s) us -> syscall_of (rax r) = Some SYS_READ -> read_returns s (i32 (rdi r)) (rdx r) ->
  wp (atm_syscall_dispatch am r) s (read_outcome s us (i32 (rdi r)) (rsi r) (rdx r)).
Proof. intros Hr Hc Hu Hs Hrun. unfold wp. rewrite (dispatch_known am r s us SYS_READ Hc Hs). by apply read_spec. Qed.

Lemma piped_returns : read_returns (at_rest piped) 3 16.
Proof. vm_compute. intros _. exact I. Qed.

Lemma read_delivers_witness :
  wp (atm_syscall_dispatch quiet (read_regs ATM_USER_BASE 16)) (at_rest piped) (fun a s' =>
    match a with Answer n => if 0 <? n then exists bs, stored demo_k (k_pages (y_k s')) demo_us ATM_USER_BASE (take (Z.to_nat n) bs) else True | _ => True end) /\
  ends_with (atm_syscall_dispatch quiet (read_regs ATM_USER_BASE 16)) (at_rest piped) (fun a => match a with Answer n => n =? 5 | _ => false end) = true.
Proof.
  split; [|vm_compute; reflexivity].
  pose proof piped_caller as Hc. pose proof piped_pages as Hp. pose proof piped_returns as Hr. generalize dependent piped. intros k Hc Hp Hr.
  eapply wp_mono; [apply (read_delivers quiet (read_regs ATM_USER_BASE 16) (at_rest k) demo_us)|].
  - split; cbn; unfold ATM_USER_BASE; lia.
  - exact Hc.
  - by apply calling_user_ok.
  - reflexivity.
  - exact Hr.
  - intros [n|p|e st|] s'; [|done..]. unfold read_outcome. destruct (0 <? n); [|done]. intros (tmp & k1 & k2 & bs & _ & _ & _ & Hs).
    exists bs. change (y_k (at_rest k)) with k in Hs. rewrite Hp in Hs. exact Hs.
Defined.

(** C17: The break of a program moves only within its region and only with memory behind it: [brk]
    answers with the new break when the request lies between the base of the heap and the region
    for mappings, and then every page up to it is mapped, the new ones writable, each in a frame
    of its own; otherwise it answers with the old break, which is unchanged.  In either case the
    address space stays consistent, and every byte the program had is where it was. *)
Theorem brk_grows {N} `{!Tcp N} am r (s : machine heap N) us t x P :
  regs_ok r -> caller s us -> current (y_k s) = Some t -> syscall_of (rax r) = Some SYS_BRK -> brk_ready (y_k s) t x us P ->
  wp (atm_syscall_dispatch am r) s (fun a s' => exists v, a = Answer v /\ brk_outcome (y_k s) t x us P (rdi r) v (y_k s')).
Proof.
  intros Hr Hc Ht Hs Hb. unfold wp. rewrite (dispatch_known am r s us SYS_BRK Hc Hs), Ht. cbn [run_syscall].
  change (wp (val (sys_brk_native (Some t) (rdi r))) s (fun a s' => exists v, a = Answer v /\ brk_outcome (y_k s) t x us P (rdi r) v (y_k s'))).
  unfold val. wp_step. apply wp_on_k. eapply wp_mono; [apply (brk_spec _ t x us P); [done|apply Hr]|].
  intros v k' Ho. wp_step. by exists v.
Qed.

(** A program with an empty address space whose heap is the kernel's. *)
Definition growing : kernel heap unit := (calling demo_k0 demo_us0) <| k_vfs := (k_vfs PosixProps.demo_kernel) <| v_heap := km_heap demo_k0 |> |>.
Definition brk_regs (v : Z) : registers := mk_regs 12 v 0 0 0 0.

Lemma growing_task : exists x, pool growing !! 0%nat = Some x /\ t_address_space x = 0x7000 /\ t_user_brk_base x = ATM_USER_BASE + 0x10000 /\
  t_user_brk x = ATM_USER_BASE + 0x10010.
Proof. eexists. vm_compute. split_and!; reflexivity. Qed.
Lemma growing_pages : pages_of growing = demo_k0.
Proof. unfold pages_of, growing. by destruct demo_k0. Qed.
Lemma growing_caller : caller (at_rest growing) demo_us0.
Proof. vm_compute. reflexivity. Qed.
Lemma growing_space : k_spaces growing !! 0x7000 = Some demo_us0.
Proof. apply lookup_singleton_eq. Qed.
Lemma growing_current : current growing = Some 0%nat.
Proof. reflexivity. Qed.
Lemma growing_empty : xlate (km_tables (k_pages growing)) demo_us0 (ATM_USER_BASE + 0x11000) = None.
Proof. by vm_compute. Qed.

Lemma brk_grows_witness :
  wp (atm_syscall_dispatch quiet (brk_regs (ATM_USER_BASE + 0x12000))) (at_rest growing) (fun a s' => exists v, a = Answer v /\
    (v = ATM_USER_BASE + 0x12000 -> exists us', PagingInv.allowed (km_tables (k_pages (y_k s'))) us' (ATM_USER_BASE + 0x11000) true)) /\
  ends_with (atm_syscall_dispatch quiet (brk_regs (ATM_USER_BASE + 0x12000))) (at_rest growing)
    (fun a => match a with Answer v => v =? ATM_USER_BASE + 0x12000 | _ => false end) = true.
Proof.
  split; [|vm_compute; reflexivity]. destruct demo_loading as [P Hl]. destruct growing_task as (x & Hx & Ex1 & Ex2 & Ex3).
  pose proof growing_caller as Hc. pose proof growing_space as Hs. pose proof growing_current as Hcur. rewrite <- growing_pages in Hl. pose proof growing_empty as He.
  generalize dependent growing. intros k Hl Hx Hc Hs Hcur He.
  eapply wp_mono; [apply (brk_grows quiet (brk_regs (ATM_USER_BASE + 0x12000)) (at_rest k) demo_us0 0%nat x P)|].
  - split; cbn; unfold ATM_USER_BASE; lia.
  - exact Hc.
  - exact Hcur.
  - reflexivity.
  - split; [done|by rewrite Ex1|by rewrite Ex1|done|rewrite Ex2; lia|rewrite Ex2, Ex3; unfold ATM_USER_ANON_BASE; lia].
  - intros a s' (v & -> & us' & _ & _ & Hv). exists v. split; [done|]. intros Ev. exists us'.
    destruct Hv as [(_ & _ & _ & Hbk)|(Eold & _)]; [|exfalso; rewrite Ex3 in Eold; unfold ATM_USER_BASE in *; lia].
    rewrite Ev, Ex3 in Hbk.
    destruct (Hbk (ATM_USER_BASE + 0x11000)) as [_ Hw]; [split; vm_compute; congruence|]. exact (Hw He).
Defined.

(** ** Arguments *)

(** C14: Arguments survive exec: the strings the calling program points to through argv and envp
    (at most sixteen each, 2048 bytes in all; the path where there is no argument) are the
    strings the new program finds from its stack pointer on, in order, behind their count and
    each vector ended by NULL, followed by the auxiliary vector with the page size and the
    entry.  The stack pointer is a multiple of 16, the calling program is not touched, and
    nothing else in the new address space is written. *)
Theorem exec_arguments_pass {N} `{!Tcp N} (k : kernel heap N) us path uargv uenvp args env P (m : kmem heap) us2 im :
  user_ok k us -> user_vector k us uargv args -> user_vector k us uenvp env ->
  zlen args <= 16 -> zlen env <= 16 -> nul ∉ path -> strings_bytes (exec_args path args) + strings_bytes env <= ATM_NATIVE_EXEC_STR_BYTES ->
  loading P m us2 -> accessible (km_tables m) us2 ATM_USER_STACK_TOP ATM_PAGE_SIZE false ->
  im_stack_top im = ATM_USER_STACK_TOP + ATM_PAGE_SIZE -> 0 <= im_entry im < 2 ^ 64 ->
  wp (exec_payload (Some us) path uargv uenvp) k (fun x k' => k' = k /\ fst x = 0 /\
    wp (native_init_start_stack us2 (snd x) im) m (fun o m' => exists sp, o = Some sp /\ sp mod 16 = 0 /\
      started m' us2 (exec_args path args) env sp (im_entry im) /\
      forall q, ~ (sp <= q < ATM_USER_TOP) -> user_byte m' us2 q = user_byte m us2 q)).
Proof.
  intros Hu Hva Hve Hla Hle Hpath Hfit Hl Ha Htop Hent.
  eapply wp_mono; [by apply (exec_payload_spec k us path uargv uenvp args env)|].
  intros x k' (-> & E0 & Hok & Hv & <- & <-). split_and!; [done|done|].
  eapply wp_mono; [by apply (start_stack_spec P)|]. intros o m' (sp & -> & Hal & _ & _ & Hs & Hq). by exists sp.
Qed.

(** The first page of the program holds a vector with one string. *)
Definition arg_bytes : list byte := le_bytes 8 (ATM_USER_BASE + 0x40) ++ le_bytes 8 0.
Definition arg_memory : gmap Z byte := mem_write (mem_write (km_mem demo_k) 0x300000 arg_bytes) 0x300040 (cs "ls" ++ [nul]).
Definition with_args : kernel heap unit := set_memory (calling demo_k demo_us) arg_memory.
Definition stack_run := run_state (0, us_zero) (elf64_map_page demo_us0 ATM_USER_STACK_TOP PF_W) demo_k0.
Definition stack_us : user_space := snd (fst stack_run).
Definition stack_k : kmem heap := snd stack_run.
Definition demo_image : image := mk_image 1 ATM_USER_BASE ATM_USER_BASE (ATM_USER_BASE + 0x1000) (ATM_USER_STACK_TOP + ATM_PAGE_SIZE) [].

Lemma with_args_vector : user_vector with_args demo_us ATM_USER_BASE [cs "ls"].
Proof.
  right. split; [done|]. split.
  - intros [|i] s Hs; [|done]. apply (inj Some) in Hs as <-. exists (ATM_USER_BASE + 0x40). split; [by vm_compute|]. split.
    + intros [|[|i]] Hi; [by vm_compute..|]. cbn in Hi. lia.
    + by vm_compute.
    + apply (bool_decide_eq_true (nul ∉ cs "ls")). by vm_compute.
  - by vm_compute.
Qed.
Lemma stack_ready : exists P, loading P stack_k stack_us /\ accessible (km_tables stack_k) stack_us ATM_USER_STACK_TOP ATM_PAGE_SIZE false.
Proof.
  destruct demo_loading as [P Hl]. assert (Hrun : ends_with (elf64_map_page demo_us0 ATM_USER_STACK_TOP PF_W) demo_k0 (fun x => fst x =? 0) = true) by (by vm_compute).
  destruct (run_state_wp (0, us_zero) _ _ _ _ Hrun (map_page_spec P demo_k0 demo_us0 ATM_USER_STACK_TOP PF_W Hl eq_refl)) as ([r us] & k & E & Hx & Er).
  unfold stack_us, stack_k, stack_run. rewrite E. clear E Hrun. cbn [fst snd] in *. destruct Hx as ((P' & _ & Hl' & _) & [->|(_ & q & e & Ex & _)] & _); [done|].
  exists P'. split; [done|]. intros i Hi. apply allowed_whole_page; [done|done|]. by exists q, e.
Qed.

Lemma exec_arguments_pass_witness :
  wp (exec_payload (Some demo_us) (cs "/bin/ls") ATM_USER_BASE 0) with_args (fun x k' => k' = with_args /\ fst x = 0 /\
    wp (native_init_start_stack stack_us (snd x) demo_image) stack_k (fun o m' => exists sp, o = Some sp /\ started m' stack_us [cs "ls"] [] sp ATM_USER_BASE)).
Proof.
  destruct stack_ready as (P & Hl & Ha). pose proof with_args_vector as Hv.
  assert (Hu : user_ok with_args demo_us) by (apply user_ok_mem; by apply calling_user_ok).
  generalize dependent with_args. generalize dependent stack_us. generalize dependent stack_k. intros m us2 Hl Ha k Hv Hu.
  eapply wp_mono; [apply (exec_arguments_pass k demo_us (cs "/bin/ls") ATM_USER_BASE 0 [cs "ls"] [] P m us2 demo_image Hu Hv)|].
  - by left.
  - cbn. lia.
  - cbn. lia.
  - apply (bool_decide_eq_true (nul ∉ cs "/bin/ls")). by vm_compute.
  - by vm_compute.
  - exact Hl.
  - exact Ha.
  - reflexivity.
  - cbn. unfold ATM_USER_BASE. lia.
  - intros x k' (-> & E0 & Hs). split_and!; [done|done|]. eapply wp_mono; [exact Hs|]. intros o m' (sp & -> & _ & Hst & _). by exists sp.
Defined.

(** ** Sleeping *)

(** C31: The length of a sleep: a request [nanosleep] accepts becomes the least number of clock ticks
    of ten milliseconds that covers it.  The deadline so many ticks ahead lies in the future,
    but for requests of nothing and for those of more than 2^31 ticks (some 248 days), which the
    range check lets through and whose deadline counts as passed from the start. *)
Theorem nanosleep_duration sec nsec n now : sleep_ticks sec nsec = Some n -> 0 <= now < 2 ^ 32 ->
  n * 10 ^ 7 - 10 ^ 7 < sec * 10 ^ 9 + nsec <= n * 10 ^ 7 /\ 0 <= n < 2 ^ 32 /\
  (deadline_due now (u32 (now + n)) = true <-> n = 0 \/ 2 ^ 31 < n).
Proof.
  intros E Hnow. unfold sleep_ticks in E. destruct ((sec <? 0) || (nsec <? 0) || (1000000000 <=? nsec) || (42949671 <? sec)) eqn:Eg; [done|].
  rewrite !orb_false_iff, !Z.ltb_ge, Z.leb_gt in Eg. destruct Eg as [[[H1 H2] H3] H4].
  destruct (Z.ltb_spec 0xffffffff (sec * 100 + (nsec + 9999999) / 10000000)); [done|]. apply (inj Some) in E.
  assert (Hn : n * 10 ^ 7 - 10 ^ 7 < sec * 10 ^ 9 + nsec <= n * 10 ^ 7) by (subst n; change (10 ^ 7) with 10000000; change (10 ^ 9) with 1000000000; Z.to_euclidean_division_equations; lia).
  split_and!; [lia|lia|lia|lia|]. destruct (decide (2 ^ 31 < n)) as [Hbig|Hsmall].
  - split; [by right|]. intros _. replace now with (u32 (now + 0)) at 1 by (rewrite Z.add_0_r; by apply u32_small). apply long_sleep_due_early; lia.
  - unfold deadline_due, i32, u32. change 4294967296 with (2 ^ 32). change (2 ^ 32) with 4294967296 in *. change (2 ^ 31) with 2147483648 in *.
    assert (Hm : ((now - (now + n) mod 4294967296) mod 4294967296) mod 4294967296 = (- n) mod 4294967296).
    { rewrite Zmod_mod. rewrite Zminus_mod_idemp_r. f_equal. lia. }
    rewrite Hm. assert (n = 0 \/ 0 < n) as [-> | Hpos] by lia.
    + split; [by left|done].
    + replace ((- n) mod 4294967296) with (4294967296 - n) by (rewrite <- (Z_mod_plus_full (- n) 1), Z.mod_small; lia).
      destruct (Z.ltb_spec (4294967296 - n) 2147483648); [lia|]. rewrite Z.leb_le. lia.
Qed.

Lemma nanosleep_duration_witness : sleep_ticks 30000000 0 = Some 3000000000 /\ deadline_due 5 (u32 (5 + 3000000000)) = true.
Proof. split; [reflexivity|]. apply (nanosleep_duration 30000000 0 3000000000 5); [reflexivity|lia|right; lia]. Defined.

(** ** The table *)

Lemma find_key {A} (l : list (Z * A)) x c : NoDup (fst <$> l) -> snd <$> find (fun e => fst e =? x) l = Some c <-> (x, c) ∈ l.
Proof.
  induction l as [|[y d] l IH]; [cbn; by rewrite elem_of_nil|]. cbn [fmap list_fmap fst find]. rewrite list.NoDup_cons. intros [Hy Hd]. rewrite elem_of_cons.
  destruct (Z.eqb_spec y x) as [->|Hne].
  - cbn. split; [intros [= ->]; by left|]. intros [[= ->]|Hin]; [done|]. destruct Hy. apply list_elem_of_fmap. by exists (x, c).
  - rewrite IH by done. split; [by right|]. intros [[= -> _]|Hin]; done.
Qed.
Lemma value_unique {A} (l : list (Z * A)) x y c : NoDup (snd <$> l) -> (x, c) ∈ l -> (y, c) ∈ l -> x = y.
Proof.
  intros Hd Hx Hy. apply list_elem_of_lookup_1 in Hx as [i Hi], Hy as [j Hj].
  assert (i = j) as -> by (eapply (NoDup_lookup (snd <$> l)); [done|by rewrite list_lookup_fmap, Hi|by rewrite list_lookup_fmap, Hj]). congruence.
Qed.

Lemma syscall_keys : NoDup (fst <$> syscall_table).
Proof. apply (bool_decide_eq_true (NoDup (fst <$> syscall_table))). by vm_compute. Qed.
Lemma syscall_values : NoDup (snd <$> syscall_table).
Proof. apply (bool_decide_eq_true (NoDup (snd <$> syscall_table))). by vm_compute. Qed.
Lemma syscall_listed c : c ∈ snd <$> syscall_table.
Proof. apply (bool_decide_eq_true (c ∈ snd <$> syscall_table)). by destruct c; vm_compute. Qed.
Lemma syscall_small : forallb (fun e => (0 <=? fst e) && (fst e <? 2 ^ 32)) syscall_table = true.
Proof. by vm_compute. Qed.
Lemma syscall_of_spec r c : syscall_of r = Some c <-> (u32 r, c) ∈ syscall_table.
Proof. apply find_key, syscall_keys. Qed.

(** The dispatcher's numbers: every call has exactly one number, different calls have different
    numbers, and only the low half of [rax] counts.  A number that is none of them is answered
    with -ENOSYS, and nothing changes. *)
Theorem syscall_numbers {N} `{!Tcp N} :
  (forall c, exists n, 0 <= n < 2 ^ 32 /\ forall r, syscall_of r = Some c <-> u32 r = n) /\
  forall am r (s : machine heap N) o, sys_user_space (y_k s) = Done (o, y_k s) -> (forall c, syscall_of (rax r) <> Some c) ->
    atm_syscall_dispatch am r s = Done (Answer (- ATM_ENOSYS), s).
Proof.
  split.
  - intros c. pose proof (syscall_listed c) as Hc. apply list_elem_of_fmap in Hc as ([n d] & -> & Hin). exists n. cbn [snd]. split.
    + pose proof syscall_small as Hs. rewrite forallb_forall in Hs. apply list_elem_of_In in Hin. specialize (Hs _ Hin). cbn [fst] in Hs. lia.
    + intros r. rewrite syscall_of_spec. split; [|by intros ->]. intros Hr. eapply value_unique; [apply syscall_values|done|done].
  - intros am r s o Hs Hn. unfold atm_syscall_dispatch. rewrite (bind_Done _ _ _ _ _ (on_k_same _ _ _ Hs)), bind_gets.
    destruct (syscall_of (rax r)) as [c|] eqn:E; [by destruct (Hn c)|done].
Qed.

Lemma syscall_numbers_witness : atm_syscall_dispatch quiet (mk_regs 0xA7FF 0 0 0 0 0) (at_rest piped) = Done (Answer (- ATM_ENOSYS), at_rest piped).
Proof.
  pose proof piped_caller as Hc. generalize dependent piped. intros k Hc. apply (proj2 (syscall_numbers (N := unit))) with (o := Some demo_us); [exact Hc|].
  intros c. by vm_compute.
Defined.
