(* ===== verification/Catfs.v ===== *)
(** * CatFS, the filesystem on disk (src/src/catfs.c)

    The static variable [catfs] is [c_fs]; the disk below it is used through the interface
    [Disk] (src/src/disk.c drives it by port input and output).  Structures on disk are their
    bytes.  Arrays of characters are kept whole, with what follows the terminator; a name that
    does not fit its array, and a block or inode number outside the tables, is a [Fault].  The
    fields [dirty_inode_lo] and [dirty_inode_hi], which nothing uses, are left out. *)

From S2P Require Import Prelude Cstring Alloc Elf NativeApp.

(** ** Layout *)

Definition SECTOR_SIZE : Z := 512.
Definition CATFS_MAGIC : Z := 0xCAFE4002.
Definition CATFS_BLOCK_SIZE : Z := 512.
Definition CATFS_INODE_MAX : Z := 256.
Definition CATFS_BLOCKS_MAX : Z := 16384.
Definition CATFS_NAME_MAX : Z := 56.
Definition CATFS_DIRECT_BLOCKS : Z := 16.
Definition CATFS_PTRS_PER_BLOCK : Z := CATFS_BLOCK_SIZE / 4.
Definition CATFS_MAX_FILE_BLOCKS : Z := CATFS_DIRECT_BLOCKS + CATFS_PTRS_PER_BLOCK + CATFS_PTRS_PER_BLOCK * CATFS_PTRS_PER_BLOCK.
Definition CATFS_TYPE_FREE : Z := 0.
Definition CATFS_TYPE_FILE : Z := 1.
Definition CATFS_TYPE_DIR : Z := 2.
Definition CATFS_PERM_DEFAULT_FILE : Z := 0x1a4.
Definition CATFS_PERM_DEFAULT_DIR : Z := 0x1ed.
Definition CATFS_J_NONE : Z := 0.
Definition CATFS_J_CREATE : Z := 1.
Definition CATFS_J_UNLINK : Z := 2.
Definition CATFS_J_WRITE_META : Z := 3.
Definition sizeof_rec : Z := 20.
Definition CATFS_JOURNAL_SLOTS : Z := 8 * CATFS_BLOCK_SIZE / sizeof_rec.
Definition sizeof_cinode : Z := 151.

Definition SB_LBA : Z := 0.
Definition JOURNAL_HDR_LBA : Z := 1.
Definition JOURNAL_LOG_LBA : Z := 2.
Definition JOURNAL_LOG_SECTORS : Z := 8.
Definition INODE_TABLE_LBA : Z := JOURNAL_LOG_LBA + JOURNAL_LOG_SECTORS.
Definition INODES_PER_SECTOR : Z := SECTOR_SIZE / sizeof_cinode.
Definition INODE_SECTORS : Z := (CATFS_INODE_MAX + INODES_PER_SECTOR - 1) / INODES_PER_SECTOR.
Definition BITMAP_LBA : Z := INODE_TABLE_LBA + INODE_SECTORS.
Definition BITMAP_SECTORS : Z := (CATFS_BLOCKS_MAX / 8 + SECTOR_SIZE - 1) / SECTOR_SIZE.
Definition DATA_LBA : Z := BITMAP_LBA + BITMAP_SECTORS.

(** ** Structures *)

Record catfs_super := mk_super {
  sb_magic : Z; sb_version : Z; sb_total_blocks : Z; sb_free_blocks : Z; sb_inode_count : Z; sb_free_inodes : Z;
  sb_data_start_lba : Z; sb_bitmap_lba : Z; sb_inode_table_lba : Z; sb_journal_lba : Z; sb_clean_unmount : Z;
  sb_label : list byte; sb_pad : list byte }.
#[export] Instance eta_super : Eta catfs_super := fun s => mk_super (sb_magic s) (sb_version s) (sb_total_blocks s) (sb_free_blocks s)
  (sb_inode_count s) (sb_free_inodes s) (sb_data_start_lba s) (sb_bitmap_lba s) (sb_inode_table_lba s) (sb_journal_lba s) (sb_clean_unmount s)
  (sb_label s) (sb_pad s).

Record catfs_journal_hdr := mk_jh { jh_magic : Z; jh_head : Z; jh_committed_seq : Z; jh_pad : list byte }.
#[export] Instance eta_jh : Eta catfs_journal_hdr := fun h => mk_jh (jh_magic h) (jh_head h) (jh_committed_seq h) (jh_pad h).

Record catfs_journal_rec := mk_rec { jr_type : Z; jr_inode_idx : Z; jr_a : Z; jr_b : Z; jr_seq : Z }.

Record catfs_inode := mk_cino {
  ci_name : list byte; ci_type : Z; ci_perms : Z; ci_size : Z; ci_parent : Z; ci_ctime : Z; ci_mtime : Z; ci_atime : Z;
  ci_blocks : list Z; ci_indirect : Z; ci_dindirect : Z }.
#[export] Instance eta_cino : Eta catfs_inode := fun i => mk_cino (ci_name i) (ci_type i) (ci_perms i) (ci_size i) (ci_parent i) (ci_ctime i)
  (ci_mtime i) (ci_atime i) (ci_blocks i) (ci_indirect i) (ci_dindirect i).

Record catfs_state_t := mk_catfs {
  cf_disk_drive : Z; cf_partition_offset : Z; cf_sb : catfs_super; cf_jh : catfs_journal_hdr; cf_inodes : list catfs_inode;
  cf_bitmap : list Z; cf_mounted : Z; cf_next_seq : Z }.
#[export] Instance eta_catfs : Eta catfs_state_t := fun c => mk_catfs (cf_disk_drive c) (cf_partition_offset c) (cf_sb c) (cf_jh c) (cf_inodes c)
  (cf_bitmap c) (cf_mounted c) (cf_next_seq c).

Definition zeros (n : Z) : list byte := replicate (Z.to_nat n) nul.
Definition super_zero : catfs_super := mk_super 0 0 0 0 0 0 0 0 0 0 0 (zeros 32) (zeros 436).
Definition jh_zero : catfs_journal_hdr := mk_jh 0 0 0 (zeros 500).
Definition inode_zero : catfs_inode := mk_cino (zeros CATFS_NAME_MAX) 0 0 0 0 0 0 0 (replicate 16 0) 0 0.
Definition catfs_zero : catfs_state_t :=
  mk_catfs 0 0 super_zero jh_zero (replicate (Z.to_nat CATFS_INODE_MAX) inode_zero) (replicate (Z.to_nat (CATFS_BLOCKS_MAX / 8)) 0) 0 0.

(** ** Structures as bytes *)

(** [bs] put over the bytes from [off] on. *)
Definition splice (l : list byte) (off : Z) (bs : list byte) : list byte := take (Z.to_nat off) l ++ bs ++ drop (Z.to_nat off + length bs) l.
Definition part (l : list byte) (off n : Z) : list byte := take (Z.to_nat n) (drop (Z.to_nat off) l).
(** The field of [n] bytes at [off]. *)
Definition num (l : list byte) (off : Z) (n : Z) : Z := le (part l off n).
Definition nums (l : list byte) (off : Z) (count : Z) : list Z := (fun i => num l (off + 4 * i) 4) <$> seqZ 0 count.

Definition super_bytes (s : catfs_super) : list byte :=
  le_bytes 4 (sb_magic s) ++ le_bytes 4 (sb_version s) ++ le_bytes 4 (sb_total_blocks s) ++ le_bytes 4 (sb_free_blocks s) ++
  le_bytes 4 (sb_inode_count s) ++ le_bytes 4 (sb_free_inodes s) ++ le_bytes 4 (sb_data_start_lba s) ++ le_bytes 4 (sb_bitmap_lba s) ++
  le_bytes 4 (sb_inode_table_lba s) ++ le_bytes 4 (sb_journal_lba s) ++ le_bytes 4 (sb_clean_unmount s) ++ sb_label s ++ sb_pad s.
Definition super_of (l : list byte) : catfs_super :=
  mk_super (num l 0 4) (num l 4 4) (num l 8 4) (num l 12 4) (num l 16 4) (num l 20 4) (num l 24 4) (num l 28 4) (num l 32 4) (num l 36 4) (num l 40 4)
    (part l 44 32) (part l 76 436).

Definition jh_bytes (h : catfs_journal_hdr) : list byte := le_bytes 4 (jh_magic h) ++ le_bytes 4 (jh_head h) ++ le_bytes 4 (jh_committed_seq h) ++ jh_pad h.
Definition jh_of (l : list byte) : catfs_journal_hdr := mk_jh (num l 0 4) (num l 4 4) (num l 8 4) (part l 12 500).

Definition rec_bytes (r : catfs_journal_rec) : list byte :=
  le_bytes 1 (jr_type r) ++ zeros 3 ++ le_bytes 4 (jr_inode_idx r) ++ le_bytes 4 (jr_a r) ++ le_bytes 4 (jr_b r) ++ le_bytes 4 (jr_seq r).

Definition inode_bytes (i : catfs_inode) : list byte :=
  ci_name i ++ le_bytes 1 (ci_type i) ++ le_bytes 2 (ci_perms i) ++ le_bytes 4 (ci_size i) ++ le_bytes 4 (ci_parent i) ++ le_bytes 4 (ci_ctime i) ++
  le_bytes 4 (ci_mtime i) ++ le_bytes 4 (ci_atime i) ++ (ci_blocks i ≫= le_bytes 4) ++ le_bytes 4 (ci_indirect i) ++ le_bytes 4 (ci_dindirect i).
Definition inode_of (l : list byte) : catfs_inode :=
  mk_cino (part l 0 56) (num l 56 1) (num l 57 2) (num l 59 4) (i32 (num l 63 4)) (num l 67 4) (num l 71 4) (num l 75 4) (nums l 79 16) (num l 143 4) (num l 147 4).

(** The pointers of a block, and back. *)
Definition ptrs_of (l : list byte) : list Z := nums l 0 CATFS_PTRS_PER_BLOCK.
Definition ptrs_bytes (p : list Z) : list byte := p ≫= le_bytes 4.

(** ** The disk *)

Class Disk (D : Type) := {
  drive_present : Z -> M D bool;
  disk_read_sector : Z -> Z -> M D (option (list byte));
  disk_write_sector : Z -> Z -> list byte -> M D Z }.

Record cstate (D H : Type) := mk_cstate { c_fs : catfs_state_t; c_disk : D; c_heap : H; c_ticks : Z }.
Arguments mk_cstate {_ _} _ _ _ _. Arguments c_fs {_ _}. Arguments c_disk {_ _}. Arguments c_heap {_ _}. Arguments c_ticks {_ _}.
#[export] Instance eta_cstate D H : Eta (cstate D H) := fun s => mk_cstate (c_fs s) (c_disk s) (c_heap s) (c_ticks s).

Section Catfs.
Context {D H : Type} `{!Disk D} `{!Allocator H}.
Abbreviation C := (M (cstate D H)).

Definition fs {A} (f : catfs_state_t -> A) : C A := gets (fun s => f (c_fs s)).
Definition upd_fs (f : catfs_state_t -> catfs_state_t) : C unit := modify (fun s => s <| c_fs := f (c_fs s) |>).
Definition upd_sb (f : catfs_super -> catfs_super) : C unit := upd_fs (fun c => c <| cf_sb := f (cf_sb c) |>).
Definition upd_jh (f : catfs_journal_hdr -> catfs_journal_hdr) : C unit := upd_fs (fun c => c <| cf_jh := f (cf_jh c) |>).
Definition on_disk {A} (m : M D A) : C A := zoom c_disk (fun d s => s <| c_disk := d |>) m.
Definition on_cheap {A} (m : M H A) : C A := zoom c_heap (fun h s => s <| c_heap := h |>) m.
Definition catfs_now : C Z := gets (fun s => c_ticks s / 100).

(** [catfs.inodes[i]] *)
Definition cinode (i : Z) : C catfs_inode := deref (fun s => aget (cf_inodes (c_fs s)) i).
Definition upd_cinode (i : Z) (f : catfs_inode -> catfs_inode) : C unit :=
  let* x := cinode i in upd_fs (fun c => c <| cf_inodes := aset (cf_inodes c) i (f x) |>).

(** ** The bitmap *)

Definition marked (bm : list Z) (b : Z) : option bool := (fun x => Z.testbit x (b mod 8)) <$> aget bm (b / 8).
Definition mark (bm : list Z) (b : Z) : list Z := match aget bm (b / 8) with Some x => aset bm (b / 8) (Z.lor x (2 ^ (b mod 8))) | None => bm end.
Definition unmark (bm : list Z) (b : Z) : list Z := match aget bm (b / 8) with Some x => aset bm (b / 8) (Z.ldiff x (2 ^ (b mod 8))) | None => bm end.

Definition bm_test (b : Z) : C bool := deref (fun s => marked (cf_bitmap (c_fs s)) b).
Definition bm_set (b : Z) : C unit := do* bm_test b in upd_fs (fun c => c <| cf_bitmap := mark (cf_bitmap c) b |>).
Definition bm_clr (b : Z) : C unit := do* bm_test b in upd_fs (fun c => c <| cf_bitmap := unmark (cf_bitmap c) b |>).

Definition bm_alloc : C Z :=
  let* bm := fs cf_bitmap in
  match first_idx (fun i => bool_decide (marked bm i = Some false)) 0 CATFS_BLOCKS_MAX with
  | None => ret (-1)
  | Some i =>
    do* bm_set i in
    do* upd_sb (fun s => if 0 <? sb_free_blocks s then s <| sb_free_blocks := sb_free_blocks s - 1 |> else s) in
    ret i
  end.
Definition bm_free (b : Z) : C unit :=
  let* t := bm_test b in
  if t then do* bm_clr b in upd_sb (fun s => s <| sb_free_blocks := u32 (sb_free_blocks s + 1) |>) else ret tt.
Definition block_lba (blk : Z) : C Z := fs (fun c => u32 (sb_data_start_lba (cf_sb c) + blk)).

(** ** Sectors *)

Definition dsk_read (lba : Z) : C (option (list byte)) :=
  let* c := fs id in on_disk (disk_read_sector (cf_disk_drive c) (u32 (cf_partition_offset c + lba))).
Definition dsk_write (lba : Z) (sec : list byte) : C Z :=
  let* c := fs id in on_disk (disk_write_sector (cf_disk_drive c) (u32 (cf_partition_offset c + lba)) sec).
Definition blk_read (b : Z) : C (option (list byte)) := let* lba := block_lba b in dsk_read lba.
Definition blk_write (b : Z) (sec : list byte) : C Z := let* lba := block_lba b in dsk_write lba sec.

(** ** Journal *)

Definition journal_write_rec (r : catfs_journal_rec) : C Z :=
  let* head := fs (fun c => jh_head (cf_jh c)) in
  let slot := head mod CATFS_JOURNAL_SLOTS in
  let recs_per_sector := SECTOR_SIZE / sizeof_rec in
  let lba := JOURNAL_LOG_LBA + slot / recs_per_sector in
  let* sec := dsk_read lba in
  match sec with
  | None => ret (-1)
  | Some sec =>
    let* w := dsk_write lba (splice sec (slot mod recs_per_sector * sizeof_rec) (rec_bytes r)) in
    if w <? 0 then ret (-1) else do* upd_jh (fun h => h <| jh_head := u32 (jh_head h + 1) |>) in ret 0
  end.
Definition journal_log (type inode_idx a b : Z) : C Z :=
  do* upd_fs (fun c => c <| cf_next_seq := u32 (cf_next_seq c + 1) |>) in
  let* seq := fs cf_next_seq in
  journal_write_rec (mk_rec type inode_idx a b seq).
Definition journal_flush_header : C Z :=
  do* upd_jh (fun h => h <| jh_magic := CATFS_MAGIC |>) in
  let* h := fs cf_jh in
  dsk_write JOURNAL_HDR_LBA (jh_bytes h).
Definition journal_commit : C Z :=
  do* upd_fs (fun c => c <| cf_jh := (cf_jh c) <| jh_committed_seq := cf_next_seq c |> |>) in journal_flush_header.

(** The number of records after the committed ones. *)
Fixpoint torn_loop (slots : list Z) (torn : Z) : C Z :=
  match slots with
  | [] => ret torn
  | slot :: slots' =>
    let s := slot mod CATFS_JOURNAL_SLOTS in
    let recs_per_sector := SECTOR_SIZE / sizeof_rec in
    let* sec := dsk_read (JOURNAL_LOG_LBA + s / recs_per_sector) in
    torn_loop slots' (match sec with
                      | None => torn
                      | Some sec => if num sec (s mod recs_per_sector * sizeof_rec) 1 =? CATFS_J_NONE then torn else torn + 1
                      end)
  end.
Definition journal_check_torn : C Z :=
  let* h := fs cf_jh in torn_loop (seqZ (jh_committed_seq h) (jh_head h - jh_committed_seq h)) 0.

(** ** Writing the tables *)

Definition sync_superblock : C Z := let* s := fs cf_sb in dsk_write SB_LBA (super_bytes s).
Definition sync_inode (idx : Z) : C Z :=
  let lba := INODE_TABLE_LBA + idx / INODES_PER_SECTOR in
  let* sec := dsk_read lba in
  match sec with
  | None => ret (-1)
  | Some sec => let* x := cinode idx in dsk_write lba (splice sec (idx mod INODES_PER_SECTOR * sizeof_cinode) (inode_bytes x))
  end.

(** The loops over sectors that stop at the first error. *)
Fixpoint each_sector (f : Z -> C Z) (ss : list Z) : C Z :=
  match ss with
  | [] => ret 0
  | s :: ss' => let* r := f s in if r <? 0 then ret (-1) else each_sector f ss'
  end.
Definition sync_bitmap_region (first_block last_block : Z) : C Z :=
  let first := first_block / 8 / SECTOR_SIZE in
  let last := last_block / 8 / SECTOR_SIZE in
  each_sector (fun s =>
    let* bm := fs cf_bitmap in
    let bs := part (zb <$> bm) (s * SECTOR_SIZE) SECTOR_SIZE in
    dsk_write (BITMAP_LBA + s) (bs ++ zeros (SECTOR_SIZE - zlen bs))) (seqZ first (last - first + 1)).

(** The inodes of a sector of the table. *)
Definition inode_sector (l : list catfs_inode) (s : Z) : list byte :=
  let bs := take (Z.to_nat INODES_PER_SECTOR) (drop (Z.to_nat (s * INODES_PER_SECTOR)) l) ≫= inode_bytes in
  bs ++ zeros (SECTOR_SIZE - zlen bs).
Definition catfs_sync : C Z :=
  let* m := fs cf_mounted in
  if m =? 0 then ret (-1)
  else
    let* r := sync_superblock in
    if r <? 0 then ret (-1)
    else
      let* r := each_sector (fun s => let* l := fs cf_inodes in dsk_write (INODE_TABLE_LBA + s) (inode_sector l s)) (seqZ 0 INODE_SECTORS) in
      if r <? 0 then ret (-1)
      else
        let* r := sync_bitmap_region 0 (CATFS_BLOCKS_MAX - 1) in
        if r <? 0 then ret (-1)
        else
          do* upd_sb (fun s => s <| sb_clean_unmount := 1 |>) in
          let* r := sync_superblock in
          if r <? 0 then ret (-1) else journal_flush_header.

(** ** Format and mount *)

(** [kstrcpy] into an array of characters, and the string an array holds. *)
Definition poke_str (arr : list byte) (str : cstr) : option (list byte) :=
  if zlen str <? zlen arr then Some (str ++ [nul] ++ drop (length str + 1) arr) else None.
Fixpoint cname (arr : list byte) : option cstr :=
  match arr with
  | [] => None
  | b :: arr' => if bool_decide (b = nul) then Some [] else (b ::.) <$> cname arr'
  end.
Definition the {A} (o : option A) : C A := deref (fun _ => o).

(** [drive < 0 || !disk_drives[drive].present] *)
Definition no_drive (drive : Z) : C bool := if drive <? 0 then ret true else let* p := on_disk (drive_present drive) in ret (negb p).

Definition format_super (label : list byte) : catfs_super :=
  mk_super CATFS_MAGIC 2 CATFS_BLOCKS_MAX (CATFS_BLOCKS_MAX - 1) CATFS_INODE_MAX CATFS_INODE_MAX DATA_LBA BITMAP_LBA INODE_TABLE_LBA JOURNAL_LOG_LBA 1 label (zeros 436).
Definition catfs_format_at (drive lba_offset : Z) (label : option cstr) : C Z :=
  let* absent := no_drive drive in
  if absent then ret (-1)
  else
    do* upd_fs (fun _ => catfs_zero <| cf_disk_drive := drive |> <| cf_partition_offset := lba_offset |>) in
    let* lab := the (poke_str (zeros 32) (default (cs "catfs") label)) in
    do* upd_fs (fun c => c <| cf_sb := format_super lab |>) in
    do* bm_set 0 in
    do* upd_fs (fun c => c <| cf_jh := mk_jh CATFS_MAGIC 0 0 (jh_pad (cf_jh c)) |> <| cf_next_seq := 0 |>) in
    let* name := the (poke_str (zeros CATFS_NAME_MAX) (cs "/")) in
    let* t := catfs_now in
    do* upd_cinode 0 (fun _ => mk_cino name CATFS_TYPE_DIR CATFS_PERM_DEFAULT_DIR 0 (-1) t t t (replicate 16 0) 0 0) in
    do* upd_sb (fun s => s <| sb_free_inodes := u32 (sb_free_inodes s - 1) |>) in
    do* upd_fs (fun c => c <| cf_mounted := 1 |>) in
    catfs_sync.
Definition catfs_format (drive : Z) (label : option cstr) : C Z := catfs_format_at drive 0 label.

(** A sector of inodes, or of the bitmap, put over those in memory. *)
Definition load_inodes (l : list catfs_inode) (s : Z) (sec : list byte) : list catfs_inode :=
  let n := Z.min INODES_PER_SECTOR (CATFS_INODE_MAX - s * INODES_PER_SECTOR) in
  take (Z.to_nat (s * INODES_PER_SECTOR)) l ++ ((fun k => inode_of (part sec (k * sizeof_cinode) sizeof_cinode)) <$> seqZ 0 n) ++
  drop (Z.to_nat (s * INODES_PER_SECTOR + n)) l.
Definition load_bitmap (bm : list Z) (s : Z) (sec : list byte) : list Z :=
  let n := Z.min SECTOR_SIZE (CATFS_BLOCKS_MAX / 8 - s * SECTOR_SIZE) in
  take (Z.to_nat (s * SECTOR_SIZE)) bm ++ (bz <$> take (Z.to_nat n) sec) ++ drop (Z.to_nat (s * SECTOR_SIZE + n)) bm.
Definition load_sector (lba : Z) (put : list byte -> catfs_state_t -> catfs_state_t) : C Z :=
  let* sec := dsk_read lba in
  match sec with None => ret (-1) | Some sec => do* upd_fs (put sec) in ret 0 end.

Definition catfs_mount_at (drive lba_offset : Z) : C Z :=
  let* absent := no_drive drive in
  if absent then ret (-1)
  else
    do* upd_fs (fun c => c <| cf_disk_drive := drive |> <| cf_partition_offset := lba_offset |>) in
    let* r := load_sector SB_LBA (fun sec c => c <| cf_sb := super_of sec |>) in
    if r <? 0 then ret (-1)
    else
      let* sb := fs cf_sb in
      if negb (sb_magic sb =? CATFS_MAGIC) then ret (-1)
      else
        let* r := load_sector JOURNAL_HDR_LBA (fun sec c => c <| cf_jh := jh_of sec |>) in
        if r <? 0 then ret (-1)
        else
          let* r := each_sector (fun s => load_sector (u32 (sb_inode_table_lba sb + s)) (fun sec c => c <| cf_inodes := load_inodes (cf_inodes c) s sec |>))
                      (seqZ 0 INODE_SECTORS) in
          if r <? 0 then ret (-1)
          else
            let* r := each_sector (fun s => load_sector (u32 (sb_bitmap_lba sb + s)) (fun sec c => c <| cf_bitmap := load_bitmap (cf_bitmap c) s sec |>))
                        (seqZ 0 BITMAP_SECTORS) in
            if r <? 0 then ret (-1)
            else
              do* upd_fs (fun c => c <| cf_next_seq := jh_committed_seq (cf_jh c) |>) in
              let was_clean := sb_clean_unmount sb in
              do* upd_sb (fun s => s <| sb_clean_unmount := 0 |>) in
              do* sync_superblock in
              do* upd_fs (fun c => c <| cf_mounted := 1 |>) in
              do* (if was_clean =? 0 then journal_check_torn else ret 0) in
              ret 0.
Definition catfs_mount (drive : Z) : C Z := catfs_mount_at drive 0.

(** ** fsck *)

(** The blocks an inode names itself, marked in [seen]. *)
Definition see (seen : list Z) (b : Z) : C (list Z) :=
  if b =? 0 then ret seen else do* the (marked seen b) in ret (mark seen b).
Fixpoint see_all (seen : list Z) (bs : list Z) : C (list Z) :=
  match bs with [] => ret seen | b :: bs' => let* seen' := see seen b in see_all seen' bs' end.
Fixpoint see_inodes (seen : list Z) (l : list catfs_inode) : C (list Z) :=
  match l with
  | [] => ret seen
  | x :: l' =>
    let* seen' := (if ci_type x =? CATFS_TYPE_FREE then ret seen else see_all seen (ci_blocks x ++ [ci_indirect x; ci_dindirect x])) in
    see_inodes seen' l'
  end.

Fixpoint check_bitmap (seen : list Z) (repair : bool) (bs : list Z) (problems : Z) : C Z :=
  match bs with
  | [] => ret problems
  | b :: bs' =>
    let* m := bm_test b in
    let* actual := the (marked seen b) in
    if m && negb actual then do* (if repair then bm_clr b else ret tt) in check_bitmap seen repair bs' (problems + 1)
    else if negb m && actual then do* (if repair then bm_set b else ret tt) in check_bitmap seen repair bs' (problems + 1)
    else check_bitmap seen repair bs' problems
  end.

(** [in->parent < 0 || in->parent >= CATFS_INODE_MAX || catfs.inodes[in->parent].type != CATFS_TYPE_DIR] *)
Definition orphan (p : Z) : C bool :=
  if (p <? 0) || (CATFS_INODE_MAX <=? p) then ret true else let* x := cinode p in ret (negb (ci_type x =? CATFS_TYPE_DIR)).
Fixpoint check_parents (repair : bool) (ids : list Z) (problems : Z) : C Z :=
  match ids with
  | [] => ret problems
  | i :: ids' =>
    let* x := cinode i in
    if ci_type x =? CATFS_TYPE_FREE then check_parents repair ids' problems
    else
      let* bad := orphan (ci_parent x) in
      if bad then
        do* (if repair then do* upd_cinode i (fun _ => inode_zero) in upd_sb (fun s => s <| sb_free_inodes := u32 (sb_free_inodes s + 1) |>) else ret tt) in
        check_parents repair ids' (problems + 1)
      else check_parents repair ids' problems
  end.

Definition catfs_fsck_at (drive lba_offset : Z) (repair : bool) : C Z :=
  let* saved := fs id in
  let* r := catfs_mount_at drive lba_offset in
  if r <? 0 then do* upd_fs (fun _ => saved) in ret (-1)
  else
    let* p := on_cheap (kmalloc (CATFS_BLOCKS_MAX / 8)) in
    let* problems := (if p =? 0 then ret 0
                      else
                        let* l := fs cf_inodes in
                        let* seen := see_inodes (replicate (Z.to_nat (CATFS_BLOCKS_MAX / 8)) 0) l in
                        let* n := check_bitmap seen repair (seqZ 1 (CATFS_BLOCKS_MAX - 1)) 0 in
                        do* on_cheap (kfree p) in ret n) in
    let* problems := check_parents repair (seqZ 1 (CATFS_INODE_MAX - 1)) problems in
    let* torn := journal_check_torn in
    let problems := problems + torn in
    do* (if repair && truth torn then
           do* upd_jh (fun h => h <| jh_head := jh_committed_seq h |>) in let* _ := journal_flush_header in ret tt
         else ret tt) in
    let* problems := (if repair && truth problems then let* r := catfs_sync in ret (if r <? 0 then problems + 1 else problems) else ret problems) in
    do* upd_fs (fun _ => saved) in
    ret problems.
Definition catfs_fsck (drive : Z) (repair : bool) : C Z := catfs_fsck_at drive 0 repair.
End Catfs.
