(* ===== verification/CatfsOps.v ===== *)
(** * Operations on CatFS files (src/src/catfs.c, from the path helpers on)

    Paths are strings without their terminator; what a path or a name makes the code write
    outside its arrays ([dir[64]], [base[CATFS_NAME_MAX]], a name of an inode) is a [Fault], as
    is a walk up the parents that never ends.  The loops over a file's blocks run on fuel, one
    unit for each block the range touches. *)

From S2P Require Import Prelude Cstring Alloc Elf NativeApp Catfs.

(** ** Paths *)

(** The position of the last slash, zero when there is none. *)
Fixpoint last_slash_at (path : cstr) (i last : Z) : Z :=
  match path with [] => last | b :: path' => last_slash_at path' (i + 1) (if bool_decide (b = slash) then i else last) end.
Definition split_last (path : cstr) : option (cstr * cstr) :=
  let last := last_slash_at path 0 0 in
  let dir := if last =? 0 then cs "/" else take (Z.to_nat last) path in
  let base := drop (Z.to_nat last + 1) path in
  if (0 <? zlen path) && (zlen dir <? 64) && (zlen base <? CATFS_NAME_MAX) then Some (dir, base) else None.

(** The bytes up to a slash, at most [n]; and the rest, past that slash. *)
Fixpoint take_comp (n : nat) (p : cstr) : cstr * cstr :=
  match n, p with
  | S n', b :: p' => if bool_decide (b = slash) then ([], p) else let '(c, r) := take_comp n' p' in (b :: c, r)
  | _, _ => ([], p)
  end.
Definition skip_slash (p : cstr) : cstr := match p with b :: p' => if bool_decide (b = slash) then p' else p | [] => [] end.

Section CatfsOps.
Context {D H : Type} `{!Disk D} `{!Allocator H}.
Abbreviation C := (M (cstate D H)).

(** [for (i...) if (p(i)) return i;] *)
Fixpoint search_inode (p : Z -> C bool) (l : list Z) : C (option Z) :=
  match l with [] => ret None | i :: l' => let* b := p i in if b then ret (Some i) else search_inode p l' end.
Definition inodes_from1 : list Z := seqZ 1 (CATFS_INODE_MAX - 1).

(** A used inode below [parent] of that name. *)
Definition is_child (parent : Z) (name : cstr) (i : Z) : C bool :=
  let* x := cinode i in
  if ci_type x =? CATFS_TYPE_FREE then ret false
  else if ci_parent x =? parent then let* n := the (cname (ci_name x)) in ret (bool_decide (n = name)) else ret false.

Fixpoint lookup_loop (fuel : nat) (cur : Z) (p : cstr) : C Z :=
  match fuel with
  | O => fault
  | S fuel' =>
    if bool_decide (p = []) then ret cur
    else
      let '(comp, rest) := take_comp (Z.to_nat (CATFS_NAME_MAX - 1)) p in
      if bool_decide (comp = []) then lookup_loop fuel' cur (skip_slash rest)
      else
        let* found := search_inode (is_child cur comp) inodes_from1 in
        match found with None => ret (-1) | Some i => lookup_loop fuel' i (skip_slash rest) end
  end.
Definition catfs_lookup (path : cstr) : C Z :=
  let* m := fs cf_mounted in
  if m =? 0 then ret (-1)
  else if bool_decide (path = [slash]) then ret 0
  else
    let* root := cinode 0 in
    if negb (ci_type root =? CATFS_TYPE_DIR) then ret (-1) else lookup_loop (S (length path)) 0 (skip_slash path).

(** ** Creating *)

Definition is_free (i : Z) : C bool := let* x := cinode i in ret (ci_type x =? CATFS_TYPE_FREE).
Definition fresh_inode (name : list byte) (type parent t : Z) : catfs_inode :=
  mk_cino name type (if type =? CATFS_TYPE_DIR then CATFS_PERM_DEFAULT_DIR else CATFS_PERM_DEFAULT_FILE) 0 parent t t t (replicate 16 0) 0 0.
Definition catfs_create (path : cstr) (type : Z) : C Z :=
  let* m := fs cf_mounted in
  if m =? 0 then ret (-1)
  else
    let* '(dir, base) := the (split_last path) in
    let* parent := catfs_lookup dir in
    if parent <? 0 then ret (-1)
    else
      let* old := catfs_lookup path in
      if 0 <=? old then ret (-1)
      else
        let* found := search_inode is_free inodes_from1 in
        match found with
        | None => ret (-1)
        | Some i =>
          do* journal_log CATFS_J_CREATE i parent type in
          let* name := the (poke_str (zeros CATFS_NAME_MAX) base) in
          let* t := catfs_now in
          do* upd_cinode i (fun _ => fresh_inode name type parent t) in
          do* upd_sb (fun s => s <| sb_free_inodes := u32 (sb_free_inodes s - 1) |>) in
          do* sync_inode i in
          do* sync_superblock in
          do* journal_commit in
          ret i
        end.

(** ** Freeing blocks *)

Definition free_ptr (b : Z) : C unit := if b =? 0 then ret tt else bm_free b.
(** [if (in->blocks[i]) { bm_free(in->blocks[i]); in->blocks[i] = 0; }] *)
Definition free_direct (idx i : Z) : C unit :=
  let* x := cinode idx in
  let* b := the (aget (ci_blocks x) i) in
  if b =? 0 then ret tt else do* bm_free b in upd_cinode idx (fun x => x <| ci_blocks := aset (ci_blocks x) i 0 |>).
(** A block of pointers to blocks of data. *)
Definition free_children (b : Z) : C unit :=
  let* sec := blk_read b in match sec with None => ret tt | Some sec => for_each free_ptr (ptrs_of sec) end.

Definition free_all_blocks (idx : Z) : C unit :=
  do* for_each (free_direct idx) (seqZ 0 CATFS_DIRECT_BLOCKS) in
  let* x := cinode idx in
  do* (if ci_indirect x =? 0 then ret tt
       else
         do* free_children (ci_indirect x) in
         do* bm_free (ci_indirect x) in
         upd_cinode idx (fun x => x <| ci_indirect := 0 |>)) in
  let* x := cinode idx in
  if ci_dindirect x =? 0 then ret tt
  else
    let* l1 := blk_read (ci_dindirect x) in
    do* (match l1 with
         | None => ret tt
         | Some l1 => for_each (fun b => if b =? 0 then ret tt else do* free_children b in bm_free b) (ptrs_of l1)
         end) in
    do* bm_free (ci_dindirect x) in
    upd_cinode idx (fun x => x <| ci_dindirect := 0 |>).

(** Frees the pointers from [start] on, the first of the list being number [i]. *)
Fixpoint cut_ptrs (i start : Z) (p : list Z) : C (list Z) :=
  match p with
  | [] => ret []
  | b :: p' =>
    let* b' := (if (start <=? i) && truth b then do* bm_free b in ret 0 else ret b) in
    let* r := cut_ptrs (i + 1) start p' in
    ret (b' :: r)
  end.
Definition any_ptr (p : list Z) : bool := existsb truth p.
(** The pointers of the double indirect block from number [i] on; [None] when a sector fails. *)
Fixpoint cut_l1 (i first : Z) (p1 : list Z) : C (option (list Z)) :=
  match p1 with
  | [] => ret (Some [])
  | b :: p1' =>
    let base := CATFS_DIRECT_BLOCKS + CATFS_PTRS_PER_BLOCK + i * CATFS_PTRS_PER_BLOCK in
    let* b' := (if b =? 0 then ret (Some 0)
                else if base + CATFS_PTRS_PER_BLOCK <=? first then ret (Some b)
                else
                  let* sec := blk_read b in
                  match sec with
                  | None => ret None
                  | Some sec =>
                    let* p2 := cut_ptrs 0 (if base <? first then first - base else 0) (ptrs_of sec) in
                    if any_ptr p2 then let* w := blk_write b (ptrs_bytes p2) in ret (if w <? 0 then None else Some b)
                    else do* bm_free b in ret (Some 0)
                  end) in
    match b' with
    | None => ret None
    | Some b' => let* r := cut_l1 (i + 1) first p1' in ret ((b' ::.) <$> r)
    end
  end.

Definition free_blocks_from (idx first : Z) : C Z :=
  do* for_each (free_direct idx) (seqZ first (CATFS_DIRECT_BLOCKS - first)) in
  let* x := cinode idx in
  let* r := (if ci_indirect x =? 0 then ret 0
             else
               let* sec := blk_read (ci_indirect x) in
               match sec with
               | None => ret (-1)
               | Some sec =>
                 let* p := cut_ptrs 0 (if CATFS_DIRECT_BLOCKS <? first then first - CATFS_DIRECT_BLOCKS else 0) (ptrs_of sec) in
                 if any_ptr p then let* w := blk_write (ci_indirect x) (ptrs_bytes p) in ret (if w <? 0 then -1 else 0)
                 else do* bm_free (ci_indirect x) in do* upd_cinode idx (fun x => x <| ci_indirect := 0 |>) in ret 0
               end) in
  if r <? 0 then ret (-1)
  else
    let* x := cinode idx in
    if ci_dindirect x =? 0 then ret 0
    else
      let* l1 := blk_read (ci_dindirect x) in
      match l1 with
      | None => ret (-1)
      | Some l1 =>
        let* p1 := cut_l1 0 first (ptrs_of l1) in
        match p1 with
        | None => ret (-1)
        | Some p1 =>
          if any_ptr p1 then let* w := blk_write (ci_dindirect x) (ptrs_bytes p1) in ret (if w <? 0 then -1 else 0)
          else do* bm_free (ci_dindirect x) in do* upd_cinode idx (fun x => x <| ci_dindirect := 0 |>) in ret 0
        end
      end.

(** ** Removing, renaming, permissions *)

Definition bad_index (lo idx : Z) : C bool := let* m := fs cf_mounted in ret ((m =? 0) || (idx <? lo) || (CATFS_INODE_MAX <=? idx)).
Definition has_parent (idx i : Z) : C bool := let* x := cinode i in ret (negb (ci_type x =? CATFS_TYPE_FREE) && (ci_parent x =? idx)).
Definition sync_bitmap : C Z := sync_bitmap_region 0 (CATFS_BLOCKS_MAX - 1).

Definition catfs_unlink (idx : Z) : C Z :=
  let* bad := bad_index 1 idx in
  if bad then ret (-1)
  else
    let* x := cinode idx in
    if ci_type x =? CATFS_TYPE_FREE then ret (-1)
    else
      let* child := (if ci_type x =? CATFS_TYPE_DIR then search_inode (has_parent idx) inodes_from1 else ret None) in
      match child with
      | Some _ => ret (-1)
      | None =>
        do* journal_log CATFS_J_UNLINK idx 0 0 in
        do* free_all_blocks idx in
        do* upd_cinode idx (fun _ => inode_zero) in
        do* upd_sb (fun s => s <| sb_free_inodes := u32 (sb_free_inodes s + 1) |>) in
        do* sync_inode idx in
        do* sync_bitmap in
        do* sync_superblock in
        do* journal_commit in
        ret 0
      end.

(** [sync_inode(idx) < 0 || sync_superblock() < 0] fails; otherwise the journal is committed. *)
Definition finish_meta (idx : Z) : C Z :=
  let* r := sync_inode idx in
  if r <? 0 then ret (-1) else let* r := sync_superblock in if r <? 0 then ret (-1) else journal_commit.

(** [for (p = new_parent; p >= 0; p = catfs.inodes[p].parent) if (p == idx) return -1;] *)
Fixpoint walk_up (fuel : nat) (idx p : Z) : C bool :=
  match fuel with
  | O => fault
  | S fuel' => if p <? 0 then ret false else if p =? idx then ret true else let* x := cinode p in walk_up fuel' idx (ci_parent x)
  end.
Definition is_rival (idx parent : Z) (name : cstr) (i : Z) : C bool := if i =? idx then ret false else is_child parent name i.
Definition catfs_rename (idx new_parent : Z) (new_name : option cstr) : C Z :=
  let* bad := bad_index 1 idx in
  match new_name with
  | None => ret (-1)
  | Some new_name =>
    if bad then ret (-1)
    else if (new_parent <? 0) || (CATFS_INODE_MAX <=? new_parent) then ret (-1)
    else
      let* np := cinode new_parent in
      if negb (ci_type np =? CATFS_TYPE_DIR) then ret (-1)
      else if (zlen new_name =? 0) || (CATFS_NAME_MAX <=? zlen new_name) then ret (-1)
      else
        let* x := cinode idx in
        if ci_type x =? CATFS_TYPE_FREE then ret (-1)
        else
          let* below := walk_up (S (Z.to_nat CATFS_INODE_MAX)) idx new_parent in
          if below then ret (-1)
          else
            let* rival := search_inode (is_rival idx new_parent new_name) inodes_from1 in
            match rival with
            | Some _ => ret (-1)
            | None =>
              do* journal_log CATFS_J_WRITE_META idx (u32 (ci_parent x)) new_parent in
              let* name := the (poke_str (ci_name x) new_name) in
              let* t := catfs_now in
              do* upd_cinode idx (fun x => x <| ci_parent := new_parent |> <| ci_name := name |> <| ci_mtime := t |>) in
              finish_meta idx
            end
  end.

Definition catfs_chmod (idx perms : Z) : C Z :=
  let* bad := bad_index 0 idx in
  if bad then ret (-1)
  else
    let* x := cinode idx in
    if ci_type x =? CATFS_TYPE_FREE then ret (-1)
    else
      do* journal_log CATFS_J_WRITE_META idx (ci_perms x) (Z.land perms 0x1ff) in
      let* t := catfs_now in
      do* upd_cinode idx (fun x => x <| ci_perms := Z.land perms 0x1ff |> <| ci_mtime := t |>) in
      finish_meta idx.

(** ** From a block of the file to a block of the disk *)

Definition zero_sector : list byte := zeros SECTOR_SIZE.
(** A field of the inode that names a block of pointers; a new one is cleared on the disk. *)
Definition table_block (idx : Z) (get : catfs_inode -> Z) (put : Z -> catfs_inode -> catfs_inode) (create : bool) : C (option Z) :=
  let* x := cinode idx in
  if negb (get x =? 0) then ret (Some (get x))
  else if negb create then ret None
  else
    let* nb := bm_alloc in
    if nb <? 0 then ret None
    else do* upd_cinode idx (put nb) in do* blk_write nb zero_sector in ret (Some nb).
(** Pointer [k] of the block [b]; a new block is cleared when [clear]. *)
Definition ptr_entry (b k : Z) (create clear : bool) : C (option Z) :=
  let* sec := blk_read b in
  match sec with
  | None => ret None
  | Some sec =>
    let v := num sec (4 * k) 4 in
    if negb (v =? 0) then ret (Some v)
    else if negb create then ret None
    else
      let* nb := bm_alloc in
      if nb <? 0 then ret None
      else
        let* w := blk_write b (splice sec (4 * k) (le_bytes 4 nb)) in
        if w <? 0 then ret None
        else do* (if clear then blk_write nb zero_sector else ret 0) in ret (Some nb)
  end.
Definition bind_blk (m : C (option Z)) (k : Z -> C (option Z)) : C (option Z) := let* b := m in match b with None => ret None | Some b => k b end.

Definition resolve_block (idx blk_i : Z) (create : bool) : C (option Z) :=
  if blk_i <? CATFS_DIRECT_BLOCKS then
    let* x := cinode idx in
    let* b := the (aget (ci_blocks x) blk_i) in
    if negb (b =? 0) then ret (Some b)
    else if negb create then ret None
    else
      let* nb := bm_alloc in
      if nb <? 0 then ret None
      else do* upd_cinode idx (fun x => x <| ci_blocks := aset (ci_blocks x) blk_i nb |>) in ret (Some nb)
  else
    let blk_i := blk_i - CATFS_DIRECT_BLOCKS in
    if blk_i <? CATFS_PTRS_PER_BLOCK then
      bind_blk (table_block idx ci_indirect (fun b x => x <| ci_indirect := b |>) create) (fun b => ptr_entry b blk_i create false)
    else
      let blk_i := blk_i - CATFS_PTRS_PER_BLOCK in
      let l1_idx := blk_i / CATFS_PTRS_PER_BLOCK in
      let l2_idx := blk_i mod CATFS_PTRS_PER_BLOCK in
      if CATFS_PTRS_PER_BLOCK <=? l1_idx then ret None
      else
        bind_blk (table_block idx ci_dindirect (fun b x => x <| ci_dindirect := b |>) create) (fun d =>
        bind_blk (ptr_entry d l1_idx create true) (fun b => ptr_entry b l2_idx create false)).

(** ** Reading and writing *)

Fixpoint read_loop (fuel : nat) (idx offset len done : Z) : C (list byte) :=
  if len <=? done then ret []
  else
    match fuel with
    | O => fault
    | S fuel' =>
      let blk_i := u32 (offset + done) / CATFS_BLOCK_SIZE in
      let blk_off := u32 (offset + done) mod CATFS_BLOCK_SIZE in
      let* phys := resolve_block idx blk_i false in
      match phys with
      | None => ret []
      | Some phys =>
        let* tmp := blk_read phys in
        match tmp with
        | None => ret []
        | Some tmp =>
          let chunk := Z.min (len - done) (CATFS_BLOCK_SIZE - blk_off) in
          let* rest := read_loop fuel' idx offset len (done + chunk) in
          ret (part tmp blk_off chunk ++ rest)
        end
      end
    end.
Definition io_fuel (len : Z) : nat := Z.to_nat (len / CATFS_BLOCK_SIZE + 2).
(** The result, and what is stored in the buffer. *)
Definition catfs_read (idx offset len : Z) : C (Z * list byte) :=
  let* bad := bad_index 0 idx in
  if bad then ret (-1, [])
  else
    let* x := cinode idx in
    if ci_type x =? CATFS_TYPE_FREE then ret (-1, [])
    else if ci_size x <=? offset then ret (0, [])
    else
      let len := if ci_size x <? u32 (offset + len) then ci_size x - offset else len in
      let* bs := read_loop (io_fuel len) idx offset len 0 in
      let* t := catfs_now in
      do* upd_cinode idx (fun x => x <| ci_atime := t |>) in
      ret (i32 (zlen bs), bs).

(** The number of bytes written; a block that is written whole is not read before. *)
Fixpoint write_loop (fuel : nat) (idx offset written : Z) (buf : list byte) : C Z :=
  if zlen buf <=? 0 then ret written
  else
    match fuel with
    | O => fault
    | S fuel' =>
      let blk_i := u32 (offset + written) / CATFS_BLOCK_SIZE in
      let blk_off := u32 (offset + written) mod CATFS_BLOCK_SIZE in
      if CATFS_MAX_FILE_BLOCKS <=? blk_i then ret written
      else
        let* phys := resolve_block idx blk_i true in
        match phys with
        | None => ret written
        | Some phys =>
          let* tmp := (if negb (blk_off =? 0) || (zlen buf <? CATFS_BLOCK_SIZE) then let* sec := blk_read phys in ret (default zero_sector sec)
                       else ret zero_sector) in
          let chunk := Z.min (zlen buf) (CATFS_BLOCK_SIZE - blk_off) in
          let* w := blk_write phys (splice tmp blk_off (take (Z.to_nat chunk) buf)) in
          if w <? 0 then ret written else write_loop fuel' idx offset (written + chunk) (drop (Z.to_nat chunk) buf)
        end
    end.
Definition not_file (x : catfs_inode) : bool := (ci_type x =? CATFS_TYPE_FREE) || (ci_type x =? CATFS_TYPE_DIR).
Definition catfs_write (idx offset : Z) (buf : list byte) : C Z :=
  let* bad := bad_index 0 idx in
  if bad then ret (-1)
  else
    let* x := cinode idx in
    if not_file x then ret (-1)
    else
      let* written := write_loop (io_fuel (zlen buf)) idx offset 0 buf in
      let end_ := u32 (offset + written) in
      do* (if 0 <? written then
             do* journal_log CATFS_J_WRITE_META idx (ci_size x) end_ in
             let* t := catfs_now in
             do* upd_cinode idx (fun x => x <| ci_size := if ci_size x <? end_ then end_ else ci_size x |> <| ci_mtime := t |>) in
             do* sync_inode idx in
             do* sync_superblock in
             do* sync_bitmap in
             do* journal_commit in
             ret tt
           else ret tt) in
      ret (i32 written).

Definition catfs_truncate (idx new_size : Z) : C Z :=
  let* bad := bad_index 0 idx in
  if bad then ret (-1)
  else
    let* x := cinode idx in
    if not_file x then ret (-1)
    else
      let* r := journal_log CATFS_J_WRITE_META idx (ci_size x) new_size in
      if r <? 0 then ret (-1)
      else
        let* r := (if new_size <? ci_size x then free_blocks_from idx (u32 (new_size + CATFS_BLOCK_SIZE - 1) / CATFS_BLOCK_SIZE) else ret 0) in
        if r <? 0 then ret (-1)
        else
          let* t := catfs_now in
          do* upd_cinode idx (fun x => x <| ci_size := new_size |> <| ci_mtime := t |>) in
          let* r := sync_inode idx in
          if r <? 0 then ret (-1)
          else
            let* r := sync_superblock in
            if r <? 0 then ret (-1) else let* r := sync_bitmap in if r <? 0 then ret (-1) else journal_commit.

(** ** Listing *)

Fixpoint listdir_loop (dir_idx : Z) (l : list catfs_inode) : C (list cstr) :=
  match l with
  | [] => ret []
  | x :: l' =>
    if (ci_type x =? CATFS_TYPE_FREE) || negb (ci_parent x =? dir_idx) then listdir_loop dir_idx l'
    else
      let* n := the (cname (ci_name x)) in
      let n' := if ci_type x =? CATFS_TYPE_DIR then n ++ cs "/" else n in
      do* guard (zlen n' <? CATFS_NAME_MAX) in
      let* rest := listdir_loop dir_idx l' in
      ret (n' :: rest)
  end.
(** The result, and the names stored; [*count] is their number. *)
Definition catfs_listdir (dir_idx : Z) : C (Z * option (list cstr)) :=
  let* m := fs cf_mounted in
  if m =? 0 then ret (-1, None) else let* l := fs cf_inodes in let* names := listdir_loop dir_idx l in ret (0, Some names).

(** ** By path *)

Definition catfs_path_read (path : cstr) (off len : Z) : C (Z * list byte) :=
  let* idx := catfs_lookup path in if idx <? 0 then ret (-1, []) else catfs_read idx off len.
Definition catfs_path_write (path : cstr) (off : Z) (buf : list byte) : C Z :=
  let* idx := catfs_lookup path in
  let* idx := (if idx <? 0 then catfs_create path CATFS_TYPE_FILE else ret idx) in
  if idx <? 0 then ret (-1) else catfs_write idx off buf.
Definition catfs_path_create (path : cstr) : C Z := catfs_create path CATFS_TYPE_FILE.
Definition catfs_path_mkdir (path : cstr) : C Z := catfs_create path CATFS_TYPE_DIR.
Definition catfs_path_unlink (path : cstr) : C Z := let* idx := catfs_lookup path in catfs_unlink idx.
Definition catfs_path_size (path : cstr) : C Z :=
  let* idx := catfs_lookup path in if idx <? 0 then ret (-1) else let* x := cinode idx in ret (i32 (ci_size x)).
End CatfsOps.
