(* ===== verification/CatfsNames.v ===== *)
(** * Names in CatFS

    Looking up a path reads the table of inodes only: [look] is what it finds.  A path below a
    directory is found by the directory's path and then the last name.  The chain of parents of
    every inode ends at the root ([names_ok]). *)

From S2P Require Import Prelude Cstring Alloc Elf NativeApp Catfs CatfsOps.

(** ** Searches as functions of the table *)

(** None stands for a name without terminator, or a number outside the table. *)
Definition child_at (l : list catfs_inode) (parent : Z) (name : cstr) (i : Z) : option bool :=
  match aget l i with
  | None => None
  | Some x =>
    if ci_type x =? CATFS_TYPE_FREE then Some false
    else if ci_parent x =? parent then (fun n => bool_decide (n = name)) <$> cname (ci_name x) else Some false
  end.
Fixpoint first_at (p : Z -> option bool) (l : list Z) : option (option Z) :=
  match l with
  | [] => Some None
  | i :: l' => match p i with None => None | Some true => Some (Some i) | Some false => first_at p l' end
  end.
Fixpoint look_loop (fuel : nat) (l : list catfs_inode) (cur : Z) (p : cstr) : option Z :=
  match fuel with
  | O => None
  | S fuel' =>
    if bool_decide (p = []) then Some cur
    else
      let '(comp, rest) := take_comp (Z.to_nat (CATFS_NAME_MAX - 1)) p in
      if bool_decide (comp = []) then look_loop fuel' l cur (skip_slash rest)
      else
        match first_at (child_at l cur comp) inodes_from1 with
        | None => None
        | Some None => Some (-1)
        | Some (Some i) => look_loop fuel' l i (skip_slash rest)
        end
  end.
Definition is_dir_root (l : list catfs_inode) : option bool := (fun x => ci_type x =? CATFS_TYPE_DIR) <$> aget l 0.
Definition look (l : list catfs_inode) (path : cstr) : option Z :=
  if bool_decide (path = [slash]) then Some 0
  else match is_dir_root l with None => None | Some false => Some (-1) | Some true => look_loop (S (length path)) l 0 (skip_slash path) end.

Section Reads.
Context {D H : Type} `{!Disk D} `{!Allocator H}.
Implicit Types s : cstate D H.

Definition answer {A} (o : option A) s : outcome (A * cstate D H) := match o with Some a => Done (a, s) | None => Fault end.

Lemma is_child_answer parent name i s : is_child parent name i s = answer (child_at (cf_inodes (c_fs s)) parent name i) s.
Proof.
  unfold is_child, child_at, bind, cinode, deref. destruct (aget _ i) as [x|]; [|done]. destruct (ci_type x =? _); [done|]. destruct (ci_parent x =? parent); [|done].
  unfold the, deref. by destruct (cname (ci_name x)).
Qed.
Lemma search_answer (p : Z -> M (cstate D H) bool) q l s : (forall i, p i s = answer (q i) s) -> search_inode p l s = answer (first_at q l) s.
Proof.
  intros Hp. induction l as [|i l IH]; [done|]. cbn [search_inode first_at]. unfold bind. rewrite Hp. unfold answer at 1. destruct (q i) as [[]|]; [done|exact IH|done].
Qed.
Lemma look_loop_answer fuel : forall cur p s, lookup_loop fuel cur p s = answer (look_loop fuel (cf_inodes (c_fs s)) cur p) s.
Proof.
  induction fuel as [|fuel IH]; intros cur p s; [done|]. cbn [lookup_loop look_loop]. case_bool_decide; [done|]. destruct (take_comp _ p) as [comp rest]. case_bool_decide; [apply IH|].
  unfold bind. rewrite (search_answer _ (child_at (cf_inodes (c_fs s)) cur comp)) by (intros; apply is_child_answer). destruct (first_at _ _) as [[i|]|]; [apply IH|done|done].
Qed.
Lemma lookup_answer path s : cf_mounted (c_fs s) = 1 -> catfs_lookup path s = answer (look (cf_inodes (c_fs s)) path) s.
Proof.
  intros Hm. unfold catfs_lookup, look, bind, fs, gets. rewrite Hm. cbn [Z.eqb]. case_bool_decide; [done|]. unfold cinode, deref, is_dir_root. destruct (aget _ 0) as [x|]; [|done]. cbn [fmap option_fmap option_map].
  destruct (ci_type x =? CATFS_TYPE_DIR); cbn [negb]; [apply look_loop_answer|done].
Qed.
End Reads.

(** ** The walk along a path *)

Lemma first_at_Some p l i : first_at p l = Some (Some i) -> i ∈ l /\ p i = Some true.
Proof. induction l as [|j l IH]; [done|]. cbn. destruct (p j) as [[]|] eqn:E; [|intros Hf; destruct (IH Hf); split; [by right|done]|done]. intros [= ->]. split; [left|done]. Qed.
Lemma first_at_None p l : first_at p l = Some None -> forall i, i ∈ l -> p i = Some false.
Proof. induction l as [|j l IH]; [by intros _ i ?%not_elem_of_nil|]. cbn. destruct (p j) as [[]|] eqn:E; [done| |done]. intros Hf i [->|Hi]%elem_of_cons; [done|]. by apply IH. Qed.
Lemma first_at_ext p q l : (forall i, i ∈ l -> p i = q i) -> first_at p l = first_at q l.
Proof.
  induction l as [|j l IH]; intros Hpq; [done|]. cbn. rewrite (Hpq j) by left. rewrite IH; [done|]. intros i Hi. apply Hpq. by right.
Qed.
Lemma take_comp_split n p comp rest : take_comp n p = (comp, rest) -> p = comp ++ rest.
Proof.
  revert p comp rest. induction n as [|n IH]; intros [|b p] comp rest; cbn; try (by intros [= <- <-]). case_bool_decide; [by intros [= <- <-]|].
  destruct (take_comp n p) as [c r] eqn:E. intros [= <- <-]. cbn. by rewrite (IH _ _ _ E).
Qed.
Lemma take_comp_app n d t : let '(comp, rest) := take_comp n d in take_comp n (d ++ slash :: t) = (comp, rest ++ slash :: t).
Proof.
  revert d. induction n as [|n IH]; intros [|b d]; cbn; try done. case_bool_decide; [done|]. specialize (IH d). destruct (take_comp n d) as [c r]. by rewrite IH.
Qed.
Lemma take_comp_all n p : (length p <= n)%nat -> slash ∉ p -> take_comp n p = (p, []).
Proof.
  revert p. induction n as [|n IH]; intros [|b p] Hl Hs; cbn in *; try done; [lia|]. rewrite bool_decide_false by (intros ->; apply Hs; left). rewrite IH; [done|lia|]. intros ?. apply Hs. by right.
Qed.
Lemma skip_slash_length p : (length (skip_slash p) <= length p)%nat.
Proof. destruct p as [|b p]; cbn; [lia|]. case_bool_decide; cbn; lia. Qed.
Lemma take_comp_some n b p : b <> slash -> (take_comp (S n) (b :: p)).1 <> [].
Proof. intros Hb. cbn [take_comp]. rewrite bool_decide_false by done. by destruct (take_comp n p). Qed.
Lemma take_comp_slash n p : take_comp (S n) (slash :: p) = ([], slash :: p).
Proof. cbn [take_comp]. by rewrite bool_decide_true. Qed.
(** A component, or the slash in its place, is used up. *)
Lemma comp_shorter p comp rest : p <> [] -> take_comp (Z.to_nat (CATFS_NAME_MAX - 1)) p = (comp, rest) -> (length (skip_slash rest) < length p)%nat.
Proof.
  intros Hp E. pose proof (take_comp_split _ _ _ _ E) as ->. rewrite length_app. pose proof (skip_slash_length rest). destruct comp as [|b comp]; cbn; [|lia].
  destruct rest as [|b rest]; [done|]. cbn [skip_slash app length]. destruct (decide (b = slash)) as [Hb|Hb]; [rewrite bool_decide_true by done; lia|].
  exfalso. change (Z.to_nat (CATFS_NAME_MAX - 1)) with (S 54) in E. change ([] ++ b :: rest) with (b :: rest) in E. apply (take_comp_some 54 b rest Hb). by rewrite E.
Qed.
(** More fuel than bytes changes nothing. *)
Lemma look_fuel l fuel : forall fuel' cur p, (length p < fuel)%nat -> (length p < fuel')%nat -> look_loop fuel l cur p = look_loop fuel' l cur p.
Proof.
  induction fuel as [|fuel IH]; intros [|fuel'] cur p H1 H2; try lia. cbn [look_loop]. case_bool_decide as Hp; [done|]. destruct (take_comp _ p) as [comp rest] eqn:E. pose proof (comp_shorter _ _ _ Hp E).
  case_bool_decide; [apply IH; lia|]. destruct (first_at _ _) as [[i|]|]; [apply IH; lia|done|done].
Qed.
Lemma look_nil l fuel cur : look_loop (S fuel) l cur [] = Some cur.
Proof. done. Qed.
Lemma look_slash l fuel cur t : look_loop (S fuel) l cur (slash :: t) = look_loop fuel l cur t.
Proof. cbn [look_loop]. rewrite bool_decide_false by done. change (Z.to_nat (CATFS_NAME_MAX - 1)) with (S 54). rewrite take_comp_slash. done. Qed.
(** A path in two parts: the walk along the first, then along the second. *)
Lemma look_split l fuel : forall d t cur, (length d + S (length t) < fuel)%nat ->
  look_loop fuel l cur (d ++ slash :: t) = match look_loop fuel l cur d with Some i => if i =? -1 then Some (-1) else look_loop fuel l i t | None => None end \/ cur = -1.
Proof.
  induction fuel as [|fuel IH]; intros d t cur Hf; [lia|]. destruct (decide (cur = -1)) as [|Hc]; [by right|left]. destruct (decide (d = [])) as [->|Hd].
  - cbn [app]. rewrite look_slash, look_nil. destruct (Z.eqb_spec cur (-1)); [done|]. cbn [length] in Hf. apply look_fuel; lia.
  - cbn [look_loop]. rewrite bool_decide_false by (by destruct d). rewrite (bool_decide_false (d = [])) by done. pose proof (take_comp_app (Z.to_nat (CATFS_NAME_MAX - 1)) d t) as E.
    destruct (take_comp _ d) as [comp rest] eqn:E1. rewrite E. pose proof (comp_shorter _ _ _ Hd E1) as Hsh.
    assert (Hskip : skip_slash (rest ++ slash :: t) = if decide (rest = []) then t else skip_slash rest ++ slash :: t).
    { destruct rest as [|b rest]; cbn; [by rewrite bool_decide_true|]. by case_bool_decide. }
    assert (Hstep : forall i, i <> -1 -> look_loop fuel l i (skip_slash (rest ++ slash :: t)) =
      match look_loop fuel l i (skip_slash rest) with Some j => if j =? -1 then Some (-1) else look_loop (S fuel) l j t | None => None end).
    { intros i Hi. rewrite Hskip. case_decide as Hr.
      - subst rest. cbn [skip_slash]. destruct fuel as [|fuel]; [lia|]. rewrite look_nil. destruct (Z.eqb_spec i (-1)); [done|]. cbn [length] in Hsh. apply look_fuel; lia.
      - destruct (IH (skip_slash rest) t i) as [->|?]; [lia| |done]. destruct (look_loop fuel l i (skip_slash rest)) as [j|]; [|done]. destruct (j =? -1); [done|]. apply look_fuel; lia. }
    case_bool_decide as Hcomp; [by apply Hstep|].
    destruct (first_at (child_at l cur comp) inodes_from1) as [[i|]|] eqn:Ef; [|done|done]. apply Hstep. apply first_at_Some in Ef as [Hi _]. apply elem_of_seqZ in Hi. lia.
Qed.

(** ** A name added *)

Lemma last_slash_spec p : forall i last, (last_slash_at p i last = last /\ (slash ∉ p)) \/
  (exists d t, p = d ++ slash :: t /\ (slash ∉ t) /\ last_slash_at p i last = i + zlen d).
Proof.
  induction p as [|b p IH]; intros i last; cbn [last_slash_at]; [left; split; [done|apply not_elem_of_nil]|].
  destruct (IH (i + 1) (if bool_decide (b = slash) then i else last)) as [[E Hn]|(d & t & -> & Ht & E)].
  - rewrite E. case_bool_decide as Hb; [right; exists [], p; subst; cbn; split_and!; [done|done|lia]|left; split; [done|]]. apply not_elem_of_cons. split; [congruence|done].
  - right. exists (b :: d), t. rewrite E. cbn [app length]. split_and!; [done|done|lia].
Qed.
(** An absolute path is its directory, a slash and its last name. *)
Lemma split_last_abs path dir base : head path = Some slash -> split_last path = Some (dir, base) ->
  exists d, path = slash :: d ++ base /\ (slash ∉ base) /\ (length base < 56)%nat /\ ((d = [] /\ dir = [slash]) \/ exists d', d = d' ++ [slash] /\ dir = slash :: d').
Proof.
  destruct path as [|b path]; [done|]. intros [= ->]. unfold split_last. cbn [last_slash_at]. rewrite bool_decide_true by done. change (0 + 1) with 1. cbv zeta.
  destruct (last_slash_spec path 1 0) as [[-> Hn]|(d & t & -> & Ht & E)].
  - destruct (_ && _) eqn:Hc; [|done]. apply andb_prop in Hc as [_ Hc]. change (Z.to_nat 0 + 1)%nat with 1%nat in *. cbn [drop] in *. intros [= <- <-]. exists []. apply Z.ltb_lt in Hc. change CATFS_NAME_MAX with 56 in Hc.
    split_and!; [done|done|lia|by left].
  - rewrite E. destruct (Z.eqb_spec (1 + zlen d) 0); [lia|]. destruct (_ && _) eqn:Hc; [|done]. apply andb_prop in Hc as [_ Hc].
    replace (Z.to_nat (1 + zlen d)) with (S (length d)) in * by lia. cbn [take] in *. assert (Et : take (length d) (d ++ slash :: t) = d) by apply take_app_length.
    assert (Ed : drop (S (length d) + 1) (slash :: d ++ slash :: t) = t).
    { replace (S (length d) + 1)%nat with (S (length d + 1)) by lia. cbn [drop]. rewrite <- drop_drop, drop_app_length. done. }
    rewrite Ed in *. rewrite Et. intros [= <- <-]. apply Z.ltb_lt in Hc. change CATFS_NAME_MAX with 56 in Hc. exists (d ++ [slash]). split_and!; [by rewrite <- app_assoc|done|lia|]. right. by exists d.
Qed.

Lemma app_slash_inj (d d' t t' : cstr) : d ++ slash :: t = d' ++ slash :: t' -> slash ∉ t -> slash ∉ t' -> d = d' /\ t = t'.
Proof.
  revert d'. induction d as [|b d IH]; intros [|b' d'] E Ht Ht'; cbn in E.
  - by injection E as ->.
  - injection E as <- ->. exfalso. apply Ht, elem_of_app. right. left.
  - injection E as -> <-. exfalso. apply Ht', elem_of_app. right. left.
  - injection E as -> E. destruct (IH d' E Ht Ht') as [-> ->]. done.
Qed.
Lemma split_last_top base : slash ∉ base -> zlen base < CATFS_NAME_MAX -> split_last (slash :: base) = Some ([slash], base).
Proof.
  intros Hs Hl. unfold split_last. cbn [last_slash_at]. rewrite bool_decide_true by done. change (0 + 1) with 1. destruct (last_slash_spec base 1 0) as [[-> _]|(d & t & E & _)]; [|exfalso; apply Hs; rewrite E; apply elem_of_app; right; left].
  cbv zeta. change (drop (Z.to_nat 0 + 1) (slash :: base)) with base. rewrite (proj2 (Z.ltb_lt _ _) Hl). destruct (Z.ltb_spec 0 (zlen (slash :: base))) as [|Hn]; [done|cbn in Hn; lia].
Qed.
Lemma split_last_below d base : slash ∉ base -> zlen base < CATFS_NAME_MAX -> split_last (slash :: d ++ slash :: base) = if zlen d + 1 <? 64 then Some (slash :: d, base) else None.
Proof.
  intros Hs Hl. unfold split_last. cbn [last_slash_at]. rewrite bool_decide_true by done. change (0 + 1) with 1. destruct (last_slash_spec (d ++ slash :: base) 1 0) as [[_ Hn]|(d' & t & E & Ht & ->)]; [exfalso; apply Hn, elem_of_app; right; left|].
  destruct (app_slash_inj _ _ _ _ E Hs Ht) as [<- <-]. cbv zeta. destruct (Z.eqb_spec (1 + zlen d) 0); [lia|]. replace (Z.to_nat (1 + zlen d)) with (S (length d)) by lia. cbn [take].
  assert (Et : take (length d) (d ++ slash :: base) = d) by apply take_app_length. assert (Ed : drop (S (length d) + 1) (slash :: d ++ slash :: base) = base).
  { replace (S (length d) + 1)%nat with (S (length d + 1)) by lia. cbn [drop]. rewrite <- drop_drop, drop_app_length. done. }
  rewrite Et, Ed, (proj2 (Z.ltb_lt _ _) Hl), andb_true_r. cbn [length]. replace (Z.of_nat (S (length d))) with (zlen d + 1) by lia. destruct (Z.ltb_spec 0 (Z.of_nat (S (length (d ++ slash :: base))))); [done|lia].
Qed.

Section Insert.
Context (l : list catfs_inode) (i : Z) (x x' : catfs_inode) (p : Z) (base : cstr).
Hypothesis Hi : 1 <= i < 256.
Hypothesis Hlen : 256 <= zlen l.
Hypothesis Hx : aget l i = Some x.
Hypothesis Hfree : ci_type x = CATFS_TYPE_FREE.
Hypothesis Hused : ci_type x' <> CATFS_TYPE_FREE.
Hypothesis Hpar : ci_parent x' = p.
Hypothesis Hname : cname (ci_name x') = Some base.
Hypothesis Hnone : first_at (child_at l p base) inodes_from1 = Some None.

Lemma child_inserted cur comp k : child_at (aset l i x') cur comp k = if decide (k = i) then Some (bool_decide (cur = p /\ comp = base)) else child_at l cur comp k.
Proof.
  unfold child_at. case_decide as Hk; [subst k; rewrite aget_aset_eq by lia|by rewrite aget_aset_ne by congruence]. destruct (Z.eqb_spec (ci_type x') CATFS_TYPE_FREE); [done|]. rewrite Hpar.
  destruct (Z.eqb_spec p cur) as [->|Hn]; [rewrite Hname; cbn; f_equal; apply bool_decide_ext; split; [by intros ->|by intros [_ ->]]|].
  f_equal. symmetry. apply bool_decide_eq_false. intros [E _]. congruence.
Qed.
Lemma first_inserted cur comp j : first_at (child_at l cur comp) inodes_from1 = Some (Some j) -> first_at (child_at (aset l i x') cur comp) inodes_from1 = Some (Some j).
Proof.
  intros E. rewrite <- E. apply first_at_ext. intros k Hk. rewrite child_inserted. case_decide; [subst k|done]. rewrite bool_decide_eq_false_2 by (intros [-> ->]; congruence).
  unfold child_at. rewrite Hx, Hfree. done.
Qed.
Lemma first_new : first_at (child_at (aset l i x') p base) inodes_from1 = Some (Some i).
Proof.
  assert (Hg : forall ls, (forall k, k ∈ ls -> child_at l p base k = Some false) -> i ∈ ls -> first_at (child_at (aset l i x') p base) ls = Some (Some i)).
  { induction ls as [|k ls IH]; intros Hf Hin; [by apply not_elem_of_nil in Hin|]. cbn [first_at]. rewrite child_inserted. case_decide as Hk; [subst; by rewrite bool_decide_true|].
    rewrite Hf by left. apply IH; [intros; apply Hf; by right|]. by apply elem_of_cons in Hin as [->|]. }
  apply Hg; [by apply first_at_None|]. apply elem_of_seqZ. change CATFS_INODE_MAX with 256. lia.
Qed.
Lemma look_inserted fuel : forall cur q r, look_loop fuel l cur q = Some r -> r <> -1 -> look_loop fuel (aset l i x') cur q = Some r.
Proof.
  induction fuel as [|fuel IH]; intros cur q r; [done|]. cbn [look_loop]. case_bool_decide; [done|]. destruct (take_comp _ q) as [comp rest]. case_bool_decide; [apply IH|].
  destruct (first_at (child_at l cur comp) inodes_from1) as [[j|]|] eqn:E; [|intros [= <-]; done|done]. rewrite (first_inserted _ _ _ E). apply IH.
Qed.
End Insert.

(** The last name of a path, looked for below its directory. *)
Lemma look_base l fuel p base : base <> [] -> slash ∉ base -> (length base < 56)%nat ->
  look_loop (S (S fuel)) l p base = match first_at (child_at l p base) inodes_from1 with None => None | Some None => Some (-1) | Some (Some i) => Some i end.
Proof.
  intros Hb Hs Hl. change (look_loop (S (S fuel)) l p base) with (if bool_decide (base = []) then Some p else
    let '(comp, rest) := take_comp (Z.to_nat (CATFS_NAME_MAX - 1)) base in
    if bool_decide (comp = []) then look_loop (S fuel) l p (skip_slash rest)
    else match first_at (child_at l p comp) inodes_from1 with None => None | Some None => Some (-1) | Some (Some i) => look_loop (S fuel) l i (skip_slash rest) end).
  rewrite bool_decide_false by done. rewrite take_comp_all by (done || (change (Z.to_nat (CATFS_NAME_MAX - 1)) with 55%nat; lia)). rewrite bool_decide_false by done. by destruct (first_at _ _) as [[i|]|].
Qed.
Lemma look_top l base : base <> [] -> slash ∉ base -> (length base < 56)%nat -> is_dir_root l = Some true ->
  look l (slash :: base) = match first_at (child_at l 0 base) inodes_from1 with None => None | Some None => Some (-1) | Some (Some i) => Some i end.
Proof.
  intros Hb Hs Hl Hroot. unfold look. rewrite bool_decide_false by (intros [= E]; done). rewrite Hroot. cbn [skip_slash]. rewrite bool_decide_true by done. destruct base as [|b base]; [done|]. cbn [length]. by apply look_base.
Qed.
Lemma look_below l d base p : base <> [] -> slash ∉ base -> (length base < 56)%nat -> is_dir_root l = Some true -> look l (slash :: d) = Some p -> p <> -1 ->
  look l (slash :: d ++ slash :: base) = match first_at (child_at l p base) inodes_from1 with None => None | Some None => Some (-1) | Some (Some i) => Some i end.
Proof.
  intros Hb Hs Hl Hroot Hdir Hp. unfold look. rewrite bool_decide_false by (intros [= E]; destruct d, base; done). rewrite Hroot. cbn [skip_slash]. rewrite bool_decide_true by done.
  set (fuel := S (length (slash :: d ++ slash :: base))). destruct (look_split l fuel d base 0) as [->|]; [unfold fuel; cbn [length]; rewrite length_app; cbn [length]; lia| |done].
  assert (E : look_loop fuel l 0 d = Some p).
  { unfold look in Hdir. case_bool_decide as Hd; [injection Hd as ->; injection Hdir as <-; done|]. rewrite Hroot in Hdir. cbn [skip_slash] in Hdir. rewrite bool_decide_true in Hdir by done. rewrite <- Hdir.
    apply look_fuel; unfold fuel; cbn [length]; rewrite ?length_app; lia. }
  rewrite E. destruct (Z.eqb_spec p (-1)); [done|]. unfold fuel. cbn [length]. rewrite length_app. cbn [length]. replace (S (S (length d + S (length base)))) with (S (S (S (length d + length base)))) by lia. by apply look_base.
Qed.
Lemma look_path l path dir base p : head path = Some slash -> split_last path = Some (dir, base) -> base <> [] -> look l dir = Some p -> p <> -1 -> is_dir_root l = Some true ->
  look l path = match first_at (child_at l p base) inodes_from1 with None => None | Some None => Some (-1) | Some (Some i) => Some i end.
Proof.
  intros Habs Hsp Hbase Hdir Hp Hroot. destruct (split_last_abs path dir base Habs Hsp) as (d & -> & Hs & Hl & [[-> ->]|(d' & -> & ->)]).
  - unfold look in Hdir. rewrite bool_decide_true in Hdir by done. injection Hdir as <-. by apply look_top.
  - rewrite <- app_assoc. by apply look_below.
Qed.
(** A path that is not found, in a directory that is: its last name is new there. *)
Lemma fresh_name l path dir base p r : head path = Some slash -> split_last path = Some (dir, base) -> look l dir = Some p -> 0 <= p -> look l path = Some r -> r < 0 -> is_dir_root l = Some true ->
  base <> [] /\ first_at (child_at l p base) inodes_from1 = Some None.
Proof.
  intros Habs Hsp Hdir Hp Hold Hr Hroot.
  assert (Hbase : base <> []).
  { intros ->. destruct (split_last_abs path dir [] Habs Hsp) as (d & -> & _ & _ & [[-> ->]|(d' & -> & ->)]); [unfold look in Hold; rewrite bool_decide_true in Hold by done; simplify_eq; lia|].
    unfold look in Hold. rewrite bool_decide_false in Hold by (intros [= E]; by destruct d'). rewrite Hroot in Hold. cbn [skip_slash] in Hold. rewrite bool_decide_true in Hold by done.
    rewrite app_nil_r in Hold. destruct (look_split l (S (length (slash :: d' ++ [slash]))) d' [] 0) as [E|]; [cbn [length]; rewrite length_app; cbn [length]; lia| |done]. rewrite Hold in E.
    assert (E' : look_loop (S (length (slash :: d' ++ [slash]))) l 0 d' = Some p).
    { unfold look in Hdir. case_bool_decide as Hd'; [injection Hd' as ->; by injection Hdir as <-|]. rewrite Hroot in Hdir. cbn [skip_slash] in Hdir. rewrite bool_decide_true in Hdir by done. rewrite <- Hdir.
      apply look_fuel; cbn [length]; rewrite ?length_app; lia. }
    rewrite E' in E. destruct (Z.eqb_spec p (-1)); [lia|]. rewrite look_nil in E. injection E as ->. lia. }
  split; [done|]. rewrite (look_path l path dir base p) in Hold by (done || lia). destruct (first_at _ _) as [[j|]|] eqn:E; [|done|done]. injection Hold as <-. apply first_at_Some in E as [Hj _]. apply elem_of_seqZ in Hj. lia.
Qed.
Lemma look_created l i x x' path dir base p r : 1 <= i < 256 -> 256 <= zlen l -> aget l i = Some x -> ci_type x = CATFS_TYPE_FREE -> ci_type x' <> CATFS_TYPE_FREE -> ci_parent x' = p ->
  cname (ci_name x') = Some base -> head path = Some slash -> split_last path = Some (dir, base) -> look l dir = Some p -> 0 <= p -> look l path = Some r -> r < 0 -> is_dir_root l = Some true ->
  look (aset l i x') path = Some i /\ forall q k, look l q = Some k -> k <> -1 -> look (aset l i x') q = Some k.
Proof.
  intros Hi Hlen Hx Hfree Hused Hpar Hname Habs Hsp Hdir Hp Hold Hr Hroot.
  destruct (fresh_name l path dir base p r) as [Hbase Hnone]; try done.
  assert (Hr0 : is_dir_root (aset l i x') = Some true) by (unfold is_dir_root in *; by rewrite aget_aset_ne by lia).
  assert (Hkeep : forall q k, look l q = Some k -> k <> -1 -> look (aset l i x') q = Some k).
  { intros q k Hq Hk. unfold look in *. destruct (decide (q = [slash])) as [Hd|Hd]; [by rewrite bool_decide_true in * by done|]. rewrite bool_decide_false in * by done. rewrite Hr0, Hroot in *.
    by eapply (look_inserted l i x x' p base). }
  split; [|done]. rewrite (look_path (aset l i x') path dir base p); [by rewrite (first_new l i x x' p base)|done..|apply Hkeep; [done|lia]|lia|done].
Qed.

(** ** Results and names *)

Lemma look_loop_range l fuel : forall cur q r, -1 <= cur < 256 -> look_loop fuel l cur q = Some r -> -1 <= r < 256.
Proof.
  induction fuel as [|fuel IH]; intros cur q r Hc; [done|]. cbn [look_loop]. case_bool_decide; [by intros [= <-]|]. destruct (take_comp _ q) as [comp rest]. case_bool_decide; [by apply IH|].
  destruct (first_at _ _) as [[j|]|] eqn:E; [|intros [= <-]; lia|done]. apply IH. apply first_at_Some in E as [Hj _]. apply elem_of_seqZ in Hj. change CATFS_INODE_MAX with 256 in Hj. lia.
Qed.
Lemma look_range l path r : look l path = Some r -> -1 <= r < 256.
Proof. unfold look. case_bool_decide; [intros [= <-]; lia|]. destruct (is_dir_root l) as [[]|]; [|intros [= <-]; lia|done]. apply look_loop_range. lia. Qed.
Lemma poke_str_length arr str n : poke_str arr str = Some n -> length n = length arr.
Proof. unfold poke_str. destruct (Z.ltb_spec (zlen str) (zlen arr)); [|done]. intros [= <-]. rewrite length_app. cbn [app length]. rewrite length_drop. lia. Qed.
Lemma cname_poke arr str n : nul ∉ str -> poke_str arr str = Some n -> cname n = Some str.
Proof.
  intros Hn. unfold poke_str. destruct (zlen str <? zlen arr); [|done]. intros [= <-]. generalize (drop (length str + 1) arr) as t. intros t. induction str as [|b str IH]; [done|].
  apply not_elem_of_cons in Hn as [Hb Hn]. cbn [app cname]. rewrite bool_decide_false by congruence. by rewrite IH.
Qed.

(** ** The chain of parents *)

(** From [i] the parents end at the root's, below zero, in [n] steps. *)
Inductive ends (l : list catfs_inode) : Z -> nat -> Prop :=
  | ends_root i : i < 0 -> ends l i 0
  | ends_up i x n : 0 <= i -> aget l i = Some x -> ends l (ci_parent x) n -> ends l i (S n).
(** The same, without meeting [r]. *)
Inductive avoids (l : list catfs_inode) (r : Z) : Z -> Prop :=
  | av_root i : i < 0 -> avoids l r i
  | av_up i x : 0 <= i -> i <> r -> aget l i = Some x -> avoids l r (ci_parent x) -> avoids l r i.
(** Names with their terminators, the root at the top, and no directory below itself. *)
Record names_ok (l : list catfs_inode) : Prop := {
  nk_name i x : aget l i = Some x -> is_Some (cname (ci_name x));
  nk_root x : aget l 0 = Some x -> ci_parent x < 0;
  nk_ends i : 0 <= i < zlen l -> exists n, ends l i n }.

Lemma ends_det l i n : ends l i n -> forall m, ends l i m -> n = m.
Proof.
  induction 1 as [i Hi|i x n Hi Hx He IH]; intros m Hm; inversion Hm as [|? y k Hi' Hy He']; subst; try lia. rewrite Hx in Hy. injection Hy as <-. f_equal. by apply IH.
Qed.
(** Every inode is met once. *)
Lemma ends_bound l i n : ends l i n -> (n <= length l)%nat.
Proof.
  intros He. enough (Hc : exists ns : list Z, length ns = n /\ NoDup ns /\ forall j, j ∈ ns -> 0 <= j < zlen l /\ exists m, ends l j m /\ (m <= n)%nat).
  { destruct Hc as (ns & <- & Hnd & Hns). transitivity (length (seqZ 0 (zlen l))); [|rewrite length_seqZ; lia]. apply NoDup_incl_length; [by apply NoDup_ListNoDup|].
    intros j Hj. apply list_elem_of_In, elem_of_seqZ. apply list_elem_of_In in Hj. destruct (Hns j Hj). lia. }
  induction He as [i Hi|i x n Hi Hx He (ns & Hl & Hnd & Hns)]; [exists []; split_and!; [done|constructor|by intros j ?%not_elem_of_nil]|].
  exists (i :: ns). split_and!; [by cbn; rewrite Hl|apply list.NoDup_cons; split; [|done]|].
  - intros Hin. destruct (Hns i Hin) as (_ & m & Hm & Hle). assert (S n = m) by (eapply ends_det; [by econstructor|done]). lia.
  - intros j [->|Hj]%elem_of_cons; [split; [by eapply aget_Some_range|exists (S n); split; [by econstructor|done]]|]. destruct (Hns j Hj) as (Hr & m & Hm & Hle). split; [done|]. exists m. split; [done|lia].
Qed.
Lemma ends_ext l l' : (forall i, ci_parent <$> aget l' i = ci_parent <$> aget l i) -> forall i n, ends l i n -> ends l' i n.
Proof.
  intros Hp i n. induction 1 as [i Hi|i x n Hi Hx He IH]; [by constructor|]. specialize (Hp i). rewrite Hx in Hp. destruct (aget l' i) as [y|] eqn:Hy; [|done]. injection Hp as Hp.
  econstructor; [done|exact Hy|by rewrite Hp].
Qed.
(** A parent changed for one whose own chain does not pass here. *)
Lemma ends_set l r x' : 0 <= r < zlen l -> avoids l r (ci_parent x') -> forall i n, ends l i n -> exists m, ends (aset l r x') i m.
Proof.
  intros Hr Hav. assert (Hq : forall q, avoids l r q -> exists m, ends (aset l r x') q m).
  { intros q. induction 1 as [i Hi|i x Hi Hne Hx Ha [m IH]]; [exists 0%nat; by constructor|]. exists (S m). econstructor; [done|by rewrite aget_aset_ne by congruence|done]. }
  destruct (Hq _ Hav) as [q Hq']. intros i n. induction 1 as [i Hi|i x n Hi Hx He [m IH]]; [exists 0%nat; by constructor|]. destruct (decide (i = r)) as [->|Hne].
  - exists (S q). econstructor; [lia|by apply aget_aset_eq|done].
  - exists (S m). econstructor; [done|by rewrite aget_aset_ne by congruence|done].
Qed.
Lemma names_set l r x x' : names_ok l -> aget l r = Some x -> is_Some (cname (ci_name x')) -> (r = 0 -> ci_parent x' < 0) -> (ci_parent x' = ci_parent x \/ avoids l r (ci_parent x')) -> names_ok (aset l r x').
Proof.
  intros [Hn Hr He] Hx Hname Hroot Hp. pose proof (aget_Some_range _ _ _ Hx) as Hrange. split.
  - intros i y. destruct (decide (i = r)) as [->|Hne]; [rewrite aget_aset_eq by done; by intros [= <-]|rewrite aget_aset_ne by congruence; apply Hn].
  - intros y. destruct (decide (r = 0)) as [->|Hne]; [rewrite aget_aset_eq by done; intros [= <-]; by apply Hroot|rewrite aget_aset_ne by congruence; apply Hr].
  - rewrite aset_length. intros i Hi. destruct (He i Hi) as [n Hn']. destruct Hp as [Hp|Hp]; [|by eapply ends_set]. exists n. eapply ends_ext; [|exact Hn']. intros j. destruct (decide (j = r)) as [->|Hne].
    + rewrite aget_aset_eq, Hx by done. cbn. by rewrite Hp.
    + by rewrite aget_aset_ne by congruence.
Qed.
(** Inodes changed elsewhere than in name and parent. *)
Lemma names_ext l l' : length l' = length l -> (forall i x', aget l' i = Some x' -> exists x, aget l i = Some x /\ ci_name x' = ci_name x /\ ci_parent x' = ci_parent x) -> names_ok l -> names_ok l'.
Proof.
  intros Hlen Hs [Hn Hr He]. split.
  - intros i y Hy. destruct (Hs i y Hy) as (x & Hx & -> & _). by eapply Hn.
  - intros y Hy. destruct (Hs 0 y Hy) as (x & Hx & _ & ->). by apply Hr.
  - rewrite Hlen. intros i Hi. destruct (He i Hi) as [n Hn']. exists n. eapply ends_ext; [|exact Hn']. intros j. destruct (aget l' j) as [y|] eqn:Hy; [destruct (Hs j y Hy) as (x & -> & _ & E); cbn; by rewrite E|].
    destruct (aget l j) as [x|] eqn:Hx; [|done]. apply aget_Some_range in Hx. rewrite <- Hlen in Hx. destruct (aget_is_Some _ _ Hx). congruence.
Qed.

(** A walk ends in a used inode or at the root, and never passes a free one. *)
Lemma root_avoids l r : names_ok l -> 1 <= r -> 0 < zlen l -> avoids l r 0.
Proof. intros Hok Hr Hl. destruct (aget_is_Some l 0) as [x Hx]; [lia|]. econstructor; [lia|lia|exact Hx|]. constructor. by eapply nk_root. Qed.
Lemma look_loop_avoids l r x : aget l r = Some x -> ci_type x = CATFS_TYPE_FREE -> forall fuel cur q i, avoids l r cur -> look_loop fuel l cur q = Some i -> 0 <= i -> avoids l r i.
Proof.
  intros Hx Hfree. induction fuel as [|fuel IH]; intros cur q i Ha; [done|]. cbn [look_loop]. case_bool_decide; [by intros [= <-]|]. destruct (take_comp _ q) as [comp rest]. case_bool_decide; [by apply IH|].
  destruct (first_at _ _) as [[j|]|] eqn:E; [|intros [= <-]; lia|done]. apply IH. apply first_at_Some in E as [Hj Hc]. apply elem_of_seqZ in Hj. unfold child_at in Hc.
  destruct (aget l j) as [y|] eqn:Hy; [|done]. destruct (Z.eqb_spec (ci_type y) CATFS_TYPE_FREE); [done|]. destruct (Z.eqb_spec (ci_parent y) cur) as [Ep|]; [|done].
  econstructor; [lia| |exact Hy|by rewrite Ep]. intros ->. congruence.
Qed.
Lemma look_avoids l r x path i : names_ok l -> 1 <= r -> aget l r = Some x -> ci_type x = CATFS_TYPE_FREE -> look l path = Some i -> 0 <= i -> avoids l r i.
Proof.
  intros Hok Hr Hx Hfree. pose proof (aget_Some_range _ _ _ Hx). assert (avoids l r 0) by (apply root_avoids; [done|done|lia]). unfold look. case_bool_decide; [by intros [= <-]|].
  destruct (is_dir_root l) as [[]|]; [by eapply look_loop_avoids|intros [= <-]; lia|done].
Qed.
(** A lookup gives an answer. *)
Lemma child_total l p name i : names_ok l -> 0 <= i < zlen l -> is_Some (child_at l p name i).
Proof.
  intros Hok Hi. unfold child_at. destruct (aget_is_Some l i Hi) as [x Hx]. rewrite Hx. destruct (ci_type x =? _); [by eexists|]. destruct (ci_parent x =? p); [|by eexists].
  destruct (nk_name l Hok i x Hx) as [n ->]. by eexists.
Qed.
Lemma first_total p ls : (forall i, i ∈ ls -> is_Some (p i)) -> is_Some (first_at p ls).
Proof.
  induction ls as [|i ls IH]; intros Hp; [by eexists|]. cbn. destruct (Hp i ltac:(left)) as [[] ->]; [by eexists|]. apply IH. intros j Hj. apply Hp. by right.
Qed.
Lemma look_loop_total l : names_ok l -> zlen l = 256 -> forall fuel cur q, (length q < fuel)%nat -> is_Some (look_loop fuel l cur q).
Proof.
  intros Hok Hl. induction fuel as [|fuel IH]; intros cur q Hf; [lia|]. cbn [look_loop]. case_bool_decide as Hq; [by eexists|]. destruct (take_comp _ q) as [comp rest] eqn:E. pose proof (comp_shorter _ _ _ Hq E).
  case_bool_decide; [apply IH; lia|]. destruct (first_total (child_at l cur comp) inodes_from1) as [o Ho].
  { intros i Hi. apply elem_of_seqZ in Hi. change CATFS_INODE_MAX with 256 in Hi. apply child_total; [done|lia]. }
  rewrite Ho. destruct o as [j|]; [apply IH; lia|by eexists].
Qed.
Lemma look_total l path : names_ok l -> zlen l = 256 -> is_Some (look l path).
Proof.
  intros Hok Hl. unfold look. case_bool_decide; [by eexists|]. unfold is_dir_root. destruct (aget_is_Some l 0) as [x ->]; [lia|]. cbn [fmap option_fmap option_map]. destruct (ci_type x =? _); [|by eexists].
  apply look_loop_total; [done|done|]. pose proof (skip_slash_length path). lia.
Qed.
(** [kstrcpy] leaves a terminated name. *)
Lemma poke_named arr str n : poke_str arr str = Some n -> is_Some (cname n).
Proof.
  unfold poke_str. destruct (zlen str <? zlen arr); [|done]. intros [= <-]. generalize (drop (length str + 1) arr) as t. intros t. induction str as [|b str IH]; [by eexists|].
  cbn [app cname]. case_bool_decide; [by eexists|]. destruct IH as [m Hm]. cbn [app] in Hm. rewrite Hm. by eexists.
Qed.

(** ** Distinct names *)

Definition in_use (l : list catfs_inode) (i : Z) (x : catfs_inode) : Prop := 1 <= i /\ aget l i = Some x /\ ci_type x <> CATFS_TYPE_FREE.
(** Names that a path can hold, and no two of them the same in one directory. *)
Record tidy (l : list catfs_inode) : Prop := {
  td_name i x n : in_use l i x -> cname (ci_name x) = Some n -> n <> [] /\ (slash ∉ n);
  td_unique i j x y n : in_use l i x -> in_use l j y -> ci_parent x = ci_parent y -> cname (ci_name x) = Some n -> cname (ci_name y) = Some n -> i = j }.

Lemma cname_length arr n : cname arr = Some n -> (length n < length arr)%nat.
Proof.
  revert n. induction arr as [|b arr IH]; intros n; [done|]. cbn. case_bool_decide; [intros [= <-]; cbn; lia|]. destruct (cname arr) as [m|]; [|done]. intros [= <-]. specialize (IH m eq_refl). cbn. lia.
Qed.
Lemma tidy_ext l l' : (forall i x', aget l' i = Some x' -> exists x, aget l i = Some x /\ ci_name x' = ci_name x /\ ci_parent x' = ci_parent x /\ ci_type x' = ci_type x) -> tidy l -> tidy l'.
Proof.
  intros Hs [Hn Hu]. assert (Hb : forall i y, in_use l' i y -> exists x, in_use l i x /\ ci_name y = ci_name x /\ ci_parent y = ci_parent x).
  { intros i y (Hi & Hy & Ht). destruct (Hs i y Hy) as (x & Hx & E1 & E2 & E3). exists x. split_and!; [|done|done]. split_and!; [done|done|congruence]. }
  split.
  - intros i y n Hy Hc. destruct (Hb i y Hy) as (x & Hx & E & _). rewrite E in Hc. by eapply Hn.
  - intros i j y z n Hy Hz Hp Hc Hd. destruct (Hb i y Hy) as (x & Hx & E1 & E2). destruct (Hb j z Hz) as (w & Hw & E3 & E4). rewrite E1 in Hc. rewrite E3 in Hd. eapply Hu; [exact Hx|exact Hw|congruence|exact Hc|exact Hd].
Qed.
Lemma tidy_set l r x x' n : tidy l -> aget l r = Some x -> cname (ci_name x') = Some n ->
  (ci_type x' = CATFS_TYPE_FREE \/ (n <> [] /\ (slash ∉ n) /\ forall j y, j <> r -> in_use l j y -> ci_parent y = ci_parent x' -> cname (ci_name y) <> Some n)) -> tidy (aset l r x').
Proof.
  intros [Hn Hu] Hx Hc Hr. pose proof (aget_Some_range _ _ _ Hx) as Hrange.
  assert (Hb : forall i y, in_use (aset l r x') i y -> (i = r /\ y = x' /\ ci_type x' <> CATFS_TYPE_FREE) \/ (i <> r /\ in_use l i y)).
  { intros i y (Hi & Hy & Ht). destruct (decide (i = r)) as [->|Hne]; [rewrite aget_aset_eq in Hy by done; injection Hy as <-; by left|]. rewrite aget_aset_ne in Hy by congruence. right. by split. }
  split.
  - intros i y m Hy Hm. destruct (Hb i y Hy) as [(-> & -> & Ht)|[_ Hy']]; [|by eapply Hn]. rewrite Hc in Hm. injection Hm as <-. destruct Hr as [?|(? & ? & _)]; [done|by split].
  - intros i j y z m Hy Hz Hp Hcy Hcz. destruct (Hb i y Hy) as [(-> & -> & Ht)|[Hi Hy']], (Hb j z Hz) as [(-> & -> & Ht')|[Hj Hz']]; [done|..|by eapply Hu].
    + rewrite Hc in Hcy. injection Hcy as <-. destruct Hr as [?|(_ & _ & Hr)]; [done|]. by destruct (Hr j z Hj Hz' (eq_sym Hp)).
    + rewrite Hc in Hcz. injection Hcz as <-. destruct Hr as [?|(_ & _ & Hr)]; [done|]. by destruct (Hr i y Hi Hy' Hp).
Qed.
(** The only entry of that name is the one a search finds. *)
Lemma first_child l i x n : tidy l -> names_ok l -> zlen l = 256 -> in_use l i x -> cname (ci_name x) = Some n -> first_at (child_at l (ci_parent x) n) inodes_from1 = Some (Some i).
Proof.
  intros Ht Hk Hl Hx Hn. destruct (first_total (child_at l (ci_parent x) n) inodes_from1) as [o Ho].
  { intros j Hj. apply elem_of_seqZ in Hj. change CATFS_INODE_MAX with 256 in Hj. apply child_total; [done|lia]. }
  destruct Hx as (Hi & Hx & Hty). pose proof (aget_Some_range _ _ _ Hx) as Hr. rewrite Ho. assert (Hci : child_at l (ci_parent x) n i = Some true).
  { unfold child_at. rewrite Hx. destruct (Z.eqb_spec (ci_type x) CATFS_TYPE_FREE); [done|]. rewrite Z.eqb_refl, Hn. cbn. f_equal. by apply bool_decide_true. }
  destruct o as [j|]; [|pose proof (first_at_None _ _ Ho i) as E; rewrite Hci in E; discriminate E; apply elem_of_seqZ; change CATFS_INODE_MAX with 256; lia].
  apply first_at_Some in Ho as [Hj Hc]. apply elem_of_seqZ in Hj. unfold child_at in Hc. destruct (aget l j) as [y|] eqn:Hy; [|done]. destruct (Z.eqb_spec (ci_type y) CATFS_TYPE_FREE) as [|Hyt]; [done|].
  destruct (Z.eqb_spec (ci_parent y) (ci_parent x)) as [Ep|]; [|done]. destruct (cname (ci_name y)) as [m|] eqn:Hm; [|done]. cbn in Hc. injection Hc as Hc. apply bool_decide_eq_true in Hc as ->.
  do 2 f_equal. eapply (td_unique l Ht j i); [by split_and!; [lia|..]|by split_and!|done|done|done].
Qed.
(** No entry of a name that a search does not find. *)
Lemma none_named l p n : first_at (child_at l p n) inodes_from1 = Some None -> zlen l = 256 -> forall j y, in_use l j y -> ci_parent y = p -> cname (ci_name y) <> Some n.
Proof.
  intros Hf Hl j y (Hj & Hy & Ht) Hp Hn. pose proof (aget_Some_range _ _ _ Hy) as Hr. pose proof (first_at_None _ _ Hf j) as E. unfold child_at in E. rewrite Hy in E.
  destruct (Z.eqb_spec (ci_type y) CATFS_TYPE_FREE); [done|]. rewrite Hp, Z.eqb_refl, Hn in E. cbn in E. rewrite bool_decide_true in E by done. discriminate E. apply elem_of_seqZ. change CATFS_INODE_MAX with 256. lia.
Qed.
Lemma none_rival l idx p n : first_at (fun i => if i =? idx then Some false else child_at l p n i) inodes_from1 = Some None -> zlen l = 256 ->
  forall j y, j <> idx -> in_use l j y -> ci_parent y = p -> cname (ci_name y) <> Some n.
Proof.
  intros Hf Hl j y Hj (Hj1 & Hy & Ht) Hp Hn. pose proof (aget_Some_range _ _ _ Hy) as Hr. pose proof (first_at_None _ _ Hf j) as E. cbv beta in E. destruct (Z.eqb_spec j idx); [done|]. unfold child_at in E. rewrite Hy in E.
  destruct (Z.eqb_spec (ci_type y) CATFS_TYPE_FREE); [done|]. rewrite Hp, Z.eqb_refl, Hn in E. cbn in E. rewrite bool_decide_true in E by done. discriminate E. apply elem_of_seqZ. change CATFS_INODE_MAX with 256. lia.
Qed.
