(* ===== verification/CatfsInv.v ===== *)
(** * The tables of CatFS in memory and on the disk

    What a working disk promises ([DiskLaws]), a logic for the operations over it ([spec], on
    the tables in memory and the sectors of the filesystem), the encoding of the tables and the
    state in which the disk holds them. *)

From S2P Require Import Prelude Cstring Alloc Elf NativeApp Catfs CatfsOps.

(** ** Encodings *)

Lemma zeros_zlen n : 0 <= n -> zlen (zeros n) = n.
Proof. intros. unfold zeros. rewrite length_replicate. lia. Qed.
Lemma part_skip a r off n : zlen a <= off -> part (a ++ r) off n = part r (off - zlen a) n.
Proof. intros. unfold part. rewrite drop_app_ge by lia. do 3 f_equal. lia. Qed.
Lemma part_here a r n : zlen a = n -> part (a ++ r) 0 n = a.
Proof. intros. unfold part. change (Z.to_nat 0) with 0%nat. rewrite drop_0. apply take_app_length'. lia. Qed.
Lemma part_all a n : zlen a = n -> part a 0 n = a.
Proof. intros. rewrite <- (app_nil_r a) at 1. by apply part_here. Qed.
Lemma part_length l off n : 0 <= off -> 0 <= n -> off + n <= zlen l -> zlen (part l off n) = n.
Proof. intros. unfold part. rewrite length_take, length_drop. lia. Qed.
Lemma num_skip a r off n : zlen a <= off -> num (a ++ r) off n = num r (off - zlen a) n.
Proof. intros. unfold num. by rewrite part_skip. Qed.
Lemma num_here k v r : 0 <= v < 2 ^ (8 * Z.of_nat k) -> num (le_bytes k v ++ r) 0 (Z.of_nat k) = v.
Proof. intros. unfold num. rewrite part_here by (rewrite le_bytes_length; lia). by apply le_le_bytes. Qed.

Lemma splice_length l off bs : 0 <= off -> off + zlen bs <= zlen l -> length (splice l off bs) = length l.
Proof. intros. unfold splice. rewrite !length_app, length_take, length_drop. lia. Qed.
Lemma part_splice l off bs : 0 <= off -> off + zlen bs <= zlen l -> part (splice l off bs) off (zlen bs) = bs.
Proof.
  intros. unfold splice. assert (Hl : zlen (take (Z.to_nat off) l) = off) by (rewrite length_take; lia).
  rewrite part_skip, Hl, Z.sub_diag by lia. by apply part_here.
Qed.
(** Bytes that do not overlap those put in are as they were. *)
Lemma lookup_splice l off bs i : 0 <= off -> off + zlen bs <= zlen l ->
  splice l off bs !! i = if decide (off <= Z.of_nat i < off + zlen bs) then bs !! (i - Z.to_nat off)%nat else l !! i.
Proof.
  intros. unfold splice. assert (Hl : length (take (Z.to_nat off) l) = Z.to_nat off) by (rewrite length_take; lia). case_decide.
  - rewrite lookup_app_r, Hl by lia. by rewrite lookup_app_l by lia.
  - destruct (decide (Z.of_nat i < off)) as [Hi|Hi].
    + rewrite lookup_app_l by lia. rewrite lookup_take. by rewrite decide_True by lia.
    + rewrite lookup_app_r, Hl by lia. rewrite lookup_app_r by lia. rewrite lookup_drop. f_equal. lia.
Qed.
Lemma lookup_part l off n i : 0 <= off -> part l off n !! i = if decide (Z.of_nat i < n) then l !! (Z.to_nat off + i)%nat else None.
Proof. intros. unfold part. rewrite lookup_take. case_decide; rewrite ?decide_True, ?decide_False by lia; [by rewrite lookup_drop|done]. Qed.
Lemma part_splice_ne l off bs o n : 0 <= off -> off + zlen bs <= zlen l -> 0 <= o -> (o + n <= off \/ off + zlen bs <= o) ->
  part (splice l off bs) o n = part l o n.
Proof. intros. apply list_eq. intros i. rewrite !lookup_part by lia. case_decide; [|done]. rewrite lookup_splice by lia. by rewrite decide_False by lia. Qed.
Lemma num_splice l off k v : 0 <= off -> off + Z.of_nat k <= zlen l -> 0 <= v < 2 ^ (8 * Z.of_nat k) ->
  num (splice l off (le_bytes k v)) off (Z.of_nat k) = v.
Proof.
  intros. unfold num. pose proof (part_splice l off (le_bytes k v)) as E. rewrite le_bytes_length in E. rewrite E by lia. by apply le_le_bytes.
Qed.
Lemma num_range l off n : 0 <= n -> 0 <= num l off n < 2 ^ (8 * n).
Proof.
  intros Hn. unfold num. assert (Hl : forall bs, 0 <= le bs < 2 ^ (8 * zlen bs)).
  { induction bs as [|b bs IH]; cbn [le length]; [change (2 ^ (8 * Z.of_nat 0)) with 1; lia|].
    replace (8 * Z.of_nat (S (length bs))) with (8 + 8 * zlen bs) by lia. rewrite Z.pow_add_r by lia. change (2 ^ 8) with 256. pose proof (bz_range b). lia. }
  pose proof (Hl (part l off n)) as Hp. assert (zlen (part l off n) <= n) by (unfold part; rewrite length_take; lia).
  pose proof (Z.pow_le_mono_r 2 (8 * zlen (part l off n)) (8 * n)). lia.
Qed.

Lemma zb_bz b : zb (bz b) = b.
Proof. by destruct b. Qed.
Lemma bz_inj a b : bz a = bz b -> a = b.
Proof. intros E. rewrite <- (zb_bz a), <- (zb_bz b). by rewrite E. Qed.

(** Values within the range of their types. *)

Definition u32_ok (v : Z) : Prop := 0 <= v < 2 ^ 32.
Record super_ok (s : catfs_super) : Prop := {
  so_nums : Forall u32_ok [sb_magic s; sb_version s; sb_total_blocks s; sb_free_blocks s; sb_inode_count s; sb_free_inodes s; sb_data_start_lba s;
    sb_bitmap_lba s; sb_inode_table_lba s; sb_journal_lba s; sb_clean_unmount s];
  so_label : zlen (sb_label s) = 32; so_pad : zlen (sb_pad s) = 436 }.
Record jh_ok (h : catfs_journal_hdr) : Prop := { ho_nums : Forall u32_ok [jh_magic h; jh_head h; jh_committed_seq h]; ho_pad : zlen (jh_pad h) = 500 }.
Record inode_ok (x : catfs_inode) : Prop := {
  io_name : zlen (ci_name x) = 56; io_type : 0 <= ci_type x < 256; io_perms : 0 <= ci_perms x < 65536; io_parent : -2 ^ 31 <= ci_parent x < 2 ^ 31;
  io_nums : Forall u32_ok [ci_size x; ci_ctime x; ci_mtime x; ci_atime x; ci_indirect x; ci_dindirect x];
  io_blocks : length (ci_blocks x) = 16%nat; io_ptrs : Forall u32_ok (ci_blocks x) }.

Lemma u32_num v r : u32_ok v -> num (le_bytes 4 v ++ r) 0 4 = v.
Proof. intros. by apply (num_here 4). Qed.
Lemma u32_num_last v : u32_ok v -> num (le_bytes 4 v) 0 4 = v.
Proof. intros. rewrite <- (app_nil_r (le_bytes 4 v)). by apply u32_num. Qed.
Lemma le4_length v : zlen (le_bytes 4 v) = 4.
Proof. by rewrite le_bytes_length. Qed.

(** Reads a field of a structure given as the bytes of its fields. *)
Ltac field :=
  repeat (rewrite ?num_skip, ?part_skip by (rewrite ?le_bytes_length; lia));
  rewrite ?le_bytes_length;
  lazymatch goal with
  | |- context [num _ ?o _] => replace o with 0 by lia
  | |- context [part _ ?o _] => replace o with 0 by lia
  | |- _ => idtac
  end;
  first [ by apply u32_num | by apply u32_num_last | by apply part_here | by apply part_all ].

Lemma super_round s : super_ok s -> super_of (super_bytes s) = s.
Proof.
  intros [Hn Hl Hp]. rewrite !list.Forall_cons in Hn. destruct Hn as (?&?&?&?&?&?&?&?&?&?&?&_).
  transitivity (eta_super s); [|by destruct s]. unfold eta_super, super_of, super_bytes.
  f_equal; field.
Qed.
Lemma super_bytes_length s : super_ok s -> length (super_bytes s) = 512%nat.
Proof. intros [_ Hl Hp]. unfold super_bytes. rewrite !length_app, !le_bytes_length. lia. Qed.
Lemma jh_round h : jh_ok h -> jh_of (jh_bytes h) = h.
Proof.
  intros [Hn Hp]. rewrite !list.Forall_cons in Hn. destruct Hn as (?&?&?&_).
  transitivity (eta_jh h); [|by destruct h]. unfold eta_jh, jh_of, jh_bytes. f_equal; field.
Qed.
Lemma jh_bytes_length h : jh_ok h -> length (jh_bytes h) = 512%nat.
Proof. intros [_ Hp]. unfold jh_bytes. rewrite !length_app, !le_bytes_length. lia. Qed.

Lemma ptrs_bytes_length p : zlen (ptrs_bytes p) = 4 * zlen p.
Proof. induction p as [|v p IH]; [done|]. change (ptrs_bytes (v :: p)) with (le_bytes 4 v ++ ptrs_bytes p). rewrite length_app, le_bytes_length. cbn [length]. lia. Qed.
Lemma nums_length l off n : length (nums l off n) = Z.to_nat n.
Proof. unfold nums. by rewrite length_fmap, length_seqZ. Qed.
Lemma nums_lookup l off n i : (i < Z.to_nat n)%nat -> nums l off n !! i = Some (num l (off + 4 * Z.of_nat i) 4).
Proof. intros. unfold nums. rewrite list_lookup_fmap, lookup_seqZ_lt by lia. done. Qed.
Lemma nums_ptrs p : Forall u32_ok p -> forall a r off, zlen a = off -> nums (a ++ ptrs_bytes p ++ r) off (zlen p) = p.
Proof.
  induction 1 as [|v p Hv Hp IH]; intros a r off Ha; [done|]. unfold nums. cbn [length]. rewrite Nat2Z.inj_succ, seqZ_cons by lia. cbn [fmap list_fmap].
  change (ptrs_bytes (v :: p)) with (le_bytes 4 v ++ ptrs_bytes p). rewrite <- app_assoc. f_equal.
  - rewrite num_skip by lia. replace (off + 4 * 0 - zlen a) with 0 by lia. by apply u32_num.
  - specialize (IH (a ++ le_bytes 4 v) r (off + 4)). rewrite length_app, le_bytes_length in IH. specialize (IH ltac:(lia)).
    rewrite <- app_assoc in IH. rewrite <- IH at 2. unfold nums. rewrite Z.pred_succ. change (Z.succ 0) with (0 + 1).
    rewrite <- (fmap_add_seqZ 1 0). rewrite <- list_fmap_compose. apply list_fmap_ext. intros i x _. cbn. f_equal. lia.
Qed.
Lemma ptrs_round p : Forall u32_ok p -> zlen p = 128 -> ptrs_of (ptrs_bytes p) = p.
Proof. intros Hp Hl. pose proof (nums_ptrs p Hp [] [] 0 eq_refl) as E. cbn [app] in E. rewrite app_nil_r, Hl in E. exact E. Qed.
Lemma inode_bytes_length x : inode_ok x -> zlen (inode_bytes x) = 151.
Proof. intros []. unfold inode_bytes. change (ci_blocks x ≫= le_bytes 4) with (ptrs_bytes (ci_blocks x)). rewrite !length_app, !le_bytes_length. pose proof (ptrs_bytes_length (ci_blocks x)). lia. Qed.
Lemma i32_le v r : -2 ^ 31 <= v < 2 ^ 31 -> i32 (num (le_bytes 4 v ++ r) 0 4) = v.
Proof.
  intros Hv. assert (E : le_bytes 4 v = le_bytes 4 (u32 v)).
  { unfold u32. apply list_eq. intros i. do 4 (destruct i as [|i]; [cbn; f_equal; apply bz_inj; rewrite !bz_zb_u8; unfold u8; change (2 ^ 8) with 256; Z.to_euclidean_division_equations; lia|]). done. }
  rewrite E, u32_num by apply u32_range. unfold i32. rewrite (u32_small (u32 v)) by apply u32_range. unfold u32. change (2 ^ 31) with 2147483648 in *. change (2 ^ 32) with 4294967296.
  destruct (Z.ltb_spec (v mod 4294967296) 2147483648); Z.to_euclidean_division_equations; lia.
Qed.
Lemma inode_round x : inode_ok x -> inode_of (inode_bytes x) = x.
Proof.
  intros [Hn Ht Hp Hq Hs Hb Hf]. rewrite !list.Forall_cons in Hs. destruct Hs as (?&?&?&?&?&?&_).
  transitivity (eta_cino x); [|by destruct x]. unfold eta_cino, inode_of, inode_bytes. change (ci_blocks x ≫= le_bytes 4) with (ptrs_bytes (ci_blocks x)).
  pose proof (ptrs_bytes_length (ci_blocks x)) as Hl.
  f_equal.
  2:{ rewrite num_skip by lia. replace (56 - _) with 0 by lia. apply (num_here 1). cbn. lia. }
  2:{ rewrite !num_skip by (rewrite ?le_bytes_length; lia). rewrite le_bytes_length. replace (57 - _ - _) with 0 by lia. apply (num_here 2). cbn. lia. }
  3:{ rewrite !num_skip by (rewrite ?le_bytes_length; lia). rewrite !le_bytes_length. replace (63 - _ - _ - _ - _) with 0 by lia. by apply i32_le. }
  6:{ etransitivity; [|apply (nums_ptrs (ci_blocks x) Hf (ci_name x ++ le_bytes 1 (ci_type x) ++ le_bytes 2 (ci_perms x) ++ le_bytes 4 (ci_size x) ++
        le_bytes 4 (ci_parent x) ++ le_bytes 4 (ci_ctime x) ++ le_bytes 4 (ci_mtime x) ++ le_bytes 4 (ci_atime x)) (le_bytes 4 (ci_indirect x) ++ le_bytes 4 (ci_dindirect x)) 79)].
      - rewrite Hb, <- !app_assoc. done.
      - rewrite !length_app, !le_bytes_length. lia. }
  all: field.
Qed.

(** ** A disk that works *)

(** [sector d v a] is what sector [a] of drive [v] holds; [disk_ready d v n] says that drive
    [v] is present and reads and writes its first [n] sectors without errors. *)
Class DiskLaws (D : Type) `{!Disk D} := {
  sector : D -> Z -> Z -> list byte;
  disk_ready : D -> Z -> Z -> Prop;
  present_law d v n : disk_ready d v n -> 0 <= v /\
    wp (drive_present v) d (fun b d' => b = true /\ (forall v a, sector d' v a = sector d v a) /\ (forall v n, disk_ready d v n -> disk_ready d' v n));
  sector_law d v n a : disk_ready d v n -> 0 <= a < n -> length (sector d v a) = 512%nat;
  read_law d v n a : disk_ready d v n -> 0 <= a < n ->
    wp (disk_read_sector v a) d (fun r d' => r = Some (sector d v a) /\ (forall v a, sector d' v a = sector d v a) /\ (forall v n, disk_ready d v n -> disk_ready d' v n));
  write_law d v n a sec : disk_ready d v n -> 0 <= a < n -> length sec = 512%nat ->
    wp (disk_write_sector v a sec) d (fun r d' => r = 0 /\ (forall v' a', sector d' v' a' = if decide (v' = v /\ a' = a) then sec else sector d v' a') /\
      (forall v n, disk_ready d v n -> disk_ready d' v n)) }.

(** The sectors of a filesystem. *)
Definition SECTORS : Z := DATA_LBA + CATFS_BLOCKS_MAX.
Definition fput (f : Z -> list byte) (a : Z) (sec : list byte) : Z -> list byte := fun b => if b =? a then sec else f b.

Section Logic.
Context {D H : Type} `{!Disk D} `{!DiskLaws D} `{!Allocator H}.
Abbreviation C := (M (cstate D H)).
Implicit Types (s : cstate D H) (c : catfs_state_t) (f : Z -> list byte).

(** The tables [c] are in memory and the sectors [f] on the disk. *)
Record rep s c f : Prop := {
  rep_fs : c_fs s = c;
  rep_sec a : 0 <= a < SECTORS -> sector (c_disk s) (cf_disk_drive c) (cf_partition_offset c + a) = f a;
  rep_ready : disk_ready (c_disk s) (cf_disk_drive c) (cf_partition_offset c + SECTORS);
  rep_off : 0 <= cf_partition_offset c /\ cf_partition_offset c + SECTORS <= 2 ^ 32;
  rep_ticks : 0 <= c_ticks s < 2 ^ 32 }.

(** From those tables and sectors [m] gives a result and tables and sectors that satisfy [Q];
    with [b] it may fault instead. *)
Definition spec {A} (b : bool) (m : C A) c f (Q : A -> catfs_state_t -> (Z -> list byte) -> Prop) : Prop :=
  forall s, rep s c f -> match m s with Done (r, s') => exists c' f', rep s' c' f' /\ Q r c' f' | Fault => b = true end.

Section rules.
Context {A B : Type}.
Implicit Types (m : C A) (k : A -> C B) (b : bool).

Lemma spec_ret b a c f (Q : A -> _ -> _ -> Prop) : Q a c f -> spec b (ret a) c f Q.
Proof. intros HQ s Hs. by exists c, f. Qed.
Lemma spec_bind b m k c f P Q : spec b m c f P -> (forall r c' f', P r c' f' -> spec b (k r) c' f' Q) -> spec b (bind m k) c f Q.
Proof.
  intros Hm Hk s Hs. specialize (Hm s Hs). unfold bind. destruct (m s) as [[r s']|]; [|done]. destruct Hm as (c' & f' & Hs' & HP). by apply (Hk r c' f').
Qed.
Lemma spec_seq b m k c f Q : spec b m c f (fun r c' f' => spec b (k r) c' f' Q) -> spec b (bind m k) c f Q.
Proof. intros Hm. by eapply spec_bind; [exact Hm|]. Qed.
Lemma spec_mono b m c f (P Q : A -> _ -> _ -> Prop) : spec b m c f P -> (forall r c' f', P r c' f' -> Q r c' f') -> spec b m c f Q.
Proof. intros Hm HQ s Hs. specialize (Hm s Hs). destruct (m s) as [[r s']|]; [|done]. destruct Hm as (c' & f' & Hs' & HP). eauto 6. Qed.
Lemma spec_weak b m c f Q : spec false m c f Q -> spec b m c f Q.
Proof. intros Hm s Hs. specialize (Hm s Hs). by destruct (m s) as [[r s']|]. Qed.
Lemma spec_fs b (g : catfs_state_t -> A) c f Q : Q (g c) c f -> spec b (fs g) c f Q.
Proof. intros HQ s Hs. unfold fs, gets. exists c, f. split; [done|]. by rewrite (rep_fs _ _ _ Hs). Qed.
Lemma spec_the b (o : option A) c f Q : (forall a, o = Some a -> Q a c f) -> (is_Some o \/ b = true) -> spec b (the o) c f Q.
Proof. intros HQ Ho s Hs. unfold the, deref. destruct o as [a|]; [exists c, f; eauto|]. destruct Ho as [[? ?]|?]; done. Qed.
Lemma spec_fault c f Q : spec true (@fault _ A) c f Q.
Proof. by intros s Hs. Qed.
End rules.

Lemma spec_now b c f Q : (forall t, u32_ok t -> Q t c f) -> spec b catfs_now c f Q.
Proof.
  intros HQ s Hs. unfold catfs_now, gets. exists c, f. split; [done|]. apply HQ. pose proof (rep_ticks _ _ _ Hs). unfold u32_ok.
  split; [apply Z.div_pos; lia|]. apply Z.div_lt_upper_bound; lia.
Qed.
Lemma spec_upd b (g : catfs_state_t -> catfs_state_t) c f (Q : unit -> _ -> _ -> Prop) :
  cf_disk_drive (g c) = cf_disk_drive c -> cf_partition_offset (g c) = cf_partition_offset c -> Q tt (g c) f -> spec b (upd_fs g) c f Q.
Proof.
  intros Hd Ho HQ s [Hc Hsec Hr Hof Ht]. unfold upd_fs, modify. exists (g c), f. split; [|done].
  split; cbn; [by rewrite Hc|..]; rewrite ?Hd, ?Ho; done.
Qed.
Lemma spec_cinode b i c f Q : (forall x, aget (cf_inodes c) i = Some x -> Q x c f) -> (0 <= i < zlen (cf_inodes c) \/ b = true) -> spec b (cinode i) c f Q.
Proof.
  intros HQ Hi s Hs. unfold cinode, deref. rewrite (rep_fs _ _ _ Hs). destruct (aget (cf_inodes c) i) as [x|] eqn:E; [eauto 6|].
  destruct Hi as [Hi|Hi]; [|done]. destruct (aget_is_Some _ _ Hi) as [x Hx]. congruence.
Qed.

(** ** Sectors *)

Lemma lba_wrap c a : 0 <= cf_partition_offset c /\ cf_partition_offset c + SECTORS <= 2 ^ 32 -> 0 <= a < SECTORS ->
  u32 (cf_partition_offset c + a) = cf_partition_offset c + a.
Proof. intros. apply u32_small. lia. Qed.
Lemma spec_read b a c f Q : 0 <= a < SECTORS -> (length (f a) = 512%nat -> Q (Some (f a)) c f) -> spec b (dsk_read a) c f Q.
Proof.
  intros Ha HQ s [Hc Hsec Hr Hof Ht]. unfold dsk_read, bind, fs, gets. rewrite Hc. cbn [id]. rewrite lba_wrap by done.
  pose proof (read_law _ _ _ (cf_partition_offset c + a) Hr ltac:(lia)) as Hrd. unfold on_disk, zoom. cbn [c_disk].
  unfold wp in Hrd. destruct (disk_read_sector _ _ (c_disk s)) as [[r d']|] eqn:E; [|done]. destruct Hrd as (-> & Hsame & Hready).
  exists c, f. split; [split; cbn; eauto; intros; by rewrite Hsame, Hsec|]. rewrite Hsec by done. apply HQ.
  rewrite <- Hsec by done. eapply sector_law; [exact Hr|lia].
Qed.
Lemma spec_write b a sec c f Q : 0 <= a < SECTORS -> length sec = 512%nat -> Q 0 c (fput f a sec) -> spec b (dsk_write a sec) c f Q.
Proof.
  intros Ha Hl HQ s [Hc Hsec Hr Hof Ht]. unfold dsk_write, bind, fs, gets. rewrite Hc. cbn [id]. rewrite lba_wrap by done.
  pose proof (write_law _ _ _ (cf_partition_offset c + a) sec Hr ltac:(lia) Hl) as Hwr. unfold on_disk, zoom. cbn [c_disk].
  unfold wp in Hwr. destruct (disk_write_sector _ _ _ (c_disk s)) as [[r d']|] eqn:E; [|done]. destruct Hwr as (-> & Hsame & Hready).
  exists c, (fput f a sec). split; [|done]. split; cbn; eauto. intros a' Ha'. rewrite Hsame. unfold fput. destruct (Z.eqb_spec a' a) as [->|Hne].
  - by rewrite decide_True.
  - rewrite decide_False by lia. by apply Hsec.
Qed.
End Logic.
