(* ===== verification/CatfsTree.v ===== *)
(** * The blocks of CatFS files

    Every pointer of an inode, direct or through the blocks of pointers, is a [slot]; the
    blocks marked in the bitmap are block zero and the blocks the slots name, each by one slot
    ([tree_ok]).  Allocation links one slot more; freeing drops a set of slots of one inode. *)

From S2P Require Import Prelude Cstring Alloc Elf NativeApp Catfs CatfsOps CatfsInv.

(** ** The bitmap *)

Definition marks (bm : list Z) (b : Z) : Prop := marked bm b = Some true.
Definition bm_ok (bm : list Z) : Prop := length bm = 2048%nat /\ Forall (fun x => 0 <= x < 256) bm.

Lemma marked_Some bm b : bm_ok bm -> 0 <= b < CATFS_BLOCKS_MAX -> exists v, marked bm b = Some v.
Proof.
  intros [Hl _] Hb. change CATFS_BLOCKS_MAX with 16384 in Hb. unfold marked. destruct (aget_is_Some bm (b / 8)) as [x Hx].
  - rewrite Hl. split; [apply Z.div_pos; lia|apply Z.div_lt_upper_bound; lia].
  - rewrite Hx. by eexists.
Qed.
Lemma marked_range bm b v : bm_ok bm -> marked bm b = Some v -> 0 <= b < CATFS_BLOCKS_MAX.
Proof.
  intros [Hl _]. unfold marked. destruct (aget bm (b / 8)) as [x|] eqn:E; [|done]. intros _. apply aget_Some_range in E. rewrite Hl in E.
  change CATFS_BLOCKS_MAX with 16384. Z.to_euclidean_division_equations; lia.
Qed.
(** An update of the byte that holds the bit of [b]. *)
Lemma marked_aset bm b x y b' : aget bm (b / 8) = Some x -> (forall i, i <> b mod 8 -> Z.testbit y i = Z.testbit x i) ->
  marked (aset bm (b / 8) y) b' = if decide (b' = b) then Some (Z.testbit y (b mod 8)) else marked bm b'.
Proof.
  intros Hx Hy. pose proof (aget_Some_range _ _ _ Hx) as Hr. unfold marked. case_decide as Hb; [subst b'; by rewrite aget_aset_eq by done|].
  destruct (decide (b' / 8 = b / 8)) as [E|E]; [|by rewrite aget_aset_ne by congruence]. rewrite E, aget_aset_eq, Hx by done. cbn. f_equal. apply Hy.
  Z.to_euclidean_division_equations; lia.
Qed.
Lemma pow2_testbit n i : 0 <= n -> Z.testbit (2 ^ n) i = bool_decide (i = n).
Proof. intros. case_bool_decide; [subst; by apply Z.pow2_bits_true|apply Z.pow2_bits_false; congruence]. Qed.
Lemma marked_mark bm b b' : bm_ok bm -> 0 <= b < CATFS_BLOCKS_MAX -> marked (mark bm b) b' = if decide (b' = b) then Some true else marked bm b'.
Proof.
  intros Hbm Hb. destruct (marked_Some bm b Hbm Hb) as [v Hv]. unfold marked in Hv. unfold mark. destruct (aget bm (b / 8)) as [x|] eqn:E; [|done].
  assert (0 <= b mod 8) by (apply Z.mod_pos_bound; lia). rewrite (marked_aset bm b x) by (first [done|intros i Hi; rewrite Z.lor_spec, pow2_testbit, bool_decide_false by done; by rewrite orb_false_r]).
  by rewrite Z.lor_spec, pow2_testbit, bool_decide_true, orb_true_r by done.
Qed.
Lemma marked_unmark bm b b' : bm_ok bm -> 0 <= b < CATFS_BLOCKS_MAX -> marked (unmark bm b) b' = if decide (b' = b) then Some false else marked bm b'.
Proof.
  intros Hbm Hb. destruct (marked_Some bm b Hbm Hb) as [v Hv]. unfold marked in Hv. unfold unmark. destruct (aget bm (b / 8)) as [x|] eqn:E; [|done].
  assert (0 <= b mod 8) by (apply Z.mod_pos_bound; lia). rewrite (marked_aset bm b x) by (first [done|intros i Hi; rewrite Z.ldiff_spec, pow2_testbit, bool_decide_false by done; by rewrite andb_true_r]).
  by rewrite Z.ldiff_spec, pow2_testbit, bool_decide_true, andb_false_r by done.
Qed.
Lemma byte_bits x : 0 <= x < 256 <-> 0 <= x /\ Z.shiftr x 8 = 0.
Proof. rewrite Z.shiftr_div_pow2 by lia. change (2 ^ 8) with 256. Z.to_euclidean_division_equations; lia. Qed.
Lemma bm_ok_aset bm i v : bm_ok bm -> 0 <= v < 256 -> bm_ok (aset bm i v).
Proof. intros [Hl Hf] Hv. split; [by rewrite aset_length|]. unfold aset. case_match; [done|]. by apply list.Forall_insert. Qed.
Lemma bm_ok_mark bm b : bm_ok bm -> bm_ok (mark bm b).
Proof.
  intros Hbm. unfold mark. destruct (aget bm (b / 8)) as [x|] eqn:E; [|done]. apply bm_ok_aset; [done|].
  destruct Hbm as [_ Hf]. unfold aget in E. case_match; [done|]. pose proof (proj1 (list.Forall_lookup _ _) Hf _ _ E) as Hx. cbn in Hx.
  apply byte_bits in Hx as [Hx Hs]. apply byte_bits. assert (0 <= b mod 8 < 8) by (apply Z.mod_pos_bound; lia). split; [apply Z.lor_nonneg; lia|]. rewrite Z.shiftr_lor.
  rewrite (Z.shiftr_div_pow2 (2 ^ _)) by lia. rewrite Z.div_small by (split; [apply Z.pow_nonneg; lia|apply Z.pow_lt_mono_r; lia]). by rewrite Hs.
Qed.
Lemma bm_ok_unmark bm b : bm_ok bm -> bm_ok (unmark bm b).
Proof.
  intros Hbm. unfold unmark. destruct (aget bm (b / 8)) as [x|] eqn:E; [|done]. apply bm_ok_aset; [done|].
  destruct Hbm as [_ Hf]. unfold aget in E. case_match; [done|]. pose proof (proj1 (list.Forall_lookup _ _) Hf _ _ E) as Hx. cbn in Hx.
  apply byte_bits in Hx as [Hx Hs]. apply byte_bits. assert (0 <= b mod 8 < 8) by (apply Z.mod_pos_bound; lia). split; [apply Z.ldiff_nonneg; lia|]. rewrite Z.shiftr_ldiff, Hs.
  apply Z.ldiff_0_l.
Qed.

(** ** Tables within their ranges *)

Record tables_ok (c : catfs_state_t) : Prop := {
  to_sb : super_ok (cf_sb c); to_jh : jh_ok (cf_jh c); to_len : length (cf_inodes c) = 256%nat; to_inodes : Forall inode_ok (cf_inodes c);
  to_bm : bm_ok (cf_bitmap c); to_seq : u32_ok (cf_next_seq c); to_mounted : cf_mounted c = 1; to_magic : sb_magic (cf_sb c) = CATFS_MAGIC;
  to_data : sb_data_start_lba (cf_sb c) = DATA_LBA; to_bmlba : sb_bitmap_lba (cf_sb c) = BITMAP_LBA; to_inlba : sb_inode_table_lba (cf_sb c) = INODE_TABLE_LBA }.

Lemma to_inode c i x : tables_ok c -> aget (cf_inodes c) i = Some x -> inode_ok x.
Proof. intros Ht. unfold aget. case_match; [done|]. intros E. exact (proj1 (list.Forall_lookup _ _) (to_inodes c Ht) _ _ E). Qed.
Lemma to_index c i : tables_ok c -> 0 <= i < 256 -> 0 <= i < zlen (cf_inodes c).
Proof. intros Ht Hi. rewrite (to_len c Ht). lia. Qed.

(** ** Slots *)

Inductive slot := Direct (i : Z) | Ind | IndP (k : Z) | Dind | L1 (k : Z) | L2 (k m : Z).
#[export] Instance slot_eq : EqDecision slot.
Proof. solve_decision. Defined.
Definition valid (sl : slot) : Prop :=
  match sl with
  | Direct i => 0 <= i < CATFS_DIRECT_BLOCKS
  | Ind | Dind => True
  | IndP k | L1 k => 0 <= k < CATFS_PTRS_PER_BLOCK
  | L2 k m => 0 <= k < CATFS_PTRS_PER_BLOCK /\ 0 <= m < CATFS_PTRS_PER_BLOCK
  end.
(** Pointer [k] of the block [b] of pointers. *)
Definition entry (f : Z -> list byte) (b k : Z) : Z := if b =? 0 then 0 else num (f (DATA_LBA + b)) (4 * k) 4.
Definition ptr (x : catfs_inode) (f : Z -> list byte) (sl : slot) : Z :=
  match sl with
  | Direct i => default 0 (aget (ci_blocks x) i)
  | Ind => ci_indirect x
  | IndP k => entry f (ci_indirect x) k
  | Dind => ci_dindirect x
  | L1 k => entry f (ci_dindirect x) k
  | L2 k m => entry f (entry f (ci_dindirect x) k) m
  end.
Definition iptr (c : catfs_state_t) (f : Z -> list byte) (i : Z) (sl : slot) : Z :=
  match aget (cf_inodes c) i with Some x => ptr x f sl | None => 0 end.
Definition is_table (sl : slot) : bool := match sl with Ind | Dind | L1 _ => true | _ => false end.

Record tree_ok (c : catfs_state_t) (f : Z -> list byte) : Prop := {
  tk_zero : marks (cf_bitmap c) 0;
  tk_ptr i sl : valid sl -> iptr c f i sl <> 0 -> marks (cf_bitmap c) (iptr c f i sl);
  tk_used b : marks (cf_bitmap c) b -> b <> 0 -> exists i sl, valid sl /\ iptr c f i sl = b;
  tk_inj i a j b : valid a -> valid b -> iptr c f i a = iptr c f j b -> iptr c f i a <> 0 -> i = j /\ a = b }.

Lemma tk_range c f i sl : tables_ok c -> tree_ok c f -> valid sl -> iptr c f i sl <> 0 -> 0 < iptr c f i sl < CATFS_BLOCKS_MAX.
Proof. intros Ht Hk Hv Hp. pose proof (marked_range _ _ _ (to_bm c Ht) (tk_ptr c f Hk i sl Hv Hp)). lia. Qed.

(** Linking a new block at one slot. *)
Lemma tree_link c f c' f' idx sl nb : tree_ok c f -> tables_ok c -> valid sl -> iptr c f idx sl = 0 -> 0 < nb < CATFS_BLOCKS_MAX -> marked (cf_bitmap c) nb = Some false ->
  cf_bitmap c' = mark (cf_bitmap c) nb ->
  (forall j a, valid a -> iptr c' f' j a = if decide (j = idx /\ a = sl) then nb else iptr c f j a) -> tree_ok c' f'.
Proof.
  intros Hk Ht Hv H0 Hnb Hun Hbm Hptr. pose proof (to_bm c Ht) as Hbo.
  assert (Hm : forall b, marks (cf_bitmap c') b <-> b = nb \/ marks (cf_bitmap c) b).
  { intros b. unfold marks. rewrite Hbm, marked_mark by (done || lia). case_decide; naive_solver. }
  assert (Hne : forall j a, valid a -> iptr c f j a <> 0 -> iptr c f j a <> nb).
  { intros j a Ha Hp E. pose proof (tk_ptr c f Hk j a Ha Hp) as Hmk. unfold marks in Hmk. congruence. }
  split.
  - apply Hm. right. apply (tk_zero c f Hk).
  - intros j a Ha. rewrite Hptr by done. case_decide; intros Hp; apply Hm; [by left|right]. by apply (tk_ptr c f Hk).
  - intros b [->|Hb]%Hm Hb0.
    + exists idx, sl. split; [done|]. rewrite Hptr by done. by rewrite decide_True.
    + destruct (tk_used c f Hk b Hb Hb0) as (j & a & Ha & E). exists j, a. split; [done|]. rewrite Hptr by done.
      rewrite decide_False; [done|]. intros [-> ->]. congruence.
  - intros i a j b Ha Hb. rewrite !Hptr by done. repeat case_decide; intros E Hp; [naive_solver|..].
    + exfalso. apply (Hne j b); congruence.
    + exfalso. apply (Hne i a); congruence.
    + by apply (tk_inj c f Hk).
Qed.

(** Dropping the slots [X] of one inode. *)
Lemma tree_drop c f c' f' idx (X : slot -> Prop) : tree_ok c f ->
  (forall j a, valid a -> iptr c' f' j a = 0 \/ iptr c' f' j a = iptr c f j a) ->
  (forall j a, valid a -> iptr c f j a <> 0 -> (iptr c' f' j a = 0 <-> j = idx /\ X a)) ->
  (forall b, marks (cf_bitmap c') b <-> marks (cf_bitmap c) b /\ ~ (exists a, valid a /\ X a /\ iptr c f idx a = b /\ b <> 0)) -> tree_ok c' f'.
Proof.
  intros Hk Hs Hx Hm. split.
  - apply Hm. split; [apply (tk_zero c f Hk)|]. naive_solver.
  - intros i a Ha Hp. destruct (Hs i a Ha) as [?|E]; [done|]. rewrite E in Hp |- *. apply Hm. split; [by apply (tk_ptr c f Hk)|].
    intros (a' & Ha' & HX & E' & _). destruct (tk_inj c f Hk idx a' i a Ha' Ha E') as [-> ->]; [congruence|]. pose proof (Hx i a Ha Hp) as Hxa. naive_solver congruence.
  - intros b [Hb Hn]%Hm Hb0. destruct (tk_used c f Hk b Hb Hb0) as (i & a & Ha & E). exists i, a. split; [done|].
    destruct (Hs i a Ha) as [E0|E1]; [|congruence]. apply Hx in E0; [|done|congruence]. destruct E0 as [-> HX]. destruct Hn. eauto 6.
  - intros i a j b Ha Hb E Hp. destruct (Hs i a Ha) as [?|E1]; [done|]. destruct (Hs j b Hb) as [?|E2]; [congruence|].
    apply (tk_inj c f Hk); congruence.
Qed.

(** ** Updates of the tables *)

Definition put_inode (c : catfs_state_t) (i : Z) (x : catfs_inode) : catfs_state_t := c <| cf_inodes := aset (cf_inodes c) i x |>.
Definition put_bm (c : catfs_state_t) (bm : list Z) (s : catfs_super) : catfs_state_t := c <| cf_bitmap := bm |> <| cf_sb := s |>.
Definition taken_sb (s : catfs_super) : catfs_super := if 0 <? sb_free_blocks s then s <| sb_free_blocks := sb_free_blocks s - 1 |> else s.
Definition freed_sb (s : catfs_super) : catfs_super := s <| sb_free_blocks := u32 (sb_free_blocks s + 1) |>.
Definition taken (c : catfs_state_t) (nb : Z) : catfs_state_t := put_bm c (mark (cf_bitmap c) nb) (taken_sb (cf_sb c)).

(** The superblock up to the counts of free blocks and inodes and the clean flag. *)
Definition same_super (s s' : catfs_super) : Prop :=
  s' = s <| sb_free_blocks := sb_free_blocks s' |> <| sb_free_inodes := sb_free_inodes s' |> <| sb_clean_unmount := sb_clean_unmount s' |> /\
  u32_ok (sb_free_blocks s') /\ u32_ok (sb_free_inodes s') /\ u32_ok (sb_clean_unmount s').
Lemma same_super_ok s s' : super_ok s -> same_super s s' -> super_ok s'.
Proof.
  intros [Hn Hl Hp] (E & H1 & H2 & H3). rewrite !list.Forall_cons in Hn. destruct Hn as (?&?&?&?&?&?&?&?&?&?&?&_). rewrite E.
  split; cbn; [|done..]. repeat (apply list.Forall_cons_2; [done|]). apply list.Forall_nil_2.
Qed.
Lemma free_ok s : super_ok s -> u32_ok (sb_free_blocks s) /\ u32_ok (sb_free_inodes s) /\ u32_ok (sb_clean_unmount s).
Proof. intros [Hn _ _]. rewrite !list.Forall_cons in Hn. naive_solver. Qed.
Lemma taken_same s : super_ok s -> same_super s (taken_sb s).
Proof.
  intros Hs. destruct (free_ok s Hs) as (H1 & H2 & H3). unfold taken_sb. destruct (Z.ltb_spec 0 (sb_free_blocks s)); (split; [by destruct s|]); [|done].
  split_and!; cbn; try done; unfold u32_ok in *; lia.
Qed.
Lemma freed_same s : super_ok s -> same_super s (freed_sb s).
Proof. intros Hs. destruct (free_ok s Hs) as (H1 & H2 & H3). split; [by destruct s|]. split_and!; try done. apply u32_range. Qed.
Lemma count_same s n : super_ok s -> same_super s (s <| sb_free_inodes := u32 n |>).
Proof. intros Hs. destruct (free_ok s Hs) as (H1 & H2 & H3). split; [by destruct s|]. split_and!; try done. apply u32_range. Qed.

Lemma tables_put_inode c i x : tables_ok c -> inode_ok x -> tables_ok (put_inode c i x).
Proof.
  intros [] Hx. split; try done; cbn; [by rewrite aset_length|]. unfold aset. case_match; [done|]. by apply list.Forall_insert.
Qed.
Lemma tables_put_bm c bm s : tables_ok c -> bm_ok bm -> same_super (cf_sb c) s -> tables_ok (put_bm c bm s).
Proof. intros [] Hb Hs. pose proof (same_super_ok _ _ to_sb0 Hs). destruct Hs as (E & _). split; try done; cbn; by rewrite E. Qed.
Lemma tables_taken c nb : tables_ok c -> tables_ok (taken c nb).
Proof. intros Ht. apply tables_put_bm; [done|apply bm_ok_mark, Ht|apply taken_same, Ht]. Qed.

Lemma iptr_put_inode c i x f j sl : 0 <= i < zlen (cf_inodes c) -> iptr (put_inode c i x) f j sl = if decide (j = i) then ptr x f sl else iptr c f j sl.
Proof. intros Hi. unfold iptr, put_inode. cbn. case_decide; [subst; by rewrite aget_aset_eq|by rewrite aget_aset_ne by congruence]. Qed.
Lemma iptr_put_bm c bm s f j sl : iptr (put_bm c bm s) f j sl = iptr c f j sl.
Proof. done. Qed.

(** ** Steps of the operations *)

Section Steps.
Context {D H : Type} `{!Disk D} `{!DiskLaws D} `{!Allocator H}.
Abbreviation C := (M (cstate D H)).
Implicit Types (c : catfs_state_t) (f : Z -> list byte) (b : bool).

Lemma spec_upd_inode b i g c f (Q : unit -> catfs_state_t -> (Z -> list byte) -> Prop) :
  (forall x, aget (cf_inodes c) i = Some x -> Q tt (put_inode c i (g x)) f) -> (0 <= i < zlen (cf_inodes c) \/ b = true) -> spec b (@upd_cinode D H i g) c f Q.
Proof.
  intros HQ Hi. unfold upd_cinode. eapply spec_bind; [eapply (spec_cinode b i c f (fun x c' f' => aget (cf_inodes c) i = Some x /\ c' = c /\ f' = f)); [|exact Hi]; done|].
  intros x c' f' (E & -> & ->). apply spec_upd; [done..|]. by apply HQ.
Qed.
Lemma spec_upd_sb b g c f (Q : unit -> catfs_state_t -> (Z -> list byte) -> Prop) : Q tt (c <| cf_sb := g (cf_sb c) |>) f -> spec b (@upd_sb D H g) c f Q.
Proof. intros HQ. by apply spec_upd. Qed.
Lemma spec_bm_test b blk c f Q : tables_ok c -> 0 <= blk < CATFS_BLOCKS_MAX -> (forall v, marked (cf_bitmap c) blk = Some v -> Q v c f) -> spec b (@bm_test D H blk) c f Q.
Proof.
  intros Ht Hb HQ s Hs. unfold bm_test, deref. rewrite (rep_fs _ _ _ Hs). destruct (marked_Some _ _ (to_bm c Ht) Hb) as [v Hv]. rewrite Hv. eauto 6.
Qed.
Lemma spec_bm_alloc b c f (Q : Z -> catfs_state_t -> (Z -> list byte) -> Prop) : tables_ok c -> marks (cf_bitmap c) 0 ->
  (forall nb, 0 < nb < CATFS_BLOCKS_MAX -> marked (cf_bitmap c) nb = Some false -> Q nb (taken c nb) f) ->
  ((forall blk, 0 <= blk < CATFS_BLOCKS_MAX -> marks (cf_bitmap c) blk) -> Q (-1) c f) -> spec b (@bm_alloc D H) c f Q.
Proof.
  intros Ht H0 Hnew Hfull. unfold bm_alloc. eapply spec_bind; [apply (spec_fs b cf_bitmap c f (fun bm c' f' => bm = cf_bitmap c /\ c' = c /\ f' = f)); done|].
  intros bm c' f' (-> & -> & ->). destruct (first_idx _ _ _) as [i|] eqn:E.
  - apply first_idx_Some in E as (Hr & Hp & _). apply bool_decide_eq_true in Hp. assert (i <> 0) by (intros ->; unfold marks in H0; congruence).
    unfold bm_set. eapply spec_bind; [eapply spec_bind; [apply (spec_bm_test b i c f (fun _ c' f' => c' = c /\ f' = f)); done|]|].
    + intros v c' f' (-> & ->). by apply (spec_upd b _ c f (fun _ c' f' => c' = c <| cf_bitmap := mark (cf_bitmap c) i |> /\ f' = f)).
    + intros u c' f' (-> & ->). eapply spec_bind; [by apply (spec_upd_sb b _ _ _ (fun _ c' f' => c' = taken c i /\ f' = f))|].
      intros u' c' f' (-> & ->). apply spec_ret. apply Hnew; [lia|done].
  - apply spec_ret, Hfull. intros blk Hb. pose proof (proj1 (first_idx_None _ _ _) E blk ltac:(lia)) as Hn. apply bool_decide_eq_false in Hn.
    destruct (marked_Some _ _ (to_bm c Ht) Hb) as [[] Hv]; [done|congruence].
Qed.
Lemma spec_bm_free b blk c f (Q : unit -> catfs_state_t -> (Z -> list byte) -> Prop) : tables_ok c -> 0 <= blk < CATFS_BLOCKS_MAX ->
  (forall bm s, tables_ok (put_bm c bm s) -> (forall b' : Z, marks bm b' <-> marks (cf_bitmap c) b' /\ b' <> blk) -> Q tt (put_bm c bm s) f) -> spec b (@bm_free D H blk) c f Q.
Proof.
  intros Ht Hb HQ. unfold bm_free. eapply spec_bind; [apply (spec_bm_test b blk c f (fun v c' f' => marked (cf_bitmap c) blk = Some v /\ c' = c /\ f' = f)); done|].
  intros v c' f' (Hv & -> & ->). destruct v.
  - unfold bm_clr. eapply spec_bind; [eapply spec_bind; [apply (spec_bm_test b blk c f (fun _ c' f' => c' = c /\ f' = f)); done|]|].
    + intros v c' f' (-> & ->). by apply (spec_upd b _ c f (fun _ c' f' => c' = c <| cf_bitmap := unmark (cf_bitmap c) blk |> /\ f' = f)).
    + intros u c' f' (-> & ->). apply spec_upd_sb. apply (HQ (unmark (cf_bitmap c) blk) (freed_sb (cf_sb c))).
      * apply tables_put_bm; [done|apply bm_ok_unmark, Ht|apply freed_same, Ht].
      * intros b'. unfold marks. rewrite marked_unmark by (apply Ht || done). case_decide; naive_solver.
  - apply spec_ret. assert (E : put_bm c (cf_bitmap c) (cf_sb c) = c) by by destruct c. rewrite <- E at 1. apply HQ; [by rewrite E|].
    intros b'. unfold marks. split; [|naive_solver]. intros Hm. split; [done|]. intros ->. congruence.
Qed.
Lemma block_lba_eq blk c : tables_ok c -> 0 <= blk < CATFS_BLOCKS_MAX -> u32 (sb_data_start_lba (cf_sb c) + blk) = DATA_LBA + blk.
Proof. intros Ht Hb. rewrite (to_data c Ht). apply u32_small. change CATFS_BLOCKS_MAX with 16384 in Hb. change DATA_LBA with 100. lia. Qed.
Lemma data_range blk : 0 <= blk < CATFS_BLOCKS_MAX -> 0 <= DATA_LBA + blk < SECTORS.
Proof. unfold SECTORS. change DATA_LBA with 100. lia. Qed.
Lemma spec_blk_read b blk c f Q : tables_ok c -> 0 <= blk < CATFS_BLOCKS_MAX -> (length (f (DATA_LBA + blk)) = 512%nat -> Q (Some (f (DATA_LBA + blk))) c f) ->
  spec b (@blk_read D H _ blk) c f Q.
Proof.
  intros Ht Hb HQ. unfold blk_read, block_lba. eapply spec_bind; [apply (spec_fs b _ c f (fun a c' f' => a = DATA_LBA + blk /\ c' = c /\ f' = f)); split; [by apply block_lba_eq|done]|].
  intros a c' f' (-> & -> & ->). apply spec_read; [by apply data_range|done].
Qed.
Lemma spec_blk_write b blk sec c f Q : tables_ok c -> 0 <= blk < CATFS_BLOCKS_MAX -> length sec = 512%nat ->
  Q 0 c (fput f (DATA_LBA + blk) sec) -> spec b (@blk_write D H _ blk sec) c f Q.
Proof.
  intros Ht Hb Hl HQ. unfold blk_write, block_lba. eapply spec_bind; [apply (spec_fs b _ c f (fun a c' f' => a = DATA_LBA + blk /\ c' = c /\ f' = f)); split; [by apply block_lba_eq|done]|].
  intros a c' f' (-> & -> & ->). apply spec_write; [by apply data_range|done..].
Qed.
End Steps.

(** ** Linking a block *)

(** The slot of the block of pointers a slot is in, and its number there. *)
Definition above (sl : slot) : option (slot * Z) :=
  match sl with Direct _ | Ind | Dind => None | IndP k => Some (Ind, k) | L1 k => Some (Dind, k) | L2 k m => Some (L1 k, m) end.
Lemma iptr_above c f i sl p k : above sl = Some (p, k) -> iptr c f i sl = entry f (iptr c f i p) k.
Proof. unfold iptr. destruct sl; cbn; try done; intros [= <- <-]; by destruct (aget (cf_inodes c) i). Qed.
Lemma above_valid sl p k : above sl = Some (p, k) -> valid sl -> valid p /\ 0 <= k < CATFS_PTRS_PER_BLOCK /\ is_table p = true.
Proof. destruct sl; cbn; try done; intros [= <- <-]; cbn; naive_solver. Qed.
Lemma above_inj a b : above a = above b -> above a <> None -> a = b.
Proof. destruct a, b; cbn; naive_solver. Qed.
Lemma entry_0 f k : entry f 0 k = 0.
Proof. done. Qed.
Lemma entry_eq f f' b k : f' (DATA_LBA + b) = f (DATA_LBA + b) -> entry f' b k = entry f b k.
Proof. unfold entry. by intros ->. Qed.
Lemma entry_range f b k : u32_ok (entry f b k).
Proof. unfold entry, u32_ok. case_match; [lia|]. apply (num_range _ _ 4). lia. Qed.

Section Link.
Context (c : catfs_state_t) (f : Z -> list byte) (c' : catfs_state_t) (f' : Z -> list byte) (idx : Z) (sl : slot) (nb : Z).
Hypothesis Hempty : iptr c f idx sl = 0.
Hypothesis Hroot : forall j a, above a = None -> valid a -> iptr c' f' j a = if decide (j = idx /\ a = sl) then nb else iptr c f j a.
Hypothesis Hpar : forall p k, above sl = Some (p, k) -> iptr c f idx p <> 0.
Hypothesis Htab : forall j p k, is_table p = true -> valid p -> 0 <= k < CATFS_PTRS_PER_BLOCK -> iptr c f j p <> 0 ->
  entry f' (iptr c f j p) k = if decide (j = idx /\ above sl = Some (p, k)) then nb else entry f (iptr c f j p) k.
Hypothesis Hnew : is_table sl = true -> forall k, 0 <= k < CATFS_PTRS_PER_BLOCK -> entry f' nb k = 0.

Lemma linked_step j a p k : above a = Some (p, k) -> valid a -> iptr c' f' j p = (if decide (j = idx /\ p = sl) then nb else iptr c f j p) ->
  iptr c' f' j a = if decide (j = idx /\ a = sl) then nb else iptr c f j a.
Proof.
  intros Ha Hv E. destruct (above_valid a p k Ha Hv) as (Hvp & Hk & Htp). rewrite (iptr_above c' f' j a p k Ha), (iptr_above c f j a p k Ha), E.
  destruct (decide (j = idx /\ p = sl)) as [[-> ->]|Hne].
  - rewrite Hnew, Hempty, entry_0 by done. case_decide as Hd; [|done]. destruct Hd as [_ ->]. exfalso. by destruct sl; cbn in Ha; simplify_eq.
  - destruct (decide (iptr c f j p = 0)) as [E0|E0].
    + rewrite E0, !entry_0. case_decide as Hd; [|done]. destruct Hd as [-> ->]. by destruct (Hpar p k Ha).
    + rewrite Htab by done. destruct (decide (j = idx /\ a = sl)) as [[-> ->]|Hn]; [by rewrite decide_True|].
      rewrite decide_False; [done|]. intros [-> Hs]. apply Hn. split; [done|]. apply above_inj; congruence.
Qed.
Lemma iptr_linked j a : valid a -> iptr c' f' j a = if decide (j = idx /\ a = sl) then nb else iptr c f j a.
Proof.
  intros Hv. destruct (above a) as [[p k]|] eqn:Ha; [|by apply Hroot]. destruct (above_valid a p k Ha Hv) as (Hvp & _ & _).
  apply (linked_step j a p k); [done..|]. destruct (above p) as [[q m]|] eqn:Hp; [|by apply Hroot].
  apply (linked_step j p q m); [done..|]. destruct (above_valid p q m Hp Hvp) as (Hvq & _ & _). apply Hroot; [|done]. by destruct a; cbn in Ha; simplify_eq; cbn in Hp; simplify_eq.
Qed.
End Link.

(** What allocation leaves as it is: the pointers there were, the contents of the files, the
    sectors of the tables and every field of the tables but the counts, the bitmap and the
    pointers of one inode. *)
Definition same_meta (x x' : catfs_inode) : Prop := x' = x <| ci_blocks := ci_blocks x' |> <| ci_indirect := ci_indirect x' |> <| ci_dindirect := ci_dindirect x' |>.
Definition same_others (idx : Z) (c c' : catfs_state_t) : Prop :=
  same_super (cf_sb c) (cf_sb c') /\
  exists x x', aget (cf_inodes c) idx = Some x /\ same_meta x x' /\ c' = put_bm (put_inode c idx x') (cf_bitmap c') (cf_sb c').
Record blocks_grow (idx : Z) (c : catfs_state_t) (f : Z -> list byte) (c' : catfs_state_t) (f' : Z -> list byte) : Prop := {
  gr_keep i a : valid a -> iptr c f i a <> 0 -> iptr c' f' i a = iptr c f i a;
  gr_other i a : valid a -> i <> idx -> iptr c' f' i a = iptr c f i a;
  gr_data i a : valid a -> is_table a = false -> iptr c f i a <> 0 -> f' (DATA_LBA + iptr c f i a) = f (DATA_LBA + iptr c f i a);
  gr_low a : 0 <= a < DATA_LBA -> f' a = f a;
  gr_same : same_others idx c c' }.

Lemma aset_aset {A} (l : list A) i v w : aset (aset l i v) i w = aset l i w.
Proof. unfold aset. case_match; [done|]. apply list_insert_insert_eq. Qed.
Lemma same_super_refl s : super_ok s -> same_super s s.
Proof. intros Hs. pose proof (free_ok s Hs). split; [by destruct s|done]. Qed.
Lemma same_super_trans s1 s2 s3 : same_super s1 s2 -> same_super s2 s3 -> same_super s1 s3.
Proof. intros (E1 & _) (E2 & H2). split; [|done]. rewrite E2, E1. by destruct s1. Qed.
Lemma same_others_refl idx c : tables_ok c -> 0 <= idx < 256 -> same_others idx c c.
Proof.
  intros Ht Hi. split; [apply same_super_refl, Ht|]. destruct (aget_is_Some (cf_inodes c) idx) as [x Hx]; [by apply to_index|]. exists x, x.
  split_and!; [done|by destruct x|]. unfold put_inode, put_bm. rewrite aset_same by done. by destruct c.
Qed.
Lemma same_others_trans idx c1 c2 c3 : same_others idx c1 c2 -> same_others idx c2 c3 -> same_others idx c1 c3.
Proof.
  intros (S1 & x1 & x1' & Hx1 & M1 & E1) (S2 & x2 & x2' & Hx2 & M2 & E2). split; [by eapply same_super_trans|].
  pose proof (aget_Some_range _ _ _ Hx1). rewrite E1 in Hx2. cbn in Hx2. rewrite aget_aset_eq in Hx2 by done. injection Hx2 as <-.
  exists x1, x2'. split_and!; [done|unfold same_meta in *; rewrite M2, M1; by destruct x1|]. rewrite E2. rewrite E1 at 1. destruct c1; unfold put_bm, put_inode; cbn. by rewrite aset_aset.
Qed.
Lemma blocks_grow_refl idx c f : tables_ok c -> 0 <= idx < 256 -> blocks_grow idx c f c f.
Proof. intros. split; try done. by apply same_others_refl. Qed.
Lemma blocks_grow_trans idx c1 f1 c2 f2 c3 f3 : blocks_grow idx c1 f1 c2 f2 -> blocks_grow idx c2 f2 c3 f3 -> blocks_grow idx c1 f1 c3 f3.
Proof.
  intros G1 G2. split.
  - intros i a Ha Hp. pose proof (gr_keep _ _ _ _ _ G1 i a Ha Hp) as E. rewrite (gr_keep _ _ _ _ _ G2); [done|done|congruence].
  - intros i a Ha Hn. by rewrite (gr_other _ _ _ _ _ G2), (gr_other _ _ _ _ _ G1).
  - intros i a Ha Hta Hp. pose proof (gr_keep _ _ _ _ _ G1 i a Ha Hp) as E. pose proof (gr_data _ _ _ _ _ G2 i a Ha Hta) as Hd. rewrite E in Hd.
    rewrite Hd by done. by apply (gr_data _ _ _ _ _ G1).
  - intros a Ha. by rewrite (gr_low _ _ _ _ _ G2), (gr_low _ _ _ _ _ G1).
  - eapply same_others_trans; [apply G1|apply G2].
Qed.

Lemma link_result idx sl nb T c f c' f' : tree_ok c f -> tables_ok c -> valid sl -> iptr c f idx sl = 0 -> 0 < nb < CATFS_BLOCKS_MAX ->
  marked (cf_bitmap c) nb = Some false -> cf_bitmap c' = mark (cf_bitmap c) nb -> same_others idx c c' ->
  (forall j a, valid a -> iptr c' f' j a = if decide (j = idx /\ a = sl) then nb else iptr c f j a) ->
  (forall a, a <> DATA_LBA + nb -> a <> DATA_LBA + T -> f' a = f a) -> (T = nb \/ exists p, is_table p = true /\ valid p /\ iptr c f idx p = T /\ T <> 0) ->
  tree_ok c' f' /\ blocks_grow idx c f c' f'.
Proof.
  intros Hk Ht Hv H0 Hnb Hun Hbm Hso Hptr Hf HT.
  assert (Hne : forall j a, valid a -> iptr c f j a <> 0 -> iptr c f j a <> nb).
  { intros j a Ha Hp E. pose proof (tk_ptr c f Hk j a Ha Hp) as Hm. unfold marks in Hm. congruence. }
  split; [by eapply tree_link|]. split.
  - intros i a Ha Hp. rewrite Hptr by done. rewrite decide_False; [done|]. intros [-> ->]. congruence.
  - intros i a Ha Hi. rewrite Hptr by done. rewrite decide_False; [done|]. naive_solver.
  - intros i a Ha Hta Hp. pose proof (Hne i a Ha Hp). apply Hf; [lia|]. destruct HT as [->|(p & Hpt & Hpv & Hpe & _)]; [lia|].
    intros E. assert (E' : iptr c f i a = iptr c f idx p) by lia. destruct (tk_inj c f Hk i a idx p Ha Hpv E' Hp) as [_ ->]. congruence.
  - intros a Ha. apply Hf; [lia|]. destruct HT as [->|(p & Hpt & Hpv & Hpe & HT0)]; [lia|].
    pose proof (tk_range c f idx p Ht Hk Hpv ltac:(congruence)). lia.
  - done.
Qed.
Lemma num_zeros off n : num (zeros SECTOR_SIZE) off n = 0.
Proof.
  unfold num, part, zeros. rewrite drop_replicate, take_replicate. generalize ((Z.to_nat n) `min` (Z.to_nat SECTOR_SIZE - Z.to_nat off))%nat as k. intros k.
  induction k as [|k IH]; [done|]. cbn [replicate le]. rewrite IH. done.
Qed.
Lemma same_put idx c x x' bm s : tables_ok c -> aget (cf_inodes c) idx = Some x -> same_meta x x' -> same_super (cf_sb c) s -> same_others idx c (put_inode (put_bm c bm s) idx x').
Proof. intros Ht Hx Hm Hs. split; [done|]. exists x, x'. split_and!; [done..|]. by destruct c. Qed.
Lemma same_bm idx c bm s : tables_ok c -> 0 <= idx < 256 -> same_super (cf_sb c) s -> same_others idx c (put_bm c bm s).
Proof.
  intros Ht Hi Hs. split; [done|]. destruct (aget_is_Some (cf_inodes c) idx) as [x Hx]; [by apply to_index|]. exists x, x. split_and!; [done|by destruct x|].
  unfold put_inode, put_bm. cbn. rewrite aset_same by done. by destruct c.
Qed.
Lemma u32_ok_blk nb : 0 < nb < CATFS_BLOCKS_MAX -> u32_ok nb.
Proof. change CATFS_BLOCKS_MAX with 16384. unfold u32_ok. lia. Qed.

(** A field of the inode gets a new block. *)
Lemma link_root idx sl nb c f f' x x' : tree_ok c f -> tables_ok c -> valid sl -> above sl = None -> aget (cf_inodes c) idx = Some x -> ptr x f sl = 0 ->
  0 < nb < CATFS_BLOCKS_MAX -> marked (cf_bitmap c) nb = Some false -> same_meta x x' -> inode_ok x' ->
  (forall a g, above a = None -> valid a -> ptr x' g a = if decide (a = sl) then nb else ptr x g a) ->
  (forall a, a <> DATA_LBA + nb -> f' a = f a) -> (is_table sl = true -> f' (DATA_LBA + nb) = zero_sector) ->
  let c' := put_inode (taken c nb) idx x' in tables_ok c' /\ tree_ok c' f' /\ blocks_grow idx c f c' f' /\ iptr c' f' idx sl = nb.
Proof.
  intros Hk Ht Hv Hup Hx H0 Hnb Hun Hm Hok Hx' Hf Hz c'. pose proof (aget_Some_range _ _ _ Hx) as Hi.
  assert (E0 : iptr c f idx sl = 0) by (unfold iptr; by rewrite Hx).
  assert (Hptr : forall j a, valid a -> iptr c' f' j a = if decide (j = idx /\ a = sl) then nb else iptr c f j a).
  { apply iptr_linked; [done|..].
    - intros j a Ha Hva. unfold c'. rewrite iptr_put_inode by done. destruct (decide (j = idx)) as [->|Hj].
      + rewrite Hx' by done. unfold iptr. rewrite Hx. destruct (decide (a = sl)) as [->|Hn]; [by rewrite decide_True|]. rewrite decide_False by (by intros [_ ?]). by destruct a.
      + rewrite decide_False by (by intros [? _]). unfold taken. rewrite iptr_put_bm. unfold iptr. destruct (aget (cf_inodes c) j); [|done]. by destruct a.
    - intros p k. congruence.
    - intros j p k Hpt Hpv Hkk Hp. rewrite decide_False by (intros [_ ?]; congruence). apply entry_eq, Hf. intros E.
      pose proof (tk_ptr c f Hk j p Hpv Hp) as Hmk. unfold marks in Hmk. replace (iptr c f j p) with nb in Hmk by lia. congruence.
    - intros Hst k Hkk. unfold entry. case_match; [done|]. rewrite Hz by done. apply num_zeros. }
  split; [apply tables_put_inode; [by apply tables_taken|done]|].
  destruct (link_result idx sl nb nb c f c' f') as [Hk' Hg]; try done; [by apply (same_put idx c x); [..|apply taken_same, Ht]|eauto|by left|].
  split_and!; [done..|]. rewrite Hptr by done. by rewrite decide_True.
Qed.

(** A pointer of a block of pointers gets a new block. *)
Lemma link_entry idx sl p k nb c f f' : tree_ok c f -> tables_ok c -> 0 <= idx < 256 -> valid sl -> above sl = Some (p, k) -> iptr c f idx p <> 0 -> iptr c f idx sl = 0 ->
  length (f (DATA_LBA + iptr c f idx p)) = 512%nat -> 0 < nb < CATFS_BLOCKS_MAX -> marked (cf_bitmap c) nb = Some false ->
  f' (DATA_LBA + iptr c f idx p) = splice (f (DATA_LBA + iptr c f idx p)) (4 * k) (le_bytes 4 nb) ->
  (forall a, a <> DATA_LBA + nb -> a <> DATA_LBA + iptr c f idx p -> f' a = f a) -> (is_table sl = true -> f' (DATA_LBA + nb) = zero_sector) ->
  let c' := taken c nb in tables_ok c' /\ tree_ok c' f' /\ blocks_grow idx c f c' f' /\ iptr c' f' idx sl = nb.
Proof.
  intros Hk Ht Hi Hv Hup HT E0 Hlen Hnb Hun Hsec Hf Hz c'. destruct (above_valid sl p k Hup Hv) as (Hpv & Hkk & Hpt). set (T := iptr c f idx p) in *.
  change CATFS_PTRS_PER_BLOCK with 128 in *.
  assert (Hptr : forall j a, valid a -> iptr c' f' j a = if decide (j = idx /\ a = sl) then nb else iptr c f j a).
  { apply iptr_linked; [done|..].
    - intros j a Ha Hva. rewrite decide_False by (intros [_ ->]; congruence). unfold c', taken. rewrite iptr_put_bm. unfold iptr. destruct (aget (cf_inodes c) j); [|done]. by destruct a.
    - intros p' k' E. by rewrite Hup in E; simplify_eq.
    - intros j q m Hqt Hqv Hm Hq. change CATFS_PTRS_PER_BLOCK with 128 in *. rewrite Hup. destruct (decide (iptr c f j q = T)) as [E|E].
      + destruct (tk_inj c f Hk j q idx p Hqv Hpv E Hq) as [-> ->]. unfold entry. rewrite E. destruct (Z.eqb_spec T 0); [done|]. rewrite Hsec.
        destruct (decide (m = k)) as [->|Hmk]; [rewrite decide_True by done; apply (num_splice _ _ 4); [lia|lia|apply u32_ok_blk, Hnb]|].
        rewrite decide_False by (intros [_ [= ?]]; congruence). unfold num. rewrite part_splice_ne; [done|rewrite ?le_bytes_length; lia..].
      + rewrite decide_False by (intros [-> ?]; simplify_eq). apply entry_eq, Hf; [|lia].
        pose proof (tk_ptr c f Hk j q Hqv Hq) as Hmk. unfold marks in Hmk. intros E'. replace (iptr c f j q) with nb in Hmk by lia. congruence.
    - intros Hst m Hm. unfold entry. case_match; [done|]. rewrite Hz by done. apply num_zeros. }
  split; [by apply tables_taken|].
  destruct (link_result idx sl nb T c f c' f') as [Hk' Hg]; try done; [by apply same_bm; [..|apply taken_same, Ht]|right; eauto 6|].
  split_and!; [done..|]. rewrite Hptr by done. by rewrite decide_True.
Qed.

(** ** Finding the block of a slot *)

(** [r] is the block of the slot, none when it has none (and, when blocks are created, the disk
    is full); nothing changes but by linking new blocks. *)
Definition full (c : catfs_state_t) : Prop := forall b, 0 <= b < CATFS_BLOCKS_MAX -> marks (cf_bitmap c) b.
Record resolved (create : bool) (idx : Z) (sl : slot) (c : catfs_state_t) (f : Z -> list byte) (r : option Z) (c' : catfs_state_t) (f' : Z -> list byte) : Prop := {
  rs_tables : tables_ok c'; rs_tree : tree_ok c' f'; rs_grows : blocks_grow idx c f c' f';
  rs_result : match r with Some b => iptr c' f' idx sl = b /\ b <> 0 | None => iptr c' f' idx sl = 0 /\ (create = true -> full c') end;
  rs_pure : create = false -> c' = c /\ f' = f }.

Section Resolve.
Context {D H : Type} `{!Disk D} `{!DiskLaws D} `{!Allocator H}.
Abbreviation C := (M (cstate D H)).
Implicit Types (c : catfs_state_t) (f : Z -> list byte) (create : bool).

Lemma spec_inode_at i c f : tables_ok c -> 0 <= i < 256 -> exists x, aget (cf_inodes c) i = Some x /\ inode_ok x /\
  (forall b Q, Q x c f -> spec b (@cinode D H i) c f Q) /\ (forall b g (Q : unit -> _ -> _ -> Prop), Q tt (put_inode c i (g x)) f -> spec b (@upd_cinode D H i g) c f Q).
Proof.
  intros Ht Hi. pose proof (to_index c i Ht Hi) as Hr. destruct (aget_is_Some _ _ Hr) as [x Hx]. exists x. split_and!; [done|by eapply to_inode|..].
  - intros b Q HQ. apply spec_cinode; [|by left]. intros y Hy. by simplify_eq.
  - intros b g Q HQ. apply spec_upd_inode; [|by left]. intros y Hy. by simplify_eq.
Qed.
(** A slot that has a block already, or that is looked for only. *)
Lemma resolved_now create idx sl c f b : tables_ok c -> tree_ok c f -> 0 <= idx < 256 -> iptr c f idx sl = b -> b <> 0 -> resolved create idx sl c f (Some b) c f.
Proof. intros. split; try done. by apply blocks_grow_refl. Qed.
Lemma resolved_none create idx sl c f : tables_ok c -> tree_ok c f -> 0 <= idx < 256 -> iptr c f idx sl = 0 -> (create = true -> full c) -> resolved create idx sl c f None c f.
Proof. intros. split; try done. by apply blocks_grow_refl. Qed.

Definition put_root (sl : slot) (b : Z) (x : catfs_inode) : catfs_inode :=
  match sl with Direct i => x <| ci_blocks := aset (ci_blocks x) i b |> | Ind => x <| ci_indirect := b |> | Dind => x <| ci_dindirect := b |> | _ => x end.
Lemma put_root_ok sl b x : inode_ok x -> u32_ok b -> inode_ok (put_root sl b x).
Proof.
  intros [] Hb. rewrite !list.Forall_cons in io_nums. destruct io_nums as (?&?&?&?&?&?&_).
  destruct sl; split; cbn; try done; try (repeat (apply list.Forall_cons_2; [done|]); apply list.Forall_nil_2); [by rewrite aset_length|].
  unfold aset. case_match; [done|]. by apply list.Forall_insert.
Qed.
Lemma put_root_meta sl b x : same_meta x (put_root sl b x).
Proof. unfold same_meta. by destruct sl, x. Qed.
Lemma put_root_ptr sl b x a g : inode_ok x -> valid sl -> above sl = None -> above a = None -> valid a -> ptr (put_root sl b x) g a = if decide (a = sl) then b else ptr x g a.
Proof.
  intros Hx Hv Hsl Ha Hva. destruct a, sl; cbn in *; try done; case_decide as E; try done; try (by simplify_eq).
  - injection E as ->. by rewrite aget_aset_eq by (rewrite (io_blocks x Hx); done).
  - by rewrite aget_aset_ne by congruence.
Qed.

Lemma spec_table_block sl get put create idx c f : tables_ok c -> tree_ok c f -> 0 <= idx < 256 -> is_table sl = true -> above sl = None ->
  (forall x g, ptr x g sl = get x) -> (forall b x, put b x = put_root sl b x) ->
  spec false (@table_block D H _ idx get put create) c f (resolved create idx sl c f).
Proof.
  intros Ht Hk Hi Htab Hup Hget Hput. unfold table_block. destruct (spec_inode_at idx c f Ht Hi) as (x & Hx & Hok & Hread & _).
  assert (E : iptr c f idx sl = get x) by (unfold iptr; by rewrite Hx).
  assert (Hv : valid sl) by (by destruct sl).
  eapply spec_bind; [apply (Hread false (fun r c' f' => r = x /\ c' = c /\ f' = f)); done|]. intros ? ? ? (-> & -> & ->).
  destruct (Z.eqb_spec (get x) 0) as [H0|H0]; cbn [negb]; [|apply spec_ret; by apply resolved_now].
  destruct create; cbn [negb]; [|apply spec_ret; apply resolved_none; [done..|congruence|done]].
  eapply spec_bind.
  { apply (spec_bm_alloc false c f (fun nb c' f' => f' = f /\ ((nb = -1 /\ c' = c /\ full c) \/ (0 < nb < CATFS_BLOCKS_MAX /\ marked (cf_bitmap c) nb = Some false /\ c' = taken c nb)))); [done|apply Hk|..].
    - intros nb Hn Hm. split; [done|]. by right.
    - intros Hfull. split; [done|]. by left. }
  intros nb ? ? (-> & [(-> & -> & Hfull)|(Hnb & Hun & ->)]); cbn [Z.ltb Z.compare].
  { apply spec_ret. apply resolved_none; [done..|congruence|done]. }
  destruct (Z.ltb_spec nb 0); [lia|]. assert (Ht1 : tables_ok (taken c nb)) by by apply tables_taken.
  destruct (spec_inode_at idx (taken c nb) f Ht1 Hi) as (y & Hy & _ & _ & Hupd). change (cf_inodes (taken c nb)) with (cf_inodes c) in Hy. rewrite Hx in Hy. injection Hy as <-.
  eapply spec_bind; [apply (Hupd false (put nb) (fun _ c' f' => c' = put_inode (taken c nb) idx (put_root sl nb x) /\ f' = f)); by rewrite Hput|]. intros ? ? ? (-> & ->).
  destruct (link_root idx sl nb c f (fput f (DATA_LBA + nb) zero_sector) x (put_root sl nb x)) as (Ht' & Hk' & Hg & Hp); try done;
    [by rewrite Hget|apply put_root_meta|by apply put_root_ok, u32_ok_blk|intros; by apply put_root_ptr|intros a Ha; unfold fput; by destruct (Z.eqb_spec a (DATA_LBA + nb))|intros _; unfold fput; by rewrite Z.eqb_refl|].
  eapply spec_bind; [apply (spec_blk_write false nb zero_sector _ f (fun _ c' f' => c' = put_inode (taken c nb) idx (put_root sl nb x) /\ f' = fput f (DATA_LBA + nb) zero_sector)); [done|lia|done|done]|].
  intros ? ? ? (-> & ->). apply spec_ret. split; try done. split; [done|lia].
Qed.

Lemma spec_ptr_entry sl p k create idx c f : tables_ok c -> tree_ok c f -> 0 <= idx < 256 -> valid sl -> above sl = Some (p, k) -> iptr c f idx p <> 0 ->
  spec false (@ptr_entry D H _ (iptr c f idx p) k create (is_table sl)) c f (resolved create idx sl c f).
Proof.
  intros Ht Hk Hi Hv Hup HT. unfold ptr_entry. destruct (above_valid sl p k Hup Hv) as (Hpv & Hkk & Hpt). pose proof (tk_range c f idx p Ht Hk Hpv HT) as HTr.
  pose proof (iptr_above c f idx sl p k Hup) as E. unfold entry in E. destruct (Z.eqb_spec (iptr c f idx p) 0) as [|_]; [done|]. set (T := iptr c f idx p) in *.
  eapply spec_bind; [apply (spec_blk_read false T c f (fun r c' f' => r = Some (f (DATA_LBA + T)) /\ length (f (DATA_LBA + T)) = 512%nat /\ c' = c /\ f' = f)); [done|lia|done]|].
  intros ? ? ? (-> & Hlen & -> & ->). cbv zeta. rewrite <- E. destruct (Z.eqb_spec (iptr c f idx sl) 0) as [H0|H0]; cbn [negb]; [|apply spec_ret; by apply resolved_now].
  destruct create; cbn [negb]; [|apply spec_ret; by apply resolved_none].
  eapply spec_bind.
  { apply (spec_bm_alloc false c f (fun nb c' f' => f' = f /\ ((nb = -1 /\ c' = c /\ full c) \/ (0 < nb < CATFS_BLOCKS_MAX /\ marked (cf_bitmap c) nb = Some false /\ c' = taken c nb)))); [done|apply Hk|..].
    - intros nb Hn Hm. split; [done|]. by right.
    - intros Hfull. split; [done|]. by left. }
  intros nb ? ? (-> & [(-> & -> & Hfull)|(Hnb & Hun & ->)]); cbn [Z.ltb Z.compare]; [apply spec_ret; by apply resolved_none|].
  destruct (Z.ltb_spec nb 0); [lia|]. assert (Ht1 : tables_ok (taken c nb)) by by apply tables_taken.
  change CATFS_PTRS_PER_BLOCK with 128 in *. set (sec := splice (f (DATA_LBA + T)) (4 * k) (le_bytes 4 nb)).
  eapply spec_bind; [apply (spec_blk_write false T sec _ f (fun w c' f' => 0 <= w /\ c' = taken c nb /\ f' = fput f (DATA_LBA + T) sec)); [done|lia|unfold sec; rewrite splice_length; rewrite ?le_bytes_length; lia|done]|].
  intros w ? ? (Hw & -> & ->). destruct (Z.ltb_spec w 0); [lia|].
  assert (HnT : nb <> T). { intros ->. pose proof (tk_ptr c f Hk idx p Hpv HT) as Hm. unfold marks in Hm. fold T in Hm. congruence. }
  set (f' := if is_table sl then fput (fput f (DATA_LBA + T) sec) (DATA_LBA + nb) zero_sector else fput f (DATA_LBA + T) sec).
  destruct (link_entry idx sl p k nb c f f') as (Ht' & Hk' & Hg & Hp); try done.
  { unfold f', fput. destruct (is_table sl); fold T; rewrite ?Z.eqb_refl; [|done]. by destruct (Z.eqb_spec (DATA_LBA + T) (DATA_LBA + nb)); [lia|]. }
  { intros a Ha HaT. fold T in HaT. unfold f', fput. by destruct (is_table sl), (Z.eqb_spec a (DATA_LBA + nb)), (Z.eqb_spec a (DATA_LBA + T)). }
  { intros Hst. unfold f', fput. by rewrite Hst, Z.eqb_refl. }
  eapply spec_bind.
  { instantiate (1 := fun _ c' g => c' = taken c nb /\ g = f'). unfold f'. destruct (is_table sl); [|by apply spec_ret].
    apply spec_blk_write; [done|lia|done|done]. }
  intros ? ? ? (-> & ->). apply spec_ret. split; try done. split; [done|lia].
Qed.

Lemma resolved_trans create idx p sl c f b c1 f1 r c2 f2 :
  resolved create idx p c f (Some b) c1 f1 -> resolved create idx sl c1 f1 r c2 f2 -> resolved create idx sl c f r c2 f2.
Proof.
  intros [_ _ G1 _ P1] [T2 K2 G2 R2 P2]. split; try done; [by eapply blocks_grow_trans|]. intros Hc. destruct (P1 Hc) as [-> ->]. by apply P2.
Qed.
Lemma resolved_fail create idx p sl k c f c1 f1 : above sl = Some (p, k) -> resolved create idx p c f None c1 f1 -> resolved create idx sl c f None c1 f1.
Proof. intros Hup [T1 K1 G1 [R1 F1] P1]. split; try done. split; [|done]. by rewrite (iptr_above _ _ _ _ _ _ Hup), R1. Qed.
(** Below a slot that has been resolved. *)
Lemma spec_below create idx p k sl c f (m : C (option Z)) clear : 0 <= idx < 256 -> valid sl -> above sl = Some (p, k) -> clear = is_table sl ->
  spec false m c f (resolved create idx p c f) -> spec false (bind_blk m (fun b => ptr_entry b k create clear)) c f (resolved create idx sl c f).
Proof.
  intros Hi Hv Hup -> Hm. unfold bind_blk. eapply spec_bind; [exact Hm|]. intros [b|] c1 f1 R1; [|apply spec_ret; by eapply resolved_fail].
  destruct (rs_result _ _ _ _ _ _ _ _ R1) as [Eb Hb]. subst b. eapply spec_mono; [apply spec_ptr_entry; [apply R1|apply R1|done..]|].
  intros r c2 f2 R2. by eapply resolved_trans.
Qed.
Lemma bind_blk_assoc (m : C (option Z)) k1 k2 s : bind_blk m (fun b => bind_blk (k1 b) k2) s = bind_blk (bind_blk m k1) k2 s.
Proof. unfold bind_blk, bind. destruct (m s) as [[[b|] s']|]; done. Qed.
Lemma spec_ext {A} b (m m' : C A) c f Q : (forall s, m s = m' s) -> spec b m' c f Q -> spec b m c f Q.
Proof. intros E Hm s Hs. rewrite E. by apply Hm. Qed.

(** The slot of a block of the file. *)
Definition slot_of (n : Z) : slot :=
  if n <? CATFS_DIRECT_BLOCKS then Direct n
  else if n - CATFS_DIRECT_BLOCKS <? CATFS_PTRS_PER_BLOCK then IndP (n - CATFS_DIRECT_BLOCKS)
  else L2 ((n - CATFS_DIRECT_BLOCKS - CATFS_PTRS_PER_BLOCK) / CATFS_PTRS_PER_BLOCK) ((n - CATFS_DIRECT_BLOCKS - CATFS_PTRS_PER_BLOCK) mod CATFS_PTRS_PER_BLOCK).
Lemma slot_of_valid n : 0 <= n < CATFS_MAX_FILE_BLOCKS -> valid (slot_of n).
Proof.
  change CATFS_MAX_FILE_BLOCKS with 16528. unfold slot_of. change CATFS_DIRECT_BLOCKS with 16. change CATFS_PTRS_PER_BLOCK with 128. intros Hn.
  destruct (Z.ltb_spec n 16); cbn; change CATFS_DIRECT_BLOCKS with 16; [lia|]. destruct (Z.ltb_spec (n - 16) 128); cbn; change CATFS_PTRS_PER_BLOCK with 128; [lia|].
  Z.to_euclidean_division_equations; lia.
Qed.
Lemma slot_of_inj n m : 0 <= n -> 0 <= m -> slot_of n = slot_of m -> n = m.
Proof.
  unfold slot_of. change CATFS_DIRECT_BLOCKS with 16. change CATFS_PTRS_PER_BLOCK with 128. intros Hn Hm.
  destruct (Z.ltb_spec n 16), (Z.ltb_spec m 16); try done; [by intros [= ->]|by destruct (Z.ltb_spec (m - 16) 128)|by destruct (Z.ltb_spec (n - 16) 128)|].
  destruct (Z.ltb_spec (n - 16) 128), (Z.ltb_spec (m - 16) 128); try done; intros [= E]; [lia|]. Z.to_euclidean_division_equations; lia.
Qed.
Lemma slot_of_data n : is_table (slot_of n) = false.
Proof. unfold slot_of. by repeat case_match. Qed.

Lemma spec_resolve n create idx c f : tables_ok c -> tree_ok c f -> 0 <= idx < 256 -> 0 <= n < CATFS_MAX_FILE_BLOCKS ->
  spec false (@resolve_block D H _ idx n create) c f (resolved create idx (slot_of n) c f).
Proof.
  intros Ht Hk Hi Hn. pose proof (slot_of_valid n Hn) as Hv. unfold resolve_block. unfold slot_of in *. destruct (Z.ltb_spec n CATFS_DIRECT_BLOCKS) as [Hd|Hd].
  - destruct (spec_inode_at idx c f Ht Hi) as (x & Hx & Hok & Hread & _). assert (E : iptr c f idx (Direct n) = default 0 (aget (ci_blocks x) n)) by (unfold iptr; by rewrite Hx).
    eapply spec_bind; [apply (Hread false (fun r c' f' => r = x /\ c' = c /\ f' = f)); done|]. intros ? ? ? (-> & -> & ->).
    destruct (aget_is_Some (ci_blocks x) n) as [b Hb]; [rewrite (io_blocks x Hok); exact Hv|]. rewrite Hb in E. cbn in E.
    eapply spec_bind; [apply (spec_the false _ c f (fun r c' f' => r = b /\ c' = c /\ f' = f)); [intros ? ?; by simplify_eq|left; by eexists]|]. intros ? ? ? (-> & -> & ->).
    destruct (Z.eqb_spec b 0) as [H0|H0]; cbn [negb]; [|apply spec_ret; by apply resolved_now].
    destruct create; cbn [negb]; [|apply spec_ret; apply resolved_none; [done..|congruence|done]].
    eapply spec_bind.
    { apply (spec_bm_alloc false c f (fun nb c' f' => f' = f /\ ((nb = -1 /\ c' = c /\ full c) \/ (0 < nb < CATFS_BLOCKS_MAX /\ marked (cf_bitmap c) nb = Some false /\ c' = taken c nb)))); [done|apply Hk|..].
      - intros nb Hn' Hm. split; [done|]. by right.
      - intros Hfull. split; [done|]. by left. }
    intros nb ? ? (-> & [(-> & -> & Hfull)|(Hnb & Hun & ->)]); cbn [Z.ltb Z.compare]; [apply spec_ret; apply resolved_none; [done..|congruence|done]|].
    destruct (Z.ltb_spec nb 0); [lia|]. assert (Ht1 : tables_ok (taken c nb)) by by apply tables_taken.
    destruct (spec_inode_at idx (taken c nb) f Ht1 Hi) as (y & Hy & _ & _ & Hupd). change (cf_inodes (taken c nb)) with (cf_inodes c) in Hy. rewrite Hx in Hy. injection Hy as <-.
    destruct (link_root idx (Direct n) nb c f f x (put_root (Direct n) nb x)) as (Ht' & Hk' & Hg & Hp); try done;
      [cbn; by rewrite Hb|by apply put_root_ok, u32_ok_blk|intros; by apply put_root_ptr|].
    eapply spec_bind; [apply (Hupd false _ (fun _ c' f' => c' = put_inode (taken c nb) idx (put_root (Direct n) nb x) /\ f' = f)); done|]. intros ? ? ? (-> & ->).
    apply spec_ret. split; try done. split; [done|lia].
  - cbv zeta. destruct (Z.ltb_spec (n - CATFS_DIRECT_BLOCKS) CATFS_PTRS_PER_BLOCK) as [Hp|Hp].
    + apply (spec_below create idx Ind (n - CATFS_DIRECT_BLOCKS)); [done..|]. by apply spec_table_block.
    + destruct Hv as [Hk1 Hk2]. destruct (Z.leb_spec CATFS_PTRS_PER_BLOCK ((n - CATFS_DIRECT_BLOCKS - CATFS_PTRS_PER_BLOCK) / CATFS_PTRS_PER_BLOCK)); [lia|].
      eapply spec_ext; [intros s; apply bind_blk_assoc|].
      eapply (spec_below create idx (L1 _)); [done..|]. eapply (spec_below create idx Dind); [done..|]. by apply spec_table_block.
Qed.
(** Past the last block a file can have there is none. *)
Lemma spec_resolve_beyond b n idx c f : CATFS_MAX_FILE_BLOCKS <= n -> spec b (@resolve_block D H _ idx n false) c f (fun r c' f' => r = None /\ c' = c /\ f' = f).
Proof.
  change CATFS_MAX_FILE_BLOCKS with 16528. intros Hn. unfold resolve_block. change CATFS_DIRECT_BLOCKS with 16. change CATFS_PTRS_PER_BLOCK with 128.
  destruct (Z.ltb_spec n 16); [lia|]. destruct (Z.ltb_spec (n - 16) 128); [lia|].
  destruct (Z.leb_spec 128 ((n - 16 - 128) / 128)); [by apply spec_ret|]. exfalso. Z.to_euclidean_division_equations; lia.
Qed.
End Resolve.
