(* ===== verification/CatfsIo.v ===== *)
(** * Reading and writing CatFS files

    The loops of [catfs_read] and [catfs_write] over the bytes of a file ([byte_at]), the
    sectors the tables are written to, and the state in which the disk holds the tables
    ([synced]). *)

From S2P Require Import Prelude Cstring Alloc Elf NativeApp Catfs CatfsOps CatfsInv CatfsTree.

Lemma fput_other f a sec b : b <> a -> fput f a sec b = f b.
Proof. intros Hn. unfold fput. by destruct (Z.eqb_spec b a). Qed.
Lemma fput_same f a sec : fput f a sec a = sec.
Proof. unfold fput. by rewrite Z.eqb_refl. Qed.

(** ** Frames *)

(** The pointers depend on the inodes and on the blocks of pointers only. *)
Lemma iptr_frame c f c' f' : cf_inodes c' = cf_inodes c ->
  (forall j p, is_table p = true -> valid p -> iptr c f j p <> 0 -> f' (DATA_LBA + iptr c f j p) = f (DATA_LBA + iptr c f j p)) ->
  forall j a, valid a -> iptr c' f' j a = iptr c f j a.
Proof.
  intros Hc Hf. assert (Hroot : forall j a, above a = None -> iptr c' f' j a = iptr c f j a).
  { intros j a Ha. unfold iptr. rewrite Hc. destruct (aget (cf_inodes c) j); [|done]. by destruct a. }
  assert (Hstep : forall j a p k, above a = Some (p, k) -> valid a -> iptr c' f' j p = iptr c f j p -> iptr c' f' j a = iptr c f j a).
  { intros j a p k Ha Hv E. destruct (above_valid a p k Ha Hv) as (Hpv & _ & Hpt). rewrite (iptr_above c' f' j a p k Ha), (iptr_above c f j a p k Ha), E.
    destruct (decide (iptr c f j p = 0)) as [E0|E0]; [by rewrite E0|]. by apply entry_eq, Hf. }
  intros j a Hv. destruct (above a) as [[p k]|] eqn:Ha; [|by apply Hroot]. destruct (above_valid a p k Ha Hv) as (Hvp & _ & _).
  apply (Hstep j a p k); [done..|]. destruct (above p) as [[q m]|] eqn:Hp; [|by apply Hroot].
  apply (Hstep j p q m); [done..|]. apply Hroot. by destruct a; cbn in Ha; simplify_eq; cbn in Hp; simplify_eq.
Qed.
Lemma tree_frame c f c' f' : tree_ok c f -> cf_bitmap c' = cf_bitmap c -> (forall j a, valid a -> iptr c' f' j a = iptr c f j a) -> tree_ok c' f'.
Proof.
  intros [H1 H2 H3 H4] Hb Hp. split; rewrite ?Hb; [done|..].
  - intros i a Ha. rewrite Hp by done. by apply H2.
  - intros b Hm H0. destruct (H3 b Hm H0) as (i & a & Ha & E). exists i, a. by rewrite Hp.
  - intros i a j b Ha Hb'. rewrite !Hp by done. by apply H4.
Qed.
(** A write to the block of a slot of data. *)
Lemma iptr_data_write c f idx sl sec : tree_ok c f -> valid sl -> is_table sl = false -> iptr c f idx sl <> 0 ->
  forall j a, valid a -> iptr c (fput f (DATA_LBA + iptr c f idx sl) sec) j a = iptr c f j a.
Proof.
  intros Hk Hv Hd H0. apply iptr_frame; [done|]. intros j p Hpt Hpv Hp. unfold fput.
  destruct (Z.eqb_spec (DATA_LBA + iptr c f j p) (DATA_LBA + iptr c f idx sl)) as [E|]; [|done].
  destruct (tk_inj c f Hk j p idx sl Hpv Hv ltac:(lia) Hp) as [_ ->]. congruence.
Qed.

(** ** The bytes of a file *)

Definition file_block (c : catfs_state_t) (f : Z -> list byte) (idx n : Z) : Z :=
  if (0 <=? n) && (n <? CATFS_MAX_FILE_BLOCKS) then iptr c f idx (slot_of n) else 0.
Definition byte_at (c : catfs_state_t) (f : Z -> list byte) (idx pos : Z) : option byte :=
  let b := file_block c f idx (pos / CATFS_BLOCK_SIZE) in
  if b =? 0 then None else f (DATA_LBA + b) !! Z.to_nat (pos mod CATFS_BLOCK_SIZE).
(** What a write of [bs] at [pos] does to the bytes of the files. *)
Record stored (idx pos : Z) (bs : list byte) (c : catfs_state_t) (f : Z -> list byte) (c' : catfs_state_t) (f' : Z -> list byte) : Prop := {
  st_tables : tables_ok c'; st_tree : tree_ok c' f'; st_same : same_others idx c c'; st_low a : 0 <= a < DATA_LBA -> f' a = f a;
  st_bytes i : 0 <= i < zlen bs -> byte_at c' f' idx (pos + i) = bs !! Z.to_nat i;
  st_frame j p v : byte_at c f j p = Some v -> ~ (j = idx /\ pos <= p < pos + zlen bs) -> byte_at c' f' j p = Some v;
  st_other j a : valid a -> j <> idx -> iptr c' f' j a = iptr c f j a;
  st_files j p : j <> idx -> byte_at c' f' j p = byte_at c f j p }.

Lemma stored_nil idx pos c f : tables_ok c -> tree_ok c f -> 0 <= idx < 256 -> stored idx pos [] c f c f.
Proof. intros. split; try done; [by apply same_others_refl|]. cbn. intros. lia. Qed.
Lemma stored_join idx pos b1 b2 c f c1 f1 c2 f2 : stored idx pos b1 c f c1 f1 -> stored idx (pos + zlen b1) b2 c1 f1 c2 f2 -> stored idx pos (b1 ++ b2) c f c2 f2.
Proof.
  intros [T1 K1 S1 L1 B1 F1 O1 E1] [T2 K2 S2 L2 B2 F2 O2 E2]. split; [done|done|by eapply same_others_trans|intros a Ha; by rewrite L2, L1|..].
  - rewrite length_app. intros i Hi. destruct (decide (i < zlen b1)) as [Hlt|Hge].
    + specialize (B1 i ltac:(lia)). rewrite lookup_app_l by lia. destruct (b1 !! Z.to_nat i) as [v|] eqn:E; [|apply lookup_ge_None in E; lia].
      apply (F2 _ _ _ B1). lia.
    + specialize (B2 (i - zlen b1) ltac:(lia)). rewrite lookup_app_r by lia. replace (pos + i) with (pos + zlen b1 + (i - zlen b1)) by lia. rewrite B2. f_equal. lia.
  - rewrite length_app. intros j p v Hb Hn. apply F2; [apply F1|]; [done|lia..].
  - intros j a Ha Hj. by rewrite O2, O1.
  - intros j p Hj. by rewrite E2, E1.
Qed.

Lemma file_block_slot c f idx n : 0 <= n < CATFS_MAX_FILE_BLOCKS -> file_block c f idx n = iptr c f idx (slot_of n).
Proof. intros Hn. unfold file_block. destruct (Z.leb_spec 0 n), (Z.ltb_spec n CATFS_MAX_FILE_BLOCKS); done || lia. Qed.
Lemma file_block_nonzero c f idx n : file_block c f idx n <> 0 -> 0 <= n < CATFS_MAX_FILE_BLOCKS.
Proof. unfold file_block. destruct (Z.leb_spec 0 n), (Z.ltb_spec n CATFS_MAX_FILE_BLOCKS); done. Qed.
Lemma pos_split n off : 0 <= off < 512 -> (CATFS_BLOCK_SIZE * n + off) / CATFS_BLOCK_SIZE = n /\ (CATFS_BLOCK_SIZE * n + off) mod CATFS_BLOCK_SIZE = off.
Proof. change CATFS_BLOCK_SIZE with 512. intros. Z.to_euclidean_division_equations; lia. Qed.

Lemma file_block_eq c f c' f' j n : (forall a, valid a -> iptr c' f' j a = iptr c f j a) -> file_block c' f' j n = file_block c f j n.
Proof.
  intros Hi. unfold file_block. destruct (Z.leb_spec 0 n), (Z.ltb_spec n CATFS_MAX_FILE_BLOCKS); try done. cbn. by apply Hi, slot_of_valid.
Qed.
(** The bytes of a file whose pointers and blocks are as they were. *)
Lemma byte_at_eq c f c' f' j p : (forall a, valid a -> iptr c' f' j a = iptr c f j a) ->
  (forall n, file_block c f j n <> 0 -> f' (DATA_LBA + file_block c f j n) = f (DATA_LBA + file_block c f j n)) -> byte_at c' f' j p = byte_at c f j p.
Proof. intros Hi Hf. unfold byte_at. rewrite (file_block_eq c f c' f' j _ Hi). cbv zeta. destruct (Z.eqb_spec (file_block c f j (p / CATFS_BLOCK_SIZE)) 0); [done|]. by rewrite Hf. Qed.
Lemma grow_data idx c f c' f' j n : blocks_grow idx c f c' f' -> file_block c f j n <> 0 -> f' (DATA_LBA + file_block c f j n) = f (DATA_LBA + file_block c f j n).
Proof.
  intros G Hn. pose proof (file_block_nonzero c f j n Hn) as Hr. rewrite file_block_slot in * by done. apply (gr_data _ _ _ _ _ G); [by apply slot_of_valid|apply slot_of_data|done].
Qed.

(** One block: its slot resolved, then its sector written. *)
Lemma stored_block idx n off bs tmp b c f c1 f1 : 0 <= idx < 256 -> 0 <= n < CATFS_MAX_FILE_BLOCKS -> resolved true idx (slot_of n) c f (Some b) c1 f1 -> 0 <= off -> off + zlen bs <= 512 ->
  length tmp = 512%nat -> (tmp = f1 (DATA_LBA + b) \/ (off = 0 /\ zlen bs = 512)) -> stored idx (CATFS_BLOCK_SIZE * n + off) bs c f c1 (fput f1 (DATA_LBA + b) (splice tmp off bs)).
Proof.
  intros Hi Hn [T1 K1 G1 [Eb Hb] _] Hoff Hlen Htmp Hold. pose proof (slot_of_valid n Hn) as Hv. pose proof (slot_of_data n) as Hd. set (sec := splice tmp off bs). subst b. set (b := iptr c1 f1 idx (slot_of n)) in *.
  pose proof (iptr_data_write c1 f1 idx (slot_of n) sec K1 Hv Hd Hb) as Hsame. fold b in Hsame. pose proof (tk_range c1 f1 idx _ T1 K1 Hv Hb) as Hbr. fold b in Hbr.
  assert (Hsec : fput f1 (DATA_LBA + b) sec (DATA_LBA + b) = sec) by (unfold fput; by rewrite Z.eqb_refl).
  split; [done|by eapply tree_frame|apply G1|..].
  - intros a Ha. unfold fput. destruct (Z.eqb_spec a (DATA_LBA + b)); [lia|]. by apply G1.
  - intros i Hin. unfold byte_at. rewrite <- Z.add_assoc. destruct (pos_split n (off + i)) as [-> ->]; [lia|]. rewrite file_block_slot, Hsame by done. fold b.
    destruct (Z.eqb_spec b 0); [done|]. rewrite Hsec. unfold sec. rewrite lookup_splice by lia. rewrite decide_True by lia. f_equal. lia.
  - intros j p v Hp Hout. unfold byte_at in *. cbv zeta in *. set (B := file_block c f j (p / CATFS_BLOCK_SIZE)) in *. destruct (Z.eqb_spec B 0) as [|HB]; [done|].
    pose proof (file_block_nonzero c f j _ HB) as Hpn. pose proof (slot_of_valid _ Hpn) as Hpv. assert (EB : iptr c f j (slot_of (p / CATFS_BLOCK_SIZE)) = B) by (by rewrite <- file_block_slot).
    assert (E1 : iptr c1 f1 j (slot_of (p / CATFS_BLOCK_SIZE)) = B) by (rewrite (gr_keep _ _ _ _ _ G1 j _ Hpv); congruence).
    rewrite file_block_slot, Hsame, E1 by done. destruct (Z.eqb_spec B 0) as [|_]; [done|]. rewrite <- Hp.
    assert (Ef : f1 (DATA_LBA + B) = f (DATA_LBA + B)). { rewrite <- EB. apply (gr_data _ _ _ _ _ G1); [done|apply slot_of_data|congruence]. }
    destruct (decide (B = b)) as [Ebb|Hne]; [|unfold fput; destruct (Z.eqb_spec (DATA_LBA + B) (DATA_LBA + b)); [lia|by rewrite Ef]].
    destruct (tk_inj c1 f1 K1 j (slot_of (p / CATFS_BLOCK_SIZE)) idx (slot_of n) Hpv Hv) as [-> Es]; [fold b; congruence|congruence|].
    apply slot_of_inj in Es; [|lia..]. rewrite Ebb, Hsec. unfold sec. rewrite lookup_splice by lia. change CATFS_BLOCK_SIZE with 512 in *.
    assert (~ (off <= p mod 512 < off + zlen bs)). { intros Hx. apply Hout. split; [done|]. Z.to_euclidean_division_equations; lia. }
    assert (0 <= p mod 512 < 512) by (by apply Z.mod_pos_bound). rewrite decide_False by lia. destruct Hold as [->|[-> Hw]]; [|lia].
    rewrite <- Ebb, Ef. done.
  - intros j a Ha Hj. rewrite Hsame by done. by apply (gr_other _ _ _ _ _ G1).
  - intros j p Hj. apply byte_at_eq; [intros a Ha; rewrite Hsame by done; by apply (gr_other _ _ _ _ _ G1)|]. intros m Hm. rewrite fput_other; [by apply (grow_data _ _ _ _ _ _ _ G1)|].
    intros E. pose proof (file_block_nonzero c f j m Hm) as Hr. rewrite file_block_slot in * by done. pose proof (gr_other _ _ _ _ _ G1 j _ (slot_of_valid m Hr) Hj) as E1.
    destruct (tk_inj c1 f1 K1 j (slot_of m) idx (slot_of n) (slot_of_valid m Hr) Hv) as [? _]; [fold b; lia|congruence|done].
Qed.

Section Io.
Context {D H : Type} `{!Disk D} `{!DiskLaws D} `{!Allocator H}.
Abbreviation C := (M (cstate D H)).
Implicit Types (c : catfs_state_t) (f : Z -> list byte).

Lemma spec_write_loop fuel : forall idx offset written buf c f, tables_ok c -> tree_ok c f -> 0 <= idx < 256 -> 0 <= offset -> 0 <= written -> offset + written + zlen buf <= 2 ^ 32 ->
  (0 < zlen buf -> zlen buf + (offset + written) mod CATFS_BLOCK_SIZE <= CATFS_BLOCK_SIZE * Z.of_nat fuel) ->
  spec false (@write_loop D H _ fuel idx offset written buf) c f (fun n c' f' => exists k, n = written + Z.of_nat k /\ (k <= length buf)%nat /\ stored idx (offset + written) (take k buf) c f c' f' /\
    ((k < length buf)%nat -> full c' \/ CATFS_MAX_FILE_BLOCKS * CATFS_BLOCK_SIZE <= offset + n)).
Proof.
  induction fuel as [|fuel IH]; intros idx offset written buf c f Ht Hk Hi Ho Hw Hwrap Hfuel; cbn [write_loop]; destruct (Z.leb_spec (zlen buf) 0) as [Hz|Hz].
  1,3: apply spec_ret; exists 0%nat; rewrite take_0; split_and!; [lia|lia|by apply stored_nil|lia].
  { exfalso. assert (0 <= (offset + written) mod CATFS_BLOCK_SIZE) by (by apply Z.mod_pos_bound). specialize (Hfuel Hz). lia. }
  specialize (Hfuel Hz). cbv zeta. rewrite (u32_small (offset + written)) by lia. set (pos := offset + written) in *. change CATFS_BLOCK_SIZE with 512 in *.
  assert (Hm : 0 <= pos mod 512 < 512) by (by apply Z.mod_pos_bound). assert (Hp : 0 <= pos / 512) by (apply Z.div_pos; lia).
  assert (Hdm : pos = 512 * (pos / 512) + pos mod 512) by (by apply Z.div_mod).
  destruct (Z.leb_spec CATFS_MAX_FILE_BLOCKS (pos / 512)) as [Hmax|Hmax].
  { apply spec_ret. exists 0%nat. rewrite take_0. split_and!; [lia|lia|by apply stored_nil|]. intros _. right. subst pos. lia. }
  eapply spec_bind; [by apply (spec_resolve (pos / 512) true idx c f)|]. intros [b|] c1 f1 R; cycle 1.
  { apply spec_ret. exists 0%nat. rewrite take_0. destruct R as [T1 K1 G1 [E1 F1] _]. split_and!; [lia|lia| |auto].
    split; try done; [apply G1|intros; by apply (gr_low _ _ _ _ _ G1)|cbn; intros; lia| |intros; by apply (gr_other _ _ _ _ _ G1)|
      intros; apply byte_at_eq; [intros; by apply (gr_other _ _ _ _ _ G1)|intros; by apply (grow_data _ _ _ _ _ _ _ G1)]].
    intros j p v Hb _. unfold byte_at in *. cbv zeta in *. set (B := file_block c f j (p / CATFS_BLOCK_SIZE)) in *. destruct (Z.eqb_spec B 0) as [|HB]; [done|].
    pose proof (file_block_nonzero c f j _ HB) as Hpn. pose proof (slot_of_valid _ Hpn) as Hpv. assert (EB : iptr c f j (slot_of (p / CATFS_BLOCK_SIZE)) = B) by (by rewrite <- file_block_slot).
    rewrite file_block_slot, (gr_keep _ _ _ _ _ G1 j _ Hpv), EB by (done || congruence). destruct (Z.eqb_spec B 0); [done|].
    rewrite <- EB, (gr_data _ _ _ _ _ G1 j _ Hpv), EB; [done|apply slot_of_data|congruence]. }
  destruct (rs_result _ _ _ _ _ _ _ _ R) as [Eb Hb]. pose proof (rs_tables _ _ _ _ _ _ _ _ R) as T1. pose proof (rs_tree _ _ _ _ _ _ _ _ R) as K1.
  assert (Hbr : 0 <= b < CATFS_BLOCKS_MAX). { pose proof (tk_range c1 f1 idx (slot_of (pos / 512)) T1 K1 (slot_of_valid _ (conj Hp Hmax)) ltac:(congruence)). lia. }
  eapply (spec_bind _ _ _ _ _ (fun tmp c' f' => c' = c1 /\ f' = f1 /\ length tmp = 512%nat /\ (tmp = f1 (DATA_LBA + b) \/ (pos mod 512 = 0 /\ 512 <= zlen buf)))).
  { destruct (Z.eqb_spec (pos mod 512) 0) as [E0|E0]; cbn [negb orb]; [destruct (Z.ltb_spec (zlen buf) 512)|]; [| apply spec_ret; split_and!; [done|done|done|right; lia]|].
    all: eapply spec_bind; [apply (spec_blk_read false b c1 f1 (fun r c' f' => r = Some (f1 (DATA_LBA + b)) /\ length (f1 (DATA_LBA + b)) = 512%nat /\ c' = c1 /\ f' = f1)); [done|lia|done]|];
      intros ? ? ? (-> & Hl & -> & ->); apply spec_ret; cbn [default]; eauto. }
  intros tmp ? ? (-> & -> & Htmp & Hold). set (chunk := Z.min (zlen buf) (512 - pos mod 512)). set (bs := take (Z.to_nat chunk) buf).
  assert (Hbl : zlen bs = chunk) by (unfold bs; rewrite length_take; lia).
  eapply spec_bind; [apply (spec_blk_write false b _ c1 f1 (fun w c' f' => 0 <= w /\ c' = c1 /\ f' = fput f1 (DATA_LBA + b) (splice tmp (pos mod 512) bs))); [done|lia|rewrite splice_length; lia|done]|].
  intros w ? ? (Hw0 & -> & ->). destruct (Z.ltb_spec w 0); [lia|].
  pose proof (stored_block idx (pos / 512) (pos mod 512) bs tmp b c f c1 f1 Hi ltac:(lia) R ltac:(lia) ltac:(lia) Htmp ltac:(destruct Hold as [?|[? ?]]; [by left|right; lia])) as S1.
  change CATFS_BLOCK_SIZE with 512 in S1. rewrite <- Hdm in S1. set (f2 := fput f1 (DATA_LBA + b) (splice tmp (pos mod 512) bs)) in *.
  eapply spec_mono; [apply IH; [apply S1|apply S1|done|done|lia|rewrite length_drop; lia|]|].
  - rewrite length_drop. change CATFS_BLOCK_SIZE with 512. replace (offset + (written + chunk)) with (pos + chunk) by lia. intros Hmore.
    assert (chunk = 512 - pos mod 512) as Ec by lia. replace ((pos + chunk) mod 512) with 0 by (rewrite Ec; Z.to_euclidean_division_equations; lia). lia.
  - cbv beta. intros n c' f' (k & -> & Hkl & S2 & Hfull). rewrite length_drop in Hkl, Hfull. replace (offset + (written + chunk)) with (pos + chunk) in S2 by lia.
    exists (Z.to_nat chunk + k)%nat. split_and!; [lia|lia| |].
    + rewrite <- (take_drop (Z.to_nat chunk) buf) at 1. rewrite take_app_add'; [|rewrite length_take; lia]. fold bs. eapply stored_join; [exact S1|]. by rewrite Hbl.
    + intros Hk'. destruct Hfull as [?|?]; [lia|by left|right; lia].
Qed.

Lemma byte_at_lookup c f idx pos b : file_block c f idx (pos / CATFS_BLOCK_SIZE) = b -> b <> 0 -> byte_at c f idx pos = f (DATA_LBA + b) !! Z.to_nat (pos mod CATFS_BLOCK_SIZE).
Proof. intros E Hb. unfold byte_at. rewrite E. by destruct (Z.eqb_spec b 0). Qed.

(** The bytes from [offset + done] on, up to the end of the range or the first hole. *)
Lemma spec_read_loop fuel : forall idx offset len done c f, tables_ok c -> tree_ok c f -> 0 <= idx < 256 -> 0 <= offset -> 0 <= done -> offset + len <= 2 ^ 32 ->
  (done < len -> len - done + (offset + done) mod CATFS_BLOCK_SIZE <= CATFS_BLOCK_SIZE * Z.of_nat fuel) ->
  spec false (@read_loop D H _ fuel idx offset len done) c f (fun bs c' f' => c' = c /\ f' = f /\ (zlen bs <= Z.max 0 (len - done)) /\
    (forall i, 0 <= i < zlen bs -> byte_at c f idx (offset + done + i) = bs !! Z.to_nat i) /\ (zlen bs < len - done -> byte_at c f idx (offset + done + zlen bs) = None)).
Proof.
  induction fuel as [|fuel IH]; intros idx offset len done c f Ht Hk Hi Ho Hd Hwrap Hfuel; cbn [read_loop]; destruct (Z.leb_spec len done) as [Hz|Hz].
  1,3: apply spec_ret; cbn; split_and!; [done|done|lia|intros; lia|intros; lia].
  { exfalso. assert (0 <= (offset + done) mod CATFS_BLOCK_SIZE) by (by apply Z.mod_pos_bound). specialize (Hfuel Hz). lia. }
  specialize (Hfuel Hz). cbv zeta. rewrite (u32_small (offset + done)) by lia. set (pos := offset + done) in *. change CATFS_BLOCK_SIZE with 512 in *.
  assert (Hm : 0 <= pos mod 512 < 512) by (by apply Z.mod_pos_bound). assert (Hp : 0 <= pos / 512) by (apply Z.div_pos; lia).
  assert (Hdm : pos = 512 * (pos / 512) + pos mod 512) by (by apply Z.div_mod).
  eapply (spec_bind _ _ _ _ _ (fun r c' f' => c' = c /\ f' = f /\ match r with Some b => file_block c f idx (pos / 512) = b /\ b <> 0 | None => file_block c f idx (pos / 512) = 0 end)).
  { destruct (Z.ltb_spec (pos / 512) CATFS_MAX_FILE_BLOCKS) as [Hmax|Hmax].
    - eapply spec_mono; [by apply (spec_resolve (pos / 512) false idx c f)|]. intros r c' f' R. destruct (rs_pure _ _ _ _ _ _ _ _ R eq_refl) as [-> ->].
      rewrite file_block_slot by done. pose proof (rs_result _ _ _ _ _ _ _ _ R). destruct r; naive_solver.
    - eapply spec_mono; [by apply (spec_resolve_beyond false (pos / 512) idx c f)|]. cbv beta. intros r c' f' (-> & -> & ->). split_and!; [done..|].
      destruct (decide (file_block c f idx (pos / 512) = 0)) as [|Hn]; [done|]. apply file_block_nonzero in Hn. lia. }
  intros [b|] ? ? (-> & -> & Hb); [destruct Hb as [Eb Hb]|]; cycle 1.
  { apply spec_ret. cbn. split_and!; [done|done|lia|intros; lia|]. intros _. rewrite Z.add_0_r. unfold byte_at. change CATFS_BLOCK_SIZE with 512. by rewrite Hb. }
  assert (Hmax : 0 <= pos / 512 < CATFS_MAX_FILE_BLOCKS) by (apply (file_block_nonzero c f idx); congruence).
  assert (Hbr : 0 <= b < CATFS_BLOCKS_MAX). { rewrite file_block_slot in Eb by done. pose proof (tk_range c f idx _ Ht Hk (slot_of_valid _ Hmax) ltac:(congruence)). lia. }
  eapply spec_bind; [apply (spec_blk_read false b c f (fun r c' f' => r = Some (f (DATA_LBA + b)) /\ length (f (DATA_LBA + b)) = 512%nat /\ c' = c /\ f' = f)); [done|lia|done]|].
  intros ? ? ? (-> & Hl & -> & ->). set (chunk := Z.min (len - done) (512 - pos mod 512)).
  eapply spec_bind; [apply (IH idx offset len (done + chunk)); [done..|lia|lia|]|].
  { change CATFS_BLOCK_SIZE with 512. replace (offset + (done + chunk)) with (pos + chunk) by lia. intros Hmore.
    assert (chunk = 512 - pos mod 512) as Ec by lia. replace ((pos + chunk) mod 512) with 0 by (rewrite Ec; Z.to_euclidean_division_equations; lia). lia. }
  cbv beta. intros rest ? ? (-> & -> & Hlen & Hbytes & Hend). replace (offset + (done + chunk)) with (pos + chunk) in * by lia. apply spec_ret.
  assert (Hpl : zlen (part (f (DATA_LBA + b)) (pos mod 512) chunk) = chunk) by (apply part_length; lia).
  split_and!; [done|done|rewrite length_app; lia|..].
  - rewrite length_app. intros i Hin. destruct (decide (i < chunk)) as [Hic|Hic].
    + rewrite lookup_app_l by lia. rewrite lookup_part by lia. rewrite decide_True by lia. assert (E : (pos + i) / 512 = pos / 512 /\ (pos + i) mod 512 = pos mod 512 + i) by (Z.to_euclidean_division_equations; lia).
      rewrite (byte_at_lookup c f idx (pos + i) b) by (change CATFS_BLOCK_SIZE with 512; destruct E as [E _]; by rewrite ?E). change CATFS_BLOCK_SIZE with 512. destruct E as [_ ->]. f_equal. lia.
    + rewrite lookup_app_r by lia. specialize (Hbytes (i - chunk) ltac:(lia)). replace (pos + i) with (pos + chunk + (i - chunk)) by lia. rewrite Hbytes. f_equal. lia.
  - rewrite length_app. intros Hshort. replace (pos + Z.of_nat _) with (pos + chunk + zlen rest) by lia. apply Hend. lia.
Qed.
End Io.

(** ** The tables on the disk *)

Definition bm_sector (c : catfs_state_t) (s : Z) : list byte := part (zb <$> cf_bitmap c) (s * SECTOR_SIZE) SECTOR_SIZE.
(** The disk holds the tables in memory, the time of last access of an inode excepted. *)
Record synced (c : catfs_state_t) (f : Z -> list byte) : Prop := {
  sy_sb : f SB_LBA = super_bytes (cf_sb c);
  sy_jh : f JOURNAL_HDR_LBA = jh_bytes (cf_jh c);
  sy_ino i x : aget (cf_inodes c) i = Some x -> exists t, u32_ok t /\ part (f (INODE_TABLE_LBA + i / 3)) (i mod 3 * 151) 151 = inode_bytes (x <| ci_atime := t |>);
  sy_bm s : 0 <= s < BITMAP_SECTORS -> f (BITMAP_LBA + s) = bm_sector c s }.
Definition inode_sec (c : catfs_state_t) (f : Z -> list byte) (i : Z) (x : catfs_inode) : list byte := splice (f (INODE_TABLE_LBA + i / 3)) (i mod 3 * 151) (inode_bytes x).

(** The record journalled by [journal_log], and its place. *)
Definition log_lba (h : Z) : Z := JOURNAL_LOG_LBA + h mod CATFS_JOURNAL_SLOTS / 25.
Definition logged (c : catfs_state_t) : catfs_state_t :=
  c <| cf_jh := (cf_jh c) <| jh_head := u32 (jh_head (cf_jh c) + 1) |> |> <| cf_next_seq := u32 (cf_next_seq c + 1) |>.
Definition log_sector (c : catfs_state_t) (f : Z -> list byte) (type i a b : Z) : list byte :=
  let h := jh_head (cf_jh c) in splice (f (log_lba h)) (h mod CATFS_JOURNAL_SLOTS mod 25 * sizeof_rec) (rec_bytes (mk_rec type i a b (u32 (cf_next_seq c + 1)))).
Definition committed (c : catfs_state_t) : catfs_state_t :=
  c <| cf_jh := (cf_jh c) <| jh_committed_seq := cf_next_seq c |> <| jh_magic := CATFS_MAGIC |> |>.

Lemma tables_logged c : tables_ok c -> tables_ok (logged c).
Proof.
  intros []. split; try done; cbn; [|apply u32_range]. destruct to_jh as [Hn Hp]. rewrite !list.Forall_cons in Hn. destruct Hn as (?&?&?&_).
  split; cbn; [|done]. repeat (apply list.Forall_cons_2; [done || apply u32_range|]). apply list.Forall_nil_2.
Qed.
Lemma tables_committed c : tables_ok c -> tables_ok (committed c).
Proof.
  intros []. split; try done; cbn. destruct to_jh as [Hn Hp]. rewrite !list.Forall_cons in Hn. destruct Hn as (?&?&?&_).
  split; cbn; [|done]. repeat (apply list.Forall_cons_2; [done|]). apply list.Forall_nil_2.
Qed.
Lemma rec_bytes_length r : zlen (rec_bytes r) = 20.
Proof. unfold rec_bytes. rewrite !length_app, !le_bytes_length. done. Qed.
Lemma log_lba_range h : 0 <= h -> 2 <= log_lba h <= 10 /\ (h mod CATFS_JOURNAL_SLOTS < 200 -> log_lba h < 10).
Proof.
  intros Hh. unfold log_lba. change CATFS_JOURNAL_SLOTS with 204. change JOURNAL_LOG_LBA with 2. pose proof (Z.mod_pos_bound h 204 ltac:(lia)).
  Z.to_euclidean_division_equations; lia.
Qed.
Lemma jh_head_nonneg c : tables_ok c -> 0 <= jh_head (cf_jh c).
Proof. intros Ht. destruct (to_jh c Ht) as [Hn _]. rewrite !list.Forall_cons in Hn. destruct Hn as (_ & H & _). apply H. Qed.

Section Tables.
Context {D H : Type} `{!Disk D} `{!DiskLaws D} `{!Allocator H}.
Implicit Types (c : catfs_state_t) (f : Z -> list byte) (b : bool).

Lemma low_range a : 0 <= a < DATA_LBA -> 0 <= a < SECTORS.
Proof. unfold SECTORS. change DATA_LBA with 100. change CATFS_BLOCKS_MAX with 16384. lia. Qed.
Lemma spec_sync_superblock b c f (Q : Z -> _ -> _ -> Prop) : tables_ok c -> Q 0 c (fput f SB_LBA (super_bytes (cf_sb c))) -> spec b (@sync_superblock D H _) c f Q.
Proof.
  intros Ht HQ. unfold sync_superblock. eapply spec_bind; [apply (spec_fs b cf_sb c f (fun r c' f' => r = cf_sb c /\ c' = c /\ f' = f)); done|]. intros ? ? ? (-> & -> & ->).
  apply spec_write; [done|apply super_bytes_length, Ht|done].
Qed.
Lemma spec_sync_inode b i x c f (Q : Z -> _ -> _ -> Prop) : tables_ok c -> aget (cf_inodes c) i = Some x ->
  (length (f (INODE_TABLE_LBA + i / 3)) = 512%nat -> Q 0 c (fput f (INODE_TABLE_LBA + i / 3) (inode_sec c f i x))) -> spec b (@sync_inode D H _ i) c f Q.
Proof.
  intros Ht Hx HQ. pose proof (aget_Some_range _ _ _ Hx) as Hi. rewrite (to_len c Ht) in Hi. unfold sync_inode. cbv zeta. change INODES_PER_SECTOR with 3. change sizeof_cinode with 151.
  assert (Ha : 0 <= INODE_TABLE_LBA + i / 3 < SECTORS) by (apply low_range; change INODE_TABLE_LBA with 10; change DATA_LBA with 100; Z.to_euclidean_division_equations; lia).
  eapply spec_bind; [apply (spec_read b (INODE_TABLE_LBA + i / 3) c f (fun r c' f' => r = Some (f (INODE_TABLE_LBA + i / 3)) /\ length (f (INODE_TABLE_LBA + i / 3)) = 512%nat /\ c' = c /\ f' = f)); done|].
  intros ? ? ? (-> & Hl & -> & ->). eapply spec_bind; [apply (spec_cinode b i c f (fun r c' f' => r = x /\ c' = c /\ f' = f)); [intros; by simplify_eq|left; by eapply aget_Some_range]|].
  intros ? ? ? (-> & -> & ->). pose proof (inode_bytes_length x (to_inode c i x Ht Hx)) as Hb. pose proof (Z.mod_pos_bound i 3 ltac:(lia)).
  apply spec_write; [done|rewrite splice_length; lia|]. by apply HQ.
Qed.
Lemma spec_journal_log b type i a v c f (Q : Z -> _ -> _ -> Prop) : tables_ok c ->
  (length (f (log_lba (jh_head (cf_jh c)))) = 512%nat -> Q 0 (logged c) (fput f (log_lba (jh_head (cf_jh c))) (log_sector c f type i a v))) -> spec b (@journal_log D H _ type i a v) c f Q.
Proof.
  intros Ht HQ. pose proof (jh_head_nonneg c Ht) as Hh. destruct (log_lba_range _ Hh) as [Hlba _]. unfold journal_log.
  eapply spec_bind; [apply (spec_upd b _ c f (fun _ c' f' => c' = c <| cf_next_seq := u32 (cf_next_seq c + 1) |> /\ f' = f)); done|]. intros ? ? ? (-> & ->). set (c1 := c <| cf_next_seq := _ |>).
  eapply spec_bind; [apply (spec_fs b cf_next_seq c1 f (fun r c' f' => r = u32 (cf_next_seq c + 1) /\ c' = c1 /\ f' = f)); done|]. intros ? ? ? (-> & -> & ->).
  unfold journal_write_rec. eapply spec_bind; [apply (spec_fs b _ c1 f (fun r c' f' => r = jh_head (cf_jh c) /\ c' = c1 /\ f' = f)); done|]. intros ? ? ? (-> & -> & ->). cbv zeta.
  change (SECTOR_SIZE / sizeof_rec) with 25. fold (log_lba (jh_head (cf_jh c))).
  eapply spec_bind; [apply (spec_read b (log_lba (jh_head (cf_jh c))) c1 f (fun r c' f' => r = Some (f (log_lba (jh_head (cf_jh c)))) /\ length (f (log_lba (jh_head (cf_jh c)))) = 512%nat /\ c' = c1 /\ f' = f)); [apply low_range; change DATA_LBA with 100; lia|done]|].
  intros ? ? ? (-> & Hl & -> & ->).
  assert (Hsl : length (log_sector c f type i a v) = 512%nat).
  { unfold log_sector. cbv zeta. pose proof (Z.mod_pos_bound (jh_head (cf_jh c) mod CATFS_JOURNAL_SLOTS) 25 ltac:(lia)). change sizeof_rec with 20. rewrite splice_length; rewrite ?rec_bytes_length; lia. }
  eapply spec_bind; [apply (spec_write b (log_lba (jh_head (cf_jh c))) (log_sector c f type i a v) c1 f (fun w c' f' => 0 <= w /\ c' = c1 /\ f' = fput f (log_lba (jh_head (cf_jh c))) (log_sector c f type i a v)));
    [apply low_range; change DATA_LBA with 100; lia|done|done]|].
  intros w ? ? (Hw & -> & ->). destruct (Z.ltb_spec w 0); [lia|].
  eapply spec_bind; [apply (spec_upd b _ c1 _ (fun _ c' f' => c' = logged c /\ f' = fput f (log_lba (jh_head (cf_jh c))) (log_sector c f type i a v))); done|]. intros ? ? ? (-> & ->).
  apply spec_ret. by apply HQ.
Qed.
Lemma spec_journal_commit b c f (Q : Z -> _ -> _ -> Prop) : tables_ok c -> Q 0 (committed c) (fput f JOURNAL_HDR_LBA (jh_bytes (cf_jh (committed c)))) -> spec b (@journal_commit D H _) c f Q.
Proof.
  intros Ht HQ. unfold journal_commit, journal_flush_header. eapply spec_bind; [apply (spec_upd b _ c f (fun _ c' f' => c' = c <| cf_jh := (cf_jh c) <| jh_committed_seq := cf_next_seq c |> |> /\ f' = f)); done|].
  intros ? ? ? (-> & ->). eapply spec_bind; [apply (spec_upd b _ _ f (fun _ c' f' => c' = committed c /\ f' = f)); done|]. intros ? ? ? (-> & ->).
  eapply spec_bind; [apply (spec_fs b cf_jh _ f (fun r c' f' => r = cf_jh (committed c) /\ c' = committed c /\ f' = f)); done|]. intros ? ? ? (-> & -> & ->).
  apply spec_write; [done|apply jh_bytes_length, tables_committed, Ht|done].
Qed.

Lemma spec_each_sector b (g : Z -> M (cstate D H) Z) (I : list Z -> catfs_state_t -> (Z -> list byte) -> Prop) l c f : I [] c f ->
  (forall pre s c' f', pre ++ [s] `prefix_of` l -> I pre c' f' -> spec b (g s) c' f' (fun r c'' f'' => 0 <= r /\ I (pre ++ [s]) c'' f'')) ->
  spec b (each_sector g l) c f (fun r c' f' => r = 0 /\ I l c' f').
Proof.
  intros H0 Hg. enough (Hgo : forall rest pre c' f', pre ++ rest = l -> I pre c' f' -> spec b (each_sector g rest) c' f' (fun r c'' f'' => r = 0 /\ I l c'' f'')) by (by apply (Hgo l [])).
  induction rest as [|s rest IH]; intros pre c' f' E HI; cbn [each_sector].
  - rewrite app_nil_r in E. subst. by apply spec_ret.
  - eapply spec_bind; [apply (Hg pre s); [|done]; exists rest; by rewrite <- app_assoc|]. cbv beta. intros r c1 f1 [Hr HI1]. destruct (Z.ltb_spec r 0); [lia|].
    apply (IH (pre ++ [s])); [by rewrite <- app_assoc|done].
Qed.
Lemma prefix_seqZ pre s n : 0 <= n -> pre ++ [s] `prefix_of` seqZ 0 n -> 0 <= s < n /\ (forall i, i ∈ pre <-> 0 <= i < s).
Proof.
  intros Hn [rest E]. assert (Hs : seqZ 0 n !! length pre = Some s) by (rewrite E, <- app_assoc, lookup_app_r, Nat.sub_diag by lia; done).
  apply lookup_seqZ in Hs as [-> Hl]. split; [lia|]. assert (Ep : pre = seqZ 0 (zlen pre)).
  { apply list_eq. intros i. destruct (decide (i < length pre)%nat) as [Hi|Hi].
    - rewrite lookup_seqZ_lt by lia. assert (E' : seqZ 0 n !! i = pre !! i) by (rewrite E, <- app_assoc, lookup_app_l by lia; done). rewrite <- E', lookup_seqZ_lt by lia. done.
    - rewrite lookup_ge_None_2 by lia. symmetry. apply lookup_ge_None_2. rewrite length_seqZ. lia. }
  intros i. rewrite Ep at 1. rewrite elem_of_seqZ. lia.
Qed.
Lemma bm_sector_length c s : tables_ok c -> 0 <= s < BITMAP_SECTORS -> zlen (bm_sector c s) = 512.
Proof.
  intros Ht Hs. destruct (to_bm c Ht) as [Hl _]. unfold bm_sector. change SECTOR_SIZE with 512. change BITMAP_SECTORS with 4 in Hs. apply part_length; [lia|lia|]. rewrite length_fmap. lia.
Qed.
Lemma spec_sync_bitmap b c f (Q : Z -> _ -> _ -> Prop) : tables_ok c ->
  (forall f', (forall a, f' a = if decide (BITMAP_LBA <= a < DATA_LBA) then bm_sector c (a - BITMAP_LBA) else f a) -> Q 0 c f') -> spec b (@sync_bitmap D H _) c f Q.
Proof.
  intros Ht HQ. unfold sync_bitmap, sync_bitmap_region. cbv zeta. change (seqZ _ _) with (seqZ 0 BITMAP_SECTORS).
  eapply spec_mono; [apply (spec_each_sector b _ (fun pre c' f' => c' = c /\ forall a, f' a = if decide (a - BITMAP_LBA ∈ pre) then bm_sector c (a - BITMAP_LBA) else f a))|].
  - split; [done|]. intros a. rewrite decide_False; [done|]. apply not_elem_of_nil.
  - intros pre s c' f' Hpre [-> Hf']. apply prefix_seqZ in Hpre as [Hs Hin]; [|done].
    eapply spec_bind; [apply (spec_fs b cf_bitmap c f' (fun r c' g => r = cf_bitmap c /\ c' = c /\ g = f')); done|]. intros ? ? ? (-> & -> & ->). fold (bm_sector c s).
    pose proof (bm_sector_length c s Ht Hs) as Hlen. rewrite Hlen. change (zeros (SECTOR_SIZE - 512)) with (@nil byte). rewrite app_nil_r.
    apply spec_write; [apply low_range; change BITMAP_SECTORS with 4 in Hs; change BITMAP_LBA with 96; change DATA_LBA with 100; lia|lia|].
    split; [done|]. split; [done|]. intros a. unfold fput. destruct (Z.eqb_spec a (BITMAP_LBA + s)) as [->|Hne].
    + replace (BITMAP_LBA + s - BITMAP_LBA) with s by lia. rewrite decide_True; [done|]. set_solver.
    + rewrite Hf'. apply decide_ext. rewrite elem_of_app, list_elem_of_singleton. split; [by left|]. intros [?|?]; [done|lia].
  - cbv beta. intros r c' f' (-> & -> & Hf'). apply HQ. intros a. rewrite Hf'. apply decide_ext. rewrite elem_of_seqZ. change BITMAP_SECTORS with 4. change BITMAP_LBA with 96. change DATA_LBA with 100. lia.
Qed.
End Tables.
