(* ===== verification/CatfsSync.v ===== *)
(** * CatFS operations: what they keep, and what survives a crash

    Every operation on a working disk keeps the blocks of the files apart and accounted for
    ([fs_ok]) and leaves the tables on the disk as they are in memory ([synced]). *)

From S2P Require Import Prelude Cstring Alloc Elf NativeApp Catfs CatfsOps CatfsNames CatfsInv CatfsTree CatfsIo.

(** ** The invariant *)

Record fs_ok (c : catfs_state_t) (f : Z -> list byte) : Prop := {
  fk_tables : tables_ok c; fk_tree : tree_ok c f;
  fk_free i x : aget (cf_inodes c) i = Some x -> ci_type x = CATFS_TYPE_FREE -> forall a, above a = None -> valid a -> ptr x f a = 0 }.

Definition low_frame (f f' : Z -> list byte) : Prop := forall a, DATA_LBA <= a -> f' a = f a.
Definition same_ptrs (x x' : catfs_inode) : Prop := ci_blocks x' = ci_blocks x /\ ci_indirect x' = ci_indirect x /\ ci_dindirect x' = ci_dindirect x.
Lemma ptr_same x x' f a : same_ptrs x x' -> ptr x' f a = ptr x f a.
Proof. intros (E1 & E2 & E3). destruct a; cbn; congruence. Qed.
Lemma ptr_above x f a p k : above a = Some (p, k) -> ptr x f a = entry f (ptr x f p) k.
Proof. by destruct a; cbn; try done; intros [= <- <-]. Qed.
Lemma ptr_zero f a : ptr inode_zero f a = 0.
Proof.
  destruct a; try done. unfold ptr, inode_zero. cbn [ci_blocks]. unfold aget. case_match; [done|]. destruct (replicate 16 0 !! _) eqn:E; [|done].
  by apply lookup_replicate in E as [-> _].
Qed.
Lemma ptr_low x f f' c i a : tables_ok c -> tree_ok c f -> aget (cf_inodes c) i = Some x -> low_frame f f' -> valid a -> ptr x f' a = ptr x f a.
Proof.
  intros Ht Hk Hx Hf Hv. pose proof (iptr_frame c f c f' eq_refl) as HF. unfold iptr in HF. specialize (HF ltac:(intros j p Hpt Hpv Hp; apply Hf; pose proof (tk_range c f j p Ht Hk Hpv Hp); unfold iptr in *; lia) i a Hv).
  by rewrite Hx in HF.
Qed.
Lemma iptr_low c c' f f' : tables_ok c -> tree_ok c f -> cf_inodes c' = cf_inodes c -> low_frame f f' -> forall j a, valid a -> iptr c' f' j a = iptr c f j a.
Proof. intros Ht Hk Hc Hf. apply iptr_frame; [done|]. intros j p Hpt Hpv Hp. apply Hf. pose proof (tk_range c f j p Ht Hk Hpv Hp). lia. Qed.

(** An inode changed without its pointers, and sectors below the data written. *)
Lemma fs_ok_meta c f c' f' i x x' : fs_ok c f -> tables_ok c' -> cf_bitmap c' = cf_bitmap c -> aget (cf_inodes c) i = Some x -> cf_inodes c' = aset (cf_inodes c) i x' ->
  (same_ptrs x x' /\ ci_type x' = ci_type x) \/ (ci_type x = CATFS_TYPE_FREE /\ same_ptrs inode_zero x') -> low_frame f f' ->
  fs_ok c' f' /\ (forall j a, valid a -> iptr c' f' j a = iptr c f j a).
Proof.
  intros [Ht Hk Hfree] Ht' Hb Hx Hc' Hp Hf. pose proof (aget_Some_range _ _ _ Hx) as Hr.
  assert (Hroot : forall a g, above a = None -> valid a -> ptr x' g a = ptr x g a).
  { intros a g Ha Hv. destruct Hp as [[Hp _]|[Hty Hp]]; [by apply ptr_same|]. rewrite (ptr_same inode_zero x') by done.
    rewrite ptr_zero.
    pose proof (Hfree i x Hx Hty a Ha Hv) as E. by destruct a. }
  assert (Hsame : forall g a, valid a -> ptr x' g a = ptr x g a).
  { intros g a Hv. destruct (above a) as [[p k]|] eqn:Ea; [|by apply Hroot].
    destruct (above_valid a p k Ea Hv) as (Hvp & _ & _). rewrite !(ptr_above _ _ a p k Ea). f_equal. destruct (above p) as [[q m]|] eqn:Ep; [|by apply Hroot].
    destruct (above_valid p q m Ep Hvp) as (Hvq & _ & _). rewrite !(ptr_above _ _ p q m Ep). f_equal. apply Hroot; [|done].
    by destruct a; cbn in Ea; simplify_eq; cbn in Ep; simplify_eq. }
  assert (Hi : forall j a, valid a -> iptr c' f' j a = iptr c f j a).
  { intros j a Hv. rewrite <- (iptr_low c c f f' Ht Hk eq_refl Hf j a Hv). unfold iptr. rewrite Hc'. destruct (decide (j = i)) as [->|Hj].
    - rewrite aget_aset_eq, Hx by done. by apply Hsame.
    - by rewrite aget_aset_ne by congruence. }
  split; [|done]. split; [done|by eapply tree_frame|]. intros j y. rewrite Hc'. destruct (decide (j = i)) as [->|Hj].
  - rewrite aget_aset_eq by done. intros [= <-] Hty a Ha Hv. destruct Hp as [[Hp Hte]|[Hte Hp]]; rewrite Hroot by done.
    + pose proof (Hfree i x Hx ltac:(congruence) a Ha Hv) as E. by destruct a.
    + pose proof (Hfree i x Hx Hte a Ha Hv) as E. by destruct a.
  - rewrite aget_aset_ne by congruence. intros Hy Hty a Ha Hv. pose proof (Hfree j y Hy Hty a Ha Hv) as E. by destruct a.
Qed.
Lemma byte_at_low c f c' f' : tables_ok c -> tree_ok c f -> low_frame f f' -> (forall j a, valid a -> iptr c' f' j a = iptr c f j a) -> forall j p, byte_at c' f' j p = byte_at c f j p.
Proof.
  intros Ht Hk Hf Hi j p. unfold byte_at. assert (E : file_block c' f' j (p / CATFS_BLOCK_SIZE) = file_block c f j (p / CATFS_BLOCK_SIZE)).
  { destruct (decide (0 <= p / CATFS_BLOCK_SIZE < CATFS_MAX_FILE_BLOCKS)) as [Hr|Hr]; [rewrite !file_block_slot by done; by apply Hi, slot_of_valid|].
    unfold file_block. by destruct (Z.leb_spec 0 (p / CATFS_BLOCK_SIZE)), (Z.ltb_spec (p / CATFS_BLOCK_SIZE) CATFS_MAX_FILE_BLOCKS); try done; lia. }
  cbv zeta. rewrite E. destruct (Z.eqb_spec (file_block c f j (p / CATFS_BLOCK_SIZE)) 0) as [|Hn]; [done|]. rewrite Hf; [done|].
  pose proof (file_block_nonzero c f j _ Hn) as Hr. rewrite file_block_slot in * by done. pose proof (tk_range c f j _ Ht Hk (slot_of_valid _ Hr) Hn). lia.
Qed.

(** ** The disk follows the tables *)

Definition inode_synced (f : Z -> list byte) (i : Z) (x : catfs_inode) : Prop :=
  exists t, u32_ok t /\ part (f (INODE_TABLE_LBA + i / 3)) (i mod 3 * 151) 151 = inode_bytes (x <| ci_atime := t |>).
(** Every inode but [idx] is on the disk. *)
Definition others_synced (idx : Z) (c : catfs_state_t) (f : Z -> list byte) : Prop :=
  forall i x, i <> idx -> aget (cf_inodes c) i = Some x -> inode_synced f i x.
Definition table_frame (f f' : Z -> list byte) : Prop := forall a, INODE_TABLE_LBA <= a < BITMAP_LBA -> f' a = f a.

Lemma inode_lba c i x : tables_ok c -> aget (cf_inodes c) i = Some x -> INODE_TABLE_LBA <= INODE_TABLE_LBA + i / 3 < BITMAP_LBA /\ 0 <= i < 256.
Proof.
  intros Ht Hx. pose proof (aget_Some_range _ _ _ Hx) as Hr. rewrite (to_len c Ht) in Hr. change INODE_TABLE_LBA with 10. change BITMAP_LBA with 96. Z.to_euclidean_division_equations; lia.
Qed.
Lemma others_frame idx c c' f f' : tables_ok c -> others_synced idx c f -> table_frame f f' -> (forall i, i <> idx -> aget (cf_inodes c') i = aget (cf_inodes c) i) -> others_synced idx c' f'.
Proof.
  intros Ht Ho Hf Hc i x Hi Hx. rewrite Hc in Hx by done. destruct (Ho i x Hi Hx) as (t & Htt & E). exists t. split; [done|]. by rewrite Hf by (by eapply inode_lba).
Qed.
Lemma synced_others idx c f : synced c f -> others_synced idx c f.
Proof. intros Hs i x _ Hx. by apply (sy_ino c f Hs). Qed.
Lemma synced_intro idx x c f c' f' : tables_ok c -> others_synced idx c f -> aget (cf_inodes c) idx = Some x -> cf_inodes c' = cf_inodes c ->
  length (f (INODE_TABLE_LBA + idx / 3)) = 512%nat -> table_frame (fput f (INODE_TABLE_LBA + idx / 3) (inode_sec c f idx x)) f' ->
  f' SB_LBA = super_bytes (cf_sb c') -> f' JOURNAL_HDR_LBA = jh_bytes (cf_jh c') -> (forall s, 0 <= s < BITMAP_SECTORS -> f' (BITMAP_LBA + s) = bm_sector c' s) -> synced c' f'.
Proof.
  intros Ht Ho Hx Hc Hlen Hf Hsb Hjh Hbm. split; [done|done| |done]. rewrite Hc. intros i y Hy. destruct (inode_lba c i y Ht Hy) as [Hil Hir]. destruct (inode_lba c idx x Ht Hx) as [_ Hxr].
  rewrite Hf by done. unfold fput, inode_sec. pose proof (inode_bytes_length x (to_inode c idx x Ht Hx)) as Hxl.
  pose proof (Z.mod_pos_bound idx 3 ltac:(lia)). pose proof (Z.mod_pos_bound i 3 ltac:(lia)).
  destruct (decide (i = idx)) as [->|Hne].
  - rewrite Hx in Hy. injection Hy as <-. rewrite Z.eqb_refl. exists (ci_atime x). pose proof (to_inode c idx x Ht Hx) as [_ _ _ _ Hn _ _]. rewrite !list.Forall_cons in Hn. split; [naive_solver|].
    replace (x <| ci_atime := ci_atime x |>) with x by by destruct x. rewrite <- Hxl at 3. apply part_splice; lia.
  - destruct (Ho i y Hne Hy) as (t & Htt & E). exists t. split; [done|]. rewrite <- E. destruct (Z.eqb_spec (INODE_TABLE_LBA + i / 3) (INODE_TABLE_LBA + idx / 3)) as [Es|]; [|done].
    assert (i / 3 = idx / 3) as Ed by lia. rewrite Ed. apply part_splice_ne; [lia|lia|lia|]. rewrite Hxl.
    assert (i mod 3 <> idx mod 3) by (intros Em; apply Hne; rewrite (Z.div_mod i 3), (Z.div_mod idx 3) by lia; by rewrite Ed, Em). lia.
Qed.

(** ** Operations that change the tables only *)

(** A record journalled, an inode replaced and written with the superblock, the journal
    committed: the state in memory, and the sectors. *)
Definition meta_state (c : catfs_state_t) (i : Z) (x : catfs_inode) (sb : catfs_super) : catfs_state_t := (put_inode (logged c) i x) <| cf_sb := sb |>.
Definition meta_sectors (c : catfs_state_t) (f : Z -> list byte) (i : Z) (x : catfs_inode) (sb : catfs_super) (log : list byte) : Z -> list byte :=
  let f1 := fput f (log_lba (jh_head (cf_jh c))) log in
  let c1 := meta_state c i x sb in
  fput (fput (fput f1 (INODE_TABLE_LBA + i / 3) (inode_sec c1 f1 i x)) SB_LBA (super_bytes sb)) JOURNAL_HDR_LBA (jh_bytes (cf_jh (committed c1))).
(** Room for a record that does not reach the table of inodes. *)
Definition log_room (c : catfs_state_t) : Prop := jh_head (cf_jh c) mod CATFS_JOURNAL_SLOTS < 200.

(** What such an operation keeps, and what it changes. *)
Record meta_done (c : catfs_state_t) (f : Z -> list byte) (i : Z) (x' : catfs_inode) (c' : catfs_state_t) (f' : Z -> list byte) : Prop := {
  md_ok : fs_ok c' f'; md_inodes : cf_inodes c' = aset (cf_inodes c) i x'; md_bitmap : cf_bitmap c' = cf_bitmap c;
  md_ptrs j a : valid a -> iptr c' f' j a = iptr c f j a; md_bytes j p : byte_at c' f' j p = byte_at c f j p;
  md_head : jh_head (cf_jh c') = u32 (jh_head (cf_jh c) + 1); md_drive : cf_disk_drive c' = cf_disk_drive c /\ cf_partition_offset c' = cf_partition_offset c;
  md_synced : synced c f -> log_room c -> synced c' f' }.

Lemma tables_meta c i x sb : tables_ok c -> inode_ok x -> same_super (cf_sb c) sb -> tables_ok (meta_state c i x sb).
Proof.
  intros Ht Hx Hs. pose proof (same_super_ok _ _ (to_sb c Ht) Hs). destruct Hs as (E & _). destruct (tables_put_inode _ i x (tables_logged c Ht) Hx).
  split; try done; cbn; rewrite E; cbn; apply Ht.
Qed.
Lemma meta_done_intro c f i x x' sb log : fs_ok c f -> aget (cf_inodes c) i = Some x -> inode_ok x' -> same_super (cf_sb c) sb ->
  (same_ptrs x x' /\ ci_type x' = ci_type x) \/ (ci_type x = CATFS_TYPE_FREE /\ same_ptrs inode_zero x') ->
  length (fput f (log_lba (jh_head (cf_jh c))) log (INODE_TABLE_LBA + i / 3)) = 512%nat ->
  meta_done c f i x' (committed (meta_state c i x' sb)) (meta_sectors c f i x' sb log).
Proof.
  intros Hok Hx Hx' Hsb Hp Hlen. pose proof (fk_tables c f Hok) as Ht. pose proof (aget_Some_range _ _ _ Hx) as Hr.
  destruct (log_lba_range _ (jh_head_nonneg c Ht)) as [Hlba Hlow]. destruct (inode_lba c i x Ht Hx) as [Hil _].
  change INODE_TABLE_LBA with 10 in *. change BITMAP_LBA with 96 in *.
  assert (Hf : low_frame f (meta_sectors c f i x' sb log)).
  { intros a Ha. change DATA_LBA with 100 in Ha. unfold meta_sectors. cbv zeta. change INODE_TABLE_LBA with 10. change SB_LBA with 0. change JOURNAL_HDR_LBA with 1. rewrite !fput_other by lia. done. }
  assert (Ht1 : tables_ok (meta_state c i x' sb)) by by apply tables_meta.
  destruct (fs_ok_meta c f (committed (meta_state c i x' sb)) (meta_sectors c f i x' sb log) i x x') as [Hok' Hi]; try done; [by apply tables_committed|].
  split; try done.
  - apply byte_at_low; [done|apply Hok|done|done].
  - intros Hs Hroom. specialize (Hlow Hroom).
    apply (synced_intro i x' (meta_state c i x' sb) (fput f (log_lba (jh_head (cf_jh c))) log)).
    + done.
    + apply (others_frame i c _ f); [done|by apply synced_others|intros a Ha; change INODE_TABLE_LBA with 10 in Ha; apply fput_other; lia|]. intros j Hj. cbn. by rewrite aget_aset_ne by congruence.
    + cbn. by apply aget_aset_eq.
    + done.
    + done.
    + intros a Ha. unfold meta_sectors. cbv zeta. change INODE_TABLE_LBA with 10 in *. change BITMAP_LBA with 96 in Ha. change SB_LBA with 0. change JOURNAL_HDR_LBA with 1. by rewrite (fput_other _ 1), (fput_other _ 0) by lia.
    + unfold meta_sectors. cbv zeta. change SB_LBA with 0. change JOURNAL_HDR_LBA with 1. rewrite fput_other by lia. by rewrite fput_same.
    + unfold meta_sectors. cbv zeta. by rewrite fput_same.
    + intros s Hsr. change BITMAP_SECTORS with 4 in Hsr. unfold meta_sectors. cbv zeta. change INODE_TABLE_LBA with 10. change BITMAP_LBA with 96. change SB_LBA with 0. change JOURNAL_HDR_LBA with 1.
      rewrite !fput_other by lia. apply (sy_bm c f Hs). change BITMAP_SECTORS with 4. lia.
Qed.

(** One step of an operation. *)
Ltac spec_step :=
  cbv beta zeta;
  lazymatch goal with
  | |- spec _ (bind _ _) _ _ _ => apply spec_seq
  | |- spec _ (ret _) _ _ _ => apply spec_ret
  | |- spec _ (fs _) _ _ _ => apply spec_fs
  | |- spec _ (upd_fs _) _ _ _ => apply spec_upd; [done|done|]
  | |- spec _ (upd_sb _) _ _ _ => apply spec_upd_sb
  | |- spec _ (@catfs_now _ _) _ _ _ => apply spec_now; let t := fresh "t" in let H := fresh "Ht_" in intros t H
  | |- spec _ (if ?b then _ else _) _ _ _ => let E := fresh "E" in destruct b eqn:E
  end.

Section MetaOps.
Context {D H : Type} `{!Disk D} `{!DiskLaws D} `{!Allocator H}.
Implicit Types (c : catfs_state_t) (f : Z -> list byte) (b : bool).

Definition unchanged {A} (bad : A -> Prop) c f (r : A) c' f' : Prop := bad r /\ c' = c /\ f' = f.

Lemma spec_bad_index b lo idx c f Q : tables_ok c -> 0 <= lo -> (idx < lo \/ 256 <= idx -> Q true c f) -> (lo <= idx < 256 -> Q false c f) -> spec b (@bad_index D H lo idx) c f Q.
Proof.
  intros Ht Hlo H1 H2. unfold bad_index. spec_step. spec_step. spec_step. rewrite (to_mounted c Ht). change CATFS_INODE_MAX with 256. cbn [Z.eqb orb].
  destruct (Z.ltb_spec idx lo); [apply H1; lia|]. destruct (Z.leb_spec 256 idx); [apply H1; lia|]. apply H2. lia.
Qed.
(** The end of [catfs_rename] and [catfs_chmod]: from the record to the commit. *)
Lemma spec_meta b type i a v g x c f (Q : Z -> _ -> _ -> Prop) : fs_ok c f -> aget (cf_inodes c) i = Some x ->
  (forall t, u32_ok t -> inode_ok (g t x) /\ same_ptrs x (g t x) /\ ci_type (g t x) = ci_type x) ->
  (forall t c' f', u32_ok t -> meta_done c f i (g t x) c' f' -> Q 0 c' f') ->
  spec b (do* journal_log type i a v in let* t := catfs_now in do* upd_cinode i (g t) in @finish_meta D H _ i) c f Q.
Proof.
  intros Hok Hx Hg HQ. pose proof (fk_tables c f Hok) as Ht. pose proof (aget_Some_range _ _ _ Hx) as Hr. spec_step. apply spec_journal_log; [done|]. intros Hl.
  spec_step. spec_step. destruct (Hg t Ht_) as (Hi & Hp & Hty). spec_step. apply spec_upd_inode; [|by left]. intros y Hy. cbn in Hy. rewrite Hx in Hy. injection Hy as <-.
  set (c1 := put_inode (logged c) i (g t x)). assert (Ht1 : tables_ok c1) by by apply tables_put_inode, Hi; apply tables_logged.
  unfold finish_meta. spec_step. apply (spec_sync_inode b i (g t x)); [done|cbn; by apply aget_aset_eq|]. intros Hl2. cbn [Z.ltb Z.compare].
  spec_step. apply spec_sync_superblock; [done|]. cbn [Z.ltb Z.compare]. apply spec_journal_commit; [done|].
  apply (HQ t); [done|]. assert (E : c1 = meta_state c i (g t x) (cf_sb c)) by by destruct c. rewrite E. change (cf_sb (meta_state c i (g t x) (cf_sb c))) with (cf_sb c).
  apply (meta_done_intro c f i x (g t x) (cf_sb c)); [done..|by apply same_super_refl, Ht|by left|done].
Qed.

Lemma inode_ok_nums x n n' : inode_ok x -> zlen n = 56 -> 0 <= n' < 65536 -> forall p t, -2 ^ 31 <= p < 2 ^ 31 -> u32_ok t ->
  inode_ok (x <| ci_name := n |> <| ci_perms := n' |> <| ci_parent := p |> <| ci_mtime := t |>).
Proof.
  intros [] Hn Hn' p t Hp Htt. rewrite !list.Forall_cons in io_nums. destruct io_nums as (?&?&?&?&?&?&_). split; cbn; try done.
  repeat (apply list.Forall_cons_2; [done|]). apply list.Forall_nil_2.
Qed.

(** What an operation that changes tables only leaves: nothing but its error, or one inode. *)
Definition meta_post (i : Z) (P : catfs_inode -> catfs_inode -> Prop) (r : Z) c f c' f' : Prop :=
  (r = -1 /\ c' = c /\ f' = f) \/ (r = 0 /\ exists x x', aget (cf_inodes c) i = Some x /\ P x x' /\ meta_done c f i x' c' f').

Lemma spec_chmod idx perms c f : fs_ok c f -> 0 <= perms < 65536 ->
  spec false (@catfs_chmod D H _ idx perms) c f (fun r c' f' =>
    meta_post idx (fun x x' => ci_type x <> CATFS_TYPE_FREE /\ exists t, x' = x <| ci_perms := Z.land perms 0x1ff |> <| ci_mtime := t |>) r c f c' f').
Proof.
  intros Hok Hp. pose proof (fk_tables c f Hok) as Ht. unfold catfs_chmod. spec_step. apply spec_bad_index; [done|lia|intros _; apply spec_ret; by left|]. intros Hi.
  spec_step. destruct (aget_is_Some (cf_inodes c) idx) as [x Hx]; [by apply to_index|]. apply spec_cinode; [|left; by apply to_index]. intros y Hy. assert (y = x) as -> by congruence.
  destruct (Z.eqb_spec (ci_type x) CATFS_TYPE_FREE) as [|Hty]; [apply spec_ret; by left|].
  assert (0 <= Z.land perms 0x1ff < 65536) by (change 0x1ff with (2 ^ 9 - 1); rewrite land_low by lia; pose proof (Z.mod_pos_bound perms (2 ^ 9)); lia).
  apply (spec_meta false _ idx _ _ (fun t x => x <| ci_perms := Z.land perms 0x1ff |> <| ci_mtime := t |>) x); [done|done|..].
  - intros t Htt. pose proof (to_inode c idx x Ht Hx) as Hxo. split_and!; [|done..]. pose proof (inode_ok_nums x (ci_name x) _ Hxo (io_name x Hxo) H0 (ci_parent x) t (io_parent x Hxo) Htt) as Hn.
    by destruct x.
  - intros t c' f' Htt Hmd. right. split; [done|]. exists x. eexists. split_and!; [done|done|by exists t|done].
Qed.

(** An operation that reads the tables and nothing else. *)
Lemma spec_answer {A} b (o : option A) (m : M (cstate D H) A) c f (Q : A -> _ -> _ -> Prop) :
  (b = true \/ is_Some o) -> (forall s, c_fs s = c -> m s = answer o s) -> (forall a, o = Some a -> Q a c f) -> spec b m c f Q.
Proof. intros Hb Hm HQ s Hs. rewrite (Hm s (rep_fs _ _ _ Hs)). unfold answer. destruct o as [a|]; [exists c, f; eauto|]. destruct Hb as [->|[? ?]]; done. Qed.
(** With [b] false: the names are in order, and searches give answers. *)
Definition named b c : Prop := b = true \/ names_ok (cf_inodes c).
Lemma spec_lookup b path c f Q : tables_ok c -> named b c -> (forall r, look (cf_inodes c) path = Some r -> Q r c f) -> spec b (@catfs_lookup D H path) c f Q.
Proof.
  intros Ht Hn. apply spec_answer; [|intros s Hs; rewrite lookup_answer by (rewrite Hs; apply Ht); by rewrite Hs]. destruct Hn as [->|Hn]; [by left|]. right. apply look_total; [done|]. rewrite (to_len c Ht). done.
Qed.
Lemma spec_search b (p : Z -> M (cstate D H) bool) q c f Q : tables_ok c -> (forall i s, c_fs s = c -> p i s = answer (q i) s) -> (b = true \/ forall i, 1 <= i < zlen (cf_inodes c) -> is_Some (q i)) ->
  (forall r, first_at q inodes_from1 = Some r -> Q r c f) -> spec b (search_inode p inodes_from1) c f Q.
Proof.
  intros Ht Hp Hq. apply spec_answer; [|intros s Hs; apply search_answer; intros i; by apply Hp]. destruct Hq as [->|Hq]; [by left|]. right. apply first_total. intros i Hi%elem_of_seqZ.
  change CATFS_INODE_MAX with 256 in Hi. apply Hq. rewrite (to_len c Ht). lia.
Qed.

Definition created (path : cstr) (type : Z) c f (r : Z) c' f' : Prop :=
  exists x name dir base p t old, 1 <= r < 256 /\ aget (cf_inodes c) r = Some x /\ ci_type x = CATFS_TYPE_FREE /\ split_last path = Some (dir, base) /\ look (cf_inodes c) dir = Some p /\ 0 <= p /\
    look (cf_inodes c) path = Some old /\ old < 0 /\ poke_str (zeros CATFS_NAME_MAX) base = Some name /\ u32_ok t /\ meta_done c f r (fresh_inode name type p t) c' f'.

Lemma fresh_inode_ok name type p t base : poke_str (zeros CATFS_NAME_MAX) base = Some name -> 0 <= type < 256 -> -1 <= p < 256 -> u32_ok t -> inode_ok (fresh_inode name type p t).
Proof.
  intros Hn Hty Hp Ht. pose proof (poke_str_length _ _ _ Hn) as Hl. unfold fresh_inode. split; cbn [ci_name ci_type ci_perms ci_parent ci_size ci_ctime ci_mtime ci_atime ci_indirect ci_dindirect ci_blocks].
  - rewrite Hl. done.
  - done.
  - destruct (type =? CATFS_TYPE_DIR); done.
  - lia.
  - repeat (apply list.Forall_cons_2; [done|]). apply list.Forall_nil_2.
  - done.
  - repeat (apply list.Forall_cons_2; [done|]). apply list.Forall_nil_2.
Qed.
Lemma split_base path dir base : split_last path = Some (dir, base) -> zlen base < CATFS_NAME_MAX.
Proof. unfold split_last. cbv zeta. repeat case_match; try done; intros [= <- <-]; change CATFS_NAME_MAX with 56 in *; lia. Qed.
Lemma poke_fits arr str : zlen str < zlen arr -> is_Some (poke_str arr str).
Proof. intros Hl. unfold poke_str. destruct (Z.ltb_spec (zlen str) (zlen arr)); [by eexists|lia]. Qed.
Lemma spec_create b path type c f : fs_ok c f -> 0 <= type < 256 -> named b c -> (b = true \/ is_Some (split_last path)) ->
  spec b (@catfs_create D H _ path type) c f (fun r c' f' => (r = -1 /\ c' = c /\ f' = f) \/ created path type c f r c' f').
Proof.
  intros Hok Hty Hnm Hsplit. pose proof (fk_tables c f Hok) as Ht. unfold catfs_create. spec_step. spec_step. rewrite (to_mounted c Ht). cbn [Z.eqb]. spec_step.
  apply spec_the; [|by destruct Hsplit; [right|left]]. intros [dir base] Hsp. spec_step. apply spec_lookup; [done|done|]. intros p Hp. destruct (Z.ltb_spec p 0); [apply spec_ret; by left|].
  spec_step. apply spec_lookup; [done|done|]. intros old Hold. destruct (Z.leb_spec 0 old); [apply spec_ret; by left|].
  spec_step. apply (spec_search _ _ (fun i => (fun x => ci_type x =? CATFS_TYPE_FREE) <$> aget (cf_inodes c) i)); [done|..].
  { intros i s Hs. unfold is_free, bind, cinode, deref. rewrite Hs. by destruct (aget (cf_inodes c) i). }
  { right. intros i Hi. destruct (aget_is_Some (cf_inodes c) i) as [x ->]; [lia|]. by eexists. }
  intros [i|] Hfirst; [|apply spec_ret; by left]. apply first_at_Some in Hfirst as [Hi Hfree]. apply elem_of_seqZ in Hi. change CATFS_INODE_MAX with 256 in Hi.
  destruct (aget (cf_inodes c) i) as [x|] eqn:Hx; [|done]. cbn in Hfree. injection Hfree as Hfree. apply Z.eqb_eq in Hfree. pose proof (aget_Some_range _ _ _ Hx) as Hr.
  spec_step. apply spec_journal_log; [done|]. intros Hl. spec_step. apply spec_the; [|left; apply poke_fits; rewrite zeros_zlen by done; by eapply split_base]. intros name Hname. spec_step. spec_step. spec_step.
  pose proof (look_range _ _ _ Hp) as Hpr. assert (Hxo : inode_ok (fresh_inode name type p t)) by (by eapply fresh_inode_ok; [|done|lia|done]).
  apply spec_upd_inode; [|by left]. intros y Hy. spec_step. spec_step. set (sb := (cf_sb c) <| sb_free_inodes := u32 (sb_free_inodes (cf_sb c) - 1) |>).
  assert (Hsb : same_super (cf_sb c) sb) by apply count_same, Ht. assert (E : (put_inode (logged c) i (fresh_inode name type p t)) <| cf_sb := sb |> = meta_state c i (fresh_inode name type p t) sb) by done.
  change (cf_sb (put_inode (logged c) i (fresh_inode name type p t))) with (cf_sb c). fold sb. rewrite E. assert (Ht1 : tables_ok (meta_state c i (fresh_inode name type p t) sb)) by by apply tables_meta.
  spec_step. apply (spec_sync_inode b i (fresh_inode name type p t)); [done|cbn; by apply aget_aset_eq|]. intros Hl2. spec_step. apply spec_sync_superblock; [done|].
  spec_step. apply spec_journal_commit; [done|]. spec_step. right. exists x, name, dir, base, p, t, old. split_and!; try done; try lia.
  apply (meta_done_intro c f i x (fresh_inode name type p t) sb); try done. right. done.
Qed.

(** The new name and parent; the chain of parents of the new parent does not meet the inode,
    and the name is new there. *)
Definition renamed (l : list catfs_inode) (idx new_parent : Z) (name : cstr) (x x' : catfs_inode) : Prop :=
  1 <= idx /\ avoids l idx new_parent /\ name <> [] /\ first_at (fun i => if i =? idx then Some false else child_at l new_parent name i) inodes_from1 = Some None /\ exists t n, poke_str (ci_name x) name = Some n /\ x' = x <| ci_parent := new_parent |> <| ci_name := n |> <| ci_mtime := t |> /\ ci_type x <> CATFS_TYPE_FREE.
Lemma spec_walk_up b fuel idx : forall p c f, (b = true \/ exists n, ends (cf_inodes c) p n /\ (n < fuel)%nat) ->
  spec b (@walk_up D H fuel idx p) c f (fun r c' f' => c' = c /\ f' = f /\ (r = false -> avoids (cf_inodes c) idx p)).
Proof.
  induction fuel as [|fuel IH]; intros p c f Hn; cbn [walk_up]; [destruct Hn as [->|(n & _ & ?)]; [apply spec_fault|lia]|]. destruct (Z.ltb_spec p 0); [apply spec_ret; split_and!; try done; by constructor|].
  destruct (Z.eqb_spec p idx) as [|Hpi]; [by apply spec_ret|]. spec_step. apply spec_cinode; [|destruct Hn as [->|(n & He & _)]; [by right|left]; inversion He; [lia|by eapply aget_Some_range]]. intros x Hx.
  eapply spec_mono; [apply IH|].
  - destruct Hn as [->|(n & He & Hlt)]; [by left|right]. inversion He as [|? y m _ Hy He']; [lia|]. subst. rewrite Hx in Hy. injection Hy as <-. exists m. split; [done|lia].
  - cbv beta. intros r c' f' (-> & -> & Hav). split_and!; try done. intros Hr. econstructor; [done|done|exact Hx|by apply Hav].
Qed.
Lemma spec_rename b idx new_parent name c f : fs_ok c f -> named b c ->
  spec b (@catfs_rename D H _ idx new_parent (Some name)) c f (fun r c' f' => meta_post idx (renamed (cf_inodes c) idx new_parent name) r c f c' f').
Proof.
  intros Hok Hnm. pose proof (fk_tables c f Hok) as Ht. unfold catfs_rename. spec_step. apply spec_bad_index; [done|lia|intros _; apply spec_ret; by left|]. intros Hi.
  change CATFS_INODE_MAX with 256. destruct (Z.ltb_spec new_parent 0); [apply spec_ret; by left|]. destruct (Z.leb_spec 256 new_parent); [apply spec_ret; by left|]. cbn [orb].
  spec_step. apply spec_cinode; [|left; apply to_index; [done|lia]]. intros np Hnp. destruct (ci_type np =? CATFS_TYPE_DIR); cbn [negb]; [|apply spec_ret; by left].
  destruct (Z.eqb_spec (zlen name) 0) as [|Hne]; [apply spec_ret; by left|]. cbn [orb]. destruct (Z.leb_spec CATFS_NAME_MAX (zlen name)) as [|Hnl]; [apply spec_ret; by left|].
  spec_step. apply spec_cinode; [|left; apply to_index; [done|lia]]. intros x Hx. destruct (Z.eqb_spec (ci_type x) CATFS_TYPE_FREE) as [|Hty]; [apply spec_ret; by left|].
  spec_step. eapply spec_mono; [apply spec_walk_up|].
  { destruct Hnm as [->|Hnm]; [by left|right]. destruct (nk_ends _ Hnm new_parent) as [n Hn]; [by eapply aget_Some_range|]. exists n. split; [done|]. apply ends_bound in Hn. rewrite (to_len c Ht) in Hn. lia. }
  cbv beta. intros below ? ? (-> & -> & Hav). destruct below; [apply spec_ret; by left|]. specialize (Hav eq_refl).
  spec_step. apply (spec_search _ _ (fun i => if i =? idx then Some false else child_at (cf_inodes c) new_parent name i)); [done|..].
  { intros i s Hs. unfold is_rival. destruct (i =? idx); [done|]. rewrite is_child_answer. by rewrite Hs. }
  { destruct Hnm as [->|Hnm]; [by left|right]. intros i Hir. destruct (i =? idx); [by eexists|]. apply child_total; [done|lia]. }
  intros [j|] Hriv; [apply spec_ret; by left|]. pose proof (to_inode c idx x Ht Hx) as Hxo. pose proof (io_name x Hxo) as Hxn. change CATFS_NAME_MAX with 56 in Hnl.
  destruct (poke_fits (ci_name x) name) as [n Hn]; [lia|]. rewrite Hn. eapply spec_ext; cycle 1.
  - apply (spec_meta b CATFS_J_WRITE_META idx (u32 (ci_parent x)) new_parent (fun t x => x <| ci_parent := new_parent |> <| ci_name := n |> <| ci_mtime := t |>) x); [done|done|..].
    + intros t Htt. split_and!; [|done..]. pose proof (inode_ok_nums x n (ci_perms x) Hxo) as Hnum. rewrite (poke_str_length _ _ _ Hn) in Hnum. specialize (Hnum Hxn (io_perms x Hxo) new_parent t ltac:(lia) Htt). by destruct x.
    + intros t c' f' Htt Hmd. right. split; [done|]. exists x. eexists. split_and!; [done| |exact Hmd]. split_and!; [lia|done|intros ->; done|done|by exists t, n].
  - intros s. unfold bind, the, deref. by destruct (journal_log _ _ _ _ s) as [[? ?]|].
Qed.
End MetaOps.

(** ** Writing *)

(** The inode after a write that ended at [e], and after a cut to [n] bytes. *)
Definition sized (x : catfs_inode) (n t : Z) : catfs_inode := x <| ci_size := n |> <| ci_mtime := t |>.
Lemma sized_ok x n t : inode_ok x -> u32_ok n -> u32_ok t -> inode_ok (sized x n t).
Proof.
  intros [] Hn Ht. rewrite !list.Forall_cons in io_nums. destruct io_nums as (?&?&?&?&?&?&_). split; cbn; try done. repeat (apply list.Forall_cons_2; [done|]). apply list.Forall_nil_2.
Qed.
Lemma same_others_inode idx c c' : same_others idx c c' -> forall x, aget (cf_inodes c) idx = Some x -> exists x', aget (cf_inodes c') idx = Some x' /\ same_meta x x' /\
  (forall i, i <> idx -> aget (cf_inodes c') i = aget (cf_inodes c) i) /\ cf_jh c' = cf_jh c /\ cf_next_seq c' = cf_next_seq c /\ cf_disk_drive c' = cf_disk_drive c /\ cf_partition_offset c' = cf_partition_offset c.
Proof.
  intros (_ & y & y' & Hy & Hm & E) x Hx. rewrite Hx in Hy. injection Hy as <-. pose proof (aget_Some_range _ _ _ Hx). exists y'. rewrite E. cbn. split_and!; try done; [by apply aget_aset_eq|].
  intros i Hi. by rewrite aget_aset_ne by congruence.
Qed.
Lemma same_meta_fields x x' : same_meta x x' -> ci_type x' = ci_type x /\ ci_size x' = ci_size x /\ ci_name x' = ci_name x /\ ci_parent x' = ci_parent x /\ ci_perms x' = ci_perms x.
Proof. intros E. unfold same_meta in E. by rewrite E. Qed.
(** Blocks linked to an inode in use leave the invariant. *)
Lemma fs_ok_same idx c c' f f' x : fs_ok c f -> same_others idx c c' -> aget (cf_inodes c) idx = Some x -> ci_type x <> CATFS_TYPE_FREE -> tables_ok c' -> tree_ok c' f' -> fs_ok c' f'.
Proof.
  intros Hok Hso Hx Hty Ht Hk. destruct (same_others_inode idx c c' Hso x Hx) as (x' & Hx' & Hm & Ho & _). split; [done|done|]. intros i y Hy Hfree a Ha Hv. destruct (decide (i = idx)) as [->|Hi].
  - rewrite Hx' in Hy. injection Hy as <-. destruct (same_meta_fields _ _ Hm) as (E & _). congruence.
  - rewrite Ho in Hy by done. pose proof (fk_free c f Hok i y Hy Hfree a Ha Hv) as E. by destruct a.
Qed.

(** The end of [catfs_write] and [catfs_truncate]: the inode, the superblock and the bitmap are
    written and the journal committed, from the tables [c1] and sectors [f1]. *)
Record data_done (idx : Z) (x2 : catfs_inode) (c1 : catfs_state_t) (f1 : Z -> list byte) (c' : catfs_state_t) (f' : Z -> list byte) : Prop := {
  dd_inodes : cf_inodes c' = aset (cf_inodes c1) idx x2; dd_bitmap : cf_bitmap c' = cf_bitmap c1; dd_tables : tables_ok c'; dd_low : low_frame f1 f';
  dd_drive : cf_disk_drive c' = cf_disk_drive c1 /\ cf_partition_offset c' = cf_partition_offset c1; dd_head : jh_head (cf_jh c') = jh_head (cf_jh c1);
  dd_synced : others_synced idx c1 f1 -> synced c' f' }.
Lemma data_done_intro idx x1 x2 sb c1 f1 f2 f3 : tables_ok c1 -> aget (cf_inodes c1) idx = Some x1 -> inode_ok x2 -> same_super (cf_sb c1) sb -> length (f1 (INODE_TABLE_LBA + idx / 3)) = 512%nat ->
  let c2 := (put_inode c1 idx x2) <| cf_sb := sb |> in
  (forall a, f2 a = if decide (BITMAP_LBA <= a < DATA_LBA) then bm_sector c2 (a - BITMAP_LBA) else fput (fput f1 (INODE_TABLE_LBA + idx / 3) (inode_sec c2 f1 idx x2)) SB_LBA (super_bytes sb) a) \/
  (exists g, (forall a, g a = if decide (BITMAP_LBA <= a < DATA_LBA) then bm_sector c2 (a - BITMAP_LBA) else fput f1 (INODE_TABLE_LBA + idx / 3) (inode_sec c2 f1 idx x2) a) /\ f2 = fput g SB_LBA (super_bytes sb)) ->
  f3 = fput f2 JOURNAL_HDR_LBA (jh_bytes (cf_jh (committed c2))) -> data_done idx x2 c1 f1 (committed c2) f3.
Proof.
  intros Ht Hx1 Hx2 Hsb Hlen c2 Hf2 ->. pose proof (aget_Some_range _ _ _ Hx1) as Hr. destruct (inode_lba c1 idx x1 Ht Hx1) as [Hil _].
  assert (Hf2' : forall a, f2 a = if decide (BITMAP_LBA <= a < DATA_LBA) then bm_sector c2 (a - BITMAP_LBA) else fput (fput f1 (INODE_TABLE_LBA + idx / 3) (inode_sec c2 f1 idx x2)) SB_LBA (super_bytes sb) a).
  { destruct Hf2 as [?|(g & Hg & ->)]; [done|]. intros a. destruct (decide (a = SB_LBA)) as [->|Hn]; [rewrite decide_False by (change BITMAP_LBA with 96; change SB_LBA with 0; lia); by rewrite !fput_same|]. rewrite !(fput_other _ SB_LBA) by done. apply Hg. }
  clear Hf2. change INODE_TABLE_LBA with 10 in *. change BITMAP_LBA with 96 in *. change DATA_LBA with 100 in *. change SB_LBA with 0 in *. change JOURNAL_HDR_LBA with 1 in *.
  assert (Ht2 : tables_ok c2).
  { pose proof (same_super_ok _ _ (to_sb c1 Ht) Hsb). destruct Hsb as (E & _). destruct (tables_put_inode c1 idx x2 Ht Hx2). split; try done; cbn; rewrite E; cbn; apply Ht. }
  split; try done; [by apply tables_committed|..].
  - intros a Ha. change DATA_LBA with 100 in Ha. rewrite fput_other by lia. rewrite Hf2', decide_False by lia. by rewrite !fput_other by lia.
  - intros Ho. apply (synced_intro idx x2 c2 f1); [done| |cbn; by apply aget_aset_eq|done|done|..].
    + apply (others_frame idx c1 _ f1); [done|done|done|]. intros j Hj. cbn. by rewrite aget_aset_ne by congruence.
    + intros a Ha. change INODE_TABLE_LBA with 10 in *. change BITMAP_LBA with 96 in Ha. rewrite fput_other by lia. rewrite Hf2', decide_False by lia. by rewrite (fput_other _ 0) by lia.
    + change SB_LBA with 0. rewrite fput_other by lia. rewrite Hf2', decide_False by lia. by rewrite fput_same.
    + apply fput_same.
    + intros s Hs. change BITMAP_SECTORS with 4 in Hs. change BITMAP_LBA with 96. rewrite fput_other by lia. rewrite Hf2', decide_True by lia. by replace (96 + s - 96) with s by lia.
Qed.

(** The bytes of the files after a write of [bs]. *)
Record written (idx pos : Z) (bs : list byte) (c : catfs_state_t) (f : Z -> list byte) (c' : catfs_state_t) (f' : Z -> list byte) : Prop := {
  wr_ok : fs_ok c' f';
  wr_bytes i : 0 <= i < zlen bs -> byte_at c' f' idx (pos + i) = bs !! Z.to_nat i;
  wr_frame j p v : byte_at c f j p = Some v -> ~ (j = idx /\ pos <= p < pos + zlen bs) -> byte_at c' f' j p = Some v;
  wr_others j : j <> idx -> aget (cf_inodes c') j = aget (cf_inodes c) j;
  wr_other_bytes j p : j <> idx -> byte_at c' f' j p = byte_at c f j p;
  wr_inode : exists x x', aget (cf_inodes c) idx = Some x /\ aget (cf_inodes c') idx = Some x' /\ not_file x = false /\ ci_type x' = ci_type x /\ ci_name x' = ci_name x /\ ci_parent x' = ci_parent x /\
    ci_size x' = match bs with [] => ci_size x | _ => Z.max (ci_size x) (pos + zlen bs) end;
  wr_drive : cf_disk_drive c' = cf_disk_drive c /\ cf_partition_offset c' = cf_partition_offset c;
  wr_head : jh_head (cf_jh c') = match bs with [] => jh_head (cf_jh c) | _ => u32 (jh_head (cf_jh c) + 1) end;
  wr_synced : bs <> [] -> synced c f -> log_room c -> synced c' f' }.

Section FileOps.
Context {D H : Type} `{!Disk D} `{!DiskLaws D} `{!Allocator H}.
Implicit Types (c : catfs_state_t) (f : Z -> list byte) (b : bool).

Lemma io_fuel_enough len off : 0 <= len -> 0 <= off < 512 -> len + off <= CATFS_BLOCK_SIZE * Z.of_nat (io_fuel len).
Proof. unfold io_fuel. change CATFS_BLOCK_SIZE with 512. intros. pose proof (Z.div_pos len 512). pose proof (Z.mod_pos_bound len 512). pose proof (Z.div_mod len 512). lia. Qed.
Lemma i32_small z : 0 <= z < 2 ^ 31 -> i32 z = z.
Proof. intros. unfold i32. rewrite u32_small by lia. by destruct (Z.ltb_spec z (2 ^ 31)); [|lia]. Qed.

(** From the loop's result to the end of [catfs_write]. *)
Lemma written_intro idx offset bs x x1 t c f c1 f1 c' f' log : fs_ok c f -> aget (cf_inodes c) idx = Some x -> not_file x = false -> bs <> [] -> 0 <= offset -> offset + zlen bs < 2 ^ 32 -> u32_ok t ->
  stored idx offset bs c f c1 f1 -> aget (cf_inodes c1) idx = Some x1 ->
  data_done idx (sized x1 (if ci_size x1 <? offset + zlen bs then offset + zlen bs else ci_size x1) t) (logged c1) (fput f1 (log_lba (jh_head (cf_jh c1))) log) c' f' -> written idx offset bs c f c' f'.
Proof.
  intros Hok Hx Hnf Hne Hoff Hend Htt St Hx1 Dd. pose proof (st_tables _ _ _ _ _ _ _ St) as Ht1. pose proof (fk_tables c f Hok) as Ht. set (e := offset + zlen bs) in *.
  destruct (same_others_inode idx c c1 (st_same _ _ _ _ _ _ _ St) x Hx) as (y & Hy & Hm & Ho & Ejh & Eseq & Ed & Eo). rewrite Hx1 in Hy. injection Hy as <-.
  destruct (same_meta_fields _ _ Hm) as (E1 & E2 & E3 & E4 & E5). assert (Hty : ci_type x <> CATFS_TYPE_FREE). { intros E. unfold not_file in Hnf. rewrite E in Hnf. done. }
  assert (Hok1 : fs_ok c1 f1) by (eapply fs_ok_same; eauto; apply St).
  destruct (log_lba_range _ (jh_head_nonneg c1 Ht1)) as [Hlba Hlow]. pose proof (aget_Some_range _ _ _ Hx1) as Hr1.
  assert (Hf : low_frame f1 f'). { intros a Ha. rewrite (dd_low _ _ _ _ _ _ Dd a Ha). apply fput_other. change DATA_LBA with 100 in Ha. lia. }
  set (x2 := sized x1 _ t) in Dd. assert (Hp2 : same_ptrs x1 x2) by done.
  destruct (fs_ok_meta c1 f1 c' f' idx x1 x2) as [Hok' Hi]; try done; [apply Dd|apply (dd_bitmap _ _ _ _ _ _ Dd)|apply (dd_inodes _ _ _ _ _ _ Dd)|by left|].
  pose proof (byte_at_low c1 f1 c' f' Ht1 (fk_tree _ _ Hok1) Hf Hi) as Hb. pose proof (dd_inodes _ _ _ _ _ _ Dd) as Ein. cbn in Ein.
  split; [done|..].
  - intros i Hin. rewrite Hb. by apply (st_bytes _ _ _ _ _ _ _ St).
  - intros j p v Hv Hn. rewrite Hb. by apply (st_frame _ _ _ _ _ _ _ St).
  - intros j Hj. rewrite Ein, aget_aset_ne by congruence. by apply Ho.
  - intros j p Hj. rewrite Hb. by apply (st_files _ _ _ _ _ _ _ St).
  - exists x, x2. rewrite Ein, aget_aset_eq by done. split_and!; try done. unfold x2, sized. cbn. rewrite E2. destruct bs; [done|]. destruct (Z.ltb_spec (ci_size x) e); unfold e in *; lia.
  - destruct (dd_drive _ _ _ _ _ _ Dd) as [-> ->]. cbn. by rewrite Ed, Eo.
  - rewrite (dd_head _ _ _ _ _ _ Dd). cbn. rewrite Ejh. by destruct bs.
  - intros _ Hs Hroom. apply (dd_synced _ _ _ _ _ _ Dd). unfold log_room in Hroom. rewrite <- Ejh in Hroom. specialize (Hlow Hroom).
    apply (others_frame idx c _ f); [done|by apply synced_others| |exact Ho]. intros a Ha. change INODE_TABLE_LBA with 10 in Ha. change BITMAP_LBA with 96 in Ha. rewrite fput_other by lia.
    apply (st_low _ _ _ _ _ _ _ St). change DATA_LBA with 100. lia.
Qed.

Lemma written_nil idx offset x c f c1 f1 : fs_ok c f -> aget (cf_inodes c) idx = Some x -> not_file x = false -> stored idx offset [] c f c1 f1 -> written idx offset [] c f c1 f1.
Proof.
  intros Hok Hx Hnf St. destruct (same_others_inode idx c c1 (st_same _ _ _ _ _ _ _ St) x Hx) as (y & Hy & Hm & Ho & Ejh & Eseq & Ed & Eo).
  destruct (same_meta_fields _ _ Hm) as (E1 & E2 & E3 & E4 & E5). assert (Hty : ci_type x <> CATFS_TYPE_FREE). { intros E. unfold not_file in Hnf. rewrite E in Hnf. done. }
  split; try done; [eapply fs_ok_same; eauto; apply St|apply St|apply St|by apply St|exists x, y; split_and!; done|congruence].
Qed.
Lemma outside_table c idx x : tables_ok c -> aget (cf_inodes c) idx = Some x -> idx < 0 \/ 256 <= idx -> False.
Proof. intros Ht Hx. apply aget_Some_range in Hx. rewrite (to_len c Ht) in Hx. lia. Qed.
Lemma spec_file b lo idx c f Q : tables_ok c -> 0 <= lo -> (idx < lo \/ 256 <= idx -> Q (-1) c f) ->
  forall (k : catfs_inode -> M (cstate D H) Z), (forall x, lo <= idx < 256 -> aget (cf_inodes c) idx = Some x -> spec b (k x) c f Q) ->
  spec b (let* bad := bad_index lo idx in if bad then ret (-1) else let* x := cinode idx in k x) c f Q.
Proof.
  intros Ht Hlo Hbad k Hk. spec_step. apply spec_bad_index; [done|done|intros ?; spec_step; by apply Hbad|]. intros Hi. spec_step. apply spec_cinode; [|left; apply to_index; [done|lia]]. intros x Hx. by apply Hk.
Qed.

(** [catfs_write]: an error that changes nothing, or the first bytes of the buffer, all of them
    unless the disk is full or the file as large as a file can be. *)
Lemma spec_catfs_write idx offset buf c f : fs_ok c f -> 0 <= offset -> offset + zlen buf < 2 ^ 32 -> zlen buf < 2 ^ 31 ->
  spec false (@catfs_write D H _ idx offset buf) c f (fun r c' f' => (r = -1 /\ c' = c /\ f' = f /\ forall x, aget (cf_inodes c) idx = Some x -> not_file x = true) \/
    (exists k, r = Z.of_nat k /\ (k <= length buf)%nat /\ written idx offset (take k buf) c f c' f' /\ ((k < length buf)%nat -> full c' \/ CATFS_MAX_FILE_BLOCKS * CATFS_BLOCK_SIZE <= offset + Z.of_nat k))).
Proof.
  intros Hok Hoff Hend Hlen. pose proof (fk_tables c f Hok) as Ht. unfold catfs_write. apply (spec_file _ 0); [done|lia|intros Hn; left; split_and!; try done; intros x Hx; by destruct (outside_table c idx x Ht Hx)|]. intros x Hi Hx.
  destruct (not_file x) eqn:Hnf; [apply spec_ret; left; split_and!; try done; intros y Hy; congruence|].
  spec_step. eapply spec_mono; [apply spec_write_loop; [done|apply Hok|lia|lia|lia|lia|]|].
  { intros _. pose proof (Z.mod_pos_bound (offset + 0) CATFS_BLOCK_SIZE ltac:(done)). rewrite Z.add_comm. rewrite Z.add_comm. apply io_fuel_enough; [lia|]. change CATFS_BLOCK_SIZE with 512 in *. lia. }
  cbv beta. intros n c1 f1 (k & -> & Hk & St & Hfull). rewrite Z.add_0_r in St. rewrite Z.add_0_l in *.
  assert (Hbl : zlen (take k buf) = Z.of_nat k) by (rewrite length_take; lia). pose proof (st_tables _ _ _ _ _ _ _ St) as Ht1.
  assert (Hfull' : (k < length buf)%nat -> full c1 \/ CATFS_MAX_FILE_BLOCKS * CATFS_BLOCK_SIZE <= offset + Z.of_nat k) by (intros; by apply Hfull).
  spec_step. destruct (Z.ltb_spec 0 (Z.of_nat k)) as [Hpos|Hz].
  - rewrite (u32_small (offset + Z.of_nat k)) by lia. destruct (same_others_inode idx c c1 (st_same _ _ _ _ _ _ _ St) x Hx) as (x1 & Hx1 & _). pose proof (aget_Some_range _ _ _ Hx1) as Hr1.
    spec_step. apply spec_journal_log; [done|]. intros Hl. spec_step. spec_step. spec_step. apply spec_upd_inode; [|by left]. intros y Hy. cbn in Hy. rewrite Hx1 in Hy. injection Hy as <-.
    set (sz := if ci_size x1 <? offset + Z.of_nat k then offset + Z.of_nat k else ci_size x1). change (x1 <| ci_size := sz |> <| ci_mtime := t |>) with (sized x1 sz t). pose proof (to_inode c1 idx x1 Ht1 Hx1) as Hx1o.
    assert (Hszok : u32_ok sz). { unfold sz. pose proof (io_nums x1 Hx1o) as Hn. rewrite !list.Forall_cons in Hn. destruct Hn as [Hn _]. destruct (ci_size x1 <? _); [unfold u32_ok; lia|done]. }
    set (x2 := sized x1 sz t). assert (Hx2 : inode_ok x2) by by apply sized_ok. set (c2 := put_inode (logged c1) idx x2). assert (Ht2 : tables_ok c2) by (apply tables_put_inode; [by apply tables_logged|done]).
    set (f2 := fput f1 (log_lba (jh_head (cf_jh c1))) _).
    spec_step. apply (spec_sync_inode false idx x2); [done|cbn; by apply aget_aset_eq|]. intros Hl2. spec_step. apply spec_sync_superblock; [done|]. spec_step. apply spec_sync_bitmap; [done|]. intros f3 Hf3.
    spec_step. apply spec_journal_commit; [done|]. spec_step. spec_step. rewrite i32_small by lia. right. exists k. split_and!; [done|done| |].
    + eapply (written_intro idx offset (take k buf) x x1 t c f c1 f1); try done; [|rewrite Hbl; lia|]; [intros E; rewrite E in Hbl; cbn in Hbl; lia|].
      rewrite Hbl. fold sz x2 f2. assert (E2 : c2 = (put_inode (logged c1) idx x2) <| cf_sb := cf_sb c1 |>) by by destruct c1. rewrite E2.
      apply (data_done_intro idx x1 x2 (cf_sb c1) (logged c1) f2 f3); try done; [by apply tables_logged|by apply same_super_refl, Ht1|]. left. rewrite <- E2. exact Hf3.
    + intros Hkl. destruct (Hfull' Hkl) as [Hfl|?]; [left; exact Hfl|by right].
  - assert (k = 0%nat) as -> by lia. rewrite take_0 in St. spec_step. spec_step. right. exists 0%nat. rewrite take_0. split_and!; [done|lia|by eapply written_nil|done].
Qed.
Lemma spec_catfs_read idx offset len c f : fs_ok c f -> 0 <= offset -> 0 <= len -> offset + len < 2 ^ 32 -> len < 2 ^ 31 ->
  spec false (@catfs_read D H _ idx offset len) c f (fun r c' f' => (r = (-1, []) /\ c' = c /\ f' = f /\ forall x, aget (cf_inodes c) idx = Some x -> ci_type x = CATFS_TYPE_FREE) \/ exists x, aget (cf_inodes c) idx = Some x /\ ci_type x <> CATFS_TYPE_FREE /\ f' = f /\ r.1 = zlen r.2 /\
    (c' = c \/ exists t, u32_ok t /\ c' = put_inode c idx (x <| ci_atime := t |>)) /\ zlen r.2 <= Z.max 0 (Z.min len (ci_size x - offset)) /\ (forall i, 0 <= i < zlen r.2 -> byte_at c f idx (offset + i) = r.2 !! Z.to_nat i) /\
    (zlen r.2 < Z.min len (ci_size x - offset) -> byte_at c f idx (offset + zlen r.2) = None)).
Proof.
  intros Hok Hoff Hlen Hend Hlen2. pose proof (fk_tables c f Hok) as Ht. unfold catfs_read. spec_step. apply spec_bad_index; [done|lia|intros Hn; apply spec_ret; left; split_and!; try done; intros x Hx; by destruct (outside_table c idx x Ht Hx)|]. intros Hi.
  spec_step. apply spec_cinode; [|left; by apply to_index]. intros x Hx. destruct (Z.eqb_spec (ci_type x) CATFS_TYPE_FREE) as [|Hty]; [apply spec_ret; left; split_and!; try done; intros y Hy; congruence|].
  destruct (Z.leb_spec (ci_size x) offset) as [Hs|Hs]; [apply spec_ret; right; exists x; cbn; split_and!; try done; [by left|lia|intros; lia|lia]|].
  cbv zeta. rewrite (u32_small (offset + len)) by lia. set (n := if ci_size x <? offset + len then ci_size x - offset else len).
  assert (En : n = Z.min len (ci_size x - offset)) by (unfold n; destruct (Z.ltb_spec (ci_size x) (offset + len)); lia).
  spec_step. eapply spec_mono; [apply spec_read_loop; [done|apply Hok|lia|lia|lia|lia|]|].
  { intros _. rewrite Z.sub_0_r. apply io_fuel_enough; [lia|]. by apply Z.mod_pos_bound. }
  cbv beta. intros bs c' f' (-> & -> & Hl & Hb & He). spec_step. spec_step. spec_step. apply spec_upd_inode; [|left; by apply to_index]. intros y Hy. rewrite Hx in Hy. injection Hy as <-. spec_step.
  right. exists x. cbn [fst snd]. rewrite Z.add_0_r in *. rewrite Z.sub_0_r in *. rewrite i32_small by lia. split_and!; try done; [right; by exists t|lia|intros; apply He; lia].
Qed.
End FileOps.
