(* ===== verification/CatfsFree.v ===== *)
(** * Freeing CatFS blocks

    [free_all_blocks] frees the blocks of every slot of an inode, [free_blocks_from] those of
    the slots behind a block of the file and the blocks of pointers left without any. *)

From S2P Require Import Prelude Cstring Alloc Elf NativeApp Catfs CatfsOps CatfsNames CatfsInv CatfsTree CatfsIo CatfsSync.

(** The blocks [P] freed, and the inode changed from [x] to [x']. *)
Record shrinks (idx : Z) (x x' : catfs_inode) (P : Z -> Prop) (c c' : catfs_state_t) : Prop := {
  sh_inode : aget (cf_inodes c) idx = Some x; sh_tables : tables_ok c';
  sh_eq : c' = put_bm (put_inode c idx x') (cf_bitmap c') (cf_sb c');
  sh_marks b : marks (cf_bitmap c') b <-> marks (cf_bitmap c) b /\ ~ P b }.

Lemma shrinks_refl idx x c : tables_ok c -> aget (cf_inodes c) idx = Some x -> shrinks idx x x (fun _ => False) c c.
Proof. intros Ht Hx. split; [done|done| |naive_solver]. unfold put_bm, put_inode. rewrite aset_same by done. by destruct c. Qed.
Lemma shrinks_ext idx x x' P Q c c' : (forall b, P b <-> Q b) -> shrinks idx x x' P c c' -> shrinks idx x x' Q c c'.
Proof. intros He [H1 H2 H3 H4]. split; try done. intros b. by rewrite H4, He. Qed.
Lemma shrinks_now idx x x' P c c' : shrinks idx x x' P c c' -> aget (cf_inodes c') idx = Some x' /\ 0 <= idx < 256.
Proof.
  intros Hs. pose proof (aget_Some_range _ _ _ (sh_inode _ _ _ _ _ _ Hs)) as Hr. pose proof (to_len _ (sh_tables _ _ _ _ _ _ Hs)) as Hl. rewrite (sh_eq _ _ _ _ _ _ Hs) in Hl |- *. cbn in *. rewrite aset_length in Hl.
  split; [by apply aget_aset_eq|lia].
Qed.
Lemma shrinks_bm idx x x' P c c' bm s Q : shrinks idx x x' P c c' -> tables_ok (put_bm c' bm s) -> (forall b, marks bm b <-> marks (cf_bitmap c') b /\ ~ Q b) -> shrinks idx x x' (fun b => P b \/ Q b) c (put_bm c' bm s).
Proof.
  intros [H1 H2 H3 H4] Ht Hm. split; [done|done|rewrite H3; by destruct c|]. intros b. cbn. rewrite Hm, H4. tauto.
Qed.
Lemma shrinks_put idx x x' x2 P c c' : shrinks idx x x' P c c' -> inode_ok x2 -> shrinks idx x x2 P c (put_inode c' idx x2).
Proof.
  intros [H1 H2 H3 H4] Hx. split; [done|by apply tables_put_inode| |done]. rewrite H3. destruct c. unfold put_bm, put_inode. cbn. by rewrite aset_aset.
Qed.

Section Free.
Context {D H : Type} `{!Disk D} `{!DiskLaws D} `{!Allocator H}.
Implicit Types (c : catfs_state_t) (f : Z -> list byte).

Lemma spec_sh_free idx x x' P c c' f blk : shrinks idx x x' P c c' -> 0 <= blk < CATFS_BLOCKS_MAX ->
  spec false (@bm_free D H blk) c' f (fun _ c2 f2 => f2 = f /\ shrinks idx x x' (fun b => P b \/ b = blk) c c2).
Proof.
  intros Hs Hb. apply spec_bm_free; [apply Hs|done|]. intros bm s Ht Hm. split; [done|]. by apply shrinks_bm.
Qed.
Lemma spec_sh_ptr idx x x' P c c' f blk : shrinks idx x x' P c c' -> 0 <= blk < CATFS_BLOCKS_MAX ->
  spec false (@free_ptr D H blk) c' f (fun _ c2 f2 => f2 = f /\ shrinks idx x x' (fun b => P b \/ (b <> 0 /\ b = blk)) c c2).
Proof.
  intros Hs Hb. unfold free_ptr. destruct (Z.eqb_spec blk 0) as [->|Hn].
  - apply spec_ret. split; [done|]. eapply shrinks_ext; [|exact Hs]. naive_solver.
  - eapply spec_mono; [by eapply spec_sh_free|]. cbv beta. intros _ c2 f2 [-> H2]. split; [done|]. eapply shrinks_ext; [|exact H2]. naive_solver.
Qed.
Lemma spec_sh_each {A} (g : A -> M (cstate D H) unit) (R : A -> Z -> Prop) idx x x' f c (l : list A) :
  (forall a P c1, a ∈ l -> shrinks idx x x' P c c1 -> spec false (g a) c1 f (fun _ c2 f2 => f2 = f /\ shrinks idx x x' (fun b => P b \/ R a b) c c2)) ->
  forall P c1, shrinks idx x x' P c c1 -> spec false (for_each g l) c1 f (fun _ c2 f2 => f2 = f /\ shrinks idx x x' (fun b => P b \/ exists a, a ∈ l /\ R a b) c c2).
Proof.
  induction l as [|a l IH]; intros Hg P c1 Hs; cbn [for_each].
  - apply spec_ret. split; [done|]. eapply shrinks_ext; [|exact Hs]. intros b. split; [by left|]. intros [?|(a & ?%not_elem_of_nil & _)]; done.
  - apply spec_seq. eapply spec_mono; [apply Hg; [left|exact Hs]|]. cbv beta. intros _ c2 f2 [-> H2].
    eapply spec_mono; [apply IH; [|exact H2]|]; [intros a' P' c' Ha'; apply Hg; by right|]. cbv beta. intros _ c3 f3 [-> H3]. split; [done|]. eapply shrinks_ext; [|exact H3].
    intros b. setoid_rewrite elem_of_cons. naive_solver.
Qed.
Lemma elem_ptrs_of f T v : T <> 0 -> v ∈ ptrs_of (f (DATA_LBA + T)) <-> exists k, 0 <= k < CATFS_PTRS_PER_BLOCK /\ entry f T k = v.
Proof.
  intros HT. unfold ptrs_of, nums, entry. destruct (Z.eqb_spec T 0); [done|]. rewrite list_elem_of_fmap. setoid_rewrite elem_of_seqZ. split.
  - intros (k & -> & Hk). exists k. split; [lia|done].
  - intros (k & Hk & <-). exists k. split; [done|lia].
Qed.
(** The blocks a block of pointers names. *)
Lemma spec_sh_children idx x x' P c c' f T : shrinks idx x x' P c c' -> 0 < T < CATFS_BLOCKS_MAX -> (forall k, 0 <= k < CATFS_PTRS_PER_BLOCK -> 0 <= entry f T k < CATFS_BLOCKS_MAX) ->
  spec false (@free_children D H _ T) c' f (fun _ c2 f2 => f2 = f /\ shrinks idx x x' (fun b => P b \/ (b <> 0 /\ exists k, 0 <= k < CATFS_PTRS_PER_BLOCK /\ entry f T k = b)) c c2).
Proof.
  intros Hs HT Hr. unfold free_children. apply spec_seq. apply spec_blk_read; [apply Hs|lia|]. intros _.
  eapply spec_mono; [apply (spec_sh_each free_ptr (fun v b => b <> 0 /\ b = v) idx x x' f c); [|exact Hs]|].
  - intros v P' c1 Hv H1. apply spec_sh_ptr; [done|]. apply elem_ptrs_of in Hv as (k & Hk & <-); [by apply Hr|lia].
  - cbv beta. intros _ c2 f2 [-> H2]. split; [done|]. eapply shrinks_ext; [|exact H2]. intros b. setoid_rewrite elem_ptrs_of; [|lia]. naive_solver.
Qed.
Lemma spec_sh_put idx x x' x2 P c c' f g : shrinks idx x x' P c c' -> g x' = x2 -> inode_ok x2 ->
  spec false (@upd_cinode D H idx g) c' f (fun _ c2 f2 => f2 = f /\ shrinks idx x x2 P c c2).
Proof.
  intros Hs Hg Hx. destruct (shrinks_now _ _ _ _ _ _ Hs) as [Hx' Hi]. apply spec_upd_inode; [|left; apply to_index; [apply Hs|done]]. intros y Hy. rewrite Hx' in Hy. injection Hy as <-. split; [done|]. rewrite Hg. by eapply shrinks_put.
Qed.

(** The direct pointers from number [lo] on. *)
Fixpoint zap (i start : Z) (p : list Z) : list Z := match p with [] => [] | b :: p' => (if start <=? i then 0 else b) :: zap (i + 1) start p' end.
Lemma zap_length i start p : length (zap i start p) = length p.
Proof. revert i. induction p as [|b p IH]; intros i; cbn; [done|]. by rewrite IH. Qed.
Lemma zap_lookup start p : forall i k, zap i start p !! k = (fun b => if start <=? i + Z.of_nat k then 0 else b) <$> p !! k.
Proof. induction p as [|b p IH]; intros i k; [done|]. destruct k as [|k]; cbn [zap lookup list_lookup fmap option_fmap option_map]; [by rewrite Z.add_0_r|]. rewrite IH. replace (i + 1 + Z.of_nat k) with (i + Z.of_nat (S k)) by lia. done. Qed.
Lemma zap0_lookup start p k : zap 0 start p !! k = (fun b => if start <=? Z.of_nat k then 0 else b) <$> p !! k.
Proof. by rewrite zap_lookup, Z.add_0_l. Qed.
Lemma zap_ok i start p : Forall u32_ok p -> Forall u32_ok (zap i start p).
Proof. intros Hp. revert i. induction Hp as [|b p Hb Hp IH]; intros i; cbn; [done|]. apply list.Forall_cons_2; [|done]. by destruct (start <=? i). Qed.
Lemma spec_sh_direct n idx x f c : forall lo x' P c', Z.of_nat n = CATFS_DIRECT_BLOCKS - lo -> 0 <= lo -> shrinks idx x x' P c c' -> inode_ok x' ->
  (forall i v, aget (ci_blocks x') i = Some v -> 0 <= v < CATFS_BLOCKS_MAX) ->
  spec false (for_each (@free_direct D H idx) (seqZ lo (CATFS_DIRECT_BLOCKS - lo))) c' f (fun _ c2 f2 => f2 = f /\
    shrinks idx x (x' <| ci_blocks := zap 0 lo (ci_blocks x') |>) (fun b => P b \/ (b <> 0 /\ exists i, lo <= i /\ aget (ci_blocks x') i = Some b)) c c2).
Proof.
  change CATFS_DIRECT_BLOCKS with 16. induction n as [|n IH]; intros lo x' P c' Hn Hlo Hs Hx' Hr.
  - rewrite seqZ_nil by lia. cbn [for_each]. apply spec_ret. split; [done|]. assert (E : zap 0 lo (ci_blocks x') = ci_blocks x').
    { apply list_eq. intros k. rewrite zap0_lookup. destruct (ci_blocks x' !! k) as [v|] eqn:E; [|done]. cbn [fmap option_fmap option_map]. apply lookup_lt_Some in E. rewrite (io_blocks x' Hx') in E. destruct (Z.leb_spec lo (Z.of_nat k)); [lia|done]. }
    rewrite E. replace (x' <| ci_blocks := ci_blocks x' |>) with x' by by destruct x'. eapply shrinks_ext; [|exact Hs]. intros b. split; [by left|]. intros [?|(_ & i & Hi & Hb)]; [done|].
    apply aget_Some_range in Hb. rewrite (io_blocks x' Hx') in Hb. lia.
  - rewrite seqZ_cons by lia. cbn [for_each]. apply spec_seq. unfold free_direct. destruct (shrinks_now _ _ _ _ _ _ Hs) as [Hnow Hi]. apply spec_seq. apply spec_cinode; [|left; apply to_index; [apply Hs|done]].
    intros y Hy. rewrite Hnow in Hy. injection Hy as <-. destruct (aget_is_Some (ci_blocks x') lo) as [v Hv]; [rewrite (io_blocks x' Hx'); lia|]. rewrite Hv. apply spec_seq. apply spec_the; [|left; by eexists].
    intros ? [= <-]. specialize (IH (Z.succ lo)). replace (Z.pred (16 - lo)) with (16 - Z.succ lo) by lia.
    assert (Hsame : forall x1 (P1 : Z -> Prop) c1, shrinks idx x x1 P1 c c1 -> x1 = x' <| ci_blocks := aset (ci_blocks x') lo 0 |> -> (forall b, P1 b <-> P b \/ (b <> 0 /\ b = v)) ->
      spec false (for_each (@free_direct D H idx) (seqZ (Z.succ lo) (16 - Z.succ lo))) c1 f (fun _ c2 f2 => f2 = f /\
        shrinks idx x (x' <| ci_blocks := zap 0 lo (ci_blocks x') |>) (fun b => P b \/ (b <> 0 /\ exists i, lo <= i /\ aget (ci_blocks x') i = Some b)) c c2)).
    { intros x1 P1 c1 H1 -> HP1. eapply spec_mono; [apply (IH (x' <| ci_blocks := aset (ci_blocks x') lo 0 |>) P1 c1)|]; [lia|lia|exact H1| | |].
      - apply (put_root_ok (Direct lo) 0 x' Hx'). done.
      - cbn. intros i w Hw. destruct (decide (i = lo)) as [->|Hne]; [rewrite aget_aset_eq in Hw by (rewrite (io_blocks x' Hx'); lia); injection Hw as <-; done|]. rewrite aget_aset_ne in Hw by congruence. by eapply Hr.
      - cbv beta. intros _ c2 f2 [-> H2]. split; [done|]. cbn in H2. assert (Ez : zap 0 (Z.succ lo) (aset (ci_blocks x') lo 0) = zap 0 lo (ci_blocks x')).
        { apply list_eq. intros k. rewrite !zap0_lookup. unfold aset. destruct (Z.ltb_spec lo 0); [lia|]. destruct (decide (k = Z.to_nat lo)) as [->|Hk].
          - rewrite list_lookup_insert_eq by (rewrite (io_blocks x' Hx'); lia). destruct (lookup_lt_is_Some_2 (ci_blocks x') (Z.to_nat lo)) as [w Hw]; [rewrite (io_blocks x' Hx'); lia|]. rewrite Hw. cbn [fmap option_fmap option_map].
            destruct (Z.leb_spec (Z.succ lo) (Z.of_nat (Z.to_nat lo))), (Z.leb_spec lo (Z.of_nat (Z.to_nat lo))); try done; lia.
          - rewrite list_lookup_insert_ne by congruence. destruct (ci_blocks x' !! k); [|done]. cbn [fmap option_fmap option_map]. f_equal. destruct (Z.leb_spec (Z.succ lo) (Z.of_nat k)), (Z.leb_spec lo (Z.of_nat k)); try done; lia. }
        rewrite Ez in H2. eapply shrinks_ext; cycle 1; [exact H2|]. intros b. cbv beta. rewrite HP1. split.
        + intros [[?|[? ->]]|(Hb & i & Hi' & Hw)]; [by left|right; split; [done|]; exists lo; split; [lia|done]|right; split; [done|]; exists i; split; [lia|]]. by rewrite aget_aset_ne in Hw by lia.
        + intros [?|(Hb & i & Hi' & Hw)]; [by left; left|]. destruct (decide (i = lo)) as [->|Hne]; [left; right; rewrite Hv in Hw; by injection Hw as <-|]. right. split; [done|]. exists i. split; [lia|]. by rewrite aget_aset_ne by congruence. }
    destruct (Z.eqb_spec v 0) as [->|Hv0].
    + apply spec_ret. apply (Hsame x' P); [done| |naive_solver]. rewrite aset_same by done. by destruct x'.
    + apply spec_seq. eapply spec_mono; [apply (spec_sh_free idx x x' P c c' f v Hs); by eapply Hr|]. cbv beta. intros _ c1 f1 [-> H1].
      eapply spec_mono; [apply (spec_sh_put idx x x' (x' <| ci_blocks := aset (ci_blocks x') lo 0 |>) _ c c1 f _ H1); [done|by apply (put_root_ok (Direct lo) 0 x' Hx')]|].
      cbv beta. intros _ c2 f2 [-> H2]. eapply Hsame; [exact H2|done|]. naive_solver.
Qed.

(** A field that names a block, cleared after the block is freed. *)
Lemma spec_sh_root idx x x' P c c' f sl blk : shrinks idx x x' P c c' -> inode_ok x' -> 0 < blk < CATFS_BLOCKS_MAX ->
  spec false (do* bm_free blk in @upd_cinode D H idx (put_root sl 0)) c' f (fun _ c2 f2 => f2 = f /\ shrinks idx x (put_root sl 0 x') (fun b => P b \/ b = blk) c c2).
Proof.
  intros Hs Hx Hb. apply spec_seq. eapply spec_mono; [eapply spec_sh_free; [exact Hs|lia]|]. cbv beta. intros _ c1 f1 [-> H1]. eapply spec_sh_put; [exact H1|done|by apply put_root_ok].
Qed.
Lemma spec_free_all idx x c f : fs_ok c f -> aget (cf_inodes c) idx = Some x ->
  spec false (@free_all_blocks D H _ idx) c f (fun _ c2 f2 => f2 = f /\ exists x', shrinks idx x x' (fun b => b <> 0 /\ exists a, valid a /\ ptr x f a = b) c c2).
Proof.
  intros Hok Hx. pose proof (fk_tables c f Hok) as Ht. pose proof (fk_tree c f Hok) as Hk. pose proof (to_inode c idx x Ht Hx) as Hxo. change CATFS_PTRS_PER_BLOCK with 128.
  assert (Hp : forall a, valid a -> 0 <= ptr x f a < CATFS_BLOCKS_MAX).
  { intros a Ha. destruct (decide (ptr x f a = 0)) as [->|Hn]; [done|]. assert (E : iptr c f idx a = ptr x f a) by (unfold iptr; by rewrite Hx). pose proof (tk_range c f idx a Ht Hk Ha). rewrite E in *. lia. }
  unfold free_all_blocks. apply spec_seq. change (seqZ 0 CATFS_DIRECT_BLOCKS) with (seqZ 0 (CATFS_DIRECT_BLOCKS - 0)).
  eapply spec_mono; [apply (spec_sh_direct 16 idx x f c 0 x (fun _ => False) c); [done|lia|by apply shrinks_refl|done|]|].
  { intros i v Hv. pose proof (aget_Some_range _ _ _ Hv) as Hr. rewrite (io_blocks x Hxo) in Hr. specialize (Hp (Direct i) Hr). cbn in Hp. by rewrite Hv in Hp. }
  cbv beta. intros _ c1 f1 [-> H1]. set (x1 := x <| ci_blocks := _ |>) in H1. assert (Hx1 : inode_ok x1) by (destruct Hxo; split; try done; cbn; [by rewrite zap_length|by apply zap_ok]).
  destruct (shrinks_now _ _ _ _ _ _ H1) as [Hn1 Hi]. apply spec_seq. apply spec_cinode; [|left; apply to_index; [apply H1|done]]. intros y Hy. rewrite Hn1 in Hy. injection Hy as <-. change (ci_indirect x1) with (ci_indirect x).
  set (P1 := fun b => False \/ (b <> 0 /\ exists i, 0 <= i /\ aget (ci_blocks x) i = Some b)) in H1.
  set (P2 := fun b => P1 b \/ (b <> 0 /\ (b = ci_indirect x \/ exists k, 0 <= k < 128 /\ ptr x f (IndP k) = b))).
  apply spec_seq. eapply (spec_mono _ _ _ _ (fun _ c2 f2 => f2 = f /\ exists x2, shrinks idx x x2 P2 c c2 /\ inode_ok x2 /\ ci_dindirect x2 = ci_dindirect x)).
  { destruct (Z.eqb_spec (ci_indirect x) 0) as [E0|E0].
    - apply spec_ret. split; [done|]. exists x1. split_and!; [|done|done]. eapply shrinks_ext; [|exact H1]. intros b. unfold P2. split; [by left|]. intros [?|(Hb & [->|(k & Hk' & E)])]; [done|done|]. exfalso. apply Hb. rewrite <- E. unfold ptr. by rewrite E0.
    - apply spec_seq. eapply spec_mono; [apply (spec_sh_children idx x x1 P1 c c1 f (ci_indirect x) H1)|].
      + pose proof (Hp Ind I). cbn in *. lia.
      + intros k Hk'. by apply (Hp (IndP k)).
      + cbv beta. intros _ c2 f2 [-> H2]. eapply spec_mono; [apply (spec_sh_root idx x x1 _ c c2 f Ind (ci_indirect x) H2 Hx1); pose proof (Hp Ind I); cbn in *; lia|]. cbv beta. intros _ c3 f3 [-> H3]. split; [done|]. exists (put_root Ind 0 x1). split_and!; [|by apply put_root_ok|done].
        eapply shrinks_ext; [|exact H3]. intros b. unfold P2. change CATFS_PTRS_PER_BLOCK with 128. cbn. naive_solver. }
  cbv beta. intros _ c2 f2 (-> & x2 & H2 & Hx2 & Ed). destruct (shrinks_now _ _ _ _ _ _ H2) as [Hn2 _]. apply spec_seq. apply spec_cinode; [|left; apply to_index; [apply H2|done]]. intros y Hy. rewrite Hn2 in Hy. injection Hy as <-. rewrite Ed.
  assert (Hdone : forall Q c3 x3, shrinks idx x x3 Q c c3 -> (forall b, Q b <-> P2 b \/ (b <> 0 /\ (b = ci_dindirect x \/ exists k, 0 <= k < 128 /\ (ptr x f (L1 k) = b \/ exists m, 0 <= m < 128 /\ ptr x f (L2 k m) = b)))) ->
    exists x', shrinks idx x x' (fun b => b <> 0 /\ exists a, valid a /\ ptr x f a = b) c c3).
  { intros Q c3 x3 H3 HQ. exists x3. eapply shrinks_ext; [|exact H3]. intros b. rewrite HQ. unfold P2, P1. split.
    - intros [[[[]|(Hb & i & Hi' & E)]|(Hb & [->|(k & Hk' & E)])]|(Hb & [->|(k & Hk' & [E|(m & Hm & E)])])]; (split; [done|]).
      + exists (Direct i). pose proof (aget_Some_range _ _ _ E) as Hr. rewrite (io_blocks x Hxo) in Hr. split; [exact Hr|]. cbn. by rewrite E.
      + by exists Ind.
      + by exists (IndP k).
      + by exists Dind.
      + by exists (L1 k).
      + by exists (L2 k m).
    - intros (Hb & a & Ha & E). destruct a as [i| |k| |k|k m]; cbn in Ha.
      + left. left. right. split; [done|]. exists i. split; [lia|]. cbn in E. destruct (aget (ci_blocks x) i); cbn in E; congruence.
      + left. right. split; [done|]. by left.
      + left. right. split; [done|]. right. by exists k.
      + right. split; [done|]. by left.
      + right. split; [done|]. right. exists k. split; [done|]. by left.
      + right. split; [done|]. right. destruct Ha. exists k. split; [done|]. right. by exists m. }
  destruct (Z.eqb_spec (ci_dindirect x) 0) as [E0|E0].
  { apply spec_ret. split; [done|]. apply (Hdone P2 c2 x2); [done|]. intros b. split; [by left|]. intros [?|(Hb & [->|(k & Hk' & [E|(m & Hm & E)])])]; [done|done|exfalso; apply Hb; rewrite <- E; unfold ptr; by rewrite E0..]. }
  assert (Hdr : 0 < ci_dindirect x < CATFS_BLOCKS_MAX) by (pose proof (Hp Dind I); cbn in *; lia).
  apply spec_seq. apply spec_blk_read; [apply H2|lia|]. intros _. apply spec_seq.
  eapply spec_mono; [apply (spec_sh_each _ (fun v b => b <> 0 /\ v <> 0 /\ (b = v \/ exists m, 0 <= m < 128 /\ entry f v m = b)) idx x x2 f c); [|exact H2]|].
  { intros v P' c3 Hv H3. apply elem_ptrs_of in Hv as (k & Hk' & E); [|done]. change CATFS_PTRS_PER_BLOCK with 128 in Hk'. pose proof (Hp (L1 k) Hk') as Hvr. cbn in Hvr. rewrite E in Hvr. destruct (Z.eqb_spec v 0) as [->|Hv0].
    - apply spec_ret. split; [done|]. eapply shrinks_ext; [|exact H3]. naive_solver.
    - apply spec_seq. eapply spec_mono; [apply (spec_sh_children idx x x2 P' c c3 f v H3); [lia|]|].
      + intros m Hm. pose proof (Hp (L2 k m) (conj Hk' Hm)) as Hmr. cbn in Hmr. by rewrite E in Hmr.
      + cbv beta. intros _ c4 f4 [-> H4]. eapply spec_mono; [eapply spec_sh_free; [exact H4|lia]|]. cbv beta. intros _ c5 f5 [-> H5]. split; [done|]. eapply shrinks_ext; [|exact H5].
        intros b. change CATFS_PTRS_PER_BLOCK with 128. naive_solver. }
  cbv beta. intros _ c3 f3 [-> H3]. eapply spec_mono; [apply (spec_sh_root idx x x2 _ c c3 f Dind (ci_dindirect x) H3 Hx2 Hdr)|]. cbv beta. intros _ c4 f4 [-> H4]. split; [done|]. eapply Hdone; [exact H4|].
  intros b. setoid_rewrite elem_ptrs_of; [|done]. change CATFS_PTRS_PER_BLOCK with 128. split.
  - intros [[?|(v & (k & Hk' & <-) & Hb & Hv & [->|(m & Hm & E)])]| ->]; [by left|right; split; [done|]; right; exists k; split; [done|]; by left|right; split; [done|]; right; exists k; split; [done|]; right; by exists m|right; split; [lia|by left]].
  - intros [?|(Hb & [->|(k & Hk' & [E|(m & Hm & E)])])]; [by left; left|by right|left; right; exists b; split; [by exists k|]; split_and!; [done|done|by left]|].
    left. right. exists (entry f (ci_dindirect x) k). split; [by exists k|]. split_and!; [done| |right; by exists m]. intros Hz. unfold ptr in E. rewrite Hz in E. by rewrite entry_0 in E.
Qed.
End Free.

(** ** Removing a file *)

Record removed (idx : Z) (x : catfs_inode) (c : catfs_state_t) (f : Z -> list byte) (c' : catfs_state_t) (f' : Z -> list byte) : Prop := {
  rm_ok : fs_ok c' f'; rm_was : aget (cf_inodes c) idx = Some x /\ ci_type x <> CATFS_TYPE_FREE; rm_inodes : cf_inodes c' = aset (cf_inodes c) idx inode_zero;
  rm_leaf : ci_type x = CATFS_TYPE_DIR -> forall i y, 1 <= i -> aget (cf_inodes c) i = Some y -> ci_type y <> CATFS_TYPE_FREE -> ci_parent y <> idx;
  rm_bytes j p : j <> idx -> byte_at c' f' j p = byte_at c f j p;
  rm_marks b : marks (cf_bitmap c') b <-> marks (cf_bitmap c) b /\ ~ (b <> 0 /\ exists a, valid a /\ iptr c f idx a = b);
  rm_drive : cf_disk_drive c' = cf_disk_drive c /\ cf_partition_offset c' = cf_partition_offset c;
  rm_head : jh_head (cf_jh c') = u32 (jh_head (cf_jh c) + 1);
  rm_synced : synced c f -> log_room c -> synced c' f' }.

Lemma inode_zero_ok : inode_ok inode_zero.
Proof. split; try done; repeat (apply list.Forall_cons_2; [done|]); apply list.Forall_nil_2. Qed.
Lemma fs_ok_logged c f log : fs_ok c f -> fs_ok (logged c) (fput f (log_lba (jh_head (cf_jh c))) log) /\
  (forall j a, valid a -> iptr (logged c) (fput f (log_lba (jh_head (cf_jh c))) log) j a = iptr c f j a) /\ low_frame f (fput f (log_lba (jh_head (cf_jh c))) log).
Proof.
  intros Hok. pose proof (fk_tables c f Hok) as Ht. destruct (aget_is_Some (cf_inodes c) 0) as [x Hx]; [by apply to_index|].
  assert (Hf : low_frame f (fput f (log_lba (jh_head (cf_jh c))) log)).
  { intros a Ha. apply fput_other. destruct (log_lba_range _ (jh_head_nonneg c Ht)) as [Hlba _]. change DATA_LBA with 100 in Ha. lia. }
  destruct (fs_ok_meta c f (logged c) (fput f (log_lba (jh_head (cf_jh c))) log) 0 x x) as [H1 H2]; try done; [by apply tables_logged|symmetry; by apply aset_same|by left].
Qed.

Section Unlink.
Context {D H : Type} `{!Disk D} `{!DiskLaws D} `{!Allocator H}.
Implicit Types (c : catfs_state_t) (f : Z -> list byte).

Lemma spec_answer_total {A} (a : A) (m : M (cstate D H) A) c f (Q : A -> _ -> _ -> Prop) b : (forall s, c_fs s = c -> m s = answer (Some a) s) -> Q a c f -> spec b m c f Q.
Proof. intros Hm HQ s Hs. rewrite (Hm s (rep_fs _ _ _ Hs)). cbn. by exists c, f. Qed.
Lemma first_at_total q l : (forall i, i ∈ l -> is_Some (q i)) -> is_Some (first_at q l).
Proof. induction l as [|i l IH]; intros Hq; cbn; [by eexists|]. destruct (Hq i) as [b ->]; [left|]. destruct b; [by eexists|]. apply IH. intros j Hj. apply Hq. by right. Qed.

Lemma removed_intro idx x x' log c f c1 c' f' : fs_ok c f -> aget (cf_inodes c) idx = Some x -> ci_type x <> CATFS_TYPE_FREE ->
  (ci_type x = CATFS_TYPE_DIR -> forall i y, 1 <= i -> aget (cf_inodes c) i = Some y -> ci_type y <> CATFS_TYPE_FREE -> ci_parent y <> idx) ->
  let f1 := fput f (log_lba (jh_head (cf_jh c))) log in
  shrinks idx x x' (fun b => b <> 0 /\ exists a, valid a /\ ptr x f1 a = b) (logged c) c1 -> data_done idx inode_zero c1 f1 c' f' -> removed idx x c f c' f'.
Proof.
  intros Hok Hx Hty Hleaf f1 Hs Dd. pose proof (fk_tables c f Hok) as Ht. destruct (fs_ok_logged c f log Hok) as (Hok1 & Hi1 & Hf1). fold f1 in Hok1, Hi1, Hf1. pose proof (aget_Some_range _ _ _ Hx) as Hr.
  assert (Ec1 : cf_inodes c1 = aset (cf_inodes c) idx x') by (rewrite (sh_eq _ _ _ _ _ _ Hs); done).
  assert (Ein : cf_inodes c' = aset (cf_inodes c) idx inode_zero) by (rewrite (dd_inodes _ _ _ _ _ _ Dd), Ec1; apply aset_aset).
  assert (Hf : low_frame f f') by (intros a Ha; rewrite (dd_low _ _ _ _ _ _ Dd a Ha); by apply Hf1).
  assert (Hiptr : forall j a, valid a -> iptr c' f' j a = if decide (j = idx) then 0 else iptr c f j a).
  { intros j a Ha. rewrite <- (iptr_low c c f f' Ht (fk_tree _ _ Hok) eq_refl Hf j a Ha). unfold iptr. rewrite Ein. case_decide as Hj; [subst; rewrite aget_aset_eq by done; apply ptr_zero|by rewrite aget_aset_ne by congruence]. }
  assert (Hpx : forall a, valid a -> ptr x f1 a = iptr c f idx a) by (intros a Ha; rewrite <- Hi1 by done; unfold iptr; cbn; by rewrite Hx).
  assert (Hm : forall b, marks (cf_bitmap c') b <-> marks (cf_bitmap c) b /\ ~ (b <> 0 /\ exists a, valid a /\ iptr c f idx a = b)).
  { intros b. rewrite (dd_bitmap _ _ _ _ _ _ Dd), (sh_marks _ _ _ _ _ _ Hs). cbn. split; (intros [H1 H2]; split; [done|]); intros (Hb & a & Ha & E); apply H2; (split; [done|]); exists a; (split; [done|]); [by rewrite Hpx|by rewrite <- Hpx]. }
  assert (Hok' : fs_ok c' f').
  { split; [apply Dd| |].
    - apply (tree_drop c f c' f' idx (fun _ => True)); [apply Hok|..].
      + intros j a Ha. rewrite Hiptr by done. case_decide; [by left|by right].
      + intros j a Ha Hn. rewrite Hiptr by done. case_decide; naive_solver.
      + intros b. rewrite Hm. naive_solver.
    - intros i y. rewrite Ein. destruct (decide (i = idx)) as [->|Hi]; [rewrite aget_aset_eq by done; intros [= <-] _ a _ _; apply ptr_zero|]. rewrite aget_aset_ne by congruence.
      intros Hy Hfr a Ha Hv. pose proof (fk_free c f Hok i y Hy Hfr a Ha Hv) as E. by destruct a. }
  split; try done.
  - intros j p Hj. apply byte_at_eq; [intros a Ha; rewrite Hiptr by done; by rewrite decide_False|]. intros n Hn. apply Hf. pose proof (file_block_nonzero c f j n Hn) as Hnr. rewrite file_block_slot in * by done.
    pose proof (tk_range c f j _ Ht (fk_tree _ _ Hok) (slot_of_valid _ Hnr) Hn). lia.
  - destruct (dd_drive _ _ _ _ _ _ Dd) as [-> ->]. by rewrite (sh_eq _ _ _ _ _ _ Hs).
  - rewrite (dd_head _ _ _ _ _ _ Dd). by rewrite (sh_eq _ _ _ _ _ _ Hs).
  - intros Hsy Hroom. apply (dd_synced _ _ _ _ _ _ Dd). destruct (log_lba_range _ (jh_head_nonneg c Ht)) as [Hlba Hlow]. specialize (Hlow Hroom).
    apply (others_frame idx c _ f); [done|by apply synced_others| |]. { intros a Ha. apply fput_other. change INODE_TABLE_LBA with 10 in Ha. lia. }
    intros i Hi. rewrite Ec1. by rewrite aget_aset_ne by congruence.
Qed.

Lemma spec_unlink idx c f : fs_ok c f ->
  spec false (@catfs_unlink D H _ idx) c f (fun r c' f' => (r = -1 /\ c' = c /\ f' = f) \/ (r = 0 /\ 0 < idx /\ exists x, removed idx x c f c' f')).
Proof.
  intros Hok. pose proof (fk_tables c f Hok) as Ht. unfold catfs_unlink. apply (spec_file _ 1); [done|lia|intros _; by left|]. intros x Hi Hx. destruct (Z.eqb_spec (ci_type x) CATFS_TYPE_FREE) as [|Hty]; [apply spec_ret; by left|].
  set (q := fun i => (fun y => negb (ci_type y =? CATFS_TYPE_FREE) && (ci_parent y =? idx)) <$> aget (cf_inodes c) i).
  destruct (first_at_total q inodes_from1) as [o Ho].
  { intros i Hi'. apply elem_of_seqZ in Hi'. change CATFS_INODE_MAX with 256 in Hi'. unfold q. destruct (aget_is_Some (cf_inodes c) i) as [y ->]; [apply to_index; [done|lia]|by eexists]. }
  assert (Hsearch : forall s : cstate D H, c_fs s = c -> search_inode (has_parent idx) inodes_from1 s = answer (Some o) s).
  { intros s Hs. rewrite <- Ho. apply search_answer. intros i. unfold has_parent, bind, cinode, deref, q. rewrite Hs. by destruct (aget (cf_inodes c) i). }
  spec_step. eapply (spec_mono _ _ _ _ (fun r c' f' => c' = c /\ f' = f /\ r = if ci_type x =? CATFS_TYPE_DIR then o else None)).
  { destruct (ci_type x =? CATFS_TYPE_DIR); [|by apply spec_ret]. by apply (spec_answer_total o). }
  cbv beta. intros child ? ? (-> & -> & Ech). destruct child as [j|]; [apply spec_ret; by left|].
  assert (Hleaf : ci_type x = CATFS_TYPE_DIR -> forall i y, 1 <= i -> aget (cf_inodes c) i = Some y -> ci_type y <> CATFS_TYPE_FREE -> ci_parent y <> idx).
  { intros Hd i y Hi1 Hy Hyt Hyp. rewrite Hd in Ech. cbn in Ech. subst o. pose proof (aget_Some_range _ _ _ Hy) as Hyr. rewrite (to_len c Ht) in Hyr.
    assert (Hin : i ∈ inodes_from1) by (apply elem_of_seqZ; change CATFS_INODE_MAX with 256; lia). pose proof (first_at_None _ _ Ho i Hin) as E. unfold q in E. rewrite Hy in E. cbn in E.
    destruct (Z.eqb_spec (ci_type y) CATFS_TYPE_FREE); [done|]. destruct (Z.eqb_spec (ci_parent y) idx); done. }
  spec_step. apply spec_journal_log; [done|]. intros Hl. set (log := log_sector c f _ _ _ _). set (f1 := fput f _ log). destruct (fs_ok_logged c f log Hok) as (Hok1 & _ & _). fold f1 in Hok1.
  spec_step. eapply spec_mono; [apply (spec_free_all idx x (logged c) f1 Hok1); done|]. cbv beta. intros _ c1 f2 (-> & x' & Hs). destruct (shrinks_now _ _ _ _ _ _ Hs) as [Hx' _].
  pose proof (aget_Some_range _ _ _ Hx') as Hr1. spec_step. apply spec_upd_inode; [|by left]. intros y _. spec_step. spec_step. change (cf_sb (put_inode c1 idx inode_zero)) with (cf_sb c1).
  set (sb := (cf_sb c1) <| sb_free_inodes := u32 (sb_free_inodes (cf_sb c1) + 1) |>). pose proof (sh_tables _ _ _ _ _ _ Hs) as Ht1. assert (Hsb : same_super (cf_sb c1) sb) by apply count_same, Ht1.
  set (c2 := (put_inode c1 idx inode_zero) <| cf_sb := sb |>).
  assert (Ht2 : tables_ok c2). { pose proof (same_super_ok _ _ (to_sb c1 Ht1) Hsb). destruct Hsb as (E & _). destruct (tables_put_inode c1 idx inode_zero Ht1 inode_zero_ok). split; try done; cbn; rewrite E; cbn; apply Ht1. }
  spec_step. apply (spec_sync_inode false idx inode_zero); [done|cbn; by apply aget_aset_eq|]. intros Hl2. spec_step. apply spec_sync_bitmap; [done|]. intros f3 Hf3.
  spec_step. apply spec_sync_superblock; [done|]. spec_step. apply spec_journal_commit; [done|]. spec_step. right. split; [done|]. split; [lia|]. exists x.
  eapply (removed_intro idx x x' log c f c1); try done. apply (data_done_intro idx x' inode_zero sb c1 f1 (fput f3 SB_LBA (super_bytes sb))); try done; [apply inode_zero_ok|]. right. exists f3. done.
Qed.
End Unlink.

(** ** Cutting a file *)

(** The pointers of a sector from [start] on cleared. *)
Definition zapped (start : Z) (sec : list byte) : list Z := zap 0 start (ptrs_of sec).
Lemma ptrs_of_ok sec : Forall u32_ok (ptrs_of sec) /\ zlen (ptrs_of sec) = 128.
Proof.
  split; [|unfold ptrs_of; by rewrite nums_length]. apply list.Forall_forall. intros v Hv. unfold ptrs_of, nums in Hv. apply list_elem_of_fmap in Hv as (k & -> & _). by apply (num_range _ _ 4).
Qed.
Lemma zapped_length start sec : length (ptrs_bytes (zapped start sec)) = 512%nat.
Proof. pose proof (ptrs_bytes_length (zapped start sec)) as E. unfold zapped in *. rewrite zap_length in E. destruct (ptrs_of_ok sec) as [_ Hl]. lia. Qed.
Lemma zapped_num start sec m : 0 <= m < 128 -> num (ptrs_bytes (zapped start sec)) (4 * m) 4 = if start <=? m then 0 else num sec (4 * m) 4.
Proof.
  intros Hm. destruct (ptrs_of_ok sec) as [Hok Hl]. pose proof (ptrs_round (zapped start sec)) as E. unfold zapped in E. rewrite zap_length in E. specialize (E (zap_ok _ _ _ Hok) Hl).
  assert (E2 : ptrs_of (ptrs_bytes (zap 0 start (ptrs_of sec))) !! Z.to_nat m = zap 0 start (ptrs_of sec) !! Z.to_nat m) by (by rewrite E). rewrite zap0_lookup in E2. unfold ptrs_of in E2.
  rewrite !nums_lookup in E2 by (change (Z.to_nat CATFS_PTRS_PER_BLOCK) with 128%nat; lia). cbn [fmap option_fmap option_map] in E2. rewrite !Z2Nat.id, !Z.add_0_l in E2 by lia. injection E2 as E2. exact E2.
Qed.
Lemma ptrs_lookup sec m : 0 <= m < 128 -> ptrs_of sec !! Z.to_nat m = Some (num sec (4 * m) 4).
Proof. intros Hm. unfold ptrs_of. rewrite nums_lookup by (change (Z.to_nat CATFS_PTRS_PER_BLOCK) with 128%nat; lia). by rewrite Z2Nat.id, Z.add_0_l by lia. Qed.
Lemma any_zapped start sec : any_ptr (zapped start sec) = true <-> exists m, 0 <= m < 128 /\ m < start /\ num sec (4 * m) 4 <> 0.
Proof.
  unfold any_ptr. rewrite existsb_exists. split.
  - intros (v & Hin & Hv). apply list_elem_of_In, list_elem_of_lookup in Hin as [k Hk]. unfold zapped in Hk. rewrite zap0_lookup in Hk. destruct (ptrs_of sec !! k) as [w|] eqn:Ew; [|done]. cbn in Hk. injection Hk as <-.
    destruct (ptrs_of_ok sec) as [_ Hl]. pose proof (lookup_lt_Some _ _ _ Ew) as Hkl. exists (Z.of_nat k). destruct (Z.leb_spec start (Z.of_nat k)); [done|]. split; [lia|]. split; [lia|].
    pose proof (ptrs_lookup sec (Z.of_nat k) ltac:(lia)) as E. rewrite Nat2Z.id, Ew in E. injection E as ->. intros E0. unfold truth in Hv. rewrite E0 in Hv. done.
  - intros (m & Hm & Hs & Hv). exists (num sec (4 * m) 4). split; [|unfold truth; by destruct (Z.eqb_spec (num sec (4 * m) 4) 0)].
    apply list_elem_of_In, (list_elem_of_lookup_2 _ (Z.to_nat m)). unfold zapped. rewrite zap0_lookup, ptrs_lookup by lia. cbn [fmap option_fmap option_map]. destruct (Z.leb_spec start (Z.of_nat (Z.to_nat m))); [lia|done].
Qed.

Lemma bind_bind {S A B E} (m : M S A) (k : A -> M S B) (k' : B -> M S E) s : bind (bind m k) k' s = bind m (fun a => bind (k a) k') s.
Proof. unfold bind. by destruct (m s) as [[a s']|]. Qed.

Section Cut.
Context {D H : Type} `{!Disk D} `{!DiskLaws D} `{!Allocator H}.
Implicit Types (c : catfs_state_t) (f : Z -> list byte).

Lemma spec_cut_ptrs idx x x' f c start p : (forall v, v ∈ p -> 0 <= v < CATFS_BLOCKS_MAX) -> forall i P c', shrinks idx x x' P c c' ->
  spec false (@cut_ptrs D H i start p) c' f (fun r c2 f2 => r = zap i start p /\ f2 = f /\ shrinks idx x x' (fun b => P b \/ (b <> 0 /\ exists j, p !! j = Some b /\ start <= i + Z.of_nat j)) c c2).
Proof.
  induction p as [|v p IH]; intros Hr i P c' Hs; cbn [cut_ptrs zap].
  - apply spec_ret. split_and!; [done..|]. eapply shrinks_ext; [|exact Hs]. intros b. split; [by left|]. intros [?|(_ & j & Hj & _)]; [done|]. by rewrite lookup_nil in Hj.
  - apply spec_seq. eapply (spec_mono _ _ _ _ (fun r c2 f2 => r = (if start <=? i then 0 else v) /\ f2 = f /\ shrinks idx x x' (fun b => P b \/ (b <> 0 /\ b = v /\ start <= i)) c c2)).
    { destruct (Z.leb_spec start i) as [Hsi|Hsi]; cbn [andb].
      - unfold truth. destruct (Z.eqb_spec v 0) as [->|Hv]; cbn [negb].
        + apply spec_ret. split_and!; [done..|]. eapply shrinks_ext; [|exact Hs]. naive_solver.
        + apply spec_seq. eapply spec_mono; [eapply spec_sh_free; [exact Hs|apply Hr; left]|]. cbv beta. intros _ c2 f2 [-> H2]. apply spec_ret. split_and!; [done..|]. eapply shrinks_ext; [|exact H2]. naive_solver.
      - apply spec_ret. split_and!; [done..|]. eapply shrinks_ext; [|exact Hs]. intros b. split; [by left|]. intros [?|(_ & _ & ?)]; [done|lia]. }
    cbv beta. intros ? c1 ? (-> & -> & H1). apply spec_seq. eapply spec_mono; [apply (IH ltac:(intros w Hw; apply Hr; by right) (i + 1) _ c1 H1)|]. cbv beta. intros ? c2 ? (-> & -> & H2). apply spec_ret. split_and!; [done..|].
    eapply shrinks_ext; [|exact H2]. intros b. cbv beta. split.
    + intros [[?|(Hb & -> & Hsi)]|(Hb & j & Hj & Hsj)]; [by left|right; split; [done|]; exists 0%nat; split; [done|lia]|right; split; [done|]; exists (S j); split; [done|lia]].
    + intros [?|(Hb & j & Hj & Hsj)]; [by left; left|]. destruct j as [|j]; cbn in Hj; [injection Hj as ->; left; right; split_and!; [done|done|lia]|right; split; [done|]; exists j; split; [done|lia]].
Qed.
(** The pointers of the block [T], freed from [start] on. *)
Lemma spec_cut_block idx x x' P c c' f T start : shrinks idx x x' P c c' -> T <> 0 -> (forall k, 0 <= k < CATFS_PTRS_PER_BLOCK -> 0 <= entry f T k < CATFS_BLOCKS_MAX) ->
  spec false (@cut_ptrs D H 0 start (ptrs_of (f (DATA_LBA + T)))) c' f (fun r c2 f2 => r = zapped start (f (DATA_LBA + T)) /\ f2 = f /\
    shrinks idx x x' (fun b => P b \/ (b <> 0 /\ exists m, 0 <= m < 128 /\ start <= m /\ entry f T m = b)) c c2).
Proof.
  intros Hs HT Hr. eapply spec_mono; [apply (spec_cut_ptrs idx x x' f c start (ptrs_of (f (DATA_LBA + T))) ltac:(intros v Hv; apply elem_ptrs_of in Hv as (k & Hk & <-); [by apply Hr|done]) 0 P c' Hs)|].
  cbv beta. intros r c2 f2 (-> & -> & H2). split_and!; [done..|]. eapply shrinks_ext; [|exact H2]. intros b. cbv beta. split.
  - intros [?|(Hb & j & Hj & Hsj)]; [by left|]. right. split; [done|]. pose proof (lookup_lt_Some _ _ _ Hj) as Hl. destruct (ptrs_of_ok (f (DATA_LBA + T))) as [_ Hl']. exists (Z.of_nat j).
    pose proof (ptrs_lookup (f (DATA_LBA + T)) (Z.of_nat j) ltac:(lia)) as E. rewrite Nat2Z.id, Hj in E. injection E as ->. split; [lia|]. split; [lia|]. unfold entry. by destruct (Z.eqb_spec T 0).
  - intros [?|(Hb & m & Hm & Hsm & E)]; [by left|]. right. split; [done|]. exists (Z.to_nat m). split; [|lia]. rewrite ptrs_lookup by lia. f_equal. rewrite <- E. unfold entry. by destruct (Z.eqb_spec T 0).
Qed.

(** The blocks of pointers below the double indirect block, when a file is cut to [first] blocks. *)
Definition l1_base (k : Z) : Z := CATFS_DIRECT_BLOCKS + CATFS_PTRS_PER_BLOCK + k * CATFS_PTRS_PER_BLOCK.
Definition l1_start (first k : Z) : Z := if l1_base k <? first then first - l1_base k else 0.
Definition l1_skip (first k : Z) : bool := l1_base k + CATFS_PTRS_PER_BLOCK <=? first.
Definition l1_kept (first k : Z) (sec : list byte) : bool := l1_skip first k || any_ptr (zapped (l1_start first k) sec).
Definition l1_sec (first k : Z) (sec : list byte) : list byte := if l1_skip first k then sec else if any_ptr (zapped (l1_start first k) sec) then ptrs_bytes (zapped (l1_start first k) sec) else sec.
Definition l1_freed (first : Z) (v : Z -> Z) (f : Z -> list byte) (k b : Z) : Prop :=
  v k <> 0 /\ l1_skip first k = false /\ ((b = v k /\ l1_kept first k (f (DATA_LBA + v k)) = false) \/ (b <> 0 /\ exists m, 0 <= m < 128 /\ l1_start first k <= m /\ entry f (v k) m = b)).

Lemma spec_cut_l1 idx x x' f c first (v : Z -> Z) : 
  (forall k, 0 <= k < 128 -> v k <> 0 -> 0 < v k < CATFS_BLOCKS_MAX) -> (forall k m, 0 <= k < 128 -> 0 <= m < 128 -> 0 <= entry f (v k) m < CATFS_BLOCKS_MAX) ->
  (forall j k, 0 <= j < 128 -> 0 <= k < 128 -> v j = v k -> v j <> 0 -> j = k) ->
  forall n i P c1 f1, Z.of_nat n = 128 - i -> 0 <= i -> shrinks idx x x' P c c1 -> (forall k, i <= k < 128 -> v k <> 0 -> f1 (DATA_LBA + v k) = f (DATA_LBA + v k)) ->
  spec false (@cut_l1 D H _ i first (v <$> seqZ i (128 - i))) c1 f1 (fun r c2 f2 =>
    r = Some ((fun k => if v k =? 0 then 0 else if l1_kept first k (f (DATA_LBA + v k)) then v k else 0) <$> seqZ i (128 - i)) /\
    (forall k, i <= k < 128 -> v k <> 0 -> f2 (DATA_LBA + v k) = l1_sec first k (f (DATA_LBA + v k))) /\
    (forall a, (forall k, i <= k < 128 -> v k <> 0 -> a <> DATA_LBA + v k) -> f2 a = f1 a) /\
    shrinks idx x x' (fun b => P b \/ exists k, i <= k < 128 /\ l1_freed first v f k b) c c2).
Proof.
  intros Hv Hm Hinj. induction n as [|n IH]; intros i P c1 f1 Hn Hi Hs Hf1.
  - rewrite seqZ_nil by lia. cbn [fmap list_fmap cut_l1]. apply spec_ret. split_and!; [done|intros; lia|done|]. eapply shrinks_ext; [|exact Hs]. intros b. split; [by left|]. intros [?|(k & Hk & _)]; [done|lia].
  - rewrite seqZ_cons by lia. replace (Z.pred (128 - i)) with (128 - Z.succ i) by lia. cbn [fmap list_fmap cut_l1]. cbv zeta. fold (l1_base i). fold (l1_start first i). fold (l1_skip first i).
    apply spec_seq. eapply (spec_mono _ _ _ _ (fun r c2 f2 => r = Some (if v i =? 0 then 0 else if l1_kept first i (f (DATA_LBA + v i)) then v i else 0) /\ (v i <> 0 -> f2 (DATA_LBA + v i) = l1_sec first i (f (DATA_LBA + v i))) /\
      (forall a, (v i <> 0 -> a <> DATA_LBA + v i) -> f2 a = f1 a) /\ shrinks idx x x' (fun b => P b \/ l1_freed first v f i b) c c2)).
    { unfold l1_freed, l1_kept, l1_sec. destruct (Z.eqb_spec (v i) 0) as [E0|E0]; [apply spec_ret; split_and!; [done|done|done|]; eapply shrinks_ext; [|exact Hs]; intros b; split; [by left|]; intros [?|(? & _)]; done|]. specialize (Hf1 i ltac:(lia) E0) as Hfi.
      destruct (l1_skip first i) eqn:Esk; cbn [orb]; [apply spec_ret; split_and!; [done|done|done|]; eapply shrinks_ext; [|exact Hs]; intros b; split; [by left|]; intros [?|(_ & ? & _)]; done|].
      pose proof (Hv i ltac:(lia) E0) as Hvr. assert (Hent : forall m, entry f1 (v i) m = entry f (v i) m) by (intros m; by apply entry_eq).
      apply spec_seq. apply spec_blk_read; [apply Hs|lia|]. intros Hlen. apply spec_seq. eapply spec_mono; [apply (spec_cut_block idx x x' P c c1 f1 (v i) (l1_start first i) Hs E0)|].
      { intros m Hmr. rewrite Hent. apply Hm; [lia|done]. }
      cbv beta. intros ? c2 ? (-> & -> & H2). rewrite Hfi. destruct (any_ptr (zapped (l1_start first i) (f (DATA_LBA + v i)))) eqn:Eany.
      - apply spec_seq. apply spec_blk_write; [apply H2|lia|apply zapped_length|]. cbn [Z.ltb Z.compare]. apply spec_ret. split_and!; [done|intros _; apply fput_same|intros a Ha; apply fput_other; auto|].
        eapply shrinks_ext; [|exact H2]. intros b. setoid_rewrite Hent.
        split; [intros [?|?]; [by left|right; split; [done|]; split; [done|]; by right]|intros [?|(_ & _ & [[_ ?]|?])]; [by left|done|by right]].
      - apply spec_seq. eapply spec_mono; [eapply spec_sh_free; [exact H2|lia]|]. cbv beta. intros _ c3 f3 [-> H3]. apply spec_ret. split_and!; [done|done|done|]. eapply shrinks_ext; [|exact H3]. intros b. setoid_rewrite Hent.
        split; [intros [[?|?]|?]; [by left|right; split; [done|]; split; [done|]; by right|right; split; [done|]; split; [done|]; by left]|intros [?|(_ & _ & [[? _]|?])]; [by left; left|by right|by left; right]]. }
    cbv beta. intros ? c2 f2 (-> & Hfi & Hfo & H2). apply spec_seq.
    eapply spec_mono; [apply (IH (Z.succ i) _ c2 f2 ltac:(lia) ltac:(lia) H2)|].
    { intros k Hk Hvk. rewrite Hfo; [apply Hf1; [lia|done]|]. intros Hvi E. assert (v k = v i) as E' by lia. assert (k = i) by (apply Hinj; [lia|lia|done|done]). lia. }
    cbv beta. intros ? c3 f3 (-> & Hfk & Hfa & H3). apply spec_ret. split_and!; [done|..].
    + intros k Hk Hvk. destruct (decide (k = i)) as [->|Hki]; [|apply Hfk; [lia|done]]. rewrite Hfa; [by apply Hfi|]. intros j Hj Hvj E. assert (v i = v j) as E' by lia. assert (i = j) by (apply Hinj; [lia|lia|done|done]). lia.
    + intros a Ha. rewrite Hfa by (intros k Hk; apply Ha; lia). apply Hfo. apply Ha. lia.
    + eapply shrinks_ext; [|exact H3]. intros b. cbv beta. split.
      * intros [[?|?]|(k & Hk & ?)]; [by left|right; exists i; split; [lia|done]|right; exists k; split; [lia|done]].
      * intros [?|(k & Hk & ?)]; [by left; left|]. destruct (decide (k = i)) as [->|]; [by left; right|right; exists k; split; [lia|done]].
Qed.

Definition ind_start (first : Z) : Z := if CATFS_DIRECT_BLOCKS <? first then first - CATFS_DIRECT_BLOCKS else 0.
Definition ind_kept (first : Z) (sec : list byte) : bool := any_ptr (zapped (ind_start first) sec).
(** The first part of [free_blocks_from] that follows the direct pointers, and the second. *)
Definition cut_ind (idx first : Z) (x : catfs_inode) : M (cstate D H) Z :=
  if ci_indirect x =? 0 then ret 0
  else
    let* sec := blk_read (ci_indirect x) in
    match sec with
    | None => ret (-1)
    | Some sec =>
      let* p := cut_ptrs 0 (ind_start first) (ptrs_of sec) in
      if any_ptr p then let* w := blk_write (ci_indirect x) (ptrs_bytes p) in ret (if w <? 0 then -1 else 0)
      else do* bm_free (ci_indirect x) in do* upd_cinode idx (fun x => x <| ci_indirect := 0 |>) in ret 0
    end.
Definition cut_dind (idx first : Z) (x : catfs_inode) : M (cstate D H) Z :=
  if ci_dindirect x =? 0 then ret 0
  else
    let* l1 := blk_read (ci_dindirect x) in
    match l1 with
    | None => ret (-1)
    | Some l1 =>
      let* p1 := cut_l1 0 first (ptrs_of l1) in
      match p1 with
      | None => ret (-1)
      | Some p1 =>
        if any_ptr p1 then let* w := blk_write (ci_dindirect x) (ptrs_bytes p1) in ret (if w <? 0 then -1 else 0)
        else do* bm_free (ci_dindirect x) in do* upd_cinode idx (fun x => x <| ci_dindirect := 0 |>) in ret 0
      end
    end.
Lemma spec_cut_ind idx first x x1 P c c1 f : let T := ci_indirect x1 in shrinks idx x x1 P c c1 -> inode_ok x1 -> (T <> 0 -> 0 < T < CATFS_BLOCKS_MAX) ->
  (forall k, 0 <= k < 128 -> 0 <= entry f T k < CATFS_BLOCKS_MAX) ->
  spec false (cut_ind idx first x1) c1 f (fun r c2 f2 => r = 0 /\ (T <> 0 -> ind_kept first (f (DATA_LBA + T)) = true -> f2 (DATA_LBA + T) = ptrs_bytes (zapped (ind_start first) (f (DATA_LBA + T)))) /\
    (forall a, (T <> 0 -> a <> DATA_LBA + T) -> f2 a = f a) /\
    shrinks idx x (put_root Ind (if ind_kept first (f (DATA_LBA + T)) then T else 0) x1)
      (fun b => P b \/ (T <> 0 /\ ((b = T /\ ind_kept first (f (DATA_LBA + T)) = false) \/ (b <> 0 /\ exists m, 0 <= m < 128 /\ ind_start first <= m /\ entry f T m = b)))) c c2).
Proof.
  intros T Hs Hx1 HT Hent. unfold cut_ind. fold T. destruct (Z.eqb_spec T 0) as [E0|E0].
  - apply spec_ret. split_and!; [done|done|done|]. replace (put_root Ind _ x1) with x1 by (cbn; rewrite E0; subst T; destruct (ind_kept _ _), x1; cbn in *; by subst). eapply shrinks_ext; [|exact Hs]. intros b. split; [by left|]. intros [?|(? & _)]; done.
  - specialize (HT E0). apply spec_seq. apply spec_blk_read; [apply Hs|lia|]. intros _. apply spec_seq. eapply spec_mono; [by apply (spec_cut_block idx x x1 P c c1 f T (ind_start first) Hs E0)|].
    cbv beta. intros ? c2 ? (-> & -> & H2). fold (ind_kept first (f (DATA_LBA + T))). destruct (ind_kept first (f (DATA_LBA + T))) eqn:Ek.
    + apply spec_seq. apply spec_blk_write; [apply H2|lia|apply zapped_length|]. cbn [Z.ltb Z.compare]. apply spec_ret. split_and!; [done|intros _ _; apply fput_same|intros a Ha; apply fput_other; auto|].
      replace (put_root Ind T x1) with x1 by (subst T; by destruct x1). eapply shrinks_ext; [|exact H2]. intros b. split; [intros [?|?]; [by left|right; split; [done|by right]]|intros [?|(_ & [[_ ?]|?])]; [by left|done|by right]].
    + eapply spec_ext; [intros s; symmetry; apply bind_bind|]. apply spec_seq. eapply spec_mono; [apply (spec_sh_root idx x x1 _ c c2 f Ind T H2 Hx1 HT)|]. cbv beta. intros _ c3 f3 [-> H3]. apply spec_ret. split_and!; [done|done|done|].
      eapply shrinks_ext; [|exact H3]. intros b. split; [intros [[?|?]|?]; [by left|right; split; [done|by right]|right; split; [done|by left]]|intros [?|(_ & [[? _]|?])]; [by left; left|by right|by left; right]].
Qed.

Definition l1_new (first : Z) (v : Z -> Z) (f : Z -> list byte) (k : Z) : Z := if v k =? 0 then 0 else if l1_kept first k (f (DATA_LBA + v k)) then v k else 0.
Definition dind_kept (first : Z) (v : Z -> Z) (f : Z -> list byte) : bool := any_ptr (l1_new first v f <$> seqZ 0 128).
Lemma spec_cut_dind idx first x x1 P c c1 f f1 : let T := ci_dindirect x1 in let v := entry f T in shrinks idx x x1 P c c1 -> inode_ok x1 -> (T <> 0 -> 0 < T < CATFS_BLOCKS_MAX) ->
  (forall k, 0 <= k < 128 -> 0 <= v k < CATFS_BLOCKS_MAX) -> (forall k m, 0 <= k < 128 -> 0 <= m < 128 -> 0 <= entry f (v k) m < CATFS_BLOCKS_MAX) ->
  (forall j k, 0 <= j < 128 -> 0 <= k < 128 -> v j = v k -> v j <> 0 -> j = k) -> (forall k, 0 <= k < 128 -> v k <> 0 -> v k <> T) ->
  (T <> 0 -> f1 (DATA_LBA + T) = f (DATA_LBA + T)) -> (forall k, 0 <= k < 128 -> v k <> 0 -> f1 (DATA_LBA + v k) = f (DATA_LBA + v k)) ->
  spec false (cut_dind idx first x1) c1 f1 (fun r c2 f2 => r = 0 /\ (T <> 0 -> dind_kept first v f = true -> f2 (DATA_LBA + T) = ptrs_bytes (l1_new first v f <$> seqZ 0 128)) /\
    (forall k, 0 <= k < 128 -> v k <> 0 -> f2 (DATA_LBA + v k) = l1_sec first k (f (DATA_LBA + v k))) /\
    (forall a, (T <> 0 -> a <> DATA_LBA + T) -> (forall k, 0 <= k < 128 -> v k <> 0 -> a <> DATA_LBA + v k) -> f2 a = f1 a) /\
    shrinks idx x (put_root Dind (if dind_kept first v f then T else 0) x1)
      (fun b => P b \/ (T <> 0 /\ ((b = T /\ dind_kept first v f = false) \/ exists k, 0 <= k < 128 /\ l1_freed first v f k b))) c c2).
Proof.
  intros T v Hs Hx1 HT Hvr Hmr Hinj HvT Hf1T Hf1v. unfold cut_dind. fold T. destruct (Z.eqb_spec T 0) as [E0|E0].
  - assert (Hv0 : forall k, v k = 0) by (intros k; unfold v; by rewrite E0). apply spec_ret. split_and!; [done|done|intros k _ Hk; by rewrite Hv0 in Hk|done|].
    replace (put_root Dind _ x1) with x1 by (cbn; rewrite E0; subst T; destruct (dind_kept _ _ _), x1; cbn in *; by subst). eapply shrinks_ext; [|exact Hs]. intros b. split; [by left|]. intros [?|(? & _)]; done.
  - specialize (HT E0). specialize (Hf1T E0). apply spec_seq. apply spec_blk_read; [apply Hs|lia|]. intros _. rewrite Hf1T.
    assert (Ep : ptrs_of (f (DATA_LBA + T)) = v <$> seqZ 0 (128 - 0)). { unfold ptrs_of, nums. change (128 - 0) with 128. apply list_fmap_ext. intros i k _. unfold v, entry. by destruct (Z.eqb_spec T 0). }
    rewrite Ep. apply spec_seq. eapply spec_mono; [apply (spec_cut_l1 idx x x1 f c first v) with (n := 128%nat) (P := P); [intros k Hk Hn; specialize (Hvr k Hk); lia|done|done|done|lia|exact Hs|done]|].
    cbv beta. change (128 - 0) with 128. fold (l1_new first v f). intros ? c2 f2 (-> & Hfk & Hfa & H2). change (fun k => if v k =? 0 then 0 else if l1_kept first k (f (DATA_LBA + v k)) then v k else 0) with (l1_new first v f).
    fold (dind_kept first v f). destruct (dind_kept first v f) eqn:Ek.
    + apply spec_seq. apply spec_blk_write; [apply H2|lia| |].
      { pose proof (ptrs_bytes_length (l1_new first v f <$> seqZ 0 128)) as E. rewrite length_fmap, length_seqZ in E. lia. }
      cbn [Z.ltb Z.compare]. apply spec_ret. split_and!; [done|intros _ _; apply fput_same|..].
      * intros k Hk Hvk. rewrite fput_other by (specialize (HvT k Hk Hvk); lia). by apply Hfk.
      * intros a HaT Hav. rewrite fput_other by auto. by apply Hfa.
      * replace (put_root Dind T x1) with x1 by (subst T; by destruct x1). eapply shrinks_ext; [|exact H2]. intros b. split; [intros [?|?]; [by left|right; split; [done|by right]]|intros [?|(_ & [[_ ?]|?])]; [by left|done|by right]].
    + eapply spec_ext; [intros s; symmetry; apply bind_bind|]. apply spec_seq. eapply spec_mono; [apply (spec_sh_root idx x x1 _ c c2 f2 Dind T H2 Hx1 HT)|]. cbv beta. intros _ c3 f3 [-> H3]. apply spec_ret. split_and!; [done|done|done|intros a HaT Hav; by apply Hfa|].
      eapply shrinks_ext; [|exact H3]. intros b. split; [intros [[?|?]|?]; [by left|right; split; [done|by right]|right; split; [done|by left]]|intros [?|(_ & [[? _]|?])]; [by left; left|by right|by left; right]].
Qed.
End Cut.

(** The slots a cut to [first] blocks drops: those of the blocks behind it, and the blocks of
    pointers of which nothing is kept. *)
Definition cut_off (first : Z) (x : catfs_inode) (f : Z -> list byte) (a : slot) : Prop :=
  match a with
  | Direct i => first <= i
  | IndP k => first <= CATFS_DIRECT_BLOCKS + k
  | L2 k m => first <= l1_base k + m
  | Ind => ind_kept first (f (DATA_LBA + ptr x f Ind)) = false
  | L1 k => l1_kept first k (f (DATA_LBA + ptr x f (L1 k))) = false
  | Dind => dind_kept first (fun k => ptr x f (L1 k)) f = false
  end.
Record cut_done (first idx : Z) (x x' : catfs_inode) (c : catfs_state_t) (f : Z -> list byte) (c' : catfs_state_t) (f' : Z -> list byte) : Prop := {
  cd_shrinks : shrinks idx x x' (fun b => b <> 0 /\ exists a, valid a /\ cut_off first x f a /\ ptr x f a = b) c c';
  cd_meta : same_meta x x'; cd_inode : inode_ok x';
  cd_same a : valid a -> ptr x' f' a = 0 \/ ptr x' f' a = ptr x f a;
  cd_gone a : valid a -> ptr x f a <> 0 -> (ptr x' f' a = 0 <-> cut_off first x f a);
  cd_sec a : (forall t, valid t -> is_table t = true -> ptr x f t <> 0 -> a <> DATA_LBA + ptr x f t) -> f' a = f a }.

Lemma ind_start_le first k : 0 <= k -> (ind_start first <=? k) = (first <=? CATFS_DIRECT_BLOCKS + k).
Proof. unfold ind_start. change CATFS_DIRECT_BLOCKS with 16. intros. destruct (Z.ltb_spec 16 first), (Z.leb_spec first (16 + k)); (apply Z.leb_le; lia) || (apply Z.leb_gt; lia). Qed.
Lemma l1_start_le first k m : 0 <= m -> (l1_start first k <=? m) = (first <=? l1_base k + m).
Proof. unfold l1_start. intros. destruct (Z.ltb_spec (l1_base k) first), (Z.leb_spec first (l1_base k + m)); (apply Z.leb_le; lia) || (apply Z.leb_gt; lia). Qed.
Lemma l1_skip_le first k m : l1_skip first k = true -> 0 <= m < 128 -> l1_base k + m < first.
Proof. unfold l1_skip. change CATFS_PTRS_PER_BLOCK with 128. intros ?%Z.leb_le. lia. Qed.
Lemma entry_zapped f f' T start k : T <> 0 -> 0 <= k < 128 -> f' (DATA_LBA + T) = ptrs_bytes (zapped start (f (DATA_LBA + T))) -> entry f' T k = if start <=? k then 0 else entry f T k.
Proof. intros HT Hk Hf. unfold entry. destruct (Z.eqb_spec T 0); [done|]. rewrite Hf. by apply zapped_num. Qed.
Lemma entry_kept first f T k sec : sec = f (DATA_LBA + T) -> T <> 0 -> 0 <= k < 128 -> any_ptr (zapped first sec) = false -> k < first -> entry f T k = 0.
Proof.
  intros -> HT Hk Hany Hlt. destruct (decide (entry f T k = 0)) as [|Hn]; [done|]. assert (any_ptr (zapped first (f (DATA_LBA + T))) = true); [|congruence]. apply any_zapped. exists k. split_and!; [lia|lia|done|].
  unfold entry in Hn. by destruct (Z.eqb_spec T 0).
Qed.
Lemma num_ptrs p k w : Forall u32_ok p -> zlen p = 128 -> 0 <= k < 128 -> p !! Z.to_nat k = Some w -> num (ptrs_bytes p) (4 * k) 4 = w.
Proof. intros Hok Hl Hk Hw. pose proof (ptrs_lookup (ptrs_bytes p) k Hk) as E. rewrite (ptrs_round p Hok Hl), Hw in E. by injection E. Qed.
Lemma l1_new_num first v f k : (forall k, 0 <= k < 128 -> u32_ok (v k)) -> 0 <= k < 128 -> num (ptrs_bytes (l1_new first v f <$> seqZ 0 128)) (4 * k) 4 = l1_new first v f k.
Proof.
  intros Hv Hk. apply num_ptrs; [|by rewrite length_fmap, length_seqZ|done|].
  - apply list.Forall_forall. intros w (j & -> & Hj)%list_elem_of_fmap. apply elem_of_seqZ in Hj. unfold l1_new. repeat case_match; [done|apply Hv; lia|done].
  - rewrite list_lookup_fmap, lookup_seqZ_lt by lia. rewrite Z2Nat.id, Z.add_0_l by lia. done.
Qed.
Lemma dind_kept_false first v f k : dind_kept first v f = false -> 0 <= k < 128 -> l1_new first v f k = 0.
Proof.
  intros Hd Hk. destruct (decide (l1_new first v f k = 0)) as [|Hn]; [done|]. assert (dind_kept first v f = true); [|congruence]. unfold dind_kept, any_ptr. apply existsb_exists. exists (l1_new first v f k).
  split; [|unfold truth; by destruct (Z.eqb_spec (l1_new first v f k) 0)]. apply list_elem_of_In, list_elem_of_fmap. exists k. split; [done|]. apply elem_of_seqZ. lia.
Qed.

Definition direct_cut (first : Z) (x : catfs_inode) : catfs_inode := x <| ci_blocks := zap 0 first (ci_blocks x) |>.
Lemma cut_meta first d i x : same_meta x (put_root Dind d (put_root Ind i (direct_cut first x))).
Proof. unfold same_meta. by destruct x. Qed.

Section FreeFrom.
Context {D H : Type} `{!Disk D} `{!DiskLaws D} `{!Allocator H}.
Context (c : catfs_state_t) (f : Z -> list byte) (idx first : Z) (x : catfs_inode).
Hypothesis Hok : fs_ok c f.
Hypothesis Hx : aget (cf_inodes c) idx = Some x.
Hypothesis Hfirst : 0 <= first.

Let Ti := ci_indirect x.
Let Td := ci_dindirect x.
Let v := entry f Td.
Let ikeep := ind_kept first (f (DATA_LBA + Ti)).
Let dkeep := dind_kept first v f.

Lemma own_range a : valid a -> 0 <= ptr x f a < CATFS_BLOCKS_MAX.
Proof.
  intros Ha. destruct (decide (ptr x f a = 0)) as [->|Hn]; [done|]. assert (E : iptr c f idx a = ptr x f a) by (unfold iptr; by rewrite Hx).
  pose proof (tk_range c f idx a (fk_tables _ _ Hok) (fk_tree _ _ Hok) Ha). rewrite E in *. lia.
Qed.
Lemma own_inj a b : valid a -> valid b -> ptr x f a = ptr x f b -> ptr x f a <> 0 -> a = b.
Proof.
  intros Ha Hb E Hn. assert (Ei : forall a, iptr c f idx a = ptr x f a) by (intros; unfold iptr; by rewrite Hx). apply (tk_inj c f (fk_tree _ _ Hok) idx a idx b Ha Hb); rewrite !Ei; done.
Qed.
Lemma v_range k : 0 <= k < 128 -> 0 <= v k < CATFS_BLOCKS_MAX.
Proof. intros Hk. by apply (own_range (L1 k)). Qed.

Definition cut_inode : catfs_inode := put_root Dind (if dkeep then Td else 0) (put_root Ind (if ikeep then Ti else 0) (direct_cut first x)).

(** What the sectors of the blocks of pointers are afterwards. *)
Context (f2 f3 : Z -> list byte).
Hypothesis Hf2T : Ti <> 0 -> ikeep = true -> f2 (DATA_LBA + Ti) = ptrs_bytes (zapped (ind_start first) (f (DATA_LBA + Ti))).
Hypothesis Hf2o : forall a, (Ti <> 0 -> a <> DATA_LBA + Ti) -> f2 a = f a.
Hypothesis Hf3T : Td <> 0 -> dkeep = true -> f3 (DATA_LBA + Td) = ptrs_bytes (l1_new first v f <$> seqZ 0 128).
Hypothesis Hf3v : forall k, 0 <= k < 128 -> v k <> 0 -> f3 (DATA_LBA + v k) = l1_sec first k (f (DATA_LBA + v k)).
Hypothesis Hf3o : forall a, (Td <> 0 -> a <> DATA_LBA + Td) -> (forall k, 0 <= k < 128 -> v k <> 0 -> a <> DATA_LBA + v k) -> f3 a = f2 a.

Lemma ind_apart : Ti <> 0 -> (Td <> 0 -> Ti <> Td) /\ (forall k, 0 <= k < 128 -> v k <> 0 -> Ti <> v k).
Proof.
  intros HT. split; [intros HTd E; by pose proof (own_inj Ind Dind I I E HT)|]. intros k Hk Hv E. by pose proof (own_inj Ind (L1 k) I Hk E HT).
Qed.
Lemma cut_ind_entry k : 0 <= k < 128 -> ptr cut_inode f3 (IndP k) = if ikeep then if first <=? CATFS_DIRECT_BLOCKS + k then 0 else ptr x f (IndP k) else 0.
Proof.
  intros Hk. cbn [ptr]. change (ci_indirect cut_inode) with (if ikeep then Ti else 0). fold Ti. destruct ikeep eqn:Ek; [|done]. destruct (decide (Ti = 0)) as [E0|E0]; [rewrite E0, !entry_0; by case_match|].
  destruct (ind_apart E0) as [Ha Hb]. rewrite <- ind_start_le by lia. apply entry_zapped; [done|done|]. rewrite Hf3o; [by apply Hf2T|intros HTd; specialize (Ha HTd); lia|intros j Hj Hv; specialize (Hb j Hj Hv); lia].
Qed.
Lemma cut_l1_entry k : 0 <= k < 128 -> ptr cut_inode f3 (L1 k) = if dkeep then l1_new first v f k else 0.
Proof.
  intros Hk. cbn [ptr]. change (ci_dindirect cut_inode) with (if dkeep then Td else 0). destruct dkeep eqn:Ed; [|done]. destruct (decide (Td = 0)) as [E0|E0].
  - rewrite E0, entry_0. unfold l1_new, v. by rewrite E0.
  - unfold entry. destruct (Z.eqb_spec Td 0); [done|]. rewrite Hf3T by done. apply l1_new_num; [|done]. intros j Hj. unfold v. apply entry_range.
Qed.
Lemma cut_l1_zero k : 0 <= k < 128 -> ptr cut_inode f3 (L1 k) = l1_new first v f k.
Proof. intros Hk. rewrite cut_l1_entry by done. destruct dkeep eqn:Ed; [done|]. symmetry. by apply dind_kept_false. Qed.
Lemma cut_l2_entry k m : 0 <= k < 128 -> 0 <= m < 128 -> ptr cut_inode f3 (L2 k m) = if first <=? l1_base k + m then 0 else ptr x f (L2 k m).
Proof.
  intros Hk Hm. change (ptr cut_inode f3 (L2 k m)) with (entry f3 (ptr cut_inode f3 (L1 k)) m). rewrite cut_l1_zero by done. change (ptr x f (L2 k m)) with (entry f (v k) m). unfold l1_new. destruct (Z.eqb_spec (v k) 0) as [E0|E0].
  - rewrite E0, !entry_0. by case_match.
  - pose proof (Hf3v k Hk E0) as Hsec. unfold l1_sec in Hsec. unfold l1_kept. destruct (l1_skip first k) eqn:Esk; cbn [orb].
    + pose proof (l1_skip_le first k m Esk Hm). destruct (Z.leb_spec first (l1_base k + m)); [lia|]. by apply entry_eq.
    + destruct (any_ptr (zapped (l1_start first k) (f (DATA_LBA + v k)))) eqn:Eany; rewrite <- l1_start_le by lia; [by apply entry_zapped|].
      rewrite entry_0. destruct (Z.leb_spec (l1_start first k) m); [done|]. symmetry. by apply (entry_kept (l1_start first k) f (v k) m _ eq_refl E0 Hm Eany).
Qed.

Lemma cut_direct_entry i : valid (Direct i) -> ptr cut_inode f3 (Direct i) = if first <=? i then 0 else ptr x f (Direct i).
Proof.
  intros Hi. cbn [ptr]. change (ci_blocks cut_inode) with (zap 0 first (ci_blocks x)). cbn in Hi. change CATFS_DIRECT_BLOCKS with 16 in Hi. unfold aget. destruct (Z.ltb_spec i 0); [lia|]. rewrite zap0_lookup.
  destruct (ci_blocks x !! Z.to_nat i); cbn [fmap option_fmap option_map default]; [|by case_match]. by rewrite Z2Nat.id by lia.
Qed.
(** Every slot is dropped or kept as [cut_off] says. *)
Lemma cut_slots a : valid a -> (ptr cut_inode f3 a = 0 \/ ptr cut_inode f3 a = ptr x f a) /\ (ptr x f a <> 0 -> (ptr cut_inode f3 a = 0 <-> cut_off first x f a)).
Proof.
  intros Ha. destruct a as [i| |k| |k|k m].
  - rewrite cut_direct_entry by done. cbn [cut_off]. destruct (Z.leb_spec first i); [split; [by left|]; intros _; split; [intros _; lia|done]|]. split; [by right|]. intros Hn. split; [done|lia].
  - cbn [ptr cut_off]. change (ci_indirect cut_inode) with (if ikeep then Ti else 0). fold Ti. fold ikeep. destruct ikeep; [split; [by right|done]|]. split; [by left|done].
  - rewrite cut_ind_entry by done. cbn [cut_off]. destruct ikeep eqn:Ek.
    + destruct (Z.leb_spec first (CATFS_DIRECT_BLOCKS + k)); [split; [by left|]; intros _; split; [intros _; lia|done]|]. split; [by right|]. intros Hn. split; [done|lia].
    + split; [by left|]. intros Hn. split; [|done]. intros _. destruct (Z.leb_spec first (CATFS_DIRECT_BLOCKS + k)) as [|Hlt]; [done|]. exfalso. apply Hn. cbn [ptr]. fold Ti. destruct (decide (Ti = 0)) as [->|E0]; [done|].
      apply (entry_kept (ind_start first) f Ti k _ eq_refl E0 Ha Ek). pose proof (ind_start_le first k ltac:(cbn in Ha; lia)) as E. destruct (Z.leb_spec first (CATFS_DIRECT_BLOCKS + k)); [lia|]. by apply Z.leb_gt in E.
  - cbn [ptr cut_off]. change (ci_dindirect cut_inode) with (if dkeep then Td else 0). fold Td. change (fun k => entry f Td k) with v. fold dkeep. destruct dkeep; [split; [by right|done]|]. split; [by left|done].
  - rewrite cut_l1_zero by done. change (ptr x f (L1 k)) with (v k). cbn [cut_off]. change (ptr x f (L1 k)) with (v k). unfold l1_new. destruct (Z.eqb_spec (v k) 0) as [E0|E0]; [split; [by left|done]|].
    destruct (l1_kept first k (f (DATA_LBA + v k))); [split; [by right|done]|split; [by left|done]].
  - destruct Ha as [Hk Hm]. rewrite cut_l2_entry by done. cbn [cut_off]. destruct (Z.leb_spec first (l1_base k + m)); [split; [by left|]; intros _; split; [intros _; lia|done]|]. split; [by right|]. intros Hn. split; [done|lia].
Qed.
(** The blocks freed are those of the dropped slots. *)
Lemma cut_blocks b :
  ((False \/ (b <> 0 /\ exists i, first <= i /\ aget (ci_blocks x) i = Some b)) \/ (Ti <> 0 /\ ((b = Ti /\ ikeep = false) \/ (b <> 0 /\ exists m, 0 <= m < 128 /\ ind_start first <= m /\ entry f Ti m = b)))) \/
  (Td <> 0 /\ ((b = Td /\ dkeep = false) \/ exists k, 0 <= k < 128 /\ l1_freed first v f k b)) <-> b <> 0 /\ exists a, valid a /\ cut_off first x f a /\ ptr x f a = b.
Proof.
  pose proof (to_inode c idx x (fk_tables _ _ Hok) Hx) as Hxo. split.
  - intros [[[[]|(Hb & i & Hi & E)]|(HT & [[-> Hk]|(Hb & m & Hm & Hs & E)])]|(HT & [[-> Hk]|(k & Hk & Hv & Hskip & [[-> Hkept]|(Hb & m & Hm & Hs & E)])])].
    + split; [done|]. exists (Direct i). pose proof (aget_Some_range _ _ _ E) as Hr. rewrite (io_blocks x Hxo) in Hr. split; [exact Hr|]. split; [done|]. cbn. by rewrite E.
    + split; [done|]. exists Ind. done.
    + split; [done|]. exists (IndP m). split; [done|]. split; [|done]. cbn [cut_off]. apply Z.leb_le. rewrite <- ind_start_le by lia. by apply Z.leb_le.
    + split; [done|]. exists Dind. done.
    + split; [done|]. exists (L1 k). done.
    + split; [done|]. exists (L2 k m). split; [done|]. split; [|done]. cbn [cut_off]. apply Z.leb_le. rewrite <- l1_start_le by lia. by apply Z.leb_le.
  - intros (Hb & a & Ha & Hg & E). destruct a as [i| |k| |k|k m].
    + left. left. right. split; [done|]. exists i. split; [done|]. cbn in E. destruct (aget (ci_blocks x) i); cbn in E; congruence.
    + left. right. cbn [ptr] in E. fold Ti in E. split; [congruence|]. left. split; [done|]. exact Hg.
    + left. right. cbn [ptr] in E. fold Ti in E. split; [intros E0; rewrite E0 in E; by rewrite entry_0 in E|]. right. split; [done|]. exists k. split; [exact Ha|]. split; [|done]. cbn [cut_off] in Hg. cbn in Ha. apply Z.leb_le. rewrite ind_start_le by lia. by apply Z.leb_le.
    + right. cbn [ptr] in E. fold Td in E. split; [congruence|]. left. split; [done|]. exact Hg.
    + right. change (ptr x f (L1 k)) with (v k) in E. split; [intros E0; unfold v in E; rewrite E0 in E; by rewrite entry_0 in E|]. right. exists k. split; [exact Ha|]. cbn [cut_off] in Hg. change (ptr x f (L1 k)) with (v k) in Hg.
      split; [congruence|]. split; [by apply orb_false_iff in Hg as [? _]|]. left. split; [done|exact Hg].
    + right. change (ptr x f (L2 k m)) with (entry f (v k) m) in E. destruct Ha as [Hk Hm]. change CATFS_PTRS_PER_BLOCK with 128 in Hk, Hm. assert (Hv : v k <> 0) by (intros E0; rewrite E0 in E; by rewrite entry_0 in E). split; [intros E0; apply Hv; unfold v; by rewrite E0|].
      right. exists k. split; [done|]. cbn [cut_off] in Hg. split; [done|]. split; [destruct (l1_skip first k) eqn:Es; [pose proof (l1_skip_le first k m Es Hm); lia|done]|]. right. split; [done|]. exists m. split; [done|]. split; [|done]. apply Z.leb_le. rewrite l1_start_le by lia. by apply Z.leb_le.
Qed.
Lemma cut_inode_ok : inode_ok cut_inode.
Proof.
  pose proof (to_inode c idx x (fk_tables _ _ Hok) Hx) as Hxo. pose proof (own_range Ind I) as Hi. pose proof (own_range Dind I) as Hd. change CATFS_BLOCKS_MAX with 16384 in *. cbn [ptr] in Hi, Hd. fold Ti in Hi. fold Td in Hd.
  apply put_root_ok; [apply put_root_ok|]; [|destruct ikeep; [unfold u32_ok; lia|done]|destruct dkeep; [unfold u32_ok; lia|done]]. destruct Hxo. split; try done; cbn; [by rewrite zap_length|by apply zap_ok].
Qed.
Lemma cut_done_intro c' : shrinks idx x cut_inode (fun b => b <> 0 /\ exists a, valid a /\ cut_off first x f a /\ ptr x f a = b) c c' -> cut_done first idx x cut_inode c f c' f3.
Proof.
  intros Hs. split; [done|apply cut_meta|apply cut_inode_ok|intros a Ha; by apply cut_slots|intros a Ha; by apply cut_slots|].
  intros a Ha. rewrite Hf3o; [apply Hf2o|..]; [intros HT; by apply (Ha Ind)|intros HT; by apply (Ha Dind)|intros k Hk Hv; by apply (Ha (L1 k))].
Qed.
End FreeFrom.

Section Truncate.
Context {D H : Type} `{!Disk D} `{!DiskLaws D} `{!Allocator H}.
Implicit Types (c : catfs_state_t) (f : Z -> list byte).

Lemma spec_cut_direct idx first x c f : fs_ok c f -> aget (cf_inodes c) idx = Some x -> 0 <= first ->
  spec false (for_each (@free_direct D H idx) (seqZ first (CATFS_DIRECT_BLOCKS - first))) c f (fun _ c2 f2 => f2 = f /\
    shrinks idx x (direct_cut first x) (fun b => False \/ (b <> 0 /\ exists i, first <= i /\ aget (ci_blocks x) i = Some b)) c c2).
Proof.
  intros Hok Hx Hf. pose proof (fk_tables c f Hok) as Ht. pose proof (to_inode c idx x Ht Hx) as Hxo. destruct (decide (first <= CATFS_DIRECT_BLOCKS)) as [Hle|Hgt].
  - apply (spec_sh_direct (Z.to_nat (CATFS_DIRECT_BLOCKS - first)) idx x f c first x (fun _ => False) c); [lia|done|by apply shrinks_refl|done|].
    intros i w Hw. pose proof (aget_Some_range _ _ _ Hw) as Hr. rewrite (io_blocks x Hxo) in Hr. pose proof (own_range c f idx x Hok Hx (Direct i) Hr) as Ho. cbn in Ho. by rewrite Hw in Ho.
  - change CATFS_DIRECT_BLOCKS with 16 in *. rewrite seqZ_nil by lia. apply spec_ret. split; [done|]. assert (E : direct_cut first x = x).
    { unfold direct_cut. assert (zap 0 first (ci_blocks x) = ci_blocks x) as ->; [|by destruct x]. apply list_eq. intros k. rewrite zap0_lookup. destruct (ci_blocks x !! k) as [w|] eqn:E; [|done]. cbn [fmap option_fmap option_map].
      apply lookup_lt_Some in E. rewrite (io_blocks x Hxo) in E. destruct (Z.leb_spec first (Z.of_nat k)); [lia|done]. }
    rewrite E. eapply shrinks_ext; [|by apply shrinks_refl]. intros b. split; [done|]. intros [[]|(_ & i & Hi & Hb)]. apply aget_Some_range in Hb. rewrite (io_blocks x Hxo) in Hb. lia.
Qed.
Lemma spec_free_from idx first x c f : fs_ok c f -> aget (cf_inodes c) idx = Some x -> 0 <= first ->
  spec false (@free_blocks_from D H _ idx first) c f (fun r c' f' => r = 0 /\ exists x', cut_done first idx x x' c f c' f').
Proof.
  intros Hok Hx Hfirst. pose proof (fk_tables c f Hok) as Ht. pose proof (own_range c f idx x Hok Hx) as Hown. pose proof (own_inj c f idx x Hok Hx) as Hinj.
  unfold free_blocks_from. apply spec_seq. eapply spec_mono; [by apply (spec_cut_direct idx first x c f)|]. cbv beta. intros _ c1 ? [-> H1]. destruct (shrinks_now _ _ _ _ _ _ H1) as [Hn1 Hi].
  assert (Hx1 : inode_ok (direct_cut first x)) by (destruct (to_inode c idx x Ht Hx); split; try done; cbn; [by rewrite zap_length|by apply zap_ok]).
  apply spec_seq. apply spec_cinode; [|left; apply to_index; [apply H1|done]]. intros y Hy. rewrite Hn1 in Hy. injection Hy as <-.
  apply spec_seq. eapply spec_mono; [apply (spec_cut_ind idx first x (direct_cut first x) _ c c1 f H1 Hx1)|].
  { intros HT. specialize (Hown Ind I). change (ci_indirect (direct_cut first x)) with (ptr x f Ind) in *. lia. }
  { intros k Hk. apply (Hown (IndP k) Hk). }
  cbv beta zeta. change (ci_indirect (direct_cut first x)) with (ci_indirect x). intros ? c2 f2 (-> & Hf2T & Hf2o & H2). cbn [Z.ltb Z.compare]. set (x2 := put_root Ind _ (direct_cut first x)) in H2.
  assert (Hx2 : inode_ok x2) by (apply put_root_ok; [done|]; case_match; [apply (entry_range f 0 0) || (pose proof (Hown Ind I) as Ho; cbn in Ho; change CATFS_BLOCKS_MAX with 16384 in Ho; unfold u32_ok; lia)|done]).
  destruct (shrinks_now _ _ _ _ _ _ H2) as [Hn2 _]. apply spec_seq. apply spec_cinode; [|left; apply to_index; [apply H2|done]]. intros y Hy. rewrite Hn2 in Hy. injection Hy as <-.
  assert (Hapart : ci_indirect x <> 0 -> (ci_dindirect x <> 0 -> ci_dindirect x <> ci_indirect x) /\ (forall k, 0 <= k < 128 -> entry f (ci_dindirect x) k <> 0 -> entry f (ci_dindirect x) k <> ci_indirect x)).
  { intros HT. split; [intros HTd E; by pose proof (Hinj Dind Ind I I E HTd)|]. intros k Hk Hv E. by pose proof (Hinj (L1 k) Ind Hk I E Hv). }
  eapply spec_mono; [apply (spec_cut_dind idx first x x2 _ c c2 f f2 H2 Hx2)|]; change (ci_dindirect x2) with (ci_dindirect x).
  { intros HT. specialize (Hown Dind I). cbn in Hown. lia. }
  { intros k Hk. apply (Hown (L1 k) Hk). }
  { intros k m Hk Hm. apply (Hown (L2 k m) (conj Hk Hm)). }
  { intros j k Hj Hk E Hn. by injection (Hinj (L1 j) (L1 k) Hj Hk E Hn). }
  { intros k Hk Hn E. by pose proof (Hinj (L1 k) Dind Hk I E Hn). }
  { intros HT. apply Hf2o. intros HTi. destruct (Hapart HTi) as [Ha _]. specialize (Ha HT). lia. }
  { intros k Hk Hn. apply Hf2o. intros HTi. destruct (Hapart HTi) as [_ Ha]. specialize (Ha k Hk Hn). lia. }
  cbv beta zeta. intros ? c3 f3 (-> & Hf3T & Hf3v & Hf3o & H3). split; [done|]. exists (cut_inode f first x).
  apply (cut_done_intro c f idx first x Hok Hx f2 f3); try done. eapply shrinks_ext; [|exact H3]. intros b. apply (cut_blocks c f idx first x Hok Hx).
Qed.

Lemma ptr_frame y f f' : (forall p, is_table p = true -> valid p -> ptr y f p <> 0 -> f' (DATA_LBA + ptr y f p) = f (DATA_LBA + ptr y f p)) -> forall a, valid a -> ptr y f' a = ptr y f a.
Proof.
  intros Hf. assert (Hstep : forall a p k, above a = Some (p, k) -> valid a -> ptr y f' p = ptr y f p -> ptr y f' a = ptr y f a).
  { intros a p k Ha Hv E. destruct (above_valid a p k Ha Hv) as (Hpv & _ & Hpt). rewrite !(ptr_above _ _ a p k Ha), E. destruct (decide (ptr y f p = 0)) as [E0|E0]; [by rewrite E0|]. by apply entry_eq, Hf. }
  intros a Hv. destruct (above a) as [[p k]|] eqn:Ha; [|by destruct a]. destruct (above_valid a p k Ha Hv) as (Hvp & _ & _). apply (Hstep a p k Ha Hv). destruct (above p) as [[q m]|] eqn:Hp; [|by destruct p].
  apply (Hstep p q m Hp Hvp). by destruct a; cbn in Ha; simplify_eq; cbn in Hp; simplify_eq.
Qed.
(** After a cut: the pointers of the other files, the blocks that stay, the invariant. *)
Lemma cut_done_frame first idx x x' c f c' f' : fs_ok c f -> ci_type x <> CATFS_TYPE_FREE -> cut_done first idx x x' c f c' f' ->
  fs_ok c' f' /\ aget (cf_inodes c') idx = Some x' /\ (forall j, j <> idx -> aget (cf_inodes c') j = aget (cf_inodes c) j) /\ (forall j a, valid a -> j <> idx -> iptr c' f' j a = iptr c f j a) /\
  (forall j a, valid a -> is_table a = false -> iptr c f j a <> 0 -> f' (DATA_LBA + iptr c f j a) = f (DATA_LBA + iptr c f j a)) /\ (forall a, 0 <= a < DATA_LBA -> f' a = f a).
Proof.
  intros Hok Hty Hcd. pose proof (cd_shrinks _ _ _ _ _ _ _ _ Hcd) as Hs. pose proof (sh_inode _ _ _ _ _ _ Hs) as Hx. pose proof (aget_Some_range _ _ _ Hx) as Hr. destruct (shrinks_now _ _ _ _ _ _ Hs) as [Hx' Hi]. pose proof (fk_tables c f Hok) as Ht. pose proof (fk_tree c f Hok) as Hk.
  assert (Ein : cf_inodes c' = aset (cf_inodes c) idx x') by (rewrite (sh_eq _ _ _ _ _ _ Hs); done).
  assert (Hpx : forall a, iptr c f idx a = ptr x f a) by (intros; unfold iptr; by rewrite Hx). assert (Hpx' : forall a, iptr c' f' idx a = ptr x' f' a) by (intros; unfold iptr; by rewrite Hx').
  assert (Ho : forall j, j <> idx -> aget (cf_inodes c') j = aget (cf_inodes c) j) by (intros j Hj; rewrite Ein; by rewrite aget_aset_ne by congruence).
  assert (Hsec : forall j a, valid a -> iptr c f j a <> 0 -> (j <> idx \/ is_table a = false) -> f' (DATA_LBA + iptr c f j a) = f (DATA_LBA + iptr c f j a)).
  { intros j a Ha Hn Hja. apply (cd_sec _ _ _ _ _ _ _ _ Hcd). intros t Htv Htt Htn E. rewrite <- Hpx in E. destruct (tk_inj c f Hk j a idx t Ha Htv ltac:(lia) Hn) as [-> ->]. destruct Hja as [?|?]; congruence. }
  assert (Hoth : forall j a, valid a -> j <> idx -> iptr c' f' j a = iptr c f j a).
  { intros j a Ha Hj. unfold iptr. rewrite Ho by done. destruct (aget (cf_inodes c) j) as [y|] eqn:Hy; [|done]. apply ptr_frame; [|done]. intros p Hpt Hpv Hpn. pose proof (Hsec j p Hpv) as E. unfold iptr in E. rewrite Hy in E. apply E; [done|by left]. }
  split_and!; try done; [|by auto|].
  - split; [apply Hs| |].
    + apply (tree_drop c f c' f' idx (cut_off first x f)); [done|..].
      * intros j a Ha. destruct (decide (j = idx)) as [->|Hj]; [rewrite Hpx, Hpx'; by apply Hcd|right; by apply Hoth].
      * intros j a Ha Hn. destruct (decide (j = idx)) as [->|Hj]; [|rewrite Hoth by done; split; [done|intros [? _]; done]]. rewrite Hpx in Hn. rewrite Hpx'. rewrite (cd_gone _ _ _ _ _ _ _ _ Hcd a Ha Hn). split; [done|by intros [_ ?]].
      * intros b. rewrite (sh_marks _ _ _ _ _ _ Hs). split; (intros [? Hn]; split; [done|]); [intros (a & Ha & Hg & E & Hb); apply Hn; split; [done|]; exists a; by rewrite <- Hpx|intros (Hb & a & Ha & Hg & E); apply Hn; exists a; by rewrite Hpx].
    + intros j y Hy Hfr a Ha Hv. destruct (decide (j = idx)) as [->|Hj].
      * rewrite Hx' in Hy. injection Hy as <-. destruct (same_meta_fields _ _ (cd_meta _ _ _ _ _ _ _ _ Hcd)) as (E & _). congruence.
      * rewrite Ho in Hy by done. pose proof (fk_free c f Hok j y Hy Hfr a Ha Hv) as E. by destruct a.
  - intros a Ha. apply (cd_sec _ _ _ _ _ _ _ _ Hcd). intros t Htv Htt Htn E. rewrite <- Hpx in E, Htn. pose proof (tk_range c f idx t Ht Hk Htv Htn). lia.
Qed.

(** The number of blocks a file of [n] bytes has. *)
Definition blocks_for (n : Z) : Z := (n + CATFS_BLOCK_SIZE - 1) / CATFS_BLOCK_SIZE.
Record truncated (idx n : Z) (x : catfs_inode) c f c' f' : Prop := {
  tr_ok : fs_ok c' f'; tr_was : aget (cf_inodes c) idx = Some x /\ not_file x = false;
  tr_inode : exists x', aget (cf_inodes c') idx = Some x' /\ ci_size x' = n /\ ci_type x' = ci_type x /\ ci_name x' = ci_name x /\ ci_parent x' = ci_parent x;
  tr_others j : j <> idx -> aget (cf_inodes c') j = aget (cf_inodes c) j;
  tr_other_bytes j p : j <> idx -> byte_at c' f' j p = byte_at c f j p;
  tr_bytes p : 0 <= p -> n < ci_size x -> byte_at c' f' idx p = if p / CATFS_BLOCK_SIZE <? blocks_for n then byte_at c f idx p else None;
  tr_grow p : ci_size x <= n -> byte_at c' f' idx p = byte_at c f idx p;
  tr_drive : cf_disk_drive c' = cf_disk_drive c /\ cf_partition_offset c' = cf_partition_offset c;
  tr_head : jh_head (cf_jh c') = u32 (jh_head (cf_jh c) + 1);
  tr_synced : synced c f -> log_room c -> synced c' f' }.

Lemma gone_slot first x f n : 0 <= n -> cut_off first x f (slot_of n) <-> first <= n.
Proof.
  intros Hn. unfold slot_of. change CATFS_DIRECT_BLOCKS with 16. change CATFS_PTRS_PER_BLOCK with 128. destruct (Z.ltb_spec n 16); [done|]. destruct (Z.ltb_spec (n - 16) 128); cbn [cut_off]; unfold l1_base; change CATFS_DIRECT_BLOCKS with 16; change CATFS_PTRS_PER_BLOCK with 128;
    Z.to_euclidean_division_equations; lia.
Qed.
Lemma cut_done_bytes first idx x x' c f c' f' p : fs_ok c f -> ci_type x <> CATFS_TYPE_FREE -> cut_done first idx x x' c f c' f' -> 0 <= p ->
  byte_at c' f' idx p = if p / CATFS_BLOCK_SIZE <? first then byte_at c f idx p else None.
Proof.
  intros Hok Hty Hcd Hp. destruct (cut_done_frame first idx x x' c f c' f' Hok Hty Hcd) as (_ & Hx' & _ & _ & Hdata & _). pose proof (sh_inode _ _ _ _ _ _ (cd_shrinks _ _ _ _ _ _ _ _ Hcd)) as Hx.
  set (n := p / CATFS_BLOCK_SIZE). assert (Hn : 0 <= n) by (apply Z.div_pos; [done|done]).
  assert (Hfb : file_block c' f' idx n = if n <? first then file_block c f idx n else 0).
  { unfold file_block. destruct (Z.leb_spec 0 n); [|lia]. destruct (Z.ltb_spec n CATFS_MAX_FILE_BLOCKS) as [Hm|]; cbn [andb]; [|by case_match]. assert (Hv : valid (slot_of n)) by by apply slot_of_valid.
    unfold iptr. rewrite Hx', Hx. pose proof (cd_same _ _ _ _ _ _ _ _ Hcd _ Hv) as Hs. pose proof (cd_gone _ _ _ _ _ _ _ _ Hcd _ Hv) as Hg. rewrite gone_slot in Hg by done.
    destruct (decide (ptr x f (slot_of n) = 0)) as [E0|E0]; [rewrite E0 in *; destruct Hs as [->| ->]; by case_match|]. specialize (Hg E0). destruct (Z.ltb_spec n first); [destruct Hs as [Hs|Hs]; [apply Hg in Hs; lia|done]|by apply Hg]. }
  unfold byte_at. cbv zeta. fold n. rewrite Hfb. destruct (Z.ltb_spec n first); [|done]. destruct (Z.eqb_spec (file_block c f idx n) 0) as [|Hb]; [done|]. pose proof (file_block_nonzero c f idx n Hb) as Hr. rewrite file_block_slot in * by done.
  rewrite Hdata; [done|by apply slot_of_valid|apply slot_of_data|done].
Qed.

(** From the cut to the end of [catfs_truncate]. *)
Lemma truncated_intro idx n x x2 t log c f c2 f2 c' f' : fs_ok c f -> aget (cf_inodes c) idx = Some x -> not_file x = false -> u32_ok n -> u32_ok t ->
  let c1 := logged c in let f1 := fput f (log_lba (jh_head (cf_jh c))) log in
  (ci_size x <= n /\ c2 = c1 /\ f2 = f1 /\ x2 = x) \/ (n < ci_size x /\ cut_done (blocks_for n) idx x x2 c1 f1 c2 f2) ->
  data_done idx (sized x2 n t) c2 f2 c' f' -> truncated idx n x c f c' f'.
Proof.
  intros Hok Hx Hnf Hn Htt c1 f1 Hcut Dd. pose proof (fk_tables c f Hok) as Ht. destruct (fs_ok_logged c f log Hok) as (Hok1 & Hi1 & Hf1). fold c1 f1 in Hok1, Hi1, Hf1.
  assert (Hty : ci_type x <> CATFS_TYPE_FREE) by (intros E; unfold not_file in Hnf; by rewrite E in Hnf).
  pose proof (byte_at_low c f c1 f1 Ht (fk_tree _ _ Hok) Hf1 Hi1) as Hb1.
  assert (Hmid : fs_ok c2 f2 /\ aget (cf_inodes c2) idx = Some x2 /\ same_meta x x2 /\ (forall j, j <> idx -> aget (cf_inodes c2) j = aget (cf_inodes c) j) /\ (forall a, 0 <= a < DATA_LBA -> f2 a = f1 a) /\
    (forall j p, j <> idx -> byte_at c2 f2 j p = byte_at c f j p) /\ cf_jh c2 = cf_jh c1 /\ cf_disk_drive c2 = cf_disk_drive c /\ cf_partition_offset c2 = cf_partition_offset c).
  { destruct Hcut as [(_ & -> & -> & ->)|(_ & Hcd)]; [split_and!; try done; by destruct x|]. destruct (cut_done_frame _ _ _ _ _ _ _ _ Hok1 Hty Hcd) as (G1 & G2 & G3 & G4 & G5 & G6). pose proof (sh_eq _ _ _ _ _ _ (cd_shrinks _ _ _ _ _ _ _ _ Hcd)) as Ec.
    split_and!; try done; [apply Hcd| |by rewrite Ec..]. intros j p Hj. rewrite <- Hb1. apply byte_at_eq; [intros a Ha; by apply G4|]. intros m Hm. pose proof (file_block_nonzero _ _ j m Hm) as Hr. rewrite file_block_slot in * by done.
    apply G5; [by apply slot_of_valid|apply slot_of_data|done]. }
  destruct Hmid as (Hok2 & Hx2 & Hm & Ho & Hlow & Hoth & Ejh & Ed & Eo). destruct (same_meta_fields _ _ Hm) as (E1 & E2 & E3 & E4 & _). pose proof (aget_Some_range _ _ _ Hx2) as Hr2. pose proof (dd_inodes _ _ _ _ _ _ Dd) as Ein.
  destruct (fs_ok_meta c2 f2 c' f' idx x2 (sized x2 n t)) as [Hok' Hi']; try done; [apply Dd|apply (dd_bitmap _ _ _ _ _ _ Dd)|by left|apply (dd_low _ _ _ _ _ _ Dd)|].
  pose proof (byte_at_low c2 f2 c' f' (fk_tables _ _ Hok2) (fk_tree _ _ Hok2) (dd_low _ _ _ _ _ _ Dd) Hi') as Hb'. split; try done.
  - exists (sized x2 n t). rewrite Ein, aget_aset_eq by done. done.
  - intros j Hj. rewrite Ein, aget_aset_ne by congruence. by apply Ho.
  - intros j p Hj. rewrite Hb'. by apply Hoth.
  - intros p Hp Hlt. rewrite Hb'. destruct Hcut as [(? & _)|(_ & Hcd)]; [lia|]. rewrite (cut_done_bytes (blocks_for n) idx x x2 c1 f1 c2 f2 p Hok1 Hty Hcd Hp). by rewrite Hb1.
  - intros p Hge. rewrite Hb'. destruct Hcut as [(_ & -> & -> & _)|(? & _)]; [apply Hb1|lia].
  - destruct (dd_drive _ _ _ _ _ _ Dd) as [-> ->]. done.
  - rewrite (dd_head _ _ _ _ _ _ Dd), Ejh. done.
  - intros Hsy Hroom. apply (dd_synced _ _ _ _ _ _ Dd). destruct (log_lba_range _ (jh_head_nonneg c Ht)) as [Hlba Hl]. specialize (Hl Hroom).
    apply (others_frame idx c _ f); [done|by apply synced_others| |exact Ho]. intros a Ha. change INODE_TABLE_LBA with 10 in Ha. change BITMAP_LBA with 96 in Ha. rewrite Hlow by (change DATA_LBA with 100; lia). apply fput_other. lia.
Qed.
Lemma spec_truncate idx n c f : fs_ok c f -> 0 <= n -> n + CATFS_BLOCK_SIZE < 2 ^ 32 ->
  spec false (@catfs_truncate D H _ idx n) c f (fun r c' f' => (r = -1 /\ c' = c /\ f' = f) \/ (r = 0 /\ exists x, truncated idx n x c f c' f')).
Proof.
  intros Hok Hn0 Hn. pose proof (fk_tables c f Hok) as Ht. unfold catfs_truncate. apply (spec_file _ 0); [done|lia|intros _; by left|]. intros x Hi Hx. destruct (not_file x) eqn:Hnf; [apply spec_ret; by left|].
  assert (Hty : ci_type x <> CATFS_TYPE_FREE) by (intros E; unfold not_file in Hnf; by rewrite E in Hnf). change CATFS_BLOCK_SIZE with 512 in Hn. assert (Hnok : u32_ok n) by (unfold u32_ok; lia).
  spec_step. apply spec_journal_log; [done|]. intros Hl. cbn [Z.ltb Z.compare]. set (log := log_sector c f _ _ _ _). set (f1 := fput f _ log). destruct (fs_ok_logged c f log Hok) as (Hok1 & _ & _). fold f1 in Hok1.
  spec_step. eapply (spec_mono _ _ _ _ (fun r c2 f2 => r = 0 /\ exists x2, fs_ok c2 f2 /\ aget (cf_inodes c2) idx = Some x2 /\ same_meta x x2 /\
    ((ci_size x <= n /\ c2 = logged c /\ f2 = f1 /\ x2 = x) \/ (n < ci_size x /\ cut_done (blocks_for n) idx x x2 (logged c) f1 c2 f2)))).
  { destruct (Z.ltb_spec n (ci_size x)).
    - change CATFS_BLOCK_SIZE with 512. rewrite u32_small by lia. fold (blocks_for n). eapply spec_mono; [apply (spec_free_from idx (blocks_for n) x (logged c) f1 Hok1 Hx); unfold blocks_for; change CATFS_BLOCK_SIZE with 512; apply Z.div_pos; lia|].
      cbv beta. intros r c2 f2 (-> & x2 & Hcd). split; [done|]. exists x2. destruct (cut_done_frame _ _ _ _ _ _ _ _ Hok1 Hty Hcd) as (G1 & G2 & _). split_and!; [done|done|apply Hcd|by right].
    - apply spec_ret. split; [done|]. exists x. split_and!; [done|done|by destruct x|by left]. }
  cbv beta. intros ? c2 f2 (-> & x2 & Hok2 & Hx2 & Hm & Hcut). cbn [Z.ltb Z.compare]. pose proof (fk_tables _ _ Hok2) as Ht2. pose proof (aget_Some_range _ _ _ Hx2) as Hr2.
  spec_step. spec_step. spec_step. apply spec_upd_inode; [|by left]. intros y Hy. rewrite Hx2 in Hy. injection Hy as <-. change (x2 <| ci_size := n |> <| ci_mtime := t |>) with (sized x2 n t).
  assert (Hso : inode_ok (sized x2 n t)) by (apply sized_ok; [by eapply to_inode|done|done]). assert (Ht3 : tables_ok (put_inode c2 idx (sized x2 n t))) by by apply tables_put_inode.
  spec_step. apply (spec_sync_inode false idx (sized x2 n t)); [done|cbn; by apply aget_aset_eq|]. intros Hl2. cbn [Z.ltb Z.compare]. spec_step. apply spec_sync_superblock; [done|]. cbn [Z.ltb Z.compare].
  spec_step. apply spec_sync_bitmap; [done|]. intros f3 Hf3. cbn [Z.ltb Z.compare]. apply spec_journal_commit; [done|]. right. split; [done|]. exists x.
  eapply (truncated_intro idx n x x2 t log c f c2 f2); try done. assert (E : put_inode c2 idx (sized x2 n t) = (put_inode c2 idx (sized x2 n t)) <| cf_sb := cf_sb c2 |>) by by destruct c2. rewrite E.
  apply (data_done_intro idx x2 (sized x2 n t) (cf_sb c2) c2 f2 f3); try done; [by apply same_super_refl, Ht2|]. left. rewrite <- E. exact Hf3.
Qed.
End Truncate.
