(* ===== verification/CatfsMount.v ===== *)
(** * CatFS: format, sync and mount

    [catfs_sync] writes every table; [catfs_format_at] leaves an empty filesystem whose tables are on
    the disk; [catfs_mount_at] reads back the tables that are on the disk, whatever memory held
    before. *)

From S2P Require Import Prelude Cstring Alloc Elf NativeApp Catfs CatfsOps CatfsNames CatfsInv CatfsTree CatfsIo CatfsSync CatfsFree.

(** ** Tables in sectors *)

(** Structures of [n] bytes one after the other: the one at [k]. *)
Lemma part_bind {A} (g : A -> list byte) n l : 0 <= n -> Forall (fun x => zlen (g x) = n) l ->
  forall k x r, l !! k = Some x -> part ((l ≫= g) ++ r) (Z.of_nat k * n) n = g x.
Proof.
  intros Hn. induction 1 as [|y l Hy Hl IH]; intros k x r Hk; [done|]. change ((y :: l) ≫= g) with (g y ++ (l ≫= g)). rewrite <- app_assoc. destruct k as [|k].
  - cbn in Hk. injection Hk as ->. apply part_here. done.
  - rewrite part_skip by nia. replace (Z.of_nat (S k) * n - zlen (g y)) with (Z.of_nat k * n) by lia. by apply IH.
Qed.
Lemma bind_zlen {A} (g : A -> list byte) n l : Forall (fun x => zlen (g x) = n) l -> zlen (l ≫= g) = n * zlen l.
Proof. induction 1 as [|y l Hy Hl IH]; [cbn; lia|]. change ((y :: l) ≫= g) with (g y ++ (l ≫= g)). rewrite length_app. cbn [length]. lia. Qed.
Lemma inodes_length l : Forall inode_ok l -> Forall (fun x => zlen (inode_bytes x) = 151) l.
Proof. apply Forall_impl. intros x. apply inode_bytes_length. Qed.

Lemma inode_sector_part l i x : Forall inode_ok l -> aget l i = Some x -> part (inode_sector l (i / 3)) (i mod 3 * 151) 151 = inode_bytes x.
Proof.
  intros Hl Hx. pose proof (aget_Some_range _ _ _ Hx) as Hr. unfold inode_sector. cbv zeta. change INODES_PER_SECTOR with 3. pose proof (Z.mod_pos_bound i 3 ltac:(lia)) as Hm.
  rewrite <- (Z2Nat.id (i mod 3)) by lia. apply part_bind; [lia|by apply Forall_take, Forall_drop, inodes_length|].
  rewrite lookup_take, decide_True by lia. rewrite lookup_drop. unfold aget in Hx. destruct (Z.ltb_spec i 0); [done|]. rewrite <- Hx. f_equal. pose proof (Z.div_mod i 3). pose proof (Z.div_pos i 3). lia.
Qed.
Lemma inode_sector_length l s : Forall inode_ok l -> length (inode_sector l s) = 512%nat.
Proof.
  intros Hl. unfold inode_sector. cbv zeta. change INODES_PER_SECTOR with 3. change SECTOR_SIZE with 512. set (t := take _ (drop _ l)).
  assert (Ht : zlen (t ≫= inode_bytes) = 151 * zlen t) by (by apply bind_zlen, inodes_length, Forall_take, Forall_drop). assert (zlen t <= 3) by (unfold t; rewrite length_take; lia).
  rewrite length_app. set (u := t ≫= inode_bytes) in *. assert (Hu : 0 <= 512 - zlen u) by lia. pose proof (zeros_zlen _ Hu). lia.
Qed.

Lemma load_inodes_length l s sec : length l = 256%nat -> 0 <= s < INODE_SECTORS -> length (load_inodes l s sec) = 256%nat.
Proof.
  intros Hl Hs. change INODE_SECTORS with 86 in Hs. unfold load_inodes. cbv zeta. change INODES_PER_SECTOR with 3. change CATFS_INODE_MAX with 256.
  rewrite !length_app, length_fmap, length_seqZ, length_take, length_drop. lia.
Qed.
Lemma load_inodes_get l s sec i : length l = 256%nat -> 0 <= s < INODE_SECTORS -> 0 <= i < 256 ->
  aget (load_inodes l s sec) i = if decide (i / 3 = s) then Some (inode_of (part sec (i mod 3 * 151) 151)) else aget l i.
Proof.
  intros Hl Hs Hi. change INODE_SECTORS with 86 in Hs. unfold load_inodes, aget. cbv zeta. change INODES_PER_SECTOR with 3. change CATFS_INODE_MAX with 256. change sizeof_cinode with 151.
  destruct (Z.ltb_spec i 0); [lia|]. pose proof (Z.div_mod i 3 ltac:(lia)) as Hd. pose proof (Z.mod_pos_bound i 3 ltac:(lia)) as Hm. set (n := Z.min 3 (256 - s * 3)).
  assert (Ht : length (take (Z.to_nat (s * 3)) l) = Z.to_nat (s * 3)) by (rewrite length_take; lia). case_decide as Hc.
  - rewrite lookup_app_r by lia. rewrite lookup_app_l by (rewrite length_fmap, length_seqZ; lia). rewrite Ht, list_lookup_fmap, lookup_seqZ_lt by lia. cbn [fmap option_fmap option_map]. do 3 f_equal. lia.
  - destruct (decide (i < s * 3)) as [Hlt|Hge].
    + rewrite lookup_app_l by lia. rewrite lookup_take. by rewrite decide_True by lia.
    + rewrite lookup_app_r by lia. rewrite lookup_app_r by (rewrite length_fmap, length_seqZ; lia). rewrite length_fmap, length_seqZ, lookup_drop, Ht. f_equal. lia.
Qed.
Lemma load_bitmap_length bm s sec : length bm = 2048%nat -> 0 <= s < BITMAP_SECTORS -> length sec = 512%nat -> length (load_bitmap bm s sec) = 2048%nat.
Proof.
  intros Hl Hs Hsec. change BITMAP_SECTORS with 4 in Hs. unfold load_bitmap. cbv zeta. change SECTOR_SIZE with 512. change (CATFS_BLOCKS_MAX / 8) with 2048.
  rewrite !length_app, length_fmap, !length_take, length_drop. lia.
Qed.
Lemma load_bitmap_get bm s sec i : length bm = 2048%nat -> 0 <= s < BITMAP_SECTORS -> length sec = 512%nat -> 0 <= i < 2048 ->
  aget (load_bitmap bm s sec) i = if decide (i / 512 = s) then bz <$> sec !! Z.to_nat (i mod 512) else aget bm i.
Proof.
  intros Hl Hs Hsec Hi. change BITMAP_SECTORS with 4 in Hs. unfold load_bitmap, aget. cbv zeta. change SECTOR_SIZE with 512. change (CATFS_BLOCKS_MAX / 8) with 2048.
  destruct (Z.ltb_spec i 0); [lia|]. pose proof (Z.div_mod i 512 ltac:(lia)) as Hd. pose proof (Z.mod_pos_bound i 512 ltac:(lia)) as Hm. replace (Z.min 512 (2048 - s * 512)) with 512 by lia.
  assert (Ht : length (take (Z.to_nat (s * 512)) bm) = Z.to_nat (s * 512)) by (rewrite length_take; lia). assert (Hn : length (bz <$> take (Z.to_nat 512) sec) = 512%nat) by (rewrite length_fmap, length_take; lia). case_decide as Hc.
  - rewrite lookup_app_r by lia. rewrite lookup_app_l by lia. rewrite Ht, list_lookup_fmap, lookup_take, decide_True by lia. do 2 f_equal. lia.
  - destruct (decide (i < s * 512)) as [Hlt|Hge].
    + rewrite lookup_app_l by lia. rewrite lookup_take. by rewrite decide_True by lia.
    + rewrite lookup_app_r by lia. rewrite lookup_app_r by lia. rewrite Hn, lookup_drop, Ht. f_equal. lia.
Qed.
Lemma bm_sector_get c i : bm_ok (cf_bitmap c) -> 0 <= i < 2048 -> bz <$> bm_sector c (i / 512) !! Z.to_nat (i mod 512) = aget (cf_bitmap c) i.
Proof.
  intros [Hl Hf] Hi. unfold bm_sector. change SECTOR_SIZE with 512. pose proof (Z.div_mod i 512 ltac:(lia)) as Hd. pose proof (Z.mod_pos_bound i 512 ltac:(lia)) as Hm. pose proof (Z.div_pos i 512).
  rewrite lookup_part, decide_True by lia. rewrite list_lookup_fmap. unfold aget. destruct (Z.ltb_spec i 0); [lia|]. replace (Z.to_nat (i / 512 * 512) + Z.to_nat (i mod 512))%nat with (Z.to_nat i) by lia.
  destruct (cf_bitmap c !! Z.to_nat i) as [v|] eqn:E; [|done]. cbn. f_equal. apply bz_zb. exact (proj1 (list.Forall_lookup _ _) Hf _ _ E).
Qed.

(** ** Sync *)

Definition cleaned (c : catfs_state_t) : catfs_state_t :=
  c <| cf_sb := (cf_sb c) <| sb_clean_unmount := 1 |> |> <| cf_jh := (cf_jh c) <| jh_magic := CATFS_MAGIC |> |>.
Definition with_clean (v : Z) (c : catfs_state_t) : catfs_state_t := c <| cf_sb := (cf_sb c) <| sb_clean_unmount := v |> |>.
Lemma super_ok_clean s v : super_ok s -> u32_ok v -> super_ok (s <| sb_clean_unmount := v |>).
Proof.
  intros [Hn Hl Hp] Hv. rewrite !list.Forall_cons in Hn. destruct Hn as (?&?&?&?&?&?&?&?&?&?&?&_). split; cbn; try done. repeat (apply list.Forall_cons_2; [done|]). apply list.Forall_nil_2.
Qed.
Lemma tables_clean v c : tables_ok c -> u32_ok v -> tables_ok (with_clean v c).
Proof. intros Ht Hv. pose proof (super_ok_clean _ v (to_sb c Ht) Hv). by destruct Ht. Qed.
Lemma tables_cleaned c : tables_ok c -> tables_ok (cleaned c).
Proof.
  intros Ht. pose proof (super_ok_clean _ 1 (to_sb c Ht) ltac:(done)). destruct Ht. split; try done; cbn. destruct to_jh as [Hn Hp]. rewrite !list.Forall_cons in Hn. destruct Hn as (?&?&?&_).
  split; cbn; [|done]. repeat (apply list.Forall_cons_2; [done|]). apply list.Forall_nil_2.
Qed.

Section Sync.
Context {D H : Type} `{!Disk D} `{!DiskLaws D} `{!Allocator H}.
Implicit Types (c : catfs_state_t) (f : Z -> list byte) (b : bool).

Lemma spec_sync_inodes b c f : tables_ok c ->
  spec b (each_sector (fun s => let* l := fs cf_inodes in @dsk_write D H _ (INODE_TABLE_LBA + s) (inode_sector l s)) (seqZ 0 INODE_SECTORS)) c f
    (fun r c' f' => r = 0 /\ c' = c /\ forall a, f' a = if decide (INODE_TABLE_LBA <= a < BITMAP_LBA) then inode_sector (cf_inodes c) (a - INODE_TABLE_LBA) else f a).
Proof.
  intros Ht. eapply spec_mono; [apply (spec_each_sector b _ (fun pre c' f' => c' = c /\ forall a, f' a = if decide (a - INODE_TABLE_LBA ∈ pre) then inode_sector (cf_inodes c) (a - INODE_TABLE_LBA) else f a))|].
  - split; [done|]. intros a. rewrite decide_False; [done|]. apply not_elem_of_nil.
  - intros pre s c' f' Hpre [-> Hf']. apply prefix_seqZ in Hpre as [Hs Hin]; [|done]. change INODE_SECTORS with 86 in Hs. spec_step. spec_step.
    apply spec_write; [apply low_range; change INODE_TABLE_LBA with 10; change DATA_LBA with 100; lia|apply inode_sector_length, Ht|].
    split; [done|]. split; [done|]. intros a. unfold fput. destruct (Z.eqb_spec a (INODE_TABLE_LBA + s)) as [->|Hne].
    + replace (INODE_TABLE_LBA + s - INODE_TABLE_LBA) with s by lia. rewrite decide_True; [done|]. set_solver.
    + rewrite Hf'. apply decide_ext. rewrite elem_of_app, list_elem_of_singleton. split; [by left|]. intros [?|?]; [done|lia].
  - cbv beta. intros r c' f' (-> & -> & Hf'). split_and!; [done|done|]. intros a. rewrite Hf'. apply decide_ext. rewrite elem_of_seqZ. change INODE_SECTORS with 86. change INODE_TABLE_LBA with 10. change BITMAP_LBA with 96. lia.
Qed.
Lemma spec_sync b c f : tables_ok c -> spec b (@catfs_sync D H _) c f (fun r c' f' => r = 0 /\ c' = cleaned c /\ synced c' f' /\ low_frame f f').
Proof.
  intros Ht. unfold catfs_sync. spec_step. spec_step. rewrite (to_mounted c Ht). cbn [Z.eqb]. spec_step. apply spec_sync_superblock; [done|]. cbn [Z.ltb Z.compare].
  spec_step. eapply spec_mono; [by apply spec_sync_inodes|]. cbv beta. intros r c1 f1 (-> & -> & Hf1). cbn [Z.ltb Z.compare].
  spec_step. change (sync_bitmap_region 0 (CATFS_BLOCKS_MAX - 1)) with (@sync_bitmap D H _). apply spec_sync_bitmap; [done|]. intros f2 Hf2. cbn [Z.ltb Z.compare]. spec_step. spec_step.
  assert (Ht1 : tables_ok (with_clean 1 c)) by by apply tables_clean. spec_step. apply spec_sync_superblock; [exact Ht1|]. cbn [Z.ltb Z.compare].
  unfold journal_flush_header, upd_jh. spec_step. spec_step. spec_step. spec_step. apply spec_write; [by apply low_range|apply jh_bytes_length, (tables_cleaned c Ht)|].
  split_and!; [done|done| |].
  - split; [by rewrite fput_other, fput_same|by rewrite fput_same|..].
    + intros i x Hx. cbn in Hx. destruct (inode_lba c i x Ht Hx) as [Hil Hir]. rewrite !fput_other by (change SB_LBA with 0; change JOURNAL_HDR_LBA with 1; change INODE_TABLE_LBA with 10 in *; lia).
      rewrite Hf2, decide_False by lia. rewrite Hf1, decide_True by lia. replace (INODE_TABLE_LBA + i / 3 - INODE_TABLE_LBA) with (i / 3) by lia.
      exists (ci_atime x). pose proof (to_inode c i x Ht Hx) as [_ _ _ _ Hn _ _]. rewrite !list.Forall_cons in Hn. destruct Hn as (_&_&_&Hn&_). split; [done|].
      replace (x <| ci_atime := ci_atime x |>) with x by by destruct x. by apply inode_sector_part; [apply Ht|].
    + intros s Hs. change BITMAP_SECTORS with 4 in Hs. rewrite !fput_other by (change SB_LBA with 0; change JOURNAL_HDR_LBA with 1; change BITMAP_LBA with 96; lia).
      rewrite Hf2, decide_True by (change BITMAP_LBA with 96; change DATA_LBA with 100; lia). by replace (BITMAP_LBA + s - BITMAP_LBA) with s by lia.
  - intros a Ha. change DATA_LBA with 100 in Ha. rewrite !fput_other by (change SB_LBA with 0; change JOURNAL_HDR_LBA with 1; lia).
    rewrite Hf2, decide_False by (change DATA_LBA with 100; lia). rewrite Hf1, decide_False by (change BITMAP_LBA with 96; lia). by rewrite fput_other by (change SB_LBA with 0; lia).
Qed.
End Sync.

(** ** Mount *)

(** The tables [c'] are those of [c], the times of last access and the mark of a clean unmount
    excepted. *)
Record recovered (c c' : catfs_state_t) : Prop := {
  rc_sb : cf_sb c' = (cf_sb c) <| sb_clean_unmount := sb_clean_unmount (cf_sb c') |>; rc_jh : cf_jh c' = cf_jh c; rc_bitmap : cf_bitmap c' = cf_bitmap c;
  rc_len : length (cf_inodes c') = length (cf_inodes c);
  rc_inode i x : aget (cf_inodes c) i = Some x -> exists t, u32_ok t /\ aget (cf_inodes c') i = Some (x <| ci_atime := t |>) }.

Section Mount.
Context {D H : Type} `{!Disk D} `{!DiskLaws D} `{!Allocator H}.
Implicit Types (c : catfs_state_t) (f : Z -> list byte) (b : bool).

Lemma spec_load_sector b lba put c f (Q : Z -> _ -> _ -> Prop) : 0 <= lba < SECTORS -> (forall sec, cf_disk_drive (put sec c) = cf_disk_drive c /\ cf_partition_offset (put sec c) = cf_partition_offset c) ->
  (length (f lba) = 512%nat -> Q 0 (put (f lba) c) f) -> spec b (@load_sector D H _ lba put) c f Q.
Proof.
  intros Hl Hp HQ. unfold load_sector. spec_step. apply spec_read; [done|]. intros Hlen. spec_step. apply spec_upd; [apply Hp|apply Hp|]. spec_step. by apply HQ.
Qed.
Lemma spec_load_inodes b base c f : base = INODE_TABLE_LBA -> length (cf_inodes c) = 256%nat ->
  spec b (each_sector (fun s => @load_sector D H _ (u32 (base + s)) (fun sec c => c <| cf_inodes := load_inodes (cf_inodes c) s sec |>)) (seqZ 0 INODE_SECTORS)) c f
    (fun r c' f' => r = 0 /\ f' = f /\ c' = c <| cf_inodes := cf_inodes c' |> /\ length (cf_inodes c') = 256%nat /\
      forall i, 0 <= i < 256 -> aget (cf_inodes c') i = Some (inode_of (part (f (INODE_TABLE_LBA + i / 3)) (i mod 3 * 151) 151))).
Proof.
  intros -> Hl. eapply spec_mono; [apply (spec_each_sector b _ (fun pre c' f' => f' = f /\ c' = c <| cf_inodes := cf_inodes c' |> /\ length (cf_inodes c') = 256%nat /\
    forall i, 0 <= i < 256 -> i / 3 ∈ pre -> aget (cf_inodes c') i = Some (inode_of (part (f (INODE_TABLE_LBA + i / 3)) (i mod 3 * 151) 151))))|].
  - split_and!; [done|by destruct c|done|]. intros i _ ?%not_elem_of_nil. done.
  - intros pre s c' f' Hpre (-> & Hc & Hlen & Hi). apply prefix_seqZ in Hpre as [Hs Hin]; [|done]. assert (Hs' : 0 <= s < 86) by exact Hs.
    rewrite u32_small by (change INODE_TABLE_LBA with 10; lia). apply spec_load_sector; [apply low_range; change INODE_TABLE_LBA with 10; change DATA_LBA with 100; lia|done|]. intros Hsl.
    split_and!; [done|done|cbn; rewrite Hc; by destruct c|cbn; by apply load_inodes_length|]. intros i Hir Hip. cbn. rewrite load_inodes_get by done. case_decide as Hd; [by rewrite Hd|].
    apply Hi; [done|]. apply elem_of_app in Hip as [?|Hip]; [done|]. by apply list_elem_of_singleton in Hip.
  - cbv beta. intros r c' f' (-> & -> & Hc & Hlen & Hi). split_and!; try done. intros i Hir. apply Hi; [done|]. apply elem_of_seqZ. change INODE_SECTORS with 86. Z.to_euclidean_division_equations; lia.
Qed.
Lemma spec_load_bitmap b base c f g : base = BITMAP_LBA -> length (cf_bitmap c) = 2048%nat -> bm_ok (cf_bitmap g) -> (forall s, 0 <= s < BITMAP_SECTORS -> f (BITMAP_LBA + s) = bm_sector g s) ->
  spec b (each_sector (fun s => @load_sector D H _ (u32 (base + s)) (fun sec c => c <| cf_bitmap := load_bitmap (cf_bitmap c) s sec |>)) (seqZ 0 BITMAP_SECTORS)) c f
    (fun r c' f' => r = 0 /\ f' = f /\ c' = c <| cf_bitmap := cf_bitmap g |>).
Proof.
  intros -> Hl Hg Hf. eapply spec_mono; [apply (spec_each_sector b _ (fun pre c' f' => f' = f /\ c' = c <| cf_bitmap := cf_bitmap c' |> /\ length (cf_bitmap c') = 2048%nat /\
    forall i, 0 <= i < 2048 -> i / 512 ∈ pre -> aget (cf_bitmap c') i = aget (cf_bitmap g) i))|].
  - split_and!; [done|by destruct c|done|]. intros i _ ?%not_elem_of_nil. done.
  - intros pre s c' f' Hpre (-> & Hc & Hlen & Hi). apply prefix_seqZ in Hpre as [Hs Hin]; [|done]. assert (Hs' : 0 <= s < 4) by exact Hs.
    rewrite u32_small by (change BITMAP_LBA with 96; lia). apply spec_load_sector; [apply low_range; change BITMAP_LBA with 96; change DATA_LBA with 100; lia|done|]. intros Hsl.
    split_and!; [done|done|cbn; rewrite Hc; by destruct c|cbn; by apply load_bitmap_length|]. intros i Hir Hip. cbn. rewrite load_bitmap_get by done. case_decide as Hd; [rewrite (Hf s Hs), <- Hd; by apply bm_sector_get|].
    apply Hi; [done|]. apply elem_of_app in Hip as [?|Hip]; [done|]. by apply list_elem_of_singleton in Hip.
  - cbv beta. intros r c' f' (-> & -> & Hc & Hlen & Hi). split_and!; [done|done|]. rewrite Hc. f_equal. apply list_eq. intros i. destruct (decide (i < 2048)%nat) as [Hlt|Hge].
    + specialize (Hi (Z.of_nat i) ltac:(lia)). rewrite !aget_of_nat in Hi. apply Hi. apply elem_of_seqZ. change BITMAP_SECTORS with 4. Z.to_euclidean_division_equations; lia.
    + rewrite !lookup_ge_None_2; [done|rewrite (proj1 Hg); lia|lia].
Qed.
Lemma spec_torn b l : forall n c f, Forall (fun x => 0 <= x) l -> spec b (@torn_loop D H _ l n) c f (fun _ c' f' => c' = c /\ f' = f).
Proof.
  induction l as [|x l IH]; intros n c f Hl; cbn [torn_loop]; [by apply spec_ret|]. apply list.Forall_cons in Hl as [Hx Hl]. spec_step. change (SECTOR_SIZE / sizeof_rec) with 25. fold (log_lba x).
  destruct (log_lba_range x Hx) as [Hr _]. apply spec_read; [apply low_range; change DATA_LBA with 100; lia|]. intros _. by apply IH.
Qed.
End Mount.

Section MountAt.
Context {D H : Type} `{!Disk D} `{!DiskLaws D} `{!Allocator H}.
Implicit Types (s : cstate D H) (c : catfs_state_t) (f : Z -> list byte) (b : bool).

(** A drive that is ready is present, and stays as it is. *)
Definition attached s (drive off : Z) f : Prop :=
  disk_ready (c_disk s) drive (off + SECTORS) /\ 0 <= off /\ off + SECTORS <= 2 ^ 32 /\ 0 <= c_ticks s < 2 ^ 32 /\ (forall a, 0 <= a < SECTORS -> sector (c_disk s) drive (off + a) = f a).
Lemma rep_attached s c f : rep s c f -> attached s (cf_disk_drive c) (cf_partition_offset c) f.
Proof. by intros [? ? ? [? ?] ?]. Qed.
(** Past the test of the drive, with the drive and offset put in memory. *)
Lemma wp_attach {A} drive off g (k : M (cstate D H) A) bad s f Q : attached s drive off f -> cf_disk_drive (g (c_fs s)) = drive -> cf_partition_offset (g (c_fs s)) = off ->
  spec false k (g (c_fs s)) f Q -> wp (let* absent := no_drive drive in if absent then bad else do* upd_fs g in k) s (fun r s' => exists c' f', rep s' c' f' /\ Q r c' f').
Proof.
  intros (Hr & Ho & Hb & Ht & Hs) Hd Hof Hk. destruct (present_law _ _ _ Hr) as [Hpos Hp]. unfold wp, bind, no_drive. destruct (Z.ltb_spec drive 0); [lia|].
  unfold bind, on_disk, zoom. unfold wp in Hp. destruct (drive_present drive (c_disk s)) as [[p d']|]; [|done]. destruct Hp as (-> & Hsame & Hready). cbn [negb ret].
  unfold ret, upd_fs, modify. cbv beta. cbn [negb].
  assert (Hrep : rep (s <| c_disk := d' |> <| c_fs := g (c_fs s) |>) (g (c_fs s)) f).
  { split; cbn; rewrite ?Hd, ?Hof; [done|intros a Ha; by rewrite Hsame, Hs|by apply Hready|done|done]. }
  specialize (Hk _ Hrep). change (c_fs (s <| c_disk := d' |>)) with (c_fs s). destruct (k _) as [[r s']|]; [done|by specialize (Hk eq_refl) || discriminate].
Qed.

Lemma mounted_tables c x ino : tables_ok c -> recovered c x -> cf_inodes x = ino -> u32_ok (cf_next_seq x) -> cf_mounted x = 1 -> u32_ok (sb_clean_unmount (cf_sb x)) -> tables_ok x.
Proof.
  intros Ht Hr <- Hseq Hm Hv. pose proof (super_ok_clean _ _ (to_sb c Ht) Hv) as Hsb. rewrite <- (rc_sb _ _ Hr) in Hsb.
  assert (Hf : forall g : catfs_super -> Z, (forall v (sb : catfs_super), g (sb <| sb_clean_unmount := v |>) = g sb) -> g (cf_sb x) = g (cf_sb c)) by (intros g Hg; rewrite (rc_sb _ _ Hr); apply Hg).
  split; try done; [rewrite (rc_jh _ _ Hr); apply Ht|rewrite (rc_len _ _ Hr); apply Ht| |rewrite (rc_bitmap _ _ Hr); apply Ht|rewrite (Hf sb_magic) by done; apply Ht|rewrite (Hf sb_data_start_lba) by done; apply Ht
    |rewrite (Hf sb_bitmap_lba) by done; apply Ht|rewrite (Hf sb_inode_table_lba) by done; apply Ht].
  apply list.Forall_lookup. intros i y Hy. assert (Hi : 0 <= Z.of_nat i < zlen (cf_inodes c)) by (apply lookup_lt_Some in Hy; rewrite (rc_len _ _ Hr) in Hy; lia).
  destruct (aget_is_Some _ _ Hi) as [z Hz]. destruct (rc_inode _ _ Hr _ z Hz) as (t & Htt & E). rewrite aget_of_nat, Hy in E. injection E as ->. destruct (to_inode c _ z Ht Hz) as [? ? ? ? Hn ? ?].
  rewrite !list.Forall_cons in Hn. destruct Hn as (?&?&?&?&?&?&_). split; cbn; try done. repeat (apply list.Forall_cons_2; [done|]). apply list.Forall_nil_2.
Qed.

(** Memory that holds tables of the right size, whatever is in them. *)
Definition tables_sized c : Prop := length (cf_inodes c) = 256%nat /\ length (cf_bitmap c) = 2048%nat.
(** What a mount of the tables [c] leaves. *)
Record mounted drive off c f c' f' : Prop := {
  mt_tables : tables_ok c'; mt_recovered : recovered c c'; mt_drive : cf_disk_drive c' = drive /\ cf_partition_offset c' = off;
  mt_disk : f' = fput f SB_LBA (super_bytes (cf_sb c')); mt_dirty : sb_clean_unmount (cf_sb c') = 0; mt_seq : cf_next_seq c' = jh_committed_seq (cf_jh c) }.

Lemma mount_recovers drive off c f s : attached s drive off f -> tables_sized (c_fs s) -> tables_ok c -> synced c f ->
  wp (catfs_mount_at drive off) s (fun r s' => exists c' f', rep s' c' f' /\ r = 0 /\ mounted drive off c f c' f').
Proof.
  intros Ha [Hi Hb] Ht Hs. apply (wp_attach drive off _ _ (ret (-1)) s f (fun r c' f' => r = 0 /\ mounted drive off c f c' f')); [done|done|done|].
  spec_step. apply spec_load_sector; [by apply low_range|done|]. intros _. rewrite (sy_sb c f Hs), super_round by apply Ht. cbn [Z.ltb Z.compare]. spec_step. spec_step. change (sb_magic _ =? CATFS_MAGIC) with (sb_magic (cf_sb c) =? CATFS_MAGIC). rewrite (to_magic c Ht), Z.eqb_refl. cbn [negb].
  spec_step. apply spec_load_sector; [by apply low_range|done|]. intros _. rewrite (sy_jh c f Hs), jh_round by apply Ht. cbn [Z.ltb Z.compare].
  set (c1 := _ <| cf_jh := cf_jh c |>). spec_step. eapply spec_mono; [apply spec_load_inodes; [apply Ht|done]|]. cbv beta. intros ? c2 ? (-> & -> & Ec2 & Hl2 & Hino). cbn [Z.ltb Z.compare].
  spec_step. eapply spec_mono; [apply (spec_load_bitmap false _ c2 f c); [apply Ht|rewrite Ec2; done|apply Ht|apply Hs]|]. cbv beta. intros ? c3 ? (-> & -> & Ec3). cbn [Z.ltb Z.compare].
  spec_step. spec_step. spec_step. spec_step. set (c4 := c3 <| cf_next_seq := _ |> <| cf_sb := _ |>).
  assert (Ej : cf_jh c3 = cf_jh c) by (rewrite Ec3, Ec2; done). assert (Es : cf_sb c3 = cf_sb c) by (rewrite Ec3, Ec2; done).
  destruct (to_jh c Ht) as [Hjn _]. rewrite !list.Forall_cons in Hjn. destruct Hjn as (_ & Hjh & Hjc & _).
  assert (Hrec : recovered c (c4 <| cf_mounted := 1 |>)).
  { split; cbn; [by rewrite Es|done|by rewrite Ec3|rewrite Ec3; cbn; rewrite Hl2; symmetry; apply Ht|]. intros i x Hx. destruct (inode_lba c i x Ht Hx) as [_ Hir]. rewrite Ec3. cbn. rewrite Hino by done.
    destruct (sy_ino c f Hs i x Hx) as (t & Htt & E). exists t. split; [done|]. rewrite E, inode_round; [done|]. destruct (to_inode c _ x Ht Hx) as [? ? ? ? Hn ? ?].
    rewrite !list.Forall_cons in Hn. destruct Hn as (?&?&?&?&?&?&_). split; cbn; try done. repeat (apply list.Forall_cons_2; [done|]). apply list.Forall_nil_2. }
  assert (Ht4 : tables_ok (c4 <| cf_mounted := 1 |>)) by (eapply mounted_tables; [done|done|done|cbn; by rewrite Ej|done|done]).
  spec_step. unfold sync_superblock. spec_step. spec_step. apply spec_write; [by apply low_range|apply super_bytes_length, Ht4|]. spec_step. spec_step.
  spec_step. eapply (spec_mono _ _ _ _ (fun _ c' f' => c' = c4 <| cf_mounted := 1 |> /\ f' = fput f SB_LBA (super_bytes (cf_sb c4)))).
  - spec_step; [|by apply spec_ret]. unfold journal_check_torn. spec_step. spec_step. apply spec_torn. apply list.Forall_forall. intros x Hx%elem_of_seqZ. cbn in Hx. rewrite Ej in Hx. unfold u32_ok in *. lia.
  - cbv beta. intros ? ? ? [-> ->]. spec_step. split; [done|]. split; [done|done| |done|done|cbn; by rewrite Ej]. unfold c4. cbn. rewrite Ec3, Ec2. done.
Qed.

(** ** Format *)

Definition root_inode (name : list byte) (t : Z) : catfs_inode := mk_cino name CATFS_TYPE_DIR CATFS_PERM_DEFAULT_DIR 0 (-1) t t t (replicate 16 0) 0 0.
Definition no_blocks (bm : list Z) : Prop := forall blk, marks bm blk <-> blk = 0.
(** No file but the root, which is empty, and no block in use. *)
Record formatted drive off c' f' : Prop := {
  fm_ok : fs_ok c' f'; fm_synced : synced c' f'; fm_head : jh_head (cf_jh c') = 0; fm_drive : cf_disk_drive c' = drive /\ cf_partition_offset c' = off;
  fm_inodes : exists name t, poke_str (zeros CATFS_NAME_MAX) (cs "/") = Some name /\ u32_ok t /\ cf_inodes c' = aset (replicate 256 inode_zero) 0 (root_inode name t);
  fm_blocks : no_blocks (cf_bitmap c') }.

Lemma marked_empty (b : Z) : 0 <= b < CATFS_BLOCKS_MAX -> marked (replicate 2048 0) b = Some false.
Proof.
  intros Hb. change CATFS_BLOCKS_MAX with 16384 in Hb. unfold marked. destruct (aget_is_Some (replicate 2048 0) (b / 8)) as [x Hx].
  { rewrite length_replicate. split; [apply Z.div_pos; lia|apply Z.div_lt_upper_bound; lia]. }
  rewrite Hx. unfold aget in Hx. case_match; [done|]. apply lookup_replicate in Hx as [-> _]. cbn [fmap option_fmap option_map]. by rewrite Z.testbit_0_l.
Qed.
Lemma bm_ok_empty : bm_ok (replicate 2048 0).
Proof. split; [apply length_replicate|]. apply Forall_replicate. lia. Qed.
Lemma spec_bm_set b blk c f (Q : unit -> _ -> _ -> Prop) : bm_ok (cf_bitmap c) -> 0 <= blk < CATFS_BLOCKS_MAX -> Q tt (c <| cf_bitmap := mark (cf_bitmap c) blk |>) f -> spec b (@bm_set D H blk) c f Q.
Proof.
  intros Hb Hr HQ. unfold bm_set. spec_step. intros s Hs. unfold bm_test, deref. destruct (marked_Some _ blk Hb Hr) as [v Hv]. rewrite (rep_fs _ _ _ Hs), Hv. exists c, f. split; [done|]. by apply spec_upd.
Qed.
Lemma root_inode_ok name t : zlen name = 56 -> u32_ok t -> inode_ok (root_inode name t).
Proof. intros Hn Ht. split; try done; repeat (apply list.Forall_cons_2; [done|]); apply list.Forall_nil_2. Qed.
(** Tables with no pointers. *)
Lemma fs_ok_empty c f : tables_ok c -> (forall i x, aget (cf_inodes c) i = Some x -> same_ptrs inode_zero x) -> no_blocks (cf_bitmap c) -> fs_ok c f.
Proof.
  intros Ht Hi Hb. assert (Hp : forall i a, iptr c f i a = 0).
  { intros i a. unfold iptr. destruct (aget (cf_inodes c) i) as [x|] eqn:Hx; [|done]. rewrite (ptr_same inode_zero x) by eauto. apply ptr_zero. }
  split; [done| |].
  - split; [by apply Hb|..].
    + intros i sl _ Hn. by rewrite Hp in Hn.
    + intros b Hm Hn. by apply Hb in Hm.
    + intros i a j b _ _ _ Hn. by rewrite Hp in Hn.
  - intros i x Hx _ a _ _. specialize (Hp i a). unfold iptr in Hp. by rewrite Hx in Hp.
Qed.
Lemma format_tables c lab name t : zlen lab = 32 -> zlen name = 56 -> u32_ok t -> cf_sb c = (format_super lab) <| sb_free_inodes := 255 |> -> cf_jh c = mk_jh CATFS_MAGIC 0 0 (zeros 500) ->
  cf_inodes c = aset (replicate 256 inode_zero) 0 (root_inode name t) -> cf_bitmap c = mark (replicate 2048 0) 0 -> cf_next_seq c = 0 -> cf_mounted c = 1 ->
  tables_ok c /\ no_blocks (cf_bitmap c) /\ forall i x, aget (cf_inodes c) i = Some x -> same_ptrs inode_zero x.
Proof.
  intros Hlab Hname Ht Esb Ejh Ein Ebm Eseq Em. split_and!.
  - split; rewrite ?Esb, ?Ejh, ?Ein, ?Ebm, ?Eseq; try done.
    + split; [|exact Hlab|done]. cbn. repeat (apply list.Forall_cons_2; [done|]). apply list.Forall_nil_2.
    + split; [|done]. cbn. repeat (apply list.Forall_cons_2; [done|]). apply list.Forall_nil_2.
    + unfold aset. cbn [Z.ltb Z.compare]. apply list.Forall_insert; [apply Forall_replicate, inode_zero_ok|by apply root_inode_ok].
    + apply bm_ok_mark, bm_ok_empty.
  - rewrite Ebm. intros b. unfold marks. rewrite marked_mark by (apply bm_ok_empty || done). case_decide; [done|]. split; [|done]. intros Hm.
    pose proof (marked_range _ _ _ bm_ok_empty Hm) as Hr. by rewrite marked_empty in Hm.
  - rewrite Ein. intros i x. destruct (decide (i = 0)) as [->|Hne].
    + rewrite aget_aset_eq by (rewrite length_replicate; lia). by intros [= <-].
    + rewrite aget_aset_ne by done. unfold aget. case_match; [done|]. by intros [-> _]%lookup_replicate.
Qed.
Lemma catfs_zero_tables : cf_inodes catfs_zero = replicate 256 inode_zero /\ cf_bitmap catfs_zero = replicate 2048 0 /\ cf_jh catfs_zero = jh_zero.
Proof. split_and!; unfold catfs_zero; cbn [cf_inodes cf_bitmap cf_jh]; [..|done]; f_equal. Qed.
Lemma format_ok drive off label f s : attached s drive off f -> zlen (default (cs "catfs") label) < 32 ->
  wp (catfs_format_at drive off label) s (fun r s' => exists c' f', rep s' c' f' /\ r = 0 /\ formatted drive off c' f').
Proof.
  intros Ha Hlab. apply (wp_attach drive off _ _ (ret (-1)) s f (fun r c' f' => r = 0 /\ formatted drive off c' f')); [done|done|done|]. cbv beta. destruct catfs_zero_tables as (Ei & Eb & Ej).
  set (z := catfs_zero <| cf_disk_drive := drive |> <| cf_partition_offset := off |>).
  assert (Ez : cf_inodes z = replicate 256 inode_zero /\ cf_bitmap z = replicate 2048 0 /\ cf_jh z = jh_zero /\ cf_disk_drive z = drive /\ cf_partition_offset z = off) by (split_and!; [exact Ei|exact Eb|exact Ej|reflexivity..]).
  clearbody z. clear Ei Eb Ej. destruct Ez as (Ei & Eb & Ej & Edr & Eof).
  spec_step. apply spec_the; [|left; unfold poke_str; destruct (Z.ltb_spec (zlen (default (cs "catfs") label)) (zlen (zeros 32))) as [|Hn]; [by eexists|change (zlen (zeros 32)) with 32 in Hn; lia]]. intros lab Hl.
  spec_step. spec_step. spec_step. apply spec_bm_set; [cbn [cf_bitmap]; change (bm_ok (cf_bitmap z)); rewrite Eb; apply bm_ok_empty|done|]. spec_step. spec_step. spec_step. apply spec_the; [|by left]. intros name Hname. spec_step. spec_step. spec_step.
  apply spec_upd_inode; [|left; change (0 <= 0 < zlen (cf_inodes z)); rewrite Ei, length_replicate; lia]. intros y _. spec_step. spec_step. spec_step. spec_step. set (c1 := _ <| cf_mounted := 1 |>).
  pose proof (poke_str_length _ _ _ Hl) as Hll. pose proof (poke_str_length _ _ _ Hname) as Hnl.
  assert (Ec1 : cf_inodes c1 = aset (replicate 256 inode_zero) 0 (root_inode name t)) by (rewrite <- Ei; reflexivity).
  destruct (format_tables c1 lab name t) as (Ht & Hb & Hp); [by rewrite Hll|by rewrite Hnl|done|reflexivity|change (zeros 500) with (jh_pad jh_zero); rewrite <- Ej; reflexivity|done|rewrite <- Eb; reflexivity|reflexivity|reflexivity|].
  assert (Eh : jh_head (cf_jh c1) = 0) by reflexivity. assert (Ed : cf_disk_drive c1 = drive /\ cf_partition_offset c1 = off) by (rewrite <- Edr, <- Eof; split; reflexivity). clearbody c1.
  eapply spec_mono; [by apply spec_sync|]. cbv beta. intros r c' f' (-> & -> & Hs & _). split; [done|]. split; [|exact Hs|exact Eh|exact Ed|by exists name, t|exact Hb].
  apply fs_ok_empty; [by apply tables_cleaned|exact Hp|exact Hb].
Qed.

(** ** What a mount leaves to the operations *)

Lemma look_recovered c c' path : recovered c c' -> look (cf_inodes c') path = look (cf_inodes c) path.
Proof.
  intros Hr. assert (Hg : forall i, aget (cf_inodes c') i = None <-> aget (cf_inodes c) i = None).
  { intros i. split; intros E; destruct (aget _ i) as [x|] eqn:Hx in |- *; try done; apply aget_Some_range in Hx; [rewrite <- (rc_len _ _ Hr) in Hx|rewrite (rc_len _ _ Hr) in Hx]; destruct (aget_is_Some _ _ Hx) as [? ?]; congruence. }
  assert (Hc : forall p name i, child_at (cf_inodes c') p name i = child_at (cf_inodes c) p name i).
  { intros p name i. unfold child_at. destruct (aget (cf_inodes c) i) as [x|] eqn:Hx; [|by rewrite (proj2 (Hg i) Hx)]. destruct (rc_inode _ _ Hr i x Hx) as (t & _ & ->). done. }
  assert (Hl : forall fuel cur p, look_loop fuel (cf_inodes c') cur p = look_loop fuel (cf_inodes c) cur p).
  { induction fuel as [|fuel IH]; intros cur p; [done|]. cbn [look_loop]. case_bool_decide; [done|]. destruct (take_comp _ p) as [comp rest]. case_bool_decide; [apply IH|].
    rewrite (first_at_ext _ (child_at (cf_inodes c) cur comp)) by (intros; apply Hc). destruct (first_at _ _) as [[i|]|]; [apply IH|done|done]. }
  unfold look. case_bool_decide; [done|]. unfold is_dir_root. destruct (aget (cf_inodes c) 0) as [x|] eqn:Hx; [|by rewrite (proj2 (Hg 0) Hx)].
  destruct (rc_inode _ _ Hr 0 x Hx) as (t & _ & ->). cbn [fmap option_fmap option_map]. change (ci_type (x <| ci_atime := t |>)) with (ci_type x). destruct (ci_type x =? CATFS_TYPE_DIR); [apply Hl|done].
Qed.
Lemma recovered_ok c c' f f' : fs_ok c f -> recovered c c' -> tables_ok c' -> low_frame f f' -> fs_ok c' f' /\ forall j p, byte_at c' f' j p = byte_at c f j p.
Proof.
  intros [Ht Hk Hfree] Hr Ht' Hf. assert (Hg : forall i, match aget (cf_inodes c) i with Some x => exists t, aget (cf_inodes c') i = Some (x <| ci_atime := t |>) | None => aget (cf_inodes c') i = None end).
  { intros i. destruct (aget (cf_inodes c) i) as [x|] eqn:Hx; [destruct (rc_inode _ _ Hr i x Hx) as (t & _ & ->); by exists t|]. destruct (aget (cf_inodes c') i) as [y|] eqn:Hy; [|done].
    apply aget_Some_range in Hy. rewrite (rc_len _ _ Hr) in Hy. destruct (aget_is_Some _ _ Hy). congruence. }
  assert (Hi : forall j a, valid a -> iptr c' f' j a = iptr c f j a).
  { intros j a Hv. rewrite <- (iptr_low c c f f' Ht Hk eq_refl Hf j a Hv). unfold iptr. specialize (Hg j). destruct (aget (cf_inodes c) j) as [x|]; [destruct Hg as [t ->]; by apply ptr_same|by rewrite Hg]. }
  split; [|by apply byte_at_low]. split; [done|eapply tree_frame; [exact Hk|apply Hr|exact Hi]|].
  intros i y Hy Hty a Ha Hv. specialize (Hg i). destruct (aget (cf_inodes c) i) as [x|] eqn:Hx; [|congruence]. destruct Hg as [t Hy']. rewrite Hy in Hy'. injection Hy' as ->.
  pose proof (Hfree i x Hx Hty a Ha Hv) as E. by destruct a.
Qed.
End MountAt.
