(* ===== verification/CatfsProps.v ===== *)
(** * CatFS: what a history of calls keeps

    Any sequence of calls on a filesystem that was formatted on a working disk keeps the blocks
    of the files apart and accounted for, and what was written comes back, from memory and after
    a restart. *)

From S2P Require Import Prelude Cstring Alloc Kmalloc HeapAlloc Elf NativeApp Catfs CatfsOps CatfsNames CatfsInv CatfsTree CatfsIo CatfsSync CatfsFree CatfsMount.

(** ** Calls *)

Inductive call :=
  | KCreate (path : cstr) (type : Z) | KUnlink (idx : Z) | KRename (idx parent : Z) (name : cstr) | KChmod (idx perms : Z)
  | KWrite (idx offset : Z) (buf : list byte) | KTruncate (idx n : Z) | KRead (idx offset len : Z) | KLookup (path : cstr) | KSync.
(** Arguments of the parameters' types, with offsets that do not wrap. *)
Definition call_ok (k : call) : Prop :=
  match k with
  | KCreate _ type => 0 < type < 256
  | KChmod _ perms => 0 <= perms < 65536
  | KWrite _ offset buf => 0 <= offset /\ offset + zlen buf < 2 ^ 32 /\ zlen buf < 2 ^ 31
  | KTruncate _ n => 0 <= n /\ n + CATFS_BLOCK_SIZE < 2 ^ 32
  | KRead _ offset len => 0 <= offset /\ 0 <= len /\ offset + len < 2 ^ 32 /\ len < 2 ^ 31
  | _ => True
  end.
(** A write that stores nothing leaves what it allocated in memory only. *)
Definition lossless (k : call) (r : Z) : Prop := match k with KWrite _ _ _ => r <> 0 | _ => True end.

(** A path whose parts fit the arrays of [catfs_create]. *)
Definition fits (k : call) : Prop := match k with KCreate path _ => is_Some (split_last path) | _ => True end.

(** Paths from the root, and names without a slash; strings hold no terminator. *)
Definition clean (k : call) : Prop :=
  match k with KCreate path _ => head path = Some slash /\ nul ∉ path | KRename _ _ name => (slash ∉ name) /\ nul ∉ name | _ => True end.

Section Calls.
Context {D H : Type} `{!Disk D} `{!Allocator H}.
Definition run_call (k : call) : M (cstate D H) Z :=
  match k with
  | KCreate path type => catfs_create path type
  | KUnlink idx => catfs_unlink idx
  | KRename idx parent name => catfs_rename idx parent (Some name)
  | KChmod idx perms => catfs_chmod idx perms
  | KWrite idx offset buf => catfs_write idx offset buf
  | KTruncate idx n => catfs_truncate idx n
  | KRead idx offset len => let* r := catfs_read idx offset len in ret r.1
  | KLookup path => catfs_lookup path
  | KSync => catfs_sync
  end.
Fixpoint run_calls (ks : list call) : M (cstate D H) (list Z) :=
  match ks with [] => ret [] | k :: ks' => let* r := run_call k in let* rs := run_calls ks' in ret (r :: rs) end.
(** What a read returns. *)
Definition reads (s : cstate D H) (idx offset len : Z) (r : Z * list byte) : Prop := exists s', catfs_read idx offset len s = Done (r, s').
Definition finds (s : cstate D H) (path : cstr) (r : Z) : Prop := exists s', catfs_lookup path s = Done (r, s').
End Calls.

(** ** One call *)

Record step_ok (k : call) (r : Z) (c : catfs_state_t) (f : Z -> list byte) (c' : catfs_state_t) (f' : Z -> list byte) : Prop := {
  sk_ok : fs_ok c' f'; sk_drive : cf_disk_drive c' = cf_disk_drive c /\ cf_partition_offset c' = cf_partition_offset c;
  sk_head : jh_head (cf_jh c') = jh_head (cf_jh c) \/ jh_head (cf_jh c') = u32 (jh_head (cf_jh c) + 1);
  sk_root : is_dir_root (cf_inodes c) = Some true -> is_dir_root (cf_inodes c') = Some true;
  sk_names : names_ok (cf_inodes c) -> names_ok (cf_inodes c');
  sk_tidy : clean k -> is_dir_root (cf_inodes c) = Some true -> tidy (cf_inodes c) -> tidy (cf_inodes c');
  sk_synced : lossless k r -> synced c f -> log_room c -> synced c' f' }.

Lemma unchanged_ok k r c f : fs_ok c f -> step_ok k r c f c f.
Proof. intros Hok. split; try done. by left. Qed.
Lemma root_same l l' : (forall x, aget l 0 = Some x -> ci_type x = CATFS_TYPE_DIR -> exists x', aget l' 0 = Some x' /\ ci_type x' = ci_type x) -> is_dir_root l = Some true -> is_dir_root l' = Some true.
Proof.
  unfold is_dir_root. intros Hl. destruct (aget l 0) as [x|]; [|done]. intros E. cbn in E. injection E as E. destruct (Hl x eq_refl) as (x' & -> & E'); [by apply Z.eqb_eq in E|]. cbn. by rewrite E', E.
Qed.
Lemma root_aset l i x x' : aget l i = Some x -> (ci_type x' = ci_type x \/ i <> 0) -> is_dir_root l = Some true -> is_dir_root (aset l i x') = Some true.
Proof.
  intros Hx Ht. apply root_same. intros y Hy _. destruct (decide (i = 0)) as [->|Hi].
  - exists x'. rewrite aget_aset_eq by (by eapply aget_Some_range). split; [done|]. destruct Ht; [congruence|done].
  - exists y. by rewrite aget_aset_ne by congruence.
Qed.
Lemma step_meta k r c f c' f' i x x' : aget (cf_inodes c) i = Some x -> (ci_type x' = ci_type x \/ i <> 0) -> (names_ok (cf_inodes c) -> names_ok (aset (cf_inodes c) i x')) ->
  (clean k -> is_dir_root (cf_inodes c) = Some true -> tidy (cf_inodes c) -> tidy (aset (cf_inodes c) i x')) -> meta_done c f i x' c' f' -> step_ok k r c f c' f'.
Proof.
  intros Hx Ht Hn Htd Hm. split; [apply Hm|apply Hm|right; apply Hm|rewrite (md_inodes _ _ _ _ _ _ Hm); by eapply root_aset|by rewrite (md_inodes _ _ _ _ _ _ Hm)|by rewrite (md_inodes _ _ _ _ _ _ Hm)|intros _; apply Hm].
Qed.
(** One inode replaced by one of the same name and parent. *)
Lemma names_same l l' idx x x' : length l' = length l -> aget l idx = Some x -> aget l' idx = Some x' -> ci_name x' = ci_name x -> ci_parent x' = ci_parent x -> (forall j, j <> idx -> aget l' j = aget l j) -> names_ok l -> names_ok l'.
Proof.
  intros Hl Hx Hx' En Ep Ho. apply names_ext; [done|]. intros i y Hy. destruct (decide (i = idx)) as [->|Hne]; [|rewrite Ho in Hy by done; by exists y]. rewrite Hx' in Hy. injection Hy as <-. by exists x.
Qed.
Lemma tidy_same l l' idx x x' : aget l idx = Some x -> aget l' idx = Some x' -> ci_name x' = ci_name x -> ci_parent x' = ci_parent x -> ci_type x' = ci_type x -> (forall j, j <> idx -> aget l' j = aget l j) -> tidy l -> tidy l'.
Proof.
  intros Hx Hx' En Ep Et Ho. apply tidy_ext. intros i y Hy. destruct (decide (i = idx)) as [->|Hne]; [|rewrite Ho in Hy by done; by exists y]. rewrite Hx' in Hy. injection Hy as <-. by exists x.
Qed.
Lemma tidy_put l i x x' : aget l i = Some x -> ci_name x' = ci_name x -> ci_parent x' = ci_parent x -> ci_type x' = ci_type x -> tidy l -> tidy (aset l i x').
Proof. intros Hx En Ep Et. eapply tidy_same; [exact Hx|apply aget_aset_eq; by eapply aget_Some_range|done..|]. intros j Hj. by rewrite aget_aset_ne by congruence. Qed.
Lemma same_length c f c' f' : fs_ok c f -> fs_ok c' f' -> length (cf_inodes c') = length (cf_inodes c).
Proof. intros Hc Hc'. by rewrite (to_len _ (fk_tables _ _ Hc)), (to_len _ (fk_tables _ _ Hc')). Qed.
Lemma step_written idx offset k bs buf c f c' f' : fs_ok c f -> (k <= length buf)%nat -> written idx offset (take k buf) c f c' f' -> step_ok (KWrite idx offset bs) (Z.of_nat k) c f c' f'.
Proof.
  intros Hok Hk W. destruct (wr_inode _ _ _ _ _ _ _ W) as (x & x' & Hx & Hx' & Hnf & Hty & Hnm & Hpa & _). split; [apply W|apply W| | | | |].
  - rewrite (wr_head _ _ _ _ _ _ _ W). case_match; [by left|by right].
  - apply root_same. intros y Hy _. destruct (decide (idx = 0)) as [->|Hi]; [exists x'; split; [done|congruence]|]. exists y. by rewrite (wr_others _ _ _ _ _ _ _ W) by congruence.
  - eapply names_same; [eapply same_length; [done|apply W]|done..|apply W].
  - intros _ _. eapply tidy_same; [exact Hx|exact Hx'|done..|apply W].
  - intros Hl. apply (wr_synced _ _ _ _ _ _ _ W). intros E. apply (f_equal length) in E. rewrite length_take in E. cbn in Hl, E. lia.
Qed.
Lemma step_removed r idx x c f c' f' : 0 < idx -> removed idx x c f c' f' -> step_ok (KUnlink idx) r c f c' f'.
Proof.
  intros Hi R. destruct (rm_was _ _ _ _ _ _ R) as [Hx _]. pose proof (aget_Some_range _ _ _ Hx) as Hr. split; [apply R|apply R|right; apply R| | | |intros _; apply R]; rewrite (rm_inodes _ _ _ _ _ _ R).
  - eapply root_aset; [exact Hx|right; lia].
  - intros Hn. eapply names_set; [done|exact Hx|by eexists|lia|]. right. apply root_avoids; [done|lia|lia].
  - intros _ _ Htd. eapply tidy_set; [done|exact Hx|done|by left].
Qed.
Lemma step_truncated r idx n x c f c' f' : fs_ok c f -> truncated idx n x c f c' f' -> step_ok (KTruncate idx n) r c f c' f'.
Proof.
  intros Hok T. destruct (tr_inode _ _ _ _ _ _ _ T) as (x' & Hx' & _ & Hty & Hnm & Hpa). destruct (tr_was _ _ _ _ _ _ _ T) as [Hx _]. split; [apply T|apply T|right; apply T| | | |intros _; apply T].
  2:{ eapply names_same; [eapply same_length; [done|apply T]|done..|apply T]. }
  2:{ intros _ _. eapply tidy_same; [exact Hx|exact Hx'|done..|apply T]. }
  apply root_same. intros y Hy _. destruct (decide (idx = 0)) as [->|Hi]; [exists x'; split; [done|congruence]|]. exists y. by rewrite (tr_others _ _ _ _ _ _ _ T) by congruence.
Qed.
(** A time of last access is not on the disk until the inode is written. *)
Lemma atime_ok c f i x t : fs_ok c f -> aget (cf_inodes c) i = Some x -> u32_ok t -> fs_ok (put_inode c i (x <| ci_atime := t |>)) f /\ forall j p, byte_at (put_inode c i (x <| ci_atime := t |>)) f j p = byte_at c f j p.
Proof.
  intros Hok Hx Ht. pose proof (fk_tables _ _ Hok) as Htb. assert (Hxo : inode_ok (x <| ci_atime := t |>)).
  { destruct (to_inode c i x Htb Hx) as [? ? ? ? Hn ? ?]. rewrite !list.Forall_cons in Hn. destruct Hn as (?&?&?&?&?&?&_). split; cbn; try done. repeat (apply list.Forall_cons_2; [done|]). apply list.Forall_nil_2. }
  destruct (fs_ok_meta c f (put_inode c i (x <| ci_atime := t |>)) f i x (x <| ci_atime := t |>)) as [Hok' Hi]; try done; [by apply tables_put_inode|by left|].
  split; [done|]. apply byte_at_low; [done|apply Hok|done|done].
Qed.
Lemma atime_synced c f i x t : aget (cf_inodes c) i = Some x -> synced c f -> synced (put_inode c i (x <| ci_atime := t |>)) f.
Proof.
  intros Hx [Hs Hj Hi Hb]. split; [done|done| |done]. intros k y. cbn. destruct (decide (k = i)) as [->|Hn].
  - rewrite aget_aset_eq by (by eapply aget_Some_range). intros [= <-]. by apply Hi.
  - rewrite aget_aset_ne by congruence. apply Hi.
Qed.
Lemma step_atime k r c f i x t : fs_ok c f -> aget (cf_inodes c) i = Some x -> u32_ok t -> step_ok k r c f (put_inode c i (x <| ci_atime := t |>)) f.
Proof.
  intros Hok Hx Ht. split; [by eapply atime_ok|done|by left|eapply root_aset; [exact Hx|by left]| |intros _ _; by eapply tidy_put|intros _ Hs _; by eapply atime_synced].
  intros Hn. eapply names_set; [done|exact Hx|exact (nk_name _ Hn _ _ Hx)|intros ->; exact (nk_root _ Hn _ Hx)|by left].
Qed.
Lemma step_cleaned r c f f' : fs_ok c f -> low_frame f f' -> synced (cleaned c) f' -> step_ok KSync r c f (cleaned c) f'.
Proof.
  intros Hok Hf Hs. pose proof (fk_tables _ _ Hok) as Ht. split; [|done|by left|done|done|done|done].
  destruct (aget_is_Some (cf_inodes c) 0) as [x Hx]; [by apply to_index|]. eapply (fs_ok_meta c f (cleaned c) f' 0 x x); try done; [by apply tables_cleaned|change (cf_inodes (cleaned c)) with (cf_inodes c); by rewrite aset_same|by left].
Qed.

Section Step.
Context {D H : Type} `{!Disk D} `{!DiskLaws D} `{!Allocator H}.
Implicit Types (s : cstate D H) (c : catfs_state_t) (f : Z -> list byte) (k : call).

Lemma spec_call b k c f : fs_ok c f -> call_ok k -> named b c -> (b = true \/ fits k) -> spec b (@run_call D H _ k) c f (fun r c' f' => step_ok k r c f c' f').
Proof.
  intros Hok Hk Hnm Hfit. pose proof (fk_tables _ _ Hok) as Ht. destruct k; cbn in Hk; cbn [run_call].
  - eapply spec_mono; [apply spec_create; [done|lia|done|done]|]. cbv beta. intros r c' f' [(-> & -> & ->)|(x & name & dir & base & p & t & old & Hr & Hx & Hfree & Hsl & Hp & Hp0 & Hold & Hneg & Hname & _ & Hm)]; [by apply unchanged_ok|].
    eapply step_meta; [exact Hx| | | |exact Hm]; [right; lia| |].
    2:{ intros [Habs Hnul] Hroot Htd. destruct (split_last_abs path dir base Habs Hsl) as (d & E & Hsb & _). destruct (fresh_name _ path dir base p old Habs Hsl Hp Hp0 Hold Hneg Hroot) as [Hne Hnone].
      eapply (tidy_set _ r x _ base); [done|exact Hx| |right; split_and!; [done|done|]]; [eapply cname_poke; [|exact Hname]; intros Hin; apply Hnul; rewrite E; apply elem_of_cons; right; apply elem_of_app; by right|].
      intros j y _ Hy Hpj. eapply none_named; [exact Hnone|rewrite (to_len c Ht); done|exact Hy|exact Hpj]. }
    intros Hn. eapply names_set; [done|exact Hx|by eapply poke_named|lia|right]. eapply look_avoids; [done|lia|done..].
  - eapply spec_mono; [by apply spec_weak, spec_unlink|]. cbv beta. intros r c' f' [(-> & -> & ->)|(-> & Hi & x & R)]; [by apply unchanged_ok|by eapply step_removed].
  - eapply spec_mono; [by apply spec_rename|]. cbv beta. intros r c' f' [(-> & -> & ->)|(-> & x & x' & Hx & (Hi & Hav & Hne & Hriv & t & n & Hn & -> & _) & Hm)]; [by apply unchanged_ok|].
    eapply step_meta; [exact Hx| | | |exact Hm]; [by left| |].
    2:{ intros [Hsl Hnul] _ Htd. eapply (tidy_set _ idx x _ name); [done|exact Hx|by eapply cname_poke|]. right. split_and!; [done|done|]. intros j y Hj Hy Hp. eapply none_rival; [exact Hriv|rewrite (to_len c Ht); done|exact Hj|exact Hy|exact Hp]. }
    intros Hnk. eapply names_set; [done|exact Hx|by eapply poke_named|lia|by right].
  - eapply spec_mono; [by apply spec_weak, spec_chmod|]. cbv beta. intros r c' f' [(-> & -> & ->)|(-> & x & x' & Hx & (_ & t & ->) & Hm)]; [by apply unchanged_ok|]. eapply step_meta; [exact Hx| | | |exact Hm]; [by left| |intros _ _; by eapply tidy_put].
    intros Hn. eapply names_set; [done|exact Hx|exact (nk_name _ Hn _ _ Hx)|intros ->; exact (nk_root _ Hn _ Hx)|by left].
  - eapply spec_mono; [apply spec_weak, spec_catfs_write; [done|lia..]|]. cbv beta. intros r c' f' [(-> & -> & -> & _)|(n & -> & Hn & W & _)]; [by apply unchanged_ok|by eapply step_written].
  - eapply spec_mono; [apply spec_weak, spec_truncate; [done|lia..]|]. cbv beta. intros r c' f' [(-> & -> & ->)|(-> & x & T)]; [by apply unchanged_ok|by eapply step_truncated].
  - spec_step. eapply spec_mono; [apply spec_weak, spec_catfs_read; [done|lia..]|]. cbv beta. intros r c' f' [(-> & -> & -> & _)|(x & Hx & _ & -> & _ & [->|(t & Htt & ->)] & _)]; spec_step; [by apply unchanged_ok..|by apply step_atime].
  - apply spec_lookup; [done|done|]. intros r _. by apply unchanged_ok.
  - eapply spec_mono; [by apply spec_sync|]. cbv beta. intros r c' f' (-> & -> & Hs & Hf). by apply step_cleaned.
Qed.

(** ** A history *)

Record history_ok (ks : list call) (rs : list Z) c f c' f' : Prop := {
  hk_ok : fs_ok c' f'; hk_drive : cf_disk_drive c' = cf_disk_drive c /\ cf_partition_offset c' = cf_partition_offset c;
  hk_root : is_dir_root (cf_inodes c) = Some true -> is_dir_root (cf_inodes c') = Some true;
  hk_names : names_ok (cf_inodes c) -> names_ok (cf_inodes c');
  hk_tidy : Forall clean ks -> is_dir_root (cf_inodes c) = Some true -> tidy (cf_inodes c) -> tidy (cf_inodes c');
  hk_synced : jh_head (cf_jh c) + zlen ks <= 200 -> Forall2 lossless ks rs -> synced c f -> synced c' f' }.
Lemma spec_calls b ks : forall c f, fs_ok c f -> Forall call_ok ks -> named b c -> (b = true \/ Forall fits ks) -> spec b (@run_calls D H _ ks) c f (fun rs c' f' => history_ok ks rs c f c' f').
Proof.
  induction ks as [|k ks IH]; intros c f Hok Hks Hnm Hfit; cbn [run_calls]; [by apply spec_ret|]. apply list.Forall_cons in Hks as [Hk Hks].
  spec_step. eapply spec_mono; [apply spec_call; [done|done|done|destruct Hfit as [->|Hfit]; [by left|]; right; by apply list.Forall_cons in Hfit as [? ?]]|]. cbv beta. intros r c1 f1 S1. pose proof (sk_ok _ _ _ _ _ _ S1) as Hok1.
  spec_step. eapply spec_mono; [apply IH; [done|done|destruct Hnm as [->|Hnm]; [by left|right; by apply S1]|destruct Hfit as [->|Hfit]; [by left|]; right; by apply list.Forall_cons in Hfit as [? ?]]|].
  cbv beta. intros rs c2 f2 S2. spec_step. destruct (sk_drive _ _ _ _ _ _ S1) as [Ed Eo]. destruct (hk_drive _ _ _ _ _ _ S2) as [Ed2 Eo2].
  split; [apply S2|split; congruence|intros Hr; by apply S2, S1|intros Hr; by apply S2, S1| |].
  { intros Hc Hr Htd. apply list.Forall_cons in Hc as [Hc1 Hc2]. apply S2; [done|by apply S1|by apply S1]. }
  cbn [length]. intros Hroom Hll Hs. apply list.Forall2_cons in Hll as [Hl Hls]. pose proof (jh_head_nonneg c (fk_tables _ _ Hok)) as H0.
  apply S2; [|done|apply S1; [done|done|]].
  - destruct (sk_head _ _ _ _ _ _ S1) as [-> | ->]; [lia|]. rewrite u32_small by lia. lia.
  - unfold log_room. change CATFS_JOURNAL_SLOTS with 204. rewrite Z.mod_small by lia. lia.
Qed.
Lemma calls_ok ks rs c f s s' : rep s c f -> fs_ok c f -> Forall call_ok ks -> run_calls ks s = Done (rs, s') -> exists c' f', rep s' c' f' /\ history_ok ks rs c f c' f'.
Proof. intros Hs Hok Hks E. pose proof (spec_calls true ks c f Hok Hks ltac:(by left) ltac:(by left) s Hs) as Hsp. by rewrite E in Hsp. Qed.
Lemma formatted_names drive off c f : formatted drive off c f -> names_ok (cf_inodes c).
Proof.
  intros F. destruct (fm_inodes _ _ _ _ F) as (name & t & Hname & _ & ->). set (x := root_inode name t).
  assert (Hg : forall i y, aget (aset (replicate 256 inode_zero) 0 x) i = Some y -> (i = 0 /\ y = x) \/ (i <> 0 /\ y = inode_zero)).
  { intros i y. destruct (decide (i = 0)) as [->|Hi]; [rewrite aget_aset_eq by (rewrite length_replicate; lia); intros [= <-]; by left|]. rewrite aget_aset_ne by congruence. unfold aget. case_match; [done|].
    intros [-> _]%lookup_replicate. by right. }
  assert (H0 : ends (aset (replicate 256 inode_zero) 0 x) 0 1) by (econstructor; [lia|by rewrite aget_aset_eq by (rewrite length_replicate; lia)|by constructor]).
  split.
  - intros i y [[_ ->]|[_ ->]]%Hg; [by eapply poke_named|by eexists].
  - intros y [[_ ->]|[? ?]]%Hg; [done|lia].
  - intros i Hi. destruct (aget_is_Some _ _ Hi) as [y Hy]. destruct (Hg _ _ Hy) as [[-> _]|[Hne ->]]; [by exists 1%nat|]. exists 2%nat. econstructor; [lia|exact Hy|exact H0].
Qed.

Lemma formatted_tidy drive off c f : formatted drive off c f -> tidy (cf_inodes c).
Proof.
  intros F. destruct (fm_inodes _ _ _ _ F) as (name & t & Hname & _ & ->). assert (Hg : forall i y, ~ in_use (aset (replicate 256 inode_zero) 0 (root_inode name t)) i y).
  { intros i y (Hi & Hy & Hty). rewrite aget_aset_ne in Hy by lia. unfold aget in Hy. case_match; [done|]. apply lookup_replicate in Hy as [-> _]. done. }
  split; [intros i y n Hy|intros i j y z n Hy]; by destruct (Hg i y Hy).
Qed.

(** A formatted filesystem, after a history. *)
Definition used_disk drive off (label : option cstr) (ks : list call) (rs : list Z) s s' : Prop :=
  exists s0, catfs_format_at drive off label s = Done (0, s0) /\ run_calls ks s0 = Done (rs, s').
Lemma used_ok drive off label ks rs f s s' : attached s drive off f -> zlen (default (cs "catfs") label) < 32 -> Forall call_ok ks -> used_disk drive off label ks rs s s' ->
  exists c' f', rep s' c' f' /\ fs_ok c' f' /\ cf_disk_drive c' = drive /\ cf_partition_offset c' = off /\ is_dir_root (cf_inodes c') = Some true /\
    names_ok (cf_inodes c') /\ (Forall clean ks -> tidy (cf_inodes c')) /\ (zlen ks <= 200 -> Forall2 lossless ks rs -> synced c' f').
Proof.
  intros Ha Hl Hks (s0 & Hf & Hr). pose proof (format_ok drive off label f s Ha Hl) as Hw. unfold wp in Hw. rewrite Hf in Hw. destruct Hw as (c & g & Hs0 & _ & F).
  destruct (calls_ok ks rs c g s0 s' Hs0 (fm_ok _ _ _ _ F) Hks Hr) as (c' & f' & Hs' & Hh). destruct (fm_drive _ _ _ _ F) as [Ed Eo]. destruct (hk_drive _ _ _ _ _ _ Hh) as [Ed' Eo'].
  assert (Hroot : is_dir_root (cf_inodes c) = Some true) by (destruct (fm_inodes _ _ _ _ F) as (name & t & _ & _ & ->); done).
  exists c', f'. split_and!; [done|apply Hh|congruence|congruence|by apply Hh|apply Hh; by eapply formatted_names|intros Hc; apply Hh; [done|done|by eapply formatted_tidy]|].
  - intros Hn Hll. apply (hk_synced _ _ _ _ _ _ Hh); [|done|apply F]. rewrite (fm_head _ _ _ _ F). lia.
Qed.
End Step.

(** ** What reads return *)

Section Reads.
Context {D H : Type} `{!Disk D} `{!DiskLaws D} `{!Allocator H}.
Implicit Types (s : cstate D H) (c : catfs_state_t) (f : Z -> list byte).

(** A file that is the same to its readers. *)
Definition file_same j c f c' f' : Prop :=
  (forall x, aget (cf_inodes c) j = Some x -> exists x', aget (cf_inodes c') j = Some x' /\ ci_type x' = ci_type x /\ ci_size x' = ci_size x) /\ forall p, byte_at c' f' j p = byte_at c f j p.
Definition read_ok (offset len : Z) : Prop := 0 <= offset /\ 0 <= len /\ offset + len < 2 ^ 32 /\ len < 2 ^ 31.
Definition same_reads s s' j : Prop := forall offset len, read_ok offset len -> exists r, reads s j offset len r /\ reads s' j offset len r.

(** The bytes read are those up to the end of what is asked for, of the file, or of its blocks. *)
Definition read_bytes c f j offset len (x : catfs_inode) (bs : list byte) : Prop :=
  zlen bs <= Z.max 0 (Z.min len (ci_size x - offset)) /\ (forall i, 0 <= i < zlen bs -> byte_at c f j (offset + i) = bs !! Z.to_nat i) /\
  (zlen bs < Z.min len (ci_size x - offset) -> byte_at c f j (offset + zlen bs) = None).
Lemma read_result s c f j offset len : rep s c f -> fs_ok c f -> read_ok offset len -> exists r, reads s j offset len r /\
  ((r = (-1, []) /\ forall x, aget (cf_inodes c) j = Some x -> ci_type x = CATFS_TYPE_FREE) \/
   (exists x, aget (cf_inodes c) j = Some x /\ ci_type x <> CATFS_TYPE_FREE /\ r.1 = zlen r.2 /\ read_bytes c f j offset len x r.2)).
Proof.
  intros Hs Hok (H1 & H2 & H3 & H4). pose proof (spec_catfs_read j offset len c f Hok H1 H2 H3 H4 s Hs) as Hr. destruct (catfs_read j offset len s) as [[r s']|] eqn:E; [|done].
  destruct Hr as (c' & f' & _ & Hr). exists r. split; [by exists s'|]. destruct Hr as [(-> & _ & _ & Hn)|(x & Hx & Hty & _ & Hl & _ & Hb)]; [by left|]. right. by exists x.
Qed.
Lemma read_bytes_len c f c' f' j offset len x x' bs bs' : (forall p, byte_at c' f' j p = byte_at c f j p) -> ci_size x' = ci_size x -> read_bytes c f j offset len x bs -> read_bytes c' f' j offset len x' bs' -> zlen bs <= zlen bs'.
Proof.
  intros Hb Hsz (H1 & H2 & H3) (H1' & H2' & H3'). rewrite Hsz in *. destruct (Z.leb_spec (zlen bs) (zlen bs')) as [|Hlt]; [done|]. specialize (H3' ltac:(lia)). rewrite Hb in H3'.
  rewrite H2 in H3' by lia. apply lookup_ge_None in H3'. lia.
Qed.
Lemma read_bytes_eq c f c' f' j offset len x x' bs bs' : (forall p, byte_at c' f' j p = byte_at c f j p) -> ci_size x' = ci_size x -> read_bytes c f j offset len x bs -> read_bytes c' f' j offset len x' bs' -> bs = bs'.
Proof.
  intros Hb Hsz Hr Hr'. pose proof (read_bytes_len c f c' f' j offset len x x' bs bs' Hb Hsz Hr Hr') as L1. pose proof (read_bytes_len c' f' c f j offset len x' x bs' bs ltac:(done) ltac:(done) Hr' Hr) as L2.
  destruct Hr as (_ & Hr & _). destruct Hr' as (_ & Hr' & _). apply (list_eq_same_length _ _ (length bs)); [lia|lia|]. intros i v v' Hi Hv Hv'.
  pose proof (Hr (Z.of_nat i) ltac:(lia)) as E. pose proof (Hr' (Z.of_nat i) ltac:(lia)) as E'. rewrite Nat2Z.id in E, E'. rewrite Hb in E'. congruence.
Qed.
Lemma read_same s s' c f c' f' j : rep s c f -> rep s' c' f' -> fs_ok c f -> fs_ok c' f' -> file_same j c f c' f' -> same_reads s s' j.
Proof.
  intros Hs Hs' Hok Hok' [Hi Hb] offset len Hro. destruct (read_result s c f j offset len Hs Hok Hro) as (r & Hr & Hc). destruct (read_result s' c' f' j offset len Hs' Hok' Hro) as (r' & Hr' & Hc').
  exists r. split; [done|]. assert (r' = r) as ->; [|done]. destruct Hc as [[-> Hn]|(x & Hx & Hty & Hl & Hrb)], Hc' as [[-> Hn']|(x' & Hx' & Hty' & Hl' & Hrb')]; [done|..].
  - exfalso. assert (Hj : 0 <= j < zlen (cf_inodes c)). { apply aget_Some_range in Hx'. by rewrite (to_len _ (fk_tables _ _ Hok')) in Hx'; rewrite (to_len _ (fk_tables _ _ Hok)). }
    destruct (aget_is_Some _ _ Hj) as [x Hx]. destruct (Hi x Hx) as (y & Hy & E & _). specialize (Hn x Hx). congruence.
  - exfalso. destruct (Hi x Hx) as (y & Hy & E & _). specialize (Hn' y Hy). congruence.
  - destruct (Hi x Hx) as (y & Hy & E & Esz). rewrite Hx' in Hy. injection Hy as <-. destruct r as [n bs], r' as [n' bs']. cbn [fst snd] in *. pose proof (read_bytes_eq _ _ _ _ _ _ _ _ _ _ _ Hb Esz Hrb Hrb'). congruence.
Qed.
Lemma finds_look s c f path r : rep s c f -> tables_ok c -> finds s path r <-> look (cf_inodes c) path = Some r.
Proof.
  intros Hs Ht. unfold finds. rewrite lookup_answer by (rewrite (rep_fs _ _ _ Hs); apply Ht). rewrite (rep_fs _ _ _ Hs). unfold answer. destruct (look (cf_inodes c) path) as [q|]; [|naive_solver].
  split; [by intros (s' & [= <- _])|intros [= ->]; by exists s].
Qed.
End Reads.

(** ** A disk in memory *)

(** One drive; a sector never written is zero. *)
Abbreviation ram := (gmap Z (list byte)).
Definition ram_sector (d : ram) (a : Z) : list byte := default (zeros 512) (d !! a).
#[export] Instance ram_disk : Disk ram := {
  drive_present v := ret (v =? 0);
  disk_read_sector v a := if v =? 0 then gets (fun d => Some (ram_sector d a)) else ret None;
  disk_write_sector v a sec := if v =? 0 then do* modify (fun d : ram => <[a := sec]> d) in ret 0 else ret (-1) }.
#[export] Instance ram_laws : DiskLaws ram.
Proof.
  refine {| sector d v a := if v =? 0 then ram_sector d a else zeros 512; disk_ready d v n := v = 0 /\ forall a, length (ram_sector d a) = 512%nat |}.
  - intros d v n [-> Hd]. split; [done|]. by apply wp_ret.
  - intros d v n a [-> Hd] _. apply Hd.
  - intros d v n a [-> Hd] _. done.
  - intros d v n a sec [-> Hd] _ Hl. change (0 = 0 /\ (forall v' a', (if v' =? 0 then ram_sector (<[a := sec]> d) a' else zeros 512) = if decide (v' = 0 /\ a' = a) then sec else if v' =? 0 then ram_sector d a' else zeros 512) /\
      (forall v' (n' : Z), v' = 0 /\ (forall a', length (ram_sector d a') = 512%nat) -> v' = 0 /\ forall a', length (ram_sector (<[a := sec]> d) a') = 512%nat)). split_and!; [done|..].
    + intros v' a'. unfold ram_sector. destruct (Z.eqb_spec v' 0) as [->|Hv]; [|rewrite decide_False by naive_solver; done]. destruct (decide (a' = a)) as [->|Ha].
      * rewrite decide_True by done. by rewrite lookup_insert_eq.
      * rewrite decide_False by naive_solver. by rewrite lookup_insert_ne.
    + intros v' n' [-> _]. split; [done|]. intros a'. unfold ram_sector. destruct (decide (a' = a)) as [->|Ha]; [by rewrite lookup_insert_eq|]. rewrite lookup_insert_ne by done. apply Hd.
Defined.
(** The machine before the filesystem is used. *)
Definition blank : cstate ram heap := mk_cstate catfs_zero ∅ boot_heap 100.
Lemma blank_attached : attached blank 0 2048 (fun _ => zeros 512).
Proof. split_and!; try done; intros a Ha; unfold ram_sector; by rewrite lookup_empty. Qed.

(** ** The properties *)

Section Claims.
Context {D H : Type} `{!Disk D} `{!DiskLaws D} `{!Allocator H}.
Implicit Types (s : cstate D H) (ks : list call).

(** C9: Every sequence of calls on a formatted filesystem completes, whatever the order and the
    arguments, provided the parts of the paths given to create fit its arrays: no array is
    overrun, no block or inode outside the tables is touched, and the walks along paths and along
    parents end, since no sequence of renames and removals makes a directory its own
    ancestor. *)
Theorem catfs_calls_complete drive off label ks f s :
  attached s drive off f -> zlen (default (cs "catfs") label) < 32 -> Forall call_ok ks -> Forall fits ks ->
  exists rs s', used_disk drive off label ks rs s s'.
Proof.
  intros Ha Hl Hks Hfit. pose proof (format_ok drive off label f s Ha Hl) as Hw. unfold wp in Hw. unfold used_disk. destruct (catfs_format_at drive off label s) as [[r s0]|] eqn:Ef; [|done].
  destruct Hw as (c & g & Hs0 & -> & F). assert (Hnm : named false c) by (right; by eapply formatted_names). pose proof (spec_calls false ks c g (fm_ok _ _ _ _ F) Hks Hnm ltac:(by right) s0 Hs0) as Hsp.
  destruct (run_calls ks s0) as [[rs s']|] eqn:E; [|done]. exists rs, s', s0. done.
Qed.

(** C7: After a format and any calls, a write to a file stores a prefix of the buffer, all of it
    unless no block is free or the file is as large as a file can be, and reading the same place
    back returns that prefix; every read of every other file returns what it returned before. *)
Theorem catfs_write_read drive off label ks rs f s s' idx offset buf x :
  attached s drive off f -> zlen (default (cs "catfs") label) < 32 -> Forall call_ok ks -> used_disk drive off label ks rs s s' ->
  aget (cf_inodes (c_fs s')) idx = Some x -> not_file x = false -> call_ok (KWrite idx offset buf) ->
  wp (catfs_write idx offset buf) s' (fun n s'' => 0 <= n <= zlen buf /\
    (n < zlen buf -> full (c_fs s'') \/ CATFS_MAX_FILE_BLOCKS * CATFS_BLOCK_SIZE <= offset + n) /\
    reads s'' idx offset n (n, take (Z.to_nat n) buf) /\ forall j, j <> idx -> same_reads s' s'' j).
Proof.
  intros Ha Hl Hks Hu Hx Hnf (Ho & He & Hn). destruct (used_ok drive off label ks rs f s s' Ha Hl Hks Hu) as (c & g & Hs & Hok & _). rewrite (rep_fs _ _ _ Hs) in Hx.
  pose proof (spec_catfs_write idx offset buf c g Hok Ho He Hn s' Hs) as Hw. unfold wp. destruct (catfs_write idx offset buf s') as [[n s'']|]; [|done].
  destruct Hw as (c' & f' & Hs' & [(_ & _ & _ & Hno)|(k & -> & Hk & W & Hf)]); [specialize (Hno x Hx); congruence|]. rewrite Nat2Z.id.
  assert (Hbl : zlen (take k buf) = Z.of_nat k) by (rewrite length_take; lia). pose proof (wr_ok _ _ _ _ _ _ _ W) as Hok'. split_and!; [lia|lia| | |].
  - intros Hlt. rewrite (rep_fs _ _ _ Hs'). apply Hf. lia.
  - destruct (read_result s'' c' f' idx offset (Z.of_nat k) Hs' Hok') as (r & Hr & Hc); [split_and!; lia|]. destruct (wr_inode _ _ _ _ _ _ _ W) as (y & x' & Hy & Hx' & _ & Hty & _ & _ & Hsz). rewrite Hx in Hy. injection Hy as <-.
    destruct Hc as [[-> Hfree]|(x2 & Hx2 & _ & Hr1 & Hrb)]; [specialize (Hfree x' Hx'); rewrite Hty in Hfree; unfold not_file in Hnf; by rewrite Hfree in Hnf|]. rewrite Hx' in Hx2. injection Hx2 as <-.
    destruct r as [n bs]. cbn [fst snd] in *. subst n. assert (bs = take k buf) as ->; [|by rewrite Hbl in Hr].
    eapply (read_bytes_eq c' f' c' f' idx offset (Z.of_nat k) x' x'); [done|done|exact Hrb|]. split_and!; [|intros i Hi; by apply (wr_bytes _ _ _ _ _ _ _ W)|]; rewrite Hbl; [|lia].
    destruct (take k buf) eqn:E; [cbn in Hbl; lia|]. rewrite Hsz. lia.
  - intros j Hj. eapply read_same; [exact Hs|exact Hs'|done|done|]. split; [|by intros p; apply (wr_other_bytes _ _ _ _ _ _ _ W)]. intros y Hy. exists y. by rewrite (wr_others _ _ _ _ _ _ _ W).
Qed.

(** C6: Of a filesystem that was formatted and then used, a machine that starts with nothing of
    it in memory mounts the same: every path is found where it was and every read of every file
    returns what it returned; for up to two hundred calls, none of them a write that stored
    nothing. *)
Theorem catfs_survives_crash drive off label ks rs f s s' boot :
  attached s drive off f -> zlen (default (cs "catfs") label) < 32 -> Forall call_ok ks -> used_disk drive off label ks rs s s' -> zlen ks <= 200 -> Forall2 lossless ks rs ->
  c_disk boot = c_disk s' -> tables_sized (c_fs boot) -> 0 <= c_ticks boot < 2 ^ 32 ->
  wp (catfs_mount_at drive off) boot (fun r s'' => r = 0 /\ (forall path i, finds s'' path i <-> finds s' path i) /\ (forall j, same_reads s' s'' j)).
Proof.
  intros Ha Hl Hks Hu Hn Hll Hd Hsz Ht. destruct (used_ok drive off label ks rs f s s' Ha Hl Hks Hu) as (c & g & Hs & Hok & <- & <- & _ & _ & _ & Hsync). specialize (Hsync Hn Hll).
  pose proof (fk_tables _ _ Hok) as Htb. assert (Hb : attached boot (cf_disk_drive c) (cf_partition_offset c) g).
  { destruct (rep_attached _ _ _ Hs) as (H1 & H2 & H3 & _ & H5). unfold attached. rewrite Hd. done. }
  eapply wp_mono; [by apply (mount_recovers _ _ c g)|]. cbv beta. intros r s'' (c' & f' & Hs' & -> & M). pose proof (mt_recovered _ _ _ _ _ _ M) as R. pose proof (mt_tables _ _ _ _ _ _ M) as Ht'.
  destruct (recovered_ok c c' g f' Hok R Ht') as [Hok' Hby]. { intros a Hlo. rewrite (mt_disk _ _ _ _ _ _ M). apply fput_other. change DATA_LBA with 100 in Hlo. change SB_LBA with 0. lia. }
  split_and!; [done|..].
  - intros path i. rewrite (finds_look _ _ _ _ _ Hs' Ht'), (finds_look _ _ _ _ _ Hs Htb). by rewrite (look_recovered c c').
  - intros j. eapply read_same; [exact Hs|exact Hs'|done|done|]. split; [|intros p; apply Hby]. intros x Hx. destruct (rc_inode _ _ R j x Hx) as (t & _ & E). by exists (x <| ci_atime := t |>).
Qed.

(** C8: After a format and any calls, the blocks marked in the bitmap are block zero and the
    blocks that some slot of an inode names, directly or through the blocks of pointers; no block
    is named by two slots, so no two files share a block and none is lost. *)
Theorem catfs_blocks_exact drive off label ks rs f s s' :
  attached s drive off f -> zlen (default (cs "catfs") label) < 32 -> Forall call_ok ks -> used_disk drive off label ks rs s s' ->
  exists g, attached s' drive off g /\
    (forall b, 0 < b -> marked (cf_bitmap (c_fs s')) b = Some true <-> exists i sl, valid sl /\ iptr (c_fs s') g i sl = b) /\
    (forall i a j b, valid a -> valid b -> iptr (c_fs s') g i a = iptr (c_fs s') g j b -> iptr (c_fs s') g i a <> 0 -> i = j /\ a = b).
Proof.
  intros Ha Hl Hks Hu. destruct (used_ok drive off label ks rs f s s' Ha Hl Hks Hu) as (c & g & Hs & Hok & <- & <- & _). exists g. rewrite (rep_fs _ _ _ Hs). pose proof (fk_tree _ _ Hok) as Hk.
  split_and!; [by apply rep_attached| |apply Hk]. intros b Hb. split; [intros Hm; apply (tk_used _ _ Hk); [done|lia]|]. intros (i & sl & Hv & <-). apply (tk_ptr _ _ Hk i sl Hv). lia.
Qed.

(** C33: A file or directory created by an absolute path is found by that path, and every path
    that was found before is found where it was. *)
Theorem catfs_create_lookup drive off label ks rs f s s' path type r s'' :
  attached s drive off f -> zlen (default (cs "catfs") label) < 32 -> Forall call_ok ks -> used_disk drive off label ks rs s s' ->
  head path = Some slash -> nul ∉ path -> 0 < type < 256 -> catfs_create path type s' = Done (r, s'') -> 0 <= r ->
  finds s'' path r /\ (forall q i, finds s' q i -> 0 <= i -> finds s'' q i).
Proof.
  intros Ha Hl Hks Hu Habs Hnul Hty Hcr Hr. destruct (used_ok drive off label ks rs f s s' Ha Hl Hks Hu) as (c & g & Hs & Hok & _ & _ & Hroot & _). pose proof (fk_tables _ _ Hok) as Ht.
  pose proof (spec_create true path type c g Hok ltac:(lia) ltac:(by left) ltac:(by left) s' Hs) as Hsp. rewrite Hcr in Hsp. destruct Hsp as (c' & f' & Hs' & [(-> & _)|Hc]); [lia|].
  destruct Hc as (x & name & dir & base & p & t & old & Hrr & Hx & Hfree & Hsl & Hdir & Hp & Hold & Hneg & Hname & Htt & Hm). pose proof (fk_tables _ _ (md_ok _ _ _ _ _ _ Hm)) as Ht'.
  assert (Hbase : nul ∉ base). { destruct (split_last_abs path dir base Habs Hsl) as (d & -> & _). intros Hin. apply Hnul. set_solver. }
  destruct (look_created (cf_inodes c) r x (fresh_inode name type p t) path dir base p old) as [Hfound Hkeep]; try done; [rewrite (to_len c Ht); lia|cbn; change CATFS_TYPE_FREE with 0; lia|by eapply cname_poke|].
  rewrite <- (md_inodes _ _ _ _ _ _ Hm) in *. split; [by apply (finds_look _ _ _ _ _ Hs' Ht')|]. intros q i Hq Hi. apply (finds_look _ _ _ _ _ Hs' Ht'). apply (finds_look _ _ _ _ _ Hs Ht) in Hq. apply Hkeep; [done|lia].
Qed.
End Claims.

(** ** Runs *)

Definition result {A} (m : M (cstate ram heap) A) : option A := match m blank with Done (a, _) => Some a | Fault => None end.
Definition demo_run {A} (ks : list call) (m : M (cstate ram heap) A) : M (cstate ram heap) (Z * list Z * A) :=
  let* r := catfs_format_at 0 2048 None in let* rs := run_calls ks in let* v := m in ret (r, rs, v).
Lemma demo_used {A} ks rs (m : M (cstate ram heap) A) a : result (demo_run ks m) = Some (0, rs, a) -> exists s' s'', used_disk 0 2048 None ks rs blank s' /\ m s' = Done (a, s'').
Proof.
  unfold result, demo_run, used_disk, bind, ret. destruct (catfs_format_at 0 2048 None blank) as [[r s0]|]; [|done]. destruct (run_calls ks s0) as [[rs' s']|] eqn:E; [|done].
  destruct (m s') as [[v s'']|] eqn:E'; [|done]. intros [= -> -> ->]. exists s', s''. split; [|done]. by exists s0.
Qed.
(** A machine that starts with a disk. *)
Definition booted (d : ram) : cstate ram heap := mk_cstate catfs_zero d boot_heap 0.

Definition demo_calls : list call := [KCreate (cs "/a") CATFS_TYPE_FILE; KCreate (cs "/d") CATFS_TYPE_DIR; KCreate (cs "/d/b") CATFS_TYPE_FILE; KWrite 1 0 (cs "meow"); KChmod 3 0x180; KUnlink 3].
Lemma demo_calls_ok : Forall call_ok demo_calls.
Proof. repeat (apply list.Forall_cons_2; [done|]). apply list.Forall_nil_2. Qed.

Definition demo_results : list Z := [1; 2; 3; 4; 0; 0].
(** The machine after those calls. *)
Lemma demo_state : exists s' x s'', used_disk 0 2048 None demo_calls demo_results blank s' /\ aget (cf_inodes (c_fs s')) 1 = Some x /\ not_file x = false /\ catfs_create (cs "/d/c") CATFS_TYPE_FILE s' = Done (3, s'').
Proof.
  destruct (demo_used demo_calls demo_results (let* v := fs (fun c => not_file <$> aget (cf_inodes c) 1) in let* r := catfs_create (cs "/d/c") CATFS_TYPE_FILE in ret (v, r)) (Some false, 3)) as (s' & s'' & Hu & Hm); [vm_compute; reflexivity|].
  unfold bind, fs, gets, ret in Hm. destruct (catfs_create (cs "/d/c") CATFS_TYPE_FILE s') as [[r s1]|] eqn:Ec; [|done]. injection Hm as Hx Hr _. subst r.
  destruct (aget (cf_inodes (c_fs s')) 1) as [x|] eqn:E; [|done]. injection Hx as Hx. exists s', x, s1. done.
Qed.

Lemma catfs_write_read_witness : exists s' x, used_disk 0 2048 None demo_calls demo_results blank s' /\ aget (cf_inodes (c_fs s')) 1 = Some x /\
  wp (catfs_write 1 600 (cs "purr")) s' (fun n s'' => 0 <= n <= 4 /\
    (n < 4 -> full (c_fs s'') \/ CATFS_MAX_FILE_BLOCKS * CATFS_BLOCK_SIZE <= 600 + n) /\
    reads s'' 1 600 n (n, take (Z.to_nat n) (cs "purr")) /\ forall j, j <> 1 -> same_reads s' s'' j).
Proof.
  destruct demo_state as (s' & x & _ & Hu & E & Hx & _). exists s', x. split; [exact Hu|]. split; [exact E|].
  apply (catfs_write_read 0 2048 None demo_calls demo_results _ blank s' 1 600 (cs "purr") x blank_attached); [reflexivity|exact demo_calls_ok|exact Hu|exact E|exact Hx|]. repeat split; (reflexivity || discriminate).
Defined.

Lemma catfs_survives_crash_witness : exists s', used_disk 0 2048 None demo_calls demo_results blank s' /\
  wp (catfs_mount_at 0 2048) (booted (c_disk s')) (fun r s'' => r = 0 /\ (forall path i, finds s'' path i <-> finds s' path i) /\ (forall j, same_reads s' s'' j)).
Proof.
  destruct demo_state as (s' & _ & _ & Hu & _). exists s'. split; [exact Hu|].
  apply (catfs_survives_crash 0 2048 None demo_calls demo_results _ blank s' (booted (c_disk s')) blank_attached); [reflexivity|exact demo_calls_ok|exact Hu|discriminate| |reflexivity|split; reflexivity|split; [discriminate|reflexivity]].
  repeat (apply list.Forall2_cons_2; [done|]). apply list.Forall2_nil_2.
Defined.

Lemma catfs_calls_complete_witness : exists rs s', used_disk 0 2048 None demo_calls rs blank s'.
Proof. apply (catfs_calls_complete 0 2048 None demo_calls _ blank blank_attached); [reflexivity|exact demo_calls_ok|]. repeat (apply list.Forall_cons_2; [first [exact I|eexists; reflexivity]|]). apply list.Forall_nil_2. Defined.

Lemma catfs_blocks_exact_witness : exists s', used_disk 0 2048 None demo_calls demo_results blank s' /\
  exists g, attached s' 0 2048 g /\
    (forall b, 0 < b -> marked (cf_bitmap (c_fs s')) b = Some true <-> exists i sl, valid sl /\ iptr (c_fs s') g i sl = b) /\
    (forall i a j b, valid a -> valid b -> iptr (c_fs s') g i a = iptr (c_fs s') g j b -> iptr (c_fs s') g i a <> 0 -> i = j /\ a = b).
Proof.
  destruct demo_state as (s' & _ & _ & Hu & _). exists s'. split; [exact Hu|].
  apply (catfs_blocks_exact 0 2048 None demo_calls demo_results _ blank s' blank_attached); [reflexivity|exact demo_calls_ok|exact Hu].
Defined.

Lemma catfs_create_lookup_witness : exists s' s'' : cstate ram heap, catfs_create (cs "/d/c") CATFS_TYPE_FILE s' = Done (3, s'') /\ finds s'' (cs "/d/c") 3 /\ (forall q i, finds s' q i -> 0 <= i -> finds s'' q i).
Proof.
  destruct demo_state as (s' & _ & s'' & Hu & _ & _ & Hc). exists s', s''. split; [exact Hc|].
  apply (catfs_create_lookup 0 2048 None demo_calls demo_results _ blank s' (cs "/d/c") CATFS_TYPE_FILE 3 s'' blank_attached); [reflexivity|exact demo_calls_ok|exact Hu|reflexivity| |split; reflexivity|exact Hc|discriminate].
  apply (bool_decide_unpack (nul ∉ cs "/d/c")). vm_compute. exact I.
Defined.

(** ** The journal and the table of inodes *)

Definition remount {A} (m : M (cstate ram heap) A) : M (cstate ram heap) A :=
  do* upd_fs (fun _ => catfs_zero) in do* catfs_mount_at 0 2048 in m.
(** The journal has 204 slots and its eight sectors hold 200 records: record 203 is written over
    the type of the root, and after a restart no path is found any more; after 202 records all
    are. *)
Theorem journal_overwrites_root :
  let calls (n : nat) := KCreate (cs "/f") CATFS_TYPE_FILE :: replicate n (KChmod 1 0x180) in
  result (demo_run (calls 202%nat) (remount (catfs_lookup (cs "/f")))) = Some (0, 1 :: replicate 202 0, -1) /\
  result (demo_run (calls 201%nat) (remount (catfs_lookup (cs "/f")))) = Some (0, 1 :: replicate 201 0, 1).
Proof. split; vm_compute; reflexivity. Qed.
