(* ===== verification/CatfsVfs.v ===== *)
(** * CatFS in the virtual filesystem (src/src/catfs_vfs.c)

    The adapter gives each inode of CatFS a wrapper, an element of the static array
    [catfs_nodes]; a pointer to an inode of the virtual filesystem is the position of the wrapper,
    or nothing for NULL.  A parameter that is a pointer to a result is a boolean that says
    whether it is not NULL, and what is stored there is part of the result.  The heap in the state
    of CatFS is not used here.  Then what makes the adapter correct: the path it builds for an
    inode is the path of that inode. *)

From S2P Require Import Prelude Cstring Alloc Kmalloc HeapAlloc Vfs VfsPath Elf NativeApp Catfs CatfsOps CatfsNames CatfsInv CatfsTree CatfsIo CatfsSync CatfsFree CatfsMount CatfsProps.

(** ** Wrappers *)

Definition CATFS_TYPE_SYMLINK : Z := 3.
Definition ENAMETOOLONG : Z := 36.
Definition CATFS_VFS_PINNED_REFS : Z := 0x40000000.

(** The fields of [vfs_inode_t] that are not NULL or zero in every wrapper; [n_ops] says whether
    the table of operations is set. *)
Record cnode := mk_cnode {
  n_ino : Z; n_mode : Z; n_uid : Z; n_gid : Z; n_nlink : Z; n_size : Z; n_atime : timespec; n_mtime : timespec; n_ctime : timespec;
  n_ops : bool; n_priv : Z; n_refcount : Z }.
#[export] Instance eta_cnode : Eta cnode := fun n => mk_cnode (n_ino n) (n_mode n) (n_uid n) (n_gid n) (n_nlink n) (n_size n) (n_atime n) (n_mtime n) (n_ctime n)
  (n_ops n) (n_priv n) (n_refcount n).
Definition cnode_zero : cnode := mk_cnode 0 0 0 0 0 0 (mk_ts 0 0) (mk_ts 0 0) (mk_ts 0 0) false 0 0.

Record cvstate (D H : Type) := mk_cv {
  cv_fs : cstate D H; cv_vfs : vfs H; catfs_nodes : list cnode; catfs_node_ready : list bool; catfs_mount_path : cstr; catfs_vfs_active : bool }.
Arguments mk_cv {_ _} _ _ _ _ _ _. Arguments cv_fs {_ _}. Arguments cv_vfs {_ _}. Arguments catfs_nodes {_ _}. Arguments catfs_node_ready {_ _}.
Arguments catfs_mount_path {_ _}. Arguments catfs_vfs_active {_ _}.
#[export] Instance eta_cv D H : Eta (cvstate D H) := fun s => mk_cv (cv_fs s) (cv_vfs s) (catfs_nodes s) (catfs_node_ready s) (catfs_mount_path s) (catfs_vfs_active s).

(** ** Paths of inodes *)

(** A name put after [out], with a slash between them, in an array of [outsz] bytes. *)
Definition put_name (n : cstr) (outsz : Z) (out : cstr) : option cstr :=
  if 1 <? zlen out then
    if outsz <=? zlen out + 1 then None
    else if outsz <=? zlen out + 1 + zlen n then None else Some (out ++ slash :: n)
  else if outsz <=? zlen out + zlen n then None else Some (out ++ n).

Section Adapter.
Context {D H : Type} `{!Disk D} `{!Allocator H}.
Abbreviation CV := (M (cvstate D H)).

Definition on_catfs {A} (m : M (cstate D H) A) : CV A := zoom cv_fs (fun c s => s <| cv_fs := c |>) m.
Definition on_mounts {A} (m : M (vfs H) A) : CV A := zoom cv_vfs (fun v s => s <| cv_vfs := v |>) m.
Definition cino (i : Z) : CV catfs_inode := on_catfs (cinode i).
Definition catfs_mounted : CV Z := on_catfs (fs cf_mounted).

Definition catfs_vfs_index (node : option Z) : CV Z :=
  match node with
  | None => ret (-1)
  | Some k => let* n := deref (fun s => aget (catfs_nodes s) k) in ret (if n_priv n =? 0 then -1 else i32 (n_priv n - 1))
  end.

Definition mode_kind (t : Z) : Z := if t =? CATFS_TYPE_DIR then S_IFDIR else if t =? CATFS_TYPE_SYMLINK then S_IFLNK else S_IFREG.
Definition catfs_vfs_mode (idx : Z) : CV Z := let* x := cino idx in ret (Z.lor (mode_kind (ci_type x)) (Z.land (ci_perms x) 0x1ff)).
Definition catfs_vfs_dtype (idx : Z) : CV Z :=
  let* x := cino idx in ret (if ci_type x =? CATFS_TYPE_DIR then DT_DIR else if ci_type x =? CATFS_TYPE_SYMLINK then DT_LNK else DT_REG).

Definition upd_node (idx : Z) (f : cnode -> cnode) : CV unit :=
  let* n := deref (fun s => aget (catfs_nodes s) idx) in modify (fun s => s <| catfs_nodes := aset (catfs_nodes s) idx (f n) |>).
Definition catfs_vfs_inode (idx : Z) : CV (option Z) :=
  let* m := catfs_mounted in
  if (m =? 0) || (idx <? 0) || (CATFS_INODE_MAX <=? idx) then ret None
  else
    let* x := cino idx in
    if ci_type x =? CATFS_TYPE_FREE then ret None
    else
      let* ready := deref (fun s => aget (catfs_node_ready s) idx) in
      do* (if ready then ret tt
           else
             do* upd_node idx (fun _ => mk_cnode (idx + 1) 0 0 0 1 0 (mk_ts 0 0) (mk_ts 0 0) (mk_ts 0 0) true (u32 (idx + 1)) CATFS_VFS_PINNED_REFS) in
             modify (fun s => s <| catfs_node_ready := aset (catfs_node_ready s) idx true |>)) in
      let* mode := catfs_vfs_mode idx in
      do* upd_node idx (fun n => n <| n_mode := mode |> <| n_size := ci_size x |> <| n_atime := mk_ts (ci_atime x) 0 |> <| n_mtime := mk_ts (ci_mtime x) 0 |>
                                   <| n_ctime := mk_ts (ci_ctime x) 0 |>) in
      ret (Some idx).

(** [while (idx > 0)]: the inodes from the root down, or nothing for an error; [fuel] is the room
    left in [chain]. *)
Fixpoint chain_loop (fuel : nat) (idx : Z) (chain : list Z) : CV (option (list Z)) :=
  if idx <=? 0 then ret (Some chain)
  else
    match fuel with
    | O => ret None
    | S fuel' =>
      let* x := cino idx in
      if ci_type x =? CATFS_TYPE_FREE then ret None
      else if (ci_parent x <? 0) || (CATFS_INODE_MAX <=? ci_parent x) then ret None else chain_loop fuel' (ci_parent x) (idx :: chain)
    end.
Fixpoint put_chain (chain : list Z) (outsz : Z) (out : cstr) : CV (option cstr) :=
  match chain with
  | [] => ret (Some out)
  | i :: chain' =>
    let* x := cino i in
    let* n := on_catfs (the (cname (ci_name x))) in
    match put_name n outsz out with None => ret None | Some out' => put_chain chain' outsz out' end
  end.
Definition catfs_vfs_path_for_index (idx outsz : Z) : CV (option cstr) :=
  if (outsz <? 2) || (idx <? 0) || (CATFS_INODE_MAX <=? idx) then ret None
  else
    let* chain := chain_loop (Z.to_nat CATFS_INODE_MAX) idx [] in
    match chain with None => ret None | Some chain => put_chain chain outsz [slash] end.

Definition catfs_vfs_child_path (parent_idx : Z) (name : option cstr) (outsz : Z) : CV (option cstr) :=
  match name with
  | None => ret None
  | Some name =>
    if (zlen name =? 0) || (CATFS_NAME_MAX <=? zlen name) then ret None
    else
      let* out := catfs_vfs_path_for_index parent_idx outsz in
      match out with None => ret None | Some out => ret (put_name name outsz out) end
  end.

(** ** Names *)

Definition catfs_vfs_lookup (dir : option Z) (name : cstr) (out : bool) : CV (Z * option Z) :=
  let* parent := catfs_vfs_index dir in
  if negb out || (parent <? 0) then ret (- ENOTDIR, None)
  else
    let* px := cino parent in
    if negb (ci_type px =? CATFS_TYPE_DIR) then ret (- ENOTDIR, None)
    else if bool_decide (name = cs ".") then let* n := catfs_vfs_inode parent in ret (0, n)
    else if bool_decide (name = cs "..") then
      let up := ci_parent px in
      let* n := catfs_vfs_inode (if up <? 0 then parent else up) in
      ret (match n with Some _ => 0 | None => - ENOENT end, n)
    else
      let* found := on_catfs (search_inode (is_child parent name) inodes_from1) in
      match found with
      | None => ret (- ENOENT, None)
      | Some i => let* n := catfs_vfs_inode i in ret (match n with Some _ => 0 | None => - ENOENT end, n)
      end.

Definition catfs_vfs_create_common (dir : option Z) (name : option cstr) (type : Z) (out : bool) : CV (Z * option Z) :=
  let* parent := catfs_vfs_index dir in
  if parent <? 0 then ret (- ENOTDIR, None)
  else
    let* px := cino parent in
    if negb (ci_type px =? CATFS_TYPE_DIR) then ret (- ENOTDIR, None)
    else
      let* path := catfs_vfs_child_path parent name VFS_PATH_MAX in
      match path with
      | None => ret (- ENAMETOOLONG, None)
      | Some path =>
        let* idx := on_catfs (catfs_create path type) in
        if idx <? 0 then ret (- ENOSPC, None)
        else if out then let* n := catfs_vfs_inode idx in ret (0, n) else ret (0, None)
      end.
Definition catfs_vfs_create (dir : option Z) (name : option cstr) (out : bool) : CV (Z * option Z) := catfs_vfs_create_common dir name CATFS_TYPE_FILE out.
Definition catfs_vfs_mkdir (dir : option Z) (name : option cstr) (out : bool) : CV (Z * option Z) := catfs_vfs_create_common dir name CATFS_TYPE_DIR out.

Definition catfs_vfs_unlink (dir : option Z) (name : cstr) : CV Z :=
  let* '(r, node) := catfs_vfs_lookup dir name true in
  if r <? 0 then ret r
  else
    let* idx := catfs_vfs_index node in
    if idx <? 0 then ret (- EISDIR)
    else
      let* x := cino idx in
      if ci_type x =? CATFS_TYPE_DIR then ret (- EISDIR) else let* r := on_catfs (catfs_unlink idx) in ret (if r =? 0 then 0 else - EINVAL).
Definition catfs_vfs_rmdir (dir : option Z) (name : cstr) : CV Z :=
  let* '(r, node) := catfs_vfs_lookup dir name true in
  if r <? 0 then ret r
  else
    let* idx := catfs_vfs_index node in
    if idx <=? 0 then ret (- ENOTDIR)
    else
      let* x := cino idx in
      if negb (ci_type x =? CATFS_TYPE_DIR) then ret (- ENOTDIR) else let* r := on_catfs (catfs_unlink idx) in ret (if r =? 0 then 0 else - ENOTEMPTY).
Definition catfs_vfs_rename (old_dir : option Z) (old_name : cstr) (new_dir : option Z) (new_name : option cstr) : CV Z :=
  let* '(r, node) := catfs_vfs_lookup old_dir old_name true in
  if r <? 0 then ret r
  else
    let* idx := catfs_vfs_index node in
    let* parent := catfs_vfs_index new_dir in
    if (idx <? 0) || (parent <? 0) then ret (- EINVAL)
    else let* r := on_catfs (catfs_rename idx parent new_name) in ret (if r =? 0 then 0 else - EINVAL).

Definition catfs_vfs_symlink (dir : option Z) (name : option cstr) (target : cstr) : CV Z :=
  let* '(r, node) := catfs_vfs_create_common dir name CATFS_TYPE_SYMLINK true in
  if r <? 0 then ret r
  else
    let* idx := catfs_vfs_index node in
    let* bad := (if VFS_PATH_MAX <=? zlen target then ret true
                 else let* w := on_catfs (catfs_write idx 0 target) in ret (negb (w =? zlen target))) in
    if bad then do* on_catfs (catfs_unlink idx) in ret (- ENOSPC) else ret 0.
Definition catfs_vfs_readlink (node : option Z) (buf : bool) (bufsz : Z) : CV (Z * option (list byte)) :=
  let* idx := catfs_vfs_index node in
  if (idx <? 0) || negb buf || (bufsz =? 0) then ret (- EINVAL, None)
  else
    let* x := cino idx in
    if negb (ci_type x =? CATFS_TYPE_SYMLINK) then ret (- EINVAL, None)
    else
      let* '(n, bs) := on_catfs (catfs_read idx 0 (u32 (bufsz - 1))) in
      if n <? 0 then ret (- EINVAL, None) else ret (n, Some (bs ++ [nul])).

(** The entry of number [ordinal] among the children of [parent]. *)
Fixpoint readdir_loop (ids : list Z) (parent ordinal seen : Z) : CV (option Z) :=
  match ids with
  | [] => ret None
  | i :: ids' =>
    let* x := cino i in
    if (ci_type x =? CATFS_TYPE_FREE) || negb (ci_parent x =? parent) then readdir_loop ids' parent ordinal seen
    else if negb (seen =? ordinal) then readdir_loop ids' parent ordinal (u32 (seen + 1)) else ret (Some i)
  end.
Definition catfs_vfs_readdir (dir : option Z) (ordinal : Z) (out : bool) : CV (Z * option dirent) :=
  let* parent := catfs_vfs_index dir in
  if (parent <? 0) || negb out then ret (- ENOTDIR, None)
  else
    let* px := cino parent in
    if negb (ci_type px =? CATFS_TYPE_DIR) then ret (- ENOTDIR, None)
    else
      let* found := readdir_loop inodes_from1 parent ordinal 0 in
      match found with
      | None => ret (- ENOENT, None)
      | Some i =>
        let* t := catfs_vfs_dtype i in
        let* x := cino i in
        let* n := on_catfs (the (cname (ci_name x))) in
        ret (0, Some (mk_dirent (i + 1) t n (i + 1) t))
      end.

(** ** Data *)

Definition u32_max : Z := 0xFFFFFFFF.
Definition catfs_vfs_read (node : option Z) (off size : Z) : CV (Z * list byte) :=
  let* idx := catfs_vfs_index node in
  if (idx <? 0) || (u32_max <? off) || (u32_max <? size) then ret (- EINVAL, []) else on_catfs (catfs_read idx off size).
Definition refresh (idx : Z) : CV unit := let* _ := catfs_vfs_inode idx in ret tt.
Definition catfs_vfs_write (node : option Z) (off : Z) (buf : list byte) : CV Z :=
  let* idx := catfs_vfs_index node in
  if (idx <? 0) || (u32_max <? off) || (u32_max <? zlen buf) then ret (- EINVAL)
  else
    let* n := on_catfs (catfs_write idx off buf) in
    do* (if 0 <=? n then refresh idx else ret tt) in ret n.
Definition catfs_vfs_truncate (node : option Z) (size : Z) : CV Z :=
  let* idx := catfs_vfs_index node in
  if (idx <? 0) || (u32_max <? size) then ret (- EINVAL)
  else
    let* r := on_catfs (catfs_truncate idx size) in
    do* (if r =? 0 then refresh idx else ret tt) in ret r.

Definition catfs_vfs_stat (node : option Z) (st : bool) : CV (Z * option stat) :=
  let* idx := catfs_vfs_index node in
  if (idx <? 0) || negb st then ret (- ENOENT, None)
  else
    let* x := cino idx in
    if ci_type x =? CATFS_TYPE_FREE then ret (- ENOENT, None)
    else
      let* mode := catfs_vfs_mode idx in
      ret (0, Some (mk_stat (idx + 1) mode 1 0 0 (ci_size x) CATFS_BLOCK_SIZE (u32 (ci_size x + CATFS_BLOCK_SIZE - 1) / CATFS_BLOCK_SIZE)
                      (mk_ts (ci_atime x) 0) (mk_ts (ci_mtime x) 0) (mk_ts (ci_ctime x) 0) (idx + 1) (ci_size x) (mode_kind (ci_type x))
                      (Z.land (Z.shiftr (ci_perms x) 6) 7) 0 0)).
Definition catfs_vfs_chmod (node : option Z) (mode : Z) : CV Z :=
  let* idx := catfs_vfs_index node in
  if idx <? 0 then ret (- EINVAL)
  else
    let* r := on_catfs (catfs_chmod idx (Z.land mode 0x1ff)) in
    do* (if r =? 0 then refresh idx else ret tt) in ret r.
Definition catfs_vfs_chown (node : option Z) (uid gid : Z) : CV Z := ret (- EINVAL).

(** ** Mounting *)

(** [root_at] is the address of [catfs_nodes[0]]. *)
Definition catfs_vfs_mount (root_at : Z) (mount_path : option cstr) : CV Z :=
  let* m := catfs_mounted in
  match mount_path with
  | None => ret (-1)
  | Some p =>
    if (m =? 0) || negb (bool_decide (head p = Some slash)) then ret (-1)
    else
      let* active := gets catfs_vfs_active in
      if active then let* q := gets catfs_mount_path in ret (if bool_decide (q = p) then 0 else -1)
      else
        do* modify (fun s => s <| catfs_nodes := replicate (Z.to_nat CATFS_INODE_MAX) cnode_zero |> <| catfs_node_ready := replicate (Z.to_nat CATFS_INODE_MAX) false |>) in
        let* root := catfs_vfs_inode 0 in
        match root with
        | None => ret (-1)
        | Some _ =>
          let* r := on_mounts (vfs_mount (Some p) root_at) in
          if r <? 0 then ret (-1)
          else
            do* guard (fits_in p VFS_PATH_MAX) in
            do* modify (fun s => s <| catfs_mount_path := p |> <| catfs_vfs_active := true |>) in ret 0
        end
  end.
Definition catfs_vfs_unmount : CV Z :=
  let* active := gets catfs_vfs_active in
  if negb active then ret 0
  else
    let* p := gets catfs_mount_path in
    let* r := on_mounts (vfs_unmount (Some p)) in
    if r <? 0 then ret (-1) else do* modify (fun s => s <| catfs_vfs_active := false |> <| catfs_mount_path := [] |>) in ret 0.
Definition catfs_vfs_is_mounted : CV bool := gets catfs_vfs_active.
End Adapter.

(** ** The path of an inode *)

(** The inodes from the root, which is left out, down to [i]. *)
Inductive descends (l : list catfs_inode) : list Z -> Z -> Prop :=
  | desc_root : descends l [] 0
  | desc_step chain i x : in_use l i x -> descends l chain (ci_parent x) -> descends l (chain ++ [i]) i.
Fixpoint place_all (l : list catfs_inode) (chain : list Z) (outsz : Z) (out : cstr) : option (option cstr) :=
  match chain with
  | [] => Some (Some out)
  | i :: chain' => x ← aget l i; n ← cname (ci_name x); match put_name n outsz out with None => Some None | Some out' => place_all l chain' outsz out' end
  end.
Lemma place_all_app l chain i outsz : forall out, place_all l (chain ++ [i]) outsz out =
  match place_all l chain outsz out with Some (Some p) => x ← aget l i; n ← cname (ci_name x); Some (put_name n outsz p) | o => o end.
Proof.
  induction chain as [|j chain IH]; intros out; cbn [app place_all].
  - destruct (aget l i) as [x|]; [|done]. cbn. destruct (cname (ci_name x)) as [n|]; [|done]. cbn. by destruct (put_name n outsz out).
  - destruct (aget l j) as [x|]; [|done]. cbn. destruct (cname (ci_name x)) as [n|]; [|done]. cbn. destruct (put_name n outsz out); [apply IH|done].
Qed.
Lemma put_name_below n outsz d p : put_name n outsz (slash :: d) = Some p -> p = if decide (d = []) then slash :: n else slash :: d ++ slash :: n.
Proof.
  unfold put_name. destruct d as [|b d]; cbn [length]; [change (1 <? Z.of_nat 1) with false; cbn iota; by case_match; [|intros [= <-]]|].
  destruct (Z.ltb_spec 1 (Z.of_nat (S (S (length d))))); [|lia]. repeat case_match; try done. by intros [= <-].
Qed.
Lemma cname_no_nul arr n : cname arr = Some n -> nul ∉ n.
Proof.
  revert n. induction arr as [|b arr IH]; intros n; [done|]. cbn. case_bool_decide; [intros [= <-]; apply not_elem_of_nil|]. destruct (cname arr) as [m|]; [|done]. intros [= <-]. apply not_elem_of_cons. split; [congruence|by apply IH].
Qed.
Lemma put_name_nul n outsz d p : put_name n outsz (slash :: d) = Some p -> nul ∉ slash :: d -> nul ∉ n -> nul ∉ p.
Proof. intros Hp Hd Hn. apply put_name_below in Hp as ->. apply not_elem_of_cons in Hd as [_ Hd]. case_decide; apply not_elem_of_cons; (split; [done|]); [done|]. apply not_elem_of_app. split; [done|]. by apply not_elem_of_cons. Qed.
(** The path of an inode leads to it. *)
Lemma path_leads l outsz chain i p : tidy l -> names_ok l -> Forall inode_ok l -> zlen l = 256 -> is_dir_root l = Some true -> descends l chain i -> place_all l chain outsz [slash] = Some (Some p) ->
  exists d, p = slash :: d /\ (nul ∉ p) /\ look l p = Some i.
Proof.
  intros Ht Hk Hio Hl Hroot Hd. revert p. induction Hd as [|chain i x Hx Hd IH]; intros p Hp; [injection Hp as <-; exists []; split_and!; [done|by apply not_elem_of_cons; split; [|apply not_elem_of_nil]|done]|].
  rewrite place_all_app in Hp. destruct (place_all l chain outsz [slash]) as [[q|]|]; [|done|done]. destruct (IH q eq_refl) as (d & -> & Hqn & Hq). pose proof Hx as (Hi & Hxx & Hty). rewrite Hxx in Hp. cbn in Hp.
  destruct (cname (ci_name x)) as [n|] eqn:Hn; [|done]. cbn in Hp. injection Hp as Hp. destruct (td_name l Ht i x n Hx Hn) as [Hne Hs]. pose proof (cname_length _ _ Hn) as Hlen.
  assert (Hxo : inode_ok x). { unfold aget in Hxx. case_match; [done|]. exact (proj1 (list.Forall_lookup _ _) Hio _ _ Hxx). } pose proof (io_name x Hxo).
  pose proof (look_range _ _ _ Hq) as Hqr. pose proof (first_child l i x n Ht Hk Hl Hx Hn) as Hf. pose proof (put_name_nul _ _ _ _ Hp Hqn (cname_no_nul _ _ Hn)) as Hpn. apply put_name_below in Hp as ->. assert (Hpar : 0 <= ci_parent x) by (inversion Hd as [|? ? ? (? & _)]; lia). case_decide as Hdd.
  - exists n. split; [done|]. split; [done|]. subst d. unfold look in Hq. rewrite bool_decide_true in Hq by done. injection Hq as Hq. rewrite look_top by (done || lia). rewrite Hq. by rewrite Hf.
  - eexists. split; [done|]. split; [done|]. rewrite (look_below l d n (ci_parent x)) by (done || lia). by rewrite Hf.
Qed.

Section Paths.
Context {D H : Type} `{!Disk D} `{!DiskLaws D} `{!Allocator H}.
Implicit Types (s : cvstate D H).

Lemma cino_run i s x : aget (cf_inodes (c_fs (cv_fs s))) i = Some x -> cino i s = Done (x, s).
Proof. intros Hx. unfold cino, on_catfs, zoom, cinode, deref. rewrite Hx. by destruct s. Qed.
Lemma the_run {A} (o : option A) a s : o = Some a -> on_catfs (the o) s = Done (a, s).
Proof. intros ->. unfold on_catfs, zoom, the, deref. by destruct s. Qed.
Lemma chain_run fuel : forall idx acc s, length (cf_inodes (c_fs (cv_fs s))) = 256%nat -> 0 <= idx < 256 -> exists r, chain_loop fuel idx acc s = Done (r, s) /\
  match r with Some ids => exists chain, ids = chain ++ acc /\ descends (cf_inodes (c_fs (cv_fs s))) chain idx | None => True end.
Proof.
  induction fuel as [|fuel IH]; intros idx acc s Hl Hi; cbn [chain_loop]; (destruct (Z.leb_spec idx 0); [eexists; split; [done|]; exists []; split; [done|]; replace idx with 0 by lia; constructor|]); [by eexists|].
  destruct (aget_is_Some (cf_inodes (c_fs (cv_fs s))) idx) as [x Hx]; [lia|]. unfold bind. rewrite (cino_run idx s x Hx). destruct (Z.eqb_spec (ci_type x) CATFS_TYPE_FREE) as [|Hty]; [by eexists|].
  change CATFS_INODE_MAX with 256. destruct (Z.ltb_spec (ci_parent x) 0); [by eexists|]. destruct (Z.leb_spec 256 (ci_parent x)); [by eexists|]. cbn [orb].
  destruct (IH (ci_parent x) (idx :: acc) s Hl ltac:(lia)) as (r & E & Hr). exists r. split; [done|]. destruct r as [ids|]; [|done]. destruct Hr as (chain & -> & Hd). exists (chain ++ [idx]). split; [by rewrite <- app_assoc|].
  econstructor; [|exact Hd]. split_and!; [lia|done|done].
Qed.
Lemma put_chain_run chain outsz : forall out s r, place_all (cf_inodes (c_fs (cv_fs s))) chain outsz out = Some r -> put_chain chain outsz out s = Done (r, s).
Proof.
  induction chain as [|i chain IH]; intros out s r Hr; cbn [put_chain place_all] in *; [by injection Hr as <-|]. destruct (aget (cf_inodes (c_fs (cv_fs s))) i) as [x|] eqn:Hx; [|done]. cbn in Hr.
  destruct (cname (ci_name x)) as [n|] eqn:Hn; [|done]. cbn in Hr. unfold bind. rewrite (cino_run i s x Hx), (the_run _ n s Hn). destruct (put_name n outsz out); [by apply IH|by injection Hr as <-].
Qed.
Lemma place_all_total l chain outsz i : names_ok l -> descends l chain i -> is_Some (place_all l chain outsz [slash]).
Proof.
  intros Hk. induction 1 as [|chain i x (Hi & Hx & Hty) Hd [o IH]]; [by eexists|]. rewrite place_all_app, IH. destruct o as [p|]; [|by eexists]. rewrite Hx. cbn. destruct (nk_name l Hk i x Hx) as [n ->]. by eexists.
Qed.
(** The path, if there is one, and where it leads. *)
Lemma path_run idx outsz s : let l := cf_inodes (c_fs (cv_fs s)) in tidy l -> names_ok l -> Forall inode_ok l -> length l = 256%nat -> is_dir_root l = Some true -> exists r,
  catfs_vfs_path_for_index idx outsz s = Done (r, s) /\ match r with Some p => exists d, p = slash :: d /\ (nul ∉ p) /\ look l p = Some idx | None => True end.
Proof.
  intros l Ht Hk Hio Hl Hroot. unfold catfs_vfs_path_for_index. change CATFS_INODE_MAX with 256. destruct (Z.ltb_spec outsz 2); [by eexists|]. destruct (Z.ltb_spec idx 0); [by eexists|]. destruct (Z.leb_spec 256 idx); [by eexists|]. cbn [orb].
  unfold bind. destruct (chain_run (Z.to_nat 256) idx [] s Hl ltac:(lia)) as (r & -> & Hr). destruct r as [ids|]; [|by eexists]. destruct Hr as (chain & -> & Hd). rewrite app_nil_r.
  destruct (place_all_total l chain outsz idx Hk Hd) as [r Hr]. exists r. split; [by apply put_chain_run|]. destruct r as [p|]; [|done]. eapply path_leads; try done. rewrite Hl. done.
Qed.
End Paths.

(** ** Creating and finding *)

(** The wrappers in use belong to the inodes of their positions. *)
Definition wrapped {D H} (s : cvstate D H) : Prop :=
  length (catfs_nodes s) = 256%nat /\ length (catfs_node_ready s) = 256%nat /\ forall k n, aget (catfs_node_ready s) k = Some true -> aget (catfs_nodes s) k = Some n -> n_priv n = k + 1.
Definition ready {D H} (s : cvstate D H) (k : Z) : Prop := aget (catfs_node_ready s) k = Some true.

Section Create.
Context {D H : Type} `{!Disk D} `{!DiskLaws D} `{!Allocator H}.
Implicit Types (s : cvstate D H).

Lemma ready_range s k : wrapped s -> ready s k -> 0 <= k < 256.
Proof. intros (_ & Hl & _) Hr. apply aget_Some_range in Hr. rewrite Hl in Hr. lia. Qed.
Lemma index_run s k : wrapped s -> ready s k -> catfs_vfs_index (Some k) s = Done (k, s).
Proof.
  intros Hw Hr. pose proof (ready_range s k Hw Hr) as Hk. destruct Hw as (Hl & _ & Hp). destruct (aget_is_Some (catfs_nodes s) k) as [n Hn]; [lia|]. unfold catfs_vfs_index, bind, deref, ret. rewrite Hn, (Hp k n Hr Hn).
  destruct (Z.eqb_spec (k + 1) 0); [lia|]. replace (k + 1 - 1) with k by lia. by rewrite i32_small by lia.
Qed.
Lemma upd_node_run s idx g : wrapped s -> 0 <= idx < 256 -> exists n, upd_node idx g s = Done (tt, s <| catfs_nodes := aset (catfs_nodes s) idx (g n) |>) /\ aget (catfs_nodes s) idx = Some n.
Proof. intros (Hl & _) Hi. destruct (aget_is_Some (catfs_nodes s) idx) as [n Hn]; [lia|]. exists n. split; [|done]. unfold upd_node, bind, deref, modify. by rewrite Hn. Qed.
(** A wrapper put, or kept, in its place. *)
Lemma wrapped_put s idx n r : wrapped s -> 0 <= idx < 256 -> n_priv n = idx + 1 -> (r = catfs_node_ready s \/ r = aset (catfs_node_ready s) idx true) ->
  wrapped (s <| catfs_nodes := aset (catfs_nodes s) idx n |> <| catfs_node_ready := r |>).
Proof.
  intros (Hl & Hlr & Hp) Hi Hn Hr. split_and!; cbn; [by rewrite aset_length|destruct Hr as [-> | ->]; by rewrite ?aset_length|]. intros k m Hk Hm. destruct (decide (k = idx)) as [->|Hne].
  - rewrite aget_aset_eq in Hm by lia. by injection Hm as <-.
  - rewrite aget_aset_ne in Hm by congruence. apply (Hp k m); [|done]. destruct Hr as [-> | ->]; [done|]. by rewrite aget_aset_ne in Hk by congruence.
Qed.
Definition same_fs s s' : Prop := cv_fs s' = cv_fs s /\ wrapped s' /\ forall k, ready s k -> ready s' k.
Lemma inode_run s idx x : wrapped s -> cf_mounted (c_fs (cv_fs s)) = 1 -> aget (cf_inodes (c_fs (cv_fs s))) idx = Some x -> idx < 256 -> ci_type x <> CATFS_TYPE_FREE ->
  exists s', catfs_vfs_inode idx s = Done (Some idx, s') /\ same_fs s s' /\ ready s' idx.
Proof.
  intros Hw Hm Hx Hi Hty. pose proof (aget_Some_range _ _ _ Hx) as Hr. unfold catfs_vfs_inode, catfs_mounted. unfold bind at 1. replace (on_catfs (fs cf_mounted) s) with (@Done (Z * cvstate D H) (1, s)) by (unfold on_catfs, zoom, fs, gets; rewrite Hm; by destruct s).
  change CATFS_INODE_MAX with 256. cbn [Z.eqb orb]. destruct (Z.ltb_spec idx 0); [lia|]. destruct (Z.leb_spec 256 idx); [lia|]. cbn [orb]. unfold bind at 1. rewrite (cino_run idx s x Hx). destruct (Z.eqb_spec (ci_type x) CATFS_TYPE_FREE) as [|Hnf]; [done|].
  pose proof Hw as (Hl & Hlr & Hp). destruct (aget_is_Some (catfs_node_ready s) idx) as [b Hb]; [lia|]. unfold bind at 1. unfold deref at 1. rewrite Hb.
  assert (Hinit : exists s1, (if b then ret tt else do* upd_node idx (fun _ => mk_cnode (idx + 1) 0 0 0 1 0 (mk_ts 0 0) (mk_ts 0 0) (mk_ts 0 0) true (u32 (idx + 1)) CATFS_VFS_PINNED_REFS) in
             modify (fun s => s <| catfs_node_ready := aset (catfs_node_ready s) idx true |>)) s = Done (tt, s1) /\ same_fs s s1 /\ ready s1 idx).
  { destruct b; [by exists s|]. unfold bind. destruct (upd_node_run s idx (fun _ => mk_cnode (idx + 1) 0 0 0 1 0 (mk_ts 0 0) (mk_ts 0 0) (mk_ts 0 0) true (u32 (idx + 1)) CATFS_VFS_PINNED_REFS) Hw ltac:(lia)) as (n & -> & _). unfold modify.
    eexists. split; [done|]. split; [split; [done|split]|].
    - apply (wrapped_put s idx); [done|lia|cbn; by rewrite u32_small by lia|by right].
    - intros k Hk. unfold ready in *. cbn. destruct (decide (k = idx)) as [->|Hne]; [by apply aget_aset_eq; lia|by rewrite aget_aset_ne by congruence].
    - unfold ready. cbn. apply aget_aset_eq. lia. }
  destruct Hinit as (s1 & E1 & (Ef & Hw1 & Hk1) & Hr1). unfold bind at 1. rewrite E1. unfold bind at 1, catfs_vfs_mode, bind at 1. rewrite (cino_run idx s1 x) by (by rewrite Ef). unfold ret at 1.
  unfold bind at 1. match goal with |- context [upd_node idx ?g s1] => destruct (upd_node_run s1 idx g Hw1 ltac:(lia)) as (n & -> & Hn) end. eexists. split; [done|]. split; [split; [done|split; [|done]]|done].
  pose proof Hw1 as (_ & _ & Hp1). pose proof (wrapped_put s1 idx) as Hput. eapply (Hput _ (catfs_node_ready s1)); [done|lia|cbn; by apply (Hp1 idx n)|by left].
Qed.

(** [catfs_create] with the path that the adapter builds. *)
Lemma child_split l dir d name outsz path : (slash ∉ name) -> zlen name < CATFS_NAME_MAX -> look l (slash :: d) = Some dir -> put_name name outsz (slash :: d) = Some path ->
  head path = Some slash /\ split_last path = if zlen d + 1 <? 64 then Some (slash :: d, name) else None.
Proof.
  intros Hs Hn Hl Hp. apply put_name_below in Hp as ->. case_decide as Hd; [subst d; split; [done|]; by apply split_last_top|]. split; [done|]. by apply split_last_below.
Qed.
Lemma create_step s c f path type : rep (cv_fs s) c f -> fs_ok c f -> names_ok (cf_inodes c) -> 0 < type < 256 -> is_Some (split_last path) ->
  exists r (t : cstate D H) c' f', on_catfs (catfs_create path type) s = Done (r, s <| cv_fs := t |>) /\ rep t c' f' /\ step_ok (KCreate path type) r c f c' f' /\ ((r = -1 /\ c' = c) \/ exists f1, created path type c f r c' f1).
Proof.
  intros Hs Hok Hk Hty Hsp. pose proof (spec_create false path type c f Hok ltac:(lia) ltac:(by right) ltac:(by right) (cv_fs s) Hs) as H1.
  pose proof (spec_call false (KCreate path type) c f Hok Hty ltac:(by right) ltac:(by right) (cv_fs s) Hs) as H2. cbn [run_call] in H2. unfold on_catfs, zoom.
  destruct (catfs_create path type (cv_fs s)) as [[r s']|]; [|done]. destruct H1 as (c1 & f1 & R1 & P1), H2 as (c2 & f2 & R2 & P2). assert (c2 = c1) as -> by (rewrite <- (rep_fs _ _ _ R1); symmetry; apply (rep_fs _ _ _ R2)).
  exists r, s', c1, f2. split_and!; [done|done|done|]. destruct P1 as [(-> & -> & _)|P1]; [by left|]. right. by exists f1.
Qed.

(** A lookup of the name of an entry in its directory. *)
Lemma lookup_run s c f dir px i x name : rep (cv_fs s) c f -> fs_ok c f -> names_ok (cf_inodes c) -> tidy (cf_inodes c) -> wrapped s -> ready s dir -> aget (cf_inodes c) dir = Some px -> ci_type px = CATFS_TYPE_DIR ->
  in_use (cf_inodes c) i x -> ci_parent x = dir -> cname (ci_name x) = Some name -> name <> cs "." -> name <> cs ".." ->
  exists s', catfs_vfs_lookup (Some dir) name true s = Done ((0, Some i), s').
Proof.
  intros Hs Hok Hnk Htd Hw Hrd Hpx Hpd Hx Hpar Hname Hdot Hdots. pose proof (fk_tables _ _ Hok) as Ht. pose proof (rep_fs _ _ _ Hs) as Ec. pose proof (ready_range s dir Hw Hrd) as Hdir.
  unfold catfs_vfs_lookup. unfold bind at 1. rewrite (index_run s dir Hw Hrd). cbn [negb orb]. destruct (Z.ltb_spec dir 0); [lia|]. unfold bind at 1. rewrite (cino_run dir s px) by (by rewrite Ec). rewrite Hpd, Z.eqb_refl. cbn [negb].
  rewrite bool_decide_false by done. rewrite bool_decide_false by done. unfold bind at 1. unfold on_catfs at 1, zoom. rewrite (search_answer _ (child_at (cf_inodes c) dir name)) by (intros k; rewrite is_child_answer; by rewrite Ec).
  rewrite <- Hpar. rewrite (first_child (cf_inodes c) i x name Htd Hnk) by (done || (rewrite (to_len c Ht); done)). cbn [answer]. destruct Hx as (Hi & Hx & Hty). pose proof (aget_Some_range _ _ _ Hx) as Hr. rewrite (to_len c Ht) in Hr.
  replace (s <| cv_fs := cv_fs s |>) with s by by destruct s. unfold bind at 1. destruct (inode_run s i x Hw) as (s' & -> & _); [rewrite Ec; apply Ht|by rewrite Ec|lia|done|]. by exists s'.
Qed.


(** The path of a directory of 64 bytes or more does not fit the array [catfs_create] copies it
    to, which has that size: creating an entry there writes past the end of the array. *)
Theorem catfs_vfs_create_overruns drive off label ks rs f (m : cstate D H) s dir name type p px path out :
  attached m drive off f -> zlen (default (cs "catfs") label) < 32 -> Forall call_ok ks -> Forall clean ks -> used_disk drive off label ks rs m (cv_fs s) ->
  wrapped s -> ready s dir -> aget (cf_inodes (c_fs (cv_fs s))) dir = Some px -> ci_type px = CATFS_TYPE_DIR -> (slash ∉ name) -> 0 < zlen name < CATFS_NAME_MAX ->
  catfs_vfs_path_for_index dir VFS_PATH_MAX s = Done (Some p, s) -> put_name name VFS_PATH_MAX p = Some path -> 64 <= zlen p ->
  catfs_vfs_create_common (Some dir) (Some name) type out s = Fault.
Proof.
  intros Ha Hlab Hks Hcl Hu Hw Hrd Hpx Hpd Hsl Hn Hpath Hput Hp64. destruct (used_ok drive off label ks rs f m (cv_fs s) Ha Hlab Hks Hu) as (c & g & Hs & Hok & _ & _ & Hroot & Hnk & Htd & _). specialize (Htd Hcl).
  pose proof (fk_tables _ _ Hok) as Ht. pose proof (rep_fs _ _ _ Hs) as Ec. pose proof (ready_range s dir Hw Hrd) as Hdir. destruct (path_run dir VFS_PATH_MAX s) as (r & Er & Hr); try (rewrite Ec; first [done|apply Ht]).
  rewrite Hpath in Er. injection Er as <-. destruct Hr as (d & -> & _ & Hd). destruct (child_split _ _ _ _ _ _ Hsl (proj2 Hn) Hd Hput) as [_ Hsplit]. cbn [length] in Hp64. destruct (Z.ltb_spec (zlen d + 1) 64); [lia|].
  unfold catfs_vfs_create_common. unfold bind at 1. rewrite (index_run s dir Hw Hrd). destruct (Z.ltb_spec dir 0); [lia|]. unfold bind at 1. rewrite (cino_run dir s px Hpx), Hpd, Z.eqb_refl. cbn [negb].
  unfold bind at 1, catfs_vfs_child_path. destruct (Z.eqb_spec (zlen name) 0); [lia|]. destruct (Z.leb_spec CATFS_NAME_MAX (zlen name)); [lia|]. cbn [orb]. unfold bind at 1. rewrite Hpath. unfold ret at 1. rewrite Hput.
  unfold bind at 1, on_catfs, zoom, catfs_create, bind at 1, fs, gets. rewrite Ec, (to_mounted c Ht). cbn [Z.eqb]. unfold bind at 1, the, deref. by rewrite Hsplit.
Qed.
End Create.

(** ** A run *)

(** The machine of the calls in CatfsProps, with the root of CatFS wrapped. *)
Definition demo_adapter (c : cstate ram heap) : cvstate ram heap :=
  mk_cv c (mk_vfs boot_heap ∅ ∅ [] [] 0 0 0 0 0 0 0 0 None) (aset (replicate 256 cnode_zero) 0 (cnode_zero <| n_priv := 1 |>)) (aset (replicate 256 false) 0 true) (cs "/") true.
Lemma demo_wrapped c : wrapped (demo_adapter c).
Proof.
  split_and!; [reflexivity|reflexivity|]. intros k n. cbn [demo_adapter catfs_nodes catfs_node_ready]. destruct (decide (k = 0)) as [->|Hk].
  - rewrite aget_aset_eq by (rewrite length_replicate; lia). by intros _ [= <-].
  - rewrite aget_aset_ne by congruence. unfold aget. case_match; [done|]. by intros [? _]%lookup_replicate.
Qed.
Lemma demo_clean : Forall clean demo_calls.
Proof. repeat (apply list.Forall_cons_2; [first [exact I|split; [reflexivity|]; apply (bool_decide_unpack _); vm_compute; exact I]|]). apply list.Forall_nil_2. Qed.
