(* ===== verification/Config.v ===== *)
(** * Configuration files (src/src/config.c, src/src/config.h)

    A configuration is at most sixteen sections of at most thirty-two pairs of strings, as lists:
    the counters are their lengths, and nothing is read behind a counter.  The text that is parsed
    is the C string before its terminator; a pointer into it is what is left of it.  The text that
    is written is the part of the buffer before [pos], and a byte put outside the buffer is a
    [Fault]. *)

From S2P Require Import Prelude Cstring Alloc Vfs Time Tzif.

Definition CFG_MAX_SECTIONS : Z := 16.
Definition CFG_MAX_KEYS : Z := 32.
Definition CFG_KEY_LEN : Z := 64.
Definition CFG_VAL_LEN : Z := 128.
Definition CFG_PATH_LEN : Z := 256.
Definition CFG_BUFFER : Z := 8192.
Definition CFG_ROOT : cstr := cs "/uiu/etc".

Record cfg_section := mk_section { cs_name : cstr; cs_entries : list (cstr * cstr) }.
#[export] Instance eta_section : Eta cfg_section := fun s => mk_section (cs_name s) (cs_entries s).
Record cfg_file := mk_cfg { cfg_sections : list cfg_section; cfg_path : cstr; cfg_dirty : Z }.
#[export] Instance eta_cfg : Eta cfg_file := fun c => mk_cfg (cfg_sections c) (cfg_path c) (cfg_dirty c).
Definition cfg_zero : cfg_file := mk_cfg [] [] 0.
Definition cfg_count (c : cfg_file) : Z := zlen (cfg_sections c).

#[export] Instance cfg_section_eq_dec : EqDecision cfg_section.
Proof. solve_decision. Defined.

(** ** Reading *)

Definition newline : byte := x0a.
Definition is_blank (c : byte) : bool := bool_decide (c = x20) || bool_decide (c = x09).
Definition is_eol (c : byte) : bool := bool_decide (c = x0a).
Definition is_return (c : byte) : bool := bool_decide (c = x0d).

(** [while (p(c)) p++] *)
Fixpoint skip_while (p : byte -> bool) (s : cstr) : cstr :=
  match s with c :: s' => if p c then skip_while p s' else s | [] => [] end.
Definition skip_blanks : cstr -> cstr := skip_while is_blank.
(** To the end of the line. *)
Definition skip_line : cstr -> cstr := skip_while (fun c => negb (is_eol c)).

(** At most [room] bytes that are not [stop]: what is copied and what is left. *)
Fixpoint take_until (stop : byte -> bool) (room : nat) (s : cstr) : cstr * cstr :=
  match room, s with
  | S room', c :: s' => if stop c then ([], s) else let '(a, r) := take_until stop room' s' in (c :: a, r)
  | _, _ => ([], s)
  end.

(** The key: blanks before it are left out, the first one behind it is consumed and ends it.  [room] is the
    space left in the array and [started] whether something is in it. *)
Fixpoint take_key (room : nat) (started : bool) (s : cstr) : cstr * cstr :=
  match s with
  | c :: s' =>
    if bool_decide (c = x3d) || is_eol c || (room =? 0)%nat then ([], s)
    else if negb (is_blank c) then let '(a, r) := take_key (pred room) true s' in (c :: a, r)
    else if started then ([], s')
    else take_key room false s'
  | [] => ([], [])
  end.

(** [while (i > 0 && (val[i-1] is blank)) i--] *)
Definition trim_end (v : cstr) : cstr := reverse (skip_blanks (reverse v)).

Definition key_room : nat := Z.to_nat (CFG_KEY_LEN - 1).
Definition val_room : nat := Z.to_nat (CFG_VAL_LEN - 1).

Definition upd_section (c : cfg_file) (k : nat) (f : cfg_section -> cfg_section) : cfg_file := c <| cfg_sections := alter f k (cfg_sections c) |>.

(** The line behind [[]: the section and what is left. *)
Definition parse_section (c : cfg_file) (cur : option nat) (p : cstr) : cfg_file * option nat * cstr :=
  if CFG_MAX_SECTIONS <=? cfg_count c then (c, cur, skip_line p)
  else
    let '(name, r) := take_until (fun x => bool_decide (x = x5d) || is_eol x) key_room p in
    (c <| cfg_sections := cfg_sections c ++ [mk_section name []] |>, Some (length (cfg_sections c)), skip_line r).

(** The section that a pair belongs to: a section [global] is made when there is none. *)
Definition current_section (c : cfg_file) (cur : option nat) : cfg_file * option nat :=
  match cur with
  | Some k => (c, Some k)
  | None => if cfg_count c <? CFG_MAX_SECTIONS then (c <| cfg_sections := cfg_sections c ++ [mk_section (cs "global") []] |>, Some (length (cfg_sections c)))
            else (c, None)
  end.

(** The pair at [p], when there is one with a key, and what is left. *)
Definition parse_pair (p : cstr) : option (cstr * cstr) * cstr :=
  let '(key, r) := take_key key_room false p in
  match r with
  | x3d :: r' =>
    let '(val, r'') := take_until (fun x => is_eol x || is_return x) val_room (skip_blanks r') in
    (if bool_decide (key = []) then None else Some (key, trim_end val), r'')
  | _ => (None, r)
  end.

Definition parse_entry (c : cfg_file) (cur : option nat) (p : cstr) : cfg_file * option nat * cstr :=
  let '(c1, cur1) := current_section c cur in
  match cur1 with
  | None => (c1, cur1, skip_line p)
  | Some k =>
    if CFG_MAX_KEYS <=? default 0 ((fun s => zlen (cs_entries s)) <$> cfg_sections c1 !! k) then (c1, cur1, skip_line p)
    else
      let '(e, r) := parse_pair p in
      (match e with Some kv => upd_section c1 k (fun s => s <| cs_entries := cs_entries s ++ [kv] |>) | None => c1 end, cur1, skip_line r)
  end.

(** One pass of the loop. *)
Definition parse_step (c : cfg_file) (cur : option nat) (p0 : cstr) : cfg_file * option nat * cstr :=
  let p := skip_blanks p0 in
  match p with
  | x :: p' =>
    if is_eol x || is_return x then (c, cur, p')
    else if bool_decide (x = x23) || bool_decide (x = x3b) then (c, cur, skip_line p)
    else if bool_decide (x = x5b) then parse_section c cur p'
    else parse_entry c cur p
  | [] => parse_entry c cur p
  end.

(** [while ( *p)]: every pass consumes at least a byte, so the length of the text is enough fuel. *)
Fixpoint parse_loop (fuel : nat) (c : cfg_file) (cur : option nat) (p : cstr) : option cfg_file :=
  match p with
  | [] => Some c
  | _ =>
    match fuel with
    | O => None
    | S fuel' => let '(c', cur', p') := parse_step c cur p in parse_loop fuel' c' cur' p'
    end
  end.

Definition cfg_parse (buf : cstr) (path : option cstr) : outcome cfg_file :=
  match path with
  | Some q => if zlen q <? CFG_PATH_LEN then
      match parse_loop (length buf) (cfg_zero <| cfg_path := q |>) None buf with Some c => Done c | None => Fault end
    else Fault
  | None => match parse_loop (length buf) cfg_zero None buf with Some c => Done c | None => Fault end
  end.

(** ** Writing *)

(** [buf[pos++] = ...] for each byte, and [kstrcpy(buf + pos, s); pos += kstrlen(s)]. *)
Definition put (bufsz : Z) (buf bytes : cstr) : outcome cstr := if zlen buf + zlen bytes <=? bufsz then Done (buf ++ bytes) else Fault.
Definition put_str (bufsz : Z) (buf s : cstr) : outcome cstr := if zlen buf + zlen s + 1 <=? bufsz then Done (buf ++ s) else Fault.

Fixpoint ser_entries (bufsz : Z) (es : list (cstr * cstr)) (buf : cstr) : outcome cstr :=
  match es with
  | [] => Done buf
  | (k, v) :: es' =>
    if bufsz <=? zlen buf + (zlen k + zlen v + 3) then Done buf
    else
      let! b1 := put_str bufsz buf k in
      let! b2 := put bufsz b1 [x3d] in
      let! b3 := put_str bufsz b2 v in
      let! b4 := put bufsz b3 [newline] in
      ser_entries bufsz es' b4
  end.

Fixpoint ser_sections (bufsz : Z) (ss : list cfg_section) (buf : cstr) : outcome cstr :=
  match ss with
  | [] => Done buf
  | s :: ss' =>
    let body buf := let! b := ser_entries bufsz (cs_entries s) buf in let! b' := put bufsz b [newline] in ser_sections bufsz ss' b' in
    if bool_decide (cs_name s = cs "global") then body buf
    else if bufsz <=? zlen buf + zlen (cs_name s) + 4 then Done buf
    else
      let! b1 := put bufsz buf [x5b] in
      let! b2 := put_str bufsz b1 (cs_name s) in
      let! b3 := put bufsz b2 [x5d; newline] in
      body b3
  end.

(** The bytes before [pos], which is the result. *)
Definition cfg_serialize (c : cfg_file) (bufsz : Z) : outcome cstr := ser_sections bufsz (cfg_sections c) [].

(** ** Values *)

Definition find_entry (key : cstr) (es : list (cstr * cstr)) : option (nat * (cstr * cstr)) := list_find (fun x => fst x = key) es.
Definition find_section (section : cstr) (c : cfg_file) : option (nat * cfg_section) := list_find (fun s => cs_name s = section) (cfg_sections c).

(** Every section of the name is searched. *)
Fixpoint get_in (ss : list cfg_section) (section key : cstr) : option cstr :=
  match ss with
  | [] => None
  | s :: ss' =>
    if bool_decide (cs_name s = section) then
      match find_entry key (cs_entries s) with Some (_, (_, v)) => Some v | None => get_in ss' section key end
    else get_in ss' section key
  end.
Definition cfg_get (c : cfg_file) (section key : cstr) : option cstr := get_in (cfg_sections c) section key.
Definition cfg_get_default (c : cfg_file) (section key def : cstr) : cstr := default def (cfg_get c section key).

(** A string is copied into an array of [n] bytes. *)
Definition fit_array (s : cstr) (n : Z) : outcome unit := if zlen s <? n then Done tt else Fault.

(** The section of the name, or a new one. *)
Definition set_section (c : cfg_file) (section : cstr) : outcome (cfg_file * option nat) :=
  match find_section section c with
  | Some (k, _) => Done (c, Some k)
  | None =>
    if CFG_MAX_SECTIONS <=? cfg_count c then Done (c, None)
    else obind (fit_array section CFG_KEY_LEN) (fun _ => Done (c <| cfg_sections := cfg_sections c ++ [mk_section section []] |>, Some (length (cfg_sections c))))
  end.

Definition cfg_set (c : cfg_file) (section key val : cstr) : outcome (Z * cfg_file) :=
  let! r := set_section c section in
  match r with
  | (c1, None) => Done (-1, c1)
  | (c1, Some k) =>
    let es := default [] (cs_entries <$> cfg_sections c1 !! k) in
    match find_entry key es with
    | Some (j, _) =>
      obind (fit_array val CFG_VAL_LEN) (fun _ =>
      Done (0, (upd_section c1 k (fun s => s <| cs_entries := alter (fun e => (fst e, val)) j (cs_entries s) |>)) <| cfg_dirty := 1 |>))
    | None =>
      if CFG_MAX_KEYS <=? zlen es then Done (-1, c1)
      else
        obind (fit_array key CFG_KEY_LEN) (fun _ => obind (fit_array val CFG_VAL_LEN) (fun _ =>
        Done (0, (upd_section c1 k (fun s => s <| cs_entries := cs_entries s ++ [(key, val)] |>)) <| cfg_dirty := 1 |>)))
    end
  end.

(** ** Files *)

(** The four configurations, whether the data disk is mounted, and the files. *)
Record config_state (F : Type) := mk_config {
  g_syscfg : cfg_file; g_netcfg : cfg_file; g_usercfg : cfg_file; g_pkgcfg : cfg_file; cg_mounted : bool; cg_files : F }.
Arguments mk_config {_} _ _ _ _ _ _. Arguments g_syscfg {_}. Arguments g_netcfg {_}. Arguments g_usercfg {_}. Arguments g_pkgcfg {_}.
Arguments cg_mounted {_}. Arguments cg_files {_}.
#[export] Instance eta_config F : Eta (config_state F) := fun s => mk_config (g_syscfg s) (g_netcfg s) (g_usercfg s) (g_pkgcfg s) (cg_mounted s) (cg_files s).

Section ConfigFiles.
Context {F : Type} `{!Files F}.
Abbreviation C := (M (config_state F)).

Definition lift {S A} (o : outcome A) : M S A := fun s => match o with Done a => Done (a, s) | Fault => Fault end.

(** The text in the buffer ends at the first NUL. *)
Definition text_of (bs : list byte) : cstr := fst (take_until is_nul (length bs) bs).

(** The configuration read, unless the file cannot be read: the result is then -1 and nothing changes. *)
Definition cfg_load (vfs_path : cstr) : M F (option cfg_file) :=
  let* fd := f_open (Some vfs_path) O_RDONLY 0 in
  if fd <? 0 then ret None
  else
    let* '(n, lbuf) := f_read fd (CFG_BUFFER - 1) in
    do* f_close fd in
    if n <=? 0 then ret None
    else let* c := lift (cfg_parse (text_of (take (Z.to_nat n) lbuf)) (Some vfs_path)) in ret (Some c).

Definition cfg_save (c : cfg_file) (vfs_path : cstr) : M F Z :=
  let* sbuf := lift (cfg_serialize c CFG_BUFFER) in
  if zlen sbuf <=? 0 then ret (-1)
  else
    let* fd := f_open (Some vfs_path) (Z.lor O_WRONLY (Z.lor O_CREAT O_TRUNC)) 0x1a4 in
    if fd <? 0 then ret (-1)
    else
      do* f_write fd sbuf in
      do* f_close fd in
      ret 0.

Definition config_root : C cstr := let* m := gets cg_mounted in ret (if m then cs "/data/uiu/etc" else CFG_ROOT).
(** The path in an array of [cap] bytes, empty when it does not fit. *)
Definition config_path (cap : Z) (name : cstr) : C cstr :=
  if cap =? 0 then ret []
  else
    let* root := config_root in
    do* guard (zlen root <? cap) in
    ret (if cap <=? zlen root + 1 + zlen name then [] else root ++ slash :: name).

Definition in_store {A} (m : M F A) : C A := zoom cg_files (fun f s => s <| cg_files := f |>) m.

Definition sysconf_get (section key : cstr) : C (option cstr) := gets (fun s => cfg_get (g_syscfg s) section key).
Definition sysconf_set (section key val : cstr) : C Z :=
  let* c := gets g_syscfg in
  let* '(r, c') := lift (cfg_set c section key val) in
  do* modify (fun s => s <| g_syscfg := c' |>) in
  ret r.
Definition sysconf_save : C unit :=
  let* path := config_path 128 (cs "system.conf") in
  if bool_decide (path = []) then ret tt
  else
    let* c := gets g_syscfg in
    do* in_store (cfg_save c path) in
    ret tt.

(** A configuration is loaded into the variable that [put] stores. *)
Definition load_into (name : cstr) (put_cfg : cfg_file -> config_state F -> config_state F) : C unit :=
  let* path := config_path 128 name in
  if bool_decide (path = []) then ret tt
  else
    let* r := in_store (cfg_load path) in
    match r with Some c => modify (put_cfg c) | None => ret tt end.
Definition config_init : C unit :=
  do* load_into (cs "system.conf") (fun c s => s <| g_syscfg := c |>) in
  do* load_into (cs "network.conf") (fun c s => s <| g_netcfg := c |>) in
  do* load_into (cs "users.conf") (fun c s => s <| g_usercfg := c |>) in
  load_into (cs "packages.conf") (fun c s => s <| g_pkgcfg := c |>).
End ConfigFiles.

(** ** Every text is parsed *)

Lemma skip_while_suffix p s : exists pre, s = pre ++ skip_while p s.
Proof.
  induction s as [|c s [pre IH]]; [by exists []|]. simpl. destruct (p c); [|by exists []]. exists (c :: pre). simpl. by f_equal.
Qed.
Lemma skip_while_length p s : (length (skip_while p s) <= length s)%nat.
Proof. destruct (skip_while_suffix p s) as [pre E]. rewrite E at 2. rewrite length_app. lia. Qed.
Lemma take_until_split stop room s : let '(a, r) := take_until stop room s in s = a ++ r /\ (length a <= room)%nat /\ Forall (fun c => stop c = false) a.
Proof.
  revert s. induction room as [|room IH]; intros [|c s]; simpl; try (split; [done|]; split; [lia|done]).
  destruct (stop c) eqn:E; [by split_and!; [|simpl; lia|]|]. specialize (IH s). destruct (take_until stop room s) as [a r]. destruct IH as (-> & Hl & Hf).
  simpl. split_and!; [done|lia|by constructor].
Qed.

(** The bytes of a key. *)
Definition key_byte (c : byte) : bool := negb (bool_decide (c = x3d) || is_eol c || is_blank c).

Lemma take_key_split room started s : let '(a, r) := take_key room started s in
  (length a + length r <= length s)%nat /\ (length a <= room)%nat /\ Forall (fun c => key_byte c = true) a.
Proof.
  revert room started. induction s as [|c s IH]; intros room started; simpl; [split_and!; [simpl; lia..|done]|].
  destruct (bool_decide (c = x3d) || is_eol c) eqn:E; simpl; [split_and!; [simpl; lia..|done]|]. destruct (Nat.eqb_spec room 0) as [Hr|Hr]; [split_and!; [simpl; lia..|done]|].
  destruct (is_blank c) eqn:Eb; simpl.
  - destruct started; [split_and!; [simpl; lia..|done]|]. specialize (IH room false). destruct (take_key room false s) as [a r].
    destruct IH as (H1 & H2 & H3). split_and!; [lia|lia|done].
  - specialize (IH (pred room) true). destruct (take_key (pred room) true s) as [a r]. destruct IH as (H1 & H2 & H3). simpl.
    split_and!; [lia|lia|]. constructor; [|done]. unfold key_byte. by rewrite E, Eb.
Qed.

Lemma value_length (f : cstr -> option (cstr * cstr)) r :
  (length (snd (let '(val, r') := take_until (fun x => is_eol x || is_return x) val_room (skip_blanks r) in (f val, r'))) <= length r)%nat.
Proof.
  pose proof (take_until_split (fun x => is_eol x || is_return x) val_room (skip_blanks r)) as Hv. destruct (take_until _ val_room _) as [v r'].
  destruct Hv as (Hv & _). pose proof (skip_while_length is_blank r) as Hs. unfold skip_blanks in Hv. rewrite Hv, length_app in Hs. simpl. lia.
Qed.
Lemma parse_pair_length p key r : take_key key_room false p = (key, r) -> (length (snd (parse_pair p)) <= length r)%nat.
Proof. intros E. unfold parse_pair. rewrite E. destruct r as [|[] r]; try done. etransitivity; [apply value_length|simpl; lia]. Qed.

(** A pair consumes something unless a line ends at once. *)
Lemma parse_pair_consumes c p : is_eol c = false -> is_blank c = false -> (length (snd (parse_pair (c :: p))) <= length p)%nat.
Proof.
  intros He Hb. destruct (decide (c = x3d)) as [->|Hc]; [apply value_length|].
  assert (E : take_key key_room false (c :: p) = let '(a, r) := take_key (pred key_room) true p in (c :: a, r)).
  { change key_room with (S (pred key_room)) at 1. cbn [take_key]. by rewrite bool_decide_eq_false_2, He, Hb by done. }
  pose proof (take_key_split (pred key_room) true p) as Hk. destruct (take_key (pred key_room) true p) as [key r].
  rewrite (parse_pair_length _ _ _ E). lia.
Qed.

(** ** What a configuration holds *)

(** A pair or a section that the parser can have read. *)
Definition key_start (c : byte) : bool :=
  negb (is_eol c || is_return c || bool_decide (c = x23) || bool_decide (c = x3b) || bool_decide (c = x5b)).
Definition clean_key (k : cstr) : Prop := match k with [] => False | c :: _ => key_start c = true end /\ Forall (fun c => key_byte c = true) k /\ (length k <= key_room)%nat.
Definition clean_val (v : cstr) : Prop :=
  skip_blanks v = v /\ trim_end v = v /\ Forall (fun c => is_eol c || is_return c = false) v /\ (length v <= val_room)%nat.
Definition clean_name (n : cstr) : Prop := Forall (fun c => bool_decide (c = x5d) || is_eol c = false) n /\ (length n <= key_room)%nat.
Definition clean_section (s : cfg_section) : Prop :=
  clean_name (cs_name s) /\ Forall (fun e => clean_key (fst e) /\ clean_val (snd e)) (cs_entries s) /\ zlen (cs_entries s) <= CFG_MAX_KEYS.
Definition clean (c : cfg_file) : Prop := Forall clean_section (cfg_sections c) /\ cfg_count c <= CFG_MAX_SECTIONS.

Lemma skip_while_idem p s : skip_while p (skip_while p s) = skip_while p s.
Proof. induction s as [|c s IH]; [done|]. simpl. destruct (p c) eqn:E; [done|]. simpl. by rewrite E. Qed.
Lemma skip_blanks_prefix a b : skip_blanks (a ++ b) = a ++ b -> skip_blanks a = a.
Proof.
  destruct a as [|c a]; [done|]. unfold skip_blanks. simpl. destruct (is_blank c); [|done]. intros E. exfalso.
  pose proof (skip_while_length is_blank (a ++ b)) as Hl. rewrite E in Hl. simpl in Hl. lia.
Qed.
Lemma trim_end_prefix v : exists b, v = trim_end v ++ b.
Proof.
  unfold trim_end. destruct (skip_while_suffix is_blank (reverse v)) as [pre E]. exists (reverse pre). rewrite <- reverse_app.
  unfold skip_blanks. by rewrite <- E, reverse_involutive.
Qed.
Lemma trim_end_clean v : skip_blanks v = v -> Forall (fun c => is_eol c || is_return c = false) v -> (length v <= val_room)%nat -> clean_val (trim_end v).
Proof.
  intros Hs Hf Hl. destruct (trim_end_prefix v) as [b E]. rewrite E in Hs, Hf, Hl. rewrite length_app in Hl. apply Forall_app in Hf as [Hf _].
  split_and!; [by eapply skip_blanks_prefix| |done|lia].
  unfold trim_end at 1 3. f_equal. unfold trim_end. rewrite reverse_involutive. apply skip_while_idem.
Qed.

Lemma parse_pair_clean c p kv : is_eol c = false -> is_blank c = false -> key_start c = true -> fst (parse_pair (c :: p)) = Some kv ->
  clean_key (fst kv) /\ clean_val (snd kv).
Proof.
  intros He Hb Hs. unfold parse_pair. pose proof (take_key_split key_room false (c :: p)) as Hk.
  assert (Hh : match fst (take_key key_room false (c :: p)) with [] => True | d :: _ => d = c end).
  { change key_room with (S (pred key_room)). cbn [take_key]. rewrite He, Hb. destruct (bool_decide (c = x3d)); [done|]. cbn [orb negb Nat.eqb]. by destruct (take_key (pred (S _)) true p). }
  destruct (take_key key_room false (c :: p)) as [key r]. destruct Hk as (_ & Hk1 & Hk2). destruct r as [|[] r]; try done.
  pose proof (take_until_split (fun x => is_eol x || is_return x) val_room (skip_blanks r)) as Hv. destruct (take_until _ val_room _) as [v r'].
  destruct Hv as (Hv & Hv1 & Hv2). cbn [fst]. case_bool_decide as En; [done|]. intros [= <-]. cbn [fst snd]. split.
  - destruct key as [|d key]; [done|]. cbn [fst] in Hh. subst d. by split_and!.
  - apply trim_end_clean; [|done|done]. eapply skip_blanks_prefix. unfold skip_blanks at 1. rewrite <- Hv. apply skip_while_idem.
Qed.

(** The section that pairs go to is the last one. *)
Definition last_section (c : cfg_file) : option nat := match length (cfg_sections c) with O => None | S k => Some k end.
Definition well_read (c : cfg_file) (cur : option nat) : Prop := clean c /\ cur = last_section c.

Lemma clean_add c s : clean c -> clean_section s -> cfg_count c < CFG_MAX_SECTIONS -> well_read (c <| cfg_sections := cfg_sections c ++ [s] |>) (Some (length (cfg_sections c))).
Proof.
  intros [H1 H2] Hs Hc. split; [|unfold last_section; cbn; rewrite length_app; simpl; by rewrite Nat.add_1_r].
  split; cbn; [by apply Forall_app; split; [|constructor]|]. unfold cfg_count, CFG_MAX_SECTIONS in *. cbn. rewrite length_app. simpl. lia.
Qed.
Lemma clean_section_new n : clean_name n -> clean_section (mk_section n []).
Proof. intros Hn. split_and!; cbn; [done|done|]. unfold CFG_MAX_KEYS. lia. Qed.

Lemma current_section_read c cur c' cur' : well_read c cur -> current_section c cur = (c', cur') -> well_read c' cur' /\ is_Some cur' /\
  cfg_path c' = cfg_path c /\ cfg_dirty c' = cfg_dirty c.
Proof.
  intros [Hc Hl]. unfold current_section. destruct cur as [k|]; [by intros [= <- <-]|].
  assert (En : cfg_sections c = []) by (unfold last_section in Hl; destruct (cfg_sections c); [done|discriminate Hl]).
  unfold cfg_count. rewrite En. cbn. intros [= <- <-]. split; [|by split].
  assert (Hw := clean_add c (mk_section (cs "global") []) Hc). rewrite En in Hw. apply Hw; [|unfold cfg_count; by rewrite En].
  apply clean_section_new. split; [repeat constructor|by apply Nat.leb_le].
Qed.

Lemma clean_upd c k f : well_read c (Some k) -> (forall s, cfg_sections c !! k = Some s -> clean_section s -> clean_section (f s)) -> well_read (upd_section c k f) (Some k).
Proof.
  intros [[H1 H2] Hl] Hf. split; [|unfold last_section in *; cbn; by rewrite length_alter]. split; cbn.
  - apply list.Forall_lookup. intros i s Hi. rewrite list.Forall_lookup in H1. destruct (decide (i = k)) as [->|Hne].
    + rewrite list_lookup_alter_eq in Hi. apply fmap_Some in Hi as (s0 & Hs & ->). eauto.
    + rewrite list_lookup_alter_ne in Hi by done. eauto.
  - unfold cfg_count in *. cbn. by rewrite length_alter.
Qed.

Lemma skip_line_shorter r n : (length r <= n)%nat -> (length (skip_line r) <= n)%nat.
Proof. pose proof (skip_while_length (fun c => negb (is_eol c)) r). unfold skip_line. lia. Qed.

Lemma parse_entry_read c cur x p : well_read c cur -> is_eol x = false -> is_blank x = false -> key_start x = true ->
  let '(c', cur', p') := parse_entry c cur (x :: p) in well_read c' cur' /\ (length p' <= length p)%nat /\ cfg_path c' = cfg_path c /\ cfg_dirty c' = cfg_dirty c.
Proof.
  intros Hw He Hb Hs. unfold parse_entry. destruct (current_section c cur) as [c1 cur1] eqn:Ec. apply current_section_read in Ec as (Hw1 & [k ->] & E1 & E2); [|done].
  assert (Hx : skip_line (x :: p) = skip_line p) by (unfold skip_line; simpl; by rewrite He).
  destruct (cfg_sections c1 !! k) as [s|] eqn:Ek; cbn [fmap option_fmap option_map default].
  2: { exfalso. destruct Hw1 as [_ Hl]. unfold last_section in Hl. apply lookup_ge_None in Ek. destruct (length (cfg_sections c1)); [done|]. injection Hl as ->. lia. }
  destruct (_ <=? _) eqn:Em; [rewrite Hx; split_and!; [done|by apply skip_line_shorter|done..]|]. apply Z.leb_gt in Em. cbn in Em.
  pose proof (parse_pair_consumes x p He Hb) as Hl. pose proof (fun kv => parse_pair_clean x p kv He Hb Hs) as Hp. destruct (parse_pair (x :: p)) as [e r]. cbn [fst snd] in *.
  split_and!; [|by apply skip_line_shorter|by destruct e|by destruct e].
  destruct e as [kv|]; [|done]. apply clean_upd; [done|]. intros s0 Es (G1 & G2 & G3). rewrite Ek in Es. injection Es as <-. split_and!; cbn; [done| |].
  - apply Forall_app. split; [done|]. constructor; [by apply Hp|done].
  - rewrite length_app. simpl. lia.
Qed.

Lemma parse_entry_empty c cur : well_read c cur ->
  let '(c', cur', p') := parse_entry c cur [] in well_read c' cur' /\ p' = [] /\ cfg_path c' = cfg_path c /\ cfg_dirty c' = cfg_dirty c.
Proof.
  intros Hw. unfold parse_entry. destruct (current_section c cur) as [c1 cur1] eqn:Ec. apply current_section_read in Ec as (Hw1 & [k ->] & E1 & E2); [|done].
  by destruct (_ <=? _).
Qed.

Lemma parse_section_read c cur p : well_read c cur ->
  let '(c', cur', p') := parse_section c cur p in well_read c' cur' /\ (length p' <= length p)%nat /\ cfg_path c' = cfg_path c /\ cfg_dirty c' = cfg_dirty c.
Proof.
  intros Hw. unfold parse_section. destruct (Z.leb_spec CFG_MAX_SECTIONS (cfg_count c)) as [|Hc]; [split_and!; [done|by apply skip_line_shorter|done..]|].
  pose proof (take_until_split (fun x => bool_decide (x = x5d) || is_eol x) key_room p) as Hn. destruct (take_until _ key_room p) as [name r].
  destruct Hn as (-> & Hl & Hf). split_and!; [|apply skip_line_shorter; rewrite length_app; lia|done..].
  apply clean_add; [apply Hw|by apply clean_section_new|done].
Qed.

Lemma skip_blanks_head s c r : skip_blanks s = c :: r -> is_blank c = false.
Proof. unfold skip_blanks. induction s as [|d s IH]; [done|]. simpl. destruct (is_blank d) eqn:E; [done|]. by intros [= <- _]. Qed.

Lemma parse_step_read c cur p : well_read c cur -> p <> [] ->
  let '(c', cur', p') := parse_step c cur p in well_read c' cur' /\ (length p' < length p)%nat /\ cfg_path c' = cfg_path c /\ cfg_dirty c' = cfg_dirty c.
Proof.
  intros Hw Hp. unfold parse_step. pose proof (skip_while_length is_blank p) as Hl. fold skip_blanks in Hl. pose proof (skip_blanks_head p) as Hb.
  destruct (skip_blanks p) as [|x p'] eqn:Es.
  - pose proof (parse_entry_empty c cur Hw) as He. destruct (parse_entry c cur []) as [[c' cur'] q]. destruct He as (H1 & -> & H2). split; [done|]. split; [|done].
    destruct p; [done|]. simpl. lia.
  - specialize (Hb x p' eq_refl). simpl in Hl. destruct (is_eol x || is_return x) eqn:Ee; [split_and!; [done|lia|done..]|].
    pose proof Ee as [Ee1 _]%orb_false_iff.
    assert (Hx : skip_line (x :: p') = skip_line p') by (unfold skip_line; simpl; by rewrite Ee1).
    destruct (bool_decide (x = x23) || bool_decide (x = x3b)) eqn:Ec.
    { rewrite Hx. pose proof (skip_line_shorter p' _ (le_n _)). split_and!; [done|lia|done..]. }
    destruct (bool_decide (x = x5b)) eqn:Eb.
    + pose proof (parse_section_read c cur p' Hw) as H. destruct (parse_section c cur p') as [[c' cur'] q]. destruct H as (H1 & H2 & H3). split; [done|split; [lia|exact H3]].
    + assert (Hks : key_start x = true) by (unfold key_start; rewrite Eb, Ee; cbn [orb]; by rewrite Ec).
      pose proof (parse_entry_read c cur x p' Hw Ee1 Hb Hks) as H. destruct (parse_entry c cur (x :: p')) as [[c' cur'] q]. destruct H as (H1 & H2 & H3). split; [done|split; [lia|exact H3]].
Qed.

Lemma parse_loop_read fuel c cur p : well_read c cur -> (length p <= fuel)%nat ->
  exists c', parse_loop fuel c cur p = Some c' /\ clean c' /\ cfg_path c' = cfg_path c /\ cfg_dirty c' = cfg_dirty c.
Proof.
  revert c cur p. induction fuel as [|fuel IH]; intros c cur [|x p] Hw Hl; simpl in Hl; try lia; try (exists c; split; [done|split; [apply Hw|done]]).
  cbn [parse_loop]. pose proof (parse_step_read c cur (x :: p) Hw ltac:(done)) as Hs. destruct (parse_step c cur (x :: p)) as [[c1 cur1] q].
  destruct Hs as (H1 & H2 & H3 & H4). simpl in H2. destruct (IH c1 cur1 q H1) as (c' & E & Hc & E1 & E2); [lia|]. exists c'. split; [done|]. split; [done|]. split; congruence.
Qed.

Definition start_cfg (path : option cstr) : cfg_file := match path with Some q => cfg_zero <| cfg_path := q |> | None => cfg_zero end.
Definition path_fits (path : option cstr) : Prop := match path with Some q => zlen q < CFG_PATH_LEN | None => True end.

Lemma cfg_parse_loop buf path : path_fits path -> cfg_parse buf path = match parse_loop (length buf) (start_cfg path) None buf with Some c => Done c | None => Fault end.
Proof. unfold cfg_parse, path_fits. destruct path as [q|]; [|done]. intros Hq. by rewrite (proj2 (Z.ltb_lt _ _) Hq). Qed.

(** Every text is read, and what is read keeps within the arrays. *)
Lemma cfg_parse_total buf path : path_fits path -> exists c, cfg_parse buf path = Done c /\ clean c /\ cfg_path c = default [] path /\ cfg_dirty c = 0.
Proof.
  intros Hq. rewrite cfg_parse_loop by done. destruct (parse_loop_read (length buf) (start_cfg path) None buf) as (c & -> & Hc & E1 & E2); [|done|].
  - split; [|by destruct path]. split; [by destruct path|]. destruct path; unfold cfg_count, CFG_MAX_SECTIONS; cbn; lia.
  - exists c. rewrite E1, E2. by destruct path.
Qed.

(** ** What is written is read back *)

Definition render_entry (e : cstr * cstr) : cstr := fst e ++ x3d :: snd e ++ [newline].
Definition is_global (s : cfg_section) : bool := bool_decide (cs_name s = cs "global").
Definition render_header (s : cfg_section) : cstr := if is_global s then [] else x5b :: cs_name s ++ [x5d; newline].
Definition render_section (s : cfg_section) : cstr := render_header s ++ concat (render_entry <$> cs_entries s) ++ [newline].
(** The text of a configuration. *)
Definition render (ss : list cfg_section) : cstr := concat (render_section <$> ss).

(** Appends are grouped to the right. *)
Ltac app_norm := repeat first [rewrite <- app_assoc | progress cbn [app]].

Lemma put_ok bufsz buf bytes : zlen buf + zlen bytes <= bufsz -> put bufsz buf bytes = Done (buf ++ bytes).
Proof. intros H. unfold put. by rewrite (proj2 (Z.leb_le _ _) H). Qed.
Lemma put_str_ok bufsz buf s : zlen buf + zlen s < bufsz -> put_str bufsz buf s = Done (buf ++ s).
Proof. intros H. unfold put_str. by rewrite (proj2 (Z.leb_le (zlen buf + zlen s + 1) bufsz)) by lia. Qed.

Lemma ser_entries_render bufsz es buf : zlen buf + zlen (concat (render_entry <$> es)) < bufsz - 1 ->
  ser_entries bufsz es buf = Done (buf ++ concat (render_entry <$> es)).
Proof.
  revert buf. induction es as [|[k v] es IH]; intros buf Hl; [by rewrite app_nil_r|]. cbn [ser_entries]. rewrite fmap_cons in *. cbn [concat] in *.
  unfold render_entry in Hl at 1. cbn [fst snd] in Hl. rewrite !length_app in Hl. cbn [length] in Hl. rewrite length_app in Hl. cbn [length] in Hl.
  rewrite (proj2 (Z.leb_gt _ _)) by lia. rewrite put_str_ok by lia. cbn [obind]. rewrite put_ok by (rewrite !length_app; cbn [length]; lia). cbn [obind].
  rewrite put_str_ok by (rewrite !length_app; cbn [length]; lia). cbn [obind]. rewrite put_ok by (rewrite !length_app; cbn [length]; lia). cbn [obind].
  rewrite IH by (rewrite !length_app; cbn [length]; lia). unfold render_entry at 2. cbn [fst snd]. f_equal. by app_norm.
Qed.

Lemma ser_sections_render bufsz ss buf : zlen buf + zlen (render ss) < bufsz -> ser_sections bufsz ss buf = Done (buf ++ render ss).
Proof.
  revert buf. induction ss as [|s ss IH]; intros buf Hl; [by rewrite app_nil_r|]. cbn [ser_sections]. unfold render in *. rewrite fmap_cons in *. cbn [concat] in *.
  set (es := concat (render_entry <$> cs_entries s)) in *. set (rest := concat (render_section <$> ss)) in *.
  assert (Hbody : forall b, zlen b + zlen es + 1 + zlen rest < bufsz ->
    (let! b1 := ser_entries bufsz (cs_entries s) b in let! b' := put bufsz b1 [newline] in ser_sections bufsz ss b') = Done (b ++ es ++ [newline] ++ rest)).
  { intros b Hb. rewrite ser_entries_render by (fold es; lia). cbn [obind]. fold es. rewrite put_ok by (rewrite !length_app; cbn [length]; lia). cbn [obind].
    rewrite IH by (rewrite !length_app; cbn [length]; lia). by rewrite <- !app_assoc. }
  unfold render_section in *. fold es in Hl |- *. rewrite !length_app in Hl. cbn [length] in Hl. unfold render_header, is_global in *. case_bool_decide as Eg.
  - rewrite Hbody by (cbn [length] in Hl; lia). cbn. by rewrite <- !app_assoc.
  - cbn [length] in Hl. rewrite length_app in Hl. cbn [length] in Hl. rewrite (proj2 (Z.leb_gt _ _)) by lia. rewrite put_ok by (cbn [length]; lia). cbn [obind].
    rewrite put_str_ok by (rewrite !length_app; cbn [length]; lia). cbn [obind]. rewrite put_ok by (rewrite !length_app; cbn [length]; lia). cbn [obind].
    rewrite Hbody by (rewrite !length_app; cbn [length]; lia). f_equal. by app_norm.
Qed.

Lemma take_until_app stop room a x r : Forall (fun c => stop c = false) a -> stop x = true -> (length a <= room)%nat -> take_until stop room (a ++ x :: r) = (a, x :: r).
Proof.
  intros Ha Hx. revert room. induction Ha as [|c a Hc Ha IH]; intros room Hl; simpl in *.
  - destruct room; [done|]. simpl. by rewrite Hx.
  - destruct room as [|room]; [lia|]. simpl. rewrite Hc, IH by lia. done.
Qed.
Lemma take_key_app room started k r : Forall (fun c => key_byte c = true) k -> (length k <= room)%nat -> take_key room started (k ++ x3d :: r) = (k, x3d :: r).
Proof.
  intros Hk. revert room started. induction Hk as [|c k Hc Hk IH]; intros room started Hl; [done|]. cbn [app take_key].
  unfold key_byte in Hc. apply negb_true_iff, orb_false_iff in Hc as [Hc1 Hc2]. rewrite Hc1, Hc2. simpl in Hl. destruct room as [|room]; [lia|].
  cbn [orb negb Nat.eqb pred]. rewrite IH by lia. done.
Qed.

Lemma parse_pair_render k v r : clean_key k -> clean_val v -> parse_pair (render_entry (k, v) ++ r) = (Some (k, v), newline :: r).
Proof.
  intros (K1 & K2 & K3) (V1 & V2 & V3 & V4). unfold render_entry. cbn [fst snd]. app_norm.
  unfold parse_pair. rewrite take_key_app by done. assert (Es : skip_blanks (v ++ newline :: r) = v ++ newline :: r).
  { destruct v as [|c v]; [done|]. unfold skip_blanks in *. simpl in *. destruct (is_blank c); [|done]. exfalso. pose proof (skip_while_length is_blank v) as Hl. rewrite V1 in Hl. simpl in Hl. lia. }
  rewrite Es, take_until_app, V2 by done. by destruct k.
Qed.

(** The passes of the loop, from one state of the parser to another. *)
Definition pstate : Type := cfg_file * option nat * cstr.
Definition pass (s t : pstate) : Prop := let '(c, cur, p) := s in p <> [] /\ parse_step c cur p = t.

Lemma passes_loop s c' cur' : rtc pass s (c', cur', []) -> exists fuel, parse_loop fuel (fst (fst s)) (snd (fst s)) (snd s) = Some c'.
Proof.
  remember (c', cur', []) as t eqn:Et. induction 1 as [s|[[c cur] p] t u [Hp Hs] _ IH]; subst; [by exists O|].
  destruct (IH eq_refl) as [fuel E]. exists (S fuel). cbn [fst snd]. destruct p as [|x p]; [done|]. cbn [parse_loop]. by destruct (parse_step c cur (x :: p)) as [[c1 cur1] q].
Qed.
Lemma parse_loop_det f g c cur p a b : parse_loop f c cur p = Some a -> parse_loop g c cur p = Some b -> a = b.
Proof.
  revert g c cur p. induction f as [|f IH]; intros [|g] c cur [|x p]; simpl; try congruence.
  destruct (parse_step c cur (x :: p)) as [[c1 cur1] q]. apply IH.
Qed.

Section Rendered.
Context (path : cstr) (dirty : Z).
Abbreviation file ss := (mk_cfg ss path dirty).

Lemma pass_newline c cur r : pass (c, cur, newline :: r) (c, cur, r).
Proof. done. Qed.

Lemma step_entry c cur e r : clean_key (fst e) -> parse_step c cur (render_entry e ++ r) = parse_entry c cur (render_entry e ++ r).
Proof.
  destruct e as [k v]. cbn [fst]. intros (K1 & K2 & _). unfold render_entry. cbn [fst snd]. destruct k as [|x k]; [done|].
  unfold parse_step, skip_blanks. cbn [app skip_while]. apply list.Forall_cons in K2 as [K2 _]. unfold key_byte in K2. apply negb_true_iff, orb_false_iff in K2 as [_ K2].
  rewrite K2. unfold key_start in K1. apply negb_true_iff, orb_false_iff in K1 as [[[K1 K3]%orb_false_iff K4]%orb_false_iff K5]. by rewrite K1, K3, K4, K5.
Qed.

Lemma pass_entry pre n d e r : clean_key (fst e) -> clean_val (snd e) -> zlen d < CFG_MAX_KEYS ->
  pass (file (pre ++ [mk_section n d]), Some (length pre), render_entry e ++ r) (file (pre ++ [mk_section n (d ++ [e])]), Some (length pre), newline :: r).
Proof.
  intros Hk Hv Hd. split; [destruct e as [[|x k] v]; [by destruct Hk|done]|]. rewrite step_entry by done. unfold parse_entry. cbn [current_section cfg_sections].
  rewrite (list_lookup_middle pre [] _ (length pre)) by done. cbn [fmap option_fmap option_map default cs_entries]. rewrite (proj2 (Z.leb_gt _ _)) by (cbn; lia).
  destruct e as [k v]. rewrite parse_pair_render by done. unfold upd_section. cbn [cfg_sections]. rewrite alter_app_r_alt, Nat.sub_diag by lia. done.
Qed.

(** A pair before any section: the section [global] is made first. *)
Lemma pass_first e r : clean_key (fst e) -> clean_val (snd e) ->
  pass (file [], None, render_entry e ++ r) (file [mk_section (cs "global") [e]], Some O, newline :: r).
Proof.
  intros Hk Hv. destruct (pass_entry [] (cs "global") [] e r Hk Hv) as [H1 H2]; [done|]. split; [done|]. rewrite step_entry in * by done. exact H2.
Qed.

Lemma passes_entries pre n d es r : Forall (fun e => clean_key (fst e) /\ clean_val (snd e)) es -> zlen d + zlen es <= CFG_MAX_KEYS ->
  rtc pass (file (pre ++ [mk_section n d]), Some (length pre), concat (render_entry <$> es) ++ r) (file (pre ++ [mk_section n (d ++ es)]), Some (length pre), r).
Proof.
  intros Hes. revert d. induction Hes as [|e es [Hk Hv] Hes IH]; intros d Hl; [by rewrite app_nil_r|]. rewrite fmap_cons. cbn [concat length] in *. rewrite <- app_assoc.
  eapply rtc_l; [apply pass_entry; [done..|lia]|]. eapply rtc_l; [apply pass_newline|].
  replace (d ++ e :: es) with ((d ++ [e]) ++ es) by (by app_norm). apply IH. rewrite length_app. cbn [length]. lia.
Qed.

Lemma pass_header pre n r : clean_name n -> zlen pre < CFG_MAX_SECTIONS ->
  pass (file pre, last_section (file pre), x5b :: n ++ x5d :: newline :: r) (file (pre ++ [mk_section n []]), Some (length pre), newline :: r).
Proof.
  intros [Hn Hl] Hp. split; [done|]. change (parse_section (file pre) (last_section (file pre)) (n ++ x5d :: newline :: r) = (file (pre ++ [mk_section n []]), Some (length pre), newline :: r)).
  unfold parse_section, cfg_count. cbn [cfg_sections].
  rewrite (proj2 (Z.leb_gt _ _)) by lia. rewrite take_until_app by done. done.
Qed.

Lemma passes_section pre s r : clean_section s -> is_global s = false -> zlen pre < CFG_MAX_SECTIONS ->
  rtc pass (file pre, last_section (file pre), render_section s ++ r) (file (pre ++ [s]), last_section (file (pre ++ [s])), r).
Proof.
  intros (Hn & He & Hl) Hg Hp. unfold render_section, render_header. rewrite Hg. app_norm. eapply rtc_l; [by apply pass_header|].
  eapply rtc_l; [apply pass_newline|]. etransitivity; [apply (passes_entries pre (cs_name s) [] (cs_entries s)); [done|cbn; lia]|].
  unfold last_section. cbn [cfg_sections app]. rewrite length_app, Nat.add_1_r. eapply rtc_l; [apply pass_newline|]. by destruct s.
Qed.

Lemma passes_global s r : clean_section s -> is_global s = true -> cs_entries s <> [] ->
  rtc pass (file [], None, render_section s ++ r) (file [s], Some O, r).
Proof.
  intros (_ & He & Hl) Hg Hne. unfold render_section, render_header. rewrite Hg. cbn [app]. destruct s as [n [|e es]]; cbn [cs_entries] in *; [done|].
  unfold is_global in Hg. apply bool_decide_eq_true in Hg. cbn in Hg. subst n. apply list.Forall_cons in He as [[Hk Hv] He].
  rewrite fmap_cons. cbn [concat length] in *. app_norm. eapply rtc_l; [by apply pass_first|]. eapply rtc_l; [apply pass_newline|].
  etransitivity; [apply (passes_entries [] (cs "global") [e] es); [done|cbn [length]; lia]|]. eapply rtc_l; [apply pass_newline|]. done.
Qed.

Lemma passes_sections pre ss : Forall clean_section ss -> Forall (fun s => is_global s = false) ss -> zlen pre + zlen ss <= CFG_MAX_SECTIONS ->
  rtc pass (file pre, last_section (file pre), render ss) (file (pre ++ ss), last_section (file (pre ++ ss)), []).
Proof.
  intros Hs. revert pre. induction Hs as [|s ss Hc Hs IH]; intros pre Hg Hl; [by rewrite app_nil_r|]. apply list.Forall_cons in Hg as [Hg1 Hg]. cbn [length] in Hl.
  unfold render. rewrite fmap_cons. cbn [concat]. etransitivity; [apply passes_section; [done..|lia]|].
  replace (pre ++ s :: ss) with ((pre ++ [s]) ++ ss) by (by app_norm). apply IH; [done|]. rewrite length_app. cbn [length]. lia.
Qed.
End Rendered.

(** A section [global] comes first, if at all, and is not empty. *)
Definition globals_ok (ss : list cfg_section) : Prop :=
  match ss with
  | [] => True
  | s :: ss' => (is_global s = true -> cs_entries s <> []) /\ Forall (fun s => is_global s = false) ss'
  end.

Lemma passes_render path dirty ss : Forall clean_section ss -> zlen ss <= CFG_MAX_SECTIONS -> globals_ok ss ->
  rtc pass (mk_cfg [] path dirty, None, render ss) (mk_cfg ss path dirty, last_section (mk_cfg ss path dirty), []).
Proof.
  intros Hs Hl Hg. destruct ss as [|s ss]; [done|]. destruct Hg as [Hg Hgs]. destruct (is_global s) eqn:E.
  - apply list.Forall_cons in Hs as [Hs Hss]. unfold render. rewrite fmap_cons. cbn [concat]. etransitivity; [by apply passes_global, Hg|].
    apply (passes_sections path dirty [s] ss Hss Hgs). cbn [length] in *. lia.
  - apply (passes_sections path dirty [] (s :: ss)); [done| |done]. by constructor.
Qed.

Lemma parse_render path ss : path_fits path -> Forall clean_section ss -> zlen ss <= CFG_MAX_SECTIONS -> globals_ok ss ->
  cfg_parse (render ss) path = Done (mk_cfg ss (default [] path) 0).
Proof.
  intros Hp Hs Hl Hg. rewrite cfg_parse_loop by done. assert (E0 : start_cfg path = mk_cfg [] (default [] path) 0) by (by destruct path). rewrite E0.
  destruct (passes_loop _ _ _ (passes_render (default [] path) 0 ss Hs Hl Hg)) as [fuel Ef]. cbn [fst snd] in Ef.
  destruct (parse_loop_read (length (render ss)) (mk_cfg [] (default [] path) 0) None (render ss)) as (c & E & _); [|done|].
  - split; [|done]. split; [done|]. unfold cfg_count, CFG_MAX_SECTIONS. cbn. lia.
  - by rewrite E, (parse_loop_det _ _ _ _ _ _ _ E Ef).
Qed.

(** ** Setting a value *)

Lemma get_in_app pre ss section key : Forall (fun s => cs_name s <> section) pre -> get_in (pre ++ ss) section key = get_in ss section key.
Proof. induction 1 as [|s pre Hs _ IH]; [done|]. simpl. by rewrite bool_decide_eq_false_2. Qed.

(** A section is replaced by one that differs in the value of a key. *)
Lemma get_in_replace pre s s' post section key section' key' : cs_name s' = cs_name s ->
  (section' = cs_name s -> key' <> key -> snd <$> (snd <$> find_entry key' (cs_entries s')) = snd <$> (snd <$> find_entry key' (cs_entries s))) ->
  cs_name s = section -> (section', key') <> (section, key) -> get_in (pre ++ s' :: post) section' key' = get_in (pre ++ s :: post) section' key'.
Proof.
  intros En Hf <- Hne. induction pre as [|p pre IH]; simpl; [|by rewrite IH]. rewrite En. case_bool_decide as E; [|done].
  assert (Hk : key' <> key) by congruence. specialize (Hf (eq_sym E) Hk).
  by destruct (find_entry key' (cs_entries s')) as [[? []]|], (find_entry key' (cs_entries s)) as [[? []]|]; simplify_eq/=.
Qed.

Lemma find_entry_alter key key' val j es : (forall e, es !! j = Some e -> fst e = key) -> key' <> key ->
  snd <$> (snd <$> find_entry key' (alter (fun e => (fst e, val)) j es)) = snd <$> (snd <$> find_entry key' es).
Proof.
  unfold find_entry. revert j. induction es as [|e es IH]; intros j Hj Hne; [done|]. destruct j as [|j]; simpl.
  - specialize (Hj e eq_refl). rewrite !decide_False by congruence. done.
  - case_decide; [done|]. specialize (IH j Hj Hne). unfold prod_map, alter in *.
    by destruct (list_find _ (list_alter _ j es)) as [[? []]|], (list_find _ es) as [[? []]|]; simplify_eq/=.
Qed.

Lemma find_entry_snoc key val key' es : key' <> key -> snd <$> (snd <$> find_entry key' (es ++ [(key, val)])) = snd <$> (snd <$> find_entry key' es).
Proof.
  intros Hne. unfold find_entry. induction es as [|e es IH]; simpl; [by rewrite decide_False|]. case_decide; [done|].
  by destruct (list_find _ (es ++ _)) as [[? []]|], (list_find _ es) as [[? []]|]; simplify_eq/=.
Qed.
Lemma find_entry_new key val es : find_entry key es = None -> exists i, find_entry key (es ++ [(key, val)]) = Some (i, (key, val)).
Proof.
  unfold find_entry. induction es as [|e es IH]; simpl; [rewrite decide_True by done; eauto|]. case_decide; [done|].
  destruct (list_find _ es) as [[]|] eqn:E; [done|]. intros _. destruct IH as [i ->]; [done|]. eauto.
Qed.
Lemma find_entry_set key val es j e : find_entry key es = Some (j, e) -> find_entry key (alter (fun e => (fst e, val)) j es) = Some (j, (key, val)).
Proof.
  unfold find_entry. revert j e. induction es as [|a es IH]; intros j e; [done|]. simpl. case_decide as Hk.
  - intros [= <- <-]. simpl. rewrite decide_True by done. by subst.
  - destruct (list_find _ es) as [[j' e']|] eqn:E; [|done]. intros [= <- <-]. simpl. rewrite decide_False by done. unfold alter in IH. by erewrite IH.
Qed.

(** The section a value is put in: the first of its name. *)
Lemma set_section_spec c section c1 k : set_section c section = Done (c1, Some k) ->
  (forall s' k', cfg_get c1 s' k' = cfg_get c s' k') /\
  exists pre s post, cfg_sections c1 = pre ++ s :: post /\ length pre = k /\ cs_name s = section /\ Forall (fun s => cs_name s <> section) pre.
Proof.
  unfold set_section, find_section. destruct (list_find _ _) as [[i s]|] eqn:E.
  - intros [= <- <-]. split; [done|]. apply list_find_Some in E as (E1 & E2 & E3). exists (take i (cfg_sections c)), s, (drop (S i) (cfg_sections c)).
    split_and!; [by rewrite take_drop_middle|apply length_take_le; apply lookup_lt_Some in E1; lia|done|].
    apply list.Forall_lookup. intros j x Hj. apply lookup_take_Some in Hj as [Hj Hlt]. eauto.
  - case_match; [done|]. unfold fit_array. case_match; [|done]. cbn [obind]. intros [= <- <-]. apply list_find_None in E. split.
    + intros s' k'. unfold cfg_get. cbn [cfg_sections upd]. induction (cfg_sections c) as [|s ss IH]; simpl; [by case_bool_decide|].
      apply list.Forall_cons in E as [_ E]. rewrite IH by done. done.
    + exists (cfg_sections c), (mk_section section []), []. done.
Qed.

Lemma cfg_set_get c section key val c' : cfg_set c section key val = Done (0, c') ->
  cfg_get c' section key = Some val /\ (forall s' k', (s', k') <> (section, key) -> cfg_get c' s' k' = cfg_get c s' k') /\ cfg_dirty c' = 1.
Proof.
  unfold cfg_set. destruct (set_section c section) as [[c1 [k|]]|] eqn:Es; cbn [obind]; [|done..]. apply set_section_spec in Es as (Hc1 & pre & s & post & Ess & Hk & Hn & Hpre).
  rewrite Ess, <- Hk, list_lookup_middle by done. cbn [fmap option_fmap option_map from_option]. unfold id, upd_section. cbn [cfg_sections upd].
  assert (Hw : forall es', (forall s' k', (s', k') <> (section, key) -> s' = cs_name s -> snd <$> (snd <$> find_entry k' es') = snd <$> (snd <$> find_entry k' (cs_entries s))) ->
    (exists i, find_entry key es' = Some (i, (key, val))) ->
    cfg_get (mk_cfg (pre ++ mk_section (cs_name s) es' :: post) (cfg_path c1) 1) section key = Some val /\
    forall s' k', (s', k') <> (section, key) -> cfg_get (mk_cfg (pre ++ mk_section (cs_name s) es' :: post) (cfg_path c1) 1) s' k' = cfg_get c s' k').
  { intros es' Ho [i Hi]. split; [unfold cfg_get; cbn [cfg_sections]; rewrite get_in_app by done; simpl; rewrite bool_decide_eq_true_2 by done; by rewrite Hi|].
    intros s' k' Hne. rewrite <- Hc1. unfold cfg_get. rewrite Ess. apply (get_in_replace _ _ _ _ section key); [done| |done|done]. cbn [cs_entries]. intros E _. by apply (Ho s'). }
  destruct (find_entry key (cs_entries s)) as [[j e]|] eqn:Ef.
  - unfold fit_array. destruct (zlen val <? CFG_VAL_LEN); cbn [obind]; [|done]. intros [= <-]. rewrite ?Ess, alter_app_r_alt, Nat.sub_diag by lia. cbn.
    destruct (Hw (alter (fun e => (fst e, val)) j (cs_entries s))) as [H1 H2]; [|by eexists; eapply find_entry_set|by split_and!].
    intros s' k' Hne E. rewrite Hn in E. subst s'. apply (find_entry_alter key); [|congruence]. intros x Hx. apply list_find_Some in Ef as (Ef & <- & _). congruence.
  - destruct (CFG_MAX_KEYS <=? _); [done|]. unfold fit_array. destruct (zlen key <? CFG_KEY_LEN); cbn [obind]; [|done]. destruct (zlen val <? CFG_VAL_LEN); cbn [obind]; [|done].
    intros [= <-]. rewrite ?Ess, alter_app_r_alt, Nat.sub_diag by lia. cbn.
    destruct (Hw (cs_entries s ++ [(key, val)])) as [H1 H2]; [|by apply find_entry_new|by split_and!].
    intros s' k' Hne E. rewrite Hn in E. subst s'. apply find_entry_snoc. congruence.
Qed.
