(* ===== verification/Netman.v ===== *)
(** * The clients of the network (src/src/dns.c, icmp.c, unm.c, ntp.c, http_client.c)

    Name resolution, echo requests, the network manager with its profiles and address leases, the
    time client and the HTTP client.  The first two work on the state of the network alone; the
    others on [man_state], which puts the manager, the network, the configuration, the correction of
    the clock and the heap side by side.  The network code reads the routes of the manager, so each
    call of it starts with them.  Output on the console is left out.  Arrays of four bytes that a
    function fills are its result; what a failed call leaves in them is given back where a caller
    goes on with it. *)

From S2P Require Import Prelude Cstring Alloc Kernel Socket Net Tcp Vfs Time Tzif Clock Config.

(** ** Waiting

    [while ((int)(pit_get_ticks() - t0) < limit) body].  The difference is signed, so that a pass that
    took too long leaves the loop going until the counter has come round: up to 2^32 passes, counted
    by a binary number. *)

(** At most [p] passes, until one ends with [inr]. *)
Fixpoint passes {S A R} (p : positive) (pass : A -> M S (A + R)) (a : A) : M S (A + R) :=
  let again q x := match x with inl a' => passes q pass a' | inr r => ret (inr r) end in
  match p with
  | xH => pass a
  | xO q => let* x := passes q pass a in again q x
  | xI q => let* x := pass a in let* y := again q x in again q y
  end.

Definition signed_pass {A R} (start limit : Z) (body : A -> T (A + R)) (a : A) : T (A + (A + R)) :=
  let* e := since start in
  if i32 e <? limit then let* r := body a in ret (match r with inl a' => inl a' | inr x => inr (inr x) end)
  else ret (inr (inl a)).
Definition poll_signed {A R} (start limit : Z) (body : A -> T (A + R)) (a : A) : T (A + R) :=
  let* w := gets n_wire in
  let* r := passes (Z.to_pos (zlen w + 2 ^ 33)) (signed_pass start limit body) a in
  match r with inr x => ret x | inl _ => fault end.

(** Both receive buffers have 1600 bytes. *)
Definition RXBUF : Z := 1600.

(** ** Names (dns.c) *)

Definition DNS_PORT : Z := 53.
Definition DNS_CLIENT_PORT : Z := 33533.
Definition DNS_QTYPE_A : Z := 1.
Definition DNS_QCLASS_IN : Z := 1.
Definition DNS_MAX_LABEL : Z := 63.
Definition DNS_MAX_NAME : Z := 255.
Definition DNS_FLAG_QR : Z := 0x8000.
Definition DNS_FLAG_RD : Z := 0x0100.
Definition DNS_RCODE_MASK : Z := 0x000f.
(** [sizeof(dns_hdr_t)] *)
Definition DNS_HLEN : Z := 12.

Definition is_dot (c : byte) : bool := bool_decide (c = dot).

(** One label at a time; there are at most as many labels as bytes and one more. *)
Fixpoint encode_labels (fuel : nat) (outsz : Z) (s : cstr) (out : list byte) : outcome (option (list byte)) :=
  match fuel with
  | O => Fault
  | S fuel' =>
    let '(label, p) := take_until is_dot (length s) s in
    if (zlen label =? 0) || (DNS_MAX_LABEL <? zlen label) then Done None
    else if outsz <=? zlen out + 1 + zlen label then Done None
    else
      let out' := out ++ zb (zlen label) :: label in
      match p with
      | _ :: s' => encode_labels fuel' outsz s' out'
      | [] => Done (if outsz <=? zlen out' + 1 then None else Some (out' ++ [nul]))
      end
  end.
Definition dns_encode_name (host : cstr) (outsz : Z) : outcome (option (list byte)) := encode_labels (S (length host)) outsz host [].

(** The bytes a name takes at [off], or -1. *)
Fixpoint skip_labels (fuel : nat) (msg : list byte) (start off : Z) : T Z :=
  match fuel with
  | O => fault
  | S fuel' =>
    if off <? zlen msg then
      let* len := rd8 msg off in
      if len =? 0 then ret (off + 1 - start)
      else if Z.land len 0xc0 =? 0xc0 then
        if zlen msg <? off + 2 then ret (-1) else ret (off + 2 - start)
      else if DNS_MAX_LABEL <? len then ret (-1)
      else skip_labels fuel' msg start (off + (1 + len))
    else ret (-1)
  end.
Definition dns_skip_name (msg : list byte) (off : Z) : T Z := skip_labels (S (length msg)) msg off off.

Definition dns_header (id flags qdcount ancount : Z) : list byte := be16 id ++ be16 flags ++ be16 qdcount ++ be16 ancount ++ le16 0 ++ le16 0.
Definition broadcast : list Z := replicate 6 0xff.

(** The frame of a query: the name and what is behind it. *)
Definition dns_query (n : net_state) (server : list Z) (txid : Z) (qname : list byte) : list byte :=
  let dns_len := DNS_HLEN + zlen qname + 4 in
  eth_header broadcast (n_mac n) ++ ip_packet (n_ip n) server 0 IPPROTO_UDP (8 + dns_len) ++
  be16 DNS_CLIENT_PORT ++ be16 DNS_PORT ++ be16 (8 + dns_len) ++ le16 0 ++
  dns_header txid DNS_FLAG_RD 1 0 ++ qname ++ [zb 0; zb DNS_QTYPE_A; zb 0; zb DNS_QCLASS_IN].

Definition dns_send_query (server : list Z) (host : cstr) (txid : Z) : T Z :=
  let* name := lift (dns_encode_name host ((14 + 20 + 8 + 12 + DNS_MAX_NAME + 4) - (14 + 20 + 8 + DNS_HLEN + 4))) in
  match name with
  | None => ret (-1)
  | Some qname => let* n := gets (fun n => n) in net_send (dns_query n server txid qname)
  end.

(** The offset behind the questions. *)
Fixpoint skip_questions (count : nat) (f : list byte) (off : Z) : T (option Z) :=
  match count with
  | O => ret (Some off)
  | S count' =>
    let* n := dns_skip_name f off in
    if (n <? 0) || (zlen f - off - 4 <? n) then ret None else skip_questions count' f (off + (n + 4))
  end.

Fixpoint find_address (count : nat) (f : list byte) (off0 : Z) : T (option (list Z)) :=
  match count with
  | O => ret None
  | S count' =>
    let* n := dns_skip_name f off0 in
    if n <? 0 then ret None
    else
      let off := off0 + n in
      if zlen f <? off + 10 then ret None
      else
        let* t := rd16 f off in
        let* c := rd16 f (off + 2) in
        let* l := rd16 f (off + 8) in
        let rdlen := net_bswap16 l in
        let data := off + 10 in
        if zlen f <? data + rdlen then ret None
        else if (net_bswap16 t =? DNS_QTYPE_A) && (net_bswap16 c =? DNS_QCLASS_IN) && (rdlen =? 4) then
          let* ip := rdn f data 4 in ret (Some ip)
        else find_address count' f (data + rdlen)
  end.

Definition dns_parse_response (f : list byte) (txid : Z) : T (option (list Z)) :=
  if zlen f <? 14 + 20 + 8 + DNS_HLEN then ret None
  else
    let* ethertype := rd16 f 12 in
    if negb (net_bswap16 ethertype =? 0x0800) then ret None
    else
      let* ver_ihl := rd8 f 14 in
      let* protocol := rd8 f 23 in
      if negb (Z.shiftr ver_ihl 4 =? 4) || negb (protocol =? 17) then ret None
      else
        let ihl := Z.land ver_ihl 0x0f * 4 in
        if (ihl <? 20) || (zlen f <? 14 + ihl + 8) then ret None
        else
          let* src_port := rd16 f (14 + ihl) in
          if negb (net_bswap16 src_port =? DNS_PORT) then ret None
          else
            let dns_off := 14 + ihl + 8 in
            if zlen f <? dns_off + DNS_HLEN then ret None
            else
              let* id := rd16 f dns_off in
              if negb (net_bswap16 id =? txid) then ret None
              else
                let* flags := rd16 f (dns_off + 2) in
                if (Z.land (net_bswap16 flags) DNS_FLAG_QR =? 0) || negb (Z.land (net_bswap16 flags) DNS_RCODE_MASK =? 0) then ret None
                else
                  let* qdcount := rd16 f (dns_off + 4) in
                  let* ancount := rd16 f (dns_off + 6) in
                  if net_bswap16 ancount =? 0 then ret None
                  else
                    let* q := skip_questions (Z.to_nat (net_bswap16 qdcount)) f (dns_off + DNS_HLEN) in
                    match q with None => ret None | Some off => find_address (Z.to_nat (net_bswap16 ancount)) f off end.

(** Four numbers between dots; a number that overflows the signed type is taken to wrap around. *)
Fixpoint quad_loop (s : cstr) (val : Z) (out : list Z) : option (list Z) :=
  match s with
  | [] => if (4 <=? zlen out) || (255 <? val) then None else if zlen out + 1 =? 4 then Some (out ++ [u8 val]) else None
  | c :: s' =>
    if is_dot c then if (4 <=? zlen out) || (255 <? val) then None else quad_loop s' 0 (out ++ [u8 val])
    else if kis_digit (bz c) then quad_loop s' (i32 (val * 10 + (bz c - 48))) out
    else None
  end.
Definition count_dots (s : cstr) : Z := zlen (filter (fun c => is_dot c = true) s).
Definition digits_and_dots (s : cstr) : bool := forallb (fun c => is_dot c || kis_digit (bz c)) s.

(** The address, or nothing for -1. *)
Definition dns_resolve (hostname : option cstr) (server : list Z) : T (option (list Z)) :=
  let* ini := gets n_initialized in
  if ini =? 0 then ret None
  else match hostname with
  | None | Some [] => ret None
  | Some host =>
    if (count_dots host =? 3) && digits_and_dots host then ret (quad_loop host 0 [])
    else
      let* ticks := pit_get_ticks in
      let txid := Z.land ticks 0xffff in
      let* sent := dns_send_query server host txid in
      if sent <? 0 then ret None
      else
        let* t0 := pit_get_ticks in
        let* r := poll_signed t0 300 (fun _ =>
          let* f := net_recv RXBUF in
          let* ip := (if 0 <? zlen f then dns_parse_response f txid else ret None) in
          match ip with Some ip => ret (inr ip) | None => do* pit_sleep 2 in ret (inl tt) end) tt in
        ret (match r with inr ip => Some ip | inl _ => None end)
  end.

(** ** Echo requests (icmp.c) *)

Definition ICMP_TYPE_ECHO_REQUEST : Z := 8.
Definition ICMP_TYPE_ECHO_REPLY : Z := 0.
Definition ICMP_ID_DEFAULT : Z := 0xc0de.
Definition ICMP_HLEN : Z := 8.
Definition ICMP_PAYLOAD_LEN : Z := 32.

Definition icmp_payload : list byte := (fun i => zb (0x41 + i mod 26)) <$> seqZ 0 ICMP_PAYLOAD_LEN.
Definition icmp_message (type id seq csum : Z) (payload : list byte) : list byte := [zb type; zb 0] ++ le16 csum ++ be16 id ++ be16 seq ++ payload.
Definition icmp_packet (type id seq : Z) (payload : list byte) : list byte :=
  icmp_message type id seq (net_ip_checksum (icmp_message type id seq 0 payload)) payload.
Definition icmp_frame (n : net_state) (dst : list Z) (id seq : Z) : list byte :=
  eth_header broadcast (n_mac n) ++ ip_packet (n_ip n) dst seq 1 (ICMP_HLEN + ICMP_PAYLOAD_LEN) ++ icmp_packet ICMP_TYPE_ECHO_REQUEST id seq icmp_payload.
Definition icmp_send_echo (dst : list Z) (id seq : Z) : T Z := let* n := gets (fun n => n) in net_send (icmp_frame n dst id seq).

(** The sender of a matching reply. *)
Definition icmp_match_reply (f : list byte) (id seq : Z) : T (option (list Z)) :=
  if zlen f <? 14 + 20 + ICMP_HLEN then ret None
  else
    let* ethertype := rd16 f 12 in
    if negb (net_bswap16 ethertype =? 0x0800) then ret None
    else
      let* protocol := rd8 f 23 in
      if negb (protocol =? 1) then ret None
      else
        let* ver_ihl := rd8 f 14 in
        let ihl := Z.land ver_ihl 0x0f * 4 in
        if zlen f <? 14 + ihl + ICMP_HLEN then ret None
        else
          let* type := rd8 f (14 + ihl) in
          if negb (type =? ICMP_TYPE_ECHO_REPLY) then ret None
          else
            let* rid := rd16 f (14 + ihl + 4) in
            let* rseq := rd16 f (14 + ihl + 6) in
            if negb (net_bswap16 rid =? id) || negb (net_bswap16 rseq =? seq) then ret None
            else let* src := rdn f 26 4 in ret (Some src).

(** Milliseconds, or -1. *)
Definition icmp_ping_once (dst : list Z) (seq timeout_ticks : Z) : T Z :=
  let* ini := gets n_initialized in
  if ini =? 0 then ret (-1)
  else
    let* t0 := pit_get_ticks in
    let* sent := icmp_send_echo dst ICMP_ID_DEFAULT seq in
    if sent <? 0 then ret (-1)
    else
      let* r := poll_signed t0 (i32 timeout_ticks) (fun _ =>
        let* f := net_recv RXBUF in
        let* src := (if 0 <? zlen f then icmp_match_reply f ICMP_ID_DEFAULT seq else ret None) in
        match src with
        | Some _ => let* elapsed := since t0 in ret (inr (i32 (u32 (elapsed * 10))))
        | None => do* pit_sleep 1 in ret (inl tt)
        end) tt in
      ret (match r with inr ms => ms | inl _ => -1 end).

(** What [icmp_ping] prints at the end. *)
Record ping_stats := mk_ping { pg_sent : Z; pg_received : Z; pg_min : Z; pg_max : Z; pg_total : Z }.
#[export] Instance eta_ping : Eta ping_stats := fun p => mk_ping (pg_sent p) (pg_received p) (pg_min p) (pg_max p) (pg_total p).

Fixpoint ping_loop (dst : list Z) (count : Z) (idx : list Z) (p : ping_stats) : T ping_stats :=
  match idx with
  | [] => ret p
  | i :: idx' =>
    let* rtt := icmp_ping_once dst (u16 i) 200 in
    let p1 := p <| pg_sent := pg_sent p + 1 |> in
    let p2 := if 0 <=? rtt then
        p1 <| pg_received := pg_received p + 1 |> <| pg_min := Z.min (pg_min p) rtt |> <| pg_max := Z.max (pg_max p) rtt |> <| pg_total := u32 (pg_total p + rtt) |>
      else p1 in
    do* (if i <? count - 1 then pit_sleep 100 else ret tt) in
    ping_loop dst count idx' p2
  end.
Definition icmp_ping (dst : list Z) (count0 : Z) : T (option ping_stats) :=
  let* ini := gets n_initialized in
  if ini =? 0 then ret None
  else
    let count := if count0 <=? 0 then 4 else count0 in
    let* p := ping_loop dst count (seqZ 0 count) (mk_ping 0 0 0xffffffff 0 0) in
    ret (Some p).
